(* ===== verification/_CoqProject ===== *)
-Q . S2P
Prelude.v
Json.v
State.v
Schema.v
SchemaFacts.v
Admission.v
OperationStore.v
EffectStore.v
Cancellation.v
Inspection.v
Runtime.v
Drive.v
Concrete.v
Invariant.v
AdmissionInv.v
OperationInv.v
EffectInv.v
DispatchInv.v
Steps.v
DriveSound.v
Lifetime.v
Contract.v
SafetyTheorems.v
AdmissionTheorems.v
Progress.v
ActivationTheorems.v
CancellationTheorems.v
EffectTheorems.v
DecisionTheorems.v
ReadTheorems.v
Text.v
Messages.v
PendingTools.v
TurnContext.v
Compaction.v
PlanningFacts.v
LoopFormat.v
AgentLoop.v
AgentDecide.v
Sampling.v
LoopRuntime.v
LoopRefinement.v
LoopRuns.v
LoopBuilt.v
LoopConcrete.v
PlanningTheorems.v
SamplingTheorems.v
LoopTheorems.v
ContextTheorems.v
SessionTheorems.v
Protocol.v
ProtocolTheorems.v
Transaction.v
Runs.v
RunSqlite.v
RunSqliteSound.v
RunEngine.v
RunSound.v
RunTheorems.v
Control.v
Identity.v
Browser.v
IdentitySound.v
ControlStore.v
Journals.v
ControlRep.v
ControlPublish.v
ControlRuns.v
ControlReads.v
ControlDelivery.v
ControlTheorems.v
ControlTaskTheorems.v
ControlAgentTheorems.v
IdentityTheorems.v
Async.v
Coordinator.v
CoordinatorTheorems.v
NodeLedger.v
NodeSession.v
NodeTheorems.v
