(* ===== verification/Prelude.v ===== *)
(** * Renoa: the durable kernel, the model/tool loop, runs, the coordinator and its nodes

    Renoa runs agents whose work survives crashes. A *kernel*
    (src/crates/renoa-kernel) keeps commands, operations, effect batches and
    semantic history in one SQLite database and drives one operation of a
    session at a time; a *loop plugin* (src/crates/renoa-agent-loop) decides,
    from durable state only, what an operation does next: ask a model, run
    tools, compact the context, or end; *adapters* run the requested effects
    through provider-neutral models and tools (src/crates/renoa-agent). The
    kernel calls the plugin with an input rebuilt from the database, commits
    its decision in one transaction, dispatches the effects it requested, and
    resumes it with their outcomes.

    A *run engine* (src/crates/renoa-runtime over renoa-core) drives one model
    conversation with granted capabilities and writes a ledger of run events
    (renoa-store-sqlite). A *coordinator* (src/crates/renoa-control) lets
    devices of a principal reach agents on nodes: it keeps one journal per
    task, admits commands and execution events exactly once, and owes nodes
    their deliveries, stops and owners their wakes until they are settled. A
    *node* (src/crates/renoa-node) takes the commands of its tasks into a ledger
    of its own, runs them on its Host and publishes their events. The data they
    exchange is src/crates/renoa-protocol.

    ** Kernel

    - [Prelude]: results, tables, machine integers, shared lemmas and tactics.
    - [Json]: the interface of serde_json values. [State]: ids.rs, state.rs,
      operation_phase.rs, the records of runtime.rs and events.rs, the errors
      of lib.rs. JSON columns are the interface [JsonLib] with [Serde] and its
      round-trip law.
    - [Schema], [SchemaFacts]: schema.rs, request_release.rs: tables as finite
      maps, constraints as insertion checks, and the transaction monad [Tx]
      (an error leaves the database as it was).
    - [Admission], [OperationStore], [EffectStore] (with projection.rs and
      decision_store.rs), [Cancellation] (with unknown_effect.rs),
      [Inspection]: the transactions and reads of the files of the same names,
      one definition per function, every guard included.
    - [Runtime]: Runtime::new, manifests, the plugin interface, and the lease
      table of effect_supervision.rs.
      [Drive]: drive.rs. A drive is a computation over a [World] (database,
      leases, clock, invocation log); an [Environment] chooses identities,
      completions and failures of single transactions. The drive loop takes
      fuel; its theorems hold for every amount of it, and a drive that ran out
      is one that was stopped.
    - [Concrete]: a JSON instance and the reachable states on which theorems
      are instantiated.
    - [Invariant] and the [..Inv] files: the invariant of a stored database
      and its preservation by every transaction. [Steps]: the order in which
      databases evolve, and the kernel as a transition system. [DriveSound]: a
      program logic that shows a drive takes only such steps. [Lifetime]:
      sequences of calls with crashes at any transaction.
    - Theorems: [SafetyTheorems] (the invariant on every reachable database,
      at-most-once invocation of effects that must not be replayed, refinement
      of the step system by the drive, finality), [AdmissionTheorems]
      (exactly-once commands, order, exclusive submission, gapless append-only
      history), [ActivationTheorems], [DecisionTheorems], [EffectTheorems],
      [CancellationTheorems] (what each transaction writes, and when it is
      refused), [ReadTheorems]. [Progress] runs reads and transactions
      forwards.

    ** Agent and loop

    - [Text]: Rust strings as UTF-8 bytes, and codecs of concrete data.
      [Messages]: message.rs, model.rs, tool.rs of renoa-agent. [Sampling]:
      sampling.rs, events.rs and the loop's adapters.rs; a provider stream is a
      list of events, and cancellation may be noticed before any of them.
    - [TurnContext]: turn_timing.rs, turn_context.rs, format/command.rs, with
      their theorems (stored commands are read back, admitted text cannot
      forge markup). [PendingTools]: pending_tools.rs, code_mode.rs.
      [Compaction]: context.rs, with strategies as records of functions,
      compaction.rs and compaction/; its two binary searches take the fuel
      [search_fuel], shown to be enough, so that running out is never a result.
    - [LoopFormat]: format.rs and format/. [AgentLoop], [AgentDecide]:
      decision.rs and decision/. [LoopRuntime]: configuration.rs, usage.rs.
    - [LoopRefinement]: the loop as an abstract machine over phases and
      messages, every decision a transition of it, and the open calls of a
      transcript. [LoopRuns]: the invariant of stored phases, runs of one
      operation over the history it writes and their length, attempts to
      compact included. [LoopBuilt]: what build_runtime builds.
      [LoopConcrete]: a JSON instance made of codecs and one whole operation
      run with it.
    - Theorems: [LoopTheorems] (refinement, every tool call answered exactly
      once on every path, interruptions included, checkpoints that resume,
      limits on turns, calls, waves and decisions, acceptance of every decision
      by the kernel, exactness of build_runtime), [PlanningFacts],
      [PlanningTheorems] (the planner equals a linear reference, plans pass the
      validation repeated later, boundaries are safe, nothing above the limit
      is dispatched and a summary is asked for only when one fits),
      [SamplingTheorems] (every way the model adapter completes, and from what
      stream),
      [ContextTheorems] (order and boundary of the rebuilt context, recorded
      usage).

    ** The kernel and the loop together

    - [Steps] and [DriveSound] are parametric in [Guards], what callers
      establish about the work of a loop they store; a drive establishes that
      a plugin made it from the stored checkpoint.
    - [Contract]: the interface [LoopContract], a relation between the events
      of a session and the checkpoint of its active operation that every
      single decision, cancellation and abandonment keeps; the kernel then
      keeps it on every database.
    - [SessionTheorems]: the loop implements the contract, a kernel runs a
      whole operation of a built agent, contracts hold over whole lifetimes,
      and the replayed messages of every session have exactly the open calls
      its active operation still has to answer.

    ** Run engine

    - [Protocol], [ProtocolTheorems]: renoa-protocol's identities, commands,
      labels, execution events and live activity. [Transaction]: the
      transaction monad of the SQLite stores.
    - [Runs]: renoa-core. The trait RunStore is a class; what its
      documentation promises is the refinement of an abstract ledger
      ([RunStoreLaws]). A transcript is read from two states of a store, since
      the ledger may grow between the reads. [RunSqlite], [RunSqliteSound]:
      renoa-store-sqlite and the instance of these laws, legacy databases
      included.
    - [RunEngine]: renoa-runtime over any store. The environment decides what
      other callers did before each store call, how the model streams, what
      capabilities return, and when cancellation or a drop of the future
      strikes. [RunSound]: the grammar of a run's events, and ledgers shared by
      any number of engines.
    - [RunTheorems]: every run an engine owns follows the grammar, one claim
      per run, terminal states agree with events, ungranted capabilities are
      never called.

    ** Coordinator

    - [Control], [ControlStore]: the records and tables of renoa-control and
      the operations of its stores, one definition per function.
    - [Journals]: the abstract state, one list of records per task, its
      well-formedness and its steps. [ControlRep], [ControlPublish],
      [ControlRuns]: every transaction of the store is a step of journals.
      [ControlReads], [ControlDelivery]: what reads return, and how deliveries,
      stops and wakes move.
    - [ControlTheorems], [ControlTaskTheorems], [ControlAgentTheorems]:
      journals stay well formed, commands, events, replies and messages are
      admitted exactly once, deletion is exact, suffixes and listings are the
      journals', deliveries and wakes are owed until they are settled.
    - [Identity], [Browser]: who may reach the coordinator. The tables of
      devices, keys, passkeys, ceremonies, tickets, sessions, pairings, share
      links, push tokens and notices (the field [identity] of the same
      database) and the operations of identity.rs, device_key.rs,
      identity_store.rs, device_store.rs, push_tokens.rs, setup_notices/,
      browser_identity.rs and the browser stores. [IdentitySound]: the
      invariant of these tables, and that every call keeps it, only moves them
      forwards and makes only the tokens it names. [IdentityTheorems]:
      revocation is permanent, signing in with a key is exact, tokens are spent
      once, assertions are not replayed, a pairing link opens one browser, and
      a browser that signed out stays out.
    - [Async]: handlers as programs of atomic actions that run interleaved in
      any order around one lock, wait for room in queues and for their peers,
      spawn others and may be dropped; a proof rule with obligations that
      whoever makes one outstanding carries out before it waits for its peer or
      ends; that programs come to an end or wait; and an executable scheduler.
    - [Coordinator]: the running coordinator as such programs: coordinator.rs,
      connection.rs, session_registry.rs, surface_operations.rs,
      node_messages.rs, device_admin.rs, device_handshake.rs, wire.rs,
      host_calls.rs, host_control_rcp.rs, live_activity.rs, json_ws.rs,
      json_ws/operations.rs and the sign-in requests of
      browser_identity_http.rs. Every access to the database, to a table or to
      a queue is one action; a send waits until the queue of its connection has
      room or is closed; the lock is connection_lifecycle. [History] only
      remembers what theorems speak of and is never read by a handler.
    - [CoordinatorTheorems]: in every state that any interleaving of
      connections and requests reaches: a connected node was sent what
      is pending for it, an attached surface misses no record, no session
      outlives its credential, and the handlers come to rest while the writers
      of the connections go on, or else one waits for a full queue
      ([slow_node_stalls] is such a state, in which it holds the lock). The
      owed deliveries, stops and records are those of [ControlDelivery].

    ** Node

    - [NodeLedger]: node_store.rs and node_store/: the tables of a node's
      ledger, its transactions and reads; what a ledger stands for
      ([ledger_rep], executions with their events and marks) and that every
      transaction is a step of it ([ledger_step]).
    - [NodeSession]: session.rs, session/, execution.rs, stop.rs, live.rs,
      projection.rs, control.rs, origin.rs, agent_targets.rs, agent_link.rs and
      backoff.rs as programs of [Async] over the ledger, the running turns and
      the two ends of the connection. The Host is left to the surroundings
      ([NodeChance]): whether it accepts a turn, what the turn reports, how it
      ends and the history it keeps.
    - [NodeTheorems]: a ledger under any calls keeps well-formed streams that
      only grow; a turn that is driven again and again records each event of
      its history once, beside those that only a drive that was lost reported
      ([lost_answer_stays]); and, with the coordinator's store of [ControlStore] on the
      other end of a connection that may be lost at any time, the journals of a
      node's tasks are always beginnings of its executions, hold what it counts
      as published, and are equal to them once it has nothing left to publish,
      while no task is deleted at the coordinator or forgotten by the node.
      The proof needs no lock: a program keeps the invariant of the node and
      stays within what others rely on ([guards]). What the coordinator
      acknowledges in a run is a parameter of that invariant, instantiated with
      what its store holds when the run ends.

    ** Parameters and laws

    JSON values and serializers ([JsonLib], [Serde], [JsonValue],
    [ValueSerde], [LoopSerde], [RunSerde], [ControlSerde], [NodeSerde]): what
    is written is read back, an optional null being read as absent. SHA-256 and the text of
    an identity ([Hashing], [Digest]); the digest of a runtime needs only that
    a hash is not empty, and where two derived identities must differ a theorem
    says so. Signatures and public keys ([DeviceCrypto]) and the ceremonies of
    passkeys ([WebAuthn]) are functions about which nothing is assumed; so is
    the length of a message written as JSON ([FrameLength], [ClientLength]), the
    parsing of identities and the workspaces of agents ([HostHome]). The texts of
    library errors ([LibraryTexts]). Sizers and projectors: the monotonicity
    their documentation asks for. What Rust's integer types promise (limits and
    attempts are positive, identities of evaluator calls fit 32 bits) is
    [typed_loop]; that a received command was read by its deserializer is
    [typed_message].

    A UUID is the number of its sixteen bytes, so that the order of its text
    is the order of numbers; the source of a journal record is a tagged
    identity instead of its formatted text; a query through json_extract reads
    the decoded document; wake generations do not overflow.
    What a connection receives is a list fixed when it arrives, of any length;
    a loop that forwards records runs for as many rounds as the environment
    chooses; at a node, a send completes in one step. A read of several
    statements outside a transaction is one read (such as the bootstrap of
    a passkey registration, the check of a device before one, and a node's
    events after a position), except the transcript of a run, whose two
    statements are two reads.

    ** Not modelled

    The SQL text, opening and migration of the kernel's database files;
    threads, wake-ups and time (a drive is any interleaving the environment
    chooses, and so is a run of the coordinator's or a node's programs); progress events
    besides sampling; the texts of JSON errors inside messages. Of the
    coordinator: sockets, frames and what a writer does with a message, the HTTP routes besides the
    sign-in requests, the relays of other services and the delivery of pushes.
    Of the node: the process, its automations, owner wakes, setup links,
    uploads and the operations of Host control; in its run with the coordinator
    no task is deleted or forgotten, and messages are carried as values. The
    other crates (renoa-local, the chat surfaces, the registries and relay
    protocols) are mostly input and output around the parts above; so are the
    programs that are not written in Rust. *)
From stdpp Require Export base option list gmap strings sorting numbers relations.
From Stdlib Require Export ZArith Lia.

#[global] Open Scope Z_scope.

(** ** Results

    [Result E A] is Rust's [Result<A, E>]; the [?] operator is the monadic
    bind, written [x ← m; k] with stdpp's notation. *)
Inductive Result (E A : Type) : Type :=
| Ok (a : A)
| Err (e : E).
Arguments Ok {E A} a.
Arguments Err {E A} e.

#[global] Instance Result_ret E : MRet (Result E) := λ A a, Ok a.
#[global] Instance Result_bind E : MBind (Result E) := λ A B f r,
  match r with Ok a => f a | Err e => Err e end.
#[global] Instance Result_fmap E : FMap (Result E) := λ A B f r,
  match r with Ok a => Ok (f a) | Err e => Err e end.

Definition is_ok {E A} (r : Result E A) : bool :=
  match r with Ok _ => true | Err _ => false end.

(** [Option::ok_or]. *)
Definition ok_or {E A} (o : option A) (e : E) : Result E A :=
  match o with Some a => Ok a | None => Err e end.

(** [Option<Result<_>>::transpose], as used after [Option::map]. *)
Definition transpose {E A B} (f : A → Result E B) (o : option A) : Result E (option B) :=
  match o with
  | None => Ok None
  | Some a => b ← f a; Ok (Some b)
  end.

(** [iter().map(f).collect::<Result<Vec<_>, _>>()]: the first error wins. *)
Fixpoint collect {E A B} (f : A → Result E B) (l : list A) : Result E (list B) :=
  match l with
  | [] => Ok []
  | a :: l' => b ← f a; bs ← collect f l'; Ok (b :: bs)
  end.

(** The loop [for (i, row) in rows.enumerate()] that decodes rows one by one
    and stops at the first error; [i] is the index of the head. *)
Fixpoint collect_enum {E A B} (f : Z → A → Result E B) (i : Z) (l : list A)
    : Result E (list B) :=
  match l with
  | [] => Ok []
  | a :: l' => b ← f i a; bs ← collect_enum f (i + 1) l'; Ok (b :: bs)
  end.

(** ** Machine integers

    Integers are [Z]; the widths matter only where the code checks them. *)
Definition i64_min : Z := - 2 ^ 63.
Definition i64_max : Z := 2 ^ 63 - 1.
Definition u64_max : Z := 2 ^ 64 - 1.
Definition u32_max : Z := 2 ^ 32 - 1.

Definition in_i64 (z : Z) : bool := (i64_min <=? z) && (z <=? i64_max).

(** [i64::checked_add] and [u64::checked_add]. *)
Definition checked_add_i64 (x y : Z) : option Z :=
  if in_i64 (x + y) then Some (x + y) else None.
Definition checked_add_u64 (x y : Z) : option Z :=
  if x + y <=? u64_max then Some (x + y) else None.

(** [i64::try_from] of an unsigned value. *)
Definition i64_try_from (z : Z) : option Z :=
  if z <=? i64_max then Some z else None.

(** ** Tables

    A table is a [gmap] from primary key to row. [select] is a full scan with
    a filter, [order_by] is SQL's [ORDER BY]. *)
Section tables.
Context {K V : Type} `{Countable K}.

Definition select (P : K → V → bool) (m : gmap K V) : list (K * V) :=
  List.filter (λ kv, P kv.1 kv.2) (map_to_list m).

Definition tbl_forall (P : K → V → bool) (m : gmap K V) : bool :=
  forallb (λ kv, P kv.1 kv.2) (map_to_list m).

Definition tbl_exists (P : K → V → bool) (m : gmap K V) : bool :=
  existsb (λ kv, P kv.1 kv.2) (map_to_list m).

(** [UPDATE ... WHERE P] over all rows, without the row count. *)
Definition update_where (P : K → V → bool) (f : V → V) (m : gmap K V) : gmap K V :=
  map_imap (λ k v, Some (if P k v then f v else v)) m.
End tables.

Definition le_by {A} (key : A → Z) (x y : A) : Prop := key x ≤ key y.
#[global] Instance le_by_dec {A} (key : A → Z) x y : Decision (le_by key x y) :=
  decide (key x ≤ key y).
Definition order_by {A} (key : A → Z) (l : list A) : list A :=
  merge_sort (le_by key) l.

(** A numbered family of rows: the rows of [m] that satisfy [P] carry the
    numbers [0 .. n-1], each exactly once. *)
Definition gapless {K V} `{Countable K} (m : gmap K V) (P : V → Prop)
    (num : V → Z) (n : Z) : Prop :=
  (∀ k1 v1 k2 v2, m !! k1 = Some v1 → m !! k2 = Some v2 → P v1 → P v2 →
     num v1 = num v2 → k1 = k2) ∧
  (∀ p, 0 ≤ p < n ↔ ∃ k v, m !! k = Some v ∧ P v ∧ num v = p).

(** ** Tactics *)

(** Invert equations of monadic computations in [Result]. *)
Lemma result_bind_ok {E A B} (r : Result E A) (f : A → Result E B) b :
  (r ≫= f) = Ok b ↔ ∃ a, r = Ok a ∧ f a = Ok b.
Proof. destruct r; cbn; naive_solver. Qed.

Lemma ok_or_ok {E A} (o : option A) (e : E) a : ok_or o e = Ok a ↔ o = Some a.
Proof. destruct o; cbn; naive_solver. Qed.

Lemma i64_try_from_Some z n : i64_try_from z = Some n ↔ n = z ∧ z ≤ i64_max.
Proof. unfold i64_try_from. destruct (Z.leb_spec z i64_max); naive_solver lia. Qed.

Lemma in_i64_spec z : in_i64 z = true ↔ i64_min ≤ z ≤ i64_max.
Proof. unfold in_i64. rewrite andb_true_iff, !Z.leb_le. done. Qed.

Lemma checked_add_i64_Some x y n :
  checked_add_i64 x y = Some n ↔ n = x + y ∧ i64_min ≤ x + y ≤ i64_max.
Proof.
  unfold checked_add_i64. destruct (in_i64 (x + y)) eqn:E.
  - apply in_i64_spec in E. naive_solver.
  - rewrite <- in_i64_spec, E. naive_solver.
Qed.

Lemma checked_add_u64_Some x y n :
  checked_add_u64 x y = Some n ↔ n = x + y ∧ x + y ≤ u64_max.
Proof. unfold checked_add_u64. destruct (Z.leb_spec (x + y) u64_max); naive_solver lia. Qed.

Ltac split_bools :=
  repeat match goal with
  | H : (_ && _)%bool = true |- _ => apply andb_prop in H; destruct H
  | H : (_ || _)%bool = false |- _ => apply orb_false_elim in H; destruct H
  | H : negb _ = true |- _ => apply negb_true_iff in H
  | H : negb _ = false |- _ => apply negb_false_iff in H
  | H : bool_decide _ = true |- _ => apply bool_decide_eq_true_1 in H
  | H : bool_decide _ = false |- _ => apply bool_decide_eq_false_1 in H
  | H : (_ =? _)%Z = true |- _ => apply Z.eqb_eq in H
  | H : (_ =? _)%Z = false |- _ => apply Z.eqb_neq in H
  | H : (_ <=? _)%Z = true |- _ => apply Z.leb_le in H
  | H : (_ <=? _)%Z = false |- _ => apply Z.leb_gt in H
  | H : (_ <? _)%Z = true |- _ => apply Z.ltb_lt in H
  | H : (_ <? _)%Z = false |- _ => apply Z.ltb_ge in H
  | H : String.eqb _ _ = true |- _ => apply String.eqb_eq in H
  | H : String.eqb _ _ = false |- _ => apply String.eqb_neq in H
  end.

(** ** Tables: lemmas *)
(** The boolean filter of the standard library as the decidable filter. *)
Lemma filter_bool {A} (f : A → bool) (P : A → Prop) `{!∀ x, Decision (P x)} (l : list A) :
  (∀ x, f x = true ↔ P x) → List.filter f l = filter P l.
Proof.
  intros HP. induction l as [|x l IH]; [done|]. cbn [List.filter]. rewrite filter_cons, IH.
  pose proof (HP x). destruct (f x); case_decide; naive_solver.
Qed.

Section table_lemmas.
Context {K V : Type} `{Countable K}.
Implicit Types (m : gmap K V) (P : K → V → bool).

Lemma elem_of_select P m k v :
  (k, v) ∈ select P m ↔ m !! k = Some v ∧ P k v = true.
Proof.
  unfold select. rewrite list_elem_of_In, filter_In, <- list_elem_of_In.
  rewrite elem_of_map_to_list. done.
Qed.

Lemma tbl_forall_spec P m :
  tbl_forall P m = true ↔ ∀ k v, m !! k = Some v → P k v = true.
Proof.
  unfold tbl_forall. rewrite forallb_forall. split.
  - intros HF k v Hk. apply (HF (k, v)).
    by apply list_elem_of_In, elem_of_map_to_list.
  - intros HF [k v] Hin. apply list_elem_of_In, elem_of_map_to_list in Hin. eauto.
Qed.

Lemma tbl_exists_spec P m :
  tbl_exists P m = true ↔ ∃ k v, m !! k = Some v ∧ P k v = true.
Proof.
  unfold tbl_exists. rewrite existsb_exists. split.
  - intros ([k v] & Hin & HP). apply list_elem_of_In, elem_of_map_to_list in Hin. eauto.
  - intros (k & v & Hk & HP). exists (k, v).
    split; [by apply list_elem_of_In, elem_of_map_to_list|done].
Qed.

Lemma tbl_exists_false P m :
  tbl_exists P m = false ↔ ∀ k v, m !! k = Some v → P k v = false.
Proof.
  rewrite <- not_true_iff_false, tbl_exists_spec. split.
  - intros HN k v Hk. apply not_true_iff_false. intros HP. apply HN; eauto.
  - intros HF (k & v & Hk & HP). rewrite (HF k v Hk) in HP. done.
Qed.

Lemma NoDup_select P m : NoDup (select P m).*1.
Proof.
  unfold select. pose proof (NoDup_fst_map_to_list m) as HN.
  induction (map_to_list m) as [|[k v] l IH]; cbn; [constructor|].
  cbn in HN. apply NoDup_cons in HN as [Hk HN].
  destruct (P k v); cbn; [|auto].
  apply NoDup_cons. split; [|auto].
  contradict Hk. apply list_elem_of_fmap in Hk as (kv & -> & Hin).
  apply list_elem_of_In, filter_In in Hin as [Hin _].
  apply list_elem_of_fmap_2, list_elem_of_In, Hin.
Qed.

Lemma lookup_update_where P f m k :
  update_where P f m !! k = (λ v, if P k v then f v else v) <$> m !! k.
Proof. unfold update_where. rewrite map_lookup_imap. by destruct (m !! k). Qed.
End table_lemmas.

(** ** Ordering *)
Lemma seqZ_sorted n : ∀ m, StronglySorted Z.le (seqZ m n).
Proof.
  destruct (Z.le_gt_cases n 0) as [Hn|Hn].
  { intros m. rewrite seqZ_nil by done. constructor. }
  replace n with (Z.of_nat (Z.to_nat n)) by lia. generalize (Z.to_nat n) as i.
  clear. induction i as [|i IH]; intros m; [constructor|].
  rewrite seqZ_cons by lia. constructor.
  - replace (Z.pred (Z.of_nat (S i))) with (Z.of_nat i) by lia. apply IH.
  - apply Forall_seqZ. intros. lia.
Qed.

Section ordering.
Context {A : Type} (key : A → Z).

#[local] Instance key_total : Total (le_by key).
Proof. intros x y. unfold le_by. lia. Qed.
#[local] Instance key_trans : Transitive (le_by key).
Proof. intros x y z. unfold le_by. lia. Qed.

Lemma order_by_Permutation l : order_by key l ≡ₚ l.
Proof. apply merge_sort_Permutation. Qed.

Lemma elem_of_order_by x l : x ∈ order_by key l ↔ x ∈ l.
Proof. by rewrite order_by_Permutation. Qed.

Lemma order_by_sorted l : StronglySorted (le_by key) (order_by key l).
Proof. apply StronglySorted_merge_sort; apply _. Qed.

Lemma order_by_nil l : order_by key l = [] ↔ l = [].
Proof.
  split; intros E.
  - apply Permutation_nil_r. by rewrite <- E, order_by_Permutation.
  - apply Permutation_nil_r. by rewrite order_by_Permutation, E.
Qed.

Lemma order_by_keys_sorted l : StronglySorted Z.le (key <$> order_by key l).
Proof. eapply StronglySorted_fmap; [|apply order_by_sorted]. done. Qed.

(** The head of an ordered selection carries the least number. *)
Lemma order_by_head l x r : order_by key l = x :: r → ∀ y, y ∈ l → key x ≤ key y.
Proof.
  intros E y Hy. pose proof (order_by_sorted l) as HS. rewrite E in HS.
  apply StronglySorted_cons in HS as [HF _].
  rewrite <- elem_of_order_by, E in Hy. apply elem_of_cons in Hy as [->|Hy]; [lia|].
  by apply (proj1 (Forall_forall _ _) HF).
Qed.

(** Ordering rows that carry the numbers [c .. n-1]. *)
Lemma order_by_range l c n :
  NoDup (key <$> l) → (∀ p, p ∈ key <$> l ↔ c ≤ p < n) →
  key <$> order_by key l = seqZ c (n - c).
Proof.
  intros HN Hin. apply (StronglySorted_unique Z.le).
  - apply order_by_keys_sorted.
  - apply seqZ_sorted.
  - rewrite order_by_Permutation. apply NoDup_Permutation; [done|apply NoDup_seqZ|].
    intros p. rewrite Hin, elem_of_seqZ. lia.
Qed.
End ordering.

(** ** Numbered tables *)
Section gapless.
Context {K V : Type} `{Countable K}.
Implicit Types (m : gmap K V) (P : V → Prop) (num : V → Z).

Lemma gapless_bounds m P num n k v :
  gapless m P num n → m !! k = Some v → P v → 0 ≤ num v < n.
Proof. intros [_ HR] Hk HP. apply HR. eauto. Qed.

Lemma gapless_inj m P num n k1 v1 k2 v2 :
  gapless m P num n → m !! k1 = Some v1 → m !! k2 = Some v2 → P v1 → P v2 →
  num v1 = num v2 → k1 = k2.
Proof. intros [HI _]. apply HI. Qed.

Lemma gapless_iff m P Q num n : (∀ v, P v ↔ Q v) → gapless m P num n → gapless m Q num n.
Proof.
  intros HQ [HI HR]. split.
  - intros k1 v1 k2 v2 H1 H2 Q1%HQ Q2%HQ. eauto.
  - intros p. rewrite HR. by setoid_rewrite HQ.
Qed.

(** A new row outside the family does not disturb it. *)
Lemma gapless_insert_other m P num n k v :
  m !! k = None → ¬ P v → gapless m P num n → gapless (<[k:=v]> m) P num n.
Proof.
  intros Hk HnP [HI HR]. split.
  - intros k1 v1 k2 v2 H1 H2 P1 P2. apply lookup_insert_Some in H1, H2.
    destruct H1 as [[-> ->]|[? ?]], H2 as [[-> ->]|[? ?]]; eauto; done.
  - intros p. rewrite HR. split; intros (k1 & v1 & H1 & P1 & E1).
    + exists k1, v1. split; [|done]. rewrite lookup_insert_ne by congruence. done.
    + apply lookup_insert_Some in H1 as [[-> ->]|[? ?]]; [done|eauto].
Qed.

(** Appending the next row. *)
Lemma gapless_insert_next m P num n k v :
  m !! k = None → P v → num v = n → 0 ≤ n →
  gapless m P num n → gapless (<[k:=v]> m) P num (n + 1).
Proof.
  intros Hk HP Hn Hpos HG. destruct HG as [HI HR] eqn:EG. clear EG. split.
  - intros k1 v1 k2 v2 H1 H2 P1 P2 E. apply lookup_insert_Some in H1, H2.
    assert (∀ k' v', m !! k' = Some v' → P v' → num v' < n) as Hlt.
    { intros k' v' ? ?. apply (gapless_bounds m P num n k' v'); done. }
    destruct H1 as [[-> ->]|[? H1]], H2 as [[-> ->]|[? H2]]; eauto.
    + specialize (Hlt _ _ H2 P2). lia.
    + specialize (Hlt _ _ H1 P1). lia.
  - intros p. split.
    + intros Hp. destruct (decide (p = n)) as [->|Hne].
      * exists k, v. by rewrite lookup_insert_eq.
      * destruct (proj1 (HR p)) as (k1 & v1 & H1 & ? & ?); [lia|].
        exists k1, v1. split; [|done]. rewrite lookup_insert_ne by congruence. done.
    + intros (k1 & v1 & H1 & P1 & E1). apply lookup_insert_Some in H1 as [[-> ->]|[? H1]].
      * lia.
      * pose proof (gapless_bounds m P num n k1 v1 HG H1 P1). lia.
Qed.

(** Rewriting rows without touching membership or number. *)
Lemma gapless_transfer m m' P num n :
  (∀ k v', m' !! k = Some v' → ∃ v, m !! k = Some v ∧ (P v ↔ P v') ∧ num v = num v') →
  (∀ k v, m !! k = Some v → ∃ v', m' !! k = Some v' ∧ (P v ↔ P v') ∧ num v = num v') →
  gapless m P num n → gapless m' P num n.
Proof.
  intros Hback Hforth [HI HR]. split.
  - intros k1 v1 k2 v2 H1 H2 P1 P2 E.
    destruct (Hback _ _ H1) as (w1 & ? & ? & ?), (Hback _ _ H2) as (w2 & ? & ? & ?).
    apply (HI k1 w1 k2 w2); [done..|naive_solver|naive_solver|lia].
  - intros p. rewrite HR. split; intros (k & v & Hk & HP & Hp).
    + destruct (Hforth _ _ Hk) as (v' & ? & ? & ?). exists k, v'. naive_solver lia.
    + destruct (Hback _ _ Hk) as (v' & ? & ? & ?). exists k, v'. naive_solver lia.
Qed.

Lemma gapless_insert_same m P num n k v v' :
  m !! k = Some v → (P v ↔ P v') → num v = num v' →
  gapless m P num n → gapless (<[k:=v']> m) P num n.
Proof.
  intros Hk HP Hnum. apply gapless_transfer.
  - intros k1 v1 H1. apply lookup_insert_Some in H1 as [[-> ->]|[? ?]]; eauto.
  - intros k1 v1 H1. destruct (decide (k = k1)) as [->|].
    + simplify_eq. exists v'. by rewrite lookup_insert_eq.
    + exists v1. by rewrite lookup_insert_ne.
Qed.

(** New rows outside the family do not disturb it. *)
Lemma gapless_extend_other m m' P num n :
  (∀ k v, m !! k = Some v → m' !! k = Some v) →
  (∀ k v, m' !! k = Some v → m !! k = Some v ∨ ¬ P v) →
  gapless m P num n → gapless m' P num n.
Proof.
  intros Hk Hn [HI HR]. split.
  - intros k1 v1 k2 v2 H1 H2 P1 P2 E.
    destruct (Hn _ _ H1); [|done]. destruct (Hn _ _ H2); [|done]. eauto.
  - intros p. rewrite HR. split; intros (k & v & Hv & HP & Hp).
    + exists k, v. eauto.
    + destruct (Hn _ _ Hv); [eauto|done].
Qed.

(** Reading a gapless family in order yields the numbers [0, 1, .., n-1]. *)
Lemma gapless_order m (P : V → bool) num n :
  gapless m (λ v, P v = true) num n →
  (λ kv, num kv.2) <$> order_by (λ kv, num kv.2) (select (λ _ v, P v) m) = seqZ 0 n.
Proof.
  intros HG. rewrite <- (Z.sub_0_r n). apply order_by_range.
  - apply NoDup_fmap_2_strong.
    + intros [k1 v1] [k2 v2] H1 H2 E. apply elem_of_select in H1 as [? ?], H2 as [? ?].
      cbn in *. assert (k1 = k2) as -> by (eapply (gapless_inj m); eauto; done).
      simplify_eq. done.
    + eapply NoDup_fmap_1. apply NoDup_select.
  - intros p. destruct HG as [_ HR]. rewrite HR, list_elem_of_fmap. split.
    + intros ([k v] & -> & Hin). apply elem_of_select in Hin as [? ?]. eauto.
    + intros (k & v & ? & ? & <-). exists (k, v). split; [done|]. by apply elem_of_select.
Qed.
End gapless.

(** ** Rewriting rows in place

    [same_rows R m m']: the tables have the same keys and rows related by [R]. *)
Section same_rows.
Context {K V : Type} `{Countable K} (R : V → V → Prop).

Definition same_rows (m m' : gmap K V) : Prop :=
  ∀ k, match m !! k, m' !! k with
       | Some v, Some v' => R v v'
       | None, None => True
       | _, _ => False
       end.

Lemma same_rows_forth m m' k v :
  same_rows m m' → m !! k = Some v → ∃ v', m' !! k = Some v' ∧ R v v'.
Proof. intros HS Hk. specialize (HS k). rewrite Hk in HS. destruct (m' !! k); naive_solver. Qed.

Lemma same_rows_back m m' k v' :
  same_rows m m' → m' !! k = Some v' → ∃ v, m !! k = Some v ∧ R v v'.
Proof. intros HS Hk. specialize (HS k). rewrite Hk in HS. destruct (m !! k); naive_solver. Qed.

Lemma same_rows_is_Some m m' k : same_rows m m' → is_Some (m !! k) ↔ is_Some (m' !! k).
Proof. intros HS. specialize (HS k). destruct (m !! k), (m' !! k); naive_solver. Qed.

Lemma same_rows_refl m : (∀ v, R v v) → same_rows m m.
Proof. intros HR k. destruct (m !! k); auto. Qed.

Lemma same_rows_insert m k v v' :
  (∀ v, R v v) → m !! k = Some v → R v v' → same_rows m (<[k:=v']> m).
Proof.
  intros HR Hk Hv k'. destruct (decide (k = k')) as [->|].
  - by rewrite Hk, lookup_insert_eq.
  - rewrite lookup_insert_ne by done. destruct (m !! k'); auto.
Qed.

Lemma same_rows_update m P f :
  (∀ v, R v v) → (∀ v, R v (f v)) → same_rows m (update_where P f m).
Proof.
  intros HR Hf k. rewrite lookup_update_where. destruct (m !! k) as [v|]; cbn; [|done].
  destruct (P k v); auto.
Qed.

Lemma same_rows_trans m1 m2 m3 :
  Transitive R → same_rows m1 m2 → same_rows m2 m3 → same_rows m1 m3.
Proof.
  intros HT H1 H2 k. specialize (H1 k). specialize (H2 k).
  destruct (m1 !! k), (m2 !! k), (m3 !! k); try done. by etrans.
Qed.

Lemma same_rows_gapless m m' (P : V → Prop) (num : V → Z) n :
  (∀ v v', R v v' → (P v ↔ P v') ∧ num v = num v') →
  same_rows m m' → gapless m P num n → gapless m' P num n.
Proof.
  intros HR HS. apply gapless_transfer.
  - intros k v' Hk. destruct (same_rows_back _ _ _ _ HS Hk) as (v & ? & ?).
    exists v. split; [done|]. by apply HR.
  - intros k v Hk. destruct (same_rows_forth _ _ _ _ HS Hk) as (v' & ? & ?).
    exists v'. split; [done|]. by apply HR.
Qed.
End same_rows.

(** ** Collecting *)
Section collecting.
Context {E A B : Type}.

Lemma collect_enum_lookup (f : Z → A → Result E B) l : ∀ i r,
  collect_enum f i l = Ok r →
  length r = length l ∧
  ∀ j a, l !! j = Some a → ∃ b, r !! j = Some b ∧ f (i + Z.of_nat j) a = Ok b.
Proof.
  induction l as [|x l IH]; intros i r HE; cbn in HE; [by simplify_eq|].
  apply result_bind_ok in HE as (b & Hb & HE). apply result_bind_ok in HE as (bs & Hbs & HE).
  simplify_eq. destruct (IH _ _ Hbs) as [Hlen Hl]. cbn. split; [lia|].
  intros [|j] a Ha; cbn in *.
  - simplify_eq. exists b. split; [done|]. by rewrite Z.add_0_r.
  - destruct (Hl j a Ha) as (b' & ? & ?). exists b'. split; [done|].
    by replace (i + Z.of_nat (S j)) with (i + 1 + Z.of_nat j) by lia.
Qed.

Lemma collect_enum_total (f : Z → A → Result E B) l : ∀ i,
  (∀ j a, l !! j = Some a → ∃ b, f (i + Z.of_nat j) a = Ok b) →
  ∃ r, collect_enum f i l = Ok r.
Proof.
  induction l as [|x l IH]; intros i HF; cbn; [eauto|].
  destruct (HF 0%nat x eq_refl) as [b Hb]. rewrite Z.add_0_r in Hb. rewrite Hb. cbn.
  destruct (IH (i + 1)) as [r Hr]; [|rewrite Hr; cbn; eauto].
  intros j a Ha. destruct (HF (S j) a Ha) as [b' Hb']. exists b'.
  by replace (i + 1 + Z.of_nat j) with (i + Z.of_nat (S j)) by lia.
Qed.

Lemma collect_lookup (f : A → Result E B) l : ∀ r,
  collect f l = Ok r →
  length r = length l ∧ ∀ j a, l !! j = Some a → ∃ b, r !! j = Some b ∧ f a = Ok b.
Proof.
  induction l as [|x l IH]; intros r HE; cbn in HE; [by simplify_eq|].
  apply result_bind_ok in HE as (b & Hb & HE). apply result_bind_ok in HE as (bs & Hbs & HE).
  simplify_eq. destruct (IH _ Hbs) as [Hlen Hl]. cbn. split; [lia|].
  intros [|j] a Ha; cbn in *; [simplify_eq; eauto|by apply Hl].
Qed.

Lemma collect_elem (f : A → Result E B) l r b :
  collect f l = Ok r → b ∈ r → ∃ a, a ∈ l ∧ f a = Ok b.
Proof.
  revert r. induction l as [|x l IH]; intros r HE Hb; cbn in HE; [by simplify_eq; apply elem_of_nil in Hb|].
  apply result_bind_ok in HE as (y & Hy & (ys & Hys & [= <-])%result_bind_ok).
  apply elem_of_cons in Hb as [->|Hb]; [exists x; split; [left|done]|].
  destruct (IH _ Hys Hb) as (a & Ha & Hf). exists a. split; [by right|done].
Qed.

Lemma collect_total (f : A → Result E B) l :
  (∀ a, a ∈ l → ∃ b, f a = Ok b) → ∃ r, collect f l = Ok r.
Proof.
  induction l as [|x l IH]; intros HF; cbn; [eauto|].
  destruct (HF x) as [b Hb]; [left|]. rewrite Hb. cbn.
  destruct IH as [r Hr]; [intros; apply HF; by right|]. rewrite Hr. cbn. eauto.
Qed.

Lemma collect_enum_elem (f : Z → A → Result E B) l i r b :
  collect_enum f i l = Ok r → b ∈ r → ∃ j a, l !! j = Some a ∧ f (i + Z.of_nat j) a = Ok b.
Proof.
  intros HE [j Hj]%list_elem_of_lookup_1. destruct (collect_enum_lookup _ _ _ _ HE) as [Hlen HL].
  destruct (l !! j) as [a|] eqn:Ea.
  - destruct (HL j a Ea) as (b' & ? & ?). simplify_eq. eauto.
  - apply lookup_ge_None in Ea. apply lookup_lt_Some in Hj. lia.
Qed.
End collecting.

(** The [j]-th row of a numbered family carries number [j]. *)
Lemma gapless_order_lookup {K V} `{Countable K} (m : gmap K V) (P : V → bool) num n j kv :
  gapless m (λ v, P v = true) num n →
  order_by (λ kv, num kv.2) (select (λ _ v, P v) m) !! j = Some kv → num kv.2 = Z.of_nat j.
Proof.
  intros HG Hj. pose proof (gapless_order _ _ _ _ HG) as E.
  apply (f_equal (λ l, l !! j)) in E. rewrite list_lookup_fmap, Hj in E. cbn in E.
  symmetry in E. apply lookup_seqZ in E. lia.
Qed.
