(* ===== verification/Json.v ===== *)
(** * The JSON library

    serde_json is a parameter of every model: [JsonLib] gives the types of JSON
    values and of serialized text, [Serde] the (de)serializer of one type,
    [SerdeLaws] the documented round trip, and [JsonValue] the constructors of
    [serde_json::Value] that the [json!] macro uses. *)
From S2P Require Import Prelude.
(** ** Text *)
Class JsonLib := {
  Value : Type;                      (* serde_json::Value *)
  Text : Type;                       (* a serialized JSON document *)
  Text_eq_dec :: EqDecision Text;
}.

Class Serde `{JsonLib} (A : Type) := {
  to_string : A → option Text;       (* None: a serialization error *)
  from_str : Text → option A;        (* None: a deserialization error *)
}.

Class SerdeLaws `{Serde A} :=
  from_to_string : ∀ (a : A) t, to_string a = Some t → from_str t = Some a.
Arguments SerdeLaws {_} A {_}.

(** ** JSON values *)
Class JsonValue `{JL : JsonLib} := {
  Value_eq_dec :: EqDecision Value;
  JNull : Value;
  JBool : bool → Value;
  JNumber : Z → Value;
  JString : string → Value;
  JArray : list Value → Value;
  JObject : list (string * Value) → Value;
  is_object : Value → bool;
  render : Value → Result string string;   (* serde_json::to_string *)
}.
