(* ===== verification/State.v ===== *)
(** * Identities, values, states and errors of the kernel

    The data types of [ids.rs], [state.rs], [operation_phase.rs], [events.rs]
    and [runtime.rs], and the error type of [lib.rs]. *)
From S2P Require Import Prelude Json.
(** ** Identities

    Every kernel identity wraps a [Uuid] (a 128-bit number). The index plays
    the role of the macro argument of [kernel_id!]: identities of different
    kinds do not mix. The [TEXT] column of an identity is the identity itself:
    all writers store [to_string()] of a [Uuid]. *)
Inductive IdKind :=
| KAgent | KSession | KCommand | KOperation | KCancellation | KEffectBatch | KEffect | KEvent.

Record Id (k : IdKind) := MkId { uuid : N }.
Arguments MkId {k} uuid.
Arguments uuid {k} i.

#[global] Instance Id_eq_dec k : EqDecision (Id k).
Proof. solve_decision. Defined.
#[global] Program Instance Id_countable k : Countable (Id k) :=
  inj_countable' uuid MkId _.
Next Obligation. by intros k [u]. Qed.

Definition AgentId := Id KAgent.
Definition SessionId := Id KSession.
Definition CommandId := Id KCommand.
Definition OperationId := Id KOperation.
Definition CancellationId := Id KCancellation.
Definition EffectBatchId := Id KEffectBatch.
Definition EffectId := Id KEffect.
Definition EventId := Id KEvent.

(** ** Operation phases ([operation_phase.rs]) *)
Inductive OperationStatus :=
| StQueued | StRunning | StOutcomeUnknown | StWaiting | StCompleted | StFailed | StCancelled.

Inductive OperationPhase :=
| Queued | NeedDecision | EffectIntent | EffectDispatched | OutcomeUnknown
| Waiting | Completed | Failed | Cancelled.

#[global] Instance OperationStatus_eq_dec : EqDecision OperationStatus.
Proof. solve_decision. Defined.
#[global] Instance OperationPhase_eq_dec : EqDecision OperationPhase.
Proof. solve_decision. Defined.

(** ** Effect recovery and status ([runtime.rs], [state.rs], [effect_store.rs]) *)
Inductive EffectRecovery := SafeToReplay | NeverReplay.
Inductive EffectStatus := IntentCommitted | DispatchStarted | Settled | EffOutcomeUnknown.

#[global] Instance EffectRecovery_eq_dec : EqDecision EffectRecovery.
Proof. solve_decision. Defined.
#[global] Instance EffectStatus_eq_dec : EqDecision EffectStatus.
Proof. solve_decision. Defined.

(** ** Errors ([lib.rs])

    The texts of dynamically formatted messages are reduced to their constant
    part. *)
Inductive StoreErrorKind := Io | Sqlite | Ownership | Identity | UnsupportedPlatform.

Inductive KernelError :=
| AlreadyRunning
| UnsupportedDatabaseAlias
| AgentNotFound (agent_id : AgentId)
| SessionNotFound (session_id : SessionId)
| SessionConflict (session_id : SessionId) (agent_id : AgentId)
| CommandConflict (command_id : CommandId) (operation_id : OperationId)
| UnfinishedOperation (operation_id : OperationId) (command_id : CommandId)
| NoUnknownEffect (operation_id : OperationId)
| CancellationConflict (cancellation_id : CancellationId) (operation_id : OperationId)
| OperationNotCancellable (operation_id : OperationId)
| CancellationPending (operation_id : OperationId)
| Busy (session_id : SessionId)
| RuntimeUnavailable
| EffectTask
| RuntimeMismatch
| CheckpointSchemaMismatch (expected found : Z)
| InvalidDecision (message : string)
| LoopFailed (message : string)
| EffectBindingUnavailable (binding : string)
| CursorAhead (cursor high_water : Z)
| UnsupportedSchema (found supported : Z)
| UnsupportedStateVersion (found supported : Z)
| Corrupt (message : string)
| Store (kind : StoreErrorKind) (context : string).

Abbreviation KResult := (Result KernelError).

(** [schema.rs]: [sqlite_error] and [json_error]. *)
Definition sqlite_error (context : string) : KernelError := Store Sqlite context.
Definition json_error : KernelError := Corrupt "invalid JSON".

Definition as_str (p : OperationPhase) : string :=
  match p with
  | Queued => "queued"
  | NeedDecision => "need_decision"
  | EffectIntent => "effect_intent"
  | EffectDispatched => "effect_dispatched"
  | OutcomeUnknown => "outcome_unknown"
  | Waiting => "waiting"
  | Completed => "completed"
  | Failed => "failed"
  | Cancelled => "cancelled"
  end.

Definition from_database (value : string) : KResult OperationPhase :=
  if decide (value = "queued") then Ok Queued
  else if decide (value = "need_decision") then Ok NeedDecision
  else if decide (value = "effect_intent") then Ok EffectIntent
  else if decide (value = "effect_dispatched") then Ok EffectDispatched
  else if decide (value = "outcome_unknown") then Ok OutcomeUnknown
  else if decide (value = "waiting") then Ok Waiting
  else if decide (value = "completed") then Ok Completed
  else if decide (value = "failed") then Ok Failed
  else if decide (value = "cancelled") then Ok Cancelled
  else Err (Corrupt "unknown operation phase").

Definition status (p : OperationPhase) : OperationStatus :=
  match p with
  | Queued => StQueued
  | NeedDecision | EffectIntent | EffectDispatched => StRunning
  | OutcomeUnknown => StOutcomeUnknown
  | Waiting => StWaiting
  | Completed => StCompleted
  | Failed => StFailed
  | Cancelled => StCancelled
  end.

Definition is_cancellable (p : OperationPhase) : bool :=
  match p with
  | NeedDecision | EffectIntent | EffectDispatched | OutcomeUnknown => true
  | _ => false
  end.

Definition recovery_as_str (r : EffectRecovery) : string :=
  match r with SafeToReplay => "safe_to_replay" | NeverReplay => "never_replay" end.

Definition parse_recovery (value : string) : KResult EffectRecovery :=
  if decide (value = "safe_to_replay") then Ok SafeToReplay
  else if decide (value = "never_replay") then Ok NeverReplay
  else Err (Corrupt "unknown effect recovery").

Definition status_name (s : EffectStatus) : string :=
  match s with
  | IntentCommitted => "intent_committed"
  | DispatchStarted => "dispatch_started"
  | Settled => "settled"
  | EffOutcomeUnknown => "outcome_unknown"
  end.

Definition parse_status (value : string) : KResult EffectStatus :=
  if decide (value = "intent_committed") then Ok IntentCommitted
  else if decide (value = "dispatch_started") then Ok DispatchStarted
  else if decide (value = "settled") then Ok Settled
  else if decide (value = "outcome_unknown") then Ok EffOutcomeUnknown
  else Err (Corrupt "unknown effect status").

(** [admission.rs]: [from_sql_integer], an [i64] column read as [u64]. *)
Definition from_sql_integer (value : Z) (description : string) : KResult Z :=
  if 0 <=? value then Ok value else Err (Corrupt ("invalid " +:+ description)).

(** ** The frozen runtime identity ([runtime.rs]) *)
Record RuntimeManifest := {
  loop_binding : string;
  loop_revision : string;
  checkpoint_schema_version : Z;
  effect_bindings : gmap string string;
  config_digest : string;
}.
#[global] Instance RuntimeManifest_eq_dec : EqDecision RuntimeManifest.
Proof. solve_decision. Defined.

Inductive OperationOutcome :=
| WaitingForInput
| OutcomeCompleted
| OutcomeFailed (reason : string)
| OutcomeCancelled.
#[global] Instance OperationOutcome_eq_dec : EqDecision OperationOutcome.
Proof. solve_decision. Defined.

Record Admission := { adm_operation_id : OperationId; adm_position : Z }.

Inductive DriveResult :=
| Idle
| Blocked (operation_id : OperationId)
| Finished (operation_id : OperationId) (outcome : OperationOutcome).

(** ** Data with JSON payloads ([state.rs], [runtime.rs], [events.rs]) *)
Section values.
Context `{JL : JsonLib}.

Record Command := { command_id : CommandId; content : Value }.
Record Checkpoint := { schema_version : Z; state : Value }.
Record NewEvent := { kind : string; payload : Value }.

Inductive EffectOutcome := Success (v : Value) | Failure (message : string).
Inductive EffectCompletion := CompletionSettled (o : EffectOutcome) | CompletionUnknown.

Record EffectRequest := {
  er_binding : string; er_request : Value; er_recovery : EffectRecovery }.

Record SettledEffect := {
  se_effect_id : EffectId; se_binding : string; se_binding_revision : string;
  se_request : Value; se_outcome : EffectOutcome }.
Record UnsettledEffect := {
  ue_effect_id : EffectId; ue_binding : string; ue_binding_revision : string;
  ue_request : Value }.
Inductive EffectFact :=
| NotDispatched (e : UnsettledEffect)
| FactSettled (e : SettledEffect)
| FactUnknown (e : UnsettledEffect).

Record SettledEffectBatch := {
  sb_batch_id : EffectBatchId; sb_effects : list SettledEffect }.
Record EffectBatchFacts := {
  bf_batch_id : EffectBatchId; bf_effects : list EffectFact }.

Record SemanticEvent := {
  sev_event_id : EventId; sev_operation_id : OperationId; sev_command_id : CommandId;
  sev_sequence : Z; sev_kind : string; sev_payload : Value }.
Record EventPage := { page_events : list SemanticEvent; next_cursor : Z }.

Record EffectSnapshot := {
  es_effect_id : EffectId; es_position : Z; es_binding : string;
  es_binding_revision : string; es_recovery : EffectRecovery;
  es_request : option Value; es_status : EffectStatus; es_dispatch_count : Z;
  es_outcome : option EffectOutcome }.
Record EffectBatchSnapshot := {
  bs_batch_id : EffectBatchId; bs_position : Z; bs_effects : list EffectSnapshot }.
Record OperationSnapshot := {
  os_operation_id : OperationId; os_command_id : CommandId; os_command : Command;
  os_position : Z; os_status : OperationStatus; os_manifest : option RuntimeManifest;
  os_checkpoint : option Checkpoint; os_outcome : option OperationOutcome;
  os_effect_batches : list EffectBatchSnapshot }.
Record SessionSnapshot := {
  ss_agent_id : AgentId; ss_operations : list OperationSnapshot }.

(** Inputs and outputs of the loop plugin. *)
Record LoopInput := {
  li_agent_id : AgentId; li_session_id : SessionId; li_operation_id : OperationId;
  li_runtime_manifest : RuntimeManifest; li_command : Command;
  li_events : list SemanticEvent; li_checkpoint : option Checkpoint;
  li_effect_batch : option SettledEffectBatch }.
Record UnknownEffectInput := {
  ui_agent_id : AgentId; ui_session_id : SessionId; ui_operation_id : OperationId;
  ui_command : Command; ui_events : list SemanticEvent; ui_checkpoint : Checkpoint;
  ui_effect_batch : EffectBatchFacts }.
Record UnknownEffectAbandonment := {
  ab_checkpoint : Checkpoint; ab_events : list NewEvent }.
Record CancellationInput := {
  ci_agent_id : AgentId; ci_session_id : SessionId; ci_operation_id : OperationId;
  ci_command : Command; ci_events : list SemanticEvent;
  ci_checkpoint : option Checkpoint; ci_effect_batch : option EffectBatchFacts }.
Record CancellationTransition := {
  ct_checkpoint : Checkpoint; ct_events : list NewEvent }.

Inductive LoopDecision :=
| InvokeEffects (checkpoint : Checkpoint) (effects : list EffectRequest)
| AppendEventsAndContinue (checkpoint : Checkpoint) (events : list NewEvent)
| WaitForInput (checkpoint : Checkpoint) (events : list NewEvent)
| Complete (checkpoint : Checkpoint) (events : list NewEvent)
| FailOperation (checkpoint : Checkpoint) (events : list NewEvent) (reason : string).

Definition decision_checkpoint (d : LoopDecision) : Checkpoint :=
  match d with
  | InvokeEffects c _ | AppendEventsAndContinue c _ | WaitForInput c _
  | Complete c _ | FailOperation c _ _ => c
  end.

Definition require_compatible_checkpoint (manifest : RuntimeManifest)
    (checkpoint : option Checkpoint) : KResult unit :=
  match checkpoint with
  | None => Ok tt
  | Some c =>
      let expected := checkpoint_schema_version manifest in
      let found := schema_version c in
      if found =? expected then Ok tt else Err (CheckpointSchemaMismatch expected found)
  end.

(** [events.rs]: a decision may only append events with a non-empty kind. *)
Definition validate_new_events (events : list NewEvent) : KResult unit :=
  if existsb (λ e, String.eqb (kind e) "") events
  then Err (InvalidDecision "semantic event kind cannot be empty")
  else Ok tt.
End values.

(** The serializers the kernel uses, and their round trips. *)
Class KernelSerde `{JL : JsonLib} := {
  command_serde :: Serde Command;
  manifest_serde :: Serde RuntimeManifest;
  checkpoint_serde :: Serde Checkpoint;
  outcome_serde :: Serde OperationOutcome;
  effect_outcome_serde :: Serde EffectOutcome;
  value_serde :: Serde Value;
}.

Class KernelSerdeLaws `{KS : KernelSerde} : Prop := {
  command_laws :: SerdeLaws Command;
  manifest_laws :: SerdeLaws RuntimeManifest;
  checkpoint_laws :: SerdeLaws Checkpoint;
  outcome_laws :: SerdeLaws OperationOutcome;
  effect_outcome_laws :: SerdeLaws EffectOutcome;
  value_laws :: SerdeLaws Value;
}.

(** [serde_json::to_string(..).map_err(json_error)?] and
    [serde_json::from_str(..).map_err(json_error)?]. *)
Definition encode_json `{Serde A} (a : A) : KResult Text := ok_or (to_string a) json_error.
Definition decode_json `{Serde A} (t : Text) : KResult A := ok_or (from_str t) json_error.

(** ** Lemmas on the database texts *)

Lemma from_database_as_str p : from_database (as_str p) = Ok p.
Proof. by destruct p. Qed.

Lemma from_database_ok s p : from_database s = Ok p ↔ s = as_str p.
Proof.
  split; [|intros ->; apply from_database_as_str].
  unfold from_database. repeat case_decide; naive_solver.
Qed.

Lemma parse_status_name s : parse_status (status_name s) = Ok s.
Proof. by destruct s. Qed.

Lemma parse_status_ok t s : parse_status t = Ok s ↔ t = status_name s.
Proof.
  split; [|intros ->; apply parse_status_name].
  unfold parse_status. repeat case_decide; naive_solver.
Qed.

Lemma parse_recovery_as_str r : parse_recovery (recovery_as_str r) = Ok r.
Proof. by destruct r. Qed.

Lemma parse_recovery_ok t r : parse_recovery t = Ok r ↔ t = recovery_as_str r.
Proof.
  split; [|intros ->; apply parse_recovery_as_str].
  unfold parse_recovery. repeat case_decide; naive_solver.
Qed.

Lemma encode_decode_json `{SerdeLaws A} (a : A) t :
  encode_json a = Ok t → decode_json t = Ok a.
Proof.
  unfold encode_json, decode_json. rewrite ok_or_ok. intros E.
  by rewrite (from_to_string a t E).
Qed.

Lemma from_sql_integer_ok z d n : from_sql_integer z d = Ok n ↔ n = z ∧ 0 ≤ z.
Proof. unfold from_sql_integer. destruct (0 <=? z) eqn:E; split_bools; naive_solver lia. Qed.
