(* ===== verification/Schema.v ===== *)
(** * The kernel database: tables, constraints, transactions

    [schema.rs] creates the tables; [request_release.rs] adds a view and a
    trigger. A table is a finite map from primary key to row; a [TEXT] column
    that holds JSON has the abstract type [Text], an enumerated [TEXT] column
    ([phase], [status], [recovery]) is a [string] under its [CHECK], an
    [INTEGER] column is a [Z] that must fit an [i64] ([STRICT] tables reject
    the real number an overflowing sum becomes).

    [Tx] is the body of one SQLite transaction: it reads and writes the
    database and may fail; [immediate] runs it, keeps its writes when it
    succeeds and the deferred foreign keys hold, and restores the previous
    database otherwise. *)
From S2P Require Import Prelude Json State.
Section schema.
Context `{JL : JsonLib}.

(** ** Rows *)
Record SessionRow := MkSession {
  s_agent_id : AgentId;
  s_next_command_position : Z;
  s_active_operation_id : option OperationId;
  s_next_event_sequence : Z;
}.

Record CommandRow := MkCommand {
  c_session_id : SessionId;
  c_content_json : Text;
}.

Record OperationRow := MkOperation {
  o_session_id : SessionId;
  o_command_id : CommandId;
  o_position : Z;
  o_phase : string;
  o_state_version : Z;
  o_transition_version : Z;
  o_manifest_json : option Text;
  o_checkpoint_json : option Text;
  o_current_effect_batch_id : option EffectBatchId;
  o_input_effect_batch_id : option EffectBatchId;
  o_outcome_json : option Text;
  o_next_effect_batch_position : Z;
}.

Record EventRow := MkEvent {
  ev_session_id : SessionId;
  ev_operation_id : OperationId;
  ev_sequence : Z;
  ev_kind : string;
  ev_payload_json : Text;
}.

Record BatchRow := MkBatch {
  b_operation_id : OperationId;
  b_position : Z;
}.

Record EffectRow := MkEffect {
  e_batch_id : EffectBatchId;
  e_position : Z;
  e_binding : string;
  e_binding_revision : string;
  e_recovery : string;
  e_request_json : option Text;
  e_status : string;
  e_dispatch_count : Z;
  e_outcome_json : option Text;
}.

Record CancellationRow := MkCancellation {
  k_session_id : SessionId;
  k_operation_id : OperationId;
}.

Record Database := MkDatabase {
  agents : gset AgentId;
  sessions : gmap SessionId SessionRow;
  commands : gmap CommandId CommandRow;
  operations : gmap OperationId OperationRow;
  semantic_events : gmap EventId EventRow;
  effect_batches : gmap EffectBatchId BatchRow;
  effects : gmap EffectId EffectRow;
  cancellation_requests : gmap CancellationId CancellationRow;
  release_installed : bool;   (* the view and the trigger of request_release.rs *)
}.

(** A fresh database, as [SCHEMA] and [request_release::install] create it. *)
Definition empty_database : Database :=
  MkDatabase ∅ ∅ ∅ ∅ ∅ ∅ ∅ ∅ true.

Definition with_agents x db := MkDatabase x (sessions db) (commands db) (operations db)
  (semantic_events db) (effect_batches db) (effects db) (cancellation_requests db)
  (release_installed db).
Definition with_sessions x db := MkDatabase (agents db) x (commands db) (operations db)
  (semantic_events db) (effect_batches db) (effects db) (cancellation_requests db)
  (release_installed db).
Definition with_commands x db := MkDatabase (agents db) (sessions db) x (operations db)
  (semantic_events db) (effect_batches db) (effects db) (cancellation_requests db)
  (release_installed db).
Definition with_operations x db := MkDatabase (agents db) (sessions db) (commands db) x
  (semantic_events db) (effect_batches db) (effects db) (cancellation_requests db)
  (release_installed db).
Definition with_events x db := MkDatabase (agents db) (sessions db) (commands db)
  (operations db) x (effect_batches db) (effects db) (cancellation_requests db)
  (release_installed db).
Definition with_batches x db := MkDatabase (agents db) (sessions db) (commands db)
  (operations db) (semantic_events db) x (effects db) (cancellation_requests db)
  (release_installed db).
Definition with_effects x db := MkDatabase (agents db) (sessions db) (commands db)
  (operations db) (semantic_events db) (effect_batches db) x (cancellation_requests db)
  (release_installed db).
Definition with_cancellations x db := MkDatabase (agents db) (sessions db) (commands db)
  (operations db) (semantic_events db) (effect_batches db) (effects db) x
  (release_installed db).

(** ** [CHECK] constraints *)
Definition session_checks (r : SessionRow) : bool :=
  (0 <=? s_next_command_position r) && in_i64 (s_next_command_position r) &&
  (0 <=? s_next_event_sequence r) && in_i64 (s_next_event_sequence r).

Definition phase_names : list string :=
  ["queued"; "need_decision"; "effect_intent"; "effect_dispatched"; "outcome_unknown";
   "waiting"; "completed"; "failed"; "cancelled"].

Definition operation_checks (r : OperationRow) : bool :=
  (0 <=? o_position r) && in_i64 (o_position r) &&
  existsb (String.eqb (o_phase r)) phase_names &&
  (0 <? o_state_version r) && in_i64 (o_state_version r) &&
  (0 <=? o_transition_version r) && in_i64 (o_transition_version r) &&
  (0 <=? o_next_effect_batch_position r) && in_i64 (o_next_effect_batch_position r).

Definition event_checks (r : EventRow) : bool :=
  (0 <=? ev_sequence r) && in_i64 (ev_sequence r) && negb (String.eqb (ev_kind r) "").

Definition batch_checks (r : BatchRow) : bool :=
  (0 <=? b_position r) && in_i64 (b_position r).

Definition effect_checks (r : EffectRow) : bool :=
  (0 <=? e_position r) && in_i64 (e_position r) &&
  negb (String.eqb (e_binding r) "") && negb (String.eqb (e_binding_revision r) "") &&
  existsb (String.eqb (e_recovery r)) ["safe_to_replay"; "never_replay"] &&
  (bool_decide (is_Some (e_request_json r)) || String.eqb (e_status r) "settled") &&
  existsb (String.eqb (e_status r))
    ["intent_committed"; "dispatch_started"; "settled"; "outcome_unknown"] &&
  (0 <=? e_dispatch_count r) && in_i64 (e_dispatch_count r) &&
  Bool.eqb (String.eqb (e_status r) "settled") (bool_decide (is_Some (e_outcome_json r))).

(** ** Foreign keys and uniqueness *)
Definition operation_in_session (db : Database) (s : SessionId) (o : OperationId) : bool :=
  match operations db !! o with
  | Some r => bool_decide (o_session_id r = s)
  | None => false
  end.

Definition batch_of_operation (db : Database) (o : OperationId) (b : EffectBatchId) : bool :=
  match effect_batches db !! b with
  | Some r => bool_decide (b_operation_id r = o)
  | None => false
  end.

(** The [DEFERRABLE INITIALLY DEFERRED] keys, checked at commit. *)
Definition deferred_constraints (db : Database) : bool :=
  tbl_forall (λ s r,
    match s_active_operation_id r with
    | None => true
    | Some o => operation_in_session db s o
    end) (sessions db) &&
  tbl_forall (λ o r,
    match o_current_effect_batch_id r with
    | None => true
    | Some b => batch_of_operation db o b
    end &&
    match o_input_effect_batch_id r with
    | None => true
    | Some b => batch_of_operation db o b
    end) (operations db).

(** ** Transactions *)
Definition Tx (A : Type) : Type := Database → KResult (A * Database).

#[global] Instance Tx_ret : MRet Tx := λ A a db, Ok (a, db).
#[global] Instance Tx_bind : MBind Tx := λ A B f m db,
  match m db with Ok (a, db') => f a db' | Err e => Err e end.

Definition throw {A} (e : KernelError) : Tx A := λ _, Err e.
Definition lift {A} (r : KResult A) : Tx A := λ db, a ← r; Ok (a, db).
Definition query {A} (q : Database → A) : Tx A := λ db, Ok (q db, db).
Definition read {A} (q : Database → KResult A) : Tx A := λ db, a ← q db; Ok (a, db).
Definition guard_tx (b : bool) (e : KernelError) : Tx unit :=
  if b then mret tt else throw e.

(** What a public operation does to the database: its result and the
    database it leaves. *)
Definition immediate {A} (m : Tx A) (db : Database) : KResult A * Database :=
  match m db with
  | Ok (a, db') =>
      if deferred_constraints db' then (Ok a, db')
      else (Err (sqlite_error "FOREIGN KEY constraint failed"), db)
  | Err e => (Err e, db)
  end.

Definition constraint_failed {A} : Tx A := throw (sqlite_error "constraint failed").

(** ** [INSERT] *)
Definition insert_agent (id : AgentId) : Tx unit :=
  λ db, Ok (tt, with_agents ({[id]} ∪ agents db) db).

Definition insert_session (id : SessionId) (row : SessionRow) : Tx unit := λ db,
  if bool_decide (sessions db !! id = None) && bool_decide (s_agent_id row ∈ agents db)
     && session_checks row
  then Ok (tt, with_sessions (<[id := row]> (sessions db)) db)
  else constraint_failed db.

Definition insert_command (id : CommandId) (row : CommandRow) : Tx unit := λ db,
  if bool_decide (commands db !! id = None) && bool_decide (is_Some (sessions db !! c_session_id row))
  then Ok (tt, with_commands (<[id := row]> (commands db)) db)
  else constraint_failed db.

Definition command_in_session (db : Database) (s : SessionId) (c : CommandId) : bool :=
  match commands db !! c with
  | Some r => bool_decide (c_session_id r = s)
  | None => false
  end.

Definition insert_operation (id : OperationId) (row : OperationRow) : Tx unit := λ db,
  if bool_decide (operations db !! id = None) &&
     tbl_forall (λ _ r, bool_decide (o_command_id r ≠ o_command_id row)) (operations db) &&
     tbl_forall (λ _ r, bool_decide (o_session_id r ≠ o_session_id row) ||
                        bool_decide (o_position r ≠ o_position row)) (operations db) &&
     bool_decide (is_Some (sessions db !! o_session_id row)) &&
     command_in_session db (o_session_id row) (o_command_id row) &&
     operation_checks row
  then Ok (tt, with_operations (<[id := row]> (operations db)) db)
  else constraint_failed db.

Definition insert_event (id : EventId) (row : EventRow) : Tx unit := λ db,
  if bool_decide (semantic_events db !! id = None) &&
     tbl_forall (λ _ r, bool_decide (ev_session_id r ≠ ev_session_id row) ||
                        bool_decide (ev_sequence r ≠ ev_sequence row)) (semantic_events db) &&
     bool_decide (is_Some (sessions db !! ev_session_id row)) &&
     operation_in_session db (ev_session_id row) (ev_operation_id row) &&
     event_checks row
  then Ok (tt, with_events (<[id := row]> (semantic_events db)) db)
  else constraint_failed db.

Definition insert_batch (id : EffectBatchId) (row : BatchRow) : Tx unit := λ db,
  if bool_decide (effect_batches db !! id = None) &&
     tbl_forall (λ _ r, bool_decide (b_operation_id r ≠ b_operation_id row) ||
                        bool_decide (b_position r ≠ b_position row)) (effect_batches db) &&
     bool_decide (is_Some (operations db !! b_operation_id row)) && batch_checks row
  then Ok (tt, with_batches (<[id := row]> (effect_batches db)) db)
  else constraint_failed db.

Definition insert_effect (id : EffectId) (row : EffectRow) : Tx unit := λ db,
  if bool_decide (effects db !! id = None) &&
     tbl_forall (λ _ r, bool_decide (e_batch_id r ≠ e_batch_id row) ||
                        bool_decide (e_position r ≠ e_position row)) (effects db) &&
     bool_decide (is_Some (effect_batches db !! e_batch_id row)) && effect_checks row
  then Ok (tt, with_effects (<[id := row]> (effects db)) db)
  else constraint_failed db.

Definition insert_cancellation (id : CancellationId) (row : CancellationRow) : Tx unit := λ db,
  if bool_decide (cancellation_requests db !! id = None) &&
     operation_in_session db (k_session_id row) (k_operation_id row)
  then Ok (tt, with_cancellations (<[id := row]> (cancellation_requests db)) db)
  else constraint_failed db.

(** ** [UPDATE]

    An update by primary key with a further condition; the result is the
    number of changed rows. *)
Definition update_session (id : SessionId) (where_ : SessionRow → bool)
    (set : SessionRow → SessionRow) : Tx Z := λ db,
  match sessions db !! id with
  | Some row =>
      if where_ row then
        if session_checks (set row)
        then Ok (1, with_sessions (<[id := set row]> (sessions db)) db)
        else constraint_failed db
      else Ok (0, db)
  | None => Ok (0, db)
  end.

Definition set_request (x : option Text) (e : EffectRow) : EffectRow :=
  MkEffect (e_batch_id e) (e_position e) (e_binding e) (e_binding_revision e)
    (e_recovery e) x (e_status e) (e_dispatch_count e) (e_outcome_json e).

(** The view [finished_effect_requests], restricted to one operation. *)
Definition finished_request (db : Database) (op : OperationId) (e : EffectRow) : bool :=
  batch_of_operation db op (e_batch_id e) &&
  match operations db !! op with
  | Some o => bool_decide (is_Some (o_outcome_json o))
  | None => false
  end &&
  String.eqb (e_status e) "settled" && bool_decide (is_Some (e_request_json e)) &&
  negb (tbl_exists (λ _ sibling, bool_decide (e_batch_id sibling = e_batch_id e) &&
                                 negb (String.eqb (e_status sibling) "settled")) (effects db)).

(** The trigger [release_finished_effect_requests], which fires after every
    [UPDATE] that lists [phase] in its [SET]. *)
Definition release_finished_effect_requests (op : OperationId) (db : Database) : Database :=
  if release_installed db
  then with_effects (update_where (λ _ e, finished_request db op e) (set_request None)
                       (effects db)) db
  else db.

Definition update_operation (id : OperationId) (where_ : OperationRow → bool)
    (set : OperationRow → OperationRow) : Tx Z := λ db,
  match operations db !! id with
  | Some row =>
      if where_ row then
        if operation_checks (set row)
        then Ok (1, release_finished_effect_requests id
                      (with_operations (<[id := set row]> (operations db)) db))
        else constraint_failed db
      else Ok (0, db)
  | None => Ok (0, db)
  end.

Definition update_effect (id : EffectId) (where_ : EffectRow → bool)
    (set : EffectRow → EffectRow) : Tx Z := λ db,
  match effects db !! id with
  | Some row =>
      if where_ row then
        if effect_checks (set row)
        then Ok (1, with_effects (<[id := set row]> (effects db)) db)
        else constraint_failed db
      else Ok (0, db)
  | None => Ok (0, db)
  end.

(** [if changed != 1 { return Err(Corrupt(..)) }] *)
Definition require_changed (changed : Z) (message : string) : Tx unit :=
  guard_tx (changed =? 1) (Corrupt message).

(** ** Column updates used by the statements *)
Definition bump_position (r : SessionRow) : SessionRow :=
  MkSession (s_agent_id r) (s_next_command_position r + 1) (s_active_operation_id r)
    (s_next_event_sequence r).
Definition set_active (a : option OperationId) (r : SessionRow) : SessionRow :=
  MkSession (s_agent_id r) (s_next_command_position r) a (s_next_event_sequence r).
Definition bump_sequence (count : Z) (r : SessionRow) : SessionRow :=
  MkSession (s_agent_id r) (s_next_command_position r) (s_active_operation_id r)
    (s_next_event_sequence r + count).
Definition set_effect_status (status : string) (e : EffectRow) : EffectRow :=
  MkEffect (e_batch_id e) (e_position e) (e_binding e) (e_binding_revision e)
    (e_recovery e) (e_request_json e) status (e_dispatch_count e) (e_outcome_json e).
End schema.

(** [SCHEMA_VERSION] and [OPERATION_STATE_VERSION]. *)
Definition SCHEMA_VERSION : Z := 4.
Definition OPERATION_STATE_VERSION : Z := 1.

Arguments Tx {JL} A.
Arguments Database {JL}.
