(* ===== verification/SchemaFacts.v ===== *)
(** * What transactions do

    Inversion lemmas for the transaction monad and the SQL statements, with the
    [inv_tx] tactic that takes a committed transaction apart. *)
From S2P Require Import Prelude Json State Schema.
Create Rewrite HintDb sql.

Section facts.
Context `{JL : JsonLib}.
Implicit Types db : Database.

Lemma tx_ret_ok {A} (a b : A) db db' :
  (mret a : Tx A) db = Ok (b, db') ↔ b = a ∧ db' = db.
Proof. unfold mret, Tx_ret. naive_solver. Qed.

Lemma tx_bind_ok {A B} (m : Tx A) (f : A → Tx B) b db db' :
  (m ≫= f) db = Ok (b, db') ↔ ∃ a db1, m db = Ok (a, db1) ∧ f a db1 = Ok (b, db').
Proof.
  unfold mbind, Tx_bind. destruct (m db) as [[a db1]|e]; naive_solver.
Qed.

Lemma throw_ok {A} e (a : A) db db' : throw e db = Ok (a, db') ↔ False.
Proof. done. Qed.

Lemma lift_ok {A} (r : KResult A) a db db' :
  lift r db = Ok (a, db') ↔ r = Ok a ∧ db' = db.
Proof. unfold lift. destruct r; cbn; naive_solver. Qed.

Lemma query_ok {A} (q : Database → A) a db db' :
  query q db = Ok (a, db') ↔ a = q db ∧ db' = db.
Proof. unfold query. naive_solver. Qed.

Lemma read_ok {A} (q : Database → KResult A) a db db' :
  read q db = Ok (a, db') ↔ q db = Ok a ∧ db' = db.
Proof. unfold read. destruct (q db); cbn; naive_solver. Qed.

Lemma guard_ok b e u db db' :
  guard_tx b e db = Ok (u, db') ↔ b = true ∧ db' = db.
Proof.
  unfold guard_tx. destruct b, u; [rewrite tx_ret_ok|rewrite throw_ok]; naive_solver.
Qed.

Lemma require_changed_ok n msg u db db' :
  require_changed n msg db = Ok (u, db') ↔ n = 1 ∧ db' = db.
Proof. unfold require_changed. rewrite guard_ok, Z.eqb_eq. done. Qed.

(** Running a transaction forwards. *)
Lemma tx_run {A B} (m : Tx A) (f : A → Tx B) db a db1 :
  m db = Ok (a, db1) → (m ≫= f) db = f a db1.
Proof. unfold mbind, Tx_bind. by intros ->. Qed.
Lemma tx_run_err {A B} (m : Tx A) (f : A → Tx B) db e : m db = Err e → (m ≫= f) db = Err e.
Proof. unfold mbind, Tx_bind. by intros ->. Qed.
Lemma lift_run {A} (r : KResult A) a db : r = Ok a → lift r db = Ok (a, db).
Proof. unfold lift. by intros ->. Qed.
Lemma read_run {A} (q : Database → KResult A) a db : q db = Ok a → read q db = Ok (a, db).
Proof. unfold read. by intros ->. Qed.
Lemma read_run_err {A} (q : Database → KResult A) e db : q db = Err e → read q db = Err e.
Proof. unfold read. by intros ->. Qed.
Lemma require_run n msg db : n = 1 → require_changed n msg db = Ok (tt, db).
Proof. by intros ->. Qed.
Lemma guard_run (b : bool) e db : b = true → guard_tx b e db = Ok (tt, db).
Proof. by intros ->. Qed.

Lemma update_operation_run id w f db o :
  operations db !! id = Some o → w o = true → operation_checks (f o) = true →
  update_operation id w f db = Ok (1, release_finished_effect_requests id
                                        (with_operations (<[id := f o]> (operations db)) db)).
Proof. unfold update_operation. intros -> -> ->. done. Qed.
Lemma update_session_run id w f db r :
  sessions db !! id = Some r → w r = true → session_checks (f r) = true →
  update_session id w f db = Ok (1, with_sessions (<[id := f r]> (sessions db)) db).
Proof. unfold update_session. intros -> -> ->. done. Qed.
Lemma update_effect_run id w f db e :
  effects db !! id = Some e → w e = true → effect_checks (f e) = true →
  update_effect id w f db = Ok (1, with_effects (<[id := f e]> (effects db)) db).
Proof. unfold update_effect. intros -> -> ->. done. Qed.

Lemma update_session_ok id w f n db db' :
  update_session id w f db = Ok (n, db') →
  (n = 0 ∧ db' = db) ∨
  (n = 1 ∧ ∃ r, sessions db !! id = Some r ∧ w r = true ∧ session_checks (f r) = true ∧
     db' = with_sessions (<[id := f r]> (sessions db)) db).
Proof.
  unfold update_session, constraint_failed, throw. intros E.
  destruct (sessions db !! id) as [r|] eqn:Er; [|naive_solver].
  destruct (w r) eqn:Ew; [|naive_solver].
  destruct (session_checks (f r)) eqn:Ec; naive_solver.
Qed.

Lemma update_operation_ok id w f n db db' :
  update_operation id w f db = Ok (n, db') →
  (n = 0 ∧ db' = db) ∨
  (n = 1 ∧ ∃ o, operations db !! id = Some o ∧ w o = true ∧ operation_checks (f o) = true ∧
     db' = release_finished_effect_requests id
             (with_operations (<[id := f o]> (operations db)) db)).
Proof.
  unfold update_operation, constraint_failed, throw. intros E.
  destruct (operations db !! id) as [r|] eqn:Er; [|naive_solver].
  destruct (w r) eqn:Ew; [|naive_solver].
  destruct (operation_checks (f r)) eqn:Ec; naive_solver.
Qed.

Lemma update_effect_ok id w f n db db' :
  update_effect id w f db = Ok (n, db') →
  (n = 0 ∧ db' = db) ∨
  (n = 1 ∧ ∃ e, effects db !! id = Some e ∧ w e = true ∧ effect_checks (f e) = true ∧
     db' = with_effects (<[id := f e]> (effects db)) db).
Proof.
  unfold update_effect, constraint_failed, throw. intros E.
  destruct (effects db !! id) as [r|] eqn:Er; [|naive_solver].
  destruct (w r) eqn:Ew; [|naive_solver].
  destruct (effect_checks (f r)) eqn:Ec; naive_solver.
Qed.

(** The statements that are required to change one row. *)
Lemma update_session_1 id w f db db' :
  update_session id w f db = Ok (1, db') →
  ∃ r, sessions db !! id = Some r ∧ w r = true ∧ session_checks (f r) = true ∧
    db' = with_sessions (<[id := f r]> (sessions db)) db.
Proof. intros [[? _]|[_ ?]]%update_session_ok; done. Qed.
Lemma update_operation_1 id w f db db' :
  update_operation id w f db = Ok (1, db') →
  ∃ o, operations db !! id = Some o ∧ w o = true ∧ operation_checks (f o) = true ∧
    db' = release_finished_effect_requests id
            (with_operations (<[id := f o]> (operations db)) db).
Proof. intros [[? _]|[_ ?]]%update_operation_ok; done. Qed.
Lemma update_effect_1 id w f db db' :
  update_effect id w f db = Ok (1, db') →
  ∃ e, effects db !! id = Some e ∧ w e = true ∧ effect_checks (f e) = true ∧
    db' = with_effects (<[id := f e]> (effects db)) db.
Proof. intros [[? _]|[_ ?]]%update_effect_ok; done. Qed.

Lemma operation_in_session_spec db s o :
  operation_in_session db s o = true ↔
  ∃ r, operations db !! o = Some r ∧ o_session_id r = s.
Proof.
  unfold operation_in_session. destruct (operations db !! o); [|naive_solver].
  rewrite bool_decide_eq_true. naive_solver.
Qed.

Lemma batch_of_operation_spec db o b :
  batch_of_operation db o b = true ↔
  ∃ r, effect_batches db !! b = Some r ∧ b_operation_id r = o.
Proof.
  unfold batch_of_operation. destruct (effect_batches db !! b); [|naive_solver].
  rewrite bool_decide_eq_true. naive_solver.
Qed.

Lemma command_in_session_spec db s c :
  command_in_session db s c = true ↔ ∃ r, commands db !! c = Some r ∧ c_session_id r = s.
Proof.
  unfold command_in_session. destruct (commands db !! c); [|naive_solver].
  rewrite bool_decide_eq_true. naive_solver.
Qed.

Lemma insert_session_ok id row u db db' :
  insert_session id row db = Ok (u, db') →
  sessions db !! id = None ∧ s_agent_id row ∈ agents db ∧ session_checks row = true ∧
  db' = with_sessions (<[id := row]> (sessions db)) db.
Proof.
  unfold insert_session, constraint_failed, throw. case_match eqn:E; [|done].
  split_bools. naive_solver.
Qed.

Lemma insert_command_ok id row u db db' :
  insert_command id row db = Ok (u, db') →
  commands db !! id = None ∧ is_Some (sessions db !! c_session_id row) ∧
  db' = with_commands (<[id := row]> (commands db)) db.
Proof.
  unfold insert_command, constraint_failed, throw. case_match eqn:E; [|done].
  split_bools. naive_solver.
Qed.

Lemma insert_operation_ok id row u db db' :
  insert_operation id row db = Ok (u, db') →
  operations db !! id = None ∧
  (∀ k r, operations db !! k = Some r → o_command_id r ≠ o_command_id row) ∧
  is_Some (sessions db !! o_session_id row) ∧ operation_checks row = true ∧
  db' = with_operations (<[id := row]> (operations db)) db.
Proof.
  unfold insert_operation, constraint_failed, throw. case_match eqn:E; [|done].
  split_bools. intros [= <-]. split_and!; try done.
  intros k r Hk. rewrite tbl_forall_spec in *.
  match goal with
  | H : ∀ k v, _ → bool_decide (o_command_id v ≠ _) = true |- _ =>
      specialize (H k r Hk); by apply bool_decide_eq_true in H
  end.
Qed.

Lemma insert_event_ok id row u db db' :
  insert_event id row db = Ok (u, db') →
  semantic_events db !! id = None ∧ event_checks row = true ∧
  (∃ o, operations db !! ev_operation_id row = Some o ∧ o_session_id o = ev_session_id row) ∧
  db' = with_events (<[id := row]> (semantic_events db)) db.
Proof.
  unfold insert_event, constraint_failed, throw. case_match eqn:E; [|done].
  split_bools. intros [= <-].
  match goal with H : operation_in_session _ _ _ = true |- _ =>
    apply operation_in_session_spec in H end.
  done.
Qed.

Lemma insert_batch_ok id row u db db' :
  insert_batch id row db = Ok (u, db') →
  effect_batches db !! id = None ∧ batch_checks row = true ∧
  db' = with_batches (<[id := row]> (effect_batches db)) db.
Proof.
  unfold insert_batch, constraint_failed, throw. case_match eqn:E; [|done].
  split_bools. intros [= <-]. done.
Qed.

Lemma insert_effect_ok id row u db db' :
  insert_effect id row db = Ok (u, db') →
  effects db !! id = None ∧ effect_checks row = true ∧
  db' = with_effects (<[id := row]> (effects db)) db.
Proof.
  unfold insert_effect, constraint_failed, throw. case_match eqn:E; [|done].
  split_bools. intros [= <-]. done.
Qed.

Lemma insert_cancellation_ok id row u db db' :
  insert_cancellation id row db = Ok (u, db') →
  cancellation_requests db !! id = None ∧
  (∃ o, operations db !! k_operation_id row = Some o ∧ o_session_id o = k_session_id row) ∧
  db' = with_cancellations (<[id := row]> (cancellation_requests db)) db.
Proof.
  unfold insert_cancellation, constraint_failed, throw. case_match eqn:E; [|done].
  split_bools. intros [= <-].
  match goal with H : operation_in_session _ _ _ = true |- _ =>
    apply operation_in_session_spec in H end.
  done.
Qed.

(** A committed transaction, or nothing happened. *)
Lemma immediate_cases {A} (m : Tx A) db r db' :
  immediate m db = (r, db') →
  (∃ a, r = Ok a ∧ m db = Ok (a, db') ∧ deferred_constraints db' = true) ∨
  (∃ e, r = Err e ∧ db' = db).
Proof.
  unfold immediate. destruct (m db) as [[a db1]|e]; [|naive_solver].
  destruct (deferred_constraints db1) eqn:E; naive_solver.
Qed.

(** ** The release trigger *)
Lemma release_tables id db :
  agents (release_finished_effect_requests id db) = agents db ∧
  sessions (release_finished_effect_requests id db) = sessions db ∧
  commands (release_finished_effect_requests id db) = commands db ∧
  operations (release_finished_effect_requests id db) = operations db ∧
  semantic_events (release_finished_effect_requests id db) = semantic_events db ∧
  effect_batches (release_finished_effect_requests id db) = effect_batches db ∧
  cancellation_requests (release_finished_effect_requests id db) = cancellation_requests db ∧
  release_installed (release_finished_effect_requests id db) = release_installed db.
Proof.
  unfold release_finished_effect_requests.
  destruct (release_installed db) eqn:E; split_and!; try done; by rewrite E.
Qed.

Lemma release_effects id db k :
  release_installed db = true →
  effects (release_finished_effect_requests id db) !! k =
  (λ e, if finished_request db id e then set_request None e else e) <$> effects db !! k.
Proof.
  unfold release_finished_effect_requests. intros ->. cbn.
  by rewrite lookup_update_where.
Qed.

(** Nothing is released while the operation has no outcome. *)
Lemma release_unfinished id db o :
  operations db !! id = Some o → o_outcome_json o = None →
  release_finished_effect_requests id db = db.
Proof.
  intros Ho Hn. unfold release_finished_effect_requests.
  destruct (release_installed db) eqn:E; [|done].
  assert (update_where (λ _ e, finished_request db id e) (set_request None) (effects db)
          = effects db) as ->.
  - apply map_eq. intros k. rewrite lookup_update_where.
    destruct (effects db !! k) as [e|]; cbn; [|done].
    replace (finished_request db id e) with false; [done|].
    unfold finished_request. rewrite Ho, Hn. by rewrite andb_false_r.
  - by destruct db.
Qed.
End facts.

#[export] Hint Rewrite @tx_ret_ok @tx_bind_ok @throw_ok @lift_ok @query_ok @read_ok @guard_ok
  @require_changed_ok @ok_or_ok @result_bind_ok : sql.

(** Runs the first statement of a transaction, which [tac] evaluates. *)
Tactic Notation "run_tx" tactic3(tac) := erewrite tx_run; [|tac]; cbv beta iota zeta.

(** Takes a committed transaction apart, one statement at a time. *)
Ltac inv_tx :=
  repeat match goal with
  | H : _ ∧ _ |- _ => destruct H
  | H : ∃ _, _ |- _ => destruct H
  | H : False |- _ => destruct H
  | H : Ok _ = Ok _ |- _ => injection H as H; subst
  | H : Err _ = Ok _ |- _ => discriminate H
  | H : Ok _ = Err _ |- _ => discriminate H
  | H : (_ ≫= _) _ = Ok _ |- _ => apply tx_bind_ok in H
  | H : mret _ _ = Ok _ |- _ => apply tx_ret_ok in H
  | H : throw _ _ = Ok _ |- _ => apply throw_ok in H
  | H : lift _ _ = Ok _ |- _ => apply lift_ok in H
  | H : query _ _ = Ok _ |- _ => apply query_ok in H
  | H : read _ _ = Ok _ |- _ => apply read_ok in H
  | H : guard_tx _ _ _ = Ok _ |- _ => apply guard_ok in H
  | H : require_changed _ _ _ = Ok _ |- _ => apply require_changed_ok in H
  | H : update_session _ _ _ _ = Ok (1, _) |- _ => apply update_session_1 in H
  | H : update_operation _ _ _ _ = Ok (1, _) |- _ => apply update_operation_1 in H
  | H : update_effect _ _ _ _ = Ok (1, _) |- _ => apply update_effect_1 in H
  | H : insert_session _ _ _ = Ok _ |- _ => apply insert_session_ok in H
  | H : insert_command _ _ _ = Ok _ |- _ => apply insert_command_ok in H
  | H : insert_operation _ _ _ = Ok _ |- _ => apply insert_operation_ok in H
  | H : insert_event _ _ _ = Ok _ |- _ => apply insert_event_ok in H
  | H : insert_batch _ _ _ = Ok _ |- _ => apply insert_batch_ok in H
  | H : insert_effect _ _ _ = Ok _ |- _ => apply insert_effect_ok in H
  | H : insert_cancellation _ _ _ = Ok _ |- _ => apply insert_cancellation_ok in H
  | H : ok_or _ _ = Ok _ |- _ => apply ok_or_ok in H
  | H : i64_try_from _ = Some _ |- _ => apply i64_try_from_Some in H
  | H : checked_add_i64 _ _ = Some _ |- _ => apply checked_add_i64_Some in H
  | H : checked_add_u64 _ _ = Some _ |- _ => apply checked_add_u64_Some in H
  | H : (_ ≫= _) = Ok _ |- _ => apply result_bind_ok in H
  | H : (_, _) = (_, _) |- _ => injection H as H; subst
  | x := _ |- _ => subst x
  | p : prod _ _ |- _ => destruct p; cbn [fst snd] in *
  | x : unit |- _ => destruct x
  | H : ?x = _ |- _ => is_var x; subst x
  | H : _ = ?x |- _ => is_var x; subst x
  end.
