(* ===== verification/Admission.v ===== *)
(** * Admission ([admission.rs])

    Creation of agents and sessions and durable admission of commands. The
    operation identity drawn by [OperationId::new()] is an argument. *)
From S2P Require Import Prelude Json State Schema.
Section admission.
Context `{KS : KernelSerde}.

Inductive AdmissionMode := Ordered | RequireNoUnfinishedOperation.

Definition create_agent (agent_id : AgentId) : Tx unit := insert_agent agent_id.

Definition create_session (session_id : SessionId) (agent_id : AgentId) : Tx unit :=
  existing ← query (λ db, s_agent_id <$> sessions db !! session_id);
  match existing with
  | Some existing =>
      if decide (existing = agent_id) then mret tt
      else throw (SessionConflict session_id existing)
  | None =>
      agent_exists ← query (λ db, bool_decide (agent_id ∈ agents db));
      if (agent_exists : bool)
      then insert_session session_id (MkSession agent_id 0 None 0)
      else throw (AgentNotFound agent_id)
  end.

(** [SELECT .. FROM commands JOIN operations ON command_id WHERE command_id = ?1] *)
Definition admission_row (db : Database) (command_id : CommandId)
    : option (OperationId * Z * SessionId * Text) :=
  match commands db !! command_id with
  | None => None
  | Some c =>
      match select (λ _ o, bool_decide (o_command_id o = command_id)) (operations db) with
      | [] => None
      | (operation_id, o) :: _ =>
          Some (operation_id, o_position o, c_session_id c, c_content_json c)
      end
  end.

Definition existing_admission (session_id : SessionId) (command_id : CommandId)
    (content_json : Text) (db : Database) : KResult (option Admission) :=
  match admission_row db command_id with
  | None => Ok None
  | Some (operation_id, position, stored_session, stored_content) =>
      if bool_decide (stored_session ≠ session_id) || bool_decide (stored_content ≠ content_json)
      then Err (CommandConflict command_id operation_id)
      else
        position ← from_sql_integer position "operation position";
        Ok (Some {| adm_operation_id := operation_id; adm_position := position |})
  end.

(** [UNFINISHED_OPERATION]: the operation has no outcome yet. *)
Definition unfinished (o : OperationRow) : bool := bool_decide (o_outcome_json o = None).

Definition first_unfinished (session_id : SessionId) (db : Database)
    : list (OperationId * OperationRow) :=
  order_by (λ ko, o_position ko.2)
    (select (λ _ o, bool_decide (o_session_id o = session_id) && unfinished o) (operations db)).

Definition require_no_unfinished_operation (session_id : SessionId) (db : Database)
    : KResult unit :=
  match first_unfinished session_id db with
  | [] => Ok tt
  | (operation_id, o) :: _ => Err (UnfinishedOperation operation_id (o_command_id o))
  end.

Definition queued_operation (session_id : SessionId) (command_id : CommandId) (position : Z)
    : OperationRow :=
  MkOperation session_id command_id position "queued" OPERATION_STATE_VERSION 0
    None None None None None 0.

Definition submit_with_mode (new_operation_id : OperationId) (session_id : SessionId)
    (command : Command) (mode : AdmissionMode) : Tx Admission :=
  content_json ← lift (encode_json command);
  let command_id := command_id command in
  admitted ← read (existing_admission session_id command_id content_json);
  match admitted with
  | Some admission => mret admission
  | None =>
      match mode with
      | RequireNoUnfinishedOperation => read (require_no_unfinished_operation session_id)
      | Ordered => mret tt
      end ;;
      position ← read (λ db, ok_or (s_next_command_position <$> sessions db !! session_id)
                               (SessionNotFound session_id));
      insert_command command_id (MkCommand session_id content_json) ;;
      insert_operation new_operation_id (queued_operation session_id command_id position) ;;
      changed ← update_session session_id (λ _, true) bump_position;
      require_changed changed "session admission cursor update failed" ;;
      position ← lift (from_sql_integer position "operation position");
      mret {| adm_operation_id := new_operation_id; adm_position := position |}
  end.

Definition submit (new_operation_id : OperationId) (session_id : SessionId)
    (command : Command) : Tx Admission :=
  submit_with_mode new_operation_id session_id command Ordered.

Definition submit_exclusive (new_operation_id : OperationId) (session_id : SessionId)
    (command : Command) : Tx Admission :=
  submit_with_mode new_operation_id session_id command RequireNoUnfinishedOperation.
End admission.
