(* ===== verification/OperationStore.v ===== *)
(** * Reading operations ([operation_store.rs]) and events ([events.rs])

    Decoding of stored rows, and the append and replay of semantic history
    ([decision_store.rs]: [append_events]). *)
From S2P Require Import Prelude Json State Schema.
Section operation_store.
Context `{KS : KernelSerde}.

Record StoredOperation := {
  command : Command;
  phase : OperationPhase;
  transition_version : Z;
  manifest : option RuntimeManifest;
  checkpoint : option Checkpoint;
  current_effect_batch_id : option EffectBatchId;
  input_effect_batch_id : option EffectBatchId;
  outcome : option OperationOutcome;
}.

Definition require_state_version (version : Z) : KResult unit :=
  match version ?= OPERATION_STATE_VERSION with
  | Eq => Ok tt
  | Gt => Err (UnsupportedStateVersion (Z.min version u32_max) OPERATION_STATE_VERSION)
  | Lt => Err (Corrupt "invalid operation state version")
  end.

(** [StoredOperationRow::decode] of an operation row with its command text. *)
Definition decode (row : OperationRow) (command_json : Text) : KResult StoredOperation :=
  require_state_version (o_state_version row) ;;
  command ← decode_json command_json;
  (if decide (command_id command = o_command_id row) then Ok tt
   else Err (Corrupt "operation command identity differs from stored content")) ;;
  manifest ← transpose decode_json (o_manifest_json row);
  checkpoint ← transpose decode_json (o_checkpoint_json row);
  match manifest with
  | Some m => require_compatible_checkpoint m checkpoint
  | None =>
      match checkpoint with
      | Some _ => Err (Corrupt "operation checkpoint has no runtime manifest")
      | None => Ok tt
      end
  end ;;
  phase ← from_database (o_phase row);
  outcome ← transpose decode_json (o_outcome_json row);
  Ok {| command := command; phase := phase;
        transition_version := o_transition_version row;
        manifest := manifest; checkpoint := checkpoint;
        current_effect_batch_id := o_current_effect_batch_id row;
        input_effect_batch_id := o_input_effect_batch_id row;
        outcome := outcome |}.

(** The join of [operations] and [commands] on session and command. *)
Definition command_text (db : Database) (row : OperationRow) : option Text :=
  match commands db !! o_command_id row with
  | Some c => if decide (c_session_id c = o_session_id row) then Some (c_content_json c) else None
  | None => None
  end.

Definition load_operation (session_id : SessionId) (operation_id : OperationId)
    (db : Database) : KResult (option StoredOperation) :=
  match operations db !! operation_id with
  | Some row =>
      if decide (o_session_id row = session_id) then
        match command_text db row with
        | Some text => stored ← decode row text; Ok (Some stored)
        | None => Ok None
        end
      else Ok None
  | None => Ok None
  end.

(** ** Semantic events *)
Definition START : Z := 0.

Definition session_events (db : Database) (session_id : SessionId) (start : Z)
    : list (EventId * EventRow) :=
  order_by (λ ke, ev_sequence ke.2)
    (select (λ _ e, bool_decide (ev_session_id e = session_id) && (start <=? ev_sequence e) &&
                    operation_in_session db (ev_session_id e) (ev_operation_id e))
       (semantic_events db)).

Definition decode_event (db : Database) (ke : EventId * EventRow) : KResult SemanticEvent :=
  let '(id, e) := ke in
  match operations db !! ev_operation_id e with
  | None => Err (sqlite_error "query returned no rows")
  | Some o =>
      sequence ← from_sql_integer (ev_sequence e) "event sequence";
      payload ← decode_json (ev_payload_json e);
      Ok {| sev_event_id := id; sev_operation_id := ev_operation_id e;
            sev_command_id := o_command_id o; sev_sequence := sequence;
            sev_kind := ev_kind e; sev_payload := payload |}
  end.

Definition load_events (session_id : SessionId) (start : Z) (db : Database)
    : KResult (list SemanticEvent) :=
  collect (decode_event db) (session_events db session_id start).

Fixpoint validate_gapless (expected high_water : Z) (events : list SemanticEvent) : KResult unit :=
  match events with
  | [] =>
      if expected =? high_water then Ok tt
      else Err (Corrupt "semantic event replay ended below high-water mark")
  | event :: rest =>
      if negb (sev_sequence event =? expected)
      then Err (Corrupt "semantic event sequence was not the expected one")
      else
        expected ← ok_or (checked_add_u64 expected 1) (Corrupt "event sequence overflowed");
        validate_gapless expected high_water rest
  end.

Definition load_event_page (session_id : SessionId) (cursor : Z) (db : Database)
    : KResult EventPage :=
  match sessions db !! session_id with
  | None => Err (SessionNotFound session_id)
  | Some s =>
      high_water ← from_sql_integer (s_next_event_sequence s) "event high-water mark";
      if high_water <? cursor then Err (CursorAhead cursor high_water)
      else
        start ← ok_or (i64_try_from cursor) (Corrupt "event cursor exceeds i64");
        events ← load_events session_id start db;
        validate_gapless cursor high_water events ;;
        Ok {| page_events := events; next_cursor := high_water |}
  end.

(** [Kernel::events_after]. *)
Definition events_after (session_id : SessionId) (cursor : Z) : Tx EventPage :=
  read (load_event_page session_id cursor).

(** The insertion loop of [append_events]; [new_event_id] gives the identity
    drawn for each offset. *)
Fixpoint insert_events (new_event_id : Z → EventId) (session_id : SessionId)
    (operation_id : OperationId) (first_sequence offset : Z) (events : list NewEvent) : Tx unit :=
  match events with
  | [] => mret tt
  | event :: rest =>
      offset' ← lift (ok_or (i64_try_from offset) (Corrupt "event offset exceeds i64"));
      sequence ← lift (ok_or (checked_add_i64 first_sequence offset')
                         (Corrupt "event sequence overflowed"));
      payload_json ← lift (encode_json (payload event));
      insert_event (new_event_id offset)
        (MkEvent session_id operation_id sequence (kind event) payload_json) ;;
      insert_events new_event_id session_id operation_id first_sequence (offset + 1) rest
  end.

Definition append_events (new_event_id : Z → EventId) (session_id : SessionId)
    (operation_id : OperationId) (events : list NewEvent) : Tx unit :=
  first_sequence ← read (λ db, ok_or (s_next_event_sequence <$> sessions db !! session_id)
                                 (sqlite_error "query returned no rows"));
  insert_events new_event_id session_id operation_id first_sequence 0 events ;;
  count ← lift (ok_or (i64_try_from (Z.of_nat (length events))) (Corrupt "event count exceeds i64"));
  changed ← update_session session_id (λ s, s_next_event_sequence s =? first_sequence)
              (bump_sequence count);
  require_changed changed "event cursor compare-and-set failed".

(** [cancellation.rs]: [cancellation_requested]. *)
Definition cancellation_requested (operation_id : OperationId) (db : Database) : bool :=
  tbl_exists (λ _ c, bool_decide (k_operation_id c = operation_id)) (cancellation_requests db).
End operation_store.
