(* ===== verification/EffectStore.v ===== *)
(** * Effect batches and decisions ([effect_store.rs], [effect_store/dispatch.rs], [projection.rs], [decision_store.rs])

    Intent, dispatch, settlement and completion of one ordered batch of
    external effects. *)
From S2P Require Import Prelude Json State Schema OperationStore.
Section effect_store.
Context `{KS : KernelSerde}.

Record PendingEffect := {
  pe_batch_id : EffectBatchId;
  pe_effect_id : EffectId;
  pe_binding : string;
  pe_binding_revision : string;
  pe_request : Value;
  pe_recovery : EffectRecovery;
  pe_dispatch_count : Z;
  pe_transition_version : Z;
}.

Record PendingEffectBatch := { pb_batch_id : EffectBatchId; pb_effects : list PendingEffect }.

Record NewEffectIntent := {
  ni_binding : string; ni_binding_revision : string; ni_request : Value;
  ni_recovery : EffectRecovery }.
Record NewEffectBatchIntent := {
  nb_checkpoint : Checkpoint; nb_effects : list NewEffectIntent }.

Inductive EffectBatchStart :=
| Invoke (pending : PendingEffectBatch) | StartSettled | StartBlocked | StartCancellationPending.
Inductive EffectBatchFinish := Retry | FinishSettled | FinishBlocked | FinishCancellationPending.
Inductive EffectIntentCommit := IntentDone | IntentCancellationPending.

(** ** Children of a batch *)
Definition batch_effects (db : Database) (operation_id : OperationId) (batch_id : EffectBatchId)
    : list (EffectId * EffectRow) :=
  if batch_of_operation db operation_id batch_id then
    order_by (λ ke, e_position ke.2)
      (select (λ _ e, bool_decide (e_batch_id e = batch_id)) (effects db))
  else [].

Definition require_position (expected : Z) (e : EffectRow) : KResult unit :=
  position ← from_sql_integer (e_position e) "effect position";
  if position =? expected then Ok tt
  else Err (Corrupt "effect batch child positions are not gapless").

Definition load_batch_statuses (operation_id : OperationId) (batch_id : EffectBatchId)
    (db : Database) : KResult (list EffectStatus) :=
  statuses ← collect_enum (λ i ke, require_position i ke.2 ;; parse_status (e_status ke.2)) 0
               (batch_effects db operation_id batch_id);
  match statuses with
  | [] => Err (Corrupt "effect batch contains no children")
  | _ => Ok statuses
  end.

(** ** Completion of a dispatched batch *)
Definition dispatched_at (expected_transition : Z) (batch_id : EffectBatchId)
    (o : OperationRow) : bool :=
  String.eqb (o_phase o) "effect_dispatched" &&
  (o_transition_version o =? expected_transition) &&
  bool_decide (o_current_effect_batch_id o = Some batch_id).

Definition require_dispatched_batch (operation_id : OperationId) (batch_id : EffectBatchId)
    (expected_transition : Z) (db : Database) : KResult unit :=
  match operations db !! operation_id with
  | Some o =>
      if dispatched_at expected_transition batch_id o then Ok tt
      else Err (Corrupt "effect batch changed before child settlement")
  | None => Err (Corrupt "effect batch changed before child settlement")
  end.

Definition finished_batch_row (batch_id : EffectBatchId) (blocked : bool) (o : OperationRow)
    : OperationRow :=
  MkOperation (o_session_id o) (o_command_id o) (o_position o)
    (if blocked then "outcome_unknown" else "need_decision")
    (o_state_version o) (o_transition_version o + 1) (o_manifest_json o) (o_checkpoint_json o)
    (if blocked then Some batch_id else None) (if blocked then None else Some batch_id)
    (o_outcome_json o) (o_next_effect_batch_position o).

Definition transition_finished_batch (operation_id : OperationId) (batch_id : EffectBatchId)
    (expected_transition : Z) (blocked : bool) : Tx unit :=
  changed ← update_operation operation_id (dispatched_at expected_transition batch_id)
              (finished_batch_row batch_id blocked);
  require_changed changed "effect batch completion compare-and-set failed".

Definition has_status (s : EffectStatus) (l : list EffectStatus) : bool :=
  existsb (λ x, bool_decide (x = s)) l.

Definition transition_batch_if_terminal (operation_id : OperationId) (batch_id : EffectBatchId)
    (expected_transition : Z) : Tx (option bool) :=
  statuses ← read (load_batch_statuses operation_id batch_id);
  if has_status IntentCommitted statuses
  then throw (Corrupt "dispatched effect batch contains an unmarked child")
  else if has_status DispatchStarted statuses then mret None
  else
    let blocked := has_status EffOutcomeUnknown statuses in
    transition_finished_batch operation_id batch_id expected_transition blocked ;;
    mret (Some blocked).

(** ** Settlement of one child *)
Definition settle_row (outcome_json : Text) (e : EffectRow) : EffectRow :=
  MkEffect (e_batch_id e) (e_position e) (e_binding e) (e_binding_revision e)
    (e_recovery e) (e_request_json e) "settled" (e_dispatch_count e) (Some outcome_json).

Definition settle_batch_effect (operation_id : OperationId) (batch_id : EffectBatchId)
    (effect_id : EffectId) (expected_transition : Z) (outcome : EffectOutcome) : Tx bool :=
  outcome_json ← lift (encode_json outcome);
  read (require_dispatched_batch operation_id batch_id expected_transition) ;;
  changed ← update_effect effect_id
              (λ e, bool_decide (e_batch_id e = batch_id) &&
                    String.eqb (e_status e) "dispatch_started")
              (settle_row outcome_json);
  require_changed changed "effect settlement compare-and-set failed" ;;
  finished ← transition_batch_if_terminal operation_id batch_id expected_transition;
  mret (bool_decide (is_Some finished)).

Definition update_effect_status (effect_id : EffectId) (expected next : EffectStatus) : Tx unit :=
  changed ← update_effect effect_id (λ e, String.eqb (e_status e) (status_name expected))
              (set_effect_status (status_name next));
  require_changed changed "effect status compare-and-set failed".

Definition record_batch_effect_unknown (operation_id : OperationId) (batch_id : EffectBatchId)
    (effect_id : EffectId) (expected_transition : Z) : Tx bool :=
  read (require_dispatched_batch operation_id batch_id expected_transition) ;;
  update_effect_status effect_id DispatchStarted EffOutcomeUnknown ;;
  finished ← transition_batch_if_terminal operation_id batch_id expected_transition;
  mret (bool_decide (is_Some finished)).

Definition finish_effect_batch_attempt (operation_id : OperationId) (batch_id : EffectBatchId)
    (expected_transition : Z) : Tx EffectBatchFinish :=
  read (require_dispatched_batch operation_id batch_id expected_transition) ;;
  cancelled ← query (cancellation_requested operation_id);
  if (cancelled : bool) then mret FinishCancellationPending
  else
    terminal ← transition_batch_if_terminal operation_id batch_id expected_transition;
    mret (match terminal with
          | None => Retry
          | Some true => FinishBlocked
          | Some false => FinishSettled
          end).

(** [UPDATE effects SET status = 'outcome_unknown' WHERE batch_id = ?1 AND
    status = 'dispatch_started']: every dispatched child of the batch. *)
Definition mark_dispatched_unknown (batch_id : EffectBatchId) : Tx unit := λ db,
  let P (_ : EffectId) e := bool_decide (e_batch_id e = batch_id) &&
                            String.eqb (e_status e) "dispatch_started" in
  let set := set_effect_status "outcome_unknown" in
  if tbl_forall (λ k e, implb (P k e) (effect_checks (set e))) (effects db)
  then Ok (tt, with_effects (update_where P set (effects db)) db)
  else constraint_failed db.

Definition close_dispatched_batch_for_cancellation (operation_id : OperationId)
    (batch_id : EffectBatchId) (expected_transition : Z) : Tx OperationPhase :=
  read (require_dispatched_batch operation_id batch_id expected_transition) ;;
  mark_dispatched_unknown batch_id ;;
  statuses ← read (load_batch_statuses operation_id batch_id);
  if has_status IntentCommitted statuses || has_status DispatchStarted statuses
  then throw (Corrupt "cancellation could not close every dispatched child")
  else
    let blocked := has_status EffOutcomeUnknown statuses in
    transition_finished_batch operation_id batch_id expected_transition blocked ;;
    mret (if blocked then OutcomeUnknown else NeedDecision).

(** ** Intent *)
Definition intent_row (batch_id : EffectBatchId) (position : Z) (i : NewEffectIntent)
    (request_json : Text) : EffectRow :=
  MkEffect batch_id position (ni_binding i) (ni_binding_revision i)
    (recovery_as_str (ni_recovery i)) (Some request_json) "intent_committed" 0 None.

Fixpoint insert_intents (new_effect_id : Z → EffectId) (batch_id : EffectBatchId) (position : Z)
    (l : list (NewEffectIntent * Text)) : Tx unit :=
  match l with
  | [] => mret tt
  | (i, request_json) :: rest =>
      position' ← lift (ok_or (i64_try_from position) (Corrupt "effect position exceeds i64"));
      insert_effect (new_effect_id position) (intent_row batch_id position' i request_json) ;;
      insert_intents new_effect_id batch_id (position + 1) rest
  end.

Definition deciding_at (expected_transition : Z) (o : OperationRow) : bool :=
  String.eqb (o_phase o) "need_decision" && (o_transition_version o =? expected_transition).

Definition intent_operation_row (checkpoint_json : Text) (batch_id : EffectBatchId)
    (o : OperationRow) : OperationRow :=
  MkOperation (o_session_id o) (o_command_id o) (o_position o) "effect_intent"
    (o_state_version o) (o_transition_version o + 1) (o_manifest_json o) (Some checkpoint_json)
    (Some batch_id) None (o_outcome_json o) (o_next_effect_batch_position o + 1).

Definition commit_effect_batch_intent (new_batch_id : EffectBatchId)
    (new_effect_id : Z → EffectId) (operation_id : OperationId) (expected_transition : Z)
    (intent : NewEffectBatchIntent) : Tx EffectIntentCommit :=
  match nb_effects intent with
  | [] => throw (InvalidDecision "an effect batch must contain at least one effect")
  | _ =>
      checkpoint_json ← lift (encode_json (nb_checkpoint intent));
      requests ← lift (collect (λ i, encode_json (ni_request i)) (nb_effects intent));
      cancelled ← query (cancellation_requested operation_id);
      if (cancelled : bool) then mret IntentCancellationPending
      else
        position ← read (λ db,
          match operations db !! operation_id with
          | Some o => if deciding_at expected_transition o
                      then Ok (o_next_effect_batch_position o)
                      else Err (Corrupt "effect batch intent compare-and-set failed")
          | None => Err (Corrupt "effect batch intent compare-and-set failed")
          end);
        insert_batch new_batch_id (MkBatch operation_id position) ;;
        insert_intents new_effect_id new_batch_id 0 (zip (nb_effects intent) requests) ;;
        changed ← update_operation operation_id (deciding_at expected_transition)
                    (intent_operation_row checkpoint_json new_batch_id);
        require_changed changed "effect batch intent state update failed" ;;
        mret IntentDone
  end.

(** ** Dispatch *)
Record PreparedEffect := {
  pr_effect_id : EffectId;
  pr_binding : string;
  pr_binding_revision : string;
  pr_recovery : EffectRecovery;
  pr_request : Value;
  pr_status : EffectStatus;
  pr_dispatch_count : Z;
}.

Definition prepared_effect (expected_position : Z) (ke : EffectId * EffectRow)
    : KResult PreparedEffect :=
  let '(effect_id, e) := ke in
  (* the column is read as a non-null String *)
  request_json ← ok_or (e_request_json e) (sqlite_error "invalid column type");
  require_position expected_position e ;;
  recovery ← parse_recovery (e_recovery e);
  request ← decode_json request_json;
  status ← parse_status (e_status e);
  dispatch_count ← from_sql_integer (e_dispatch_count e) "effect dispatch count";
  Ok {| pr_effect_id := effect_id; pr_binding := e_binding e;
        pr_binding_revision := e_binding_revision e; pr_recovery := recovery;
        pr_request := request; pr_status := status; pr_dispatch_count := dispatch_count |}.

Definition load_prepared_effects (operation_id : OperationId) (batch_id : EffectBatchId)
    (db : Database) : KResult (list PreparedEffect) :=
  prepared ← collect_enum prepared_effect 0 (batch_effects db operation_id batch_id);
  match prepared with
  | [] => Err (Corrupt "effect batch contains no children")
  | _ => Ok prepared
  end.

Definition load_active_batch (operation_id : OperationId) (expected_transition : Z)
    (error : string) (db : Database) : KResult (OperationPhase * EffectBatchId) :=
  match operations db !! operation_id with
  | Some o =>
      if o_transition_version o =? expected_transition then
        batch_id ← ok_or (o_current_effect_batch_id o)
                     (Corrupt "effect phase has no current batch");
        phase ← from_database (o_phase o);
        Ok (phase, batch_id)
      else Err (Corrupt error)
  | None => Err (Corrupt error)
  end.

Definition dispatch_row (next_count : Z) (e : EffectRow) : EffectRow :=
  MkEffect (e_batch_id e) (e_position e) (e_binding e) (e_binding_revision e)
    (e_recovery e) (e_request_json e) "dispatch_started" next_count (e_outcome_json e).

(** One child: [Some pending] when it must be dispatched, and the child as the
    caller sees it afterwards. *)
Definition dispatch_child (batch_id : EffectBatchId) (next_transition : Z)
    (effect : PreparedEffect) : Tx (option PendingEffect * PreparedEffect) :=
  dispatch_count ← lift (ok_or (checked_add_u64 (pr_dispatch_count effect) 1)
                           (Corrupt "effect dispatch count overflowed"));
  current_count ← lift (ok_or (i64_try_from (pr_dispatch_count effect))
                          (Corrupt "effect dispatch count exceeds i64"));
  next_count ← lift (ok_or (i64_try_from dispatch_count)
                       (Corrupt "effect dispatch count exceeds i64"));
  changed ← update_effect (pr_effect_id effect)
              (λ e, String.eqb (e_status e) (status_name (pr_status effect)) &&
                    (e_dispatch_count e =? current_count))
              (dispatch_row next_count);
  require_changed changed "effect dispatch compare-and-set failed" ;;
  mret (Some {| pe_batch_id := batch_id; pe_effect_id := pr_effect_id effect;
                pe_binding := pr_binding effect;
                pe_binding_revision := pr_binding_revision effect;
                pe_request := pr_request effect; pe_recovery := pr_recovery effect;
                pe_dispatch_count := dispatch_count;
                pe_transition_version := next_transition |},
        {| pr_effect_id := pr_effect_id effect; pr_binding := pr_binding effect;
           pr_binding_revision := pr_binding_revision effect;
           pr_recovery := pr_recovery effect; pr_request := pr_request effect;
           pr_status := DispatchStarted; pr_dispatch_count := dispatch_count |}).

Definition with_status (s : EffectStatus) (effect : PreparedEffect) : PreparedEffect :=
  {| pr_effect_id := pr_effect_id effect; pr_binding := pr_binding effect;
     pr_binding_revision := pr_binding_revision effect;
     pr_recovery := pr_recovery effect; pr_request := pr_request effect;
     pr_status := s; pr_dispatch_count := pr_dispatch_count effect |}.

Definition prepare_child (phase : OperationPhase) (batch_id : EffectBatchId)
    (next_transition : Z) (effect : PreparedEffect)
    : Tx (option PendingEffect * PreparedEffect) :=
  match phase, pr_status effect, pr_recovery effect with
  | EffectIntent, IntentCommitted, _
  | EffectDispatched, DispatchStarted, SafeToReplay =>
      dispatch_child batch_id next_transition effect
  | EffectIntent, _, _ => throw (Corrupt "new effect batch contains a non-intent child")
  | EffectDispatched, DispatchStarted, NeverReplay =>
      update_effect_status (pr_effect_id effect) DispatchStarted EffOutcomeUnknown ;;
      mret (None, with_status EffOutcomeUnknown effect)
  | EffectDispatched, Settled, _
  | EffectDispatched, EffOutcomeUnknown, _ => mret (None, effect)
  | EffectDispatched, IntentCommitted, _ =>
      throw (Corrupt "dispatched effect batch contains an unmarked child")
  | _, _, _ => throw (Corrupt "unreachable: phase is checked before child preparation")
  end.

Fixpoint prepare_children (phase : OperationPhase) (batch_id : EffectBatchId)
    (next_transition : Z) (stored : list PreparedEffect)
    : Tx (list PendingEffect * list PreparedEffect) :=
  match stored with
  | [] => mret ([], [])
  | effect :: rest =>
      one ← prepare_child phase batch_id next_transition effect;
      more ← prepare_children phase batch_id next_transition rest;
      mret (match one.1 with Some p => p :: more.1 | None => more.1 end, one.2 :: more.2)
  end.

Definition finish_batch_without_invocations (operation_id : OperationId)
    (batch_id : EffectBatchId) (expected_transition : Z) (stored : list PreparedEffect)
    : Tx EffectBatchStart :=
  if existsb (λ e, bool_decide (pr_status e = DispatchStarted)) stored
  then throw (Corrupt "effect batch has pending children but no dispatch")
  else
    let blocked := existsb (λ e, bool_decide (pr_status e = EffOutcomeUnknown)) stored in
    transition_finished_batch operation_id batch_id expected_transition blocked ;;
    mret (if blocked then StartBlocked else StartSettled).

Definition dispatched_row (o : OperationRow) : OperationRow :=
  MkOperation (o_session_id o) (o_command_id o) (o_position o) "effect_dispatched"
    (o_state_version o) (o_transition_version o + 1) (o_manifest_json o) (o_checkpoint_json o)
    (o_current_effect_batch_id o) (o_input_effect_batch_id o)
    (o_outcome_json o) (o_next_effect_batch_position o).

(** The tail of [prepare_effect_batch], once the phase admits a dispatch. *)
Definition dispatch_batch (operation_id : OperationId) (expected_transition next_transition : Z)
    (phase : OperationPhase) (batch_id : EffectBatchId) : Tx EffectBatchStart :=
  stored ← read (load_prepared_effects operation_id batch_id);
  prepared ← prepare_children phase batch_id next_transition stored;
  match prepared.1 with
  | [] => finish_batch_without_invocations operation_id batch_id expected_transition prepared.2
  | _ :: _ =>
      changed ← update_operation operation_id
        (λ o, (o_transition_version o =? expected_transition) &&
              String.eqb (o_phase o) (as_str phase) &&
              bool_decide (o_current_effect_batch_id o = Some batch_id))
        dispatched_row;
      require_changed changed "operation batch dispatch compare-and-set failed" ;;
      mret (Invoke {| pb_batch_id := batch_id; pb_effects := prepared.1 |})
  end.

Definition prepare_effect_batch (operation_id : OperationId) (expected_transition : Z)
    : Tx EffectBatchStart :=
  next_transition ← lift (ok_or (checked_add_i64 expected_transition 1)
                            (Corrupt "transition version overflowed"));
  cancelled ← query (cancellation_requested operation_id);
  if (cancelled : bool) then mret StartCancellationPending
  else
    active ← read (load_active_batch operation_id expected_transition
                     "effect state changed before batch dispatch");
    let '(phase, batch_id) := active in
    match phase with
    | EffectIntent | EffectDispatched =>
        dispatch_batch operation_id expected_transition next_transition phase batch_id
    | _ => throw (Corrupt "cannot prepare effect batch from phase")
    end.
End effect_store.

(** * Projections of stored batches ([effect_store/projection.rs]) *)
Section projection.
Context `{KS : KernelSerde}.

(** Children of a batch, without the join on the owning operation. *)
Definition batch_children (db : Database) (batch_id : EffectBatchId)
    : list (EffectId * EffectRow) :=
  order_by (λ ke, e_position ke.2)
    (select (λ _ e, bool_decide (e_batch_id e = batch_id)) (effects db)).

Definition effect_fact (manifest : option RuntimeManifest) (expected_position : Z)
    (ke : EffectId * EffectRow) : KResult EffectFact :=
  let '(effect_id, e) := ke in
  require_position expected_position e ;;
  match manifest with
  | Some m =>
      if decide (effect_bindings m !! e_binding e = Some (e_binding_revision e)) then Ok tt
      else Err (Corrupt "effect batch child differs from the frozen manifest")
  | None => Ok tt
  end ;;
  request_json ← ok_or (e_request_json e) (Corrupt "effect batch child request was released");
  request ← decode_json request_json;
  let unsettled := {| ue_effect_id := effect_id; ue_binding := e_binding e;
                      ue_binding_revision := e_binding_revision e; ue_request := request |} in
  status ← parse_status (e_status e);
  match status, e_outcome_json e with
  | IntentCommitted, None => Ok (NotDispatched unsettled)
  | DispatchStarted, None | EffOutcomeUnknown, None => Ok (FactUnknown unsettled)
  | Settled, Some outcome =>
      outcome ← decode_json outcome;
      Ok (FactSettled {| se_effect_id := effect_id; se_binding := e_binding e;
                         se_binding_revision := e_binding_revision e;
                         se_request := request; se_outcome := outcome |})
  | Settled, None => Err (Corrupt "settled effect has no outcome")
  | _, Some _ => Err (Corrupt "unsettled effect contains an outcome")
  end.

Definition load_effect_batch_facts (operation_id : OperationId) (batch_id : EffectBatchId)
    (manifest : option RuntimeManifest) (db : Database) : KResult EffectBatchFacts :=
  if batch_of_operation db operation_id batch_id then
    facts ← collect_enum (effect_fact manifest) 0 (batch_children db batch_id);
    match facts with
    | [] => Err (Corrupt "effect batch contains no children")
    | _ => Ok {| bf_batch_id := batch_id; bf_effects := facts |}
    end
  else Err (Corrupt "effect batch does not belong to the operation").

Definition settled_fact (f : EffectFact) : KResult SettledEffect :=
  match f with
  | FactSettled e => Ok e
  | NotDispatched _ | FactUnknown _ =>
      Err (Corrupt "settled input batch contains an unsettled child")
  end.

Definition load_settled_effect_batch (operation_id : OperationId) (batch_id : EffectBatchId)
    (db : Database) : KResult SettledEffectBatch :=
  facts ← load_effect_batch_facts operation_id batch_id None db;
  effects ← collect settled_fact (bf_effects facts);
  Ok {| sb_batch_id := batch_id; sb_effects := effects |}.

Definition effect_snapshot (expected_position : Z) (ke : EffectId * EffectRow)
    : KResult EffectSnapshot :=
  let '(effect_id, e) := ke in
  require_position expected_position e ;;
  recovery ← parse_recovery (e_recovery e);
  request ← transpose decode_json (e_request_json e);
  status ← parse_status (e_status e);
  dispatches ← from_sql_integer (e_dispatch_count e) "effect dispatch count";
  outcome ← transpose decode_json (e_outcome_json e);
  Ok {| es_effect_id := effect_id; es_position := e_position e; es_binding := e_binding e;
        es_binding_revision := e_binding_revision e; es_recovery := recovery;
        es_request := request; es_status := status; es_dispatch_count := dispatches;
        es_outcome := outcome |}.

Definition load_effect_snapshots (batch_id : EffectBatchId) (db : Database)
    : KResult (list EffectSnapshot) :=
  snapshots ← collect_enum effect_snapshot 0 (batch_children db batch_id);
  match snapshots with
  | [] => Err (Corrupt "effect batch contains no children")
  | _ => Ok snapshots
  end.

Definition operation_batches (db : Database) (operation_id : OperationId)
    : list (EffectBatchId * BatchRow) :=
  order_by (λ kb, b_position kb.2)
    (select (λ _ b, bool_decide (b_operation_id b = operation_id)) (effect_batches db)).

Definition batch_snapshot (db : Database) (expected_position : Z)
    (kb : EffectBatchId * BatchRow) : KResult EffectBatchSnapshot :=
  position ← from_sql_integer (b_position kb.2) "effect batch position";
  if position =? expected_position then
    effects ← load_effect_snapshots kb.1 db;
    Ok {| bs_batch_id := kb.1; bs_position := position; bs_effects := effects |}
  else Err (Corrupt "effect batch positions are not gapless").

Definition load_effect_batch_snapshots (operation_id : OperationId) (db : Database)
    : KResult (list EffectBatchSnapshot) :=
  collect_enum (batch_snapshot db) 0 (operation_batches db operation_id).
End projection.

(** * Committing loop decisions ([decision_store.rs]) *)
Section decision_store.
Context `{KS : KernelSerde}.

Inductive CommittedDecision :=
| DecisionContinue | DecisionFinished (outcome : OperationOutcome) | DecisionCancellationPending.

(** What a decision other than [InvokeEffects] writes. *)
Definition decision_effect (decision : LoopDecision)
    : KResult (Checkpoint * list NewEvent * OperationPhase * option OperationOutcome) :=
  match decision with
  | AppendEventsAndContinue checkpoint events =>
      match events with
      | [] => Err (InvalidDecision "append-and-continue requires at least one event")
      | _ => Ok (checkpoint, events, NeedDecision, None)
      end
  | WaitForInput checkpoint events => Ok (checkpoint, events, Waiting, Some WaitingForInput)
  | Complete checkpoint events => Ok (checkpoint, events, Completed, Some OutcomeCompleted)
  | FailOperation checkpoint events reason =>
      Ok (checkpoint, events, Failed, Some (OutcomeFailed reason))
  | InvokeEffects _ _ =>
      Err (InvalidDecision "effect batches must be committed through the effect store")
  end.

Definition decided_row (phase : OperationPhase) (checkpoint_json : Text)
    (outcome_json : option Text) (o : OperationRow) : OperationRow :=
  MkOperation (o_session_id o) (o_command_id o) (o_position o) (as_str phase)
    (o_state_version o) (o_transition_version o + 1) (o_manifest_json o) (Some checkpoint_json)
    (o_current_effect_batch_id o) None outcome_json (o_next_effect_batch_position o).

(** [UPDATE sessions SET active_operation_id = NULL WHERE session_id = ?1 AND
    active_operation_id = ?2], which must change one row. *)
Definition release_session (session_id : SessionId) (operation_id : OperationId)
    (error : string) : Tx unit :=
  changed ← update_session session_id
              (λ s, bool_decide (s_active_operation_id s = Some operation_id)) (set_active None);
  require_changed changed error.

Definition commit_decision (new_event_id : Z → EventId) (session_id : SessionId)
    (operation_id : OperationId) (expected_transition : Z) (decision : LoopDecision)
    : Tx CommittedDecision :=
  effect ← lift (decision_effect decision);
  let '(checkpoint, events, phase, outcome) := effect in
  lift (validate_new_events events) ;;
  cancelled ← query (cancellation_requested operation_id);
  if (cancelled : bool) then mret DecisionCancellationPending
  else
    append_events new_event_id session_id operation_id events ;;
    checkpoint_json ← lift (encode_json checkpoint);
    outcome_json ← lift (transpose encode_json outcome);
    changed ← update_operation operation_id (deciding_at expected_transition)
                (decided_row phase checkpoint_json outcome_json);
    require_changed changed "loop decision compare-and-set failed" ;;
    match outcome with
    | Some outcome =>
        release_session session_id operation_id "terminal operation did not own its session" ;;
        mret (DecisionFinished outcome)
    | None => mret DecisionContinue
    end.
End decision_store.
