(* ===== verification/Cancellation.v ===== *)
(** * Durable cancellation ([cancellation.rs], [cancellation/store.rs])

    [request_cancellation] has a database part, here, and a process-local
    signal, modelled with the drive leases. Its result says whether the running
    operation must be signalled. *)
From S2P Require Import Prelude Json State Schema OperationStore EffectStore.
Section cancellation.
Context `{KS : KernelSerde}.

Definition request_cancellation (session_id : SessionId) (operation_id : OperationId)
    (cancellation_id : CancellationId) : Tx bool :=
  existing ← query (λ db, cancellation_requests db !! cancellation_id);
  match existing with
  | Some stored =>
      if bool_decide (k_session_id stored ≠ session_id) ||
         bool_decide (k_operation_id stored ≠ operation_id)
      then throw (CancellationConflict cancellation_id (k_operation_id stored))
      else
        session ← read (λ db, ok_or (sessions db !! session_id) (SessionNotFound session_id));
        mret (bool_decide (s_active_operation_id session = Some operation_id))
  | None =>
      found ← query (λ db,
        match operations db !! operation_id with
        | Some o =>
            if decide (o_session_id o = session_id) then
              match sessions db !! session_id with
              | Some s => Some (o_phase o, s_active_operation_id s)
              | None => None
              end
            else None
        | None => None
        end);
      match found with
      | None => throw (OperationNotCancellable operation_id)
      | Some (phase, active_operation) =>
          phase ← lift (from_database phase);
          if bool_decide (phase ≠ Queued) &&
             (bool_decide (active_operation ≠ Some operation_id) || negb (is_cancellable phase))
          then throw (OperationNotCancellable operation_id)
          else
            insert_cancellation cancellation_id (MkCancellation session_id operation_id) ;;
            mret true
      end
  end.

Definition is_settled_fact (f : EffectFact) : bool :=
  match f with FactSettled _ => true | _ => false end.
Definition is_not_dispatched (f : EffectFact) : bool :=
  match f with NotDispatched _ => true | _ => false end.
Definition is_unknown_fact (f : EffectFact) : bool :=
  match f with FactUnknown _ => true | _ => false end.

(** At least one child is unknown and every child is settled or unknown. *)
Definition unknown_batch_facts (facts : list EffectFact) : bool :=
  existsb is_unknown_fact facts && forallb (λ f, is_settled_fact f || is_unknown_fact f) facts.

Definition cancellation_batch_id (phase : OperationPhase)
    (current_batch_id input_batch_id : option EffectBatchId) : KResult (option EffectBatchId) :=
  match phase with
  | NeedDecision =>
      match input_batch_id, current_batch_id with
      | None, None => Ok None
      | None, Some _ => Err (Corrupt "decision phase contains a current effect batch")
      | Some _, Some _ =>
          Err (Corrupt "decision phase contains both current and input effect batches")
      | Some b, None => Ok (Some b)
      end
  | EffectIntent | OutcomeUnknown =>
      match input_batch_id with
      | Some _ => Err (Corrupt "active effect phase contains settled batch input")
      | None =>
          b ← ok_or current_batch_id (Corrupt "active effect batch identity is missing");
          Ok (Some b)
      end
  | _ => Err (Corrupt "phase cannot be closed by cancellation")
  end.

Definition load_cancellation_effect_batch (operation_id : OperationId) (phase : OperationPhase)
    (current_batch_id input_batch_id : option EffectBatchId) (manifest : RuntimeManifest)
    (db : Database) : KResult (option EffectBatchFacts) :=
  batch ← cancellation_batch_id phase current_batch_id input_batch_id;
  match batch with
  | None => Ok None
  | Some batch_id =>
      facts ← load_effect_batch_facts operation_id batch_id (Some manifest) db;
      let valid := match phase with
                   | NeedDecision => forallb is_settled_fact (bf_effects facts)
                   | EffectIntent => forallb is_not_dispatched (bf_effects facts)
                   | OutcomeUnknown => unknown_batch_facts (bf_effects facts)
                   | _ => false
                   end in
      if valid then Ok (Some facts)
      else Err (Corrupt "cancellation effect batch differs from durable operation state")
  end.

Record PendingCancellation := {
  pc_input : CancellationInput;
  pc_manifest : RuntimeManifest;
  pc_transition_version : Z;
  pc_event_high_water : Z;
}.

(** The closing of a dispatched batch inside [load_requested_cancellation]:
    the phase, version and batches of the operation afterwards. *)
Definition close_if_dispatched (operation_id : OperationId) (stored : StoredOperation)
    : Tx (OperationPhase * Z * option EffectBatchId * option EffectBatchId) :=
  match phase stored with
  | EffectDispatched =>
      batch_id ← lift (ok_or (current_effect_batch_id stored)
                         (Corrupt "dispatched operation has no current effect batch"));
      phase ← close_dispatched_batch_for_cancellation operation_id batch_id
                (transition_version stored);
      version ← lift (ok_or (checked_add_i64 (transition_version stored) 1)
                        (Corrupt "transition version overflowed"));
      match phase with
      | NeedDecision => mret (phase, version, None, Some batch_id)
      | _ => mret (phase, version, current_effect_batch_id stored, input_effect_batch_id stored)
      end
  | p => mret (p, transition_version stored, current_effect_batch_id stored,
               input_effect_batch_id stored)
  end.

Definition load_requested_cancellation (session_id : SessionId) (operation_id : OperationId)
    : Tx (option PendingCancellation) :=
  requested ← query (cancellation_requested operation_id);
  if negb requested then mret None
  else
    session ← read (λ db, ok_or (sessions db !! session_id) (SessionNotFound session_id));
    guard_tx (bool_decide (s_active_operation_id session = Some operation_id))
      (Corrupt "cancelled operation no longer owns its session") ;;
    found ← read (load_operation session_id operation_id);
    stored ← lift (ok_or found (Corrupt "cancelled operation is missing"));
    guard_tx (is_cancellable (phase stored) && bool_decide (outcome stored = None))
      (Corrupt "cancellation request targets a non-cancellable operation") ;;
    closed ← close_if_dispatched operation_id stored;
    let '(phase', version, current, input) := closed in
    manifest ← lift (ok_or (manifest stored) (Corrupt "cancelled operation has no manifest"));
    effect_batch ← read (load_cancellation_effect_batch operation_id phase' current input manifest);
    page ← read (load_event_page session_id START);
    mret (Some {|
      pc_input := {| ci_agent_id := s_agent_id session; ci_session_id := session_id;
                     ci_operation_id := operation_id; ci_command := command stored;
                     ci_events := page_events page; ci_checkpoint := checkpoint stored;
                     ci_effect_batch := effect_batch |};
      pc_manifest := manifest;
      pc_transition_version := version;
      pc_event_high_water := next_cursor page |}).

(** The row of an operation ended by cancellation or abandonment. *)
Definition ended_row (phase : string) (checkpoint_json outcome_json : Text) (o : OperationRow)
    : OperationRow :=
  MkOperation (o_session_id o) (o_command_id o) (o_position o) phase
    (o_state_version o) (o_transition_version o + 1) (o_manifest_json o) (Some checkpoint_json)
    None None (Some outcome_json) (o_next_effect_batch_position o).

(** [SELECT next_event_sequence FROM sessions WHERE session_id = ?1 AND
    active_operation_id = ?2] against the expected high-water mark. *)
Definition require_high_water (session_id : SessionId) (operation_id : OperationId)
    (expected : Z) (lost changed : string) (db : Database) : KResult unit :=
  match sessions db !! session_id with
  | Some s =>
      if decide (s_active_operation_id s = Some operation_id) then
        high_water ← from_sql_integer (s_next_event_sequence s) "event high-water mark";
        if high_water =? expected then Ok tt else Err (Corrupt changed)
      else Err (Corrupt lost)
  | None => Err (Corrupt lost)
  end.

Definition commit_cancellation (new_event_id : Z → EventId) (session_id : SessionId)
    (operation_id : OperationId) (expected_transition expected_event_high_water : Z)
    (transition : CancellationTransition) : Tx unit :=
  read (require_high_water session_id operation_id expected_event_high_water
          "cancelled operation lost ownership"
          "semantic history changed during cancellation") ;;
  requested ← query (cancellation_requested operation_id);
  guard_tx requested (Corrupt "cancellation request disappeared before settlement") ;;
  phase ← read (λ db,
    match operations db !! operation_id with
    | Some o =>
        if bool_decide (o_session_id o = session_id) &&
           (o_transition_version o =? expected_transition) &&
           bool_decide (o_outcome_json o = None)
        then Ok (o_phase o)
        else Err (Corrupt "cancelled operation changed")
    | None => Err (Corrupt "cancelled operation changed")
    end);
  decoded ← lift (from_database phase);
  guard_tx (is_cancellable decoded) (Corrupt "cancelled operation reached a terminal phase") ;;
  append_events new_event_id session_id operation_id (ct_events transition) ;;
  checkpoint_json ← lift (encode_json (ct_checkpoint transition));
  outcome_json ← lift (encode_json OutcomeCancelled);
  changed ← update_operation operation_id
              (λ o, bool_decide (o_session_id o = session_id) &&
                    (o_transition_version o =? expected_transition) &&
                    String.eqb (o_phase o) phase)
              (ended_row "cancelled" checkpoint_json outcome_json);
  require_changed changed "cancellation compare-and-set failed" ;;
  release_session session_id operation_id "cancelled operation did not own its session".
End cancellation.

(** * Abandoning an unknown effect batch ([unknown_effect.rs]) *)
Section unknown_effect.
Context `{KS : KernelSerde}.

Definition ABANDONED_REASON : string := "effect outcome is unknown; operation was abandoned".
Definition abandoned_outcome : OperationOutcome := OutcomeFailed ABANDONED_REASON.

Record PendingAbandonment := {
  pa_input : UnknownEffectInput;
  pa_manifest : RuntimeManifest;
  pa_transition_version : Z;
  pa_event_high_water : Z;
}.

Inductive UnknownEffectState :=
| Pending (p : PendingAbandonment)
| AlreadyAbandoned (manifest : RuntimeManifest) (outcome : OperationOutcome).

Definition load_pending_abandonment (agent_id : AgentId) (session_id : SessionId)
    (operation_id : OperationId) (active_operation_id : option OperationId)
    (stored : StoredOperation) (db : Database) : KResult UnknownEffectState :=
  if decide (active_operation_id = Some operation_id) then
    if bool_decide (is_Some (input_effect_batch_id stored)) ||
       bool_decide (is_Some (outcome stored))
    then Err (Corrupt "unknown-effect operation contains settled input or a terminal outcome")
    else
      manifest ← ok_or (manifest stored) (Corrupt "unknown-effect operation has no manifest");
      checkpoint ← ok_or (checkpoint stored)
                     (Corrupt "unknown-effect operation has no checkpoint");
      batch_id ← ok_or (current_effect_batch_id stored)
                   (Corrupt "unknown-effect operation has no current effect batch");
      effect_batch ← load_effect_batch_facts operation_id batch_id (Some manifest) db;
      if unknown_batch_facts (bf_effects effect_batch) then
        page ← load_event_page session_id START db;
        Ok (Pending {|
          pa_input := {| ui_agent_id := agent_id; ui_session_id := session_id;
                         ui_operation_id := operation_id; ui_command := command stored;
                         ui_events := page_events page; ui_checkpoint := checkpoint;
                         ui_effect_batch := effect_batch |};
          pa_manifest := manifest;
          pa_transition_version := transition_version stored;
          pa_event_high_water := next_cursor page |})
      else Err (Corrupt "unknown operation and effect batch states disagree")
  else Err (Corrupt "unknown-effect operation is not the session's active operation").

(** [SELECT DISTINCT batch_id .. WHERE status = 'outcome_unknown' ORDER BY position] *)
Definition unknown_batches (db : Database) (operation_id : OperationId)
    : list (EffectBatchId * BatchRow) :=
  order_by (λ kb, b_position kb.2)
    (select (λ b r, bool_decide (b_operation_id r = operation_id) &&
                    tbl_exists (λ _ e, bool_decide (e_batch_id e = b) &&
                                       String.eqb (e_status e) "outcome_unknown") (effects db))
       (effect_batches db)).

Definition load_prior_abandonment (session_id : SessionId) (operation_id : OperationId)
    (active_operation_id : option OperationId) (stored : StoredOperation) (db : Database)
    : KResult UnknownEffectState :=
  match unknown_batches db operation_id with
  | [] => Err (NoUnknownEffect operation_id)
  | _ :: _ :: _ => Err (Corrupt "abandoned operation has more than one unknown effect batch")
  | [(batch_id, _)] =>
      if bool_decide (active_operation_id = Some operation_id) ||
         bool_decide (is_Some (current_effect_batch_id stored)) ||
         bool_decide (is_Some (input_effect_batch_id stored))
      then Err (Corrupt "abandoned operation still owns active execution state")
      else
        manifest ← ok_or (manifest stored) (Corrupt "unknown-effect operation has no manifest");
        facts ← load_effect_batch_facts operation_id batch_id (Some manifest) db;
        if unknown_batch_facts (bf_effects facts) then
          ok_or (checkpoint stored) (Corrupt "unknown-effect operation has no checkpoint") ;;
          outcome ← ok_or (outcome stored) (Corrupt "abandoned operation has no outcome");
          match outcome with
          | OutcomeFailed _ =>
              load_event_page session_id START db ;;
              Ok (AlreadyAbandoned manifest outcome)
          | _ => Err (Corrupt "unknown effect was released without the abandonment outcome")
          end
        else Err (Corrupt "abandoned unknown effect batch has invalid child state")
  end.

Definition load_unknown_effect_state (session_id : SessionId) (operation_id : OperationId)
    (db : Database) : KResult UnknownEffectState :=
  session ← ok_or (sessions db !! session_id) (SessionNotFound session_id);
  found ← load_operation session_id operation_id db;
  stored ← ok_or found (NoUnknownEffect operation_id);
  match phase stored with
  | OutcomeUnknown =>
      load_pending_abandonment (s_agent_id session) session_id operation_id
        (s_active_operation_id session) stored db
  | Failed =>
      load_prior_abandonment session_id operation_id (s_active_operation_id session) stored db
  | _ => Err (NoUnknownEffect operation_id)
  end.

(** The children of [batch] are settled or unknown, and one is unknown. *)
Definition unknown_children (db : Database) (batch : EffectBatchId) : bool :=
  tbl_exists (λ _ e, bool_decide (e_batch_id e = batch) &&
                     String.eqb (e_status e) "outcome_unknown" &&
                     bool_decide (e_outcome_json e = None)) (effects db) &&
  negb (tbl_exists (λ _ e, bool_decide (e_batch_id e = batch) &&
                           negb (String.eqb (e_status e) "settled" ||
                                 String.eqb (e_status e) "outcome_unknown")) (effects db)).

Definition require_unknown_batch_unchanged (session_id : SessionId) (operation_id : OperationId)
    (expected_transition : Z) (db : Database) : KResult unit :=
  let unknown :=
    match operations db !! operation_id with
    | Some o =>
        bool_decide (o_session_id o = session_id) &&
        String.eqb (o_phase o) "outcome_unknown" &&
        (o_transition_version o =? expected_transition) &&
        bool_decide (o_input_effect_batch_id o = None) &&
        bool_decide (o_outcome_json o = None) &&
        match o_current_effect_batch_id o with
        | Some b => batch_of_operation db operation_id b && unknown_children db b
        | None => false
        end
    | None => false
    end in
  if unknown then Ok tt else Err (Corrupt "unknown effect batch changed before abandonment").

Definition commit_unknown_effect_abandonment (new_event_id : Z → EventId)
    (session_id : SessionId) (operation_id : OperationId)
    (expected_transition expected_event_high_water : Z)
    (abandonment : UnknownEffectAbandonment) : Tx OperationOutcome :=
  requested ← query (cancellation_requested operation_id);
  guard_tx (negb requested) (CancellationPending operation_id) ;;
  read (require_high_water session_id operation_id expected_event_high_water
          "unknown-effect operation no longer owns its session"
          "semantic history changed during unknown-effect abandonment") ;;
  read (require_unknown_batch_unchanged session_id operation_id expected_transition) ;;
  append_events new_event_id session_id operation_id (ab_events abandonment) ;;
  checkpoint_json ← lift (encode_json (ab_checkpoint abandonment));
  outcome_json ← lift (encode_json abandoned_outcome);
  changed ← update_operation operation_id
              (λ o, bool_decide (o_session_id o = session_id) &&
                    String.eqb (o_phase o) "outcome_unknown" &&
                    (o_transition_version o =? expected_transition))
              (ended_row "failed" checkpoint_json outcome_json);
  require_changed changed "unknown-effect abandonment compare-and-set failed" ;;
  release_session session_id operation_id "abandoned operation did not own its session" ;;
  mret abandoned_outcome.
End unknown_effect.
