(* ===== verification/Inspection.v ===== *)
(** * Read-only projections ([inspection.rs], [observation.rs]) *)
From S2P Require Import Prelude Json State Schema Admission OperationStore EffectStore.
Section inspection.
Context `{KS : KernelSerde}.

(** ** [Kernel::inspect] *)
Definition session_operations (db : Database) (session_id : SessionId)
    : list (OperationId * OperationRow) :=
  order_by (λ ko, o_position ko.2)
    (select (λ _ o, bool_decide (o_session_id o = session_id) &&
                    bool_decide (is_Some (command_text db o))) (operations db)).

Definition operation_snapshot (db : Database) (ko : OperationId * OperationRow)
    : KResult OperationSnapshot :=
  let '(operation_id, row) := ko in
  text ← ok_or (command_text db row) (sqlite_error "query returned no rows");
  stored ← decode row text;
  position ← from_sql_integer (o_position row) "operation position";
  batches ← load_effect_batch_snapshots operation_id db;
  Ok {| os_operation_id := operation_id; os_command_id := command_id (command stored);
        os_command := command stored; os_position := position;
        os_status := status (phase stored); os_manifest := manifest stored;
        os_checkpoint := checkpoint stored; os_outcome := outcome stored;
        os_effect_batches := batches |}.

Definition inspect (session_id : SessionId) (db : Database) : KResult SessionSnapshot :=
  session ← ok_or (sessions db !! session_id) (SessionNotFound session_id);
  snapshots ← collect (operation_snapshot db) (session_operations db session_id);
  Ok {| ss_agent_id := s_agent_id session; ss_operations := snapshots |}.

(** ** [Kernel::command_standing] *)
Record CommandStanding := { admitted : bool; other_unfinished : bool }.

Definition command_standing (session_id : SessionId) (command_id : CommandId) (db : Database)
    : KResult CommandStanding :=
  match sessions db !! session_id with
  | None => Err (SessionNotFound session_id)
  | Some _ =>
      Ok {| admitted := tbl_exists (λ _ o, bool_decide (o_session_id o = session_id) &&
                                           bool_decide (o_command_id o = command_id))
                          (operations db);
            other_unfinished := tbl_exists (λ _ o, bool_decide (o_session_id o = session_id) &&
                                                   bool_decide (o_command_id o ≠ command_id) &&
                                                   unfinished o) (operations db) |}
  end.

(** ** [observe_session] *)
Definition OBSERVED_SINCE : Z := 3.

Record OperationObservation := {
  oo_operation_id : OperationId; oo_command_id : CommandId; oo_position : Z;
  oo_status : OperationStatus }.

Record SessionObservation := {
  so_agent_id : AgentId; so_event_count : Z; so_queued_operations : Z;
  so_active_operation : option OperationObservation;
  so_latest_operation : option OperationObservation }.

(** [ORDER BY position DESC LIMIT 1] *)
Definition latest_row (db : Database) (session : SessionId) (id : option OperationId)
    : option (OperationId * OperationRow) :=
  last (order_by (λ ko, o_position ko.2)
          (select (λ k o, bool_decide (o_session_id o = session) &&
                          match id with None => true | Some id => bool_decide (k = id) end)
             (operations db))).

Definition operation (db : Database) (session : SessionId) (id : option OperationId)
    : KResult (option OperationObservation) :=
  match latest_row db session id with
  | None => Ok None
  | Some (operation_id, o) =>
      (* the column is read as a u32 *)
      if negb ((0 <=? o_state_version o) && (o_state_version o <=? u32_max))
      then Err (sqlite_error "integer out of range")
      else if negb (o_state_version o =? OPERATION_STATE_VERSION)
      then Err (UnsupportedStateVersion (o_state_version o) OPERATION_STATE_VERSION)
      else
        position ← from_sql_integer (o_position o) "operation position";
        phase ← from_database (o_phase o);
        Ok (Some {| oo_operation_id := operation_id; oo_command_id := o_command_id o;
                    oo_position := position; oo_status := status phase |})
  end.

Definition observe_session (user_version : Z) (session_id : SessionId) (db : Database)
    : KResult SessionObservation :=
  if negb ((OBSERVED_SINCE <=? user_version) && (user_version <=? SCHEMA_VERSION))
  then Err (UnsupportedSchema user_version SCHEMA_VERSION)
  else
    session ← ok_or (sessions db !! session_id) (SessionNotFound session_id);
    let queued := Z.of_nat (length (select (λ _ o, bool_decide (o_session_id o = session_id) &&
                                                   String.eqb (o_phase o) "queued")
                                      (operations db))) in
    active ← transpose (λ id,
      found ← operation db session_id (Some id);
      ok_or found (Corrupt "active operation does not belong to its session"))
      (s_active_operation_id session);
    latest ← operation db session_id None;
    event_count ← from_sql_integer (s_next_event_sequence session) "event count";
    queued ← from_sql_integer queued "queued operation count";
    Ok {| so_agent_id := s_agent_id session; so_event_count := event_count;
          so_queued_operations := queued; so_active_operation := active;
          so_latest_operation := latest |}.
End inspection.
