(* ===== verification/Runtime.v ===== *)
(** * Resolved runtimes ([runtime.rs])

    A runtime is a loop plugin with a set of named effect adapters and the
    manifest that freezes their identities. Plugins are arbitrary functions;
    adapters are opaque handles of type [Adapter]. *)
From S2P Require Import Prelude Json State.
Section runtime.
Context `{JL : JsonLib} {Adapter : Type}.

Record LoopPlugin := {
  decide_ : LoopInput → Result string LoopDecision;
  plugin_abandon : UnknownEffectInput → Result string UnknownEffectAbandonment;
  plugin_cancel : CancellationInput → Result string CancellationTransition;
}.

(** The default methods of the trait. *)
Definition default_abandon_unknown_effect (_ : UnknownEffectInput)
    : Result string UnknownEffectAbandonment :=
  Err "loop plugin does not support unknown-effect abandonment".
Definition default_cancel_operation (_ : CancellationInput)
    : Result string CancellationTransition :=
  Err "loop plugin does not support operation cancellation".

Record LoopBinding := { lb_name : string; lb_revision : string; lb_plugin : LoopPlugin }.
Record EffectBinding := { eb_name : string; eb_revision : string; eb_adapter : Adapter }.

Record Runtime := {
  rt_manifest : RuntimeManifest;
  rt_plugin : LoopPlugin;
  rt_effects : gmap string EffectBinding;
}.

Inductive RuntimeError :=
| EmptyIdentity (field : string)
| ZeroCheckpointSchema
| DuplicateEffectBinding (name : string).

Definition require_text (value field : string) : Result RuntimeError unit :=
  if String.eqb value "" then Err (EmptyIdentity field) else Ok tt.

(** The loop over the offered bindings. *)
Fixpoint bind_effects (effects : list EffectBinding) (bindings : gmap string string)
    (resolved : gmap string EffectBinding)
    : Result RuntimeError (gmap string string * gmap string EffectBinding) :=
  match effects with
  | [] => Ok (bindings, resolved)
  | effect :: rest =>
      require_text (eb_name effect) "effect binding" ;;
      require_text (eb_revision effect) "effect revision" ;;
      if decide (is_Some (bindings !! eb_name effect))
      then Err (DuplicateEffectBinding (eb_name effect))
      else bind_effects rest (<[eb_name effect := eb_revision effect]> bindings)
             (<[eb_name effect := effect]> resolved)
  end.

Definition runtime_new (loop_binding : LoopBinding) (checkpoint_schema_version : Z)
    (config_digest : string) (effects : list EffectBinding) : Result RuntimeError Runtime :=
  require_text (lb_name loop_binding) "loop binding" ;;
  require_text (lb_revision loop_binding) "loop revision" ;;
  if checkpoint_schema_version =? 0 then Err ZeroCheckpointSchema
  else
    require_text config_digest "configuration digest" ;;
    bound ← bind_effects effects ∅ ∅;
    Ok {| rt_manifest := {| loop_binding := lb_name loop_binding;
                            loop_revision := lb_revision loop_binding;
                            checkpoint_schema_version := checkpoint_schema_version;
                            effect_bindings := bound.1;
                            config_digest := config_digest |};
          rt_plugin := lb_plugin loop_binding;
          rt_effects := bound.2 |}.

Definition resolve_effect (rt : Runtime) (name revision : string) : option Adapter :=
  match rt_effects rt !! name with
  | Some binding => if String.eqb (eb_revision binding) revision
                    then Some (eb_adapter binding) else None
  | None => None
  end.

(** ** Properties *)

Definition bindings_agree (bindings : gmap string string) (resolved : gmap string EffectBinding) :=
  ∀ n, bindings !! n = eb_revision <$> resolved !! n.

Lemma bind_effects_agree effects : ∀ b r b' r',
  bindings_agree b r → bind_effects effects b r = Ok (b', r') → bindings_agree b' r'.
Proof.
  induction effects as [|e es IH]; intros b r b' r' HA; cbn; [naive_solver|].
  unfold require_text. destruct (String.eqb (eb_name e) ""); cbn; [done|].
  destruct (String.eqb (eb_revision e) ""); cbn; [done|].
  case_decide; [done|]. apply IH. intros n.
  destruct (decide (n = eb_name e)) as [->|].
  - by rewrite !lookup_insert_eq.
  - by rewrite !lookup_insert_ne.
Qed.

Lemma bind_effects_lookup effects : ∀ b r b' r',
  bind_effects effects b r = Ok (b', r') →
  (∀ n e, r !! n = Some e → is_Some (b !! n)) →
  ∀ n, r' !! n = match r !! n with
                 | Some e => Some e
                 | None => list_find (λ e, eb_name e = n) effects ≫= λ ie, Some ie.2
                 end.
Proof.
  induction effects as [|e es IH]; intros b r b' r' E Hd n; cbn in *.
  { simplify_eq. by destruct (r' !! n). }
  unfold require_text in E. destruct (String.eqb (eb_name e) ""); cbn in E; [done|].
  destruct (String.eqb (eb_revision e) ""); cbn in E; [done|].
  case_decide as Hdup; [done|]. rewrite (IH _ _ _ _ E).
  - destruct (decide (eb_name e = n)) as [<-|Hne].
    + rewrite lookup_insert_eq.
      destruct (r !! eb_name e) eqn:Er; [by destruct Hdup; eauto|done].
    + rewrite lookup_insert_ne by done. destruct (r !! n); [done|].
      destruct (list_find _ es) as [[i x]|]; done.
  - intros n' e' Hn. destruct (decide (n' = eb_name e)) as [->|].
    + rewrite lookup_insert_eq. eauto.
    + rewrite lookup_insert_ne in Hn by done. rewrite lookup_insert_ne by done. eauto.
Qed.
End runtime.
Arguments LoopBinding {JL}.
Arguments LoopPlugin {JL}.
Arguments EffectBinding Adapter : clear implicits.
Arguments Runtime {JL} Adapter.

(** * Drive leases and effect supervision ([effect_supervision.rs])

    The process-local table of running sessions. A [SessionDriveLease] is a
    reference-counted handle: the driver holds one and every spawned effect task
    holds a clone; [holders] is the reference count of the shared ownership
    value, and dropping the last handle removes the entry. Poisoning of the
    mutex (a panic inside the few lines that hold it) is not modelled. *)
Record RunningSession := {
  rs_operation_id : option OperationId;
  rs_cancelled : bool;          (* the session's CancellationToken *)
  rs_holders : nat;             (* strong count of SessionDriveOwnership *)
}.

Abbreviation RunningSessions := (gmap SessionId RunningSession).

Definition acquire (running : RunningSessions) (session_id : SessionId)
    : KResult RunningSessions :=
  if decide (is_Some (running !! session_id)) then Err (Busy session_id)
  else Ok (<[session_id := {| rs_operation_id := None; rs_cancelled := false;
                              rs_holders := 1 |}]> running).

Definition bind (running : RunningSessions) (session_id : SessionId) (operation_id : OperationId)
    : KResult RunningSessions :=
  match running !! session_id with
  | None => Err (Store Ownership "session ownership disappeared before operation binding")
  | Some r =>
      match rs_operation_id r with
      | None => Ok (<[session_id := {| rs_operation_id := Some operation_id;
                                       rs_cancelled := rs_cancelled r;
                                       rs_holders := rs_holders r |}]> running)
      | Some bound =>
          if decide (bound = operation_id) then Ok running
          else Err (Store Ownership "session drive changed operation")
      end
  end.

(** [Clone for SessionDriveLease]. *)
Definition clone_lease (running : RunningSessions) (session_id : SessionId) : RunningSessions :=
  alter (λ r, {| rs_operation_id := rs_operation_id r; rs_cancelled := rs_cancelled r;
                 rs_holders := S (rs_holders r) |}) session_id running.

(** Dropping one handle; [Drop for SessionDriveOwnership] runs with the last. *)
Definition drop_lease (running : RunningSessions) (session_id : SessionId) : RunningSessions :=
  match running !! session_id with
  | None => running
  | Some r =>
      match rs_holders r with
      | S (S n) => <[session_id := {| rs_operation_id := rs_operation_id r;
                                      rs_cancelled := rs_cancelled r;
                                      rs_holders := S n |}]> running
      | _ => delete session_id running
      end
  end.

Definition signal_running_operation (running : RunningSessions) (session_id : SessionId)
    (operation_id : OperationId) : RunningSessions :=
  match running !! session_id with
  | None => running
  | Some r =>
      if decide (rs_operation_id r = Some operation_id)
      then <[session_id := {| rs_operation_id := rs_operation_id r; rs_cancelled := true;
                              rs_holders := rs_holders r |}]> running
      else running
  end.

(** ** The lease protocol as a step relation

    [LeaseState] pairs the table with the handles alive in the process: the
    sessions of the live drivers and of the in-flight effect tasks. *)
Record LeaseState := { ls_running : RunningSessions; ls_drivers : list SessionId;
                       ls_tasks : list SessionId }.

Inductive lease_step : LeaseState → LeaseState → Prop :=
| step_acquire running running' drivers tasks s :
    acquire running s = Ok running' →
    lease_step {| ls_running := running; ls_drivers := drivers; ls_tasks := tasks |}
               {| ls_running := running'; ls_drivers := s :: drivers; ls_tasks := tasks |}
| step_bind running running' drivers tasks s o :
    s ∈ drivers → bind running s o = Ok running' →
    lease_step {| ls_running := running; ls_drivers := drivers; ls_tasks := tasks |}
               {| ls_running := running'; ls_drivers := drivers; ls_tasks := tasks |}
| step_signal running drivers tasks s o :
    lease_step {| ls_running := running; ls_drivers := drivers; ls_tasks := tasks |}
               {| ls_running := signal_running_operation running s o;
                  ls_drivers := drivers; ls_tasks := tasks |}
| step_spawn running drivers tasks s :
    s ∈ drivers →
    lease_step {| ls_running := running; ls_drivers := drivers; ls_tasks := tasks |}
               {| ls_running := clone_lease running s; ls_drivers := drivers;
                  ls_tasks := s :: tasks |}
| step_drop_driver running drivers1 drivers2 tasks s :
    lease_step {| ls_running := running; ls_drivers := drivers1 ++ s :: drivers2;
                  ls_tasks := tasks |}
               {| ls_running := drop_lease running s; ls_drivers := drivers1 ++ drivers2;
                  ls_tasks := tasks |}
| step_task_done running drivers tasks1 tasks2 s :
    lease_step {| ls_running := running; ls_drivers := drivers; ls_tasks := tasks1 ++ s :: tasks2 |}
               {| ls_running := drop_lease running s; ls_drivers := drivers;
                  ls_tasks := tasks1 ++ tasks2 |}.

Definition lease_init : LeaseState := {| ls_running := ∅; ls_drivers := []; ls_tasks := [] |}.

Definition occurrences (s : SessionId) (l : list SessionId) : nat :=
  length (filter (λ x, x = s) l).
#[global] Arguments occurrences : simpl never.

(** Every live handle is counted, and an entry exists exactly while a handle
    does. *)
Definition lease_inv (st : LeaseState) : Prop :=
  ∀ s, let n := (occurrences s (ls_drivers st) + occurrences s (ls_tasks st))%nat in
       match ls_running st !! s with
       | Some r => rs_holders r = n ∧ (0 < n)%nat
       | None => n = 0%nat
       end ∧ (occurrences s (ls_drivers st) ≤ 1)%nat.

Lemma occurrences_app s l1 l2 :
  occurrences s (l1 ++ l2) = (occurrences s l1 + occurrences s l2)%nat.
Proof. unfold occurrences. by rewrite filter_app, length_app. Qed.

Lemma occurrences_cons s x l :
  occurrences s (x :: l) = ((if decide (x = s) then 1 else 0) + occurrences s l)%nat.
Proof. unfold occurrences. rewrite filter_cons. by case_decide. Qed.

Lemma occurrences_elem_of s l : s ∈ l ↔ (0 < occurrences s l)%nat.
Proof.
  induction l as [|x l IH]; [unfold occurrences; cbn; split; [set_solver|lia]|].
  rewrite occurrences_cons, elem_of_cons, IH. case_decide; naive_solver lia.
Qed.

Lemma lease_inv_entry st s : lease_inv st →
  (∃ r, ls_running st !! s = Some r) ↔ s ∈ ls_drivers st ∨ s ∈ ls_tasks st.
Proof.
  intros HI. specialize (HI s) as [HI _]. cbn in HI.
  rewrite !occurrences_elem_of. destruct (ls_running st !! s); naive_solver lia.
Qed.

Ltac lease_cases s t :=
  destruct (decide (s = t)) as [->|];
  repeat (rewrite lookup_insert_eq || rewrite lookup_insert_ne by congruence ||
          rewrite lookup_delete_eq || rewrite lookup_delete_ne by congruence).

Lemma drop_lease_lookup running s t :
  drop_lease running s !! t =
  if decide (s = t)
  then running !! s ≫= λ r,
    match rs_holders r with
    | S (S n) => Some {| rs_operation_id := rs_operation_id r;
                         rs_cancelled := rs_cancelled r; rs_holders := S n |}
    | _ => None
    end
  else running !! t.
Proof.
  unfold drop_lease. destruct (running !! s) as [r|] eqn:E; cbn.
  - destruct (rs_holders r) as [|[|n]]; case_decide; subst;
      by rewrite ?lookup_insert_eq, ?lookup_insert_ne, ?lookup_delete_eq, ?lookup_delete_ne.
  - case_decide; by subst.
Qed.

Lemma lease_inv_step st st' : lease_step st st' → lease_inv st → lease_inv st'.
Proof.
  intros Hstep HI t. specialize (HI t) as HIt.
  destruct Hstep as [running running' drivers tasks s E | running running' drivers tasks s o Hin E
    | running drivers tasks s o | running drivers tasks s Hin
    | running d1 d2 tasks s | running drivers t1 t2 s]; cbn in *.
  - unfold acquire in E. case_decide as Hn; [done|]. simplify_eq.
    apply eq_None_not_Some in Hn. rewrite occurrences_cons.
    lease_cases s t; cbn.
    + rewrite Hn in HIt. lia.
    + done.
  - unfold bind in E. destruct (running !! s) as [r|] eqn:Er; [|done].
    destruct (rs_operation_id r) as [b|] eqn:Eb.
    + case_decide; naive_solver.
    + simplify_eq. lease_cases s t; [rewrite Er in HIt|]; done.
  - unfold signal_running_operation. destruct (running !! s) as [r|] eqn:Er; [|done].
    case_decide; [|done]. lease_cases s t; [rewrite Er in HIt|]; done.
  - apply occurrences_elem_of in Hin. unfold clone_lease.
    rewrite occurrences_cons, lookup_alter. case_decide; subst.
    + destruct (running !! t) as [r|] eqn:Er; cbn; lia.
    + done.
  - rewrite !occurrences_app. rewrite !occurrences_app, occurrences_cons in HIt.
    rewrite drop_lease_lookup.
    case_decide; subst; [|done].
    destruct (running !! t) as [r|] eqn:Er; cbn in *; [|lia].
    destruct (rs_holders r) as [|[|n]]; cbn; lia.
  - rewrite !occurrences_app. rewrite !occurrences_app, occurrences_cons in HIt.
    rewrite drop_lease_lookup.
    case_decide; subst; [|done].
    destruct (running !! t) as [r|] eqn:Er; cbn in *; [|lia].
    destruct (rs_holders r) as [|[|n]]; cbn; lia.
Qed.

Lemma lease_inv_reachable st : rtc lease_step lease_init st → lease_inv st.
Proof.
  apply (rtc_ind_r lease_inv lease_init).
  - intros s. cbn. rewrite lookup_empty. unfold occurrences. cbn. lia.
  - eauto using lease_inv_step.
Qed.
