(* ===== verification/Drive.v ===== *)
(** * Driving an operation ([drive.rs])

    The drive composes transactions, the loop plugin and the effect adapters.
    [World] is the durable database with the process-local lease table, a
    clock that counts transactions, and the trace of adapter invocations.
    Everything the drive does not control is an [Environment]: what other
    callers commit between two transactions of this drive ([interfere]), which
    transactions fail to run ([io_failure], which also stands for the death of
    the process at that point), what an adapter answers at a given moment
    ([invoke]), in which order concurrent attempts complete
    ([completion_order]), the fresh identities, and whether an executor is
    available. *)
From S2P Require Import Prelude Json State Schema Admission OperationStore EffectStore Cancellation Runtime.
Section drive.
Context `{KS : KernelSerde} {Adapter : Type}.

Definition MAX_LIVE_DISPATCHES_BEFORE_UNKNOWN : Z := 2.

Record ActiveOperation := {
  a_agent_id : AgentId;
  a_operation_id : OperationId;
  a_command : Command;
  a_manifest : RuntimeManifest;
  a_checkpoint : option Checkpoint;
  a_transition_version : Z;
  a_phase : OperationPhase;
  a_input_effect_batch_id : option EffectBatchId;
  a_newly_activated : bool;
}.

Record EffectInvocation := {
  in_batch_id : EffectBatchId;
  in_effect_id : EffectId;
  in_binding : string;
  in_binding_revision : string;
  in_runtime_manifest : RuntimeManifest;
  in_request : Value;
}.

Definition into_invocation (p : PendingEffect) (manifest : RuntimeManifest) : EffectInvocation :=
  {| in_batch_id := pe_batch_id p; in_effect_id := pe_effect_id p;
     in_binding := pe_binding p; in_binding_revision := pe_binding_revision p;
     in_runtime_manifest := manifest; in_request := pe_request p |}.

(** One adapter invocation that was started. *)
Record Invoked := {
  iv_effect_id : EffectId; iv_dispatch_count : Z; iv_recovery : EffectRecovery }.

Record World := MkWorld {
  w_db : Database;
  w_running : RunningSessions;
  w_clock : nat;
  w_trace : list Invoked;
}.

Record Environment := {
  interfere : nat → Database → Database;
  io_failure : nat → option KernelError;
  invoke : nat → Adapter → EffectInvocation → KResult EffectCompletion;
  completion_order : nat → list (PendingEffect * Adapter) → list (PendingEffect * Adapter);
  new_event_id : nat → Z → EventId;
  new_batch_id : nat → EffectBatchId;
  new_effect_id : nat → Z → EffectId;
  executor_available : bool;
}.

(** ** Computations of the drive *)
Definition D (A : Type) : Type := World → KResult A * World.

#[global] Instance D_ret : MRet D := λ A a w, (Ok a, w).
#[global] Instance D_bind : MBind D := λ A B f m w,
  match m w with
  | (Ok a, w') => f a w'
  | (Err e, w') => (Err e, w')
  end.

Definition fail {A} (e : KernelError) : D A := λ w, (Err e, w).
Definition lift_d {A} (r : KResult A) : D A := λ w, (r, w).
Definition clock : D nat := λ w, (Ok (w_clock w), w).

(** One transaction of this drive. *)
Definition transaction (env : Environment) {A} (m : Tx A) : D A := λ w,
  let db := interfere env (w_clock w) (w_db w) in
  let after db' := MkWorld db' (w_running w) (S (w_clock w)) (w_trace w) in
  match io_failure env (w_clock w) with
  | Some e => (Err e, after db)
  | None => let '(r, db') := immediate m db in (r, after db')
  end.

Definition with_running (f : RunningSessions → RunningSessions) : D unit := λ w,
  (Ok tt, MkWorld (w_db w) (f (w_running w)) (w_clock w) (w_trace w)).
Definition try_running (f : RunningSessions → KResult RunningSessions) : D unit := λ w,
  match f (w_running w) with
  | Ok r => (Ok tt, MkWorld (w_db w) r (w_clock w) (w_trace w))
  | Err e => (Err e, w)
  end.
Definition record_invocation (i : Invoked) : D unit := λ w,
  (Ok tt, MkWorld (w_db w) (w_running w) (w_clock w) (w_trace w ++ [i])).

(** ** Activation *)
Definition load_active_query (agent_id : AgentId) (session_id : SessionId)
    (operation_id : OperationId) (db : Database) : KResult ActiveOperation :=
  found ← load_operation session_id operation_id db;
  stored ← ok_or found (Corrupt "active operation is missing");
  manifest ← ok_or (manifest stored) (Corrupt "active operation has no runtime manifest");
  Ok {| a_agent_id := agent_id; a_operation_id := operation_id; a_command := command stored;
        a_manifest := manifest; a_checkpoint := checkpoint stored;
        a_transition_version := transition_version stored; a_phase := phase stored;
        a_input_effect_batch_id := input_effect_batch_id stored; a_newly_activated := false |}.

Definition queued_operations (session_id : SessionId) (db : Database)
    : list (OperationId * OperationRow) :=
  order_by (λ ko, o_position ko.2)
    (select (λ _ o, bool_decide (o_session_id o = session_id) &&
                    String.eqb (o_phase o) "queued") (operations db)).

Definition activated_row (manifest_json : Text) (o : OperationRow) : OperationRow :=
  MkOperation (o_session_id o) (o_command_id o) (o_position o) "need_decision"
    (o_state_version o) (o_transition_version o + 1) (Some manifest_json) (o_checkpoint_json o)
    (o_current_effect_batch_id o) (o_input_effect_batch_id o) (o_outcome_json o)
    (o_next_effect_batch_position o).

(** The activation of the first queued operation; [None] when there is none. *)
Definition activate_queued (session_id : SessionId) (manifest : RuntimeManifest)
    : Tx (option OperationId) :=
  queued ← query (queued_operations session_id);
  match queued with
  | [] => mret None
  | (operation_id, _) :: _ =>
      manifest_json ← lift (encode_json manifest);
      changed ← update_operation operation_id
                  (λ o, String.eqb (o_phase o) "queued" && bool_decide (o_manifest_json o = None))
                  (activated_row manifest_json);
      require_changed changed "operation activation compare-and-set failed" ;;
      changed ← update_session session_id (λ s, bool_decide (s_active_operation_id s = None))
                  (set_active (Some operation_id));
      require_changed changed "session activation compare-and-set failed" ;;
      mret (Some operation_id)
  end.

Definition activate (session_id : SessionId) (manifest : RuntimeManifest)
    : Tx (option ActiveOperation) :=
  session ← read (λ db, ok_or (sessions db !! session_id) (SessionNotFound session_id));
  match s_active_operation_id session with
  | Some operation_id =>
      active ← read (load_active_query (s_agent_id session) session_id operation_id);
      mret (Some active)
  | None =>
      activated ← activate_queued session_id manifest;
      match activated with
      | None => mret None
      | Some operation_id =>
          active ← read (load_active_query (s_agent_id session) session_id operation_id);
          mret (Some {| a_agent_id := a_agent_id active; a_operation_id := a_operation_id active;
                        a_command := a_command active; a_manifest := a_manifest active;
                        a_checkpoint := a_checkpoint active;
                        a_transition_version := a_transition_version active;
                        a_phase := a_phase active;
                        a_input_effect_batch_id := a_input_effect_batch_id active;
                        a_newly_activated := true |})
      end
  end.

Definition load_active (session_id : SessionId) (operation_id : OperationId)
    : Tx ActiveOperation :=
  agent_id ← read (λ db,
    match sessions db !! session_id with
    | Some s => if decide (s_active_operation_id s = Some operation_id)
                then Ok (s_agent_id s) else Err (Corrupt "active operation pointer changed")
    | None => Err (Corrupt "active operation pointer changed")
    end);
  read (load_active_query agent_id session_id operation_id).

(** ** Loop input and decisions *)
Definition load_loop_input (session_id : SessionId) (active : ActiveOperation)
    (events : list SemanticEvent) : Tx LoopInput :=
  effect_batch ← read (λ db,
    transpose (λ batch_id, load_settled_effect_batch (a_operation_id active) batch_id db)
      (a_input_effect_batch_id active));
  guard_tx
    (match effect_batch with
     | None => true
     | Some batch =>
         forallb (λ e, bool_decide (effect_bindings (a_manifest active) !! se_binding e
                                    = Some (se_binding_revision e))) (sb_effects batch)
     end) (Corrupt "settled effect differs from the frozen manifest") ;;
  mret {| li_agent_id := a_agent_id active; li_session_id := session_id;
          li_operation_id := a_operation_id active;
          li_runtime_manifest := a_manifest active; li_command := a_command active;
          li_events := events; li_checkpoint := a_checkpoint active;
          li_effect_batch := effect_batch |}.

Definition resolve_intent (active : ActiveOperation) (runtime : Runtime Adapter)
    (effect : EffectRequest) : KResult NewEffectIntent :=
  revision ← ok_or (effect_bindings (a_manifest active) !! er_binding effect)
               (EffectBindingUnavailable (er_binding effect));
  ok_or (resolve_effect runtime (er_binding effect) revision)
    (EffectBindingUnavailable (er_binding effect)) ;;
  Ok {| ni_binding := er_binding effect; ni_binding_revision := revision;
        ni_request := er_request effect; ni_recovery := er_recovery effect |}.

Definition apply_loop_decision (env : Environment) (session_id : SessionId)
    (active : ActiveOperation) (runtime : Runtime Adapter) (decision : LoopDecision)
    : D (option OperationOutcome) :=
  let found := schema_version (decision_checkpoint decision) in
  let expected := checkpoint_schema_version (a_manifest active) in
  if negb (found =? expected) then fail (CheckpointSchemaMismatch expected found)
  else
    n ← clock;
    match decision with
    | InvokeEffects checkpoint effects =>
        match effects with
        | [] => fail (InvalidDecision "an effect batch must contain at least one effect")
        | _ =>
            intents ← lift_d (collect (resolve_intent active runtime) effects);
            transaction env
              (commit_effect_batch_intent (new_batch_id env n) (new_effect_id env n)
                 (a_operation_id active) (a_transition_version active)
                 {| nb_checkpoint := checkpoint; nb_effects := intents |}) ;;
            mret None
        end
    | _ =>
        committed ← transaction env
          (commit_decision (new_event_id env n) session_id (a_operation_id active)
             (a_transition_version active) decision);
        mret (match committed with
              | DecisionFinished outcome => Some outcome
              | DecisionContinue | DecisionCancellationPending => None
              end)
    end.

(** ** The effect phase *)
Definition resolve_pending (active : ActiveOperation) (runtime : Runtime Adapter)
    (batch_id : EffectBatchId) (effect : PendingEffect) : KResult (PendingEffect * Adapter) :=
  if bool_decide (pe_batch_id effect ≠ batch_id) ||
     bool_decide (effect_bindings (a_manifest active) !! pe_binding effect
                  ≠ Some (pe_binding_revision effect))
  then Err (Corrupt "active effect differs from its batch or frozen manifest")
  else
    adapter ← ok_or (resolve_effect runtime (pe_binding effect) (pe_binding_revision effect))
                (EffectBindingUnavailable (pe_binding effect));
    Ok (effect, adapter).

(** Starting every attempt: a lease clone and an invocation each. *)
Fixpoint spawn_attempts (session_id : SessionId) (resolved : list (PendingEffect * Adapter))
    : D unit :=
  match resolved with
  | [] => mret tt
  | (effect, _) :: rest =>
      with_running (λ r, clone_lease r session_id) ;;
      record_invocation {| iv_effect_id := pe_effect_id effect;
                           iv_dispatch_count := pe_dispatch_count effect;
                           iv_recovery := pe_recovery effect |} ;;
      spawn_attempts session_id rest
  end.

(** What one completion commits: whether the batch finished. *)
Definition settle_completion (env : Environment) (active : ActiveOperation)
    (batch_id : EffectBatchId) (effect : PendingEffect) (completion : EffectCompletion)
    : D bool :=
  match completion with
  | CompletionSettled outcome =>
      transaction env (settle_batch_effect (a_operation_id active) batch_id
                         (pe_effect_id effect) (pe_transition_version effect) outcome)
  | CompletionUnknown =>
      if bool_decide (pe_recovery effect = SafeToReplay) &&
         (pe_dispatch_count effect <? MAX_LIVE_DISPATCHES_BEFORE_UNKNOWN)
      then mret false
      else transaction env (record_batch_effect_unknown (a_operation_id active) batch_id
                              (pe_effect_id effect) (pe_transition_version effect))
  end.

Fixpoint collect_completions (env : Environment) (session_id : SessionId)
    (active : ActiveOperation) (batch_id : EffectBatchId)
    (attempts : list (PendingEffect * Adapter)) (expected_transition : option Z)
    (batch_finished : bool) : D (option Z * bool) :=
  match attempts with
  | [] => mret (expected_transition, batch_finished)
  | (effect, adapter) :: rest =>
      n ← clock;
      with_running (λ r, drop_lease r session_id) ;;
      completion ← lift_d (invoke env n adapter (into_invocation effect (a_manifest active)));
      finished ← settle_completion env active batch_id effect completion;
      collect_completions env session_id active batch_id rest
        (Some (pe_transition_version effect)) (batch_finished || finished)
  end.

Definition drive_effect_phase (env : Environment) (session_id : SessionId)
    (active : ActiveOperation) (runtime : Runtime Adapter) : D unit :=
  start ← transaction env (prepare_effect_batch (a_operation_id active)
                             (a_transition_version active));
  match start with
  | StartSettled | StartBlocked | StartCancellationPending => mret tt
  | Invoke pending =>
      if negb (executor_available env) then fail RuntimeUnavailable
      else
        resolved ← lift_d (collect (resolve_pending active runtime (pb_batch_id pending))
                             (pb_effects pending));
        spawn_attempts session_id resolved ;;
        n ← clock;
        done ← collect_completions env session_id active (pb_batch_id pending)
                 (completion_order env n resolved) None false;
        expected_transition ← lift_d (ok_or done.1
          (Corrupt "effect batch prepared no child invocations"));
        if (done.2 : bool) then mret tt
        else
          transaction env (finish_effect_batch_attempt (a_operation_id active)
                             (pb_batch_id pending) expected_transition) ;;
          mret tt
  end.

(** ** Cancellation closure *)
Definition map_loop_error {A} (r : Result string A) : KResult A :=
  match r with Ok a => Ok a | Err m => Err (LoopFailed m) end.

Definition close_requested_cancellation (env : Environment) (session_id : SessionId)
    (operation_id : OperationId) (runtime : Runtime Adapter) : D (option OperationOutcome) :=
  pending ← transaction env (load_requested_cancellation session_id operation_id);
  match pending with
  | None => mret None
  | Some pending =>
      if negb (bool_decide (pc_manifest pending = rt_manifest runtime)) then fail RuntimeMismatch
      else
        transition ← lift_d (map_loop_error (plugin_cancel (rt_plugin runtime) (pc_input pending)));
        lift_d (require_compatible_checkpoint (pc_manifest pending)
                  (Some (ct_checkpoint transition))) ;;
        lift_d (validate_new_events (ct_events transition)) ;;
        n ← clock;
        transaction env (commit_cancellation (new_event_id env n) session_id operation_id
                           (pc_transition_version pending) (pc_event_high_water pending)
                           transition) ;;
        mret (Some OutcomeCancelled)
  end.

(** ** The loop

    [None] means that the fuel, a bound on the number of iterations, ran out. *)
Fixpoint drive_loop (fuel : nat) (env : Environment) (session_id : SessionId)
    (runtime : Runtime Adapter) (active : ActiveOperation) : D (option DriveResult) :=
  match fuel with
  | O => mret None
  | S fuel =>
      let operation_id := a_operation_id active in
      closed ← close_requested_cancellation env session_id operation_id runtime;
      match closed with
      | Some outcome => mret (Some (Finished operation_id outcome))
      | None =>
          page ← transaction env (events_after session_id START);
          match a_phase active with
          | EffectIntent | EffectDispatched =>
              drive_effect_phase env session_id active runtime ;;
              active ← transaction env (load_active session_id operation_id);
              drive_loop fuel env session_id runtime active
          | OutcomeUnknown => mret (Some (Blocked operation_id))
          | NeedDecision =>
              input ← transaction env (load_loop_input session_id active (page_events page));
              decision ← lift_d (map_loop_error (decide_ (rt_plugin runtime) input));
              applied ← apply_loop_decision env session_id active runtime decision;
              match applied with
              | Some outcome => mret (Some (Finished operation_id outcome))
              | None =>
                  active ← transaction env (load_active session_id operation_id);
                  drive_loop fuel env session_id runtime active
              end
          | _ => fail (Corrupt "unsupported active phase")
          end
      end
  end.

Definition drive_leased (fuel : nat) (env : Environment) (session_id : SessionId)
    (runtime : Runtime Adapter) : D (option DriveResult) :=
  activated ← transaction env (activate session_id (rt_manifest runtime));
  match activated with
  | None => mret (Some Idle)
  | Some active =>
      try_running (λ r, bind r session_id (a_operation_id active)) ;;
      if negb (bool_decide (a_manifest active = rt_manifest runtime)) then fail RuntimeMismatch
      else drive_loop fuel env session_id runtime active
  end.

(** A lease handle lives for the duration of a computation. *)
Definition with_lease {A} (session_id : SessionId) (m : D A) : D A :=
  (λ w, match acquire (w_running w) session_id with
        | Err e => (Err e, w)
        | Ok running =>
            let '(r, w') := m (MkWorld (w_db w) running (w_clock w) (w_trace w)) in
            (r, MkWorld (w_db w') (drop_lease (w_running w') session_id)
                  (w_clock w') (w_trace w'))
        end).

Definition drive (fuel : nat) (env : Environment) (session_id : SessionId)
    (runtime : Runtime Adapter) : D (option DriveResult) :=
  with_lease session_id (drive_leased fuel env session_id runtime).

(** [Kernel::abandon_unknown_effect]. *)
Definition require_runtime (manifest : RuntimeManifest) (runtime : Runtime Adapter)
    : KResult unit :=
  if decide (manifest = rt_manifest runtime) then Ok tt else Err RuntimeMismatch.

Definition abandon_unknown_effect (env : Environment) (session_id : SessionId)
    (operation_id : OperationId) (runtime : Runtime Adapter) : D OperationOutcome :=
  with_lease session_id (
    state ← transaction env (read (load_unknown_effect_state session_id operation_id));
    match state with
    | AlreadyAbandoned manifest outcome =>
        lift_d (require_runtime manifest runtime) ;; mret outcome
    | Pending pending =>
        lift_d (require_runtime (pa_manifest pending) runtime) ;;
        abandonment ← lift_d (map_loop_error (plugin_abandon (rt_plugin runtime) (pa_input pending)));
        lift_d (require_compatible_checkpoint (pa_manifest pending)
                  (Some (ab_checkpoint abandonment))) ;;
        lift_d (validate_new_events (ab_events abandonment)) ;;
        n ← clock;
        transaction env (commit_unknown_effect_abandonment (new_event_id env n) session_id
                           operation_id (pa_transition_version pending)
                           (pa_event_high_water pending) abandonment)
    end).

(** [Kernel::request_cancellation]: the transaction, then the signal. *)
Definition request_and_signal (env : Environment) (session_id : SessionId)
    (operation_id : OperationId) (cancellation_id : CancellationId) : D unit :=
  signal ← transaction env (request_cancellation session_id operation_id cancellation_id);
  if (signal : bool)
  then with_running (λ r, signal_running_operation r session_id operation_id)
  else mret tt.
End drive.
Arguments Environment {JL} Adapter.
Arguments World {JL}.
Arguments D {JL} A.
