(* ===== verification/Concrete.v ===== *)
(** * A concrete JSON library and a small scenario

    An instance of the JSON interface in which a document is kept as a tagged
    term, with its laws, and a scenario (one session, two commands, a loop that
    asks for one effect and then completes) on which the theorems are
    instantiated. *)
From S2P Require Import Prelude Json State Schema Admission OperationStore EffectStore Cancellation Runtime.
From S2P Require Import Drive.
Inductive Doc :=
| DocCommand (c : CommandId) (v : string)
| DocManifest (m : RuntimeManifest)
| DocCheckpoint (n : Z) (v : string)
| DocOutcome (o : OperationOutcome)
| DocSuccess (v : string)
| DocFailure (v : string)
| DocValue (v : string).
#[global] Instance Doc_eq_dec : EqDecision Doc.
Proof. solve_decision. Defined.

#[global] Instance doc_json : JsonLib := { Value := string; Text := Doc }.

#[global] Instance doc_command : Serde Command := {
  to_string c := Some (DocCommand (command_id c) (content c));
  from_str t := match t with
                | DocCommand c v => Some {| command_id := c; content := v |} | _ => None end }.
#[global] Instance doc_manifest : Serde RuntimeManifest := {
  to_string m := Some (DocManifest m);
  from_str t := match t with DocManifest m => Some m | _ => None end }.
#[global] Instance doc_checkpoint : Serde Checkpoint := {
  to_string c := Some (DocCheckpoint (schema_version c) (state c));
  from_str t := match t with
                | DocCheckpoint n v => Some {| schema_version := n; state := v |} | _ => None end }.
#[global] Instance doc_outcome : Serde OperationOutcome := {
  to_string o := Some (DocOutcome o);
  from_str t := match t with DocOutcome o => Some o | _ => None end }.
#[global] Instance doc_effect_outcome : Serde EffectOutcome := {
  to_string o := Some (match o with Success v => DocSuccess v | Failure m => DocFailure m end);
  from_str t := match t with
                | DocSuccess v => Some (Success v) | DocFailure m => Some (Failure m)
                | _ => None end }.
#[global] Instance doc_value : @Serde doc_json string := {
  to_string v := Some (DocValue v);
  from_str t := match t with DocValue v => Some v | _ => None end }.

#[global] Instance doc_serde : KernelSerde := {
  command_serde := doc_command; manifest_serde := doc_manifest;
  checkpoint_serde := doc_checkpoint; outcome_serde := doc_outcome;
  effect_outcome_serde := doc_effect_outcome; value_serde := doc_value }.

#[global] Instance doc_laws : KernelSerdeLaws.
Proof.
  split; intros a t E; cbn in *; simplify_eq; [by destruct a|done|by destruct a|done| |done].
  by destruct a.
Defined.

Module Scenario.
Definition agent : AgentId := MkId 1.
Definition session : SessionId := MkId 2.
Definition op1 : OperationId := MkId 11.
Definition op2 : OperationId := MkId 12.
Definition cmd (n : N) (v : string) : Command := {| command_id := MkId n; content := v |}.
Definition ckpt (v : string) : Checkpoint := {| schema_version := 1; state := v |}.

(** Asks for one effect, then completes with one event. *)
Definition plugin (recovery : EffectRecovery) : LoopPlugin := {|
  decide_ i := match li_effect_batch i with
               | None => Ok (InvokeEffects (ckpt "asked")
                   [{| er_binding := "tool"; er_request := "req"; er_recovery := recovery |}])
               | Some _ => Ok (Complete (ckpt "done") [{| kind := "reply"; payload := "hi" |}])
               end;
  plugin_abandon _ := Ok {| ab_checkpoint := ckpt "abandoned"; ab_events := [] |};
  plugin_cancel _ := Ok {| ct_checkpoint := ckpt "cancelled";
                           ct_events := [{| kind := "stopped"; payload := "" |}] |} |}.

Definition binding (recovery : EffectRecovery) : LoopBinding :=
  {| lb_name := "loop"; lb_revision := "1"; lb_plugin := plugin recovery |}.
Definition tool : EffectBinding unit :=
  {| eb_name := "tool"; eb_revision := "7"; eb_adapter := tt |}.
Definition manifest : RuntimeManifest :=
  {| loop_binding := "loop"; loop_revision := "1"; checkpoint_schema_version := 1;
     effect_bindings := {["tool" := "7"]}; config_digest := "cfg" |}.
Definition runtime (recovery : EffectRecovery) : Runtime unit :=
  {| rt_manifest := manifest; rt_plugin := plugin recovery;
     rt_effects := {["tool" := tool]} |}.

(** No interference and no failure; the adapter answers [answer]. *)
Definition env (answer : nat → EffectCompletion) : Environment unit := {|
  interfere _ db := db; io_failure _ := None;
  invoke n _ _ := Ok (answer n); completion_order _ l := l;
  new_event_id n z := MkId (1000 * N.of_nat n + Z.to_N z);
  new_batch_id n := MkId (N.of_nat n);
  new_effect_id n z := MkId (1000 * N.of_nat n + Z.to_N z);
  executor_available := true |}.

(** The database with the session and two admitted commands. *)
Definition step {A} (m : Tx A) (db : Database) : Database := (immediate m db).2.

Definition session_db : Database :=
  step (create_session session agent) (step (create_agent agent) empty_database).
Definition first_db : Database := step (submit op1 session (cmd 21 "first")) session_db.
Definition setup_db : Database := step (submit op2 session (cmd 22 "second")) first_db.

Definition world (clock : nat) (db : Database) : World :=
  {| w_db := db; w_running := ∅; w_clock := clock; w_trace := [] |}.
End Scenario.
