(* ===== verification/Invariant.v ===== *)
(** * The durable invariant

    What every database the kernel writes satisfies. [Static] is the relational
    structure (references, numbering without gaps, decodable documents);
    [op_inv] ties the phase of an operation to its columns and to the states of
    its effects; [session_inv] is ownership and order of a session's
    operations; [cancel_inv] is what a committed cancellation request implies. *)
From S2P Require Import Prelude Json State Schema SchemaFacts Admission OperationStore.
Section invariant.
Context `{KS : KernelSerde}.
Implicit Types (db : Database) (o : OperationRow) (e : EffectRow).

Definition decodes {A} `{!Serde A} (t : Text) (a : A) : Prop := from_str t = Some a.

(** ** Effects of an operation *)
Definition owns db (id : OperationId) (b : EffectBatchId) : Prop :=
  ∃ r, effect_batches db !! b = Some r ∧ b_operation_id r = id.

Definition children db (b : EffectBatchId) (P : EffectRow → Prop) : Prop :=
  ∀ k e, effects db !! k = Some e → e_batch_id e = b → P e.

Definition settled e : Prop := e_status e = "settled".

(** Every batch of [id] other than [open] has only settled children. *)
Definition settled_except db (id : OperationId) (open : option EffectBatchId) : Prop :=
  ∀ b, owns db id b → open ≠ Some b → children db b settled.

(** The states of the children of the batch an operation is working on. *)
Definition batch_shape (p : OperationPhase) db (b : EffectBatchId) : Prop :=
  match p with
  | EffectIntent => children db b (λ e, e_status e = "intent_committed")
  | EffectDispatched => children db b (λ e, e_status e ≠ "intent_committed")
  | OutcomeUnknown =>
      children db b (λ e, e_status e = "settled" ∨ e_status e = "outcome_unknown") ∧
      ∃ k e, effects db !! k = Some e ∧ e_batch_id e = b ∧ e_status e = "outcome_unknown"
  | _ => False
  end.

Definition terminal_outcome (p : OperationPhase) (x : OperationOutcome) : Prop :=
  match p, x with
  | Waiting, WaitingForInput | Completed, OutcomeCompleted
  | Failed, OutcomeFailed _ | Cancelled, OutcomeCancelled => True
  | _, _ => False
  end.

(** Columns and effects of an operation in phase [p]. *)
Definition op_shape db (id : OperationId) o (p : OperationPhase) : Prop :=
  match p with
  | Queued =>
      o_manifest_json o = None ∧ o_checkpoint_json o = None ∧
      o_current_effect_batch_id o = None ∧ o_input_effect_batch_id o = None ∧
      o_outcome_json o = None ∧ o_next_effect_batch_position o = 0
  | NeedDecision =>
      is_Some (o_manifest_json o) ∧ o_current_effect_batch_id o = None ∧
      o_outcome_json o = None ∧ settled_except db id None ∧
      (∀ b, o_input_effect_batch_id o = Some b → owns db id b)
  | EffectIntent | EffectDispatched | OutcomeUnknown =>
      is_Some (o_manifest_json o) ∧ is_Some (o_checkpoint_json o) ∧
      o_input_effect_batch_id o = None ∧ o_outcome_json o = None ∧
      ∃ b, o_current_effect_batch_id o = Some b ∧ owns db id b ∧ batch_shape p db b ∧
           settled_except db id (Some b)
  | Waiting | Completed | Failed | Cancelled =>
      is_Some (o_manifest_json o) ∧ is_Some (o_checkpoint_json o) ∧
      o_current_effect_batch_id o = None ∧ o_input_effect_batch_id o = None ∧
      (∃ t x, o_outcome_json o = Some t ∧ decodes t x ∧ terminal_outcome p x) ∧
      ∃ open, settled_except db id open ∧
        match open with
        | None => True
        | Some b => owns db id b ∧ (p = Failed ∧ batch_shape OutcomeUnknown db b ∨
                                    p = Cancelled ∧ (batch_shape EffectIntent db b ∨
                                                     batch_shape OutcomeUnknown db b))
        end
  end.

(** One effect of an operation: documents, dispatch count, and the release of
    its request, which happens exactly when the operation has an outcome and
    the whole batch settled. *)
Definition effect_inv db o e : Prop :=
  (∃ tm m, o_manifest_json o = Some tm ∧ decodes tm m ∧
     effect_bindings m !! e_binding e = Some (e_binding_revision e)) ∧
  (∀ t, e_request_json e = Some t → ∃ v : Value, decodes t v) ∧
  (∀ t, e_outcome_json e = Some t → ∃ x : EffectOutcome, decodes t x) ∧
  (e_status e = "intent_committed" → e_dispatch_count e = 0) ∧
  (e_status e ≠ "intent_committed" → 1 ≤ e_dispatch_count e) ∧
  (e_recovery e = "never_replay" → e_dispatch_count e ≤ 1) ∧
  (e_request_json e = None ↔
     is_Some (o_outcome_json o) ∧ children db (e_batch_id e) settled).

(** The documents of an operation. *)
Definition op_documents o : Prop :=
  (∀ tm, o_manifest_json o = Some tm → ∃ m : RuntimeManifest, decodes tm m) ∧
  (∀ tc, o_checkpoint_json o = Some tc →
     ∃ tm m c, o_manifest_json o = Some tm ∧ decodes tm m ∧ decodes tc c ∧
       schema_version c = checkpoint_schema_version m).

Definition op_inv db (id : OperationId) o : Prop :=
  (∃ p, o_phase o = as_str p ∧ op_shape db id o p) ∧
  op_documents o ∧
  (∀ k e, effects db !! k = Some e → owns db id (e_batch_id e) → effect_inv db o e).

(** ** Sessions *)
Definition active_phase o : bool :=
  match from_database (o_phase o) with Ok p => is_cancellable p | Err _ => false end.
Definition queued o : bool := String.eqb (o_phase o) "queued".

Definition session_inv db (s : SessionId) (r : SessionRow) : Prop :=
  (∀ id, s_active_operation_id r = Some id ↔
     ∃ o, operations db !! id = Some o ∧ o_session_id o = s ∧ active_phase o = true) ∧
  (∀ id1 o1 id2 o2, operations db !! id1 = Some o1 → operations db !! id2 = Some o2 →
     o_session_id o1 = s → o_session_id o2 = s → o_position o1 < o_position o2 →
     queued o1 = true → queued o2 = true).

(** ** Structure *)
Record Static db : Prop := {
  st_installed : release_installed db = true;
  st_session_checks : ∀ s r, sessions db !! s = Some r → session_checks r = true;
  st_operation_checks : ∀ k r, operations db !! k = Some r →
    operation_checks r = true ∧ o_state_version r = OPERATION_STATE_VERSION;
  st_event_checks : ∀ k r, semantic_events db !! k = Some r → event_checks r = true;
  st_batch_checks : ∀ k r, effect_batches db !! k = Some r → batch_checks r = true;
  st_effect_checks : ∀ k r, effects db !! k = Some r → effect_checks r = true;
  st_session_agent : ∀ s r, sessions db !! s = Some r → s_agent_id r ∈ agents db;
  st_command : ∀ c r, commands db !! c = Some r →
    is_Some (sessions db !! c_session_id r) ∧
    (∃ x : Command, decodes (c_content_json r) x ∧ command_id x = c) ∧
    (∃ id o, operations db !! id = Some o ∧ o_command_id o = c);
  st_operation : ∀ id o, operations db !! id = Some o →
    is_Some (sessions db !! o_session_id o) ∧
    (∃ c, commands db !! o_command_id o = Some c ∧ c_session_id c = o_session_id o);
  st_command_inj : ∀ id1 o1 id2 o2, operations db !! id1 = Some o1 →
    operations db !! id2 = Some o2 → o_command_id o1 = o_command_id o2 → id1 = id2;
  st_positions : ∀ s r, sessions db !! s = Some r →
    gapless (operations db) (λ o, o_session_id o = s) o_position (s_next_command_position r);
  st_event : ∀ k v, semantic_events db !! k = Some v →
    is_Some (sessions db !! ev_session_id v) ∧
    (∃ o, operations db !! ev_operation_id v = Some o ∧ o_session_id o = ev_session_id v) ∧
    (∃ x : Value, decodes (ev_payload_json v) x);
  st_sequences : ∀ s r, sessions db !! s = Some r →
    gapless (semantic_events db) (λ v, ev_session_id v = s) ev_sequence
      (s_next_event_sequence r);
  st_batch : ∀ b r, effect_batches db !! b = Some r →
    is_Some (operations db !! b_operation_id r) ∧
    ∃ n, 0 < n ∧ gapless (effects db) (λ e, e_batch_id e = b) e_position n;
  st_batch_positions : ∀ id o, operations db !! id = Some o →
    gapless (effect_batches db) (λ r, b_operation_id r = id) b_position
      (o_next_effect_batch_position o);
  st_effect : ∀ k e, effects db !! k = Some e → is_Some (effect_batches db !! e_batch_id e);
}.

Definition cancel_inv db : Prop :=
  ∀ k c, cancellation_requests db !! k = Some c →
    ∃ o, operations db !! k_operation_id c = Some o ∧ o_session_id o = k_session_id c ∧
         (o_outcome_json o = None ∨ o_phase o = "cancelled").

Record Inv db : Prop := {
  inv_static : Static db;
  inv_ops : ∀ id o, operations db !! id = Some o → op_inv db id o;
  inv_sessions : ∀ s r, sessions db !! s = Some r → session_inv db s r;
  inv_cancel : cancel_inv db;
}.

(** ** The empty database *)
Lemma Inv_empty : Inv empty_database.
Proof.
  split; [split|..]; try (intros ??; cbn; rewrite lookup_empty; done). done.
Qed.

(** ** Facts about phases *)
Lemma phase_of db id o : op_inv db id o → ∃ p, o_phase o = as_str p ∧ op_shape db id o p.
Proof. by intros [? _]. Qed.

Lemma active_phase_as_str o p : o_phase o = as_str p → active_phase o = is_cancellable p.
Proof. intros E. unfold active_phase. by rewrite E, from_database_as_str. Qed.

Lemma queued_as_str o p : o_phase o = as_str p → queued o = bool_decide (p = Queued).
Proof. intros E. unfold queued. rewrite E. by destruct p. Qed.

Lemma op_shape_at db id o p :
  op_inv db id o → o_phase o = as_str p → op_shape db id o p.
Proof.
  intros [(q & Eq & Hq) _] Ep. rewrite Eq in Ep. by destruct p, q.
Qed.

(** An operation has an outcome exactly in its terminal phases. *)
Lemma outcome_none_iff db id o p :
  op_inv db id o → o_phase o = as_str p →
  o_outcome_json o = None ↔ (p = Queued ∨ is_cancellable p = true).
Proof.
  intros HI Ep. pose proof (op_shape_at _ _ _ _ HI Ep) as HS.
  destruct p; cbn in *; naive_solver.
Qed.

Lemma owns_inj db id1 id2 b : owns db id1 b → owns db id2 b → id1 = id2.
Proof. intros (r1 & ? & ?) (r2 & ? & ?). naive_solver. Qed.

Lemma owns_dec db id b : Decision (owns db id b).
Proof.
  destruct (batch_of_operation db id b) eqn:E.
  - left. by apply batch_of_operation_spec.
  - right. intros H. apply batch_of_operation_spec in H. congruence.
Qed.

Lemma cancellation_requested_spec db id :
  cancellation_requested id db = true ↔
  ∃ k c, cancellation_requests db !! k = Some c ∧ k_operation_id c = id.
Proof.
  unfold cancellation_requested. rewrite tbl_exists_spec.
  setoid_rewrite bool_decide_eq_true. done.
Qed.
End invariant.

(** * Preserving the invariant: structure and frames

    [Static_update] covers every transaction that rewrites columns without
    changing the relational structure; [op_inv_frame] says that an operation
    depends only on its own batches and effects; [Inv_transition] combines them
    for a transaction that moves one operation. *)
Section preservation.
Context `{KS : KernelSerde}.
Implicit Types (db : Database) (o : OperationRow) (e : EffectRow).

Definition session_static (r r' : SessionRow) : Prop :=
  s_agent_id r = s_agent_id r' ∧ s_next_command_position r = s_next_command_position r' ∧
  s_next_event_sequence r = s_next_event_sequence r'.
Definition op_static o o' : Prop :=
  o_session_id o = o_session_id o' ∧ o_command_id o = o_command_id o' ∧
  o_position o = o_position o' ∧ o_state_version o = o_state_version o' ∧
  o_next_effect_batch_position o = o_next_effect_batch_position o'.
Definition effect_static e e' : Prop :=
  e_batch_id e = e_batch_id e' ∧ e_position e = e_position e' ∧ e_binding e = e_binding e' ∧
  e_binding_revision e = e_binding_revision e' ∧ e_recovery e = e_recovery e'.

Definition same_place o o' : Prop :=
  o_session_id o = o_session_id o' ∧ o_position o = o_position o'.
Lemma op_static_place o o' : op_static o o' → same_place o o'.
Proof. by intros (? & _ & ? & _). Qed.

Lemma session_static_refl r : session_static r r.
Proof. done. Qed.
Lemma op_static_refl o : op_static o o.
Proof. done. Qed.
Lemma effect_static_refl e : effect_static e e.
Proof. done. Qed.

Record UpdateOnly db db' : Prop := {
  uo_agents : agents db' = agents db;
  uo_commands : commands db' = commands db;
  uo_events : semantic_events db' = semantic_events db;
  uo_batches : effect_batches db' = effect_batches db;
  uo_cancellations : cancellation_requests db' = cancellation_requests db;
  uo_installed : release_installed db' = release_installed db;
  uo_sessions : same_rows session_static (sessions db) (sessions db');
  uo_operations : same_rows op_static (operations db) (operations db');
  uo_effects : same_rows effect_static (effects db) (effects db');
  uo_session_checks : ∀ k r, sessions db' !! k = Some r → session_checks r = true;
  uo_operation_checks : ∀ k r, operations db' !! k = Some r → operation_checks r = true;
  uo_effect_checks : ∀ k r, effects db' !! k = Some r → effect_checks r = true;
}.

Lemma Static_update db db' : Static db → UpdateOnly db db' → Static db'.
Proof.
  intros HS HU. destruct HU as [Ha Hc Hv Hb Hk Hi Us Uo Ue Cs Co Ce].
  split; rewrite ?Ha, ?Hc, ?Hv, ?Hb, ?Hi; try apply HS; try done.
  - intros k r Hr. split; [eauto|].
    destruct (same_rows_back _ _ _ _ _ Uo Hr) as (r0 & Hr0 & _ & _ & _ & Hsv & _).
    rewrite <- Hsv. by eapply st_operation_checks.
  - intros s r Hr. destruct (same_rows_back _ _ _ _ _ Us Hr) as (r0 & Hr0 & <- & _).
    by eapply st_session_agent.
  - intros c r Hr. destruct (st_command _ HS c r Hr) as (H1 & H2 & id & o & Ho & Hoc).
    split_and!; [by apply (same_rows_is_Some _ _ _ _ Us)|done|].
    destruct (same_rows_forth _ _ _ _ _ Uo Ho) as (o' & Ho' & _ & Hc' & _).
    exists id, o'. by rewrite <- Hc'.
  - intros id o Ho. destruct (same_rows_back _ _ _ _ _ Uo Ho) as (o0 & Ho0 & <- & <- & _).
    destruct (st_operation _ HS _ _ Ho0). split; [|done]. by apply (same_rows_is_Some _ _ _ _ Us).
  - intros id1 o1 id2 o2 H1 H2 E.
    destruct (same_rows_back _ _ _ _ _ Uo H1) as (p1 & P1 & _ & E1 & _).
    destruct (same_rows_back _ _ _ _ _ Uo H2) as (p2 & P2 & _ & E2 & _).
    eapply (st_command_inj _ HS id1 p1 id2 p2); congruence.
  - intros s r Hr. destruct (same_rows_back _ _ _ _ _ Us Hr) as (r0 & Hr0 & _ & <- & _).
    eapply same_rows_gapless; [|exact Uo|by eapply st_positions].
    intros v v' (-> & _ & -> & _). done.
  - intros k v Hk'. destruct (st_event _ HS k v Hk') as (H1 & (o & Ho & Hos) & H3).
    split_and!; [by apply (same_rows_is_Some _ _ _ _ Us)| |done].
    destruct (same_rows_forth _ _ _ _ _ Uo Ho) as (o' & Ho' & Hss & _). exists o'. by rewrite <- Hss.
  - intros s r Hr. destruct (same_rows_back _ _ _ _ _ Us Hr) as (r0 & Hr0 & _ & _ & <-).
    by eapply st_sequences.
  - intros b r Hbr. destruct (st_batch _ HS b r Hbr) as (H1 & n & Hn & HG).
    split; [by apply (same_rows_is_Some _ _ _ _ Uo)|]. exists n. split; [done|].
    eapply same_rows_gapless; [|exact Ue|exact HG]. intros v v' (-> & -> & _). done.
  - intros id o Ho. destruct (same_rows_back _ _ _ _ _ Uo Ho) as (o0 & Ho0 & _ & _ & _ & _ & <-).
    by eapply st_batch_positions.
  - intros k e He. destruct (same_rows_back _ _ _ _ _ Ue He) as (e0 & He0 & <- & _).
    by eapply st_effect.
Qed.

(** ** Frames *)

(** [db'] differs from [db] at most in the batches and effects of [id]. *)
Definition frame_effects (id : OperationId) db db' : Prop :=
  (∀ b r, b_operation_id r ≠ id →
     effect_batches db !! b = Some r ↔ effect_batches db' !! b = Some r) ∧
  (∀ j k e, j ≠ id → owns db j (e_batch_id e) →
     effects db !! k = Some e ↔ effects db' !! k = Some e).

Lemma frame_owns id db db' j b :
  frame_effects id db db' → j ≠ id → owns db j b ↔ owns db' j b.
Proof. intros [HB _] Hj. split; intros (r & Hr & <-); exists r; split; try done; by apply HB. Qed.

Lemma frame_children id db db' j b P :
  frame_effects id db db' → j ≠ id → owns db j b → children db b P ↔ children db' b P.
Proof.
  intros HF Hj Ho. pose proof HF as [_ HE].
  split; intros HC k e He Hb; apply (HC k e); try done; apply (HE j); by subst.
Qed.

Lemma frame_settled_except id db db' j open :
  frame_effects id db db' → j ≠ id → settled_except db j open → settled_except db' j open.
Proof.
  intros HF Hj HS b Hb Hne. rewrite <- (frame_owns id db) in Hb by done.
  rewrite <- (frame_children id db) by done. by apply HS.
Qed.

Lemma frame_batch_shape id db db' j p b :
  frame_effects id db db' → j ≠ id → owns db j b → batch_shape p db b → batch_shape p db' b.
Proof.
  intros HF Hj Ho. pose proof HF as [_ HE]. destruct p; cbn; try done.
  - by rewrite (frame_children id db db').
  - by rewrite (frame_children id db db').
  - rewrite (frame_children id db db' j) by done. intros [? (k & e & He & Hb & ?)].
    split; [done|]. exists k, e. split; [|done]. apply (HE j); by subst.
Qed.

Lemma frame_op_shape id db db' j o p :
  frame_effects id db db' → j ≠ id → op_shape db j o p → op_shape db' j o p.
Proof.
  intros HF Hj. pose proof (frame_owns id db db' j) as HO.
  destruct p; cbn; try done.
  - intros (? & ? & ? & HS & Hin). split_and!; try done.
    + by eapply frame_settled_except.
    + intros b Hb. apply HO; auto.
  - intros (? & ? & ? & ? & b & ? & ? & ? & ?). split_and!; try done. exists b.
    split_and!; [done|by apply HO| |by eapply frame_settled_except].
    by eapply (frame_batch_shape id db db' j EffectIntent).
  - intros (? & ? & ? & ? & b & ? & ? & ? & ?). split_and!; try done. exists b.
    split_and!; [done|by apply HO| |by eapply frame_settled_except].
    by eapply (frame_batch_shape id db db' j EffectDispatched).
  - intros (? & ? & ? & ? & b & ? & ? & ? & ?). split_and!; try done. exists b.
    split; [done|]. split; [by apply HO|]. split; [|by eapply frame_settled_except].
    by eapply (frame_batch_shape id db db' j OutcomeUnknown).
  - intros (? & ? & ? & ? & ? & open & ? & Hop). split_and!; try done. exists open.
    split; [by eapply frame_settled_except|]. destruct open; [|done].
    destruct Hop as [? [[??]|[? _]]]; done.
  - intros (? & ? & ? & ? & ? & open & ? & Hop). split_and!; try done. exists open.
    split; [by eapply frame_settled_except|]. destruct open; [|done].
    destruct Hop as [? [[??]|[? _]]]; done.
  - intros (? & ? & ? & ? & ? & open & ? & Hop). split_and!; try done. exists open.
    split; [by eapply frame_settled_except|]. destruct open; [|done].
    destruct Hop as [? [[? HB]|[? _]]]; [|done]. split; [by apply HO|]. left. split; [done|].
    by eapply (frame_batch_shape id db db' j OutcomeUnknown).
  - intros (? & ? & ? & ? & ? & open & ? & Hop). split_and!; try done. exists open.
    split; [by eapply frame_settled_except|]. destruct open; [|done].
    destruct Hop as [? [[? HB]|[? [HB|HB]]]]; [done|..]; (split; [by apply HO|]); right;
      (split; [done|]).
    + left. by eapply (frame_batch_shape id db db' j EffectIntent).
    + right. by eapply (frame_batch_shape id db db' j OutcomeUnknown).
Qed.

Lemma op_inv_frame id db db' j o :
  frame_effects id db db' → j ≠ id → op_inv db j o → op_inv db' j o.
Proof.
  intros HF Hj ((p & Ep & Hp) & HD & HE). split_and!; [|done|].
  - exists p. split; [done|]. by eapply frame_op_shape.
  - intros k e He Ho. rewrite <- (frame_owns id db) in Ho by done.
    apply (proj2 HF j) in He; [|done..].
    destruct (HE k e He Ho) as (? & ? & ? & ? & ? & ? & HR). split_and!; try done.
    by rewrite <- (frame_children id db) by done.
Qed.

(** Tables other than [effect_batches] and [effects] do not matter. *)
Lemma op_inv_ext db db' j o :
  effect_batches db' = effect_batches db → effects db' = effects db →
  op_inv db j o → op_inv db' j o.
Proof.
  intros Hb He. unfold op_inv, op_shape, effect_inv, settled_except, batch_shape, children, owns.
  by rewrite Hb, He.
Qed.

(** ** Sessions *)
Lemma session_inv_ext db db' s r :
  operations db' = operations db → session_inv db s r → session_inv db' s r.
Proof. unfold session_inv. by intros ->. Qed.

(** Moving an operation of another session. *)
Lemma session_inv_other db db' s r id o o' :
  operations db !! id = Some o → operations db' = <[id := o']> (operations db) →
  same_place o o' → o_session_id o ≠ s → session_inv db s r → session_inv db' s r.
Proof.
  intros Ho E [Hs _] Hne [HA HF]. split.
  - intros j. rewrite HA, E. split; intros (x & Hx & Hxs & Hxa).
    + exists x. rewrite lookup_insert_ne by (intros <-; naive_solver). done.
    + apply lookup_insert_Some in Hx as [[<- <-]|[? ?]]; [congruence|eauto].
  - intros j1 x1 j2 x2. rewrite E.
    intros [[<- <-]|[? ?]]%lookup_insert_Some [[<- <-]|[? ?]]%lookup_insert_Some; try congruence.
    by apply (HF j1 x1 j2 x2).
Qed.

(** Moving the active operation between active phases. *)
Lemma session_inv_stay db db' r id o o' :
  operations db !! id = Some o → operations db' = <[id := o']> (operations db) →
  same_place o o' → active_phase o = active_phase o' → queued o = queued o' →
  session_inv db (o_session_id o) r → session_inv db' (o_session_id o) r.
Proof.
  intros Ho E (Hs & Hp) Ha Hq [HA HF]. split.
  - intros j. rewrite HA, E. destruct (decide (id = j)) as [<-|].
    + rewrite lookup_insert_eq, Ho. split; intros (x & [= <-] & ? & ?);
        eexists; split; [done| |done|]; split; congruence.
    + by rewrite lookup_insert_ne.
  - intros j1 x1 j2 x2. rewrite E.
    intros [[<- <-]|[? ?]]%lookup_insert_Some [[<- <-]|[? ?]]%lookup_insert_Some ?? Hlt Hqq.
    + done.
    + apply (HF id o j2 x2); try done; lia || congruence.
    + rewrite <- Hq. apply (HF j1 x1 id o); try done; lia || congruence.
    + by apply (HF j1 x1 j2 x2).
Qed.

(** Ending the active operation. *)
Lemma session_inv_end db db' r id o o' :
  operations db !! id = Some o → operations db' = <[id := o']> (operations db) →
  same_place o o' → active_phase o = true → active_phase o' = false →
  queued o = false → queued o' = false →
  session_inv db (o_session_id o) r → session_inv db' (o_session_id o) (set_active None r).
Proof.
  intros Ho E (Hs & Hp) Ha Ha' Hq Hq' [HA HF]. split.
  - intros j. cbn. split; [done|]. rewrite E. intros (x & Hx & Hxs & Hxa).
    apply lookup_insert_Some in Hx as [[<- <-]|[? Hx]]; [congruence|].
    assert (s_active_operation_id r = Some j) by (apply HA; eauto).
    assert (s_active_operation_id r = Some id) by (apply HA; eauto). congruence.
  - intros j1 x1 j2 x2. rewrite E.
    intros [[<- <-]|[? ?]]%lookup_insert_Some [[<- <-]|[? ?]]%lookup_insert_Some ?? Hlt Hqq;
      try congruence.
    + assert (queued o = true); [|congruence].
      apply (HF j1 x1 id o); try done; lia || congruence.
    + by apply (HF j1 x1 j2 x2).
Qed.

(** Activating the first queued operation of an idle session. *)
Lemma session_inv_begin db db' r id o o' :
  operations db !! id = Some o → operations db' = <[id := o']> (operations db) →
  same_place o o' → active_phase o' = true → queued o' = false →
  s_active_operation_id r = None →
  (∀ j x, operations db !! j = Some x → o_session_id x = o_session_id o →
     queued x = true → o_position o ≤ o_position x) →
  session_inv db (o_session_id o) r → session_inv db' (o_session_id o) (set_active (Some id) r).
Proof.
  intros Ho E (Hs & Hp) Ha' Hq' Hn Hmin [HA HF]. split.
  - intros j. cbn. rewrite E. split.
    + intros [= <-]. exists o'. rewrite lookup_insert_eq. by rewrite <- Hs.
    + intros (x & Hx & Hxs & Hxa). apply lookup_insert_Some in Hx as [[<- <-]|[? Hx]]; [done|].
      assert (s_active_operation_id r = Some j) by (apply HA; eauto). congruence.
  - intros j1 x1 j2 x2. rewrite E.
    intros [[<- <-]|[? ?]]%lookup_insert_Some [[<- <-]|[? ?]]%lookup_insert_Some ?? Hlt Hqq;
      try congruence.
    + assert (o_position o ≤ o_position x1) by eauto. lia.
    + by apply (HF j1 x1 j2 x2).
Qed.

(** ** One operation moves *)
Lemma Inv_transition db db' id o o' :
  Inv db → Static db' →
  operations db !! id = Some o → operations db' = <[id := o']> (operations db) →
  o_session_id o' = o_session_id o →
  frame_effects id db db' → op_inv db' id o' →
  (∀ s, s ≠ o_session_id o → sessions db' !! s = sessions db !! s) →
  (∀ s r, s ≠ o_session_id o → session_inv db s r → session_inv db' s r) →
  (∀ r', sessions db' !! o_session_id o = Some r' → session_inv db' (o_session_id o) r') →
  cancellation_requests db' = cancellation_requests db →
  (cancellation_requested id db = true → o_outcome_json o' = None ∨ o_phase o' = "cancelled") →
  Inv db'.
Proof.
  intros HI HS Ho E Hs HF Hop Hother Hso Hown Hk Hc. split; [done|..].
  - intros j x. rewrite E. intros [[<- <-]|[Hne Hx]]%lookup_insert_Some; [done|].
    eapply op_inv_frame; [exact HF|congruence|]. by apply (inv_ops _ HI).
  - intros s r Hr. destruct (decide (s = o_session_id o)) as [->|Hne]; [by apply Hown|].
    rewrite Hother in Hr by done. apply Hso; [done|]. by apply (inv_sessions _ HI).
  - intros k c Hkc. rewrite Hk in Hkc.
    destruct (inv_cancel _ HI k c Hkc) as (x & Hx & Hxs & Hxo). rewrite E.
    destruct (decide (id = k_operation_id c)) as [->|].
    + exists o'. rewrite lookup_insert_eq. split_and!; [done|congruence|].
      apply Hc. apply cancellation_requested_spec. eauto.
    + exists x. by rewrite lookup_insert_ne.
Qed.
End preservation.
