(* ===== verification/AdmissionInv.v ===== *)
(** * Admission, history and the moves of one operation keep the invariant *)
From S2P Require Import Prelude Json State Schema SchemaFacts Admission OperationStore Cancellation Invariant.
Section admission_inv.
Context `{KS : KernelSerde} `{!KernelSerdeLaws}.
Implicit Types (db : Database) (o : OperationRow) (e : EffectRow).

Lemma encode_decodes {A} `{!Serde A} `{!SerdeLaws A} (a : A) t :
  encode_json a = Ok t → decodes t a.
Proof. unfold encode_json. rewrite ok_or_ok. apply from_to_string. Qed.

(** ** Agents and sessions *)
Lemma create_agent_inv a db u db' : Inv db → create_agent a db = Ok (u, db') → Inv db'.
Proof.
  intros HI E. unfold create_agent, insert_agent in E. inv_tx.
  destruct HI as [HS HO HSe HC]. split.
  - split; try apply HS. intros s r Hr. cbn.
    apply elem_of_union_r. by eapply st_session_agent.
  - intros id o Ho. eapply op_inv_ext; [..|by apply HO]; done.
  - intros s r Hr. eapply session_inv_ext; [|by apply HSe]. done.
  - done.
Qed.

Lemma gapless_none {K V} `{Countable K} (m : gmap K V) (P : V → Prop) num :
  (∀ k v, m !! k = Some v → ¬ P v) → gapless m P num 0.
Proof.
  intros HN. split.
  - intros k1 v1 k2 v2 H1 _ P1. by destruct (HN _ _ H1).
  - intros p. split; [lia|]. intros (k & v & Hk & HP & _). by destruct (HN _ _ Hk).
Qed.

Lemma create_session_inv s a db u db' : Inv db → create_session s a db = Ok (u, db') → Inv db'.
Proof.
  intros HI E. unfold create_session in E. inv_tx.
  destruct (sessions db !! s) as [r|] eqn:Er; cbn in *.
  { case_decide; inv_tx; done. }
  inv_tx. case_bool_decide; inv_tx.
  destruct HI as [HS HO HSe HC].
  assert (∀ k o, operations db !! k = Some o → o_session_id o ≠ s) as Hno.
  { intros k o Ho Heq. destruct (st_operation _ HS _ _ Ho) as [[? ?] _]. congruence. }
  split.
  - split; try apply HS.
    + intros s' r'. cbn. intros [[<- <-]|[? ?]]%lookup_insert_Some; [done|].
      by eapply st_session_checks.
    + intros s' r'. cbn. intros [[<- <-]|[? ?]]%lookup_insert_Some; [done|].
      by eapply st_session_agent.
    + intros c r Hr. destruct (st_command _ HS c r Hr) as (? & ? & ?). split; [|done].
      cbn. rewrite lookup_insert_is_Some. destruct (decide (s = c_session_id r)); auto.
    + intros id o Ho. destruct (st_operation _ HS id o Ho) as (? & ?). split; [|done].
      cbn. rewrite lookup_insert_is_Some. destruct (decide (s = o_session_id o)); auto.
    + intros s' r'. cbn. intros [[<- <-]|[? ?]]%lookup_insert_Some; [|by eapply st_positions].
      apply gapless_none. eauto.
    + intros k v Hv. destruct (st_event _ HS k v Hv) as (? & ?). split; [|done].
      cbn. rewrite lookup_insert_is_Some. destruct (decide (s = ev_session_id v)); auto.
    + intros s' r'. cbn. intros [[<- <-]|[? ?]]%lookup_insert_Some; [|by eapply st_sequences].
      apply gapless_none. intros k v Hv <-.
      destruct (st_event _ HS k v Hv) as [[? ?] _]. congruence.
  - intros id o Ho. eapply op_inv_ext; [..|by apply HO]; done.
  - intros s' r'. cbn. intros [[<- <-]|[? ?]]%lookup_insert_Some.
    + split; cbn.
      * intros id. split; [done|]. intros (o & Ho & Hos & _). by destruct (Hno _ _ Ho).
      * intros ? ? ? ? L1 ? Hs1. by destruct (Hno _ _ L1).
    + eapply session_inv_ext; [|by apply HSe]. done.
  - done.
Qed.

(** ** Commands *)
Lemma queued_op_inv db id s c p :
  (∀ b, ¬ owns db id b) → op_inv db id (queued_operation s c p).
Proof.
  intros Hno. split_and!.
  - exists Queued. done.
  - split; cbn; done.
  - intros k e He Ho. by destruct (Hno (e_batch_id e)).
Qed.

Definition admitted_db (db : Database) (id : OperationId) (s : SessionId) (c : CommandId)
    (content : Text) (r : SessionRow) : Database :=
  with_sessions (<[s := bump_position r]> (sessions db))
    (with_operations (<[id := queued_operation s c (s_next_command_position r)]> (operations db))
      (with_commands (<[c := MkCommand s content]> (commands db)) db)).

Lemma admitted_inv db id s cmd content r :
  Inv db → encode_json cmd = Ok content → sessions db !! s = Some r →
  commands db !! command_id cmd = None → operations db !! id = None →
  operation_checks (queued_operation s (command_id cmd) (s_next_command_position r)) = true →
  session_checks (bump_position r) = true →
  Inv (admitted_db db id s (command_id cmd) content r).
Proof.
  intros [HS HO HSe HC] Ecmd Hr Hc Hid Hoc Hsc. set (c := command_id cmd) in *.
  assert (∀ k o, operations db !! k = Some o → o_command_id o ≠ c) as Hnew.
  { intros k o Ho Heq. destruct (st_operation _ HS _ _ Ho) as [_ (x & Hx & _)]. congruence. }
  assert (∀ b, ¬ owns db id b) as Hnb.
  { intros b (x & Hx & Hxo). destruct (st_batch _ HS _ _ Hx) as [[? ?] _]. congruence. }
  assert (∀ x, is_Some (sessions db !! x) →
            is_Some (sessions (admitted_db db id s c content r) !! x)) as Hsess.
  { intros x ?. cbn. rewrite lookup_insert_is_Some. destruct (decide (s = x)); auto. }
  assert (0 ≤ s_next_command_position r) as Hpos.
  { pose proof (st_session_checks _ HS _ _ Hr) as Hch. unfold session_checks in Hch.
    split_bools. lia. }
  split.
  - split; try apply HS.
    + intros s' r'. cbn. intros [[<- <-]|[? ?]]%lookup_insert_Some; [done|].
      by eapply st_session_checks.
    + intros k x. cbn. intros [[<- <-]|[? ?]]%lookup_insert_Some; [done|].
      by eapply st_operation_checks.
    + intros s' r'. cbn. intros [[<- <-]|[? ?]]%lookup_insert_Some.
      * by apply (st_session_agent _ HS s r).
      * by eapply st_session_agent.
    + intros c' x. cbn. intros [[<- <-]|[? Hx]]%lookup_insert_Some.
      * split_and!; [apply Hsess; cbn; eauto| |].
        -- exists cmd. split; [by apply encode_decodes|done].
        -- exists id, (queued_operation s c (s_next_command_position r)).
           by rewrite lookup_insert_eq.
      * destruct (st_command _ HS c' x Hx) as (? & ? & j & y & Hy & ?).
        split_and!; [by apply Hsess|done|]. exists j, y.
        rewrite lookup_insert_ne by congruence. done.
    + intros j x. cbn. intros [[<- <-]|[? Hx]]%lookup_insert_Some.
      * split; [apply Hsess; cbn; eauto|]. exists (MkCommand s content).
        cbn. by rewrite lookup_insert_eq.
      * destruct (st_operation _ HS j x Hx) as (? & y & Hy & ?). split; [by apply Hsess|].
        exists y. rewrite lookup_insert_ne by congruence. done.
    + intros j1 x1 j2 x2. cbn.
      intros [[<- <-]|[? L1]]%lookup_insert_Some [[<- <-]|[? L2]]%lookup_insert_Some Heq; try done.
      * by destruct (Hnew _ _ L2).
      * by destruct (Hnew _ _ L1).
      * by apply (st_command_inj _ HS j1 x1 j2 x2).
    + intros s' r'. cbn. intros [[<- <-]|[? ?]]%lookup_insert_Some.
      * apply gapless_insert_next; try done. by apply (st_positions _ HS s r).
      * apply gapless_insert_other; [done|cbn; congruence|]. by eapply st_positions.
    + intros k v Hv. destruct (st_event _ HS k v Hv) as (? & (y & Hy & ?) & ?).
      split_and!; [by apply Hsess| |done]. exists y. cbn.
      rewrite lookup_insert_ne by congruence. done.
    + intros s' r'. cbn. intros [[<- <-]|[? ?]]%lookup_insert_Some; [|by eapply st_sequences].
      by apply (st_sequences _ HS s r).
    + intros b y Hy. destruct (st_batch _ HS b y Hy) as (? & ?). split; [|done].
      cbn. rewrite lookup_insert_is_Some. destruct (decide (id = b_operation_id y)); auto.
    + intros j x. cbn. intros [[<- <-]|[? ?]]%lookup_insert_Some; [|by eapply st_batch_positions].
      apply gapless_none. intros k v Hv Heq. apply (Hnb k). by exists v.
  - intros j x. cbn. intros [[<- <-]|[? Hx]]%lookup_insert_Some.
    + apply queued_op_inv. intros b. apply Hnb.
    + eapply op_inv_ext; [..|by apply HO]; done.
  - intros s' r'. cbn. intros [[<- <-]|[? Hr']]%lookup_insert_Some.
    + destruct (HSe _ _ Hr) as [HA HF]. split; cbn.
      * intros j. rewrite HA. split; intros (x & Hx & ?).
        -- exists x. by rewrite lookup_insert_ne by congruence.
        -- apply lookup_insert_Some in Hx as [[<- <-]|[? ?]]; [naive_solver|eauto].
      * intros j1 x1 j2 x2.
        intros [[<- <-]|[? L1]]%lookup_insert_Some [[<- <-]|[? L2]]%lookup_insert_Some ?? Hlt Hq;
          try done; [|by apply (HF j1 x1 j2 x2)].
        cbn in Hlt. pose proof (gapless_bounds _ _ _ _ _ _ (st_positions _ HS _ _ Hr) L2
          ltac:(done)). lia.
    + destruct (HSe _ _ Hr') as [HA HF]. split; cbn.
      * intros j. rewrite HA. split; intros (x & Hx & ?).
        -- exists x. by rewrite lookup_insert_ne by congruence.
        -- apply lookup_insert_Some in Hx as [[<- <-]|[? ?]]; [naive_solver|eauto].
      * intros j1 x1 j2 x2.
        intros [[<- <-]|[? L1]]%lookup_insert_Some [[<- <-]|[? L2]]%lookup_insert_Some ?? Hlt Hq;
          try done. by apply (HF j1 x1 j2 x2).
  - intros k x Hk. destruct (HC k x Hk) as (y & Hy & ?). exists y. cbn.
    rewrite lookup_insert_ne by congruence. done.
Qed.

(** What a successful submission did: either the command was already admitted
    and nothing changed, or it was appended to its session's queue. *)
Lemma submit_with_mode_ok id s cmd mode db adm db' :
  submit_with_mode id s cmd mode db = Ok (adm, db') →
  ∃ content, encode_json cmd = Ok content ∧
  ((existing_admission s (command_id cmd) content db = Ok (Some adm) ∧ db' = db) ∨
   (existing_admission s (command_id cmd) content db = Ok None ∧
    (mode = RequireNoUnfinishedOperation → require_no_unfinished_operation s db = Ok tt) ∧
    ∃ r, sessions db !! s = Some r ∧
      commands db !! command_id cmd = None ∧ operations db !! id = None ∧
      operation_checks (queued_operation s (command_id cmd) (s_next_command_position r)) = true ∧
      session_checks (bump_position r) = true ∧ 0 ≤ s_next_command_position r ∧
      adm = {| adm_operation_id := id; adm_position := s_next_command_position r |} ∧
      db' = admitted_db db id s (command_id cmd) content r)).
Proof.
  intros E. unfold submit_with_mode in E. apply tx_bind_ok in E as (content & db1 & E1 & E).
  apply lift_ok in E1 as [Ec ->]. exists content. split; [done|].
  apply tx_bind_ok in E as ([adm0|] & db1 & [E1 ->]%read_ok & E); inv_tx; [by left|right].
  split; [done|].
  assert (x0 = db ∧ (mode = RequireNoUnfinishedOperation →
            require_no_unfinished_operation s db = Ok tt)) as [-> Hmode].
  { destruct mode; inv_tx; done. }
  split; [done|].
  destruct (sessions db !! s) as [r|] eqn:Er; [|done]. cbn in *. simplify_eq.
  match goal with H : from_sql_integer _ _ = _ |- _ =>
    apply from_sql_integer_ok in H as [-> Hpos] end.
  simplify_eq. exists r. by split_and!.
Qed.

Lemma submit_inv id s cmd mode db adm db' :
  Inv db → submit_with_mode id s cmd mode db = Ok (adm, db') → Inv db'.
Proof.
  intros HI E. apply submit_with_mode_ok in E as (content & Ec & [[_ ->]|(_ & _ & r & Hrest)]);
    [done|]. destruct Hrest as (? & ? & ? & ? & ? & ? & ? & ->). by apply admitted_inv.
Qed.
End admission_inv.

(** * Appending and replaying semantic history

    [append_events] extends a session's history without gaps and touches
    nothing else; [load_event_page] replays it. *)
Section history_inv.
Context `{KS : KernelSerde} `{!KernelSerdeLaws}.
Implicit Types (db : Database).

(** [v] is the row of the [i]-th event of a decision, numbered from [first]. *)
Definition event_row (s : SessionId) (id : OperationId) (first : Z) (evs : list NewEvent)
    (v : EventRow) : Prop :=
  ev_session_id v = s ∧ ev_operation_id v = id ∧ event_checks v = true ∧
  ∃ i ev, evs !! i = Some ev ∧ ev_sequence v = first + Z.of_nat i ∧ ev_kind v = kind ev ∧
    encode_json (payload ev) = Ok (ev_payload_json v).

Record Appended db (s : SessionId) (id : OperationId) (first : Z) (evs : list NewEvent)
    (rows : gmap EventId EventRow) : Prop := {
  ap_gapless : gapless rows (λ v, ev_session_id v = s) ev_sequence
                 (first + Z.of_nat (length evs));
  ap_keep : ∀ k v, semantic_events db !! k = Some v → rows !! k = Some v;
  ap_new : ∀ k v, rows !! k = Some v →
    semantic_events db !! k = Some v ∨
    event_row s id first evs v ∧ ∃ o, operations db !! id = Some o ∧ o_session_id o = s;
  ap_other : ∀ s' n, s' ≠ s → gapless (semantic_events db) (λ v, ev_session_id v = s') ev_sequence n →
    gapless rows (λ v, ev_session_id v = s') ev_sequence n;
}.

Lemma with_events_id db : with_events (semantic_events db) db = db.
Proof. by destruct db. Qed.

Lemma event_row_cons s id first ev evs v :
  event_row s id (first + 1) evs v → event_row s id first (ev :: evs) v.
Proof.
  intros (? & ? & ? & i & x & ? & ? & ? & ?). split_and!; try done.
  exists (S i), x. split_and!; try done. lia.
Qed.

Lemma insert_events_ok nid s id first evs : ∀ off db u db',
  insert_events nid s id first off evs db = Ok (u, db') → 0 ≤ first + off →
  gapless (semantic_events db) (λ v, ev_session_id v = s) ev_sequence (first + off) →
  ∃ rows, db' = with_events rows db ∧ Appended db s id (first + off) evs rows.
Proof.
  induction evs as [|ev evs IH]; intros off db u db' E Hpos HG; cbn in E.
  { inv_tx. exists (semantic_events db). rewrite with_events_id. split; [done|].
    split; try naive_solver. cbn. by rewrite Z.add_0_r. }
  inv_tx.
  match goal with H : insert_events _ _ _ _ _ _ ?d = _ |- _ =>
    destruct (IH _ _ _ _ H) as (rows & -> & HA) end.
  { lia. }
  { replace (first + (off + 1)) with (first + off + 1) by lia. cbn.
    by apply gapless_insert_next. }
  exists rows. split; [done|]. destruct HA as [Hg Hk Hn Ho]. cbn in *.
  split.
  - cbn. replace (first + off + Z.of_nat (S (length evs)))
      with (first + (off + 1) + Z.of_nat (length evs)) by lia. done.
  - intros k v Hv. apply Hk. rewrite lookup_insert_ne by congruence. done.
  - intros k v Hv. destruct (Hn k v Hv) as [Hv'|[Hrow ?]].
    + apply lookup_insert_Some in Hv' as [[<- <-]|[? ?]]; [|by left]. right.
      split; [|eauto]. split_and!; try done. exists 0%nat, ev. split_and!; try done. cbn. lia.
    + right. split; [|done]. apply event_row_cons.
      by replace (first + off + 1) with (first + (off + 1)) by lia.
  - intros s' n Hne Hgs. apply Ho; [done|]. apply gapless_insert_other; [done|cbn; congruence|done].
Qed.

Lemma append_events_ok nid s id evs db u db' r :
  append_events nid s id evs db = Ok (u, db') → sessions db !! s = Some r →
  0 ≤ s_next_event_sequence r →
  gapless (semantic_events db) (λ v, ev_session_id v = s) ev_sequence (s_next_event_sequence r) →
  ∃ rows,
    db' = with_sessions (<[s := bump_sequence (Z.of_nat (length evs)) r]> (sessions db))
            (with_events rows db) ∧
    session_checks (bump_sequence (Z.of_nat (length evs)) r) = true ∧
    Appended db s id (s_next_event_sequence r) evs rows.
Proof.
  intros E Hr Hpos HG. unfold append_events in E. inv_tx. rewrite Hr in *. cbn in *. simplify_eq.
  match goal with H : insert_events _ _ _ _ _ _ _ = _ |- _ => apply insert_events_ok in H end;
    [|by rewrite Z.add_0_r..].
  inv_tx. cbn in *. rewrite Hr in *. simplify_eq. eexists. split_and!; [done..|].
  by match goal with H : Appended _ _ _ (_ + 0) _ _ |- _ => rewrite Z.add_0_r in H end.
Qed.

Lemma session_nonneg db s r : Static db → sessions db !! s = Some r →
  0 ≤ s_next_command_position r ∧ 0 ≤ s_next_event_sequence r.
Proof.
  intros HS Hr. pose proof (st_session_checks _ HS _ _ Hr) as Hc.
  unfold session_checks in Hc. split_bools. lia.
Qed.

(** The database after appending: history is longer, the rest is unchanged. *)
Definition appended_db db (s : SessionId) (r : SessionRow) (evs : list NewEvent)
    (rows : gmap EventId EventRow) : Database :=
  with_sessions (<[s := bump_sequence (Z.of_nat (length evs)) r]> (sessions db))
    (with_events rows db).

Lemma appended_inv db s r id evs rows :
  Inv db → sessions db !! s = Some r →
  session_checks (bump_sequence (Z.of_nat (length evs)) r) = true →
  Appended db s id (s_next_event_sequence r) evs rows →
  Inv (appended_db db s r evs rows).
Proof.
  intros [HS HO HSe HC] Hr Hck [Hg Hk Hn Hoth].
  assert (∀ x, is_Some (sessions db !! x) →
            is_Some (sessions (appended_db db s r evs rows) !! x)) as Hsess.
  { intros x ?. cbn. rewrite lookup_insert_is_Some. destruct (decide (s = x)); auto. }
  split.
  - split; try apply HS.
    + intros s' r'. cbn. intros [[<- <-]|[? ?]]%lookup_insert_Some; [done|].
      by eapply st_session_checks.
    + intros k v Hv. destruct (Hn k v Hv) as [?|[(_ & _ & ? & _) _]]; [|done].
      by eapply st_event_checks.
    + intros s' r'. cbn. intros [[<- <-]|[? ?]]%lookup_insert_Some.
      * by apply (st_session_agent _ HS s r).
      * by eapply st_session_agent.
    + intros c x Hx. destruct (st_command _ HS c x Hx) as (? & ? & ?).
      split_and!; [by apply Hsess|done..].
    + intros j x Hx. destruct (st_operation _ HS j x Hx) as (? & ?). split; [by apply Hsess|done].
    + intros s' r'. cbn. intros [[<- <-]|[? ?]]%lookup_insert_Some; [|by eapply st_positions].
      by apply (st_positions _ HS s r).
    + intros k v Hv. destruct (Hn k v Hv) as [Hv'|[(Hs & Hid & Hc' & i & ev & _ & _ & _ & Hp) (o & Ho & Hos)]].
      * destruct (st_event _ HS k v Hv') as (? & ? & ?). split_and!; [by apply Hsess|done..].
      * split_and!; [rewrite Hs; apply Hsess; eauto| |].
        -- exists o. split; [by rewrite Hid|congruence].
        -- exists (payload ev). by apply encode_decodes.
    + intros s' r'. cbn. intros [[<- <-]|[? ?]]%lookup_insert_Some; [done|].
      apply Hoth; [done|]. by eapply st_sequences.
  - intros j x Hx. eapply op_inv_ext; [..|by apply HO]; done.
  - intros s' r'. cbn. intros [[<- <-]|[? ?]]%lookup_insert_Some.
    + destruct (HSe _ _ Hr) as [HA HF]. split; [exact HA|exact HF].
    + eapply session_inv_ext; [|by apply HSe]. done.
  - done.
Qed.

Lemma append_events_inv nid s id evs db u db' :
  Inv db → append_events nid s id evs db = Ok (u, db') →
  Inv db' ∧ ∃ r rows, sessions db !! s = Some r ∧ db' = appended_db db s r evs rows ∧
    Appended db s id (s_next_event_sequence r) evs rows.
Proof.
  intros HI E. destruct (sessions db !! s) as [r|] eqn:Hr.
  - pose proof (inv_static _ HI) as HS.
    eapply append_events_ok in E; [|done|by eapply session_nonneg|by eapply st_sequences].
    destruct E as (rows & -> & Hck & HA). split; [by eapply appended_inv|]. eauto 10.
  - unfold append_events in E. inv_tx. by rewrite Hr in *.
Qed.
(** Appending touches no operation. *)
Lemma append_events_operations nid s id evs db u db' :
  append_events nid s id evs db = Ok (u, db') → operations db' = operations db.
Proof.
  intros E. unfold append_events in E. inv_tx. cbn.
  match goal with H : insert_events _ _ _ ?f ?off _ _ = _ |- _ =>
    revert H; generalize f, off end.
  intros f off. clear. revert db off.
  induction evs as [|ev evs IH]; intros db off E; cbn in E; inv_tx; [done|].
  match goal with H : insert_events _ _ _ _ _ _ _ = _ |- _ => by apply IH in H end.
Qed.
End history_inv.

(** * Moving an active operation between active phases

    Every transaction that neither admits, activates nor ends an operation
    rewrites one operation row and some effects of one of its batches.
    [moved_inv] reduces its invariant to the new row and the new effects. *)
From S2P Require Import EffectStore.
Section move_inv.
Context `{KS : KernelSerde} `{!KernelSerdeLaws}.
Implicit Types (db : Database) (o : OperationRow) (e : EffectRow).

(** What holds of an effect while its operation has no outcome. *)
Definition effect_open (manifest_json : option Text) e : Prop :=
  (∃ tm m, manifest_json = Some tm ∧ decodes tm m ∧
     effect_bindings m !! e_binding e = Some (e_binding_revision e)) ∧
  (∃ t (v : Value), e_request_json e = Some t ∧ decodes t v) ∧
  (∀ t, e_outcome_json e = Some t → ∃ x : EffectOutcome, decodes t x) ∧
  (e_status e = "intent_committed" → e_dispatch_count e = 0) ∧
  (e_status e ≠ "intent_committed" → 1 ≤ e_dispatch_count e) ∧
  (e_recovery e = "never_replay" → e_dispatch_count e ≤ 1).

Lemma effect_inv_open db o e :
  o_outcome_json o = None → effect_inv db o e ↔ effect_open (o_manifest_json o) e.
Proof.
  intros Hn. unfold effect_inv, effect_open. rewrite Hn. split.
  - intros (? & HR & ? & ? & ? & ? & Hrel). split_and!; try done.
    destruct (e_request_json e) as [t|]; [|by destruct Hrel as [[[? ?] ?] _]].
    destruct (HR t) as [v ?]; eauto.
  - intros (? & (t & v & Ht & Hv) & ? & ? & ? & ?). split_and!; try done.
    + intros t' Ht'. rewrite Ht in Ht'. simplify_eq. eauto.
    + rewrite Ht. split; [done|]. intros [[? ?] _]. done.
Qed.

Definition moved_db db (id : OperationId) o' (effs : gmap EffectId EffectRow) : Database :=
  with_operations (<[id := o']> (operations db)) (with_effects effs db).

(** [effs] differs from the effects of [db] only in columns of children of [b]. *)
Record Touches db (b : EffectBatchId) (effs : gmap EffectId EffectRow) : Prop := {
  tc_rows : same_rows effect_static (effects db) effs;
  tc_checks : ∀ k e, effs !! k = Some e → effect_checks e = true;
  tc_other : ∀ k e, effects db !! k = Some e → e_batch_id e ≠ b → effs !! k = Some e;
}.

Lemma touches_refl db b : Static db → Touches db b (effects db).
Proof.
  intros HS. split; [apply same_rows_refl, effect_static_refl| |done].
  intros k e He. by eapply st_effect_checks.
Qed.

Lemma touches_other_back db b effs k e :
  Touches db b effs → effs !! k = Some e → e_batch_id e ≠ b → effects db !! k = Some e.
Proof.
  intros HT He Hne. destruct (same_rows_back _ _ _ _ _ (tc_rows _ _ _ HT) He) as (e0 & He0 & Hst).
  pose proof (tc_other _ _ _ HT k e0 He0) as Hk. destruct Hst as (Hb & _).
  rewrite Hb in Hk. rewrite (Hk Hne) in He. by simplify_eq.
Qed.

Lemma touches_insert db b k e e' :
  Static db → effects db !! k = Some e → e_batch_id e = b → effect_static e e' →
  effect_checks e' = true → Touches db b (<[k := e']> (effects db)).
Proof.
  intros HS He Hb Hst Hck. split.
  - by eapply same_rows_insert; [apply effect_static_refl|..].
  - intros j x [[<- <-]|[_ ?]]%lookup_insert_Some; [done|]. by eapply st_effect_checks.
  - intros j x Hx Hne. rewrite lookup_insert_ne; [done|]. intros <-. congruence.
Qed.

Lemma moved_frame db id b o' effs :
  owns db id b → Touches db b effs → frame_effects id db (moved_db db id o' effs).
Proof.
  intros Hown HT. split; [done|]. cbn. intros j k e Hj Hoj.
  assert (e_batch_id e ≠ b) as Hne by (intros <-; destruct Hj; by eapply owns_inj).
  split; intros He; [by apply (tc_other _ _ _ HT)|by eapply touches_other_back].
Qed.

Lemma moved_static db id o o' b effs :
  Static db → operations db !! id = Some o → op_static o o' → operation_checks o' = true →
  Touches db b effs → Static (moved_db db id o' effs).
Proof.
  intros HS Ho Hst Hck HT. eapply Static_update; [done|]. split; try done; cbn.
  - apply same_rows_refl, session_static_refl.
  - by eapply same_rows_insert; [apply op_static_refl|..].
  - apply HT.
  - intros k r Hr. by eapply st_session_checks.
  - intros k r [[<- <-]|[_ ?]]%lookup_insert_Some; [done|]. by eapply st_operation_checks.
  - apply HT.
Qed.

Lemma moved_owns db id o' effs j b : owns (moved_db db id o' effs) j b ↔ owns db j b.
Proof. done. Qed.

(** Batches other than the touched one keep their settled children. *)
Lemma moved_settled_except db id o' b effs open :
  Touches db b effs → (open = Some b ∨ children (moved_db db id o' effs) b settled) →
  settled_except db id (Some b) → settled_except (moved_db db id o' effs) id open.
Proof.
  intros HT Hop HS c Hc Hne k e He Hb. cbn in He.
  destruct (decide (c = b)) as [->|Hcb].
  - destruct Hop as [->|Hch]; [done|by apply (Hch k e)].
  - apply (HS c Hc) with k; [congruence| |done].
    eapply touches_other_back; [done..|congruence].
Qed.

Lemma moved_op_inv db id o o' b effs p :
  op_inv db id o → o_outcome_json o = None → o_outcome_json o' = None →
  o_manifest_json o' = o_manifest_json o → op_documents o' →
  Touches db b effs → o_phase o' = as_str p → op_shape (moved_db db id o' effs) id o' p →
  (∀ k e, effs !! k = Some e → e_batch_id e = b → effect_open (o_manifest_json o) e) →
  op_inv (moved_db db id o' effs) id o'.
Proof.
  intros (_ & _ & HE) Hn Hn' Hm Hdoc HT Hp Hshape Hnew. split_and!; [eauto|done|].
  intros k e He Hown. apply effect_inv_open; [done|]. rewrite Hm. cbn in He.
  destruct (decide (e_batch_id e = b)) as [Hb|Hb]; [by eapply Hnew|].
  rewrite <- (effect_inv_open db) by done. eapply HE; [|done].
  by eapply touches_other_back.
Qed.

Lemma moved_inv db id o o' b effs p q :
  Inv db → operations db !! id = Some o → op_static o o' → operation_checks o' = true →
  o_phase o = as_str q → is_cancellable q = true →
  o_phase o' = as_str p → is_cancellable p = true → o_outcome_json o' = None →
  o_manifest_json o' = o_manifest_json o → op_documents o' →
  owns db id b → Touches db b effs → op_shape (moved_db db id o' effs) id o' p →
  (∀ k e, effs !! k = Some e → e_batch_id e = b → effect_open (o_manifest_json o) e) →
  Inv (moved_db db id o' effs).
Proof.
  intros HI Ho Hst Hck Hq Hqc Hp Hpc Hn' Hm Hdoc Hown HT Hshape Hnew.
  pose proof (inv_ops _ HI _ _ Ho) as Hop. pose proof (op_static_place _ _ Hst) as Hpl.
  assert (o_outcome_json o = None) as Hn by (eapply outcome_none_iff; eauto).
  eapply (Inv_transition db _ id o o'); try done.
  - by eapply moved_static; [apply HI|..].
  - by destruct Hst as (-> & _).
  - by eapply moved_frame.
  - by eapply moved_op_inv.
  - intros s r Hne. eapply session_inv_other; done || congruence.
  - intros r' Hr'. cbn in Hr'. eapply session_inv_stay; try done.
    + by rewrite (active_phase_as_str _ _ Hq), (active_phase_as_str _ _ Hp), Hqc, Hpc.
    + rewrite (queued_as_str _ _ Hq), (queued_as_str _ _ Hp). by destruct p, q.
    + by apply (inv_sessions _ HI).
  - by left.
Qed.

(** Only the operation row moves. *)
Lemma moved_same db id o' : moved_db db id o' (effects db) = with_operations (<[id := o']> (operations db)) db.
Proof. by destruct db. Qed.

Lemma stay_inv db id o o' p q :
  Inv db → operations db !! id = Some o → op_static o o' → operation_checks o' = true →
  o_phase o = as_str q → is_cancellable q = true →
  o_phase o' = as_str p → is_cancellable p = true → o_outcome_json o' = None →
  o_manifest_json o' = o_manifest_json o → op_documents o' →
  op_shape db id o' p →
  Inv (with_operations (<[id := o']> (operations db)) db).
Proof.
  intros HI Ho Hst Hck Hq Hqc Hp Hpc Hn' Hm Hdoc Hshape.
  pose proof (inv_ops _ HI _ _ Ho) as Hop. pose proof (op_static_place _ _ Hst) as Hpl.
  assert (o_outcome_json o = None) as Hn by (eapply outcome_none_iff; eauto).
  eapply (Inv_transition db _ id o o'); try done.
  - rewrite <- moved_same. eapply (moved_static _ _ _ _ (MkId 0)); [apply HI|done..|].
    apply touches_refl, HI.
  - by destruct Hst as (-> & _).
  - split_and!; [exists p; split; [done|by destruct p]|done|]. intros k e He Hown.
    apply effect_inv_open; [done|]. rewrite Hm, <- (effect_inv_open db) by done.
    destruct Hop as (_ & _ & HE). by apply (HE k).
  - intros s r Hne. eapply session_inv_other; done || congruence.
  - intros r' Hr'. cbn in Hr'. eapply session_inv_stay; try done.
    + by rewrite (active_phase_as_str _ _ Hq), (active_phase_as_str _ _ Hp), Hqc, Hpc.
    + rewrite (queued_as_str _ _ Hq), (queued_as_str _ _ Hp). by destruct p, q.
    + by apply (inv_sessions _ HI).
  - by left.
Qed.

(** Only effects move. *)
Lemma moved_effects db id o effs :
  operations db !! id = Some o → moved_db db id o effs = with_effects effs db.
Proof. intros Ho. unfold moved_db. rewrite insert_id by done. by destruct db. Qed.

(** The children of the batch an operation works on. *)
Lemma open_child db id o k e :
  op_inv db id o → o_outcome_json o = None → effects db !! k = Some e →
  owns db id (e_batch_id e) → effect_open (o_manifest_json o) e.
Proof. intros (_ & _ & HE) Hn He Hown. rewrite <- (effect_inv_open db) by done. eauto. Qed.
End move_inv.
