(* ===== verification/OperationInv.v ===== *)
(** * Moving one operation keeps the invariant

    Activation, decisions, cancellation and abandonment. *)
From S2P Require Import Prelude Json State Schema SchemaFacts Admission OperationStore EffectStore.
From S2P Require Import Cancellation Runtime Drive Invariant AdmissionInv.
Section operation_inv.
Context `{KS : KernelSerde} `{!KernelSerdeLaws}.
Implicit Types (db : Database) (o : OperationRow) (e : EffectRow).

(** ** Effects that keep their status *)
Definition effect_same_status e e' : Prop := effect_static e e' ∧ e_status e = e_status e'.

Lemma effect_same_status_refl e : effect_same_status e e.
Proof. done. Qed.

Lemma children_same_status db db' b (Q : string → Prop) :
  same_rows effect_same_status (effects db) (effects db') →
  children db b (λ e, Q (e_status e)) ↔ children db' b (λ e, Q (e_status e)).
Proof.
  intros HS. split; intros HC k e He Hb.
  - destruct (same_rows_back _ _ _ _ _ HS He) as (e0 & He0 & [Hs _] & <-).
    apply (HC k e0); [done|congruence].
  - destruct (same_rows_forth _ _ _ _ _ HS He) as (e0 & He0 & [Hs _] & ->).
    apply (HC k e0); [done|congruence].
Qed.

Lemma batch_shape_same_status p db db' b :
  same_rows effect_same_status (effects db) (effects db') →
  batch_shape p db b → batch_shape p db' b.
Proof.
  intros HS. destruct p; cbn; try done.
  - by apply (children_same_status db db' b (λ s, s = "intent_committed")).
  - by apply (children_same_status db db' b (λ s, s ≠ "intent_committed")).
  - intros [HC (k & e & He & Hb & Hu)]. split.
    + by apply (children_same_status db db' b (λ s, s = "settled" ∨ s = "outcome_unknown")).
    + destruct (same_rows_forth _ _ _ _ _ HS He) as (e' & He' & [[Hb' _] Hst]).
      exists k, e'. split_and!; congruence.
Qed.

Lemma settled_except_same_status db db' id open :
  effect_batches db' = effect_batches db →
  same_rows effect_same_status (effects db) (effects db') →
  settled_except db id open → settled_except db' id open.
Proof.
  intros Hb HS HE b Ho Hne. unfold owns in Ho. rewrite Hb in Ho.
  apply (children_same_status db db' b (λ s, s = "settled")); [done|]. by apply HE.
Qed.

(** ** The release of finished requests *)
Lemma set_request_static x e : effect_same_status e (set_request x e).
Proof. done. Qed.

Lemma release_same_status id db :
  same_rows effect_same_status (effects db) (effects (release_finished_effect_requests id db)).
Proof.
  unfold release_finished_effect_requests. destruct (release_installed db); cbn.
  - apply same_rows_update; [apply effect_same_status_refl|apply set_request_static].
  - apply same_rows_refl, effect_same_status_refl.
Qed.

Lemma effect_checks_request e :
  effect_checks e = true → e_status e = "settled" → effect_checks (set_request None e) = true.
Proof.
  unfold effect_checks. cbn. intros Hc Hs. rewrite Hs in *. cbn in *.
  rewrite !andb_true_iff in *. naive_solver.
Qed.

Lemma finished_request_spec db id o e :
  operations db !! id = Some o → is_Some (o_outcome_json o) →
  finished_request db id e = true ↔
  owns db id (e_batch_id e) ∧ settled e ∧ is_Some (e_request_json e) ∧
  children db (e_batch_id e) settled.
Proof.
  intros Ho Hout. unfold finished_request. rewrite Ho, bool_decide_true by done.
  rewrite !andb_true_iff, batch_of_operation_spec, bool_decide_eq_true, String.eqb_eq,
    negb_true_iff, tbl_exists_false. unfold settled, children, owns.
  split.
  - intros [[[[? ?] ?] ?] Hsib]. split_and!; try done. intros k x Hx Hb.
    specialize (Hsib k x Hx). rewrite bool_decide_true in Hsib by done. cbn in Hsib.
    split_bools. done.
  - intros (? & ? & ? & Hch). split_and!; try done. intros k x Hx.
    case_bool_decide; [|done]. cbn. apply negb_false_iff, String.eqb_eq. eauto.
Qed.

Lemma release_finish_effects id db o k e' :
  release_installed db = true → operations db !! id = Some o → is_Some (o_outcome_json o) →
  effects (release_finished_effect_requests id db) !! k = Some e' →
  ∃ e, effects db !! k = Some e ∧
    ((e' = set_request None e ∧ owns db id (e_batch_id e) ∧ settled e ∧
      children db (e_batch_id e) settled) ∨
     (e' = e ∧ (¬ owns db id (e_batch_id e) ∨ ¬ is_Some (e_request_json e) ∨
                ¬ children db (e_batch_id e) settled))).
Proof.
  intros Hi Ho Hout. rewrite release_effects by done.
  destruct (effects db !! k) as [e|] eqn:Ee; cbn; [|done]. intros [= <-].
  exists e. split; [done|]. destruct (finished_request db id e) eqn:Ef.
  - left. apply (finished_request_spec _ _ o) in Ef as (? & ? & ? & ?); done.
  - right. split; [done|]. destruct (owns_dec db id (e_batch_id e)) as [Hown|]; [|by left].
    right. destruct (decide (is_Some (e_request_json e))); [right|by left].
    intros Hch. assert (finished_request db id e = true); [|congruence].
    apply (finished_request_spec _ _ o); try done. split_and!; try done. by apply (Hch k).
Qed.

(** ** Ending an operation *)
Definition may_stay_open (p : OperationPhase) db (b : EffectBatchId) : Prop :=
  p = Failed ∧ batch_shape OutcomeUnknown db b ∨
  p = Cancelled ∧ (batch_shape EffectIntent db b ∨ batch_shape OutcomeUnknown db b).

Definition open_ok (p : OperationPhase) db (id : OperationId) (open : option EffectBatchId) : Prop :=
  settled_except db id open ∧
  match open with None => True | Some b => owns db id b ∧ may_stay_open p db b end.

Definition ended_db db (s : SessionId) (r : SessionRow) (id : OperationId) o' : Database :=
  with_sessions (<[s := set_active None r]> (sessions db))
    (release_finished_effect_requests id
       (with_operations (<[id := o']> (operations db)) db)).

Definition terminal (p : OperationPhase) : bool :=
  match p with Waiting | Completed | Failed | Cancelled => true | _ => false end.

Lemma ended_update_only db s r id o o' :
  Static db → sessions db !! s = Some r → operations db !! id = Some o →
  op_static o o' → operation_checks o' = true → session_checks (set_active None r) = true →
  is_Some (o_outcome_json o') →
  UpdateOnly db (ended_db db s r id o').
Proof.
  intros HS Hr Ho Hst Hck Hsck Hout.
  pose proof (release_tables id (with_operations (<[id := o']> (operations db)) db))
    as (T1 & T2 & T3 & T4 & T5 & T6 & T7 & T8). unfold ended_db.
  split; cbn; rewrite ?T1, ?T2, ?T3, ?T4, ?T5, ?T6, ?T7, ?T8; cbn; try done.
  - by eapply same_rows_insert; [apply session_static_refl|..].
  - by eapply same_rows_insert; [apply op_static_refl|..].
  - intros k. pose proof (release_same_status id
      (with_operations (<[id := o']> (operations db)) db) k) as HR. cbn in HR.
    destruct (effects db !! k), (effects _ !! k); try done. by destruct HR.
  - intros k x [[<- <-]|[_ ?]]%lookup_insert_Some; [done|]. by eapply st_session_checks.
  - intros k x [[<- <-]|[_ ?]]%lookup_insert_Some; [done|]. by eapply st_operation_checks.
  - intros k e' He'. eapply release_finish_effects in He'; cycle 1.
    { apply (st_installed _ HS). } { cbn. apply lookup_insert_eq. } { done. }
    destruct He' as (e & He & [(-> & _ & Hset & _)|[-> _]]); [|by eapply st_effect_checks].
    apply effect_checks_request; [by eapply st_effect_checks|done].
Qed.

Lemma ended_frame db s r id o' :
  Static db → is_Some (o_outcome_json o') → frame_effects id db (ended_db db s r id o').
Proof.
  intros HS Hout. unfold ended_db.
  pose proof (release_tables id (with_operations (<[id := o']> (operations db)) db))
    as (_ & _ & _ & _ & _ & T6 & _).
  split; cbn; [by rewrite T6|].
  intros j k e Hj Hown.
  rewrite release_effects by apply (st_installed _ HS). cbn.
  destruct (effects db !! k) as [x|] eqn:Ex; cbn; [|done].
  destruct (finished_request _ id x) eqn:Ef; [|done].
  apply (finished_request_spec _ _ o') in Ef as (Hox & _); [|cbn; apply lookup_insert_eq|done].
  split; intros [= <-]; destruct Hj; by eapply owns_inj.
Qed.

Lemma ended_op_inv db s r id o o' p t x tc :
  Inv db → operations db !! id = Some o → o_outcome_json o = None →
  o_manifest_json o' = o_manifest_json o → is_Some (o_manifest_json o) →
  o_checkpoint_json o' = Some tc → op_documents o' →
  o_current_effect_batch_id o' = None → o_input_effect_batch_id o' = None →
  o_outcome_json o' = Some t → decodes t x → terminal_outcome p x →
  o_phase o' = as_str p → (∃ open, open_ok p db id open) →
  op_inv (ended_db db s r id o') id o'.
Proof.
  intros HI Ho Hnone Hm Hms Hcp Hdoc Hcur Hinp Hout Hdec Hterm Hph (open & Hse & Hopen).
  pose proof (inv_static _ HI) as HS.
  set (db1 := with_operations (<[id := o']> (operations db)) db).
  pose proof (release_tables id db1) as (_ & _ & _ & _ & _ & T6 & _).
  pose proof (release_same_status id db1) as HR.
  assert (∀ b, owns (ended_db db s r id o') id b ↔ owns db id b) as Hown.
  { intros b. unfold owns, ended_db. fold db1. cbn. by rewrite T6. }
  split_and!.
  - exists p. split; [done|].
    assert (is_Some (o_manifest_json o')) by by rewrite Hm.
    assert (settled_except (ended_db db s r id o') id open).
    { eapply (settled_except_same_status db); [exact T6|exact HR|done]. }
    assert (∃ t x, o_outcome_json o' = Some t ∧ decodes t x ∧ terminal_outcome p x) by eauto.
    assert (match open with
            | Some b => owns (ended_db db s r id o') id b ∧
                may_stay_open p (ended_db db s r id o') b
            | None => True end).
    { destruct open as [b|]; [|done]. destruct Hopen as [Hb Hso]. split; [by apply Hown|].
      destruct Hso as [[? ?]|[? [?|?]]]; [left|right..]; (split; [done|]).
      - by eapply (batch_shape_same_status OutcomeUnknown db).
      - left. by eapply (batch_shape_same_status EffectIntent db).
      - right. by eapply (batch_shape_same_status OutcomeUnknown db). }
    unfold may_stay_open in *. destruct p; try (by destruct x); cbn; rewrite Hcp; eauto 10.
  - done.
  - intros k e' He' Hb'. rewrite Hown in Hb'.
    assert (children (ended_db db s r id o') (e_batch_id e') settled ↔
            children db (e_batch_id e') settled) as Hch.
    { symmetry. by apply (children_same_status db (ended_db db s r id o') _ (λ s, s = "settled")). }
    unfold ended_db in He'. cbn in He'.
    eapply release_finish_effects in He'; cycle 1.
    { apply (st_installed _ HS). } { cbn. apply lookup_insert_eq. } { eauto. }
    destruct He' as (e & He & Hcase). fold db1 in Hcase.
    assert (e_batch_id e' = e_batch_id e) as Eb by (destruct Hcase as [[-> _]|[-> _]]; done).
    rewrite Eb in *.
    destruct (inv_ops _ HI _ _ Ho) as (_ & _ & HE).
    destruct (HE k e He Hb') as (Hbind & Hreq & Houtc & Hi & Hd & Hn & Hrel).
    unfold effect_inv. rewrite Hm, Eb, Hch. rewrite Hnone in Hrel.
    destruct Hcase as [(-> & _ & Hset & Hall)|(-> & Hcase)]; cbn.
    + split_and!; try done.
    + split_and!; try done. rewrite Hrel. split; [intros [[? ?] _]; done|].
      intros [_ Hall]. exfalso. destruct Hcase as [Hc|[Hc|Hc]]; [by apply Hc|..|by apply Hc].
      apply Hc. destruct (e_request_json e); [eauto|]. by destruct Hrel as [[[? ?] ?] _].
Qed.

Lemma ended_inv db s r id o o' p t x tc :
  Inv db → operations db !! id = Some o → o_session_id o = s → sessions db !! s = Some r →
  s_active_operation_id r = Some id → op_static o o' → operation_checks o' = true →
  session_checks (set_active None r) = true →
  o_manifest_json o' = o_manifest_json o →
  o_checkpoint_json o' = Some tc → op_documents o' →
  o_current_effect_batch_id o' = None → o_input_effect_batch_id o' = None →
  o_outcome_json o' = Some t → decodes t x → terminal_outcome p x →
  o_phase o' = as_str p → (∃ open, open_ok p db id open) →
  (cancellation_requested id db = true → p = Cancelled) →
  Inv (ended_db db s r id o').
Proof.
  intros HI Ho Hs Hr Hact Hst Hck Hsck Hm Hcp Hdoc Hcur Hinp Hout Hdec Hterm Hph Hopen Hcancel.
  pose proof (inv_static _ HI) as HS. pose proof (op_static_place _ _ Hst) as Hpl.
  destruct (inv_sessions _ HI _ _ Hr) as [HA HF]. subst s.
  assert (active_phase o = true) as Hap.
  { destruct (proj1 (HA id) Hact) as (x' & ? & ? & ?). congruence. }
  destruct (phase_of _ _ _ (inv_ops _ HI _ _ Ho)) as (q & Hq & Hqs).
  rewrite (active_phase_as_str _ _ Hq) in Hap.
  assert (o_outcome_json o = None ∧ is_Some (o_manifest_json o)) as [Hnone Hms].
  { destruct q; try done; cbn in Hqs; naive_solver. }
  assert (is_Some (o_outcome_json o')) as Hos by eauto.
  pose proof (release_tables id (with_operations (<[id := o']> (operations db)) db))
    as (T1 & T2 & T3 & T4 & T5 & T6 & T7 & T8).
  assert (operations (ended_db db (o_session_id o) r id o') = <[id := o']> (operations db)) as Eops.
  { unfold ended_db. cbn. by rewrite T4. }
  assert (terminal p = true) as Htp by (by destruct p, x).
  eapply (Inv_transition db _ id o o'); try done.
  - eapply Static_update; [done|]. by eapply ended_update_only.
  - by destruct Hst as (-> & _).
  - by apply ended_frame.
  - by eapply ended_op_inv.
  - intros s Hne. unfold ended_db. cbn. rewrite lookup_insert_ne by congruence. done.
  - intros s r' Hne. eapply session_inv_other; done || congruence.
  - intros r'. unfold ended_db at 1. cbn. rewrite lookup_insert_eq. intros [= <-].
    eapply session_inv_end; try done.
    + by rewrite (active_phase_as_str _ _ Hq).
    + rewrite (active_phase_as_str _ _ Hph). by destruct p.
    + rewrite (queued_as_str _ _ Hq). by destruct q.
    + rewrite (queued_as_str _ _ Hph). by destruct p.
  - intros Hreq. right. by rewrite Hph, (Hcancel Hreq).
Qed.


(** ** Documents *)

(** The checkpoint has the schema version of the operation's frozen manifest. *)
Definition fits db (id : OperationId) (c : Checkpoint) : Prop :=
  ∀ o tm m, operations db !! id = Some o → o_manifest_json o = Some tm → decodes tm m →
    schema_version c = checkpoint_schema_version m.

Lemma new_documents db id o o' c t :
  Inv db → operations db !! id = Some o → is_Some (o_manifest_json o) →
  fits db id c → encode_json c = Ok t →
  o_manifest_json o' = o_manifest_json o → o_checkpoint_json o' = Some t → op_documents o'.
Proof.
  intros HI Ho [tm Htm] Hfit Henc Hm Hc. destruct (inv_ops _ HI _ _ Ho) as (_ & [HM _] & _).
  destruct (HM tm Htm) as [m Hdm]. split.
  - intros x Hx. apply HM. congruence.
  - intros tc Htc. exists tm, m, c. split_and!; [congruence|done| |by eapply Hfit].
    rewrite Hc in Htc. simplify_eq. by apply encode_decodes.
Qed.

Lemma same_documents o o' :
  o_manifest_json o' = o_manifest_json o → o_checkpoint_json o' = o_checkpoint_json o →
  op_documents o → op_documents o'.
Proof. unfold op_documents. by intros -> ->. Qed.

Lemma appended_fits db s r evs rows id c : fits (appended_db db s r evs rows) id c ↔ fits db id c.
Proof. done. Qed.

(** ** Activation *)
Lemma queued_no_batches db id o b :
  Static db → operations db !! id = Some o → op_shape db id o Queued → ¬ owns db id b.
Proof.
  intros HS Ho (_ & _ & _ & _ & _ & Hz) (r & Hr & Hid).
  pose proof (gapless_bounds _ _ _ _ _ _ (st_batch_positions _ HS id o Ho) Hr Hid). lia.
Qed.

Lemma activated_inv db s r id o (m : RuntimeManifest) t :
  Inv db → operations db !! id = Some o → o_phase o = "queued" → o_session_id o = s →
  sessions db !! s = Some r → s_active_operation_id r = None →
  (∀ j x, operations db !! j = Some x → o_session_id x = s → queued x = true →
     o_position o ≤ o_position x) →
  encode_json m = Ok t → operation_checks (activated_row t o) = true →
  session_checks (set_active (Some id) r) = true →
  Inv (with_sessions (<[s := set_active (Some id) r]> (sessions db))
         (with_operations (<[id := activated_row t o]> (operations db)) db)).
Proof.
  intros HI Ho Hq <- Hr Hna Hmin Henc Hck Hsck.
  assert (same_place o (activated_row t o)) as Hpl by done.
  pose proof (inv_static _ HI) as HS. pose proof (inv_ops _ HI _ _ Ho) as Hop.
  pose proof (op_shape_at _ _ _ Queued Hop Hq) as Hsh.
  assert (∀ b, ¬ owns db id b) as Hnob by (intros b; by eapply queued_no_batches).
  destruct Hsh as (Hm & Hc & Hcur & Hin & Hout & Hz).
  eapply (Inv_transition db _ id o (activated_row t o)); try done.
  - eapply Static_update; [done|]. split; try done; cbn.
    + by eapply same_rows_insert; [apply session_static_refl|..].
    + by eapply same_rows_insert; [apply op_static_refl|..].
    + apply same_rows_refl, effect_static_refl.
    + intros k x [[<- <-]|[_ ?]]%lookup_insert_Some; [done|]. by eapply st_session_checks.
    + intros k x [[<- <-]|[_ ?]]%lookup_insert_Some; [done|]. by eapply st_operation_checks.
    + intros k x Hx. by eapply st_effect_checks.
  - split_and!.
    + exists NeedDecision. split; [done|]. cbn. rewrite Hcur, Hin, Hout. split_and!; eauto; [|done].
      intros b Hb. by destruct (Hnob b).
    + split; cbn; [intros tm [= <-]; exists m; by apply encode_decodes|by rewrite Hc].
    + intros k e He Hb. by destruct (Hnob (e_batch_id e)).
  - intros s Hne. cbn. by rewrite lookup_insert_ne.
  - intros s x Hne. eapply session_inv_other; done || congruence.
  - intros x. cbn. rewrite lookup_insert_eq. intros [= <-].
    eapply session_inv_begin; try done. by apply (inv_sessions _ HI).
  - by left.
Qed.

Lemma activate_queued_inv s m db r db' :
  Inv db → activate_queued s m db = Ok (r, db') → Inv db'.
Proof.
  intros HI E. unfold activate_queued in E. inv_tx.
  destruct (queued_operations s db) as [|[id x] rest] eqn:EQ; inv_tx; [done|].
  assert ((id, x) ∈ queued_operations s db) as Hin by (rewrite EQ; left).
  unfold queued_operations in Hin. rewrite elem_of_order_by, elem_of_select in Hin.
  destruct Hin as [Hx Hcond]. split_bools. simplify_eq.
  match goal with H : operations db !! id = Some ?y |- _ => rename y into o end.
  erewrite (release_unfinished id); [|cbn; apply lookup_insert_eq|]; cbn.
  2:{ eapply (outcome_none_iff db id o Queued); [by apply HI|done|by left]. }
  match goal with H : sessions (release_finished_effect_requests _ _) !! _ = _ |- _ =>
    rewrite (proj1 (proj2 (release_tables _ _))) in H; cbn in H end.
  eapply activated_inv; try done.
  intros j y Hy Hys Hyq.
  apply (order_by_head _ _ _ _ EQ (j, y)). apply elem_of_select. split; [done|].
  rewrite bool_decide_true by done. done.
Qed.


(** ** Terminal transactions *)
Lemma release_session_ok s id msg o' db u db' :
  release_session s id msg (release_finished_effect_requests id
    (with_operations (<[id := o']> (operations db)) db)) = Ok (u, db') →
  ∃ r, sessions db !! s = Some r ∧ s_active_operation_id r = Some id ∧
    session_checks (set_active None r) = true ∧ db' = ended_db db s r id o'.
Proof.
  intros E. unfold release_session in E. inv_tx. split_bools.
  match goal with H : sessions _ !! _ = Some ?r |- _ =>
    pose proof H as Hr; rewrite (proj1 (proj2 (release_tables _ _))) in Hr; cbn in Hr;
    exists r end.
  split_and!; try done. unfold ended_db. by rewrite (proj1 (proj2 (release_tables _ _))).
Qed.

Lemma active_session db s r id o :
  Inv db → sessions db !! s = Some r → s_active_operation_id r = Some id →
  operations db !! id = Some o → o_session_id o = s.
Proof.
  intros HI Hr Ha Ho. destruct (inv_sessions _ HI _ _ Hr) as [HA _].
  destruct (proj1 (HA id) Ha) as (x & ? & ? & ?). congruence.
Qed.

Lemma deciding_at_spec n o : deciding_at n o = true ↔ o_phase o = as_str NeedDecision ∧ o_transition_version o = n.
Proof. unfold deciding_at. by rewrite andb_true_iff, String.eqb_eq, Z.eqb_eq. Qed.

Lemma decision_effect_outcome d c evs p out :
  decision_effect d = Ok (c, evs, p, out) →
  c = decision_checkpoint d ∧
  match out with
  | None => p = NeedDecision ∧ evs ≠ []
  | Some x => terminal_outcome p x ∧ p ≠ Cancelled ∧ terminal p = true
  end.
Proof. destruct d; cbn; try (by destruct evs); intros; simplify_eq; try done; case_match; naive_solver. Qed.

Lemma commit_decision_inv nid s id n d db r db' :
  Inv db → fits db id (decision_checkpoint d) →
  commit_decision nid s id n d db = Ok (r, db') → Inv db'.
Proof.
  intros HI Hfit E. unfold commit_decision in E. inv_tx.
  destruct (cancellation_requested id db) eqn:Ec; inv_tx; [done|].
  match goal with H : decision_effect _ = _ |- _ => apply decision_effect_outcome in H as [-> HD] end.
  match goal with H : append_events _ _ _ _ _ = _ |- _ =>
    apply append_events_inv in H as (HI1 & r0 & rows & Hr0 & -> & HA); [|done] end.
  set (db1 := appended_db db s r0 l rows) in *.
  assert (fits db1 id (decision_checkpoint d)) as Hfit1 by done.
  assert (cancellation_requested id db1 = false) as Ec1 by done. clearbody db1.
  match goal with H : deciding_at n _ = true |- _ => apply deciding_at_spec in H as [Hph Hver] end.
  match goal with H : operations db1 !! id = Some ?y |- _ => rename y into row, H into Hrow end.
  pose proof (op_shape_at _ _ _ _ (inv_ops _ HI1 _ _ Hrow) Hph) as Hsh.
  destruct Hsh as (Hm & Hcur & Hnone & Hset & Hin).
  match goal with H : transpose encode_json _ = _ |- _ => rename H into Hout end.
  destruct o as [x'|]; cbn in Hout.
  - destruct HD as (Hterm & HnC & Htp). inv_tx.
    match goal with H : release_session _ _ _ _ = _ |- _ =>
      apply release_session_ok in H as (r1 & Hr1 & Ha1 & Hck1 & ->) end.
    eapply ended_inv; try done.
    + by eapply active_session.
    + by eapply new_documents.
    + by apply encode_decodes.
    + exists None. done.
    + congruence.
  - destruct HD as [-> _]. inv_tx.
    erewrite release_unfinished; [|cbn; apply lookup_insert_eq|done].
    eapply (stay_inv db1 id row _ NeedDecision NeedDecision); try done.
    by eapply new_documents.
Qed.


(** What a cancelled operation may leave open. *)
Lemma cancelled_open_ok db id o p :
  op_shape db id o p → is_cancellable p = true → p ≠ EffectDispatched →
  ∃ open, open_ok Cancelled db id open.
Proof.
  intros HS Hp Hne. destruct p; try done; cbn in HS.
  - destruct HS as (_ & _ & _ & ? & _). by exists None.
  - destruct HS as (_ & _ & _ & _ & b & _ & ? & ? & ?). exists (Some b). split; [done|].
    split; [done|]. right. auto.
  - destruct HS as (_ & _ & _ & _ & b & _ & ? & ? & ?). exists (Some b). split; [done|].
    split; [done|]. right. split; [done|]. right. done.
Qed.

Lemma commit_cancellation_inv nid s id n hw tr db u db' :
  Inv db → fits db id (ct_checkpoint tr) →
  (∀ o, operations db !! id = Some o → o_transition_version o = n →
     o_phase o ≠ as_str EffectDispatched) →
  commit_cancellation nid s id n hw tr db = Ok (u, db') → Inv db'.
Proof.
  intros HI Hfit Hnd E. unfold commit_cancellation in E. inv_tx.
  match goal with H : append_events _ _ _ _ _ = _ |- _ =>
    apply append_events_inv in H as (HI1 & r0 & rows & Hr0 & -> & HA); [|done] end.
  set (db1 := appended_db db s r0 (ct_events tr) rows) in *.
  assert (fits db1 id (ct_checkpoint tr)) as Hfit1 by done.
  assert (operations db1 = operations db) as Hops by done.
  clearbody db1. rewrite <- Hops in *.
  match goal with H : operations db1 !! id = Some ?y |- _ => rename y into row, H into Hrow end.
  rewrite Hrow in *. split_bools. simplify_eq.
  destruct (_ && _) eqn:EG in *; [|done]. simplify_eq. split_bools.
  match goal with H : from_database _ = Ok ?q |- _ => rename q into p; apply from_database_ok in H as Hph end.
  match goal with H : release_session _ _ _ _ = _ |- _ =>
    apply release_session_ok in H as (r1 & Hr1 & Ha1 & Hck1 & ->) end.
  pose proof (op_shape_at _ _ _ _ (inv_ops _ HI1 _ _ Hrow) Hph) as Hsh.
  eapply (ended_inv db1 _ _ id row _ Cancelled); try done.
  - eapply new_documents; try done. by destruct p; try done; cbn in Hsh; naive_solver.
  - by apply encode_decodes.
  - done.
  - eapply cancelled_open_ok; [done..|]. intros ->. by apply (Hnd row).
Qed.


Lemma commit_unknown_effect_abandonment_inv nid s id n hw ab db x db' :
  Inv db → fits db id (ab_checkpoint ab) →
  commit_unknown_effect_abandonment nid s id n hw ab db = Ok (x, db') → Inv db'.
Proof.
  intros HI Hfit E. unfold commit_unknown_effect_abandonment in E. inv_tx.
  match goal with H : append_events _ _ _ _ _ = _ |- _ =>
    apply append_events_inv in H as (HI1 & r0 & rows & Hr0 & -> & HA); [|done] end.
  set (db1 := appended_db db s r0 (ab_events ab) rows) in *.
  assert (fits db1 id (ab_checkpoint ab)) as Hfit1 by done.
  assert (cancellation_requested id db1 = cancellation_requested id db) as Hreq by done.
  clearbody db1.
  match goal with H : operations db1 !! id = Some ?y |- _ => rename y into row, H into Hrow end.
  split_bools.
  match goal with H : release_session _ _ _ _ = _ |- _ =>
    apply release_session_ok in H as (r1 & Hr1 & Ha1 & Hck1 & ->) end.
  pose proof (op_shape_at _ _ _ OutcomeUnknown (inv_ops _ HI1 _ _ Hrow) ltac:(done)) as Hsh.
  destruct Hsh as (Hm & Hc & _ & _ & b & _ & Hown & Hsh & Hset).
  eapply (ended_inv db1 _ _ id row _ Failed); try done.
  - by eapply new_documents.
  - by apply encode_decodes.
  - done.
  - exists (Some b). split; [done|]. split; [done|]. by left.
  - congruence.
Qed.

Lemma requested_inv db k s id o :
  Inv db → operations db !! id = Some o → o_session_id o = s → o_outcome_json o = None →
  Inv (with_cancellations (<[k := MkCancellation s id]> (cancellation_requests db)) db).
Proof.
  intros [HS HO HSe HC] Ho Hs Hn. split.
  - destruct HS. by split.
  - intros j x Hx. eapply op_inv_ext; [..|by apply HO]; done.
  - intros s' r Hr. eapply session_inv_ext; [|by apply HSe]. done.
  - intros k' c. cbn. intros [[<- <-]|[_ Hc]]%lookup_insert_Some; [cbn; eauto|]. by apply (HC k').
Qed.

Lemma request_cancellation_inv s id k db b db' :
  Inv db → request_cancellation s id k db = Ok (b, db') → Inv db'.
Proof.
  intros HI E. unfold request_cancellation in E. inv_tx.
  destruct (cancellation_requests db !! k) as [c|].
  { destruct (_ || _); inv_tx. done. }
  inv_tx. destruct (operations db !! id) as [o|] eqn:Ho; [|by inv_tx].
  case_decide; [|by inv_tx]. destruct (sessions db !! s) as [r|]; [|by inv_tx]. inv_tx.
  match goal with H : from_database _ = Ok ?q |- _ =>
    rename q into p; apply from_database_ok in H as Hph end.
  destruct (_ && _) eqn:EG in *; inv_tx.
  eapply (requested_inv _ _ _ _ o); [done..|]. eapply (outcome_none_iff db id o p); [by apply HI|done|].
  destruct p; cbn in EG; rewrite ?orb_true_r in EG; naive_solver.
Qed.
End operation_inv.
