(* ===== verification/EffectInv.v ===== *)
(** * Effect batches keep the invariant

    Settlement, completion, closing for cancellation, and the status reads they
    depend on. *)
From S2P Require Import Prelude Json State Schema SchemaFacts Admission OperationStore EffectStore.
From S2P Require Import Cancellation Invariant AdmissionInv OperationInv.
Section effect_inv.
Context `{KS : KernelSerde} `{!KernelSerdeLaws}.
Implicit Types (db : Database) (o : OperationRow) (e : EffectRow).

(** ** Reading the children of a batch *)
Lemma elem_of_batch_effects db id b k e :
  (k, e) ∈ batch_effects db id b ↔ owns db id b ∧ effects db !! k = Some e ∧ e_batch_id e = b.
Proof.
  unfold batch_effects. destruct (batch_of_operation db id b) eqn:E.
  - rewrite elem_of_order_by, elem_of_select, bool_decide_eq_true.
    apply batch_of_operation_spec in E. split; [by intros [? ?]|by intros (? & ? & ?)].
  - split; [by intros ?%elem_of_nil|]. intros [Ho _]. apply batch_of_operation_spec in Ho. congruence.
Qed.

Lemma status_name_inj s s' : status_name s = status_name s' → s = s'.
Proof. by destruct s, s'. Qed.

Lemma load_batch_statuses_ok id b db l :
  load_batch_statuses id b db = Ok l →
  owns db id b ∧
  ∀ s, has_status s l = true ↔
    ∃ k e, effects db !! k = Some e ∧ e_batch_id e = b ∧ e_status e = status_name s.
Proof.
  unfold load_batch_statuses. intros HE. apply result_bind_ok in HE as (l' & HC & HE).
  assert (l' = l ∧ l ≠ []) as [-> Hne] by (destruct l'; naive_solver). clear HE.
  destruct (collect_enum_lookup _ _ _ _ HC) as [Hlen HL]. split.
  - destruct (batch_effects db id b) as [|[k e] rest] eqn:EB; [by destruct l|].
    assert ((k, e) ∈ batch_effects db id b) as Hin by (rewrite EB; left).
    by apply elem_of_batch_effects in Hin as [? _].
  - intros s. unfold has_status. rewrite existsb_exists. setoid_rewrite <- list_elem_of_In.
    setoid_rewrite bool_decide_eq_true. split.
    + intros (x & Hx & ->). destruct (collect_enum_elem _ _ _ _ _ HC Hx) as (j & [k e] & Hj & Hf).
      apply list_elem_of_lookup_2, elem_of_batch_effects in Hj as (_ & ? & ?).
      apply result_bind_ok in Hf as (? & _ & Hs). apply parse_status_ok in Hs. eauto.
    + intros (k & e & He & Hb & Hs).
      assert (owns db id b) as Hown.
      { destruct (batch_effects db id b) as [|[k' e'] rest] eqn:EB; [by destruct l|].
        assert ((k', e') ∈ batch_effects db id b) as Hin by (rewrite EB; left).
        by apply elem_of_batch_effects in Hin as [? _]. }
      assert ((k, e) ∈ batch_effects db id b) as Hin by by apply elem_of_batch_effects.
      apply list_elem_of_lookup_1 in Hin as [j Hj].
      destruct (HL _ _ Hj) as (x & Hx & Hf). apply result_bind_ok in Hf as (? & _ & Hp).
      cbn in Hp. apply parse_status_ok in Hp. exists x. split; [by eapply list_elem_of_lookup_2|].
      apply status_name_inj. congruence.
Qed.

Lemma effect_status_cases e :
  effect_checks e = true →
  e_status e = "intent_committed" ∨ e_status e = "dispatch_started" ∨
  e_status e = "settled" ∨ e_status e = "outcome_unknown".
Proof.
  unfold effect_checks. intros. split_bools. cbn in *.
  repeat match goal with H : (_ || _)%bool = true |- _ => apply orb_prop in H as [H|H] end;
    split_bools; try done; auto.
Qed.

Lemma has_status_false id b db l s :
  load_batch_statuses id b db = Ok l → has_status s l = false →
  children db b (λ e, e_status e ≠ status_name s).
Proof.
  intros HL Hs k e He Hb Heq. apply load_batch_statuses_ok in HL as [_ HL].
  assert (has_status s l = true) by (apply HL; eauto). congruence.
Qed.

(** ** The operation of a dispatched batch *)
Lemma dispatched_at_spec n b o :
  dispatched_at n b o = true ↔
  o_phase o = as_str EffectDispatched ∧ o_transition_version o = n ∧
  o_current_effect_batch_id o = Some b.
Proof.
  unfold dispatched_at. rewrite !andb_true_iff, String.eqb_eq, Z.eqb_eq, bool_decide_eq_true.
  naive_solver.
Qed.

Lemma require_dispatched_batch_ok id b n db u :
  require_dispatched_batch id b n db = Ok u →
  ∃ o, operations db !! id = Some o ∧ dispatched_at n b o = true.
Proof.
  unfold require_dispatched_batch. destruct (operations db !! id) as [o|]; [|done].
  destruct (dispatched_at n b o) eqn:E; naive_solver.
Qed.

Lemma dispatched_shape db id o n b :
  Inv db → operations db !! id = Some o → dispatched_at n b o = true →
  is_Some (o_manifest_json o) ∧ is_Some (o_checkpoint_json o) ∧
  o_input_effect_batch_id o = None ∧ o_outcome_json o = None ∧ owns db id b ∧
  batch_shape EffectDispatched db b ∧ settled_except db id (Some b) ∧
  o_phase o = as_str EffectDispatched ∧ o_current_effect_batch_id o = Some b.
Proof.
  intros HI Ho (Hp & _ & Hc)%dispatched_at_spec.
  pose proof (op_shape_at _ _ _ _ (inv_ops _ HI _ _ Ho) Hp) as (?&?&?&?&b'&?&?&?&?).
  assert (b' = b) as -> by congruence. split_and!; done.
Qed.

(** ** Rewriting children of a dispatched batch *)
Lemma dispatched_effects_inv db id o n b effs :
  Inv db → operations db !! id = Some o → dispatched_at n b o = true → Touches db b effs →
  (∀ k e, effs !! k = Some e → e_batch_id e = b →
     effect_open (o_manifest_json o) e ∧ e_status e ≠ "intent_committed") →
  Inv (with_effects effs db).
Proof.
  intros HI Ho Hd HT Hnew.
  destruct (dispatched_shape _ _ _ _ _ HI Ho Hd) as (Hm & Hc & Hin & Hn & Hown & Hsh & Hset & Hp & Hcur).
  rewrite <- (moved_effects db id o) by done.
  eapply (moved_inv db id o o b effs EffectDispatched EffectDispatched); try done.
  - by eapply st_operation_checks; [apply HI|].
  - by destruct (inv_ops _ HI _ _ Ho) as (_ & ? & _).
  - split_and!; try done. exists b. split_and!; try done.
    + intros k e He Hb. by apply (Hnew k e).
    + eapply moved_settled_except; [done|by left|done].
  - intros k e He Hb. by apply (Hnew k e).
Qed.

(** One child. *)
Lemma dispatched_effect_inv db id o n b k e e' :
  Inv db → operations db !! id = Some o → dispatched_at n b o = true →
  effects db !! k = Some e → e_batch_id e = b → effect_static e e' → effect_checks e' = true →
  effect_open (o_manifest_json o) e' → e_status e' ≠ "intent_committed" →
  Inv (with_effects (<[k := e']> (effects db)) db).
Proof.
  intros HI Ho Hd He Hb Hst Hck Hopen Hs.
  destruct (dispatched_shape _ _ _ _ _ HI Ho Hd) as (_ & _ & _ & Hn & Hown & Hsh & _).
  eapply dispatched_effects_inv; [done..| |].
  - eapply touches_insert; [apply HI|done..].
  - intros j x [[<- <-]|[_ Hx]]%lookup_insert_Some Hxb; [done|]. split.
    + eapply open_child; [by apply HI|done..|]. by rewrite Hxb.
    + by apply (Hsh j x).
Qed.

(** ** Completion *)
Lemma finished_batch_inv db id o n b (blocked : bool) :
  Inv db → operations db !! id = Some o → dispatched_at n b o = true →
  operation_checks (finished_batch_row b blocked o) = true →
  (if blocked then batch_shape OutcomeUnknown db b else children db b settled) →
  Inv (release_finished_effect_requests id
         (with_operations (<[id := finished_batch_row b blocked o]> (operations db)) db)).
Proof.
  intros HI Ho Hd Hck Hb.
  destruct (dispatched_shape _ _ _ _ _ HI Ho Hd) as (Hm & Hc & Hin & Hn & Hown & Hsh & Hset & Hp & Hcur).
  erewrite release_unfinished; [|cbn; apply lookup_insert_eq|done].
  assert (op_documents o) by by destruct (inv_ops _ HI _ _ Ho) as (_ & ? & _).
  eapply (stay_inv db id o _ (if blocked then OutcomeUnknown else NeedDecision) EffectDispatched);
    try done; destruct blocked; try done.
  - cbn -[batch_shape]. rewrite ?Hn. split_and!; try done. exists b. split_and!; done.
  - cbn. split_and!; try done.
    + intros c Hc' _. destruct (decide (c = b)) as [->|]; [done|]. apply Hset; [done|congruence].
    + intros c [= <-]. done.
Qed.

Lemma transition_batch_if_terminal_inv id b n db r db' :
  Inv db → transition_batch_if_terminal id b n db = Ok (r, db') → Inv db'.
Proof.
  intros HI E. unfold transition_batch_if_terminal in E. inv_tx.
  match goal with H : load_batch_statuses _ _ _ = Ok ?l |- _ => rename l into sts, H into HL end.
  destruct (has_status IntentCommitted sts) eqn:E1; inv_tx.
  destruct (has_status DispatchStarted sts) eqn:E2; inv_tx; [done|].
  unfold transition_finished_batch in *. inv_tx.
  eapply finished_batch_inv; [done..|].
  pose proof (has_status_false _ _ _ _ _ HL E1) as C1.
  pose proof (has_status_false _ _ _ _ _ HL E2) as C2.
  assert (children db b (λ e, e_status e = "settled" ∨ e_status e = "outcome_unknown")) as C.
  { intros k e He Hb. specialize (C1 k e He Hb). specialize (C2 k e He Hb).
    destruct (effect_status_cases e) as [|[|[|]]]; auto; try done.
    by eapply st_effect_checks; [apply HI|]. }
  destruct (has_status EffOutcomeUnknown sts) eqn:E3.
  - split; [done|]. apply load_batch_statuses_ok in HL as [_ HL].
    by apply (HL EffOutcomeUnknown).
  - pose proof (has_status_false _ _ _ _ _ HL E3) as C3.
    intros k e He Hb. destruct (C k e He Hb) as [|Hu]; [done|]. by destruct (C3 k e He Hb).
Qed.

Lemma open_settle m e t (x : EffectOutcome) :
  effect_open m e → e_status e = "dispatch_started" → encode_json x = Ok t →
  effect_open m (settle_row t e).
Proof.
  intros (? & ? & _ & _ & Hd & Hn) Hs He. split_and!; try done; cbn.
  - intros t' [= <-]. exists x. by apply encode_decodes.
  - intros _. apply Hd. by rewrite Hs.
Qed.

Lemma open_unknown m e :
  effect_open m e → e_status e = "dispatch_started" →
  effect_open m (set_effect_status "outcome_unknown" e).
Proof.
  intros (? & ? & ? & _ & Hd & Hn) Hs. split_and!; try done; cbn.
  intros _. apply Hd. by rewrite Hs.
Qed.

Lemma settle_batch_effect_inv id b k n x db r db' :
  Inv db → settle_batch_effect id b k n x db = Ok (r, db') → Inv db'.
Proof.
  intros HI E. unfold settle_batch_effect in E. inv_tx. split_bools.
  match goal with H : require_dispatched_batch _ _ _ _ = _ |- _ =>
    apply require_dispatched_batch_ok in H as (o & Ho & Hd) end.
  destruct (dispatched_shape _ _ _ _ _ HI Ho Hd) as (_ & _ & _ & Hn & Hown & _).
  eapply transition_batch_if_terminal_inv; [|done].
  eapply dispatched_effect_inv; try done.
  eapply open_settle; try done. eapply open_child; [by apply HI|done..|congruence].
Qed.

Lemma unknown_effect_inv id b k n db o e :
  Inv db → operations db !! id = Some o → dispatched_at n b o = true →
  effects db !! k = Some e → e_batch_id e = b → e_status e = "dispatch_started" →
  effect_checks (set_effect_status "outcome_unknown" e) = true →
  Inv (with_effects (<[k := set_effect_status "outcome_unknown" e]> (effects db)) db).
Proof.
  intros HI Ho Hd He Hb Hs Hck.
  destruct (dispatched_shape _ _ _ _ _ HI Ho Hd) as (_ & _ & _ & Hn & Hown & _).
  eapply dispatched_effect_inv; try done.
  apply open_unknown; [|done]. eapply open_child; [by apply HI|done..|congruence].
Qed.

(** The child belongs to the batch it is recorded for. *)
Definition child_of db (b : EffectBatchId) (k : EffectId) : Prop :=
  ∀ e, effects db !! k = Some e → e_batch_id e = b.

Lemma record_batch_effect_unknown_inv id b k n db r db' :
  Inv db → child_of db b k → record_batch_effect_unknown id b k n db = Ok (r, db') → Inv db'.
Proof.
  intros HI Hk E. unfold record_batch_effect_unknown, update_effect_status in E. inv_tx.
  split_bools.
  match goal with H : require_dispatched_batch _ _ _ _ = _ |- _ =>
    apply require_dispatched_batch_ok in H as (o & Ho & Hd) end.
  eapply transition_batch_if_terminal_inv; [|done].
  eapply unknown_effect_inv; try done. by apply Hk.
Qed.

Lemma finish_effect_batch_attempt_inv id b n db r db' :
  Inv db → finish_effect_batch_attempt id b n db = Ok (r, db') → Inv db'.
Proof.
  intros HI E. unfold finish_effect_batch_attempt in E. inv_tx.
  destruct (cancellation_requested id db); inv_tx; [done|].
  by eapply transition_batch_if_terminal_inv.
Qed.

(** ** Closing a dispatched batch for cancellation *)
Lemma mark_dispatched_unknown_inv id b n db o u db' :
  Inv db → operations db !! id = Some o → dispatched_at n b o = true →
  mark_dispatched_unknown b db = Ok (u, db') →
  ∃ effs, db' = with_effects effs db ∧ Inv db' ∧ same_rows effect_static (effects db) effs ∧
    children db' b (λ e, e_status e = "settled" ∨ e_status e = "outcome_unknown").
Proof.
  intros HI Ho Hd E. unfold mark_dispatched_unknown in E.
  destruct (tbl_forall _ _) eqn:EF; [|done]. rewrite tbl_forall_spec in EF. inv_tx.
  set (P := λ (_ : EffectId) e, bool_decide (e_batch_id e = b) &&
              String.eqb (e_status e) "dispatch_started") in *.
  set (effs := update_where P _ (effects db)).
  destruct (dispatched_shape _ _ _ _ _ HI Ho Hd) as (_ & _ & _ & Hn & Hown & Hsh & _).
  assert (∀ k e', effs !! k = Some e' → ∃ e, effects db !! k = Some e ∧
    (P k e = true ∧ e' = set_effect_status "outcome_unknown" e ∨ P k e = false ∧ e' = e)) as Hback.
  { intros k e'. unfold effs. rewrite lookup_update_where.
    destruct (effects db !! k) as [e|]; cbn; [|done]. intros [= <-]. exists e.
    split; [done|]. destruct (P k e); auto. }
  assert (Touches db b effs) as HT.
  { split.
    - apply same_rows_update; [apply effect_static_refl|done].
    - intros k e' (e & He & [[HP ->]|[HP ->]])%Hback.
      + specialize (EF k e He). unfold P in HP. by rewrite HP in EF.
      + by eapply st_effect_checks; [apply HI|].
    - intros k e He Hne. unfold effs. rewrite lookup_update_where, He. cbn.
      unfold P. by rewrite bool_decide_false. }
  exists effs. split; [done|]. split; [|split; [apply HT|]].
  - eapply dispatched_effects_inv; [done..|].
    intros k e' (e & He & [[HP ->]|[HP ->]])%Hback Hb; unfold P in HP; split_bools.
    + split; [|done]. apply open_unknown; [|done]. eapply open_child; [by apply HI|done..|].
      congruence.
    + split; [|by apply (Hsh k)]. eapply open_child; [by apply HI|done..|]. congruence.
  - cbn. intros k e' (e & He & [[HP ->]|[HP ->]])%Hback Hb; [by right|].
    unfold P in HP. rewrite bool_decide_true in HP by done. cbn in HP. split_bools.
    destruct (effect_status_cases e) as [Hc|[|[|]]]; auto; try done.
    + by eapply st_effect_checks; [apply HI|].
    + by destruct (Hsh k e He Hb).
Qed.

Lemma close_dispatched_batch_inv id b n db p db' :
  Inv db → close_dispatched_batch_for_cancellation id b n db = Ok (p, db') → Inv db'.
Proof.
  intros HI E. unfold close_dispatched_batch_for_cancellation in E. inv_tx.
  match goal with H : require_dispatched_batch _ _ _ _ = _ |- _ =>
    apply require_dispatched_batch_ok in H as (o & Ho & Hd) end.
  match goal with H : mark_dispatched_unknown _ _ = _ |- _ =>
    eapply mark_dispatched_unknown_inv in H as (effs & -> & HI1 & _ & HC); [|done..] end.
  match goal with H : load_batch_statuses _ _ _ = Ok ?l |- _ => rename l into sts, H into HL end.
  destruct (_ || _); inv_tx. unfold transition_finished_batch in *. inv_tx.
  eapply finished_batch_inv; [done..|].
  destruct (has_status EffOutcomeUnknown sts) eqn:E3.
  - split; [done|]. apply load_batch_statuses_ok in HL as [_ HL].
    by apply (HL EffOutcomeUnknown).
  - pose proof (has_status_false _ _ _ _ _ HL E3) as C3.
    intros k e He Hb. destruct (HC k e He Hb) as [|Hu]; [done|]. by destruct (C3 k e He Hb).
Qed.

Lemma load_requested_cancellation_inv s id db r db' :
  Inv db → load_requested_cancellation s id db = Ok (r, db') → Inv db'.
Proof.
  intros HI E. unfold load_requested_cancellation in E. inv_tx.
  destruct (negb _); inv_tx; [done|].
  match goal with H : close_if_dispatched _ _ _ = _ |- _ => rename H into HC end.
  unfold close_if_dispatched in HC. destruct (phase _); inv_tx; try done.
  match goal with H : close_dispatched_batch_for_cancellation _ _ _ _ = Ok (?q, _) |- _ =>
    apply close_dispatched_batch_inv in H; [|done]; destruct q; inv_tx; done end.
Qed.
End effect_inv.

(** * Committing an effect batch intent keeps the invariant

    The one transaction that adds a batch and its effects. *)
Section intent_inv.
Context `{KS : KernelSerde} `{!KernelSerdeLaws}.
Implicit Types (db : Database) (o : OperationRow) (e : EffectRow).

(** [e] is the row of one of the intents [l]. *)
Definition intent_effect (b : EffectBatchId) (l : list (NewEffectIntent * Text)) e : Prop :=
  effect_checks e = true ∧ ∃ p i t, (i, t) ∈ l ∧ e = intent_row b p i t.

Record Intended db (b : EffectBatchId) (l : list (NewEffectIntent * Text)) (n : Z)
    (effs : gmap EffectId EffectRow) : Prop := {
  in_gapless : gapless effs (λ e, e_batch_id e = b) e_position n;
  in_keep : ∀ k e, effects db !! k = Some e → effs !! k = Some e;
  in_new : ∀ k e, effs !! k = Some e → effects db !! k = Some e ∨ intent_effect b l e;
}.

Lemma insert_intents_ok nid b l : ∀ pos db u db',
  insert_intents nid b pos l db = Ok (u, db') → 0 ≤ pos →
  gapless (effects db) (λ e, e_batch_id e = b) e_position pos →
  ∃ effs, db' = with_effects effs db ∧ Intended db b l (pos + Z.of_nat (length l)) effs.
Proof.
  induction l as [|[i t] l IH]; intros pos db u db' E Hpos HG; cbn in E.
  { inv_tx. exists (effects db). split; [by destruct db|]. cbn. rewrite Z.add_0_r.
    split; [done|done|by left]. }
  inv_tx.
  match goal with H : insert_intents _ _ _ _ ?d = _ |- _ =>
    destruct (IH _ _ _ _ H) as (effs & -> & HA) end.
  { lia. }
  { cbn. by apply gapless_insert_next. }
  exists effs. split; [done|]. destruct HA as [Hg Hk Hn]. cbn in *. split.
  - by replace (pos + Z.of_nat (S (length l))) with (pos + 1 + Z.of_nat (length l)) by lia.
  - intros k e He. apply Hk. rewrite lookup_insert_ne by congruence. done.
  - intros k e He. destruct (Hn k e He) as [He'|[Hck (p & i' & t' & Hin & ->)]].
    + apply lookup_insert_Some in He' as [[<- <-]|[_ ?]]; [|by left]. right.
      split; [done|]. exists pos, i, t. split; [left|done].
    + right. split; [done|]. exists p, i', t'. split; [by right|done].
Qed.

Definition intended_db db (id : OperationId) o' (b : EffectBatchId) (pos : Z)
    (effs : gmap EffectId EffectRow) : Database :=
  with_operations (<[id := o']> (operations db))
    (with_effects effs (with_batches (<[b := MkBatch id pos]> (effect_batches db)) db)).

Section intended.
Context db (id : OperationId) o o' (b : EffectBatchId) (pos : Z)
  (l : list (NewEffectIntent * Text)) (n : Z) (effs : gmap EffectId EffectRow).
Context (HI : Inv db) (Ho : operations db !! id = Some o).
Context (Hpl : same_place o o') (Hcm : o_command_id o' = o_command_id o).
Context (Hsv : o_state_version o' = o_state_version o).
Context (Hnext : o_next_effect_batch_position o' = o_next_effect_batch_position o + 1).
Context (Hpos : pos = o_next_effect_batch_position o).
Context (Hck : operation_checks o' = true) (Hbck : batch_checks (MkBatch id pos) = true).
Context (Hfresh : effect_batches db !! b = None) (Hn : 0 < n).
Context (HT : Intended db b l n effs).
Let db' := intended_db db id o' b pos effs.

Lemma intended_old_batch k e : effects db !! k = Some e → e_batch_id e ≠ b.
Proof.
  intros He Hb. destruct (st_effect _ (inv_static _ HI) k e He) as [r Hr]. congruence.
Qed.

Lemma intended_back k e : effs !! k = Some e → e_batch_id e ≠ b → effects db !! k = Some e.
Proof.
  intros He Hne. destruct (in_new _ _ _ _ _ HT k e He) as [|[_ (p & i & t & _ & ->)]]; done.
Qed.

Lemma intended_child k e : effs !! k = Some e → e_batch_id e = b → intent_effect b l e.
Proof.
  intros He Hb. destruct (in_new _ _ _ _ _ HT k e He) as [He'|]; [|done].
  by destruct (intended_old_batch _ _ He').
Qed.

Lemma intended_owns j c : owns db' j c ↔ owns db j c ∨ j = id ∧ c = b.
Proof.
  unfold owns, db'. cbn. split.
  - intros (r & [[<- <-]|[? ?]]%lookup_insert_Some & <-); eauto.
  - intros [(r & Hr & <-)|[-> ->]].
    + exists r. rewrite lookup_insert_ne by congruence. done.
    + eexists. by rewrite lookup_insert_eq.
Qed.

Lemma intended_operation j x' : operations db' !! j = Some x' →
  ∃ x, operations db !! j = Some x ∧ o_session_id x = o_session_id x' ∧
    o_command_id x = o_command_id x' ∧ o_position x = o_position x' ∧
    o_state_version x = o_state_version x' ∧ (j ≠ id → x = x').
Proof.
  cbn. intros [[<- <-]|[? ?]]%lookup_insert_Some.
  - exists o. destruct Hpl. split_and!; done || congruence.
  - exists x'. done.
Qed.

Lemma intended_static : Static db'.
Proof.
  pose proof (inv_static _ HI) as HS.
  assert (same_rows (λ x x', o_session_id x = o_session_id x' ∧ o_position x = o_position x' ∧
            o_command_id x = o_command_id x') (operations db) (operations db')) as Hrows.
  { cbn. eapply same_rows_insert; [done|done|]. destruct Hpl. done. }
  split; try apply HS.
  - intros k r. cbn. intros [[<- <-]|[_ Hr]]%lookup_insert_Some.
    + split; [done|]. rewrite Hsv. by eapply st_operation_checks.
    + by eapply st_operation_checks.
  - intros k r. cbn. intros [[<- <-]|[_ Hr]]%lookup_insert_Some; [done|]. by eapply st_batch_checks.
  - intros k e He. cbn in He. destruct (in_new _ _ _ _ _ HT k e He) as [|[? _]]; [|done].
    by eapply st_effect_checks.
  - intros c r Hr. destruct (st_command _ HS c r Hr) as (? & ? & j & x & Hx & <-).
    split_and!; try done. destruct (same_rows_forth _ _ _ _ _ Hrows Hx) as (x' & ? & _ & _ & ?).
    exists j, x'. done.
  - intros j x' (x & Hx & <- & <- & _)%intended_operation. by apply (st_operation _ HS j x).
  - intros j1 x1 j2 x2 (y1 & H1 & _ & <- & _)%intended_operation
      (y2 & H2 & _ & <- & _)%intended_operation. by eapply st_command_inj.
  - intros s r Hr. eapply same_rows_gapless; [|exact Hrows|by eapply st_positions].
    intros v v' (-> & -> & _). done.
  - intros k v Hv. destruct (st_event _ HS k v Hv) as (? & (x & Hx & Hxs) & ?).
    split_and!; try done. destruct (same_rows_forth _ _ _ _ _ Hrows Hx) as (x' & ? & ? & _).
    exists x'. split; [done|congruence].
  - intros c r. change (effect_batches db') with (<[b := MkBatch id pos]> (effect_batches db)).
    intros [[<- <-]|[Hne Hr]]%lookup_insert_Some.
    + split; [cbn; rewrite lookup_insert_eq; eauto|]. exists n. split; [done|]. apply HT.
    + destruct (st_batch _ HS c r Hr) as (Hop & m & Hm & HG). split.
      * by apply (same_rows_is_Some _ _ _ _ Hrows).
      * exists m. split; [done|]. eapply gapless_extend_other; [apply HT| |exact HG].
        intros k e He. destruct (decide (e_batch_id e = c)) as [Hc|]; [left|by right].
        apply intended_back; [done|congruence].
  - intros j x'. cbn. intros [[<- <-]|[Hne Hx]]%lookup_insert_Some.
    + rewrite Hnext. apply gapless_insert_next; cbn; try done.
      * pose proof (proj1 (st_operation_checks _ HS _ _ Ho)) as Hc. unfold operation_checks in Hc.
        split_bools. lia.
      * by apply (st_batch_positions _ HS id o).
    + apply gapless_insert_other; cbn; [done|congruence|]. by eapply st_batch_positions.
  - intros k e He. cbn in *. destruct (decide (e_batch_id e = b)) as [->|Hne].
    + rewrite lookup_insert_eq. eauto.
    + rewrite lookup_insert_ne by done. eapply st_effect; [done|]. by apply (intended_back k).
Qed.

Lemma intended_frame : frame_effects id db db'.
Proof.
  split; cbn.
  - intros c r Hr. split.
    + intros Hc. rewrite lookup_insert_ne by congruence. done.
    + intros [[<- <-]|[_ ?]]%lookup_insert_Some; done.
  - intros j k e Hj Hown. assert (e_batch_id e ≠ b) as Hne.
    { intros Hb. destruct Hown as (r & Hr & _). congruence. }
    split; [apply HT|]. intros He. by apply intended_back.
Qed.

Context (Hph : o_phase o = as_str NeedDecision) (Hph' : o_phase o' = as_str EffectIntent).
Context (Hm : o_manifest_json o' = o_manifest_json o) (Hdoc : op_documents o').
Context (Hc' : is_Some (o_checkpoint_json o')) (Hcur : o_current_effect_batch_id o' = Some b).
Context (Hin : o_input_effect_batch_id o' = None) (Hout : o_outcome_json o' = None).
Context (Hopen : ∀ e, intent_effect b l e → effect_open (o_manifest_json o) e).

Lemma intended_op_inv : op_inv db' id o'.
Proof.
  pose proof (inv_ops _ HI _ _ Ho) as Hop.
  pose proof (op_shape_at _ _ _ _ Hop Hph) as (Hms & _ & Hnone & Hset & _).
  split_and!; [|done|].
  - exists EffectIntent. split; [done|]. cbn. rewrite Hm. split_and!; try done. exists b.
    split_and!; [done|apply intended_owns; by right| |].
    + intros k e He Hb. cbn in He. by destruct (intended_child k e He Hb) as (_ & p & i & t & _ & ->).
    + intros c [Hc|[_ ->]]%intended_owns Hne; [|done]. intros k e He Hb. cbn in He.
      assert (e_batch_id e ≠ b) as Hneb by congruence.
      eapply (Hset c Hc); [done|by apply intended_back|done].
  - intros k e He Hown. apply effect_inv_open; [done|]. rewrite Hm. cbn in He.
    destruct (decide (e_batch_id e = b)) as [Hb|Hb].
    + apply Hopen. by apply (intended_child k).
    + apply intended_owns in Hown as [Hown|[_ ?]]; [|done].
      eapply open_child; [done|done|by apply intended_back|done].
Qed.

Lemma intended_inv : Inv db'.
Proof.
  eapply (Inv_transition db db' id o o'); try done.
  - apply intended_static.
  - by destruct Hpl.
  - apply intended_frame.
  - apply intended_op_inv.
  - intros s r Hne. eapply session_inv_other; done || congruence.
  - intros r Hr. cbn in Hr. eapply session_inv_stay; try done.
    + by rewrite (active_phase_as_str _ _ Hph), (active_phase_as_str _ _ Hph').
    + by rewrite (queued_as_str _ _ Hph), (queued_as_str _ _ Hph').
    + by apply (inv_sessions _ HI).
  - by left.
Qed.
End intended.

(** The intents name bindings of the operation's frozen manifest. *)
Definition bound db (id : OperationId) (l : list NewEffectIntent) : Prop :=
  ∀ o tm m, operations db !! id = Some o → o_manifest_json o = Some tm → decodes tm m →
    ∀ i, i ∈ l → effect_bindings m !! ni_binding i = Some (ni_binding_revision i).

Lemma intent_effect_open db id o b l reqs e :
  Inv db → operations db !! id = Some o → is_Some (o_manifest_json o) → bound db id l →
  collect (λ i, encode_json (ni_request i)) l = Ok reqs →
  intent_effect b (zip l reqs) e → effect_open (o_manifest_json o) e.
Proof.
  intros HI Ho [tm Htm] Hb HC [_ (p & i & t & Hin & ->)].
  destruct (inv_ops _ HI _ _ Ho) as (_ & [HM _] & _). destruct (HM tm Htm) as [m Hdm].
  apply list_elem_of_lookup_1 in Hin as [j Hj]. apply lookup_zip_Some in Hj as [Hi Ht].
  destruct (collect_lookup _ _ _ HC) as [_ HL]. destruct (HL j i Hi) as (t' & Ht' & Henc).
  assert (t' = t) as -> by congruence.
  split_and!; cbn; try done.
  - exists tm, m. split_and!; [done..|]. eapply Hb; [done..|]. by eapply list_elem_of_lookup_2.
  - exists t, (ni_request i). split; [done|]. by apply encode_decodes.
Qed.

Lemma commit_effect_batch_intent_inv nb ne id n intent db r db' :
  Inv db → fits db id (nb_checkpoint intent) → bound db id (nb_effects intent) →
  commit_effect_batch_intent nb ne id n intent db = Ok (r, db') → Inv db'.
Proof.
  intros HI Hfit Hb E. unfold commit_effect_batch_intent in E.
  destruct (nb_effects intent) as [|i0 is0] eqn:EI; [by inv_tx|]. rewrite <- EI in *.
  inv_tx. destruct (cancellation_requested id db) eqn:Ec; inv_tx; [done|].
  destruct (operations db !! id) as [o|] eqn:Ho; [|done].
  destruct (deciding_at n o) eqn:Hd; [|done]. inv_tx.
  apply deciding_at_spec in Hd as [Hph Hver].
  pose proof (op_shape_at _ _ _ _ (inv_ops _ HI _ _ Ho) Hph) as (Hms & Hcur & Hnone & Hset & _).
  match goal with H : collect _ _ = Ok ?rs |- _ => rename rs into reqs, H into HC end.
  match goal with H : insert_intents _ _ _ _ _ = _ |- _ => apply insert_intents_ok in H end;
    [|done| ].
  2:{ cbn. split; [|intros p; split; [lia|]].
      - intros k1 v1 k2 v2 H1. pose proof (st_effect _ (inv_static _ HI) _ _ H1) as [? ?]. congruence.
      - intros (k & v & H1 & <- & _). pose proof (st_effect _ (inv_static _ HI) _ _ H1) as [? ?]. congruence. }
  inv_tx. cbn in *. rewrite Ho in *. simplify_eq.
  erewrite release_unfinished; [|cbn; apply lookup_insert_eq|done].
  match goal with H : operations db !! id = Some ?y |- _ => rename y into o end.
  eapply (intended_inv db id o _ nb _ (zip (nb_effects intent) reqs)
            (Z.of_nat (length (zip (nb_effects intent) reqs)))); try done.
  - rewrite length_zip. destruct (collect_lookup _ _ _ HC) as [-> _]. rewrite EI. cbn. lia.
  - match goal with H : Intended _ _ _ _ _ |- _ => by destruct H end.
  - by eapply new_documents.
  - intros e He. by eapply intent_effect_open.
Qed.
End intent_inv.
