(* ===== verification/DispatchInv.v ===== *)
(** * Dispatching an effect batch keeps the invariant

    What [prepare_effect_batch] does to every child of the active batch, and
    which invocations it hands out. *)
From S2P Require Import Prelude Json State Schema SchemaFacts Admission OperationStore EffectStore.
From S2P Require Import Cancellation Invariant AdmissionInv OperationInv EffectInv.
Section dispatch_inv.
Context `{KS : KernelSerde} `{!KernelSerdeLaws}.
Implicit Types (db : Database) (o : OperationRow) (e : EffectRow).

(** What preparation does to one child in phase [p]. *)
Inductive child_step : OperationPhase → EffectRow → EffectRow → Prop :=
| step_first e :
    e_status e = "intent_committed" →
    child_step EffectIntent e (dispatch_row (e_dispatch_count e + 1) e)
| step_replay e :
    e_status e = "dispatch_started" → e_recovery e = "safe_to_replay" →
    child_step EffectDispatched e (dispatch_row (e_dispatch_count e + 1) e)
| step_give_up e :
    e_status e = "dispatch_started" → e_recovery e = "never_replay" →
    child_step EffectDispatched e (set_effect_status "outcome_unknown" e)
| step_closed e :
    e_status e = "settled" ∨ e_status e = "outcome_unknown" →
    child_step EffectDispatched e e.

Lemma child_step_static p e e' : child_step p e e' → effect_static e e'.
Proof. by destruct 1. Qed.

Lemma child_step_status p e e' : child_step p e e' → e_status e' ≠ "intent_committed".
Proof. destruct 1 as [| | |? [Hs|Hs]]; cbn; try done; by rewrite Hs. Qed.

Lemma child_step_open p m e e' :
  child_step p e e' → effect_open m e → effect_open m e'.
Proof.
  intros HC HO. destruct HC as [e Hs|e Hs Hr|e Hs Hr|e Hs]; [| |by apply open_unknown|done];
    destruct HO as (? & ? & ? & H0 & H1 & Hn); split_and!; try done; cbn.
  - rewrite H0 by done. lia.
  - rewrite H0 by done. lia.
  - intros _. assert (1 ≤ e_dispatch_count e); [|lia]. apply H1. by rewrite Hs.
  - congruence.
Qed.

(** The stored child a prepared effect was read from. *)
Definition prepared_from e (x : PreparedEffect) : Prop :=
  e_binding e = pr_binding x ∧ e_binding_revision e = pr_binding_revision x ∧
  e_recovery e = recovery_as_str (pr_recovery x) ∧ e_status e = status_name (pr_status x) ∧
  e_dispatch_count e = pr_dispatch_count x ∧
  ∃ t, e_request_json e = Some t ∧ decode_json t = Ok (pr_request x).

Lemma prepared_effect_ok i k e x :
  prepared_effect i (k, e) = Ok x → pr_effect_id x = k ∧ prepared_from e x.
Proof.
  intros E. cbn in E. inv_tx.
  repeat match goal with
  | H : parse_recovery _ = Ok _ |- _ => apply parse_recovery_ok in H
  | H : parse_status _ = Ok _ |- _ => apply parse_status_ok in H
  | H : from_sql_integer _ _ = Ok _ |- _ => apply from_sql_integer_ok in H as [-> _]
  end. split; [done|]. split_and!; cbn; eauto.
Qed.

(** The invocation [p] of child [k], whose row became [e'] from [e]. *)
Definition pending_of (b : EffectBatchId) (nt : Z) (k : EffectId) e e' (p : PendingEffect) : Prop :=
  pe_batch_id p = b ∧ pe_effect_id p = k ∧ pe_transition_version p = nt ∧
  pe_binding p = e_binding e ∧ pe_binding_revision p = e_binding_revision e ∧
  recovery_as_str (pe_recovery p) = e_recovery e ∧
  pe_dispatch_count p = e_dispatch_count e + 1 ∧ e' = dispatch_row (pe_dispatch_count p) e ∧
  ∃ t, e_request_json e = Some t ∧ decode_json t = Ok (pe_request p).

(** The child [k] after preparation: its row, what the caller sees, and its
    invocation if there is one. *)
Definition child_result (ph : OperationPhase) (b : EffectBatchId) (nt : Z) (k : EffectId) e e'
    (inv : option PendingEffect) (x' : PreparedEffect) : Prop :=
  child_step ph e e' ∧ effect_checks e' = true ∧ pr_effect_id x' = k ∧
  e_status e' = status_name (pr_status x') ∧
  match inv with
  | Some p => pending_of b nt k e e' p
  | None => e_status e' ≠ "dispatch_started" ∧ e_dispatch_count e' = e_dispatch_count e
  end.

Lemma dispatch_child_ok ph b nt x db r db' e :
  effects db !! pr_effect_id x = Some e → prepared_from e x →
  child_step ph e (dispatch_row (e_dispatch_count e + 1) e) →
  dispatch_child b nt x db = Ok (r, db') →
  ∃ e', db' = with_effects (<[pr_effect_id x := e']> (effects db)) db ∧
    child_result ph b nt (pr_effect_id x) e e' r.1 r.2.
Proof.
  intros He (Hb & Hr & Hrec & Hs & Hc & Hq) Hstep E. unfold dispatch_child in E. inv_tx.
  rewrite He in *. simplify_eq. rewrite Hc in Hstep. eexists. split; [done|].
  split_and!; try done; cbn. unfold pending_of; cbn. rewrite Hc. split_and!; eauto.
Qed.

Lemma insert_effects_id db k e :
  effects db !! k = Some e → with_effects (<[k := e]> (effects db)) db = db.
Proof. intros He. rewrite insert_id by done. by destruct db. Qed.

Lemma prepare_child_ok ph b nt x db r db' e :
  effects db !! pr_effect_id x = Some e → effect_checks e = true → prepared_from e x →
  prepare_child ph b nt x db = Ok (r, db') →
  ∃ e', db' = with_effects (<[pr_effect_id x := e']> (effects db)) db ∧
    child_result ph b nt (pr_effect_id x) e e' r.1 r.2.
Proof.
  intros He Hck HP E. pose proof HP as (Hb & Hr & Hrec & Hs & Hc & Hq).
  unfold prepare_child in E.
  destruct ph, (pr_status x) eqn:Est; try (by inv_tx); cbn in Hs.
  - eapply dispatch_child_ok; [done..| |done]. by constructor.
  - destruct (pr_recovery x) eqn:Erec; cbn in Hrec.
    + eapply dispatch_child_ok; [done..| |done]. by constructor.
    + unfold update_effect_status in E. inv_tx. rewrite He in *. simplify_eq.
      eexists. split; [done|]. split_and!; try done. by constructor.
  - inv_tx. exists e. rewrite insert_effects_id by done. split; [done|].
    split_and!; cbn; rewrite ?Est; try done; try congruence. constructor. by left.
  - inv_tx. exists e. rewrite insert_effects_id by done. split; [done|].
    split_and!; cbn; rewrite ?Est; try done; try congruence. constructor. by right.
Qed.

(** All children: [effs] is the effects table afterwards, [res] the caller's view. *)
Record Prepared db (ph : OperationPhase) (b : EffectBatchId) (nt : Z)
    (stored : list PreparedEffect) (pend : list PendingEffect) (view : list PreparedEffect)
    (effs : gmap EffectId EffectRow) : Prop := {
  pd_other : ∀ k, k ∉ pr_effect_id <$> stored → effs !! k = effects db !! k;
  pd_child : ∀ x, x ∈ stored → ∃ e e' inv x',
    effects db !! pr_effect_id x = Some e ∧ effs !! pr_effect_id x = Some e' ∧
    child_result ph b nt (pr_effect_id x) e e' inv x' ∧ x' ∈ view ∧
    match inv with Some p => p ∈ pend | None => True end;
  pd_pending : ∀ p, p ∈ pend → ∃ e e', effects db !! pe_effect_id p = Some e ∧
    effs !! pe_effect_id p = Some e' ∧ child_step ph e e' ∧ pending_of b nt (pe_effect_id p) e e' p;
  pd_view : ∀ x', x' ∈ view → pr_effect_id x' ∈ pr_effect_id <$> stored ∧
    ∃ e', effs !! pr_effect_id x' = Some e' ∧ e_status e' = status_name (pr_status x');
  pd_ids : pe_effect_id <$> pend `sublist_of` pr_effect_id <$> stored;
}.

Lemma prepare_children_ok ph b nt stored : ∀ db r db',
  NoDup (pr_effect_id <$> stored) →
  (∀ x, x ∈ stored → ∃ e, effects db !! pr_effect_id x = Some e ∧ effect_checks e = true ∧
     prepared_from e x) →
  prepare_children ph b nt stored db = Ok (r, db') →
  ∃ effs, db' = with_effects effs db ∧ Prepared db ph b nt stored r.1 r.2 effs.
Proof.
  induction stored as [|x stored IH]; intros db r db' HN HS E; cbn in E.
  { inv_tx. exists (effects db). split; [by destruct db|].
    split; try done; by intros ? ?%elem_of_nil. }
  inv_tx. cbn in HN. apply NoDup_cons in HN as [Hx HN].
  destruct (HS x) as (e & He & Hck & HP); [left|].
  match goal with H : prepare_child _ _ _ _ _ = _ |- _ =>
    eapply prepare_child_ok in H as (e' & -> & HR); [|done..] end.
  match goal with H : prepare_children _ _ _ _ _ = _ |- _ => apply IH in H; [|done|] end.
  2:{ intros y Hy. cbn. destruct (HS y) as (ey & Hey & ? & ?); [by right|]. exists ey.
      rewrite lookup_insert_ne; [done|]. intros Heq. apply Hx. rewrite Heq.
      by apply list_elem_of_fmap_2. }
  match goal with H : ∃ effs, _ |- _ => destruct H as (effs & -> & [Ho Hc Hp Hv Hi]) end.
  cbn [fst snd] in *. exists effs. split; [done|].
  assert (effs !! pr_effect_id x = Some e') as He'.
  { rewrite Ho by done. cbn. apply lookup_insert_eq. }
  split; cbn.
  - intros k [Hk1 Hk2]%not_elem_of_cons. rewrite Ho by done. cbn. by rewrite lookup_insert_ne.
  - intros y [->|Hy]%elem_of_cons.
    + eexists e, e', _, _. split_and!; [done..|left|]. case_match; [left|done].
    + destruct (Hc y Hy) as (ey & ey' & inv & x' & H1 & H2 & H3 & H4 & H5).
      cbn in H1. rewrite lookup_insert_ne in H1.
      2:{ intros Heq. apply Hx. rewrite Heq. by apply list_elem_of_fmap_2. }
      eexists ey, ey', inv, x'. split_and!; [done..|by right|].
      destruct inv; [|done]. case_match; [by right|done].
  - intros q Hin.
    assert (q ∈ l ∨ o = Some q) as [Hp'|Hp'].
    { destruct o; [apply elem_of_cons in Hin as [->|]|]; auto. }
    + destruct (Hp q Hp') as (ey & ey' & H1 & H2 & H3 & H4). cbn in H1.
      apply lookup_insert_Some in H1 as [[Heq _]|[_ H1]]; [|eauto 10].
      exfalso. apply Hx. rewrite Heq. eapply elem_of_sublist; [|exact Hi].
      by apply list_elem_of_fmap_2.
    + subst o. destruct HR as (Hst & _ & _ & _ & Hpd). pose proof Hpd as (_ & -> & _). eauto 10.
  - intros x' [->|Hx']%elem_of_cons.
    + destruct HR as (_ & _ & -> & Hs & _). split; [left|eauto].
    + destruct (Hv x' Hx'). split; [by right|done].
  - destruct o as [q|]; [|by apply sublist_cons].
    destruct HR as (_ & _ & _ & _ & (_ & Hq & _)). rewrite fmap_cons, Hq. by apply sublist_skip.
Qed.


(** ** Reading the active batch *)
Lemma batch_effects_NoDup db id b : NoDup (batch_effects db id b).*1.
Proof.
  unfold batch_effects. destruct (batch_of_operation db id b); [|apply NoDup_nil_2].
  rewrite order_by_Permutation. apply NoDup_select.
Qed.

Record Loaded db (id : OperationId) (b : EffectBatchId) (stored : list PreparedEffect) : Prop := {
  ld_owns : owns db id b;
  ld_nonempty : stored ≠ [];
  ld_NoDup : NoDup (pr_effect_id <$> stored);
  ld_from : ∀ x, x ∈ stored → ∃ e, effects db !! pr_effect_id x = Some e ∧ e_batch_id e = b ∧
    prepared_from e x;
  ld_all : ∀ k e, effects db !! k = Some e → e_batch_id e = b → k ∈ pr_effect_id <$> stored;
}.

Lemma load_prepared_effects_ok id b db stored :
  load_prepared_effects id b db = Ok stored → Loaded db id b stored.
Proof.
  unfold load_prepared_effects. intros HE. apply result_bind_ok in HE as (l & HC & HE).
  assert (l = stored ∧ stored ≠ []) as [-> Hne] by (destruct l; naive_solver). clear HE.
  destruct (collect_enum_lookup _ _ _ _ HC) as [Hlen HL].
  assert (pr_effect_id <$> stored = (batch_effects db id b).*1) as Hids.
  { apply list_eq_same_length with (length stored); rewrite ?length_fmap; try done.
    intros j k1 k2 Hj H1 H2. apply list_lookup_fmap_Some in H1 as (x & -> & Hx), H2 as ([k e] & -> & Hk).
    destruct (HL j _ Hk) as (x' & Hx' & Hp). apply prepared_effect_ok in Hp as [<- _].
    by simplify_eq. }
  assert (∀ k e, (k, e) ∈ batch_effects db id b → owns db id b ∧ effects db !! k = Some e ∧
            e_batch_id e = b) as Hin by (intros k e; by rewrite elem_of_batch_effects).
  split; [|done|rewrite Hids; apply batch_effects_NoDup|..].
  - destruct (batch_effects db id b) as [|[k e] rest] eqn:EB; [by destruct stored|].
    apply (Hin k e). left.
  - intros x Hx. destruct (collect_enum_elem _ _ _ _ _ HC Hx) as (j & [k e] & Hj & Hp).
    apply list_elem_of_lookup_2 in Hj. destruct (Hin k e Hj) as (_ & He & Hb).
    apply prepared_effect_ok in Hp as [<- Hp]. eauto.
  - intros k e He Hb. rewrite Hids. apply list_elem_of_fmap. exists (k, e). split; [done|].
    apply elem_of_batch_effects. split_and!; try done.
    destruct (batch_effects db id b) as [|[k' e'] rest] eqn:EB; [by destruct stored|].
    apply (Hin k' e'). left.
Qed.

Lemma prepared_touches db ph b nt id stored pend view effs :
  Static db → Loaded db id b stored → Prepared db ph b nt stored pend view effs →
  Touches db b effs.
Proof.
  intros HS [_ _ _ Hfrom Hall] [Ho Hc _ _ _].
  assert (∀ k, k ∈ pr_effect_id <$> stored → ∃ e e', effects db !! k = Some e ∧ effs !! k = Some e' ∧
            e_batch_id e = b ∧ effect_static e e' ∧ effect_checks e' = true) as Hk.
  { intros k (x & -> & Hx)%list_elem_of_fmap. destruct (Hfrom x Hx) as (e0 & He0 & Hb & _).
    destruct (Hc x Hx) as (e & e' & inv & x' & He & He' & (Hst & Hck & _) & _).
    assert (e0 = e) as -> by congruence. exists e, e'. split_and!; try done.
    by eapply child_step_static. }
  split.
  - intros k. destruct (decide (k ∈ pr_effect_id <$> stored)) as [Hin|Hin].
    + destruct (Hk k Hin) as (e & e' & -> & -> & _ & ? & _). done.
    + rewrite Ho by done. destruct (effects db !! k); done.
  - intros k e' He'. destruct (decide (k ∈ pr_effect_id <$> stored)) as [Hin|Hin].
    + destruct (Hk k Hin) as (e & e2 & _ & ? & _ & _ & ?). by simplify_eq.
    + rewrite Ho in He' by done. by eapply st_effect_checks.
  - intros k e He Hne. rewrite Ho; [done|]. intros Hin.
    destruct (Hk k Hin) as (e1 & _ & ? & _ & ? & _). congruence.
Qed.

(** The children of the batch afterwards. *)
Lemma prepared_child db ph b nt id stored pend view effs k e' :
  Static db → Loaded db id b stored → Prepared db ph b nt stored pend view effs →
  effs !! k = Some e' → e_batch_id e' = b →
  ∃ e inv x', effects db !! k = Some e ∧ e_batch_id e = b ∧
    child_result ph b nt k e e' inv x' ∧ x' ∈ view ∧
    match inv with Some p => p ∈ pend | None => True end.
Proof.
  intros HS HL HP He' Hb. pose proof (prepared_touches _ _ _ _ _ _ _ _ _ HS HL HP) as HT.
  destruct (same_rows_back _ _ _ _ _ (tc_rows _ _ _ HT) He') as (e & He & (Hbe & _)).
  rewrite Hb in Hbe. pose proof (ld_all _ _ _ _ HL k e He Hbe) as Hin.
  apply list_elem_of_fmap in Hin as (x & -> & Hx).
  destruct (pd_child _ _ _ _ _ _ _ _ HP x Hx) as (e1 & e2 & inv & x' & ? & ? & ? & ? & ?).
  simplify_eq. eauto 10.
Qed.


(** ** The whole transaction *)
Record Dispatching db (id : OperationId) (n : Z) o (ph : OperationPhase) (b : EffectBatchId)
    (stored : list PreparedEffect) (pend : list PendingEffect) (view : list PreparedEffect)
    (effs : gmap EffectId EffectRow) : Prop := {
  dg_requested : cancellation_requested id db = false;
  dg_row : operations db !! id = Some o;
  dg_version : o_transition_version o = n;
  dg_phase : o_phase o = as_str ph;
  dg_ph : ph = EffectIntent ∨ ph = EffectDispatched;
  dg_batch : o_current_effect_batch_id o = Some b;
  dg_loaded : Loaded db id b stored;
  dg_prepared : Prepared db ph b (n + 1) stored pend view effs;
}.

Lemma dispatching_shape db id n o ph b stored pend view effs :
  Inv db → Dispatching db id n o ph b stored pend view effs →
  is_Some (o_manifest_json o) ∧ is_Some (o_checkpoint_json o) ∧
  o_input_effect_batch_id o = None ∧ o_outcome_json o = None ∧ owns db id b ∧
  settled_except db id (Some b).
Proof.
  intros HI [_ Ho _ Hp Hph Hb _ _].
  pose proof (op_shape_at _ _ _ _ (inv_ops _ HI _ _ Ho) Hp) as HS.
  destruct Hph as [-> | ->]; destruct HS as (?&?&?&?&b'&?&?&?&?);
    assert (b' = b) as -> by congruence; split_and!; done.
Qed.

Lemma prepare_effect_batch_ok id n db r db' :
  Inv db → prepare_effect_batch id n db = Ok (r, db') →
  (r = StartCancellationPending ∧ db' = db ∧ cancellation_requested id db = true) ∨
  ∃ o ph b stored pend view effs, Dispatching db id n o ph b stored pend view effs ∧
    ((pend ≠ [] ∧ r = Invoke {| pb_batch_id := b; pb_effects := pend |} ∧
      operation_checks (dispatched_row o) = true ∧
      db' = moved_db db id (dispatched_row o) effs) ∨
     (pend = [] ∧ ph = EffectDispatched ∧ ∃ blocked : bool,
        r = (if blocked then StartBlocked else StartSettled) ∧
        blocked = existsb (λ x, bool_decide (pr_status x = EffOutcomeUnknown)) view ∧
        existsb (λ x, bool_decide (pr_status x = DispatchStarted)) view = false ∧
        operation_checks (finished_batch_row b blocked o) = true ∧
        db' = moved_db db id (finished_batch_row b blocked o) effs)).
Proof.
  intros HI E. unfold prepare_effect_batch in E. inv_tx.
  destruct (cancellation_requested id db) eqn:Ec; inv_tx; [by left|right].
  match goal with H : load_active_batch _ _ _ _ = _ |- _ => unfold load_active_batch in H end.
  destruct (operations db !! id) as [row|] eqn:Ho; [|done].
  destruct (Z.eqb_spec (o_transition_version row) n) as [Hv|]; [|done]. inv_tx.
  match goal with H : from_database _ = Ok ?q |- _ =>
    rename q into ph; apply from_database_ok in H as Hph end.
  match goal with H : o_current_effect_batch_id row = Some ?c |- _ => rename c into b end.
  assert (ph = EffectIntent ∨ ph = EffectDispatched) as Hphs by (destruct ph; auto; by inv_tx).
  match goal with H : match ph with _ => _ end db = Ok (r, db') |- _ =>
    assert (dispatch_batch id (o_transition_version row) (o_transition_version row + 1) ph b db
            = Ok (r, db')) as HD by (by destruct Hphs as [-> | ->]); clear H end.
  assert (o_outcome_json row = None) as Hn.
  { eapply (outcome_none_iff db id row ph); [by apply HI|done|]. by destruct Hphs as [-> | ->]; right. }
  unfold dispatch_batch in HD. inv_tx.
  match goal with H : load_prepared_effects _ _ _ = Ok ?l |- _ =>
    apply load_prepared_effects_ok in H as HL; rename l into stored end.
  match goal with H : prepare_children _ _ _ _ _ = Ok (?q, ?v, _) |- _ =>
    rename q into pend, v into view; apply prepare_children_ok in H as (effs & -> & HP) end.
  2:{ apply HL. }
  2:{ intros x Hx. destruct (ld_from _ _ _ _ HL x Hx) as (e & He & _ & ?). exists e.
      split_and!; try done. by eapply st_effect_checks; [apply HI|]. }
  cbn [fst snd] in *.
  exists row, ph, b, stored, pend, view, effs. split; [by split|].
  destruct pend as [|p ps]; [right|left].
  - assert (ph = EffectDispatched) as ->.
    { destruct Hphs as [-> | ->]; [|done].
      destruct stored as [|x xs]; [by destruct (ld_nonempty _ _ _ _ HL)|].
      destruct (pd_child _ _ _ _ _ _ _ _ HP x) as (e & e' & inv & x' & _ & _ & HR & _ & Hin); [left|].
      destruct inv; [by apply elem_of_nil in Hin|].
      destruct HR as (Hst & _ & _ & _ & Hnd & _). by inversion Hst; subst. }
    split; [done|]. split; [done|].
    unfold finish_batch_without_invocations, transition_finished_batch in *.
    destruct (existsb (λ x, bool_decide (pr_status x = DispatchStarted)) view) eqn:E1; inv_tx.
    cbn in *. rewrite Ho in *. simplify_eq. eexists. split_and!; [done..|].
    by erewrite release_unfinished; [|cbn; apply lookup_insert_eq|done].
  - inv_tx. cbn in *. rewrite Ho in *. simplify_eq. split_and!; try done.
    by erewrite release_unfinished; [|cbn; apply lookup_insert_eq|done].
Qed.

(** A batch finished without invocations. *)
Lemma finished_children db b id stored pend view effs blocked nt :
  Static db → Loaded db id b stored →
  Prepared db EffectDispatched b nt stored pend view effs →
  blocked = existsb (λ x, bool_decide (pr_status x = EffOutcomeUnknown)) view →
  (∀ k e, effs !! k = Some e → e_batch_id e = b →
     ∃ x', e_status e = status_name (pr_status x') ∧ x' ∈ view ∧
       (pr_status x' = Settled ∨ pr_status x' = EffOutcomeUnknown)) →
  if blocked then batch_shape OutcomeUnknown (with_effects effs db) b
  else children (with_effects effs db) b settled.
Proof.
  intros HS HL HP Hbl Hview. pose proof (prepared_touches _ _ _ _ _ _ _ _ _ HS HL HP) as HT.
  destruct blocked.
  - split.
    + intros k e He Hb. destruct (Hview k e He Hb) as (x' & -> & _ & [-> | ->]); auto.
    + symmetry in Hbl. apply existsb_exists in Hbl as (x' & Hx' & Hu). split_bools.
      apply list_elem_of_In in Hx'. destruct (pd_view _ _ _ _ _ _ _ _ HP x' Hx') as (Hid & e' & He' & Hs).
      apply list_elem_of_fmap in Hid as (x & Heq & Hx).
      destruct (ld_from _ _ _ _ HL x Hx) as (e & He & Hb & _). rewrite <- Heq in He.
      destruct (same_rows_forth _ _ _ _ _ (tc_rows _ _ _ HT) He) as (e2 & He2 & (Hbb & _)).
      exists (pr_effect_id x'), e'. cbn. simplify_eq. split_and!; [done|congruence|]. by rewrite Hs, Hu.
  - intros k e He Hb. destruct (Hview k e He Hb) as (x' & Hs & Hin & [Hp|Hp]).
    + unfold settled. by rewrite Hs, Hp.
    + exfalso. assert (existsb (λ x, bool_decide (pr_status x = EffOutcomeUnknown)) view = true); [|congruence].
      apply existsb_exists. exists x'. split; [by apply list_elem_of_In|]. by apply bool_decide_eq_true.
Qed.

Lemma prepare_effect_batch_inv id n db r db' :
  Inv db → prepare_effect_batch id n db = Ok (r, db') → Inv db'.
Proof.
  intros HI E. destruct (prepare_effect_batch_ok _ _ _ _ _ HI E)
    as [(_ & -> & _)|(o & ph & b & stored & pend & view & effs & HD & Hcase)]; [done|].
  pose proof (dispatching_shape _ _ _ _ _ _ _ _ _ _ HI HD) as (Hm & Hc & Hin & Hn & Hown & Hset).
  destruct HD as [_ Ho _ Hp Hph Hb HL HP]. pose proof (inv_static _ HI) as HS.
  assert (op_documents o) by by destruct (inv_ops _ HI _ _ Ho) as (_ & ? & _).
  pose proof (prepared_touches _ _ _ _ _ _ _ _ _ HS HL HP) as HT.
  assert (∀ k e, effs !! k = Some e → e_batch_id e = b → effect_open (o_manifest_json o) e) as Hopen.
  { intros k e He Hbe.
    destruct (prepared_child _ _ _ _ _ _ _ _ _ _ _ HS HL HP He Hbe)
      as (e0 & inv & x' & He0 & Hb0 & (Hst & _) & _).
    eapply child_step_open; [done|]. eapply open_child; [by apply HI|done..|congruence]. }
  assert (is_cancellable ph = true) as Hcan by (by destruct Hph as [-> | ->]).
  destruct Hcase as [(_ & _ & Hck & ->)|(-> & -> & blocked & _ & Hbl & Hnds & Hck & ->)].
  - eapply (moved_inv db id o _ b effs EffectDispatched ph); try done.
    split_and!; try done. exists b. split_and!; try done.
    + intros k e He Hbe. cbn in He.
      destruct (prepared_child _ _ _ _ _ _ _ _ _ _ _ HS HL HP He Hbe)
        as (e0 & inv & x' & _ & _ & (Hst & _) & _). by eapply child_step_status.
    + eapply moved_settled_except; [done|by left|done].
  - assert (∀ k e, effs !! k = Some e → e_batch_id e = b →
              ∃ x', e_status e = status_name (pr_status x') ∧ x' ∈ view ∧
                (pr_status x' = Settled ∨ pr_status x' = EffOutcomeUnknown)) as Hview.
    { intros k e He Hbe.
      destruct (prepared_child _ _ _ _ _ _ _ _ _ _ _ HS HL HP He Hbe)
        as (e0 & inv & x' & _ & _ & (Hst & _ & _ & Hs & Hinv) & Hin' & Hpend).
      destruct inv; [by apply elem_of_nil in Hpend|]. exists x'. split_and!; try done.
      pose proof (child_step_status _ _ _ Hst) as Hni. rewrite Hs in Hni. destruct Hinv as [Hnd _].
      rewrite Hs in Hnd. destruct (pr_status x'); auto; done. }
    pose proof (finished_children db b id stored [] view effs blocked _ HS HL HP Hbl Hview) as Hfin.
    eapply (moved_inv db id o _ b effs (if blocked then OutcomeUnknown else NeedDecision)
              EffectDispatched); try done; destruct blocked; try done; cbn [op_shape].
    + split_and!; try done. exists b. split_and!; try done.
      eapply moved_settled_except; [done|by left|done].
    + split_and!; try done.
      * eapply moved_settled_except; [done|by right|done].
      * intros c [= <-]. done.
Qed.
End dispatch_inv.
