(* ===== verification/Steps.v ===== *)
(** * How the database evolves

    [Evolves db db'] orders databases: rows are never removed, identities and
    history never change, versions and dispatch counts never decrease, and
    what is final (an outcome, a settled or unknown effect, a frozen manifest)
    stays as it is. [evolving m] says that a transaction only moves forward;
    it is compositional, so each transaction follows from its statements. *)
From S2P Require Import Prelude Json State Schema SchemaFacts Admission OperationStore EffectStore.
From S2P Require Import Cancellation Runtime Drive.
Create HintDb evolve.

Section evolution.
Context `{KS : KernelSerde}.
Implicit Types (db : Database) (o : OperationRow) (e : EffectRow).

Record session_evolves (r r' : SessionRow) : Prop := {
  sv_agent : s_agent_id r' = s_agent_id r;
  sv_position : s_next_command_position r ≤ s_next_command_position r';
  sv_sequence : s_next_event_sequence r ≤ s_next_event_sequence r';
}.

Record op_evolves o o' : Prop := {
  ov_session : o_session_id o' = o_session_id o;
  ov_command : o_command_id o' = o_command_id o;
  ov_position : o_position o' = o_position o;
  ov_version : o_transition_version o ≤ o_transition_version o';
  ov_same : o_transition_version o' = o_transition_version o → o' = o;
  ov_manifest : is_Some (o_manifest_json o) → o_manifest_json o' = o_manifest_json o;
  ov_outcome : is_Some (o_outcome_json o) → o' = o;
  ov_queued : o_phase o ≠ "queued" → o_phase o' ≠ "queued";
}.

Definition final e : Prop := e_status e = "settled" ∨ e_status e = "outcome_unknown".

Record effect_evolves e e' : Prop := {
  fv_batch : e_batch_id e' = e_batch_id e;
  fv_position : e_position e' = e_position e;
  fv_binding : e_binding e' = e_binding e;
  fv_revision : e_binding_revision e' = e_binding_revision e;
  fv_recovery : e_recovery e' = e_recovery e;
  fv_count : e_dispatch_count e ≤ e_dispatch_count e';
  fv_intent : e_status e ≠ "intent_committed" → e_status e' ≠ "intent_committed";
  fv_final : final e → e_status e' = e_status e ∧ e_outcome_json e' = e_outcome_json e ∧
    e_dispatch_count e' = e_dispatch_count e;
  fv_request : e_request_json e' = e_request_json e ∨
    e_status e' = "settled" ∧ e_request_json e' = None;
}.

#[global] Instance session_evolves_preorder : PreOrder session_evolves.
Proof.
  split; [by intros r; split|]. intros x y z [] []. split; [congruence|lia|lia].
Qed.

#[global] Instance op_evolves_preorder : PreOrder op_evolves.
Proof.
  split; [by intros o; split|]. intros x y z [a1 a2 a3 a4 a5 a6 a7 a8] [b1 b2 b3 b4 b5 b6 b7 b8].
  split; try congruence; try lia.
  - intros E. assert (o_transition_version y = o_transition_version x) as Ey by lia.
    rewrite b5 by lia. by apply a5.
  - intros Hm. rewrite b6; [by apply a6|]. by rewrite a6.
  - intros Ho. specialize (a7 Ho). subst y. by apply b7.
  - auto.
Qed.

#[global] Instance effect_evolves_preorder : PreOrder effect_evolves.
Proof.
  split; [by intros e; split; auto|].
  intros x y z [a1 a2 a3 a4 a5 a6 a7 a8 a9] [b1 b2 b3 b4 b5 b6 b7 b8 b9].
  split; try congruence; try lia; [auto|..].
  - intros Hf. destruct (a8 Hf) as (s1 & s2 & s3).
    assert (final y) as Hfy by (unfold final in *; by rewrite s1).
    destruct (b8 Hfy) as (? & ? & ?). split_and!; congruence.
  - destruct b9 as [->|]; [|by right]. destruct a9 as [->|[Hs ->]]; [by left|right].
    split; [|done]. destruct b8 as (-> & _); [by left|done].
Qed.

(** ** Databases *)
Definition table_evolves {K V} `{Countable K} (R : relation V) (m m' : gmap K V) : Prop :=
  ∀ k v, m !! k = Some v → ∃ v', m' !! k = Some v' ∧ R v v'.

#[global] Instance table_evolves_preorder {K V} `{Countable K} (R : relation V) `{!PreOrder R} :
  PreOrder (table_evolves (K:=K) R).
Proof.
  split.
  - intros m k v Hk. by exists v.
  - intros m1 m2 m3 H1 H2 k v Hk. destruct (H1 k v Hk) as (v2 & Hk2 & ?).
    destruct (H2 k v2 Hk2) as (v3 & ? & ?). exists v3. split; [done|by etrans].
Qed.

Lemma table_evolves_new {K V} `{Countable K} (R : relation V) `{!PreOrder R} (m : gmap K V) k v :
  m !! k = None → table_evolves R m (<[k := v]> m).
Proof. intros Hk j w Hj. exists w. by rewrite lookup_insert_ne by congruence. Qed.

Lemma table_evolves_update {K V} `{Countable K} (R : relation V) `{!PreOrder R} (m : gmap K V) k v v' :
  m !! k = Some v → R v v' → table_evolves R m (<[k := v']> m).
Proof.
  intros Hk Hv j w Hj. destruct (decide (k = j)) as [->|].
  - exists v'. rewrite lookup_insert_eq. by simplify_eq.
  - exists w. by rewrite lookup_insert_ne.
Qed.

Lemma table_evolves_where {K V} `{Countable K} (R : relation V) `{!PreOrder R} (m : gmap K V) P f :
  (∀ k v, m !! k = Some v → P k v = true → R v (f v)) → table_evolves R m (update_where P f m).
Proof.
  intros HR k v Hk. rewrite lookup_update_where, Hk. cbn. eexists. split; [done|].
  destruct (P k v) eqn:E; [by eapply HR|done].
Qed.

Record Evolves db db' : Prop := {
  ev_agents : agents db ⊆ agents db';
  ev_sessions : table_evolves session_evolves (sessions db) (sessions db');
  ev_commands : table_evolves (=) (commands db) (commands db');
  ev_operations : table_evolves op_evolves (operations db) (operations db');
  ev_events : table_evolves (=) (semantic_events db) (semantic_events db');
  ev_batches : table_evolves (=) (effect_batches db) (effect_batches db');
  ev_effects : table_evolves effect_evolves (effects db) (effects db');
  ev_cancellations : table_evolves (=) (cancellation_requests db) (cancellation_requests db');
}.

#[global] Instance Evolves_preorder : PreOrder Evolves.
Proof. split; [by intros db; split|]. intros x y z [] []. split; by etrans. Qed.

(** An operation with an outcome is in a terminal phase. *)
Definition op_ok o : Prop :=
  is_Some (o_outcome_json o) → o_phase o ∈ ["waiting"; "completed"; "failed"; "cancelled"].
Definition ops_ok db : Prop := ∀ id o, operations db !! id = Some o → op_ok o.

(** ** Transactions that move forward *)
Definition evolving {A} (m : Tx A) : Prop :=
  ∀ db a db', m db = Ok (a, db') → ops_ok db → Evolves db db' ∧ ops_ok db'.

Lemma evolving_read_only {A} (m : Tx A) :
  (∀ db a db', m db = Ok (a, db') → db' = db) → evolving m.
Proof. intros Hm db a db' E Hok. rewrite (Hm _ _ _ E). done. Qed.

Lemma evolving_bind {A B} (m : Tx A) (f : A → Tx B) :
  evolving m → (∀ a, evolving (f a)) → evolving (m ≫= f).
Proof.
  intros Hm Hf db b db' E Hok. apply tx_bind_ok in E as (a & db1 & E1 & E2).
  destruct (Hm _ _ _ E1 Hok) as [H1 Hok1]. destruct (Hf a _ _ _ E2 Hok1) as [H2 ?].
  split; [by etrans|done].
Qed.

Lemma evolving_lift_bind {A B} (r : KResult A) (f : A → Tx B) :
  (∀ a, r = Ok a → evolving (f a)) → evolving (lift r ≫= f).
Proof.
  intros Hf db b db' E Hok. apply tx_bind_ok in E as (a & db1 & E1 & E2).
  apply lift_ok in E1 as [Hr ->]. by eapply Hf.
Qed.

Lemma evolving_guard_bind {B} (b : bool) err (f : unit → Tx B) :
  (b = true → ∀ u, evolving (f u)) → evolving (guard_tx b err ≫= f).
Proof.
  intros Hf db x db' E Hok. apply tx_bind_ok in E as (u & db1 & E1 & E2).
  apply guard_ok in E1 as [Hb ->]. by eapply Hf.
Qed.

Lemma evolving_ret {A} (a : A) : evolving (mret a).
Proof. apply evolving_read_only. intros ??? [_ ?]%tx_ret_ok. done. Qed.
Lemma evolving_throw {A} (err : KernelError) : evolving (throw err : Tx A).
Proof. by intros ???. Qed.
Lemma evolving_lift {A} (r : KResult A) : evolving (lift r).
Proof. apply evolving_read_only. intros ??? [_ ?]%lift_ok. done. Qed.
Lemma evolving_query {A} (q : Database → A) : evolving (query q).
Proof. apply evolving_read_only. intros ??? [_ ?]%query_ok. done. Qed.
Lemma evolving_read {A} (q : Database → KResult A) : evolving (read q).
Proof. apply evolving_read_only. intros ??? [_ ?]%read_ok. done. Qed.
Lemma evolving_guard b err : evolving (guard_tx b err).
Proof. apply evolving_read_only. intros ??? [_ ?]%guard_ok. done. Qed.
Lemma evolving_require n msg : evolving (require_changed n msg).
Proof. apply evolving_guard. Qed.

(** Every transition of an operation row must be justified by its condition. *)
Lemma evolving_update_operation id w f :
  (∀ o, op_ok o → w o = true → op_evolves o (f o) ∧ op_ok (f o)) →
  evolving (update_operation id w f).
Proof.
  intros Hf db n db' E Hok. apply update_operation_ok in E as [[_ ->]|(_ & o & Ho & Hw & _ & ->)]; [done|].
  destruct (Hf o (Hok _ _ Ho) Hw) as [Hev Hop].
  set (db1 := with_operations (<[id := f o]> (operations db)) db).
  pose proof (release_tables id db1) as (T1 & T2 & T3 & T4 & T5 & T6 & T7 & _).
  split.
  - split; rewrite ?T1, ?T2, ?T3, ?T4, ?T5, ?T6, ?T7; cbn; try done.
    + by eapply table_evolves_update; [apply _|..].
    + unfold release_finished_effect_requests. cbn. destruct (release_installed db); cbn; [|done].
      apply table_evolves_where; [apply _|]. intros k e He HP.
      unfold finished_request in HP. split_bools. split; try done. by right.
  - intros j x. rewrite T4. cbn. intros [[<- <-]|[_ Hx]]%lookup_insert_Some; [done|by eapply Hok].
Qed.

Lemma evolving_update_effect k w f :
  (∀ e, w e = true → effect_evolves e (f e)) → evolving (update_effect k w f).
Proof.
  intros Hf db n db' E Hok. apply update_effect_ok in E as [[_ ->]|(_ & e & He & Hw & _ & ->)]; [done|].
  split; [|done]. split; cbn; try done. by eapply table_evolves_update; [apply _|..]; auto.
Qed.

Lemma evolving_update_session s w f :
  (∀ r, session_evolves r (f r)) → evolving (update_session s w f).
Proof.
  intros Hf db n db' E Hok. apply update_session_ok in E as [[_ ->]|(_ & r & Hr & _ & _ & ->)]; [done|].
  split; [|done]. split; cbn; try done. by eapply table_evolves_update; [apply _|..].
Qed.

Lemma evolving_insert_agent id : evolving (insert_agent id).
Proof.
  intros db u db' E Hok. unfold insert_agent in E. simplify_eq. split; [|done].
  split; cbn; try done. set_solver.
Qed.
Lemma evolving_insert_session id r : evolving (insert_session id r).
Proof.
  intros db u db' (Hn & _ & _ & ->)%insert_session_ok Hok. split; [|done]. split; cbn; try done.
  by apply table_evolves_new; [apply _|].
Qed.
Lemma evolving_insert_command id r : evolving (insert_command id r).
Proof.
  intros db u db' (Hn & _ & ->)%insert_command_ok Hok. split; [|done]. split; cbn; try done.
  by apply table_evolves_new; [apply _|].
Qed.
Lemma evolving_insert_operation id r : op_ok r → evolving (insert_operation id r).
Proof.
  intros Hr db u db' (Hn & _ & _ & _ & ->)%insert_operation_ok Hok. split.
  - split; cbn; try done. by apply table_evolves_new; [apply _|].
  - intros j x. cbn. intros [[<- <-]|[_ Hx]]%lookup_insert_Some; [done|by eapply Hok].
Qed.
Lemma evolving_insert_event id r : evolving (insert_event id r).
Proof.
  intros db u db' (Hn & _ & _ & ->)%insert_event_ok Hok. split; [|done]. split; cbn; try done.
  by apply table_evolves_new; [apply _|].
Qed.
Lemma evolving_insert_batch id r : evolving (insert_batch id r).
Proof.
  intros db u db' (Hn & _ & ->)%insert_batch_ok Hok. split; [|done]. split; cbn; try done.
  by apply table_evolves_new; [apply _|].
Qed.
Lemma evolving_insert_effect id r : evolving (insert_effect id r).
Proof.
  intros db u db' (Hn & _ & ->)%insert_effect_ok Hok. split; [|done]. split; cbn; try done.
  by apply table_evolves_new; [apply _|].
Qed.
Lemma evolving_insert_cancellation id r : evolving (insert_cancellation id r).
Proof.
  intros db u db' (Hn & _ & ->)%insert_cancellation_ok Hok. split; [|done]. split; cbn; try done.
  by apply table_evolves_new; [apply _|].
Qed.
End evolution.

#[export] Hint Resolve evolving_ret evolving_throw evolving_lift evolving_query evolving_read
  evolving_guard evolving_require evolving_insert_agent evolving_insert_session
  evolving_insert_command evolving_insert_event evolving_insert_batch evolving_insert_effect
  evolving_insert_cancellation : evolve.

(** Walks through a transaction down to its statements. *)
Ltac evolve :=
  repeat first
    [ solve [auto with evolve nocore]
    | match goal with |- evolving (lift _ ≫= _) => apply evolving_lift_bind; intros ? ? end
    | match goal with |- evolving (guard_tx _ _ ≫= _) => apply evolving_guard_bind; intros ? ? end
    | match goal with |- evolving (_ ≫= _) => apply evolving_bind; [|intros ?] end
    | match goal with |- evolving (match ?x with _ => _ end) => destruct x end
    | match goal with |- evolving (let '_ := ?x in _) => destruct x end
    | progress cbn zeta ].

Section transactions.
Context `{KS : KernelSerde}.
Implicit Types (db : Database) (o : OperationRow) (e : EffectRow).

Lemma op_ok_none o (s : string) :
  op_ok o → o_phase o = s → s ∉ ["waiting"; "completed"; "failed"; "cancelled"] →
  o_outcome_json o = None.
Proof.
  intros Hok Hp Hs. destruct (o_outcome_json o) as [t|] eqn:E; [|done].
  destruct Hs. rewrite <- Hp. apply Hok. rewrite E. eauto.
Qed.

(** A row that moves one version forward from a phase without outcome. *)
Lemma op_evolves_next o o' :
  o_outcome_json o = None →
  o_session_id o' = o_session_id o → o_command_id o' = o_command_id o →
  o_position o' = o_position o → o_transition_version o' = o_transition_version o + 1 →
  (is_Some (o_manifest_json o) → o_manifest_json o' = o_manifest_json o) →
  o_phase o' ≠ "queued" → op_evolves o o'.
Proof.
  intros Hn ??? Hv ??. split; try done; [lia|intros E; lia|rewrite Hn; by intros [? ?]].
Qed.

Lemma evolving_create_agent id : evolving (create_agent id).
Proof. unfold create_agent. evolve. Qed.

Lemma evolving_create_session s a : evolving (create_session s a).
Proof. unfold create_session. evolve. Qed.

Lemma evolving_submit f s c mode : evolving (submit_with_mode f s c mode).
Proof.
  unfold submit_with_mode. evolve.
  - apply evolving_insert_operation. intros [? ?]. done.
  - apply evolving_update_session. intros r. split; cbn; lia || done.
Qed.

Lemma evolving_insert_events nid s id first evs : ∀ off, evolving (insert_events nid s id first off evs).
Proof. induction evs as [|ev evs IH]; intros off; cbn; evolve. Qed.

Lemma evolving_append_events nid s id evs : evolving (append_events nid s id evs).
Proof.
  unfold append_events. evolve.
  - apply evolving_insert_events.
  - inv_tx. apply evolving_update_session. intros r. split; cbn; lia || done.
Qed.

Lemma evolving_release_session s id msg : evolving (release_session s id msg).
Proof. unfold release_session. evolve. apply evolving_update_session. intros r. by split. Qed.

#[local] Hint Resolve evolving_append_events evolving_release_session : evolve.

Lemma decision_effect_phase d c evs p out :
  decision_effect d = Ok (c, evs, p, out) →
  as_str p ≠ "queued" ∧
  (out = None ∨ as_str p ∈ ["waiting"; "completed"; "failed"; "cancelled"]).
Proof.
  destruct d as [| ? [|] | | |]; cbn; intros; simplify_eq; (split; [done|]); try (by left);
    right; set_solver.
Qed.

Lemma evolving_decide id n c evs p out d tc to :
  decision_effect d = Ok (c, evs, p, out) → transpose encode_json out = Ok to →
  evolving (update_operation id (deciding_at n) (decided_row p tc to)).
Proof.
  intros [Hq Hp]%decision_effect_phase Ho. apply evolving_update_operation.
  intros o Hok Hw. unfold deciding_at in Hw. split_bools.
  assert (o_outcome_json o = None) by (eapply op_ok_none; [done..|set_solver]).
  split; [by apply op_evolves_next|]. intros Hs. cbn in *.
  destruct Hp as [->|]; [|done]. cbn in Ho. inversion Ho; subst to. by destruct Hs.
Qed.

Lemma evolving_commit_decision nid s id n d : evolving (commit_decision nid s id n d).
Proof. unfold commit_decision. evolve; by eapply evolving_decide. Qed.

(** Ending an operation whose row has no outcome. *)
Lemma evolving_end id w ph tc to :
  ph ∈ ["waiting"; "completed"; "failed"; "cancelled"] →
  (∀ o, op_ok o → w o = true → o_outcome_json o = None) →
  evolving (update_operation id w (ended_row ph tc to)).
Proof.
  intros Hp Hw. apply evolving_update_operation. intros o Hok Ho.
  split; [|by intros _]. apply op_evolves_next; try done; [by apply Hw|]. cbn. set_solver.
Qed.

Lemma evolving_request_cancellation s id k : evolving (request_cancellation s id k).
Proof. unfold request_cancellation. evolve. Qed.

Lemma evolving_transition_finished id b n blocked :
  evolving (transition_finished_batch id b n blocked).
Proof.
  unfold transition_finished_batch. evolve. apply evolving_update_operation.
  intros o Hok Hw. unfold dispatched_at in Hw. split_bools.
  assert (o_outcome_json o = None) as Hn by (eapply op_ok_none; [done..|set_solver]).
  split; [apply op_evolves_next; try done; by destruct blocked|]. intros Hs. cbn in Hs.
  rewrite Hn in Hs. by destruct Hs.
Qed.
#[local] Hint Resolve evolving_transition_finished : evolve.

Lemma evolving_terminal id b n : evolving (transition_batch_if_terminal id b n).
Proof. unfold transition_batch_if_terminal. evolve. Qed.
#[local] Hint Resolve evolving_terminal : evolve.

Lemma evolves_from_dispatched e e' :
  e_status e = "dispatch_started" →
  e_batch_id e' = e_batch_id e → e_position e' = e_position e → e_binding e' = e_binding e →
  e_binding_revision e' = e_binding_revision e → e_recovery e' = e_recovery e →
  e_dispatch_count e ≤ e_dispatch_count e' → e_status e' ≠ "intent_committed" →
  e_request_json e' = e_request_json e → effect_evolves e e'.
Proof.
  intros Hs. split; try done; [|by left]. intros [Hf|Hf]; rewrite Hs in Hf; done.
Qed.

Lemma evolving_settle id b k n x : evolving (settle_batch_effect id b k n x).
Proof.
  unfold settle_batch_effect. evolve. apply evolving_update_effect. intros e Hw. split_bools.
  by apply evolves_from_dispatched.
Qed.

Lemma evolving_status_unknown k :
  evolving (update_effect_status k DispatchStarted EffOutcomeUnknown).
Proof.
  unfold update_effect_status. evolve. apply evolving_update_effect. intros e Hw. split_bools.
  by apply evolves_from_dispatched.
Qed.
#[local] Hint Resolve evolving_status_unknown : evolve.

Lemma evolving_record_unknown id b k n : evolving (record_batch_effect_unknown id b k n).
Proof. unfold record_batch_effect_unknown. evolve. Qed.

Lemma evolving_finish_attempt id b n : evolving (finish_effect_batch_attempt id b n).
Proof. unfold finish_effect_batch_attempt. evolve. Qed.

Lemma evolving_mark_unknown b : evolving (mark_dispatched_unknown b).
Proof.
  intros db u db' E Hok. unfold mark_dispatched_unknown in E.
  destruct (tbl_forall _ _); [|done]. simplify_eq. split; [|done]. split; cbn; try done.
  apply table_evolves_where; [apply _|]. intros k e He HP. split_bools.
  by apply evolves_from_dispatched.
Qed.
#[local] Hint Resolve evolving_mark_unknown : evolve.

Lemma evolving_load_requested s id : evolving (load_requested_cancellation s id).
Proof.
  unfold load_requested_cancellation, close_if_dispatched,
    close_dispatched_batch_for_cancellation. evolve.
Qed.

Lemma evolving_insert_intents ne b l : ∀ p, evolving (insert_intents ne b p l).
Proof. induction l as [|[i t] l IH]; intros p; cbn; evolve. Qed.
#[local] Hint Resolve evolving_insert_intents : evolve.

Lemma evolving_intent nb ne id n i : evolving (commit_effect_batch_intent nb ne id n i).
Proof.
  unfold commit_effect_batch_intent. evolve. apply evolving_update_operation.
  intros o Hok Hw. unfold deciding_at in Hw. split_bools.
  assert (o_outcome_json o = None) as Hn by (eapply op_ok_none; [done..|set_solver]).
  split; [by apply op_evolves_next|]. intros Hs. cbn in Hs. rewrite Hn in Hs. by destruct Hs.
Qed.

Lemma evolving_dispatch_child b nt x :
  pr_status x = IntentCommitted ∨ pr_status x = DispatchStarted →
  evolving (dispatch_child b nt x).
Proof.
  intros Hst. unfold dispatch_child. evolve. apply evolving_update_effect. intros e Hw.
  inv_tx. split_bools.
  destruct Hst as [Hst|Hst]; rewrite Hst in *; cbn in *.
  - split; cbn; try done; [lia| |by left]. intros [Hf|Hf]; congruence.
  - apply evolves_from_dispatched; cbn; try done. lia.
Qed.

Lemma evolving_prepare_child ph b nt x : evolving (prepare_child ph b nt x).
Proof.
  unfold prepare_child. destruct ph, (pr_status x) eqn:E; evolve;
    apply evolving_dispatch_child; auto.
Qed.
#[local] Hint Resolve evolving_prepare_child : evolve.

Lemma evolving_prepare_children ph b nt l : evolving (prepare_children ph b nt l).
Proof. induction l as [|x l IH]; cbn; evolve. Qed.
#[local] Hint Resolve evolving_prepare_children : evolve.

Lemma evolving_prepare id n : evolving (prepare_effect_batch id n).
Proof.
  unfold prepare_effect_batch, dispatch_batch, finish_batch_without_invocations. evolve.
  all: apply evolving_update_operation; intros row Hok Hw; split_bools.
  all: assert (o_outcome_json row = None) as Hn by (eapply op_ok_none; [done..|set_solver]).
  all: split; [by apply op_evolves_next|]; intros Hs; cbn in Hs; rewrite Hn in Hs; by destruct Hs.
Qed.

Lemma evolving_activate s m : evolving (activate s m).
Proof.
  unfold activate, activate_queued. evolve.
  - apply evolving_update_operation. intros row Hok Hw. split_bools.
    assert (o_outcome_json row = None) as Hn by (eapply op_ok_none; [done..|set_solver]).
    split.
    + apply op_evolves_next; try done. cbn. match goal with H : o_manifest_json row = None |- _ => rewrite H end.
      by intros [? ?].
    + intros Hs. cbn in Hs. rewrite Hn in Hs. by destruct Hs.
  - apply evolving_update_session. intros r. by split.
Qed.

Lemma evolving_abandon nid s id n hw ab :
  evolving (commit_unknown_effect_abandonment nid s id n hw ab).
Proof.
  unfold commit_unknown_effect_abandonment. evolve. apply evolving_end; [set_solver|].
  intros o Hok Hw. split_bools. eapply op_ok_none; [done..|set_solver].
Qed.

Lemma evolving_commit_cancellation nid s id n hw tr :
  evolving (commit_cancellation nid s id n hw tr).
Proof.
  unfold commit_cancellation. evolve. apply evolving_end; [set_solver|].
  intros row Hok Hw. split_bools.
  match goal with H : from_database _ = Ok ?p |- _ =>
    apply from_database_ok in H; eapply op_ok_none; [done..|]; subst; destruct p; try done end.
  all: cbn; set_solver.
Qed.
End transactions.

(** * The kernel as a transition system

    [kstep] is one transaction of the kernel, committed or rejected, with the
    conditions its callers establish; [gstep] is a step whose caller establishes
    more about the work of a loop it stores. [reachable] databases satisfy [Inv], and
    every step evolves the database. *)
From S2P Require Import Invariant AdmissionInv OperationInv EffectInv DispatchInv.
Section steps.
Context `{KS : KernelSerde} `{!KernelSerdeLaws}.
Implicit Types (db : Database) (o : OperationRow) (e : EffectRow).

(** A commit of a cancellation closes no dispatched batch: the batch was closed
    when the pending cancellation was loaded. *)
Definition not_dispatched db (id : OperationId) (n : Z) : Prop :=
  ∀ o, operations db !! id = Some o → o_transition_version o = n →
    o_phase o ≠ as_str EffectDispatched.

(** What the callers of the transactions that store the work of a loop establish
    about it, besides the above. *)
Record Guards := {
  g_decision : Database → OperationId → Z → LoopDecision → Prop;
  g_intent : Database → OperationId → Z → NewEffectBatchIntent → Prop;
  g_cancellation : Database → OperationId → Z → CancellationTransition → Prop;
  g_abandonment : Database → OperationId → Z → UnknownEffectAbandonment → Prop;
}.
Definition unguarded : Guards := {|
  g_decision _ _ _ _ := True; g_intent _ _ _ _ := True;
  g_cancellation _ _ _ _ := True; g_abandonment _ _ _ _ := True |}.

Inductive gstep (G : Guards) (db : Database) : Database → Prop :=
| k_create_agent a r db' : immediate (create_agent a) db = (r, db') → gstep G db db'
| k_create_session s a r db' : immediate (create_session s a) db = (r, db') → gstep G db db'
| k_submit f s c mode r db' : immediate (submit_with_mode f s c mode) db = (r, db') → gstep G db db'
| k_request_cancellation s id k r db' :
    immediate (request_cancellation s id k) db = (r, db') → gstep G db db'
| k_activate s m r db' : immediate (activate s m) db = (r, db') → gstep G db db'
| k_load_requested s id r db' :
    immediate (load_requested_cancellation s id) db = (r, db') → gstep G db db'
| k_commit_cancellation nid s id n hw tr r db' :
    g_cancellation G db id n tr → fits db id (ct_checkpoint tr) → not_dispatched db id n →
    immediate (commit_cancellation nid s id n hw tr) db = (r, db') → gstep G db db'
| k_commit_decision nid s id n d r db' :
    g_decision G db id n d → fits db id (decision_checkpoint d) →
    immediate (commit_decision nid s id n d) db = (r, db') → gstep G db db'
| k_intent nb ne id n i r db' :
    g_intent G db id n i → fits db id (nb_checkpoint i) → bound db id (nb_effects i) →
    immediate (commit_effect_batch_intent nb ne id n i) db = (r, db') → gstep G db db'
| k_prepare id n r db' : immediate (prepare_effect_batch id n) db = (r, db') → gstep G db db'
| k_settle id b k n x r db' :
    immediate (settle_batch_effect id b k n x) db = (r, db') → gstep G db db'
| k_record_unknown id b k n r db' :
    child_of db b k → immediate (record_batch_effect_unknown id b k n) db = (r, db') → gstep G db db'
| k_finish_attempt id b n r db' :
    immediate (finish_effect_batch_attempt id b n) db = (r, db') → gstep G db db'
| k_abandon nid s id n hw ab r db' :
    g_abandonment G db id n ab → fits db id (ab_checkpoint ab) →
    immediate (commit_unknown_effect_abandonment nid s id n hw ab) db = (r, db') → gstep G db db'.

(** The checkpoint stored at version [n] of the operation is [c]. *)
Definition checkpoint_at (id : OperationId) (n : Z) (c : option Checkpoint) db : Prop :=
  ∃ o, operations db !! id = Some o ∧ n ≤ o_transition_version o ∧
    (o_transition_version o = n → transpose decode_json (o_checkpoint_json o) = Ok c).

(** The guards hold of the work of a plugin on the stored checkpoint. *)
Record allows (G : Guards) (plugin : LoopPlugin) : Prop := {
  allows_decision db id n input d :
    checkpoint_at id n (li_checkpoint input) db → decide_ plugin input = Ok d →
    g_decision G db id n d;
  allows_intent db id n input c effects intents :
    checkpoint_at id n (li_checkpoint input) db → decide_ plugin input = Ok (InvokeEffects c effects) →
    g_intent G db id n {| nb_checkpoint := c; nb_effects := intents |};
  allows_cancellation db id n input t :
    checkpoint_at id n (ci_checkpoint input) db → plugin_cancel plugin input = Ok t →
    g_cancellation G db id n t;
  allows_abandonment db id n input a :
    checkpoint_at id n (Some (ui_checkpoint input)) db → plugin_abandon plugin input = Ok a →
    g_abandonment G db id n a;
}.

Lemma unguarded_allows plugin : allows unguarded plugin.
Proof. done. Qed.

(** Only plugins of a class store their work. *)
Definition stored_by (P : LoopPlugin → Prop) : Guards := {|
  g_decision db id n d := ∃ plugin input, P plugin ∧
    checkpoint_at id n (li_checkpoint input) db ∧ decide_ plugin input = Ok d;
  g_intent db id n i := ∃ plugin input effects, P plugin ∧
    checkpoint_at id n (li_checkpoint input) db ∧
    decide_ plugin input = Ok (InvokeEffects (nb_checkpoint i) effects);
  g_cancellation db id n t := ∃ plugin input, P plugin ∧
    checkpoint_at id n (ci_checkpoint input) db ∧ plugin_cancel plugin input = Ok t;
  g_abandonment db id n a := ∃ plugin input, P plugin ∧
    checkpoint_at id n (Some (ui_checkpoint input)) db ∧ plugin_abandon plugin input = Ok a |}.

Lemma stored_by_allows (P : LoopPlugin → Prop) plugin : P plugin → allows (stored_by P) plugin.
Proof. intros HP. split; cbn; eauto 10. Qed.

#[local] Abbreviation kstep := (gstep unguarded).

Definition reachable db : Prop := rtc kstep empty_database db.

(** A guarded step is a step. *)
Lemma gstep_kstep G db db' : gstep G db db' → kstep db db'.
Proof.
  destruct 1; [eapply k_create_agent|eapply k_create_session|eapply k_submit
    |eapply k_request_cancellation|eapply k_activate|eapply k_load_requested
    |eapply k_commit_cancellation|eapply k_commit_decision|eapply k_intent|eapply k_prepare
    |eapply k_settle|eapply k_record_unknown|eapply k_finish_attempt|eapply k_abandon];
    (eassumption || exact I).
Qed.
Lemma gsteps_ksteps G db db' : rtc (gstep G) db db' → rtc kstep db db'.
Proof. induction 1; econstructor; eauto using gstep_kstep. Qed.

(** ** Invariant *)
Lemma immediate_inv {A} (m : Tx A) db r db' :
  Inv db → (∀ a db1, m db = Ok (a, db1) → Inv db1) → immediate m db = (r, db') → Inv db'.
Proof. intros HI Hm [(a & _ & E & _)|(e & _ & ->)]%immediate_cases; eauto. Qed.

Lemma activate_inv s m db r db' : Inv db → activate s m db = Ok (r, db') → Inv db'.
Proof.
  intros HI E. unfold activate in E. inv_tx.
  destruct (s_active_operation_id _); inv_tx; [done|].
  match goal with H : activate_queued _ _ _ = Ok (?x, _) |- _ =>
    apply activate_queued_inv in H; [|done]; destruct x; inv_tx; done end.
Qed.

Lemma kstep_inv {G} db db' : Inv db → gstep G db db' → Inv db'.
Proof.
  intros HI HS. destruct HS; (eapply immediate_inv; [done| |done]; intros ? ? ?).
  - by eapply create_agent_inv.
  - by eapply create_session_inv.
  - by eapply submit_inv.
  - by eapply request_cancellation_inv.
  - by eapply activate_inv.
  - by eapply load_requested_cancellation_inv.
  - by eapply commit_cancellation_inv.
  - by eapply commit_decision_inv.
  - by eapply commit_effect_batch_intent_inv.
  - by eapply prepare_effect_batch_inv.
  - by eapply settle_batch_effect_inv.
  - by eapply record_batch_effect_unknown_inv.
  - by eapply finish_effect_batch_attempt_inv.
  - by eapply commit_unknown_effect_abandonment_inv.
Qed.

Lemma ksteps_inv {G} db db' : Inv db → rtc (gstep G) db db' → Inv db'.
Proof. intros HI HS. revert HI. induction HS; eauto using kstep_inv. Qed.

Lemma reachable_inv db : reachable db → Inv db.
Proof. intros HR. eapply ksteps_inv; [apply Inv_empty|exact HR]. Qed.

(** ** Evolution *)
Lemma Inv_ops_ok db : Inv db → ops_ok db.
Proof.
  intros HI id o Ho [t Ht]. pose proof (inv_ops _ HI _ _ Ho) as Hop.
  destruct (phase_of _ _ _ Hop) as (p & Hp & _).
  assert (¬ (p = Queued ∨ is_cancellable p = true)) as Hn.
  { intros Hc. apply (outcome_none_iff _ _ _ _ Hop Hp) in Hc. congruence. }
  rewrite Hp. destruct p; try (by destruct Hn; auto); cbn; set_solver.
Qed.

Lemma immediate_evolves {A} (m : Tx A) db r db' :
  evolving m → ops_ok db → immediate m db = (r, db') → Evolves db db'.
Proof. intros Hm Hok [(a & _ & E & _)|(e & _ & ->)]%immediate_cases; [by eapply Hm|done]. Qed.

Lemma kstep_evolves {G} db db' : Inv db → gstep G db db' → Evolves db db'.
Proof.
  intros HI%Inv_ops_ok HS. destruct HS; (eapply immediate_evolves; [|done|done]).
  - apply evolving_create_agent.
  - apply evolving_create_session.
  - apply evolving_submit.
  - apply evolving_request_cancellation.
  - apply evolving_activate.
  - apply evolving_load_requested.
  - apply evolving_commit_cancellation.
  - apply evolving_commit_decision.
  - apply evolving_intent.
  - apply evolving_prepare.
  - apply evolving_settle.
  - apply evolving_record_unknown.
  - apply evolving_finish_attempt.
  - apply evolving_abandon.
Qed.

Lemma ksteps_evolve {G} db db' : Inv db → rtc (gstep G) db db' → Evolves db db'.
Proof.
  intros HI HS. revert HI. induction HS as [|x y z Hxy _ IH]; [done|].
  intros HI. etrans; [by eapply kstep_evolves|]. apply IH. by eapply kstep_inv.
Qed.
End steps.

Abbreviation kstep := (gstep unguarded).
