(* ===== verification/DriveSound.v ===== *)
(** * The drive only takes kernel steps

    A program logic for computations of the drive: [hoare P m Q] holds when [m],
    started in a good world that satisfies [P], ends in a good world reached by
    kernel steps, with [Q] of its result. The environment may commit any kernel
    step between two transactions of the drive. *)
From S2P Require Import Prelude Json State Schema SchemaFacts Admission OperationStore EffectStore.
From S2P Require Import Cancellation Runtime Drive Invariant AdmissionInv OperationInv EffectInv DispatchInv.
From S2P Require Import Steps.
Section drive_sound.
Context `{KS : KernelSerde} `{!KernelSerdeLaws} {Adapter : Type} {G : Guards}.
Implicit Types (db : Database) (o : OperationRow) (e : EffectRow) (w : World).

(** ** Good worlds *)

(** Every recorded invocation is durably marked, no dispatch is invoked twice. *)
Definition trace_ok db (tr : list Invoked) : Prop :=
  (∀ i, i ∈ tr → ∃ e, effects db !! iv_effect_id i = Some e ∧
     1 ≤ iv_dispatch_count i ≤ e_dispatch_count e ∧
     e_recovery e = recovery_as_str (iv_recovery i)) ∧
  NoDup ((λ i, (iv_effect_id i, iv_dispatch_count i)) <$> tr).

Definition world_ok w : Prop := Inv (w_db w) ∧ trace_ok (w_db w) (w_trace w).

Definition world_rel w w' : Prop :=
  rtc (gstep G) (w_db w) (w_db w') ∧ w_trace w `prefix_of` w_trace w'.

#[global] Instance world_rel_preorder : PreOrder world_rel.
Proof. split; [done|]. intros x y z [] []. split; by etrans. Qed.

Lemma trace_ok_evolves db db' tr : Evolves db db' → trace_ok db tr → trace_ok db' tr.
Proof.
  intros HE [HT HN]. split; [|done]. intros i Hi. destruct (HT i Hi) as (e & He & Hc & Hr).
  destruct (ev_effects _ _ HE _ _ He) as (e' & He' & Hev). exists e'. destruct Hev.
  split_and!; [done|lia|lia|congruence].
Qed.

(** ** The logic *)
Definition hoare {A} (P : World → Prop) (m : D A) (Q : A → World → Prop) : Prop :=
  ∀ w r w', world_ok w → P w → m w = (r, w') →
    world_ok w' ∧ world_rel w w' ∧ match r with Ok a => Q a w' | Err _ => True end.

(** Predicates of the database that survive kernel steps. *)
Definition stable (P : World → Prop) : Prop :=
  ∀ w w', Evolves (w_db w) (w_db w') → P w → P w'.

Lemma stable_true : stable (λ _, True).
Proof. done. Qed.

Lemma hoare_ret {A} (P : World → Prop) (a : A) (Q : A → World → Prop) :
  (∀ w, P w → Q a w) → hoare P (mret a) Q.
Proof. intros HQ w r w' HW HP [= <- <-]. split_and!; [done|done|by apply HQ]. Qed.

Lemma hoare_fail {A} P err (Q : A → World → Prop) : hoare P (fail err) Q.
Proof. intros w r w' HW HP [= <- <-]. done. Qed.

Lemma hoare_lift {A} (P : World → Prop) (x : KResult A) (Q : A → World → Prop) :
  (∀ a w, x = Ok a → P w → Q a w) → hoare P (lift_d x) Q.
Proof. intros HQ w r w' HW HP [= <- <-]. split_and!; [done|done|]. destruct x; auto. Qed.

Lemma hoare_clock P : hoare P clock (λ _, P).
Proof. intros w r w' HW HP [= <- <-]. done. Qed.

Lemma hoare_bind {A B} P (m : D A) (f : A → D B) Q R :
  hoare P m Q → (∀ a, hoare (Q a) (f a) R) → hoare P (m ≫= f) R.
Proof.
  intros Hm Hf w r w' HW HP E. unfold mbind, D_bind in E.
  destruct (m w) as [[a|err] w1] eqn:E1; destruct (Hm _ _ _ HW HP E1) as (HW1 & HR1 & HQ).
  - destruct (Hf a _ _ _ HW1 HQ E) as (HW2 & HR2 & ?). split_and!; [done|by etrans|done].
  - simplify_eq. done.
Qed.

Lemma hoare_weaken {A} (P P' : World → Prop) (m : D A) (Q Q' : A → World → Prop) :
  hoare P' m Q' → (∀ w, P w → P' w) → (∀ a w, Q' a w → Q a w) → hoare P m Q.
Proof.
  intros Hm HP HQ w r w' HW Hp E. destruct (Hm _ _ _ HW (HP _ Hp) E) as (? & ? & ?).
  split_and!; [done..|]. destruct r; auto.
Qed.

(** A condition on no world is a hypothesis. *)
Lemma hoare_given {A} (X : Prop) P (m : D A) (Q : A → World → Prop) :
  (X → hoare P m Q) → hoare (λ w, X ∧ P w) m Q.
Proof. intros Hm w r w' HW [HX HP]. by apply Hm. Qed.

Lemma world_rel_evolves w w' : world_ok w → world_rel w w' → Evolves (w_db w) (w_db w').
Proof. intros [HI _] [HR _]. by eapply ksteps_evolve. Qed.

(** A stable fact is kept by every computation. *)
Lemma hoare_keep {A} P (m : D A) (Q : A → World → Prop) (F : World → Prop) :
  stable F → hoare P m Q → hoare (λ w, P w ∧ F w) m (λ a w, Q a w ∧ F w).
Proof.
  intros HF Hm w r w' HW [HP Hf] E. destruct (Hm _ _ _ HW HP E) as (? & HR & HQ).
  split_and!; [done..|]. destruct r; [|done]. split; [done|].
  eapply HF; [|done]. by eapply world_rel_evolves.
Qed.

Lemma hoare_stable {A} (m : D A) (Q : A → World → Prop) (F : World → Prop) :
  stable F → hoare F m Q → hoare F m (λ a w, Q a w ∧ F w).
Proof.
  intros HF Hm. eapply hoare_weaken; [by apply (hoare_keep _ _ _ F HF Hm)|done|done].
Qed.

Lemma hoare_running P f : (∀ w x, P w → P (MkWorld (w_db w) x (w_clock w) (w_trace w))) →
  hoare P (with_running f) (λ _, P).
Proof. intros HP w r w' HW Hp [= <- <-]. split_and!; [done|done|by apply HP]. Qed.

Lemma hoare_try_running P f : (∀ w x, P w → P (MkWorld (w_db w) x (w_clock w) (w_trace w))) →
  hoare P (try_running f) (λ _, P).
Proof.
  intros HP w r w' HW Hp E. unfold try_running in E. destruct (f (w_running w)); simplify_eq.
  - split_and!; [done|done|by apply HP].
  - done.
Qed.

Lemma stable_running (F : World → Prop) : stable F →
  ∀ w x, F w → F (MkWorld (w_db w) x (w_clock w) (w_trace w)).
Proof. intros HF w x Hw. by apply (HF w). Qed.

(** ** What the drive remembers *)
Definition manifest_at (id : OperationId) (m : RuntimeManifest) db : Prop :=
  ∃ o tm, operations db !! id = Some o ∧ o_manifest_json o = Some tm ∧ decodes tm m.

Lemma manifest_at_stable id m : stable (λ w, manifest_at id m (w_db w)).
Proof.
  intros w w' HE (o & tm & Ho & Hm & Hd).
  destruct (ev_operations _ _ HE _ _ Ho) as (o' & Ho' & Hev). exists o', tm.
  split_and!; [done| |done]. rewrite (ov_manifest _ _ Hev); [done|]. rewrite Hm. eauto.
Qed.

Lemma manifest_at_fits id m db c :
  manifest_at id m db → schema_version c = checkpoint_schema_version m → fits db id c.
Proof.
  intros (o & tm & Ho & Hm & Hd) Hv o' tm' m' Ho' Hm' Hd'. simplify_eq.
  unfold decodes in *. congruence.
Qed.

Lemma manifest_at_bound id m db l :
  manifest_at id m db →
  (∀ i, i ∈ l → effect_bindings m !! ni_binding i = Some (ni_binding_revision i)) →
  bound db id l.
Proof.
  intros (o & tm & Ho & Hm & Hd) Hl o' tm' m' Ho' Hm' Hd' i Hi. simplify_eq.
  unfold decodes in *. assert (m' = m) as -> by congruence. by apply Hl.
Qed.

(** The version [n] of the operation was not a dispatched one. *)
Definition closed_at (id : OperationId) (n : Z) db : Prop :=
  ∃ o, operations db !! id = Some o ∧ n ≤ o_transition_version o ∧
    (o_transition_version o = n → o_phase o ≠ as_str EffectDispatched).

Lemma closed_at_stable id n : stable (λ w, closed_at id n (w_db w)).
Proof.
  intros w w' HE (o & Ho & Hn & Hp). destruct (ev_operations _ _ HE _ _ Ho) as (o' & Ho' & Hev).
  pose proof (ov_version _ _ Hev). exists o'. split_and!; [done|lia|]. intros Hv.
  assert (o_transition_version o' = o_transition_version o) as Heq by lia.
  rewrite (ov_same _ _ Hev Heq) in *. by apply Hp.
Qed.

Lemma closed_at_not_dispatched id n db : closed_at id n db → not_dispatched db id n.
Proof. intros (o & Ho & _ & Hp) o' Ho' Hv. simplify_eq. by apply Hp. Qed.

Lemma checkpoint_at_stable id n c : stable (λ w, checkpoint_at id n c (w_db w)).
Proof.
  intros w w' HE (o & Ho & Hn & Hp). destruct (ev_operations _ _ HE _ _ Ho) as (o' & Ho' & Hev).
  pose proof (ov_version _ _ Hev). exists o'. split_and!; [done|lia|]. intros Hv.
  assert (o_transition_version o' = o_transition_version o) as Heq by lia.
  rewrite (ov_same _ _ Hev Heq) in *. by apply Hp.
Qed.

Definition children_at (b : EffectBatchId) (k : EffectId) db : Prop :=
  ∃ e, effects db !! k = Some e ∧ e_batch_id e = b.

Lemma children_at_stable b k : stable (λ w, children_at b k (w_db w)).
Proof.
  intros w w' HE (e & He & Hb). destruct (ev_effects _ _ HE _ _ He) as (e' & He' & Hev).
  exists e'. split; [done|]. by rewrite (fv_batch _ _ Hev).
Qed.

Lemma stable_and (F F' : World → Prop) : stable F → stable F' → stable (λ w, F w ∧ F' w).
Proof. intros HF HF' w w' HE [? ?]. split; eauto. Qed.

Lemma stable_forall {X} (F : X → World → Prop) : (∀ x, stable (F x)) → stable (λ w, ∀ x, F x w).
Proof. intros HF w w' HE Hx x. eapply HF; eauto. Qed.

Lemma stable_impl (X : Prop) (F : World → Prop) : stable F → stable (λ w, X → F w).
Proof. intros HF w w' HE Hx x. eapply HF; eauto. Qed.

(** ** Reading operations *)
Lemma load_operation_ok s id db st :
  load_operation s id db = Ok (Some st) →
  ∃ o, operations db !! id = Some o ∧ o_session_id o = s ∧
    transition_version st = o_transition_version o ∧ o_phase o = as_str (phase st) ∧
    current_effect_batch_id st = o_current_effect_batch_id o ∧
    input_effect_batch_id st = o_input_effect_batch_id o ∧
    transpose decode_json (o_manifest_json o) = Ok (manifest st) ∧
    transpose decode_json (o_checkpoint_json o) = Ok (checkpoint st) ∧
    transpose decode_json (o_outcome_json o) = Ok (outcome st).
Proof.
  unfold load_operation. destruct (operations db !! id) as [o|]; [|done].
  case_decide; [|done]. destruct (command_text db o) as [t|]; [|done].
  intros E. apply result_bind_ok in E as (st' & E & [= ->]). unfold decode in E. inv_tx.
  match goal with H : from_database _ = Ok _ |- _ => apply from_database_ok in H end.
  eexists. split_and!; done.
Qed.

Lemma transpose_decode_Some {A} `{!Serde A} (t : option Text) (a : A) :
  transpose decode_json t = Ok (Some a) → ∃ x, t = Some x ∧ decodes x a.
Proof.
  destruct t as [x|]; cbn; [|done]. intros E. apply result_bind_ok in E as (a' & E & [= ->]).
  unfold decode_json in E. apply ok_or_ok in E. eauto.
Qed.

Lemma load_active_query_ok a s id db act :
  load_active_query a s id db = Ok act →
  a_operation_id act = id ∧ manifest_at id (a_manifest act) db ∧
  checkpoint_at id (a_transition_version act) (a_checkpoint act) db.
Proof.
  unfold load_active_query. intros E. inv_tx.
  match goal with H : load_operation _ _ _ = Ok (Some _) |- _ =>
    apply load_operation_ok in H as (o & Ho & _ & Hv & _ & _ & _ & Hm & Hc & _) end.
  split; [done|]. cbn. split; [|exists o; split_and!; [done|lia|done]].
  match goal with H : manifest _ = Some _ |- _ => rewrite H in Hm end.
  apply transpose_decode_Some in Hm as (tm & ? & ?). by exists o, tm.
Qed.

(** What the drive knows of the operation it works on. *)
Definition active_at (act : ActiveOperation) db : Prop :=
  manifest_at (a_operation_id act) (a_manifest act) db ∧
  checkpoint_at (a_operation_id act) (a_transition_version act) (a_checkpoint act) db.

Lemma activate_ok s m db act db' :
  activate s m db = Ok (Some act, db') → active_at act db'.
Proof.
  intros E. unfold activate in E. inv_tx.
  destruct (s_active_operation_id _); inv_tx; simplify_eq.
  - match goal with H : load_active_query _ _ _ _ = Ok _ |- _ =>
      by apply load_active_query_ok in H as [<- ?] end.
  - match goal with H : activate_queued _ _ _ = Ok (?x, _) |- _ => destruct x end; inv_tx; simplify_eq.
    match goal with H : load_active_query _ _ _ _ = Ok _ |- _ =>
      apply load_active_query_ok in H as [<- ?] end.
    done.
Qed.

Lemma load_active_ok s id db act db' :
  load_active s id db = Ok (act, db') →
  db' = db ∧ a_operation_id act = id ∧ active_at act db.
Proof.
  intros E. unfold load_active in E. inv_tx.
  match goal with H : load_active_query _ _ _ _ = Ok _ |- _ =>
    apply load_active_query_ok in H as [<- ?] end. done.
Qed.

Lemma close_if_dispatched_ok id st db row ph v cur inp db' :
  operations db !! id = Some row → transition_version st = o_transition_version row →
  o_phase row = as_str (phase st) →
  close_if_dispatched id st db = Ok (ph, v, cur, inp, db') →
  ∃ row', operations db' !! id = Some row' ∧ o_manifest_json row' = o_manifest_json row ∧
    o_transition_version row' = v ∧ o_phase row' ≠ as_str EffectDispatched ∧
    o_checkpoint_json row' = o_checkpoint_json row.
Proof.
  intros Hr Hv Hp E. unfold close_if_dispatched in E.
  destruct (phase st) eqn:Ep; inv_tx; try (exists row; rewrite Hp, <- Hv; done).
  match goal with H : close_dispatched_batch_for_cancellation _ _ _ _ = _ |- _ =>
    unfold close_dispatched_batch_for_cancellation, transition_finished_batch in H end. inv_tx.
  match goal with H : mark_dispatched_unknown _ _ = _ |- _ =>
    unfold mark_dispatched_unknown in H; destruct (tbl_forall _ _); [|done]; simplify_eq end.
  destruct (_ || _); inv_tx. cbn in *. rewrite Hr in *. simplify_eq.
  match goal with H : context [has_status EffOutcomeUnknown ?l] |- _ =>
    destruct (has_status EffOutcomeUnknown l) end; inv_tx.
  all: match goal with |- context [release_finished_effect_requests ?i ?d] =>
    pose proof (release_tables i d) as (_ & _ & _ & -> & _) end.
  all: eexists; split; [cbn; apply lookup_insert_eq|]; cbn; split_and!; done || lia.
Qed.

Lemma load_requested_ok s id db pc db' :
  load_requested_cancellation s id db = Ok (Some pc, db') →
  manifest_at id (pc_manifest pc) db' ∧ closed_at id (pc_transition_version pc) db' ∧
  checkpoint_at id (pc_transition_version pc) (ci_checkpoint (pc_input pc)) db'.
Proof.
  intros E. unfold load_requested_cancellation in E. inv_tx.
  destruct (negb _); inv_tx; [done|]. simplify_eq. cbn.
  match goal with H : load_operation _ _ _ = Ok (Some ?x) |- _ => rename x into st;
    apply load_operation_ok in H as (row & Ho & Hos & Hv & Hph & Hc & Hi & Hm & Hk & _) end.
  match goal with H : manifest _ = Some ?m |- _ => rewrite H in Hm;
    apply transpose_decode_Some in Hm as (tm & Htm & Hdm) end.
  match goal with H : close_if_dispatched _ _ _ = _ |- _ =>
    eapply close_if_dispatched_ok in H as (row' & Hr' & Hm' & Hv' & Hp' & Hk'); [|done..] end.
  split; [exists row', tm; split_and!; congruence|].
  split; exists row'; (split_and!; [done|lia|]); [done|]. by rewrite Hk'.
Qed.

Lemma load_unknown_ok s id db p :
  load_unknown_effect_state s id db = Ok (Pending p) →
  manifest_at id (pa_manifest p) db ∧
  checkpoint_at id (pa_transition_version p) (Some (ui_checkpoint (pa_input p))) db.
Proof.
  unfold load_unknown_effect_state. intros E. inv_tx.
  match goal with H : load_operation _ _ _ = Ok (Some ?x) |- _ => rename x into st;
    apply load_operation_ok in H as (row & Ho & _ & Hv & _ & _ & _ & Hm & Hk & _) end.
  destruct (phase st); try done.
  - unfold load_pending_abandonment in *. case_decide; [|done]. destruct (_ || _); [done|]. inv_tx.
    destruct (unknown_batch_facts _); [|done]. inv_tx. simplify_eq. cbn.
    match goal with H : manifest _ = Some _ |- _ => rewrite H in Hm end.
    apply transpose_decode_Some in Hm as (tm & ? & ?). split; [by exists row, tm|].
    exists row. split_and!; [done|lia|]. intros _. congruence.
  - unfold load_prior_abandonment in *. destruct (unknown_batches db id) as [|[b r] [|]]; try done.
    destruct (_ || _); [done|]. inv_tx. destruct (unknown_batch_facts _); [|done]. inv_tx.
    case_match; inv_tx; done.
Qed.

(** ** Transactions under interference *)
Section environment.
Context (env : Environment Adapter).
Context (interfere_steps : ∀ n db, Inv db → rtc (gstep G) db (interfere env n db)).
Context (completion_subset : ∀ n l x, x ∈ completion_order env n l → x ∈ l).

Lemma hoare_transaction {A} (P : World → Prop) (m : Tx A) (Q : A → World → Prop) :
  stable P →
  (∀ w r db', world_ok w → P w → immediate m (w_db w) = (r, db') → gstep G (w_db w) db' ∧
     ∀ a, r = Ok a → m (w_db w) = Ok (a, db') →
       ∀ w', w_db w' = db' → w_trace w' = w_trace w → Q a w') →
  hoare P (transaction env m) Q.
Proof.
  intros HP Hm w r w' [HI HT] Hp E. unfold transaction in E.
  set (db := interfere env (w_clock w) (w_db w)) in *.
  assert (rtc (gstep G) (w_db w) db) as Hst by by apply interfere_steps.
  assert (Evolves (w_db w) db) as Hev by by eapply ksteps_evolve.
  set (w1 := MkWorld db (w_running w) (S (w_clock w)) (w_trace w)).
  assert (world_ok w1) as HW1.
  { split; [by eapply ksteps_inv|by eapply trace_ok_evolves]. }
  destruct (io_failure env (w_clock w)); [simplify_eq; done|].
  destruct (immediate m db) as [x db'] eqn:EI. simplify_eq.
  destruct (Hm w1 r db' HW1 (HP w w1 Hev Hp) EI) as [Hk HQ].
  split_and!.
  - split; cbn; [by eapply kstep_inv; [apply HW1|]|].
    eapply trace_ok_evolves; [|apply HW1]. eapply kstep_evolves; [apply HW1|done].
  - split; cbn; [|done]. etrans; [exact Hst|]. by apply rtc_once.
  - destruct r as [a|]; [|done]. apply HQ; try done.
    apply immediate_cases in EI as [(a' & [= ->] & ? & _)|(? & ? & _)]; done.
Qed.

(** A transaction that only reads. *)
Definition read_only {A} (m : Tx A) : Prop := ∀ db a db', m db = Ok (a, db') → db' = db.

Lemma hoare_read_transaction {A} (P : World → Prop) (m : Tx A) (Q : A → World → Prop) :
  stable P → read_only m →
  (∀ w a, world_ok w → P w → m (w_db w) = Ok (a, w_db w) → ∀ w', w_db w' = w_db w → Q a w') →
  hoare P (transaction env m) Q.
Proof.
  intros HP Hro HQ w r w' [HI HT] Hp E. unfold transaction in E.
  set (db := interfere env (w_clock w) (w_db w)) in *.
  assert (rtc (gstep G) (w_db w) db) as Hst by by apply interfere_steps.
  assert (Evolves (w_db w) db) as Hev by by eapply ksteps_evolve.
  set (w1 := MkWorld db (w_running w) (S (w_clock w)) (w_trace w)).
  assert (world_ok w1) as HW1.
  { split; [by eapply ksteps_inv|by eapply trace_ok_evolves]. }
  destruct (io_failure env (w_clock w)); [simplify_eq; done|].
  destruct (immediate m db) as [x db'] eqn:EI. simplify_eq.
  apply immediate_cases in EI as [(a & -> & Em & _)|(err & -> & ->)]; [|done].
  pose proof (Hro _ _ _ Em) as ->. split_and!; [done|done|].
  by apply (HQ w1 a HW1 (HP w w1 Hev Hp) Em).
Qed.

(** ** Steps of the drive *)
Definition nothing {A} : A → World → Prop := λ _ _, True.
Definition active_ok (act : ActiveOperation) w : Prop := active_at act (w_db w).

Lemma active_ok_stable act : stable (active_ok act).
Proof. apply stable_and; [apply manifest_at_stable|apply checkpoint_at_stable]. Qed.

Lemma require_compatible_ok m c u :
  require_compatible_checkpoint m (Some c) = Ok u → schema_version c = checkpoint_schema_version m.
Proof. cbn. destruct (Z.eqb_spec (schema_version c) (checkpoint_schema_version m)); done. Qed.

Lemma map_loop_error_ok {A} (x : Result string A) a : map_loop_error x = Ok a → x = Ok a.
Proof. destruct x; cbn; congruence. Qed.

(** What is known of an operation whose cancellation is pending. *)
Definition cancelling_at (id : OperationId) (pc : PendingCancellation) db : Prop :=
  manifest_at id (pc_manifest pc) db ∧ closed_at id (pc_transition_version pc) db ∧
  checkpoint_at id (pc_transition_version pc) (ci_checkpoint (pc_input pc)) db.

Lemma cancelling_at_stable id pc : stable (λ w, cancelling_at id pc (w_db w)).
Proof.
  apply stable_and; [apply manifest_at_stable|].
  apply stable_and; [apply closed_at_stable|apply checkpoint_at_stable].
Qed.

Lemma close_requested_sound s id rt P :
  allows G (rt_plugin rt) → stable P → hoare P (close_requested_cancellation env s id rt) (λ _, P).
Proof.
  intros HA HP. unfold close_requested_cancellation.
  eapply (hoare_bind _ _ _ (λ pc w, (∀ x, pc = Some x → cancelling_at id x (w_db w)) ∧ P w)).
  { apply hoare_stable; [done|]. apply hoare_transaction; [done|]. intros w r db' HW _ E.
    split; [by eapply k_load_requested|]. intros a -> Ea w' Hw' _ x ->.
    rewrite Hw'. by eapply load_requested_ok. }
  intros [pc|]; [|apply hoare_ret; by intros w [_ ?]].
  destruct (negb _); [apply hoare_fail|].
  set (F := λ w, cancelling_at id pc (w_db w) ∧ P w).
  assert (stable F) as HF by (apply stable_and; [apply cancelling_at_stable|done]).
  apply (hoare_weaken _ F _ _ (λ _, P)); [|intros w [HX ?]; split; [by apply HX|done]|by intros].
  eapply (hoare_bind _ _ _ (λ tr w, plugin_cancel (rt_plugin rt) (pc_input pc) = Ok tr ∧ F w)).
  { apply hoare_lift. intros tr w Htr Hw. split; [by apply map_loop_error_ok|done]. }
  intros tr. set (F' := λ w, schema_version (ct_checkpoint tr) = checkpoint_schema_version (pc_manifest pc) ∧
    plugin_cancel (rt_plugin rt) (pc_input pc) = Ok tr ∧ F w).
  eapply (hoare_bind _ _ _ (λ _, F')).
  { apply hoare_lift. intros u w Hc Hw. split; [by eapply require_compatible_ok|done]. }
  intros _. eapply (hoare_bind _ _ _ (λ _, F')); [apply hoare_lift; by intros|].
  intros _. eapply hoare_bind; [apply hoare_clock|]. intros n.
  eapply (hoare_bind _ _ _ (λ _, P)).
  { apply hoare_transaction.
    - intros w w' HE (? & ? & ?). split_and!; [done..|]. by eapply HF.
    - intros w r db' HW (Hsv & Htr & (Hm & Hc & Hk) & Hp) E.
      assert (gstep G (w_db w) db') as Hstep.
      { eapply k_commit_cancellation; [| | |exact E].
        - by eapply (allows_cancellation _ _ HA).
        - by eapply manifest_at_fits.
        - by apply closed_at_not_dispatched. }
      split; [done|]. intros a -> Ea w' Hw' _. eapply (HP w); [|done]. rewrite Hw'.
      eapply kstep_evolves; [apply HW|done]. }
  intros _. by apply hoare_ret.
Qed.

Lemma resolve_intents_bound act (rt : Runtime Adapter) l intents :
  collect (resolve_intent act rt) l = Ok intents →
  ∀ i, i ∈ intents → effect_bindings (a_manifest act) !! ni_binding i = Some (ni_binding_revision i).
Proof.
  intros HC i Hi. apply list_elem_of_lookup_1 in Hi as [j Hj].
  destruct (collect_lookup _ _ _ HC) as [Hlen HL].
  destruct (l !! j) as [x|] eqn:Ex.
  - destruct (HL j x Ex) as (y & Hy & Hr). simplify_eq.
    unfold resolve_intent in Hr. inv_tx. done.
  - apply lookup_ge_None in Ex. apply lookup_lt_Some in Hj. lia.
Qed.

Lemma apply_loop_decision_sound s act rt d input :
  allows G (rt_plugin rt) → decide_ (rt_plugin rt) input = Ok d → li_checkpoint input = a_checkpoint act →
  hoare (active_ok act) (apply_loop_decision env s act rt d) (λ _, active_ok act).
Proof.
  intros HA Hd Hin. unfold apply_loop_decision.
  destruct (negb _) eqn:Ev; [apply hoare_fail|]. split_bools.
  eapply hoare_bind; [apply hoare_clock|]. intros n.
  assert (∀ nid, hoare (active_ok act) (transaction env (commit_decision nid s (a_operation_id act)
            (a_transition_version act) d)) (λ _, active_ok act)) as Hcd.
  { intros nid. apply hoare_transaction; [apply active_ok_stable|]. intros w r db' HW Ha E.
    assert (gstep G (w_db w) db') as Hk.
    { destruct Ha as [Hm Hc]. rewrite <- Hin in Hc.
      eapply k_commit_decision; [| |exact E]; [by eapply allows_decision|by eapply manifest_at_fits]. }
    split; [done|]. intros ? -> ? w1 Hw1 _. eapply active_ok_stable; [|done]. rewrite Hw1.
    eapply kstep_evolves; [apply HW|done]. }
  destruct d as [c effs| | | |];
    try (eapply hoare_bind; [apply Hcd|]; intros a; by apply hoare_ret).
  destruct effs as [|x xs]; [apply hoare_fail|].
  eapply (hoare_bind _ _ _ (λ l w, (∀ i, i ∈ l →
            effect_bindings (a_manifest act) !! ni_binding i = Some (ni_binding_revision i)) ∧
            active_ok act w)).
  { apply hoare_lift. intros l w Hl Ha. split; [by eapply resolve_intents_bound|done]. }
  intros l. eapply (hoare_bind _ _ _ (λ _, active_ok act)); [|intros _; by apply hoare_ret].
  apply hoare_transaction.
  - intros w w' HE [? ?]. split; [done|]. by eapply active_ok_stable.
  - intros w r db' HW [Hl Ha] E.
    assert (gstep G (w_db w) db') as Hk.
    { destruct Ha as [Hm Hc]. rewrite <- Hin in Hc. eapply k_intent; [| | |exact E].
      - by eapply allows_intent.
      - by eapply manifest_at_fits.
      - by eapply manifest_at_bound. }
    split; [done|]. intros ? -> ? w1 Hw1 _. eapply active_ok_stable; [|done]. rewrite Hw1.
    eapply kstep_evolves; [apply HW|done].
Qed.

(** *** The effect phase *)

(** The invocations handed out are new dispatches of children of the batch. *)
Definition fresh_pending (ps : list PendingEffect) w : Prop :=
  NoDup (pe_effect_id <$> ps) ∧
  ∀ p, p ∈ ps → ∃ e, effects (w_db w) !! pe_effect_id p = Some e ∧
    1 ≤ pe_dispatch_count p ≤ e_dispatch_count e ∧
    e_recovery e = recovery_as_str (pe_recovery p) ∧
    ∀ i, i ∈ w_trace w → iv_effect_id i = pe_effect_id p →
      iv_dispatch_count i < pe_dispatch_count p.

Definition pending_children (b : EffectBatchId) (ps : list PendingEffect) w : Prop :=
  ∀ p, p ∈ ps → children_at b (pe_effect_id p) (w_db w).

Lemma pending_children_stable b ps : stable (pending_children b ps).
Proof. intros w w' HE HP p Hp. eapply (children_at_stable b); eauto. Qed.

Lemma effect_count_nonneg e : effect_checks e = true → 0 ≤ e_dispatch_count e.
Proof. unfold effect_checks. intros. split_bools. done. Qed.

Lemma prepare_fresh id n w pb db' w' :
  world_ok w → prepare_effect_batch id n (w_db w) = Ok (Invoke pb, db') →
  w_db w' = db' → w_trace w' = w_trace w →
  fresh_pending (pb_effects pb) w' ∧ pending_children (pb_batch_id pb) (pb_effects pb) w'.
Proof.
  intros [HI [HT _]] E Hdb Htr.
  destruct (prepare_effect_batch_ok _ _ _ _ _ HI E)
    as [(? & _ & _)|(o & ph & b & stored & pend & view & effs & HD & Hcase)]; [done|].
  destruct Hcase as [(_ & [= ->] & _ & Hdb')|(_ & _ & bl & Hr & _)]; [|by destruct bl].
  rewrite Hdb' in Hdb. cbn [pb_effects pb_batch_id] in *. destruct HD as [_ _ _ _ _ _ HL HP].
  assert (∀ p, p ∈ pend → ∃ e e', effects (w_db w) !! pe_effect_id p = Some e ∧
    effects (w_db w') !! pe_effect_id p = Some e' ∧ e_batch_id e' = b ∧
    pe_dispatch_count p = e_dispatch_count e + 1 ∧ e_dispatch_count e' = pe_dispatch_count p ∧
    e_recovery e' = recovery_as_str (pe_recovery p) ∧ 0 ≤ e_dispatch_count e) as Hpend.
  { intros p Hp. destruct (pd_pending _ _ _ _ _ _ _ _ HP p Hp) as (e & e' & He & He' & Hst & Hpo).
    destruct Hpo as (_ & _ & _ & _ & _ & Hrec & Hcnt & -> & _). exists e. eexists.
    rewrite Hdb. split_and!; [done|exact He'|..]; cbn; try done.
    - assert (pe_effect_id p ∈ pr_effect_id <$> stored) as Hin.
      { eapply elem_of_sublist; [|apply HP]. by apply list_elem_of_fmap_2. }
      apply list_elem_of_fmap in Hin as (x & Hx & Hxs).
      destruct (ld_from _ _ _ _ HL x Hxs) as (e0 & He0 & Hb0 & _). rewrite Hx in He. congruence.
    - apply effect_count_nonneg. by eapply st_effect_checks; [apply HI|]. }
  split.
  - split.
    + eapply sublist_NoDup; [apply HL|apply HP].
    + intros p Hp. destruct (Hpend p Hp) as (e & e' & He & He' & _ & Hc & Hc' & Hr & Hpos).
      exists e'. split_and!; [done|lia|lia|done|]. rewrite Htr. intros i Hi Hid.
      destruct (HT i Hi) as (e1 & He1 & ? & _). rewrite Hid in He1. simplify_eq. lia.
  - intros p Hp. destruct (Hpend p Hp) as (e & e' & _ & He' & Hb & _). by exists e'.
Qed.

Lemma record_invocation_ok w p :
  world_ok w → fresh_pending [p] w →
  let i := {| iv_effect_id := pe_effect_id p; iv_dispatch_count := pe_dispatch_count p;
              iv_recovery := pe_recovery p |} in
  trace_ok (w_db w) (w_trace w ++ [i]).
Proof.
  intros [HI [HT HN]] [_ HF]. destruct (HF p) as (e & He & Hc & Hr & Hfresh); [left|]. split.
  - intros j [Hj|Hj%list_elem_of_singleton]%elem_of_app; [by apply HT|subst j]. by exists e.
  - rewrite fmap_app. apply NoDup_app. split_and!; [done| |apply NoDup_singleton].
    intros x Hx ->%list_elem_of_singleton. apply list_elem_of_fmap in Hx as (j & Heq & Hj).
    cbn in Heq. injection Heq as H1 H2. specialize (Hfresh j Hj (eq_sym H1)). lia.
Qed.

Lemma spawn_sound s resolved : ∀ P,
  (∀ w w', w_db w' = w_db w → P w → P w') →
  hoare (λ w, fresh_pending resolved.*1 w ∧ P w) (spawn_attempts (Adapter:=Adapter) s resolved) (λ _, P).
Proof.
  induction resolved as [|[p a] l IH]; intros P HP; cbn [spawn_attempts].
  { apply hoare_ret. by intros w [_ ?]. }
  eapply hoare_bind; [apply hoare_running; intros w x [[HN HF] Hp]; split; [done|by apply (HP w)]|].
  intros ?. eapply (hoare_bind _ _ _ (λ _ w, fresh_pending l.*1 w ∧ P w)); [|intros ?; by apply IH].
  intros w r w' HW [[HN HF] Hp] [= <- <-]. cbn in HN. apply NoDup_cons in HN as [Hpl HN].
  split; [|split; [|split]].
  - split; [apply HW|]. cbn. apply (record_invocation_ok w p HW). split; [apply NoDup_singleton|].
    intros q ->%list_elem_of_singleton. apply HF. left.
  - split; cbn; [done|]. by apply prefix_app_r.
  - split; [done|]. intros q Hq. destruct (HF q) as (e & He & Hc & Hr & Hfr); [by right|].
    exists e. do 3 (split; [done|]). cbn. intros i [Hi|Hi%list_elem_of_singleton]%elem_of_app Hid; [by apply Hfr|subst i].
    cbn in Hid. destruct Hpl. rewrite Hid. by apply list_elem_of_fmap_2.
  - by apply (HP w).
Qed.

Lemma settle_completion_sound act b p c P :
  stable P → (∀ w, P w → children_at b (pe_effect_id p) (w_db w)) →
  hoare P (settle_completion env act b p c) (λ _, P).
Proof.
  intros HP Hc. unfold settle_completion.
  assert (∀ w db' w', world_ok w → P w → gstep G (w_db w) db' → w_db w' = db' → P w') as Hst.
  { intros w db' w' HW Hp Hk Hw'. eapply HP; [|done]. rewrite Hw'. eapply kstep_evolves; [apply HW|done]. }
  destruct c as [x|].
  - apply hoare_transaction; [done|]. intros w r db' HW Hp E.
    assert (gstep G (w_db w) db') as Hk by (by eapply k_settle).
    split; [done|]. intros a -> Ea w' Hw' _. by eapply Hst.
  - destruct (_ && _); [by apply hoare_ret|].
    apply hoare_transaction; [done|]. intros w r db' HW Hp E.
    assert (gstep G (w_db w) db') as Hk.
    { eapply k_record_unknown; [|done]. destruct (Hc w Hp) as (e & He & Hb).
      intros e' He'. congruence. }
    split; [done|]. intros a -> Ea w' Hw' _. by eapply Hst.
Qed.

Lemma collect_completions_sound s act b l : ∀ exp fin P,
  stable P → (∀ w p, P w → p ∈ l.*1 → children_at b (pe_effect_id p) (w_db w)) →
  hoare P (collect_completions env s act b l exp fin) (λ _, P).
Proof.
  induction l as [|[p a] l IH]; intros exp fin P HP Hc; cbn [collect_completions].
  { by apply hoare_ret. }
  eapply hoare_bind; [apply hoare_clock|]. intros n.
  eapply hoare_bind; [apply hoare_running, stable_running, HP|]. intros ?.
  eapply hoare_bind; [apply (hoare_lift _ _ (λ _, P)); by intros|]. intros c.
  eapply hoare_bind; [apply settle_completion_sound; [done|]|].
  { intros w Hw. apply (Hc w p Hw). left. }
  intros f. apply IH; [done|]. intros w q Hw Hq. apply (Hc w q Hw). by right.
Qed.

Lemma resolve_pending_fst act (rt : Runtime Adapter) b l resolved :
  collect (resolve_pending act rt b) l = Ok resolved → resolved.*1 = l.
Proof.
  revert resolved. induction l as [|p l IH]; intros resolved E; cbn [collect] in E; inv_tx; [done|].
  match goal with H : resolve_pending _ _ _ _ = _ |- _ => unfold resolve_pending in H;
    destruct (_ || _); [done|]; inv_tx end.
  cbn. f_equal. by apply IH.
Qed.

Lemma drive_effect_phase_sound s act rt :
  hoare (active_ok act) (drive_effect_phase env s act rt) (λ _, active_ok act).
Proof.
  unfold drive_effect_phase.
  eapply (hoare_bind _ _ _ (λ st w, (∀ pb, st = Invoke pb → fresh_pending (pb_effects pb) w ∧
            pending_children (pb_batch_id pb) (pb_effects pb) w) ∧ active_ok act w)).
  { apply hoare_stable; [apply active_ok_stable|].
    apply hoare_transaction; [apply active_ok_stable|]. intros w r db' HW Ha E.
    split; [by eapply k_prepare|]. intros a -> Ea w' Hw' Htr pb ->. by eapply prepare_fresh. }
  intros [pb| | |]; try (apply hoare_ret; by intros w [_ ?]).
  destruct (negb _); [apply hoare_fail|].
  set (F := λ w, pending_children (pb_batch_id pb) (pb_effects pb) w ∧ active_ok act w).
  assert (stable F) as HF by (apply stable_and; [apply pending_children_stable|apply active_ok_stable]).
  eapply (hoare_bind _ _ _ (λ res w, fresh_pending res.*1 w ∧ (res.*1 = pb_effects pb ∧ F w))).
  { apply hoare_lift. intros res w Hres [HP Ha]. destruct (HP pb eq_refl) as [Hfr Hch].
    rewrite (resolve_pending_fst _ _ _ _ _ Hres). done. }
  intros res. eapply hoare_bind.
  { apply (spawn_sound s res (λ w, res.*1 = pb_effects pb ∧ F w)).
    intros w w' Hdb [? ?]. split; [done|]. by eapply (HF w); rewrite ?Hdb. }
  intros ?. eapply hoare_bind; [apply hoare_clock|]. intros n.
  eapply hoare_bind.
  { apply (collect_completions_sound s act (pb_batch_id pb) _ _ _ (λ w, res.*1 = pb_effects pb ∧ F w)).
    - intros w w' HE [? ?]. split; [done|]. by eapply HF.
    - intros w p [Hres [Hch _]] Hp. apply Hch. rewrite <- Hres.
      apply list_elem_of_fmap in Hp as (x & -> & Hx). apply list_elem_of_fmap_2.
      by eapply completion_subset. }
  intros [exp fin]. eapply hoare_bind.
  { apply (hoare_lift _ _ (λ _, active_ok act)). by intros ? w _ (_ & _ & ?). }
  intros v. destruct fin; [by apply hoare_ret|].
  eapply (hoare_bind _ _ _ (λ _, active_ok act)); [|intros ?; by apply hoare_ret].
  apply hoare_transaction; [apply active_ok_stable|]. intros w r db' HW Ha E.
  assert (gstep G (w_db w) db') as Hk by (by eapply k_finish_attempt).
  split; [done|]. intros ? -> ? w1 Hw1 _. eapply active_ok_stable; [|done]. rewrite Hw1.
  eapply kstep_evolves; [apply HW|done].
Qed.

Lemma load_active_read_only s id : read_only (load_active s id).
Proof. by intros db a db' (-> & _)%load_active_ok. Qed.

Lemma load_active_sound s id P :
  stable P →
  hoare P (transaction env (load_active s id)) (λ act w, a_operation_id act = id ∧ active_ok act w).
Proof.
  intros HP. apply hoare_read_transaction; [done|apply load_active_read_only|].
  intros w act HW _ (_ & Hid & Hm)%load_active_ok w' Hw'. split; [done|].
  unfold active_ok. by rewrite Hw'.
Qed.

Lemma events_after_read_only s c : read_only (events_after s c).
Proof. by intros db a db' [_ ->]%read_ok. Qed.

Lemma load_loop_input_checkpoint s act evs db input db' :
  load_loop_input s act evs db = Ok (input, db') → li_checkpoint input = a_checkpoint act.
Proof. intros E. unfold load_loop_input in E. inv_tx. done. Qed.

Lemma load_loop_input_read_only s act evs : read_only (load_loop_input s act evs).
Proof. intros db a db' E. unfold load_loop_input in E. by inv_tx. Qed.

Lemma drive_loop_sound fuel s rt : allows G (rt_plugin rt) → ∀ act,
  hoare (active_ok act) (drive_loop fuel env s rt act) (λ _ _, True).
Proof.
  intros HA. induction fuel as [|fuel IH]; intros act; cbn [drive_loop]; [by apply hoare_ret|].
  assert (∀ id P, stable P → hoare P (active ← transaction env (load_active s id);
            drive_loop fuel env s rt active) (λ _ _, True)) as Hnext.
  { intros id P HP. eapply hoare_bind; [by apply load_active_sound|]. intros act'.
    eapply hoare_weaken; [apply IH|by intros w [_ ?]|done]. }
  pose proof (active_ok_stable act) as Hs.
  eapply hoare_bind; [by apply close_requested_sound|]. intros [x|]; [by apply hoare_ret|].
  eapply (hoare_bind _ _ _ (λ _, active_ok act)).
  { apply hoare_read_transaction; [done|apply events_after_read_only|].
    intros w a HW Ha _ w' Hw'. unfold active_ok in *. by rewrite Hw'. }
  intros page. destruct (a_phase act); try apply hoare_fail.
  - eapply (hoare_bind _ _ _ (λ input w, li_checkpoint input = a_checkpoint act ∧ active_ok act w)).
    { apply hoare_read_transaction; [done|apply load_loop_input_read_only|].
      intros w a HW Ha Hin w' Hw'. split; [by eapply load_loop_input_checkpoint|].
      unfold active_ok in *. by rewrite Hw'. }
    intros input. eapply (hoare_bind _ _ _ (λ d w, (decide_ (rt_plugin rt) input = Ok d ∧
      li_checkpoint input = a_checkpoint act) ∧ active_ok act w)).
    { apply hoare_lift. intros d w Hd [Hin Ha]. split; [|done]. split; [by apply map_loop_error_ok|done]. }
    intros d. eapply hoare_bind.
    { apply hoare_given. intros [Hd Hin]. by eapply apply_loop_decision_sound. }
    intros [x|]; [by apply hoare_ret|]. by apply Hnext.
  - eapply hoare_bind; [apply drive_effect_phase_sound|]. intros ?. by apply Hnext.
  - eapply hoare_bind; [apply drive_effect_phase_sound|]. intros ?. by apply Hnext.
  - by apply hoare_ret.
Qed.

Lemma with_lease_sound {A} s (m : D A) :
  hoare (λ _, True) m (λ _ _, True) → hoare (λ _, True) (with_lease s m) (λ _ _, True).
Proof.
  intros Hm w r w' HW _ E. unfold with_lease in E. destruct (acquire _ _) as [x|err]; [|by simplify_eq].
  destruct (m _) as [r1 w1] eqn:Em. simplify_eq.
  destruct (Hm (MkWorld (w_db w) x (w_clock w) (w_trace w)) r w1) as (H1 & H2 & _); [done..|].
  split_and!; [done..|by destruct r].
Qed.

Lemma drive_sound_lemma fuel s rt :
  allows G (rt_plugin rt) → hoare (λ _, True) (drive fuel env s rt) (λ _ _, True).
Proof.
  intros HA. apply with_lease_sound. unfold drive_leased.
  eapply (hoare_bind _ _ _ (λ r w, ∀ act, r = Some act → active_ok act w)).
  { apply hoare_transaction; [apply stable_true|]. intros w r db' HW _ E.
    split; [by eapply k_activate|]. intros a -> Ea w' Hw' _ act ->. unfold active_ok. rewrite Hw'.
    by eapply activate_ok. }
  intros [act|]; [|by apply hoare_ret].
  eapply (hoare_weaken _ (active_ok act)); [|intros w HX; by apply HX|done].
  eapply hoare_bind; [apply hoare_try_running, stable_running, active_ok_stable|]. intros ?.
  destruct (negb _); [apply hoare_fail|]. by apply drive_loop_sound.
Qed.

Lemma abandon_sound_lemma s id rt :
  allows G (rt_plugin rt) →
  hoare (λ _, True) (abandon_unknown_effect env s id rt) (λ _ _, True).
Proof.
  intros HA. apply with_lease_sound.
  set (pending_at := λ p db, manifest_at id (pa_manifest p) db ∧
    checkpoint_at id (pa_transition_version p) (Some (ui_checkpoint (pa_input p))) db).
  eapply (hoare_bind _ _ _ (λ st w, ∀ p, st = Pending p → pending_at p (w_db w))).
  { apply hoare_read_transaction; [apply stable_true|by intros db a db' [_ ->]%read_ok|].
    intros w st HW _ [E _]%read_ok w' Hw' p ->. rewrite Hw'. by eapply load_unknown_ok. }
  intros [p|m x].
  - set (F := λ w, pending_at p (w_db w)).
    apply (hoare_weaken _ F _ _ (λ _ _, True)); [|intros w HX; by apply HX|done].
    assert (stable F) as HF by (apply stable_and; [apply manifest_at_stable|apply checkpoint_at_stable]).
    eapply hoare_bind; [apply (hoare_lift _ _ (λ _, F)); by intros|]. intros ?.
    eapply (hoare_bind _ _ _ (λ ab w, plugin_abandon (rt_plugin rt) (pa_input p) = Ok ab ∧ F w)).
    { apply hoare_lift. intros ab w Hab Hw. split; [by apply map_loop_error_ok|done]. }
    intros ab. apply hoare_given. intros Hab.
    eapply (hoare_bind _ _ _ (λ _ w, schema_version (ab_checkpoint ab) =
              checkpoint_schema_version (pa_manifest p) ∧ F w)).
    { apply hoare_lift. intros u w Hc Hw. split; [by eapply require_compatible_ok|done]. }
    intros ?. apply hoare_given. intros Hv.
    eapply hoare_bind; [apply (hoare_lift _ _ (λ _, F)); by intros|].
    intros ?. eapply hoare_bind; [apply hoare_clock|]. intros n. apply hoare_transaction; [done|].
    intros w r db1 HW [Hm Hk] E. split; [|by intros]. eapply k_abandon; [| |exact E].
    + by eapply allows_abandonment.
    + by eapply manifest_at_fits.
  - eapply hoare_bind; [apply (hoare_lift _ _ (λ _ _, True)); by intros|]. intros ?. by apply hoare_ret.
Qed.

Lemma request_sound_lemma s id k : hoare (λ _, True) (request_and_signal env s id k) (λ _ _, True).
Proof.
  unfold request_and_signal. eapply (hoare_bind _ _ _ (λ _ _, True)).
  { apply hoare_transaction; [apply stable_true|]. intros w r db' HW _ E.
    split; [|by intros]. by eapply k_request_cancellation. }
  intros [|]; [by apply hoare_running|by apply hoare_ret].
Qed.
End environment.
End drive_sound.
