(* ===== verification/Lifetime.v ===== *)
(** * Lifetimes of a kernel

    A lifetime is a sequence of calls on one database, with crashes: every call
    may stop at any transaction ([io_failure]) and the process-local lease table
    may be lost at any time, while the database and the record of adapter
    invocations stay. The theorems here are about whole lifetimes and about the
    steps of the kernel. *)
From S2P Require Import Prelude Json State Schema SchemaFacts Admission OperationStore EffectStore.
From S2P Require Import Cancellation Runtime Drive Concrete Invariant AdmissionInv OperationInv EffectInv.
From S2P Require Import DispatchInv Steps DriveSound.
Section lifetime.
Context `{KS : KernelSerde} `{!KernelSerdeLaws} {Adapter : Type}.
Implicit Types (db : Database) (o : OperationRow) (e : EffectRow) (w : World).

(** Other callers commit only kernel transactions, and attempts complete in
    some order of the attempts that were started. *)
Record guarded_env (G : Guards) (env : Environment Adapter) : Prop := {
  ge_interfere : ∀ n db, Inv db → rtc (gstep G) db (interfere env n db);
  ge_order : ∀ n l x, x ∈ completion_order env n l → x ∈ l;
}.
Definition good_env : Environment Adapter → Prop := guarded_env unguarded.

(** Lifetimes whose calls use runtimes of [R], beside callers that respect [G]. *)
Inductive guarded_lifetime (G : Guards) (R : Runtime Adapter → Prop) : World → Prop :=
| life_open db running clock :
    rtc (gstep G) empty_database db → guarded_lifetime G R (MkWorld db running clock [])
| life_drive w env fuel s rt r w' :
    guarded_lifetime G R w → guarded_env G env → R rt → drive fuel env s rt w = (r, w') →
    guarded_lifetime G R w'
| life_abandon w env s id rt r w' :
    guarded_lifetime G R w → guarded_env G env → R rt →
    abandon_unknown_effect env s id rt w = (r, w') → guarded_lifetime G R w'
| life_request w env s id k r w' :
    guarded_lifetime G R w → guarded_env G env → request_and_signal env s id k w = (r, w') →
    guarded_lifetime G R w'
| life_other w db' :
    guarded_lifetime G R w → gstep G (w_db w) db' →
    guarded_lifetime G R (MkWorld db' (w_running w) (w_clock w) (w_trace w))
| life_restart w running clock :
    guarded_lifetime G R w → guarded_lifetime G R (MkWorld (w_db w) running clock (w_trace w)).

Definition lifetime : World → Prop := guarded_lifetime unguarded (λ _, True).

(** A lifetime only takes steps of the kernel that respect its guards. *)
Lemma guarded_lifetime_ok G R w :
  (∀ rt, R rt → allows G (rt_plugin rt)) → guarded_lifetime G R w →
  world_ok w ∧ rtc (gstep G) empty_database (w_db w).
Proof.
  intros HA. induction 1 as [db rn ck HR|w env fuel s rt r w' _ IH HE Hrt E
    |w env s id rt r w' _ IH HE Hrt E|w env s id k r w' _ IH HE E|w db' _ IH HS|w rn ck _ IH].
  - split; [|done]. split; [eapply ksteps_inv; [apply Inv_empty|exact HR]|]. cbn.
    split; [by intros i ?%elem_of_nil|]. apply NoDup_nil_2.
  - destruct IH as [HW HR]. destruct HE as [H1 H2].
    destruct (drive_sound_lemma env H1 H2 fuel s rt (HA _ Hrt) w r w' HW I E) as (? & [? _] & _).
    split; [done|]. by etrans.
  - destruct IH as [HW HR]. destruct HE as [H1 H2].
    destruct (abandon_sound_lemma env H1 s id rt (HA _ Hrt) w r w' HW I E) as (? & [? _] & _).
    split; [done|]. by etrans.
  - destruct IH as [HW HR]. destruct HE as [H1 H2].
    destruct (request_sound_lemma env H1 s id k w r w' HW I E) as (? & [? _] & _).
    split; [done|]. by etrans.
  - destruct IH as [[HI HT] HR]. split.
    + split; [by eapply kstep_inv|]. eapply trace_ok_evolves; [|done]. by eapply kstep_evolves.
    + cbn. by eapply rtc_r.
  - done.
Qed.

Lemma lifetime_ok w : lifetime w → world_ok w ∧ reachable (w_db w).
Proof. apply guarded_lifetime_ok. intros rt _. apply unguarded_allows. Qed.

(** Two recorded invocations of one dispatch are the same entry. *)
Lemma trace_unique db tr x y i j :
  trace_ok db tr → tr !! x = Some i → tr !! y = Some j →
  iv_effect_id i = iv_effect_id j → iv_dispatch_count i = iv_dispatch_count j → x = y.
Proof.
  intros [_ HN] Hx Hy He Hc. eapply NoDup_lookup; [exact HN|..].
  - rewrite list_lookup_fmap, Hx. done.
  - rewrite list_lookup_fmap, Hy. cbn. by rewrite He, Hc.
Qed.

Lemma never_replay_count db k e :
  Inv db → effects db !! k = Some e → e_recovery e = "never_replay" → e_dispatch_count e ≤ 1.
Proof.
  intros HI He Hr. destruct (st_effect _ (inv_static _ HI) k e He) as [b Hb].
  destruct (st_batch _ (inv_static _ HI) _ _ Hb) as [[o Ho] _].
  destruct (inv_ops _ HI _ _ Ho) as (_ & _ & HE).
  destruct (HE k e He) as (_ & _ & _ & _ & _ & Hn & _); [by exists b|]. by apply Hn.
Qed.
End lifetime.

(** * Reachable states of the scenario

    The databases of [Concrete.Scenario] on which the theorems are
    instantiated, with the proofs that they are reachable. *)
(** A row of a concrete database that passes a test. *)
Lemma row_that {A} (m : option A) (f : A → bool) :
  match m with Some a => f a | None => false end = true → ∃ a, m = Some a ∧ f a = true.
Proof. destruct m; [eauto|done]. Qed.

Lemma no_row {A} (m : option A) :
  match m with Some _ => false | None => true end = true → m = None.
Proof. by destruct m. Qed.

Lemma ok_that {E A} (r : Result E A) : is_ok r = true → ∃ a, r = Ok a.
Proof. destruct r; [eauto|done]. Qed.

(** A committed call on a concrete database. *)
Lemma committed {A} (m : Tx A) db a :
  (immediate m db).1 = Ok a → immediate m db = (Ok a, Scenario.step m db).
Proof. unfold Scenario.step. destruct (immediate m db). cbn. by intros ->. Qed.

Module Facts.
Import Scenario.

Lemma session_reachable : reachable session_db.
Proof.
  eapply rtc_l; [eapply (k_create_agent _ _ agent), surjective_pairing|].
  eapply rtc_l; [eapply (k_create_session _ _ session agent), surjective_pairing|].
  apply rtc_refl.
Qed.

Lemma first_reachable : reachable first_db.
Proof.
  eapply rtc_r; [apply session_reachable|].
  eapply (k_submit _ _ op1 session (cmd 21 "first") Ordered), surjective_pairing.
Qed.

Lemma setup_step : kstep first_db setup_db.
Proof. eapply (k_submit _ _ op2 session (cmd 22 "second") Ordered), surjective_pairing. Qed.

Lemma setup_reachable : reachable setup_db.
Proof. eapply rtc_r; [apply first_reachable|apply setup_step]. Qed.

Lemma env_good answer : good_env (env answer).
Proof. split; [intros; apply rtc_refl|done]. Qed.

(** The world after driving the session once. *)
Definition after (recovery : EffectRecovery) (answer : nat → EffectCompletion) (clock : nat)
    (db : Database) : World :=
  (drive 10 (env answer) session (runtime recovery) (world clock db)).2.

Definition succeeds (_ : nat) : EffectCompletion := CompletionSettled (Success "ok").
Definition unknown (_ : nat) : EffectCompletion := CompletionUnknown.

Lemma after_lifetime recovery answer clock db :
  reachable db → lifetime (Adapter:=unit) (after recovery answer clock db).
Proof.
  intros HR. unfold after.
  destruct (drive 10 (env answer) session (runtime recovery) (world clock db)) as [r w'] eqn:E.
  eapply life_drive; [by apply (life_open _ _ db)|apply env_good|done|exact E].
Qed.

Lemma after_reachable recovery answer clock db :
  reachable db → reachable (w_db (after recovery answer clock db)).
Proof. intros HR. by apply (lifetime_ok (Adapter:=unit)), after_lifetime. Qed.

Lemma after_steps recovery answer clock db :
  reachable db → rtc kstep db (w_db (after recovery answer clock db)).
Proof.
  intros HR. unfold after.
  destruct (drive 10 (env answer) session (runtime recovery) (world clock db)) as [r w'] eqn:E.
  destruct (lifetime_ok (Adapter:=unit) (world clock db)) as [HW _]; [by apply life_open|].
  destruct (env_good answer) as [H1 H2].
  by destruct (drive_sound_lemma _ H1 H2 10 session (runtime recovery) (unguarded_allows _) _ _ _ HW I E) as (_ & [? _] & _).
Qed.

(** The first operation completed; the first operation is blocked. *)
Definition done_db : Database := w_db (after SafeToReplay succeeds 0 setup_db).
Definition blocked_db : Database := w_db (after NeverReplay unknown 0 setup_db).

Definition done2_db : Database := w_db (after SafeToReplay succeeds 100 done_db).

Lemma done_db_eq :
  done_db = w_db (drive 10 (env succeeds) session (runtime SafeToReplay) (world 0 setup_db)).2.
Proof. reflexivity. Qed.

Lemma done_reachable : reachable done_db.
Proof. apply after_reachable, setup_reachable. Qed.
Lemma blocked_reachable : reachable blocked_db.
Proof. apply after_reachable, setup_reachable. Qed.
Lemma done2_steps : rtc kstep done_db done2_db.
Proof. apply after_steps, done_reachable. Qed.
Lemma done2_reachable : reachable done2_db.
Proof. apply after_reachable, done_reachable. Qed.

(** *** An operation taken through its transactions one by one

    The first operation is activated, commits the intent of a batch of two
    effects (one that may be replayed, one that may not), is dispatched, is
    asked to cancel, and the dispatched batch is closed. *)
Definition active_db : Database := step (activate session manifest) setup_db.
Definition batch : EffectBatchId := MkId 50.
Definition new_effect (z : Z) : EffectId := MkId (60 + Z.to_N z).
Definition two_intents : NewEffectBatchIntent := {|
  nb_checkpoint := ckpt "asked";
  nb_effects := [ {| ni_binding := "tool"; ni_binding_revision := "7"; ni_request := "a";
                     ni_recovery := SafeToReplay |};
                  {| ni_binding := "tool"; ni_binding_revision := "7"; ni_request := "b";
                     ni_recovery := NeverReplay |} ] |}.
Definition intent_db : Database :=
  step (commit_effect_batch_intent batch new_effect op1 1 two_intents) active_db.
Definition dispatched_db : Database := step (prepare_effect_batch op1 2) intent_db.
Definition half_db : Database :=
  step (settle_batch_effect op1 batch (MkId 60) 3 (Success "ok")) dispatched_db.
Definition requested_db : Database :=
  step (request_cancellation session op1 (MkId 77)) dispatched_db.
Definition closed_db : Database := step (load_requested_cancellation session op1) requested_db.

Lemma active_reachable : reachable active_db.
Proof. eapply rtc_r; [apply setup_reachable|]. eapply k_activate, surjective_pairing. Qed.

Lemma active_manifest db :
  match operations db !! op1 with
  | Some o => bool_decide (o_manifest_json o = Some (DocManifest manifest))
  | None => false
  end = true →
  ∀ o tm m, operations db !! op1 = Some o → o_manifest_json o = Some tm → decodes tm m →
    m = manifest.
Proof.
  intros Hb o tm m Ho Htm Hd. rewrite Ho in Hb. apply bool_decide_eq_true in Hb.
  rewrite Hb in Htm. injection Htm as <-. unfold decodes in Hd. cbn in Hd. congruence.
Qed.

Lemma intent_reachable : reachable intent_db.
Proof.
  assert (∀ o tm m, operations active_db !! op1 = Some o → o_manifest_json o = Some tm →
            decodes tm m → m = manifest) as HM.
  { apply active_manifest. vm_compute. reflexivity. }
  eapply rtc_r; [apply active_reachable|].
  eapply (k_intent _ _ batch new_effect op1 1 two_intents); [done| | |apply surjective_pairing].
  - intros o tm m Ho Htm Hd. by rewrite (HM o tm m Ho Htm Hd).
  - intros o tm m Ho Htm Hd i Hi. rewrite (HM o tm m Ho Htm Hd).
    cbn in Hi. apply elem_of_cons in Hi as [->|Hi]; [done|].
    by apply list_elem_of_singleton in Hi as ->.
Qed.

Lemma dispatched_reachable : reachable dispatched_db.
Proof. eapply rtc_r; [apply intent_reachable|]. eapply (k_prepare _ _ op1 2), surjective_pairing. Qed.

Lemma half_reachable : reachable half_db.
Proof.
  eapply rtc_r; [apply dispatched_reachable|].
  eapply (k_settle _ _ op1 batch (MkId 60) 3), surjective_pairing.
Qed.

Lemma requested_step : kstep dispatched_db requested_db.
Proof. eapply (k_request_cancellation _ _ session op1 (MkId 77)), surjective_pairing. Qed.

Lemma requested_reachable : reachable requested_db.
Proof. eapply rtc_r; [apply dispatched_reachable|apply requested_step]. Qed.

Lemma requested_committed :
  immediate (request_cancellation session op1 (MkId 77)) dispatched_db = (Ok true, requested_db).
Proof. apply committed. vm_compute. reflexivity. Qed.

Lemma closed_step : kstep requested_db closed_db.
Proof. eapply (k_load_requested _ _ session op1), surjective_pairing. Qed.

Lemma closed_reachable : reachable closed_db.
Proof. eapply rtc_r; [apply requested_reachable|apply closed_step]. Qed.

(** The cancellation commits. *)
Definition stop : CancellationTransition :=
  {| ct_checkpoint := ckpt "cancelled"; ct_events := [{| kind := "stopped"; payload := "" |}] |}.
Definition cancelled_db : Database :=
  step (commit_cancellation (λ z, MkId (Z.to_N z)) session op1 4 0 stop) closed_db.

Lemma cancelled_steps : rtc kstep requested_db cancelled_db.
Proof.
  eapply rtc_l; [apply closed_step|]. apply rtc_once.
  destruct (row_that (operations closed_db !! op1)
    (λ o, negb (String.eqb (o_phase o) "effect_dispatched"))) as (o & Ho & Hp);
    [vm_compute; reflexivity|].
  eapply (k_commit_cancellation _ _ (λ z, MkId (Z.to_N z)) session op1 4 0 stop);
    [done| | |apply surjective_pairing].
  - assert (∀ o tm m, operations closed_db !! op1 = Some o → o_manifest_json o = Some tm →
      decodes tm m → m = manifest) as HM by (apply active_manifest; vm_compute; reflexivity).
    intros o' tm m Hop Htm Hd. rewrite (HM o' tm m Hop Htm Hd). reflexivity.
  - intros o' Ho' _. rewrite Ho in Ho'. injection Ho' as <-. intros Hd. rewrite Hd in Hp. discriminate Hp.
Qed.
End Facts.

Lemma first_db_eq :
  Scenario.first_db = Scenario.step (submit Scenario.op1 Scenario.session (Scenario.cmd 21 "first")) Scenario.session_db.
Proof. reflexivity. Qed.

(** The states are only evaluated by the virtual machine. *)
#[global] Opaque Facts.active_db Facts.intent_db Facts.dispatched_db Facts.half_db Facts.requested_db Facts.closed_db Facts.cancelled_db.
#[global] Opaque Scenario.session_db Scenario.first_db Scenario.setup_db Facts.after Facts.done_db Facts.blocked_db Facts.done2_db.
