(* ===== verification/Contract.v ===== *)
(** * A contract between the kernel and its loops

    [K events c] relates the events of a session with the checkpoint of its
    active operation ([None] when no operation is active or it has not decided
    yet). [LoopContract] is what a class of plugins promises about [K], one
    decision, cancellation or abandonment at a time; what the kernel promises
    in return is that [K] then holds of every session of every database it
    writes ([contract_kept]), whatever fails, is retried or runs beside. *)
From S2P Require Import Prelude Json State Schema SchemaFacts Admission OperationStore EffectStore.
From S2P Require Import Cancellation Runtime Drive Invariant AdmissionInv OperationInv EffectInv DispatchInv.
From S2P Require Import Steps.
Create HintDb quiet.

(** The promise of the plugins of a class. *)
Class LoopContract `{JL : JsonLib} (P : LoopPlugin → Prop)
    (K : list NewEvent → option Checkpoint → Prop) : Prop := {
  contract_start : K [] None;
  contract_decision : ∀ plugin input d c events p out l,
    P plugin → decide_ plugin input = Ok d → decision_effect d = Ok (c, events, p, out) →
    K l (li_checkpoint input) →
    K (l ++ events) (match out with None => Some c | Some _ => None end);
  contract_effects : ∀ plugin input c effects l,
    P plugin → decide_ plugin input = Ok (InvokeEffects c effects) →
    K l (li_checkpoint input) → K l (Some c);
  contract_cancellation : ∀ plugin input t l,
    P plugin → plugin_cancel plugin input = Ok t → K l (ci_checkpoint input) →
    K (l ++ ct_events t) None;
  contract_abandonment : ∀ plugin input a l,
    P plugin → plugin_abandon plugin input = Ok a → K l (Some (ui_checkpoint input)) →
    K (l ++ ab_events a) None;
}.

Section recorded.
Context `{KS : KernelSerde}.
Implicit Types (db : Database) (o : OperationRow) (l : list NewEvent) (c : option Checkpoint).

(** The active operation of a session and the number of its events. *)
Definition row_view (r : SessionRow) : option OperationId * Z :=
  (s_active_operation_id r, s_next_event_sequence r).
Definition session_view db (s : SessionId) : option OperationId * Z :=
  from_option row_view (None, 0) (sessions db !! s).

(** [l] are the events of the session in order. *)
Definition recorded db (s : SessionId) l : Prop :=
  (session_view db s).2 = Z.of_nat (length l) ∧
  ∀ i ev, l !! i = Some ev → ∃ k v, semantic_events db !! k = Some v ∧ ev_session_id v = s ∧
    ev_sequence v = Z.of_nat i ∧ ev_kind v = kind ev ∧ decodes (ev_payload_json v) (payload ev).

(** [c] is the checkpoint of the active operation of the session. *)
Definition session_checkpoint db (s : SessionId) c : Prop :=
  match (session_view db s).1 with
  | None => c = None
  | Some id => ∃ o, operations db !! id = Some o ∧ transpose decode_json (o_checkpoint_json o) = Ok c
  end.

Lemma session_view_Some db s r : sessions db !! s = Some r → session_view db s = row_view r.
Proof. unfold session_view. by intros ->. Qed.

Lemma recorded_ext db db' s l :
  (∀ k v, semantic_events db !! k = Some v → semantic_events db' !! k = Some v) →
  (session_view db' s).2 = (session_view db s).2 → recorded db s l → recorded db' s l.
Proof.
  intros Hev Hn [Hlen HL]. split; [congruence|]. intros i ev Hi.
  destruct (HL i ev Hi) as (k & v & Hv & ?). exists k, v. split; [by apply Hev|done].
Qed.

(** Appending extends the record. *)
Lemma recorded_append `{!KernelSerdeLaws} db s id evs rows l n db' :
  (session_view db s).2 = n → Appended db s id n evs rows →
  gapless (semantic_events db) (λ v, ev_session_id v = s) ev_sequence n →
  semantic_events db' = rows → (session_view db' s).2 = n + Z.of_nat (length evs) →
  recorded db s l → recorded db' s (l ++ evs).
Proof.
  intros Hn [HG Hkeep Hnew _] Hold Hrows Hview [Hlen HL]. split.
  { rewrite Hview, length_app. lia. }
  intros i ev Hi. rewrite Hrows. apply lookup_app_Some in Hi as [Hi|[Hge Hi]].
  { destruct (HL i ev Hi) as (k & v & Hv & ?). exists k, v. split; [by apply Hkeep|done]. }
  assert (0 ≤ Z.of_nat i < n + Z.of_nat (length evs)) as Hrange.
  { apply lookup_lt_Some in Hi. lia. }
  destruct HG as [_ HR]. destruct (proj1 (HR _) Hrange) as (k & v & Hv & Hs & Hseq).
  exists k, v. split_and!; try done.
  all: destruct (Hnew k v Hv) as [Hv'|[(_ & _ & _ & j & e & Hj & Hsj & Hk & Hp) _]];
    [pose proof (gapless_bounds _ _ _ _ _ _ Hold Hv' Hs); lia|].
  all: assert (j = i - length l)%nat as -> by lia; rewrite Hi in Hj; injection Hj as ->.
  - done.
  - by apply encode_decodes.
Qed.

(** ** Transactions that leave histories and checkpoints alone *)
Record Quiet db db' : Prop := {
  q_events : semantic_events db' = semantic_events db;
  q_sessions : ∀ s, session_view db' s = session_view db s;
  q_checkpoints : ∀ id o, operations db !! id = Some o →
    ∃ o', operations db' !! id = Some o' ∧ o_checkpoint_json o' = o_checkpoint_json o;
}.

#[global] Instance Quiet_preorder : PreOrder Quiet.
Proof.
  split; [intros db; split; eauto|]. intros x y z [E1 S1 C1] [E2 S2 C2]. split.
  - congruence.
  - intros s. by rewrite S2.
  - intros id o Ho. destruct (C1 _ _ Ho) as (o1 & Ho1 & Hc1). destruct (C2 _ _ Ho1) as (o2 & ? & ?).
    exists o2. split; [done|congruence].
Qed.

Lemma quiet_recorded db db' s l : Quiet db db' → recorded db s l → recorded db' s l.
Proof. intros [E S C]. apply recorded_ext; [by rewrite E|by rewrite S]. Qed.

Lemma quiet_checkpoint db db' s c :
  Quiet db db' → session_checkpoint db s c → session_checkpoint db' s c.
Proof.
  intros [E S C]. unfold session_checkpoint. rewrite S. destruct (session_view db s).1 as [id|]; [|done].
  intros (o & Ho & Hc). destruct (C _ _ Ho) as (o' & ? & Hc'). exists o'. by rewrite Hc'.
Qed.

Definition quiet {A} (m : Tx A) : Prop := ∀ db a db', m db = Ok (a, db') → Quiet db db'.

Lemma quiet_same {A} (m : Tx A) : (∀ db a db', m db = Ok (a, db') → db' = db) → quiet m.
Proof. intros Hm db a db' E. by rewrite (Hm _ _ _ E). Qed.
Lemma quiet_bind {A B} (m : Tx A) (f : A → Tx B) : quiet m → (∀ a, quiet (f a)) → quiet (m ≫= f).
Proof.
  intros Hm Hf db b db' (a & db1 & E1 & E2)%tx_bind_ok. etrans; [by eapply Hm|by eapply Hf].
Qed.
Lemma quiet_ret {A} (a : A) : quiet (mret a).
Proof. apply quiet_same. by intros ??? [_ ?]%tx_ret_ok. Qed.
Lemma quiet_throw {A} (err : KernelError) : quiet (throw err : Tx A).
Proof. by intros ???. Qed.
Lemma quiet_lift {A} (r : KResult A) : quiet (lift r).
Proof. apply quiet_same. by intros ??? [_ ?]%lift_ok. Qed.
Lemma quiet_query {A} (q : Database → A) : quiet (query q).
Proof. apply quiet_same. by intros ??? [_ ?]%query_ok. Qed.
Lemma quiet_read {A} (q : Database → KResult A) : quiet (read q).
Proof. apply quiet_same. by intros ??? [_ ?]%read_ok. Qed.
Lemma quiet_guard b err : quiet (guard_tx b err).
Proof. apply quiet_same. by intros ??? [_ ?]%guard_ok. Qed.
Lemma quiet_require n msg : quiet (require_changed n msg).
Proof. apply quiet_guard. Qed.

(** Statements on other tables. *)
Lemma quiet_tables db db' :
  semantic_events db' = semantic_events db → sessions db' = sessions db →
  operations db' = operations db → Quiet db db'.
Proof.
  intros E S C. split; [done|intros s; unfold session_view; by rewrite S|]. rewrite C. eauto.
Qed.
Lemma quiet_insert_agent id : quiet (insert_agent id).
Proof. intros db u db' E. unfold insert_agent in E. simplify_eq. by apply quiet_tables. Qed.
Lemma quiet_insert_command id r : quiet (insert_command id r).
Proof. intros db u db' (_ & _ & ->)%insert_command_ok. by apply quiet_tables. Qed.
Lemma quiet_insert_batch id r : quiet (insert_batch id r).
Proof. intros db u db' (_ & _ & ->)%insert_batch_ok. by apply quiet_tables. Qed.
Lemma quiet_insert_effect id r : quiet (insert_effect id r).
Proof. intros db u db' (_ & _ & ->)%insert_effect_ok. by apply quiet_tables. Qed.
Lemma quiet_insert_cancellation id r : quiet (insert_cancellation id r).
Proof. intros db u db' (_ & _ & ->)%insert_cancellation_ok. by apply quiet_tables. Qed.
Lemma quiet_update_effect k w f : quiet (update_effect k w f).
Proof. intros db n db' [[_ ->]|(_ & e & _ & _ & _ & ->)]%update_effect_ok; [done|by apply quiet_tables]. Qed.
Lemma quiet_mark_unknown b : quiet (mark_dispatched_unknown b).
Proof.
  intros db u db' E. unfold mark_dispatched_unknown in E. destruct (tbl_forall _ _); [|done].
  simplify_eq. by apply quiet_tables.
Qed.

Lemma quiet_insert_session id r : row_view r = (None, 0) → quiet (insert_session id r).
Proof.
  intros Hr db u db' (Hn & _ & _ & ->)%insert_session_ok. split; [done| |eauto].
  intros s. unfold session_view. cbn. destruct (decide (id = s)) as [->|Hne].
  - by rewrite lookup_insert_eq, Hn.
  - by rewrite lookup_insert_ne.
Qed.
Lemma quiet_insert_operation id r : quiet (insert_operation id r).
Proof.
  intros db u db' (Hn & _ & _ & _ & ->)%insert_operation_ok. split; [done..|].
  intros j o Ho. exists o. split; [|done]. cbn. by rewrite lookup_insert_ne by congruence.
Qed.
Lemma quiet_update_session s w f : (∀ r, row_view (f r) = row_view r) → quiet (update_session s w f).
Proof.
  intros Hf db n db' [[_ ->]|(_ & r & Hr & _ & _ & ->)]%update_session_ok; [done|].
  split; [done| |eauto]. intros s'. unfold session_view. cbn. destruct (decide (s = s')) as [->|Hne].
  - rewrite lookup_insert_eq, Hr. apply Hf.
  - by rewrite lookup_insert_ne.
Qed.
Lemma quiet_row id o o' db :
  operations db !! id = Some o → o_checkpoint_json o' = o_checkpoint_json o →
  Quiet db (release_finished_effect_requests id (with_operations (<[id := o']> (operations db)) db)).
Proof.
  intros Ho Hc. pose proof (release_tables id (with_operations (<[id := o']> (operations db)) db))
    as (_ & T2 & _ & T4 & T5 & _).
  split; [done|intros s; unfold session_view; by rewrite T2|]. rewrite T4. cbn. intros j x Hx.
  destruct (decide (id = j)) as [->|Hne].
  - exists o'. rewrite lookup_insert_eq. by simplify_eq.
  - exists x. by rewrite lookup_insert_ne.
Qed.
Lemma quiet_update_operation id w f :
  (∀ o, o_checkpoint_json (f o) = o_checkpoint_json o) → quiet (update_operation id w f).
Proof.
  intros Hf db n db' [[_ ->]|(_ & o & Ho & _ & _ & ->)]%update_operation_ok; [done|by eapply quiet_row].
Qed.
End recorded.

#[export] Hint Resolve quiet_ret quiet_throw quiet_lift quiet_query quiet_read quiet_guard
  quiet_require quiet_insert_agent quiet_insert_command quiet_insert_batch quiet_insert_effect
  quiet_insert_cancellation quiet_insert_operation quiet_update_effect quiet_mark_unknown : quiet.

(** Walks through a transaction down to its statements. *)
Ltac quiet :=
  repeat first
    [ solve [auto with quiet nocore]
    | match goal with |- quiet (_ ≫= _) => apply quiet_bind; [|intros ?] end
    | match goal with |- quiet (match ?x with _ => _ end) => destruct x end
    | match goal with |- quiet (let '_ := ?x in _) => destruct x end
    | match goal with |- quiet (insert_session _ _) => by apply quiet_insert_session end
    | match goal with |- quiet (update_session _ _ _) => apply quiet_update_session; by intros [] end
    | match goal with |- quiet (update_operation _ _ _) => apply quiet_update_operation; by intros [] end
    | progress cbn zeta ].

Section quiet_transactions.
Context `{KS : KernelSerde}.

Lemma quiet_create_agent id : quiet (create_agent id).
Proof. unfold create_agent. quiet. Qed.
Lemma quiet_create_session s a : quiet (create_session s a).
Proof. unfold create_session. quiet. Qed.
Lemma quiet_submit f s c mode : quiet (submit_with_mode f s c mode).
Proof. unfold submit_with_mode. quiet. Qed.
Lemma quiet_request_cancellation s id k : quiet (request_cancellation s id k).
Proof. unfold request_cancellation. quiet. Qed.
Lemma quiet_transition_finished id b n blocked : quiet (transition_finished_batch id b n blocked).
Proof. unfold transition_finished_batch. quiet. Qed.
#[local] Hint Resolve quiet_transition_finished : quiet.
Lemma quiet_terminal id b n : quiet (transition_batch_if_terminal id b n).
Proof. unfold transition_batch_if_terminal. quiet. Qed.
#[local] Hint Resolve quiet_terminal : quiet.
Lemma quiet_settle id b k n x : quiet (settle_batch_effect id b k n x).
Proof. unfold settle_batch_effect. quiet. Qed.
Lemma quiet_update_status k x y : quiet (update_effect_status k x y).
Proof. unfold update_effect_status. quiet. Qed.
#[local] Hint Resolve quiet_update_status : quiet.
Lemma quiet_record_unknown id b k n : quiet (record_batch_effect_unknown id b k n).
Proof. unfold record_batch_effect_unknown. quiet. Qed.
Lemma quiet_finish_attempt id b n : quiet (finish_effect_batch_attempt id b n).
Proof. unfold finish_effect_batch_attempt. quiet. Qed.
Lemma quiet_load_requested s id : quiet (load_requested_cancellation s id).
Proof.
  unfold load_requested_cancellation, close_if_dispatched, close_dispatched_batch_for_cancellation. quiet.
Qed.
Lemma quiet_dispatch_child b nt x : quiet (dispatch_child b nt x).
Proof. unfold dispatch_child. quiet. Qed.
#[local] Hint Resolve quiet_dispatch_child : quiet.
Lemma quiet_prepare_child ph b nt x : quiet (prepare_child ph b nt x).
Proof. unfold prepare_child. quiet. Qed.
#[local] Hint Resolve quiet_prepare_child : quiet.
Lemma quiet_prepare_children ph b nt l : quiet (prepare_children ph b nt l).
Proof. induction l as [|x l IH]; cbn; quiet. Qed.
#[local] Hint Resolve quiet_prepare_children : quiet.
Lemma quiet_prepare id n : quiet (prepare_effect_batch id n).
Proof. unfold prepare_effect_batch, dispatch_batch, finish_batch_without_invocations. quiet. Qed.
Lemma quiet_insert_intents ne b l : ∀ p, quiet (insert_intents ne b p l).
Proof. induction l as [|[i t] l IH]; intros p; cbn; quiet. Qed.
End quiet_transactions.

(** ** The invariant *)
Section contract.
Context `{KS : KernelSerde} `{!KernelSerdeLaws}.
Context (P : LoopPlugin → Prop) (K : list NewEvent → option Checkpoint → Prop) `{!LoopContract P K}.
Implicit Types (db : Database) (o : OperationRow) (l : list NewEvent) (c : option Checkpoint).

Definition kept db : Prop :=
  ∀ s, ∃ l c, recorded db s l ∧ session_checkpoint db s c ∧ K l c.

Lemma kept_empty : kept empty_database.
Proof. intros s. exists [], None. split_and!; [done|done|apply contract_start]. Qed.

Lemma kept_quiet db db' : Quiet db db' → kept db → kept db'.
Proof.
  intros HQ HK s. destruct (HK s) as (l & c & Hl & Hc & Hk). exists l, c.
  split_and!; [by eapply quiet_recorded|by eapply quiet_checkpoint|done].
Qed.

(** *** Activation *)
Lemma activate_queued_view s m db r db' :
  Inv db → activate_queued s m db = Ok (r, db') →
  db' = db ∨ ∃ id o db1 x, Quiet db db1 ∧ operations db1 !! id = Some o ∧
    o_checkpoint_json o = None ∧ sessions db1 !! s = Some x ∧ s_active_operation_id x = None ∧
    db' = with_sessions (<[s := set_active (Some id) x]> (sessions db1)) db1.
Proof.
  intros HI E. unfold activate_queued in E. inv_tx.
  destruct (queued_operations s db) as [|[id y] rest] eqn:EQ; inv_tx; [by left|right].
  match goal with H : operations db !! id = Some ?y |- _ => rename y into o, H into Ho end. split_bools.
  pose proof (op_shape_at _ _ _ Queued (inv_ops _ HI _ _ Ho) ltac:(done)) as (_ & Hc & _).
  eexists id, (activated_row x o), _, _. split_and!; [by apply (quiet_row id o (activated_row x o))| |done..].
  pose proof (release_tables id (with_operations (<[id := activated_row x o]> (operations db)) db))
    as (_ & _ & _ & -> & _). apply lookup_insert_eq.
Qed.

Lemma kept_activated db s id o x :
  sessions db !! s = Some x → s_active_operation_id x = None → operations db !! id = Some o →
  o_checkpoint_json o = None → kept db →
  kept (with_sessions (<[s := set_active (Some id) x]> (sessions db)) db).
Proof.
  intros Hx Ha Ho Hc HK s'. destruct (HK s') as (l & c & Hl & Hck & Hk). exists l, c.
  unfold session_checkpoint, session_view in *. cbn. destruct (decide (s = s')) as [->|Hne].
  - split_and!; [|rewrite lookup_insert_eq; cbn|done].
    + eapply (recorded_ext db); [done| |done]. unfold session_view. cbn. by rewrite lookup_insert_eq, Hx.
    + rewrite Hx in Hck. cbn in Hck. rewrite Ha in Hck. subst c. exists o. by rewrite Hc.
  - split_and!; [|by rewrite lookup_insert_ne|done].
    eapply (recorded_ext db); [done| |done]. unfold session_view. cbn. by rewrite lookup_insert_ne.
Qed.

Lemma kept_activate s m db r db' : Inv db → activate s m db = Ok (r, db') → kept db → kept db'.
Proof.
  intros HI E HK. unfold activate in E. inv_tx. destruct (s_active_operation_id _); inv_tx; [done|].
  match goal with H : activate_queued _ _ _ = Ok (?x, _) |- _ =>
    apply activate_queued_view in H as [->|(id & o & db1 & y & HQ & Ho & Hc & Hy & Ha & ->)];
    [| |done]; destruct x; inv_tx; try done end.
  all: eapply kept_activated; [done..|by eapply kept_quiet].
Qed.

(** *** Committed work *)
Lemma appended_nil db s id n :
  gapless (semantic_events db) (λ v, ev_session_id v = s) ev_sequence n →
  Appended db s id n [] (semantic_events db).
Proof. intros HG. split; try naive_solver. cbn. by rewrite Z.add_0_r. Qed.

(** The work of the active operation of [s]: events for the session, a new
    row, and possibly the release of the session. *)
Lemma kept_commit db db' s r id o o' evs c' active :
  Inv db → sessions db !! s = Some r → s_active_operation_id r = Some id →
  operations db !! id = Some o →
  Appended db s id (s_next_event_sequence r) evs (semantic_events db') →
  operations db' = <[id := o']> (operations db) →
  (∀ s', s' ≠ s → sessions db' !! s' = sessions db !! s') →
  session_view db' s = (active, s_next_event_sequence r + Z.of_nat (length evs)) →
  match active with
  | None => c' = None
  | Some i => i = id ∧ transpose decode_json (o_checkpoint_json o') = Ok c'
  end →
  (∀ l c, transpose decode_json (o_checkpoint_json o) = Ok c → K l c → K (l ++ evs) c') →
  kept db → kept db'.
Proof.
  intros HI Hr Ha Ho HA Hops Hother Hview Hactive Hwork HK s'.
  destruct (HK s') as (l & c & Hl & Hc & Hk). pose proof (session_view_Some db s r Hr) as Hv.
  destruct (decide (s' = s)) as [->|Hne].
  - unfold session_checkpoint in Hc. rewrite Hv in Hc. cbn in Hc. rewrite Ha in Hc.
    destruct Hc as (x & Hx & Hc). simplify_eq. exists (l ++ evs), c'. split_and!.
    + eapply recorded_append; [by rewrite Hv|done|by apply (st_sequences _ (inv_static _ HI))|done|by rewrite Hview|done].
    + unfold session_checkpoint. rewrite Hview. cbn. destruct active as [i|]; [|done].
      destruct Hactive as [-> ?]. exists o'. by rewrite Hops, lookup_insert_eq.
    + by eapply Hwork.
  - assert (session_view db' s' = session_view db s') as Hv' by (unfold session_view; by rewrite Hother).
    exists l, c. split_and!; [eapply recorded_ext; [apply HA|by rewrite Hv'|done]| |done].
    unfold session_checkpoint in *. rewrite Hv'. unfold session_view in *.
    destruct (sessions db !! s') as [r'|] eqn:Hr'; cbn in *; [|done].
    destruct (s_active_operation_id r') as [j|] eqn:Hj; [|done]. destruct Hc as (x & Hx & Hc).
    exists x. split; [|done]. rewrite Hops, lookup_insert_ne; [done|]. intros <-. destruct Hne.
    rewrite <- (active_session _ _ _ _ _ HI Hr Ha Ho). symmetry. by eapply (active_session db s' r').
Qed.

(** The last work of an operation. *)
Lemma kept_ended db s r r1 evs rows id o o' :
  Inv db → sessions db !! s = Some r → Appended db s id (s_next_event_sequence r) evs rows →
  sessions (appended_db db s r evs rows) !! s = Some r1 → s_active_operation_id r1 = Some id →
  operations db !! id = Some o →
  (∀ l c, transpose decode_json (o_checkpoint_json o) = Ok c → K l c → K (l ++ evs) None) →
  kept db → kept (ended_db (appended_db db s r evs rows) s r1 id o').
Proof.
  intros HI Hr HA Hr1 Ha1 Ho Hwork. cbn in Hr1. rewrite lookup_insert_eq in Hr1. simplify_eq.
  pose proof (release_tables id (with_operations (<[id := o']> (operations db)) (appended_db db s r evs rows)))
    as (_ & _ & _ & T4 & T5 & _).
  eapply (kept_commit db _ s r id o o' evs None None); try done.
  - cbn. by rewrite T5.
  - intros s' Hne. cbn. by rewrite !lookup_insert_ne.
  - unfold session_view. cbn. by rewrite lookup_insert_eq.
Qed.

(** Work that leaves the operation active. *)
Lemma kept_stays db s r evs rows id o o' c' :
  Inv db → sessions db !! s = Some r → Appended db s id (s_next_event_sequence r) evs rows →
  s_active_operation_id r = Some id → operations db !! id = Some o →
  transpose decode_json (o_checkpoint_json o') = Ok c' →
  (∀ l c, transpose decode_json (o_checkpoint_json o) = Ok c → K l c → K (l ++ evs) c') →
  kept db → kept (release_finished_effect_requests id
    (with_operations (<[id := o']> (operations db)) (appended_db db s r evs rows))).
Proof.
  intros HI Hr HA Ha Ho Hc' Hwork.
  pose proof (release_tables id (with_operations (<[id := o']> (operations db)) (appended_db db s r evs rows)))
    as (_ & T2 & _ & T4 & T5 & _).
  eapply (kept_commit db _ s r id o o' evs c' (Some id)); try done.
  - by rewrite T5.
  - intros s' Hne. rewrite T2. cbn. by rewrite lookup_insert_ne.
  - unfold session_view. rewrite T2. cbn. rewrite lookup_insert_eq. unfold row_view. cbn. by rewrite Ha.
Qed.

Lemma checkpoint_at_now id n c db o :
  checkpoint_at id n c db → operations db !! id = Some o → o_transition_version o = n →
  transpose decode_json (o_checkpoint_json o) = Ok c.
Proof. intros (x & Hx & _ & Hc) Ho Hn. simplify_eq. by apply Hc. Qed.

Lemma encoded_checkpoint (x : Checkpoint) t :
  encode_json x = Ok t → transpose decode_json (Some t) = Ok (Some x).
Proof. intros E. cbn. by rewrite (encode_decode_json _ _ E). Qed.

(** An operation that appends an event is active in the session of the event. *)
Lemma appended_session db s r id ev evs rows o :
  Inv db → sessions db !! s = Some r → Appended db s id (s_next_event_sequence r) (ev :: evs) rows →
  operations db !! id = Some o → o_session_id o = s.
Proof.
  intros HI Hr [[_ HR] _ Hnew _] Ho. pose proof (st_sequences _ (inv_static _ HI) s r Hr) as HG.
  pose proof (session_nonneg _ _ _ (inv_static _ HI) Hr) as [_ H0].
  destruct (proj1 (HR (s_next_event_sequence r))) as (k & v & Hv & Hs & Hn); [cbn; lia|].
  destruct (Hnew k v Hv) as [Hv'|[_ (x & Hx & Hxs)]]; [|congruence].
  pose proof (gapless_bounds _ _ _ _ _ _ HG Hv' Hs). lia.
Qed.

(** An operation in an active phase is the active one of its session. *)
Lemma active_owner db s r id o p :
  Inv db → sessions db !! s = Some r → operations db !! id = Some o → o_session_id o = s →
  o_phase o = as_str p → is_cancellable p = true → s_active_operation_id r = Some id.
Proof.
  intros HI Hr Ho Hs Hp Hc. apply (proj1 (inv_sessions _ HI _ _ Hr)). exists o.
  split_and!; [done..|]. by rewrite (active_phase_as_str _ _ Hp).
Qed.

#[local] Abbreviation G := (stored_by P).

Lemma kept_decision nid s id n d db r db' :
  Inv db → g_decision G db id n d → commit_decision nid s id n d db = Ok (r, db') → kept db → kept db'.
Proof.
  intros HI (plugin & input & HP & Hat & Hd) E HK. unfold commit_decision in E. inv_tx.
  destruct (cancellation_requested id db); inv_tx; [done|].
  match goal with H : decision_effect d = _ |- _ => rename H into He end.
  match goal with H : append_events _ _ _ _ _ = _ |- _ =>
    apply append_events_inv in H as (HI1 & r0 & rows & Hr0 & -> & HA); [|done] end.
  match goal with H : deciding_at n _ = true |- _ => apply deciding_at_spec in H as [Hph Hver] end.
  match goal with H : operations _ !! id = Some ?y |- _ => rename y into row, H into Hrow end. cbn in Hrow.
  pose proof (λ l, contract_decision plugin input d _ _ _ _ l HP Hd He) as Hwork.
  destruct (decision_effect_outcome _ _ _ _ _ He) as [-> HD].
  destruct o as [x'|].
  - clear HD. inv_tx. match goal with H : release_session _ _ _ _ = _ |- _ =>
      apply release_session_ok in H as (r1 & Hr1 & Ha1 & Hck1 & ->) end.
    eapply kept_ended; [done..| |done]. intros k c Hc Hk.
    pose proof (checkpoint_at_now _ _ _ _ _ Hat Hrow ltac:(done)). apply Hwork. congruence.
  - destruct HD as [-> Hne]. destruct l as [|ev evs]; [done|]. inv_tx.
    pose proof (appended_session _ _ _ _ _ _ _ _ HI Hr0 HA Hrow) as Hs.
    eapply (kept_stays db s r0 (ev :: evs) rows id row); [exact HI|exact Hr0|exact HA|by apply (active_owner db s r0 id row NeedDecision)|exact Hrow|by eapply encoded_checkpoint| |exact HK].
    intros k c Hc Hk. pose proof (checkpoint_at_now _ _ _ _ _ Hat Hrow ltac:(done)). apply Hwork. congruence.
Qed.

Lemma kept_cancellation nid s id n hw tr db r db' :
  Inv db → g_cancellation G db id n tr → commit_cancellation nid s id n hw tr db = Ok (r, db') →
  kept db → kept db'.
Proof.
  intros HI (plugin & input & HP & Hat & Hd) E HK. unfold commit_cancellation in E. inv_tx.
  match goal with H : append_events _ _ _ _ _ = _ |- _ =>
    apply append_events_inv in H as (HI1 & r0 & rows & Hr0 & -> & HA); [|done] end.
  match goal with H : release_session _ _ _ _ = _ |- _ =>
    apply release_session_ok in H as (r1 & Hr1 & Ha1 & Hck1 & ->) end.
  match goal with H : operations (appended_db _ _ _ _ _) !! id = Some ?y |- _ => rename y into row, H into Hrow end.
  cbn in Hrow. split_bools.
  eapply kept_ended; [done..| |done]. intros k c Hc Hk. eapply contract_cancellation; [done..|].
  pose proof (checkpoint_at_now _ _ _ _ _ Hat Hrow ltac:(done)). congruence.
Qed.

Lemma kept_abandonment nid s id n hw ab db r db' :
  Inv db → g_abandonment G db id n ab →
  commit_unknown_effect_abandonment nid s id n hw ab db = Ok (r, db') → kept db → kept db'.
Proof.
  intros HI (plugin & input & HP & Hat & Hd) E HK. unfold commit_unknown_effect_abandonment in E. inv_tx.
  match goal with H : append_events _ _ _ _ _ = _ |- _ =>
    apply append_events_inv in H as (HI1 & r0 & rows & Hr0 & -> & HA); [|done] end.
  match goal with H : release_session _ _ _ _ = _ |- _ =>
    apply release_session_ok in H as (r1 & Hr1 & Ha1 & Hck1 & ->) end.
  match goal with H : operations (appended_db _ _ _ _ _) !! id = Some ?y |- _ => rename y into row, H into Hrow end.
  cbn in Hrow. split_bools.
  eapply kept_ended; [done..| |done]. intros k c Hc Hk. eapply contract_abandonment; [done..|].
  pose proof (checkpoint_at_now _ _ _ _ _ Hat Hrow ltac:(done)). congruence.
Qed.

Lemma insert_intents_tables nid b reqs : ∀ pos db u db',
  insert_intents nid b pos reqs db = Ok (u, db') → ∃ effs, db' = with_effects effs db.
Proof.
  induction reqs as [|[i t] reqs IH]; intros pos db u db' E; cbn in E.
  - inv_tx. exists (effects db). by destruct db.
  - inv_tx. match goal with H : insert_intents _ _ _ _ _ = _ |- _ => apply IH in H as [effs ->] end.
    by exists effs.
Qed.

Lemma kept_intent nb ne id n i db r db' :
  Inv db → g_intent G db id n i → commit_effect_batch_intent nb ne id n i db = Ok (r, db') →
  kept db → kept db'.
Proof.
  intros HI (plugin & input & effs & HP & Hat & Hd) E HK. unfold commit_effect_batch_intent in E.
  destruct (nb_effects i) eqn:EI in E; [by inv_tx|]. clear EI.
  inv_tx. destruct (cancellation_requested id db); inv_tx; [done|].
  destruct (operations db !! id) as [row|] eqn:Hrow; [|done].
  destruct (deciding_at n row) eqn:Hdec; [|done]. inv_tx.
  apply deciding_at_spec in Hdec as [Hph Hver].
  match goal with H : insert_intents _ _ _ _ _ = _ |- _ => apply insert_intents_tables in H as [es ->] end.
  inv_tx. cbn in *. rewrite Hrow in *. simplify_eq.
  match type of Hrow with _ = Some ?y => rename y into row end.
  destruct (st_operation _ (inv_static _ HI) _ _ Hrow) as [[r0 Hr0] _].
  assert (s_active_operation_id r0 = Some id) as Ha by (by apply (active_owner db (o_session_id row) r0 id row NeedDecision)).
  match goal with |- kept (release_finished_effect_requests id ?d) =>
    pose proof (release_tables id d) as (_ & T2 & _ & T4 & T5 & _) end.
  eapply (kept_commit db _ (o_session_id row) r0 id row (intent_operation_row x nb row) []
    (Some (nb_checkpoint i)) (Some id)); try done.
  - rewrite T5. by apply (appended_nil db), (st_sequences _ (inv_static _ HI)).
  - intros s' Hne. by rewrite T2.
  - unfold session_view. rewrite T2. cbn. rewrite Hr0. cbn. unfold row_view. rewrite Ha. f_equal. lia.
  - split; [done|]. by eapply encoded_checkpoint.
  - intros k c Hc Hk. rewrite app_nil_r. eapply contract_effects; [done..|].
    pose proof (checkpoint_at_now _ _ _ _ _ Hat Hrow ltac:(done)). congruence.
Qed.

(** Every step of a kernel that only stores the work of plugins of the class
    keeps the contract. *)
Lemma kept_step db db' : Inv db → gstep G db db' → kept db → kept db'.
Proof.
  intros HI HS HK.
  assert (∀ {A} (m : Tx A) r, immediate m db = (r, db') →
    (∀ a db1, m db = Ok (a, db1) → kept db1) → kept db') as Hcase.
  { intros A m r [(a & _ & E & _)|(e & _ & ->)]%immediate_cases Hm; eauto. }
  destruct HS; (eapply Hcase; [eassumption|]; intros ? ? E).
  - eapply kept_quiet; [by eapply quiet_create_agent|done].
  - eapply kept_quiet; [by eapply quiet_create_session|done].
  - eapply kept_quiet; [by eapply quiet_submit|done].
  - eapply kept_quiet; [by eapply quiet_request_cancellation|done].
  - by eapply kept_activate.
  - eapply kept_quiet; [by eapply quiet_load_requested|done].
  - by eapply kept_cancellation.
  - by eapply kept_decision.
  - by eapply kept_intent.
  - eapply kept_quiet; [by eapply quiet_prepare|done].
  - eapply kept_quiet; [by eapply quiet_settle|done].
  - eapply kept_quiet; [by eapply quiet_record_unknown|done].
  - eapply kept_quiet; [by eapply quiet_finish_attempt|done].
  - by eapply kept_abandonment.
Qed.

Lemma kept_reachable db : rtc (gstep G) empty_database db → kept db.
Proof.
  intros HS. cut (∀ db0, rtc (gstep G) db0 db → Inv db0 → kept db0 → kept db).
  { intros Hg. apply (Hg _ HS Inv_empty kept_empty). }
  clear HS.
  induction 1 as [|x y z Hxy _ IH]; intros HI HK; [done|].
  apply IH; [by eapply kstep_inv|by eapply kept_step].
Qed.
End contract.
