(* ===== verification/SafetyTheorems.v ===== *)
(** * Safety of the kernel as a whole

    Theorems about every reachable database and every lifetime: the invariant,
    what never changes again, the at-most-once rule for effects that must not be
    replayed, and the refinement of the drive by kernel steps. *)
From S2P Require Import Prelude Json State Schema SchemaFacts Admission OperationStore EffectStore.
From S2P Require Import Cancellation Runtime Drive Concrete Invariant AdmissionInv OperationInv EffectInv.
From S2P Require Import DispatchInv Steps DriveSound Lifetime.
Section safety.
Context `{KS : KernelSerde} `{!KernelSerdeLaws}.
Implicit Types (db : Database) (o : OperationRow) (e : EffectRow) (w : World).

(** C1. Every database the kernel can produce satisfies the durable invariant:
  references resolve, command positions, event sequences and batch and effect
  positions are numbered without gaps, every stored document decodes, the
  columns and effects of an operation agree with its phase, a session owns
  exactly its one active operation and activates in order, and a cancelled
  operation ends only as cancelled. *)
Theorem reachable_satisfies_invariant db : reachable db → Inv db.
Proof. apply reachable_inv. Qed.

(** C2. At most once: over a whole lifetime of the kernel, with any number of
  drives, concurrent callers, failed transactions and restarts, an effect
  marked [NeverReplay] is handed to its adapter at most once. *)
Theorem never_replay_invoked_once {Adapter : Type} w x y i j :
lifetime (Adapter:=Adapter) w →
w_trace w !! x = Some i → w_trace w !! y = Some j →
iv_effect_id i = iv_effect_id j → iv_recovery i = NeverReplay → x = y.
Proof.
intros [[HI HT] _]%lifetime_ok Hx Hy Hid Hr.
assert (∀ z l, w_trace w !! z = Some l → iv_effect_id l = iv_effect_id i →
          iv_dispatch_count l = 1) as Hone.
{ intros z l Hz Hl. destruct (proj1 HT l) as (e & He & Hc & _); [by eapply list_elem_of_lookup_2|].
  destruct (proj1 HT i) as (e' & He' & _ & Hrec); [by eapply list_elem_of_lookup_2|].
  rewrite Hl, He' in He. injection He as <-. rewrite Hr in Hrec.
  pose proof (never_replay_count _ _ _ HI He' Hrec). lia. }
eapply trace_unique; [exact HT|done..|]. rewrite (Hone x i), (Hone y j); done.
Qed.

(** C3. The drive is a refinement of the kernel's transition system: whatever the
  loop plugin decides, whatever the adapters answer, wherever transactions
  fail and whatever other callers commit in between, the database a drive
  leaves is reached from the one it started with by kernel transactions
  whose preconditions hold. *)
Theorem drive_refines_kernel_steps {Adapter : Type} env fuel s (rt : Runtime Adapter) w r w' :
reachable (w_db w) → w_trace w = [] → good_env env → drive fuel env s rt w = (r, w') →
rtc kstep (w_db w) (w_db w').
Proof.
intros HR Htr [H1 H2] E. eapply (drive_sound_lemma env H1 H2 fuel s rt (unguarded_allows _) w r w'); [|done|done].
split; [by apply reachable_inv|]. rewrite Htr. split; [by intros i ?%elem_of_nil|].
apply NoDup_nil_2.
Qed.

(** An operation that has an outcome is never changed again: no later kernel
  transaction modifies any column of it. *)
Theorem finished_operation_frozen db db' id o :
reachable db → rtc kstep db db' →
operations db !! id = Some o → is_Some (o_outcome_json o) →
operations db' !! id = Some o.
Proof.
intros HI%reachable_inv HS Ho Hout.
destruct (ev_operations _ _ (ksteps_evolve _ _ HI HS) _ _ Ho) as (o' & Ho' & Hev).
by rewrite <- (ov_outcome _ _ Hev Hout).
Qed.

(** A settled effect, and an effect whose outcome is unknown, keep their
  status, outcome and dispatch count forever; only the request of a settled
  effect may be released. *)
Theorem final_effect_frozen db db' k e :
reachable db → rtc kstep db db' → effects db !! k = Some e → final e →
∃ e', effects db' !! k = Some e' ∧ e_status e' = e_status e ∧
  e_outcome_json e' = e_outcome_json e ∧ e_dispatch_count e' = e_dispatch_count e ∧
  e_batch_id e' = e_batch_id e ∧ e_binding e' = e_binding e ∧
  (e_request_json e' = e_request_json e ∨ e_status e = "settled" ∧ e_request_json e' = None).
Proof.
intros HI%reachable_inv HS He Hf.
destruct (ev_effects _ _ (ksteps_evolve _ _ HI HS) _ _ He) as (e' & He' & Hev).
destruct (fv_final _ _ Hev Hf) as (Hs & Ho & Hc). exists e'. split_and!; try done.
- apply Hev.
- apply Hev.
- destruct (fv_request _ _ Hev) as [?|[? ?]]; [by left|right]. by rewrite <- Hs.
Qed.

(** The transition version of an operation identifies its row: over any
  kernel steps the version never decreases, an unchanged version means an
  unchanged row, and the frozen manifest, command, session and position never
  change. This is what makes the compare-and-set of every transition sound. *)
Theorem version_identifies_row db db' id o :
reachable db → rtc kstep db db' → operations db !! id = Some o →
∃ o', operations db' !! id = Some o' ∧
  o_transition_version o ≤ o_transition_version o' ∧
  (o_transition_version o' = o_transition_version o → o' = o) ∧
  (is_Some (o_manifest_json o) → o_manifest_json o' = o_manifest_json o) ∧
  o_session_id o' = o_session_id o ∧ o_command_id o' = o_command_id o ∧
  o_position o' = o_position o.
Proof.
intros HI%reachable_inv HS Ho.
destruct (ev_operations _ _ (ksteps_evolve _ _ HI HS) _ _ Ho) as (o' & Ho' & Hev).
exists o'. destruct Hev. done.
Qed.
End safety.

(** ** Witnesses *)
Lemma reachable_satisfies_invariant_witness : Inv Facts.done_db.
Proof. apply reachable_satisfies_invariant, Facts.done_reachable. Defined.

Lemma never_replay_invoked_once_witness :
  let w := Facts.after NeverReplay Facts.unknown 0 Scenario.setup_db in
  length (w_trace w) = 1%nat ∧ 0%nat = 0%nat.
Proof.
  intros w. split; [vm_compute; reflexivity|].
  destruct (row_that (w_trace w !! 0%nat) (λ i, bool_decide (iv_recovery i = NeverReplay)))
    as (i & Hi & Hr%bool_decide_eq_true_1); [vm_compute; reflexivity|].
  exact (never_replay_invoked_once (Adapter:=unit) w 0 0 i i
    (Facts.after_lifetime NeverReplay Facts.unknown 0 _ Facts.setup_reachable) Hi Hi eq_refl Hr).
Defined.

Lemma drive_refines_kernel_steps_witness : rtc kstep Scenario.setup_db Facts.done_db.
Proof.
  rewrite Facts.done_db_eq.
  eapply (drive_refines_kernel_steps (Scenario.env Facts.succeeds) 10 Scenario.session
    (Scenario.runtime SafeToReplay) (Scenario.world 0 Scenario.setup_db));
    [apply Facts.setup_reachable|reflexivity|apply Facts.env_good|apply surjective_pairing].
Defined.

Lemma finished_operation_frozen_witness :
  (o_phase <$> operations Facts.done2_db !! Scenario.op1) = Some "completed".
Proof.
  destruct (row_that (operations Facts.done_db !! Scenario.op1)
    (λ o, bool_decide (is_Some (o_outcome_json o)) && bool_decide (o_phase o = "completed")))
    as (o & Ho & Hout); [vm_compute; reflexivity|]. split_bools.
  rewrite (finished_operation_frozen _ _ _ _ Facts.done_reachable Facts.done2_steps Ho); [|assumption].
  cbn. by f_equal.
Defined.

Lemma final_effect_frozen_witness :
  ∃ e', effects Facts.done2_db !! MkId 4000 = Some e' ∧ e_status e' = "settled".
Proof.
  destruct (row_that (effects Facts.done_db !! MkId 4000) (λ e, bool_decide (e_status e = "settled")))
    as (e & He & Hs%bool_decide_eq_true_1); [vm_compute; reflexivity|].
  destruct (final_effect_frozen _ _ _ _ Facts.done_reachable Facts.done2_steps He (or_introl Hs))
    as (e' & He' & Hs' & _).
  exists e'. split; [assumption|]. by rewrite Hs'.
Defined.

Lemma version_identifies_row_witness :
  ∃ o o', operations Facts.done_db !! Scenario.op2 = Some o ∧
    operations Facts.done2_db !! Scenario.op2 = Some o' ∧
    o_transition_version o ≤ o_transition_version o' ∧ o_position o' = o_position o.
Proof.
  destruct (row_that (operations Facts.done_db !! Scenario.op2) (λ _, true)) as (o & Ho & _);
    [vm_compute; reflexivity|].
  destruct (version_identifies_row _ _ _ _ Facts.done_reachable Facts.done2_steps Ho)
    as (o' & Ho' & Hv & _ & _ & _ & _ & Hp).
  exists o, o'. exact (conj Ho (conj Ho' (conj Hv Hp))).
Defined.
