(* ===== verification/AdmissionTheorems.v ===== *)
(** * Admission: exactly-once commands, ordered queues, exclusive submission

    What [submit] and [submit_exclusive] return and store on every branch. *)
From S2P Require Import Prelude Json State Schema SchemaFacts Admission OperationStore EffectStore.
From S2P Require Import Cancellation Runtime Drive Concrete Invariant AdmissionInv OperationInv EffectInv.
From S2P Require Import DispatchInv Steps DriveSound Lifetime.
Section admission_theorems.
Context `{KS : KernelSerde} `{!KernelSerdeLaws}.
Implicit Types (db : Database) (o : OperationRow).

(** ** Deferred keys hold in every reachable database *)
Lemma Inv_deferred db : Inv db → deferred_constraints db = true.
Proof.
  intros HI. unfold deferred_constraints. rewrite andb_true_iff, !tbl_forall_spec. split.
  - intros s r Hr. destruct (s_active_operation_id r) as [id|] eqn:Ha; [|done].
    destruct (inv_sessions _ HI _ _ Hr) as [HA _]. apply operation_in_session_spec.
    destruct (proj1 (HA id) Ha) as (o & ? & ? & _). eauto.
  - intros id o Ho. destruct (phase_of _ _ _ (inv_ops _ HI _ _ Ho)) as (p & _ & HS).
    assert (∀ b, o_current_effect_batch_id o = Some b ∨ o_input_effect_batch_id o = Some b →
              batch_of_operation db id b = true) as Hb.
    { intros b Hb. apply batch_of_operation_spec. destruct p; cbn in HS; naive_solver. }
    apply andb_true_iff. split; case_match; auto.
Qed.

Lemma immediate_ok {A} (m : Tx A) db a db' :
  Inv db' → m db = Ok (a, db') → immediate m db = (Ok a, db').
Proof. intros HI E. unfold immediate. by rewrite E, Inv_deferred. Qed.

Lemma immediate_err {A} (m : Tx A) db e : m db = Err e → immediate m db = (Err e, db).
Proof. intros E. unfold immediate. by rewrite E. Qed.

(** ** The operation of a stored command *)
Lemma stored_command db c row :
  Inv db → commands db !! c = Some row →
  ∃ id o, operations db !! id = Some o ∧ o_command_id o = c ∧ o_session_id o = c_session_id row ∧
    0 ≤ o_position o ∧
    admission_row db c = Some (id, o_position o, c_session_id row, c_content_json row).
Proof.
  intros HI Hc. pose proof (inv_static _ HI) as HS.
  destruct (st_command _ HS c row Hc) as (_ & _ & id & o & Ho & Hoc). exists id, o.
  destruct (st_operation _ HS id o Ho) as (_ & row' & Hrow' & Hs).
  split_and!; [done|done|congruence| |].
  - pose proof (proj1 (st_operation_checks _ HS _ _ Ho)) as Hck. unfold operation_checks in Hck.
    split_bools. done.
  - unfold admission_row. rewrite Hc.
    destruct (select _ (operations db)) as [|[k x] rest] eqn:ES.
    + assert ((id, o) ∈ select (λ _ o, bool_decide (o_command_id o = c)) (operations db)) as Hin.
      { apply elem_of_select. split; [done|]. by apply bool_decide_eq_true. }
      rewrite ES in Hin. by apply elem_of_nil in Hin.
    + assert ((k, x) ∈ select (λ _ o, bool_decide (o_command_id o = c)) (operations db)) as Hin.
      { rewrite ES. left. }
      apply elem_of_select in Hin as [Hk Hb%bool_decide_eq_true_1].
      assert (k = id) as -> by (eapply (st_command_inj _ HS); eauto; congruence). by simplify_eq.
Qed.

Lemma existing_admission_stored db s c t row id pos :
  admission_row db c = Some (id, pos, c_session_id row, c_content_json row) → 0 ≤ pos →
  existing_admission s c t db =
    if bool_decide (c_session_id row ≠ s) || bool_decide (c_content_json row ≠ t)
    then Err (CommandConflict c id)
    else Ok (Some {| adm_operation_id := id; adm_position := pos |}).
Proof.
  intros Hr Hp. unfold existing_admission. rewrite Hr. destruct (_ || _); [done|].
  unfold from_sql_integer. by rewrite (proj2 (Z.leb_le _ _) Hp).
Qed.

(** A redelivery of a stored command. *)
Lemma redelivered db id s cmd mode t row k pos :
  Inv db → encode_json cmd = Ok t →
  admission_row db (command_id cmd) = Some (k, pos, c_session_id row, c_content_json row) →
  0 ≤ pos → c_session_id row = s → c_content_json row = t →
  immediate (submit_with_mode id s cmd mode) db
  = (Ok {| adm_operation_id := k; adm_position := pos |}, db).
Proof.
  intros HI Ht Hr Hp Hs Hc. apply immediate_ok; [done|]. unfold submit_with_mode.
  run_tx (by apply lift_run). erewrite tx_run; [|apply read_run].
  2:{ rewrite (existing_admission_stored _ _ _ _ _ _ _ Hr Hp), !bool_decide_false; [done|..];
        by intros ?. }
  done.
Qed.

(** Redelivery is exactly-once: after a command was admitted, and after any
    later kernel steps, submitting it again to the same session, in either mode
    and with any fresh identity, returns the original admission and changes
    nothing. *)
Theorem submit_redelivery db id s cmd mode adm db1 db2 id' mode' :
  reachable db → immediate (submit_with_mode id s cmd mode) db = (Ok adm, db1) →
  rtc kstep db1 db2 →
  immediate (submit_with_mode id' s cmd mode') db2 = (Ok adm, db2).
Proof.
  intros HI%reachable_inv E HS.
  assert (Inv db1) as HI1 by (eapply (kstep_inv (G:=unguarded)); [exact HI|by eapply k_submit]).
  assert (Inv db2) as HI2 by by eapply ksteps_inv.
  pose proof (ksteps_evolve _ _ HI1 HS) as HE.
  apply immediate_cases in E as [(a & [= <-] & E & _)|(? & ? & _)]; [|done].
  apply submit_with_mode_ok in E as (t & Ht & Hcase).
  assert (∃ row k o, commands db1 !! command_id cmd = Some row ∧ c_session_id row = s ∧
            c_content_json row = t ∧ operations db1 !! k = Some o ∧
            o_command_id o = command_id cmd ∧
            adm = {| adm_operation_id := k; adm_position := o_position o |}) as
    (row & k & o & Hrow & Hrs & Hrt & Ho & Hoc & Hadm).
  { destruct Hcase as [[Hex ->]|(_ & _ & r & Hr & _ & _ & _ & _ & _ & -> & ->)].
    - destruct (commands db !! command_id cmd) as [row|] eqn:Hrow.
      + destruct (stored_command _ _ _ HI Hrow) as (k & o & Ho & Hoc & _ & Hp & Hadm).
        rewrite (existing_admission_stored _ _ _ _ _ _ _ Hadm Hp) in Hex.
        destruct (_ || _) eqn:Eb; [done|]. apply orb_false_iff in Eb as [Eb1 Eb2].
        apply bool_decide_eq_false_1, dec_stable in Eb1, Eb2. simplify_eq. eauto 10.
      + unfold existing_admission, admission_row in Hex. rewrite Hrow in Hex. done.
    - eexists _, id, _. cbn. rewrite !lookup_insert_eq. split_and!; done. }
  destruct (ev_commands _ _ HE _ _ Hrow) as (row' & Hrow' & <-).
  destruct (stored_command _ _ _ HI2 Hrow') as (k' & o' & Ho' & Hoc' & _ & Hp' & Hadm').
  destruct (ev_operations _ _ HE _ _ Ho) as (o2 & Ho2 & Hev).
  assert (k' = k) as ->.
  { eapply (st_command_inj _ (inv_static _ HI2)); [exact Ho'|exact Ho2|].
    rewrite Hoc', (ov_command _ _ Hev). done. }
  simplify_eq. rewrite <- (ov_position _ _ Hev). by eapply redelivered.
Qed.

(** A command identity that was used with other content, or in another
    session, is refused with the operation it belongs to, and nothing
    changes. *)
Theorem submit_conflict db id s cmd mode t row :
  reachable db → commands db !! command_id cmd = Some row → encode_json cmd = Ok t →
  c_session_id row ≠ s ∨ c_content_json row ≠ t →
  ∃ k o, operations db !! k = Some o ∧ o_command_id o = command_id cmd ∧
    immediate (submit_with_mode id s cmd mode) db
    = (Err (CommandConflict (command_id cmd) k), db).
Proof.
  intros HI%reachable_inv Hrow Ht Hne.
  destruct (stored_command _ _ _ HI Hrow) as (k & o & Ho & Hoc & _ & Hp & Hadm).
  exists k, o. split_and!; [done..|]. apply immediate_err. unfold submit_with_mode.
  run_tx (by apply lift_run). apply tx_run_err, read_run_err.
  rewrite (existing_admission_stored _ _ _ _ _ _ _ Hadm Hp).
  replace (bool_decide (c_session_id row ≠ s) || bool_decide (c_content_json row ≠ t)) with true;
    [done|].
  symmetry. apply orb_true_iff. destruct Hne; [left|right]; by apply bool_decide_eq_true.
Qed.

(** ** New commands *)
Lemma next_position_fits db s r c :
  Inv db → sessions db !! s = Some r → s_next_command_position r < i64_max →
  operation_checks (queued_operation s c (s_next_command_position r)) = true ∧
  session_checks (bump_position r) = true.
Proof.
  intros HI Hr Hlt. pose proof (st_session_checks _ (inv_static _ HI) _ _ Hr) as Hck.
  unfold session_checks, operation_checks in *. cbn. split_bools.
  rewrite in_i64_spec in *. unfold i64_min, i64_max in *.
  rewrite !andb_true_iff, !in_i64_spec, !Z.leb_le. unfold i64_min, i64_max. cbn.
  split_and!; try done; lia.
Qed.

Lemma insert_command_run c s t db r :
  commands db !! c = None → sessions db !! s = Some r →
  insert_command c (MkCommand s t) db
  = Ok (tt, with_commands (<[c := MkCommand s t]> (commands db)) db).
Proof.
  intros Hc Hs. unfold insert_command. cbn. rewrite Hc, Hs, !bool_decide_true; [done|by eexists|done].
Qed.

Lemma insert_new_operation_run id s c t db r :
  Inv db → operations db !! id = None → commands db !! c = None → sessions db !! s = Some r →
  operation_checks (queued_operation s c (s_next_command_position r)) = true →
  insert_operation id (queued_operation s c (s_next_command_position r))
    (with_commands (<[c := MkCommand s t]> (commands db)) db)
  = Ok (tt, with_operations (<[id := queued_operation s c (s_next_command_position r)]> (operations db))
              (with_commands (<[c := MkCommand s t]> (commands db)) db)).
Proof.
  intros HI Ho Hc Hs Hck. pose proof (inv_static _ HI) as HS. unfold insert_operation. cbn.
  match goal with |- (if ?b then _ else _) = _ => assert (b = true) as ->; [|done] end.
  rewrite !andb_true_iff, !bool_decide_eq_true, !tbl_forall_spec. split_and!; try done.
  - intros k x Hx. apply bool_decide_eq_true. intros Hcx.
    destruct (st_operation _ HS k x Hx) as (_ & row & Hrow & _). congruence.
  - intros k x Hx. destruct (decide (o_session_id x = s)) as [Hsx|]; [|by rewrite bool_decide_true].
    apply orb_true_iff. right. apply bool_decide_eq_true. intros Hp.
    pose proof (gapless_bounds _ _ _ _ _ _ (st_positions _ HS s r Hs) Hx Hsx). lia.
  - unfold command_in_session. cbn. rewrite lookup_insert_eq. cbn. by apply bool_decide_eq_true.
Qed.

Lemma submit_new_ok db id s cmd mode t r :
  Inv db → encode_json cmd = Ok t → commands db !! command_id cmd = None →
  sessions db !! s = Some r → operations db !! id = None → s_next_command_position r < i64_max →
  (mode = RequireNoUnfinishedOperation → require_no_unfinished_operation s db = Ok tt) →
  immediate (submit_with_mode id s cmd mode) db
  = (Ok {| adm_operation_id := id; adm_position := s_next_command_position r |},
     admitted_db db id s (command_id cmd) t r).
Proof.
  intros HI Ht Hc Hr Ho Hlt Hmode.
  destruct (next_position_fits db s r (command_id cmd) HI Hr Hlt) as [Hck Hsck].
  pose proof (session_nonneg _ _ _ (inv_static _ HI) Hr) as [Hnn _].
  apply immediate_ok; [by apply admitted_inv|]. unfold submit_with_mode.
  run_tx (by apply lift_run).
  run_tx (apply read_run; unfold existing_admission, admission_row; by rewrite Hc).
  run_tx (destruct mode; [done|]; apply read_run; by apply Hmode).
  run_tx (apply read_run; by rewrite Hr).
  run_tx (by eapply insert_command_run).
  run_tx (by eapply insert_new_operation_run).
  run_tx (by eapply update_session_run).
  run_tx (by apply require_run).
  run_tx (apply lift_run; by apply from_sql_integer_ok).
  done.
Qed.

(** A new command is appended: it gets the next position of its session and a
    queued operation with the drawn identity, the session's cursor advances by
    one, and nothing else changes. *)
Theorem submit_appends db id s cmd t r :
  reachable db → encode_json cmd = Ok t → commands db !! command_id cmd = None →
  sessions db !! s = Some r → operations db !! id = None → s_next_command_position r < i64_max →
  immediate (submit id s cmd) db
  = (Ok {| adm_operation_id := id; adm_position := s_next_command_position r |},
     with_sessions (<[s := bump_position r]> (sessions db))
       (with_operations
          (<[id := queued_operation s (command_id cmd) (s_next_command_position r)]> (operations db))
          (with_commands (<[command_id cmd := MkCommand s t]> (commands db)) db))).
Proof. intros HI%reachable_inv ?????. by apply submit_new_ok. Qed.

Lemma first_unfinished_spec db s :
  match first_unfinished s db with
  | [] => ∀ j o, operations db !! j = Some o → o_session_id o = s → o_outcome_json o ≠ None
  | (k, x) :: _ => operations db !! k = Some x ∧ o_session_id x = s ∧ o_outcome_json x = None ∧
      ∀ j o, operations db !! j = Some o → o_session_id o = s → o_outcome_json o = None →
        o_position x ≤ o_position o
  end.
Proof.
  assert (∀ j o, (j, o) ∈ first_unfinished s db ↔
            operations db !! j = Some o ∧ o_session_id o = s ∧ o_outcome_json o = None) as Hin.
  { intros j o. unfold first_unfinished, unfinished.
    rewrite elem_of_order_by, elem_of_select, andb_true_iff, !bool_decide_eq_true. done. }
  destruct (first_unfinished s db) as [|[k x] rest] eqn:E.
  - intros j o Ho Hs Hn. assert ((j, o) ∈ @nil (OperationId * OperationRow)) as He by by apply Hin.
    by apply elem_of_nil in He.
  - assert ((k, x) ∈ first_unfinished s db) as Hkx by (rewrite E; left).
    rewrite E in Hkx. apply Hin in Hkx as (? & ? & ?). split_and!; try done.
    intros j o Ho Hs Hn. apply (order_by_head (λ ko : OperationId * OperationRow, o_position ko.2)
      _ _ _ E (j, o)). rewrite <- elem_of_order_by with (key := λ ko, o_position ko.2).
    unfold first_unfinished in E. rewrite E. by apply Hin.
Qed.

Lemma submit_exclusive_cases db id s cmd t :
  Inv db → encode_json cmd = Ok t → commands db !! command_id cmd = None →
  ((∀ j o, operations db !! j = Some o → o_session_id o = s → o_outcome_json o ≠ None) →
     immediate (submit_exclusive id s cmd) db = immediate (submit id s cmd) db) ∧
  (∀ j o, operations db !! j = Some o → o_session_id o = s → o_outcome_json o = None →
     ∃ k x, operations db !! k = Some x ∧ o_session_id x = s ∧ o_outcome_json x = None ∧
       o_position x ≤ o_position o ∧
       immediate (submit_exclusive id s cmd) db
       = (Err (UnfinishedOperation k (o_command_id x)), db)).
Proof.
  intros HI Ht Hc. pose proof (first_unfinished_spec db s) as HF.
  assert (existing_admission s (command_id cmd) t db = Ok None) as Hex.
  { unfold existing_admission, admission_row. by rewrite Hc. }
  split.
  - intros Hall. destruct (first_unfinished s db) as [|[k x] rest] eqn:E;
      [|by destruct HF as (? & ? & ? & _); destruct (Hall k x)].
    assert (submit_exclusive id s cmd db = submit id s cmd db) as Heq;
      [|unfold immediate; by rewrite Heq].
    unfold submit_exclusive, submit, submit_with_mode.
    do 2 (rewrite (tx_run _ _ _ _ _ (lift_run _ t db Ht)); cbv beta iota zeta).
    do 2 (rewrite (tx_run _ _ _ _ _ (read_run _ None db Hex)); cbv beta iota zeta).
    assert (require_no_unfinished_operation s db = Ok tt) as Hreq.
    { unfold require_no_unfinished_operation. by rewrite E. }
    by rewrite (tx_run _ _ _ _ _ (read_run _ tt db Hreq)).
  - intros j o Ho Hs Hn. destruct (first_unfinished s db) as [|[k x] rest] eqn:E;
      [by destruct (HF j o)|].
    destruct HF as (Hk & Hks & Hkn & Hmin). exists k, x. split_and!; try done; [by eapply Hmin|].
    apply immediate_err. unfold submit_exclusive, submit_with_mode.
    run_tx (by apply lift_run). run_tx (by apply read_run).
    apply tx_run_err, read_run_err. unfold require_no_unfinished_operation. by rewrite E.
Qed.
(** Exclusive submission of a new command: when every operation of the session
    has an outcome it does exactly what [submit] does; otherwise it is refused
    with the earliest unfinished operation of the session and nothing
    changes. *)
Theorem submit_exclusive_iff_idle db id s cmd t :
  reachable db → encode_json cmd = Ok t → commands db !! command_id cmd = None →
  ((∀ j o, operations db !! j = Some o → o_session_id o = s → o_outcome_json o ≠ None) →
     immediate (submit_exclusive id s cmd) db = immediate (submit id s cmd) db) ∧
  (∀ j o, operations db !! j = Some o → o_session_id o = s → o_outcome_json o = None →
     ∃ k x, operations db !! k = Some x ∧ o_session_id x = s ∧ o_outcome_json x = None ∧
       o_position x ≤ o_position o ∧
       immediate (submit_exclusive id s cmd) db
       = (Err (UnfinishedOperation k (o_command_id x)), db)).
Proof. intros HI%reachable_inv. by apply submit_exclusive_cases. Qed.
End admission_theorems.

(** ** Witnesses *)
Import Scenario.

Lemma submit_redelivery_witness :
  immediate (submit_with_mode op2 session (cmd 21 "first") RequireNoUnfinishedOperation) setup_db
  = (Ok {| adm_operation_id := op1; adm_position := 0 |}, setup_db).
Proof.
  eapply (submit_redelivery session_db op1 session (cmd 21 "first") Ordered);
    [apply Facts.session_reachable| |apply rtc_once, Facts.setup_step].
  rewrite first_db_eq. apply committed. vm_compute. reflexivity.
Defined.

Lemma submit_conflict_witness :
  ∃ k o, operations setup_db !! k = Some o ∧ o_command_id o = MkId 21 ∧
    immediate (submit_with_mode op2 session (cmd 21 "other") Ordered) setup_db
    = (Err (CommandConflict (MkId 21) k), setup_db).
Proof.
  destruct (row_that (commands setup_db !! MkId 21)
    (λ c : @CommandRow doc_json, bool_decide (c_content_json c ≠ DocCommand (MkId 21) "other"))) as (row & Hrow & Hne);
    [vm_compute; reflexivity|].
  apply (submit_conflict setup_db op2 session (cmd 21 "other") Ordered (DocCommand (MkId 21) "other") row);
    [apply Facts.setup_reachable|exact Hrow|reflexivity|right; by apply bool_decide_eq_true_1 in Hne].
Defined.

Lemma submit_appends_witness :
  (immediate (submit (MkId 13) session (cmd 23 "third")) setup_db).1
  = Ok {| adm_operation_id := MkId 13; adm_position := 2 |}.
Proof.
  destruct (row_that (sessions setup_db !! session) (λ r, s_next_command_position r =? 2))
    as (r & Hr & Hp%Z.eqb_eq); [vm_compute; reflexivity|].
  rewrite (submit_appends setup_db (MkId 13) session (cmd 23 "third") (DocCommand (MkId 23) "third") r);
    [cbn; by rewrite Hp|apply Facts.setup_reachable|reflexivity|apply no_row; vm_compute; reflexivity
    |exact Hr|apply no_row; vm_compute; reflexivity|rewrite Hp; reflexivity].
Defined.

Lemma submit_exclusive_iff_idle_witness :
  ∃ k x, operations setup_db !! k = Some x ∧
    immediate (submit_exclusive (MkId 13) session (cmd 23 "third")) setup_db
    = (Err (UnfinishedOperation k (o_command_id x)), setup_db).
Proof.
  destruct (row_that (operations setup_db !! op1)
    (λ o, bool_decide (o_session_id o = session) && bool_decide (o_outcome_json o = None)))
    as (o & Ho & Hb); [vm_compute; reflexivity|]. split_bools.
  destruct (submit_exclusive_iff_idle setup_db (MkId 13) session (cmd 23 "third")
    (DocCommand (MkId 23) "third") Facts.setup_reachable) as [_ H2];
    [reflexivity|apply no_row; vm_compute; reflexivity|].
  destruct (H2 op1 o) as (k & x & Hk & _ & _ & _ & Hi); [assumption..|]. exists k, x. by split.
Defined.

(** * Semantic history: replay is total and history only grows *)
Section history_theorems.
Context `{KS : KernelSerde} `{!KernelSerdeLaws}.
Implicit Types (db : Database).

Lemma decode_Ok {A} `{!Serde A} t (a : A) : decodes t a → decode_json t = Ok a.
Proof. unfold decodes, decode_json. by intros ->. Qed.

Lemma elem_of_session_events db s c k v :
  Inv db →
  (k, v) ∈ session_events db s c ↔
  semantic_events db !! k = Some v ∧ ev_session_id v = s ∧ c ≤ ev_sequence v.
Proof.
  intros HI. unfold session_events.
  rewrite elem_of_order_by, elem_of_select, !andb_true_iff, bool_decide_eq_true, Z.leb_le.
  split; [naive_solver|]. intros (Hv & Hs & Hc). split_and!; try done.
  apply operation_in_session_spec.
  destruct (st_event _ (inv_static _ HI) k v Hv) as (_ & (o & ? & ?) & _). eauto.
Qed.

(** The events from [c] on, in order. *)
Lemma session_events_sequences db s r c :
  Inv db → sessions db !! s = Some r → 0 ≤ c →
  (λ kv, ev_sequence kv.2) <$> session_events db s c = seqZ c (s_next_event_sequence r - c).
Proof.
  intros HI Hr Hc. pose proof (st_sequences _ (inv_static _ HI) s r Hr) as HG.
  assert (∀ k v, (k, v) ∈ select (λ _ e, bool_decide (ev_session_id e = s) && (c <=? ev_sequence e) &&
              operation_in_session db (ev_session_id e) (ev_operation_id e)) (semantic_events db) ↔
            semantic_events db !! k = Some v ∧ ev_session_id v = s ∧ c ≤ ev_sequence v) as Hin.
  { intros k v. rewrite <- (elem_of_session_events db s c) by done. unfold session_events.
    by rewrite elem_of_order_by. }
  unfold session_events. apply order_by_range.
  - apply NoDup_fmap_2_strong; [|eapply NoDup_fmap_1, NoDup_select].
    intros [k1 v1] [k2 v2] (H1 & S1 & _)%Hin (H2 & S2 & _)%Hin E. cbn in E.
    assert (k1 = k2) as -> by (by eapply (gapless_inj _ _ _ _ _ _ _ _ HG)). by simplify_eq.
  - intros p. rewrite list_elem_of_fmap. split.
    + intros ([k v] & -> & (Hv & Hs & Hp)%Hin). cbn.
      pose proof (gapless_bounds _ _ _ _ _ _ HG Hv Hs). lia.
    + intros Hp. destruct HG as [_ HR]. destruct (proj1 (HR p) ltac:(lia)) as (k & v & Hv & Hs & <-).
      exists (k, v). split; [done|]. apply Hin. split_and!; try done. lia.
Qed.

Lemma decode_event_total db k v :
  Inv db → semantic_events db !! k = Some v →
  ∃ ev, decode_event db (k, v) = Ok ev ∧ sev_sequence ev = ev_sequence v.
Proof.
  intros HI Hv. destruct (st_event _ (inv_static _ HI) k v Hv) as (_ & (o & Ho & _) & x & Hx).
  pose proof (st_event_checks _ (inv_static _ HI) k v Hv) as Hck. unfold event_checks in Hck. split_bools.
  unfold decode_event. rewrite Ho. unfold from_sql_integer.
  rewrite (proj2 (Z.leb_le _ _)) by done. cbn. rewrite (decode_Ok _ _ Hx). cbn. eauto.
Qed.

Lemma validate_gapless_ok n l : ∀ c,
  sev_sequence <$> l = seqZ c (n - c) → c ≤ n ≤ i64_max → validate_gapless c n l = Ok tt.
Proof.
  induction l as [|ev l IH]; intros c E Hn; cbn in *.
  - destruct (Z.eqb_spec c n) as [|Hne]; [done|]. rewrite seqZ_cons in E by lia. done.
  - assert (0 < n - c) as Hpos.
    { destruct (decide (0 < n - c)); [done|]. rewrite seqZ_nil in E by lia. done. }
    rewrite seqZ_cons in E by done. injection E as E1 E2. rewrite E1, Z.eqb_refl. cbn.
    unfold checked_add_u64. rewrite (proj2 (Z.leb_le _ _)) by (unfold i64_max, u64_max in *; lia).
    cbn. apply IH; [|lia]. rewrite E2. f_equal; lia.
Qed.

Lemma load_events_ok db s r c :
  Inv db → sessions db !! s = Some r → 0 ≤ c →
  ∃ l, load_events s c db = Ok l ∧ sev_sequence <$> l = seqZ c (s_next_event_sequence r - c).
Proof.
  intros HI Hr Hc. unfold load_events.
  destruct (collect_total (decode_event db) (session_events db s c)) as [l Hl].
  { intros [k v] (Hv & _)%elem_of_session_events; [|done].
    destruct (decode_event_total db k v HI Hv) as (ev & ? & _). eauto. }
  exists l. split; [done|]. rewrite <- (session_events_sequences db s r c) by done.
  destruct (collect_lookup _ _ _ Hl) as [Hlen HL].
  apply list_eq_same_length with (length l); rewrite ?length_fmap; try done.
  intros i x y Hi Hx Hy. apply list_lookup_fmap_Some in Hx as (ev & -> & Hev), Hy as ([k v] & -> & Hkv).
  destruct (HL i _ Hkv) as (ev' & Hev' & Hd). simplify_eq.
  assert (semantic_events db !! k = Some v) as Hv.
  { apply (elem_of_session_events db s c); [done|]. by eapply list_elem_of_lookup_2. }
  destruct (decode_event_total db k v HI Hv) as (ev2 & Hd2 & Hs). cbn. congruence.
Qed.

Lemma load_event_page_ok db s r c :
  Inv db → sessions db !! s = Some r → 0 ≤ c ≤ s_next_event_sequence r →
  ∃ page, load_event_page s c db = Ok page ∧ next_cursor page = s_next_event_sequence r ∧
    sev_sequence <$> page_events page = seqZ c (s_next_event_sequence r - c) ∧
    load_events s c db = Ok (page_events page).
Proof.
  intros HI Hr Hc. unfold load_event_page. rewrite Hr.
  pose proof (st_session_checks _ (inv_static _ HI) _ _ Hr) as Hck. unfold session_checks in Hck.
  split_bools. rewrite in_i64_spec in *.
  unfold from_sql_integer. rewrite (proj2 (Z.leb_le _ _)) by done. cbn.
  rewrite (proj2 (Z.ltb_ge _ _)) by lia.
  unfold i64_try_from. rewrite (proj2 (Z.leb_le _ _)) by lia. cbn.
  destruct (load_events_ok db s r c) as (l & Hl & Hs); [done..|lia|]. rewrite Hl. cbn.
  rewrite validate_gapless_ok by (done || lia). cbn. eexists. split; [done|]. done.
Qed.

(** Replay is total and exact: from any cursor up to the high-water mark the
    page holds exactly the events numbered from the cursor on, in order and
    without gaps, with the mark as next cursor; beyond it the cursor is
    refused. *)
Theorem replay_exact db s r c :
  reachable db → sessions db !! s = Some r → 0 ≤ c →
  if decide (c ≤ s_next_event_sequence r)
  then ∃ page, load_event_page s c db = Ok page ∧ next_cursor page = s_next_event_sequence r ∧
         sev_sequence <$> page_events page = seqZ c (s_next_event_sequence r - c)
  else load_event_page s c db = Err (CursorAhead c (s_next_event_sequence r)).
Proof.
  intros HI%reachable_inv Hr Hc. case_decide as Hle.
  - destruct (load_event_page_ok db s r c) as (page & ? & ? & ? & _); eauto.
  - unfold load_event_page. rewrite Hr.
    pose proof (session_nonneg _ _ _ (inv_static _ HI) Hr) as [_ Hnn].
    unfold from_sql_integer. rewrite (proj2 (Z.leb_le _ _)) by done. cbn.
    by rewrite (proj2 (Z.ltb_lt _ _)) by lia.
Qed.

(** ** Growth *)
Lemma load_events_lookup db s r l i ev :
  Inv db → sessions db !! s = Some r → load_events s START db = Ok l → l !! i = Some ev →
  ∃ k v, semantic_events db !! k = Some v ∧ ev_session_id v = s ∧ ev_sequence v = Z.of_nat i ∧
    decode_event db (k, v) = Ok ev.
Proof.
  intros HI Hr Hl Hi. destruct (collect_lookup _ _ _ Hl) as [Hlen HL].
  destruct (session_events db s START !! i) as [[k v]|] eqn:Ek.
  - destruct (HL i _ Ek) as (ev' & ? & Hd). simplify_eq. exists k, v.
    pose proof (list_elem_of_lookup_2 _ _ _ Ek) as (Hv & Hs & _)%elem_of_session_events; [|done].
    split_and!; try done.
    pose proof (session_events_sequences db s r START HI Hr ltac:(done)) as E.
    apply (f_equal (λ l, l !! i)) in E. rewrite list_lookup_fmap, Ek in E. cbn in E.
    symmetry in E. apply lookup_seqZ in E. unfold START in *. lia.
  - apply lookup_ge_None in Ek. apply lookup_lt_Some in Hi. lia.
Qed.

Lemma decode_event_evolves db db' k v :
  Inv db → Evolves db db' → semantic_events db !! k = Some v →
  decode_event db' (k, v) = decode_event db (k, v).
Proof.
  intros HI HE Hv. destruct (st_event _ (inv_static _ HI) k v Hv) as (_ & (o & Ho & _) & _).
  destruct (ev_operations _ _ HE _ _ Ho) as (o' & Ho' & Hev). unfold decode_event.
  by rewrite Ho, Ho', (ov_command _ _ Hev).
Qed.

(** History is append-only: whatever the kernel does later, the events a
    session had are a prefix of the events it has. *)
Theorem history_append_only db db' s page page' :
  reachable db → rtc kstep db db' →
  load_event_page s START db = Ok page → load_event_page s START db' = Ok page' →
  page_events page `prefix_of` page_events page'.
Proof.
  intros HI%reachable_inv HS E E'.
  assert (Inv db') as HI' by by eapply ksteps_inv. pose proof (ksteps_evolve _ _ HI HS) as HE.
  assert (∃ r, sessions db !! s = Some r) as [r Hr].
  { unfold load_event_page in E. destruct (sessions db !! s); [eauto|done]. }
  destruct (ev_sessions _ _ HE _ _ Hr) as (r' & Hr' & Hsv).
  pose proof (session_nonneg _ _ _ (inv_static _ HI) Hr) as [_ Hnn].
  pose proof (sv_sequence _ _ Hsv) as Hle.
  destruct (load_event_page_ok db s r START HI Hr) as (p & Ep & _ & Hseq & Hl); [done|].
  destruct (load_event_page_ok db' s r' START HI' Hr') as (p' & Ep' & _ & Hseq' & Hl');
    [unfold START; lia|].
  assert (p = page) as -> by congruence. assert (p' = page') as -> by congruence.
  assert (length (page_events page) = Z.to_nat (s_next_event_sequence r)) as Hlen.
  { rewrite <- (length_fmap sev_sequence), Hseq, length_seqZ. unfold START. f_equal. lia. }
  assert (length (page_events page') = Z.to_nat (s_next_event_sequence r')) as Hlen'.
  { rewrite <- (length_fmap sev_sequence), Hseq', length_seqZ. unfold START. f_equal. lia. }
  exists (drop (length (page_events page)) (page_events page')).
  rewrite <- (take_drop (length (page_events page)) (page_events page')) at 1. f_equal.
  apply list_eq_same_length with (length (page_events page)).
  - done.
  - rewrite length_take. lia.
  - intros i x y Hi Hx Hy. rewrite lookup_take_lt in Hx by done.
    destruct (load_events_lookup db s r _ i y HI Hr Hl Hy) as (k & v & Hv & Hs & Hn & Hd).
    destruct (load_events_lookup db' s r' _ i x HI' Hr' Hl' Hx) as (k' & v' & Hv' & Hs' & Hn' & Hd').
    destruct (ev_events _ _ HE _ _ Hv) as (v2 & Hv2 & <-).
    assert (k' = k) as ->.
    { eapply (gapless_inj _ _ _ _ _ _ _ _ (st_sequences _ (inv_static _ HI') s r' Hr')); eauto. congruence. }
    simplify_eq. rewrite (decode_event_evolves db) in Hd' by done. congruence.
Qed.
End history_theorems.

(** ** Witnesses *)
Import Scenario.

Lemma replay_exact_witness :
  ∃ page, load_event_page session 0 Facts.done2_db = Ok page ∧
    sev_sequence <$> page_events page = [0; 1].
Proof.
  destruct (row_that (sessions Facts.done2_db !! session) (λ r, s_next_event_sequence r =? 2))
    as (r & Hr & Hn%Z.eqb_eq); [vm_compute; reflexivity|].
  pose proof (replay_exact Facts.done2_db session r 0 Facts.done2_reachable Hr ltac:(lia)) as HR.
  rewrite Hn in HR. case_decide; [|lia]. destruct HR as (page & Hp & _ & Hs).
  exists page. split; assumption.
Defined.

Lemma history_append_only_witness :
  ∃ page page', load_event_page session START Facts.done_db = Ok page ∧
    load_event_page session START Facts.done2_db = Ok page' ∧
    page_events page `prefix_of` page_events page'.
Proof.
  destruct (ok_that (load_event_page session START Facts.done_db)) as (page & Hp);
    [vm_compute; reflexivity|].
  destruct (ok_that (load_event_page session START Facts.done2_db)) as (page' & Hp');
    [vm_compute; reflexivity|].
  exists page, page'. split; [assumption|]. split; [assumption|].
  exact (history_append_only _ _ _ _ _ Facts.done_reachable Facts.done2_steps Hp Hp').
Defined.
