(* ===== verification/Progress.v ===== *)
(** * Reads of a good database never fail

    On a database that satisfies the invariant every read of the kernel
    succeeds: no row fails to decode, no child is missing, no position has a
    gap. These lemmas turn the error branches of the readers into dead code. *)
From S2P Require Import Prelude Json State Schema SchemaFacts Admission OperationStore EffectStore.
From S2P Require Import Cancellation Inspection Runtime Drive Concrete Invariant AdmissionInv OperationInv.
From S2P Require Import EffectInv DispatchInv Steps DriveSound Lifetime AdmissionTheorems.
Section totality.
Context `{KS : KernelSerde} `{!KernelSerdeLaws}.
Implicit Types (db : Database) (o : OperationRow) (e : EffectRow).

(** ** Operations *)
Lemma transpose_decode_total {A} `{!Serde A} (t : option Text) :
  (∀ x, t = Some x → ∃ a : A, decodes x a) →
  ∃ r : option A, transpose decode_json t = Ok r ∧
    match t, r with
    | Some x, Some a => decodes x a
    | None, None => True
    | _, _ => False
    end.
Proof.
  intros HT. destruct t as [x|]; cbn; [|by exists None].
  destruct (HT x eq_refl) as [a Ha]. exists (Some a). by rewrite (decode_Ok _ _ Ha).
Qed.

Lemma command_text_total db id o :
  Inv db → operations db !! id = Some o →
  ∃ t c, command_text db o = Some t ∧ decodes t c ∧ command_id c = o_command_id o.
Proof.
  intros HI Ho. pose proof (inv_static _ HI) as HS.
  destruct (st_operation _ HS id o Ho) as (_ & row & Hrow & Hs).
  destruct (st_command _ HS _ _ Hrow) as (_ & (c & Hc & Hid) & _).
  exists (c_content_json row), c. unfold command_text. rewrite Hrow, decide_True by done. done.
Qed.

Lemma outcome_decodes db id o t :
  op_inv db id o → o_outcome_json o = Some t → ∃ x : OperationOutcome, decodes t x.
Proof.
  intros Hop Ht. destruct (phase_of _ _ _ Hop) as (p & _ & HS).
  destruct p; cbn in HS; naive_solver.
Qed.

(** A stored operation as the reader sees it. *)
Definition reads_as (o : OperationRow) (st : StoredOperation) : Prop :=
  command_id (command st) = o_command_id o ∧ o_phase o = as_str (phase st) ∧
  transition_version st = o_transition_version o ∧
  current_effect_batch_id st = o_current_effect_batch_id o ∧
  input_effect_batch_id st = o_input_effect_batch_id o ∧
  transpose decode_json (o_manifest_json o) = Ok (manifest st) ∧
  transpose decode_json (o_checkpoint_json o) = Ok (checkpoint st) ∧
  transpose decode_json (o_outcome_json o) = Ok (outcome st).

Lemma decode_total db id o t c :
  Inv db → operations db !! id = Some o → decodes t c → command_id c = o_command_id o →
  ∃ st, decode o t = Ok st ∧ reads_as o st ∧ command st = c.
Proof.
  intros HI Ho Hc Hid. pose proof (inv_ops _ HI _ _ Ho) as Hop.
  destruct (phase_of _ _ _ Hop) as (p & Hp & _). destruct Hop as (_ & [HM HK] & _).
  destruct (st_operation_checks _ (inv_static _ HI) _ _ Ho) as [_ Hv].
  destruct (transpose_decode_total (A:=RuntimeManifest) (o_manifest_json o)) as (m & Em & Hm); [done|].
  destruct (transpose_decode_total (A:=Checkpoint) (o_checkpoint_json o)) as (k & Ek & Hk).
  { intros x Hx. destruct (HK x Hx) as (? & ? & c' & _ & _ & ? & _). eauto. }
  destruct (transpose_decode_total (A:=OperationOutcome) (o_outcome_json o)) as (x & Ex & _).
  { intros t' Ht'. eapply outcome_decodes; [by apply HI|done]. }
  assert (match m with
          | Some m => require_compatible_checkpoint m k
          | None => match k with Some _ => Err (Corrupt "operation checkpoint has no runtime manifest")
                               | None => Ok tt end
          end = Ok tt) as Hcompat.
  { destruct (o_checkpoint_json o) as [tc|], k as [k|]; try done; [|by destruct m].
    destruct (HK tc eq_refl) as (tm & m' & c' & Htm & Hdm & Hdc & Hsv). rewrite Htm in Hm.
    destruct m as [m|]; [|done]. unfold decodes in *. cbn.
    assert (m' = m) as -> by congruence. assert (c' = k) as -> by congruence.
    by rewrite Hsv, Z.eqb_refl. }
  eexists. split; [|split].
  - unfold decode, require_state_version. rewrite Hv. change (OPERATION_STATE_VERSION ?= OPERATION_STATE_VERSION) with Eq.
    cbn. rewrite (decode_Ok _ _ Hc). cbn. rewrite decide_True by done. cbn.
    rewrite Em. cbn. rewrite Ek. cbn. rewrite Hcompat. cbn.
    rewrite Hp, from_database_as_str. cbn. rewrite Ex. cbn. reflexivity.
  - split_and!; done.
  - done.
Qed.

Lemma load_operation_total db id o :
  Inv db → operations db !! id = Some o →
  ∃ st, load_operation (o_session_id o) id db = Ok (Some st) ∧ reads_as o st.
Proof.
  intros HI Ho. destruct (command_text_total db id o HI Ho) as (t & c & Ht & Hc & Hid).
  destruct (decode_total db id o t c HI Ho Hc Hid) as (st & Hst & Hr & _).
  exists st. split; [|done]. unfold load_operation. rewrite Ho, decide_True, Ht, Hst by done. done.
Qed.

(** ** Batches *)
Lemma batch_effects_owned db id b : owns db id b → batch_effects db id b = batch_children db b.
Proof. intros Hown. unfold batch_effects. by rewrite (proj2 (batch_of_operation_spec _ _ _) Hown). Qed.

Lemma batch_children_lookup db b j k e :
  Static db → is_Some (effect_batches db !! b) → batch_children db b !! j = Some (k, e) →
  effects db !! k = Some e ∧ e_batch_id e = b ∧ e_position e = Z.of_nat j.
Proof.
  intros HS [r Hr] Hj. destruct (st_batch _ HS _ _ Hr) as (_ & n & _ & HG).
  pose proof (list_elem_of_lookup_2 _ _ _ Hj) as Hin. unfold batch_children in *.
  rewrite elem_of_order_by, elem_of_select, bool_decide_eq_true in Hin. destruct Hin as [He Hb].
  split_and!; try done. eapply (gapless_order_lookup (effects db) (λ e, bool_decide (e_batch_id e = b)) e_position n _ (k, e)); [|exact Hj].
  eapply gapless_iff; [|exact HG]. intros v. by rewrite bool_decide_eq_true.
Qed.

Lemma elem_of_batch_children db b k e :
  (k, e) ∈ batch_children db b ↔ effects db !! k = Some e ∧ e_batch_id e = b.
Proof. unfold batch_children. by rewrite elem_of_order_by, elem_of_select, bool_decide_eq_true. Qed.

Lemma batch_children_nonempty db b : Static db → is_Some (effect_batches db !! b) → batch_children db b ≠ [].
Proof.
  intros HS [r Hr] E. destruct (st_batch _ HS _ _ Hr) as (_ & n & Hn & _ & HG).
  destruct (proj1 (HG 0) ltac:(lia)) as (k & e & He & Hb & _).
  assert ((k, e) ∈ batch_children db b) as Hin by by apply elem_of_batch_children.
  rewrite E in Hin. by apply elem_of_nil in Hin.
Qed.

(** A reader that succeeds on every child at its own position reads the batch. *)
Lemma collect_children {A} (f : Z → EffectId * EffectRow → KResult A) db b :
  Static db → is_Some (effect_batches db !! b) →
  (∀ k e, effects db !! k = Some e → e_batch_id e = b → ∃ x, f (e_position e) (k, e) = Ok x) →
  ∃ xs, collect_enum f 0 (batch_children db b) = Ok xs ∧ xs ≠ [] ∧
    (∀ x, x ∈ xs → ∃ k e, effects db !! k = Some e ∧ e_batch_id e = b ∧
       f (e_position e) (k, e) = Ok x) ∧
    (∀ k e, effects db !! k = Some e → e_batch_id e = b →
       ∃ x, x ∈ xs ∧ f (e_position e) (k, e) = Ok x).
Proof.
  intros HS Hb Hf. destruct (collect_enum_total f (batch_children db b) 0) as [xs Hxs].
  { intros j [k e] Hj. destruct (batch_children_lookup db b j k e HS Hb Hj) as (He & Hbe & Hp).
    destruct (Hf k e He Hbe) as [x Hx]. exists x. by rewrite Hp in Hx. }
  exists xs. destruct (collect_enum_lookup _ _ _ _ Hxs) as [Hlen HL]. split_and!; [done|..].
  - intros ->. pose proof (batch_children_nonempty db b HS Hb). by destruct (batch_children db b).
  - intros x Hx. destruct (collect_enum_elem _ _ _ _ _ Hxs Hx) as (j & [k e] & Hj & Hfx).
    destruct (batch_children_lookup db b j k e HS Hb Hj) as (He & Hbe & Hp).
    exists k, e. by rewrite Hp.
  - intros k e He Hbe. assert ((k, e) ∈ batch_children db b) as Hin by by apply elem_of_batch_children.
    apply list_elem_of_lookup_1 in Hin as [j Hj].
    destruct (batch_children_lookup db b j k e HS Hb Hj) as (_ & _ & Hp).
    destruct (HL j _ Hj) as (x & Hx & Hfx). exists x. split; [by eapply list_elem_of_lookup_2|].
    by rewrite Hp.
Qed.

Lemma require_own_position e : effect_checks e = true → require_position (e_position e) e = Ok tt.
Proof.
  intros Hck. unfold effect_checks in Hck. split_bools. unfold require_position, from_sql_integer.
  rewrite (proj2 (Z.leb_le _ _)) by done. cbn. by rewrite Z.eqb_refl.
Qed.

Lemma stored_status e : effect_checks e = true → ∃ st, e_status e = status_name st.
Proof.
  intros [Hs|[Hs|[Hs|Hs]]]%effect_status_cases; [by exists IntentCommitted|by exists DispatchStarted
    |by exists Settled|by exists EffOutcomeUnknown].
Qed.

Lemma stored_recovery e : effect_checks e = true → ∃ r, e_recovery e = recovery_as_str r.
Proof.
  unfold effect_checks. intros. split_bools. cbn in *.
  repeat match goal with H : (_ || _)%bool = true |- _ => apply orb_prop in H as [H|H] end;
    split_bools; try done; (by exists SafeToReplay) || (by exists NeverReplay).
Qed.

Lemma outcome_iff_settled e :
  effect_checks e = true → is_Some (e_outcome_json e) ↔ e_status e = "settled".
Proof.
  unfold effect_checks. intros. split_bools.
  match goal with H : Bool.eqb _ _ = true |- _ => apply Bool.eqb_prop in H as Heq end.
  rewrite <- String.eqb_eq, Heq, bool_decide_eq_true. done.
Qed.

(** What a fact says of the stored child. *)
Definition fact_of (k : EffectId) e (f : EffectFact) : Prop :=
  match f with
  | NotDispatched u => ue_effect_id u = k ∧ e_status e = "intent_committed"
  | FactUnknown u => ue_effect_id u = k ∧ (e_status e = "dispatch_started" ∨ e_status e = "outcome_unknown")
  | FactSettled u => se_effect_id u = k ∧ e_status e = "settled" ∧
      se_binding u = e_binding e ∧ se_binding_revision u = e_binding_revision e ∧
      ∃ t, e_outcome_json e = Some t ∧ decodes t (se_outcome u)
  end.

Lemma effect_fact_total m e k tm (mm : RuntimeManifest) :
  effect_checks e = true → effect_open (Some tm) e → decodes tm mm →
  m = None ∨ m = Some mm →
  ∃ f, effect_fact m (e_position e) (k, e) = Ok f ∧ fact_of k e f.
Proof.
  intros Hck ((tm' & m' & [= <-] & Hd & Hb) & (t & v & Ht & Hv) & Hx & _) Hm Hcase.
  assert (m' = mm) as -> by (unfold decodes in *; congruence).
  destruct (stored_status e Hck) as [st Hst]. pose proof (outcome_iff_settled e Hck) as Ho.
  assert (match m with
          | Some m => if decide (effect_bindings m !! e_binding e = Some (e_binding_revision e))
                      then Ok tt else Err (Corrupt "effect batch child differs from the frozen manifest")
          | None => Ok tt end = Ok tt) as Hman.
  { destruct Hcase as [->| ->]; [done|]. by rewrite decide_True. }
  unfold effect_fact. rewrite (require_own_position e Hck). cbn. rewrite Hman, Ht. cbn.
  rewrite (decode_Ok _ _ Hv). cbn. rewrite Hst, parse_status_name. cbn.
  destruct (e_outcome_json e) as [to|] eqn:Eo.
  - assert (st = Settled) as ->.
    { assert (e_status e = "settled") as Hs by (apply Ho; eauto). rewrite Hst in Hs. by destruct st. }
    destruct (Hx to eq_refl) as [x Hxx]. rewrite (decode_Ok _ _ Hxx). cbn.
    eexists. split; [done|]. cbn. split_and!; eauto.
  - assert (st ≠ Settled) as Hns by (intros ->; by destruct (proj2 Ho Hst)).
    destruct st; try done; eexists; (split; [done|]); cbn; auto.
Qed.

(** A batch all of whose children keep their requests. *)
Lemma load_facts_open db id o b m :
  Inv db → operations db !! id = Some o → owns db id b → manifest_at id m db →
  children db b (effect_open (o_manifest_json o)) →
  ∀ om, om = None ∨ om = Some m →
  ∃ fs, load_effect_batch_facts id b om db = Ok {| bf_batch_id := b; bf_effects := fs |} ∧ fs ≠ [] ∧
    (∀ f, f ∈ fs → ∃ k e, effects db !! k = Some e ∧ e_batch_id e = b ∧ fact_of k e f) ∧
    (∀ k e, effects db !! k = Some e → e_batch_id e = b → ∃ f, f ∈ fs ∧ fact_of k e f).
Proof.
  intros HI Ho Hown (o' & tm & Ho' & Htm & Hd) Hopen om Hom. simplify_eq.
  pose proof (inv_static _ HI) as HS.
  assert (is_Some (effect_batches db !! b)) as Hb by (destruct Hown as (r & ? & _); eauto).
  assert (∀ k e, effects db !! k = Some e → e_batch_id e = b →
            ∃ f, effect_fact om (e_position e) (k, e) = Ok f ∧ fact_of k e f) as Hf.
  { intros k e He Hbe. eapply effect_fact_total; [by eapply st_effect_checks| |done..].
    rewrite <- Htm. by eapply Hopen. }
  destruct (collect_children (effect_fact om) db b HS Hb) as (fs & Hfs & Hne & H1 & H2).
  { intros k e He Hbe. destruct (Hf k e He Hbe) as (f & ? & _). eauto. }
  exists fs. split_and!; [|done|..].
  - unfold load_effect_batch_facts. rewrite (proj2 (batch_of_operation_spec _ _ _) Hown), Hfs. cbn.
    by destruct fs.
  - intros f Hin. destruct (H1 f Hin) as (k & e & He & Hbe & Hef). exists k, e. split_and!; try done.
    destruct (Hf k e He Hbe) as (f' & Hef' & ?). congruence.
  - intros k e He Hbe. destruct (H2 k e He Hbe) as (f & Hin & Hef). exists f. split; [done|].
    destruct (Hf k e He Hbe) as (f' & Hef' & ?). congruence.
Qed.

Lemma load_facts_total db id o b m :
  Inv db → operations db !! id = Some o → o_outcome_json o = None → owns db id b →
  manifest_at id m db →
  ∀ om, om = None ∨ om = Some m →
  ∃ fs, load_effect_batch_facts id b om db = Ok {| bf_batch_id := b; bf_effects := fs |} ∧ fs ≠ [] ∧
    (∀ f, f ∈ fs → ∃ k e, effects db !! k = Some e ∧ e_batch_id e = b ∧ fact_of k e f) ∧
    (∀ k e, effects db !! k = Some e → e_batch_id e = b → ∃ f, f ∈ fs ∧ fact_of k e f).
Proof.
  intros HI Ho Hn Hown Hm. eapply load_facts_open; try done. intros k e He Hbe.
  eapply open_child; [by apply HI|done..|by rewrite Hbe].
Qed.

(** A child of a batch that is not settled as a whole keeps its request. *)
Lemma unsettled_open db id o b :
  Inv db → operations db !! id = Some o → owns db id b → ¬ children db b settled →
  children db b (effect_open (o_manifest_json o)).
Proof.
  intros HI Ho Hown Hns k e He Hbe. destruct (inv_ops _ HI _ _ Ho) as (_ & _ & HE).
  destruct (HE k e He) as (? & HR & ? & ? & ? & ? & Hrel); [by rewrite Hbe|].
  split_and!; try done. destruct (e_request_json e) as [t|]; [destruct (HR t eq_refl); eauto|].
  destruct (proj1 Hrel eq_refl) as [_ Hset]. by rewrite Hbe in Hset.
Qed.
End totality.

(** * Transactions that succeed

    On a good database a transition whose compare-and-set matches commits: the
    lemmas here run the transactions forwards, with the arithmetic headroom
    they need as the only condition. *)
Section progress.
Context `{KS : KernelSerde} `{!KernelSerdeLaws}.
Implicit Types (db : Database) (o : OperationRow) (e : EffectRow).

(** A row one version further still fits its columns. *)
Lemma next_version_checks o o' :
  operation_checks o = true → o_position o' = o_position o →
  o_state_version o' = o_state_version o →
  o_transition_version o' = o_transition_version o + 1 →
  o_next_effect_batch_position o' = o_next_effect_batch_position o →
  (∃ p, o_phase o' = as_str p) → o_transition_version o < i64_max →
  operation_checks o' = true.
Proof.
  intros Hck Hp Hs Hv Hn [p Hph] Hlt. unfold operation_checks in *. rewrite Hp, Hs, Hv, Hn, Hph.
  split_bools. rewrite in_i64_spec in *. unfold i64_min, i64_max in *.
  rewrite !andb_true_iff, !in_i64_spec, !Z.leb_le, !Z.ltb_lt. unfold i64_min, i64_max.
  split_and!; try done; try lia. by destruct p.
Qed.

Lemma stored_checks db id o : Inv db → operations db !! id = Some o → operation_checks o = true.
Proof. intros HI Ho. by eapply st_operation_checks; [apply HI|]. Qed.

Lemma active_checks db s r a : Inv db → sessions db !! s = Some r → session_checks (set_active a r) = true.
Proof. intros HI Hr. by apply (st_session_checks _ (inv_static _ HI)) in Hr. Qed.

(** ** Statuses of a batch *)
Lemma load_batch_statuses_total db id b :
  Static db → owns db id b → ∃ l, load_batch_statuses id b db = Ok l.
Proof.
  intros HS Hown. assert (is_Some (effect_batches db !! b)) as Hb by (destruct Hown as (r & ? & _); eauto).
  destruct (collect_children (λ i ke, require_position i ke.2 ;; parse_status (e_status ke.2)) db b HS Hb)
    as (l & Hl & Hne & _).
  { intros k e He _. pose proof (st_effect_checks _ HS _ _ He) as Hck.
    destruct (stored_status e Hck) as [st Hst]. exists st. cbn.
    by rewrite (require_own_position e Hck), Hst, parse_status_name. }
  exists l. unfold load_batch_statuses. rewrite (batch_effects_owned _ _ _ Hown), Hl. by destruct l.
Qed.

Lemma transition_finished_batch_run db id o b (blocked : bool) :
  Inv db → operations db !! id = Some o → dispatched_at (o_transition_version o) b o = true →
  o_transition_version o < i64_max →
  transition_finished_batch id b (o_transition_version o) blocked db
  = Ok (tt, with_operations (<[id := finished_batch_row b blocked o]> (operations db)) db).
Proof.
  intros HI Ho Hd Hlt. destruct (dispatched_shape _ _ _ _ _ HI Ho Hd) as (_ & _ & _ & Hn & _).
  unfold transition_finished_batch.
  run_tx (apply update_operation_run; [exact Ho|exact Hd|]).
  { rewrite (require_run 1) by done. f_equal. f_equal.
    erewrite release_unfinished; [done|apply lookup_insert_eq|done]. }
  eapply next_version_checks; [by eapply stored_checks|done..| |done].
  destruct blocked; [by exists OutcomeUnknown|by exists NeedDecision].
Qed.

(** ** Closing a dispatched batch *)
Definition closed_effects db (b : EffectBatchId) : gmap EffectId EffectRow :=
  update_where (λ _ e, bool_decide (e_batch_id e = b) && String.eqb (e_status e) "dispatch_started")
    (set_effect_status "outcome_unknown") (effects db).

Lemma mark_dispatched_unknown_run db b :
  Static db → mark_dispatched_unknown b db = Ok (tt, with_effects (closed_effects db b) db).
Proof.
  intros HS. unfold mark_dispatched_unknown.
  match goal with |- (if ?c then _ else _) = _ => assert (c = true) as ->; [|done] end.
  apply tbl_forall_spec. intros k e He. pose proof (st_effect_checks _ HS _ _ He) as Hck.
  destruct (bool_decide (e_batch_id e = b)); [|done]. cbn.
  destruct (String.eqb_spec (e_status e) "dispatch_started") as [Hs|]; [|done]. cbn.
  unfold effect_checks in *. cbn. rewrite Hs in Hck. cbn in Hck. rewrite !andb_true_iff in *.
  split_and!; naive_solver.
Qed.

Lemma close_dispatched_batch_run db id o b :
  Inv db → operations db !! id = Some o → dispatched_at (o_transition_version o) b o = true →
  o_transition_version o < i64_max →
  ∃ blocked : bool,
    close_dispatched_batch_for_cancellation id b (o_transition_version o) db
    = Ok (if blocked then OutcomeUnknown else NeedDecision,
          with_operations (<[id := finished_batch_row b blocked o]> (operations db))
            (with_effects (closed_effects db b) db)) ∧
    (blocked = true ↔ ∃ k e, effects db !! k = Some e ∧ e_batch_id e = b ∧ e_status e ≠ "settled").
Proof.
  intros HI Ho Hd Hlt. pose proof (inv_static _ HI) as HS.
  destruct (dispatched_shape _ _ _ _ _ HI Ho Hd) as (_ & _ & _ & _ & Hown & Hsh & _).
  pose proof (mark_dispatched_unknown_run db b HS) as Hmark.
  destruct (mark_dispatched_unknown_inv _ _ _ _ _ _ _ HI Ho Hd Hmark) as (effs & Heq & HI1 & _ & HC).
  set (db1 := with_effects (closed_effects db b) db) in *.
  destruct (load_batch_statuses_total db1 id b (inv_static _ HI1) Hown) as [l Hl].
  destruct (load_batch_statuses_ok _ _ _ _ Hl) as [_ HL].
  assert (∀ st, st = IntentCommitted ∨ st = DispatchStarted → has_status st l = false) as Hno.
  { intros st Hst. destruct (has_status st l) eqn:E; [|done].
    apply HL in E as (k & e & He & Hb & Hs). destruct (HC k e He Hb), Hst as [-> | ->]; cbn in Hs; congruence. }
  exists (has_status EffOutcomeUnknown l). split.
  - unfold close_dispatched_batch_for_cancellation.
    run_tx (apply read_run; unfold require_dispatched_batch; by rewrite Ho, Hd).
    run_tx (exact Hmark). run_tx (by apply read_run). rewrite !Hno by auto. cbn [orb].
    run_tx (by apply (transition_finished_batch_run db1)). done.
  - rewrite (HL EffOutcomeUnknown). split.
    + intros (k & e' & He' & Hb & Hs). cbn in He'. unfold closed_effects in He'.
      rewrite lookup_update_where in He'. destruct (effects db !! k) as [e|] eqn:He; [|done].
      cbn in He'. exists k, e. destruct (_ && _) eqn:EP in He'; injection He' as <-.
      * split_bools. split_and!; try done. congruence.
      * split_and!; try done. rewrite Hs. done.
    + intros (k & e & He & Hb & Hs). cbn. unfold closed_effects. setoid_rewrite lookup_update_where.
      exists k. rewrite He. cbn. rewrite bool_decide_true by done. cbn.
      destruct (String.eqb_spec (e_status e) "dispatch_started"); eexists; (split; [done|]); [done|].
      split; [done|]. destruct (effect_status_cases e) as [|[|[|]]]; try done.
      * by eapply st_effect_checks.
      * by destruct (Hsh k e He Hb).
Qed.

(** ** Facts for a cancellation *)
Lemma all_facts (P : EffectRow → Prop) (q : EffectFact → bool) db b fs :
  (∀ f, f ∈ fs → ∃ k e, effects db !! k = Some e ∧ e_batch_id e = b ∧ fact_of k e f) →
  children db b P → (∀ k e f, P e → fact_of k e f → q f = true) → forallb q fs = true.
Proof.
  intros HF HP Hq. apply forallb_forall. intros f Hf%list_elem_of_In.
  destruct (HF f Hf) as (k & e & He & Hb & Hfe). eauto.
Qed.

Lemma unknown_facts db b fs :
  (∀ f, f ∈ fs → ∃ k e, effects db !! k = Some e ∧ e_batch_id e = b ∧ fact_of k e f) →
  (∀ k e, effects db !! k = Some e → e_batch_id e = b → ∃ f, f ∈ fs ∧ fact_of k e f) →
  batch_shape OutcomeUnknown db b → unknown_batch_facts fs = true.
Proof.
  intros H1 H2 [HC (k & e & He & Hb & Hs)]. unfold unknown_batch_facts. apply andb_true_iff. split.
  - destruct (H2 k e He Hb) as (f & Hin & Hf). apply existsb_exists. exists f.
    split; [by apply list_elem_of_In|]. destruct f; cbn in Hf; naive_solver congruence.
  - eapply all_facts; [exact H1|exact HC|]. intros k' e' f Hst Hf. destruct f; cbn in *; try done.
    destruct Hf as [_ Hf]. destruct Hst; congruence.
Qed.

Lemma load_cancellation_effect_batch_total db id o p m :
  Inv db → operations db !! id = Some o → o_phase o = as_str p → is_cancellable p = true →
  p ≠ EffectDispatched → manifest_at id m db →
  ∃ x, load_cancellation_effect_batch id p (o_current_effect_batch_id o)
         (o_input_effect_batch_id o) m db = Ok x.
Proof.
  intros HI Ho Hp Hc Hnd Hm. pose proof (op_shape_at _ _ _ _ (inv_ops _ HI _ _ Ho) Hp) as HS.
  assert (o_outcome_json o = None) as Hn.
  { eapply outcome_none_iff; [by apply HI|done|by right]. }
  assert (∀ b, owns db id b → ∃ fs, load_effect_batch_facts id b (Some m) db
            = Ok {| bf_batch_id := b; bf_effects := fs |} ∧
          (∀ f, f ∈ fs → ∃ k e, effects db !! k = Some e ∧ e_batch_id e = b ∧ fact_of k e f) ∧
          (∀ k e, effects db !! k = Some e → e_batch_id e = b → ∃ f, f ∈ fs ∧ fact_of k e f)) as HF.
  { intros b Hb. destruct (load_facts_total db id o b m HI Ho Hn Hb Hm (Some m)) as (fs & ? & _ & ? & ?);
      [by right|]. eauto. }
  unfold load_cancellation_effect_batch, cancellation_batch_id. destruct p; try done; cbn in HS.
  - destruct HS as (_ & -> & _ & Hset & Hin). destruct (o_input_effect_batch_id o) as [b|]; [|eauto].
    cbn. destruct (HF b (Hin b eq_refl)) as (fs & -> & H1 & _). cbn.
    rewrite (all_facts settled is_settled_fact db b fs); eauto.
    intros k e f Hs Hf. destruct f; cbn in *; try done; unfold settled in Hs; naive_solver congruence.
  - destruct HS as (_ & _ & -> & _ & b & -> & Hb & Hsh & _). cbn.
    destruct (HF b Hb) as (fs & -> & H1 & _). cbn.
    rewrite (all_facts _ is_not_dispatched db b fs H1 Hsh); eauto.
    intros k e f Hs Hf. destruct f; cbn in *; naive_solver congruence.
  - destruct HS as (_ & _ & -> & _ & b & -> & Hb & Hsh & _). cbn.
    destruct (HF b Hb) as (fs & -> & H1 & H2). cbn. rewrite (unknown_facts db b fs H1 H2 Hsh). eauto.
Qed.

(** ** Appending events *)
Definition fresh_events db (nid : Z → EventId) (n : Z) : Prop :=
  (∀ i, 0 ≤ i < n → semantic_events db !! nid i = None) ∧
  (∀ i j, 0 ≤ i < n → 0 ≤ j < n → nid i = nid j → i = j).

Lemma insert_event_run db k v :
  semantic_events db !! k = None → event_checks v = true →
  operation_in_session db (ev_session_id v) (ev_operation_id v) = true →
  is_Some (sessions db !! ev_session_id v) →
  (∀ j x, semantic_events db !! j = Some x → ev_session_id x = ev_session_id v →
     ev_sequence x < ev_sequence v) →
  insert_event k v db = Ok (tt, with_events (<[k := v]> (semantic_events db)) db).
Proof.
  intros Hk Hck Hop Hs Hlt. unfold insert_event.
  match goal with |- (if ?c then _ else _) = _ => assert (c = true) as ->; [|done] end.
  rewrite !andb_true_iff, !bool_decide_eq_true, tbl_forall_spec. split_and!; try done.
  intros j x Hx. destruct (decide (ev_session_id x = ev_session_id v)) as [E|];
    [|by rewrite bool_decide_true].
  apply orb_true_iff. right. apply bool_decide_eq_true. specialize (Hlt j x Hx E). lia.
Qed.

Lemma insert_events_run nid s id first evs : ∀ off db,
  0 ≤ first → 0 ≤ off → first + off + Z.of_nat (length evs) ≤ i64_max →
  is_Some (sessions db !! s) → operation_in_session db s id = true →
  (∀ ev, ev ∈ evs → kind ev ≠ "" ∧ ∃ t, encode_json (payload ev) = Ok t) →
  (∀ i, off ≤ i < off + Z.of_nat (length evs) → semantic_events db !! nid i = None) →
  (∀ i j, off ≤ i < off + Z.of_nat (length evs) → off ≤ j < off + Z.of_nat (length evs) →
     nid i = nid j → i = j) →
  (∀ j x, semantic_events db !! j = Some x → ev_session_id x = s → ev_sequence x < first + off) →
  ∃ rows, insert_events nid s id first off evs db = Ok (tt, with_events rows db).
Proof.
  induction evs as [|ev evs IH]; intros off db Hf Ho Hmax Hs Hop Hev Hfresh Hinj Hlt; cbn.
  { exists (semantic_events db). by rewrite with_events_id. }
  cbn [length] in *. destruct (Hev ev) as [Hk [t Ht]]; [left|].
  run_tx (apply lift_run, ok_or_ok; apply i64_try_from_Some; split; [reflexivity|];
          unfold i64_min, i64_max in *; lia).
  run_tx (apply lift_run, ok_or_ok; apply checked_add_i64_Some; split; [reflexivity|];
          unfold i64_min, i64_max in *; lia).
  run_tx (apply lift_run; exact Ht).
  set (v := MkEvent s id (first + off) (kind ev) t).
  assert (insert_event (nid off) v db = Ok (tt, with_events (<[nid off := v]> (semantic_events db)) db)) as Hins.
  { apply insert_event_run; try done.
    - apply Hfresh. lia.
    - unfold event_checks. cbn. rewrite !andb_true_iff, Z.leb_le, in_i64_spec, negb_true_iff, String.eqb_neq.
      unfold i64_min, i64_max in *. split_and!; try done; lia. }
  run_tx (exact Hins).
  destruct (IH (off + 1) (with_events (<[nid off := v]> (semantic_events db)) db)) as [rows Hrows];
    [done|lia|lia|done|done|intros x Hx; apply Hev; by right|..].
  - intros i Hi. cbn. rewrite lookup_insert_ne; [apply Hfresh; lia|]. intros E. apply Hinj in E; lia.
  - intros i j Hi Hj. apply Hinj; lia.
  - cbn. intros j x [[<- <-]|[_ Hx]]%lookup_insert_Some Hxs; [cbn; lia|].
    specialize (Hlt j x Hx Hxs). lia.
  - exists rows. done.
Qed.

Lemma append_events_run db nid s id r evs :
  Inv db → sessions db !! s = Some r → operation_in_session db s id = true →
  validate_new_events evs = Ok tt → (∀ ev, ev ∈ evs → ∃ t, encode_json (payload ev) = Ok t) →
  fresh_events db nid (Z.of_nat (length evs)) →
  s_next_event_sequence r + Z.of_nat (length evs) ≤ i64_max →
  ∃ rows, append_events nid s id evs db = Ok (tt, appended_db db s r evs rows) ∧
    Inv (appended_db db s r evs rows).
Proof.
  intros HI Hr Hop Hval Henc [Hfr Hinj] Hmax. pose proof (inv_static _ HI) as HS.
  pose proof (session_nonneg _ _ _ HS Hr) as [_ Hnn].
  assert (is_Some (sessions db !! s)) as Hsome by by eexists.
  destruct (insert_events_run nid s id (s_next_event_sequence r) evs 0 db Hnn) as [rows Hrows];
    rewrite ?Z.add_0_r; [lia|lia|done|done| |done|done| |].
  - intros ev Hin. split; [|by apply Henc]. intros Hk. unfold validate_new_events in Hval.
    destruct (existsb _ evs) eqn:E; [done|].
    assert (existsb (λ e : NewEvent, String.eqb (kind e) "") evs = true); [|congruence].
    apply existsb_exists. exists ev. split; [by apply list_elem_of_In|]. by rewrite Hk.
  - intros j x Hx Hxs. eapply gapless_bounds; [by eapply st_sequences|done|done].
  - exists rows.
    assert (append_events nid s id evs db = Ok (tt, appended_db db s r evs rows)) as E.
    { unfold append_events. run_tx (apply read_run; rewrite Hr; reflexivity).
      run_tx (exact Hrows).
      run_tx (apply lift_run, ok_or_ok; apply i64_try_from_Some; split; [reflexivity|];
              unfold i64_min, i64_max in *; lia).
      run_tx (apply update_session_run; [exact Hr|apply Z.eqb_refl|]).
      { by apply require_run. }
      pose proof (st_session_checks _ HS _ _ Hr) as Hck. unfold session_checks in *. cbn.
      split_bools. rewrite in_i64_spec in *. unfold i64_min, i64_max in *.
      rewrite !andb_true_iff, !in_i64_spec, !Z.leb_le. unfold i64_min, i64_max.
      split_and!; lia. }
    split; [done|]. by apply append_events_inv in E as [? _].
Qed.

(** Ending an operation releases its session. *)
Lemma release_session_run db s r id o' msg :
  Inv db → sessions db !! s = Some r → s_active_operation_id r = Some id →
  release_session s id msg (release_finished_effect_requests id
    (with_operations (<[id := o']> (operations db)) db)) = Ok (tt, ended_db db s r id o').
Proof.
  intros HI Hr Ha. unfold release_session.
  pose proof (proj1 (proj2 (release_tables id (with_operations (<[id := o']> (operations db)) db)))) as Hss.
  run_tx (apply update_session_run; [rewrite Hss; exact Hr|by apply bool_decide_eq_true|by eapply active_checks]).
  rewrite (require_run 1) by done. unfold ended_db. by rewrite Hss.
Qed.

(** ** Dispatching a batch *)
Lemma prepared_effect_total e k m :
  effect_checks e = true → effect_open m e →
  ∃ x, prepared_effect (e_position e) (k, e) = Ok x.
Proof.
  intros Hck (_ & (t & v & Ht & Hv) & _). destruct (stored_status e Hck) as [st Hst].
  destruct (stored_recovery e Hck) as [rc Hrc]. unfold prepared_effect. rewrite Ht. cbn.
  rewrite (require_own_position e Hck). cbn. rewrite Hrc, parse_recovery_as_str. cbn.
  rewrite (decode_Ok _ _ Hv). cbn. rewrite Hst, parse_status_name. cbn.
  unfold effect_checks in Hck. split_bools. unfold from_sql_integer.
  rewrite (proj2 (Z.leb_le _ _)) by done. cbn. eauto.
Qed.

Lemma load_prepared_effects_total db id o b :
  Inv db → operations db !! id = Some o → o_outcome_json o = None → owns db id b →
  ∃ stored, load_prepared_effects id b db = Ok stored.
Proof.
  intros HI Ho Hn Hown. pose proof (inv_static _ HI) as HS.
  destruct (collect_children prepared_effect db b HS) as (xs & Hxs & Hne & _).
  { destruct Hown as (r & ? & _). by eexists. }
  { intros k e He Hb. eapply prepared_effect_total; [by eapply st_effect_checks|].
    eapply open_child; [by apply HI|done..|by rewrite Hb]. }
  exists xs. unfold load_prepared_effects. rewrite (batch_effects_owned _ _ _ Hown), Hxs. by destruct xs.
Qed.

(** The statuses a batch in phase [ph] may be prepared from. *)
Definition preparable (ph : OperationPhase) e : Prop :=
  match ph with
  | EffectIntent => e_status e = "intent_committed"
  | EffectDispatched => e_status e ≠ "intent_committed"
  | _ => False
  end.

Lemma dispatch_row_checks e :
  effect_checks e = true → e_status e = "intent_committed" ∨ e_status e = "dispatch_started" →
  e_dispatch_count e < i64_max → effect_checks (dispatch_row (e_dispatch_count e + 1) e) = true.
Proof.
  intros Hck Hs Hlt. unfold effect_checks in *. cbn.
  destruct Hs as [Hs|Hs]; rewrite Hs in Hck; cbn in Hck; split_bools; rewrite in_i64_spec in *;
    rewrite !andb_true_iff, !in_i64_spec, !Z.leb_le; unfold i64_min, i64_max in *;
    rewrite ?orb_false_r in *; split_and!; try done; try lia; by apply negb_true_iff, String.eqb_neq.
Qed.

Lemma prepare_child_total ph b nt x db e :
  effects db !! pr_effect_id x = Some e → effect_checks e = true → prepared_from e x →
  preparable ph e → e_dispatch_count e < i64_max →
  ∃ r db', prepare_child ph b nt x db = Ok (r, db').
Proof.
  intros He Hck (_ & _ & Hrec & Hs & Hc & _) Hph Hlt.
  assert (0 ≤ e_dispatch_count e) as Hnn by (unfold effect_checks in Hck; split_bools; done).
  assert (e_status e = "intent_committed" ∨ e_status e = "dispatch_started" →
            ∃ r db', dispatch_child b nt x db = Ok (r, db')) as Hdisp.
  { intros Hst. unfold dispatch_child. rewrite <- Hc. eexists _, _.
    run_tx (apply lift_run, ok_or_ok, checked_add_u64_Some; split; [reflexivity|];
            unfold u64_max, i64_max in *; lia).
    run_tx (apply lift_run, ok_or_ok, i64_try_from_Some; split; [reflexivity|lia]).
    run_tx (apply lift_run, ok_or_ok, i64_try_from_Some; split; [reflexivity|lia]).
    run_tx (apply update_effect_run; [exact He|by rewrite Hs, String.eqb_refl, Z.eqb_refl
      |by apply dispatch_row_checks]).
    run_tx (by apply require_run). reflexivity. }
  unfold prepare_child. destruct ph; try done; cbn in Hph; destruct (pr_status x); cbn in Hs; try congruence.
  - apply Hdisp. by left.
  - destruct (pr_recovery x); [apply Hdisp; by right|]. eexists _, _. unfold update_effect_status.
    run_tx (run_tx (apply update_effect_run; [exact He|by rewrite Hs|]); [by apply require_run|]).
    + reflexivity.
    + unfold effect_checks in *. cbn. rewrite Hs in Hck. cbn in Hck. rewrite !andb_true_iff in *.
      split_and!; naive_solver.
  - eexists _, _. reflexivity.
  - eexists _, _. reflexivity.
Qed.

Lemma prepare_children_total ph b nt stored : ∀ db,
  NoDup (pr_effect_id <$> stored) →
  (∀ x, x ∈ stored → ∃ e, effects db !! pr_effect_id x = Some e ∧ effect_checks e = true ∧
     prepared_from e x ∧ preparable ph e ∧ e_dispatch_count e < i64_max) →
  ∃ r db', prepare_children ph b nt stored db = Ok (r, db').
Proof.
  induction stored as [|x stored IH]; intros db HN HS; [by eexists _, _|].
  cbn in HN. apply NoDup_cons in HN as [Hx HN].
  destruct (HS x) as (e & He & Hck & HP & Hph & Hlt); [left|].
  destruct (prepare_child_total ph b nt x db e) as (r1 & db1 & H1); [done..|].
  destruct (prepare_child_ok _ _ _ _ _ _ _ _ He Hck HP H1) as (e' & -> & _).
  destruct (IH (with_effects (<[pr_effect_id x := e']> (effects db)) db) HN) as (r2 & db2 & H2).
  { intros y Hy. destruct (HS y) as (ey & Hey & ?); [by right|]. exists ey. cbn.
    rewrite lookup_insert_ne; [done|]. intros E. apply Hx. rewrite E. by apply list_elem_of_fmap_2. }
  eexists _, db2. cbn. run_tx (exact H1). run_tx (exact H2). reflexivity.
Qed.

Lemma no_pending_started db ph b nt id stored view effs :
  Loaded db id b stored → Prepared db ph b nt stored [] view effs →
  existsb (λ x, bool_decide (pr_status x = DispatchStarted)) view = false.
Proof.
  intros HL HP. destruct (existsb _ view) eqn:E; [|done].
  apply existsb_exists in E as (x' & Hx' & Hs%bool_decide_eq_true_1). apply list_elem_of_In in Hx'.
  destruct (pd_view _ _ _ _ _ _ _ _ HP x' Hx') as (Hid & e' & He' & Hst).
  apply list_elem_of_fmap in Hid as (x & Heq & Hx).
  destruct (pd_child _ _ _ _ _ _ _ _ HP x Hx) as (e & e2 & inv & x2 & _ & He2 & (_ & _ & _ & _ & Hi) & _ & Hin).
  rewrite <- Heq, He' in He2. injection He2 as <-.
  destruct inv; [by apply elem_of_nil in Hin|]. destruct Hi as [Hi _]. by rewrite Hst, Hs in Hi.
Qed.

Lemma prepare_effect_batch_run db id o ph b :
  Inv db → operations db !! id = Some o → o_phase o = as_str ph →
  ph = EffectIntent ∨ ph = EffectDispatched → o_current_effect_batch_id o = Some b →
  cancellation_requested id db = false → o_transition_version o < i64_max →
  children db b (λ e, e_dispatch_count e < i64_max) →
  ∃ start db', prepare_effect_batch id (o_transition_version o) db = Ok (start, db').
Proof.
  intros HI Ho Hp Hph Hb Hreq Hlt Hcnt. pose proof (inv_static _ HI) as HS.
  assert (o_outcome_json o = None ∧ owns db id b ∧ children db b (preparable ph)) as (Hn & Hown & Hprep).
  { pose proof (op_shape_at _ _ _ _ (inv_ops _ HI _ _ Ho) Hp) as Hsh.
    destruct Hph as [-> | ->]; destruct Hsh as (_ & _ & _ & ? & b' & Hb' & ? & Hc & _);
      assert (b' = b) as -> by congruence; split_and!; done. }
  pose proof (stored_checks _ _ _ HI Ho) as Hck.
  destruct (load_prepared_effects_total db id o b HI Ho Hn Hown) as [stored Hst].
  pose proof (load_prepared_effects_ok _ _ _ _ Hst) as HL.
  destruct (prepare_children_total ph b (o_transition_version o + 1) stored db) as (r & db1 & Hch).
  { apply HL. }
  { intros x Hx. destruct (ld_from _ _ _ _ HL x Hx) as (e & He & Hbe & HP). exists e.
    split_and!; try done; [by eapply st_effect_checks|by apply (Hprep _ _ He)|by apply (Hcnt _ _ He)]. }
  assert (∀ x, x ∈ stored → ∃ e, effects db !! pr_effect_id x = Some e ∧ effect_checks e = true ∧
            prepared_from e x) as Hfrom.
  { intros x Hx. destruct (ld_from _ _ _ _ HL x Hx) as (e & He & _ & ?). exists e.
    split_and!; try done. by eapply st_effect_checks. }
  destruct (prepare_children_ok _ _ _ _ _ _ _ (ld_NoDup _ _ _ _ HL) Hfrom Hch) as (effs & -> & HP).
  assert (∃ start db', dispatch_batch id (o_transition_version o) (o_transition_version o + 1) ph b db
            = Ok (start, db')) as (start & db' & Hd).
  { unfold dispatch_batch. destruct r as [pend view]. cbn [fst snd] in *. destruct pend as [|p ps].
    - assert (ph = EffectDispatched) as ->.
      { destruct Hph as [-> | ->]; [|done]. destruct stored as [|x xs]; [by destruct (ld_nonempty _ _ _ _ HL)|].
        destruct (pd_child _ _ _ _ _ _ _ _ HP x) as (e & e' & inv & x' & _ & _ & (Hst' & _ & _ & _ & Hi) & _ & Hin);
          [left|]. destruct inv; [by apply elem_of_nil in Hin|]. inversion Hst'; subst. by destruct Hi. }
      assert (dispatched_at (o_transition_version o) b o = true) as Hat by by apply dispatched_at_spec.
      eexists _, _. run_tx (by apply read_run). run_tx (exact Hch). cbn [fst snd].
      unfold finish_batch_without_invocations. rewrite (no_pending_started _ _ _ _ _ _ _ _ HL HP).
      run_tx (unfold transition_finished_batch; run_tx (apply update_operation_run; [exact Ho|exact Hat|]);
              [by apply require_run|]).
      + reflexivity.
      + eapply next_version_checks; [done..| |done].
        destruct (existsb _ _); [by exists OutcomeUnknown|by exists NeedDecision].
    - eexists _, _. run_tx (by apply read_run). run_tx (exact Hch). cbn [fst snd].
      run_tx (apply update_operation_run; [exact Ho
        |by rewrite Z.eqb_refl, Hp, String.eqb_refl, bool_decide_true|]).
      + run_tx (by apply require_run). reflexivity.
      + eapply next_version_checks; [done..|by exists EffectDispatched|done]. }
  exists start, db'. unfold prepare_effect_batch.
  run_tx (apply lift_run, ok_or_ok, checked_add_i64_Some; split; [reflexivity|]).
  - run_tx done. rewrite Hreq.
    run_tx (apply read_run; unfold load_active_batch; rewrite Ho, Z.eqb_refl, Hb, Hp; cbn;
            rewrite from_database_as_str; reflexivity).
    by destruct Hph as [-> | ->].
  - unfold operation_checks in Hck. split_bools. rewrite in_i64_spec in *. unfold i64_min, i64_max in *. lia.
Qed.
End progress.
