(* ===== verification/ActivationTheorems.v ===== *)
(** * Activation: one active operation per session, in order of admission *)
From S2P Require Import Prelude Json State Schema SchemaFacts Admission OperationStore EffectStore.
From S2P Require Import Cancellation Runtime Drive Concrete Invariant AdmissionInv OperationInv EffectInv.
From S2P Require Import DispatchInv Steps DriveSound Lifetime AdmissionTheorems Progress.
Section activation_theorems.
Context `{KS : KernelSerde} `{!KernelSerdeLaws}.
Implicit Types (db : Database) (o : OperationRow).

Lemma active_phase_spec db id o :
  op_inv db id o → active_phase o = true →
  ∃ p, o_phase o = as_str p ∧ is_cancellable p = true ∧ op_shape db id o p.
Proof.
  intros Hop Ha. destruct (phase_of _ _ _ Hop) as (p & Hp & HS). exists p.
  by rewrite <- (active_phase_as_str o p Hp).
Qed.

Lemma active_shape db id o p :
  op_shape db id o p → is_cancellable p = true →
  is_Some (o_manifest_json o) ∧ o_outcome_json o = None.
Proof. intros HS Hp. destruct p; try done; cbn in HS; naive_solver. Qed.

(** An operation is finished, queued or active. *)
Lemma operation_cases db id o :
  op_inv db id o → is_Some (o_outcome_json o) ∨ queued o = true ∨ active_phase o = true.
Proof.
  intros Hop. destruct (phase_of _ _ _ Hop) as (p & Hp & HS).
  rewrite (queued_as_str o p Hp), (active_phase_as_str o p Hp).
  destruct p; cbn in HS; try (by right; left); try (by right; right); left; naive_solver.
Qed.

Lemma load_active_query_total db a id o :
  Inv db → operations db !! id = Some o → is_Some (o_manifest_json o) →
  ∃ act, load_active_query a (o_session_id o) id db = Ok act ∧
    a_agent_id act = a ∧ a_operation_id act = id ∧ a_newly_activated act = false ∧
    command_id (a_command act) = o_command_id o ∧ o_phase o = as_str (a_phase act) ∧
    a_transition_version act = o_transition_version o ∧
    a_input_effect_batch_id act = o_input_effect_batch_id o ∧ manifest_at id (a_manifest act) db.
Proof.
  intros HI Ho [tm Htm]. destruct (load_operation_total db id o HI Ho)
    as (st & Hst & Hc & Hp & Hv & _ & Hin & Hm & _).
  unfold load_active_query. rewrite Hst. cbn. destruct (manifest st) as [m|] eqn:Em.
  - cbn. eexists. split; [done|]. cbn. split_and!; try done.
    apply transpose_decode_Some in Hm as (x & Hx & Hd). by exists o, x.
  - rewrite Htm in Hm. cbn in Hm. apply result_bind_ok in Hm as (? & _ & ?). done.
Qed.

(** A session that owns an active operation resumes it: activation with any
    manifest returns that operation with the manifest it was frozen with, and
    changes nothing. *)
Theorem activate_resumes db s r id m :
  reachable db → sessions db !! s = Some r → s_active_operation_id r = Some id →
  ∃ o act, operations db !! id = Some o ∧ o_session_id o = s ∧ active_phase o = true ∧
    immediate (activate s m) db = (Ok (Some act), db) ∧
    a_operation_id act = id ∧ a_newly_activated act = false ∧
    o_phase o = as_str (a_phase act) ∧ a_transition_version act = o_transition_version o ∧
    manifest_at id (a_manifest act) db.
Proof.
  intros HI%reachable_inv Hr Ha. destruct (inv_sessions _ HI _ _ Hr) as [HA _].
  destruct (proj1 (HA id) Ha) as (o & Ho & Hs & Hact). subst s.
  pose proof (inv_ops _ HI _ _ Ho) as Hop.
  destruct (active_phase_spec _ _ _ Hop Hact) as (p & Hp & Hcan & HS).
  destruct (active_shape _ _ _ _ HS Hcan) as [Hm _].
  destruct (load_active_query_total db (s_agent_id r) id o HI Ho Hm)
    as (act & Hq & _ & Hid & Hnew & _ & Hph & Hv & _ & Hman).
  exists o, act. split_and!; try done. apply immediate_ok; [done|]. unfold activate.
  run_tx (apply read_run; by rewrite Hr). rewrite Ha. by run_tx (by apply read_run).
Qed.

(** ** The first queued operation *)
Lemma queued_operations_spec db s :
  match queued_operations s db with
  | [] => ∀ j o, operations db !! j = Some o → o_session_id o = s → queued o = false
  | (k, x) :: _ => operations db !! k = Some x ∧ o_session_id x = s ∧ queued x = true ∧
      ∀ j o, operations db !! j = Some o → o_session_id o = s → queued o = true →
        o_position x ≤ o_position o
  end.
Proof.
  assert (∀ j o, (j, o) ∈ queued_operations s db ↔
            operations db !! j = Some o ∧ o_session_id o = s ∧ queued o = true) as Hin.
  { intros j o. unfold queued_operations, queued.
    rewrite elem_of_order_by, elem_of_select, andb_true_iff, bool_decide_eq_true. done. }
  destruct (queued_operations s db) as [|[k x] rest] eqn:E.
  - intros j o Ho Hs. destruct (queued o) eqn:Hq; [|done].
    assert ((j, o) ∈ @nil (OperationId * OperationRow)) as He by by apply Hin.
    by apply elem_of_nil in He.
  - assert ((k, x) ∈ (k, x) :: rest) as Hkx by left. apply Hin in Hkx as (? & ? & ?).
    split_and!; try done. intros j o Ho Hs Hn.
    apply (order_by_head (λ ko : OperationId * OperationRow, o_position ko.2) _ _ _ E (j, o)).
    rewrite <- elem_of_order_by with (key := λ ko, o_position ko.2).
    unfold queued_operations in E. rewrite E. by apply Hin.
Qed.

Lemma activated_checks o t :
  operation_checks o = true → o_transition_version o < i64_max →
  operation_checks (activated_row t o) = true.
Proof.
  intros Hck Hv. unfold operation_checks in *. cbn. split_bools. rewrite in_i64_spec in *.
  rewrite !andb_true_iff, !in_i64_spec, !Z.leb_le, !Z.ltb_lt. unfold i64_min, i64_max in *.
  split_and!; try done; lia.
Qed.

Definition activated_db db s r id o t : Database :=
  with_sessions (<[s := set_active (Some id) r]> (sessions db))
    (with_operations (<[id := activated_row t o]> (operations db)) db).

Lemma activate_queued_run db s r (m : RuntimeManifest) t id o rest :
  Inv db → sessions db !! s = Some r → s_active_operation_id r = None →
  encode_json m = Ok t → queued_operations s db = (id, o) :: rest →
  o_transition_version o < i64_max →
  activate_queued s m db = Ok (Some id, activated_db db s r id o t) ∧
  Inv (activated_db db s r id o t).
Proof.
  intros HI Hr Hna Ht EQ Hv. pose proof (queued_operations_spec db s) as HQ. rewrite EQ in HQ.
  destruct HQ as (Ho & Hs & Hq & Hmin). pose proof (inv_ops _ HI _ _ Ho) as Hop.
  assert (o_phase o = as_str Queued) as Hp by (by apply String.eqb_eq).
  destruct (op_shape_at _ _ _ _ Hop Hp) as (Hman & _ & _ & _ & Hout & _).
  assert (operation_checks (activated_row t o) = true) as Hck.
  { apply activated_checks; [by eapply st_operation_checks; [apply HI|]|done]. }
  assert (session_checks (set_active (Some id) r) = true) as Hsck.
  { by eapply (st_session_checks _ (inv_static _ HI)) in Hr. }
  split; [|by eapply activated_inv].
  unfold activate_queued. run_tx done. rewrite EQ.
  run_tx (by apply lift_run).
  run_tx (apply update_operation_run; [exact Ho|by rewrite Hp, Hman|exact Hck]).
  run_tx (by apply require_run).
  rewrite (release_unfinished id _ (activated_row t o)); [|apply lookup_insert_eq|done].
  run_tx (apply update_session_run; [exact Hr|by apply bool_decide_eq_true|exact Hsck]).
  run_tx (by apply require_run). done.
Qed.

(** A session without an active operation activates in order of admission.
    Either every operation of the session has an outcome and nothing happens,
    or the queued operation with the lowest position is activated: every
    earlier operation has an outcome and every later one is queued, the
    operation freezes the given manifest, moves to its first decision and
    becomes the session's active operation. *)
Theorem activate_in_order db s r (m : RuntimeManifest) t :
  reachable db → sessions db !! s = Some r → s_active_operation_id r = None →
  encode_json m = Ok t →
  (∀ id o, operations db !! id = Some o → o_session_id o = s → queued o = true →
     o_transition_version o < i64_max) →
  ((∀ id o, operations db !! id = Some o → o_session_id o = s → is_Some (o_outcome_json o)) ∧
   immediate (activate s m) db = (Ok None, db)) ∨
  ∃ id o act, operations db !! id = Some o ∧ o_session_id o = s ∧ queued o = true ∧
    (∀ j x, operations db !! j = Some x → o_session_id x = s →
       (o_position x < o_position o → is_Some (o_outcome_json x)) ∧
       (o_position o < o_position x → queued x = true)) ∧
    immediate (activate s m) db
    = (Ok (Some act), with_sessions (<[s := set_active (Some id) r]> (sessions db))
         (with_operations (<[id := activated_row t o]> (operations db)) db)) ∧
    a_operation_id act = id ∧ a_newly_activated act = true ∧
    a_manifest act = m ∧ a_phase act = NeedDecision.
Proof.
  intros HI%reachable_inv Hr Hna Ht Hver. destruct (inv_sessions _ HI _ _ Hr) as [HA HQ].
  assert (∀ j x, operations db !! j = Some x → o_session_id x = s →
            is_Some (o_outcome_json x) ∨ queued x = true) as Hcases.
  { intros j x Hx Hs. destruct (operation_cases _ _ _ (inv_ops _ HI _ _ Hx)) as [|[|Hact]]; auto.
    assert (s_active_operation_id r = Some j) by (apply HA; eauto). congruence. }
  pose proof (queued_operations_spec db s) as HF.
  destruct (queued_operations s db) as [|[id o] rest] eqn:EQ.
  - left. split; [intros j x Hx Hs; destruct (Hcases j x Hx Hs) as [|Hq]; [done|];
      rewrite (HF j x Hx Hs) in Hq; done|].
    apply immediate_ok; [done|]. unfold activate. run_tx (apply read_run; by rewrite Hr).
    rewrite Hna. unfold activate_queued. run_tx (by run_tx done; rewrite EQ). done.
  - right. destruct HF as (Ho & Hs & Hq & Hmin).
    destruct (activate_queued_run db s r m t id o rest HI Hr Hna Ht EQ (Hver _ _ Ho Hs Hq)) as [Hrun HI'].
    set (db' := activated_db db s r id o t) in *.
    assert (operations db' !! id = Some (activated_row t o)) as Ho' by apply lookup_insert_eq.
    destruct (load_active_query_total db' (s_agent_id r) id _ HI' Ho' ltac:(by eexists))
      as (act & Hact & _ & Hid & _ & _ & Hph & _ & _ & (o2 & tm & Ho2 & Htm & Hd)).
    rewrite Ho' in Ho2. injection Ho2 as <-. injection Htm as <-.
    assert (a_manifest act = m) as Hm.
    { pose proof (encode_decode_json _ _ Ht) as He. rewrite (decode_Ok _ _ Hd) in He. congruence. }
    exists id, o. eexists. split_and!; [done..| | | | | |].
    + intros j x Hx Hsx. split; intros Hlt; [|eapply (HQ id o j x); eauto].
      destruct (Hcases j x Hx Hsx) as [|Hqx]; [done|]. pose proof (Hmin j x Hx Hsx Hqx). lia.
    + apply immediate_ok; [exact HI'|]. unfold activate. run_tx (apply read_run; by rewrite Hr).
      rewrite Hna. run_tx (exact Hrun).
      run_tx (apply read_run; rewrite <- Hs; exact Hact). reflexivity.
    + exact Hid.
    + done.
    + exact Hm.
    + cbn in Hph |- *. change "need_decision" with (as_str NeedDecision) in Hph.
      by destruct (a_phase act).
Qed.
End activation_theorems.

(** ** Witnesses *)
Import Scenario.

Lemma activate_resumes_witness :
  ∃ o act, operations Facts.blocked_db !! op1 = Some o ∧
    immediate (activate session manifest) Facts.blocked_db = (Ok (Some act), Facts.blocked_db) ∧
    a_operation_id act = op1.
Proof.
  destruct (row_that (sessions Facts.blocked_db !! session)
    (λ r, bool_decide (s_active_operation_id r = Some op1))) as (r & Hr & Ha%bool_decide_eq_true_1);
    [vm_compute; reflexivity|].
  destruct (activate_resumes Facts.blocked_db session r op1 manifest Facts.blocked_reachable Hr Ha)
    as (o & act & Ho & _ & _ & Hi & Hid & _).
  exists o, act. exact (conj Ho (conj Hi Hid)).
Defined.

Lemma activate_in_order_witness :
  ∃ id o act, operations Facts.done_db !! id = Some o ∧ queued o = true ∧
    (immediate (activate session manifest) Facts.done_db).1 = Ok (Some act) ∧
    a_operation_id act = id.
Proof.
  destruct (row_that (sessions Facts.done_db !! session)
    (λ r, bool_decide (s_active_operation_id r = None))) as (r & Hr & Ha%bool_decide_eq_true_1);
    [vm_compute; reflexivity|].
  destruct (row_that (operations Facts.done_db !! op2)
    (λ o, bool_decide (o_session_id o = session) && bool_decide (o_outcome_json o = None)))
    as (o2 & Ho2 & Hb); [vm_compute; reflexivity|]. split_bools.
  assert (tbl_forall (λ _ o, o_transition_version o <? i64_max) (operations Facts.done_db) = true) as Hall;
    [vm_compute; reflexivity|].
  destruct (activate_in_order Facts.done_db session r manifest (DocManifest manifest)
    Facts.done_reachable Hr Ha eq_refl) as [[Hfin _]|(id & o & act & Ho & _ & Hq & _ & Hi & Hid & _)].
  - intros id o Ho _ _. apply Z.ltb_lt. exact (proj1 (tbl_forall_spec _ _) Hall id o Ho).
  - exfalso. destruct (Hfin op2 o2 Ho2) as [t Ht]; [assumption|]. congruence.
  - exists id, o, act. rewrite Hi. exact (conj Ho (conj Hq (conj eq_refl Hid))).
Defined.
