(* ===== verification/CancellationTheorems.v ===== *)
(** * Cancellation: requests are durable, block progress and win *)
From S2P Require Import Prelude Json State Schema SchemaFacts Admission OperationStore EffectStore.
From S2P Require Import Cancellation Runtime Drive Concrete Invariant AdmissionInv OperationInv EffectInv.
From S2P Require Import DispatchInv Steps DriveSound Lifetime AdmissionTheorems Progress ActivationTheorems.
Section cancellation_theorems.
Context `{KS : KernelSerde} `{!KernelSerdeLaws}.
Implicit Types (db : Database) (o : OperationRow).

(** ** Requests *)
Lemma request_cancellation_ok s id k db b db1 :
  request_cancellation s id k db = Ok (b, db1) →
  cancellation_requests db1 !! k = Some (MkCancellation s id).
Proof.
  intros E. unfold request_cancellation in E. inv_tx.
  destruct (cancellation_requests db !! k) as [[s' id']|] eqn:Ek.
  - cbn in *. destruct (_ || _) eqn:Eb; inv_tx. apply orb_false_iff in Eb as [E1 E2].
    apply bool_decide_eq_false_1, dec_stable in E1, E2. by subst.
  - inv_tx. repeat (case_match; inv_tx; try done). cbn. apply lookup_insert_eq.
Qed.

Lemma request_again db s id k s' id' :
  Inv db → cancellation_requests db !! k = Some (MkCancellation s id) →
  immediate (request_cancellation s' id' k) db =
  if decide (s' = s ∧ id' = id)
  then (Ok (match sessions db !! s with
            | Some r => bool_decide (s_active_operation_id r = Some id)
            | None => false
            end), db)
  else (Err (CancellationConflict k id), db).
Proof.
  intros HI Hk. destruct (inv_cancel _ HI _ _ Hk) as (o & Ho & Hs & _). cbn in *.
  destruct (st_operation _ (inv_static _ HI) _ _ Ho) as ([r Hr] & _). rewrite Hs in Hr.
  case_decide as Hd.
  - destruct Hd as [-> ->]. apply immediate_ok; [done|]. unfold request_cancellation.
    run_tx done. rewrite Hk. cbn. rewrite !bool_decide_false by (by intros ?). cbn.
    run_tx (apply read_run; by rewrite Hr). by rewrite Hr.
  - apply immediate_err. unfold request_cancellation. run_tx done. rewrite Hk. cbn.
    replace (bool_decide (s ≠ s') || bool_decide (id ≠ id')) with true; [done|].
    symmetry. apply orb_true_iff. rewrite !bool_decide_eq_true.
    destruct (decide (s = s')) as [->|]; [|by left]. right. naive_solver.
Qed.

(** A cancellation request is durable and idempotent: once accepted, and after
    any later kernel steps, repeating it succeeds and changes nothing (its
    result tells whether the operation is still the active one, and so must be
    signalled), and reusing its identity for another operation or session is
    refused with the operation it belongs to. *)
Theorem request_cancellation_idempotent db s id k b db1 db2 s' id' :
  reachable db → immediate (request_cancellation s id k) db = (Ok b, db1) → rtc kstep db1 db2 →
  immediate (request_cancellation s' id' k) db2 =
  if decide (s' = s ∧ id' = id)
  then (Ok (match sessions db2 !! s with
            | Some r => bool_decide (s_active_operation_id r = Some id)
            | None => false
            end), db2)
  else (Err (CancellationConflict k id), db2).
Proof.
  intros HI%reachable_inv E HS.
  assert (Inv db1) as HI1 by (eapply (kstep_inv (G:=unguarded)); [exact HI|by eapply k_request_cancellation]).
  apply immediate_cases in E as [(a & _ & E & _)|(? & ? & _)]; [|done].
  apply request_cancellation_ok in E.
  destruct (ev_cancellations _ _ (ksteps_evolve _ _ HI1 HS) _ _ E) as (c & Hc & <-).
  apply request_again; [by eapply ksteps_inv|done].
Qed.

Lemma unfinished_phase db id o :
  op_inv db id o → o_outcome_json o = None → queued o = true ∨ active_phase o = true.
Proof. intros Hop Hn. destruct (operation_cases _ _ _ Hop) as [[? ?]|[|]]; [congruence|auto..]. Qed.

(** A fresh cancellation request is accepted exactly when the operation has no
    outcome yet; then only the request row is written. *)
Theorem request_cancellation_accepts db k id o :
  reachable db → cancellation_requests db !! k = None → operations db !! id = Some o →
  immediate (request_cancellation (o_session_id o) id k) db =
  if decide (o_outcome_json o = None)
  then (Ok true, with_cancellations
                   (<[k := MkCancellation (o_session_id o) id]> (cancellation_requests db)) db)
  else (Err (OperationNotCancellable id), db).
Proof.
  intros HI%reachable_inv Hk Ho. pose proof (inv_ops _ HI _ _ Ho) as Hop.
  destruct (st_operation _ (inv_static _ HI) _ _ Ho) as ([r Hr] & _).
  destruct (phase_of _ _ _ Hop) as (p & Hp & _).
  pose proof (outcome_none_iff _ _ _ _ Hop Hp) as Hiff.
  destruct (inv_sessions _ HI _ _ Hr) as [HA _]. specialize (HA id).
  assert (request_cancellation (o_session_id o) id k db =
    if bool_decide (p ≠ Queued) &&
       (bool_decide (s_active_operation_id r ≠ Some id) || negb (is_cancellable p))
    then Err (OperationNotCancellable id)
    else Ok (true, with_cancellations
               (<[k := MkCancellation (o_session_id o) id]> (cancellation_requests db)) db)) as E.
  { unfold request_cancellation. run_tx done. rewrite Hk. run_tx done.
    rewrite Ho, decide_True, Hr by done. rewrite Hp.
    run_tx (apply lift_run, from_database_as_str). destruct (_ && _); [done|].
    assert (operation_in_session db (o_session_id o) id = true) as Hin.
    { apply operation_in_session_spec. eauto. }
    erewrite tx_run; [done|]. unfold insert_cancellation. cbn. by rewrite Hk, Hin. }
  destruct (decide (o_outcome_json o = None)) as [Hn|Hn].
  - apply immediate_ok; [by eapply requested_inv|]. rewrite E.
    destruct (proj1 Hiff Hn) as [->|Hc]; [done|].
    assert (s_active_operation_id r = Some id) as Ha.
    { apply HA. exists o. split_and!; try done. by rewrite (active_phase_as_str o p). }
    rewrite Hc, Ha, (bool_decide_false (Some id ≠ Some id)) by (by intros ?). by rewrite andb_false_r.
  - apply immediate_err. rewrite E. rewrite bool_decide_true by (intros ->; apply Hn, Hiff; by left).
    destruct (is_cancellable p); [destruct Hn; apply Hiff; by right|]. by rewrite orb_true_r.
Qed.

(** Once a cancellation is requested, no transaction makes further progress on
    the operation: committing a decision, committing an effect intent,
    dispatching a batch, finishing an attempt and abandoning an unknown effect
    all leave the database as it is, whatever they are given. *)
Theorem cancellation_blocks_progress db id :
  cancellation_requested id db = true →
  (∀ nid s n d, (immediate (commit_decision nid s id n d) db).2 = db) ∧
  (∀ nb ne n i, (immediate (commit_effect_batch_intent nb ne id n i) db).2 = db) ∧
  (∀ n, (immediate (prepare_effect_batch id n) db).2 = db) ∧
  (∀ b n, (immediate (finish_effect_batch_attempt id b n) db).2 = db) ∧
  (∀ nid s n hw ab,
     immediate (commit_unknown_effect_abandonment nid s id n hw ab) db
     = (Err (CancellationPending id), db)).
Proof.
  intros Hc.
  assert (∀ A (m : Tx A), (∀ a db', m db = Ok (a, db') → db' = db) → (immediate m db).2 = db) as Hm.
  { intros A m Hm. destruct (immediate m db) as [r db'] eqn:E.
    apply immediate_cases in E as [(a & _ & E & _)|(? & _ & E)]; cbn; eauto. }
  split_and!; [..|intros; apply immediate_err];
    [intros nid s n d|intros nb ne n i|intros n|intros b n|]; try (apply Hm; intros a db' E).
  - unfold commit_decision in E. inv_tx. rewrite Hc in *. by inv_tx.
  - unfold commit_effect_batch_intent in E. destruct (nb_effects i); inv_tx. rewrite Hc in *.
    by inv_tx.
  - unfold prepare_effect_batch in E. inv_tx. rewrite Hc in *. by inv_tx.
  - unfold finish_effect_batch_attempt in E. inv_tx. rewrite Hc in *. by inv_tx.
  - unfold commit_unknown_effect_abandonment. run_tx done. apply tx_run_err. by rewrite Hc.
Qed.

(** Cancellation wins: an operation whose cancellation was requested, whatever
    happens later, ends only as cancelled. *)
Theorem cancellation_wins db db' id o t :
  reachable db → cancellation_requested id db = true → rtc kstep db db' →
  operations db' !! id = Some o → o_outcome_json o = Some t →
  o_phase o = "cancelled" ∧ decodes t OutcomeCancelled.
Proof.
  intros HI%reachable_inv (k & c & Hk & Hc)%cancellation_requested_spec HS Ho Ht.
  assert (Inv db') as HI' by by eapply ksteps_inv.
  destruct (ev_cancellations _ _ (ksteps_evolve _ _ HI HS) _ _ Hk) as (c' & Hk' & <-).
  destruct (inv_cancel _ HI' _ _ Hk') as (o' & Ho' & _ & Hout). rewrite Hc, Ho in Ho'. simplify_eq.
  destruct Hout as [?|Hp]; [congruence|]. split; [done|].
  destruct (op_shape_at _ _ _ Cancelled (inv_ops _ HI' _ _ Ho) Hp)
    as (_ & _ & _ & _ & (t' & x & ? & Hd & Hx) & _). simplify_eq. by destruct x.
Qed.

(** ** Closing a requested cancellation *)
Lemma close_if_dispatched_run db id o st :
  Inv db → operations db !! id = Some o → reads_as o st → is_cancellable (phase st) = true →
  o_transition_version o < i64_max →
  ∃ p db' o', close_if_dispatched id st db
      = Ok (p, o_transition_version o', o_current_effect_batch_id o', o_input_effect_batch_id o', db') ∧
    Inv db' ∧ operations db' !! id = Some o' ∧ o_phase o' = as_str p ∧ p ≠ EffectDispatched ∧
    is_cancellable p = true ∧ o_manifest_json o' = o_manifest_json o ∧ sessions db' = sessions db.
Proof.
  intros HI Ho (_ & Hp & Hv & Hcur & Hin & _) Hc Hlt. unfold close_if_dispatched.
  rewrite Hv, Hcur, Hin.
  destruct (decide (phase st = EffectDispatched)) as [Hd|Hnd].
  - rewrite Hd in *. pose proof (op_shape_at _ _ _ _ (inv_ops _ HI _ _ Ho) Hp) as HS.
    destruct HS as (_ & _ & Hi & _ & b & Hb & _).
    assert (dispatched_at (o_transition_version o) b o = true) as Hat by by apply dispatched_at_spec.
    destruct (close_dispatched_batch_run db id o b HI Ho Hat Hlt) as (blocked & Hrun & _).
    pose proof (close_dispatched_batch_inv _ _ _ _ _ _ HI Hrun) as HI'.
    eexists (if blocked then OutcomeUnknown else NeedDecision), _, (finished_batch_row b blocked o).
    split_and!.
    + rewrite Hb. run_tx (by apply lift_run). run_tx (exact Hrun).
      run_tx (apply lift_run, ok_or_ok, checked_add_i64_Some; split; [reflexivity|]).
      { destruct blocked; cbn; rewrite ?Hi; reflexivity. }
      pose proof (stored_checks _ _ _ HI Ho) as Hck. unfold operation_checks in Hck. split_bools.
      rewrite in_i64_spec in *. lia.
    + done.
    + cbn. apply lookup_insert_eq.
    + by destruct blocked.
    + by destruct blocked.
    + by destruct blocked.
    + done.
    + done.
  - exists (phase st), db, o. split_and!; try done. by destruct (phase st).
Qed.

Lemma no_child_in_flight db id o p k e :
  Inv db → operations db !! id = Some o → o_phase o = as_str p → is_cancellable p = true →
  p ≠ EffectDispatched → effects db !! k = Some e → owns db id (e_batch_id e) →
  e_status e ≠ "dispatch_started".
Proof.
  intros HI Ho Hp Hc Hnd He Hown. pose proof (op_shape_at _ _ _ _ (inv_ops _ HI _ _ Ho) Hp) as HS.
  assert (∀ b, settled_except db id (Some b) → b ≠ e_batch_id e → e_status e = "settled") as Hset.
  { intros b Hse Hne. by eapply (Hse (e_batch_id e)); [|congruence|..]. }
  destruct p; try done; cbn in HS.
  - destruct HS as (_ & _ & _ & Hse & _). rewrite (Hse (e_batch_id e) Hown ltac:(done) k e He eq_refl). done.
  - destruct HS as (_ & _ & _ & _ & b & _ & _ & Hsh & Hse).
    destruct (decide (b = e_batch_id e)) as [->|Hne]; [by rewrite (Hsh k e)|by rewrite (Hset b)].
  - destruct HS as (_ & _ & _ & _ & b & _ & _ & [Hsh _] & Hse).
    destruct (decide (b = e_batch_id e)) as [->|Hne]; [|by rewrite (Hset b)].
    by destruct (Hsh k e He eq_refl) as [-> | ->].
Qed.

(** A requested cancellation of the active operation can always be closed: the
    load succeeds, and afterwards the operation is at the version the load
    reports and unfinished, the history is at the reported mark, the reported
    manifest is the frozen one, and no effect of the operation is in flight any
    more. *)
Theorem requested_cancellation_loads db s r id o :
  reachable db → sessions db !! s = Some r → s_active_operation_id r = Some id →
  cancellation_requested id db = true →
  operations db !! id = Some o → o_transition_version o < i64_max →
  ∃ pc db' o', immediate (load_requested_cancellation s id) db = (Ok (Some pc), db') ∧
    operations db' !! id = Some o' ∧ o_transition_version o' = pc_transition_version pc ∧
    o_outcome_json o' = None ∧ sessions db' = sessions db ∧
    pc_event_high_water pc = s_next_event_sequence r ∧ manifest_at id (pc_manifest pc) db' ∧
    (∀ k e, effects db' !! k = Some e → owns db' id (e_batch_id e) →
       e_status e ≠ "dispatch_started").
Proof.
  intros HI%reachable_inv Hr Ha Hreq Ho Hlt. destruct (inv_sessions _ HI _ _ Hr) as [HA _].
  destruct (proj1 (HA id) Ha) as (o1 & Ho1 & Hs & Hact). simplify_eq.
  pose proof (inv_ops _ HI _ _ Ho) as Hop.
  destruct (active_phase_spec _ _ _ Hop Hact) as (p0 & Hp0 & Hcan & HS0).
  destruct (active_shape _ _ _ _ HS0 Hcan) as [[tm Htm] Hnone].
  destruct (load_operation_total db id o HI Ho) as (st & Hst & Hreads).
  pose proof Hreads as (_ & Hph & _ & _ & _ & Hman & _ & Hout).
  assert (phase st = p0) as Hph0 by (rewrite Hp0 in Hph; by destruct (phase st), p0).
  destruct (manifest st) as [m|] eqn:Em;
    [|by rewrite Htm in Hman; cbn in Hman; apply result_bind_ok in Hman as (? & _ & ?)].
  assert (outcome st = None) as Hno by (rewrite Hnone in Hout; cbn in Hout; congruence).
  destruct (close_if_dispatched_run db id o st HI Ho Hreads) as
    (p & db' & o' & Hclose & HI' & Ho' & Hp & Hnd & Hc & Hm' & Hsess); [by rewrite Hph0|done|].
  assert (manifest_at id m db') as Hmat.
  { apply transpose_decode_Some in Hman as (x & Hx & Hd). exists o', x. by rewrite Hm'. }
  destruct (load_cancellation_effect_batch_total db' id o' p m HI' Ho' Hp Hc Hnd Hmat) as [eb Heb].
  rewrite <- Hsess in Hr.
  destruct (load_event_page_ok db' (o_session_id o) r START HI' Hr) as (page & Hpage & Hcur & _).
  { split; [done|]. by eapply session_nonneg; [apply HI'|]. }
  eexists _, db', o'. split_and!.
  - apply immediate_ok; [done|]. unfold load_requested_cancellation.
    run_tx done. rewrite Hreq. cbn [negb].
    run_tx (apply read_run; rewrite <- Hsess, Hr; reflexivity).
    run_tx (apply guard_run; by apply bool_decide_eq_true).
    run_tx (apply read_run; exact Hst). run_tx (by apply lift_run).
    run_tx (apply guard_run; rewrite Hph0, Hcan, Hno; by apply bool_decide_eq_true).
    run_tx (exact Hclose). rewrite Em. run_tx (by apply lift_run).
    run_tx (apply read_run; exact Heb). run_tx (apply read_run; exact Hpage). reflexivity.
  - done.
  - done.
  - eapply outcome_none_iff; [by apply HI'|done|by right].
  - done.
  - exact Hcur.
  - exact Hmat.
  - intros k e He Hown. by eapply no_child_in_flight.
Qed.

(** The commit of a loaded cancellation succeeds: with the version and history
    mark of the load, a compatible checkpoint and valid events that can be
    serialized, and fresh event identities, the operation ends as cancelled
    with the new checkpoint, its effects keep their states, and the session is
    released with its history extended by exactly those events. *)
Theorem requested_cancellation_commits db s r id o nid tr tc tx :
  reachable db → sessions db !! s = Some r → s_active_operation_id r = Some id →
  cancellation_requested id db = true → operations db !! id = Some o →
  o_phase o ≠ as_str EffectDispatched → o_transition_version o < i64_max →
  fits db id (ct_checkpoint tr) → encode_json (ct_checkpoint tr) = Ok tc →
  encode_json OutcomeCancelled = Ok tx → validate_new_events (ct_events tr) = Ok tt →
  (∀ ev, ev ∈ ct_events tr → ∃ t, encode_json (payload ev) = Ok t) →
  fresh_events db nid (Z.of_nat (length (ct_events tr))) →
  s_next_event_sequence r + Z.of_nat (length (ct_events tr)) ≤ i64_max →
  ∃ db', immediate (commit_cancellation nid s id (o_transition_version o)
                      (s_next_event_sequence r) tr) db = (Ok tt, db') ∧
    operations db' !! id = Some (ended_row "cancelled" tc tx o) ∧
    sessions db' !! s = Some (set_active None
                                (bump_sequence (Z.of_nat (length (ct_events tr))) r)) ∧
    (∀ k e, effects db !! k = Some e → ∃ e', effects db' !! k = Some e' ∧ e_status e' = e_status e).
Proof.
  intros HI%reachable_inv Hr Ha Hreq Ho Hnd Hlt Hfit Htc Htx Hval Henc Hfr Hmax.
  destruct (inv_sessions _ HI _ _ Hr) as [HA _].
  destruct (proj1 (HA id) Ha) as (o1 & Ho1 & Hs & Hact). simplify_eq.
  destruct (active_phase_spec _ _ _ (inv_ops _ HI _ _ Ho) Hact) as (p & Hp & Hcan & HS).
  destruct (active_shape _ _ _ _ HS Hcan) as [_ Hnone].
  set (s := o_session_id o) in *.
  destruct (append_events_run db nid s id r (ct_events tr) HI Hr) as (rows & Happ & HI1); try done.
  { apply operation_in_session_spec. eauto. }
  set (db1 := appended_db db s r (ct_events tr) rows) in *.
  assert (commit_cancellation nid s id (o_transition_version o) (s_next_event_sequence r) tr db
    = Ok (tt, ended_db db1 s (bump_sequence (Z.of_nat (length (ct_events tr))) r) id
                (ended_row "cancelled" tc tx o))) as Hrun.
  { unfold commit_cancellation.
    run_tx (apply read_run; unfold require_high_water; rewrite Hr, decide_True by done;
            unfold from_sql_integer; rewrite (proj2 (Z.leb_le _ _)) by
              (by eapply session_nonneg; [apply HI|]); cbn; by rewrite Z.eqb_refl).
    run_tx done. run_tx (by apply guard_run).
    run_tx (apply read_run; rewrite Ho, Z.eqb_refl, !bool_decide_true by done; reflexivity).
    run_tx (apply lift_run, from_database_ok; exact Hp). run_tx (by apply guard_run).
    run_tx (exact Happ). run_tx (by apply lift_run). run_tx (by apply lift_run).
    run_tx (apply update_operation_run; [exact Ho| |]).
    - run_tx (by apply require_run). apply (release_session_run db1); [done|apply lookup_insert_eq|done].
    - by rewrite Z.eqb_refl, bool_decide_true, String.eqb_refl.
    - eapply next_version_checks; [by eapply stored_checks|done..|by exists Cancelled|done]. }
  assert (not_dispatched db id (o_transition_version o)) as Hndp by (intros ? ? _; congruence).
  exists (ended_db db1 s (bump_sequence (Z.of_nat (length (ct_events tr))) r) id
            (ended_row "cancelled" tc tx o)). split_and!.
  - apply immediate_ok; [|exact Hrun].
    exact (commit_cancellation_inv _ _ _ _ _ _ _ _ _ HI Hfit Hndp Hrun).
  - cbn. rewrite (proj1 (proj2 (proj2 (proj2 (release_tables _ _))))). apply lookup_insert_eq.
  - cbn. apply lookup_insert_eq.
  - intros k e He. destruct (same_rows_forth _ _ _ _ _
      (release_same_status id (with_operations (<[id := ended_row "cancelled" tc tx o]> (operations db1)) db1)) He)
      as (e' & He' & _ & Hse). by exists e'.
Qed.
End cancellation_theorems.

(** ** Witnesses *)
Import Scenario.

Lemma request_cancellation_idempotent_witness :
  immediate (request_cancellation session op2 (MkId 77)) Facts.closed_db
  = (Err (CancellationConflict (MkId 77) op1), Facts.closed_db).
Proof.
  rewrite (request_cancellation_idempotent Facts.dispatched_db session op1 (MkId 77) true
    Facts.requested_db Facts.closed_db session op2 Facts.dispatched_reachable
    Facts.requested_committed (rtc_once _ _ Facts.closed_step)).
  reflexivity.
Defined.

Lemma request_cancellation_accepts_witness :
  ∃ o, operations Facts.done_db !! op2 = Some o ∧
    immediate (request_cancellation (o_session_id o) op2 (MkId 78)) Facts.done_db
    = (Ok true, with_cancellations (<[MkId 78 := MkCancellation (o_session_id o) op2]>
                  (cancellation_requests Facts.done_db)) Facts.done_db).
Proof.
  destruct (row_that (operations Facts.done_db !! op2) (λ o, bool_decide (o_outcome_json o = None)))
    as (o & Ho & Hn%bool_decide_eq_true_1); [vm_compute; reflexivity|].
  exists o. split; [exact Ho|].
  assert (cancellation_requests Facts.done_db !! MkId 78 = None) as Hk;
    [apply no_row; vm_compute; reflexivity|].
  pose proof (request_cancellation_accepts Facts.done_db (MkId 78) op2 o Facts.done_reachable Hk Ho)
    as HA.
  destruct (decide (o_outcome_json o = None)) as [_|Hne]; [exact HA|destruct (Hne Hn)].
Defined.

Lemma cancellation_blocks_progress_witness :
  (immediate (prepare_effect_batch op1 3) Facts.requested_db).2 = Facts.requested_db.
Proof.
  assert (cancellation_requested op1 Facts.requested_db = true) as Hc; [vm_compute; reflexivity|].
  destruct (cancellation_blocks_progress Facts.requested_db op1 Hc) as (_ & _ & HP & _). exact (HP 3).
Defined.

Lemma cancellation_wins_witness :
  ∃ o t, operations Facts.cancelled_db !! op1 = Some o ∧ o_outcome_json o = Some t ∧
    o_phase o = "cancelled" ∧ decodes t OutcomeCancelled.
Proof.
  destruct (row_that (operations Facts.cancelled_db !! op1) (λ o, bool_decide (is_Some (o_outcome_json o))))
    as (o & Ho & Hb%bool_decide_eq_true_1); [vm_compute; reflexivity|]. destruct Hb as [t Ht].
  assert (cancellation_requested op1 Facts.requested_db = true) as Hc; [vm_compute; reflexivity|].
  exists o, t. split; [exact Ho|]. split; [exact Ht|].
  exact (cancellation_wins Facts.requested_db Facts.cancelled_db op1 o t Facts.requested_reachable Hc
    Facts.cancelled_steps Ho Ht).
Defined.

Lemma requested_cancellation_loads_witness :
  ∃ pc db' o', immediate (load_requested_cancellation session op1) Facts.requested_db = (Ok (Some pc), db') ∧
    operations db' !! op1 = Some o' ∧ o_transition_version o' = pc_transition_version pc.
Proof.
  destruct (row_that (sessions Facts.requested_db !! session)
    (λ r, bool_decide (s_active_operation_id r = Some op1))) as (r & Hr & Ha%bool_decide_eq_true_1);
    [vm_compute; reflexivity|].
  destruct (row_that (operations Facts.requested_db !! op1)
    (λ o, (o_transition_version o <? i64_max) && bool_decide (o_phase o = "effect_dispatched")))
    as (o & Ho & Hb); [vm_compute; reflexivity|]. split_bools.
  destruct (requested_cancellation_loads Facts.requested_db session r op1 o Facts.requested_reachable Hr Ha)
    as (pc & db' & o' & Hi & Ho' & Hv & _); [vm_compute; reflexivity|exact Ho|assumption|].
  exists pc, db', o'. exact (conj Hi (conj Ho' Hv)).
Defined.

Lemma requested_cancellation_commits_witness :
  ∃ o db', operations Facts.closed_db !! op1 = Some o ∧
    operations db' !! op1
    = Some (ended_row "cancelled" (DocCheckpoint 1 "cancelled") (DocOutcome OutcomeCancelled) o).
Proof.
  destruct (row_that (sessions Facts.closed_db !! session)
    (λ r, bool_decide (s_active_operation_id r = Some op1) && (s_next_event_sequence r =? 0)))
    as (r & Hr & Hb); [vm_compute; reflexivity|]. split_bools.
  destruct (row_that (operations Facts.closed_db !! op1)
    (λ o, (o_transition_version o <? i64_max) && negb (String.eqb (o_phase o) "effect_dispatched")))
    as (o & Ho & Hb); [vm_compute; reflexivity|]. split_bools.
  assert (tbl_forall (λ _ _, false) (semantic_events Facts.closed_db) = true) as Hev;
    [vm_compute; reflexivity|].
  destruct (requested_cancellation_commits Facts.closed_db session r op1 o (λ z, MkId (Z.to_N z)) Facts.stop
    (DocCheckpoint 1 "cancelled") (DocOutcome OutcomeCancelled) Facts.closed_reachable Hr)
    as (db' & _ & Ho' & _); [assumption|vm_compute; reflexivity|exact Ho|assumption|assumption
    | |reflexivity|reflexivity|reflexivity| | | |].
  - assert (∀ o tm m, operations Facts.closed_db !! op1 = Some o → o_manifest_json o = Some tm →
      decodes tm m → m = manifest) as HM by (apply Facts.active_manifest; vm_compute; reflexivity).
    intros o' tm m Hop Htm Hd. rewrite (HM o' tm m Hop Htm Hd). reflexivity.
  - intros ev _. eexists. reflexivity.
  - split.
    + intros i _. destruct (semantic_events Facts.closed_db !! MkId (Z.to_N i)) as [v|] eqn:Hv; [|reflexivity].
      discriminate (proj1 (tbl_forall_spec _ _) Hev _ _ Hv).
    + intros i j Hi Hj _. cbn in Hi, Hj. lia.
  - cbn [ct_events Facts.stop length]. unfold i64_max. lia.
  - exists o, db'. exact (conj Ho Ho').
Defined.
