(* ===== verification/EffectTheorems.v ===== *)
(** * Effects: dispatch, crash recovery, settlement, and the release of requests *)
From S2P Require Import Prelude Json State Schema SchemaFacts Admission OperationStore EffectStore.
From S2P Require Import Cancellation Runtime Drive Concrete Invariant AdmissionInv OperationInv EffectInv.
From S2P Require Import DispatchInv Steps DriveSound Lifetime AdmissionTheorems Progress.
Section effect_theorems.
Context `{KS : KernelSerde} `{!KernelSerdeLaws}.
Implicit Types (db : Database) (o : OperationRow) (e : EffectRow).

(** ** Dispatch *)

(** Every child of the batch after preparation, with its invocation. *)
Lemma prepared_each db ph b nt id stored pend view effs k e :
  Static db → Loaded db id b stored → Prepared db ph b nt stored pend view effs →
  effects db !! k = Some e → e_batch_id e = b →
  ∃ e' inv x', effs !! k = Some e' ∧ child_result ph b nt k e e' inv x' ∧
    match inv with Some p => p ∈ pend | None => True end.
Proof.
  intros HS HL HP He Hb. pose proof (ld_all _ _ _ _ HL k e He Hb) as Hin.
  apply list_elem_of_fmap in Hin as (x & -> & Hx).
  destruct (pd_child _ _ _ _ _ _ _ _ HP x Hx) as (e0 & e' & inv & x' & He0 & He' & HR & _ & Hin).
  rewrite He in He0. injection He0 as <-. eauto 10.
Qed.

Lemma pending_NoDup db ph b nt id stored pend view effs :
  Loaded db id b stored → Prepared db ph b nt stored pend view effs →
  NoDup (pe_effect_id <$> pend).
Proof. intros HL HP. eapply sublist_NoDup; [apply HL|apply HP]. Qed.

Lemma pending_child db ph b nt id stored pend view effs p :
  Loaded db id b stored → Prepared db ph b nt stored pend view effs → p ∈ pend →
  ∃ e e', effects db !! pe_effect_id p = Some e ∧ e_batch_id e = b ∧ child_step ph e e' ∧
    pending_of b nt (pe_effect_id p) e e' p.
Proof.
  intros HL HP Hpd. destruct (pd_pending _ _ _ _ _ _ _ _ HP p Hpd) as (e & e' & He & He' & Hst & Hpo).
  assert (pe_effect_id p ∈ pr_effect_id <$> stored) as Hin.
  { eapply elem_of_sublist; [by apply list_elem_of_fmap_2|apply HP]. }
  apply list_elem_of_fmap in Hin as (x & Heq & Hx).
  destruct (ld_from _ _ _ _ HL x Hx) as (e0 & He0 & Hb0 & _).
  assert (e0 = e) as -> by congruence. eauto 10.
Qed.

(** The first dispatch of an intended batch hands out every child exactly once:
    the batch is marked as dispatched at the next version, every child is
    durably marked as started with dispatch count one and is invoked with that
    count and version, and no other effect changes. *)
Theorem first_dispatch db id o b :
  reachable db → operations db !! id = Some o → o_phase o = as_str EffectIntent →
  o_current_effect_batch_id o = Some b → cancellation_requested id db = false →
  o_transition_version o < i64_max →
  ∃ ps db', immediate (prepare_effect_batch id (o_transition_version o)) db
            = (Ok (Invoke {| pb_batch_id := b; pb_effects := ps |}), db') ∧
    operations db' !! id = Some (dispatched_row o) ∧ NoDup (pe_effect_id <$> ps) ∧
    (∀ k e, effects db !! k = Some e → e_batch_id e = b →
       effects db' !! k = Some (dispatch_row 1 e) ∧
       ∃ p, p ∈ ps ∧ pe_effect_id p = k ∧ pe_dispatch_count p = 1 ∧ pe_batch_id p = b ∧
         pe_transition_version p = o_transition_version o + 1 ∧
         pe_binding p = e_binding e ∧ pe_binding_revision p = e_binding_revision e) ∧
    (∀ k e, effects db !! k = Some e → e_batch_id e ≠ b → effects db' !! k = Some e) ∧
    (∀ p, p ∈ ps → ∃ e, effects db !! pe_effect_id p = Some e ∧ e_batch_id e = b).
Proof.
  intros HI%reachable_inv Ho Hp Hb Hreq Hlt. pose proof (inv_static _ HI) as HS.
  pose proof (op_shape_at _ _ _ _ (inv_ops _ HI _ _ Ho) Hp) as (_ & _ & _ & Hn & b' & Hb' & Hown & Hsh & _).
  assert (b' = b) as -> by congruence.
  assert (children db b (λ e, e_dispatch_count e = 0)) as Hcnt.
  { intros k e He Hbe. destruct (open_child db id o k e) as (_ & _ & _ & H0 & _); [by apply HI|done..| |].
    - by rewrite Hbe.
    - apply H0. by apply (Hsh k e). }
  destruct (prepare_effect_batch_run db id o EffectIntent b HI Ho Hp (or_introl eq_refl) Hb Hreq Hlt)
    as (start & db' & Hrun).
  { intros k e He Hbe. rewrite (Hcnt k e He Hbe). done. }
  destruct (prepare_effect_batch_ok _ _ _ _ _ HI Hrun)
    as [(_ & _ & ?)|(o1 & ph & b1 & stored & pend & view & effs & HD & Hcase)]; [congruence|].
  pose proof HD as [_ Ho1 _ Hp1 _ Hb1 HL HP]. assert (o1 = o) as -> by congruence.
  assert (ph = EffectIntent) as -> by (rewrite Hp in Hp1; by destruct ph).
  assert (b1 = b) as -> by congruence.
  destruct Hcase as [(Hne & -> & _ & ->)|(_ & ? & _)]; [|done].
  pose proof (prepared_touches _ _ _ _ _ _ _ _ _ HS HL HP) as HT.
  exists pend. eexists. split_and!.
  - apply immediate_ok; [|done]. by eapply prepare_effect_batch_inv.
  - apply lookup_insert_eq.
  - by eapply pending_NoDup.
  - intros k e He Hbe.
    destruct (prepared_each _ _ _ _ _ _ _ _ _ _ _ HS HL HP He Hbe) as (e' & inv & x' & He' & HR & Hin).
    destruct HR as (Hst & _ & _ & _ & Hi). inversion Hst; subst e'.
    destruct inv as [p|]; [|by destruct Hi as [Hi _]; destruct Hi].
    destruct Hi as (Hpb & Hpk & Hpt & Hpn & Hpr & _ & Hpc & _). rewrite (Hcnt k e He Hbe) in *.
    split; [done|]. exists p. split_and!; done.
  - intros k e He Hne'. by apply (tc_other _ _ _ HT).
  - intros p Hpd. destruct (pending_child _ _ _ _ _ _ _ _ _ _ HL HP Hpd) as (e & _ & ? & ? & _). eauto.
Qed.

(** What recovery does to one child of a batch that was dispatched before. *)
Definition recovered e : EffectRow :=
  if String.eqb (e_status e) "dispatch_started" then
    if String.eqb (e_recovery e) "safe_to_replay" then dispatch_row (e_dispatch_count e + 1) e
    else set_effect_status "outcome_unknown" e
  else e.

Definition replayable e : bool :=
  String.eqb (e_status e) "dispatch_started" && String.eqb (e_recovery e) "safe_to_replay".

Lemma child_step_recovered e e' : child_step EffectDispatched e e' → e' = recovered e.
Proof.
  inversion 1 as [|? Hs Hr|? Hs Hr|? Hs]; subst; unfold recovered.
  - by rewrite Hs, Hr.
  - by rewrite Hs, Hr.
  - by destruct Hs as [-> | ->].
Qed.

Lemma recovered_replayable e :
  child_step EffectDispatched e (dispatch_row (e_dispatch_count e + 1) e) → replayable e = true.
Proof.
  intros Hst%child_step_recovered. unfold recovered, replayable in *.
  destruct (String.eqb (e_status e) "dispatch_started"); cbn.
  - destruct (String.eqb (e_recovery e) "safe_to_replay"); [done|]. by apply (f_equal e_status) in Hst.
  - apply (f_equal e_dispatch_count) in Hst. cbn in Hst. lia.
Qed.

Lemma child_result_replayable b nt k e e' inv x' :
  child_result EffectDispatched b nt k e e' inv x' → replayable e = bool_decide (is_Some inv).
Proof.
  intros (Hst & _ & _ & _ & Hi). destruct inv as [p|].
  - destruct Hi as (_ & _ & _ & _ & _ & _ & Hc & -> & _). rewrite Hc in Hst.
    by apply recovered_replayable.
  - unfold replayable. destruct Hi as [Hi _].
    inversion Hst as [|? Hs Hr|? Hs Hr|? Hs]; subst; cbn in *; [done|by rewrite Hs, Hr|].
    by destruct Hs as [-> | ->].
Qed.

Lemma recovered_table db b nt id stored pend view effs :
  Static db → Loaded db id b stored → Prepared db EffectDispatched b nt stored pend view effs →
  ∀ k e, effects db !! k = Some e →
    effs !! k = Some (if decide (e_batch_id e = b) then recovered e else e).
Proof.
  intros HS HL HP k e He. pose proof (prepared_touches _ _ _ _ _ _ _ _ _ HS HL HP) as HT.
  case_decide as Hbe; [|by apply (tc_other _ _ _ HT)].
  destruct (prepared_each _ _ _ _ _ _ _ _ _ _ _ HS HL HP He Hbe) as (e' & inv & x' & -> & HR & _).
  f_equal. apply child_step_recovered, HR.
Qed.

Lemma recovered_pending db b nt id stored pend view effs :
  Static db → Loaded db id b stored → Prepared db EffectDispatched b nt stored pend view effs →
  ∀ k, k ∈ pe_effect_id <$> pend ↔
    ∃ e, effects db !! k = Some e ∧ e_batch_id e = b ∧ replayable e = true.
Proof.
  intros HS HL HP k. rewrite list_elem_of_fmap. split.
  - intros (p & -> & Hpd).
    destruct (pending_child _ _ _ _ _ _ _ _ _ _ HL HP Hpd) as (e & e' & He & Hb & Hst & Hpo).
    exists e. split_and!; try done.
    destruct Hpo as (_ & _ & _ & _ & _ & _ & Hc & -> & _). rewrite Hc in Hst.
    by apply recovered_replayable.
  - intros (e & He & Hbe & Hrep).
    destruct (prepared_each _ _ _ _ _ _ _ _ _ _ _ HS HL HP He Hbe) as (e' & inv & x' & _ & HR & Hin).
    rewrite (child_result_replayable _ _ _ _ _ _ _ HR) in Hrep. apply bool_decide_eq_true in Hrep.
    destruct Hrep as [p ->]. exists p. destruct HR as (_ & _ & _ & _ & (_ & <- & _)). done.
Qed.

(** Crash recovery of a dispatched batch: children that may be replayed are
    invoked again under an increased dispatch count, children that must not be
    replayed become unknown without being invoked, settled and unknown children
    stay; exactly the replayable children are handed out, and when there are
    none the batch ends at once, blocked if a child is unknown and settled
    otherwise. *)
Theorem recovery_dispatch db id o b :
  reachable db → operations db !! id = Some o → o_phase o = as_str EffectDispatched →
  o_current_effect_batch_id o = Some b → cancellation_requested id db = false →
  o_transition_version o < i64_max → children db b (λ e, e_dispatch_count e < i64_max) →
  ∃ start db', immediate (prepare_effect_batch id (o_transition_version o)) db = (Ok start, db') ∧
    (∀ k e, effects db !! k = Some e →
       effects db' !! k = Some (if decide (e_batch_id e = b) then recovered e else e)) ∧
    match start with
    | Invoke pending =>
        operations db' !! id = Some (dispatched_row o) ∧
        ∀ k, k ∈ pe_effect_id <$> pb_effects pending ↔
          ∃ e, effects db !! k = Some e ∧ e_batch_id e = b ∧ replayable e = true
    | StartBlocked =>
        operations db' !! id = Some (finished_batch_row b true o) ∧
        children db b (λ e, replayable e = false) ∧
        ∃ k e, effects db !! k = Some e ∧ e_batch_id e = b ∧ e_status (recovered e) = "outcome_unknown"
    | StartSettled =>
        operations db' !! id = Some (finished_batch_row b false o) ∧ children db b settled
    | StartCancellationPending => False
    end.
Proof.
  intros HI%reachable_inv Ho Hp Hb Hreq Hlt Hcnt. pose proof (inv_static _ HI) as HS.
  destruct (prepare_effect_batch_run db id o EffectDispatched b HI Ho Hp (or_intror eq_refl) Hb Hreq Hlt Hcnt)
    as (start & db' & Hrun).
  destruct (prepare_effect_batch_ok _ _ _ _ _ HI Hrun)
    as [(_ & _ & ?)|(o1 & ph & b1 & stored & pend & view & effs & HD & Hcase)]; [congruence|].
  pose proof HD as [_ Ho1 _ Hp1 _ Hb1 HL HP]. assert (o1 = o) as -> by congruence.
  assert (ph = EffectDispatched) as -> by (rewrite Hp in Hp1; by destruct ph).
  assert (b1 = b) as -> by congruence.
  pose proof (prepared_touches _ _ _ _ _ _ _ _ _ HS HL HP) as HT.
  pose proof (recovered_table _ _ _ _ _ _ _ _ HS HL HP) as Heffs.
  pose proof (recovered_pending _ _ _ _ _ _ _ _ HS HL HP) as Hpend.
  assert (Inv db') as HI' by by eapply prepare_effect_batch_inv.
  exists start, db'. split; [by apply immediate_ok|].
  destruct Hcase as [(Hne & -> & _ & ->)|(-> & _ & blocked & -> & Hbl & _ & _ & ->)].
  - split; [done|]. split; [apply lookup_insert_eq|done].
  - split; [by destruct blocked|].
    assert (children db b (λ e, replayable e = false)) as Hnr.
    { intros k e He Hbe. destruct (replayable e) eqn:E; [|done].
      assert (k ∈ pe_effect_id <$> @nil PendingEffect) as Hk by (apply Hpend; eauto).
      by apply elem_of_nil in Hk. }
    assert (operations (moved_db db id (finished_batch_row b blocked o) effs) !! id
            = Some (finished_batch_row b blocked o)) as Hrow by apply lookup_insert_eq.
    destruct blocked.
    + destruct (op_shape_at _ _ _ OutcomeUnknown (inv_ops _ HI' _ _ Hrow) eq_refl)
        as (_ & _ & _ & _ & b2 & [= <-] & _ & [_ (k & e' & He' & Hbe' & Hs')] & _).
      split_and!; [done..|]. cbn in He'.
      destruct (same_rows_back _ _ _ _ _ (tc_rows _ _ _ HT) He') as (e & He & (Hbb & _)).
      exists k, e. assert (e_batch_id e = b) as Hbe by congruence. split_and!; try done.
      rewrite (Heffs k e He), decide_True in He' by done. congruence.
    + split; [done|]. intros k e He Hbe.
      destruct (op_shape_at _ _ _ NeedDecision (inv_ops _ HI' _ _ Hrow) eq_refl)
        as (_ & _ & _ & Hset & Hin).
      assert (settled (recovered e)) as Hrs.
      { eapply (Hset b (Hin b eq_refl)); [done|cbn; rewrite (Heffs k e He), decide_True; done|].
        unfold recovered. repeat case_match; done. }
      specialize (Hnr k e He Hbe). unfold settled, recovered, replayable in *.
      destruct (String.eqb (e_status e) "dispatch_started"); [|done]. cbn in Hnr. by rewrite Hnr in Hrs.
Qed.

(** ** Settlement *)

(** Whether the batch still has a child in flight, and what its end looks like. *)
Definition in_flight db (b : EffectBatchId) : Prop :=
  ∃ k e, effects db !! k = Some e ∧ e_batch_id e = b ∧ e_status e = "dispatch_started".
Definition has_unknown db (b : EffectBatchId) : Prop :=
  ∃ k e, effects db !! k = Some e ∧ e_batch_id e = b ∧ e_status e = "outcome_unknown".

(** The operation after a child of [b] was closed: untouched while a child is in
    flight, and otherwise moved on, blocked exactly when a child is unknown. *)
Definition batch_progress db (id : OperationId) o (b : EffectBatchId) (finished : bool) db' : Prop :=
  if finished
  then ¬ in_flight db b ∧ ∃ blocked : bool, (blocked = true ↔ has_unknown db b) ∧
         db' = with_operations (<[id := finished_batch_row b blocked o]> (operations db)) db
  else in_flight db b ∧ db' = db.

Lemma transition_batch_if_terminal_run db id o b :
  Inv db → operations db !! id = Some o → dispatched_at (o_transition_version o) b o = true →
  o_transition_version o < i64_max →
  ∃ r db', transition_batch_if_terminal id b (o_transition_version o) db = Ok (r, db') ∧
    batch_progress db id o b (bool_decide (is_Some r)) db'.
Proof.
  intros HI Ho Hd Hlt.
  destruct (dispatched_shape _ _ _ _ _ HI Ho Hd) as (_ & _ & _ & _ & Hown & Hsh & _).
  destruct (load_batch_statuses_total db id b (inv_static _ HI) Hown) as [l Hl].
  destruct (load_batch_statuses_ok _ _ _ _ Hl) as [_ HL].
  assert (has_status IntentCommitted l = false) as H1.
  { destruct (has_status IntentCommitted l) eqn:E; [|done].
    apply HL in E as (k & e & He & Hb & Hs). by destruct (Hsh k e He Hb). }
  unfold transition_batch_if_terminal. setoid_rewrite (tx_run _ _ _ _ _ (read_run _ _ _ Hl)).
  rewrite H1. destruct (has_status DispatchStarted l) eqn:E2.
  - eexists None, db. split; [done|]. split; [|done]. by apply (HL DispatchStarted) in E2.
  - setoid_rewrite (tx_run _ _ _ _ _ (transition_finished_batch_run db id o b _ HI Ho Hd Hlt)).
    eexists (Some _), _. split; [reflexivity|]. split.
    + intros Hf. apply (HL DispatchStarted) in Hf. congruence.
    + exists (has_status EffOutcomeUnknown l). split; [|done]. apply (HL EffOutcomeUnknown).
Qed.

(** A child in flight settles. *)
Lemma settle_row_checks e t :
  effect_checks e = true → effect_checks (settle_row t e) = true.
Proof.
  intros Hck. unfold effect_checks in *. cbn. rewrite !andb_true_iff in *.
  rewrite orb_true_r. naive_solver.
Qed.

(** Settling a child in flight at the current version stores its outcome and
    touches no other effect; the operation stays while another child is in
    flight, and the last settlement moves it on: to its next decision with the
    batch as input, or to the unknown state when a child of the batch is
    unknown. *)
Theorem settlement_commits db id o b k e (x : EffectOutcome) t :
  reachable db → operations db !! id = Some o → o_phase o = as_str EffectDispatched →
  o_current_effect_batch_id o = Some b → o_transition_version o < i64_max →
  effects db !! k = Some e → e_batch_id e = b → e_status e = "dispatch_started" →
  encode_json x = Ok t →
  ∃ finished db', immediate (settle_batch_effect id b k (o_transition_version o) x) db
                  = (Ok finished, db') ∧
    batch_progress (with_effects (<[k := settle_row t e]> (effects db)) db) id o b finished db'.
Proof.
  intros HI%reachable_inv Ho Hp Hb Hlt He Hbe Hs Ht.
  assert (dispatched_at (o_transition_version o) b o = true) as Hd by by apply dispatched_at_spec.
  destruct (dispatched_shape _ _ _ _ _ HI Ho Hd) as (_ & _ & _ & Hn & Hown & _).
  pose proof (st_effect_checks _ (inv_static _ HI) _ _ He) as Hck.
  set (db1 := with_effects (<[k := settle_row t e]> (effects db)) db).
  assert (Inv db1) as HI1.
  { eapply dispatched_effect_inv; try done; [by apply settle_row_checks|].
    eapply open_settle; try done. eapply open_child; [by apply HI|done..|congruence]. }
  destruct (transition_batch_if_terminal_run db1 id o b HI1 Ho Hd Hlt) as (r & db' & Hr & Hprog).
  exists (bool_decide (is_Some r)), db'. split; [|done].
  assert (settle_batch_effect id b k (o_transition_version o) x db = Ok (bool_decide (is_Some r), db')) as Hrun.
  { unfold settle_batch_effect. run_tx (by apply lift_run).
    run_tx (apply read_run; unfold require_dispatched_batch; by rewrite Ho, Hd).
    run_tx (apply update_effect_run; [exact He|by rewrite bool_decide_true, Hs|by apply settle_row_checks]).
    run_tx (by apply require_run). by run_tx (exact Hr). }
  apply immediate_ok; [|exact Hrun]. exact (settle_batch_effect_inv _ _ _ _ _ _ _ _ HI Hrun).
Qed.

(** Every transition is guarded by the version it was prepared at: when the
    operation has moved on, committing a decision, an intent, a dispatch, a
    settlement, an unknown outcome, the end of an attempt, a cancellation or an
    abandonment leaves the database as it is. *)
Theorem stale_version_changes_nothing db id o n :
  operations db !! id = Some o → o_transition_version o ≠ n →
  (∀ nid s d, (immediate (commit_decision nid s id n d) db).2 = db) ∧
  (∀ nb ne i, (immediate (commit_effect_batch_intent nb ne id n i) db).2 = db) ∧
  (immediate (prepare_effect_batch id n) db).2 = db ∧
  (∀ b k x, (immediate (settle_batch_effect id b k n x) db).2 = db) ∧
  (∀ b k, (immediate (record_batch_effect_unknown id b k n) db).2 = db) ∧
  (∀ b, (immediate (finish_effect_batch_attempt id b n) db).2 = db) ∧
  (∀ nid s hw tr, (immediate (commit_cancellation nid s id n hw tr) db).2 = db) ∧
  (∀ nid s hw ab, (immediate (commit_unknown_effect_abandonment nid s id n hw ab) db).2 = db).
Proof.
  intros Ho Hv.
  assert (∀ A (m : Tx A), (∀ a db', m db = Ok (a, db') → db' = db) → (immediate m db).2 = db) as Hm.
  { intros A m Hm. destruct (immediate m db) as [r db'] eqn:E.
    apply immediate_cases in E as [(a & _ & E & _)|(? & _ & E)]; cbn; eauto. }
  assert (∀ b u, require_dispatched_batch id b n db ≠ Ok u) as Hreq.
  { intros b u (o' & Ho' & (_ & ? & _)%dispatched_at_spec)%require_dispatched_batch_ok. congruence. }
  assert ((o_transition_version o =? n) = false) as Hf by by apply Z.eqb_neq.
  split_and!; intros; apply Hm; intros a db' E.
  - unfold commit_decision in E. inv_tx. destruct (cancellation_requested id db); inv_tx; [done|].
    match goal with H : append_events _ _ _ _ _ = _ |- _ => apply append_events_operations in H as Hops end.
    match goal with H : deciding_at n _ = true |- _ => apply deciding_at_spec in H as [_ ?] end. congruence.
  - unfold commit_effect_batch_intent in E. destruct (nb_effects i); inv_tx.
    destruct (cancellation_requested id db); inv_tx; [done|]. rewrite Ho in *.
    unfold deciding_at in *. rewrite Hf, andb_false_r in *. done.
  - unfold prepare_effect_batch in E. inv_tx. destruct (cancellation_requested id db); inv_tx; [done|].
    unfold load_active_batch in *. rewrite Ho, Hf in *. done.
  - unfold settle_batch_effect in E. inv_tx. by destruct (Hreq b tt).
  - unfold record_batch_effect_unknown in E. inv_tx. by destruct (Hreq b tt).
  - unfold finish_effect_batch_attempt in E. inv_tx. by destruct (Hreq b tt).
  - unfold commit_cancellation in E. inv_tx. rewrite Ho, Hf, andb_false_r in *. done.
  - unfold commit_unknown_effect_abandonment in E. inv_tx.
    unfold require_unknown_batch_unchanged in *. rewrite Ho, Hf, !andb_false_r in *. done.
Qed.

(** The request of an effect is released exactly when its operation has an
    outcome and every effect of its batch is settled; until then it is
    kept. *)
Theorem request_released_iff db k e :
  reachable db → effects db !! k = Some e →
  ∃ b id o, effect_batches db !! e_batch_id e = Some b ∧ b_operation_id b = id ∧
    operations db !! id = Some o ∧
    (e_request_json e = None ↔
       is_Some (o_outcome_json o) ∧ children db (e_batch_id e) settled).
Proof.
  intros HI%reachable_inv He. destruct (st_effect _ (inv_static _ HI) k e He) as [b Hb].
  destruct (st_batch _ (inv_static _ HI) _ _ Hb) as [[o Ho] _].
  exists b, (b_operation_id b), o. split_and!; try done.
  destruct (inv_ops _ HI _ _ Ho) as (_ & _ & HE).
  destruct (HE k e He) as (_ & _ & _ & _ & _ & _ & Hrel); [by exists b|]. exact Hrel.
Qed.
End effect_theorems.

(** ** Witnesses *)
Import Scenario.

Lemma first_dispatch_witness :
  ∃ ps db', immediate (prepare_effect_batch op1 2) Facts.intent_db
            = (Ok (Invoke {| pb_batch_id := Facts.batch; pb_effects := ps |}), db') ∧
    NoDup (pe_effect_id <$> ps).
Proof.
  destruct (row_that (operations Facts.intent_db !! op1)
    (λ o, String.eqb (o_phase o) "effect_intent" && (o_transition_version o =? 2) &&
          bool_decide (o_current_effect_batch_id o = Some Facts.batch))) as (o & Ho & Hb);
    [vm_compute; reflexivity|]. split_bools.
  assert (o_transition_version o = 2) as Hv by assumption.
  assert (o_transition_version o < i64_max) as Hlt by (rewrite Hv; reflexivity).
  assert (cancellation_requested op1 Facts.intent_db = false) as Hc; [vm_compute; reflexivity|].
  destruct (first_dispatch Facts.intent_db op1 o Facts.batch Facts.intent_reachable Ho)
    as (ps & db' & Hi & _ & Hn & _); [assumption|assumption|exact Hc|exact Hlt|].
  rewrite Hv in Hi. exists ps, db'. exact (conj Hi Hn).
Defined.

Lemma recovery_dispatch_witness :
  ∃ start db', immediate (prepare_effect_batch op1 3) Facts.dispatched_db = (Ok start, db') ∧
    ∀ k e, effects Facts.dispatched_db !! k = Some e →
      effects db' !! k = Some (if decide (e_batch_id e = Facts.batch) then recovered e else e).
Proof.
  destruct (row_that (operations Facts.dispatched_db !! op1)
    (λ o, String.eqb (o_phase o) "effect_dispatched" && (o_transition_version o =? 3) &&
          bool_decide (o_current_effect_batch_id o = Some Facts.batch))) as (o & Ho & Hb);
    [vm_compute; reflexivity|]. split_bools.
  assert (o_transition_version o = 3) as Hv by assumption.
  assert (o_transition_version o < i64_max) as Hlt by (rewrite Hv; reflexivity).
  assert (cancellation_requested op1 Facts.dispatched_db = false) as Hc; [vm_compute; reflexivity|].
  assert (tbl_forall (λ _ e, e_dispatch_count e <? i64_max) (effects Facts.dispatched_db) = true) as Hn;
    [vm_compute; reflexivity|].
  destruct (recovery_dispatch Facts.dispatched_db op1 o Facts.batch Facts.dispatched_reachable Ho)
    as (start & db' & Hi & He & _); [assumption|assumption|exact Hc|exact Hlt| |].
  - intros k e He _. apply Z.ltb_lt. exact (proj1 (tbl_forall_spec _ _) Hn k e He).
  - rewrite Hv in Hi. exists start, db'. exact (conj Hi He).
Defined.

(** The last child in flight settles, and the operation moves on. *)
Lemma settlement_commits_witness :
  ∃ o e finished db', operations Facts.half_db !! op1 = Some o ∧
    immediate (settle_batch_effect op1 Facts.batch (MkId 61) 3 (Success "ok")) Facts.half_db
    = (Ok finished, db') ∧
    batch_progress (with_effects (<[MkId 61 := settle_row (DocSuccess "ok") e]> (effects Facts.half_db))
                      Facts.half_db) op1 o Facts.batch finished db'.
Proof.
  destruct (row_that (operations Facts.half_db !! op1)
    (λ o, String.eqb (o_phase o) "effect_dispatched" && (o_transition_version o =? 3) &&
          bool_decide (o_current_effect_batch_id o = Some Facts.batch))) as (o & Ho & Hb);
    [vm_compute; reflexivity|]. split_bools.
  destruct (row_that (effects Facts.half_db !! MkId 61)
    (λ e, bool_decide (e_batch_id e = Facts.batch) && String.eqb (e_status e) "dispatch_started"))
    as (e & He & Hb); [vm_compute; reflexivity|]. split_bools.
  assert (o_transition_version o = 3) as Hv by assumption.
  assert (o_transition_version o < i64_max) as Hlt by (rewrite Hv; reflexivity).
  destruct (settlement_commits Facts.half_db op1 o Facts.batch (MkId 61) e (@Success doc_json "ok") (DocSuccess "ok")
    Facts.half_reachable Ho) as (finished & db' & Hi & Hp);
    [assumption|assumption|exact Hlt|exact He|assumption|assumption|reflexivity|].
  rewrite Hv in Hi. exists o, e, finished, db'. exact (conj Ho (conj Hi Hp)).
Defined.

Lemma stale_version_changes_nothing_witness :
  (immediate (prepare_effect_batch op1 2) Facts.dispatched_db).2 = Facts.dispatched_db.
Proof.
  destruct (row_that (operations Facts.dispatched_db !! op1) (λ o, o_transition_version o =? 3))
    as (o & Ho & Hv%Z.eqb_eq); [vm_compute; reflexivity|].
  assert (o_transition_version o ≠ 2) as Hne by lia.
  destruct (stale_version_changes_nothing Facts.dispatched_db op1 o 2 Ho Hne) as (_ & _ & Hp & _).
  exact Hp.
Defined.

Lemma request_released_iff_witness :
  ∃ e b o, effects Facts.done_db !! MkId 4000 = Some e ∧ operations Facts.done_db !! b = Some o ∧
    e_request_json e = None ∧ is_Some (o_outcome_json o).
Proof.
  destruct (row_that (effects Facts.done_db !! MkId 4000) (λ e, bool_decide (e_request_json e = None)))
    as (e & He & Hn%bool_decide_eq_true_1); [vm_compute; reflexivity|].
  destruct (request_released_iff Facts.done_db (MkId 4000) e Facts.done_reachable He)
    as (b & id & o & _ & _ & Ho & Hiff).
  exists e, id, o. exact (conj He (conj Ho (conj Hn (proj1 (proj1 Hiff Hn))))).
Defined.
