(* ===== verification/DecisionTheorems.v ===== *)
(** * Decisions of the loop: what a committed decision or intent writes *)
From S2P Require Import Prelude Json State Schema SchemaFacts Admission OperationStore EffectStore.
From S2P Require Import Cancellation Runtime Drive Concrete Invariant AdmissionInv OperationInv EffectInv.
From S2P Require Import DispatchInv Steps DriveSound Lifetime AdmissionTheorems Progress.
Section decision_theorems.
Context `{KS : KernelSerde} `{!KernelSerdeLaws}.
Implicit Types (db : Database) (o : OperationRow) (e : EffectRow).

(** The session after a decision: still owned by the operation when the loop
    continues, released when the operation ended. *)
Definition decided_session (out : option OperationOutcome) (count : Z) (r : SessionRow) : SessionRow :=
  match out with
  | Some _ => set_active None (bump_sequence count r)
  | None => bump_sequence count r
  end.

Lemma decided_checks o p tc tx :
  operation_checks o = true → o_transition_version o < i64_max →
  operation_checks (decided_row p tc tx o) = true.
Proof. intros Hck Hlt. by eapply next_version_checks; [exact Hck|..|eexists|]. Qed.

Lemma decision_events db nid s r id o evs :
  Inv db → operations db !! id = Some o → o_session_id o = s → sessions db !! s = Some r →
  validate_new_events evs = Ok tt → (∀ ev, ev ∈ evs → ∃ t, encode_json (payload ev) = Ok t) →
  fresh_events db nid (Z.of_nat (length evs)) →
  s_next_event_sequence r + Z.of_nat (length evs) ≤ i64_max →
  ∃ rows, append_events nid s id evs db = Ok (tt, appended_db db s r evs rows) ∧
    Inv (appended_db db s r evs rows).
Proof.
  intros HI Ho Hs Hr. apply append_events_run; try done. apply operation_in_session_spec. eauto.
Qed.

(** A decision at the current version of a deciding operation commits as a
    whole: its events extend the history, its checkpoint and, when it ends the
    operation, its outcome are stored at the next version, and the session is
    released exactly when the operation ended. *)
Theorem decision_commits db nid s r id o d c evs p out tc tx :
  reachable db → operations db !! id = Some o → o_session_id o = s → sessions db !! s = Some r →
  o_phase o = as_str NeedDecision → cancellation_requested id db = false →
  o_transition_version o < i64_max →
  decision_effect d = Ok (c, evs, p, out) → fits db id c →
  encode_json c = Ok tc → transpose encode_json out = Ok tx →
  validate_new_events evs = Ok tt → (∀ ev, ev ∈ evs → ∃ t, encode_json (payload ev) = Ok t) →
  fresh_events db nid (Z.of_nat (length evs)) →
  s_next_event_sequence r + Z.of_nat (length evs) ≤ i64_max →
  ∃ db', immediate (commit_decision nid s id (o_transition_version o) d) db
         = (Ok (match out with Some x => DecisionFinished x | None => DecisionContinue end), db') ∧
    operations db' !! id = Some (decided_row p tc tx o) ∧
    sessions db' !! s = Some (decided_session out (Z.of_nat (length evs)) r).
Proof.
  intros HI%reachable_inv Ho Hs Hr Hp Hreq Hlt Hd Hfit Htc Htx Hval Henc Hfr Hmax.
  destruct (decision_events db nid s r id o evs HI Ho Hs Hr Hval Henc Hfr Hmax) as (rows & Happ & HI1).
  set (db1 := appended_db db s r evs rows) in *.
  assert (operations db1 !! id = Some o) as Ho1 by done.
  assert (sessions db1 !! s = Some (bump_sequence (Z.of_nat (length evs)) r)) as Hr1
    by apply lookup_insert_eq.
  assert (deciding_at (o_transition_version o) o = true) as Hat by by apply deciding_at_spec.
  pose proof (decided_checks o p tc tx (stored_checks _ _ _ HI Ho) Hlt) as Hck.
  assert (s_active_operation_id r = Some id) as Hact.
  { destruct (inv_sessions _ HI _ _ Hr) as [HA _]. apply HA. exists o. split_and!; try done.
    by rewrite (active_phase_as_str o NeedDecision). }
  destruct (decision_effect_outcome _ _ _ _ _ Hd) as [-> _].
  assert (∀ a db', commit_decision nid s id (o_transition_version o) d db = Ok (a, db') →
            immediate (commit_decision nid s id (o_transition_version o) d) db = (Ok a, db')) as Himm.
  { intros a db' E. apply immediate_ok; [|exact E]. exact (commit_decision_inv _ _ _ _ _ _ _ _ HI Hfit E). }
  unfold commit_decision in Himm at 1. rewrite (tx_run _ _ _ _ _ (lift_run _ _ _ Hd)) in Himm.
  cbv beta iota zeta in Himm. rewrite (tx_run _ _ _ _ _ (lift_run _ _ _ Hval)) in Himm.
  rewrite (tx_run _ _ _ _ _ (eq_refl : query (cancellation_requested id) db = Ok (_, db))) in Himm.
  rewrite Hreq, (tx_run _ _ _ _ _ Happ) in Himm.
  rewrite (tx_run _ _ _ _ _ (lift_run _ _ _ Htc)), (tx_run _ _ _ _ _ (lift_run _ _ _ Htx)) in Himm.
  rewrite (tx_run _ _ _ _ _ (update_operation_run _ _ _ _ _ Ho1 Hat Hck)) in Himm.
  rewrite (tx_run _ _ _ _ _ (require_run 1 _ _ eq_refl)) in Himm.
  destruct out as [x|].
  - rewrite (tx_run _ _ _ _ _ (release_session_run db1 s _ id _ _ HI1 Hr1 Hact)) in Himm.
    eexists. split; [by apply Himm|]. split; [|apply lookup_insert_eq]. cbn.
    rewrite (proj1 (proj2 (proj2 (proj2 (release_tables _ _))))). apply lookup_insert_eq.
  - eexists. split; [by apply Himm|].
    pose proof (release_tables id (with_operations (<[id := decided_row p tc tx o]> (operations db1)) db1))
      as (_ & Hss & _ & Hops & _). rewrite Hss, Hops. split; [apply lookup_insert_eq|done].
Qed.

(** ** Intents *)
Definition fresh_effects db (nid : Z → EffectId) (n : Z) : Prop :=
  (∀ i, 0 ≤ i < n → effects db !! nid i = None) ∧
  (∀ i j, 0 ≤ i < n → 0 ≤ j < n → nid i = nid j → i = j).

(** The stored rows of the intents [l], numbered from [pos]. *)
Fixpoint intent_rows (nid : Z → EffectId) (b : EffectBatchId) (pos : Z)
    (l : list (NewEffectIntent * Text)) (effs : gmap EffectId EffectRow) : gmap EffectId EffectRow :=
  match l with
  | [] => effs
  | (i, t) :: rest => intent_rows nid b (pos + 1) rest (<[nid pos := intent_row b pos i t]> effs)
  end.

Lemma intent_row_checks b pos i t :
  0 ≤ pos ≤ i64_max → ni_binding i ≠ "" → ni_binding_revision i ≠ "" →
  effect_checks (intent_row b pos i t) = true.
Proof.
  intros Hp Hb Hr. unfold effect_checks. cbn.
  rewrite !andb_true_iff, !Z.leb_le, !in_i64_spec, !negb_true_iff, !String.eqb_neq.
  unfold i64_min, i64_max in *. split_and!; try done; try lia. by destruct (ni_recovery i).
Qed.

Lemma insert_intents_run nid b l : ∀ pos db,
  0 ≤ pos → pos + Z.of_nat (length l) ≤ i64_max + 1 → is_Some (effect_batches db !! b) →
  (∀ i t, (i, t) ∈ l → ni_binding i ≠ "" ∧ ni_binding_revision i ≠ "") →
  (∀ i, pos ≤ i < pos + Z.of_nat (length l) → effects db !! nid i = None) →
  (∀ i j, pos ≤ i < pos + Z.of_nat (length l) → pos ≤ j < pos + Z.of_nat (length l) →
     nid i = nid j → i = j) →
  (∀ k e, effects db !! k = Some e → e_batch_id e = b → e_position e < pos) →
  insert_intents nid b pos l db = Ok (tt, with_effects (intent_rows nid b pos l (effects db)) db).
Proof.
  induction l as [|[i t] l IH]; intros pos db Hp Hmax Hb Hne Hfr Hinj Hlt.
  { cbn. by destruct db. }
  cbn [insert_intents intent_rows length] in *. destruct (Hne i t) as [H1 H2]; [left|].
  run_tx (apply lift_run, ok_or_ok, i64_try_from_Some; split; [reflexivity|lia]).
  assert (insert_effect (nid pos) (intent_row b pos i t) db
          = Ok (tt, with_effects (<[nid pos := intent_row b pos i t]> (effects db)) db)) as Hins.
  { unfold insert_effect.
    match goal with |- (if ?c then _ else _) = _ => assert (c = true) as ->; [|done] end.
    rewrite !andb_true_iff, !bool_decide_eq_true, tbl_forall_spec.
    split_and!; [apply Hfr; lia| |done|apply intent_row_checks; [lia|done..]].
    intros k e He. cbn. destruct (decide (e_batch_id e = b)) as [Hbe|]; [|by rewrite bool_decide_true].
    apply orb_true_iff. right. apply bool_decide_eq_true. specialize (Hlt k e He Hbe). lia. }
  run_tx (exact Hins). rewrite IH; [done|lia|lia|done|intros; eapply Hne; by right|..].
  - intros j Hj. cbn. rewrite lookup_insert_ne; [apply Hfr; lia|]. intros E. apply Hinj in E; lia.
  - intros x y Hx Hy. apply Hinj; lia.
  - cbn. intros k e [[<- <-]|[_ He]]%lookup_insert_Some Hbe; [cbn; lia|]. specialize (Hlt k e He Hbe). lia.
Qed.

Lemma intent_operation_checks o tc b :
  operation_checks o = true → o_transition_version o < i64_max →
  o_next_effect_batch_position o < i64_max →
  operation_checks (intent_operation_row tc b o) = true.
Proof.
  intros Hck Hv Hn. unfold operation_checks in *. cbn. split_bools. rewrite in_i64_spec in *.
  rewrite !andb_true_iff, !in_i64_spec, !Z.leb_le, !Z.ltb_lt. unfold i64_min, i64_max in *.
  split_and!; try done; lia.
Qed.

(** An effect intent at the current version of a deciding operation commits as
    a whole before any dispatch: the batch is appended to the operation's
    batches, every requested effect is stored, in order, as intended and never
    dispatched, with its request and its frozen binding, and the operation moves
    to the intent phase with the new checkpoint. *)
Theorem intent_commits db nb ne id o i tc reqs :
  reachable db → operations db !! id = Some o → o_phase o = as_str NeedDecision →
  cancellation_requested id db = false → o_transition_version o < i64_max →
  o_next_effect_batch_position o < i64_max → nb_effects i ≠ [] →
  fits db id (nb_checkpoint i) → bound db id (nb_effects i) →
  encode_json (nb_checkpoint i) = Ok tc →
  collect (λ x, encode_json (ni_request x)) (nb_effects i) = Ok reqs →
  (∀ x, x ∈ nb_effects i → ni_binding x ≠ "" ∧ ni_binding_revision x ≠ "") →
  effect_batches db !! nb = None → fresh_effects db ne (Z.of_nat (length (nb_effects i))) →
  Z.of_nat (length (nb_effects i)) ≤ i64_max →
  immediate (commit_effect_batch_intent nb ne id (o_transition_version o) i) db
  = (Ok IntentDone,
     with_operations (<[id := intent_operation_row tc nb o]> (operations db))
       (with_effects (intent_rows ne nb 0 (zip (nb_effects i) reqs) (effects db))
          (with_batches (<[nb := MkBatch id (o_next_effect_batch_position o)]> (effect_batches db)) db))).
Proof.
  intros HI%reachable_inv Ho Hp Hreq Hv Hpos Hne Hfit Hbound Htc Hreqs Hnames Hnb [Hfr Hinj] Hlen.
  pose proof (inv_static _ HI) as HS. pose proof (stored_checks _ _ _ HI Ho) as Hck.
  assert (length (zip (nb_effects i) reqs) = length (nb_effects i)) as Hzip.
  { rewrite length_zip. destruct (collect_lookup _ _ _ Hreqs) as [-> _]. lia. }
  assert (o_outcome_json o = None) as Hnone.
  { eapply (outcome_none_iff db id o NeedDecision); [by apply HI|done|by right]. }
  assert (deciding_at (o_transition_version o) o = true) as Hat by by apply deciding_at_spec.
  set (db1 := with_batches (<[nb := MkBatch id (o_next_effect_batch_position o)]> (effect_batches db)) db).
  assert (insert_batch nb (MkBatch id (o_next_effect_batch_position o)) db = Ok (tt, db1)) as Hins.
  { unfold insert_batch. cbn.
    match goal with |- (if ?c then _ else _) = _ => assert (c = true) as ->; [|done] end.
    rewrite !andb_true_iff, !bool_decide_eq_true, tbl_forall_spec. split_and!; [done| |by eexists|].
    - intros k b Hb. destruct (decide (b_operation_id b = id)) as [E|]; [|by rewrite bool_decide_true].
      apply orb_true_iff. right. apply bool_decide_eq_true.
      pose proof (gapless_bounds _ _ _ _ _ _ (st_batch_positions _ HS id o Ho) Hb E). lia.
    - unfold batch_checks. cbn. unfold operation_checks in Hck. split_bools. rewrite in_i64_spec in *.
      rewrite andb_true_iff, Z.leb_le, in_i64_spec. done. }
  assert (insert_intents ne nb 0 (zip (nb_effects i) reqs) db1
          = Ok (tt, with_effects (intent_rows ne nb 0 (zip (nb_effects i) reqs) (effects db)) db1)) as Hrows.
  { apply (insert_intents_run ne nb _ 0 db1); rewrite ?Hzip; try lia; try done.
    - cbn. rewrite lookup_insert_eq. by eexists.
    - intros x t Hx. apply Hnames. apply list_elem_of_lookup_1 in Hx as [j Hj].
      apply lookup_zip_Some in Hj as [Hj _]. by eapply list_elem_of_lookup_2.
    - intros k e He Hbe. cbn in He. destruct (st_effect _ HS k e He). congruence. }
  assert (commit_effect_batch_intent nb ne id (o_transition_version o) i db
    = Ok (IntentDone, with_operations (<[id := intent_operation_row tc nb o]> (operations db))
       (with_effects (intent_rows ne nb 0 (zip (nb_effects i) reqs) (effects db)) db1))) as Hrun.
  { unfold commit_effect_batch_intent. destruct (nb_effects i) as [|x xs] eqn:EI; [done|]. rewrite <- EI in *.
    run_tx (by apply lift_run). run_tx (by apply lift_run). run_tx done. rewrite Hreq.
    run_tx (apply read_run; rewrite Ho, Hat; reflexivity).
    run_tx (exact Hins). run_tx (exact Hrows).
    run_tx (apply update_operation_run; [exact Ho|exact Hat|by apply intent_operation_checks]).
    run_tx (by apply require_run).
    erewrite release_unfinished; [done|cbn; apply lookup_insert_eq|done]. }
  apply immediate_ok; [|exact Hrun].
  exact (commit_effect_batch_intent_inv _ _ _ _ _ _ _ _ HI Hfit Hbound Hrun).
Qed.
End decision_theorems.

(** ** Witnesses *)
Import Scenario.

Definition reply : list (@NewEvent doc_json) := [ {| kind := "reply"; payload := "hi" |} ].

Lemma active_fits c : schema_version c = 1 → fits Facts.active_db op1 c.
Proof.
  intros Hc. assert (∀ o tm m, operations Facts.active_db !! op1 = Some o → o_manifest_json o = Some tm →
    decodes tm m → m = manifest) as HM by (apply Facts.active_manifest; vm_compute; reflexivity).
  intros o' tm m Hop Htm Hd. rewrite (HM o' tm m Hop Htm Hd). exact Hc.
Qed.

Lemma decision_commits_witness :
  ∃ o db', operations Facts.active_db !! op1 = Some o ∧
    (immediate (commit_decision (λ z, MkId (Z.to_N z)) session op1 1 (Complete (ckpt "done") reply))
       Facts.active_db).1 = Ok (DecisionFinished OutcomeCompleted) ∧
    operations db' !! op1
    = Some (decided_row Completed (DocCheckpoint 1 "done") (Some (DocOutcome OutcomeCompleted)) o).
Proof.
  destruct (row_that (sessions Facts.active_db !! session) (λ r, s_next_event_sequence r =? 0))
    as (r & Hr & Hseq%Z.eqb_eq); [vm_compute; reflexivity|].
  destruct (row_that (operations Facts.active_db !! op1)
    (λ o, (o_transition_version o =? 1) && String.eqb (o_phase o) "need_decision" &&
          bool_decide (o_session_id o = session))) as (o & Ho & Hb); [vm_compute; reflexivity|].
  split_bools. assert (o_transition_version o = 1) as Hv by assumption.
  assert (o_transition_version o < i64_max) as Hlt by (rewrite Hv; reflexivity).
  assert (cancellation_requested op1 Facts.active_db = false) as Hc; [vm_compute; reflexivity|].
  assert (tbl_forall (λ _ _, false) (semantic_events Facts.active_db) = true) as Hev;
    [vm_compute; reflexivity|].
  destruct (decision_commits Facts.active_db (λ z, MkId (Z.to_N z)) session r op1 o
    (Complete (ckpt "done") reply) (ckpt "done") reply Completed (Some OutcomeCompleted)
    (DocCheckpoint 1 "done") (Some (DocOutcome OutcomeCompleted)) Facts.active_reachable Ho)
    as (db' & Hi & Ho' & _);
    [assumption|exact Hr|assumption|exact Hc|exact Hlt|reflexivity|by apply active_fits
    |reflexivity|reflexivity|reflexivity| | | |].
  - intros ev _. eexists. reflexivity.
  - split.
    + intros i _. destruct (semantic_events Facts.active_db !! MkId (Z.to_N i)) as [v|] eqn:Hvv; [|reflexivity].
      discriminate (proj1 (tbl_forall_spec _ _) Hev _ _ Hvv).
    + intros i j Hi Hj _. cbn in Hi, Hj. lia.
  - rewrite Hseq. discriminate.
  - rewrite Hv in Hi. exists o, db'. rewrite Hi. exact (conj Ho (conj eq_refl Ho')).
Defined.

Lemma intent_commits_witness :
  (immediate (commit_effect_batch_intent Facts.batch Facts.new_effect op1 1 Facts.two_intents)
     Facts.active_db).1 = Ok IntentDone.
Proof.
  destruct (row_that (operations Facts.active_db !! op1)
    (λ o, (o_transition_version o =? 1) && String.eqb (o_phase o) "need_decision" &&
          (o_next_effect_batch_position o <? i64_max))) as (o & Ho & Hb); [vm_compute; reflexivity|].
  split_bools. assert (o_transition_version o = 1) as Hv by assumption.
  assert (o_transition_version o < i64_max) as Hlt by (rewrite Hv; reflexivity).
  assert (cancellation_requested op1 Facts.active_db = false) as Hc; [vm_compute; reflexivity|].
  assert (tbl_forall (λ _ _, false) (effects Facts.active_db) = true) as Hev; [vm_compute; reflexivity|].
  assert (effect_batches Facts.active_db !! Facts.batch = None) as Hnb;
    [apply no_row; vm_compute; reflexivity|].
  assert (∀ o tm m, operations Facts.active_db !! op1 = Some o → o_manifest_json o = Some tm →
    decodes tm m → m = manifest) as HM by (apply Facts.active_manifest; vm_compute; reflexivity).
  assert (∀ x, x ∈ nb_effects Facts.two_intents →
            ni_binding x = "tool" ∧ ni_binding_revision x = "7") as Hnames.
  { intros x [->|Hx]%elem_of_cons; [done|]. by apply list_elem_of_singleton in Hx as ->. }
  rewrite <- Hv. rewrite (intent_commits Facts.active_db Facts.batch Facts.new_effect op1 o Facts.two_intents
    (DocCheckpoint 1 "asked") [DocValue "a"; DocValue "b"] Facts.active_reachable Ho);
    [reflexivity|assumption|exact Hc|exact Hlt|assumption|discriminate|by apply active_fits| |reflexivity
    |reflexivity| |exact Hnb| |discriminate].
  - intros o' tm m Hop Htm Hd x Hx. rewrite (HM o' tm m Hop Htm Hd).
    destruct (Hnames x Hx) as [-> ->]. reflexivity.
  - intros x Hx. destruct (Hnames x Hx) as [-> ->]. split; discriminate.
  - split.
    + intros i _. destruct (effects Facts.active_db !! Facts.new_effect i) as [v|] eqn:Hvv; [|reflexivity].
      discriminate (proj1 (tbl_forall_spec _ _) Hev _ _ Hvv).
    + intros i j Hi Hj E. unfold Facts.new_effect in E. injection E as E. cbn in Hi, Hj. lia.
Defined.

(** * Abandoning an unknown effect batch *)
Section abandonment_theorems.
Context `{KS : KernelSerde} `{!KernelSerdeLaws}.
Implicit Types (db : Database) (o : OperationRow) (e : EffectRow).

Lemma unknown_not_settled db b : batch_shape OutcomeUnknown db b → ¬ children db b settled.
Proof. intros [_ (k & e & He & Hb & Hs)] Hset. specialize (Hset k e He Hb). unfold settled in Hset. congruence. Qed.

Lemma unknown_children_spec db b :
  Static db → batch_shape OutcomeUnknown db b → unknown_children db b = true.
Proof.
  intros HS [HC (k & e & He & Hb & Hs)]. unfold unknown_children. apply andb_true_iff. split.
  - apply tbl_exists_spec. exists k, e. split; [done|].
    rewrite bool_decide_true, Hs by done. cbn. apply bool_decide_eq_true, eq_None_not_Some.
    intros Ho%outcome_iff_settled; [congruence|by eapply st_effect_checks].
  - apply negb_true_iff, not_true_iff_false. rewrite tbl_exists_spec.
    intros (k' & e' & He' & Hc). split_bools.
    destruct (HC k' e' He') as [Hs'|Hs']; [done|by rewrite Hs' in *..].
Qed.

(** Abandoning an operation that is blocked on an unknown effect, at its current
    version and history mark, ends it as failed with the abandonment reason,
    extends the history by the given events, releases the session, and leaves
    every effect in its state: the unknown outcome stays on record. *)
Theorem abandonment_commits db nid s r id o ab tc tx :
  reachable db → operations db !! id = Some o → o_session_id o = s → sessions db !! s = Some r →
  o_phase o = as_str OutcomeUnknown → cancellation_requested id db = false →
  o_transition_version o < i64_max → fits db id (ab_checkpoint ab) →
  encode_json (ab_checkpoint ab) = Ok tc → encode_json abandoned_outcome = Ok tx →
  validate_new_events (ab_events ab) = Ok tt →
  (∀ ev, ev ∈ ab_events ab → ∃ t, encode_json (payload ev) = Ok t) →
  fresh_events db nid (Z.of_nat (length (ab_events ab))) →
  s_next_event_sequence r + Z.of_nat (length (ab_events ab)) ≤ i64_max →
  ∃ db', immediate (commit_unknown_effect_abandonment nid s id (o_transition_version o)
                      (s_next_event_sequence r) ab) db = (Ok abandoned_outcome, db') ∧
    operations db' !! id = Some (ended_row "failed" tc tx o) ∧
    sessions db' !! s = Some (set_active None
                                (bump_sequence (Z.of_nat (length (ab_events ab))) r)) ∧
    (∀ k e, effects db !! k = Some e → ∃ e', effects db' !! k = Some e' ∧ e_status e' = e_status e).
Proof.
  intros HI%reachable_inv Ho Hs Hr Hp Hreq Hlt Hfit Htc Htx Hval Henc Hfr Hmax.
  pose proof (op_shape_at _ _ _ _ (inv_ops _ HI _ _ Ho) Hp)
    as (_ & _ & Hin & Hnone & b & Hb & Hown & Hsh & _).
  assert (s_active_operation_id r = Some id) as Hact.
  { destruct (inv_sessions _ HI _ _ Hr) as [HA _]. apply HA. exists o. split_and!; try done.
    by rewrite (active_phase_as_str o OutcomeUnknown). }
  destruct (append_events_run db nid s id r (ab_events ab) HI Hr) as (rows & Happ & HI1); try done.
  { apply operation_in_session_spec. eauto. }
  set (db1 := appended_db db s r (ab_events ab) rows) in *.
  set (db' := ended_db db1 s (bump_sequence (Z.of_nat (length (ab_events ab))) r) id
                (ended_row "failed" tc tx o)).
  assert (commit_unknown_effect_abandonment nid s id (o_transition_version o)
            (s_next_event_sequence r) ab db = Ok (abandoned_outcome, db')) as Hrun.
  { unfold commit_unknown_effect_abandonment. run_tx done. rewrite Hreq. run_tx (by apply guard_run).
    run_tx (apply read_run; unfold require_high_water; rewrite Hr, decide_True by done;
            unfold from_sql_integer; rewrite (proj2 (Z.leb_le _ _)) by
              (by eapply session_nonneg; [apply HI|]); cbn; by rewrite Z.eqb_refl).
    run_tx (apply read_run; unfold require_unknown_batch_unchanged;
            rewrite Ho, Hp, Z.eqb_refl, !bool_decide_true, Hb by done;
            rewrite (proj2 (batch_of_operation_spec _ _ _) Hown), unknown_children_spec by (done || apply HI);
            reflexivity).
    run_tx (exact Happ). run_tx (by apply lift_run). run_tx (by apply lift_run).
    run_tx (apply update_operation_run; [exact Ho|by rewrite Z.eqb_refl, bool_decide_true, Hp|]).
    - run_tx (by apply require_run).
      run_tx (apply (release_session_run db1); [done|apply lookup_insert_eq|done]). reflexivity.
    - eapply next_version_checks; [by eapply stored_checks|done..|by exists Failed|done]. }
  exists db'. split_and!.
  - apply immediate_ok; [|exact Hrun].
    exact (commit_unknown_effect_abandonment_inv _ _ _ _ _ _ _ _ _ HI Hfit Hrun).
  - cbn. rewrite (proj1 (proj2 (proj2 (proj2 (release_tables _ _))))). apply lookup_insert_eq.
  - cbn. apply lookup_insert_eq.
  - intros k e He. destruct (same_rows_forth _ _ _ _ _
      (release_same_status id (with_operations (<[id := ended_row "failed" tc tx o]> (operations db1)) db1)) He)
      as (e' & He' & _ & Hse). by exists e'.
Qed.

(** ** Loading the state of an unknown effect *)
Lemma elem_of_unknown_batches db id b r :
  (b, r) ∈ unknown_batches db id ↔
  effect_batches db !! b = Some r ∧ b_operation_id r = id ∧
  ∃ k e, effects db !! k = Some e ∧ e_batch_id e = b ∧ e_status e = "outcome_unknown".
Proof.
  unfold unknown_batches. rewrite elem_of_order_by, elem_of_select, andb_true_iff, bool_decide_eq_true.
  rewrite tbl_exists_spec. setoid_rewrite andb_true_iff. setoid_rewrite bool_decide_eq_true.
  setoid_rewrite String.eqb_eq. done.
Qed.

(** A failed operation has at most one batch with an unknown effect. *)
Lemma failed_unknown_batches db id o :
  Inv db → operations db !! id = Some o → o_phase o = as_str Failed →
  unknown_batches db id = [] ∨
  ∃ b r, unknown_batches db id = [(b, r)] ∧ owns db id b ∧ batch_shape OutcomeUnknown db b.
Proof.
  intros HI Ho Hp.
  pose proof (op_shape_at _ _ _ _ (inv_ops _ HI _ _ Ho) Hp) as (_ & _ & _ & _ & _ & open & Hset & Hopen).
  assert (∀ b r, (b, r) ∈ unknown_batches db id → open = Some b ∧ owns db id b ∧
            batch_shape OutcomeUnknown db b) as Hone.
  { intros b r (Hb & Hid & k & e & He & Hbe & Hs)%elem_of_unknown_batches.
    assert (owns db id b) as Hown by by exists r.
    destruct (decide (open = Some b)) as [->|Hne].
    - split_and!; [done..|]. by destruct Hopen as (_ & [[_ ?]|[? _]]).
    - pose proof (Hset b Hown Hne k e He Hbe). unfold settled in *. congruence. }
  assert (NoDup (unknown_batches db id)) as HN.
  { unfold unknown_batches. rewrite order_by_Permutation. eapply NoDup_fmap_1, NoDup_select. }
  destruct (unknown_batches db id) as [|[b r] [|[b2 r2] rest]] eqn:E; [by left|right..].
  - exists b, r. split; [done|]. by apply (Hone b r); left.
  - exfalso. destruct (Hone b r) as [E1 _]; [left|]. destruct (Hone b2 r2) as [E2 _]; [right; left|].
    assert (b2 = b) as -> by congruence.
    assert ((b, r) ∈ unknown_batches db id ∧ (b, r2) ∈ unknown_batches db id) as [H1 H2].
    { rewrite E. split; [left|right; left]. }
    apply elem_of_unknown_batches in H1 as [H1 _], H2 as [H2 _]. assert (r2 = r) as -> by congruence.
    apply NoDup_cons in HN as [HN _]. apply HN. left.
Qed.

Lemma stored_manifest db id o st :
  operations db !! id = Some o → reads_as o st → is_Some (o_manifest_json o) →
  ∃ m, OperationStore.manifest st = Some m ∧ manifest_at id m db.
Proof.
  intros Ho (_ & _ & _ & _ & _ & Hm & _) [tm Htm]. destruct (OperationStore.manifest st) as [m|].
  - exists m. split; [done|]. apply transpose_decode_Some in Hm as (x & Hx & Hd). by exists o, x.
  - rewrite Htm in Hm. cbn in Hm. apply result_bind_ok in Hm as (? & _ & ?). done.
Qed.

Lemma stored_Some {A} `{!Serde A} (t : option Text) (r : option A) :
  transpose decode_json t = Ok r → is_Some t → ∃ a x, r = Some a ∧ t = Some x ∧ decodes x a.
Proof.
  intros E [x ->]. cbn in E. apply result_bind_ok in E as (a & E & [= <-]).
  unfold decode_json in E. apply ok_or_ok in E. eauto.
Qed.

Lemma pending_abandonment_total db id o r st :
  Inv db → operations db !! id = Some o → sessions db !! o_session_id o = Some r →
  o_phase o = as_str OutcomeUnknown → reads_as o st →
  ∃ pa, load_pending_abandonment (s_agent_id r) (o_session_id o) id (s_active_operation_id r) st db
        = Ok (Pending pa) ∧
    pa_transition_version pa = o_transition_version o ∧
    pa_event_high_water pa = s_next_event_sequence r ∧ manifest_at id (pa_manifest pa) db.
Proof.
  intros HI Ho Hr Hp Hreads.
  pose proof (op_shape_at _ _ _ _ (inv_ops _ HI _ _ Ho) Hp)
    as (Hm & Hc & Hin & Hnone & b & Hb & Hown & Hsh & _).
  destruct (stored_manifest _ _ _ _ Ho Hreads Hm) as (m & Hsm & Hmat).
  destruct Hreads as (_ & _ & Hv & Hcur & Hinp & _ & Hck & Hout).
  destruct (stored_Some _ _ Hck Hc) as (c & _ & Hsc & _).
  rewrite Hnone in Hout. cbn in Hout. injection Hout as Hout.
  assert (s_active_operation_id r = Some id) as Hact.
  { destruct (inv_sessions _ HI _ _ Hr) as [HA _]. apply HA. exists o. split_and!; try done.
    by rewrite (active_phase_as_str o OutcomeUnknown). }
  destruct (load_facts_total db id o b m HI Ho Hnone Hown Hmat (Some m)) as (fs & Hfs & _ & H1 & H2);
    [by right|].
  destruct (load_event_page_ok db (o_session_id o) r START HI Hr) as (page & Hpage & Hcursor & _).
  { split; [done|]. by eapply session_nonneg; [apply HI|]. }
  unfold load_pending_abandonment. rewrite decide_True by done. rewrite Hinp, Hin, <- Hout. cbn.
  rewrite Hsm. cbn. rewrite Hsc. cbn. rewrite Hcur, Hb. cbn. rewrite Hfs. cbn.
  rewrite (unknown_facts db b fs H1 H2 Hsh), Hpage. cbn. eexists. split; [done|]. done.
Qed.

Lemma prior_abandonment_total db id o r st b rb :
  Inv db → operations db !! id = Some o → sessions db !! o_session_id o = Some r →
  o_phase o = as_str Failed → reads_as o st →
  unknown_batches db id = [(b, rb)] → owns db id b → batch_shape OutcomeUnknown db b →
  ∃ m reason, load_prior_abandonment (o_session_id o) id (s_active_operation_id r) st db
              = Ok (AlreadyAbandoned m (OutcomeFailed reason)) ∧ manifest_at id m db.
Proof.
  intros HI Ho Hr Hp Hreads HU Hown Hsh.
  pose proof (op_shape_at _ _ _ _ (inv_ops _ HI _ _ Ho) Hp)
    as (Hm & Hc & Hcu & Hin & (t & x & Ht & Hx & Hterm) & _).
  destruct (stored_manifest _ _ _ _ Ho Hreads Hm) as (m & Hsm & Hmat).
  destruct Hreads as (_ & _ & Hv & Hcur & Hinp & _ & Hck & Hout).
  destruct (stored_Some _ _ Hck Hc) as (c & _ & Hsc & _).
  destruct (stored_Some _ _ Hout) as (x' & t' & Hsx & Ht' & Hx'); [by eexists|].
  assert (x' = x) as -> by (unfold decodes in *; congruence). destruct x as [| |reason|]; try done.
  assert (s_active_operation_id r ≠ Some id) as Hact.
  { intros Ha. destruct (inv_sessions _ HI _ _ Hr) as [HA _]. destruct (proj1 (HA id) Ha) as (o' & Ho' & _ & Hact).
    rewrite Ho in Ho'. injection Ho' as <-. by rewrite (active_phase_as_str o Failed) in Hact. }
  destruct (load_facts_open db id o b m HI Ho Hown Hmat) with (om := Some m) as (fs & Hfs & _ & H1 & H2).
  { eapply unsettled_open; [done..|]. by apply unknown_not_settled. }
  { by right. }
  destruct (load_event_page_ok db (o_session_id o) r START HI Hr) as (page & Hpage & _).
  { split; [done|]. by eapply session_nonneg; [apply HI|]. }
  exists m, reason. split; [|done]. unfold load_prior_abandonment.
  rewrite HU, bool_decide_false, Hcur, Hcu, Hinp, Hin by done. cbn. rewrite Hsm. cbn. rewrite Hfs. cbn.
  rewrite (unknown_facts db b fs H1 H2 Hsh), Hsc. cbn. rewrite Hsx. cbn. by rewrite Hpage.
Qed.

(** The state of an unknown effect is reported exactly: an operation blocked on
    an unknown batch is pending, with its version, history mark and frozen
    manifest; a failed operation that left an unknown effect behind is already
    abandoned, with its outcome, so a repeated abandonment changes nothing; in
    every other case there is no unknown effect. *)
Theorem unknown_effect_state_exact db id o r :
  reachable db → operations db !! id = Some o → sessions db !! o_session_id o = Some r →
  let result := load_unknown_effect_state (o_session_id o) id db in
  if String.eqb (o_phase o) "outcome_unknown" then
    ∃ pa, result = Ok (Pending pa) ∧ pa_transition_version pa = o_transition_version o ∧
      pa_event_high_water pa = s_next_event_sequence r ∧ manifest_at id (pa_manifest pa) db
  else if String.eqb (o_phase o) "failed" && negb (bool_decide (unknown_batches db id = [])) then
    ∃ m reason, result = Ok (AlreadyAbandoned m (OutcomeFailed reason)) ∧ manifest_at id m db
  else result = Err (NoUnknownEffect id).
Proof.
  intros HI%reachable_inv Ho Hr. destruct (load_operation_total db id o HI Ho) as (st & Hst & Hreads).
  pose proof Hreads as (_ & Hp & _). unfold load_unknown_effect_state. rewrite Hr. cbn.
  rewrite Hst. cbn. rewrite Hp. destruct (phase st); cbn; try done.
  - by apply pending_abandonment_total.
  - destruct (failed_unknown_batches db id o HI Ho Hp) as [HU|(b & rb & HU & Hown & Hsh)].
    + unfold load_prior_abandonment. by rewrite HU, bool_decide_true.
    + rewrite bool_decide_false by (by rewrite HU). by eapply prior_abandonment_total.
Qed.
End abandonment_theorems.

(** ** Witnesses *)
Import Scenario.

Definition give_in : @UnknownEffectAbandonment doc_json :=
  {| ab_checkpoint := ckpt "abandoned"; ab_events := [] |}.

Lemma abandonment_commits_witness :
  ∃ o db', operations Facts.blocked_db !! op1 = Some o ∧
    operations db' !! op1
    = Some (ended_row "failed" (DocCheckpoint 1 "abandoned") (DocOutcome abandoned_outcome) o).
Proof.
  destruct (row_that (sessions Facts.blocked_db !! session) (λ r, s_next_event_sequence r =? 0))
    as (r & Hr & Hseq%Z.eqb_eq); [vm_compute; reflexivity|].
  destruct (row_that (operations Facts.blocked_db !! op1)
    (λ o, (o_transition_version o <? i64_max) && String.eqb (o_phase o) "outcome_unknown" &&
          bool_decide (o_session_id o = session))) as (o & Ho & Hb); [vm_compute; reflexivity|].
  split_bools.
  assert (cancellation_requested op1 Facts.blocked_db = false) as Hc; [vm_compute; reflexivity|].
  assert (∀ o tm m, operations Facts.blocked_db !! op1 = Some o → o_manifest_json o = Some tm →
    decodes tm m → m = manifest) as HM by (apply Facts.active_manifest; vm_compute; reflexivity).
  destruct (abandonment_commits Facts.blocked_db (λ z, MkId (Z.to_N z)) session r op1 o give_in
    (DocCheckpoint 1 "abandoned") (DocOutcome abandoned_outcome) Facts.blocked_reachable Ho)
    as (db' & _ & Ho' & _);
    [assumption|exact Hr|assumption|exact Hc|assumption| |reflexivity|reflexivity|reflexivity| | | |].
  - intros o' tm m Hop Htm Hd. rewrite (HM o' tm m Hop Htm Hd). reflexivity.
  - intros ev Hev. destruct (not_elem_of_nil ev Hev).
  - split; [intros i Hi|intros i j Hi]; cbn in Hi; lia.
  - rewrite Hseq. discriminate.
  - exists o, db'. exact (conj Ho Ho').
Defined.

Lemma unknown_effect_state_exact_witness :
  ∃ pa, load_unknown_effect_state session op1 Facts.blocked_db = Ok (Pending pa).
Proof.
  destruct (row_that (operations Facts.blocked_db !! op1)
    (λ o, String.eqb (o_phase o) "outcome_unknown" && bool_decide (o_session_id o = session)))
    as (o & Ho & Hb); [vm_compute; reflexivity|]. apply andb_true_iff in Hb as [Hp Hs].
  apply bool_decide_eq_true_1 in Hs.
  destruct (row_that (sessions Facts.blocked_db !! session) (λ _, true)) as (r & Hr & _);
    [vm_compute; reflexivity|]. rewrite <- Hs in Hr.
  pose proof (unknown_effect_state_exact Facts.blocked_db op1 o r Facts.blocked_reachable Ho Hr) as HU.
  cbv zeta in HU. rewrite Hp, Hs in HU. destruct HU as (pa & HU & _). exists pa. exact HU.
Defined.
