(* ===== verification/ReadTheorems.v ===== *)
(** * Projections: inspection, observation and loop input agree with the database *)
From S2P Require Import Prelude Json State Schema SchemaFacts Admission OperationStore EffectStore.
From S2P Require Import Cancellation Inspection Runtime Drive Concrete Invariant AdmissionInv OperationInv.
From S2P Require Import EffectInv DispatchInv Steps DriveSound Lifetime AdmissionTheorems Progress.
From S2P Require Import ActivationTheorems.
Section read_theorems.
Context `{KS : KernelSerde} `{!KernelSerdeLaws}.
Implicit Types (db : Database) (o : OperationRow) (e : EffectRow).

(** ** Snapshots of effects *)
Lemma effect_snapshot_total db o k e :
  effect_checks e = true → effect_inv db o e →
  ∃ x, effect_snapshot (e_position e) (k, e) = Ok x.
Proof.
  intros Hck (_ & HR & HX & _). destruct (stored_status e Hck) as [st Hst].
  destruct (stored_recovery e Hck) as [rc Hrc].
  destruct (transpose_decode_total (A:=Value) (e_request_json e) HR) as (rq & Hrq & _).
  destruct (transpose_decode_total (A:=EffectOutcome) (e_outcome_json e) HX) as (x & Hx & _).
  unfold effect_snapshot. rewrite (require_own_position e Hck). cbn.
  rewrite Hrc, parse_recovery_as_str. cbn. rewrite Hrq. cbn. rewrite Hst, parse_status_name. cbn.
  unfold effect_checks in Hck. split_bools. unfold from_sql_integer.
  rewrite (proj2 (Z.leb_le _ _)) by done. cbn. rewrite Hx. cbn. eauto.
Qed.

Lemma load_effect_snapshots_total db id o b :
  Inv db → operations db !! id = Some o → owns db id b →
  ∃ l, load_effect_snapshots b db = Ok l.
Proof.
  intros HI Ho Hown. pose proof (inv_static _ HI) as HS. destruct (inv_ops _ HI _ _ Ho) as (_ & _ & HE).
  destruct (collect_children effect_snapshot db b HS) as (l & Hl & Hne & _).
  { destruct Hown as (r & ? & _). by eexists. }
  { intros k e He Hb. eapply effect_snapshot_total; [by eapply st_effect_checks|].
    apply (HE k e He). by rewrite Hb. }
  exists l. unfold load_effect_snapshots. rewrite Hl. by destruct l.
Qed.

Lemma operation_batches_lookup db id o j b r :
  Inv db → operations db !! id = Some o → operation_batches db id !! j = Some (b, r) →
  effect_batches db !! b = Some r ∧ b_operation_id r = id ∧ b_position r = Z.of_nat j.
Proof.
  intros HI Ho Hj. pose proof (list_elem_of_lookup_2 _ _ _ Hj) as Hin. unfold operation_batches in *.
  rewrite elem_of_order_by, elem_of_select, bool_decide_eq_true in Hin. destruct Hin as [Hb Hid].
  split_and!; try done.
  eapply (gapless_order_lookup (effect_batches db) (λ r, bool_decide (b_operation_id r = id)) b_position _ _ (b, r));
    [|exact Hj].
  eapply gapless_iff; [|by eapply st_batch_positions; [apply HI|]].
  intros v. by rewrite bool_decide_eq_true.
Qed.

Lemma load_effect_batch_snapshots_total db id o :
  Inv db → operations db !! id = Some o → ∃ l, load_effect_batch_snapshots id db = Ok l.
Proof.
  intros HI Ho. apply collect_enum_total. intros j [b r] Hj.
  destruct (operation_batches_lookup db id o j b r HI Ho Hj) as (Hb & Hid & Hp).
  destruct (load_effect_snapshots_total db id o b HI Ho) as [l Hl]; [by exists r|].
  unfold batch_snapshot, from_sql_integer. cbn. rewrite Hp, (proj2 (Z.leb_le _ _)) by lia. cbn.
  rewrite Z.eqb_refl, Hl. cbn. eauto.
Qed.

(** ** Snapshots of operations *)
Definition snapshot_of (k : OperationId) o (os : OperationSnapshot) : Prop :=
  os_operation_id os = k ∧ os_command_id os = o_command_id o ∧ os_position os = o_position o ∧
  (∃ p, o_phase o = as_str p ∧ os_status os = status p) ∧
  transpose decode_json (o_manifest_json o) = Ok (os_manifest os) ∧
  transpose decode_json (o_checkpoint_json o) = Ok (os_checkpoint os) ∧
  transpose decode_json (o_outcome_json o) = Ok (os_outcome os).

Lemma operation_snapshot_total db id o :
  Inv db → operations db !! id = Some o →
  ∃ os, operation_snapshot db (id, o) = Ok os ∧ snapshot_of id o os.
Proof.
  intros HI Ho. destruct (command_text_total db id o HI Ho) as (t & c & Ht & Hc & Hid).
  destruct (decode_total db id o t c HI Ho Hc Hid) as (st & Hst & Hr & Hcmd).
  destruct (load_effect_batch_snapshots_total db id o HI Ho) as [l Hl].
  unfold operation_snapshot. rewrite Ht. cbn. rewrite Hst. cbn.
  pose proof (stored_checks _ _ _ HI Ho) as Hck. unfold operation_checks in Hck. split_bools.
  unfold from_sql_integer. rewrite (proj2 (Z.leb_le _ _)) by done. cbn. rewrite Hl. cbn.
  destruct Hr as (Hci & Hp & _ & _ & _ & ? & ? & ?). eexists. split; [done|]. split_and!; cbn; eauto.
Qed.

Lemma session_operations_lookup db s r j k o :
  Inv db → sessions db !! s = Some r → session_operations db s !! j = Some (k, o) →
  operations db !! k = Some o ∧ o_session_id o = s.
Proof.
  intros HI Hr Hj%list_elem_of_lookup_2. unfold session_operations in Hj.
  rewrite elem_of_order_by, elem_of_select, andb_true_iff, bool_decide_eq_true in Hj. naive_solver.
Qed.

Lemma session_operations_positions db s r :
  Inv db → sessions db !! s = Some r →
  (λ ko, o_position ko.2) <$> session_operations db s = seqZ 0 (s_next_command_position r).
Proof.
  intros HI Hr. pose proof (st_positions _ (inv_static _ HI) s r Hr) as HG.
  unfold session_operations.
  assert (∀ k o, (k, o) ∈ select (λ _ o, bool_decide (o_session_id o = s) &&
            bool_decide (is_Some (command_text db o))) (operations db) ↔
            operations db !! k = Some o ∧ o_session_id o = s) as Hin.
  { intros k o. rewrite elem_of_select, andb_true_iff, !bool_decide_eq_true. split; [naive_solver|].
    intros [Ho Hs]. split_and!; try done.
    destruct (command_text_total db k o HI Ho) as (t & c & -> & _). by eexists. }
  rewrite <- (Z.sub_0_r (s_next_command_position r)). apply order_by_range.
  - apply NoDup_fmap_2_strong; [|eapply NoDup_fmap_1, NoDup_select].
    intros [k1 v1] [k2 v2] (H1 & S1)%Hin (H2 & S2)%Hin E. cbn in E.
    assert (k1 = k2) as -> by (by eapply (gapless_inj _ _ _ _ _ _ _ _ HG)). by simplify_eq.
  - intros p. destruct HG as [_ HR]. rewrite HR, list_elem_of_fmap. split.
    + intros ([k v] & -> & (Hv & Hs)%Hin). eauto.
    + intros (k & v & Hv & Hs & <-). exists (k, v). split; [done|]. by apply Hin.
Qed.

(** Inspection is total and exact: the snapshot of a session lists all its
    operations in order of admission, without gaps, each with its command,
    status, manifest, checkpoint and outcome as they are stored. *)
Theorem inspect_exact db s r :
  reachable db → sessions db !! s = Some r →
  ∃ snap, inspect s db = Ok snap ∧ ss_agent_id snap = s_agent_id r ∧
    os_position <$> ss_operations snap = seqZ 0 (s_next_command_position r) ∧
    (∀ os, os ∈ ss_operations snap → ∃ o, operations db !! os_operation_id os = Some o ∧
       o_session_id o = s ∧ snapshot_of (os_operation_id os) o os) ∧
    (∀ k o, operations db !! k = Some o → o_session_id o = s →
       ∃ os, os ∈ ss_operations snap ∧ snapshot_of k o os).
Proof.
  intros HI%reachable_inv Hr.
  assert (∀ ko, ko ∈ session_operations db s → ∃ os, operation_snapshot db ko = Ok os ∧
            snapshot_of ko.1 ko.2 os ∧ operations db !! ko.1 = Some ko.2 ∧ o_session_id ko.2 = s) as Htot.
  { intros [k o] [j Hj]%list_elem_of_lookup_1.
    destruct (session_operations_lookup db s r j k o HI Hr Hj) as [Ho Hs].
    destruct (operation_snapshot_total db k o HI Ho) as (os & ? & ?). eauto 10. }
  destruct (collect_total (operation_snapshot db) (session_operations db s)) as [l Hl].
  { intros ko Hin. destruct (Htot ko Hin) as (os & ? & _). eauto. }
  destruct (collect_lookup _ _ _ Hl) as [Hlen HL].
  assert (∀ j ko, session_operations db s !! j = Some ko → ∃ os, l !! j = Some os ∧
            snapshot_of ko.1 ko.2 os ∧ operations db !! ko.1 = Some ko.2 ∧ o_session_id ko.2 = s) as HJ.
  { intros j ko Hj. destruct (HL j ko Hj) as (os & Hos & Hf). exists os. split; [done|].
    destruct (Htot ko) as (os' & Hf' & ?); [by eapply list_elem_of_lookup_2|]. congruence. }
  exists {| ss_agent_id := s_agent_id r; ss_operations := l |}. split_and!; cbn; try done.
  - unfold inspect. rewrite Hr. cbn. by rewrite Hl.
  - rewrite <- (session_operations_positions db s r HI Hr).
    apply list_eq_same_length with (length l); rewrite ?length_fmap; try done.
    intros j x y _ Hx Hy. apply list_lookup_fmap_Some in Hx as (os & -> & Hos), Hy as (ko & -> & Hko).
    destruct (HJ j ko Hko) as (os' & Hos' & (_ & _ & Hp & _) & _). congruence.
  - intros os [j Hj]%list_elem_of_lookup_1.
    destruct (session_operations db s !! j) as [[k o]|] eqn:Ek.
    + destruct (HJ j _ Ek) as (os' & Hos' & Hsn & Ho & Hs). cbn in *. assert (os' = os) as -> by congruence.
      pose proof Hsn as (-> & _). eauto.
    + apply lookup_ge_None in Ek. apply lookup_lt_Some in Hj. lia.
  - intros k o Ho Hs. assert ((k, o) ∈ session_operations db s) as Hin.
    { unfold session_operations. rewrite elem_of_order_by, elem_of_select, andb_true_iff, !bool_decide_eq_true.
      destruct (command_text_total db k o HI Ho) as (t & c & -> & _). split_and!; try done. }
    apply list_elem_of_lookup_1 in Hin as [j Hj]. destruct (HJ j _ Hj) as (os & Hos & Hsn & _).
    exists os. split; [by eapply list_elem_of_lookup_2|done].
Qed.

(** The standing of a command predicts admission: a command of the session is
    reported as admitted exactly when submitting it again, in either mode, is a
    redelivery that changes nothing, and for a new command the report of other
    unfinished operations tells whether exclusive submission behaves as [submit]
    or is refused. *)
Theorem command_standing_predicts db s r cmd t id :
  reachable db → sessions db !! s = Some r → encode_json cmd = Ok t →
  (∀ row, commands db !! command_id cmd = Some row → c_session_id row = s ∧ c_content_json row = t) →
  ∃ st, command_standing s (command_id cmd) db = Ok st ∧
    (admitted st = true → ∀ mode, ∃ adm,
       immediate (submit_with_mode id s cmd mode) db = (Ok adm, db)) ∧
    (admitted st = false →
       if other_unfinished st
       then ∃ k c, immediate (submit_exclusive id s cmd) db = (Err (UnfinishedOperation k c), db)
       else immediate (submit_exclusive id s cmd) db = immediate (submit id s cmd) db).
Proof.
  intros HR Hr Ht Hsame. pose proof (reachable_inv _ HR) as HI. unfold command_standing. rewrite Hr.
  eexists. split; [done|]. cbn. split.
  - intros (k & o & Ho & Hb)%tbl_exists_spec mode. split_bools.
    destruct (st_operation _ (inv_static _ HI) k o Ho) as (_ & row & Hrow & Hrs).
    match goal with H : o_command_id o = command_id cmd |- _ => rewrite H in Hrow end.
    destruct (Hsame row Hrow) as [Hs Hc].
    destruct (stored_command _ _ _ HI Hrow) as (k' & o' & _ & _ & _ & Hp & Hadm).
    eexists. by eapply redelivered.
  - intros Hadm. assert (∀ k o, operations db !! k = Some o → o_session_id o = s →
                          o_command_id o ≠ command_id cmd) as Hno.
    { intros k o Ho Hs Hc. apply not_true_iff_false in Hadm. apply Hadm, tbl_exists_spec. exists k, o.
      by rewrite !bool_decide_true. }
    clear Hadm.
    assert (commands db !! command_id cmd = None) as Hnew.
    { destruct (commands db !! command_id cmd) as [row|] eqn:Hrow; [|done].
      destruct (stored_command _ _ _ HI Hrow) as (k & o & Ho & Hc & Hs & _).
      destruct (Hno k o Ho); [|done]. rewrite Hs. by destruct (Hsame row eq_refl). }
    pose proof (first_unfinished_spec db s) as HF.
    destruct (submit_exclusive_cases db id s cmd t HI Ht Hnew) as [Hidle Hbusy].
    destruct (tbl_exists _ _) eqn:EU.
    + apply tbl_exists_spec in EU as (k & o & Ho & Hb). unfold unfinished in Hb. split_bools.
      destruct (Hbusy k o) as (k' & x & _ & _ & _ & _ & Hi); [done..|].
      exists k', (o_command_id x). exact Hi.
    + apply Hidle. intros j o Ho Hs Hn. apply not_true_iff_false in EU. apply EU, tbl_exists_spec.
      exists j, o. unfold unfinished. split; [done|].
      rewrite !andb_true_iff, !bool_decide_eq_true. split_and!; try done. by eapply Hno.
Qed.

(** ** Observation *)
Lemma observed_operation db s id k o :
  Inv db → latest_row db s id = Some (k, o) → operations db !! k = Some o →
  ∃ p, o_phase o = as_str p ∧
    operation db s id = Ok (Some {| oo_operation_id := k; oo_command_id := o_command_id o;
                                    oo_position := o_position o; oo_status := status p |}).
Proof.
  intros HI HL Ho. destruct (phase_of _ _ _ (inv_ops _ HI _ _ Ho)) as (p & Hp & _). exists p.
  split; [done|]. destruct (st_operation_checks _ (inv_static _ HI) _ _ Ho) as [Hck Hv].
  unfold operation_checks in Hck. split_bools.
  unfold operation. rewrite HL, Hv, Hp, from_database_as_str. cbn. unfold from_sql_integer.
  change (OPERATION_STATE_VERSION <=? u32_max) with true. by rewrite (proj2 (Z.leb_le _ _)) by done.
Qed.

Lemma latest_row_spec db s id k o :
  latest_row db s id = Some (k, o) →
  operations db !! k = Some o ∧ o_session_id o = s ∧ (∀ i, id = Some i → k = i) ∧
  ∀ j x, operations db !! j = Some x → o_session_id x = s → (∀ i, id = Some i → j = i) →
    o_position x ≤ o_position o.
Proof.
  unfold latest_row. intros HL. apply last_Some in HL as [l HL].
  pose proof (order_by_sorted (λ ko : OperationId * OperationRow, o_position ko.2)
    (select (λ k o, bool_decide (o_session_id o = s) &&
       match id with None => true | Some id => bool_decide (k = id) end) (operations db))) as HS.
  assert (∀ j x, (j, x) ∈ l ++ [(k, o)] ↔ operations db !! j = Some x ∧ o_session_id x = s ∧
            (∀ i, id = Some i → j = i)) as Hin.
  { intros j x. rewrite <- HL, elem_of_order_by, elem_of_select, andb_true_iff, bool_decide_eq_true.
    destruct id as [i|]; [rewrite bool_decide_eq_true|]; naive_solver. }
  destruct (proj1 (Hin k o)) as (Ho & Hs & Hid); [apply elem_of_app; right; left|].
  split_and!; try done. intros j x Hx Hxs Hxi.
  assert ((j, x) ∈ l ++ [(k, o)]) as Hj by by apply Hin. rewrite HL in HS.
  apply elem_of_app in Hj as [Hj|Hj%list_elem_of_singleton]; [|by simplify_eq].
  apply StronglySorted_app in HS as (HS & _ & _). specialize (HS (j, x) (k, o) Hj).
  apply HS. left.
Qed.

Lemma latest_row_total db s id j x :
  operations db !! j = Some x → o_session_id x = s → (∀ i, id = Some i → j = i) →
  ∃ k o, latest_row db s id = Some (k, o).
Proof.
  intros Hx Hs Hi. unfold latest_row.
  destruct (last (order_by _ _)) as [[k o]|] eqn:E; [eauto|]. apply last_None, order_by_nil in E.
  assert ((j, x) ∈ select (λ k o, bool_decide (o_session_id o = s) &&
            match id with None => true | Some id => bool_decide (k = id) end) (operations db)) as Hin.
  { apply elem_of_select. split; [done|]. rewrite bool_decide_true by done. cbn.
    destruct id as [i|]; [|done]. apply bool_decide_eq_true. by apply Hi. }
  rewrite E in Hin. by apply elem_of_nil in Hin.
Qed.

(** Observation of a session is total and exact for the supported schema
    versions: it reports the agent, the number of events, the number of queued
    operations, the active operation and the latest admitted one. *)
Theorem observe_session_exact db s r v :
  reachable db → sessions db !! s = Some r → OBSERVED_SINCE ≤ v ≤ SCHEMA_VERSION →
  ∃ obs, observe_session v s db = Ok obs ∧ so_agent_id obs = s_agent_id r ∧
    so_event_count obs = s_next_event_sequence r ∧
    so_queued_operations obs
    = Z.of_nat (length (filter (λ ko, o_session_id ko.2 = s ∧ o_phase ko.2 = "queued")
                          (map_to_list (operations db)))) ∧
    oo_operation_id <$> so_active_operation obs = s_active_operation_id r ∧
    match so_latest_operation obs with
    | Some x => ∃ o, operations db !! oo_operation_id x = Some o ∧ o_session_id o = s ∧
                  oo_position x = s_next_command_position r - 1
    | None => s_next_command_position r = 0
    end.
Proof.
  intros HI%reachable_inv Hr Hv. unfold observe_session.
  rewrite (proj2 (Z.leb_le _ _)), (proj2 (Z.leb_le v _)) by lia. cbn [negb andb]. rewrite Hr. cbn.
  pose proof (session_nonneg _ _ _ (inv_static _ HI) Hr) as [Hnp Hne].
  destruct (inv_sessions _ HI _ _ Hr) as [HA _].
  assert (∃ act, transpose (λ id, found ← operation db s (Some id);
      ok_or found (Corrupt "active operation does not belong to its session")) (s_active_operation_id r)
      = Ok act ∧ oo_operation_id <$> act = s_active_operation_id r) as (act & -> & Hact).
  { destruct (s_active_operation_id r) as [id|] eqn:Ha; [|by exists None].
    destruct (proj1 (HA id) eq_refl) as (o & Ho & Hs & _).
    destruct (latest_row_total db s (Some id) id o Ho Hs) as (k & x & HL); [by intros ? [= <-]|].
    destruct (latest_row_spec _ _ _ _ _ HL) as (Hk & _ & Hid & _). specialize (Hid id eq_refl). subst k.
    destruct (observed_operation db s (Some id) id x HI HL Hk) as (p & _ & Hobs). cbn.
    rewrite Hobs. cbn. eexists. done. }
  cbn.
  assert (∃ lt, operation db s None = Ok lt ∧
    match lt with
    | Some x => ∃ o, operations db !! oo_operation_id x = Some o ∧ o_session_id o = s ∧
                  oo_position x = s_next_command_position r - 1
    | None => s_next_command_position r = 0
    end) as (lt & -> & Hlt).
  { pose proof (st_positions _ (inv_static _ HI) s r Hr) as HG.
    destruct (latest_row db s None) as [[k o]|] eqn:HL.
    - destruct (latest_row_spec _ _ _ _ _ HL) as (Hk & Hs & _ & Hmax).
      destruct (observed_operation db s None k o HI HL Hk) as (p & _ & Hobs). rewrite Hobs.
      eexists. split; [done|]. cbn. exists o. split_and!; try done.
      pose proof (gapless_bounds _ _ _ _ _ _ HG Hk Hs) as Hb. destruct HG as [_ HR].
      destruct (proj1 (HR (s_next_command_position r - 1)) ltac:(lia)) as (j & x & Hx & Hxs & Hp).
      specialize (Hmax j x Hx Hxs ltac:(done)). lia.
    - eexists. unfold operation. rewrite HL. split; [done|].
      destruct (decide (s_next_command_position r = 0)) as [|Hn]; [done|]. destruct HG as [_ HR].
      destruct (proj1 (HR 0) ltac:(lia)) as (j & x & Hx & Hxs & _).
      destruct (latest_row_total db s None j x Hx Hxs) as (k & o & ?); [done|]. congruence. }
  cbn. rewrite (proj2 (from_sql_integer_ok (s_next_event_sequence r) _ _) (conj eq_refl Hne)). cbn.
  rewrite (proj2 (from_sql_integer_ok (Z.of_nat _) _ _) (conj eq_refl (Nat2Z.is_nonneg _))). cbn.
  eexists. split; [done|]. cbn. split_and!; try done.
  unfold select. f_equal. f_equal. apply filter_bool. intros [k o]. cbn.
  by rewrite andb_true_iff, bool_decide_eq_true, String.eqb_eq.
Qed.
End read_theorems.

(** ** Witnesses *)
Import Scenario.

Lemma inspect_exact_witness :
  ∃ snap, inspect session Facts.done_db = Ok snap ∧ os_position <$> ss_operations snap = [0; 1].
Proof.
  destruct (row_that (sessions Facts.done_db !! session) (λ r, s_next_command_position r =? 2))
    as (r & Hr & Hp%Z.eqb_eq); [vm_compute; reflexivity|].
  destruct (inspect_exact Facts.done_db session r Facts.done_reachable Hr) as (snap & Hi & _ & Hpos & _).
  rewrite Hp in Hpos. exists snap. exact (conj Hi Hpos).
Defined.

Lemma command_standing_predicts_witness :
  ∃ st, command_standing session (MkId 23) Facts.done_db = Ok st ∧
    (admitted st = false →
     if other_unfinished st
     then ∃ k c, immediate (submit_exclusive (MkId 13) session (cmd 23 "third")) Facts.done_db
                 = (Err (UnfinishedOperation k c), Facts.done_db)
     else immediate (submit_exclusive (MkId 13) session (cmd 23 "third")) Facts.done_db
          = immediate (submit (MkId 13) session (cmd 23 "third")) Facts.done_db).
Proof.
  destruct (row_that (sessions Facts.done_db !! session) (λ _, true)) as (r & Hr & _);
    [vm_compute; reflexivity|].
  assert (commands Facts.done_db !! command_id (cmd 23 "third") = None) as Hc; [apply no_row; vm_compute; reflexivity|].
  destruct (command_standing_predicts Facts.done_db session r (cmd 23 "third") (DocCommand (MkId 23) "third")
    (MkId 13) Facts.done_reachable Hr eq_refl) as (st & Hs & _ & Hst).
  - intros row Hrow. rewrite Hc in Hrow. discriminate Hrow.
  - exists st. exact (conj Hs Hst).
Defined.

Lemma observe_session_exact_witness :
  ∃ obs, observe_session 3 session Facts.blocked_db = Ok obs ∧
    oo_operation_id <$> so_active_operation obs = Some op1.
Proof.
  destruct (row_that (sessions Facts.blocked_db !! session)
    (λ r, bool_decide (s_active_operation_id r = Some op1))) as (r & Hr & Ha%bool_decide_eq_true_1);
    [vm_compute; reflexivity|].
  destruct (observe_session_exact Facts.blocked_db session r 3 Facts.blocked_reachable Hr)
    as (obs & Ho & _ & _ & _ & Hact & _); [split; discriminate|].
  rewrite Ha in Hact. exists obs. exact (conj Ho Hact).
Defined.

(** * Runtimes, drive leases and refused drives *)
(** ** Building a runtime *)
Section runtime_theorems.
Context `{JL : JsonLib} {Adapter : Type}.
Implicit Types (e : EffectBinding Adapter).

Definition named e : Prop := eb_name e ≠ "" ∧ eb_revision e ≠ "".

Lemma require_text_ok v f u : require_text v f = Ok u ↔ v ≠ "".
Proof. unfold require_text. destruct (String.eqb_spec v ""); destruct u; naive_solver. Qed.

(** The loop succeeds exactly on named bindings without duplicates, and builds the
    two maps of them. *)
Lemma bind_effects_ok effects : ∀ b r,
  dom b = dom r →
  match bind_effects (Adapter:=Adapter) effects b r with
  | Ok (b', r') =>
      Forall named effects ∧ NoDup (eb_name <$> effects) ∧ (∀ e, e ∈ effects → b !! eb_name e = None) ∧
      (∀ n v, b' !! n = Some v ↔ b !! n = Some v ∨ ∃ e, e ∈ effects ∧ eb_name e = n ∧ eb_revision e = v) ∧
      (∀ n e, r' !! n = Some e ↔ r !! n = Some e ∨ e ∈ effects ∧ eb_name e = n)
  | Err _ => ¬ (Forall named effects ∧ NoDup (eb_name <$> effects) ∧
                ∀ e, e ∈ effects → b !! eb_name e = None)
  end.
Proof.
  induction effects as [|e effects IH]; intros b r Hdom; cbn.
  { split_and!.
    - by constructor.
    - by constructor.
    - by intros e ?%elem_of_nil.
    - intros k v. split; [by left|]. intros [?|(e & ?%elem_of_nil & _)]; done.
    - intros k e. split; [by left|]. intros [?|[?%elem_of_nil _]]; done. }
  unfold require_text. destruct (String.eqb_spec (eb_name e) "") as [Hn|Hn]; cbn.
  { intros (HF & _). apply Forall_cons in HF as [[? _] _]. done. }
  destruct (String.eqb_spec (eb_revision e) "") as [Hr|Hr]; cbn.
  { intros (HF & _). apply Forall_cons in HF as [[_ ?] _]. done. }
  case_decide as Hd.
  { intros (_ & _ & HD). specialize (HD e ltac:(left)). rewrite HD in Hd. by destruct Hd. }
  apply eq_None_not_Some in Hd.
  specialize (IH (<[eb_name e := eb_revision e]> b) (<[eb_name e := e]> r)).
  rewrite !dom_insert_L, Hdom in IH. specialize (IH eq_refl).
  destruct (bind_effects effects _ _) as [[b' r']|err].
  - destruct IH as (HF & HN & HD & Hb & Hrr).
    assert (∀ e', e' ∈ effects → eb_name e' ≠ eb_name e) as Hne.
    { intros e' He' Heq. specialize (HD e' He'). by rewrite Heq, lookup_insert_eq in HD. }
    split_and!.
    + constructor; [by split|done].
    + constructor; [|done]. intros (e' & Heq & He')%list_elem_of_fmap. by apply (Hne e').
    + intros e' [->|He']%elem_of_cons; [done|]. specialize (HD e' He').
      rewrite lookup_insert_ne in HD; [done|]. by apply not_eq_sym, Hne.
    + intros n v. rewrite Hb, lookup_insert_Some. setoid_rewrite elem_of_cons. split.
      * intros [[[<- <-]|[_ ?]]|(e' & ? & ? & ?)]; eauto 10.
      * intros [Hv|(e' & [->|He'] & <- & <-)]; [|by left; left|right; eauto].
        left. right. split; [|done]. intros <-. congruence.
    + intros n e'. rewrite Hrr, lookup_insert_Some, elem_of_cons. split.
      * intros [[[<- <-]|[_ ?]]|[? ?]]; auto.
      * intros [Hv|[[->|He'] <-]]; [|by left; left|by right]. left. right. split; [|done].
        intros <-. apply eq_None_not_Some in Hd. apply Hd.
        apply elem_of_dom. rewrite Hdom. by eapply elem_of_dom_2.
  - intros (HF & HN & HD). apply IH. apply Forall_cons in HF as [_ HF]. cbn in HN.
    apply NoDup_cons in HN as [Hnin HN]. split_and!; try done. intros e' He'.
    rewrite lookup_insert_ne; [apply HD; by right|]. intros Heq. apply Hnin. rewrite Heq.
    by apply list_elem_of_fmap_2.
Qed.

Lemma runtime_new_spec lb n cfg (effects : list (EffectBinding Adapter)) :
  match runtime_new lb n cfg effects with
  | Ok rt =>
      rt_plugin rt = lb_plugin lb ∧ loop_binding (rt_manifest rt) = lb_name lb ∧
      loop_revision (rt_manifest rt) = lb_revision lb ∧ checkpoint_schema_version (rt_manifest rt) = n ∧
      config_digest (rt_manifest rt) = cfg ∧
      lb_name lb ≠ "" ∧ lb_revision lb ≠ "" ∧ n ≠ 0 ∧ cfg ≠ "" ∧
      Forall named effects ∧ NoDup (eb_name <$> effects) ∧
      (∀ name rev, effect_bindings (rt_manifest rt) !! name = Some rev ↔
         ∃ e, e ∈ effects ∧ eb_name e = name ∧ eb_revision e = rev) ∧
      (∀ name rev a, resolve_effect rt name rev = Some a ↔
         ∃ e, e ∈ effects ∧ eb_name e = name ∧ eb_revision e = rev ∧ eb_adapter e = a)
  | Err _ =>
      ¬ (lb_name lb ≠ "" ∧ lb_revision lb ≠ "" ∧ n ≠ 0 ∧ cfg ≠ "" ∧
         Forall named effects ∧ NoDup (eb_name <$> effects))
  end.
Proof.
  unfold runtime_new, require_text.
  destruct (String.eqb_spec (lb_name lb) "") as [|H1]; cbn; [naive_solver|].
  destruct (String.eqb_spec (lb_revision lb) "") as [|H2]; cbn; [naive_solver|].
  destruct (Z.eqb_spec n 0) as [|H3]; cbn; [naive_solver|].
  destruct (String.eqb_spec cfg "") as [|H4]; cbn; [naive_solver|].
  pose proof (bind_effects_ok effects ∅ ∅ eq_refl) as HB.
  destruct (bind_effects effects ∅ ∅) as [[b r]|err]; cbn.
  - destruct HB as (HF & HN & _ & Hb & Hr). split_and!; try done.
    + intros name rev. rewrite Hb, lookup_empty. naive_solver.
    + intros name rev a. unfold resolve_effect. cbn.
      assert (∀ e, r !! name = Some e ↔ e ∈ effects ∧ eb_name e = name) as Hr'.
      { intros e. rewrite Hr, lookup_empty. naive_solver. }
      destruct (r !! name) as [e|] eqn:Er.
      * destruct (proj1 (Hr' e) eq_refl) as [He Hn].
        assert (∀ e', e' ∈ effects → eb_name e' = name → e' = e) as Huniq.
        { intros e' He' Hn'. assert (Some e = Some e') as [= ->] by by apply Hr'. done. }
        destruct (String.eqb_spec (eb_revision e) rev) as [Hrev|Hrev]; split; [|naive_solver..].
        intros [= <-]. eauto 10.
      * split; [done|]. intros (e & He & Hn & _). assert (None = Some e) by by apply Hr'. done.
  - intros (_ & _ & _ & _ & HF & HN). apply HB. split_and!; try done.
Qed.

(** A runtime is built exactly from non-empty identities, a positive checkpoint
    schema and distinctly named bindings; its manifest freezes the revision of
    every binding, and it resolves a name and revision exactly to the adapter
    offered under them. *)
Theorem runtime_new_exact lb n cfg (effects : list (EffectBinding Adapter)) :
  match runtime_new lb n cfg effects with
  | Ok rt =>
      lb_name lb ≠ "" ∧ lb_revision lb ≠ "" ∧ n ≠ 0 ∧ cfg ≠ "" ∧
      Forall named effects ∧ NoDup (eb_name <$> effects) ∧
      (∀ name rev, effect_bindings (rt_manifest rt) !! name = Some rev ↔
         ∃ e, e ∈ effects ∧ eb_name e = name ∧ eb_revision e = rev) ∧
      (∀ name rev a, resolve_effect rt name rev = Some a ↔
         ∃ e, e ∈ effects ∧ eb_name e = name ∧ eb_revision e = rev ∧ eb_adapter e = a)
  | Err _ =>
      ¬ (lb_name lb ≠ "" ∧ lb_revision lb ≠ "" ∧ n ≠ 0 ∧ cfg ≠ "" ∧
         Forall named effects ∧ NoDup (eb_name <$> effects))
  end.
Proof.
  pose proof (runtime_new_spec lb n cfg effects) as HS. destruct (runtime_new lb n cfg effects); [|done].
  destruct HS as (_ & _ & _ & _ & _ & HS). done.
Qed.
End runtime_theorems.

(** ** Leases *)

(** Drive leases exclude: in every state of the lease protocol, with any number
    of drivers, effect tasks, signals and drops, a session has at most one
    driver; it is free exactly when no driver and no effect task of it is
    alive, and then, and only then, a lease can be acquired. *)
Theorem lease_exclusive st s :
  rtc lease_step lease_init st →
  (occurrences s (ls_drivers st) ≤ 1%nat)%nat ∧
  match acquire (ls_running st) s with
  | Ok _ => (s ∉ ls_drivers st) ∧ (s ∉ ls_tasks st)
  | Err e => e = Busy s ∧ (s ∈ ls_drivers st ∨ s ∈ ls_tasks st)
  end.
Proof.
  intros HI%lease_inv_reachable. split; [by apply HI|].
  pose proof (lease_inv_entry st s HI) as HE. unfold acquire. case_decide as Hd.
  - split; [done|]. by apply HE.
  - split; intros Hin; apply Hd, HE; auto.
Qed.

(** ** Refused drives *)
Section refused.
Context `{KS : KernelSerde} `{!KernelSerdeLaws} {Adapter : Type}.

(** A drive with a runtime that differs from the manifest the active operation
    was frozen with is refused: nothing is invoked, and the database and the
    lease table are left as they were. *)
Theorem drive_refuses_other_runtime (env : Environment Adapter) fuel s rt (w : World) r id m :
  reachable (w_db w) → w_running w !! s = None →
  (∀ n db, interfere env n db = db) → (∀ n, io_failure env n = None) →
  sessions (w_db w) !! s = Some r → s_active_operation_id r = Some id →
  manifest_at id m (w_db w) → m ≠ rt_manifest rt →
  drive fuel env s rt w
  = (Err RuntimeMismatch, MkWorld (w_db w) (w_running w) (S (w_clock w)) (w_trace w)).
Proof.
  intros HI%reachable_inv Hfree Hint Hio Hr Ha Hm Hne.
  destruct (inv_sessions _ HI _ _ Hr) as [HA _].
  destruct (proj1 (HA id) Ha) as (o & Ho & Hs & Hact). subst s.
  destruct (active_phase_spec _ _ _ (inv_ops _ HI _ _ Ho) Hact) as (p & Hp & Hcan & HS).
  destruct (active_shape _ _ _ _ HS Hcan) as [Hms _].
  destruct (load_active_query_total (w_db w) (s_agent_id r) id o HI Ho Hms)
    as (act & Hq & _ & Hid & _ & _ & _ & _ & _ & Hman).
  assert (a_manifest act = m) as Heq.
  { destruct Hm as (o1 & t1 & Ho1 & Ht1 & Hd1), Hman as (o2 & t2 & Ho2 & Ht2 & Hd2).
    unfold decodes in *. simplify_eq. congruence. }
  assert (immediate (activate (o_session_id o) (rt_manifest rt)) (w_db w) = (Ok (Some act), w_db w)) as Hact'.
  { apply immediate_ok; [done|]. unfold activate. run_tx (apply read_run; by rewrite Hr).
    rewrite Ha. by run_tx (by apply read_run). }
  unfold drive, with_lease, acquire. rewrite decide_False by (rewrite Hfree; by intros []).
  unfold drive_leased, mbind, D_bind, transaction. cbn. rewrite Hio, Hint, Hact'. cbn.
  unfold try_running, bind. cbn. rewrite lookup_insert_eq. cbn.
  rewrite Heq, bool_decide_false by done. cbn. f_equal. f_equal.
  unfold drop_lease. rewrite lookup_insert_eq. cbn. rewrite delete_insert_eq, delete_insert_id; done.
Qed.
End refused.

(** ** Witnesses *)
Import Scenario.

Lemma lease_exclusive_witness :
  rtc lease_step lease_init lease_init ∧
  match acquire (ls_running lease_init) session with
  | Ok _ => (session ∉ ls_drivers lease_init) ∧ (session ∉ ls_tasks lease_init)
  | Err e => e = Busy session ∧ (session ∈ ls_drivers lease_init ∨ session ∈ ls_tasks lease_init)
  end.
Proof.
  split; [apply rtc_refl|].
  exact (proj2 (lease_exclusive lease_init session (rtc_refl _ _))).
Defined.

(** The runtime of the scenario under another configuration. *)
Definition other_runtime : Runtime unit :=
  {| rt_manifest :=
       {| loop_binding := "loop"; loop_revision := "1"; checkpoint_schema_version := 1;
          effect_bindings := {["tool" := "7"]}; config_digest := "other" |};
     rt_plugin := plugin NeverReplay; rt_effects := {["tool" := tool]} |}.

Lemma drive_refuses_other_runtime_witness :
  drive 10 (env Facts.unknown) session other_runtime (world 0 Facts.active_db)
  = (Err RuntimeMismatch, MkWorld Facts.active_db ∅ 1 []).
Proof.
  destruct (row_that (sessions Facts.active_db !! session)
    (λ r, bool_decide (s_active_operation_id r = Some op1))) as (r & Hr & Ha%bool_decide_eq_true_1);
    [vm_compute; reflexivity|].
  destruct (row_that (operations Facts.active_db !! op1)
    (λ o : @OperationRow doc_json, bool_decide (o_manifest_json o = Some (DocManifest manifest))))
    as (o & Ho & Hm%bool_decide_eq_true_1); [vm_compute; reflexivity|].
  apply (drive_refuses_other_runtime (env Facts.unknown) 10 session other_runtime
    (world 0 Facts.active_db) r op1 manifest Facts.active_reachable).
  - reflexivity.
  - reflexivity.
  - reflexivity.
  - exact Hr.
  - exact Ha.
  - exists o, (DocManifest manifest). exact (conj Ho (conj Hm eq_refl)).
  - discriminate.
Defined.
