(* ===== verification/Text.v ===== *)
(** * Rust strings

    A Rust [str] is modelled by its UTF-8 bytes, a [string]; [len] counts bytes
    and [chars] groups a leading byte with its continuation bytes. The string
    operations of the standard library that the agent loop uses are defined on
    that representation: [trim], [lines], [strip_prefix], [starts_with],
    [replace], decimal formatting and parsing, and hexadecimal digests. *)
From stdpp Require Import pretty.
From S2P Require Import Prelude.

Definition len (s : string) : Z := Z.of_nat (String.length s).
Definition is_empty (s : string) : bool := String.eqb s "".

(** [Result::map_err]. *)
Definition map_err {E F A} (f : E → F) (r : Result E A) : Result F A :=
  match r with Ok a => Ok a | Err e => Err (f e) end.

Lemma map_err_ok {E F A} (f : E → F) (r : Result E A) a : map_err f r = Ok a ↔ r = Ok a.
Proof. destruct r; cbn; naive_solver. Qed.

(** ** Characters *)
Definition is_continuation (a : Ascii.ascii) : bool :=
  let n := Ascii.N_of_ascii a in (128 <=? n)%N && (n <? 192)%N.

Definition continues (s : string) : bool :=
  match s with String a _ => is_continuation a | EmptyString => false end.

Fixpoint chars (s : string) : list string :=
  match s with
  | EmptyString => []
  | String a s' =>
      match chars s' with
      | c :: cs => if continues c then String a c :: cs else String a "" :: c :: cs
      | [] => [String a ""]
      end
  end.

(** [String::from_iter] of characters, and [Vec<String>::concat]. *)
Fixpoint concat_chars (cs : list string) : string :=
  match cs with [] => "" | c :: cs' => c +:+ concat_chars cs' end.

Definition bytes (c : string) : list N := Ascii.N_of_ascii <$> String.list_ascii_of_string c.

(** [char::is_whitespace]: the Unicode property White_Space. *)
Definition is_whitespace (c : string) : bool :=
  match bytes c with
  | [b] => ((9 <=? b) && (b <=? 13) || (b =? 32))%N
  | [194; b]%N => ((b =? 133) || (b =? 160))%N
  | [225; 154; 128]%N => true
  | [226; 128; b]%N => ((128 <=? b) && (b <=? 138) || (b =? 168) || (b =? 169) || (b =? 175))%N
  | [226; 129; 159]%N => true
  | [227; 128; 128]%N => true
  | _ => false
  end.

(** [char::is_control]: the category Cc. *)
Definition is_control (c : string) : bool :=
  match bytes c with
  | [b] => ((b <? 32) || (b =? 127))%N
  | [194; b]%N => ((128 <=? b) && (b <=? 159))%N
  | _ => false
  end.

Definition is_ascii_byte (a : Ascii.ascii) : bool := (Ascii.N_of_ascii a <? 128)%N.
Definition is_ascii_control (a : Ascii.ascii) : bool :=
  let n := Ascii.N_of_ascii a in ((n <? 32) || (n =? 127))%N.
Definition is_ascii_lowercase (a : Ascii.ascii) : bool :=
  let n := Ascii.N_of_ascii a in ((97 <=? n) && (n <=? 122))%N.
Definition is_ascii_digit (a : Ascii.ascii) : bool :=
  let n := Ascii.N_of_ascii a in ((48 <=? n) && (n <=? 57))%N.

(** ** Trimming *)
Fixpoint skip_while {A} (p : A → bool) (l : list A) : list A :=
  match l with
  | [] => []
  | a :: l' => if p a then skip_while p l' else l
  end.

Definition trim (s : string) : string :=
  concat_chars (rev (skip_while is_whitespace (rev (skip_while is_whitespace (chars s))))).

(** [s.trim().is_empty()]. *)
Definition is_blank (s : string) : bool := is_empty (trim s).

(** ** Lines *)
Definition newline : Ascii.ascii := Ascii.ascii_of_N 10.
Definition carriage_return : Ascii.ascii := Ascii.ascii_of_N 13.
Definition nl : string := String newline "".

(** A line that ended with a line feed loses one carriage return before it. *)
Fixpoint strip_cr (s : string) : string :=
  match s with
  | EmptyString => EmptyString
  | String a EmptyString => if Ascii.eqb a carriage_return then EmptyString else s
  | String a s' => String a (strip_cr s')
  end.

(** The lines of [s], the current line so far being [acc]. *)
Fixpoint lines_from (acc s : string) : list string :=
  match s with
  | EmptyString => if is_empty acc then [] else [acc]
  | String a s' =>
      if Ascii.eqb a newline then strip_cr acc :: lines_from "" s'
      else lines_from (acc +:+ String a "") s'
  end.
Definition lines (s : string) : list string := lines_from "" s.

(** ** Prefixes and replacement *)
Fixpoint strip_prefix (s prefix : string) {struct prefix} : option string :=
  match prefix, s with
  | EmptyString, _ => Some s
  | String p prefix', String a s' => if Ascii.eqb p a then strip_prefix s' prefix' else None
  | String _ _, EmptyString => None
  end.

Definition starts_with (s prefix : string) : bool :=
  match strip_prefix s prefix with Some _ => true | None => false end.

(** [str::replace] of one ASCII character. *)
Fixpoint replace_char (a : Ascii.ascii) (by_ s : string) : string :=
  match s with
  | EmptyString => EmptyString
  | String b s' => if Ascii.eqb a b then by_ +:+ replace_char a by_ s'
                   else String b (replace_char a by_ s')
  end.

Fixpoint join (separator : string) (l : list string) : string :=
  match l with
  | [] => ""
  | [s] => s
  | s :: l' => s +:+ separator +:+ join separator l'
  end.

(** ** Numbers *)

(** [Display] of an unsigned integer. *)
Definition show (z : Z) : string := pretty z.

(** [str::parse::<u32>]: an optional plus sign, then at least one digit, within range. *)
Fixpoint parse_digits (acc : Z) (s : string) : option Z :=
  match s with
  | EmptyString => Some acc
  | String a s' =>
      if is_ascii_digit a
      then let acc' := 10 * acc + Z.of_N (Ascii.N_of_ascii a) - 48 in
           if acc' <=? u32_max then parse_digits acc' s' else None
      else None
  end.
Definition parse_u32 (s : string) : option Z :=
  let digits := match strip_prefix s "+" with Some rest => rest | None => s end in
  if is_empty digits then None else parse_digits 0 digits.

Definition HEX : list string :=
  ["0"; "1"; "2"; "3"; "4"; "5"; "6"; "7"; "8"; "9"; "a"; "b"; "c"; "d"; "e"; "f"].
Definition hex_digit (n : N) : string := default "" (HEX !! N.to_nat n).
Fixpoint hex_digest (digest : string) : string :=
  match digest with
  | EmptyString => EmptyString
  | String a rest =>
      let byte := Ascii.N_of_ascii a in
      hex_digit (N.shiftr byte 4) +:+ hex_digit (N.land byte 15) +:+ hex_digest rest
  end.

(** ** Lemmas *)
#[local] Arguments String.append !_ _ : simpl nomatch.
Lemma string_app_empty_r (s : string) : s +:+ "" = s.
Proof. induction s as [|a s IH]; cbn; congruence. Qed.

Lemma hex_digest_nonempty s : s ≠ "" → hex_digest s ≠ "".
Proof.
  destruct s as [|a s]; [done|]. intros _. cbn [hex_digest].
  assert (∃ b d, hex_digit (N.shiftr (Ascii.N_of_ascii a) 4) = String b d) as (b & d & ->); [|done].
  destruct a as [[] [] [] [] [] [] [] []]; by do 2 eexists.
Qed.

Lemma string_app_assoc (s t u : string) : (s +:+ t) +:+ u = s +:+ (t +:+ u).
Proof. induction s as [|a s IH]; cbn; congruence. Qed.

Lemma concat_chars_app l1 l2 : concat_chars (l1 ++ l2) = concat_chars l1 +:+ concat_chars l2.
Proof. induction l1 as [|c l1 IH]; cbn; [done|]. by rewrite IH, string_app_assoc. Qed.

(** Characters partition the string. *)
Lemma concat_chars_chars s : concat_chars (chars s) = s.
Proof.
  induction s as [|a s IH]; cbn; [done|]. destruct (chars s) as [|c cs] eqn:E; cbn in *.
  - by rewrite <- IH.
  - destruct (continues c); cbn; by rewrite IH.
Qed.

Lemma chars_nonempty s : Forall (λ c, c ≠ "") (chars s).
Proof.
  induction s as [|a s IH]; cbn; [constructor|].
  destruct (chars s) as [|c cs]; [by repeat constructor|]. apply Forall_cons in IH as [? ?].
  destruct (continues c); repeat constructor; done.
Qed.

Lemma skip_while_suffix {A} (p : A → bool) l : ∃ l', l = l' ++ skip_while p l ∧ Forall (λ a, p a = true) l'.
Proof.
  induction l as [|a l IH]; cbn; [by exists []|]. destruct (p a) eqn:E; [|by exists []].
  destruct IH as (l' & El & HF). exists (a :: l'). cbn. rewrite <- El. auto.
Qed.

Lemma strip_prefix_Some s p r : strip_prefix s p = Some r ↔ s = p +:+ r.
Proof.
  revert s. induction p as [|b p IH]; intros s; cbn; [split; congruence|].
  destruct s as [|a s]; cbn; [done|]. destruct (Ascii.eqb_spec b a) as [->|Hne].
  - rewrite IH. split; [by intros ->|by intros [= ->]].
  - split; [done|]. intros [= -> ->]. done.
Qed.

Lemma starts_with_spec s p : starts_with s p = true ↔ ∃ r, s = p +:+ r.
Proof.
  unfold starts_with. destruct (strip_prefix s p) as [r|] eqn:E.
  - split; [|done]. intros _. exists r. by apply strip_prefix_Some.
  - split; [done|]. intros [r Hr]. apply strip_prefix_Some in Hr. congruence.
Qed.

(** ** Decimal text round trips *)
Lemma digit_char x : (x < 10)%N →
  is_ascii_digit (pretty_N_char x) = true ∧ Ascii.N_of_ascii (pretty_N_char x) = (48 + x)%N.
Proof.
  intros Hx. assert (x = 0 ∨ x = 1 ∨ x = 2 ∨ x = 3 ∨ x = 4 ∨ x = 5 ∨ x = 6 ∨ x = 7 ∨ x = 8 ∨ x = 9)%N
    as Hc by lia. by destruct_or! Hc; subst.
Qed.

Lemma parse_pretty_go x : ∀ s, Z.of_N x ≤ u32_max →
  parse_digits 0 (pretty_N_go x s) = parse_digits (Z.of_N x) s.
Proof.
  induction (N.lt_wf_0 x) as [x _ IH]; intros s Hx.
  destruct (decide (x = 0)%N) as [->|Hne]; [by rewrite pretty_N_go_0|].
  rewrite pretty_N_go_step by lia.
  pose proof (N.div_lt x 10 ltac:(lia) ltac:(lia)) as Hd. rewrite IH by (done || lia). cbn.
  destruct (digit_char (x `mod` 10)%N) as [-> ->]; [by apply N.mod_lt|].
  pose proof (N.div_mod x 10 ltac:(lia)) as Hdm. set (q := (x `div` 10)%N) in *. set (r := (x `mod` 10)%N) in *.
  replace (10 * Z.of_N q + Z.of_N (48 + r) - 48) with (Z.of_N x) by lia.
  destruct (Z.leb_spec (Z.of_N x) u32_max); [done|lia].
Qed.

Lemma pretty_go_digit x : ∀ a s, is_ascii_digit a = true →
  ∃ b r, pretty_N_go x (String a s) = String b r ∧ is_ascii_digit b = true.
Proof.
  induction (N.lt_wf_0 x) as [x _ IH]; intros a s Ha.
  destruct (decide (x = 0)%N) as [->|Hne]; [rewrite pretty_N_go_0; eauto|].
  rewrite pretty_N_go_step by lia. apply IH; [by apply N.div_lt; lia|].
  apply digit_char. by apply N.mod_lt.
Qed.

Lemma show_N n : show (Z.of_N n) = pretty n.
Proof. by destruct n. Qed.

Lemma show_inj x y : show x = show y → x = y.
Proof. apply pretty_Z_inj. Qed.

Lemma parse_show z : 0 ≤ z ≤ u32_max → parse_u32 (show z) = Some z.
Proof.
  intros Hz. rewrite <- (Z2N.id z), show_N by lia. set (n := Z.to_N z). unfold parse_u32.
  unfold pretty, pretty_N. case_decide as Hn; [by rewrite Hn|].
  pose proof (parse_pretty_go n "" ltac:(unfold n; lia)) as Hp.
  rewrite pretty_N_go_step in Hp |- * by lia.
  destruct (pretty_go_digit (n `div` 10)%N (pretty_N_char (n `mod` 10)%N) "") as (b & r & Hb & Hd).
  { apply digit_char. by apply N.mod_lt. }
  rewrite Hb in Hp |- *. destruct (strip_prefix (String b r) "+") as [rest|] eqn:Es; [|by rewrite Hp].
  apply strip_prefix_Some in Es. injection Es as -> _. done.
Qed.

(** * A concrete JSON library

    Values are trees; a codec writes and reads one type, and codecs compose
    over products, sums, lists and maps, so that the round trips of the
    serializers built from them hold by construction. *)
From S2P Require Import Prelude Json.
Module Codec.

(** ** Values *)
Definition Leaf : Type := string + Z + bool.
Definition json : Type := gen_tree Leaf.

#[export] Instance json_lib : JsonLib := { Value := json; Text := json }.

Definition leaf_text (l : Leaf) : string :=
  match l with
  | inl (inl s) => s
  | inl (inr z) => show z
  | inr b => if b then "true" else "false"
  end.
Fixpoint json_text (v : json) : string :=
  match v with
  | GenLeaf l => leaf_text l
  | GenNode n children => "(" +:+ foldr (λ c s, json_text c +:+ " " +:+ s) ")" children
  end.

#[export] Instance json_value : JsonValue := {
  JNull := GenNode 0 [];
  JBool b := GenLeaf (inr b);
  JNumber n := GenLeaf (inl (inr n));
  JString s := GenLeaf (inl (inl s));
  JArray vs := GenNode 1 vs;
  JObject fields := GenNode 2 (fields ≫= λ kv, [GenLeaf (inl (inl kv.1)); kv.2]);
  is_object v := match v with GenNode 2 _ => true | _ => false end;
  render v := Ok (json_text v) }.

(** ** Codecs *)
Record codec (A : Type) := {
  enc : A → json;
  dec : json → option A;
  dec_enc : ∀ a, dec (enc a) = Some a;
}.
Arguments enc {A} c a.
Arguments dec {A} c v.
Arguments dec_enc {A} c a.

Definition c_value : codec json := {| enc v := v; dec v := Some v; dec_enc := λ _, eq_refl |}.
Definition c_leaf : codec Leaf :=
  {| enc l := GenLeaf l; dec v := match v with GenLeaf l => Some l | _ => None end; dec_enc := λ _, eq_refl |}.

Lemma iso_law {A B} (c : codec A) (f : B → A) (g : A → option B) (Hgf : ∀ b, g (f b) = Some b) b :
  dec c (enc c (f b)) ≫= g = Some b.
Proof. rewrite dec_enc. apply Hgf. Qed.
Definition c_iso {A B} (c : codec A) (f : B → A) (g : A → option B)
    (Hgf : ∀ b, g (f b) = Some b) : codec B :=
  {| enc b := enc c (f b); dec v := dec c v ≫= g; dec_enc := iso_law c f g Hgf |}.

Definition c_str : codec string :=
  c_iso c_leaf (λ s, inl (inl s)) (λ l, match l with inl (inl s) => Some s | _ => None end) (λ _, eq_refl).
Definition c_num : codec Z :=
  c_iso c_leaf (λ z, inl (inr z)) (λ l, match l with inl (inr z) => Some z | _ => None end) (λ _, eq_refl).
Definition c_bool : codec bool :=
  c_iso c_leaf inr (λ l, match l with inr b => Some b | _ => None end) (λ _, eq_refl).

Lemma unit_law (u : unit) : Some tt = Some u.
Proof. by destruct u. Qed.
Definition c_unit : codec unit :=
  {| enc _ := GenNode 0 []; dec _ := Some tt; dec_enc := unit_law |}.

Definition enc_pair {A B} (ca : codec A) (cb : codec B) (p : A * B) : json :=
  GenNode 1 [enc ca p.1; enc cb p.2].
Definition dec_pair {A B} (ca : codec A) (cb : codec B) (v : json) : option (A * B) :=
  match v with
  | GenNode _ [va; vb] => a ← dec ca va; b ← dec cb vb; Some (a, b)
  | _ => None
  end.
Lemma pair_law {A B} (ca : codec A) (cb : codec B) p : dec_pair ca cb (enc_pair ca cb p) = Some p.
Proof. destruct p as [a b]. unfold dec_pair, enc_pair. cbn. by rewrite !dec_enc. Qed.
Definition c_prod {A B} (ca : codec A) (cb : codec B) : codec (A * B) :=
  {| enc := enc_pair ca cb; dec := dec_pair ca cb; dec_enc := pair_law ca cb |}.

Definition enc_sum {A B} (ca : codec A) (cb : codec B) (s : A + B) : json :=
  match s with inl a => GenNode 3 [enc ca a] | inr b => GenNode 4 [enc cb b] end.
Definition dec_sum {A B} (ca : codec A) (cb : codec B) (v : json) : option (A + B) :=
  match v with
  | GenNode 3 [va] => inl <$> dec ca va
  | GenNode 4 [vb] => inr <$> dec cb vb
  | _ => None
  end.
Lemma sum_law {A B} (ca : codec A) (cb : codec B) s : dec_sum ca cb (enc_sum ca cb s) = Some s.
Proof. destruct s; cbn; by rewrite dec_enc. Qed.
Definition c_sum {A B} (ca : codec A) (cb : codec B) : codec (A + B) :=
  {| enc := enc_sum ca cb; dec := dec_sum ca cb; dec_enc := sum_law ca cb |}.

Definition dec_list {A} (c : codec A) (v : json) : option (list A) :=
  match v with GenNode _ vs => mapM (dec c) vs | _ => None end.
Lemma list_law {A} (c : codec A) l : dec_list c (GenNode 1 (enc c <$> l)) = Some l.
Proof. cbn. apply mapM_Some. induction l; constructor; [apply dec_enc|done]. Qed.
Definition c_list {A} (c : codec A) : codec (list A) :=
  {| enc l := GenNode 1 (enc c <$> l); dec := dec_list c; dec_enc := list_law c |}.

Lemma map_law {A} (m : gmap string A) : Some (list_to_map (map_to_list m)) = Some m.
Proof. by rewrite list_to_map_to_list. Qed.
Definition c_map {A} (c : codec A) : codec (gmap string A) :=
  c_iso (c_list (c_prod c_str c)) map_to_list (λ l, Some (list_to_map l)) map_law.

Definition opt_sum {A} (o : option A) : unit + A := match o with None => inl tt | Some a => inr a end.
Definition sum_opt {A} (s : unit + A) : option A := match s with inl _ => None | inr a => Some a end.
Lemma opt_law {A} (o : option A) : Some (sum_opt (opt_sum o)) = Some o.
Proof. by destruct o. Qed.
Definition c_opt {A} (c : codec A) : codec (option A) :=
  c_iso (c_sum c_unit c) opt_sum (λ s, Some (sum_opt s)) opt_law.

(** A record or variant as a tuple. *)
Ltac by_cases := let x := fresh in intros x; by destruct x.

End Codec.
