(* ===== verification/Messages.v ===== *)
(** * Provider-neutral messages, tools and model responses ([renoa-agent])

    The data of [message.rs], [model.rs] and [tool.rs] that the loop stores in
    its events, checkpoints and effect requests, with the functions on them.
    [ValueSerde] is the conversion of one type to and from a JSON value. *)
From S2P Require Import Prelude Json State Text.
(** ** JSON values *)
(** [serde_json::to_value] and [serde_json::from_value]; an error is the text
    of the [serde_json::Error]. *)
Class ValueSerde `{JL : JsonLib} (A : Type) := {
  to_value : A → Result string Value;
  from_value : Value → Result string A;
}.

(** [serde_json::to_string], [to_vec] and [to_writer] of one type: its text. *)
Class TextSerde (A : Type) := { to_text : A → Result string string }.

(** What is written is read back as [read a]: [a] itself, but for the optional
    values in it ([read_details]). *)
Class ValueSerdeLaws `{ValueSerde A} (read : A → A) :=
  from_to_value : ∀ (a : A) v, to_value a = Ok v → from_value v = Ok (read a).
Arguments ValueSerdeLaws {_} A {_} read.

Section messages.
Context `{JV : JsonValue}.

(** ** Tools *)
Record ToolSpec := { spec_name : string; spec_description : string; spec_input_schema : Value }.

Record ToolCall := {
  call_id : string;
  call_name : string;
  call_arguments : Value;
  call_thought_signature : option string;
  call_namespace : option string;
}.

Inductive ToolCallBatchError := EmptyId | DuplicateId (identifier : string).

(** The loop over the identifiers; [observed] is the hash set. *)
Fixpoint validate_ids_from (observed : gset string) (identifiers : list string)
    : Result ToolCallBatchError unit :=
  match identifiers with
  | [] => Ok tt
  | identifier :: rest =>
      if is_empty identifier then Err EmptyId
      else if decide (identifier ∈ observed) then Err (DuplicateId identifier)
      else validate_ids_from ({[identifier]} ∪ observed) rest
  end.
Definition validate_tool_call_ids (identifiers : list string) : Result ToolCallBatchError unit :=
  validate_ids_from ∅ identifiers.

(** [Display] of the error. *)
Definition batch_error_text (e : ToolCallBatchError) : string :=
  match e with
  | EmptyId => "model returned a tool call with an empty identifier"
  | DuplicateId id => "model returned duplicate tool-call identifier `" +:+ id +:+ "`"
  end.

Inductive ContentBlock :=
| BlockText (text : string)
| BlockImage (data mime_type : string).

Record Closing := { closing_message : string; closing_not_run : string }.

Record ToolResult := {
  result_call_id : string;
  result_name : string;
  result_content : list ContentBlock;
  result_details : option Value;
  result_is_error : bool;
  result_closing : option Closing;
}.

Record ToolOutput := {
  output_content : list ContentBlock;
  output_details : option Value;
  output_is_error : bool;
  output_closing : option Closing;
}.

Inductive ToolErrorCode :=
| InvalidInput | NotFound | PermissionDenied | Conflict | Timeout | CancelledCode
| ProcessFailed | OutputLimit | Unavailable | IoCode | Internal.
Inductive ToolErrorCertainty := Definite | OutcomeUnknownCertainty.

Record ToolError := {
  te_code : ToolErrorCode;
  te_message : string;
  te_certainty : ToolErrorCertainty;
  te_partial_changes_possible : bool;
}.

Definition definite (code : ToolErrorCode) (message : string) (partial : bool) : ToolError :=
  {| te_code := code; te_message := message; te_certainty := Definite;
     te_partial_changes_possible := partial |}.
Definition outcome_unknown (message : string) : ToolError :=
  {| te_code := Unavailable; te_message := message; te_certainty := OutcomeUnknownCertainty;
     te_partial_changes_possible := true |}.

Definition code_text (c : ToolErrorCode) : string :=
  match c with
  | InvalidInput => "invalid_input" | NotFound => "not_found"
  | PermissionDenied => "permission_denied" | Conflict => "conflict" | Timeout => "timeout"
  | CancelledCode => "cancelled" | ProcessFailed => "process_failed"
  | OutputLimit => "output_limit" | Unavailable => "unavailable" | IoCode => "io"
  | Internal => "internal"
  end.

Definition error_tool_result (call : ToolCall) (error : ToolError) : ToolResult := {|
  result_call_id := call_id call;
  result_name := call_name call;
  result_content := [BlockText (te_message error)];
  result_details := Some (JObject [("error", JObject [
    ("code", JString (code_text (te_code error)));
    ("partial_changes_possible", JBool (te_partial_changes_possible error))])]);
  result_is_error := true;
  result_closing := None |}.

Record ToolOutcomeUnknown := {
  tu_call_id : string;
  tu_tool_name : string;
  tu_code : ToolErrorCode;
  tu_message : string;
  tu_partial_changes_possible : bool;
}.

(** [invoke_tool]: progress events aside, the tool's answer decides. [answer]
    is what the future of the tool resolves to, [None] when no tool is bound;
    [cancelled] is whether cancellation was requested before the start. *)
Definition invoke_tool (answer : option (Result ToolError ToolOutput)) (cancelled : bool)
    (call : ToolCall) : Result ToolOutcomeUnknown ToolResult :=
  if cancelled then
    Ok (error_tool_result call (definite CancelledCode "Tool execution was cancelled." false))
  else
    match answer with
    | None => Ok (error_tool_result call
                (definite Unavailable ("Tool `" +:+ call_name call +:+ "` is not available.") false))
    | Some (Ok output) => Ok {|
        result_call_id := call_id call;
        result_name := call_name call;
        result_content := output_content output;
        result_details := output_details output;
        result_is_error := output_is_error output;
        result_closing := output_closing output |}
    | Some (Err error) =>
        match te_certainty error with
        | Definite => Ok (error_tool_result call error)
        | OutcomeUnknownCertainty => Err {|
            tu_call_id := call_id call;
            tu_tool_name := call_name call;
            tu_code := te_code error;
            tu_message := te_message error;
            tu_partial_changes_possible := te_partial_changes_possible error |}
        end
    end.

(** ** Messages *)
Inductive StopReason := Stop | ToolUse | Length.

Record TokenUsage := {
  usage_input : Z; usage_output : Z; usage_cache_read : Z; usage_cache_write : Z }.

Inductive AssistantContent :=
| AssistantText (text : string) (signature : option string)
| Reasoning (text : string) (signature : option string) (redacted : bool)
| AssistantToolCall (call : ToolCall).

Record AssistantMetadata := {
  meta_api : option string;
  meta_provider : option string;
  meta_model : option string;
  meta_response_model : option string;
  meta_response_id : option string;
  meta_raw_stop_reason : option string;
}.
Definition default_metadata : AssistantMetadata :=
  {| meta_api := None; meta_provider := None; meta_model := None; meta_response_model := None;
     meta_response_id := None; meta_raw_stop_reason := None |}.

Inductive Message :=
| User (content : list ContentBlock)
| Assistant (content : list AssistantContent) (stop_reason : StopReason)
    (usage : option TokenUsage) (metadata : AssistantMetadata)
| Tool (result : ToolResult).

Definition user_text (text : string) : Message := User [BlockText text].

Inductive MessageRole := RoleUser | RoleAssistant | RoleTool.
Definition role (m : Message) : MessageRole :=
  match m with User _ => RoleUser | Assistant _ _ _ _ => RoleAssistant | Tool _ => RoleTool end.

Definition is_user (m : Message) : bool := match m with User _ => true | _ => false end.

(** ** Model requests and responses *)
Record ModelRequest := {
  req_system_prompt : string;
  req_messages : list Message;
  req_tools : list ToolSpec;
}.

Record ModelResponse := {
  resp_content : list AssistantContent;
  resp_stop_reason : StopReason;
  resp_usage : option TokenUsage;
  resp_metadata : AssistantMetadata;
}.

(** The tool calls of an assistant message, in order. *)
Definition content_call (c : AssistantContent) : option ToolCall :=
  match c with AssistantToolCall call => Some call | _ => None end.
Definition content_calls (content : list AssistantContent) : list ToolCall :=
  omap content_call content.

(** An optional JSON value: [null] is read as its absence. *)
Definition read_details (details : option Value) : option Value :=
  match details with
  | Some v => if decide (v = JNull) then None else Some v
  | None => None
  end.
Definition read_result (r : ToolResult) : ToolResult := {|
  result_call_id := result_call_id r; result_name := result_name r;
  result_content := result_content r; result_details := read_details (result_details r);
  result_is_error := result_is_error r; result_closing := result_closing r |}.
Definition read_message (m : Message) : Message :=
  match m with Tool r => Tool (read_result r) | _ => m end.
Definition read_request (r : ModelRequest) : ModelRequest := {|
  req_system_prompt := req_system_prompt r; req_messages := read_message <$> req_messages r;
  req_tools := req_tools r |}.

(** [context.rs]: tool details never reach a model. *)
Definition model_visible_message (m : Message) : Message :=
  match m with
  | Tool r => Tool {| result_call_id := result_call_id r; result_name := result_name r;
                      result_content := result_content r; result_details := None;
                      result_is_error := result_is_error r; result_closing := result_closing r |}
  | _ => m
  end.
Definition model_visible_messages (messages : list Message) : list Message :=
  model_visible_message <$> messages.
End messages.

#[global] Instance StopReason_eq_dec : EqDecision StopReason.
Proof. solve_decision. Defined.
#[global] Instance TokenUsage_eq_dec : EqDecision TokenUsage.
Proof. solve_decision. Defined.
#[global] Instance Closing_eq_dec : EqDecision Closing.
Proof. solve_decision. Defined.
#[global] Instance ContentBlock_eq_dec : EqDecision ContentBlock.
Proof. solve_decision. Defined.
#[global] Instance AssistantMetadata_eq_dec : EqDecision AssistantMetadata.
Proof. solve_decision. Defined.
#[global] Instance ToolCall_eq_dec `{JsonValue} : EqDecision ToolCall.
Proof. solve_decision. Defined.
#[global] Instance ToolResult_eq_dec `{JsonValue} : EqDecision ToolResult.
Proof. solve_decision. Defined.
#[global] Instance AssistantContent_eq_dec `{JsonValue} : EqDecision AssistantContent.
Proof. solve_decision. Defined.
#[global] Instance Message_eq_dec `{JsonValue} : EqDecision Message.
Proof. solve_decision. Defined.

(** ** Lemmas *)
Lemma validate_ids_from_ok observed ids :
  validate_ids_from observed ids = Ok tt ↔
  ("" ∉ ids) ∧ NoDup ids ∧ ∀ id, id ∈ ids → id ∉ observed.
Proof.
  revert observed. induction ids as [|id ids IH]; intros observed; cbn.
  { split; [|done]. intros _. split_and!; [apply not_elem_of_nil|constructor|].
    intros id []%elem_of_nil. }
  unfold is_empty. destruct (String.eqb_spec id "") as [->|Hne].
  { split; [done|]. intros (Hn & _). destruct Hn. left. }
  case_decide as Hin.
  { split; [done|]. intros (_ & _ & Ho). destruct (Ho id); [left|done]. }
  rewrite IH, NoDup_cons, not_elem_of_cons. split.
  - intros (Hn & HN & Ho). split_and!; try done.
    + intros Hid. specialize (Ho id Hid). set_solver.
    + intros id' [->|Hid']%elem_of_cons; [done|]. specialize (Ho id' Hid'). set_solver.
  - intros ((_ & Hn) & (Hid & HN) & Ho). split_and!; try done.
    intros id' Hid'. specialize (Ho id' ltac:(by right)). set_solver.
Qed.

(** A batch of identifiers is valid exactly when none is empty and none repeats. *)
Lemma validate_tool_call_ids_ok ids :
  validate_tool_call_ids ids = Ok tt ↔ ("" ∉ ids) ∧ NoDup ids.
Proof. unfold validate_tool_call_ids. rewrite validate_ids_from_ok. set_solver. Qed.
