(* ===== verification/PendingTools.v ===== *)
(** * Pending tool calls ([renoa-agent-loop]: [pending_tools.rs], [code_mode.rs])

    The tool calls of one model response that still need a result, and the
    bookkeeping of a Code Mode run inside one of them. SHA-256 and the text of
    an operation identity are parameters. *)
From S2P Require Import Prelude Json State Text Messages.
Abbreviation LResult := (Result string).

Section pending.
Context `{JV : JsonValue}.

(** ** The current call and the calls that follow it *)
Record PendingToolCalls := { pt_current : ToolCall; pt_remaining : list ToolCall }.

Definition pending_iter (p : PendingToolCalls) : list ToolCall := pt_current p :: pt_remaining p.

Definition pending_validate (p : PendingToolCalls) : LResult unit :=
  match validate_tool_call_ids (call_id <$> pending_iter p) with
  | Ok _ => Ok tt
  | Err e => Err ("tool checkpoint " +:+ batch_error_text e)
  end.

Definition pending_new (calls : list ToolCall) : LResult PendingToolCalls :=
  match calls with
  | [] => Err "tool checkpoint has no pending call"
  | current :: rest =>
      let pending := {| pt_current := current; pt_remaining := rest |} in
      pending_validate pending ;;
      Ok pending
  end.

Definition pending_advance (p : PendingToolCalls) : option PendingToolCalls :=
  match pt_remaining p with
  | [] => None
  | current :: rest => Some {| pt_current := current; pt_remaining := rest |}
  end.

(** ** Code Mode *)
Definition CODE_MODE_TOOL : string := "code_mode".
Definition CODE_STEP_EFFECT_BINDING : string := "renoa.agent.code-mode.step".
Definition MAX_CODE_BYTES : Z := 64 * 1024.
Definition MAX_CODE_CALLS_PER_WAVE : Z := 32.
Definition MAX_CODE_PLUGIN_ARGUMENT_BYTES : Z := 256 * 1024.
Definition MAX_CODE_PLUGIN_REFERENCE_BYTES : Z := 1024.
Definition MAX_CODE_CALLS_PER_RUN : Z := 128.
Definition MAX_CODE_WAVES : Z := 32.
Definition MAX_CODE_SNAPSHOT_BYTES : Z := 2 * 1024 * 1024.
Definition MAX_CODE_RESULT_BYTES : Z := 1024 * 1024.
Definition MAX_CODE_WAVE_RESULTS_BYTES : Z := 2 * 1024 * 1024.

Definition code_mode_spec : ToolSpec := {|
  spec_name := CODE_MODE_TOOL;
  spec_description := "Run Python for plugin work. Search for plugin tools with plugin_search. Use a returned input_schema to form arguments; if it is absent, call plugin_search with only reference to get the complete schema first. In Python, call await plugin(reference, arguments), or use asyncio.gather for independent calls. Each plugin result is a dictionary with content, details, and is_error. Check is_error and preserve failure details in your returned value. Use supported pagination and field filters to fetch only needed data. For JSON text payloads, import json and parse json.loads(block['text']) before selecting fields; copying content or details unchanged returns the full payload. Return only fields needed for the task. Only the final Python value enters the model context; each plugin call is durably recorded before dispatch.";
  spec_input_schema := JObject [
    ("type", JString "object");
    ("properties", JObject [("source", JObject [("type", JString "string");
       ("description", JString "Python source; the final expression becomes the result.")])]);
    ("required", JArray [JString "source"]);
    ("additionalProperties", JBool false)] |}.

Record CodeModeInput := { code_source : string }.

Inductive CodeStep :=
| Start (source : string)
| Resume (snapshot : string) (results : gmap string Value).
Record CodeStepRequest := { csr_run_id : string; csr_step : CodeStep }.

Record CodePluginCall := { cp_call_id : Z; cp_reference : string; cp_arguments : Value }.

Inductive CodeStepOutput :=
| CodeCompleted (result : Value) (is_error : bool)
| Suspended (snapshot : string) (calls : list CodePluginCall).

Record CodeRun := { run_id : string; wave : Z; total_calls : Z }.

Definition to_be_bytes (n : Z) : string :=
  let byte i := Ascii.ascii_of_N (Z.to_N (Z.land (Z.shiftr n i) 255)) in
  String (byte 24) (String (byte 16) (String (byte 8) (String (byte 0) ""))).

Class Hashing := {
  sha256 : string → string;                   (* the digest bytes *)
  operation_text : OperationId → string;      (* Display of the identity *)
}.

Definition code_run_new `{Hashing} (operation_id : OperationId) (model_turns : Z)
    (call : ToolCall) : CodeRun :=
  let zero := String (Ascii.ascii_of_N 0) "" in
  let input := operation_text operation_id +:+ zero +:+ to_be_bytes model_turns +:+ zero
                 +:+ call_id call in
  {| run_id := "cm-" +:+ hex_digest (sha256 input); wave := 0; total_calls := 0 |}.

Definition checked_add_u32 (x y : Z) : option Z := if x + y <=? u32_max then Some (x + y) else None.

Definition add_wave (run : CodeRun) (calls : Z) : LResult CodeRun :=
  if (calls =? 0) || (MAX_CODE_CALLS_PER_WAVE <? calls)
  then Err "Code Mode produced an invalid number of plugin calls"
  else
    next ← ok_or (checked_add_u32 (wave run) 1) "Code Mode wave counter overflowed";
    calls ← (if calls <=? u32_max then Ok calls else Err "Code Mode call count overflowed");
    total ← ok_or (checked_add_u32 (total_calls run) calls) "Code Mode call counter overflowed";
    if (MAX_CODE_WAVES <? next) || (MAX_CODE_CALLS_PER_RUN <? total)
    then Err "Code Mode exceeded its plugin call budget"
    else Ok {| run_id := run_id run; wave := next; total_calls := total |}.

Definition run_call_id (run : CodeRun) (id : Z) : string :=
  run_id run +:+ ":" +:+ show (wave run) +:+ ":" +:+ show id.

(** A key is the decimal text of a [u32]. *)
Definition canonical_u32 (key : string) : bool :=
  match parse_u32 key with Some id => String.eqb (show id) key | None => false end.

Definition validate_step (run : CodeRun) (request : CodeStepRequest) : LResult unit :=
  if negb (String.eqb (csr_run_id request) (run_id run)) || (MAX_CODE_WAVES <? wave run)
     || (MAX_CODE_CALLS_PER_RUN <? total_calls run)
  then Err "Code Mode step identity or budget is invalid"
  else
    let valid :=
      match csr_step request with
      | Start source =>
          (wave run =? 0) && (total_calls run =? 0) && negb (is_blank source)
          && (len source <=? MAX_CODE_BYTES)
      | Resume snapshot results =>
          (0 <? wave run) && (0 <? total_calls run) && negb (is_empty snapshot)
          && (len snapshot <=? MAX_CODE_SNAPSHOT_BYTES) && negb (bool_decide (results = ∅))
          && (Z.of_nat (size results) <=? MAX_CODE_CALLS_PER_WAVE)
          && tbl_forall (λ key _, canonical_u32 key) results
      end in
    if valid then Ok tt else Err "Code Mode step checkpoint is invalid".

(** ** A wave of plugin calls *)
Record CodeCallBatch := { cb_order : list Z; cb_calls : gmap string CodePluginCall }.

(** The loop of [validate] over the declared order. *)
Fixpoint validate_order (calls : gmap string CodePluginCall) (observed : gset Z) (order : list Z)
    : LResult unit :=
  match order with
  | [] => Ok tt
  | id :: rest =>
      if decide (id ∈ observed) then Err "Code Mode call order repeats an identity"
      else
        call ← ok_or (calls !! show id) "Code Mode call order has a missing identity";
        if negb (cp_call_id call =? id) || is_empty (cp_reference call)
           || (MAX_CODE_PLUGIN_REFERENCE_BYTES <? len (cp_reference call))
           || negb (is_object (cp_arguments call))
        then Err "Code Mode has an invalid plugin call"
        else
          match render (cp_arguments call) with
          | Err e => Err ("Code Mode plugin arguments are invalid: " +:+ e)
          | Ok text =>
              if MAX_CODE_PLUGIN_ARGUMENT_BYTES <? len text
              then Err "Code Mode has an invalid plugin call"
              else validate_order calls ({[id]} ∪ observed) rest
          end
  end.

Definition code_batch_validate (b : CodeCallBatch) : LResult unit :=
  if bool_decide (cb_order b = []) || (MAX_CODE_CALLS_PER_WAVE <? Z.of_nat (length (cb_order b)))
  then Err "Code Mode has an invalid plugin call wave"
  else if negb (length (cb_order b) =? size (cb_calls b))%nat
  then Err "Code Mode call order differs from its identity map"
  else validate_order (cb_calls b) ∅ (cb_order b).

(** The loop of [new] over the evaluator's calls. *)
Fixpoint index_calls (calls : list CodePluginCall) (order : list Z)
    (indexed : gmap string CodePluginCall) : LResult (list Z * gmap string CodePluginCall) :=
  match calls with
  | [] => Ok (order, indexed)
  | call :: rest =>
      if decide (is_Some (indexed !! show (cp_call_id call)))
      then Err "Code Mode repeated a Monty call identity"
      else index_calls rest (order ++ [cp_call_id call]) (<[show (cp_call_id call) := call]> indexed)
  end.

Definition code_batch_new (calls : list CodePluginCall) : LResult CodeCallBatch :=
  '(order, indexed) ← index_calls calls [] ∅;
  let batch := {| cb_order := order; cb_calls := indexed |} in
  code_batch_validate batch ;;
  Ok batch.

Definition code_batch_len (b : CodeCallBatch) : Z := Z.of_nat (length (cb_order b)).

(** The lookup of the iterator panics on a missing identity; a validated batch
    has none ([code_batch_ordered]). *)
Definition ordered (b : CodeCallBatch) : list CodePluginCall :=
  omap (λ id, cb_calls b !! show id) (cb_order b).

Definition validate_call_wave (run : CodeRun) (snapshot : string) (calls : CodeCallBatch)
    : LResult unit :=
  code_batch_validate calls ;;
  call_count ← (if code_batch_len calls <=? u32_max then Ok (code_batch_len calls)
                else Err "Code Mode call count overflowed");
  if (wave run =? 0) || (MAX_CODE_WAVES <? wave run) || (total_calls run <? call_count)
     || (MAX_CODE_CALLS_PER_RUN <? total_calls run) || is_empty snapshot
     || (MAX_CODE_SNAPSHOT_BYTES <? len snapshot)
  then Err "Code Mode call checkpoint or budget is invalid"
  else Ok tt.

Definition nested_tool_call (run : CodeRun) (call : CodePluginCall) (name : string) : ToolCall := {|
  call_id := run_call_id run (cp_call_id call);
  call_name := name;
  call_arguments := JObject [("reference", JString (cp_reference call));
                             ("arguments", cp_arguments call)];
  call_thought_signature := None;
  call_namespace := None |}.

Definition json_text_block (b : ContentBlock) : Value :=
  match b with
  | BlockText text => JObject [("type", JString "text"); ("text", JString text)]
  | BlockImage data mime => JObject [("type", JString "image"); ("data", JString data);
                                     ("mime_type", JString mime)]
  end.

Definition python_result (result : ToolResult) : Value :=
  JObject [("content", JArray (json_text_block <$> result_content result));
           ("details", default JNull (result_details result));
           ("is_error", JBool (result_is_error result))].

Definition model_result (call : ToolCall) (result : Value) (is_error : bool) : LResult ToolResult :=
  match render result with
  | Err e => Err ("Code Mode result encoding failed: " +:+ e)
  | Ok content => Ok {|
      result_call_id := call_id call; result_name := call_name call;
      result_content := [BlockText content]; result_details := None;
      result_is_error := is_error; result_closing := None |}
  end.
End pending.

#[global] Instance CodeStep_eq_dec `{JsonValue} : EqDecision CodeStep.
Proof. solve_decision. Defined.
#[global] Instance CodeStepRequest_eq_dec `{JsonValue} : EqDecision CodeStepRequest.
Proof. solve_decision. Defined.

(** ** Lemmas *)
Section pending_lemmas.
Context `{JV : JsonValue}.

Lemma pending_validate_ok (p : PendingToolCalls) :
  pending_validate p = Ok tt ↔ ("" ∉ call_id <$> pending_iter p) ∧ NoDup (call_id <$> pending_iter p).
Proof.
  unfold pending_validate. rewrite <- validate_tool_call_ids_ok.
  destruct (validate_tool_call_ids _) as [[]|]; naive_solver.
Qed.

Lemma pending_new_ok calls p :
  pending_new calls = Ok p ↔ pending_iter p = calls ∧ pending_validate p = Ok tt.
Proof.
  destruct calls as [|c calls]; cbn; [split; [done|]; by intros [? _]|]. split.
  - intros ([] & Hv & [= <-])%result_bind_ok. done.
  - intros [[= <- <-] Hv]. destruct p; cbn in *. by rewrite Hv.
Qed.

(** The calls after the current one, still valid. *)
Lemma pending_advance_iter (p : PendingToolCalls) :
  match pending_advance p with
  | Some p' => pending_iter p = pt_current p :: pending_iter p'
  | None => pending_iter p = [pt_current p]
  end.
Proof. unfold pending_advance, pending_iter. by destruct (pt_remaining p). Qed.

Lemma pending_advance_valid (p p' : PendingToolCalls) :
  pending_validate p = Ok tt → pending_advance p = Some p' → pending_validate p' = Ok tt.
Proof.
  rewrite !pending_validate_ok. intros [Hn HN] Ha. pose proof (pending_advance_iter p) as Hi.
  rewrite Ha in Hi. rewrite Hi in Hn, HN. cbn in Hn, HN. apply not_elem_of_cons in Hn as [_ ?].
  apply NoDup_cons in HN as [_ ?]. done.
Qed.

Lemma validate_order_ok calls observed order :
  validate_order calls observed order = Ok tt →
  NoDup order ∧ (∀ id, id ∈ order → id ∉ observed) ∧
  ∀ id, id ∈ order → ∃ call, calls !! show id = Some call ∧ cp_call_id call = id.
Proof.
  revert observed. induction order as [|id order IH]; intros observed; cbn.
  { intros _. split_and!; [constructor|by intros ? ?%elem_of_nil..]. }
  case_decide as Hin; [done|]. intros (call & Hc%ok_or_ok & E)%result_bind_ok.
  case_match eqn:Eg; [done|]. case_match; [|done]. case_match; [done|].
  destruct (IH _ E) as (HN & Ho & Hcs). split_bools. split_and!.
  - constructor; [|done]. intros Hid. specialize (Ho id Hid). set_solver.
  - intros id' [->|Hid']%elem_of_cons; [done|]. specialize (Ho _ Hid'). set_solver.
  - intros id' [->|Hid']%elem_of_cons; [eauto|by apply Hcs].
Qed.

Lemma ordered_ids (calls : gmap string CodePluginCall) (order : list Z) :
  (∀ id, id ∈ order → ∃ call, calls !! show id = Some call ∧ cp_call_id call = id) →
  cp_call_id <$> omap (λ id, calls !! show id) order = order.
Proof.
  induction order as [|id order IH]; intros Hc; cbn; [done|].
  destruct (Hc id ltac:(left)) as (call & -> & <-). cbn. f_equal. apply IH.
  intros id' Hid'. apply Hc. by right.
Qed.

(** A validated wave lists each of its calls once, in the declared order. *)
Lemma code_batch_ordered b :
  code_batch_validate b = Ok tt →
  cb_order b ≠ [] ∧ (Z.of_nat (length (cb_order b)) ≤ MAX_CODE_CALLS_PER_WAVE) ∧ NoDup (cb_order b) ∧
  cp_call_id <$> ordered b = cb_order b.
Proof.
  unfold code_batch_validate. case_match eqn:E1; [done|]. case_match; [done|].
  intros (HN & _ & Hc)%validate_order_ok. apply orb_false_elim in E1 as [Hne Hle].
  apply bool_decide_eq_false in Hne. apply Z.ltb_ge in Hle.
  split_and!; [done|done|done|]. by apply ordered_ids.
Qed.

Lemma index_calls_order calls : ∀ order indexed order' indexed',
  index_calls calls order indexed = Ok (order', indexed') → order' = order ++ (cp_call_id <$> calls).
Proof.
  induction calls as [|c calls IH]; intros order indexed order' indexed' E; cbn in E.
  - injection E as <- _. by rewrite app_nil_r.
  - case_decide; [done|]. rewrite (IH _ _ _ _ E), <- app_assoc. done.
Qed.

(** A new wave is valid and lists the evaluator's calls in their order. *)
Lemma code_batch_new_ok calls b :
  code_batch_new calls = Ok b → code_batch_validate b = Ok tt ∧ cb_order b = cp_call_id <$> calls.
Proof.
  unfold code_batch_new. intros ([order indexed] & Hi & E)%result_bind_ok.
  apply result_bind_ok in E as ([] & Hv & [= <-]). split; [done|]. by apply index_calls_order in Hi.
Qed.

(** The counters of a run never pass their budget. *)
Lemma add_wave_ok run n run' :
  add_wave run n = Ok run' →
  run_id run' = run_id run ∧ wave run' = wave run + 1 ∧ total_calls run' = total_calls run + n ∧
  wave run' ≤ MAX_CODE_WAVES ∧ total_calls run' ≤ MAX_CODE_CALLS_PER_RUN ∧
  n ≠ 0 ∧ n ≤ MAX_CODE_CALLS_PER_WAVE.
Proof.
  unfold add_wave, checked_add_u32. case_match eqn:E1; [done|].
  apply orb_false_elim in E1 as [Hn%Z.eqb_neq Hm%Z.ltb_ge].
  intros (w & Hw%ok_or_ok & (n' & Hn' & (t & Ht%ok_or_ok & E)%result_bind_ok)%result_bind_ok)%result_bind_ok.
  destruct (Z.leb_spec (wave run + 1) u32_max); [|done]. destruct (Z.leb_spec n u32_max); [|done].
  injection Hn' as <-. destruct (Z.leb_spec (total_calls run + n) u32_max); [|done]. simplify_eq.
  case_match eqn:E2; [done|]. apply orb_false_elim in E2 as [Hmw%Z.ltb_ge Hmt%Z.ltb_ge].
  simplify_eq. cbn. split_and!; done.
Qed.
End pending_lemmas.
