(* ===== verification/TurnContext.v ===== *)
(** * Commands and what a Host admits with them

    [turn_timing.rs], [turn_context.rs] and [format/command.rs]: validated
    annotations of a user turn, the command a Host admits for one operation,
    and its stored wire shape. The wire records are what the derived
    serializers see; [encode_command] and [decode_command] are the hand-written
    halves of [Serialize] and [Deserialize]. *)
From S2P Require Import Prelude Json State Text Messages.
(** ** Turn timing *)
Definition MAX_OBSERVED_AT_BYTES : Z := 160.

Record TurnTiming := {
  tt_observed_at : string;
  tt_observed_at_unix_ms : Z;
  tt_elapsed : option Z;
}.

Inductive TurnTimingError := InvalidDisplay | TimingBeforeUnixEpoch.

Definition ascii_list (s : string) : list Ascii.ascii := String.list_ascii_of_string s.
Definition lt_char : Ascii.ascii := Ascii.ascii_of_N 60.
Definition gt_char : Ascii.ascii := Ascii.ascii_of_N 62.
Definition amp_char : Ascii.ascii := Ascii.ascii_of_N 38.
Definition is_markup (a : Ascii.ascii) : bool :=
  Ascii.eqb a lt_char || Ascii.eqb a gt_char || Ascii.eqb a amp_char.

Definition turn_timing_new (observed_at : string) (observed_at_unix_ms : Z) (elapsed : option Z)
    : Result TurnTimingError TurnTiming :=
  if is_empty observed_at || (MAX_OBSERVED_AT_BYTES <? len observed_at)
     || negb (forallb is_ascii_byte (ascii_list observed_at))
     || existsb (λ a, is_ascii_control a || is_markup a) (ascii_list observed_at)
  then Err InvalidDisplay
  else if observed_at_unix_ms <? 0 then Err TimingBeforeUnixEpoch
  else Ok {| tt_observed_at := observed_at; tt_observed_at_unix_ms := observed_at_unix_ms;
             tt_elapsed := elapsed |}.

Definition format_elapsed (milliseconds : Z) : string :=
  if milliseconds <? 1000 then show milliseconds +:+ "ms"
  else
    let total_seconds := milliseconds / 1000 in
    let days := total_seconds / 86400 in
    let hours := (total_seconds mod 86400) / 3600 in
    let minutes := (total_seconds mod 3600) / 60 in
    let seconds := total_seconds mod 60 in
    let parts := omap (λ '(value, suffix), if value =? 0 then None else Some (show value +:+ suffix))
                   [(days, "d"); (hours, "h"); (minutes, "m"); (seconds, "s")] in
    if bool_decide (parts = []) then "0s" else join " " parts.

Definition timing_model_context (t : TurnTiming) : string :=
  "<turn_context>" +:+ nl +:+ "current_time: " +:+ tt_observed_at t
  +:+ match tt_elapsed t with
      | Some elapsed => nl +:+ "elapsed_since_previous_user_message: " +:+ format_elapsed elapsed
      | None => ""
      end
  +:+ nl +:+ "</turn_context>".

(** ** Attributed context *)
Definition PLUGIN_SOURCE : string := "plugin:".
Definition SURFACE_SOURCE : string := "surface".
Definition MAX_SOURCE_BYTES : Z := 64.
Definition MAX_TEXT_BYTES : Z := 256.
Definition MAX_TOTAL_TEXT_BYTES : Z := 1024.

Record ContextContribution := { cc_source : string; cc_text : string }.

Inductive TurnContextError :=
| InvalidSource | InvalidText | DuplicateSource | TooLarge | BeforeUnixEpoch.

Definition plugin_id_start (name : string) : bool :=
  match name with
  | String a _ => is_ascii_lowercase a || is_ascii_digit a
  | EmptyString => false
  end.
Definition plugin_id_byte (a : Ascii.ascii) : bool :=
  is_ascii_lowercase a || is_ascii_digit a || existsb (Ascii.eqb a) (ascii_list "._-").

Definition valid_plugin_source (source : string) : bool :=
  match strip_prefix source PLUGIN_SOURCE with
  | None => false
  | Some name => (len source <=? MAX_SOURCE_BYTES) && plugin_id_start name
                 && forallb plugin_id_byte (ascii_list name)
  end.

Definition contribution_new (source text : string) : Result TurnContextError ContextContribution :=
  if negb (String.eqb source SURFACE_SOURCE) && negb (valid_plugin_source source)
  then Err InvalidSource
  else if is_blank text || (MAX_TEXT_BYTES <? len text)
     || existsb (λ c, is_control c && negb (String.eqb c nl)) (chars text)
  then Err InvalidText
  else Ok {| cc_source := source; cc_text := text |}.

Definition contribution_plugin (plugin_id text : string) :=
  contribution_new (PLUGIN_SOURCE +:+ plugin_id) text.
Definition contribution_surface (text : string) := contribution_new SURFACE_SOURCE text.

Record TurnContext := { tcx_entries : list ContextContribution }.

(** [entries.iter().all(|entry| sources.insert(..))]. *)
Fixpoint distinct_sources (sources : gset string) (entries : list ContextContribution) : bool :=
  match entries with
  | [] => true
  | e :: rest => if decide (cc_source e ∈ sources) then false
                 else distinct_sources ({[cc_source e]} ∪ sources) rest
  end.
Definition text_bytes (entries : list ContextContribution) : Z :=
  foldr (λ e n, len (cc_text e) + n) 0 entries.

Definition turn_context_new (entries : list ContextContribution) : Result TurnContextError TurnContext :=
  if negb (distinct_sources ∅ entries) then Err DuplicateSource
  else if MAX_TOTAL_TEXT_BYTES <? text_bytes entries then Err TooLarge
  else Ok {| tcx_entries := entries |}.

Definition turn_context_is_empty (c : TurnContext) : bool := bool_decide (tcx_entries c = []).

Definition escape (text : string) : string :=
  replace_char gt_char "&gt;" (replace_char lt_char "&lt;" (replace_char amp_char "&amp;" text)).

Definition quote : string := String (Ascii.ascii_of_N 34) "".
Definition context_entry_text (e : ContextContribution) : string :=
  nl +:+ "<context source=" +:+ quote +:+ cc_source e +:+ quote +:+ ">" +:+ nl
  +:+ escape (cc_text e) +:+ nl +:+ "</context>".
Definition context_model_context (c : TurnContext) : string :=
  "<turn_context>" +:+ concat_chars (context_entry_text <$> tcx_entries c) +:+ nl +:+ "</turn_context>".

Inductive TurnAnnotation := Timing (timing : TurnTiming) | AnnContext (context : TurnContext).

Definition append_to `{JsonLib} (a : TurnAnnotation) (message : Message) : Message :=
  let text := match a with
              | Timing timing => timing_model_context timing
              | AnnContext context => context_model_context context
              end in
  match message with
  | User content => User (content ++ [BlockText text])
  | _ => message
  end.

(** ** Commands *)
Inductive Observation :=
| Unobserved
| Timed (timing : TurnTiming)
| Observed (observed_at_unix_ms : Z) (context : TurnContext)
| Receipted.

Inductive AgentCommandKind :=
| Prompt (content : list ContentBlock) (observation : Observation)
| Compact.
Record AgentCommand := { ac_kind : AgentCommandKind }.

Definition command_new (content : list ContentBlock) : AgentCommand :=
  {| ac_kind := Prompt content Unobserved |}.
Definition command_observed (content : list ContentBlock) (at_ : Z) (context : TurnContext)
    : Result TurnContextError AgentCommand :=
  if at_ <? 0 then Err BeforeUnixEpoch else Ok {| ac_kind := Prompt content (Observed at_ context) |}.
Definition command_receipted (content : list ContentBlock) : AgentCommand :=
  {| ac_kind := Prompt content Receipted |}.
Definition command_compact : AgentCommand := {| ac_kind := Compact |}.

Definition command_content (c : AgentCommand) : list ContentBlock :=
  match ac_kind c with Prompt content _ => content | Compact => [] end.
Definition command_prompt_content (c : AgentCommand) : option (list ContentBlock) :=
  match ac_kind c with Prompt content _ => Some content | Compact => None end.
Definition command_observed_at (c : AgentCommand) : option Z :=
  match ac_kind c with
  | Prompt _ (Timed timing) => Some (tt_observed_at_unix_ms timing)
  | Prompt _ (Observed at_ _) => Some at_
  | Prompt _ Unobserved | Prompt _ Receipted | Compact => None
  end.
Definition command_context (c : AgentCommand) : list ContextContribution :=
  match ac_kind c with
  | Prompt _ (Observed _ context) => tcx_entries context
  | _ => []
  end.

(** ** The stored shape *)
Record TurnTimingWire := {
  ttw_observed_at : string; ttw_observed_at_unix_ms : Z; ttw_elapsed : option Z }.
Record ContributionWire := { cw_source : string; cw_text : string }.

(** Absent fields are [None], and [receipted] defaults to [false]. *)
Record PromptCommand := {
  pc_content : list ContentBlock;
  pc_turn_timing : option TurnTimingWire;
  pc_observed_at_unix_ms : option Z;
  pc_context : option (list ContributionWire);
  pc_receipted : bool;
}.
Inductive AgentCommandWire := WirePrompt (command : PromptCommand) | WireControl.

Definition timing_wire (t : TurnTiming) : TurnTimingWire :=
  {| ttw_observed_at := tt_observed_at t; ttw_observed_at_unix_ms := tt_observed_at_unix_ms t;
     ttw_elapsed := tt_elapsed t |}.
Definition contribution_wire (c : ContextContribution) : ContributionWire :=
  {| cw_source := cc_source c; cw_text := cc_text c |}.

Definition encode_command (c : AgentCommand) : AgentCommandWire :=
  match ac_kind c with
  | Prompt content observation =>
      let '(turn_timing, at_, context) :=
        match observation with
        | Unobserved | Receipted => (None, None, None)
        | Timed timing => (Some timing, None, None)
        | Observed at_ context =>
            (None, Some at_, if turn_context_is_empty context then None else Some context)
        end in
      WirePrompt {|
        pc_content := content;
        pc_turn_timing := timing_wire <$> turn_timing;
        pc_observed_at_unix_ms := at_;
        pc_context := (λ x, contribution_wire <$> tcx_entries x) <$> context;
        pc_receipted := match observation with Receipted => true | _ => false end |}
  | Compact => WireControl
  end.

(** Errors of the nested deserializers. *)
Inductive CommandError :=
| BadTiming (e : TurnTimingError) | BadContribution (e : TurnContextError)
| BadContext (e : TurnContextError) | EmptyContext | BadPrompt (reason : string).

Definition decode_timing (w : TurnTimingWire) : Result CommandError TurnTiming :=
  map_err BadTiming (turn_timing_new (ttw_observed_at w) (ttw_observed_at_unix_ms w) (ttw_elapsed w)).
Definition decode_context (ws : list ContributionWire) : Result CommandError TurnContext :=
  entries ← collect (λ w, map_err BadContribution (contribution_new (cw_source w) (cw_text w))) ws;
  if bool_decide (entries = []) then Err EmptyContext
  else map_err BadContext (turn_context_new entries).

Definition observation (receipted : bool) (turn_timing : option TurnTiming) (at_ : option Z)
    (context : option TurnContext) : Result CommandError Observation :=
  if receipted then
    match turn_timing, at_, context with
    | None, None, None => Ok Receipted
    | _, _, _ => Err (BadPrompt "a receipted prompt carries no time or context")
    end
  else
    match turn_timing, at_, context with
    | None, None, None => Ok Unobserved
    | Some timing, None, None => Ok (Timed timing)
    | None, Some at_, context =>
        if 0 <=? at_ then Ok (Observed at_ (default {| tcx_entries := [] |} context))
        else Err (BadPrompt "a prompt cannot be observed before the Unix epoch")
    | None, None, Some _ => Err (BadPrompt "turn context requires observed_at_unix_ms")
    | Some _, _, _ => Err (BadPrompt "turn_timing cannot be combined with turn context")
    end.

Definition decode_command (w : AgentCommandWire) : Result CommandError AgentCommand :=
  match w with
  | WirePrompt p =>
      turn_timing ← transpose decode_timing (pc_turn_timing p);
      context ← transpose decode_context (pc_context p);
      obs ← observation (pc_receipted p) turn_timing (pc_observed_at_unix_ms p) context;
      Ok {| ac_kind := Prompt (pc_content p) obs |}
  | WireControl => Ok command_compact
  end.

(** * Commands: validation, round trip and safe rendering *)
(** ** Valid commands

    What the constructors of the crate can build. *)
Definition timing_valid (t : TurnTiming) : Prop :=
  turn_timing_new (tt_observed_at t) (tt_observed_at_unix_ms t) (tt_elapsed t) = Ok t.
Definition contribution_valid (c : ContextContribution) : Prop :=
  contribution_new (cc_source c) (cc_text c) = Ok c.
Definition context_valid (c : TurnContext) : Prop :=
  Forall contribution_valid (tcx_entries c) ∧ turn_context_new (tcx_entries c) = Ok c.
Definition observation_valid (o : Observation) : Prop :=
  match o with
  | Unobserved | Receipted => True
  | Timed t => timing_valid t
  | Observed at_ c => 0 ≤ at_ ∧ context_valid c
  end.
Definition command_valid (c : AgentCommand) : Prop :=
  match ac_kind c with Prompt _ o => observation_valid o | Compact => True end.

(** ** Validators return their input *)
Lemma turn_timing_new_ok s at_ e t :
  turn_timing_new s at_ e = Ok t →
  t = {| tt_observed_at := s; tt_observed_at_unix_ms := at_; tt_elapsed := e |}.
Proof. unfold turn_timing_new. repeat case_match; naive_solver. Qed.

Lemma contribution_new_ok s x c :
  contribution_new s x = Ok c → c = {| cc_source := s; cc_text := x |}.
Proof. unfold contribution_new. repeat case_match; naive_solver. Qed.

Lemma turn_context_new_ok es c : turn_context_new es = Ok c → c = {| tcx_entries := es |}.
Proof. unfold turn_context_new. repeat case_match; naive_solver. Qed.


Lemma collect_contributions_ok ws es :
  collect (λ w, map_err BadContribution (contribution_new (cw_source w) (cw_text w))) ws = Ok es ↔
  ws = contribution_wire <$> es ∧ Forall contribution_valid es.
Proof.
  revert es. induction ws as [|w ws IH]; intros es; cbn.
  { split; [intros [= <-]; by split|]. intros [Hes _]. by destruct es. }
  rewrite result_bind_ok. setoid_rewrite map_err_ok. split.
  - intros (c & Hc & (cs & Hcs & [= <-])%result_bind_ok).
    pose proof (contribution_new_ok _ _ _ Hc) as ->. apply IH in Hcs as [-> HF].
    split; [by destruct w|]. by constructor.
  - intros [Hws HF]. destruct es as [|c es]; [done|]. cbn in Hws. injection Hws as -> Hws.
    apply Forall_cons in HF as [Hc HF]. exists c. split; [done|].
    by rewrite (proj2 (IH es) (conj Hws HF)).
Qed.

Lemma decode_context_ok ws c :
  decode_context ws = Ok c ↔
  context_valid c ∧ tcx_entries c ≠ [] ∧ ws = contribution_wire <$> tcx_entries c.
Proof.
  unfold decode_context, context_valid. rewrite result_bind_ok.
  setoid_rewrite collect_contributions_ok. split.
  - intros (es & [-> HF] & Hc). case_bool_decide as He; [done|]. apply map_err_ok in Hc.
    pose proof (turn_context_new_ok _ _ Hc) as ->. done.
  - intros ((HF & Hc) & Hne & ->). exists (tcx_entries c). split; [done|].
    rewrite bool_decide_false by done. by apply map_err_ok.
Qed.

Lemma decode_timing_ok w t : decode_timing w = Ok t ↔ timing_valid t ∧ w = timing_wire t.
Proof.
  unfold decode_timing, timing_valid. rewrite map_err_ok. split.
  - intros Ht. pose proof (turn_timing_new_ok _ _ _ _ Ht) as ->. split; [done|by destruct w].
  - by intros [Ht ->].
Qed.

Lemma transpose_ok {E A B} (f : A → Result E B) o r :
  transpose f o = Ok r ↔
  match o, r with Some a, Some b => f a = Ok b | None, None => True | _, _ => False end.
Proof.
  destruct o as [a|]; cbn; [|destruct r; naive_solver].
  rewrite result_bind_ok. destruct r; naive_solver.
Qed.

(** The empty context is valid. *)
Lemma empty_context_valid : context_valid {| tcx_entries := [] |}.
Proof. by split; [constructor|]. Qed.

(** Stored commands round trip exactly: a stored command decodes to a command
    exactly when that command is valid and re-encodes to the very same stored
    shape. So every command the crate can build is read back unchanged, and
    every command that was ever stored re-encodes identically. *)
Theorem command_roundtrip w c :
  decode_command w = Ok c ↔ command_valid c ∧ encode_command c = w.
Proof.
  unfold decode_command, command_valid, encode_command. destruct w as [p|].
  2: { destruct c as [[ct o|]]; cbn; [|done].
       split; [done|]. intros [_ E]. by destruct o. }
  rewrite result_bind_ok. setoid_rewrite result_bind_ok. setoid_rewrite result_bind_ok.
  destruct p as [ct ti at_ cx re]. cbn. split.
  - intros (ti' & Hti & cx' & Hcx & o & Ho & [= <-]). cbn.
    apply transpose_ok in Hti, Hcx.
    destruct ti as [ti|], ti' as [ti'|]; try done;
      [apply decode_timing_ok in Hti as [Htv ->]|];
    (destruct cx as [cx|], cx' as [cx'|]; try done;
      [apply decode_context_ok in Hcx as (Hcv & Hne & ->)|]);
    unfold observation in Ho; destruct re, at_ as [at_|]; try done;
    try destruct (Z.leb_spec 0 at_); try done; injection Ho as <-; cbn; try done.
    + unfold turn_context_is_empty. by rewrite bool_decide_false by done.
  - intros [Hv E]. destruct c as [[ct' o|]]; cbn in *; [|done].
    destruct o as [|t|a x|]; cbn in *; simplify_eq; cbn.
    + exists None. split; [done|]. exists None. split; [done|]. by eexists.
    + exists (Some t). split; [by rewrite (proj2 (decode_timing_ok _ t) (conj Hv eq_refl))|].
      exists None. split; [done|]. by eexists.
    + destruct Hv as [Ha Hx]. exists None. split; [done|]. unfold turn_context_is_empty.
      case_bool_decide as He; cbn.
      * exists None. split; [done|]. unfold observation. destruct (Z.leb_spec 0 a); [|lia].
        eexists. split; [done|]. destruct x; cbn in *. by subst.
      * exists (Some x). split; [apply (transpose_ok decode_context (Some _) (Some x)); by apply decode_context_ok|].
        unfold observation. destruct (Z.leb_spec 0 a); [|lia]. by eexists.
    + exists None. split; [done|]. exists None. split; [done|]. by eexists.
Qed.

(** The constructors build valid commands. *)
Lemma command_observed_valid content at_ cx c :
  context_valid cx → command_observed content at_ cx = Ok c → command_valid c.
Proof.
  unfold command_observed. destruct (Z.ltb_spec at_ 0); [done|]. intros ? [= <-]. by split.
Qed.

(** ** Rendering *)

#[local] Arguments String.append !_ _ : simpl nomatch.

Definition escape_char (a : Ascii.ascii) : string :=
  if Ascii.eqb amp_char a then "&amp;"
  else if Ascii.eqb lt_char a then "&lt;"
  else if Ascii.eqb gt_char a then "&gt;"
  else String a "".

(** The three replacements act on each character by itself. *)
Lemma escape_cons a s : escape (String a s) = escape_char a +:+ escape s.
Proof.
  unfold escape, escape_char. cbn [replace_char].
  destruct (Ascii.eqb_spec amp_char a) as [<-|Ha]; [done|]. cbn [replace_char].
  destruct (Ascii.eqb_spec lt_char a) as [<-|Hl]; [done|]. cbn [replace_char].
  by destruct (Ascii.eqb_spec gt_char a) as [<-|Hg].
Qed.

Lemma escape_char_inj a b x y :
  escape_char a +:+ x = escape_char b +:+ y → a = b ∧ x = y.
Proof.
  unfold escape_char.
  destruct (Ascii.eqb_spec amp_char a) as [<-|?], (Ascii.eqb_spec amp_char b) as [<-|?];
    try destruct (Ascii.eqb_spec lt_char a) as [<-|?]; try destruct (Ascii.eqb_spec lt_char b) as [<-|?];
    try destruct (Ascii.eqb_spec gt_char a) as [<-|?]; try destruct (Ascii.eqb_spec gt_char b) as [<-|?];
    cbn; intros E; try discriminate E; injection E; intros; subst; done.
Qed.

Lemma escape_nil_inv s : escape s = "" → s = "".
Proof.
  destruct s as [|a s]; [done|]. rewrite escape_cons. unfold escape_char.
  repeat case_match; done.
Qed.

(** Entry text is data: rendered, it holds no character that could open or
    close a tag, and no information is lost (two texts that render alike are
    the same text). *)
Theorem escape_is_data s :
  (∀ a, a ∈ ascii_list (escape s) → a ≠ lt_char ∧ a ≠ gt_char) ∧
  ∀ s', escape s' = escape s → s' = s.
Proof.
  split.
  - induction s as [|a s IH]; [intros a []%elem_of_nil|]. intros b. rewrite escape_cons.
    unfold escape_char.
    destruct (Ascii.eqb_spec amp_char a) as [<-|?]; [|destruct (Ascii.eqb_spec lt_char a) as [<-|?];
      [|destruct (Ascii.eqb_spec gt_char a) as [<-|?]]]; cbn;
      rewrite ?elem_of_cons; intros Hb; destruct_or? Hb; subst; try done; by apply IH.
  - induction s as [|a s IH]; intros [|b s'] E; try done.
    + by apply escape_nil_inv.
    + symmetry in E. by apply escape_nil_inv in E.
    + rewrite !escape_cons in E. apply escape_char_inj in E as [-> E]. f_equal. by apply IH.
Qed.

Lemma command_roundtrip_sample :
  decode_command (encode_command {| ac_kind := Prompt [BlockText "hi"] (Observed 5 {| tcx_entries :=
    [{| cc_source := "plugin:renoa.time"; cc_text := "now" |}] |}) |})
  = Ok {| ac_kind := Prompt [BlockText "hi"] (Observed 5 {| tcx_entries :=
    [{| cc_source := "plugin:renoa.time"; cc_text := "now" |}] |}) |}.
Proof. vm_compute. reflexivity. Qed.
