(* ===== verification/PlanningFacts.v ===== *)
(** * Facts about safe cuts and the two searches *)
From S2P Require Import Prelude Json State Text Messages PendingTools TurnContext Compaction.
Section cuts.
Context `{JV : JsonValue}.
Implicit Types (e : ContextEntry) (entries : list ContextEntry) (pending : gmap string string).

(** ** Running a transcript

    [open_calls ms pending] runs the messages over the pending calls; it is
    [Some] exactly when every result answers a pending call of the same name,
    no call repeats an open identity, and no other message comes in between. *)
Fixpoint open_calls (ms : list Message) pending : option (gmap string string) :=
  match ms with
  | [] => Some pending
  | m :: ms => match update_tool_group m pending with
               | Ok (_, pending) => open_calls ms pending
               | Err _ => None
               end
  end.

(** Every call of the messages is answered among them, and nothing else is. *)
Definition balanced (ms : list Message) : Prop := open_calls ms ∅ = Some ∅.

Lemma open_calls_app ms1 ms2 pending :
  open_calls (ms1 ++ ms2) pending = open_calls ms1 pending ≫= open_calls ms2.
Proof.
  revert pending. induction ms1 as [|m ms1 IH]; intros pending; cbn; [done|].
  destruct (update_tool_group m pending) as [[b p]|]; [apply IH|done].
Qed.

Lemma update_completed m pending p : update_tool_group m pending = Ok (true, p) → p = ∅.
Proof.
  destruct m as [c|c s u d|r]; cbn.
  - case_decide; naive_solver.
  - case_decide; [|done]. intros (? & ? & ?)%result_bind_ok. done.
  - intros (? & _ & E)%result_bind_ok. case_match; [done|].
    injection E as Hb <-. by apply bool_decide_eq_true in Hb.
Qed.

(** What one pass of the loop establishes. *)
Lemma safe_cuts_from_sound active entries : ∀ index operation pending cuts,
  safe_cuts_from active index operation pending entries = Ok cuts →
  open_calls (entry_message <$> entries) pending = Some ∅ ∨ entries = [] ∧ cuts = [].
Proof.
  induction entries as [|e entries IH]; intros index operation pending cuts E; cbn in E.
  { simplify_eq. by right. }
  case_match; [done|]. apply result_bind_ok in E as ([b p] & Hu & E). left. cbn. rewrite Hu.
  case_match eqn:Hend; [done|]. apply result_bind_ok in E as (cs & Hc & _).
  destruct (IH _ _ _ _ Hc) as [|[-> _]]; [done|]. cbn. cbn in Hend.
  apply negb_false_iff, bool_decide_eq_true in Hend. by subst.
Qed.

Lemma safe_cuts_from_elem active entries : ∀ index operation pending cuts c,
  safe_cuts_from active index operation pending entries = Ok cuts → c ∈ cuts →
  ∃ i, c = (index + i)%nat ∧ (i < length entries)%nat ∧
    open_calls (entry_message <$> take (S i) entries) pending = Some ∅ ∧
    ∃ e, entries !! i = Some e ∧
      (entry_operation_id e ≠ active → ends_operation e (drop (S i) entries) = true).
Proof.
  induction entries as [|e entries IH]; intros index operation pending cuts c E Hc; cbn in E.
  { simplify_eq. by apply elem_of_nil in Hc. }
  case_match; [done|]. apply result_bind_ok in E as ([b p] & Hu & E).
  case_match eqn:Hend; [done|]. apply result_bind_ok in E as (cs & Hcs & [= <-]).
  assert (c ∈ cs → ∃ i, c = (index + i)%nat ∧ (i < length (e :: entries))%nat ∧
    open_calls (entry_message <$> take (S i) (e :: entries)) pending = Some ∅ ∧
    ∃ e', (e :: entries) !! i = Some e' ∧
      (entry_operation_id e' ≠ active → ends_operation e' (drop (S i) (e :: entries)) = true)) as Htail.
  { intros Hin. destruct (IH _ _ _ _ _ Hcs Hin) as (i & -> & Hi & Ho & e' & He & Hends).
    exists (S i). split_and!; [lia|cbn; lia| |].
    - cbn. rewrite Hu. done.
    - by exists e'. }
  case_match eqn:Hcut; [|by apply Htail]. apply elem_of_cons in Hc as [->|Hin]; [|by apply Htail].
  exists 0%nat. split_and!; [lia|cbn; lia| |].
  - cbn. rewrite Hu. apply orb_prop in Hcut as [Hcut|Hcut]; apply andb_prop in Hcut as [Ha Hb].
    + rewrite Hb in Hend. cbn in Hend. apply negb_false_iff, bool_decide_eq_true in Hend. by subst.
    + destruct b; [|done]. by rewrite (update_completed _ _ _ Hu).
  - exists e. split; [done|]. intros Hne. cbn.
    apply orb_prop in Hcut as [Hcut|Hcut]; apply andb_prop in Hcut as [Ha Hb]; [done|].
    apply bool_decide_eq_true in Ha. done.
Qed.

(** Cuts are found in increasing order. *)
Lemma safe_cuts_from_sorted active entries : ∀ index operation pending cuts,
  safe_cuts_from active index operation pending entries = Ok cuts →
  StronglySorted lt cuts ∧ Forall (λ c, (index ≤ c)%nat) cuts.
Proof.
  induction entries as [|e entries IH]; intros index operation pending cuts E; cbn in E.
  { simplify_eq. split; constructor. }
  case_match; [done|]. apply result_bind_ok in E as ([b p] & Hu & E).
  case_match; [done|]. apply result_bind_ok in E as (cs & Hcs & [= <-]).
  destruct (IH _ _ _ _ Hcs) as [HS HF].
  assert (Forall (λ c, (index ≤ c)%nat) cs) by (eapply Forall_impl; [done|]; cbn; lia).
  case_match; [|done]. split; constructor; try done.
Qed.

Lemma safe_cuts_sorted entries active cuts :
  safe_cut_indices entries active = Ok cuts → StronglySorted lt cuts.
Proof. intros E. by apply safe_cuts_from_sorted in E as [? _]. Qed.

Lemma safe_cut_in_range entries active cuts c :
  safe_cut_indices entries active = Ok cuts → c ∈ cuts → (c < length entries)%nat.
Proof. intros E Hc. destruct (safe_cuts_from_elem _ _ _ _ _ _ _ E Hc) as (i & -> & Hi & _). lia. Qed.

(** A safe cut splits the transcript into two balanced halves. *)
Lemma safe_cut_balanced entries active cuts c :
  safe_cut_indices entries active = Ok cuts → c ∈ cuts →
  balanced (entry_message <$> take (S c) entries) ∧ balanced (entry_message <$> drop (S c) entries).
Proof.
  intros E Hc. destruct (safe_cuts_from_elem _ _ _ _ _ _ _ E Hc) as (i & -> & Hi & Ho & _).
  cbn in Ho. split; [done|]. unfold balanced.
  destruct (safe_cuts_from_sound _ _ _ _ _ _ E) as [HA|[-> _]]; [|cbn in Hi; lia].
  rewrite <- (take_drop (S i) entries), fmap_app, open_calls_app in HA. cbn [Nat.add].
  by rewrite Ho in HA.
Qed.
End cuts.

(** ** Halving *)
Lemma half_position lo hi : (lo < hi)%nat → (lo ≤ lo + (hi - lo) / 2 < hi)%nat.
Proof. intros Hlt. pose proof (Nat.div_lt (hi - lo) 2). lia. Qed.

(** A window of at most [n] positions is closed within [search_fuel n] rounds. *)
Definition enough (fuel width : nat) : Prop := (width < 2 ^ fuel)%nat.

Lemma enough_fuel n : enough (search_fuel n) n.
Proof.
  unfold enough, search_fuel. destruct (decide (n = 0%nat)) as [->|Hn]; [cbn; lia|].
  apply Nat.log2_spec. lia.
Qed.

Lemma enough_left fuel lo hi :
  (lo < hi)%nat → enough (S fuel) (hi - lo) → enough fuel (lo + (hi - lo) / 2 - lo).
Proof.
  unfold enough. rewrite Nat.pow_succ_r'. intros Hlt Hw.
  pose proof (Nat.div_mod_eq (hi - lo) 2). pose proof (Nat.mod_upper_bound (hi - lo) 2). lia.
Qed.

Lemma enough_right fuel lo hi :
  (lo < hi)%nat → enough (S fuel) (hi - lo) → enough fuel (hi - S (lo + (hi - lo) / 2)).
Proof.
  unfold enough. rewrite Nat.pow_succ_r'. intros Hlt Hw.
  pose proof (Nat.div_mod_eq (hi - lo) 2). pose proof (Nat.mod_upper_bound (hi - lo) 2). lia.
Qed.

Lemma enough_positive lo hi : (lo < hi)%nat → ¬ enough 0 (hi - lo).
Proof. unfold enough. cbn. lia. Qed.

Section search.
Context `{JV : JsonValue} `{Hashing} `{!TextSerde ToolResult}.
Variables (entries : list ContextEntry) (checkpoint : option CompactionCheckpoint) (cuts : list nat).

(** ** The last dispatchable summary *)
Section last_fitting.
Variables (limit : Z) (sizer : ContextSizer).

Definition summary_fits (i : nat) : bool :=
  match summary_at entries checkpoint (cuts !!! i) with
  | Ok request => sizer request <=? limit
  | Err _ => false
  end.

(** The search ends: it takes at most [log2 n + 1] rounds. *)
Lemma last_fitting_terminates fuel : ∀ lo hi best,
  enough fuel (hi - lo) →
  is_Some (last_fitting_loop fuel entries checkpoint cuts limit sizer lo hi best).
Proof.
  induction fuel as [|fuel IH]; intros lo hi best Hf; cbn [last_fitting_loop];
    (destruct (Nat.ltb_spec lo hi) as [Hlt|Hge]; [|by eexists]).
  - destruct (enough_positive lo hi Hlt Hf).
  - destruct (summary_at _ _ _) as [request|e]; [|by eexists]. case_match.
    + apply IH. by apply enough_right.
    + apply IH. by apply enough_left.
Qed.

Hypothesis fits_down : ∀ i j, (i ≤ j < length cuts)%nat → summary_fits j = true → summary_fits i = true.

(** The best candidate so far. *)
Definition best_at (lo : nat) (best : option (nat * ModelRequest)) : Prop :=
  match lo with
  | O => best = None
  | S i => ∃ request, best = Some (i, request) ∧ summary_at entries checkpoint (cuts !!! i) = Ok request
  end.

Lemma last_fitting_spec fuel : ∀ lo hi best r,
  (lo ≤ hi ≤ length cuts)%nat → best_at lo best →
  (∀ i, (i < lo)%nat → summary_fits i = true) →
  (∀ i, (hi ≤ i < length cuts)%nat → summary_fits i = false) →
  last_fitting_loop fuel entries checkpoint cuts limit sizer lo hi best = Some (Ok r) →
  ∃ n, (n ≤ length cuts)%nat ∧ best_at n r ∧
    ∀ i, (i < length cuts)%nat → summary_fits i = (i <? n)%nat.
Proof.
  induction fuel as [|fuel IH]; intros lo hi best r Hb Hbest Hlo Hhi; cbn [last_fitting_loop];
    destruct (Nat.ltb_spec lo hi) as [Hlt|Hge]; try done.
  1,3: intros [= <-]; exists lo; split_and!; [lia|done|]; intros i Hi;
    destruct (Nat.ltb_spec i lo); [by apply Hlo|apply Hhi; lia].
  pose proof (half_position lo hi Hlt) as Hpos.
  set (position := (lo + (hi - lo) / 2)%nat) in *.
  assert (summary_fits position =
    match summary_at entries checkpoint (cuts !!! position) with
    | Ok request => sizer request <=? limit | Err _ => false end) as Hfit by done.
  destruct (summary_at entries checkpoint (cuts !!! position)) as [request|e] eqn:Es; [|done].
  destruct (sizer request <=? limit).
  - apply IH; [lia|by exists request| |done].
    intros i Hi. apply (fits_down i position); [lia|done].
  - apply IH; [lia|done|done|]. intros i Hi. apply not_true_iff_false. intros Hf.
    assert (summary_fits position = true) by (apply (fits_down position i); [lia|done]). congruence.
Qed.

(** The search finds the last position whose summary can be dispatched. *)
Lemma last_fitting_summary_spec r :
  last_fitting_summary entries checkpoint cuts limit sizer = Ok r →
  ∃ n, (n ≤ length cuts)%nat ∧ best_at n r ∧
    ∀ i, (i < length cuts)%nat → summary_fits i = (i <? n)%nat.
Proof.
  unfold last_fitting_summary.
  destruct (last_fitting_terminates (search_fuel (length cuts)) 0 (length cuts) None) as [res Hres].
  { rewrite Nat.sub_0_r. apply enough_fuel. }
  rewrite Hres. cbn. intros ->. eapply last_fitting_spec; [| | | |done]; try done; lia.
Qed.
End last_fitting.

(** ** The first tail within the budget *)
Section first_tail.
Variables (anchor : ContextEntry) (sizing : TailSizing).

Definition tail_fits (i : nat) : bool :=
  match projected_tail entries anchor (cuts !!! i) sizing with
  | Ok request => ts_sizer sizing request <=? ts_budget sizing
  | Err _ => false
  end.

Lemma first_tail_terminates fuel : ∀ lo hi,
  enough fuel (hi - lo) → is_Some (first_tail_loop fuel entries anchor cuts sizing lo hi).
Proof.
  induction fuel as [|fuel IH]; intros lo hi Hf; cbn [first_tail_loop];
    (destruct (Nat.ltb_spec lo hi) as [Hlt|Hge]; [|by eexists]).
  - destruct (enough_positive lo hi Hlt Hf).
  - destruct (projected_tail _ _ _ _) as [request|e]; [|by eexists]. case_match.
    + apply IH. by apply enough_left.
    + apply IH. by apply enough_right.
Qed.

(** A tail that is too large makes every longer tail too large. *)
Hypothesis misses_down : ∀ i j request, (i ≤ j < length cuts)%nat →
  projected_tail entries anchor (cuts !!! j) sizing = Ok request →
  ts_budget sizing < ts_sizer sizing request → tail_fits i = false.

Lemma first_tail_spec fuel : ∀ lo hi n r,
  (lo ≤ hi ≤ n)%nat → (n ≤ length cuts)%nat →
  (∀ i, (i < lo)%nat → tail_fits i = false) → ((hi < n)%nat → tail_fits hi = true) →
  first_tail_loop fuel entries anchor cuts sizing lo hi = Some (Ok r) →
  (r ≤ n)%nat ∧ (∀ i, (i < r)%nat → tail_fits i = false) ∧ ((r < n)%nat → tail_fits r = true).
Proof.
  induction fuel as [|fuel IH]; intros lo hi n r Hb Hn Hlo Hhi; cbn [first_tail_loop];
    destruct (Nat.ltb_spec lo hi) as [Hlt|Hge]; try done.
  1,3: intros [= <-]; split_and!; [lia| |done]; intros i Hi; apply Hlo; lia.
  pose proof (half_position lo hi Hlt) as Hpos.
  set (position := (lo + (hi - lo) / 2)%nat) in *.
  destruct (projected_tail entries anchor (cuts !!! position) sizing) as [request|e] eqn:Ep; [|done].
  destruct (Z.leb_spec (ts_sizer sizing request) (ts_budget sizing)) as [Hle|Hgt].
  - apply IH; [lia|done|done|]. intros _. unfold tail_fits. rewrite Ep. by apply Z.leb_le.
  - apply IH; [lia|done| |done]. intros i Hi. apply (misses_down i position request); [lia|done..].
Qed.

Lemma first_tail_within_budget_spec last r :
  (last < length cuts)%nat →
  first_tail_within_budget entries anchor cuts last sizing = Ok r →
  match r with
  | Some i => (i ≤ last)%nat ∧ tail_fits i = true ∧ ∀ j, (j < i)%nat → tail_fits j = false
  | None => ∀ j, (j ≤ last)%nat → tail_fits j = false
  end.
Proof.
  intros Hl. unfold first_tail_within_budget.
  destruct (first_tail_terminates (search_fuel (S last)) 0 (S last)) as [res Hres].
  { rewrite Nat.sub_0_r. apply enough_fuel. }
  rewrite Hres. cbn [default from_option id]. intros (i & -> & [= <-])%result_bind_ok.
  destruct (first_tail_spec _ 0%nat (S last) (S last) i ltac:(lia) ltac:(lia) ltac:(lia) ltac:(lia) Hres)
    as (Hi & Hbelow & Hat).
  destruct (Nat.leb_spec i last).
  - split_and!; [done|apply Hat; lia|done].
  - intros j Hj. apply Hbelow. lia.
Qed.
End first_tail.
End search.

(** * Limits, summaries and previews *)
(** ** Limits *)

(** The order every limit set keeps. *)
Definition limits_ordered (l : CompactionLimits) : Prop :=
  0 < max_summary l ∧ 0 < tail_budget l ∧ max_summary l + tail_budget l = target_input l ∧
  target_input l < automatic_compaction l ∧ automatic_compaction l ≤ dispatch_limit l ∧
  dispatch_limit l ≤ u64_max.

Definition u64 (z : Z) : Prop := 0 ≤ z ≤ u64_max.

(** Limits are accepted exactly when the reserve leaves a dispatch limit above
    the target and the target leaves room above the summary; then every slice
    is positive, they are ordered, and no subtraction wraps. A later automatic
    trigger is accepted exactly between the target and the dispatch limit. *)
Theorem limits_exact window reserved target summary automatic :
  u64 window → u64 reserved → u64 target → u64 summary → 0 < summary →
  match limits_new window reserved target summary with
  | Ok l =>
      limits_ordered l ∧ dispatch_limit l = window - reserved ∧ target_input l = target ∧
      automatic_compaction l = dispatch_limit l ∧ max_summary l = summary ∧
      match with_automatic_compaction_input_tokens l automatic with
      | Ok l' => limits_ordered l' ∧ automatic_compaction l' = automatic ∧
                 dispatch_limit l' = dispatch_limit l ∧ tail_budget l' = tail_budget l
      | Err _ => automatic ≤ target ∨ dispatch_limit l < automatic
      end
  | Err _ => window ≤ reserved ∨ window - reserved ≤ target ∨ target ≤ summary
  end.
Proof.
  unfold u64, limits_ordered, limits_new, nonzero_sub, with_automatic_compaction_input_tokens.
  intros Hw Hr Ht Hs Hpos.
  destruct (Z.ltb_spec reserved window); cbn; [|lia].
  destruct (Z.leb_spec (window - reserved) target); cbn; [lia|].
  destruct (Z.ltb_spec summary target); cbn; [|lia].
  split_and!; try lia. cbn.
  destruct (Z.ltb_spec (window - reserved) automatic); cbn; [lia|].
  destruct (Z.leb_spec automatic target); cbn; [lia|]. split_and!; lia.
Qed.

Lemma limits_exact_witness :
  match limits_new 200000 20000 100000 20000 with
  | Ok l => limits_ordered l ∧ dispatch_limit l = 180000
  | Err _ => False
  end.
Proof.
  pose proof (limits_exact 200000 20000 100000 20000 150000 ltac:(split; vm_compute; discriminate)
    ltac:(split; vm_compute; discriminate) ltac:(split; vm_compute; discriminate)
    ltac:(split; vm_compute; discriminate) eq_refl) as HL.
  destruct HL as (HO & HD & _). exact (conj HO HD).
Defined.

(** ** Sections of a summary *)

(** A section is its heading, then body lines that are no headings and not all
    blank. *)
Definition is_section (heading : string) (ls : list string) : Prop :=
  ∃ line body, ls = line :: body ∧ trim line = heading ∧
    Forall (λ l, is_heading l = false) body ∧ Exists (λ l, is_blank l = false) body.

(** The lines are one section per heading, followed by lines that are empty or
    start with a heading. *)
Fixpoint sections (headings ls rest : list string) : Prop :=
  match headings with
  | [] => ls = rest
  | heading :: headings =>
      ∃ s ls', ls = s ++ ls' ∧ is_section heading s ∧ from_option (λ l, is_heading l = true) True (head ls')
        ∧ sections headings ls' rest
  end.

Lemma section_body_spec ls : ∀ has b rest,
  section_body ls has = (b, rest) →
  ∃ body, ls = body ++ rest ∧ Forall (λ l, is_heading l = false) body ∧
    from_option (λ l, is_heading l = true) True (head rest) ∧
    (b = true ↔ has = true ∨ Exists (λ l, is_blank l = false) body).
Proof.
  induction ls as [|l ls IH]; intros has b rest; cbn.
  { intros [= <- <-]. exists []. rewrite Exists_nil. naive_solver. }
  destruct (is_heading l) eqn:Hl.
  - intros [= <- <-]. exists []. cbn. rewrite Exists_nil. naive_solver.
  - intros (body & -> & HF & Hh & Hb)%IH. exists (l :: body). split_and!; try done; [by constructor|].
    rewrite Hb, Exists_cons, orb_true_iff, negb_true_iff. naive_solver.
Qed.

Lemma section_body_app body rest has :
  Forall (λ l, is_heading l = false) body → from_option (λ l, is_heading l = true) True (head rest) →
  (section_body (body ++ rest) has).2 = rest.
Proof.
  intros HF Hr. revert has. induction HF as [|l body Hl HF IH]; intros has; cbn.
  - destruct rest as [|r rest]; cbn in *; [done|]. by rewrite Hr.
  - rewrite Hl. apply IH.
Qed.

Lemma check_sections_spec headings : ∀ ls rest,
  check_sections headings ls = Ok rest ↔ sections headings ls rest.
Proof.
  induction headings as [|h hs IH]; intros ls rest; cbn; [naive_solver|]. split.
  - destruct ls as [|line ls]; [done|].
    destruct (String.eqb_spec (trim line) h) as [Hh|]; cbn; [|done].
    destruct (section_body ls false) as [b rest'] eqn:Eb. destruct b; [|done]. cbn. intros Hc.
    destruct (section_body_spec _ _ _ _ Eb) as (body & -> & HF & Hhd & Hb).
    destruct (proj1 Hb eq_refl) as [|HE]; [done|]. exists (line :: body), rest'.
    split_and!; [done|by exists line, body|done|by apply IH].
  - intros (s & ls' & -> & (line & body & -> & Hh & HF & HE) & Hhd & Hs%IH). cbn.
    destruct (String.eqb_spec (trim line) h) as [_|]; [|done]. cbn.
    destruct (section_body (body ++ ls') false) as [b rest'] eqn:Eb.
    pose proof (section_body_app body ls' false HF Hhd) as Hrest. rewrite Eb in Hrest. cbn in Hrest.
    subst rest'. destruct (section_body_spec _ _ _ _ Eb) as (body' & Hsplit & _ & _ & Hb).
    apply app_inv_tail in Hsplit as <-. by rewrite (proj2 Hb (or_intror HE)).
Qed.

(** A summary is accepted exactly when, trimmed, it is not empty and consists
    of the seven required sections in order: each starts with its heading line,
    its body holds no other heading and is not blank, and nothing follows the
    last section. *)
Theorem validate_sections_exact summary :
  validate_sections summary = Ok tt ↔
  trim summary ≠ "" ∧ sections REQUIRED_HEADINGS (lines (trim summary)) [].
Proof.
  unfold validate_sections, is_empty. destruct (String.eqb_spec (trim summary) "") as [|Hne]; [naive_solver|].
  rewrite result_bind_ok. setoid_rewrite check_sections_spec. split.
  - intros ([|extra rest] & HS & E); done.
  - intros [_ HS]. by exists [].
Qed.

(** ** Previews of tool text *)
Section preview.
Implicit Types (p : TextPreview) (cs : list string).

Definition preview_of (limit : nat) cs : TextPreview := foldl preview_char (preview_new limit) cs.

(** The last [n] elements. *)
Definition last_n {A} (n : nat) (l : list A) : list A := drop (length l - n) l.

Lemma last_n_snoc {A} n (l : list A) a :
  (0 < n)%nat →
  last_n n (l ++ [a]) = (if (length l <? n)%nat then last_n n l else List.tl (last_n n l)) ++ [a].
Proof.
  intros Hn. unfold last_n. rewrite length_app. cbn [length].
  destruct (Nat.ltb_spec (length l) n) as [Hlt|Hge].
  - replace (length l + 1 - n)%nat with 0%nat by lia. by replace (length l - n)%nat with 0%nat by lia.
  - rewrite drop_app_le by lia. f_equal.
    replace (length l + 1 - n)%nat with ((length l - n) + 1)%nat by lia.
    rewrite <- drop_drop. by destruct (drop (length l - n) l).
Qed.

Lemma preview_invariant limit cs :
  let p := preview_of limit cs in
  tp_head_limit p = ((limit + 1) / 2)%nat ∧ tp_tail_limit p = (limit / 2)%nat ∧
  tp_total p = length cs ∧ tp_head p = take ((limit + 1) / 2) cs ∧
  tp_tail p = last_n (limit / 2) (drop ((limit + 1) / 2) cs).
Proof.
  induction cs as [|c cs IH] using rev_ind; cbv zeta in *.
  { split_and!; [done..| |]; [by rewrite take_nil|]. unfold last_n. by rewrite !drop_nil. }
  unfold preview_of in *. rewrite foldl_app. cbn [foldl]. set (p := foldl preview_char _ cs) in *.
  destruct IH as (H1 & H2 & H3 & H4 & H5).
  set (h := ((limit + 1) / 2)%nat) in *. set (t := (limit / 2)%nat) in *. clearbody h t.
  unfold preview_char.
  rewrite H1, H2, H3, H4, H5, length_app. cbn [length].
  destruct (Nat.leb_spec (S (length cs)) h) as [Hle|Hgt];
    cbn [tp_head_limit tp_tail_limit tp_head tp_tail tp_total].
  - split_and!; try done; [lia| |].
    + rewrite !take_ge; [done|rewrite ?length_app; cbn; lia..].
    + by rewrite !drop_ge by (rewrite ?length_app; cbn; lia).
  - split_and!; try done; [lia| |].
    + by rewrite take_app_le by lia.
    + rewrite drop_app_le by lia. destruct (Nat.ltb_spec 0 t) as [Ht|Ht].
      * rewrite last_n_snoc by done. f_equal. unfold last_n at 1. rewrite length_drop.
        destruct (Nat.eqb_spec (length (drop h cs) - (length (drop h cs) - t)) t) as [He|He],
          (Nat.ltb_spec (length (drop h cs)) t); try (done || lia).
      * replace t with 0%nat by lia. unfold last_n.
        rewrite !Nat.sub_0_r, !drop_ge by (rewrite ?length_app; cbn; lia). by case_match.
Qed.

(** A preview never holds more than its limit of characters and loses nothing
    silently: a text within the limit is kept whole, a longer one keeps its
    first half-limit and last half-limit characters, and the number of omitted
    characters is exact. *)
Theorem preview_exact limit cs :
  let p := preview_of limit cs in
  (length (tp_head p) + length (tp_tail p) ≤ limit)%nat ∧
  (if decide (length cs ≤ limit)%nat
   then tp_head p ++ tp_tail p = cs ∧ (tp_total p - (length (tp_head p) + length (tp_tail p)) = 0)%nat
   else ∃ omitted, cs = tp_head p ++ omitted ++ tp_tail p ∧
     length omitted = (tp_total p - (length (tp_head p) + length (tp_tail p)))%nat ∧
     length (tp_head p) = ((limit + 1) / 2)%nat ∧ length (tp_tail p) = (limit / 2)%nat).
Proof.
  cbv zeta. destruct (preview_invariant limit cs) as (_ & _ & Htot & Hh & Ht).
  assert ((limit + 1) / 2 + limit / 2 = limit)%nat as Hsum.
  { pose proof (Nat.div_mod_eq limit 2). pose proof (Nat.mod_upper_bound limit 2).
    pose proof (Nat.div_mod_eq (limit + 1) 2). pose proof (Nat.mod_upper_bound (limit + 1) 2). lia. }
  rewrite Htot, Hh, Ht. unfold last_n.
  set (h := ((limit + 1) / 2)%nat) in *. set (t := (limit / 2)%nat) in *. clearbody h t.
  rewrite !length_drop, !length_take. split; [lia|]. case_decide as Hle.
  - replace (length cs - h - t)%nat with 0%nat by lia. rewrite drop_0, take_drop. split; [done|lia].
  - exists (take (length cs - h - t) (drop h cs)). rewrite take_drop, take_drop.
    rewrite length_take, length_drop. split_and!; [done|lia..].
Qed.
End preview.
