(* ===== verification/LoopFormat.v ===== *)
(** * Events and checkpoints of the loop ([format.rs], [format/])

    The kinds of events the loop appends, the context it rebuilds from a
    session's events, and the checkpoint that resumes an unfinished operation.
    Identities and the texts of JSON errors inside formatted messages are
    left out of them. *)
From S2P Require Import Prelude Json State Text Messages PendingTools TurnContext Compaction.
(** ** Checkpoints ([format/checkpoint.rs]) *)
Definition CHECKPOINT_SCHEMA_VERSION : Z := 4.

Inductive LoopPhase `{JL : JsonLib} :=
| NeedModel (model_turns : Z)
| AwaitingModel (model_turns : Z)
| AwaitingCompaction (model_turns : Z) (plan : CompactionPlan) (max_attempts attempt : Z)
| AwaitingExplicitCompaction (plan : CompactionPlan) (max_attempts attempt : Z)
| NeedTool (model_turns : Z) (pending : PendingToolCalls)
| AwaitingTool (model_turns : Z) (pending : PendingToolCalls)
| AwaitingCodeStep (model_turns : Z) (pending : PendingToolCalls) (run : CodeRun)
    (request : CodeStepRequest)
| AwaitingCodeCalls (model_turns : Z) (pending : PendingToolCalls) (run : CodeRun)
    (snapshot : string) (calls : CodeCallBatch)
| Terminal.

Inductive ModelEffectOutput `{JL : JsonLib} :=
| ModelCompleted (response : ModelResponse)
| ContextWindowExceeded (message : string).

Record ContextCheckpointEvent := { cce_covered_through_sequence : Z; cce_summary : string }.
Record TurnContextEvent := { tce_entries : list ContributionWire }.
Record CompactionResult := { cr_estimated_input_tokens : Z }.

(** The derived serializers the loop uses. *)
Class LoopSerde `{JV : JsonValue} := {
  message_serde :: ValueSerde Message;
  phase_serde :: ValueSerde LoopPhase;
  output_serde :: ValueSerde ModelEffectOutput;
  request_serde :: ValueSerde ModelRequest;
  call_serde :: ValueSerde ToolCall;
  result_serde :: ValueSerde ToolResult;
  result_text :: TextSerde ToolResult;
  code_input_serde :: ValueSerde CodeModeInput;
  code_request_serde :: ValueSerde CodeStepRequest;
  code_output_serde :: ValueSerde CodeStepOutput;
  command_wire_serde :: ValueSerde AgentCommandWire;
  timing_wire_serde :: ValueSerde TurnTimingWire;
  context_wire_serde :: ValueSerde TurnContextEvent;
  checkpoint_event_serde :: ValueSerde ContextCheckpointEvent;
  compaction_result_serde :: ValueSerde CompactionResult;
}.

(** The laws the loop relies on. *)
Definition read_plan `{JV : JsonValue} (plan : CompactionPlan) : CompactionPlan :=
  {| plan_summary_request := read_request (plan_summary_request plan);
     plan_covered_through_sequence := plan_covered_through_sequence plan |}.
Definition read_phase `{JV : JsonValue} (phase : LoopPhase) : LoopPhase :=
  match phase with
  | AwaitingCompaction turns plan max_attempts attempt =>
      AwaitingCompaction turns (read_plan plan) max_attempts attempt
  | AwaitingExplicitCompaction plan max_attempts attempt =>
      AwaitingExplicitCompaction (read_plan plan) max_attempts attempt
  | _ => phase
  end.

Class LoopSerdeLaws `{LS : LoopSerde} : Prop := {
  message_laws :: ValueSerdeLaws Message read_message;
  phase_laws :: ValueSerdeLaws LoopPhase read_phase;
  output_laws :: ValueSerdeLaws ModelEffectOutput id;
  call_laws :: ValueSerdeLaws ToolCall id;
  result_laws :: ValueSerdeLaws ToolResult read_result;
  checkpoint_event_laws :: ValueSerdeLaws ContextCheckpointEvent id;
}.

Section format.
Context `{JV : JsonValue} `{LS : !LoopSerde} `{HS : Hashing}.

Definition checkpoint (phase : LoopPhase) : LResult Checkpoint :=
  state ← map_err (λ _, "agent checkpoint encoding failed") (to_value phase);
  Ok {| schema_version := CHECKPOINT_SCHEMA_VERSION; state := state |}.

Definition phase_attempts (phase : LoopPhase) : option (Z * Z) :=
  match phase with
  | AwaitingCompaction _ _ max_attempts attempt
  | AwaitingExplicitCompaction _ max_attempts attempt => Some (attempt, max_attempts)
  | _ => None
  end.

(** The checks of [decode_checkpoint] on a decoded phase. *)
Definition validate_phase (phase : LoopPhase) : LResult unit :=
  if match phase_attempts phase with
     | Some (attempt, max_attempts) => max_attempts <? attempt
     | None => false
     end
  then Err "agent checkpoint compaction attempt exceeds its maximum"
  else
    match phase with
    | NeedTool _ pending | AwaitingTool _ pending => pending_validate pending
    | AwaitingCodeStep _ pending run request =>
        pending_validate pending ;; validate_step run request
    | AwaitingCodeCalls _ pending run snapshot calls =>
        pending_validate pending ;; validate_call_wave run snapshot calls
    | _ => Ok tt
    end.

Definition decode_checkpoint (c : Checkpoint) : LResult LoopPhase :=
  phase ← map_err (λ _, "agent checkpoint is invalid") (from_value (state c));
  validate_phase phase ;;
  Ok phase.

(** ** Events *)
Definition MESSAGE_EVENT_KIND : string := "renoa.agent.message.v1".
Definition MESSAGE_EVENT_PREFIX : string := "renoa.agent.message.".
Definition TURN_TIMING_EVENT_KIND : string := "renoa.agent.turn-timing.v1".
Definition TURN_TIMING_EVENT_PREFIX : string := "renoa.agent.turn-timing.".
Definition TURN_CONTEXT_EVENT_KIND : string := "renoa.agent.turn-context.v1".
Definition TURN_CONTEXT_EVENT_PREFIX : string := "renoa.agent.turn-context.".
Definition RECEIPTED_EVENT_KIND : string := "renoa.agent.receipted.v1".
Definition RECEIPTED_EVENT_PREFIX : string := "renoa.agent.receipted.".
Definition CONTEXT_CHECKPOINT_EVENT_KIND : string := "renoa.agent.context-checkpoint.v1".
Definition CONTEXT_CHECKPOINT_EVENT_PREFIX : string := "renoa.agent.context-checkpoint.".
Definition COMPACTION_RESULT_EVENT_KIND : string := "renoa.agent.compaction-result.v1".
Definition COMPACTION_RESULT_EVENT_PREFIX : string := "renoa.agent.compaction-result.".

Definition message_event (message : Message) : LResult NewEvent :=
  payload ← map_err (λ _, "message event encoding failed") (to_value message);
  Ok {| kind := MESSAGE_EVENT_KIND; payload := payload |}.
Definition message_events (messages : list Message) : LResult (list NewEvent) :=
  collect message_event messages.

Definition observation_event (o : Observation) : LResult (option NewEvent) :=
  let event kind value :=
    payload ← map_err (λ _, kind +:+ " event encoding failed") value;
    Ok (Some {| kind := kind; payload := payload |}) in
  match o with
  | Unobserved => Ok None
  | Receipted => event RECEIPTED_EVENT_KIND (Ok (JObject []))
  | Timed timing => event TURN_TIMING_EVENT_KIND (to_value (timing_wire timing))
  | Observed _ context =>
      if turn_context_is_empty context then Ok None
      else event TURN_CONTEXT_EVENT_KIND (to_value {| tce_entries := contribution_wire <$> tcx_entries context |})
  end.

Definition context_checkpoint_event (covered : Z) (summary : string) : LResult NewEvent :=
  if is_blank summary then Err "activated context checkpoint summary cannot be empty"
  else
    payload ← map_err (λ _, "context checkpoint encoding failed")
      (to_value {| cce_covered_through_sequence := covered; cce_summary := summary |});
    Ok {| kind := CONTEXT_CHECKPOINT_EVENT_KIND; payload := payload |}.

Definition compaction_result_event (estimated : Z) : LResult NewEvent :=
  payload ← map_err (λ _, "compaction result encoding failed")
    (to_value {| cr_estimated_input_tokens := estimated |});
  Ok {| kind := COMPACTION_RESULT_EVENT_KIND; payload := payload |}.

(** ** Receipts ([format/receipts.rs]) *)
Definition mark (event : SemanticEvent) (receipted : gset OperationId)
    : LResult (bool * gset OperationId) :=
  if String.eqb (sev_kind event) RECEIPTED_EVENT_KIND then
    if decide (sev_operation_id event ∈ receipted)
    then Err "operation is marked receipted more than once"
    else Ok (true, {[sev_operation_id event]} ∪ receipted)
  else if starts_with (sev_kind event) RECEIPTED_EVENT_PREFIX
  then Err "receipted event kind is unsupported"
  else Ok (false, receipted).

Definition unannotated (receipted : gset OperationId) (annotations : gmap OperationId TurnAnnotation)
    : LResult unit :=
  if decide (receipted ∩ dom annotations = ∅) then Ok tt
  else Err "a receipted operation cannot carry turn timing or context".

(** The receipt of one operation's messages; a checkpoint that ended inside
    the operation moves to its end. *)
Definition receipt (held : list (ContextOrigin * Message)) (strategy : ContextStrategy)
    (checkpoint : option ActivatedCheckpoint)
    : LResult ((ContextOrigin * Message) * option ActivatedCheckpoint) :=
  match head held, last held with
  | Some (first, _), Some (last, _) =>
      let inside c := (org_sequence first <=? ack_covered_through_sequence c)
                      && (ack_covered_through_sequence c <? org_sequence last) in
      let checkpoint :=
        (λ c, if inside c
              then {| ack_covered_through_sequence := org_sequence last; ack_summary := ack_summary c |}
              else c) <$> checkpoint in
      text ← map_err (λ _, "operation has no receipt") (cs_receipt strategy held.*2);
      Ok ((last, user_text text), checkpoint)
  | _, _ => Err "a receipt needs at least one message"
  end.

(** The loop of [replace]: [held] are the messages of the receipted operation
    being collected. *)
Fixpoint replace_from (entries : list (ContextOrigin * Message)) (receipted : gset OperationId)
    (active : OperationId) (strategy : ContextStrategy) (held : list (ContextOrigin * Message))
    (checkpoint : option ActivatedCheckpoint)
    : LResult (list (ContextOrigin * Message) * option ActivatedCheckpoint) :=
  match entries with
  | [] =>
      if bool_decide (length held = 0%nat) then Ok ([], checkpoint)
      else
        '(entry, checkpoint) ← receipt held strategy checkpoint;
        Ok ([entry], checkpoint)
  | entry :: rest =>
      let operation := org_operation_id entry.1 in
      let closed := match head held with
                    | Some (origin, _) => negb (bool_decide (org_operation_id origin = operation))
                    | None => false
                    end in
      '(done, held, checkpoint) ←
        (if closed then
           '(entry, checkpoint) ← receipt held strategy checkpoint;
           Ok ([entry], [], checkpoint)
         else Ok ([], held, checkpoint));
      if bool_decide (operation ≠ active) && bool_decide (operation ∈ receipted)
      then
        '(replaced, checkpoint) ← replace_from rest receipted active strategy (held ++ [entry]) checkpoint;
        Ok (done ++ replaced, checkpoint)
      else
        '(replaced, checkpoint) ← replace_from rest receipted active strategy held checkpoint;
        Ok (done ++ entry :: replaced, checkpoint)
  end.

Definition replace (entries : list (ContextOrigin * Message)) (receipted : gset OperationId)
    (active : OperationId) (strategy : ContextStrategy) (checkpoint : option ActivatedCheckpoint)
    : LResult (list (ContextOrigin * Message) * option ActivatedCheckpoint) :=
  if decide (receipted ⊆ {[active]}) then Ok (entries, checkpoint)
  else replace_from entries receipted active strategy [] checkpoint.

(** ** The context of a session ([format.rs]) *)
Definition activated_checkpoint (event : SemanticEvent) (message_sequences : gset Z)
    (current : option ActivatedCheckpoint) : LResult ActivatedCheckpoint :=
  decoded ← map_err (λ _, "context checkpoint event cannot be decoded")
              (from_value (A:=ContextCheckpointEvent) (sev_payload event));
  if is_blank (cce_summary decoded) then Err "context checkpoint event has an empty summary"
  else if decide (cce_covered_through_sequence decoded ∉ message_sequences)
  then Err "context checkpoint boundary is not an earlier durable message"
  else if match current with
          | Some c => cce_covered_through_sequence decoded <=? ack_covered_through_sequence c
          | None => false
          end
  then Err "context checkpoint does not advance its durable message boundary"
  else Ok {| ack_covered_through_sequence := cce_covered_through_sequence decoded;
             ack_summary := cce_summary decoded |}.

Definition decode_payload {A} `{!ValueSerde A} (event : SemanticEvent) : LResult A :=
  map_err (λ _, "event cannot be decoded") (from_value (sev_payload event)).

Definition decode_annotation (event : SemanticEvent) : LResult (option TurnAnnotation) :=
  let k := sev_kind event in
  if String.eqb k TURN_TIMING_EVENT_KIND then
    wire ← decode_payload (A:=TurnTimingWire) event;
    timing ← map_err (λ _, "event cannot be decoded") (decode_timing wire);
    Ok (Some (Timing timing))
  else if String.eqb k TURN_CONTEXT_EVENT_KIND then
    wire ← decode_payload (A:=TurnContextEvent) event;
    context ← map_err (λ _, "event cannot be decoded") (decode_context (tce_entries wire));
    Ok (Some (AnnContext context))
  else if starts_with k TURN_TIMING_EVENT_PREFIX then Err "turn timing event kind is unsupported"
  else if starts_with k TURN_CONTEXT_EVENT_PREFIX then Err "turn context event kind is unsupported"
  else Ok None.

(** The locals of the loop over the events. *)
Record Gathered := {
  ga_entries : list (ContextOrigin * Message);
  ga_message_sequences : gset Z;
  ga_annotations : gmap OperationId TurnAnnotation;
  ga_receipted : gset OperationId;
  ga_checkpoint : option ActivatedCheckpoint;
}.
Definition nothing_gathered : Gathered :=
  {| ga_entries := []; ga_message_sequences := ∅; ga_annotations := ∅; ga_receipted := ∅;
     ga_checkpoint := None |}.

Definition gather (g : Gathered) (event : SemanticEvent) : LResult Gathered :=
  let k := sev_kind event in
  if String.eqb k MESSAGE_EVENT_KIND then
    message ← map_err (λ _, "message event cannot be decoded")
                (from_value (A:=Message) (sev_payload event));
    if decide (sev_sequence event ∈ ga_message_sequences g)
    then Err "message event sequence is duplicated"
    else Ok {|
      ga_entries := ga_entries g ++
        [({| org_operation_id := sev_operation_id event; org_sequence := sev_sequence event |}, message)];
      ga_message_sequences := {[sev_sequence event]} ∪ ga_message_sequences g;
      ga_annotations := ga_annotations g; ga_receipted := ga_receipted g;
      ga_checkpoint := ga_checkpoint g |}
  else if starts_with k MESSAGE_EVENT_PREFIX then Err "message event kind is unsupported"
  else
    '(marked, receipted) ← mark event (ga_receipted g);
    if marked : bool then Ok {|
      ga_entries := ga_entries g; ga_message_sequences := ga_message_sequences g;
      ga_annotations := ga_annotations g; ga_receipted := receipted;
      ga_checkpoint := ga_checkpoint g |}
    else
      annotation ← decode_annotation event;
      match annotation with
      | Some annotation =>
          if decide (is_Some (ga_annotations g !! sev_operation_id event))
          then Err "operation has more than one turn timing or context event"
          else Ok {|
            ga_entries := ga_entries g; ga_message_sequences := ga_message_sequences g;
            ga_annotations := <[sev_operation_id event := annotation]> (ga_annotations g);
            ga_receipted := ga_receipted g; ga_checkpoint := ga_checkpoint g |}
      | None =>
          if String.eqb k CONTEXT_CHECKPOINT_EVENT_KIND then
            c ← activated_checkpoint event (ga_message_sequences g) (ga_checkpoint g);
            Ok {| ga_entries := ga_entries g; ga_message_sequences := ga_message_sequences g;
                  ga_annotations := ga_annotations g; ga_receipted := ga_receipted g;
                  ga_checkpoint := Some c |}
          else if starts_with k CONTEXT_CHECKPOINT_EVENT_PREFIX
          then Err "context checkpoint event kind is unsupported"
          else if negb (String.eqb k COMPACTION_RESULT_EVENT_KIND)
                  && starts_with k COMPACTION_RESULT_EVENT_PREFIX
          then Err "compaction result event kind is unsupported"
          else if String.eqb k COMPACTION_RESULT_EVENT_KIND then
            map_err (λ _, "compaction result event cannot be decoded")
              (from_value (A:=CompactionResult) (sev_payload event)) ;;
            Ok g
          else Ok g
      end.

Fixpoint gather_all (g : Gathered) (events : list SemanticEvent) : LResult Gathered :=
  match events with
  | [] => Ok g
  | event :: rest => g ← gather g event; gather_all g rest
  end.

Definition user_messages (entries : list (ContextOrigin * Message)) (operation : OperationId) : nat :=
  length (List.filter (λ e, bool_decide (org_operation_id e.1 = operation) && is_user e.2) entries).

Definition validate_annotations (entries : list (ContextOrigin * Message))
    (annotations : gmap OperationId TurnAnnotation) : LResult unit :=
  if tbl_forall (λ operation _, (user_messages entries operation =? 1)%nat) annotations then Ok tt
  else Err "operation turn timing or context does not belong to exactly one user message".

Definition finish_context_input (active : OperationId) (entries : list (ContextOrigin * Message))
    (annotations : gmap OperationId TurnAnnotation) (checkpoint : option ActivatedCheckpoint)
    (system_prompt : string) (tools : list ToolSpec) (compaction_required : bool)
    : LResult ContextInput :=
  validate_annotations entries annotations ;;
  Ok (context_input_new active entries annotations checkpoint system_prompt tools compaction_required).

Definition context_input (active : OperationId) (events : list SemanticEvent)
    (strategy : ContextStrategy) (system_prompt : string) (tools : list ToolSpec)
    (compaction_required : bool) : LResult ContextInput :=
  g ← gather_all nothing_gathered events;
  unannotated (ga_receipted g) (ga_annotations g) ;;
  '(entries, checkpoint) ← replace (ga_entries g) (ga_receipted g) active strategy (ga_checkpoint g);
  finish_context_input active entries (ga_annotations g) checkpoint system_prompt tools
    compaction_required.
End format.
