(* ===== verification/AgentLoop.v ===== *)
(** * The model/tool loop ([decision.rs] and [decision/])

    The plugin the kernel drives: every decision, abandonment and cancellation
    of one operation, as functions of the durable input. *)
From S2P Require Import Prelude Json State Runtime Text Messages PendingTools TurnContext Compaction.
From S2P Require Import LoopFormat.
(** ** Configuration ([configuration.rs]) *)
Definition MODEL_EFFECT_BINDING : string := "renoa.agent.model".
Definition COMPACTION_EFFECT_BINDING : string := "renoa.agent.compaction".

Record AgentLoopConfig := {
  cfg_system_prompt : string;
  cfg_max_model_turns : option Z;
  cfg_max_tool_calls_per_turn : Z;
}.

Record LoopTool `{JsonLib} := {
  lt_spec : ToolSpec; lt_effect_binding : string; lt_recovery : EffectRecovery }.

Record LoopCodeMode `{JsonLib} := {
  lc_spec : ToolSpec; lc_nested_name : string; lc_nested_binding : string;
  lc_nested_recovery : EffectRecovery }.

Record AgentLoop `{JsonLib} := {
  al_config : AgentLoopConfig;
  al_context : ContextStrategy;
  al_model_recovery : EffectRecovery;
  al_tools : list LoopTool;
  al_code_mode : option LoopCodeMode;
}.

Section agent_loop.
Context `{JV : JsonValue} `{LS : !LoopSerde} `{HS : Hashing}.
Implicit Types (l : AgentLoop).

(** ** Encoding *)
Definition encode {A} `{!ValueSerde A} (description : string) (value : A) : LResult Value :=
  map_err (λ e, description +:+ " encoding failed: " +:+ e) (to_value value).
Definition decode {A} `{!ValueSerde A} (description : string) (value : Value) : LResult A :=
  map_err (λ e, description +:+ " is invalid: " +:+ e) (from_value value).

Definition unavailable_result (call : ToolCall) (message : string) : ToolResult := {|
  result_call_id := call_id call; result_name := call_name call;
  result_content := [BlockText message]; result_details := None; result_is_error := true;
  result_closing := None |}.

Definition terminal : LResult Checkpoint := checkpoint Terminal.

Definition fail_decision (events : list NewEvent) (reason : string) : LResult LoopDecision :=
  c ← terminal;
  Ok (FailOperation c events reason).

(** ** Settled effects ([effect_input.rs]) *)
Definition require_effect (batch : option SettledEffectBatch) (expected : string)
    : LResult SettledEffect :=
  batch ← ok_or batch ("checkpoint is missing its settled " +:+ expected);
  match sb_effects batch with
  | [] => Err ("settled " +:+ expected +:+ " batch contains no effect")
  | [effect] => Ok effect
  | _ => Err ("settled " +:+ expected +:+ " batch contains more than one effect")
  end.

Definition require_effect_request_identity (kind actual_binding : string) (actual_request : Value)
    (expected_binding : string) (expected_request : Value) : LResult unit :=
  if negb (String.eqb actual_binding expected_binding)
  then Err (kind +:+ " effect binding `" +:+ actual_binding +:+ "` differs from expected `"
            +:+ expected_binding +:+ "`")
  else if negb (bool_decide (actual_request = expected_request))
  then Err (kind +:+ " effect request differs from durable loop state")
  else Ok tt.

Definition require_effect_identity (effect : SettledEffect) (binding : string) (request : Value)
    : LResult unit :=
  require_effect_request_identity "settled" (se_binding effect) (se_request effect) binding request.

(** ** Context *)
Definition loop_tool_specs l : list ToolSpec :=
  (lt_spec <$> al_tools l) ++ from_option (λ code, [lc_spec code]) [] (al_code_mode l).

Definition build_context_input l (active : OperationId) (events : list SemanticEvent)
    (compaction_required : bool) : LResult ContextInput :=
  context_input active events (al_context l) (cfg_system_prompt (al_config l)) (loop_tool_specs l)
    compaction_required.

Definition validate_compaction_plan l (active : OperationId) (events : list SemanticEvent)
    (plan : CompactionPlan) : LResult unit :=
  input ← build_context_input l active events false;
  map_err (λ e, "context compaction plan is invalid: " +:+ planning_error_text e)
    (validate_plan input plan).

Definition validate_explicit_compaction_plan (input : ContextInput) (plan : CompactionPlan)
    : LResult unit :=
  map_err (λ e, "explicit context compaction plan is invalid: " +:+ planning_error_text e)
    (validate_explicit_plan input plan).

Definition prepare_context l (active : OperationId) (events : list SemanticEvent)
    (compaction_required : bool) : LResult ContextPreparation :=
  input ← build_context_input l active events compaction_required;
  preparation ← map_err (λ e, "context projection failed: " +:+ e) (cs_prepare (al_context l) input);
  match preparation with
  | PrepCompact plan _ => validate_compaction_plan l active events plan
  | _ => Ok tt
  end ;;
  Ok preparation.

Definition model_request l (messages : list Message) : ModelRequest := {|
  req_system_prompt := cfg_system_prompt (al_config l);
  req_messages := model_visible_messages messages;
  req_tools := loop_tool_specs l |}.

Definition normal_model_request l (active : OperationId) (events : list SemanticEvent)
    : LResult ModelRequest :=
  preparation ← prepare_context l active events false;
  match preparation with
  | PrepModel messages => Ok (model_request l messages)
  | PrepCompact _ _ =>
      Err "context strategy changed a persisted model request into a compaction request"
  | PrepCapacityExceeded _ _ =>
      Err "context strategy changed a persisted model request into a capacity failure"
  end.

(** ** Compaction ([decision/compaction.rs]) *)
Inductive CompactionContinuation := ContinueModel (model_turns : Z) | ContinueExplicit.

Definition compaction_failure (reason : string) : LResult LoopDecision := fail_decision [] reason.

Definition context_capacity_failure (estimated limit : Z) (provider_message : option string)
    : LResult LoopDecision :=
  let capacity := "context cannot be reduced below the provider limit: estimated " +:+ show estimated
                  +:+ " input tokens, dispatch limit " +:+ show limit in
  compaction_failure
    match provider_message with
    | Some message => "provider rejected model context: " +:+ message +:+ "; " +:+ capacity
    | None => capacity
    end.

Definition invoke_compaction_attempt l (continuation : CompactionContinuation) (plan : CompactionPlan)
    (max_attempts attempt : Z) : LResult LoopDecision :=
  request ← encode "compaction request" (plan_summary_request plan);
  let phase := match continuation with
               | ContinueModel turns => AwaitingCompaction turns plan max_attempts attempt
               | ContinueExplicit => AwaitingExplicitCompaction plan max_attempts attempt
               end in
  c ← checkpoint phase;
  Ok (InvokeEffects c [{| er_binding := COMPACTION_EFFECT_BINDING; er_request := request;
                          er_recovery := al_model_recovery l |}]).

Definition invoke_compaction l (model_turns : Z) (plan : CompactionPlan) (max_attempts : Z)
    : LResult LoopDecision :=
  invoke_compaction_attempt l (ContinueModel model_turns) plan max_attempts 1.

Definition retry_or_fail_compaction l (continuation : CompactionContinuation) (plan : CompactionPlan)
    (max_attempts attempt : Z) (reason : string) : LResult LoopDecision :=
  if max_attempts <=? attempt then compaction_failure reason
  else
    next ← ok_or (checked_add_u32 attempt 1) "compaction attempt counter overflowed";
    invoke_compaction_attempt l continuation plan max_attempts next.

Definition request_explicit_compaction l (input : LoopInput) : LResult LoopDecision :=
  match li_effect_batch input with
  | Some _ => Err "an explicit-compaction-ready checkpoint cannot have a settled effect"
  | None =>
      context ← build_context_input l (li_operation_id input) (li_events input) false;
      preparation ← map_err (λ e, "explicit context compaction failed: " +:+ e)
                      (cs_prepare_explicit_compaction (al_context l) context);
      match preparation with
      | ExplicitUpToDate estimated =>
          c ← terminal;
          event ← compaction_result_event estimated;
          Ok (Complete c [event])
      | ExplicitCompact plan max_attempts =>
          validate_explicit_compaction_plan context plan ;;
          invoke_compaction_attempt l ContinueExplicit plan max_attempts 1
      | ExplicitCapacityExceeded estimated limit => context_capacity_failure estimated limit None
      end
  end.

(** The summary is activated. *)
Definition activate_summary l (continuation : CompactionContinuation) (plan : CompactionPlan)
    (explicit_context : option ContextInput) (summary : string) : LResult LoopDecision :=
  match continuation with
  | ContinueModel model_turns =>
      c ← checkpoint (NeedModel model_turns);
      event ← context_checkpoint_event (plan_covered_through_sequence plan) summary;
      Ok (AppendEventsAndContinue c [event])
  | ContinueExplicit =>
      context ← ok_or explicit_context "explicit compaction context is missing";
      estimated ← map_err (λ e, "explicit context compaction estimate failed: " +:+ e)
                    (cs_estimate_after_explicit_compaction (al_context l) context plan summary);
      c ← terminal;
      event ← context_checkpoint_event (plan_covered_through_sequence plan) summary;
      result ← compaction_result_event estimated;
      Ok (Complete c [event; result])
  end.

Definition settle_compaction_for l (continuation : CompactionContinuation) (plan : CompactionPlan)
    (max_attempts attempt : Z) (input : LoopInput) : LResult LoopDecision :=
  explicit_context ←
    (match continuation with
     | ContinueModel _ =>
         validate_compaction_plan l (li_operation_id input) (li_events input) plan ;; Ok None
     | ContinueExplicit =>
         context ← build_context_input l (li_operation_id input) (li_events input) false;
         validate_explicit_compaction_plan context plan ;;
         Ok (Some context)
     end);
  effect ← require_effect (li_effect_batch input) "compaction result";
  expected ← encode "compaction request" (plan_summary_request plan);
  require_effect_identity effect COMPACTION_EFFECT_BINDING expected ;;
  match se_outcome effect with
  | Failure message => compaction_failure message
  | Success output =>
      output ← decode (A:=ModelEffectOutput) "compaction model output" output;
      match output with
      | ModelCompleted response =>
          match cs_validate_compaction (al_context l) plan response with
          | Ok summary => activate_summary l continuation plan explicit_context summary
          | Err error => retry_or_fail_compaction l continuation plan max_attempts attempt error
          end
      | ContextWindowExceeded message =>
          compaction_failure ("compaction request exceeded provider context: " +:+ message)
      end
  end.

(** The turn limit, when there is one and it is reached. *)
Definition turn_limit_reached l (model_turns : Z) : option Z :=
  match cfg_max_model_turns (al_config l) with
  | Some limit => if limit <=? model_turns then Some limit else None
  | None => None
  end.

Definition compact_after_provider_overflow l (model_turns : Z) (operation_id : OperationId)
    (events : list SemanticEvent) (provider_message : string) : LResult LoopDecision :=
  match turn_limit_reached l model_turns with
  | Some _ => compaction_failure
      ("provider rejected model context after the configured model-turn limit: " +:+ provider_message)
  | None =>
      preparation ← prepare_context l operation_id events true;
      match preparation with
      | PrepCompact plan max_attempts => invoke_compaction l model_turns plan max_attempts
      | PrepCapacityExceeded estimated limit =>
          context_capacity_failure estimated limit (Some provider_message)
      | PrepModel _ => compaction_failure
          ("provider rejected model context, but the configured context strategy produced no compaction plan: "
           +:+ provider_message)
      end
  end.

(** ** Tools *)
Definition find_tool l (name : string) : option LoopTool :=
  List.find (λ tool, String.eqb (spec_name (lt_spec tool)) name) (al_tools l).

Definition append_tool_result (model_turns : Z) (pending : PendingToolCalls) (result : ToolResult)
    : LResult LoopDecision :=
  let phase := match pending_advance pending with
               | Some pending => NeedTool model_turns pending
               | None => NeedModel model_turns
               end in
  c ← checkpoint phase;
  event ← message_event (Tool result);
  Ok (AppendEventsAndContinue c [event]).

(** One result per call: the first message for the current call, the second
    for the calls after it. *)
Definition unavailable_results (pending : PendingToolCalls) (current later : string) : list Message :=
  Tool (unavailable_result (pt_current pending) current)
    :: ((λ call, Tool (unavailable_result call later)) <$> pt_remaining pending).

Definition fail_tool (pending : PendingToolCalls) (reason : string) : LResult LoopDecision :=
  c ← terminal;
  events ← message_events (unavailable_results pending
    "Tool execution ended without a model-visible result."
    "Tool call was not run because an earlier tool failed.");
  Ok (FailOperation c events reason).

(** ** Closing results ([decision/closing.rs]) *)
Fixpoint caller_metadata_rev (events : list SemanticEvent) : LResult AssistantMetadata :=
  match events with
  | [] => Err "a closing tool result has no assistant message before it"
  | event :: rest =>
      if negb (String.eqb (sev_kind event) MESSAGE_EVENT_KIND) then caller_metadata_rev rest
      else
        message ← map_err (λ e, "history message is invalid: " +:+ e)
                    (from_value (A:=Message) (sev_payload event));
        match message with
        | Assistant _ _ _ metadata => Ok {|
            meta_api := meta_api metadata; meta_provider := meta_provider metadata;
            meta_model := meta_model metadata; meta_response_model := None;
            meta_response_id := None; meta_raw_stop_reason := None |}
        | _ => caller_metadata_rev rest
        end
  end.
Definition caller_metadata (events : list SemanticEvent) : LResult AssistantMetadata :=
  caller_metadata_rev (rev events).

Definition close_turn (pending : PendingToolCalls) (result : ToolResult) (closing : Closing)
    (events : list SemanticEvent) : LResult LoopDecision :=
  if is_blank (closing_message closing)
  then Err ("tool `" +:+ result_name result +:+ "` ended the turn with an empty closing message")
  else
    metadata ← caller_metadata events;
    let not_run := (λ call, Tool (unavailable_result call (closing_not_run closing)))
                     <$> pt_remaining pending in
    let reply := Assistant [AssistantText (closing_message closing) None] Stop None metadata in
    c ← terminal;
    events ← message_events (Tool result :: not_run ++ [reply]);
    Ok (WaitForInput c events).

(** A tool result without its closing. *)
Definition without_closing (r : ToolResult) : ToolResult := {|
  result_call_id := result_call_id r; result_name := result_name r;
  result_content := result_content r; result_details := result_details r;
  result_is_error := result_is_error r; result_closing := None |}.

(** What each call of the wave returned, keyed by its identity. *)
Definition wave_results (wave : gmap string (list ContentBlock * bool)) : list (string * Value) :=
  (λ '(id, (content, is_error)),
     (id, JObject [("content", JArray (json_text_block <$> content)); ("is_error", JBool is_error)]))
  <$> map_to_list wave.

Definition stop_code_run (pending : PendingToolCalls)
    (wave : gmap string (list ContentBlock * bool)) (closings : list Closing)
    (events : list SemanticEvent) : LResult LoopDecision :=
  let stopped := JObject [("stopped", JString "a call ended the turn");
                          ("results", JObject (wave_results wave))] in
  text ← map_err (λ e, "Code Mode stop encoding failed: " +:+ e) (render stopped);
  let stopped := if MAX_CODE_RESULT_BYTES <? len text
                 then JObject [("stopped", JString "a call ended the turn")] else stopped in
  result ← model_result (pt_current pending) stopped false;
  let not_run := from_option closing_not_run "" (head closings) in
  let message := join (nl +:+ nl) (closing_message <$> closings) in
  close_turn pending result {| closing_message := message; closing_not_run := not_run |} events.
End agent_loop.
