(* ===== verification/AgentDecide.v ===== *)
(** * Decisions of the loop ([decision.rs], [decision/code_mode.rs],
      [decision/interruption.rs])

    The transitions between checkpoints and the three methods of the plugin. *)
From S2P Require Import Prelude Json State Runtime Text Messages PendingTools TurnContext Compaction.
From S2P Require Import LoopFormat AgentLoop.
Section decide.
Context `{JV : JsonValue} `{LS : !LoopSerde} `{HS : Hashing}.
Implicit Types (l : AgentLoop).

(** ** Code Mode ([decision/code_mode.rs]) *)
Definition code_executor l : LResult LoopCodeMode :=
  ok_or (al_code_mode l) "Code Mode binding is no longer configured".

Definition validate_code_phase l (phase : LoopPhase) (operation_id : OperationId) : LResult unit :=
  match phase with
  | AwaitingCodeStep model_turns pending run _ | AwaitingCodeCalls model_turns pending run _ _ =>
      code ← code_executor l;
      if negb (String.eqb (call_name (pt_current pending)) (spec_name (lc_spec code)))
         || negb (String.eqb (run_id run)
                    (run_id (code_run_new operation_id model_turns (pt_current pending))))
      then Err "Code Mode checkpoint differs from its outer call identity"
      else Ok tt
  | _ => Ok tt
  end.

Definition invoke_code_step (model_turns : Z) (pending : PendingToolCalls) (run : CodeRun)
    (request : CodeStepRequest) : LResult LoopDecision :=
  encoded ← encode "Code Mode step request" request;
  c ← checkpoint (AwaitingCodeStep model_turns pending run request);
  Ok (InvokeEffects c [{| er_binding := CODE_STEP_EFFECT_BINDING; er_request := encoded;
                          er_recovery := SafeToReplay |}]).

Definition request_code_mode (model_turns : Z) (pending : PendingToolCalls)
    (operation_id : OperationId) : LResult LoopDecision :=
  let call := pt_current pending in
  let refused := append_tool_result model_turns pending
    (unavailable_result call "Code Mode requires nonempty Python source of at most 64 KiB.") in
  match from_value (A:=CodeModeInput) (call_arguments call) with
  | Ok input =>
      if negb (is_blank (code_source input)) && (len (code_source input) <=? MAX_CODE_BYTES) then
        let run := code_run_new operation_id model_turns call in
        invoke_code_step model_turns pending run
          {| csr_run_id := run_id run; csr_step := Start (code_source input) |}
      else refused
  | Err _ => refused
  end.

Definition nested_effect (code : LoopCodeMode) (run : CodeRun) (call : CodePluginCall)
    : LResult EffectRequest :=
  request ← encode "Code Mode MCP request" (nested_tool_call run call (lc_nested_name code));
  Ok {| er_binding := lc_nested_binding code; er_request := request;
        er_recovery := lc_nested_recovery code |}.

Definition settle_code_step l (model_turns : Z) (pending : PendingToolCalls) (run : CodeRun)
    (request : CodeStepRequest) (batch : option SettledEffectBatch) : LResult LoopDecision :=
  effect ← require_effect batch "Code Mode step";
  expected ← encode "Code Mode step request" request;
  require_effect_identity effect CODE_STEP_EFFECT_BINDING expected ;;
  match se_outcome effect with
  | Failure message => fail_tool pending message
  | Success value =>
      output ← decode (A:=CodeStepOutput) "Code Mode step output" value;
      match output with
      | CodeCompleted result is_error =>
          text ← map_err (λ e, "Code Mode final result encoding failed: " +:+ e) (render result);
          if MAX_CODE_RESULT_BYTES <? len text
          then append_tool_result model_turns pending
                 (unavailable_result (pt_current pending)
                    "Code Mode final result exceeds 1 MiB; return a smaller value.")
          else
            result ← model_result (pt_current pending) result is_error;
            append_tool_result model_turns pending result
      | Suspended snapshot calls =>
          if is_empty snapshot || (MAX_CODE_SNAPSHOT_BYTES <? len snapshot)
          then fail_tool pending "Code Mode snapshot is empty or exceeds 2 MiB"
          else
            match code_batch_new calls with
            | Err error => fail_tool pending error
            | Ok calls =>
                match add_wave run (code_batch_len calls) with
                | Err error => fail_tool pending error
                | Ok run =>
                    code ← code_executor l;
                    effects ← collect (nested_effect code run) (ordered calls);
                    c ← checkpoint (AwaitingCodeCalls model_turns pending run snapshot calls);
                    Ok (InvokeEffects c effects)
                end
            end
      end
  end.

(** Settled effects by the identity of the call they answer. *)
Fixpoint index_settled (effects : list SettledEffect) (by_id : gmap string SettledEffect)
    : LResult (gmap string SettledEffect) :=
  match effects with
  | [] => Ok by_id
  | effect :: rest =>
      request ← decode (A:=ToolCall) "Code Mode MCP request" (se_request effect);
      if decide (is_Some (by_id !! call_id request))
      then Err "Code Mode MCP result repeats a call identity"
      else index_settled rest (<[call_id request := effect]> by_id)
  end.

(** One fallible check per element, the first error wins. *)
Definition for_each {A} (f : A → LResult unit) (l : list A) : LResult unit := collect f l ;; Ok tt.

Definition validate_settled_code_batch l (run : CodeRun) (calls : CodeCallBatch)
    (batch : SettledEffectBatch) : LResult (gmap string SettledEffect) :=
  code ← code_executor l;
  if negb (Z.of_nat (length (sb_effects batch)) =? code_batch_len calls)
  then Err "Code Mode MCP result count differs from its call wave"
  else
    by_id ← index_settled (sb_effects batch) ∅;
    for_each (λ call,
      let expected := nested_tool_call run call (lc_nested_name code) in
      effect ← ok_or (by_id !! call_id expected) "Code Mode MCP result is missing a call identity";
      request ← encode "Code Mode MCP request" expected;
      require_effect_identity effect (lc_nested_binding code) request) (ordered calls) ;;
    Ok by_id.

(** The locals of the loop over the calls of a wave. *)
Record WaveState := {
  ws_results : gmap string Value;
  ws_bytes : Z;
  ws_closings : list Closing;
  ws_seen : gmap string (list ContentBlock * bool);
}.
Inductive WaveOutcome := WaveDone (w : WaveState) | WaveFailed (message : string) | WaveTooLarge.

Fixpoint gather_wave l (run : CodeRun) (effects : gmap string SettledEffect)
    (calls : list CodePluginCall) (w : WaveState) : LResult WaveOutcome :=
  match calls with
  | [] => Ok (WaveDone w)
  | call :: rest =>
      let identity := run_call_id run (cp_call_id call) in
      effect ← ok_or (effects !! identity) "Code Mode MCP result is missing";
      match se_outcome effect with
      | Failure message => Ok (WaveFailed message)
      | Success value =>
          result ← decode (A:=ToolResult) "Code Mode MCP tool result" value;
          code ← code_executor l;
          if negb (String.eqb (result_call_id result) identity)
             || negb (String.eqb (result_name result) (lc_nested_name code))
          then Err "Code Mode MCP result identity differs from its request"
          else
            let python_value := python_result result in
            text ← map_err (λ e, "Code Mode MCP result encoding failed: " +:+ e) (render python_value);
            let bytes := ws_bytes w + len text in
            if MAX_CODE_WAVE_RESULTS_BYTES <? bytes then Ok WaveTooLarge
            else gather_wave l run effects rest {|
              ws_results := <[show (cp_call_id call) := python_value]> (ws_results w);
              ws_bytes := bytes;
              ws_closings := ws_closings w ++ from_option (λ c, [c]) [] (result_closing result);
              ws_seen := <[show (cp_call_id call) := (result_content result, result_is_error result)]>
                           (ws_seen w) |}
      end
  end.

Definition settle_code_calls l (model_turns : Z) (pending : PendingToolCalls) (run : CodeRun)
    (snapshot : string) (calls : CodeCallBatch) (input : LoopInput) : LResult LoopDecision :=
  batch ← ok_or (li_effect_batch input) "Code Mode MCP checkpoint has no settled batch";
  effects ← validate_settled_code_batch l run calls batch;
  wave ← gather_wave l run effects (ordered calls)
           {| ws_results := ∅; ws_bytes := 0; ws_closings := []; ws_seen := ∅ |};
  match wave with
  | WaveFailed message => fail_tool pending message
  | WaveTooLarge => append_tool_result model_turns pending
      (unavailable_result (pt_current pending)
         "MCP results exceed Code Mode's 2 MiB per-wave limit; request less data.")
  | WaveDone w =>
      if negb (bool_decide (ws_closings w = []))
      then stop_code_run pending (ws_seen w) (ws_closings w) (li_events input)
      else invoke_code_step model_turns pending run
             {| csr_run_id := run_id run; csr_step := Resume snapshot (ws_results w) |}
  end.

Definition code_unavailable_events (pending : PendingToolCalls) (current_message : string)
    : LResult (list NewEvent) :=
  message_events (unavailable_results pending current_message
    "Tool call was not run because Code Mode did not complete.").

(** ** Model turns ([decision.rs]) *)
Definition decide_initial l (input : LoopInput) : LResult LoopDecision :=
  match li_effect_batch input with
  | Some _ => Err "an uncheckpointed operation cannot have a settled effect"
  | None =>
      let invalid error := fail_decision [] ("invalid agent command: " +:+ error) in
      match from_value (A:=AgentCommandWire) (content (li_command input)) with
      | Err error => invalid error
      | Ok wire =>
          match decode_command wire with
          | Err (BadPrompt reason) => invalid reason
          | Err _ => invalid "data did not match any variant of untagged enum AgentCommandWire"
          | Ok command =>
              match ac_kind command with
              | Prompt content observation =>
                  event ← message_event (User content);
                  observed ← observation_event observation;
                  c ← checkpoint (NeedModel 0);
                  Ok (AppendEventsAndContinue c (event :: option_list observed))
              | Compact => request_explicit_compaction l input
              end
          end
      end
  end.

Definition request_model l (model_turns : Z) (input : LoopInput) : LResult LoopDecision :=
  match li_effect_batch input with
  | Some _ => Err "a model-ready checkpoint cannot have a settled effect"
  | None =>
      match turn_limit_reached l model_turns with
      | Some limit =>
          fail_decision [] ("model exceeded the configured turn limit of " +:+ show limit)
      | None =>
          preparation ← prepare_context l (li_operation_id input) (li_events input) false;
          match preparation with
          | PrepModel messages =>
              next_turn ← ok_or (checked_add_u32 model_turns 1) "model turn counter overflowed";
              c ← checkpoint (AwaitingModel next_turn);
              request ← encode "model request" (model_request l messages);
              Ok (InvokeEffects c [{| er_binding := MODEL_EFFECT_BINDING; er_request := request;
                                      er_recovery := al_model_recovery l |}])
          | PrepCompact plan max_attempts => invoke_compaction l model_turns plan max_attempts
          | PrepCapacityExceeded estimated limit => context_capacity_failure estimated limit None
          end
      end
  end.

Definition classify_model_response l (model_turns : Z) (response : ModelResponse)
    : LResult LoopDecision :=
  let calls := content_calls (resp_content response) in
  let count := Z.of_nat (length calls) in
  let limit := cfg_max_tool_calls_per_turn (al_config l) in
  if (u32_max <? count) || (limit <? count)
  then fail_decision [] ("model returned " +:+ show count +:+ " tool calls; the per-turn limit is "
                         +:+ show limit)
  else
    match validate_tool_call_ids (call_id <$> calls) with
    | Err error => fail_decision [] (batch_error_text error)
    | Ok _ =>
        let assistant := Assistant (resp_content response) (resp_stop_reason response)
                           (resp_usage response) (resp_metadata response) in
        if bool_decide (length calls = 0%nat) then
          c ← terminal;
          event ← message_event assistant;
          Ok (Complete c [event])
        else if bool_decide (resp_stop_reason response = Length) then
          c ← checkpoint (NeedModel model_turns);
          events ← message_events (assistant :: ((λ call, Tool (unavailable_result call
            "Tool call was not executed because the model response reached its token limit."))
            <$> calls));
          Ok (AppendEventsAndContinue c events)
        else
          pending ← pending_new calls;
          c ← checkpoint (NeedTool model_turns pending);
          event ← message_event assistant;
          Ok (AppendEventsAndContinue c [event])
    end.

Definition settle_model l (model_turns : Z) (input : LoopInput) : LResult LoopDecision :=
  effect ← require_effect (li_effect_batch input) "model result";
  expected_request ← normal_model_request l (li_operation_id input) (li_events input);
  expected ← encode "model request" expected_request;
  require_effect_identity effect MODEL_EFFECT_BINDING expected ;;
  match se_outcome effect with
  | Failure message => fail_decision [] message
  | Success output =>
      output ← decode (A:=ModelEffectOutput) "model effect output" output;
      match output with
      | ModelCompleted response => classify_model_response l model_turns response
      | ContextWindowExceeded message =>
          compact_after_provider_overflow l model_turns (li_operation_id input) (li_events input) message
      end
  end.

(** ** Tool turns *)
Definition is_code_call l (call : ToolCall) : bool :=
  match al_code_mode l with
  | Some code => String.eqb (call_name call) (spec_name (lc_spec code))
  | None => false
  end.

Definition request_tool l (model_turns : Z) (pending : PendingToolCalls) (input : LoopInput)
    : LResult LoopDecision :=
  match li_effect_batch input with
  | Some _ => Err "a tool-ready checkpoint cannot have a settled effect"
  | None =>
      let call := pt_current pending in
      if is_code_call l call then request_code_mode model_turns pending (li_operation_id input)
      else
        match find_tool l (call_name call) with
        | None => append_tool_result model_turns pending
            (unavailable_result call ("Tool `" +:+ call_name call +:+ "` is not available."))
        | Some tool =>
            request ← encode "tool request" call;
            c ← checkpoint (AwaitingTool model_turns pending);
            Ok (InvokeEffects c [{| er_binding := lt_effect_binding tool; er_request := request;
                                    er_recovery := lt_recovery tool |}])
        end
  end.

Definition configured_tool l (call : ToolCall) : LResult LoopTool :=
  ok_or (find_tool l (call_name call)) "awaited tool binding is no longer configured".

Definition settle_tool l (model_turns : Z) (pending : PendingToolCalls) (events : list SemanticEvent)
    (batch : option SettledEffectBatch) : LResult LoopDecision :=
  let call := pt_current pending in
  tool ← configured_tool l call;
  effect ← require_effect batch "tool result";
  expected ← encode "tool request" call;
  require_effect_identity effect (lt_effect_binding tool) expected ;;
  match se_outcome effect with
  | Failure message => fail_tool pending message
  | Success value =>
      result ← decode (A:=ToolResult) "tool result" value;
      if negb (String.eqb (result_call_id result) (call_id call))
         || negb (String.eqb (result_name result) (call_name call))
      then Err "tool result identity differs from its persisted request"
      else
        match result_closing result with
        | Some closing => close_turn pending (without_closing result) closing events
        | None => append_tool_result model_turns pending result
        end
  end.

Definition decide_loop l (input : LoopInput) : LResult LoopDecision :=
  match li_checkpoint input with
  | None => decide_initial l input
  | Some saved =>
      phase ← decode_checkpoint saved;
      validate_code_phase l phase (li_operation_id input) ;;
      match phase with
      | NeedModel turns => request_model l turns input
      | AwaitingModel turns => settle_model l turns input
      | AwaitingCompaction turns plan max_attempts attempt =>
          settle_compaction_for l (ContinueModel turns) plan max_attempts attempt input
      | AwaitingExplicitCompaction plan max_attempts attempt =>
          settle_compaction_for l ContinueExplicit plan max_attempts attempt input
      | NeedTool turns pending => request_tool l turns pending input
      | AwaitingTool turns pending => settle_tool l turns pending (li_events input) (li_effect_batch input)
      | AwaitingCodeStep turns pending run request =>
          settle_code_step l turns pending run request (li_effect_batch input)
      | AwaitingCodeCalls turns pending run snapshot calls =>
          settle_code_calls l turns pending run snapshot calls input
      | Terminal => Err "a terminal agent checkpoint cannot be driven"
      end
  end.

(** ** Interruption ([decision/interruption.rs]) *)
Definition require_single_effect_fact (batch : EffectBatchFacts) (expected : string)
    : LResult EffectFact :=
  match bf_effects batch with
  | [effect] => Ok effect
  | _ => Err (expected +:+ " effect batch must contain exactly one effect")
  end.

Definition require_unknown_effect_identity (batch : EffectBatchFacts) (binding : string)
    (request : Value) : LResult unit :=
  effect ← require_single_effect_fact batch "unknown";
  match effect with
  | FactUnknown effect =>
      require_effect_request_identity "unknown" (ue_binding effect) (ue_request effect) binding request
  | _ => Err "unknown effect batch contains a child that is not unknown"
  end.

Definition fact_identity (effect : EffectFact) : string * string * Value :=
  match effect with
  | NotDispatched e => ("not-dispatched", ue_binding e, ue_request e)
  | FactSettled e => ("settled", se_binding e, se_request e)
  | FactUnknown e => ("unknown", ue_binding e, ue_request e)
  end.

Definition require_cancellation_effect_identity (batch : EffectBatchFacts) (binding : string)
    (request : Value) : LResult EffectFact :=
  effect ← require_single_effect_fact batch "cancellation";
  let '(kind, actual_binding, actual_request) := fact_identity effect in
  require_effect_request_identity kind actual_binding actual_request binding request ;;
  Ok effect.

Definition require_no_cancellation_effect (input : CancellationInput) : LResult unit :=
  match ci_effect_batch input with
  | Some _ => Err "a ready checkpoint cannot contain a cancellation effect"
  | None => Ok tt
  end.

Definition cancelled (events : list NewEvent) : LResult CancellationTransition :=
  c ← terminal;
  Ok {| ct_checkpoint := c; ct_events := events |}.

Definition abandoned (events : LResult (list NewEvent)) : LResult UnknownEffectAbandonment :=
  c ← terminal;
  events ← events;
  Ok {| ab_checkpoint := c; ab_events := events |}.

(** The facts of a wave, by the identity of the call. *)
Fixpoint index_facts (facts : list EffectFact) (by_id : gmap string (string * string * Value))
    : LResult (gmap string (string * string * Value)) :=
  match facts with
  | [] => Ok by_id
  | fact :: rest =>
      call ← decode (A:=ToolCall) "Code Mode MCP fact request" (fact_identity fact).2;
      if decide (is_Some (by_id !! call_id call))
      then Err "Code Mode MCP effect facts repeat a call identity"
      else index_facts rest (<[call_id call := fact_identity fact]> by_id)
  end.

Definition is_unknown_fact (fact : EffectFact) : bool :=
  match fact with FactUnknown _ => true | _ => false end.

Definition validate_code_facts l (run : CodeRun) (calls : CodeCallBatch) (batch : EffectBatchFacts)
    (require_unknown : bool) : LResult unit :=
  code ← code_executor l;
  if negb (Z.of_nat (length (bf_effects batch)) =? code_batch_len calls)
  then Err "Code Mode MCP effect facts differ from its call wave"
  else
    by_id ← index_facts (bf_effects batch) ∅;
    for_each (λ call,
      let expected := nested_tool_call run call (lc_nested_name code) in
      fact ← ok_or (by_id !! call_id expected) "Code Mode MCP effect fact is missing";
      let '(kind, binding, request) := fact in
      expected ← encode "Code Mode MCP request" expected;
      require_effect_request_identity kind binding request (lc_nested_binding code) expected)
      (ordered calls) ;;
    if require_unknown && negb (existsb is_unknown_fact (bf_effects batch))
    then Err "Code Mode abandonment has no unknown MCP call"
    else Ok tt.

Definition abandon_unknown_model l (input : UnknownEffectInput) : LResult UnknownEffectAbandonment :=
  expected ← normal_model_request l (ui_operation_id input) (ui_events input);
  request ← encode "model request" expected;
  require_unknown_effect_identity (ui_effect_batch input) MODEL_EFFECT_BINDING request ;;
  abandoned (Ok []).

Definition abandon_unknown_compaction (plan : CompactionPlan) (input : UnknownEffectInput)
    : LResult UnknownEffectAbandonment :=
  request ← encode "compaction request" (plan_summary_request plan);
  require_unknown_effect_identity (ui_effect_batch input) COMPACTION_EFFECT_BINDING request ;;
  abandoned (Ok []).

Definition abandon_unknown_tool l (pending : PendingToolCalls) (input : UnknownEffectInput)
    : LResult UnknownEffectAbandonment :=
  let call := pt_current pending in
  tool ← configured_tool l call;
  request ← encode "tool request" call;
  require_unknown_effect_identity (ui_effect_batch input) (lt_effect_binding tool) request ;;
  abandoned (message_events (unavailable_results pending
    "This tool may have finished, but Renoa could not recover a definite result."
    "Tool call was not run because an earlier tool outcome is unknown.")).

Definition abandon_unknown_code_step l (pending : PendingToolCalls) (request : CodeStepRequest)
    (input : UnknownEffectInput) : LResult UnknownEffectAbandonment :=
  code_executor l ;;
  expected ← encode "Code Mode step request" request;
  require_unknown_effect_identity (ui_effect_batch input) CODE_STEP_EFFECT_BINDING expected ;;
  abandoned (code_unavailable_events pending
    "Code Mode evaluation ended without a recoverable result.").

Definition abandon_unknown_code_calls l (pending : PendingToolCalls) (run : CodeRun)
    (calls : CodeCallBatch) (input : UnknownEffectInput) : LResult UnknownEffectAbandonment :=
  validate_code_facts l run calls (ui_effect_batch input) true ;;
  abandoned (code_unavailable_events pending
    "An MCP call may have finished, but Code Mode could not recover its result.").

Definition abandon_loop l (input : UnknownEffectInput) : LResult UnknownEffectAbandonment :=
  phase ← decode_checkpoint (ui_checkpoint input);
  validate_code_phase l phase (ui_operation_id input) ;;
  match phase with
  | AwaitingModel _ => abandon_unknown_model l input
  | AwaitingCompaction _ plan _ _ | AwaitingExplicitCompaction plan _ _ =>
      abandon_unknown_compaction plan input
  | AwaitingTool _ pending => abandon_unknown_tool l pending input
  | AwaitingCodeStep _ pending _ request => abandon_unknown_code_step l pending request input
  | AwaitingCodeCalls _ pending run _ calls => abandon_unknown_code_calls l pending run calls input
  | NeedModel _ | NeedTool _ _ | Terminal => Err "checkpoint is not awaiting the unknown effect"
  end.

Definition cancel_model l (input : CancellationInput) : LResult CancellationTransition :=
  expected ← normal_model_request l (ci_operation_id input) (ci_events input);
  batch ← ok_or (ci_effect_batch input) "an awaiting model checkpoint has no cancellation effect batch";
  request ← encode "model request" expected;
  require_cancellation_effect_identity batch MODEL_EFFECT_BINDING request ;;
  cancelled [].

Definition cancel_compaction (plan : CompactionPlan) (input : CancellationInput)
    : LResult CancellationTransition :=
  batch ← ok_or (ci_effect_batch input)
            "an awaiting compaction checkpoint has no cancellation effect batch";
  request ← encode "compaction request" (plan_summary_request plan);
  require_cancellation_effect_identity batch COMPACTION_EFFECT_BINDING request ;;
  cancelled [].

Definition NOT_RUN_CANCELLED : string := "Tool call was not run because the operation was cancelled.".

Definition cancel_planned_tools (pending : PendingToolCalls) (input : CancellationInput)
    : LResult CancellationTransition :=
  require_no_cancellation_effect input ;;
  events ← message_events (unavailable_results pending NOT_RUN_CANCELLED NOT_RUN_CANCELLED);
  cancelled events.

Definition settled_tool_result (call : ToolCall) (outcome : EffectOutcome) : LResult ToolResult :=
  match outcome with
  | Success value =>
      result ← decode (A:=ToolResult) "tool result" value;
      if negb (String.eqb (result_call_id result) (call_id call))
         || negb (String.eqb (result_name result) (call_name call))
      then Err "tool result identity differs from its persisted request"
      else Ok (without_closing result)
  | Failure _ => Ok (unavailable_result call
      "Tool execution ended without a model-visible result before the operation was cancelled.")
  end.

Definition cancel_current_tool l (pending : PendingToolCalls) (input : CancellationInput)
    : LResult CancellationTransition :=
  let call := pt_current pending in
  tool ← configured_tool l call;
  batch ← ok_or (ci_effect_batch input) "an awaiting tool checkpoint has no cancellation effect batch";
  request ← encode "tool request" call;
  effect ← require_cancellation_effect_identity batch (lt_effect_binding tool) request;
  current ← (match effect with
             | NotDispatched _ => Ok (unavailable_result call NOT_RUN_CANCELLED)
             | FactUnknown _ => Ok (unavailable_result call
                 "This tool may have finished, but its result is unavailable because the operation was cancelled.")
             | FactSettled effect => settled_tool_result call (se_outcome effect)
             end);
  events ← message_events (Tool current
    :: ((λ call, Tool (unavailable_result call NOT_RUN_CANCELLED)) <$> pt_remaining pending));
  cancelled events.

Definition cancel_code_step l (pending : PendingToolCalls) (request : CodeStepRequest)
    (input : CancellationInput) : LResult CancellationTransition :=
  code_executor l ;;
  batch ← ok_or (ci_effect_batch input) "Code Mode step cancellation has no effect batch";
  expected ← encode "Code Mode step request" request;
  require_cancellation_effect_identity batch CODE_STEP_EFFECT_BINDING expected ;;
  events ← code_unavailable_events pending
    "Code Mode was cancelled before its result entered conversation history.";
  cancelled events.

Definition cancel_code_calls l (pending : PendingToolCalls) (run : CodeRun) (calls : CodeCallBatch)
    (input : CancellationInput) : LResult CancellationTransition :=
  batch ← ok_or (ci_effect_batch input) "Code Mode MCP cancellation has no effect batch";
  validate_code_facts l run calls batch false ;;
  events ← code_unavailable_events pending
    "Code Mode was cancelled before its MCP results were resumed in Python.";
  cancelled events.

Definition cancel_loop l (input : CancellationInput) : LResult CancellationTransition :=
  match ci_checkpoint input with
  | None => require_no_cancellation_effect input ;; cancelled []
  | Some saved =>
      phase ← decode_checkpoint saved;
      validate_code_phase l phase (ci_operation_id input) ;;
      match phase with
      | NeedModel _ => require_no_cancellation_effect input ;; cancelled []
      | AwaitingModel _ => cancel_model l input
      | AwaitingCompaction _ plan _ _ | AwaitingExplicitCompaction plan _ _ =>
          cancel_compaction plan input
      | NeedTool _ pending => cancel_planned_tools pending input
      | AwaitingTool _ pending => cancel_current_tool l pending input
      | AwaitingCodeStep _ pending _ request => cancel_code_step l pending request input
      | AwaitingCodeCalls _ pending run _ calls => cancel_code_calls l pending run calls input
      | Terminal => Err "a terminal agent checkpoint cannot be cancelled"
      end
  end.

(** The plugin offered to the kernel. *)
Definition loop_plugin l : LoopPlugin :=
  {| decide_ := decide_loop l; plugin_abandon := abandon_loop l; plugin_cancel := cancel_loop l |}.
End decide.
