(* ===== verification/Sampling.v ===== *)
(** * Model sampling and effect adapters

    [renoa-agent]'s [sampling.rs], [events.rs] and the errors of [model.rs],
    and [renoa-agent-loop]'s [adapters.rs]: one model stream driven to a
    response under cancellation, what an observer sees of it, and how its end
    becomes the completion of a kernel effect. *)
From S2P Require Import Prelude Json State Text Messages PendingTools TurnContext Compaction LoopFormat.
(** ** Errors ([model.rs]) *)
Inductive InferenceOutcome := KnownNotStarted | InferenceUnknown.

Inductive ModelErrorKind :=
| Authentication | RateLimited | InvalidRequest | WindowExceeded | Network | TimeoutKind
| ProviderUnavailable | Protocol | StreamInterrupted | CancelledKind | UnknownKind.
#[global] Instance ModelErrorKind_eq_dec : EqDecision ModelErrorKind.
Proof. solve_decision. Defined.
#[global] Instance InferenceOutcome_eq_dec : EqDecision InferenceOutcome.
Proof. solve_decision. Defined.

Record ModelFailureDiagnostic := {
  diag_provider : string; diag_model : string; diag_attempt_count : Z;
  diag_http_status : option Z; diag_provider_code : option string; diag_request_id : option string;
  diag_retry_after : option string; diag_cause_code : option string;
  diag_cause_message : option string; diag_provider_message : option string;
}.

Record ModelError := {
  me_kind : ModelErrorKind;
  me_inference_outcome : InferenceOutcome;
  me_message : string;
  me_diagnostic : option ModelFailureDiagnostic;
}.

Definition model_error_cancelled (message : string) : ModelError :=
  {| me_kind := CancelledKind; me_inference_outcome := KnownNotStarted; me_message := message;
     me_diagnostic := None |}.
Definition with_unknown_outcome (e : ModelError) : ModelError :=
  {| me_kind := me_kind e; me_inference_outcome := InferenceUnknown; me_message := me_message e;
     me_diagnostic := me_diagnostic e |}.

Inductive AssistantDelta :=
| DeltaText (text : string)
| DeltaReasoning (text : string)
| DeltaToolCallStart (id name : string)
| DeltaToolCallArguments (json_delta : string).

Inductive ModelFailureCode :=
| FailureKind (kind : ModelErrorKind)     (* the codes named like a [ModelErrorKind] *)
| IncompleteStreamCode.

Section sampling.
Context `{JV : JsonValue}.

(** One item of the provider stream. *)
Inductive ModelEvent :=
| ProviderRequest (payload : Value)
| ProviderResponse (status : Z) (headers : list (string * string))
| ContentDelta (content_index : nat) (delta : AssistantDelta)
| RetryAttempt (attempt next_attempt : Z) (category : ModelErrorKind) (delay_ms : Z)
    (cause_code : option string)
| StreamCompleted (response : ModelResponse).

(** What an observer is told, the invocation identity left out. *)
Inductive AgentEvent :=
| MessageStart (role : MessageRole)
| MessageUpdate (content_index : nat) (delta : AssistantDelta)
| MessageAbort
| ModelRequestStart (request : ModelRequest)
| ModelProviderRequest (payload : Value)
| ModelProviderResponse (status : Z) (headers : list (string * string))
| ModelRequestChunk (content_index : nat) (delta : AssistantDelta)
| ModelRequestEnd (response : ModelResponse)
| ModelRequestFailed (code : ModelFailureCode) (message : string) (outcome_unknown : bool)
    (diagnostic : option ModelFailureDiagnostic)
| ModelRetryAttempt (attempt next_attempt : Z) (category : ModelErrorKind) (delay_ms : Z)
    (cause_code : option string)
| ToolExecutionStart (call : ToolCall)
| ToolExecutionUpdate (call : ToolCall) (update : ToolOutput)
| ToolExecutionEnd (call : ToolCall) (result : ToolResult)
| ToolExecutionOutcomeUnknown (call : ToolCall) (error : ToolOutcomeUnknown).

(** ** The observer ([SamplingObserver]) *)
Record SamplingObserver := {
  so_message_started : bool;
  so_provider_traffic : bool;
  so_emitted : list AgentEvent;      (* in order of emission *)
}.

Definition emit (o : SamplingObserver) (events : list AgentEvent) : SamplingObserver :=
  {| so_message_started := so_message_started o; so_provider_traffic := so_provider_traffic o;
     so_emitted := so_emitted o ++ events |}.

Definition traffic (o : SamplingObserver) : SamplingObserver :=
  {| so_message_started := so_message_started o; so_provider_traffic := true;
     so_emitted := so_emitted o |}.

Definition observer_start (request : ModelRequest) : SamplingObserver :=
  {| so_message_started := false; so_provider_traffic := false;
     so_emitted := [ModelRequestStart request] |}.

Definition record_event (o : SamplingObserver) (event : ModelEvent)
    : SamplingObserver * option ModelResponse :=
  match event with
  | ProviderRequest payload => (emit (traffic o) [ModelProviderRequest payload], None)
  | ProviderResponse status headers =>
      (emit (traffic o) [ModelProviderResponse status headers], None)
  | ContentDelta content_index delta =>
      let o := emit o [ModelRequestChunk content_index delta] in
      let o := if so_message_started o then o
               else {| so_message_started := true; so_provider_traffic := so_provider_traffic o;
                       so_emitted := so_emitted o ++ [MessageStart RoleAssistant] |} in
      (emit o [MessageUpdate content_index delta], None)
  | RetryAttempt attempt next category delay cause =>
      (emit (traffic o) [ModelRetryAttempt attempt next category delay cause], None)
  | StreamCompleted response => (emit o [ModelRequestEnd response], Some response)
  end.

Definition abort_message (o : SamplingObserver) : SamplingObserver :=
  if so_message_started o then emit o [MessageAbort] else o.

Definition observer_cancel (o : SamplingObserver) (may_have_dispatched : bool) : SamplingObserver :=
  emit (abort_message o)
    [ModelRequestFailed (FailureKind CancelledKind) "model sampling was cancelled"
       may_have_dispatched None].

Definition observer_model_failure (o : SamplingObserver) (error : ModelError)
    : SamplingObserver * ModelError :=
  let o' := abort_message o in
  let error :=
    if so_message_started o && bool_decide (me_inference_outcome error = KnownNotStarted)
    then with_unknown_outcome error else error in
  (emit o' [ModelRequestFailed (FailureKind (me_kind error)) (me_message error)
              (bool_decide (me_inference_outcome error = InferenceUnknown)) (me_diagnostic error)],
   error).

Definition observer_incomplete (o : SamplingObserver) : SamplingObserver :=
  emit (abort_message o)
    [ModelRequestFailed IncompleteStreamCode "model stream ended without a completed response"
       true None].

(** ** Sampling *)
Inductive SamplingError :=
| SamplingCancelled
| SamplingModel (error : ModelError)
| IncompleteStream.

Definition Stream := list (Result ModelError ModelEvent).

(** When cancellation is seen: before the [n]-th item of the stream is taken
    (the biased branch of [select!]), or by the time an error at position [n]
    is handled. *)
Record CancellationSeen := { seen_before : nat → bool; seen_at_error : nat → bool }.

(** The rest of the stream after a cancellation: the last response, the last
    error, and the observer. *)
Fixpoint drain (stream : Stream) (o : SamplingObserver) (adapter_error : option ModelError)
    (completed : option ModelResponse)
    : SamplingObserver * option ModelError * option ModelResponse :=
  match stream with
  | [] => (o, adapter_error, completed)
  | Ok event :: rest =>
      let '(o, response) := record_event o event in
      drain rest o adapter_error (match response with Some r => Some r | None => completed end)
  | Err error :: rest => drain rest o (Some error) completed
  end.

Definition drain_cancelled_stream (stream : Stream) (o : SamplingObserver)
    : Result SamplingError ModelResponse * SamplingObserver :=
  let '(o, adapter_error, completed) := drain stream o None None in
  match completed with
  | Some response => (Ok response, o)
  | None =>
      if so_provider_traffic o || so_message_started o then
        match adapter_error with
        | Some error =>
            let '(o, error) := observer_model_failure o error in
            (Err (SamplingModel error), o)
        | None =>
            (Err (SamplingModel (with_unknown_outcome
                    (model_error_cancelled "model sampling was cancelled"))), observer_cancel o true)
        end
      else (Err SamplingCancelled, observer_cancel o false)
  end.

Fixpoint sample_loop (seen : CancellationSeen) (n : nat) (stream : Stream) (o : SamplingObserver)
    : Result SamplingError ModelResponse * SamplingObserver :=
  if seen_before seen n then drain_cancelled_stream stream o
  else
    match stream with
    | [] => (Err IncompleteStream, observer_incomplete o)
    | Ok event :: rest =>
        let '(o, response) := record_event o event in
        match response with
        | Some response => (Ok response, o)
        | None => sample_loop seen (S n) rest o
        end
    | Err error :: _ =>
        if seen_at_error seen n && negb (so_provider_traffic o) && negb (so_message_started o)
        then (Err SamplingCancelled, observer_cancel o false)
        else
          let '(o, error) := observer_model_failure o error in
          (Err (SamplingModel error), o)
    end.

(** [initially] is whether cancellation was requested before the call. *)
Definition sample_model (initially : bool) (seen : CancellationSeen) (request : ModelRequest)
    (stream : Stream) : Result SamplingError ModelResponse * list AgentEvent :=
  if initially then (Err SamplingCancelled, [])
  else let '(r, o) := sample_loop seen 0 stream (observer_start request) in (r, so_emitted o).

(** ** Adapters ([adapters.rs]) *)
Context `{LS : !LoopSerde}.

(** The events of a summary request that reach the observer. *)
Definition summary_event (event : AgentEvent) : option AgentEvent :=
  match event with
  | MessageStart _ | MessageUpdate _ _ | MessageAbort => None
  | ModelRequestEnd response => Some (ModelRequestEnd {|
      resp_content := []; resp_stop_reason := resp_stop_reason response;
      resp_usage := resp_usage response; resp_metadata := resp_metadata response |})
  | event => Some event
  end.

Definition adapter_failure (action error : string) : EffectCompletion :=
  CompletionSettled (Failure (action +:+ ": " +:+ error)).

Definition model_completion (output : ModelEffectOutput) : EffectCompletion :=
  match to_value output with
  | Ok output => CompletionSettled (Success output)
  | Err error => adapter_failure "model response serialization failed" error
  end.

(** The completion of one sampling result. *)
Definition sampling_completion (r : Result SamplingError ModelResponse) : EffectCompletion :=
  match r with
  | Ok response => model_completion (ModelCompleted response)
  | Err (SamplingModel error) =>
      match me_inference_outcome error with
      | KnownNotStarted =>
          if bool_decide (me_kind error = WindowExceeded)
          then model_completion (ContextWindowExceeded (me_message error))
          else CompletionSettled (Failure (me_message error))
      | InferenceUnknown => CompletionUnknown
      end
  | Err SamplingCancelled => CompletionSettled (Failure "model sampling was cancelled")
  | Err IncompleteStream => CompletionUnknown
  end.

(** [ModelAdapter::invoke]: the completion of the effect and what the sink of
    the adapter is told. *)
Definition model_adapter_invoke (initially : bool) (seen : CancellationSeen)
    (stream_of : ModelRequest → Stream) (request : Value) : EffectCompletion * list AgentEvent :=
  match from_value (A:=ModelRequest) request with
  | Err error => (adapter_failure "invalid persisted model request" error, [])
  | Ok request =>
      let '(r, events) := sample_model initially seen request (stream_of request) in
      (sampling_completion r, events)
  end.

(** [ToolAdapter::invoke]; the progress updates of the tool are [updates]. *)
Definition tool_adapter_invoke (execute : ToolCall → Result ToolError ToolOutput) (cancelled : bool)
    (updates : list ToolOutput) (request : Value) : EffectCompletion * list AgentEvent :=
  match from_value (A:=ToolCall) request with
  | Err error => (adapter_failure "invalid persisted tool request" error, [])
  | Ok call =>
      let progress := if cancelled then [] else ToolExecutionUpdate call <$> updates in
      let start := ToolExecutionStart call :: progress in
      match invoke_tool (Some (execute call)) cancelled call with
      | Ok result =>
          match to_value result with
          | Ok encoded => (CompletionSettled (Success encoded), start ++ [ToolExecutionEnd call result])
          | Err error => (adapter_failure "tool result serialization failed" error, start)
          end
      | Err error => (CompletionUnknown, start ++ [ToolExecutionOutcomeUnknown call error])
      end
  end.
End sampling.
