(* ===== verification/LoopRuntime.v ===== *)
(** * Building the runtime of the loop ([configuration.rs], [usage.rs])

    Models, tools and evaluators are opaque handles; the specification of a
    tool is what its [spec] method returns. *)
From S2P Require Import Prelude Json State Runtime Text Messages PendingTools TurnContext Compaction.
From S2P Require Import LoopFormat AgentLoop AgentDecide.
Definition LOOP_BINDING : string := "renoa.agent.model-tool-loop".
Definition LOOP_REVISION : string := "16".
Definition FULL_HISTORY_CONTEXT_REVISION : string := "renoa.context.full-history.v1".

Definition tool_effect_binding (tool_name : string) : string := "renoa.agent.tool/" +:+ tool_name.

(** The adapters a runtime binds ([adapters.rs]). *)
Inductive LoopAdapter (Model ToolHandle Evaluator : Type) :=
| ReplyAdapter (model : Model)
| SummaryAdapter (model : Model)
| ToolAdapter (tool : ToolHandle)
| EvaluatorAdapter (evaluator : Evaluator).
Arguments ReplyAdapter {_ _ _} model.
Arguments SummaryAdapter {_ _ _} model.
Arguments ToolAdapter {_ _ _} tool.
Arguments EvaluatorAdapter {_ _ _} evaluator.

Section configuration.
Context `{JV : JsonValue} `{LS : !LoopSerde} `{HS : Hashing}.
Context {Model ToolHandle Evaluator : Type} (tool_spec : ToolHandle → ToolSpec).

Record ModelBinding := { mb_revision : string; mb_model : Model; mb_recovery : EffectRecovery }.
Record ContextBinding := { xb_revision : string; xb_strategy : ContextStrategy }.
Record AgentToolBinding := { tb_revision : string; tb_tool : ToolHandle; tb_recovery : EffectRecovery }.
Record CodeModeBinding := {
  kb_revision : string; kb_evaluator : Evaluator; kb_nested : AgentToolBinding }.

Definition full_history : ContextBinding :=
  {| xb_revision := FULL_HISTORY_CONTEXT_REVISION; xb_strategy := FullHistoryStrategy |}.

(** What the digest of the configuration covers. *)
Record DigestTool := { dt_revision : string; dt_spec : ToolSpec; dt_recovery : EffectRecovery }.
Record DigestCodeMode := {
  dc_revision : string; dc_spec : ToolSpec; dc_nested_revision : string; dc_nested_spec : ToolSpec;
  dc_nested_recovery : EffectRecovery }.
Record DigestConfiguration := {
  dg_system_prompt : string; dg_max_model_turns : option Z; dg_max_tool_calls_per_turn : Z;
  dg_context_revision : string; dg_model_recovery : EffectRecovery; dg_tools : list DigestTool;
  dg_code_mode : option DigestCodeMode }.

Inductive AgentLoopBuildError :=
| EmptyContextRevision
| EmptyModelRevision
| EmptyToolName
| EmptyToolRevision (name : string)
| DuplicateToolName (name : string)
| EmptyCodeModeRevision
| InvalidCodeModeExecutor (name : string)
| ReplayableCodeModeExecutor
| ConfigurationEncoding (error : string)
| RuntimeRefused (error : RuntimeError).

Context `{!TextSerde DigestConfiguration}.

Definition digest_configuration (config : AgentLoopConfig) (context_revision : string)
    (model_recovery : EffectRecovery) (tools : list DigestTool) (code_mode : option DigestCodeMode)
    : Result AgentLoopBuildError string :=
  encoded ← map_err ConfigurationEncoding (to_text {|
    dg_system_prompt := cfg_system_prompt config;
    dg_max_model_turns := cfg_max_model_turns config;
    dg_max_tool_calls_per_turn := cfg_max_tool_calls_per_turn config;
    dg_context_revision := context_revision; dg_model_recovery := model_recovery;
    dg_tools := tools; dg_code_mode := code_mode |});
  Ok (hex_digest (sha256 encoded)).

Abbreviation Adapter := (LoopAdapter Model ToolHandle Evaluator).

(** The vectors the loop over the tool bindings fills. *)
Record BoundTools := {
  bt_names : gset string;
  bt_loop : list LoopTool;
  bt_effects : list (EffectBinding Adapter);
  bt_digests : list DigestTool;
}.

Fixpoint bind_tools (tools : list AgentToolBinding) (b : BoundTools)
    : Result AgentLoopBuildError BoundTools :=
  match tools with
  | [] => Ok b
  | binding :: rest =>
      let spec := tool_spec (tb_tool binding) in
      let name := spec_name spec in
      if is_empty name then Err EmptyToolName
      else if is_empty (tb_revision binding) then Err (EmptyToolRevision name)
      else if decide (name ∈ bt_names b) then Err (DuplicateToolName name)
      else
        let effect_binding := tool_effect_binding name in
        bind_tools rest {|
          bt_names := {[name]} ∪ bt_names b;
          bt_loop := bt_loop b ++ [{| lt_spec := spec; lt_effect_binding := effect_binding;
                                      lt_recovery := tb_recovery binding |}];
          bt_effects := bt_effects b ++ [{| eb_name := effect_binding; eb_revision := tb_revision binding;
                                            eb_adapter := ToolAdapter (tb_tool binding) |}];
          bt_digests := bt_digests b ++ [{| dt_revision := tb_revision binding; dt_spec := spec;
                                            dt_recovery := tb_recovery binding |}] |}
  end.

Record PreparedCodeMode := {
  pk_spec : ToolSpec; pk_nested_name : string; pk_nested_binding : string;
  pk_nested_recovery : EffectRecovery; pk_digest : DigestCodeMode;
  pk_effects : list (EffectBinding Adapter) }.

Definition prepare_code_mode (binding : CodeModeBinding) (direct_names : gset string)
    : Result AgentLoopBuildError PreparedCodeMode :=
  let nested := kb_nested binding in
  let nested_spec := tool_spec (tb_tool nested) in
  let nested_name := spec_name nested_spec in
  if is_empty (kb_revision binding) then Err EmptyCodeModeRevision
  else if negb (String.eqb nested_name "tool_execute") then Err (InvalidCodeModeExecutor nested_name)
  else if is_empty (tb_revision nested) then Err (EmptyToolRevision nested_name)
  else if negb (bool_decide (tb_recovery nested = NeverReplay)) then Err ReplayableCodeModeExecutor
  else if decide (CODE_MODE_TOOL ∈ direct_names) then Err (DuplicateToolName CODE_MODE_TOOL)
  else if decide (nested_name ∈ direct_names) then Err (DuplicateToolName nested_name)
  else
    let nested_binding := tool_effect_binding nested_name in
    Ok {|
      pk_spec := code_mode_spec; pk_nested_name := nested_name; pk_nested_binding := nested_binding;
      pk_nested_recovery := tb_recovery nested;
      pk_digest := {| dc_revision := kb_revision binding; dc_spec := code_mode_spec;
                      dc_nested_revision := tb_revision nested; dc_nested_spec := nested_spec;
                      dc_nested_recovery := tb_recovery nested |};
      pk_effects := [
        {| eb_name := CODE_STEP_EFFECT_BINDING; eb_revision := kb_revision binding;
           eb_adapter := EvaluatorAdapter (kb_evaluator binding) |};
        {| eb_name := nested_binding; eb_revision := tb_revision nested;
           eb_adapter := ToolAdapter (tb_tool nested) |}] |}.

Definition loop_code_mode (p : PreparedCodeMode) : LoopCodeMode :=
  {| lc_spec := pk_spec p; lc_nested_name := pk_nested_name p;
     lc_nested_binding := pk_nested_binding p; lc_nested_recovery := pk_nested_recovery p |}.

(** The loop and the runtime that runs it; the observer is not part of either. *)
Definition build_runtime (config : AgentLoopConfig) (context : ContextBinding) (model : ModelBinding)
    (tools : list AgentToolBinding) (code_mode : option CodeModeBinding)
    : Result AgentLoopBuildError (AgentLoop * Runtime Adapter) :=
  if is_empty (xb_revision context) then Err EmptyContextRevision
  else if is_empty (mb_revision model) then Err EmptyModelRevision
  else
    bound ← bind_tools tools {| bt_names := ∅; bt_loop := []; bt_effects := []; bt_digests := [] |};
    code_mode ← transpose (λ binding, prepare_code_mode binding (bt_names bound)) code_mode;
    config_digest ← digest_configuration config (xb_revision context) (mb_recovery model)
                      (bt_digests bound) (pk_digest <$> code_mode);
    let agent_loop := {|
      al_config := config; al_context := xb_strategy context; al_model_recovery := mb_recovery model;
      al_tools := bt_loop bound; al_code_mode := loop_code_mode <$> code_mode |} in
    let effects :=
      {| eb_name := MODEL_EFFECT_BINDING; eb_revision := mb_revision model;
         eb_adapter := ReplyAdapter (mb_model model) |}
      :: {| eb_name := COMPACTION_EFFECT_BINDING; eb_revision := mb_revision model;
            eb_adapter := SummaryAdapter (mb_model model) |}
      :: bt_effects bound ++ from_option pk_effects [] code_mode in
    runtime ← map_err RuntimeRefused
      (runtime_new {| lb_name := LOOP_BINDING; lb_revision := LOOP_REVISION;
                      lb_plugin := loop_plugin agent_loop |}
         CHECKPOINT_SCHEMA_VERSION config_digest effects);
    Ok (agent_loop, runtime).
End configuration.

(** ** Recorded usage ([usage.rs]) *)
Section usage.
Context `{JV : JsonValue} `{LS : !LoopSerde}.

Definition is_model_effect (effect : EffectSnapshot) : bool :=
  String.eqb (es_binding effect) MODEL_EFFECT_BINDING
  || String.eqb (es_binding effect) COMPACTION_EFFECT_BINDING.

Definition add_usage (total usage : TokenUsage) : option TokenUsage :=
  input ← checked_add_u64 (usage_input total) (usage_input usage);
  output ← checked_add_u64 (usage_output total) (usage_output usage);
  cache_read ← checked_add_u64 (usage_cache_read total) (usage_cache_read usage);
  cache_write ← checked_add_u64 (usage_cache_write total) (usage_cache_write usage);
  Some {| usage_input := input; usage_output := output; usage_cache_read := cache_read;
          usage_cache_write := cache_write |}.

(** The loop over the model effects. *)
Fixpoint total_usage (effects : list EffectSnapshot) (total : TokenUsage) (observed : bool)
    : option TokenUsage :=
  match effects with
  | [] => if observed then Some total else None
  | effect :: rest =>
      match es_outcome effect with
      | Some (Success value) =>
          match from_value (A:=ModelEffectOutput) value with
          | Err _ => None
          | Ok (ContextWindowExceeded _) => total_usage rest total observed
          | Ok (ModelCompleted response) =>
              usage ← resp_usage response;
              total ← add_usage total usage;
              total_usage rest total true
          end
      | _ => None
      end
  end.

Definition session_effects (snapshot : SessionSnapshot) : list EffectSnapshot :=
  ss_operations snapshot ≫= λ operation, os_effect_batches operation ≫= bs_effects.

Definition recorded_token_usage (snapshot : SessionSnapshot) : option TokenUsage :=
  total_usage (List.filter is_model_effect (session_effects snapshot))
    {| usage_input := 0; usage_output := 0; usage_cache_read := 0; usage_cache_write := 0 |} false.
End usage.
