(* ===== verification/LoopRefinement.v ===== *)
(** * The loop as a transition system

    The abstract machine of one operation: which phase follows which, which
    messages a transition appends to the history, and which effects a phase
    awaits. [AgentDecide] refines it; the theorems about whole operations are
    proved on it by rule induction. The last part follows the transcript. *)
From S2P Require Import Prelude Json State Runtime Text Messages PendingTools TurnContext Compaction.
From S2P Require Import LoopFormat AgentLoop AgentDecide PlanningFacts.
Section spec.
Context `{JV : JsonValue} `{LS : !LoopSerde} `{HS : Hashing}.
Implicit Types (l : AgentLoop) (phase : LoopPhase) (ms : list Message).

(** ** What a message answers *)
Definition answers (call : ToolCall) (m : Message) : Prop :=
  ∃ r, m = Tool r ∧ result_call_id r = call_id call ∧ result_name r = call_name call.

(** The calls of the history that the phase still has to answer. *)
Definition phase_calls phase : list ToolCall :=
  match phase with
  | NeedTool _ p | AwaitingTool _ p | AwaitingCodeStep _ p _ _ | AwaitingCodeCalls _ p _ _ _ =>
      pending_iter p
  | _ => []
  end.

Definition open_map (calls : list ToolCall) : gmap string string :=
  list_to_map ((λ c, (call_id c, call_name c)) <$> calls).

(** The phase after the current call of [p] got its result. *)
Definition after_result (turns : Z) (p : PendingToolCalls) : LoopPhase :=
  match pending_advance p with Some p' => NeedTool turns p' | None => NeedModel turns end.

(** ** Awaited effects *)
Definition one_effect {A} `{!ValueSerde A} (binding : string) (a : A) (recovery : EffectRecovery)
    (effects : list EffectRequest) : Prop :=
  ∃ v, to_value a = Ok v ∧
    effects = [{| er_binding := binding; er_request := v; er_recovery := recovery |}].

Definition awaits l phase (effects : list EffectRequest) : Prop :=
  match phase with
  | AwaitingModel _ => ∃ request : ModelRequest,
      one_effect MODEL_EFFECT_BINDING request (al_model_recovery l) effects
  | AwaitingCompaction _ plan _ _ | AwaitingExplicitCompaction plan _ _ =>
      one_effect COMPACTION_EFFECT_BINDING (plan_summary_request plan) (al_model_recovery l) effects
  | AwaitingTool _ p => ∃ tool, find_tool l (call_name (pt_current p)) = Some tool ∧
      one_effect (lt_effect_binding tool) (pt_current p) (lt_recovery tool) effects
  | AwaitingCodeStep _ _ _ request => is_Some (al_code_mode l) ∧
      one_effect CODE_STEP_EFFECT_BINDING request SafeToReplay effects
  | AwaitingCodeCalls _ _ run _ calls => ∃ code, al_code_mode l = Some code ∧
      collect (nested_effect code run) (ordered calls) = Ok effects ∧ ordered calls ≠ []
  | _ => effects = []
  end.

(** ** Transitions *)
Inductive transition l : option LoopPhase → list Message → LoopPhase → Prop :=
| start_prompt content : transition l None [User content] (NeedModel 0)
| start_explicit plan m :
    (∃ input, cs_prepare_explicit_compaction (al_context l) input = Ok (ExplicitCompact plan m)) →
    transition l None [] (AwaitingExplicitCompaction plan m 1)
| start_end : transition l None [] Terminal
| ask_model t :
    turn_limit_reached l t = None → t + 1 ≤ u32_max →
    transition l (Some (NeedModel t)) [] (AwaitingModel (t + 1))
| compact_first t plan m :
    turn_limit_reached l t = None →
    (∃ input, cs_prepare (al_context l) input = Ok (PrepCompact plan m)) →
    transition l (Some (NeedModel t)) [] (AwaitingCompaction t plan m 1)
| need_model_end t : transition l (Some (NeedModel t)) [] Terminal
| reply t content stop usage meta :
    content_calls content = [] →
    transition l (Some (AwaitingModel t)) [Assistant content stop usage meta] Terminal
| truncated t content stop usage meta results :
    "" ∉ call_id <$> content_calls content → NoDup (call_id <$> content_calls content) →
    Forall2 answers (content_calls content) results →
    Z.of_nat (length (content_calls content)) ≤ cfg_max_tool_calls_per_turn (al_config l) →
    transition l (Some (AwaitingModel t)) (Assistant content stop usage meta :: results) (NeedModel t)
| call_tools t content stop usage meta p :
    content_calls content = pending_iter p →
    Z.of_nat (length (pending_iter p)) ≤ cfg_max_tool_calls_per_turn (al_config l) →
    pending_validate p = Ok tt →
    transition l (Some (AwaitingModel t)) [Assistant content stop usage meta] (NeedTool t p)
| overflow t plan m :
    turn_limit_reached l t = None →
    (∃ input, cs_prepare (al_context l) input = Ok (PrepCompact plan m)) →
    transition l (Some (AwaitingModel t)) [] (AwaitingCompaction t plan m 1)
| model_end t : transition l (Some (AwaitingModel t)) [] Terminal
| compacted t plan m a : transition l (Some (AwaitingCompaction t plan m a)) [] (NeedModel t)
| compact_again t plan m a :
    a < m → a + 1 ≤ u32_max →
    transition l (Some (AwaitingCompaction t plan m a)) [] (AwaitingCompaction t plan m (a + 1))
| compaction_end t plan m a : transition l (Some (AwaitingCompaction t plan m a)) [] Terminal
| explicit_again plan m a :
    a < m → a + 1 ≤ u32_max →
    transition l (Some (AwaitingExplicitCompaction plan m a)) [] (AwaitingExplicitCompaction plan m (a + 1))
| explicit_end plan m a : transition l (Some (AwaitingExplicitCompaction plan m a)) [] Terminal
| ask_tool t p : transition l (Some (NeedTool t p)) [] (AwaitingTool t p)
| ask_code t p run source :
    validate_step run {| csr_run_id := run_id run; csr_step := Start source |} = Ok tt →
    transition l (Some (NeedTool t p)) []
      (AwaitingCodeStep t p run {| csr_run_id := run_id run; csr_step := Start source |})
| refuse_tool t p m :
    answers (pt_current p) m → transition l (Some (NeedTool t p)) [m] (after_result t p)
| tool_result phase t p m :
    (phase = AwaitingTool t p ∨ (∃ run request, phase = AwaitingCodeStep t p run request) ∨
     ∃ run snapshot calls, phase = AwaitingCodeCalls t p run snapshot calls) →
    answers (pt_current p) m → transition l (Some phase) [m] (after_result t p)
| tools_end phase results :
    phase_calls phase ≠ [] → Forall2 answers (phase_calls phase) results →
    transition l (Some phase) results Terminal
| tools_closed phase results text meta :
    phase_calls phase ≠ [] → Forall2 answers (phase_calls phase) results →
    transition l (Some phase) (results ++ [Assistant [AssistantText text None] Stop None meta]) Terminal
| suspend t p run run' request snapshot calls :
    add_wave run (code_batch_len calls) = Ok run' → code_batch_validate calls = Ok tt →
    (∃ v called, from_value (A:=CodeStepOutput) v = Ok (Suspended snapshot called) ∧
       cb_order calls = cp_call_id <$> called) →
    is_empty snapshot = false → len snapshot ≤ MAX_CODE_SNAPSHOT_BYTES →
    transition l (Some (AwaitingCodeStep t p run request)) [] (AwaitingCodeCalls t p run' snapshot calls)
| resume t p run snapshot calls results :
    (Forall (λ id, 0 ≤ id ≤ u32_max) (cb_order calls) → 0 ≤ wave run →
     validate_step run {| csr_run_id := run_id run; csr_step := Resume snapshot results |} = Ok tt) →
    transition l (Some (AwaitingCodeCalls t p run snapshot calls)) []
      (AwaitingCodeStep t p run {| csr_run_id := run_id run; csr_step := Resume snapshot results |}).

(** ** Decisions that realize a transition *)
Definition decision_events (d : LoopDecision) : list NewEvent :=
  match d with
  | InvokeEffects _ _ => []
  | AppendEventsAndContinue _ e | WaitForInput _ e | Complete _ e | FailOperation _ e _ => e
  end.

(** Events the loop appends besides messages. *)
Definition other_event (e : NewEvent) : Prop :=
  kind e ∈ [RECEIPTED_EVENT_KIND; TURN_TIMING_EVENT_KIND; TURN_CONTEXT_EVENT_KIND;
            CONTEXT_CHECKPOINT_EVENT_KIND; COMPACTION_RESULT_EVENT_KIND].

Definition appends (events : list NewEvent) ms : Prop :=
  ∃ evs others, message_events ms = Ok evs ∧ events = evs ++ others ∧ Forall other_event others.

(** The decision stores the phase, appends the messages and requests the
    effects the phase awaits; it ends the operation exactly at [Terminal]. *)
Definition realizes l (d : LoopDecision) ms phase : Prop :=
  checkpoint phase = Ok (decision_checkpoint d) ∧ appends (decision_events d) ms ∧
  match d with
  | InvokeEffects _ effects => awaits l phase effects ∧ effects ≠ []
  | AppendEventsAndContinue _ events =>
      events ≠ [] ∧ ((∃ t, phase = NeedModel t) ∨ ∃ t p, phase = NeedTool t p)
  | _ => phase = Terminal
  end.
End spec.

(** * The decisions refine the transition system *)
(** Invert one step of a successful computation. *)
Ltac inv_step H :=
  match type of H with
  | (_ ≫= _) = Ok _ => apply result_bind_ok in H as (? & ? & H)
  | Ok _ = Ok _ => injection H as H
  | Err _ = Ok _ => discriminate H
  end.
Ltac inv_ok H := repeat inv_step H.

Section refinement.
Context `{JV : JsonValue} `{LS : !LoopSerde} `{HS : Hashing}.
Implicit Types (l : AgentLoop) (phase : LoopPhase) (ms : list Message).

(** ** Lists of messages *)
Lemma message_events_kinds ms evs :
  message_events ms = Ok evs → length evs = length ms ∧ Forall (λ e, kind e = MESSAGE_EVENT_KIND) evs.
Proof.
  revert evs. induction ms as [|m ms IH]; intros evs E; cbn in E; inv_ok E; subst.
  - by split.
  - destruct (IH _ H0) as [Hl HF]. unfold message_event in H. inv_ok H. subst. cbn. split; [lia|].
    by constructor.
Qed.

Lemma appends_messages ms evs : message_events ms = Ok evs → appends evs ms.
Proof. intros E. exists evs, []. rewrite app_nil_r. by split_and!. Qed.

Lemma appends_others others : Forall other_event others → appends others [].
Proof. intros HF. exists [], others. by split_and!. Qed.

Lemma message_event_singleton m e : message_event m = Ok e → message_events [m] = Ok [e].
Proof. intros E. unfold message_events. cbn. by rewrite E. Qed.

Lemma encode_ok {A} `{!ValueSerde A} s (a : A) v : encode s a = Ok v ↔ to_value a = Ok v.
Proof. apply map_err_ok. Qed.

Lemma unavailable_answers call s : answers call (Tool (unavailable_result call s)).
Proof. by eexists. Qed.

Lemma unavailable_results_answers p s1 s2 :
  Forall2 answers (pending_iter p) (unavailable_results p s1 s2).
Proof.
  constructor; [apply unavailable_answers|]. apply Forall2_fmap_r, Forall_Forall2_diag.
  apply Forall_forall. intros. apply unavailable_answers.
Qed.

Lemma remaining_answers calls s :
  Forall2 answers calls ((λ call, Tool (unavailable_result call s)) <$> calls).
Proof. apply Forall2_fmap_r, Forall_Forall2_diag, Forall_forall. intros. apply unavailable_answers. Qed.

(** ** Decisions without effects *)
Lemma fail_realizes l reason d : fail_decision [] reason = Ok d → realizes l d [] Terminal.
Proof.
  unfold fail_decision, terminal. intros E. inv_ok E. subst. split_and!; [done| |done].
  by apply (appends_messages []).
Qed.

Lemma capacity_realizes l e n m d : context_capacity_failure e n m = Ok d → realizes l d [] Terminal.
Proof. apply fail_realizes. Qed.

Lemma append_tool_result_realizes l t p r d :
  append_tool_result t p r = Ok d → realizes l d [Tool r] (after_result t p).
Proof.
  unfold append_tool_result, after_result. intros E. inv_ok E. subst.
  split_and!; [done|by apply appends_messages, message_event_singleton|done|].
  cbn. destruct (pending_advance p); eauto.
Qed.

Lemma fail_tool_realizes l p reason d :
  fail_tool p reason = Ok d →
  ∃ results, Forall2 answers (pending_iter p) results ∧ realizes l d results Terminal.
Proof.
  unfold fail_tool, terminal. intros E. inv_ok E. subst.
  eexists. split; [apply unavailable_results_answers|].
  split_and!; [done|by apply appends_messages|done].
Qed.

Lemma close_turn_realizes l p r closing events d :
  answers (pt_current p) (Tool r) → close_turn p r closing events = Ok d →
  ∃ results text meta, Forall2 answers (pending_iter p) results ∧
    realizes l d (results ++ [Assistant [AssistantText text None] Stop None meta]) Terminal.
Proof.
  intros Ha. unfold close_turn, terminal. case_match; [done|]. intros E. inv_ok E. subst.
  exists (Tool r :: ((λ call, Tool (unavailable_result call (closing_not_run closing))) <$> pt_remaining p)).
  do 2 eexists. split; [constructor; [done|apply remaining_answers]|].
  split_and!; [done|by apply appends_messages|done].
Qed.

Lemma model_result_answers call v b r : model_result call v b = Ok r → answers call (Tool r).
Proof. unfold model_result. case_match; intros E; inv_ok E. subst. by eexists. Qed.

Lemma stop_code_run_realizes l p wave closings events d :
  stop_code_run p wave closings events = Ok d →
  ∃ results text meta, Forall2 answers (pending_iter p) results ∧
    realizes l d (results ++ [Assistant [AssistantText text None] Stop None meta]) Terminal.
Proof.
  unfold stop_code_run. intros E. inv_step E. inv_step E.
  eapply close_turn_realizes; [|exact E]. by eapply model_result_answers.
Qed.

(** ** Decisions with effects *)
Definition compaction_phase (c : CompactionContinuation) (plan : CompactionPlan) (m a : Z) : LoopPhase :=
  match c with
  | ContinueModel t => AwaitingCompaction t plan m a
  | ContinueExplicit => AwaitingExplicitCompaction plan m a
  end.

Lemma no_events : appends [] [].
Proof. by apply appends_others. Qed.

Lemma compaction_attempt_realizes l c plan m a d :
  invoke_compaction_attempt l c plan m a = Ok d → realizes l d [] (compaction_phase c plan m a).
Proof.
  unfold invoke_compaction_attempt. intros E. inv_ok E. apply encode_ok in H. subst.
  split_and!; [by destruct c|apply no_events| |done]. destruct c; by eexists.
Qed.

Lemma code_step_realizes l t p run request d :
  is_Some (al_code_mode l) → invoke_code_step t p run request = Ok d →
  realizes l d [] (AwaitingCodeStep t p run request).
Proof.
  intros Hc. unfold invoke_code_step. intros E. inv_ok E. apply encode_ok in H. subst.
  split_and!; [done|apply no_events| |done]. split; [done|]. by eexists.
Qed.

(** ** Compaction *)
Lemma prepare_context_ok l active events b prep :
  prepare_context l active events b = Ok prep →
  ∃ input, build_context_input l active events b = Ok input ∧ cs_prepare (al_context l) input = Ok prep.
Proof.
  unfold prepare_context. intros E. inv_step E. inv_step E. inv_step E. inv_ok E. subst.
  apply map_err_ok in H0. eauto.
Qed.

Lemma retry_realizes l c plan m a reason d :
  retry_or_fail_compaction l c plan m a reason = Ok d →
  realizes l d [] Terminal ∨ (a < m ∧ a + 1 ≤ u32_max ∧ realizes l d [] (compaction_phase c plan m (a + 1))).
Proof.
  unfold retry_or_fail_compaction. destruct (Z.leb_spec m a); [left; by eapply fail_realizes|].
  intros E. inv_step E. right. apply ok_or_ok in H0. unfold checked_add_u32 in H0.
  destruct (Z.leb_spec (a + 1) u32_max); [|done]. injection H0 as <-.
  split_and!; [done|done|]. by apply compaction_attempt_realizes.
Qed.

Lemma checkpoint_event_other n s e : context_checkpoint_event n s = Ok e → other_event e.
Proof.
  unfold context_checkpoint_event. case_match; [done|]. intros E. inv_ok E. subst.
  unfold other_event. cbn. set_solver.
Qed.
Lemma result_event_other n e : compaction_result_event n = Ok e → other_event e.
Proof.
  unfold compaction_result_event. intros E. inv_ok E. subst. unfold other_event. cbn. set_solver.
Qed.

Lemma activate_summary_realizes l c plan ctx s d :
  activate_summary l c plan ctx s = Ok d →
  realizes l d [] (match c with ContinueModel t => NeedModel t | ContinueExplicit => Terminal end).
Proof.
  unfold activate_summary, terminal. destruct c; intros E; inv_ok E; subst.
  - apply checkpoint_event_other in H0. split_and!; [done|by apply appends_others; constructor|done|eauto].
  - apply checkpoint_event_other in H2. apply result_event_other in H3.
    split_and!; [done|apply appends_others; cbn; by rewrite Forall_cons, Forall_singleton|done].
Qed.

Lemma settle_compaction_realizes l c plan m a input d :
  settle_compaction_for l c plan m a input = Ok d →
  realizes l d [] Terminal ∨
  (∃ t, c = ContinueModel t ∧ realizes l d [] (NeedModel t)) ∨
  (a < m ∧ a + 1 ≤ u32_max ∧ realizes l d [] (compaction_phase c plan m (a + 1))).
Proof.
  unfold settle_compaction_for. intros E. do 4 inv_step E.
  destruct (se_outcome _) as [v|message]; [|left; by eapply fail_realizes]. inv_step E.
  destruct x3 as [response|message]; [|left; by eapply fail_realizes].
  destruct (cs_validate_compaction _ _ _) as [s|error].
  - apply activate_summary_realizes in E. destruct c as [t|]; [right; left; eauto|by left].
  - apply retry_realizes in E as [?|?]; auto.
Qed.

(** ** Code Mode *)
Lemma gather_wave_keys l run effects calls : ∀ w w',
  gather_wave l run effects calls w = Ok (WaveDone w') →
  dom (ws_results w') = dom (ws_results w) ∪ list_to_set ((λ c, show (cp_call_id c)) <$> calls).
Proof.
  induction calls as [|call calls IH]; intros w w' E; cbn in E.
  { inv_ok E. subst. set_solver. }
  inv_step E. destruct (se_outcome _) as [v|message]; [|by inv_ok E]. do 2 inv_step E.
  case_match; [done|]. inv_step E. case_match; [done|]. rewrite (IH _ _ E). cbn.
  rewrite dom_insert_L. set_solver.
Qed.

Lemma resume_valid run snapshot calls (results : gmap string Value) :
  validate_call_wave run snapshot calls = Ok tt →
  dom results = list_to_set ((λ c, show (cp_call_id c)) <$> ordered calls) →
  Forall (λ id, 0 ≤ id ≤ u32_max) (cb_order calls) → 0 ≤ wave run →
  validate_step run {| csr_run_id := run_id run; csr_step := Resume snapshot results |} = Ok tt.
Proof.
  unfold validate_call_wave. intros E Hdom HF Hw. inv_step E. destruct x.
  destruct (code_batch_ordered calls H) as (Hne & Hlen & HN & Hids). inv_step E.
  destruct (code_batch_len calls <=? u32_max); [|done]. injection H0 as <-.
  case_match eqn:Eg; [done|]. clear E. split_bools. unfold code_batch_len in *. unfold validate_step. cbn.
  replace ((λ c, show (cp_call_id c)) <$> ordered calls) with (show <$> cb_order calls) in Hdom
    by (rewrite <- Hids, <- list_fmap_compose; done).
  rewrite String.eqb_refl. cbn.
  assert (0 < length (cb_order calls))%nat as Hpos by (destruct (cb_order calls); [done|cbn; lia]).
  assert (Z.of_nat (size results) ≤ MAX_CODE_CALLS_PER_WAVE) as Hsize.
  { rewrite <- size_dom, Hdom. etrans; [|exact Hlen]. rewrite <- (length_fmap show (cb_order calls)).
    apply inj_le. rewrite size_list_to_set; [done|..].
    apply NoDup_fmap_2_strong; [|done]. intros x y _ _. apply show_inj. }
  assert (tbl_forall (λ key _, canonical_u32 key) results = true) as Hkeys.
  { apply tbl_forall_spec. intros k v Hk. apply elem_of_dom_2 in Hk. rewrite Hdom in Hk.
    apply elem_of_list_to_set, list_elem_of_fmap in Hk as (id & -> & Hid).
    unfold canonical_u32. rewrite parse_show; [apply String.eqb_refl|].
    by apply (proj1 (Forall_forall _ _) HF). }
  assert (results ≠ ∅) as Hres.
  { intros ->. rewrite dom_empty_L in Hdom. destruct (cb_order calls) as [|id order]; [done|].
    cbn in Hdom. set_solver. }
  assert ((MAX_CODE_WAVES <? wave run) = false) as -> by (apply Z.ltb_ge; lia).
  assert ((MAX_CODE_CALLS_PER_RUN <? total_calls run) = false) as -> by (apply Z.ltb_ge; lia).
  assert ((0 <? wave run) = true) as -> by (apply Z.ltb_lt; lia).
  assert ((0 <? total_calls run) = true) as -> by (apply Z.ltb_lt; lia).
  assert (is_empty snapshot = false) as -> by done.
  assert ((len snapshot <=? MAX_CODE_SNAPSHOT_BYTES) = true) as -> by (apply Z.leb_le; lia).
  rewrite (bool_decide_false _ Hres), (proj2 (Z.leb_le _ _) Hsize), Hkeys. done.
Qed.

(** ** The phases *)

(** A decision and the transition it realizes. *)
Definition refined l (phase0 : option LoopPhase) (d : LoopDecision) : Prop :=
  ∃ ms phase, transition l phase0 ms phase ∧ realizes l d ms phase.

Lemma refined_by l (phase0 : option LoopPhase) d ms phase :
  transition l phase0 ms phase → realizes l d ms phase → refined l phase0 d.
Proof. by exists ms, phase. Qed.

Lemma explicit_refined l input d :
  request_explicit_compaction l input = Ok d → refined l None d.
Proof.
  unfold request_explicit_compaction. destruct (li_effect_batch input); [done|]. intros E.
  inv_step E. inv_step E. apply map_err_ok in H0. destruct x0 as [est|plan m|est limit].
  - unfold terminal in E. inv_ok E. apply result_event_other in H2. subst.
    eapply refined_by; [apply start_end|]. split_and!; [done| |done].
    apply appends_others. cbn. by rewrite Forall_singleton.
  - inv_step E. apply compaction_attempt_realizes in E.
    eapply refined_by; [apply start_explicit|exact E]. eauto.
  - eapply refined_by; [apply start_end|by eapply capacity_realizes].
Qed.

Lemma observation_event_other o e : observation_event o = Ok (Some e) → other_event e.
Proof.
  unfold observation_event, other_event. destruct o as [|t|a c|]; intros E.
  - done.
  - inv_ok E. subst. cbn. set_solver.
  - case_match; [done|]. inv_ok E. subst. cbn. set_solver.
  - cbn in E. inv_ok E. subst. cbn. set_solver.
Qed.

Lemma initial_refined l input d : decide_initial l input = Ok d → refined l None d.
Proof.
  unfold decide_initial. destruct (li_effect_batch input) eqn:Eb; [done|].
  assert (∀ reason, fail_decision [] reason = Ok d → refined l None d) as Hfail.
  { intros reason Hf. eapply refined_by; [apply start_end|by eapply fail_realizes]. }
  destruct (from_value _) as [wire|error]; [|by apply Hfail].
  destruct (decode_command wire) as [command|[]]; try by apply Hfail.
  destruct (ac_kind command) as [content obs|]; [|by apply explicit_refined].
  intros E. inv_ok E. subst. eapply refined_by; [apply (start_prompt _ content)|].
  split_and!; [done| |done|by left; exists 0].
  exists [x], (option_list x0). split_and!; [by apply message_event_singleton|done|].
  destruct x0 as [e|]; cbn; [|done]. rewrite Forall_singleton. by eapply observation_event_other.
Qed.

Lemma request_model_refined l t input d :
  request_model l t input = Ok d → refined l (Some (NeedModel t)) d.
Proof.
  unfold request_model. destruct (li_effect_batch input); [done|].
  destruct (turn_limit_reached l t) eqn:Et.
  { intros E. eapply refined_by; [apply need_model_end|by eapply fail_realizes]. }
  intros E. inv_step E. apply prepare_context_ok in H as (ci & _ & Hp).
  destruct x as [messages|plan m|est limit].
  - inv_ok E. apply ok_or_ok in H. unfold checked_add_u32 in H.
    destruct (Z.leb_spec (t + 1) u32_max); [|done]. injection H as <-. apply encode_ok in H1. subst.
    eapply refined_by; [by apply ask_model|]. split_and!; [done|apply no_events| |done].
    eexists. by eexists.
  - eapply refined_by; [eapply compact_first; eauto|by eapply compaction_attempt_realizes in E].
  - eapply refined_by; [apply need_model_end|by eapply capacity_realizes].
Qed.

Lemma classify_refined l t response d :
  classify_model_response l t response = Ok d → refined l (Some (AwaitingModel t)) d.
Proof.
  unfold classify_model_response. case_match eqn:Ec.
  { intros E. eapply refined_by; [apply model_end|by eapply fail_realizes]. }
  destruct (validate_tool_call_ids _) as [[]|error] eqn:Ev.
  2: { intros E. eapply refined_by; [apply model_end|by eapply fail_realizes]. }
  apply validate_tool_call_ids_ok in Ev as [Hempty HN]. case_bool_decide as Hnil.
  - intros E. unfold terminal in E. inv_ok E. subst. apply length_zero_iff_nil in Hnil.
    eapply refined_by; [by eapply reply|]. split_and!; [done| |done].
    by apply appends_messages, message_event_singleton.
  - case_bool_decide.
    + intros E. inv_ok E. subst. eapply refined_by; [eapply truncated; [done|done|apply remaining_answers|by split_bools]|].
      split_and!; [done|by apply appends_messages| |eauto].
      apply message_events_kinds in H1 as [Hl _]. by destruct x0.
    + intros E. inv_ok E. apply pending_new_ok in H0 as [Hp Hv]. subst.
      eapply refined_by; [eapply call_tools; [done| |done]|].
      * rewrite Hp. split_bools. done.
      * split_and!; [done|by apply appends_messages, message_event_singleton|done|eauto].
Qed.

Lemma settle_model_refined l t input d :
  settle_model l t input = Ok d → refined l (Some (AwaitingModel t)) d.
Proof.
  unfold settle_model. intros E. do 4 inv_step E. destruct (se_outcome _) as [v|message].
  2: { eapply refined_by; [apply model_end|by eapply fail_realizes]. }
  inv_step E. destruct x3 as [response|message]; [by eapply classify_refined|].
  unfold compact_after_provider_overflow in E. destruct (turn_limit_reached l t) eqn:Et.
  { eapply refined_by; [apply model_end|by eapply fail_realizes]. }
  inv_step E. apply prepare_context_ok in H4 as (ci & _ & Hp). destruct x3 as [messages|plan m|est limit].
  - eapply refined_by; [apply model_end|by eapply fail_realizes].
  - eapply refined_by; [eapply overflow; eauto|by eapply compaction_attempt_realizes in E].
  - eapply refined_by; [apply model_end|by eapply capacity_realizes].
Qed.

Lemma settle_compaction_refined l c plan m a input d :
  settle_compaction_for l c plan m a input = Ok d → refined l (Some (compaction_phase c plan m a)) d.
Proof.
  intros [Hr|[(t & -> & Hr)|(Ha & Hu & Hr)]]%settle_compaction_realizes.
  - eapply refined_by; [|exact Hr]. destruct c; [apply compaction_end|apply explicit_end].
  - eapply refined_by; [|exact Hr]. apply compacted.
  - eapply refined_by; [|exact Hr]. destruct c; [by apply compact_again|by apply explicit_again].
Qed.

Lemma fail_tool_refined l phase p reason d :
  phase_calls phase = pending_iter p → fail_tool p reason = Ok d → refined l (Some phase) d.
Proof.
  intros Hp (results & Ha & Hr)%(fail_tool_realizes l). eapply refined_by; [|exact Hr].
  apply tools_end; rewrite Hp; done.
Qed.

Lemma request_tool_refined l t p input d :
  request_tool l t p input = Ok d → refined l (Some (NeedTool t p)) d.
Proof.
  unfold request_tool. destruct (li_effect_batch input); [done|].
  assert (∀ s, append_tool_result t p (unavailable_result (pt_current p) s) = Ok d →
    refined l (Some (NeedTool t p)) d) as Hrefuse.
  { intros s Hr. eapply refined_by; [|by eapply append_tool_result_realizes].
    apply refuse_tool, unavailable_answers. }
  unfold is_code_call. destruct (al_code_mode l) as [code|] eqn:Ecode.
  - case_match.
    + unfold request_code_mode. destruct (from_value _) as [ci|]; [|by apply Hrefuse].
      case_match eqn:Eg; [|by apply Hrefuse]. intros E. split_bools.
      eapply refined_by; [|eapply code_step_realizes; [by rewrite Ecode|exact E]].
      apply ask_code. unfold validate_step. cbn. rewrite String.eqb_refl. cbn.
      assert (is_blank (code_source ci) = false) as -> by done.
      by rewrite (proj2 (Z.leb_le _ _) H1).
    + destruct (find_tool l _) as [tool|] eqn:Ef; [|by apply Hrefuse]. intros E. inv_ok E.
      apply encode_ok in H0. subst. eapply refined_by; [apply ask_tool|].
      split_and!; [done|apply no_events| |done]. exists tool. split; [done|]. by eexists.
  - destruct (find_tool l _) as [tool|] eqn:Ef; [|by apply Hrefuse]. intros E. inv_ok E.
    apply encode_ok in H. subst. eapply refined_by; [apply ask_tool|].
    split_and!; [done|apply no_events| |done]. exists tool. split; [done|]. by eexists.
Qed.

Lemma settle_tool_refined l t p events batch d :
  settle_tool l t p events batch = Ok d → refined l (Some (AwaitingTool t p)) d.
Proof.
  unfold settle_tool. intros E. do 4 inv_step E. destruct (se_outcome _) as [v|message].
  2: by eapply fail_tool_refined. inv_step E. case_match eqn:Eg; [done|]. split_bools.
  destruct (result_closing _) as [closing|] eqn:Ecl.
  - apply (close_turn_realizes l) in E as (results & text & meta & Ha & Hr); [|by eexists].
    eapply refined_by; [|exact Hr]. by apply tools_closed.
  - eapply refined_by; [|by eapply append_tool_result_realizes]. apply tool_result; [by left|]. by eexists.
Qed.

Lemma settle_code_step_refined l t p run request batch d :
  settle_code_step l t p run request batch = Ok d →
  refined l (Some (AwaitingCodeStep t p run request)) d.
Proof.
  unfold settle_code_step. intros E. do 3 inv_step E. destruct (se_outcome _) as [v|message].
  2: by eapply fail_tool_refined. inv_step E.
  assert (∀ r, answers (pt_current p) (Tool r) → append_tool_result t p r = Ok d →
    refined l (Some (AwaitingCodeStep t p run request)) d) as Hresult.
  { intros r Ha Hr. eapply refined_by; [|by eapply append_tool_result_realizes].
    apply tool_result; [right; left; eauto|done]. }
  destruct x2 as [result is_error|snapshot calls].
  - inv_step E. case_match; [eapply Hresult, E; apply unavailable_answers|]. inv_step E.
    eapply Hresult, E. by eapply model_result_answers.
  - case_match eqn:Eg; [by eapply fail_tool_refined|]. split_bools.
    destruct (code_batch_new calls) as [batch'|error] eqn:Eb; [|by eapply fail_tool_refined].
    apply code_batch_new_ok in Eb as [Hv Horder].
    destruct (add_wave run _) as [run'|error] eqn:Ew; [|by eapply fail_tool_refined].
    inv_ok E. apply ok_or_ok in H5. subst. apply map_err_ok in H2.
    eapply refined_by; [eapply suspend; eauto|].
    destruct (code_batch_ordered _ Hv) as (Hne & _ & _ & Hids).
    assert (ordered batch' ≠ []) as Hord by (intros Ho; rewrite Ho in Hids; by destruct (cb_order batch')).
    split_and!; [done|apply no_events|by exists x2|]. intros ->.
    destruct (ordered batch') as [|c cs]; [done|]. cbn in H6. inv_ok H6. done.
Qed.

Lemma settle_code_calls_refined l t p run snapshot calls input d :
  is_Some (al_code_mode l) → validate_call_wave run snapshot calls = Ok tt →
  settle_code_calls l t p run snapshot calls input = Ok d →
  refined l (Some (AwaitingCodeCalls t p run snapshot calls)) d.
Proof.
  intros Hcode Hv. unfold settle_code_calls. intros E. do 3 inv_step E. destruct x1 as [w|message|].
  - case_match eqn:Ecl.
    + apply (stop_code_run_realizes l) in E as (results & text & meta & Ha & Hr).
      eapply refined_by; [|exact Hr]. by apply tools_closed.
    + eapply refined_by; [|by eapply code_step_realizes]. apply resume. intros HF Hw.
      apply resume_valid with calls; [done| |done|done].
      rewrite (gather_wave_keys _ _ _ _ _ _ H1). cbn. set_solver.
  - by eapply fail_tool_refined.
  - eapply refined_by; [|by eapply append_tool_result_realizes].
    apply tool_result; [right; right; eauto|apply unavailable_answers].
Qed.

(** The phase an input resumes. *)
Definition resumes (saved : option Checkpoint) (phase0 : option LoopPhase) : Prop :=
  match saved with
  | None => phase0 = None
  | Some c => ∃ phase, decode_checkpoint c = Ok phase ∧ phase0 = Some phase
  end.

Lemma code_phase_configured l phase op :
  validate_code_phase l phase op = Ok tt →
  match phase with
  | AwaitingCodeStep _ _ _ _ | AwaitingCodeCalls _ _ _ _ _ => is_Some (al_code_mode l)
  | _ => True
  end.
Proof.
  unfold validate_code_phase, code_executor. destruct phase; try done; intros E;
    apply result_bind_ok in E as (code & Hc%ok_or_ok & _); by rewrite Hc.
Qed.

Lemma decode_checkpoint_ok c phase :
  decode_checkpoint c = Ok phase ↔ from_value (state c) = Ok phase ∧ validate_phase phase = Ok tt.
Proof.
  unfold decode_checkpoint. split.
  - intros E. inv_step E. inv_step E. apply map_err_ok in H. destruct x0. inv_ok E. by subst.
  - intros [-> Hv]. cbn. by rewrite Hv.
Qed.

(** Every decision of the loop is a transition of the abstract machine from the
    phase its checkpoint resumes. *)
Lemma decide_refines l input d :
  decide_loop l input = Ok d →
  ∃ phase0 : option LoopPhase, resumes (li_checkpoint input) phase0 ∧ refined l phase0 d.
Proof.
  unfold decide_loop. destruct (li_checkpoint input) as [saved|]; cbn.
  2: { intros E. exists None. split; [done|by eapply initial_refined]. }
  intros E. inv_step E. rename x into phase. inv_step E. destruct x.
  exists (Some phase). split; [eauto|]. apply decode_checkpoint_ok in H as [_ Hv].
  apply code_phase_configured in H0. destruct phase.
  - by eapply request_model_refined.
  - by eapply settle_model_refined.
  - by apply (settle_compaction_refined _ (ContinueModel _)) in E.
  - by apply (settle_compaction_refined _ ContinueExplicit) in E.
  - by eapply request_tool_refined.
  - by eapply settle_tool_refined.
  - by eapply settle_code_step_refined.
  - eapply settle_code_calls_refined; [done| |done]. cbn in Hv. inv_step Hv. done.
  - done.
Qed.
End refinement.

(** * The transcript of an operation

    What the transitions above do to the history: the calls a phase
    still has to answer are exactly the open calls of the messages appended so
    far, and interruptions answer all of them. *)
Section transcript.
Context `{JV : JsonValue} `{LS : !LoopSerde} `{HS : Hashing}.
Implicit Types (l : AgentLoop) (phase : LoopPhase) (ms : list Message) (calls : list ToolCall).

Definition phase_pending phase : option PendingToolCalls :=
  match phase with
  | NeedTool _ p | AwaitingTool _ p | AwaitingCodeStep _ p _ _ | AwaitingCodeCalls _ p _ _ _ => Some p
  | _ => None
  end.

(** The pending calls have distinct, non-empty identities. *)
Definition tools_valid phase : Prop := ∀ p, phase_pending phase = Some p → pending_validate p = Ok tt.

Lemma phase_calls_pending phase : phase_calls phase = from_option pending_iter [] (phase_pending phase).
Proof. by destruct phase. Qed.

Definition waiting (phase : option LoopPhase) : list ToolCall := from_option phase_calls [] phase.

(** ** Open calls *)
Lemma open_map_lookup_None calls id : (id ∉ call_id <$> calls) → open_map calls !! id = None.
Proof.
  intros Hid. apply not_elem_of_list_to_map_1. by rewrite <- list_fmap_compose.
Qed.

Lemma open_map_cons c calls : open_map (c :: calls) = <[call_id c := call_name c]> (open_map calls).
Proof. done. Qed.

Lemma add_calls_ok calls : ∀ pending : gmap string string,
  NoDup (call_id <$> calls) → (∀ id, id ∈ call_id <$> calls → pending !! id = None) →
  add_calls calls pending = Ok (open_map calls ∪ pending).
Proof.
  induction calls as [|c calls IH]; intros pending HN Hd; cbn.
  { by rewrite (left_id_L ∅ (∪)). }
  cbn in HN. apply NoDup_cons in HN as [Hc HN].
  assert (pending !! call_id c = None) as Hp by (apply Hd; left).
  case_decide as Hs; [destruct Hs; congruence|]. rewrite IH; [|done|].
  - f_equal. rewrite <- insert_union_l, <- insert_union_r; [done|]. by apply open_map_lookup_None.
  - intros id Hid. rewrite lookup_insert_ne by (by intros <-). apply Hd. by right.
Qed.

Lemma open_calls_assistant content stop usage meta :
  NoDup (call_id <$> content_calls content) →
  open_calls [Assistant content stop usage meta] ∅ = Some (open_map (content_calls content)).
Proof.
  intros HN. cbn. rewrite decide_True by done.
  rewrite add_calls_ok by (done || intros; apply lookup_empty). cbn. by rewrite (right_id_L ∅ (∪)).
Qed.

(** Results that answer the first calls leave the others open. *)
Lemma open_calls_answers calls results rest :
  Forall2 answers calls results → NoDup (call_id <$> calls ++ rest) →
  open_calls results (open_map (calls ++ rest)) = Some (open_map rest).
Proof.
  induction 1 as [|c m calls results (r & -> & Hid & Hname) _ IH]; intros HN; [done|].
  cbn in HN. apply NoDup_cons in HN as [Hc HN]. cbn [open_calls update_tool_group app].
  rewrite open_map_cons, Hid, lookup_insert_eq. cbn. rewrite Hname, String.eqb_refl. cbn.
  rewrite delete_insert_id by (by apply open_map_lookup_None). by apply IH.
Qed.

Lemma open_calls_all calls results :
  Forall2 answers calls results → NoDup (call_id <$> calls) →
  open_calls results (open_map calls) = Some ∅.
Proof. intros HF HN. rewrite <- (app_nil_r calls) in HN |- *. by apply open_calls_answers. Qed.

Lemma tools_valid_nodup phase : tools_valid phase → NoDup (call_id <$> phase_calls phase).
Proof.
  intros Hv. rewrite phase_calls_pending. destruct (phase_pending phase) as [p|] eqn:E; cbn; [|constructor].
  by apply Hv, pending_validate_ok in E as [_ ?].
Qed.

Lemma after_result_open t p m :
  pending_validate p = Ok tt → answers (pt_current p) m →
  open_calls [m] (open_map (pending_iter p)) = Some (open_map (phase_calls (after_result t p))) ∧
  tools_valid (after_result t p).
Proof.
  intros Hv Ha. pose proof (pending_advance_iter p) as Hi. unfold after_result.
  pose proof (proj2 (proj1 (pending_validate_ok p) Hv)) as HN.
  destruct (pending_advance p) as [p'|] eqn:Ep; cbn [phase_calls].
  - split; [|intros ? [= <-]; by eapply pending_advance_valid]. rewrite Hi in HN |- *.
    apply (open_calls_answers [_] [_]); [by repeat constructor|done].
  - split; [|done]. rewrite Hi in HN |- *. apply open_calls_all; [by repeat constructor|done].
Qed.

(** The step of the transcript invariant. *)
Lemma transition_open l (before : option LoopPhase) ms after :
  transition l before ms after → (∀ phase, before = Some phase → tools_valid phase) →
  open_calls ms (open_map (waiting before)) = Some (open_map (phase_calls after)) ∧ tools_valid after.
Proof.
  intros Hstep Hv. destruct Hstep; cbn [waiting from_option phase_calls] in *;
    try (specialize (Hv _ eq_refl)); try (split; [done|by intros ?]);
    try (split; [done|]; by intros ? [= <-]; apply Hv).
  - split; [|done]. rewrite open_calls_assistant; [by rewrite H|rewrite H; constructor].
  - split; [|done]. rewrite (open_calls_app [_] results _ : open_calls (_ :: results) _ = _).
    rewrite open_calls_assistant by done. cbn. by apply open_calls_all.
  - split; [|by intros ? [= <-]]. rewrite open_calls_assistant; [by rewrite H|].
    rewrite H. by apply pending_validate_ok in H1 as [_ ?].
  - by apply after_result_open; [apply Hv|].
  - destruct H as [->|[(run & request & ->)|(run & snapshot & calls & ->)]];
      by apply after_result_open; [apply Hv|].
  - split; [|done]. apply open_calls_all; [done|by apply tools_valid_nodup].
  - split; [|done]. rewrite open_calls_app, open_calls_all by (done || by apply tools_valid_nodup). done.
Qed.
End transcript.
