(* ===== verification/LoopRuns.v ===== *)
(** * The invariant of stored phases and the runs of one operation

    Every phase the loop stores is well formed, is read back as it was
    written, and stays within the configured limits. *)
From S2P Require Import Prelude Json State Runtime Text Messages PendingTools TurnContext Compaction.
From S2P Require Import LoopFormat AgentLoop AgentDecide PlanningFacts LoopRefinement.
Section invariant.
Context `{JV : JsonValue} `{LS : !LoopSerde} `{HS : Hashing}.
Implicit Types (l : AgentLoop) (phase : LoopPhase) (ms : list Message).

(** ** What the Rust types promise

    The limits and the attempts of a plan are [NonZeroU32], the identities of
    an evaluator's calls are [u32]. *)
Record typed_loop l : Prop := {
  typed_turns : ∀ limit, cfg_max_model_turns (al_config l) = Some limit → 1 ≤ limit;
  typed_calls : 1 ≤ cfg_max_tool_calls_per_turn (al_config l);
  typed_attempts : ∀ input plan m,
    cs_prepare (al_context l) input = Ok (PrepCompact plan m) → 1 ≤ m;
  typed_explicit_attempts : ∀ input plan m,
    cs_prepare_explicit_compaction (al_context l) input = Ok (ExplicitCompact plan m) → 1 ≤ m;
  typed_ids : ∀ v snapshot calls,
    from_value (A:=CodeStepOutput) v = Ok (Suspended snapshot calls) →
    Forall (λ c, 0 ≤ cp_call_id c ≤ u32_max) calls;
}.

(** ** Well-formed phases *)
Definition phase_turns phase : Z :=
  match phase with
  | NeedModel t | AwaitingModel t | AwaitingCompaction t _ _ _ | NeedTool t _ | AwaitingTool t _
  | AwaitingCodeStep t _ _ _ | AwaitingCodeCalls t _ _ _ _ => t
  | AwaitingExplicitCompaction _ _ _ | Terminal => 0
  end.

Definition phase_run phase : option CodeRun :=
  match phase with
  | AwaitingCodeStep _ _ run _ | AwaitingCodeCalls _ _ run _ _ => Some run
  | _ => None
  end.

Definition phase_wave phase : list Z :=
  match phase with AwaitingCodeCalls _ _ _ _ calls => cb_order calls | _ => [] end.

(** What holds of every stored phase, whichever loop stored it. *)
Record phase_ok phase : Prop := {
  ok_valid : validate_phase phase = Ok tt;
  ok_turns : 0 ≤ phase_turns phase;
  ok_attempts : ∀ a m, phase_attempts phase = Some (a, m) → 1 ≤ a ≤ m;
  ok_run : ∀ run, phase_run phase = Some run →
    0 ≤ wave run ≤ MAX_CODE_WAVES ∧ 0 ≤ total_calls run ≤ MAX_CODE_CALLS_PER_RUN;
  ok_ids : Forall (λ id, 0 ≤ id ≤ u32_max) (phase_wave phase);
}.

(** ... and within the limits of the loop. *)
Record phase_wf l phase : Prop := {
  wf_ok : phase_ok phase;
  wf_turn_limit : ∀ limit, cfg_max_model_turns (al_config l) = Some limit → phase_turns phase ≤ limit;
  wf_calls : Z.of_nat (length (phase_calls phase)) ≤ cfg_max_tool_calls_per_turn (al_config l);
}.

Lemma validate_phase_pending phase p :
  validate_phase phase = Ok tt → phase_pending phase = Some p → pending_validate p = Ok tt.
Proof.
  unfold validate_phase. case_match; [done|]. destruct phase; try done; intros Hv [= <-];
    try done; by apply result_bind_ok in Hv as ([] & ? & _).
Qed.

Lemma ok_tools_valid phase : phase_ok phase → tools_valid phase.
Proof. intros Hok p. apply validate_phase_pending, Hok. Qed.
Lemma wf_tools_valid l phase : phase_wf l phase → tools_valid phase.
Proof. intros Hwf. apply ok_tools_valid, Hwf. Qed.
Lemma wf_valid l phase : phase_wf l phase → validate_phase phase = Ok tt.
Proof. intros Hwf. apply Hwf. Qed.
Lemma wf_run l phase : phase_wf l phase → ∀ run, phase_run phase = Some run →
  0 ≤ wave run ≤ MAX_CODE_WAVES ∧ 0 ≤ total_calls run ≤ MAX_CODE_CALLS_PER_RUN.
Proof. intros Hwf. apply Hwf. Qed.

Lemma plain_ok phase :
  phase_pending phase = None → phase_attempts phase = None → 0 ≤ phase_turns phase → phase_ok phase.
Proof. intros Hp Ha H0. by destruct phase; try done; split. Qed.

Lemma tool_ok t p : 0 ≤ t → pending_validate p = Ok tt → phase_ok (NeedTool t p).
Proof. by split. Qed.

Lemma after_result_ok t p : 0 ≤ t → pending_validate p = Ok tt → phase_ok (after_result t p).
Proof.
  intros Ht Hv. unfold after_result. destruct (pending_advance p) as [p'|] eqn:Ep; [|by apply plain_ok].
  apply tool_ok; [done|by eapply pending_advance_valid].
Qed.

Lemma compaction_ok t plan m a : 0 ≤ t → 1 ≤ a ≤ m → phase_ok (AwaitingCompaction t plan m a).
Proof.
  intros H0 Ham. split; try done; cbn; [|by intros ? ? [= <- <-]].
  unfold validate_phase. cbn. by rewrite (proj2 (Z.ltb_ge _ _) (proj2 Ham)).
Qed.
Lemma explicit_ok plan m a : 1 ≤ a ≤ m → phase_ok (AwaitingExplicitCompaction plan m a).
Proof.
  intros Ham. split; try done; cbn; [|by intros ? ? [= <- <-]].
  unfold validate_phase. cbn. by rewrite (proj2 (Z.ltb_ge _ _) (proj2 Ham)).
Qed.

(** A phase of a Code Mode run. *)
Lemma code_ok run phase :
  0 ≤ phase_turns phase → phase_attempts phase = None → phase_run phase = Some run →
  0 ≤ wave run ≤ MAX_CODE_WAVES → 0 ≤ total_calls run ≤ MAX_CODE_CALLS_PER_RUN →
  Forall (λ id, 0 ≤ id ≤ u32_max) (phase_wave phase) → validate_phase phase = Ok tt → phase_ok phase.
Proof. intros Ht Ha Hrun Hw Hc Hids Hv. split; try done; [by rewrite Ha|]. rewrite Hrun. by intros ? [= <-]. Qed.

Lemma validate_code_step t p run request :
  pending_validate p = Ok tt → validate_step run request = Ok tt →
  validate_phase (AwaitingCodeStep t p run request) = Ok tt.
Proof. intros Hp Hs. unfold validate_phase. cbn. by rewrite Hp. Qed.

Lemma suspended_wave run n run' snapshot calls :
  add_wave run n = Ok run' → code_batch_len calls = n → 0 ≤ wave run → 0 ≤ total_calls run →
  code_batch_validate calls = Ok tt → is_empty snapshot = false → len snapshot ≤ MAX_CODE_SNAPSHOT_BYTES →
  validate_call_wave run' snapshot calls = Ok tt.
Proof.
  intros Hw Hn H0 H1 Hv Hs Hlen. apply add_wave_ok in Hw as (_ & Hwave & Htotal & Hmw & Hmt & Hn0 & Hnm).
  unfold validate_call_wave. rewrite Hv. cbn. rewrite Hn.
  rewrite (proj2 (Z.leb_le n u32_max)) by (etrans; [exact Hnm|done]). cbn.
  rewrite (proj2 (Z.eqb_neq (wave run') 0)), (proj2 (Z.ltb_ge _ _) Hmw), (proj2 (Z.ltb_ge (total_calls run') n)),
    (proj2 (Z.ltb_ge _ _) Hmt), Hs, (proj2 (Z.ltb_ge _ _) Hlen) by lia. done.
Qed.

(** Every transition stores a phase that is accepted when it is read back. *)
Lemma transition_ok l (before : option LoopPhase) ms after :
  typed_loop l → transition l before ms after → (∀ phase, before = Some phase → phase_ok phase) →
  phase_ok after.
Proof.
  intros Ht Hstep Hok. assert (phase_ok Terminal) as Hend by (by apply plain_ok).
  destruct Hstep; try exact Hend; try (specialize (Hok _ eq_refl));
    try (pose proof (ok_turns _ Hok) as H0t); try (pose proof (ok_tools_valid _ Hok) as Hv);
    cbn [phase_turns] in *; try (by apply plain_ok); try (by apply tool_ok).
  - destruct H as [input Hp]. apply explicit_ok. pose proof (typed_explicit_attempts _ Ht _ _ _ Hp). lia.
  - apply plain_ok; try done. cbn. lia.
  - destruct H0 as [input Hp]. apply compaction_ok; try done. pose proof (typed_attempts _ Ht _ _ _ Hp). lia.
  - destruct H0 as [input Hp]. apply compaction_ok; try done. pose proof (typed_attempts _ Ht _ _ _ Hp). lia.
  - apply compaction_ok; try done. pose proof (ok_attempts _ Hok _ _ eq_refl). lia.
  - apply explicit_ok. pose proof (ok_attempts _ Hok _ _ eq_refl). lia.
  - split; try done. apply (ok_valid _ Hok).
  - pose proof H as Hs. unfold validate_step in Hs. cbn in Hs.
    case_match; [done|]. case_match; [|done]. split_bools.
    eapply code_ok; [done..| | |constructor|apply validate_code_step; [by apply Hv|done]]; lia.
  - by apply after_result_ok; [|apply Hv].
  - assert (phase_pending phase = Some p ∧ phase_turns phase = t) as [Hp <-]
      by (destruct H as [->|[(run & request & ->)|(run & snapshot & calls & ->)]]; done).
    by apply after_result_ok; [|apply Hv].
  - destruct (ok_run _ Hok _ eq_refl) as [Hw Hc].
    pose proof (add_wave_ok _ _ _ H) as (_ & Hwave & Htotal & Hmw & Hmt & Hn0 & Hnm).
    destruct H1 as (v & called & Hcalled & Horder).
    eapply code_ok; [done..|lia| | |].
    + unfold code_batch_len in *. lia.
    + cbn. rewrite Horder. by apply Forall_fmap, (typed_ids _ Ht _ _ _ Hcalled).
    + unfold validate_phase. cbn. rewrite (Hv _ eq_refl). cbn.
      eapply suspended_wave; [done|done|lia|lia|done..].
  - destruct (ok_run _ Hok _ eq_refl) as [Hw Hc].
    eapply code_ok; [done..|constructor|]. apply validate_code_step; [by apply Hv|].
    apply H; [apply Hok|lia].
Qed.

(** ** Limits *)
Lemma turn_limit_open l t limit :
  turn_limit_reached l t = None → cfg_max_model_turns (al_config l) = Some limit → t < limit.
Proof. unfold turn_limit_reached. intros E Hl. rewrite Hl in E. destruct (Z.leb_spec limit t); [done|lia]. Qed.

Lemma after_result_within l t p :
  typed_loop l →
  phase_turns (after_result t p) = t ∧
  (Z.of_nat (length (pending_iter p)) ≤ cfg_max_tool_calls_per_turn (al_config l) →
   Z.of_nat (length (phase_calls (after_result t p))) ≤ cfg_max_tool_calls_per_turn (al_config l)).
Proof.
  intros Ht. pose proof (pending_advance_iter p) as Hi. pose proof (typed_calls _ Ht).
  unfold after_result. destruct (pending_advance p) as [p'|]; cbn [phase_turns phase_calls length];
    (split; [done|]); [|lia]. rewrite Hi. cbn [length]. lia.
Qed.

Lemma transition_within l (before : option LoopPhase) ms after :
  typed_loop l → transition l before ms after → (∀ phase, before = Some phase → phase_wf l phase) →
  (∀ limit, cfg_max_model_turns (al_config l) = Some limit → phase_turns after ≤ limit) ∧
  Z.of_nat (length (phase_calls after)) ≤ cfg_max_tool_calls_per_turn (al_config l).
Proof.
  intros Ht Hstep Hwf. pose proof (typed_calls _ Ht) as Hc1. pose proof (typed_turns _ Ht) as Ht1.
  assert (∀ limit, cfg_max_model_turns (al_config l) = Some limit → 0 ≤ limit) as Ht0
    by (intros limit Hl; specialize (Ht1 limit Hl); lia).
  destruct Hstep; try (specialize (Hwf _ eq_refl); pose proof (wf_turn_limit _ _ Hwf) as Hlt;
    pose proof (wf_calls _ _ Hwf) as Hcs); cbn [phase_turns phase_calls length] in *;
    try (split; [done|lia]); try done.
  - split; [|lia]. intros limit Hl. pose proof (turn_limit_open _ _ _ H Hl). lia.
  - destruct (after_result_within l t p Ht) as [-> Hw]. auto.
  - destruct (after_result_within l t p Ht) as [-> Hw].
    destruct H as [->|[(run & request & ->)|(run & snapshot & calls & ->)]]; cbn in *; auto.
Qed.

(** Every transition stores a well-formed phase. *)
Lemma transition_wf l (before : option LoopPhase) ms after :
  typed_loop l → transition l before ms after → (∀ phase, before = Some phase → phase_wf l phase) →
  phase_wf l after.
Proof.
  intros Ht Hstep Hwf. destruct (transition_within _ _ _ _ Ht Hstep Hwf) as [Hlt Hcs].
  split; [|done..]. eapply transition_ok; [done..|]. intros phase Hp. by apply (Hwf _ Hp).
Qed.

Lemma terminal_ok : phase_ok Terminal.
Proof. by apply plain_ok. Qed.
End invariant.

(** * Runs of one operation

    A run is the sequence of decisions of one operation: each decision is made
    from the checkpoint the one before stored, whatever the events and the
    settled effects it is given. *)
Section runs.
Context `{JV : JsonValue} `{LS : !LoopSerde} `{HS : Hashing}.
Implicit Types (l : AgentLoop) (phase : LoopPhase) (ms : list Message) (ds : list LoopDecision).

Inductive loop_run l : list LoopDecision → option Checkpoint → Prop :=
| run_nil : loop_run l [] None
| run_decide ds c input d :
    loop_run l ds c → li_checkpoint input = c → decide_loop l input = Ok d →
    loop_run l (ds ++ [d]) (Some (decision_checkpoint d)).

(** The messages of a list of events. *)
Definition event_message (e : NewEvent) : option Message :=
  if String.eqb (kind e) MESSAGE_EVENT_KIND
  then match from_value (payload e) with Ok m => Some m | Err _ => None end
  else None.
Definition messages_of (events : list NewEvent) : list Message := omap event_message events.
Definition run_events ds : list NewEvent := ds ≫= decision_events.


Lemma messages_of_app evs1 evs2 : messages_of (evs1 ++ evs2) = messages_of evs1 ++ messages_of evs2.
Proof. apply omap_app. Qed.
Lemma run_events_snoc ds d : run_events (ds ++ [d]) = run_events ds ++ decision_events d.
Proof. unfold run_events. rewrite bind_app. cbn. by rewrite app_nil_r. Qed.

(** ** Reading back *)
Context `{!LoopSerdeLaws}.

Lemma other_event_message e : other_event e → event_message e = None.
Proof.
  unfold other_event, event_message. intros He. case_match eqn:E; [|done].
  apply String.eqb_eq in E. rewrite E in He.
  repeat (apply elem_of_cons in He as [He|He]; [discriminate He|]). by apply elem_of_nil in He.
Qed.

Lemma message_events_read ms evs :
  message_events ms = Ok evs → messages_of evs = read_message <$> ms.
Proof.
  revert evs. induction ms as [|m ms IH]; intros evs E; cbn in E; [by inv_ok E; subst|].
  apply result_bind_ok in E as (e & He & (rest & Hr & [= <-])%result_bind_ok).
  unfold message_event in He. apply result_bind_ok in He as (v & Hv%map_err_ok & [= <-]). cbn.
  unfold event_message at 1. cbn. rewrite (from_to_value _ _ Hv). f_equal. by apply IH.
Qed.

Lemma appends_read events ms : appends events ms → messages_of events = read_message <$> ms.
Proof.
  intros (evs & others & Hm & -> & Ho). rewrite messages_of_app, (message_events_read _ _ Hm).
  unfold messages_of. assert (omap event_message others = []) as ->.
  { induction Ho as [|e others He _ IH]; cbn; [done|]. by rewrite other_event_message. }
  by rewrite app_nil_r.
Qed.

Lemma open_calls_read ms pending : open_calls (read_message <$> ms) pending = open_calls ms pending.
Proof.
  revert pending. induction ms as [|m ms IH]; intros pending; cbn [open_calls fmap list_fmap]; [done|].
  assert (update_tool_group (read_message m) pending = update_tool_group m pending) as -> by (by destruct m).
  destruct (update_tool_group m pending) as [[]|]; auto.
Qed.

Lemma read_phase_ok phase : phase_ok phase → phase_ok (read_phase phase).
Proof. destruct phase; try done; intros []; by split. Qed.
Lemma read_phase_wf l phase : phase_wf l phase → phase_wf l (read_phase phase).
Proof. intros [Hok Ht Hc]. split; [by apply read_phase_ok|by destruct phase|by destruct phase]. Qed.
Lemma read_phase_calls phase : phase_calls (read_phase phase) = phase_calls phase.
Proof. by destruct phase. Qed.

(** A stored phase resumes as it was written. *)
Lemma checkpoint_resumes phase c :
  phase_ok phase → checkpoint phase = Ok c → decode_checkpoint c = Ok (read_phase phase).
Proof.
  intros Hok. unfold checkpoint. intros (v & Hv%map_err_ok & [= <-])%result_bind_ok.
  apply decode_checkpoint_ok. cbn. split; [by apply from_to_value|]. apply (read_phase_ok _ Hok).
Qed.

(** ** Open calls of a history

    A decision leaves open exactly the calls of the phase it stores. *)
Lemma decision_extends l (before : option LoopPhase) d ms after events :
  (∀ p, before = Some p → tools_valid p) → transition l before ms after → realizes l d ms after →
  open_calls (messages_of events) ∅ = Some (open_map (waiting before)) →
  open_calls (messages_of (events ++ decision_events d)) ∅ = Some (open_map (phase_calls after)).
Proof.
  intros Hv Htr (_ & Happ & _) Hopen.
  rewrite messages_of_app, open_calls_app, Hopen, (appends_read _ _ Happ). cbn. rewrite open_calls_read.
  by apply (transition_open _ _ _ _ Htr).
Qed.

(** ** The invariant of runs *)
Lemma resumes_unique c (p1 p2 : option LoopPhase) : resumes c p1 → resumes c p2 → p1 = p2.
Proof. destruct c; cbn; [|congruence]. intros (x & Hx & ->) (y & Hy & ->). congruence. Qed.

(** Induction over the transitions of a run. *)
Lemma run_induction l (P : list LoopDecision → option LoopPhase → Prop) ds c :
  typed_loop l → P [] None →
  (∀ ds before d ms after, (∀ p, before = Some p → phase_wf l p) → P ds before →
     transition l before ms after → realizes l d ms after → P (ds ++ [d]) (Some (read_phase after))) →
  loop_run l ds c →
  ∃ phase : option LoopPhase, resumes c phase ∧ (∀ p, phase = Some p → phase_wf l p) ∧ P ds phase.
Proof.
  intros Ht Hnil Hstep. induction 1 as [|ds c input d Hrun IH Hc Hd].
  { exists None. by split_and!. }
  destruct IH as (phase & Hres & Hwf & HP).
  destruct (decide_refines _ _ _ Hd) as (before & Hb & ms & after & Htr & Hr).
  rewrite Hc in Hb. rewrite <- (resumes_unique _ _ _ Hres Hb) in Htr. clear before Hb.
  pose proof (transition_wf _ _ _ _ Ht Htr Hwf) as Hwf'.
  exists (Some (read_phase after)). split_and!.
  - exists (read_phase after). split; [apply checkpoint_resumes; [apply Hwf'|apply Hr]|done].
  - intros p [= <-]. by apply read_phase_wf.
  - by eapply Hstep.
Qed.

Lemma run_invariant l ds c :
  typed_loop l → loop_run l ds c →
  ∃ phase : option LoopPhase, resumes c phase ∧ (∀ p, phase = Some p → phase_wf l p) ∧
    open_calls (messages_of (run_events ds)) ∅ = Some (open_map (waiting phase)).
Proof.
  intros Ht. apply (run_induction l (λ ds (phase : option LoopPhase),
    open_calls (messages_of (run_events ds)) ∅ = Some (open_map (waiting phase)))); [done..|].
  clear ds. intros ds before d ms after Hwf Hopen Htr Hr.
  cbn [waiting from_option]. rewrite run_events_snoc, read_phase_calls.
  eapply decision_extends; [|done..]. intros p Hp. apply (wf_tools_valid l), Hwf, Hp.
Qed.

(** ** Steps

    The decisions one tool call takes at most: the request or the start of its
    code, two for every wave, and one for its result. *)
Definition call_steps : Z := 2 * MAX_CODE_WAVES + 3.
(** ... and one model turn. *)
Definition turn_steps l : Z := cfg_max_tool_calls_per_turn (al_config l) * call_steps + 2.

(** The decisions an operation may still take without compacting. *)
Definition potential l (limit : Z) phase : Z :=
  let later := (limit - phase_turns phase) * turn_steps l in
  let calls := Z.of_nat (length (phase_calls phase)) * call_steps in
  match phase with
  | NeedModel _ => later + 1
  | AwaitingModel _ => later + turn_steps l
  | AwaitingCompaction _ _ _ _ => later + 2
  | AwaitingExplicitCompaction _ _ _ => 1
  | NeedTool _ _ => later + calls + 1
  | AwaitingTool _ _ => later + calls
  | AwaitingCodeStep _ _ run _ => later + calls - 2 * wave run
  | AwaitingCodeCalls _ _ run _ _ => later + calls - 2 * wave run + 1
  | Terminal => 0
  end.

Definition initial_potential l (limit : Z) : Z := limit * turn_steps l + 2.

Definition compacting phase : bool :=
  match phase with AwaitingCompaction _ _ _ _ | AwaitingExplicitCompaction _ _ _ => true | _ => false end.

Lemma potential_pos l limit phase :
  typed_loop l → cfg_max_model_turns (al_config l) = Some limit → phase_wf l phase →
  phase ≠ Terminal → 1 ≤ potential l limit phase.
Proof.
  intros Ht Hl Hwf Hne. pose proof (wf_turn_limit _ _ Hwf _ Hl). pose proof (typed_calls _ Ht).
  pose proof (wf_run _ _ Hwf) as Hrun.
  assert (0 ≤ (limit - phase_turns phase) * turn_steps l).
  { apply Z.mul_nonneg_nonneg; [lia|]. unfold turn_steps, call_steps, MAX_CODE_WAVES. lia. }
  destruct phase; try done; cbn [potential phase_calls pending_iter length phase_run] in *;
    try (destruct (Hrun _ eq_refl) as [[_ Hw] _]);
    unfold turn_steps, call_steps, MAX_CODE_WAVES in *; lia.
Qed.

Lemma after_result_potential l limit t p :
  potential l limit (after_result t p) + call_steps ≤
  (limit - t) * turn_steps l + Z.of_nat (length (pending_iter p)) * call_steps + 1.
Proof.
  pose proof (pending_advance_iter p) as Hi. unfold after_result.
  destruct (pending_advance p) as [p'|]; cbn [potential phase_turns phase_calls];
    rewrite Hi; cbn [length]; lia.
Qed.

(** Every transition uses up a decision, but for the requests of a summary. *)
Lemma transition_potential l limit (before : option LoopPhase) ms after :
  typed_loop l → cfg_max_model_turns (al_config l) = Some limit →
  transition l before ms after → (∀ phase, before = Some phase → phase_wf l phase) →
  potential l limit after + 1 ≤
  from_option (potential l limit) (initial_potential l limit) before + (if compacting after then 2 else 0).
Proof.
  intros Ht Hl Hstep Hwf. pose proof (typed_turns _ Ht _ Hl). pose proof (typed_calls _ Ht) as HK.
  assert (1 ≤ call_steps) by done.
  assert (2 ≤ turn_steps l) by (unfold turn_steps; nia).
  assert (0 ≤ limit * turn_steps l) by nia.
  assert (∀ phase, before = Some phase → phase ≠ Terminal → 1 ≤ potential l limit phase) as Hpos.
  { intros phase Hp. by apply potential_pos; [| |apply Hwf]. }
  destruct Hstep; cbn [from_option compacting]; try (specialize (Hwf _ eq_refl)).
  all: try (unfold initial_potential; cbn [potential phase_turns]; lia).
  all: try (specialize (Hpos _ eq_refl ltac:(done)); cbn [potential phase_turns phase_calls] in *; lia).
  - cbn [potential phase_turns phase_calls]. assert (turn_steps l = cfg_max_tool_calls_per_turn (al_config l) * call_steps + 2) by done.
    assert (Z.of_nat (length (pending_iter p)) * call_steps ≤
            cfg_max_tool_calls_per_turn (al_config l) * call_steps) by (apply Z.mul_le_mono_nonneg_r; lia).
    generalize dependent (turn_steps l). intros. lia.
  - assert (wave run = 0) as Hw.
    { unfold validate_step in *. cbn in *. case_match; [done|]. case_match; [|done]. split_bools. lia. }
    cbn [potential phase_turns phase_calls]. rewrite Hw. lia.
  - pose proof (after_result_potential l limit t p).
    cbn [potential phase_turns phase_calls]. unfold call_steps, MAX_CODE_WAVES in *. case_match; lia.
  - pose proof (after_result_potential l limit t p). pose proof (wf_run _ _ Hwf) as Hrun.
    destruct H4 as [->|[(run & request & ->)|(run & snapshot & calls & ->)]];
      try (destruct (Hrun _ eq_refl) as [[_ Hw] _]); cbn [potential phase_turns phase_calls];
      unfold call_steps, MAX_CODE_WAVES in *; case_match; lia.
  - assert (phase ≠ Terminal) as Hne by (by intros ->). specialize (Hpos _ eq_refl Hne). cbn [potential]. lia.
  - assert (phase ≠ Terminal) as Hne by (by intros ->). specialize (Hpos _ eq_refl Hne). cbn [potential]. lia.
  - match goal with H : add_wave _ _ = Ok _ |- _ => apply add_wave_ok in H as (_ & Hw & _) end.
    cbn [potential phase_turns phase_calls]. lia.
Qed.

Lemma read_phase_potential l limit phase : potential l limit (read_phase phase) = potential l limit phase.
Proof. by destruct phase. Qed.

(** ** Model requests *)
Definition model_request_decision (d : LoopDecision) : bool :=
  match d with
  | InvokeEffects _ effects => existsb (λ e, String.eqb (er_binding e) MODEL_EFFECT_BINDING) effects
  | _ => false
  end.
Definition model_requests ds : Z := Z.of_nat (length (List.filter model_request_decision ds)).

Definition asking phase : bool := match phase with AwaitingModel _ => true | _ => false end.

(** The model requests of an operation up to its phase. *)
Definition turns_used (limit : Z) phase : Z :=
  match phase with Terminal => limit | _ => phase_turns phase end.

Lemma transition_turns l limit (before : option LoopPhase) ms after :
  typed_loop l → cfg_max_model_turns (al_config l) = Some limit →
  transition l before ms after → (∀ phase, before = Some phase → phase_wf l phase) →
  from_option (turns_used limit) 0 before + (if asking after then 1 else 0) ≤ turns_used limit after.
Proof.
  intros Ht Hl Hstep Hwf. pose proof (typed_turns _ Ht _ Hl).
  destruct Hstep; cbn [from_option asking]; try (specialize (Hwf _ eq_refl));
    try (pose proof (wf_turn_limit _ _ Hwf _ Hl)); cbn [turns_used phase_turns] in *; try lia.
  - unfold after_result. destruct (pending_advance p); cbn; lia.
  - destruct H1 as [->|[(run & request & ->)|(run & snapshot & calls & ->)]];
      unfold after_result; destruct (pending_advance p); cbn; lia.
  - destruct phase; cbn in *; lia.
  - destruct phase; cbn in *; lia.
Qed.

(** The model is asked through its own binding only. *)
Definition model_binding_reserved l : Prop :=
  (∀ tool, tool ∈ al_tools l → lt_effect_binding tool ≠ MODEL_EFFECT_BINDING) ∧
  (∀ code, al_code_mode l = Some code → lc_nested_binding code ≠ MODEL_EFFECT_BINDING).

Lemma awaits_model l phase effects :
  model_binding_reserved l → awaits l phase effects →
  existsb (λ e, String.eqb (er_binding e) MODEL_EFFECT_BINDING) effects = true → asking phase = true.
Proof.
  intros [Htools Hcode]. destruct phase; cbn [awaits]; try (by intros ->); try done.
  - by intros (v & _ & ->).
  - by intros (v & _ & ->).
  - intros (tool & Hf & v & _ & ->). cbn. unfold find_tool in Hf. apply List.find_some in Hf as [Hin _].
    apply list_elem_of_In in Hin. by rewrite (proj2 (String.eqb_neq _ _) (Htools _ Hin)).
  - by intros (_ & v & _ & ->).
  - intros (code & Hc & Hcol & _) Hex. apply existsb_exists in Hex as (e & Hin & He%String.eqb_eq).
    apply list_elem_of_In, (collect_elem _ _ _ _ Hcol) in Hin as (a & _ & Ha).
    unfold nested_effect in Ha. apply result_bind_ok in Ha as (v & _ & [= <-]). by apply Hcode in Hc.
Qed.

Lemma run_turns l limit ds c :
  typed_loop l → cfg_max_model_turns (al_config l) = Some limit → model_binding_reserved l →
  loop_run l ds c →
  ∃ phase : option LoopPhase, resumes c phase ∧ (∀ p, phase = Some p → phase_wf l p) ∧
    model_requests ds ≤ from_option (turns_used limit) 0 phase.
Proof.
  intros Ht Hl Hm. apply (run_induction l (λ ds (phase : option LoopPhase),
    model_requests ds ≤ from_option (turns_used limit) 0 phase)); [done..|].
  clear ds. intros ds before d ms after Hwf Hused Htr Hr.
  pose proof (transition_turns _ _ _ _ _ Ht Hl Htr Hwf) as Hstep. cbn [from_option] in *.
  assert (turns_used limit (read_phase after) = turns_used limit after) as -> by (by destruct after).
  unfold model_requests in *. rewrite List.filter_app, length_app. cbn [List.filter].
  destruct (model_request_decision d) eqn:Em; cbn [length]; [|destruct (asking after); lia].
  destruct d; try done. destruct Hr as (_ & _ & Ha & _).
  rewrite (awaits_model _ _ _ Hm Ha Em) in Hstep. lia.
Qed.

(** ** Operations with their history

    The history an operation is given: the events of the session before it and,
    after each decision, the events that decision appended. *)
Inductive operation_run l (start : list SemanticEvent)
    : list LoopDecision → option Checkpoint → list SemanticEvent → Prop :=
| operation_nil : operation_run l start [] None start
| operation_decide ds c events input d new :
    operation_run l start ds c events → li_checkpoint input = c → li_events input = events →
    decide_loop l input = Ok d →
    (λ e, (sev_kind e, sev_payload e)) <$> new = (λ e, (kind e, payload e)) <$> decision_events d →
    operation_run l start (ds ++ [d]) (Some (decision_checkpoint d)) (events ++ new).

Definition count_kind (k : string) (kinds : list string) : nat := length (List.filter (String.eqb k) kinds).
Definition message_count (events : list SemanticEvent) : nat := count_kind MESSAGE_EVENT_KIND (sev_kind <$> events).
Definition checkpoint_count (events : list SemanticEvent) : nat :=
  count_kind CONTEXT_CHECKPOINT_EVENT_KIND (sev_kind <$> events).

Lemma count_kind_app k ks1 ks2 : count_kind k (ks1 ++ ks2) = (count_kind k ks1 + count_kind k ks2)%nat.
Proof. unfold count_kind. by rewrite List.filter_app, length_app. Qed.
Lemma count_kind_cons k k' ks : count_kind k (k' :: ks) = ((if String.eqb k k' then 1 else 0) + count_kind k ks)%nat.
Proof. unfold count_kind. cbn [List.filter]. by destruct (String.eqb k k'). Qed.

Lemma appended_kinds (new : list SemanticEvent) (evs : list NewEvent) :
  (λ e, (sev_kind e, sev_payload e)) <$> new = (λ e, (kind e, payload e)) <$> evs → sev_kind <$> new = kind <$> evs.
Proof.
  intros E. apply (f_equal (fmap fst)) in E. by rewrite <- !list_fmap_compose in E.
Qed.

Definition up_to (b : Z) (X : gset Z) : gset Z := filter (λ s, s ≤ b) X.
Lemma elem_of_up_to b X s : s ∈ up_to b X ↔ s ≤ b ∧ s ∈ X.
Proof. unfold up_to. by rewrite elem_of_filter. Qed.

(** A history that can be read has at most as many checkpoints as messages:
    their boundaries are sequences of messages and advance. *)
Record read_to (g : Gathered) (messages checkpoints : nat) : Prop := {
  rt_messages : size (ga_message_sequences g) = messages;
  rt_checkpoints :
    match ga_checkpoint g with
    | None => checkpoints = 0%nat
    | Some c => (checkpoints ≤ size (up_to (ack_covered_through_sequence c) (ga_message_sequences g)))%nat
    end;
}.

Lemma read_message_event g s entries (anns : gmap OperationId TurnAnnotation) (receipted : gset OperationId) n m :
  read_to g n m → s ∉ ga_message_sequences g →
  read_to {| ga_entries := entries; ga_message_sequences := {[s]} ∪ ga_message_sequences g; ga_annotations := anns;
             ga_receipted := receipted; ga_checkpoint := ga_checkpoint g |} (S n) m.
Proof.
  intros [Hn Hm] Hs. split; cbn.
  - rewrite size_union, size_singleton by set_solver. lia.
  - destruct (ga_checkpoint g) as [c|]; [|done]. etrans; [exact Hm|]. apply subseteq_size. intros y. rewrite ?elem_of_up_to. set_solver.
Qed.

Lemma read_checkpoint_event g event c entries (anns : gmap OperationId TurnAnnotation) (receipted : gset OperationId) n m :
  read_to g n m → activated_checkpoint event (ga_message_sequences g) (ga_checkpoint g) = Ok c →
  read_to {| ga_entries := entries; ga_message_sequences := ga_message_sequences g; ga_annotations := anns;
             ga_receipted := receipted; ga_checkpoint := Some c |} n (S m).
Proof.
  intros [Hn Hm] E. split; [done|]. cbn. unfold activated_checkpoint in E. apply result_bind_ok in E as (x & _ & E).
  case_match; [done|]. case_decide as Hin; [done|].
  destruct (match ga_checkpoint g with Some _ => _ | None => _ end) eqn:Hadv; [done|]. injection E as <-. cbn.
  set (b := cce_covered_through_sequence x) in *.
  assert (∀ X : gset Z, X ⊆ ga_message_sequences g → (∀ s, s ∈ X → s < b) → (m ≤ size X)%nat →
    (S m ≤ size (up_to b (ga_message_sequences g)))%nat) as Hgrow.
  { intros X HX Hlt HmX. assert (size ({[b]} ∪ X) = S (size X)) as Hsz.
    { rewrite size_union, size_singleton; [done|]. intros y. rewrite elem_of_singleton. intros -> Hy. specialize (Hlt _ Hy). lia. }
    apply Nat.le_trans with (size ({[b]} ∪ X)); [lia|]. apply subseteq_size. intros y.
    rewrite elem_of_union, elem_of_singleton, elem_of_up_to.
    intros [->|Hy]; [split; [lia|done]|]. split; [specialize (Hlt _ Hy); lia|by apply HX]. }
  destruct (ga_checkpoint g) as [c0|].
  - apply Z.leb_gt in Hadv. apply (Hgrow (up_to (ack_covered_through_sequence c0) (ga_message_sequences g))).
    + intros y. rewrite elem_of_up_to. by intros [_ ?].
    + intros y. rewrite elem_of_up_to. intros [? _]. lia.
    + done.
  - subst m. apply (Hgrow ∅); [set_solver|set_solver|lia].
Qed.

Lemma gather_read g event g' n m : read_to g n m → gather g event = Ok g' →
  read_to g' (n + (if String.eqb MESSAGE_EVENT_KIND (sev_kind event) then 1 else 0))
    (m + (if String.eqb CONTEXT_CHECKPOINT_EVENT_KIND (sev_kind event) then 1 else 0)).
Proof.
  intros Hg. unfold gather. cbv zeta. rewrite (String.eqb_sym MESSAGE_EVENT_KIND), (String.eqb_sym CONTEXT_CHECKPOINT_EVENT_KIND).
  destruct (String.eqb_spec (sev_kind event) MESSAGE_EVENT_KIND) as [Hk|Hk].
  { intros (msg & _ & E)%result_bind_ok. case_decide as Hd; [done|]. injection E as <-. rewrite Hk. cbn [String.eqb].
    rewrite Nat.add_1_r, Nat.add_0_r. by apply read_message_event. }
  rewrite Nat.add_0_r. case_match; [done|]. intros ([marked receipted] & Hmark & E)%result_bind_ok.
  destruct (String.eqb_spec (sev_kind event) CONTEXT_CHECKPOINT_EVENT_KIND) as [Hc|Hc].
  - unfold mark in Hmark. rewrite Hc in Hmark. cbn in Hmark. injection Hmark as <- <-.
    apply result_bind_ok in E as (annotation & Hann & E). unfold decode_annotation in Hann. rewrite Hc in Hann. cbn in Hann.
    injection Hann as <-. apply result_bind_ok in E as (c & Ha & [= <-]). rewrite Nat.add_1_r.
    by eapply read_checkpoint_event.
  - rewrite Nat.add_0_r. destruct Hg as [Hn Hm].
    destruct marked; [injection E as <-; by split|].
    apply result_bind_ok in E as ([annotation|] & _ & E); [case_decide; [done|]; injection E as <-; by split|].
    case_match; [done|]. case_match; [done|]. case_match; [|by injection E as <-].
    by apply result_bind_ok in E as (? & _ & [= <-]).
Qed.

Lemma gather_all_read events : ∀ g g' n m, read_to g n m → gather_all g events = Ok g' →
  read_to g' (n + message_count events) (m + checkpoint_count events).
Proof.
  unfold message_count, checkpoint_count.
  induction events as [|event events IH]; intros g g' n m Hg E; cbn in E.
  { injection E as <-. cbn. by rewrite !Nat.add_0_r. }
  apply result_bind_ok in E as (g1 & H1 & E). rewrite fmap_cons, !count_kind_cons, !Nat.add_assoc.
  eapply IH; [|exact E]. by eapply gather_read.
Qed.

Lemma readable_checkpoints events g : gather_all nothing_gathered events = Ok g → (checkpoint_count events ≤ message_count events)%nat.
Proof.
  intros E. destruct (gather_all_read events nothing_gathered g 0 0) as [Hn Hm]; [by split|done|].
  destruct (ga_checkpoint g) as [c|]; [|lia]. cbn [Nat.add] in Hn, Hm. rewrite <- Hn. etrans; [exact Hm|]. apply subseteq_size. intros y. rewrite ?elem_of_up_to. set_solver.
Qed.

(** ** What summaries cost *)

(** Every plan comes with at most [most] attempts. *)
Definition attempts_within l (most : Z) : Prop :=
  (∀ input plan m, cs_prepare (al_context l) input = Ok (PrepCompact plan m) → m ≤ most) ∧
  (∀ input plan m, cs_prepare_explicit_compaction (al_context l) input = Ok (ExplicitCompact plan m) → m ≤ most).

(** The strategies of the loop keep it: one that summarizes gives every plan the
    configured number, one that only projects makes no plan. *)
Lemma compacting_attempts l `{!TextSerde ToolResult} (s : CompactingContextStrategy) :
  al_context l = compacting_strategy s → attempts_within l (st_max_attempts s).
Proof.
  intros Hs. unfold attempts_within. rewrite Hs. split; intros input plan m E; cbn in E.
  - unfold compacting_prepare in E. inv_step E. inv_step E. cbv zeta in E. case_match; [done|].
    inv_step E. case_match; [|by case_match]. by injection E as <- <-.
  - unfold compacting_prepare_explicit in E. inv_step E. cbv zeta in E. case_match; [done|].
    inv_step E. case_match; [|done]. by injection E as <- <-.
Qed.
Lemma projecting_attempts l project : al_context l = projection_strategy project → attempts_within l 1.
Proof.
  intros Hs. unfold attempts_within. rewrite Hs. split; intros input plan m E; cbn in E; [|done]. by inv_step E.
Qed.

Definition plan_within (most : Z) phase : Prop := ∀ a m, phase_attempts phase = Some (a, m) → m ≤ most.

(** The attempts that may still be made before the next summary is activated. *)
Definition attempts_left (most : Z) phase : Z :=
  match phase_attempts phase with
  | Some (a, _) => most - a
  | None => match phase with Terminal => 0 | _ => most end
  end.

Lemma attempts_left_pos most phase : 0 ≤ most → phase_ok phase → plan_within most phase → 0 ≤ attempts_left most phase.
Proof.
  intros H0 Hok Hm. unfold attempts_left. destruct (phase_attempts phase) as [[a m]|] eqn:Ea; [|case_match; lia].
  pose proof (ok_attempts _ Hok _ _ Ea). specialize (Hm _ _ Ea). lia.
Qed.

Definition activates (before : option LoopPhase) after : bool :=
  match before, after with Some (AwaitingCompaction _ _ _ _), NeedModel _ => true | _, _ => false end.

Lemma activates_silent l (before : option LoopPhase) ms after :
  transition l before ms after → activates before after = true → ms = [].
Proof.
  intros Hstep. destruct Hstep; try done.
  - match goal with E : _ ∨ _ |- _ => by destruct E as [->|[(run & request & ->)|(run & snapshot & calls & ->)]] end.
  - by destruct phase.
  - by destruct phase.
Qed.

Lemma transition_attempts l most (before : option LoopPhase) ms after :
  1 ≤ most → attempts_within l most → transition l before ms after →
  (∀ phase, before = Some phase → phase_ok phase ∧ plan_within most phase) →
  plan_within most after ∧
  attempts_left most after + (if compacting after then 1 else 0) ≤
    from_option (attempts_left most) most before + (if activates before after then most else 0).
Proof.
  intros H1 [Hw He] Hstep Hb. unfold plan_within, attempts_left.
  assert (∀ phase, before = Some phase → 0 ≤ attempts_left most phase) as Hpos.
  { intros phase Hp. destruct (Hb _ Hp). apply attempts_left_pos; [lia|done..]. }
  unfold attempts_left in Hpos.
  destruct Hstep; cbn [phase_attempts compacting activates from_option] in *;
    try (destruct (Hb _ eq_refl) as [Hok Hm]); try (split; [done|lia]);
    try (split; [done|]; specialize (Hpos _ eq_refl); cbn in *; lia).
  1-3: match goal with E : ∃ input : ContextInput, _ |- _ => destruct E as [? Hp] end;
    first [specialize (He _ _ _ Hp)|specialize (Hw _ _ _ Hp)]; split; [by intros ? ? [= <- <-]|lia].
  - specialize (Hm _ _ eq_refl). split; [by intros ? ? [= <- <-]|lia].
  - specialize (Hm _ _ eq_refl). split; [by intros ? ? [= <- <-]|lia].
  - unfold after_result. destruct (pending_advance p); cbn; (split; [done|lia]).
  - match goal with E : _ ∨ _ |- _ => destruct E as [->|[(run & request & ->)|(run & snapshot & calls & ->)]] end;
      cbn; unfold after_result; destruct (pending_advance p); cbn; (split; [done|lia]).
  - split; [done|]. specialize (Hpos _ eq_refl). destruct phase; cbn in *; lia.
  - split; [done|]. specialize (Hpos _ eq_refl). destruct phase; cbn in *; lia.
Qed.

(** ** What an operation appends *)

(** The messages a turn appends at most: the model's, a result for each call,
    and the reply that closes it. *)
Definition turn_messages l : Z := cfg_max_tool_calls_per_turn (al_config l) + 2.

Definition message_room l (limit : Z) phase : Z :=
  let later := (limit - phase_turns phase) * turn_messages l in
  match phase with
  | NeedModel _ | AwaitingCompaction _ _ _ _ => later
  | AwaitingModel _ => later + turn_messages l
  | AwaitingExplicitCompaction _ _ _ | Terminal => 0
  | _ => later + Z.of_nat (length (phase_calls phase)) + 1
  end.
Definition initial_room l (limit : Z) : Z := limit * turn_messages l + 1.

Lemma message_room_pos l limit phase :
  typed_loop l → cfg_max_model_turns (al_config l) = Some limit → phase_wf l phase → 0 ≤ message_room l limit phase.
Proof.
  intros Ht Hl Hwf. pose proof (wf_turn_limit _ _ Hwf _ Hl). pose proof (typed_calls _ Ht).
  assert (0 ≤ (limit - phase_turns phase) * turn_messages l) by (apply Z.mul_nonneg_nonneg; unfold turn_messages; lia).
  unfold message_room. destruct phase; unfold turn_messages in *; lia.
Qed.

Lemma after_result_room l limit t p :
  message_room l limit (after_result t p) + 1 ≤ (limit - t) * turn_messages l + Z.of_nat (length (pending_iter p)) + 1.
Proof.
  pose proof (pending_advance_iter p) as Hi. unfold after_result, message_room.
  destruct (pending_advance p) as [p'|]; cbn [phase_turns phase_calls]; rewrite Hi; cbn [length]; lia.
Qed.

Lemma transition_room l limit (before : option LoopPhase) ms after :
  typed_loop l → cfg_max_model_turns (al_config l) = Some limit → transition l before ms after →
  (∀ phase, before = Some phase → phase_wf l phase) →
  message_room l limit after + Z.of_nat (length ms) ≤ from_option (message_room l limit) (initial_room l limit) before.
Proof.
  intros Ht Hl Hstep Hwf. pose proof (typed_turns _ Ht _ Hl). pose proof (typed_calls _ Ht) as HK.
  assert (0 ≤ limit * turn_messages l) by (unfold turn_messages; nia).
  assert (∀ phase, before = Some phase → 0 ≤ message_room l limit phase) as Hpos
    by (intros phase Hp; by apply message_room_pos, Hwf).
  assert (∀ phase, before = Some phase → 0 ≤ (limit - phase_turns phase) * turn_messages l) as Hlater.
  { intros phase Hp. pose proof (wf_turn_limit _ _ (Hwf _ Hp) _ Hl). apply Z.mul_nonneg_nonneg; unfold turn_messages; lia. }
  assert (∀ calls results, Forall2 answers calls results → length results = length calls) as Hlen
    by (intros calls results HF; symmetry; by eapply Forall2_length).
  assert (turn_messages l = cfg_max_tool_calls_per_turn (al_config l) + 2) as HT by done.
  destruct Hstep; cbn [from_option]; try (specialize (Hpos _ eq_refl)); try (specialize (Hlater _ eq_refl)); try (specialize (Hwf _ eq_refl));
    unfold initial_room in *; cbn [message_room phase_turns phase_calls length] in *; try rewrite length_app; cbn [length];
    try (match goal with H : Forall2 answers _ _ |- _ => apply Hlen in H end); try lia.
  - pose proof (after_result_room l limit t p). lia.
  - pose proof (after_result_room l limit t p).
    match goal with E : _ ∨ _ |- _ => destruct E as [->|[(run & request & ->)|(run & snapshot & calls & ->)]] end;
      cbn [message_room phase_turns phase_calls]; lia.
  - destruct phase; cbn [message_room phase_turns phase_calls length] in *; done || lia.
  - destruct phase; cbn [message_room phase_turns phase_calls length] in *; done || lia.
Qed.

Lemma appends_count events ms : appends events ms → count_kind MESSAGE_EVENT_KIND (kind <$> events) = length ms.
Proof.
  intros (evs & others & Hm & -> & Ho). destruct (message_events_kinds _ _ Hm) as [Hl HF].
  rewrite fmap_app, count_kind_app, <- Hl. assert (count_kind MESSAGE_EVENT_KIND (kind <$> others) = 0%nat) as ->.
  { induction Ho as [|e others He _ IH]; [done|]. rewrite fmap_cons, count_kind_cons, IH.
    destruct (String.eqb_spec MESSAGE_EVENT_KIND (kind e)) as [E|]; [|done]. unfold other_event in He. rewrite <- E in He.
    repeat (apply elem_of_cons in He as [He|He]; [discriminate He|]). by apply elem_of_nil in He. }
  clear -HF. induction HF as [|e evs He _ IH]; [done|]. rewrite fmap_cons, count_kind_cons, He. cbn [String.eqb length].
  rewrite String.eqb_refl. lia.
Qed.

(** A summary is activated by a decision that could read its history and
    appends a checkpoint to it. *)
Lemma activation_read l t plan m a input d t' :
  settle_compaction_for l (ContinueModel t) plan m a input = Ok d → realizes l d [] (NeedModel t') →
  (checkpoint_count (li_events input) ≤ message_count (li_events input))%nat ∧
  (1 ≤ count_kind CONTEXT_CHECKPOINT_EVENT_KIND (kind <$> decision_events d))%nat.
Proof.
  intros E (_ & _ & Hd). unfold settle_compaction_for in E. apply result_bind_ok in E as (ctx & Hv & E).
  split.
  - apply result_bind_ok in Hv as ([] & Hv & _). unfold validate_compaction_plan, build_context_input, context_input in Hv.
    apply result_bind_ok in Hv as (ci & (g & Hg & _)%result_bind_ok & _). by eapply readable_checkpoints.
  - do 3 inv_step E. assert (∀ c evs reason, d ≠ FailOperation c evs reason) as Hnf by (by intros ? ? ? ->).
    assert (∀ reason, compaction_failure reason ≠ Ok d) as Hfail.
    { intros reason Hf. unfold compaction_failure, fail_decision in Hf. inv_step Hf. injection Hf as <-. by eapply Hnf. }
    destruct (se_outcome _) as [v|message]; [|by apply Hfail in E]. inv_step E.
    match goal with o : ModelEffectOutput |- _ => destruct o as [response|message] end; [|by apply Hfail in E].
    destruct (cs_validate_compaction _ _ _) as [summary|error].
    + unfold activate_summary in E. inv_ok E. subst d. cbn.
      rename select (context_checkpoint_event _ _ = _) into He. unfold context_checkpoint_event in He. case_match; [done|].
      inv_ok He. subst. cbn. lia.
    + unfold retry_or_fail_compaction in E. destruct (m <=? a); [by apply Hfail in E|]. inv_step E.
      unfold invoke_compaction_attempt in E. inv_ok E. subst d. by destruct Hd as [-> ?].
Qed.

(** ** The bound *)
Record spent l (limit most : Z) (start events : list SemanticEvent) (ds : list LoopDecision)
    (phase : option LoopPhase) (requested activated : Z) : Prop := {
  sp_decisions : Z.of_nat (length ds) + from_option (potential l limit) (initial_potential l limit) phase ≤
    initial_potential l limit + 2 * requested;
  sp_requests : requested + from_option (attempts_left most) most phase ≤ most * (activated + 1);
  sp_messages : Z.of_nat (message_count events) + from_option (message_room l limit) (initial_room l limit) phase ≤
    Z.of_nat (message_count start) + initial_room l limit;
  sp_checkpoints : activated ≤ Z.of_nat (checkpoint_count events);
  sp_activated : activated ≤ Z.of_nat (message_count events) + 1;
}.

Lemma operation_spent l limit most start ds c events :
  typed_loop l → cfg_max_model_turns (al_config l) = Some limit → 1 ≤ most → attempts_within l most →
  operation_run l start ds c events →
  ∃ (phase : option LoopPhase) requested activated, resumes c phase ∧
    (∀ p, phase = Some p → phase_wf l p ∧ plan_within most p) ∧
    spent l limit most start events ds phase requested activated.
Proof.
  intros Ht Hl Hmost Hatt. induction 1 as [|ds c events input d new Hrun IH Hc He Hd Hnew].
  { exists None, 0, 0. split_and!; [done..|]. split; cbn [length from_option]; try lia. }
  destruct IH as (phase & requested & activated & Hres & Hph & [S1 S2 S3 S4 S5]).
  assert (∀ p, phase = Some p → phase_wf l p) as Hwf by (intros p Hp; by apply Hph).
  destruct (decide_refines _ _ _ Hd) as (before & Hb & ms & after & Htr & Hr).
  rewrite Hc in Hb. rewrite <- (resumes_unique _ _ _ Hres Hb) in Htr. clear before Hb.
  pose proof (transition_wf _ _ _ _ Ht Htr Hwf) as Hwf'.
  pose proof (transition_potential _ _ _ _ _ Ht Hl Htr Hwf) as T1.
  destruct (transition_attempts _ _ _ _ _ Hmost Hatt Htr) as [Hpl T2].
  { intros p Hp. destruct (Hph p Hp) as [[? _ _] ?]. done. }
  pose proof (transition_room _ _ _ _ _ Ht Hl Htr Hwf) as T3.
  pose proof (appended_kinds _ _ Hnew) as Hk.
  assert (message_count (events ++ new) = message_count events + length ms)%nat as Hmc.
  { unfold message_count. rewrite fmap_app, count_kind_app, Hk. f_equal. apply appends_count, Hr. }
  assert (checkpoint_count (events ++ new) =
    checkpoint_count events + count_kind CONTEXT_CHECKPOINT_EVENT_KIND (kind <$> decision_events d))%nat as Hcc.
  { unfold checkpoint_count. by rewrite fmap_app, count_kind_app, Hk. }
  assert (activates phase after = true → (checkpoint_count events ≤ message_count events)%nat ∧
    (1 ≤ count_kind CONTEXT_CHECKPOINT_EVENT_KIND (kind <$> decision_events d))%nat) as Hact.
  { intros Ha. destruct phase as [[]|]; try discriminate Ha. destruct after; try discriminate Ha. subst events c.
    unfold decide_loop in Hd. destruct (li_checkpoint input) as [saved|]; [|done].
    destruct Hres as (p & Hp & [= <-]). rewrite Hp in Hd.
    apply result_bind_ok in Hd as (? & [= <-] & (? & _ & Hd)%result_bind_ok).
    rewrite (activates_silent _ _ _ _ Htr Ha) in Hr.
    eapply activation_read; [exact Hd|exact Hr]. }
  exists (Some (read_phase after)), (requested + (if compacting after then 1 else 0)),
    (activated + (if activates phase after then 1 else 0)). split_and!.
  - exists (read_phase after). split; [apply checkpoint_resumes; [apply Hwf'|apply Hr]|done].
  - intros p [= <-]. split; [by apply read_phase_wf|by destruct after].
  - assert (attempts_left most (read_phase after) = attempts_left most after) as E1 by (by destruct after).
    assert (message_room l limit (read_phase after) = message_room l limit after) as E2 by (by destruct after).
    split; cbn [from_option]; rewrite ?read_phase_potential, ?E1, ?E2, ?length_app, ?Hmc, ?Hcc; cbn [length].
    + destruct (compacting after); lia.
    + destruct (activates phase after), (compacting after); lia.
    + lia.
    + destruct (activates phase after); [destruct (Hact eq_refl)|]; lia.
    + destruct (activates phase after); [destruct (Hact eq_refl)|]; lia.
Qed.

(** ** Interruptions *)

(** The end of an operation from outside: every call still open is answered. *)
Definition ends_operation_of (phase : option LoopPhase) (c : Checkpoint) (events : list NewEvent) : Prop :=
  checkpoint Terminal = Ok c ∧
  ∃ results, message_events results = Ok events ∧ Forall2 answers (waiting phase) results.

(** An interruption answers every open call and cannot be resumed. *)
Lemma interruption_extends (phase : option LoopPhase) c events evs :
  (∀ p, phase = Some p → tools_valid p) → ends_operation_of phase c events →
  open_calls (messages_of evs) ∅ = Some (open_map (waiting phase)) →
  balanced (messages_of (evs ++ events)) ∧ decode_checkpoint c = Ok Terminal.
Proof.
  intros Hv (Hck & results & Hev & HF) Ho.
  split; [|by apply (checkpoint_resumes Terminal) in Hck; [|apply terminal_ok]].
  unfold balanced. rewrite messages_of_app, open_calls_app, Ho, (message_events_read _ _ Hev). cbn.
  rewrite open_calls_read. apply open_calls_all; [done|]. destruct phase as [phase|]; [|constructor].
  by apply tools_valid_nodup, Hv.
Qed.

Lemma abandoned_ends (phase : option LoopPhase) events results a :
  abandoned events = Ok a → (∀ evs, events = Ok evs → message_events results = Ok evs) →
  Forall2 answers (waiting phase) results → ends_operation_of phase (ab_checkpoint a) (ab_events a).
Proof.
  unfold abandoned, terminal. intros E Hev HF. inv_ok E. subst. split; [done|]. exists results.
  split; [by apply Hev|done].
Qed.

Lemma abandon_ends l input a :
  abandon_loop l input = Ok a →
  ∃ phase, decode_checkpoint (ui_checkpoint input) = Ok phase ∧
    ends_operation_of (Some phase) (ab_checkpoint a) (ab_events a).
Proof.
  unfold abandon_loop. intros E. inv_step E. inv_step E. rename x into phase. exists phase. split; [done|].
  destruct phase; try done; unfold abandon_unknown_model, abandon_unknown_compaction, abandon_unknown_tool,
    abandon_unknown_code_step, abandon_unknown_code_calls in E; repeat (inv_step E);
    first [apply (abandoned_ends _ _ [] _ E); [by intros ? [= <-]|constructor]
          |eapply abandoned_ends; [exact E|intros evs Hev; exact Hev|apply unavailable_results_answers]].
Qed.

Lemma cancelled_ends (phase : option LoopPhase) events results t :
  cancelled events = Ok t → message_events results = Ok events →
  Forall2 answers (waiting phase) results → ends_operation_of phase (ct_checkpoint t) (ct_events t).
Proof. unfold cancelled, terminal. intros E Hev HF. inv_ok E. subst. split; [done|]. by exists results. Qed.

Lemma cancelled_nothing (phase : option LoopPhase) t :
  cancelled [] = Ok t → waiting phase = [] → ends_operation_of phase (ct_checkpoint t) (ct_events t).
Proof. intros E Hw. apply (cancelled_ends _ _ [] _ E); [done|]. rewrite Hw. constructor. Qed.

Lemma cancel_current_ends l t p input c :
  cancel_current_tool l p input = Ok c →
  ends_operation_of (Some (AwaitingTool t p)) (ct_checkpoint c) (ct_events c).
Proof.
  unfold cancel_current_tool. intros E. do 4 inv_step E.
  apply result_bind_ok in E as (current & Hcur & (events & Hev & E)%result_bind_ok).
  eapply cancelled_ends; [exact E|done|]. cbn. constructor; [|apply remaining_answers].
  destruct x2 as [e|e|e].
  - injection Hcur as <-. apply unavailable_answers.
  - unfold settled_tool_result in Hcur. destruct (se_outcome e) as [v|m].
    + inv_step Hcur. case_match eqn:Eg; [done|]. injection Hcur as <-. split_bools. by eexists.
    + injection Hcur as <-. apply unavailable_answers.
  - injection Hcur as <-. apply unavailable_answers.
Qed.

Lemma cancel_ends l input t :
  cancel_loop l input = Ok t →
  ∃ phase : option LoopPhase, resumes (ci_checkpoint input) phase ∧
    ends_operation_of phase (ct_checkpoint t) (ct_events t).
Proof.
  unfold cancel_loop. destruct (ci_checkpoint input) as [saved|]; cbn [resumes].
  2: { intros E. inv_step E. exists None. split; [done|by apply cancelled_nothing]. }
  intros E. inv_step E. inv_step E. rename x into phase. exists (Some phase). split; [eauto|].
  destruct phase; try done.
  - inv_step E. by apply cancelled_nothing.
  - unfold cancel_model in E. repeat (inv_step E). by apply cancelled_nothing.
  - unfold cancel_compaction in E. repeat (inv_step E). by apply cancelled_nothing.
  - unfold cancel_compaction in E. repeat (inv_step E). by apply cancelled_nothing.
  - unfold cancel_planned_tools in E. inv_step E. inv_step E.
    eapply cancelled_ends; [exact E|done|apply unavailable_results_answers].
  - by eapply cancel_current_ends.
  - unfold cancel_code_step in E. do 5 inv_step E.
    eapply cancelled_ends; [exact E|done|apply unavailable_results_answers].
  - unfold cancel_code_calls in E. do 3 inv_step E.
    eapply cancelled_ends; [exact E|done|apply unavailable_results_answers].
Qed.
End runs.
