(* ===== verification/LoopBuilt.v ===== *)
(** * What [build_runtime] builds

    The runtime binds one adapter per effect the loop can request, under
    distinct names; nothing but the checks of [configuration.rs] refuses it. *)
From S2P Require Import Prelude Json State Runtime ReadTheorems Text Messages PendingTools TurnContext.
From S2P Require Import Compaction LoopFormat AgentLoop AgentDecide LoopRuntime LoopRefinement.
Section built.
#[local] Arguments runtime_new : simpl never.
Context `{JV : JsonValue} `{LS : !LoopSerde} `{HS : Hashing}.
Context {Model ToolHandle Evaluator : Type} (tool_spec : ToolHandle → ToolSpec).
Context `{!TextSerde DigestConfiguration}.
Abbreviation Adapter := (LoopAdapter Model ToolHandle Evaluator).
Abbreviation ToolBinding := (AgentToolBinding (ToolHandle:=ToolHandle)).
Abbreviation CodeBinding := (CodeModeBinding (ToolHandle:=ToolHandle) (Evaluator:=Evaluator)).
Implicit Types (b : ToolBinding) (tools : list ToolBinding).

Definition tool_name b : string := spec_name (tool_spec (tb_tool b)).
Definition bound_tool b : LoopTool :=
  {| lt_spec := tool_spec (tb_tool b); lt_effect_binding := tool_effect_binding (tool_name b);
     lt_recovery := tb_recovery b |}.
Definition bound_effect b : EffectBinding Adapter :=
  {| eb_name := tool_effect_binding (tool_name b); eb_revision := tb_revision b;
     eb_adapter := ToolAdapter (tb_tool b) |}.
Definition bound_digest b : DigestTool :=
  {| dt_revision := tb_revision b; dt_spec := tool_spec (tb_tool b); dt_recovery := tb_recovery b |}.

(** The tools [bind_tools] accepts. *)
Definition tools_distinct tools : Prop :=
  Forall (λ b, tool_name b ≠ "" ∧ tb_revision b ≠ "") tools ∧ NoDup (tool_name <$> tools).

Lemma bind_tools_spec tools : ∀ bound : BoundTools,
  match bind_tools tool_spec tools bound with
  | Ok bound' =>
      tools_distinct tools ∧ (∀ n, n ∈ tool_name <$> tools → n ∉ bt_names bound) ∧
      bound' = {| bt_names := bt_names bound ∪ list_to_set (tool_name <$> tools);
                  bt_loop := bt_loop bound ++ (bound_tool <$> tools);
                  bt_effects := bt_effects bound ++ (bound_effect <$> tools);
                  bt_digests := bt_digests bound ++ (bound_digest <$> tools) |}
  | Err _ => ¬ (tools_distinct tools ∧ ∀ n, n ∈ tool_name <$> tools → n ∉ bt_names bound)
  end.
Proof.
  unfold tools_distinct. induction tools as [|b tools IH]; intros bound; cbn.
  { rewrite !app_nil_r, (right_id_L ∅ (∪)). split_and!; try constructor.
    - by intros n ?%elem_of_nil.
    - by destruct bound. }
  fold (tool_name b). unfold is_empty.
  destruct (String.eqb_spec (tool_name b) "") as [Hn|Hn]; [by intros [[[[? _] _]%Forall_cons _] _]|].
  destruct (String.eqb_spec (tb_revision b) "") as [Hr|Hr]; [by intros [[[[_ ?] _]%Forall_cons _] _]|].
  case_decide as Hd; [intros [_ Ho]; by apply (Ho (tool_name b)); [left|]|].
  match goal with |- match bind_tools _ _ ?next with _ => _ end => specialize (IH next) end.
  destruct (bind_tools _ tools _) as [bound'|e]; cbn in IH.
  - destruct IH as ([HF HN] & Ho & ->). rewrite <- !app_assoc. cbn. split_and!.
    + by constructor.
    + constructor; [|done]. intros Hin. specialize (Ho _ Hin). set_solver.
    + intros n [->|Hin]%elem_of_cons; [done|]. specialize (Ho _ Hin). set_solver.
    + f_equal. set_solver.
  - intros ([[_ HF]%Forall_cons HN] & Ho). cbn in HN. apply NoDup_cons in HN as [Hnin HN]. apply IH.
    split_and!; try done. intros n Hin. specialize (Ho n ltac:(by right)). set_solver.
Qed.

(** ** Code Mode *)
Definition code_offered (names : list string) (k : CodeBinding) : Prop :=
  kb_revision k ≠ "" ∧ tool_name (kb_nested k) = "tool_execute" ∧ tb_revision (kb_nested k) ≠ "" ∧
  tb_recovery (kb_nested k) = NeverReplay ∧ (CODE_MODE_TOOL ∉ names) ∧ ("tool_execute" ∉ names).

Definition code_of (k : CodeBinding) : LoopCodeMode := {|
  lc_spec := code_mode_spec; lc_nested_name := tool_name (kb_nested k);
  lc_nested_binding := tool_effect_binding (tool_name (kb_nested k));
  lc_nested_recovery := tb_recovery (kb_nested k) |}.
Definition code_effects (k : CodeBinding) : list (EffectBinding Adapter) :=
  [{| eb_name := CODE_STEP_EFFECT_BINDING; eb_revision := kb_revision k;
      eb_adapter := EvaluatorAdapter (kb_evaluator k) |}; bound_effect (kb_nested k)].
Definition code_digest (k : CodeBinding) : DigestCodeMode := {|
  dc_revision := kb_revision k; dc_spec := code_mode_spec;
  dc_nested_revision := tb_revision (kb_nested k);
  dc_nested_spec := tool_spec (tb_tool (kb_nested k));
  dc_nested_recovery := tb_recovery (kb_nested k) |}.

Lemma prepare_code_mode_spec (k : CodeBinding) (names : list string) :
  match prepare_code_mode (Model:=Model) tool_spec k (list_to_set names) with
  | Ok pk => code_offered names k ∧ loop_code_mode pk = code_of k ∧ pk_effects pk = code_effects k ∧
             pk_digest pk = code_digest k
  | Err _ => ¬ code_offered names k
  end.
Proof.
  unfold prepare_code_mode, code_offered. cbv zeta. fold (tool_name (kb_nested k)). unfold is_empty.
  destruct (String.eqb_spec (kb_revision k) "") as [|H1]; [naive_solver|].
  destruct (String.eqb_spec (tool_name (kb_nested k)) "tool_execute") as [H2|]; [|naive_solver]. cbn [negb].
  destruct (String.eqb_spec (tb_revision (kb_nested k)) "") as [|H3]; [naive_solver|].
  case_bool_decide as H4; [|naive_solver]. cbn [negb]. rewrite H2.
  case_decide as H5; rewrite elem_of_list_to_set in H5; [naive_solver|].
  case_decide as H6; rewrite elem_of_list_to_set in H6; [naive_solver|].
  unfold code_of, code_effects, code_digest, bound_effect, loop_code_mode. cbn. rewrite H2. done.
Qed.

(** ** The effects of a runtime *)
Definition offered_effects (model : ModelBinding) tools (code : option CodeBinding)
    : list (EffectBinding Adapter) :=
  {| eb_name := MODEL_EFFECT_BINDING; eb_revision := mb_revision model;
     eb_adapter := ReplyAdapter (mb_model model) |}
  :: {| eb_name := COMPACTION_EFFECT_BINDING; eb_revision := mb_revision model;
        eb_adapter := SummaryAdapter (mb_model model) |}
  :: (bound_effect <$> tools) ++ from_option code_effects [] code.

Lemma tool_effect_binding_inj n1 n2 : tool_effect_binding n1 = tool_effect_binding n2 → n1 = n2.
Proof. apply (inj (String.append _)). Qed.
Lemma tool_effect_binding_starts n : starts_with (tool_effect_binding n) "renoa.agent.tool/" = true.
Proof. unfold starts_with, tool_effect_binding. by rewrite (proj2 (strip_prefix_Some _ _ n) eq_refl). Qed.

Lemma offered_names model tools (code : option CodeBinding) :
  (∀ k, code = Some k → code_offered (tool_name <$> tools) k) →
  eb_name <$> offered_effects model tools code =
  MODEL_EFFECT_BINDING :: COMPACTION_EFFECT_BINDING :: (tool_effect_binding <$> (tool_name <$> tools))
    ++ from_option (λ _, [CODE_STEP_EFFECT_BINDING; tool_effect_binding "tool_execute"]) [] code.
Proof.
  intros Hcode. unfold offered_effects. rewrite !fmap_cons, fmap_app, <- !list_fmap_compose.
  do 2 f_equal. f_equal. destruct code as [k|]; [|done]. destruct (Hcode _ eq_refl) as (_ & Hn & _).
  cbn. by rewrite Hn.
Qed.

Lemma tool_bindings_plain (names : list string) n :
  starts_with n "renoa.agent.tool/" = false → (n ∉ tool_effect_binding <$> names).
Proof. intros Hs (m & -> & _)%list_elem_of_fmap. by rewrite tool_effect_binding_starts in Hs. Qed.

Lemma offered_names_nodup model tools (code : option CodeBinding) :
  tools_distinct tools → (∀ k, code = Some k → code_offered (tool_name <$> tools) k) →
  NoDup (eb_name <$> offered_effects model tools code).
Proof.
  intros [_ HN] Hcode. rewrite offered_names by done.
  assert (NoDup (tool_effect_binding <$> (tool_name <$> tools))) as HN'.
  { apply NoDup_fmap_2_strong; [|done]. intros x y _ _. apply tool_effect_binding_inj. }
  assert (∀ n, starts_with n "renoa.agent.tool/" = false → n ≠ CODE_STEP_EFFECT_BINDING →
    n ∉ (tool_effect_binding <$> (tool_name <$> tools)) ++
        from_option (λ _, [CODE_STEP_EFFECT_BINDING; tool_effect_binding "tool_execute"]) [] code) as Hplain.
  { intros n Hs Hne. rewrite not_elem_of_app. split; [by apply tool_bindings_plain|].
    destruct code; cbn [from_option]; [|apply not_elem_of_nil].
    rewrite !not_elem_of_cons. split_and!; [done|by intros ->|apply not_elem_of_nil]. }
  constructor; [rewrite not_elem_of_cons; split; [done|by apply Hplain]|].
  constructor; [by apply Hplain|]. destruct code as [k|]; cbn [from_option]; [|by rewrite app_nil_r].
  destruct (Hcode _ eq_refl) as (_ & _ & _ & _ & _ & Hexec).
  apply NoDup_app. split_and!; [done| |repeat constructor; set_solver].
  intros n Hin. rewrite !not_elem_of_cons. split_and!.
  - intros ->. by apply tool_bindings_plain in Hin.
  - intros ->. apply list_elem_of_fmap in Hin as (m & Heq%tool_effect_binding_inj & Hm). by subst.
  - apply not_elem_of_nil.
Qed.

(** ** The runtime *)
Section build.
Context (config : AgentLoopConfig) (context : ContextBinding) (model : ModelBinding (Model:=Model)).
Context (tools : list ToolBinding) (code : option CodeBinding).

Definition digest_of : DigestConfiguration := {|
  dg_system_prompt := cfg_system_prompt config; dg_max_model_turns := cfg_max_model_turns config;
  dg_max_tool_calls_per_turn := cfg_max_tool_calls_per_turn config;
  dg_context_revision := xb_revision context; dg_model_recovery := mb_recovery model;
  dg_tools := bound_digest <$> tools; dg_code_mode := code_digest <$> code |}.

Definition built_loop : AgentLoop := {|
  al_config := config; al_context := xb_strategy context; al_model_recovery := mb_recovery model;
  al_tools := bound_tool <$> tools; al_code_mode := code_of <$> code |}.

(** What the caller has to offer. *)
Definition offered : Prop :=
  xb_revision context ≠ "" ∧ mb_revision model ≠ "" ∧ tools_distinct tools ∧
  (∀ k, code = Some k → code_offered (tool_name <$> tools) k) ∧ ∃ text, to_text digest_of = Ok text.

Definition built (rt : Runtime Adapter) : Prop :=
  rt_plugin rt = loop_plugin built_loop ∧ loop_binding (rt_manifest rt) = LOOP_BINDING ∧
  loop_revision (rt_manifest rt) = LOOP_REVISION ∧
  checkpoint_schema_version (rt_manifest rt) = CHECKPOINT_SCHEMA_VERSION ∧
  (∃ text, to_text digest_of = Ok text ∧ config_digest (rt_manifest rt) = hex_digest (sha256 text)) ∧
  (∀ name rev, effect_bindings (rt_manifest rt) !! name = Some rev ↔
     ∃ e, e ∈ offered_effects model tools code ∧ eb_name e = name ∧ eb_revision e = rev) ∧
  (∀ name rev a, resolve_effect rt name rev = Some a ↔
     ∃ e, e ∈ offered_effects model tools code ∧ eb_name e = name ∧ eb_revision e = rev ∧ eb_adapter e = a).

Lemma offered_named : offered → Forall named (offered_effects model tools code).
Proof.
  intros (_ & Hm & [HF _] & Hcode & _). unfold offered_effects. rewrite !Forall_cons, Forall_app. split_and!; try done.
  - apply Forall_fmap. eapply Forall_impl; [exact HF|]. intros b [_ ?]. by split.
  - destruct code as [k|]; [|constructor]. destruct (Hcode _ eq_refl) as (Hr & Hn & Hnr & _).
    cbn [from_option]. unfold code_effects. repeat constructor; try done.
Qed.

Lemma transpose_code : (tools_distinct tools) →
  match transpose (λ k, prepare_code_mode (Model:=Model) tool_spec k (∅ ∪ list_to_set (tool_name <$> tools))) code with
  | Ok pk => (∀ k, code = Some k → code_offered (tool_name <$> tools) k) ∧
      loop_code_mode <$> pk = code_of <$> code ∧ from_option pk_effects [] pk = from_option code_effects [] code ∧
      pk_digest <$> pk = code_digest <$> code
  | Err _ => ¬ ∀ k, code = Some k → code_offered (tool_name <$> tools) k
  end.
Proof.
  intros _. rewrite (left_id_L ∅ (∪)). destruct code as [k|]; cbn; [|done].
  pose proof (prepare_code_mode_spec k (tool_name <$> tools)) as HP. destruct (prepare_code_mode _ _ _); cbn.
  - destruct HP as (Ho & -> & -> & ->). split_and!; try done. by intros ? [= <-].
  - intros Hk. by apply HP, Hk.
Qed.

(** [build_runtime] succeeds exactly on what it is documented to accept; the kernel
    never refuses the bindings it offers. *)
Lemma build_spec :
  (∀ s, sha256 s ≠ "") →
  match build_runtime tool_spec config context model tools code with
  | Ok (l, rt) => offered ∧ l = built_loop ∧ built rt
  | Err _ => ¬ offered
  end.
Proof.
  intros Hsha. unfold build_runtime, is_empty.
  destruct (String.eqb_spec (xb_revision context) "") as [|Hx]; [by intros (? & _)|].
  destruct (String.eqb_spec (mb_revision model) "") as [|Hm]; [by intros (_ & ? & _)|].
  match goal with |- context [bind_tools _ _ ?b] => pose proof (bind_tools_spec tools b) as HB end.
  destruct (bind_tools _ tools _) as [bound|e]; cbn.
  2: { intros (_ & _ & Ht & _). apply HB. split; [done|]. cbn. set_solver. }
  destruct HB as (Ht & _ & ->). cbn. pose proof (transpose_code Ht) as HC.
  destruct (transpose _ code) as [pk|e]; cbn; [|by intros (_ & _ & _ & ? & _)].
  destruct HC as (Hcode & Hloop & Heff & Hdig). unfold digest_configuration. rewrite Hdig.
  fold digest_of. destruct (to_text digest_of) as [text|e] eqn:Etext; cbn.
  2: { intros (_ & _ & _ & _ & text & ?). congruence. }
  rewrite Heff, Hloop. fold (offered_effects model tools code). fold built_loop.
  assert (offered) as Ho by (split_and!; eauto).
  match goal with |- context [runtime_new ?lb ?n ?cfg ?es] => pose proof (runtime_new_spec lb n cfg es) as HR end.
  destruct (runtime_new _ _ _ _) as [rt|e]; cbn.
  - destruct HR as (Hp & Hb & Hr & Hn & Hd & _ & _ & _ & _ & _ & _ & Heb & Hre).
    split_and!; [done|done|]. unfold built. split_and!; try done. by exists text.
  - destruct HR. split_and!; try done.
    + by apply hex_digest_nonempty.
    + by apply offered_named.
    + by apply offered_names_nodup.
Qed.
End build.
End built.
