(* ===== verification/LoopConcrete.v ===== *)
(** * A concrete JSON library for the loop

    The codecs of the types of the loop, so that the laws of the serializers it
    relies on hold by construction. The theorems about the loop are
    instantiated with it. *)
From S2P Require Import Prelude Json State Text Messages PendingTools TurnContext Compaction LoopFormat.
From S2P Require Import AgentLoop AgentDecide LoopRuntime.
Module Json.

Export Codec.

(** ** The types of the loop *)

Definition c_call : codec ToolCall :=
  c_iso (c_prod (c_prod c_str c_str) (c_prod c_value (c_prod (c_opt c_str) (c_opt c_str))))
    (λ c, ((call_id c, call_name c), (call_arguments c, (call_thought_signature c, call_namespace c))))
    (λ '((i, n), (a, (t, s))), Some {| call_id := i; call_name := n; call_arguments := a;
       call_thought_signature := t; call_namespace := s |}) ltac:(by_cases).

Definition c_block : codec ContentBlock :=
  c_iso (c_sum c_str (c_prod c_str c_str))
    (λ b, match b with BlockText t => inl t | BlockImage d m => inr (d, m) end)
    (λ s, Some (match s with inl t => BlockText t | inr (d, m) => BlockImage d m end)) ltac:(by_cases).
Definition c_closing : codec Closing :=
  c_iso (c_prod c_str c_str) (λ c, (closing_message c, closing_not_run c))
    (λ '(m, n), Some {| closing_message := m; closing_not_run := n |}) ltac:(by_cases).
Definition c_result : codec ToolResult :=
  c_iso (c_prod (c_prod c_str c_str) (c_prod (c_list c_block)
           (c_prod (c_opt c_value) (c_prod c_bool (c_opt c_closing)))))
    (λ r, ((result_call_id r, result_name r), (result_content r,
           (result_details r, (result_is_error r, result_closing r)))))
    (λ '((i, n), (c, (d, (e, k)))), Some {| result_call_id := i; result_name := n; result_content := c;
       result_details := d; result_is_error := e; result_closing := k |}) ltac:(by_cases).
Definition c_content : codec AssistantContent :=
  c_iso (c_sum (c_prod c_str (c_opt c_str)) (c_sum (c_prod c_str (c_prod (c_opt c_str) c_bool)) c_call))
    (λ x, match x with
          | AssistantText t s => inl (t, s)
          | Reasoning t s r => inr (inl (t, (s, r)))
          | AssistantToolCall c => inr (inr c)
          end)
    (λ x, Some (match x with
                | inl (t, s) => AssistantText t s
                | inr (inl (t, (s, r))) => Reasoning t s r
                | inr (inr c) => AssistantToolCall c
                end)) ltac:(by_cases).
Definition c_stop : codec StopReason :=
  c_iso c_num (λ s, match s with Stop => 0 | ToolUse => 1 | Length => 2 end)
    (λ n, Some (match n with 0 => Stop | 1 => ToolUse | _ => Length end)) ltac:(by_cases).
Definition c_usage : codec TokenUsage :=
  c_iso (c_prod (c_prod c_num c_num) (c_prod c_num c_num))
    (λ u, ((usage_input u, usage_output u), (usage_cache_read u, usage_cache_write u)))
    (λ '((a, b), (c, d)), Some {| usage_input := a; usage_output := b; usage_cache_read := c;
       usage_cache_write := d |}) ltac:(by_cases).
Definition c_metadata : codec AssistantMetadata :=
  let o := c_opt c_str in
  c_iso (c_prod (c_prod o (c_prod o o)) (c_prod o (c_prod o o)))
    (λ m, ((meta_api m, (meta_provider m, meta_model m)),
           (meta_response_model m, (meta_response_id m, meta_raw_stop_reason m))))
    (λ '((a, (b, c)), (d, (e, f))), Some {| meta_api := a; meta_provider := b; meta_model := c;
       meta_response_model := d; meta_response_id := e; meta_raw_stop_reason := f |}) ltac:(by_cases).
Definition c_response : codec ModelResponse :=
  c_iso (c_prod (c_prod (c_list c_content) c_stop) (c_prod (c_opt c_usage) c_metadata))
    (λ r, ((resp_content r, resp_stop_reason r), (resp_usage r, resp_metadata r)))
    (λ '((c, s), (u, m)), Some {| resp_content := c; resp_stop_reason := s; resp_usage := u;
       resp_metadata := m |}) ltac:(by_cases).
Definition c_message : codec Message :=
  c_iso (c_sum (c_list c_block) (c_sum c_response c_result))
    (λ m, match m with
          | User c => inl c
          | Assistant c s u d => inr (inl {| resp_content := c; resp_stop_reason := s; resp_usage := u;
                                             resp_metadata := d |})
          | Tool r => inr (inr r)
          end)
    (λ x, Some (match x with
                | inl c => User c
                | inr (inl r) => Assistant (resp_content r) (resp_stop_reason r) (resp_usage r)
                                   (resp_metadata r)
                | inr (inr r) => Tool r
                end)) ltac:(by_cases).
Definition c_spec : codec ToolSpec :=
  c_iso (c_prod (c_prod c_str c_str) c_value)
    (λ s, ((spec_name s, spec_description s), spec_input_schema s))
    (λ '((n, d), i), Some {| spec_name := n; spec_description := d; spec_input_schema := i |})
    ltac:(by_cases).
Definition c_request : codec ModelRequest :=
  c_iso (c_prod c_str (c_prod (c_list c_message) (c_list c_spec)))
    (λ r, (req_system_prompt r, (req_messages r, req_tools r)))
    (λ '(p, (m, t)), Some {| req_system_prompt := p; req_messages := m; req_tools := t |}) ltac:(by_cases).
Definition c_plan : codec CompactionPlan :=
  c_iso (c_prod c_request c_num) (λ p, (plan_summary_request p, plan_covered_through_sequence p))
    (λ '(r, n), Some {| plan_summary_request := r; plan_covered_through_sequence := n |}) ltac:(by_cases).
Definition c_pending : codec PendingToolCalls :=
  c_iso (c_prod c_call (c_list c_call)) (λ p, (pt_current p, pt_remaining p))
    (λ '(c, r), Some {| pt_current := c; pt_remaining := r |}) ltac:(by_cases).
Definition c_run : codec CodeRun :=
  c_iso (c_prod c_str (c_prod c_num c_num)) (λ r, (run_id r, (wave r, total_calls r)))
    (λ '(i, (w, t)), Some {| run_id := i; wave := w; total_calls := t |}) ltac:(by_cases).
Definition c_step : codec CodeStep :=
  c_iso (c_sum c_str (c_prod c_str (c_map c_value)))
    (λ s, match s with Start t => inl t | Resume n r => inr (n, r) end)
    (λ s, Some (match s with inl t => Start t | inr (n, r) => Resume n r end)) ltac:(by_cases).
Definition c_step_request : codec CodeStepRequest :=
  c_iso (c_prod c_str c_step) (λ r, (csr_run_id r, csr_step r))
    (λ '(i, s), Some {| csr_run_id := i; csr_step := s |}) ltac:(by_cases).
Definition c_plugin_call : codec CodePluginCall :=
  c_iso (c_prod c_num (c_prod c_str c_value)) (λ c, (cp_call_id c, (cp_reference c, cp_arguments c)))
    (λ '(i, (r, a)), Some {| cp_call_id := i; cp_reference := r; cp_arguments := a |}) ltac:(by_cases).
Definition c_batch : codec CodeCallBatch :=
  c_iso (c_prod (c_list c_num) (c_map c_plugin_call)) (λ b, (cb_order b, cb_calls b))
    (λ '(o, c), Some {| cb_order := o; cb_calls := c |}) ltac:(by_cases).
Definition c_step_output : codec CodeStepOutput :=
  c_iso (c_sum (c_prod c_value c_bool) (c_prod c_str (c_list c_plugin_call)))
    (λ o, match o with CodeCompleted r e => inl (r, e) | Suspended s c => inr (s, c) end)
    (λ o, Some (match o with inl (r, e) => CodeCompleted r e | inr (s, c) => Suspended s c end))
    ltac:(by_cases).

(** The phases, by payload: a turn, a plan, or pending calls. *)
Definition c_phase : codec LoopPhase :=
  c_iso (c_sum (c_sum c_num c_num)
         (c_sum (c_sum (c_prod c_num (c_prod c_plan (c_prod c_num c_num))) (c_prod c_plan (c_prod c_num c_num)))
         (c_sum (c_sum (c_prod c_num c_pending) (c_prod c_num c_pending))
         (c_sum (c_sum (c_prod c_num (c_prod c_pending (c_prod c_run c_step_request)))
                       (c_prod c_num (c_prod c_pending (c_prod c_run (c_prod c_str c_batch)))))
          c_unit))))
    (λ p, match p with
          | NeedModel t => inl (inl t)
          | AwaitingModel t => inl (inr t)
          | AwaitingCompaction t p m a => inr (inl (inl (t, (p, (m, a)))))
          | AwaitingExplicitCompaction p m a => inr (inl (inr (p, (m, a))))
          | NeedTool t p => inr (inr (inl (inl (t, p))))
          | AwaitingTool t p => inr (inr (inl (inr (t, p))))
          | AwaitingCodeStep t p r q => inr (inr (inr (inl (inl (t, (p, (r, q)))))))
          | AwaitingCodeCalls t p r s c => inr (inr (inr (inl (inr (t, (p, (r, (s, c))))))))
          | Terminal => inr (inr (inr (inr tt)))
          end)
    (λ x, Some (match x with
                | inl (inl t) => NeedModel t
                | inl (inr t) => AwaitingModel t
                | inr (inl (inl (t, (p, (m, a))))) => AwaitingCompaction t p m a
                | inr (inl (inr (p, (m, a)))) => AwaitingExplicitCompaction p m a
                | inr (inr (inl (inl (t, p)))) => NeedTool t p
                | inr (inr (inl (inr (t, p)))) => AwaitingTool t p
                | inr (inr (inr (inl (inl (t, (p, (r, q))))))) => AwaitingCodeStep t p r q
                | inr (inr (inr (inl (inr (t, (p, (r, (s, c)))))))) => AwaitingCodeCalls t p r s c
                | inr (inr (inr (inr _))) => Terminal
                end)) ltac:(by_cases).
Definition c_output : codec ModelEffectOutput :=
  c_iso (c_sum c_response c_str)
    (λ o, match o with ModelCompleted r => inl r | ContextWindowExceeded m => inr m end)
    (λ o, Some (match o with inl r => ModelCompleted r | inr m => ContextWindowExceeded m end))
    ltac:(by_cases).
Definition c_timing : codec TurnTimingWire :=
  c_iso (c_prod c_str (c_prod c_num (c_opt c_num)))
    (λ t, (ttw_observed_at t, (ttw_observed_at_unix_ms t, ttw_elapsed t)))
    (λ '(a, (b, c)), Some {| ttw_observed_at := a; ttw_observed_at_unix_ms := b; ttw_elapsed := c |})
    ltac:(by_cases).
Definition c_contribution : codec ContributionWire :=
  c_iso (c_prod c_str c_str) (λ c, (cw_source c, cw_text c))
    (λ '(s, t), Some {| cw_source := s; cw_text := t |}) ltac:(by_cases).
Definition c_command : codec AgentCommandWire :=
  c_iso (c_opt (c_prod (c_prod (c_list c_block) (c_opt c_timing))
           (c_prod (c_opt c_num) (c_prod (c_opt (c_list c_contribution)) c_bool))))
    (λ w, match w with
          | WirePrompt p => Some ((pc_content p, pc_turn_timing p),
                                  (pc_observed_at_unix_ms p, (pc_context p, pc_receipted p)))
          | WireControl => None
          end)
    (λ o, Some (match o with
                | Some ((a, b), (c, (d, e))) => WirePrompt {| pc_content := a; pc_turn_timing := b;
                    pc_observed_at_unix_ms := c; pc_context := d; pc_receipted := e |}
                | None => WireControl
                end)) ltac:(let x := fresh in intros x; destruct x as [[]|]; done).

(** ** Serializers *)
Definition serde {A} (c : codec A) (read : A → A) : ValueSerde A := {|
  to_value a := Ok (enc c a);
  from_value v := match dec c v with Some a => Ok (read a) | None => Err "invalid" end |}.

Lemma serde_laws {A} (c : codec A) read : @ValueSerdeLaws _ A (serde c read) read.
Proof. intros a v [= <-]. cbn. by rewrite dec_enc. Qed.

(** The counters of a response are [u64]. *)
Definition natural_usage (u : TokenUsage) : bool :=
  (0 <=? usage_input u) && (0 <=? usage_output u) && (0 <=? usage_cache_read u) && (0 <=? usage_cache_write u).
Definition natural_output (o : ModelEffectOutput) : bool :=
  match o with
  | ModelCompleted r => from_option natural_usage true (resp_usage r)
  | ContextWindowExceeded _ => true
  end.
Definition read_natural (o : option ModelEffectOutput) : Result string ModelEffectOutput :=
  match o with
  | Some o => if natural_output o then Ok o else Err "invalid"
  | None => Err "invalid"
  end.
Definition output_value : ValueSerde ModelEffectOutput := {|
  to_value o := if natural_output o then Ok (enc c_output o) else Err "invalid";
  from_value v := read_natural (dec c_output v) |}.
Lemma output_value_laws : @ValueSerdeLaws _ _ output_value id.
Proof.
  intros o v. unfold to_value, from_value, output_value, read_natural.
  destruct (natural_output o) eqn:E; [|done]. intros Heq.
  assert (v = enc c_output o) as -> by congruence. rewrite (dec_enc c_output). by rewrite E.
Qed.
Lemma output_value_natural v r u :
  read_natural (dec c_output v) = Ok (ModelCompleted r) → resp_usage r = Some u → natural_usage u = true.
Proof.
  destruct (dec c_output v) as [o|]; [|done]. unfold read_natural.
  destruct (natural_output o) eqn:E; [|done]. intros [= ->] Hu. cbn in E. by rewrite Hu in E.
Qed.

(** The identities of an evaluator's calls are read as [u32]. *)
Definition u32_output (o : CodeStepOutput) : bool :=
  match o with
  | Suspended _ calls => forallb (λ c, (0 <=? cp_call_id c) && (cp_call_id c <=? u32_max)) calls
  | CodeCompleted _ _ => true
  end.
Definition read_output (o : option CodeStepOutput) : Result string CodeStepOutput :=
  match o with
  | Some o => if u32_output o then Ok o else Err "invalid"
  | None => Err "invalid"
  end.
Definition code_output_value : ValueSerde CodeStepOutput :=
  {| to_value o := Ok (enc c_step_output o); from_value v := read_output (dec c_step_output v) |}.
Lemma code_output_ids v snapshot calls :
  read_output (dec c_step_output v) = Ok (Suspended snapshot calls) →
  Forall (λ c, 0 ≤ cp_call_id c ≤ u32_max) calls.
Proof.
  destruct (dec c_step_output v) as [o|]; [|done]. unfold read_output.
  destruct (u32_output o) eqn:E; [|done]. intros [= ->]. cbn in E. rewrite forallb_forall in E.
  apply Forall_forall. intros c Hc%list_elem_of_In. specialize (E c Hc). split_bools. lia.
Qed.

Definition text {A} (c : codec A) : TextSerde A := {| to_text a := Ok (json_text (enc c a)) |}.

#[export] Instance json_serde : LoopSerde := {
  message_serde := serde c_message read_message;
  phase_serde := serde c_phase read_phase;
  output_serde := output_value;
  request_serde := serde c_request read_request;
  call_serde := serde c_call id;
  result_serde := serde c_result read_result;
  result_text := text c_result;
  code_input_serde := serde (c_iso c_str code_source (λ s, Some {| code_source := s |}) ltac:(by_cases)) id;
  code_request_serde := serde c_step_request id;
  code_output_serde := code_output_value;
  command_wire_serde := serde c_command id;
  timing_wire_serde := serde c_timing id;
  context_wire_serde := serde (c_iso (c_list c_contribution) tce_entries
                                 (λ l, Some {| tce_entries := l |}) ltac:(by_cases)) id;
  checkpoint_event_serde := serde (c_iso (c_prod c_num c_str)
    (λ e, (cce_covered_through_sequence e, cce_summary e))
    (λ '(n, s), Some {| cce_covered_through_sequence := n; cce_summary := s |}) ltac:(by_cases)) id;
  compaction_result_serde := serde (c_iso c_num cr_estimated_input_tokens
                                      (λ n, Some {| cr_estimated_input_tokens := n |}) ltac:(by_cases)) id;
}.

#[export] Instance json_laws : LoopSerdeLaws.
Proof. split; try apply serde_laws. apply output_value_laws. Qed.

#[export] Instance json_hashing : Hashing := {
  sha256 s := "h" +:+ s;
  operation_text id := show (Z.of_N (uuid id)) }.
Lemma sha256_nonempty s : sha256 s ≠ "".
Proof. done. Qed.
End Json.

(** * One operation of a built loop

    A prompt, a tool call and a reply, run with the concrete JSON library; the
    theorems about runs are instantiated on it. *)
From S2P Require Import Runtime LoopRefinement LoopRuns LoopBuilt.
Module LoopScenario.
Import Json.

#[export] Instance digest_text : TextSerde DigestConfiguration := {| to_text d := Ok (dg_system_prompt d) |}.

(** ** A runtime with one tool; a tool handle is its specification. *)
Definition read_spec : ToolSpec :=
  {| spec_name := "read"; spec_description := "Reads a file."; spec_input_schema := JNull |}.
Definition config : AgentLoopConfig :=
  {| cfg_system_prompt := "Help."; cfg_max_model_turns := Some 3; cfg_max_tool_calls_per_turn := 2 |}.
Definition model : ModelBinding (Model:=unit) :=
  {| mb_revision := "1"; mb_model := tt; mb_recovery := SafeToReplay |}.
Definition read_tool : AgentToolBinding (ToolHandle:=ToolSpec) :=
  {| tb_revision := "1"; tb_tool := read_spec; tb_recovery := NeverReplay |}.
Definition no_code : option (CodeModeBinding (ToolHandle:=ToolSpec) (Evaluator:=unit)) := None.

Definition built_runtime := build_runtime id config full_history model [read_tool] no_code.
Definition a_loop : AgentLoop := built_loop id config full_history model [read_tool] no_code.

Definition decided (i : LoopInput) : LoopDecision :=
  match decide_loop a_loop i with
  | Ok d => d
  | Err reason => FailOperation {| schema_version := 0; state := JNull |} [] reason
  end.
Lemma decided_ok i : is_ok (decide_loop a_loop i) = true → decide_loop a_loop i = Ok (decided i).
Proof. unfold decided. by destruct (decide_loop a_loop i). Qed.

(** ** Inputs *)
Definition op : OperationId := MkId 7.
Definition manifest : RuntimeManifest :=
  {| loop_binding := LOOP_BINDING; loop_revision := LOOP_REVISION;
     checkpoint_schema_version := CHECKPOINT_SCHEMA_VERSION; effect_bindings := ∅; config_digest := "d" |}.
Definition prompt : Command := {|
  command_id := MkId 1;
  content := enc c_command (encode_command
    {| ac_kind := Prompt [BlockText "What is in the file?"] Unobserved |}) |}.

Fixpoint stored (sequence : Z) (events : list NewEvent) : list SemanticEvent :=
  match events with
  | [] => []
  | e :: rest => {| sev_event_id := MkId (Z.to_N sequence); sev_operation_id := op; sev_command_id := MkId 1;
                    sev_sequence := sequence; sev_kind := kind e; sev_payload := payload e |} :: stored (sequence + 1) rest
  end.

Definition input (events : list NewEvent) (saved : option Checkpoint)
    (settled : option (string * Value * EffectOutcome)) : LoopInput := {|
  li_agent_id := MkId 1; li_session_id := MkId 2; li_operation_id := op; li_runtime_manifest := manifest;
  li_command := prompt; li_events := stored 1 events; li_checkpoint := saved;
  li_effect_batch := (λ '(binding, request, outcome), {|
    sb_batch_id := MkId 1;
    sb_effects := [{| se_effect_id := MkId 1; se_binding := binding; se_binding_revision := "1";
                      se_request := request; se_outcome := outcome |}] |}) <$> settled |}.

(** ** Decisions *)
Definition settled_with (d : LoopDecision) (v : Value) : option (string * Value * EffectOutcome) :=
  match d with
  | InvokeEffects _ [e] => Some (er_binding e, er_request e, Success v)
  | _ => None
  end.
Definition respond (content : list AssistantContent) (stop : StopReason) : Value :=
  enc c_output (ModelCompleted {| resp_content := content; resp_stop_reason := stop;
    resp_usage := Some {| usage_input := 10; usage_output := 5; usage_cache_read := 0; usage_cache_write := 0 |};
    resp_metadata := default_metadata |}).
Definition the_call : ToolCall :=
  {| call_id := "call-1"; call_name := "read"; call_arguments := JNull; call_thought_signature := None;
     call_namespace := None |}.
Definition the_result : ToolResult :=
  {| result_call_id := "call-1"; result_name := "read"; result_content := [BlockText "42"];
     result_details := None; result_is_error := false; result_closing := None |}.

Definition saved (d : LoopDecision) : option Checkpoint := Some (decision_checkpoint d).
Definition i1 := input [] None None.
Definition d1 := decided i1.
Definition h1 := decision_events d1.
Definition i2 := input h1 (saved d1) None.
Definition d2 := decided i2.
Definition i3 := input h1 (saved d2) (settled_with d2 (respond [AssistantToolCall the_call] ToolUse)).
Definition d3 := decided i3.
Definition h3 := h1 ++ decision_events d3.
Definition i4 := input h3 (saved d3) None.
Definition d4 := decided i4.
Definition i5 := input h3 (saved d4) (settled_with d4 (enc c_result the_result)).
Definition d5 := decided i5.
Definition h5 := h3 ++ decision_events d5.
Definition i6 := input h5 (saved d5) None.
Definition d6 := decided i6.
Definition i7 := input h5 (saved d6) (settled_with d6 (respond [AssistantText "It holds 42." None] Stop)).
Definition d7 := decided i7.

Lemma step ds i : loop_run a_loop ds (li_checkpoint i) → is_ok (decide_loop a_loop i) = true →
  loop_run a_loop (ds ++ [decided i]) (saved (decided i)).
Proof. intros Hr Hok. eapply run_decide; [exact Hr|done|by apply decided_ok]. Qed.

(** The run up to the tool request, and to its end. *)
Lemma asked_run : loop_run a_loop [d1; d2; d3; d4] (saved d4).
Proof.
  apply (step [d1; d2; d3] i4); [|vm_compute; reflexivity]. apply (step [d1; d2] i3); [|vm_compute; reflexivity].
  apply (step [d1] i2); [|vm_compute; reflexivity]. apply (step [] i1); [constructor|vm_compute; reflexivity].
Qed.
Lemma whole_run : loop_run a_loop [d1; d2; d3; d4; d5; d6; d7] (saved d7).
Proof.
  apply (step [d1; d2; d3; d4; d5; d6] i7); [|vm_compute; reflexivity].
  apply (step [d1; d2; d3; d4; d5] i6); [|vm_compute; reflexivity].
  apply (step [d1; d2; d3; d4] i5); [|vm_compute; reflexivity]. exact asked_run.
Qed.

Lemma a_loop_typed : typed_loop a_loop.
Proof.
  split; cbn.
  - intros limit [= <-]. done.
  - done.
  - intros i plan m. cbn. done.
  - done.
  - apply code_output_ids.
Qed.

(** What the run says: four messages, the last one a reply. *)
Lemma whole_run_roles :
  role <$> messages_of (run_events [d1; d2; d3; d4; d5; d6; d7]) =
  [RoleUser; RoleAssistant; RoleTool; RoleAssistant].
Proof. vm_compute. reflexivity. Qed.

(** Cancelling while the tool runs. *)
Definition cancellation : CancellationInput := {|
  ci_agent_id := MkId 1; ci_session_id := MkId 2; ci_operation_id := op; ci_command := prompt;
  ci_events := stored 1 h3; ci_checkpoint := saved d4;
  ci_effect_batch := match d4 with
    | InvokeEffects _ [e] => Some {| bf_batch_id := MkId 1; bf_effects := [FactUnknown
        {| ue_effect_id := MkId 1; ue_binding := er_binding e; ue_binding_revision := "1";
           ue_request := er_request e |}] |}
    | _ => None
    end |}.

(** The runtime the loop runs in. *)
Lemma built_ok : ∃ rt, built_runtime = Ok (a_loop, rt).
Proof.
  pose proof (build_spec id config full_history model [read_tool] no_code sha256_nonempty) as HB.
  unfold built_runtime. assert (is_ok (build_runtime id config full_history model [read_tool] no_code) = true)
    as Hok by (vm_compute; reflexivity).
  destruct (build_runtime _ _ _ _ _ _) as [[l rt]|e]; [|done]. destruct HB as (_ & -> & _). by exists rt.
Qed.
End LoopScenario.
