(* ===== verification/PlanningTheorems.v ===== *)
(** * Compaction planning: safe, least destructive, dispatchable

    The two laws the documentation asks of a host: a sizer never reports less
    for a request that was extended without removing content, and a projector
    keeps that property. *)
From S2P Require Import Prelude Json State Text Messages PendingTools TurnContext Compaction PlanningFacts.
From S2P Require Import LoopFormat LoopConcrete.
Section laws.
Context `{JV : JsonValue}.

(** [text_extends s s']: [s'] is [s] with characters added anywhere. *)
Definition text_extends (s s' : string) : Prop := ascii_list s `sublist_of` ascii_list s'.

Inductive message_extends : Message → Message → Prop :=
| extend_same m : message_extends m m
| extend_text s s' : text_extends s s' → message_extends (user_text s) (user_text s').

Inductive messages_extend : list Message → list Message → Prop :=
| extend_nil : messages_extend [] []
| extend_cons m m' l l' :
    message_extends m m' → messages_extend l l' → messages_extend (m :: l) (m' :: l')
| extend_skip m' l l' : messages_extend l l' → messages_extend l (m' :: l').

Definition request_extends (r r' : ModelRequest) : Prop :=
  req_system_prompt r = req_system_prompt r' ∧ req_tools r = req_tools r' ∧
  messages_extend (req_messages r) (req_messages r').

(** [ContextSizer]: estimates must not decrease when a request is extended
    without removing existing content. *)
Definition sizer_monotone (sizer : ContextSizer) : Prop :=
  ∀ r r', request_extends r r' → sizer r ≤ sizer r'.

(** [ContextProjector]: extending the candidate without removing messages
    cannot reduce the projected estimate. *)
Definition projector_monotone (sizer : ContextSizer) (projector : ContextProjector) : Prop :=
  ∀ prompt tools ms ms' out out',
    messages_extend ms ms' → cp_project projector ms = Ok out → cp_project projector ms' = Ok out' →
    sizer {| req_system_prompt := prompt; req_messages := out; req_tools := tools |}
    ≤ sizer {| req_system_prompt := prompt; req_messages := out'; req_tools := tools |}.

Lemma sublist_extends l l' : l `sublist_of` l' → messages_extend l l'.
Proof. induction 1; constructor; auto. constructor. Qed.

Lemma unchanged_monotone sizer : sizer_monotone sizer → projector_monotone sizer UnchangedMessages.
Proof. intros Hs prompt tools ms ms' out out' He [= <-] [= <-]. by apply Hs. Qed.

Lemma ascii_list_app s t : ascii_list (s +:+ t) = ascii_list s ++ ascii_list t.
Proof.
  induction s as [|a s IH]; [done|].
  change (ascii_list (String a s +:+ t)) with (a :: ascii_list (s +:+ t)). by rewrite IH.
Qed.
End laws.

(** ** Sorted sequences *)
Lemma sorted_lookup {A} (R : A → A → Prop) l i j a b :
  StronglySorted R l → l !! i = Some a → l !! j = Some b → (i < j)%nat → R a b.
Proof.
  intros HS. revert i j. induction HS as [|x l HS IH HF]; intros i j Ha Hb Hij; [done|].
  destruct j as [|j]; [lia|]. destruct i as [|i]; cbn in *.
  - simplify_eq. by eapply Forall_lookup_1.
  - eapply IH; eauto. lia.
Qed.

Lemma sorted_app {A} (R : A → A → Prop) l1 l2 :
  StronglySorted R (l1 ++ l2) →
  StronglySorted R l2 ∧ ∀ a b, a ∈ l1 → b ∈ l2 → R a b.
Proof.
  induction l1 as [|x l1 IH]; cbn; intros HS; [split; [done|]; intros ? ? []%elem_of_nil|].
  apply StronglySorted_cons in HS as [HF HS]. destruct (IH HS) as [HS2 HR]. split; [done|].
  intros a b [->|Ha]%elem_of_cons Hb; [|eauto].
  eapply Forall_forall; [exact HF|]. apply elem_of_app. by right.
Qed.

Lemma collect_app_ok {E A B} (f : A → Result E B) l1 l2 r :
  collect f (l1 ++ l2) = Ok r → ∃ r1 r2, collect f l1 = Ok r1 ∧ r = r1 ++ r2.
Proof.
  revert r. induction l1 as [|a l1 IH]; intros r; cbn; [by eexists [], r|].
  intros (b & Hb & (bs & Hbs & [= <-])%result_bind_ok)%result_bind_ok.
  destruct (IH _ Hbs) as (r1 & r2 & E1 & ->). rewrite Hb. cbn. rewrite E1. by eexists (b :: r1), r2.
Qed.

Section planning.
Context `{JV : JsonValue} `{Hashing} `{!TextSerde ToolResult}.
Implicit Types (e : ContextEntry) (entries : list ContextEntry).

Definition by_sequence (a b : ContextEntry) : Prop := entry_sequence a < entry_sequence b.

(** ** Monotonicity of the candidates *)
Lemma summary_request_extends previous l1 l2 r' :
  summary_request previous (l1 ++ l2) = Ok r' →
  ∃ r, summary_request previous l1 = Ok r ∧ request_extends r r'.
Proof.
  unfold summary_request. intros (ts & Hts & [= <-])%result_bind_ok.
  destruct (collect_app_ok _ _ _ _ Hts) as (t1 & t2 & -> & ->). eexists. split; [done|].
  split_and!; [done|done|]. cbn. constructor; [|constructor]. constructor. unfold text_extends.
  rewrite !ascii_list_app, concat_chars_app, ascii_list_app, <- app_assoc.
  do 2 (apply sublist_app; [done|]). by apply sublist_inserts_l.
Qed.

Lemma summary_at_extends entries checkpoint c c' r' :
  (c ≤ c')%nat → summary_at entries checkpoint c' = Ok r' →
  ∃ r, summary_at entries checkpoint c = Ok r ∧ request_extends r r'.
Proof.
  intros Hle. unfold summary_at.
  rewrite <- (take_drop (S c) (take (S c') entries)), take_take, Nat.min_l by lia.
  apply summary_request_extends.
Qed.

Lemma sorted_cuts cuts i j :
  StronglySorted lt cuts → (i ≤ j < length cuts)%nat → (cuts !!! i ≤ cuts !!! j)%nat.
Proof.
  intros HS Hij. destruct (decide (i = j)) as [->|Hne]; [lia|].
  destruct (lookup_lt_is_Some_2 cuts i) as [a Ha]; [lia|].
  destruct (lookup_lt_is_Some_2 cuts j) as [b Hb]; [lia|].
  rewrite (list_lookup_total_correct _ _ _ Ha), (list_lookup_total_correct _ _ _ Hb).
  pose proof (sorted_lookup _ _ _ _ _ _ HS Ha Hb ltac:(lia)). lia.
Qed.

Lemma summary_fits_down entries checkpoint cuts limit sizer :
  sizer_monotone sizer → StronglySorted lt cuts →
  ∀ i j, (i ≤ j < length cuts)%nat →
    summary_fits entries checkpoint cuts limit sizer j = true →
    summary_fits entries checkpoint cuts limit sizer i = true.
Proof.
  intros Hm HS i j Hij. unfold summary_fits.
  destruct (summary_at entries checkpoint (cuts !!! j)) as [r'|] eqn:Ej; [|done]. intros Hle.
  destruct (summary_at_extends _ _ _ _ _ (sorted_cuts _ _ _ HS Hij) Ej) as (r & -> & Hx).
  apply Hm in Hx. apply Z.leb_le in Hle. apply Z.leb_le. lia.
Qed.

(** The retained messages at a cut. *)
Definition retained entries anchor c : list Message :=
  (if entry_sequence anchor <=? entry_sequence (entries !!! c) then [entry_message anchor] else [])
  ++ (entry_message <$> drop (S c) entries).

Lemma retained_sublist entries anchor pre c c' :
  StronglySorted by_sequence (pre ++ entries) → anchor ∈ pre ++ entries →
  (c ≤ c' < length entries)%nat → retained entries anchor c' `sublist_of` retained entries anchor c.
Proof.
  intros HS Hanc Hc. unfold retained. destruct (sorted_app _ _ _ HS) as [HE HR].
  destruct (lookup_lt_is_Some_2 entries c) as [a Ha]; [lia|].
  destruct (lookup_lt_is_Some_2 entries c') as [b Hb]; [lia|].
  rewrite (list_lookup_total_correct _ _ _ Ha), (list_lookup_total_correct _ _ _ Hb).
  assert (entry_message <$> drop (S c') entries `sublist_of` entry_message <$> drop (S c) entries) as Hd.
  { apply fmap_sublist. replace (S c') with (S c + (c' - c))%nat by lia. rewrite <- drop_drop.
    apply sublist_drop. }
  assert (entry_sequence a ≤ entry_sequence b) as Hab.
  { destruct (decide (c = c')) as [->|]; [simplify_eq; lia|].
    pose proof (sorted_lookup _ _ _ _ _ _ HE Ha Hb ltac:(lia)) as Hlt. unfold by_sequence in Hlt. lia. }
  destruct (Z.leb_spec (entry_sequence anchor) (entry_sequence b)) as [Hle'|Hgt'],
    (Z.leb_spec (entry_sequence anchor) (entry_sequence a)) as [Hle|Hgt]; cbn; try lia;
    [by apply sublist_skip| |done].
  apply elem_of_app in Hanc as [Hanc|Hanc].
  { apply list_elem_of_lookup_2 in Ha. specialize (HR _ _ Hanc Ha). unfold by_sequence in HR. lia. }
  apply list_elem_of_lookup in Hanc as [k Hk].
  assert (c < k ≤ c')%nat as Hkc.
  { destruct (Nat.lt_trichotomy k c) as [?|[->|?]].
    - pose proof (sorted_lookup _ _ _ _ _ _ HE Hk Ha ltac:(lia)) as ?. unfold by_sequence in *. lia.
    - simplify_eq. lia.
    - split; [done|]. destruct (Nat.le_gt_cases k c') as [|]; [done|].
      pose proof (sorted_lookup _ _ _ _ _ _ HE Hb Hk ltac:(lia)) as ?. unfold by_sequence in *. lia. }
  change (entry_message anchor :: (entry_message <$> drop (S c') entries))
    with (entry_message <$> anchor :: drop (S c') entries). apply fmap_sublist.
  assert (anchor :: drop (S c') entries `sublist_of` drop k entries) as Hak.
  { rewrite (drop_S _ _ _ Hk). apply sublist_skip.
    replace (S c') with (S k + (c' - k))%nat by lia. rewrite <- drop_drop. apply sublist_drop. }
  etrans; [exact Hak|]. replace k with (S c + (k - S c))%nat by lia. rewrite <- drop_drop.
  apply sublist_drop.
Qed.

(** The anchor of the active operation is retained at every cut. *)
Lemma anchor_retained entries anchor pre c :
  StronglySorted by_sequence (pre ++ entries) → anchor ∈ pre ++ entries →
  (c < length entries)%nat → entry_message anchor ∈ retained entries anchor c.
Proof.
  intros HS Hanc Hc. unfold retained. destruct (sorted_app _ _ _ HS) as [HE HR].
  destruct (lookup_lt_is_Some_2 entries c Hc) as [a Ha].
  rewrite (list_lookup_total_correct _ _ _ Ha).
  destruct (Z.leb_spec (entry_sequence anchor) (entry_sequence a)) as [Hle|Hgt]; [by left|].
  apply elem_of_app in Hanc as [Hanc|Hanc].
  { apply list_elem_of_lookup_2 in Ha. specialize (HR _ _ Hanc Ha). unfold by_sequence in HR. lia. }
  apply list_elem_of_lookup in Hanc as [k Hk]. cbn. apply list_elem_of_fmap_2.
  assert (c < k)%nat as Hk'.
  { destruct (Nat.lt_trichotomy k c) as [?|[->|?]]; [|simplify_eq; lia|done].
    pose proof (sorted_lookup _ _ _ _ _ _ HE Hk Ha ltac:(lia)) as ?. unfold by_sequence in *. lia. }
  apply list_elem_of_lookup. exists (k - S c)%nat. rewrite lookup_drop.
  by replace (S c + (k - S c))%nat with k by lia.
Qed.

Lemma tail_misses_down entries anchor pre cuts sizing :
  StronglySorted by_sequence (pre ++ entries) → anchor ∈ pre ++ entries →
  StronglySorted lt cuts → Forall (λ c, (c < length entries)%nat) cuts →
  sizer_monotone (ts_sizer sizing) →
  from_option (projector_monotone (ts_sizer sizing)) True (ts_projector sizing) →
  ∀ i j r', (i ≤ j < length cuts)%nat → projected_tail entries anchor (cuts !!! j) sizing = Ok r' →
    ts_budget sizing < ts_sizer sizing r' → tail_fits entries cuts anchor sizing i = false.
Proof.
  intros HS Hanc HC HF Hm Hp i j r' Hij Hj Hgt. unfold tail_fits.
  destruct (projected_tail entries anchor (cuts !!! i) sizing) as [r|] eqn:Ei; [|done].
  apply Z.leb_gt. enough (ts_sizer sizing r' ≤ ts_sizer sizing r) by lia.
  assert (messages_extend (model_visible_messages (retained entries anchor (cuts !!! j)))
            (model_visible_messages (retained entries anchor (cuts !!! i)))) as Hx.
  { apply sublist_extends, fmap_sublist, (retained_sublist _ _ pre); [done..|].
    split; [by apply sorted_cuts|]. apply (Forall_lookup_total_1 _ _ _ HF). lia. }
  unfold projected_tail in Ei, Hj. destruct (ts_projector sizing) as [projector|].
  - apply result_bind_ok in Ei as (out & Eo & [= <-]), Hj as (out' & Eo' & [= <-]).
    apply map_err_ok in Eo, Eo'. by eapply Hp; [|exact Eo'|exact Eo].
  - simplify_eq. by apply Hm.
Qed.

(** ** The reference: linear scans *)
Definition reference_choice entries checkpoint cuts anchor (limit : Z) (sizer : ContextSizer)
    (sizing : TailSizing) : option nat :=
  last_fit ← last (List.filter (summary_fits entries checkpoint cuts limit sizer) (seq 0 (length cuts)));
  Some (default last_fit
          (head (List.filter (tail_fits entries cuts anchor sizing) (seq 0 (S last_fit))))).

Lemma filter_seq_below f n m k :
  (∀ i, (k ≤ i < k + m)%nat → f i = (i <? k + n)%nat) → (n ≤ m)%nat →
  List.filter f (seq k m) = seq k n.
Proof.
  revert k n. induction m as [|m IH]; intros k n Hf Hn; cbn.
  { by replace n with 0%nat by lia. }
  rewrite (Hf k) by lia. destruct n as [|n].
  - destruct (Nat.ltb_spec k (k + 0)); [lia|]. apply (IH (S k) 0%nat); [|lia].
    intros i Hi. rewrite Hf by lia. destruct (Nat.ltb_spec i (k + 0)), (Nat.ltb_spec i (S k + 0)); lia.
  - destruct (Nat.ltb_spec k (k + S n)); [|lia]. cbn. f_equal. apply IH; [|lia].
    intros i Hi. rewrite Hf by lia. by replace (k + S n)%nat with (S k + n)%nat by lia.
Qed.

Lemma last_seq n : last (seq 0 n) = match n with O => None | S i => Some i end.
Proof. destruct n as [|n]; [done|]. by rewrite seq_S, last_snoc. Qed.

Lemma head_filter_seq f m k :
  match head (List.filter f (seq k m)) with
  | Some i => (k ≤ i < k + m)%nat ∧ f i = true ∧ ∀ j, (k ≤ j < i)%nat → f j = false
  | None => ∀ j, (k ≤ j < k + m)%nat → f j = false
  end.
Proof.
  revert k. induction m as [|m IH]; intros k; cbn; [intros; lia|].
  destruct (f k) eqn:Ef; cbn; [split_and!; [lia|lia|done|intros; lia]|].
  specialize (IH (S k)). destruct (head _) as [i|].
  - destruct IH as (Hi & Hf & Hb). split_and!; [lia|lia|done|]. intros j Hj.
    destruct (decide (j = k)) as [->|]; [done|]. apply Hb. lia.
  - intros j Hj. destruct (decide (j = k)) as [->|]; [done|]. apply IH. lia.
Qed.

Lemma after_sequence_split n entries rest :
  after_sequence n entries = Some rest →
  ∃ pre e, entries = pre ++ [e] ++ rest ∧ entry_sequence e = n.
Proof.
  induction entries as [|e entries IH]; cbn; [done|].
  destruct (Z.eqb_spec (entry_sequence e) n) as [Heq|]; [intros [= ->]; by exists [], e|].
  intros Hr. destruct (IH Hr) as (pre & e' & -> & ?). by exists (e :: pre), e'.
Qed.

Lemma entries_after_split all checkpoint entries :
  entries_after_checkpoint all checkpoint = Ok entries →
  ∃ pre, all = pre ++ entries ∧
    ∀ c, checkpoint = Some c → ∃ e, e ∈ pre ∧ entry_sequence e = cck_covered_through_sequence c.
Proof.
  unfold entries_after_checkpoint. destruct checkpoint as [c|]; [|intros [= ->]; by exists []].
  case_match; [done|]. intros (pre & e & -> & He)%ok_or_ok%after_sequence_split.
  exists (pre ++ [e]). split; [by rewrite <- app_assoc|]. intros c' [= <-]. exists e.
  split; [apply elem_of_app; right; by left|done].
Qed.

Lemma active_user_anchor_elem all active anchor :
  active_user_anchor all active = Ok anchor →
  anchor ∈ all ∧ entry_operation_id anchor = active ∧ is_user (entry_message anchor) = true.
Proof.
  unfold active_user_anchor. intros (a & Hf%ok_or_ok & E)%result_bind_ok.
  case_match; [|done]. simplify_eq. apply List.find_some in Hf as [Hin Hop].
  split_and!; [by apply list_elem_of_In|by apply bool_decide_eq_true in Hop|done].
Qed.

Lemma plan_new_ok request covered plan :
  plan_new request covered = Ok plan ↔
  plan = {| plan_summary_request := request; plan_covered_through_sequence := covered |} ∧
  validate_plan_shape plan = Ok tt.
Proof.
  unfold plan_new. destruct (validate_plan_shape _) as [[]|e] eqn:E; cbn; split; try done.
  - intros [= <-]. done.
  - by intros [-> _].
  - intros [-> E']. congruence.
Qed.

Lemma cuts_in_range entries active cuts :
  safe_cut_indices entries active = Ok cuts → Forall (λ c, (c < length entries)%nat) cuts.
Proof. intros HC. apply Forall_forall. intros c Hc. by eapply safe_cut_in_range. Qed.

(** C38. The planner chooses as the linear reference does: over the safe cuts
    after the active checkpoint it takes the first one whose retained tail fits
    the target, and when none fits the last one whose summary request can still
    be dispatched; it finds no plan exactly when no summary can be dispatched.
    The two binary searches rely only on the documented monotonicity of the
    sizer and the projector. *)
Theorem select_plan_reference context checkpoint prompt tools limits sizer projector res :
  sizer_monotone sizer → from_option (projector_monotone sizer) True projector →
  StronglySorted by_sequence (cx_entries context) →
  select_plan context checkpoint prompt tools limits sizer projector = Ok res →
  ∃ anchor entries cuts,
    active_user_anchor (cx_entries context) (cx_active_operation_id context) = Ok anchor ∧
    entries_after_checkpoint (cx_entries context) checkpoint = Ok entries ∧
    safe_cut_indices entries (cx_active_operation_id context) = Ok cuts ∧
    match reference_choice entries checkpoint cuts anchor (dispatch_limit limits) sizer
            {| ts_budget := tail_budget limits; ts_system_prompt := prompt; ts_tools := tools;
               ts_sizer := sizer; ts_projector := projector |} with
    | None => res = None
    | Some i => (i < length cuts)%nat ∧ ∃ request,
        summary_at entries checkpoint (cuts !!! i) = Ok request ∧
        res = Some {| plan_summary_request := request;
                      plan_covered_through_sequence := entry_sequence (entries !!! (cuts !!! i)) |}
    end.
Proof.
  intros Hm Hp HS. unfold select_plan. intros (anchor & Ha & E)%result_bind_ok.
  apply result_bind_ok in E as (entries & He & (cuts & Hc & (best & Hbest & E)%result_bind_ok)%result_bind_ok).
  exists anchor, entries, cuts. split_and!; [done..|].
  pose proof (safe_cuts_sorted _ _ _ Hc) as HC. pose proof (cuts_in_range _ _ _ Hc) as HF.
  destruct (last_fitting_summary_spec _ _ _ _ _ (summary_fits_down _ _ _ _ _ Hm HC) _ Hbest)
    as (n & Hn & Hb & Hfits).
  unfold reference_choice.
  rewrite (filter_seq_below _ n (length cuts) 0), last_seq by (intros; try apply Hfits; lia).
  destruct n as [|last]; cbn in Hb |- *; [by simplify_eq|]. destruct Hb as (request & -> & Hreq).
  apply result_bind_ok in E as (first & Hfirst & (req & Hsel & (plan & Hplan & [= <-])%result_bind_ok)%result_bind_ok).
  destruct (entries_after_split _ _ _ He) as (pre & Hpre & _). rewrite Hpre in HS.
  destruct (active_user_anchor_elem _ _ _ Ha) as (Hanc & _). rewrite Hpre in Hanc.
  apply first_tail_within_budget_spec in Hfirst;
    [|by apply (tail_misses_down entries anchor pre cuts)|lia].
  pose proof (head_filter_seq (tail_fits entries cuts anchor
    {| ts_budget := tail_budget limits; ts_system_prompt := prompt; ts_tools := tools;
       ts_sizer := sizer; ts_projector := projector |}) (S last) 0) as Hhead.
  change (seq 0 (S last)) with (0%nat :: seq 1 last) in Hhead.
  apply plan_new_ok in Hplan as [-> _].
  set (choice := head _) in Hhead |- *. assert (choice = first) as ->.
  { destruct choice as [i|], first as [j|]; [|exfalso..|done].
    - destruct Hhead as (Hi & Hti & Hbi), Hfirst as (Hj & Htj & Hbj). f_equal.
      destruct (Nat.lt_trichotomy i j) as [?|[?|?]]; [rewrite Hbj in Hti by lia; done|done|].
      rewrite Hbi in Htj by lia. done.
    - destruct Hhead as (Hi & Hti & _). rewrite Hfirst in Hti by lia. done.
    - destruct Hfirst as (Hj & Htj & _). rewrite Hhead in Htj by lia. done. }
  assert (default last first ≤ last)%nat as Hle by (destruct first; naive_solver lia).
  split; [lia|]. destruct (Nat.eqb_spec (default last first) last) as [Heq|Hne].
  - simplify_eq. exists req. by rewrite Heq.
  - by exists req.
Qed.

(** ** Plans pass the checks of the loop *)

(** A sequence at a safe cut is a boundary beyond the checkpoint. *)
Lemma cut_advances context entries checkpoint cuts c :
  StronglySorted by_sequence (cx_entries context) →
  entries_after_checkpoint (cx_entries context) (Some checkpoint) = Ok entries →
  safe_cut_indices entries (cx_active_operation_id context) = Ok cuts → c ∈ cuts →
  cck_covered_through_sequence checkpoint < entry_sequence (entries !!! c).
Proof.
  intros HS He Hc Hin. destruct (entries_after_split _ _ _ He) as (pre & Hpre & Hcov).
  destruct (Hcov _ eq_refl) as (e & Hep & <-). rewrite Hpre in HS.
  destruct (sorted_app _ _ _ HS) as [_ HR]. apply HR; [done|].
  apply list_elem_of_lookup_total_2. by eapply safe_cut_in_range.
Qed.

Lemma planned_valid context plan entries cuts i :
  StronglySorted by_sequence (cx_entries context) →
  entries_after_checkpoint (cx_entries context) (active_checkpoint context) = Ok entries →
  safe_cut_indices entries (cx_active_operation_id context) = Ok cuts → (i < length cuts)%nat →
  plan_covered_through_sequence plan = entry_sequence (entries !!! (cuts !!! i)) →
  does_not_advance context plan = false ∧
  is_boundary entries cuts (plan_covered_through_sequence plan) = true.
Proof.
  intros HS He Hc Hi Hcov.
  assert (cuts !!! i ∈ cuts) as Hin by by apply list_elem_of_lookup_total_2.
  split.
  - unfold does_not_advance. destruct (active_checkpoint context) as [c|]; [|done].
    apply Z.leb_gt. rewrite Hcov. by eapply cut_advances.
  - unfold is_boundary. apply existsb_exists. exists (cuts !!! i).
    split; [by apply list_elem_of_In|]. apply Z.eqb_eq. by rewrite Hcov.
Qed.

(** The selected position of a plan, without any law. *)
Lemma last_fitting_position entries checkpoint cuts limit sizer i request :
  last_fitting_summary entries checkpoint cuts limit sizer = Ok (Some (i, request)) →
  (i < length cuts)%nat ∧ summary_at entries checkpoint (cuts !!! i) = Ok request ∧
  sizer request ≤ limit.
Proof.
  unfold last_fitting_summary.
  assert (∀ fuel lo hi best r, (hi ≤ length cuts)%nat →
    (∀ i request, best = Some (i, request) → (i < length cuts)%nat ∧
       summary_at entries checkpoint (cuts !!! i) = Ok request ∧ sizer request ≤ limit) →
    last_fitting_loop fuel entries checkpoint cuts limit sizer lo hi best = Some (Ok r) →
    ∀ i request, r = Some (i, request) → (i < length cuts)%nat ∧
       summary_at entries checkpoint (cuts !!! i) = Ok request ∧ sizer request ≤ limit) as Hloop.
  { induction fuel as [|fuel IH]; intros lo hi best r Hhi Hbest; cbn [last_fitting_loop];
      (destruct (Nat.ltb_spec lo hi) as [Hlt|Hge]; [|by intros [= <-]]); [done|].
    pose proof (half_position lo hi Hlt) as Hpos.
    destruct (summary_at _ _ _) as [req|] eqn:Es; [|done].
    destruct (Z.leb_spec (sizer req) limit); [|apply IH; [lia|done]].
    apply IH; [done|]. intros i' request' [= <- <-]. split_and!; [by eapply Nat.lt_le_trans; [apply Hpos|]|done|done]. }
  destruct (last_fitting_loop _ _ _ _ _ _ _ _ _) as [r|] eqn:Hr; cbn; [|done].
  intros ->. by refine (Hloop _ _ _ _ _ _ _ Hr _ _ eq_refl).
Qed.

Lemma first_tail_position entries anchor cuts last sizing i :
  first_tail_within_budget entries anchor cuts last sizing = Ok (Some i) → (i ≤ last)%nat.
Proof.
  unfold first_tail_within_budget. intros (n & _ & E)%result_bind_ok.
  destruct (Nat.leb_spec n last); naive_solver.
Qed.

Lemma select_plan_position context checkpoint prompt tools limits sizer projector plan :
  select_plan context checkpoint prompt tools limits sizer projector = Ok (Some plan) →
  ∃ anchor entries cuts i,
    active_user_anchor (cx_entries context) (cx_active_operation_id context) = Ok anchor ∧
    entries_after_checkpoint (cx_entries context) checkpoint = Ok entries ∧
    safe_cut_indices entries (cx_active_operation_id context) = Ok cuts ∧ (i < length cuts)%nat ∧
    summary_at entries checkpoint (cuts !!! i) = Ok (plan_summary_request plan) ∧
    plan_covered_through_sequence plan = entry_sequence (entries !!! (cuts !!! i)) ∧
    validate_plan_shape plan = Ok tt ∧
    ∃ last request, (i ≤ last < length cuts)%nat ∧
      summary_at entries checkpoint (cuts !!! last) = Ok request ∧
      sizer request ≤ dispatch_limit limits.
Proof.
  unfold select_plan. intros (anchor & Ha & E)%result_bind_ok.
  apply result_bind_ok in E as (entries & He & (cuts & Hc & (best & Hbest & E)%result_bind_ok)%result_bind_ok).
  exists anchor, entries, cuts. destruct best as [[last request]|]; [|done].
  destruct (last_fitting_position _ _ _ _ _ _ _ Hbest) as (Hlast & Hreq & Hfit).
  apply result_bind_ok in E as (first & Hfirst & (req & Hsel & (plan' & Hplan & [= <-])%result_bind_ok)%result_bind_ok).
  apply plan_new_ok in Hplan as [-> Hshape]. exists (default last first).
  assert (default last first ≤ last)%nat as Hle.
  { destruct first as [j|]; [by eapply first_tail_position|done]. }
  split_and!; try done; [lia| |exists last, request; split_and!; done || lia]. cbn.
  destruct (Nat.eqb_spec (default last first) last) as [Heq|]; [|done]. simplify_eq. by rewrite Heq.
Qed.

(** The planner and the loop agree: every plan the planner makes from a
    durable transcript passes the validation the loop repeats before it
    persists the request and again before it activates the summary; in
    particular its boundary advances the active checkpoint. *)
Theorem planned_passes_validation context prompt tools limits sizer projector plan :
  StronglySorted by_sequence (cx_entries context) →
  select_plan context (active_checkpoint context) prompt tools limits sizer projector = Ok (Some plan) →
  validate_plan context plan = Ok tt.
Proof.
  intros HS (anchor & entries & cuts & i & Ha & He & Hc & Hi & _ & Hcov & Hshape & _)%select_plan_position.
  destruct (planned_valid context plan _ _ _ HS He Hc Hi Hcov) as [Hadv Hb].
  unfold validate_plan, validate_boundary. rewrite Hshape. cbn. rewrite Hadv, Ha. cbn.
  rewrite He. cbn. rewrite Hc. cbn. by rewrite Hb.
Qed.

(** The same for an explicit compaction. *)
Lemma explicit_passes_validation context limits sizer plan :
  StronglySorted by_sequence (cx_entries context) →
  select_explicit_plan context (active_checkpoint context) limits sizer = Ok (Some plan) →
  validate_explicit_plan context plan = Ok tt.
Proof.
  intros HS. unfold select_explicit_plan. intros ([] & Ha & E)%result_bind_ok.
  apply result_bind_ok in E as (entries & He & (cuts & Hc & (best & Hbest & E)%result_bind_ok)%result_bind_ok).
  destruct best as [[i request]|]; [|done]. apply result_bind_ok in E as (plan' & Hplan & [= <-]).
  destruct (last_fitting_position _ _ _ _ _ _ _ Hbest) as (Hi & _ & _).
  apply plan_new_ok in Hplan as [-> Hshape].
  destruct (planned_valid context {| plan_summary_request := request;
    plan_covered_through_sequence := entry_sequence (entries !!! (cuts !!! i)) |}
    _ _ _ HS He Hc Hi eq_refl) as [Hadv Hb].
  unfold validate_explicit_plan, validate_explicit_boundary. rewrite Hshape. cbn.
  cbn in Hadv, Hb. rewrite Hadv, Ha. cbn. rewrite He. cbn. rewrite Hc. cbn. by rewrite Hb.
Qed.

(** A validated boundary is safe: the covered prefix ends at a cut where every
    tool call before it is answered before it and every result after it answers
    a call after it, the prefix advances the active checkpoint, whole
    operations other than the active one are covered, and the user message of
    the active operation stays in the request. *)
Theorem validated_boundary_is_safe context plan :
  StronglySorted by_sequence (cx_entries context) →
  validate_plan context plan = Ok tt →
  ∃ pre covered kept anchor last,
    cx_entries context = pre ++ covered ++ kept ∧
    covered = take (length covered - 1)%nat covered ++ [last] ∧
    entry_sequence last = plan_covered_through_sequence plan ∧
    balanced (entry_message <$> covered) ∧ balanced (entry_message <$> kept) ∧
    (entry_operation_id last ≠ cx_active_operation_id context → ends_operation last kept = true) ∧
    active_user_anchor (cx_entries context) (cx_active_operation_id context) = Ok anchor ∧
    entry_message anchor ∈ retained (covered ++ kept) anchor (length covered - 1) ∧
    (∀ c, active_checkpoint context = Some c →
       cck_covered_through_sequence c < plan_covered_through_sequence plan).
Proof.
  intros HS. unfold validate_plan. intros ([] & _ & E)%result_bind_ok.
  case_match eqn:Hadv; [done|]. unfold validate_boundary in E.
  apply result_bind_ok in E as (anchor & Ha & (entries & He & (cuts & Hc & E)%result_bind_ok)%result_bind_ok).
  case_match eqn:Hb; [|done]. unfold is_boundary in Hb.
  apply existsb_exists in Hb as (c & Hin%list_elem_of_In & Hcov%Z.eqb_eq).
  destruct (entries_after_split _ _ _ He) as (pre & Hpre & _).
  destruct (safe_cut_balanced _ _ _ _ Hc Hin) as [Hb1 Hb2].
  destruct (safe_cuts_from_elem _ _ _ _ _ _ _ Hc Hin) as (i & -> & Hi & _ & e & Hei & Hends).
  cbn in Hcov, Hb1, Hb2. rewrite (list_lookup_total_correct _ _ _ Hei) in Hcov.
  assert (length (take (S i) entries) = S i) as Hlen by (rewrite length_take; lia).
  exists pre, (take (S i) entries), (drop (S i) entries), anchor, e. rewrite Hlen.
  replace (S i - 1)%nat with i by lia. rewrite take_take, take_drop, Nat.min_l by lia.
  split_and!; try done.
  - by apply take_S_r.
  - rewrite Hpre in HS. destruct (active_user_anchor_elem _ _ _ Ha) as (Hanc & _). rewrite Hpre in Hanc.
    by apply (anchor_retained _ _ pre).
  - intros c Hck. unfold does_not_advance in Hadv. rewrite Hck in Hadv. by apply Z.leb_gt in Hadv.
Qed.

(** ** What the strategy dispatches *)

(** The sized request is the one that would be sent. *)
Definition sized s input (messages : list Message) : Z :=
  st_sizer s {| req_system_prompt := cx_system_prompt input; req_messages := messages; req_tools := cx_tools input |}.

(** The request is to be shortened: the provider rejected it, it is above the
    limit, or it reached the point of automatic compaction. *)
Definition shorten s input (estimated : Z) : Prop :=
  cx_compaction_required input = true ∨ dispatch_limit (st_limits s) < estimated ∨
  automatic_compaction (st_limits s) ≤ estimated ∧ automatic_compaction (st_limits s) ≠ dispatch_limit (st_limits s).

(** Nothing can be summarized: the summary request of no safe cut after the
    active checkpoint can be dispatched. *)
Definition no_summary_fits s input : Prop :=
  ∃ entries cuts,
    entries_after_checkpoint (cx_entries input) (active_checkpoint input) = Ok entries ∧
    safe_cut_indices entries (cx_active_operation_id input) = Ok cuts ∧
    ∀ c request, c ∈ cuts → summary_at entries (active_checkpoint input) c = Ok request →
      dispatch_limit (st_limits s) < st_sizer s request.

(** A plan summarizes the entries up to a safe cut after the active checkpoint. *)
Definition summarizes input (plan : CompactionPlan) : Prop :=
  ∃ entries cuts c,
    entries_after_checkpoint (cx_entries input) (active_checkpoint input) = Ok entries ∧
    safe_cut_indices entries (cx_active_operation_id input) = Ok cuts ∧ c ∈ cuts ∧
    summary_at entries (active_checkpoint input) c = Ok (plan_summary_request plan) ∧
    plan_covered_through_sequence plan = entry_sequence (entries !!! c).

Lemma no_plan_no_summary s input prompt tools projector : sizer_monotone (st_sizer s) →
  select_plan input (active_checkpoint input) prompt tools (st_limits s) (st_sizer s) projector = Ok None →
  no_summary_fits s input.
Proof.
  intros Hm. unfold select_plan. intros (anchor & _ & E)%result_bind_ok.
  apply result_bind_ok in E as (entries & He & (cuts & Hc & (best & Hbest & E)%result_bind_ok)%result_bind_ok).
  exists entries, cuts. split_and!; [done..|].
  destruct best as [[last request]|].
  { by apply result_bind_ok in E as (first & _ & (req & _ & (plan & _ & [=])%result_bind_ok)%result_bind_ok). }
  pose proof (safe_cuts_sorted _ _ _ Hc) as HC.
  destruct (last_fitting_summary_spec _ _ _ _ _ (summary_fits_down _ _ _ _ _ Hm HC) _ Hbest)
    as (n & Hn & Hb & Hfits).
  destruct n as [|last]; [|by destruct Hb as (? & [=] & _)].
  intros c request (i & Hi)%list_elem_of_lookup Hr. pose proof (lookup_lt_Some _ _ _ Hi) as Hlt.
  specialize (Hfits i Hlt). unfold summary_fits in Hfits.
  rewrite (list_lookup_total_correct _ _ _ Hi), Hr in Hfits. by apply Z.leb_gt in Hfits.
Qed.

Lemma planned_summarizes s input prompt tools projector plan :
  select_plan input (active_checkpoint input) prompt tools (st_limits s) (st_sizer s) projector = Ok (Some plan) →
  summarizes input plan ∧ validate_plan_shape plan = Ok tt ∧
  (sizer_monotone (st_sizer s) → st_sizer s (plan_summary_request plan) ≤ dispatch_limit (st_limits s)).
Proof.
  intros (anchor & entries & cuts & i & _ & He & Hc & Hi & Hs & Hcov & Hshape & last & request & Hl & Hr & Hle)%select_plan_position.
  split_and!; [|done|].
  - exists entries, cuts, (cuts !!! i). split_and!; try done. by apply list_elem_of_lookup_total_2.
  - intros Hm. pose proof (safe_cuts_sorted _ _ _ Hc) as HC.
    destruct (summary_at_extends _ _ _ _ _ (sorted_cuts _ i last HC Hl) Hr) as (r & Hi' & Hx%Hm).
    rewrite Hs in Hi'. injection Hi' as <-. by etrans.
Qed.

(** C39. Nothing above the provider limit is dispatched. When the preparation of a
    turn succeeds it is one of three. A model request of exactly the projected
    messages: then the provider has not just rejected it, its size is within
    the dispatch limit, and it needs no shortening or nothing can be
    summarized. A summary of the entries up to a safe cut after the active
    checkpoint, with the configured number of attempts: then the request had
    to be shortened and the summary request is within the dispatch limit. Or
    capacity exceeded, reporting the size of the projected request and the
    dispatch limit: then the provider rejected the request or it is above the
    limit, and there is no safe cut whose summary request is within it. That
    nothing can be summarized, and that the summary request is within the
    limit, hold for a sizer that keeps the documented law: an estimate never
    decreases when a request is extended. *)
Theorem prepare_within_limit s input :
  match compacting_prepare s input with
  | Ok (PrepModel messages) =>
      compacting_project s input = Ok messages ∧ cx_compaction_required input = false ∧
      sized s input messages ≤ dispatch_limit (st_limits s) ∧
      (¬ shorten s input (sized s input messages) ∨ (sizer_monotone (st_sizer s) → no_summary_fits s input))
  | Ok (PrepCompact plan max_attempts) =>
      max_attempts = st_max_attempts s ∧ summarizes input plan ∧ validate_plan_shape plan = Ok tt ∧
      (∃ messages, compacting_project s input = Ok messages ∧ shorten s input (sized s input messages)) ∧
      (sizer_monotone (st_sizer s) → st_sizer s (plan_summary_request plan) ≤ dispatch_limit (st_limits s))
  | Ok (PrepCapacityExceeded estimated limit) =>
      limit = dispatch_limit (st_limits s) ∧
      (∃ messages, compacting_project s input = Ok messages ∧ estimated = sized s input messages) ∧
      (cx_compaction_required input = true ∨ limit < estimated) ∧
      (sizer_monotone (st_sizer s) → no_summary_fits s input)
  | Err _ => True
  end.
Proof.
  unfold compacting_prepare. destruct (projected_messages input) as [projected|] eqn:Ep; [|done].
  cbn. destruct (cp_project (st_projector s) projected) as [messages|] eqn:Em; [|done]. cbn.
  assert (compacting_project s input = Ok messages) as Hproj.
  { unfold compacting_project. by rewrite Ep. }
  change (estimate_request s input messages) with (sized s input messages).
  destruct (_ && _ && _) eqn:Hsend.
  { split_bools. split_and!; [done..|]. left. unfold shorten. intros [?|[?|[? ?]]]; [congruence|lia|].
    rename select (_ || _ = true) into Ht. apply orb_true_iff in Ht as [?%Z.ltb_lt|?%Z.eqb_eq]; lia. }
  assert (shorten s input (sized s input messages)) as Hsh.
  { unfold shorten. destruct (cx_compaction_required input); [by left|]. right.
    destruct (Z.leb_spec (sized s input messages) (dispatch_limit (st_limits s))); [right|by left].
    cbn in Hsend. apply orb_false_iff in Hsend as [?%Z.ltb_ge ?%Z.eqb_neq]. lia. }
  destruct (select_plan _ _ _ _ _ _ _) as [[plan|]|] eqn:Eplan; [| |done]; cbn.
  - destruct (planned_summarizes _ _ _ _ _ _ Eplan) as (? & ? & ?). split_and!; eauto.
  - pose proof (λ Hm, no_plan_no_summary s _ _ _ _ Hm Eplan) as Hno.
    destruct (cx_compaction_required input), (Z.leb_spec (sized s input messages)
      (dispatch_limit (st_limits s))); cbn; split_and!; eauto.
Qed.
End planning.

(** ** A small conversation *)
Module PlanningScenario.
Import Json.

Definition origin (op : N) (sequence : Z) : ContextOrigin :=
  {| org_operation_id := MkId op; org_sequence := sequence |}.
Definition says (content : list AssistantContent) (stop : StopReason) : Message :=
  Assistant content stop None default_metadata.

(** Two finished operations, the second with a tool call, and the active one. *)
Definition context : ContextInput := {|
  cx_active_operation_id := MkId 3;
  cx_origins := [origin 1 1; origin 1 2; origin 2 3; origin 2 4; origin 2 5; origin 2 6; origin 3 7];
  cx_messages := [
    user_text "Hello."; says [AssistantText "Hello." None] Stop;
    user_text "Read it.";
    says [AssistantToolCall {| call_id := "c"; call_name := "read"; call_arguments := JNull;
                               call_thought_signature := None; call_namespace := None |}] ToolUse;
    Tool {| result_call_id := "c"; result_name := "read"; result_content := [BlockText "42"];
            result_details := None; result_is_error := false; result_closing := None |};
    says [AssistantText "42." None] Stop;
    user_text "And now?"];
  cx_checkpoint := None; cx_system_prompt := "Help."; cx_tools := []; cx_compaction_required := false |}.

Definition limits : CompactionLimits :=
  {| dispatch_limit := 10; automatic_compaction := 10; target_input := 4; tail_budget := 3; max_summary := 1 |}.
(** Requests are sized by their messages. *)
Definition sizer : ContextSizer := λ r, Z.of_nat (length (req_messages r)).

Lemma sizer_ok : sizer_monotone sizer.
Proof.
  intros r r' (_ & _ & He). unfold sizer. apply inj_le. induction He; cbn; lia.
Qed.

Definition planned : Result CompactionPlanningError (option CompactionPlan) :=
  select_plan context (active_checkpoint context) "Help." [] limits sizer None.
Definition the_plan : CompactionPlan :=
  match planned with
  | Ok (Some plan) => plan
  | _ => {| plan_summary_request := {| req_system_prompt := ""; req_messages := []; req_tools := [] |};
            plan_covered_through_sequence := 0 |}
  end.
Lemma planned_ok : planned = Ok (Some the_plan).
Proof.
  unfold the_plan. assert (match planned with Ok (Some _) => true | _ => false end = true) as H
    by (vm_compute; reflexivity). destruct planned as [[plan|]|]; done.
Qed.
Lemma context_sorted : StronglySorted by_sequence (cx_entries context).
Proof. repeat constructor. Qed.
End PlanningScenario.

Lemma select_plan_reference_witness :
  ∃ anchor entries cuts,
    active_user_anchor (cx_entries PlanningScenario.context) (MkId 3) = Ok anchor ∧
    entries_after_checkpoint (cx_entries PlanningScenario.context) None = Ok entries ∧
    safe_cut_indices entries (MkId 3) = Ok cuts ∧ (1 < length cuts)%nat.
Proof.
  pose proof (select_plan_reference PlanningScenario.context None "Help." [] PlanningScenario.limits
    PlanningScenario.sizer None _ PlanningScenario.sizer_ok I PlanningScenario.context_sorted
    PlanningScenario.planned_ok) as (anchor & entries & cuts & Ha & He & Hc & _).
  exists anchor, entries, cuts. split_and!; [exact Ha|exact He|exact Hc|].
  injection He as <-. assert (Hcuts : safe_cut_indices (cx_entries PlanningScenario.context) (MkId 3) = Ok [1%nat; 5%nat])
    by (vm_compute; reflexivity).
  change (cx_active_operation_id PlanningScenario.context) with (MkId (k:=KOperation) 3) in Hc.
  rewrite Hcuts in Hc. injection Hc as <-. cbn. lia.
Defined.

Lemma planned_passes_validation_witness :
  validate_plan PlanningScenario.context PlanningScenario.the_plan = Ok tt.
Proof.
  exact (planned_passes_validation PlanningScenario.context "Help." [] PlanningScenario.limits
    PlanningScenario.sizer None PlanningScenario.the_plan PlanningScenario.context_sorted
    PlanningScenario.planned_ok).
Defined.

Lemma validated_boundary_is_safe_witness :
  ∃ pre covered kept, cx_entries PlanningScenario.context = pre ++ covered ++ kept ∧
    balanced (entry_message <$> covered) ∧ balanced (entry_message <$> kept).
Proof.
  assert (validate_plan PlanningScenario.context PlanningScenario.the_plan = Ok tt) as Hv
    by (vm_compute; reflexivity).
  destruct (validated_boundary_is_safe PlanningScenario.context PlanningScenario.the_plan
    PlanningScenario.context_sorted Hv) as (pre & covered & kept & anchor & final & Hsplit & _ & _ & Hb & Hk & _).
  exists pre, covered, kept. split_and!; [exact Hsplit|exact Hb|exact Hk].
Defined.
