(* ===== verification/SamplingTheorems.v ===== *)
(** * Sampling: no false certainty, no lost response *)
From S2P Require Import Prelude Json State Text Messages PendingTools TurnContext Compaction LoopFormat.
From S2P Require Import Sampling.
Section sampling_theorems.
Context `{JV : JsonValue}.
Implicit Types (o : SamplingObserver) (stream : Stream) (seen : CancellationSeen).

(** Evidence in what the observer was told. *)
Definition is_content (e : AgentEvent) : bool :=
  match e with
  | ModelRequestChunk _ _ | MessageStart _ | MessageUpdate _ _ => true
  | _ => false
  end.
Definition is_traffic (e : AgentEvent) : bool :=
  match e with
  | ModelProviderRequest _ | ModelProviderResponse _ _ | ModelRetryAttempt _ _ _ _ _ => true
  | _ => false
  end.

(** The observer's flags are the evidence it has emitted. *)
Record observed o : Prop := {
  ob_content : so_message_started o = existsb is_content (so_emitted o);
  ob_traffic : so_provider_traffic o = existsb is_traffic (so_emitted o);
}.

Lemma observed_emit o events :
  observed o → existsb is_content events = false → existsb is_traffic events = false →
  observed (emit o events).
Proof.
  intros [Hc Ht] He Hr. split; cbn; rewrite existsb_app; [rewrite He|rewrite Hr];
    by rewrite orb_false_r.
Qed.

Lemma observed_start request : observed (observer_start request).
Proof. by split. Qed.

Lemma observed_record o event : observed o → observed (record_event o event).1.
Proof.
  intros [Hc Ht].
  destruct event; cbn; try (split; cbn; rewrite !existsb_app; cbn; rewrite ?orb_false_r, ?orb_true_r; done).
  destruct (so_message_started o) eqn:Es; split; cbn; rewrite !existsb_app; cbn;
    rewrite ?orb_true_r, ?orb_false_r; done.
Qed.

Lemma observed_abort o : observed o → observed (abort_message o).
Proof. intros Ho. unfold abort_message. case_match; [|done]. by apply observed_emit. Qed.

Lemma observed_drain stream : ∀ o err comp o' err' comp',
  observed o → drain stream o err comp = (o', err', comp') → observed o'.
Proof.
  induction stream as [|[event|error] stream IH]; intros o err comp o' err' comp' Ho; cbn.
  - by intros [= <- <- <-].
  - pose proof (observed_record o event Ho) as Hr. destruct (record_event o event) as [o1 r].
    by apply IH.
  - by apply IH.
Qed.

(** A response seen while draining is kept. *)
Lemma drain_completed stream : ∀ o err comp o' err' comp',
  drain stream o err comp = (o', err', comp') →
  is_Some comp ∨ (∃ response, Ok (StreamCompleted response) ∈ stream) → is_Some comp'.
Proof.
  induction stream as [|[event|error] stream IH]; intros o err comp o' err' comp'; cbn.
  - intros [= <- <- <-] [?|[r []%elem_of_nil]]; done.
  - destruct (record_event o event) as [o1 r] eqn:Er. intros Hd Hor. eapply IH; [exact Hd|].
    destruct Hor as [[c ->]|[response Hin]]; [left; by case_match|].
    apply elem_of_cons in Hin as [[= <-]|Hin]; [|by right; exists response].
    left. cbn in Er. injection Er as <- <-. done.
  - intros Hd Hor. eapply IH; [exact Hd|]. destruct Hor as [?|[response Hin]]; [by left|].
    apply elem_of_cons in Hin as [[=]|Hin]. right. by exists response.
Qed.

Lemma model_failure_outcome o error o' error' :
  observed o → observer_model_failure o error = (o', error') →
  me_inference_outcome error' = KnownNotStarted →
  existsb is_content (so_emitted o') = false ∧ error' = error.
Proof.
  intros Ho. unfold observer_model_failure. intros [= <- <-]. cbn.
  pose proof (ob_content _ (observed_abort o Ho)) as Hc.
  rewrite existsb_app, <- Hc. unfold abort_message. cbn.
  destruct (so_message_started o) eqn:Es; cbn; rewrite ?Es; [|done].
  case_bool_decide; cbn; [done|]. congruence.
Qed.

(** The response an observer was told of, if any. *)
Definition is_end (e : AgentEvent) : bool :=
  match e with ModelRequestEnd _ => true | _ => false end.

(** What a result may claim, of the stream it came from and of what the
    observer was told. *)
Definition claims_ok (stream : Stream) (r : Result SamplingError ModelResponse)
    (events : list AgentEvent) : Prop :=
  match r with
  | Ok response => Ok (StreamCompleted response) ∈ stream ∧ ModelRequestEnd response ∈ events
  | Err e => existsb is_end events = false ∧
      match e with
      | SamplingCancelled => existsb is_content events = false ∧ existsb is_traffic events = false
      | SamplingModel error =>
          me_inference_outcome error = KnownNotStarted →
          existsb is_content events = false ∧ Err error ∈ stream
      | IncompleteStream => True
      end
  end.

Lemma claims_ok_cons item stream r events :
  claims_ok stream r events → claims_ok (item :: stream) r events.
Proof.
  destruct r as [response|[|error|]]; cbn; try done; rewrite elem_of_cons; naive_solver.
Qed.

Lemma cancelled_claims o :
  observed o → so_provider_traffic o = false → so_message_started o = false →
  existsb is_content (so_emitted (observer_cancel o false)) = false ∧
  existsb is_traffic (so_emitted (observer_cancel o false)) = false.
Proof.
  intros [Hc Ht] Htr Hst. unfold observer_cancel, abort_message. rewrite Hst. cbn.
  rewrite !existsb_app. rewrite <- Hc, <- Ht, Htr, Hst. done.
Qed.

Lemma drain_emitted stream : ∀ o err comp o' err' comp' response,
  drain stream o err comp = (o', err', comp') → comp' = Some response →
  (Ok (StreamCompleted response) ∈ stream ∨ comp = Some response) ∧
  ((∀ r, comp = Some r → ModelRequestEnd r ∈ so_emitted o) →
   ModelRequestEnd response ∈ so_emitted o').
Proof.
  induction stream as [|[event|error] stream IH]; intros o err comp o' err' comp' response; cbn.
  - intros [= <- <- <-] ->. split; [by right|eauto].
  - destruct (record_event o event) as [o1 r] eqn:Er. intros Hd Hc.
    destruct (IH _ _ _ _ _ _ _ Hd Hc) as [Hin Hemit]. split.
    + rewrite elem_of_cons. destruct event; cbn in Er; injection Er as <- <-; naive_solver.
    + intros Hold. apply Hemit. intros r' Hr'.
      destruct event; cbn in Er; injection Er as <- <-; cbn in Hr' |- *.
      3: destruct (so_message_started o); cbn; rewrite !elem_of_app; eauto 6.
      4: injection Hr' as <-; apply elem_of_app; right; by left.
      all: apply elem_of_app; left; eauto.
  - intros Hd Hc. destruct (IH _ _ _ _ _ _ _ Hd Hc) as [Hin Hemit].
    split; [rewrite elem_of_cons; naive_solver|done].
Qed.

(** A drain that saw no response told the observer of none; its error is one
    of the stream. *)
Lemma drain_silent stream : ∀ o err comp o' err',
  drain stream o err comp = (o', err', None) → existsb is_end (so_emitted o) = false →
  existsb is_end (so_emitted o') = false ∧ (∀ e, err' = Some e → err = Some e ∨ Err e ∈ stream).
Proof.
  induction stream as [|[event|error] stream IH]; intros o err comp o' err'; cbn.
  - intros [= <- <- _] ?. eauto.
  - destruct (record_event o event) as [o1 r] eqn:Er. intros Hd Ho.
    assert (existsb is_end (so_emitted o1) = false) as Ho1.
    { destruct event; cbn in Er; injection Er as <- <-; cbn.
      3: destruct (so_message_started o); cbn.
      all: rewrite ?existsb_app, ?Ho; cbn; try done.
      exfalso. destruct (drain_completed _ _ _ _ _ _ _ Hd) as [? [=]]. by left. }
    destruct (IH _ _ _ _ _ Hd Ho1) as [? He]. split; [done|].
    intros e ?. rewrite elem_of_cons. naive_solver.
  - intros Hd Ho. destruct (IH _ _ _ _ _ Hd Ho) as [? He]. split; [done|].
    intros e Hs. rewrite elem_of_cons. destruct (He e Hs); naive_solver.
Qed.

(** Ending a request without a response tells the observer of none. *)
Lemma silent_ends o error dispatched :
  existsb is_end (so_emitted o) = false →
  existsb is_end (so_emitted (observer_cancel o dispatched)) = false ∧
  existsb is_end (so_emitted (observer_incomplete o)) = false ∧
  existsb is_end (so_emitted (observer_model_failure o error).1) = false.
Proof.
  intros Ho. unfold observer_cancel, observer_incomplete, observer_model_failure, abort_message.
  destruct (so_message_started o); cbn; rewrite ?existsb_app, ?Ho; done.
Qed.

Lemma drain_claims stream o r o' :
  observed o → existsb is_end (so_emitted o) = false →
  drain_cancelled_stream stream o = (r, o') → claims_ok stream r (so_emitted o').
Proof.
  intros Ho Hs. unfold drain_cancelled_stream.
  destruct (drain stream o None None) as [[o1 err] comp] eqn:Ed.
  pose proof (observed_drain _ _ _ _ _ _ _ Ho Ed) as Ho1.
  destruct comp as [response|].
  { intros [= <- <-]. cbn. destruct (drain_emitted _ _ _ _ _ _ _ _ Ed eq_refl) as [[?|[=]] He].
    split; [done|]. by apply He. }
  destruct (drain_silent _ _ _ _ _ _ Ed Hs) as [Hs1 Herr].
  destruct (so_provider_traffic o1 || so_message_started o1) eqn:Edisp.
  - destruct err as [error|].
    + destruct (silent_ends o1 error false Hs1) as (_ & _ & Hs2).
      destruct (observer_model_failure o1 error) as [o2 error2] eqn:Ef. intros [= <- <-]. cbn.
      split; [done|]. intros Hk. destruct (model_failure_outcome _ _ _ _ Ho1 Ef Hk) as [? ->].
      split; [done|]. by destruct (Herr error eq_refl).
    + intros [= <- <-]. split; [|done]. by apply (silent_ends o1 (model_error_cancelled "")).
  - intros [= <- <-]. apply orb_false_elim in Edisp as [? ?].
    split; [by apply (silent_ends o1 (model_error_cancelled ""))|by apply cancelled_claims].
Qed.

Lemma sample_loop_claims seen stream : ∀ n o r o',
  observed o → existsb is_end (so_emitted o) = false →
  sample_loop seen n stream o = (r, o') → claims_ok stream r (so_emitted o').
Proof.
  induction stream as [|[event|error] stream IH]; intros n o r o' Ho Hs; cbn [sample_loop];
    (destruct (seen_before seen n); [by apply drain_claims|]).
  - intros [= <- <-]. split; [|done]. by apply (silent_ends o (model_error_cancelled "") false).
  - pose proof (observed_record o event Ho) as Hr.
    destruct (record_event o event) as [o1 resp] eqn:Er. destruct resp as [response|].
    + intros [= <- <-]. cbn. destruct event; cbn in Er; simplify_eq. cbn.
      split; [by left|apply elem_of_app; right; by left].
    + intros Hl. apply claims_ok_cons. eapply IH; [exact Hr| |exact Hl].
      destruct event; cbn in Er; simplify_eq; cbn.
      3: destruct (so_message_started o); cbn.
      all: rewrite ?existsb_app, ?Hs; done.
  - destruct (silent_ends o error false Hs) as (Hs1 & _ & Hs2). destruct (_ && _ && _) eqn:Ec.
    + intros [= <- <-]. split_bools. split; [done|by apply cancelled_claims].
    + destruct (observer_model_failure o error) as [o2 error2] eqn:Ef. intros [= <- <-]. cbn.
      split; [done|]. intros Hk. destruct (model_failure_outcome _ _ _ _ Ho Ef Hk) as [? ->].
      split; [done|by left].
Qed.

Lemma sample_claims initially seen request stream r events :
  sample_model initially seen request stream = (r, events) → claims_ok stream r events.
Proof.
  unfold sample_model. destruct initially; [by intros [= <- <-]|].
  destruct (sample_loop _ _ _ _) as [r' o] eqn:Es. intros [= <- <-].
  eapply sample_loop_claims; [apply observed_start|done|exact Es].
Qed.

(** A stream that completes without an error yields a response, whenever
    cancellation is noticed. *)
Lemma sample_loop_completes seen stream : ∀ n o response,
  Forall (λ i, is_ok i = true) stream → Ok (StreamCompleted response) ∈ stream →
  is_ok (sample_loop seen n stream o).1 = true.
Proof.
  assert (∀ stream o, (∃ response, Ok (StreamCompleted response) ∈ stream) →
    is_ok (drain_cancelled_stream stream o).1 = true) as Hdrain.
  { intros st o Hin. unfold drain_cancelled_stream. destruct (drain st o None None) as [[o1 err] comp] eqn:Ed.
    destruct (drain_completed _ _ _ _ _ _ _ Ed (or_intror Hin)) as [c ->]. done. }
  induction stream as [|[event|error] stream IH]; intros n o response HF Hin;
    [by apply elem_of_nil in Hin| |]; cbn [sample_loop]; apply Forall_cons in HF as [? HF]; [|done].
  destruct (seen_before seen n); [by apply Hdrain; exists response|].
  destruct (record_event o event) as [o1 resp] eqn:Er. destruct resp as [r|]; [done|].
  apply elem_of_cons in Hin as [[= <-]|Hin]; [done|by eapply IH].
Qed.

Context `{LS : !LoopSerde}.

(** How a model effect may be settled, given what the provider streamed and
    what the observer was told. A value that cannot be encoded settles the
    effect as the failure to encode it. *)
Definition encoded (output : ModelEffectOutput) (c : EffectCompletion) : Prop :=
  (∃ v, to_value output = Ok v ∧ c = CompletionSettled (Success v)) ∨
  (∃ error, to_value output = Err error ∧
    c = CompletionSettled (Failure ("model response serialization failed: " +:+ error))).

Inductive settled (stream : Stream) (events : list AgentEvent) : EffectCompletion → Prop :=
| SettledResponse response c :
    Ok (StreamCompleted response) ∈ stream → ModelRequestEnd response ∈ events →
    encoded (ModelCompleted response) c → settled stream events c
| SettledRejected error c :
    existsb is_end events = false → existsb is_content events = false →
    Err error ∈ stream → me_inference_outcome error = KnownNotStarted →
    me_kind error = WindowExceeded →
    encoded (ContextWindowExceeded (me_message error)) c → settled stream events c
| SettledFailed error :
    existsb is_end events = false → existsb is_content events = false →
    Err error ∈ stream → me_inference_outcome error = KnownNotStarted →
    me_kind error ≠ WindowExceeded →
    settled stream events (CompletionSettled (Failure (me_message error)))
| SettledCancelled :
    existsb is_end events = false → existsb is_content events = false →
    existsb is_traffic events = false →
    settled stream events (CompletionSettled (Failure "model sampling was cancelled"))
| SettledUnknown :
    existsb is_end events = false → settled stream events CompletionUnknown.

Lemma model_completion_encoded output : encoded output (model_completion output).
Proof. unfold encoded, model_completion, adapter_failure. destruct (to_value output); eauto. Qed.

(** C40. A model effect is settled without false certainty. A persisted request
    that does not decode settles as that failure and nothing is sent. Otherwise
    the effect is settled in one of five ways: with the encoding of a response the
    stream completed and the observer was told of (or, when it cannot be encoded,
    with the failure that says so); as the context window the provider rejected
    or with the message of the provider's error, only for an error of the
    stream that is known not to have started inference and only when the
    observer was told of no content and no response; as cancelled, only when
    there was no provider traffic either; or as unknown, only when the
    observer was told of no response. And a stream that completes without an error settles with
    a response of it, even when cancellation is noticed halfway. *)
Theorem sampling_no_false_certainty initially seen (stream_of : ModelRequest → Stream) persisted :
  let '(c, events) := model_adapter_invoke initially seen stream_of persisted in
  match from_value (A:=ModelRequest) persisted with
  | Err error =>
      c = CompletionSettled (Failure ("invalid persisted model request: " +:+ error)) ∧ events = []
  | Ok request =>
      settled (stream_of request) events c ∧
      (initially = false → Forall (λ i, is_ok i = true) (stream_of request) →
       (∃ response, Ok (StreamCompleted response) ∈ stream_of request) →
       ∃ response, Ok (StreamCompleted response) ∈ stream_of request ∧
         ModelRequestEnd response ∈ events ∧ encoded (ModelCompleted response) c)
  end.
Proof.
  unfold model_adapter_invoke. destruct (from_value persisted) as [request|error]; [|done].
  destruct (sample_model initially seen request (stream_of request)) as [r events] eqn:Hs.
  pose proof (sample_claims _ _ _ _ _ _ Hs) as HC. split.
  - destruct r as [response|[|error|]]; cbn in *.
    + destruct HC. eapply SettledResponse; eauto using model_completion_encoded.
    + destruct HC as (? & ? & ?). by apply SettledCancelled.
    + destruct HC as [? HC]. destruct (me_inference_outcome error) eqn:Ei; [|by apply SettledUnknown].
      destruct (HC eq_refl) as [? ?].
      case_bool_decide; [|by apply SettledFailed].
      eapply SettledRejected; eauto using model_completion_encoded.
    + destruct HC. by apply SettledUnknown.
  - intros -> HF [response Hin]. unfold sample_model in Hs.
    pose proof (sample_loop_completes seen _ 0 (observer_start request) response HF Hin) as Hok.
    destruct (sample_loop _ _ _ _) as [r' o]. simplify_eq. destruct r as [response'|]; [|done].
    destruct HC. eauto using model_completion_encoded.
Qed.

(** A summary request never looks like a reply to an observer. *)
Lemma summary_events_hide_reply (events : list AgentEvent) e :
  e ∈ omap summary_event events →
  match e with
  | MessageStart _ | MessageUpdate _ _ | MessageAbort => False
  | ModelRequestEnd response => resp_content response = []
  | _ => True
  end.
Proof. intros (e' & _ & He)%list_elem_of_omap. destruct e'; cbn in He; simplify_eq; done. Qed.
End sampling_theorems.
