(* ===== verification/LoopTheorems.v ===== *)
(** * The model/tool loop: main theorems *)
From S2P Require Import Prelude Json State Runtime Drive Text Messages PendingTools TurnContext Compaction.
From S2P Require Import LoopFormat AgentLoop AgentDecide LoopRuntime PlanningFacts LoopRefinement LoopRuns.
From S2P Require Import LoopBuilt ReadTheorems LoopConcrete.
Section loop_theorems.
Context `{JV : JsonValue} `{LS : !LoopSerde} `{HS : Hashing}.
Implicit Types (l : AgentLoop) (phase : LoopPhase) (ds : list LoopDecision).

(** C5. Every decision of the loop, in every phase and for every settled effect,
    is a transition of the abstract machine from the phase its checkpoint
    resumes: it stores the machine's next phase, appends exactly the
    transition's messages (and receipts, annotations or checkpoints besides),
    requests exactly the effects that phase awaits, and ends the operation
    exactly at the terminal phase. *)
Theorem decide_refines_machine l input d :
  decide_loop l input = Ok d →
  ∃ (before : option LoopPhase) ms after,
    resumes (li_checkpoint input) before ∧ transition l before ms after ∧ realizes l d ms after.
Proof. intros (before & Hres & ms & after & Ht & Hr)%decide_refines. eauto 10. Qed.

Context `{!LoopSerdeLaws}.

(** In every run of an operation, whatever events, settled effects and
    responses the decisions are given, the tool calls still open in the
    messages appended so far are exactly the calls its checkpoint resumes
    with: every call of an assistant message gets exactly one result of its
    own name, no result answers anything else, and no other message comes
    between a call and its result; once a run ends, every call is answered. *)
Theorem operation_transcript l ds c :
  typed_loop l → loop_run l ds c →
  ∃ phase : option LoopPhase, resumes c phase ∧
    open_calls (messages_of (run_events ds)) ∅ = Some (open_map (waiting phase)) ∧
    (phase = Some Terminal → balanced (messages_of (run_events ds))).
Proof.
  intros Ht (phase & Hres & _ & Ho)%run_invariant; [|done]. exists phase. split_and!; [done..|].
  intros ->. exact Ho.
Qed.

(** However an operation is interrupted, abandoned at an unknown effect or
    cancelled in any phase, the events of the interruption answer every call
    that is still open, and the operation cannot be driven again. *)
Theorem interruption_balances l ds c :
  typed_loop l → loop_run l ds c →
  (∀ input a, Some (ui_checkpoint input) = c → abandon_loop l input = Ok a →
     balanced (messages_of (run_events ds ++ ab_events a)) ∧
     decode_checkpoint (ab_checkpoint a) = Ok Terminal) ∧
  (∀ input t, ci_checkpoint input = c → cancel_loop l input = Ok t →
     balanced (messages_of (run_events ds ++ ct_events t)) ∧
     decode_checkpoint (ct_checkpoint t) = Ok Terminal).
Proof.
  intros Ht (phase & Hres & Hwf & Ho)%run_invariant; [|done].
  assert (∀ c' events, ends_operation_of phase c' events →
    balanced (messages_of (run_events ds ++ events)) ∧ decode_checkpoint c' = Ok Terminal) as Hends.
  { intros c' events He. apply (interruption_extends phase); [|done..].
    intros p Hp. apply (wf_tools_valid l), Hwf, Hp. }
  split.
  - intros input a <- (p & Hp & He)%abandon_ends. destruct Hres as (p' & Hp' & ->).
    apply Hends. congruence.
  - intros input t Hc (p & Hp & He)%cancel_ends. rewrite Hc in Hp.
    rewrite (resumes_unique _ _ _ Hp Hres) in He. by apply Hends.
Qed.

(** C8. Every checkpoint a run stores is accepted when it is read back, with the
    schema version of the manifest, and its phase is well formed: identities
    of pending calls are distinct and not empty, model turns and tool calls
    stay within the configured limits, compaction attempts within their
    maximum, and a Code Mode run within 32 waves and 128 calls. *)
Theorem stored_checkpoints_wf l ds c :
  typed_loop l → loop_run l ds (Some c) →
  schema_version c = CHECKPOINT_SCHEMA_VERSION ∧
  ∃ phase, decode_checkpoint c = Ok phase ∧ phase_wf l phase.
Proof.
  intros Ht Hrun. split.
  - inversion Hrun as [|ds' c' input d Hrun' Hc Hd]; subst.
    apply decide_refines in Hd as (_ & _ & ms & after & _ & Hck & _). 
    unfold checkpoint in Hck. by apply result_bind_ok in Hck as (v & _ & [= <-]).
  - destruct (run_invariant _ _ _ Ht Hrun) as (phase & (p & Hp & ->) & Hwf & _). eauto.
Qed.

(** C9. An operation with a model-turn limit cannot go on for ever, summaries
    included. Whatever the model, the tools and the effects return, it takes at
    most two decisions, two more per model turn, sixty-seven per tool call of a
    turn, and two for every attempt at a summary; and the attempts are bounded
    too: at most those of one plan for every message that was there before the
    operation, for every message the operation can append (its prompt and, per
    turn, a result for each call and two more), and twice more. For every
    activated summary has to cover a message the one before did not, or the
    history could not be read. *)
Theorem decisions_bounded l start ds c events limit most :
  typed_loop l → cfg_max_model_turns (al_config l) = Some limit → 1 ≤ most → attempts_within l most →
  operation_run l start ds c events →
  Z.of_nat (length ds) ≤
    limit * (67 * cfg_max_tool_calls_per_turn (al_config l) + 2) + 2 +
    2 * (most * (Z.of_nat (message_count start) + limit * (cfg_max_tool_calls_per_turn (al_config l) + 2) + 3)).
Proof.
  intros Ht Hl Hmost Hatt Hrun.
  destruct (operation_spent _ _ _ _ _ _ _ Ht Hl Hmost Hatt Hrun) as (phase & R & A & _ & Hph & [S1 S2 S3 _ S5]).
  pose proof (typed_turns _ Ht _ Hl). pose proof (typed_calls _ Ht).
  assert (0 ≤ from_option (potential l limit) (initial_potential l limit) phase ∧
          0 ≤ from_option (attempts_left most) most phase ∧
          0 ≤ from_option (message_room l limit) (initial_room l limit) phase) as (P1 & P2 & P3).
  { destruct phase as [phase|]; cbn [from_option].
    - destruct (Hph _ eq_refl) as [Hwf Hm]. split_and!; [|by apply attempts_left_pos; [lia|apply Hwf|]|by apply message_room_pos].
      assert (phase = Terminal ∨ phase ≠ Terminal) as [->|Hne] by (destruct phase; auto); [done|].
      pose proof (potential_pos _ _ _ Ht Hl Hwf Hne). lia.
    - unfold initial_potential, initial_room, turn_steps, turn_messages, call_steps, MAX_CODE_WAVES. split_and!; nia. }
  assert (initial_potential l limit = limit * (67 * cfg_max_tool_calls_per_turn (al_config l) + 2) + 2) as I1
    by (unfold initial_potential, turn_steps, call_steps, MAX_CODE_WAVES; lia).
  assert (initial_room l limit = limit * (cfg_max_tool_calls_per_turn (al_config l) + 2) + 1) as I2
    by (unfold initial_room, turn_messages; lia).
  assert (R ≤ most * (A + 1)) by lia.
  assert (most * (A + 1) ≤ most * (Z.of_nat (message_count start) + limit * (cfg_max_tool_calls_per_turn (al_config l) + 2) + 3))
    by (apply Z.mul_le_mono_nonneg_l; lia).
  lia.
Qed.
End loop_theorems.

(** ** The loop in the kernel *)
Section built_theorems.
Context `{JV : JsonValue} `{LS : !LoopSerde} `{HS : Hashing}.
Context {Model ToolHandle Evaluator : Type} (tool_spec : ToolHandle → ToolSpec).
Context `{!TextSerde DigestConfiguration}.

(** A loop runtime is built exactly when the context and model revisions, the
    names and revisions of the tools and the parts of Code Mode are present,
    names are distinct, the nested executor is never replayed and the
    configuration can be encoded; the kernel refuses none of the bindings. It
    runs the loop of exactly these parts, its digest covers all of them, and
    it resolves a name and revision exactly to the adapter offered under them. *)
Theorem build_runtime_exact config context (model : ModelBinding (Model:=Model))
    (tools : list (AgentToolBinding (ToolHandle:=ToolHandle)))
    (code : option (CodeModeBinding (ToolHandle:=ToolHandle) (Evaluator:=Evaluator))) :
  (∀ s, sha256 s ≠ "") →
  match build_runtime tool_spec config context model tools code with
  | Ok (l, rt) =>
      offered tool_spec config context model tools code ∧
      l = built_loop tool_spec config context model tools code ∧
      built tool_spec config context model tools code rt
  | Err _ => ¬ offered tool_spec config context model tools code
  end.
Proof. intros Hsha. by apply build_spec. Qed.

Section built_loop_facts.
Context (config : AgentLoopConfig) (context : ContextBinding) (model : ModelBinding (Model:=Model)).
Context (tools : list (AgentToolBinding (ToolHandle:=ToolHandle))).
Context (code : option (CodeModeBinding (ToolHandle:=ToolHandle) (Evaluator:=Evaluator))).
Abbreviation l := (built_loop tool_spec config context model tools code).
Abbreviation effects := (offered_effects tool_spec model tools code).

(** Every effect a phase awaits is bound. *)
Lemma awaited_bound phase es e :
  awaits l phase es → e ∈ es → er_binding e ∈ eb_name <$> effects.
Proof.
  assert (∀ n, n ∈ eb_name <$> (from_option (code_effects (Model:=Model) tool_spec) [] code) → n ∈ eb_name <$> effects) as Hcode.
  { intros n Hn. unfold offered_effects. rewrite !fmap_cons, fmap_app, !elem_of_cons, elem_of_app. auto. }
  assert (∀ b, b ∈ tools → tool_effect_binding (tool_name tool_spec b) ∈ eb_name <$> effects) as Htool.
  { intros b Hb. unfold offered_effects. rewrite !fmap_cons, fmap_app, !elem_of_cons, elem_of_app. right. right. left.
    rewrite <- list_fmap_compose. apply list_elem_of_fmap. by exists b. }
  destruct phase; cbn [awaits].
  - by intros -> ?%elem_of_nil.
  - intros (r & v & _ & ->) ->%list_elem_of_singleton. left.
  - intros (v & _ & ->) ->%list_elem_of_singleton. right. left.
  - intros (v & _ & ->) ->%list_elem_of_singleton. right. left.
  - by intros -> ?%elem_of_nil.
  - intros (tool & Hf & v & _ & ->) ->%list_elem_of_singleton. cbn.
    unfold find_tool in Hf. apply List.find_some in Hf as [Hin _].
    apply list_elem_of_In in Hin. cbn in Hin. apply list_elem_of_fmap in Hin as (b & -> & Hb).
    by apply Htool.
  - intros ([c Hc] & v & _ & ->) ->%list_elem_of_singleton. apply Hcode. cbn in Hc. destruct code as [k|]; [|done].
    cbn. left.
  - intros (c & Hc & Hcol & _) Hin. apply Hcode. cbn in Hc. destruct code as [k|]; [|done]. injection Hc as <-.
    apply (collect_elem _ _ _ _ Hcol) in Hin as (a & _ & Ha).
    unfold nested_effect in Ha. apply result_bind_ok in Ha as (v & _ & [= <-]). cbn. right. left.
  - by intros -> ?%elem_of_nil.
Qed.

Lemma built_binding_reserved : model_binding_reserved l.
Proof.
  split.
  - intros tool (b & -> & _)%list_elem_of_fmap. cbn. intros Heq.
    pose proof (tool_effect_binding_starts (tool_name tool_spec b)) as Hs. by rewrite Heq in Hs.
  - intros c Hc. cbn in Hc. destruct code as [k|]; [|done]. injection Hc as <-. cbn. intros Heq.
    pose proof (tool_effect_binding_starts (tool_name tool_spec (kb_nested k))) as Hs. by rewrite Heq in Hs.
Qed.

Lemma built_resolves (rt : Runtime (LoopAdapter Model ToolHandle Evaluator)) active e :
  built tool_spec config context model tools code rt → a_manifest active = rt_manifest rt →
  er_binding e ∈ eb_name <$> effects → ∃ intent, resolve_intent active rt e = Ok intent.
Proof.
  intros (_ & _ & _ & _ & _ & Heb & Hre) Ha (b & Hb & Hin)%list_elem_of_fmap.
  unfold resolve_intent. rewrite Ha, (proj2 (Heb _ (eb_revision b))) by eauto. cbn.
  rewrite (proj2 (Hre _ _ (eb_adapter b))) by eauto 10. cbn. eauto.
Qed.
End built_loop_facts.

Lemma named_events_valid (events : list NewEvent) :
  Forall (λ e, kind e ≠ "") events → validate_new_events events = Ok tt.
Proof.
  intros HF. unfold validate_new_events.
  assert (existsb (λ e, String.eqb (kind e) "") events = false) as ->; [|done].
  induction HF as [|e events He _ IH]; cbn; [done|]. by rewrite (proj2 (String.eqb_neq _ _) He).
Qed.

Lemma message_events_named ms evs : message_events ms = Ok evs → Forall (λ e, kind e ≠ "") evs.
Proof.
  intros [_ HF]%message_events_kinds. eapply Forall_impl; [exact HF|]. by intros e ->.
Qed.

Lemma appends_valid events (ms : list Message) : appends events ms → validate_new_events events = Ok tt.
Proof.
  intros (evs & others & Hm & -> & Ho). apply named_events_valid, Forall_app.
  split; [by eapply message_events_named|]. eapply Forall_impl; [exact Ho|]. intros e He Hk.
  unfold other_event in He. rewrite Hk in He.
  repeat (apply elem_of_cons in He as [He|He]; [discriminate He|]). by apply elem_of_nil in He.
Qed.

Lemma checkpoint_version (phase : LoopPhase) c :
  checkpoint phase = Ok c → schema_version c = CHECKPOINT_SCHEMA_VERSION.
Proof. unfold checkpoint. by intros (v & _ & [= <-])%result_bind_ok. Qed.

(** C6. The kernel accepts every decision, abandonment and cancellation of a loop
    it runs in the runtime [build_runtime] made for it: the checkpoint has the
    manifest's schema version, an effect batch is not empty and every request
    of it resolves to a bound adapter, an appending decision appends
    something, and no event has an empty kind. *)
Theorem decisions_accepted config context (model : ModelBinding (Model:=Model))
    (tools : list (AgentToolBinding (ToolHandle:=ToolHandle)))
    (code : option (CodeModeBinding (ToolHandle:=ToolHandle) (Evaluator:=Evaluator))) l rt active :
  (∀ s, sha256 s ≠ "") → build_runtime tool_spec config context model tools code = Ok (l, rt) →
  a_manifest active = rt_manifest rt →
  let version := checkpoint_schema_version (a_manifest active) in
  rt_plugin rt = loop_plugin l ∧
  (∀ input d, decide_loop l input = Ok d →
     schema_version (decision_checkpoint d) = version ∧
     match d with
     | InvokeEffects _ effects =>
         effects ≠ [] ∧ ∃ intents, collect (resolve_intent active rt) effects = Ok intents
     | _ => (∃ effect, EffectStore.decision_effect d = Ok effect) ∧
            validate_new_events (decision_events d) = Ok tt
     end) ∧
  (∀ input a, abandon_loop l input = Ok a →
     schema_version (ab_checkpoint a) = version ∧ validate_new_events (ab_events a) = Ok tt) ∧
  (∀ input t, cancel_loop l input = Ok t →
     schema_version (ct_checkpoint t) = version ∧ validate_new_events (ct_events t) = Ok tt).
Proof.
  intros Hsha Hbuild Ha. cbv zeta. pose proof (build_spec tool_spec config context model tools code Hsha) as HB.
  rewrite Hbuild in HB. destruct HB as (_ & -> & Hb). pose proof Hb as (Hp & _ & _ & Hv & _). rewrite Ha, Hv.
  split_and!; [done|..].
  - intros input d (before & _ & ms & after & _ & Hck & Happ & Hd)%decide_refines.
    split; [by eapply checkpoint_version|]. destruct d as [c es|c es|c es|c es|c es reason]; cbn in *.
    + destruct Hd as [Haw Hne]. split; [done|]. apply collect_total. intros e He.
      eapply built_resolves; [done|done|]. by eapply awaited_bound.
    + destruct Hd as [Hne _]. split; [|by eapply appends_valid]. destruct es; [done|eauto].
    + split; [eauto|by eapply appends_valid].
    + split; [eauto|by eapply appends_valid].
    + split; [eauto|by eapply appends_valid].
  - intros input a (p & _ & Hck & results & Hev & _)%abandon_ends.
    split; [by eapply checkpoint_version|]. by eapply named_events_valid, message_events_named.
  - intros input t (p & _ & Hck & results & Hev & _)%cancel_ends.
    split; [by eapply checkpoint_version|]. by eapply named_events_valid, message_events_named.
Qed.

(** A loop built with a model-turn limit asks the model at most that often in
    one operation, however often its context overflows or is compacted and
    whatever its tools answer. *)
Theorem model_requests_bounded `{!LoopSerdeLaws} config context (model : ModelBinding (Model:=Model))
    (tools : list (AgentToolBinding (ToolHandle:=ToolHandle)))
    (code : option (CodeModeBinding (ToolHandle:=ToolHandle) (Evaluator:=Evaluator))) l rt limit ds c :
  (∀ s, sha256 s ≠ "") → build_runtime tool_spec config context model tools code = Ok (l, rt) →
  cfg_max_model_turns config = Some limit → typed_loop l → loop_run l ds c → model_requests ds ≤ limit.
Proof.
  intros Hsha Hbuild Hl Ht Hrun. pose proof (build_spec tool_spec config context model tools code Hsha) as HB.
  rewrite Hbuild in HB. destruct HB as (_ & -> & _).
  destruct (run_turns _ limit _ _ Ht Hl (built_binding_reserved _ _ _ _ _) Hrun) as (phase & _ & Hwf & Hle).
  etrans; [exact Hle|]. pose proof (typed_turns _ Ht _ Hl). destruct phase as [p|]; cbn; [|lia].
  pose proof (wf_turn_limit _ _ (Hwf _ eq_refl) _ Hl). by destruct p.
Qed.
End built_theorems.

(** ** The theorems on the run of [LoopConcrete] *)
Module LoopWitnesses.
Import Json LoopScenario.

Lemma decide_refines_machine_witness :
  ∃ (before : option LoopPhase) ms after,
    resumes (saved d3) before ∧ transition a_loop before ms after ∧ realizes a_loop d4 ms after.
Proof.
  apply (decide_refines_machine a_loop i4 d4). apply decided_ok. vm_compute. reflexivity.
Defined.

Lemma operation_transcript_witness :
  balanced (messages_of (run_events [d1; d2; d3; d4; d5; d6; d7])).
Proof.
  destruct (operation_transcript a_loop _ _ a_loop_typed whole_run) as (phase & Hres & _ & Hend).
  apply Hend. destruct Hres as (p & Hp & ->). f_equal.
  assert (match decode_checkpoint (decision_checkpoint d7) with Ok Terminal => true | _ => false end = true) as Hd
    by (vm_compute; reflexivity).
  rewrite Hp in Hd. destruct p; try discriminate Hd. reflexivity.
Defined.

Lemma interruption_balances_witness :
  ∃ t, cancel_loop a_loop cancellation = Ok t ∧
    balanced (messages_of (run_events [d1; d2; d3; d4] ++ ct_events t)).
Proof.
  assert (is_ok (cancel_loop a_loop cancellation) = true) as Hok by (vm_compute; reflexivity).
  destruct (cancel_loop a_loop cancellation) as [t|] eqn:Et; [|discriminate Hok]. exists t. split; [reflexivity|].
  exact (proj1 (proj2 (interruption_balances a_loop _ _ a_loop_typed asked_run) cancellation t eq_refl Et)).
Defined.

Lemma stored_checkpoints_wf_witness :
  ∃ phase, decode_checkpoint (decision_checkpoint d4) = Ok phase ∧ phase_wf a_loop phase.
Proof. exact (proj2 (stored_checkpoints_wf a_loop _ _ a_loop_typed asked_run)). Defined.

Lemma stored_app sequence evs1 evs2 :
  stored sequence (evs1 ++ evs2) = stored sequence evs1 ++ stored (sequence + Z.of_nat (length evs1)) evs2.
Proof.
  revert sequence. induction evs1 as [|e evs1 IH]; intros sequence; cbn [app stored length]; [by rewrite Z.add_0_r|].
  rewrite IH. do 3 f_equal. lia.
Qed.
Lemma stored_kinds sequence evs :
  (λ e, (sev_kind e, sev_payload e)) <$> stored sequence evs = (λ e, (kind e, payload e)) <$> evs.
Proof. revert sequence. induction evs as [|e evs IH]; intros sequence; cbn; [done|]. by rewrite IH. Qed.

Lemma operation_step ds c evs i d : operation_run a_loop [] ds c (stored 1 evs) → li_checkpoint i = c →
  li_events i = stored 1 evs → decide_loop a_loop i = Ok d →
  operation_run a_loop [] (ds ++ [d]) (saved d) (stored 1 (evs ++ decision_events d)).
Proof.
  intros Hrun Hc He Hd. rewrite stored_app. eapply operation_decide; [exact Hrun|exact Hc|exact He|exact Hd|]. apply stored_kinds.
Qed.

(** The operation of the example, with its history. *)
Lemma example_operation : operation_run a_loop [] [d1; d2; d3; d4] (saved d4) (stored 1 (h3 ++ decision_events d4)).
Proof.
  apply (operation_step [d1; d2; d3] (saved d3) h3 i4 d4); [|reflexivity|reflexivity|apply decided_ok; vm_compute; reflexivity].
  assert (h1 ++ decision_events d2 = h1) as E by (vm_compute; reflexivity).
  apply (operation_step [d1; d2] (saved d2) h1 i3 d3); [|reflexivity|reflexivity|apply decided_ok; vm_compute; reflexivity].
  enough (operation_run a_loop [] [d1; d2] (saved d2) (stored 1 (h1 ++ decision_events d2))) as Hx by (rewrite E in Hx; exact Hx).
  apply (operation_step [d1] (saved d1) h1 i2 d2); [|reflexivity|reflexivity|apply decided_ok; vm_compute; reflexivity].
  apply (operation_step [] None [] i1 d1); [|reflexivity|reflexivity|apply decided_ok; vm_compute; reflexivity].
  apply operation_nil.
Qed.

Lemma decisions_bounded_witness :
  Z.of_nat (length [d1; d2; d3; d4]) ≤ 3 * (67 * 2 + 2) + 2 + 2 * (1 * (0 + 3 * (2 + 2) + 3)).
Proof.
  exact (decisions_bounded a_loop [] [d1; d2; d3; d4] _ _ 3 1 a_loop_typed eq_refl ltac:(lia)
    (projecting_attempts a_loop _ eq_refl) example_operation).
Defined.

Lemma build_runtime_exact_witness :
  ∃ rt, built_runtime = Ok (a_loop, rt) ∧ built id config full_history model [read_tool] no_code rt.
Proof.
  destruct built_ok as [rt Hrt]. exists rt. split; [exact Hrt|].
  pose proof (build_runtime_exact id config full_history model [read_tool] no_code sha256_nonempty) as HB.
  unfold built_runtime in Hrt. rewrite Hrt in HB. exact (proj2 (proj2 HB)).
Defined.

Lemma decisions_accepted_witness :
  ∃ rt, built_runtime = Ok (a_loop, rt) ∧ rt_plugin rt = loop_plugin a_loop ∧
    schema_version (decision_checkpoint d4) = checkpoint_schema_version (rt_manifest rt).
Proof.
  destruct built_ok as [rt Hrt]. exists rt. split; [exact Hrt|].
  pose (active := {| a_agent_id := MkId 1; a_operation_id := op; a_command := prompt;
    a_manifest := rt_manifest rt; a_checkpoint := saved d3; a_transition_version := 1; a_phase := NeedDecision;
    a_input_effect_batch_id := None; a_newly_activated := false |}).
  destruct (decisions_accepted id config full_history model [read_tool] no_code a_loop rt active
    sha256_nonempty Hrt eq_refl) as (Hp & Hd & _).
  split; [exact Hp|]. apply (Hd i4). apply decided_ok. vm_compute. reflexivity.
Defined.

Lemma model_requests_bounded_witness : model_requests [d1; d2; d3; d4; d5; d6; d7] ≤ 3.
Proof.
  destruct built_ok as [rt Hrt].
  exact (model_requests_bounded id config full_history model [read_tool] no_code a_loop rt 3 _ _
    sha256_nonempty Hrt eq_refl a_loop_typed whole_run).
Defined.
End LoopWitnesses.
