(* ===== verification/ContextTheorems.v ===== *)
(** * The context of a session and its recorded usage *)
From S2P Require Import Prelude Json State Inspection Text Messages PendingTools TurnContext Compaction.
From S2P Require Import LoopFormat AgentLoop AgentDecide LoopRuntime LoopRefinement LoopConcrete.
(** ** Recorded usage *)
Section usage.
Context `{JV : JsonValue} `{LS : !LoopSerde}.
Implicit Types (u : TokenUsage) (us : list TokenUsage) (effects : list EffectSnapshot).

(** What one model effect contributes: nothing known, no usage, or some. *)
Definition effect_usage (effect : EffectSnapshot) : option (option TokenUsage) :=
  match es_outcome effect with
  | Some (Success value) =>
      match from_value (A:=ModelEffectOutput) value with
      | Ok (ContextWindowExceeded _) => Some None
      | Ok (ModelCompleted response) => u ← resp_usage response; Some (Some u)
      | Err _ => None
      end
  | _ => None
  end.

Definition usage_sum us : TokenUsage := {|
  usage_input := foldr Z.add 0 (usage_input <$> us);
  usage_output := foldr Z.add 0 (usage_output <$> us);
  usage_cache_read := foldr Z.add 0 (usage_cache_read <$> us);
  usage_cache_write := foldr Z.add 0 (usage_cache_write <$> us) |}.

Definition usage_fits u : Prop :=
  usage_input u ≤ u64_max ∧ usage_output u ≤ u64_max ∧ usage_cache_read u ≤ u64_max ∧
  usage_cache_write u ≤ u64_max.
#[global] Instance usage_fits_dec u : Decision (usage_fits u).
Proof. unfold usage_fits. apply _. Defined.
Definition usage_natural u : Prop :=
  0 ≤ usage_input u ∧ 0 ≤ usage_output u ∧ 0 ≤ usage_cache_read u ∧ 0 ≤ usage_cache_write u.

(** The reference: the sum over the completed responses, when every model effect
    is known, at least one completed, and no counter overflows. *)
Definition reference_usage effects : option TokenUsage :=
  known ← mapM effect_usage effects;
  let us := omap id known in
  if decide (us = []) then None
  else if decide (usage_fits (usage_sum us)) then Some (usage_sum us) else None.

Definition usage_add u1 u2 : TokenUsage := {|
  usage_input := usage_input u1 + usage_input u2;
  usage_output := usage_output u1 + usage_output u2;
  usage_cache_read := usage_cache_read u1 + usage_cache_read u2;
  usage_cache_write := usage_cache_write u1 + usage_cache_write u2 |}.

Lemma add_usage_spec u1 u2 :
  add_usage u1 u2 = if decide (usage_fits (usage_add u1 u2)) then Some (usage_add u1 u2) else None.
Proof.
  unfold add_usage, checked_add_u64, usage_fits, usage_add. cbn.
  destruct (Z.leb_spec (usage_input u1 + usage_input u2) u64_max); cbn; [|by rewrite decide_False by lia].
  destruct (Z.leb_spec (usage_output u1 + usage_output u2) u64_max); cbn; [|by rewrite decide_False by lia].
  destruct (Z.leb_spec (usage_cache_read u1 + usage_cache_read u2) u64_max); cbn; [|by rewrite decide_False by lia].
  destruct (Z.leb_spec (usage_cache_write u1 + usage_cache_write u2) u64_max); cbn; [|by rewrite decide_False by lia].
  by rewrite decide_True by lia.
Qed.

Lemma usage_add_sum u1 u2 us :
  usage_add (usage_add u1 u2) (usage_sum us) = usage_add u1 (usage_sum (u2 :: us)).
Proof. unfold usage_add, usage_sum. cbn. f_equal; lia. Qed.

Lemma usage_sum_natural us : Forall usage_natural us → usage_natural (usage_sum us).
Proof.
  induction 1 as [|u us Hu _ IH]; [by unfold usage_natural|]. unfold usage_natural, usage_sum in *. cbn in *. lia.
Qed.

Lemma total_usage_spec effects : ∀ total observed,
  (∀ e u, e ∈ effects → effect_usage e = Some (Some u) → usage_natural u) →
  usage_natural total → usage_fits total →
  total_usage effects total observed =
    (known ← mapM effect_usage effects;
     let us := omap id known in
     if negb observed && bool_decide (us = []) then None
     else if decide (usage_fits (usage_add total (usage_sum us)))
          then Some (usage_add total (usage_sum us)) else None).
Proof.
  induction effects as [|e effects IH]; intros total observed Hnat Htn Htf.
  { cbn. replace (usage_add total _) with total
      by (unfold usage_add; destruct total; cbn; f_equal; lia).
    case_decide; [|done]. by destruct observed. }
  assert (∀ e' u, e' ∈ effects → effect_usage e' = Some (Some u) → usage_natural u) as Hnat'.
  { intros e' u He'. apply Hnat. by right. }
  specialize (Hnat e). cbn [mapM total_usage]. remember (mapM effect_usage effects) as rest eqn:Ek.
  unfold effect_usage in Hnat |- *. destruct (es_outcome e) as [[value|message]|]; [|done..].
  destruct (from_value value) as [[response|message]|error]; cbn; [| |done].
  - destruct (resp_usage response) as [u|]; cbn; [|done]. specialize (Hnat u ltac:(left) eq_refl).
    rewrite add_usage_spec. case_decide as Hf; cbn.
    + rewrite IH by (done || unfold usage_natural, usage_add in *; cbn; lia).
      destruct rest as [known|]; cbn; [|done]. rewrite usage_add_sum, andb_false_r. done.
    + destruct rest as [known|]; cbn; [|done]. rewrite andb_false_r, decide_False; [done|]. intros Hf'. apply Hf.
      assert (Forall usage_natural (omap id known)) as HN.
      { apply Forall_forall. intros u' (o & Ho & Hu')%list_elem_of_omap. cbn in Hu'. subst o.
        symmetry in Ek. apply mapM_Some in Ek. apply list_elem_of_lookup in Ho as [i Hi].
        destruct (Forall2_lookup_r _ _ _ _ _ Ek Hi) as (e' & He' & Hu). eapply Hnat', Hu.
        by eapply list_elem_of_lookup_2. }
      apply usage_sum_natural in HN. unfold usage_fits, usage_natural, usage_add, usage_sum in *. cbn in *. lia.
  - rewrite IH by done. by destruct rest.
Qed.

(** The recorded usage of a session is the sum, counter by counter, over the
    responses of its model and summary effects, and is withheld exactly when
    one of them is unsettled, failed, undecodable or reported none, when none
    completed, or when a counter passes the 64-bit range; overflow is never
    wrapped or saturated. *)
Theorem recorded_usage_exact (snapshot : SessionSnapshot) :
  (∀ v response u, from_value v = Ok (ModelCompleted response) → resp_usage response = Some u →
     usage_natural u) →
  recorded_token_usage snapshot =
    reference_usage (List.filter is_model_effect (session_effects snapshot)).
Proof.
  intros Hnat. unfold recorded_token_usage. rewrite total_usage_spec; [|..|done|done].
  - unfold reference_usage. destruct (mapM _ _) as [known|]; cbn; [|done].
    set (us := omap id known). replace (usage_add _ (usage_sum us)) with (usage_sum us).
    2: { unfold usage_add, usage_sum. cbn. done. }
    cbn. case_bool_decide as Hnil; by destruct (decide (us = [])).
  - intros e u _. unfold effect_usage. repeat case_match; try done.
    destruct (resp_usage response) eqn:Eu; cbn; [|done]. intros [= <-]. eauto.
Qed.
End usage.

(** ** The context of a session *)
Section history.
Context `{JV : JsonValue} `{LS : !LoopSerde}.
Abbreviation Entry := (ContextOrigin * Message)%type.
Implicit Types (entries : list Entry) (g : Gathered) (events : list SemanticEvent).

Definition sequences entries : list Z := org_sequence <$> entries.*1.
Definition increasing (l : list Z) : Prop := StronglySorted Z.lt l.
(** The boundary of a checkpoint is a message of the history. *)
Definition boundary_in (checkpoint : option ActivatedCheckpoint) entries : Prop :=
  ∀ c, checkpoint = Some c → ack_covered_through_sequence c ∈ sequences entries.

Lemma sequences_app entries1 entries2 :
  sequences (entries1 ++ entries2) = sequences entries1 ++ sequences entries2.
Proof. unfold sequences. by rewrite !fmap_app. Qed.

Lemma sequences_snoc entries (e : Entry) :
  sequences (entries ++ [e]) = sequences entries ++ [org_sequence e.1].
Proof. apply sequences_app. Qed.

Lemma increasing_app (l1 l2 : list Z) :
  increasing (l1 ++ l2) ↔ increasing l1 ∧ increasing l2 ∧ ∀ x y, x ∈ l1 → y ∈ l2 → x < y.
Proof.
  unfold increasing. induction l1 as [|x l1 IH]; cbn.
  { split; [|naive_solver]. intros H. split_and!; [constructor|done|by intros ? ? ?%elem_of_nil]. }
  split.
  - intros [H1 H2]%StronglySorted_inv. apply IH in H1 as (H1 & H3 & H4). apply Forall_app in H2 as [H5 H6].
    split_and!; [by constructor|done|]. intros x' y [->|Hx]%elem_of_cons Hy; [|by apply H4].
    by apply (proj1 (Forall_forall _ _) H6).
  - intros ([H1 H5]%StronglySorted_inv & H2 & H3). constructor.
    + apply IH. split_and!; [done..|]. intros x' y Hx. apply H3. by right.
    + apply Forall_app. split; [done|]. apply Forall_forall. intros y Hy. apply H3; [left|done].
Qed.

(** What gathering keeps true, over events up to the sequence [bound]. *)
Record gathered_ok g (bound : Z) : Prop := {
  go_increasing : increasing (sequences (ga_entries g));
  go_bound : ∀ s, s ∈ sequences (ga_entries g) → s ≤ bound;
  go_set : ∀ s, s ∈ ga_message_sequences g ↔ s ∈ sequences (ga_entries g);
  go_boundary : boundary_in (ga_checkpoint g) (ga_entries g);
}.

Lemma gathered_weaken g bound bound' : gathered_ok g bound → bound ≤ bound' → gathered_ok g bound'.
Proof. intros [H1 H2 H3 H4] Hle. split; try done. intros s Hs. specialize (H2 s Hs). lia. Qed.

Lemma activated_in event (g : Gathered) current c bound :
  gathered_ok g bound → activated_checkpoint event (ga_message_sequences g) current = Ok c →
  ack_covered_through_sequence c ∈ sequences (ga_entries g).
Proof.
  intros Hg. unfold activated_checkpoint. intros (d & _ & E)%result_bind_ok.
  case_match; [done|]. case_decide as Hin; [done|]. case_match; [done|]. injection E as <-. cbn.
  apply (go_set _ _ Hg). destruct (decide (cce_covered_through_sequence d ∈ ga_message_sequences g)); done.
Qed.

Lemma gather_ok g event g' bound :
  gathered_ok g bound → bound < sev_sequence event → gather g event = Ok g' →
  gathered_ok g' (sev_sequence event).
Proof.
  intros Hg Hlt. assert (gathered_ok g (sev_sequence event)) as Hg' by (eapply gathered_weaken; [done|lia]).
  unfold gather. cbv zeta. case_match.
  { intros (m & _ & E)%result_bind_ok. case_decide as Hd; [done|]. injection E as <-.
    split; cbn [ga_entries ga_message_sequences ga_checkpoint].
    - rewrite sequences_snoc. apply increasing_app. split_and!; [apply Hg|repeat constructor|].
      intros x y Hx ->%list_elem_of_singleton. pose proof (go_bound _ _ Hg _ Hx). cbn. lia.
    - intros s. rewrite sequences_snoc, elem_of_app, list_elem_of_singleton. cbn.
      intros [Hs| ->]; [|done]. by apply Hg'.
    - intros s. rewrite sequences_snoc, elem_of_union, elem_of_singleton, elem_of_app, list_elem_of_singleton.
      rewrite (go_set _ _ Hg). cbn. tauto.
    - intros c Hc. rewrite sequences_snoc. apply elem_of_app. left. by apply (go_boundary _ _ Hg). }
  case_match; [done|]. intros ([marked receipted] & _ & E)%result_bind_ok. destruct marked.
  { injection E as <-. by destruct Hg'; split. }
  apply result_bind_ok in E as ([annotation|] & _ & E).
  { case_decide; [done|]. injection E as <-. by destruct Hg'; split. }
  case_match.
  { apply result_bind_ok in E as (c & Hc & [= <-]). destruct Hg'; split; try done.
    cbn. intros c' [= <-]. by eapply activated_in. }
  case_match; [done|]. case_match; [done|]. case_match; [|by injection E as <-].
  by apply result_bind_ok in E as (? & _ & [= <-]).
Qed.

Lemma gather_all_ok events : ∀ g bound g',
  gathered_ok g bound → increasing (sev_sequence <$> events) →
  Forall (λ e, bound < sev_sequence e) events → gather_all g events = Ok g' → ∃ bound', gathered_ok g' bound'.
Proof.
  induction events as [|event events IH]; intros g bound g' Hg HS HF E; cbn in E.
  { injection E as <-. eauto. }
  apply result_bind_ok in E as (g1 & H1 & E). apply Forall_cons in HF as [Hlt HF].
  cbn in HS. apply StronglySorted_inv in HS as [HS HF'].
  eapply (IH g1); [by eapply gather_ok|done| |done]. exact (proj1 (Forall_fmap _ _ _) HF').
Qed.

(** ** Receipts *)

Lemma last_sequence_in (held : list Entry) e : last held = Some e → org_sequence e.1 ∈ sequences held.
Proof.
  intros Hl. apply last_Some in Hl as (held' & ->). rewrite sequences_snoc. apply elem_of_app. right.
  by left.
Qed.

Lemma increasing_last (held : list Entry) e s :
  increasing (sequences held) → last held = Some e → s ∈ sequences held → s ≤ org_sequence e.1.
Proof.
  intros HI Hl. apply last_Some in Hl as (held' & ->). rewrite sequences_snoc in *.
  apply increasing_app in HI as (_ & _ & HI). intros [Hs| ->%list_elem_of_singleton]%elem_of_app; [|done].
  specialize (HI s (org_sequence e.1) Hs ltac:(by left)). lia.
Qed.
Lemma increasing_head (held : list Entry) e s :
  increasing (sequences held) → head held = Some e → s ∈ sequences held → org_sequence e.1 ≤ s.
Proof.
  destruct held as [|e' held]; [done|]. intros HI [= ->]. cbn. apply StronglySorted_inv in HI as [_ HF].
  intros [->|Hs]%elem_of_cons; [done|]. pose proof (proj1 (Forall_forall _ _) HF _ Hs). lia.
Qed.

(** The receipt of an operation takes the place of its last message, and a
    boundary inside the operation moves there. *)
Lemma receipt_ok strategy (held : list Entry) checkpoint entry checkpoint' :
  increasing (sequences held) → receipt held strategy checkpoint = Ok (entry, checkpoint') →
  org_sequence entry.1 ∈ sequences held ∧
  ∀ before after : list Entry, boundary_in checkpoint (before ++ held ++ after) →
    boundary_in checkpoint' (before ++ entry :: after).
Proof.
  intros HI. unfold receipt. destruct (head held) as [[first m1]|] eqn:Eh; [|done].
  destruct (last held) as [[final m2]|] eqn:El; [|done].
  intros (text & _ & [= <- <-])%result_bind_ok. cbn.
  pose proof (last_sequence_in _ _ El) as Hlast. cbn in Hlast. split; [done|].
  intros before after Hb c' Hc'. destruct checkpoint as [c|]; [|done]. cbn in Hc'. injection Hc' as <-.
  specialize (Hb c eq_refl). rewrite !sequences_app, !elem_of_app in Hb.
  change (before ++ (final, user_text text) :: after) with (before ++ [(final, user_text text)] ++ after).
  rewrite !sequences_app, !elem_of_app.
  assert (org_sequence final ∈ sequences [(final, user_text text)]) as Hfin by by left.
  destruct (Z.leb_spec (org_sequence first) (ack_covered_through_sequence c)); cbn; [|].
  - destruct (Z.ltb_spec (ack_covered_through_sequence c) (org_sequence final)); cbn; [by right; left|].
    destruct Hb as [Hb|[Hb|Hb]]; [by left| |by right; right]. right. left.
    pose proof (increasing_last _ _ _ HI El Hb). cbn in *.
    replace (ack_covered_through_sequence c) with (org_sequence final) by lia. done.
  - destruct Hb as [Hb|[Hb|Hb]]; [by left| |by right; right].
    pose proof (increasing_head _ _ _ HI Eh Hb). cbn in *. lia.
Qed.

Lemma increasing_mid (before held after : list Entry) :
  increasing (sequences (before ++ held ++ after)) → increasing (sequences held).
Proof. rewrite !sequences_app, !increasing_app. naive_solver. Qed.

(** Replacing one run of messages by a later or the same position of it. *)
Lemma increasing_replace (before held after : list Entry) e :
  increasing (sequences (before ++ held ++ after)) → org_sequence e.1 ∈ sequences held →
  increasing (sequences (before ++ e :: after)).
Proof.
  rewrite !sequences_app, !increasing_app. intros (H1 & (H2 & H3 & H4) & H5) He.
  split_and!; [done| |].
  - constructor; [done|]. apply Forall_forall. intros y Hy. by apply H4.
  - intros x y Hx. change (sequences (e :: after)) with (org_sequence e.1 :: sequences after).
    intros [->|Hy]%elem_of_cons; apply H5; try done; apply elem_of_app; auto.
Qed.

Definition is_receipted (receipted : gset OperationId) (active : OperationId) (e : Entry) : Prop :=
  org_operation_id e.1 ≠ active ∧ org_operation_id e.1 ∈ receipted.

Lemma replace_from_ok receipted active strategy entries : ∀ (before held : list Entry) checkpoint out checkpoint',
  Forall (is_receipted receipted active) held →
  increasing (sequences (before ++ held ++ entries)) → boundary_in checkpoint (before ++ held ++ entries) →
  replace_from entries receipted active strategy held checkpoint = Ok (out, checkpoint') →
  increasing (sequences (before ++ out)) ∧ boundary_in checkpoint' (before ++ out).
Proof.
  induction entries as [|entry entries IH]; intros before held checkpoint out checkpoint' Hheld HI Hb E; cbn in E.
  { case_bool_decide as Hl.
    - injection E as <- <-. apply nil_length_inv in Hl. subst held. done.
    - apply result_bind_ok in E as ([e c] & Hr & [= <- <-]).
      destruct (receipt_ok _ _ _ _ _ (increasing_mid _ _ _ HI) Hr) as [He Hb']. split; [by eapply increasing_replace|by apply Hb']. }
  apply result_bind_ok in E as ([[flushed held'] checkpoint1] & Hflush & E).
  assert (increasing (sequences ((before ++ flushed) ++ held' ++ entry :: entries)) ∧
          boundary_in checkpoint1 ((before ++ flushed) ++ held' ++ entry :: entries) ∧
          Forall (is_receipted receipted active) held' ∧
          ∀ e, head held' = Some e → org_operation_id e.1 = org_operation_id entry.1)
    as (HI1 & Hb1 & Hheld' & Hhead).
  { match type of Hflush with (if ?b then _ else _) = _ => destruct b eqn:Eclosed end.
    - apply result_bind_ok in Hflush as ([e c] & Hr & [= <- <- <-]). rewrite <- app_assoc.
      destruct (receipt_ok _ _ _ _ _ (increasing_mid _ _ _ HI) Hr) as [He Hb'].
      split_and!; [by eapply increasing_replace|by apply Hb'|constructor|done].
    - injection Hflush as <- <- <-. rewrite app_nil_r. split_and!; [done..|]. intros e He.
      rewrite He in Eclosed. destruct e as [origin m]. apply negb_false_iff in Eclosed.
      by apply bool_decide_eq_true in Eclosed. }
  clear HI Hb Hflush Hheld. match type of E with (if ?b then _ else _) = _ => destruct b eqn:Eop end.
  - apply result_bind_ok in E as ([out1 c1] & Hrec & [= <- <-]). rewrite app_assoc. split_bools.
    eapply (IH _ (held' ++ [entry])); [| | |exact Hrec]; [|by rewrite <- (app_assoc held')..].
    apply Forall_app. by repeat constructor.
  - apply result_bind_ok in E as ([out1 c1] & Hrec & [= <- <-]).
    assert (held' = []) as ->.
    { destruct held' as [|e held']; [done|]. apply Forall_cons in Hheld' as [[Hne Hin] _].
      rewrite (Hhead e eq_refl) in Hne, Hin. by rewrite !bool_decide_true in Eop. }
    replace (before ++ flushed ++ entry :: out1) with (((before ++ flushed) ++ [entry]) ++ out1)
      by (by rewrite <- !app_assoc).
    eapply (IH _ []); [constructor| | |exact Hrec]; by rewrite <- app_assoc.
Qed.

(** The context a strategy is given is ordered by the durable sequence of its
    messages, one origin per message, and its activated checkpoint ends at one
    of these messages, also when receipts took the place of the messages the
    checkpoint ended at. *)
Theorem context_input_ordered active events strategy prompt tools required input :
  increasing (sev_sequence <$> events) → (∀ e, e ∈ events → 0 < sev_sequence e) →
  context_input active events strategy prompt tools required = Ok input →
  length (cx_origins input) = length (cx_messages input) ∧
  increasing (org_sequence <$> cx_origins input) ∧
  ∀ c, cx_checkpoint input = Some c → ack_covered_through_sequence c ∈ org_sequence <$> cx_origins input.
Proof.
  intros HI Hpos. unfold context_input, finish_context_input. intros (g & Hg & E)%result_bind_ok.
  apply result_bind_ok in E as (_ & _ & ([entries checkpoint] & Hr & E)%result_bind_ok).
  apply result_bind_ok in E as (_ & _ & [= <-]).
  assert (∃ bound, gathered_ok g bound) as [bound Hok].
  { eapply (gather_all_ok events _ 0); [|done|by apply Forall_forall|done].
    split; cbn; [constructor|by intros s ?%elem_of_nil|set_solver|done]. }
  assert (increasing (sequences entries) ∧ boundary_in checkpoint entries) as [HI' Hb].
  { unfold replace in Hr. case_decide; [injection Hr as <- <-; by split; apply Hok|].
    eapply (replace_from_ok _ _ _ _ []); [constructor| | |exact Hr]; apply Hok. }
  assert ((annotate (ga_annotations g) <$> entries).*1 = entries.*1) as Horg.
  { rewrite <- list_fmap_compose. by apply list_fmap_ext. }
  unfold context_input_new. cbn [cx_origins cx_messages cx_checkpoint].
  split; [by rewrite !length_fmap|]. rewrite Horg. by split.
Qed.
End history.

(** ** Instances *)
Module ContextWitnesses.
Import Json LoopScenario.

Definition effect (position : Z) (u : TokenUsage) : EffectSnapshot := {|
  es_effect_id := MkId (Z.to_N position); es_position := position; es_binding := MODEL_EFFECT_BINDING;
  es_binding_revision := "1"; es_recovery := SafeToReplay; es_request := None; es_status := Settled;
  es_dispatch_count := 1;
  es_outcome := Some (Success (enc c_output (ModelCompleted
    {| resp_content := []; resp_stop_reason := Stop; resp_usage := Some u; resp_metadata := default_metadata |}))) |}.
Definition usage (n : Z) : TokenUsage :=
  {| usage_input := n; usage_output := 1; usage_cache_read := 0; usage_cache_write := 0 |}.
Definition session (effects : list EffectSnapshot) : SessionSnapshot := {|
  ss_agent_id := MkId 1;
  ss_operations := [{| os_operation_id := op; os_command_id := MkId 1; os_command := prompt; os_position := 1;
    os_status := StCompleted; os_manifest := None; os_checkpoint := None; os_outcome := None;
    os_effect_batches := [{| bs_batch_id := MkId 1; bs_position := 1; bs_effects := effects |}] |}] |}.

(** Two responses add up; one more and the counter overflows. *)
Lemma recorded_usage_exact_witness :
  recorded_token_usage (session [effect 1 (usage 10); effect 2 (usage 20)]) =
    Some {| usage_input := 30; usage_output := 2; usage_cache_read := 0; usage_cache_write := 0 |} ∧
  recorded_token_usage (session [effect 1 (usage 10); effect 2 (usage u64_max)]) = None.
Proof.
  assert (∀ v response u, from_value v = Ok (ModelCompleted response) → resp_usage response = Some u →
    usage_natural u) as Hnat.
  { intros v response u Hv Hu. pose proof (output_value_natural v response u Hv Hu) as Hn.
    unfold natural_usage in Hn. unfold usage_natural. split_bools. lia. }
  split.
  - rewrite (recorded_usage_exact _ Hnat). vm_compute. reflexivity.
  - rewrite (recorded_usage_exact _ Hnat). vm_compute. reflexivity.
Defined.

(** The history of the run of [LoopConcrete], with the checkpoint of a later
    compaction. *)
Definition history : list SemanticEvent :=
  stored 1 (h5 ++ match context_checkpoint_event 3 "Asked and read." with Ok e => [e] | Err _ => [] end).

Lemma context_input_ordered_witness :
  ∃ input, context_input (MkId 9) history FullHistoryStrategy "Help." [] false = Ok input ∧
    increasing (org_sequence <$> cx_origins input) ∧ length (cx_messages input) = 3%nat.
Proof.
  assert (match context_input (MkId 9) history FullHistoryStrategy "Help." [] false with
          | Ok i => (length (cx_messages i) =? 3)%nat | Err _ => false end = true) as Hok
    by (vm_compute; reflexivity).
  destruct (context_input _ _ _ _ _ _) as [i|] eqn:Ei; [|discriminate Hok]. exists i. split; [reflexivity|].
  assert (increasing (sev_sequence <$> history)) as HI.
  { change (sev_sequence <$> history) with (map sev_sequence history).
    assert (map sev_sequence history = [1; 2; 3; 4]) as -> by (vm_compute; reflexivity). repeat constructor. }
  assert (∀ e, e ∈ history → 0 < sev_sequence e) as Hpos.
  { intros e He. assert (sev_sequence e ∈ map sev_sequence history) as Hin
      by (apply list_elem_of_In, in_map, list_elem_of_In, He).
    assert (map sev_sequence history = [1; 2; 3; 4]) as Hm by (vm_compute; reflexivity).
    rewrite Hm in Hin. repeat (apply elem_of_cons in Hin as [->|Hin]; [lia|]). by apply elem_of_nil in Hin. }
  split; [exact (proj1 (proj2 (context_input_ordered _ _ _ _ _ _ _ HI Hpos Ei)))|].
  apply Nat.eqb_eq. exact Hok.
Defined.
End ContextWitnesses.
