(* ===== verification/SessionTheorems.v ===== *)
(** * Sessions driven with the model/tool loop

    The contract of [Contract] over whole lifetimes of the kernel, and its
    instance for the loop of renoa-agent-loop: what the loop does in one
    decision discharges the interface. *)
From S2P Require Import Prelude Json State Schema SchemaFacts Admission OperationStore EffectStore.
From S2P Require Import Cancellation Runtime Drive Invariant AdmissionInv Steps DriveSound Lifetime Contract.
From S2P Require Import AdmissionTheorems Text Messages PendingTools TurnContext Compaction LoopFormat.
From S2P Require Import AgentLoop AgentDecide LoopRuntime PlanningFacts LoopRefinement LoopRuns LoopBuilt.
(** What a loop wrote, as replay returns it. *)
Definition as_new `{JL : JsonLib} (e : SemanticEvent) : NewEvent :=
  {| kind := sev_kind e; payload := sev_payload e |}.

Section kernel.
Context `{KS : KernelSerde} `{!KernelSerdeLaws}.
Implicit Types (db : Database).

(** Replay returns the recorded events. *)
Lemma recorded_replayed db s r l :
  Inv db → sessions db !! s = Some r → recorded db s l →
  ∃ page, load_event_page s START db = Ok page ∧ as_new <$> page_events page = l.
Proof.
  intros HI Hr [Hlen HL]. rewrite (session_view_Some _ _ _ Hr) in Hlen. cbn in Hlen.
  destruct (load_event_page_ok db s r START HI Hr) as (page & Hp & _ & Hseq & Hev); [unfold START; lia|].
  exists page. split; [done|]. assert (length (page_events page) = length l) as Hlens.
  { rewrite <- (length_fmap sev_sequence), Hseq, length_seqZ. unfold START. lia. }
  apply list_eq_same_length with (length l); rewrite ?length_fmap; try done.
  intros i x y _ Hx Hy. apply list_lookup_fmap_Some in Hx as (ev & -> & Hev').
  destruct (HL i y Hy) as (k & v & Hv & Hs & Hi & Hk & Hd).
  destruct (load_events_lookup db s r _ i ev HI Hr Hev Hev') as (k' & v' & Hv' & Hs' & Hi' & Hdec).
  assert (k' = k) as ->.
  { eapply (gapless_inj _ _ _ _ _ _ _ _ (st_sequences _ (inv_static _ HI) s r Hr)); eauto. congruence. }
  simplify_eq. unfold decode_event in Hdec. case_match; [|done].
  apply result_bind_ok in Hdec as (n & _ & (p & Hp' & [= <-])%result_bind_ok).
  unfold decode_json in Hp'. apply ok_or_ok in Hp'. unfold decodes in Hd. rewrite Hd in Hp'. simplify_eq.
  unfold as_new. cbn. rewrite Hk. by destruct y.
Qed.

Lemma lifetime_contract {Adapter : Type} (P : LoopPlugin → Prop)
    (K : list NewEvent → option Checkpoint → Prop) `{!LoopContract P K} R w s r :
  (∀ rt : Runtime Adapter, R rt → P (rt_plugin rt)) → guarded_lifetime (stored_by P) R w →
  sessions (w_db w) !! s = Some r →
  ∃ page c, load_event_page s START (w_db w) = Ok page ∧ session_checkpoint (w_db w) s c ∧
    K (as_new <$> page_events page) c.
Proof.
  intros HRP [[HI _] HR]%guarded_lifetime_ok Hr; [|intros rt Hrt; apply stored_by_allows; auto].
  destruct (kept_reachable P K _ HR s) as (l & c & Hl & Hc & Hk).
  destruct (recorded_replayed _ _ _ _ HI Hr Hl) as (page & Hp & <-). by exists page, c.
Qed.

End kernel.

(** ** The loop keeps a contract *)
Section loop.
Context `{JV : JsonValue} `{LS : !LoopSerde} `{HS : Hashing} `{!LoopSerdeLaws}.

(** The open calls of the messages are those the checkpoint resumes with. *)
Definition transcript_contract (events : list NewEvent) (c : option Checkpoint) : Prop :=
  ∃ phase : option LoopPhase, resumes c phase ∧ (∀ p, phase = Some p → phase_ok p) ∧
    open_calls (messages_of events) ∅ = Some (open_map (waiting phase)).

Definition agent_loop_plugin (plugin : LoopPlugin) : Prop :=
  ∃ l, typed_loop l ∧ plugin = loop_plugin l.

Lemma decided_contract l input d events :
  typed_loop l → decide_loop l input = Ok d → transcript_contract events (li_checkpoint input) →
  transcript_contract (events ++ decision_events d) (Some (decision_checkpoint d)) ∧
  (match d with WaitForInput _ _ | Complete _ _ | FailOperation _ _ _ => True | _ => False end →
   transcript_contract (events ++ decision_events d) None).
Proof.
  intros Ht (before & Hb & ms & after & Htr & Hr)%decide_refines (phase & Hres & Hok & Ho).
  rewrite (resumes_unique _ _ _ Hb Hres) in Htr. clear before Hb.
  pose proof (transition_ok _ _ _ _ Ht Htr Hok) as Hok'.
  assert (open_calls (messages_of (events ++ decision_events d)) ∅ = Some (open_map (phase_calls after))) as Ho'.
  { eapply decision_extends; [|done..]. intros p Hp. apply ok_tools_valid. by apply Hok. }
  split.
  - exists (Some (read_phase after)). split_and!.
    + exists (read_phase after). split; [|done]. apply checkpoint_resumes; [done|apply Hr].
    + intros p [= <-]. by apply read_phase_ok.
    + cbn. by rewrite read_phase_calls.
  - intros Hend. exists None. split_and!; [done..|]. destruct Hr as (_ & _ & Hd).
    assert (after = Terminal) as -> by (by destruct d). exact Ho'.
Qed.

Lemma interrupted_contract phase c events evs :
  (∀ p, phase = Some p → phase_ok p) → ends_operation_of phase c events →
  open_calls (messages_of evs) ∅ = Some (open_map (waiting phase)) →
  transcript_contract (evs ++ events) None.
Proof.
  intros Hok He Ho. exists None. split_and!; [done..|].
  eapply interruption_extends; [|done..]. intros p Hp. apply ok_tools_valid. by apply Hok.
Qed.

#[export] Instance agent_loop_contract : LoopContract agent_loop_plugin transcript_contract.
Proof.
  split.
  - exists None. by split_and!.
  - intros plugin input d c events p out l (al & Ht & ->) Hd He HK.
    destruct (decided_contract al input d l Ht Hd HK) as [H1 H2].
    destruct d as [|? [|]| | |]; cbn in He; simplify_eq; cbn in *; auto.
  - intros plugin input c effects l (al & Ht & ->) Hd HK.
    destruct (decided_contract al input _ l Ht Hd HK) as [H1 _]. cbn in H1. by rewrite app_nil_r in H1.
  - intros plugin input t l (al & Ht & ->) (p & Hp & He)%cancel_ends (phase & Hres & Hok & Ho).
    rewrite (resumes_unique _ _ _ Hp Hres) in He. by eapply interrupted_contract.
  - intros plugin input a l (al & Ht & ->) (p & Hp & He)%abandon_ends (phase & (p' & Hp' & ->) & Hok & Ho).
    rewrite Hp in Hp'. simplify_eq. by eapply interrupted_contract.
Qed.
End loop.

(** ** Built runtimes *)
Section built_agents.
Context `{JV : JsonValue} `{KS : !KernelSerde} `{!KernelSerdeLaws}.
Context `{LS : !LoopSerde} `{HS : Hashing} `{!LoopSerdeLaws}.
Context {Model ToolHandle Evaluator : Type} (tool_spec : ToolHandle → ToolSpec).
Context `{!TextSerde DigestConfiguration}.

(** A runtime that [build_runtime] made, from configurations of Rust's types. *)
Definition built_agent (rt : Runtime (LoopAdapter Model ToolHandle Evaluator)) : Prop :=
  ∃ config context model tools code l,
    build_runtime tool_spec config context model tools code = Ok (l, rt) ∧ typed_loop l.

Lemma built_agent_plugin rt :
  (∀ s, sha256 s ≠ "") → built_agent rt → agent_loop_plugin (rt_plugin rt).
Proof.
  intros Hsha (config & context & model & tools & code & l & Hb & Ht). exists l. split; [done|].
  pose proof (build_spec tool_spec config context model tools code Hsha) as HB. rewrite Hb in HB.
  destruct HB as (_ & -> & Hbuilt). apply Hbuilt.
Qed.

End built_agents.

(** * A session driven end to end

    The concrete JSON library of the loop also serializes the kernel's
    documents; a kernel with it runs a whole operation of a built agent: a
    prompt, a tool call, its result and a reply. *)
From S2P Require Import LoopConcrete.
Module SessionScenario.
Import Json LoopScenario.

(** ** Documents of the kernel *)
Definition c_id {k} : codec (Id k) :=
  c_iso c_num (λ i, Z.of_N (uuid i)) (λ z, Some (MkId (Z.to_N z)))
    ltac:(intros [u]; cbn; by rewrite N2Z.id).
Definition c_kernel_command : codec Command :=
  c_iso (c_prod c_id c_value) (λ c, (command_id c, content c))
    (λ '(i, v), Some {| command_id := i; content := v |}) ltac:(by_cases).
Definition c_manifest : codec RuntimeManifest :=
  c_iso (c_prod (c_prod c_str c_str) (c_prod c_num (c_prod (c_map c_str) c_str)))
    (λ m, ((loop_binding m, loop_revision m),
           (checkpoint_schema_version m, (effect_bindings m, config_digest m))))
    (λ '((b, r), (v, (e, d))), Some {| loop_binding := b; loop_revision := r;
       checkpoint_schema_version := v; effect_bindings := e; config_digest := d |}) ltac:(by_cases).
Definition c_checkpoint : codec Checkpoint :=
  c_iso (c_prod c_num c_value) (λ c, (schema_version c, state c))
    (λ '(n, v), Some {| schema_version := n; state := v |}) ltac:(by_cases).
Definition c_outcome : codec OperationOutcome :=
  c_iso (c_prod c_num c_str)
    (λ o, match o with
          | WaitingForInput => (0, "") | OutcomeCompleted => (1, "")
          | OutcomeFailed r => (2, r) | OutcomeCancelled => (3, "")
          end)
    (λ '(n, r), Some (match n with
                      | 0 => WaitingForInput | 1 => OutcomeCompleted
                      | 2 => OutcomeFailed r | _ => OutcomeCancelled
                      end)) ltac:(by_cases).
Definition c_effect_outcome : codec EffectOutcome :=
  c_iso (c_sum c_value c_str) (λ o, match o with Success v => inl v | Failure m => inr m end)
    (λ s, Some (match s with inl v => Success v | inr m => Failure m end)) ltac:(by_cases).

Definition document {A} (c : codec A) : Serde A :=
  {| to_string a := Some (enc c a); from_str t := dec c t |}.
Lemma document_laws {A} (c : codec A) : @SerdeLaws _ A (document c).
Proof. intros a t [= <-]. apply dec_enc. Qed.

#[export] Instance json_kernel : KernelSerde := {
  command_serde := document c_kernel_command; manifest_serde := document c_manifest;
  checkpoint_serde := document c_checkpoint; outcome_serde := document c_outcome;
  effect_outcome_serde := document c_effect_outcome; value_serde := document c_value }.
#[export] Instance json_kernel_laws : KernelSerdeLaws.
Proof. split; apply document_laws. Qed.

(** ** The session *)
Abbreviation Handle := (LoopAdapter unit ToolSpec unit).
Definition agent : AgentId := MkId 1.
Definition session : SessionId := MkId 2.

Definition runtime : Runtime Handle :=
  match built_runtime with
  | Ok (_, rt) => rt
  | Err _ => {| rt_manifest := manifest; rt_plugin := loop_plugin a_loop; rt_effects := ∅ |}
  end.
Lemma runtime_built : built_agent id runtime.
Proof.
  exists config, full_history, model, [read_tool], no_code, a_loop. split; [|apply a_loop_typed].
  unfold runtime. destruct built_ok as [rt Hrt]. rewrite Hrt. exact Hrt.
Qed.

(** The model asks for the tool until it sees a result. *)
Definition answered (request : Value) : bool :=
  match dec c_request request with
  | Some r => existsb (λ m, match m with Tool _ => true | _ => false end) (req_messages r)
  | None => false
  end.
Definition reply_to (adapter : Handle) (i : EffectInvocation) : Value :=
  match adapter with
  | ToolAdapter _ => enc c_result the_result
  | _ => if answered (in_request i) then respond [AssistantText "It holds 42." None] Stop
         else respond [AssistantToolCall the_call] ToolUse
  end.
Definition env : Environment Handle := {|
  interfere _ db := db; io_failure _ := None;
  invoke _ adapter i := Ok (CompletionSettled (Success (reply_to adapter i)));
  completion_order _ l := l;
  new_event_id n z := MkId (1000 * N.of_nat n + Z.to_N z);
  new_batch_id n := MkId (N.of_nat n);
  new_effect_id n z := MkId (1000 * N.of_nat n + Z.to_N z);
  executor_available := true |}.

Definition run {A} (m : Tx A) (db : Database) : Database := (immediate m db).2.
Definition prompted : Database :=
  run (submit op session prompt) (run (create_session session agent) (run (create_agent agent) empty_database)).
Definition start : World := {| w_db := prompted; w_running := ∅; w_clock := 0; w_trace := [] |}.
Definition finished : World := (drive 20 env session runtime start).2.

Lemma finished_by (R : Runtime Handle → Prop) :
  R runtime → guarded_lifetime (stored_by agent_loop_plugin) R finished.
Proof.
  intros HR. unfold finished. destruct (drive 20 env session runtime start) as [r w'] eqn:E.
  eapply life_drive; [|split|exact HR|exact E].
  - apply life_open. eapply rtc_l; [eapply (k_create_agent _ _ agent), surjective_pairing|].
    eapply rtc_l; [eapply (k_create_session _ _ session agent), surjective_pairing|].
    apply rtc_once. eapply (k_submit _ _ op session prompt Ordered), surjective_pairing.
  - intros n db _. apply rtc_refl.
  - done.
Qed.
Lemma finished_lifetime : guarded_lifetime (Adapter:=Handle) (stored_by agent_loop_plugin) (built_agent id) finished.
Proof. apply finished_by, runtime_built. Qed.
Lemma finished_plugin_lifetime :
  guarded_lifetime (Adapter:=Handle) (stored_by agent_loop_plugin) (λ rt, agent_loop_plugin (rt_plugin rt)) finished.
Proof. apply finished_by, (built_agent_plugin id), runtime_built. apply sha256_nonempty. Qed.

(** The operation completes with four messages. *)
Lemma finished_completes :
  match (drive 20 env session runtime start).1 with
  | Ok (Some (Finished i OutcomeCompleted)) => bool_decide (i = op) | _ => false end = true.
Proof. vm_compute. reflexivity. Qed.
Lemma finished_messages :
  match load_event_page session START (w_db finished) with
  | Ok page => role <$> messages_of (as_new <$> page_events page)
  | Err _ => []
  end = [RoleUser; RoleAssistant; RoleTool; RoleAssistant].
Proof. vm_compute. reflexivity. Qed.
End SessionScenario.

(** The states are only evaluated by the virtual machine. *)
#[global] Opaque SessionScenario.finished.

(** * The kernel and the loop together: theorems about stored sessions *)
Section contract_theorems.
Context `{KS : KernelSerde} `{!KernelSerdeLaws}.

(** C7. A relation between the events of a session and the checkpoint of its
    active operation that every decision, cancellation and abandonment of a
    class of plugins preserves holds of every session, as replayed, after any
    lifetime of the kernel whose drives use plugins of the class: however often
    transactions fail, the process restarts or other callers commit in
    between. *)
Theorem contract_kept {Adapter : Type} (P : LoopPlugin → Prop)
    (K : list NewEvent → option Checkpoint → Prop) w s r :
  LoopContract P K →
  guarded_lifetime (Adapter:=Adapter) (stored_by P) (λ rt, P (rt_plugin rt)) w →
  sessions (w_db w) !! s = Some r →
  ∃ page c, load_event_page s START (w_db w) = Ok page ∧ session_checkpoint (w_db w) s c ∧
    K (as_new <$> page_events page) c.
Proof. intros HC. by apply lifetime_contract. Qed.
End contract_theorems.

Section session_theorems.
Context `{JV : JsonValue} `{KS : !KernelSerde} `{!KernelSerdeLaws}.
Context `{LS : !LoopSerde} `{HS : Hashing} `{!LoopSerdeLaws}.
Context {Model ToolHandle Evaluator : Type} (tool_spec : ToolHandle → ToolSpec).
Context `{!TextSerde DigestConfiguration}.

(** C4. In every session of a kernel driven with built agent runtimes, whatever
    models and tools answer, whatever fails, is cancelled, abandoned or
    restarted and whichever configurations the drives use: the checkpoint of
    the active operation resumes, and the tool calls open in the replayed
    messages of the whole session are exactly the calls it still has to
    answer; a session without an active operation has none. *)
Theorem session_transcripts_balanced w s r :
  (∀ s, sha256 s ≠ "") →
  guarded_lifetime (stored_by agent_loop_plugin)
    (built_agent (Model:=Model) (Evaluator:=Evaluator) tool_spec) w →
  sessions (w_db w) !! s = Some r →
  ∃ page c (phase : option LoopPhase),
    load_event_page s START (w_db w) = Ok page ∧ session_checkpoint (w_db w) s c ∧ resumes c phase ∧
    let messages := messages_of (as_new <$> page_events page) in
    open_calls messages ∅ = Some (open_map (waiting phase)) ∧
    (s_active_operation_id r = None → balanced messages).
Proof.
  intros Hsha HW Hr.
  destruct (lifetime_contract agent_loop_plugin transcript_contract _ w s r
    (λ rt, built_agent_plugin tool_spec rt Hsha) HW Hr) as (page & c & Hp & Hc & phase & Hres & _ & Ho).
  exists page, c, phase. cbv zeta. split_and!; [done..|]. intros Ha.
  unfold session_checkpoint in Hc. rewrite (session_view_Some _ _ _ Hr) in Hc. cbn in Hc. rewrite Ha in Hc.
  subst c. cbn in Hres. subst phase. exact Ho.
Qed.
End session_theorems.

(** ** Witnesses *)
Import Json LoopScenario SessionScenario.

Lemma contract_kept_witness :
  ∃ page c, load_event_page session START (w_db finished) = Ok page ∧
    session_checkpoint (w_db finished) session c ∧ transcript_contract (as_new <$> page_events page) c.
Proof.
  destruct (row_that (sessions (w_db finished) !! session) (λ _, true)) as (r & Hr & _);
    [vm_compute; reflexivity|].
  exact (contract_kept (Adapter:=Handle) agent_loop_plugin transcript_contract finished session r
    agent_loop_contract finished_plugin_lifetime Hr).
Defined.

Lemma session_transcripts_balanced_witness :
  ∃ page, load_event_page session START (w_db finished) = Ok page ∧
    balanced (messages_of (as_new <$> page_events page)) ∧
    role <$> messages_of (as_new <$> page_events page) = [RoleUser; RoleAssistant; RoleTool; RoleAssistant].
Proof.
  destruct (row_that (sessions (w_db finished) !! session)
    (λ r, bool_decide (s_active_operation_id r = None))) as (r & Hr & Ha%bool_decide_eq_true_1);
    [vm_compute; reflexivity|].
  destruct (session_transcripts_balanced id finished session r sha256_nonempty finished_lifetime Hr)
    as (page & c & phase & Hp & _ & _ & _ & Hb).
  exists page. split; [exact Hp|]. split; [exact (Hb Ha)|].
  pose proof finished_messages as Hm. rewrite Hp in Hm. exact Hm.
Defined.
