(* ===== verification/Protocol.v ===== *)
(** * The control protocol's data ([renoa-protocol])

    Identities ([ids.rs]), commands and their checks ([command.rs],
    [attachment.rs]), execution events ([execution.rs]) and live activity
    ([live.rs]). *)
From S2P Require Import Prelude Json Text.
(** ** Identities

    [uuid_id!] wraps a [Uuid]; the index is the macro's argument, for the
    identities of [renoa-protocol] and of [renoa-control]. *)
Inductive RcpKind :=
| KCommand | KExecutionEvent | KExecution | KPrincipal
| KNode | KDevice | KTaskEvent | KTask.

Record Rid (k : RcpKind) := MkRid { as_uuid : N }.
Arguments MkRid {k} as_uuid.
Arguments as_uuid {k} r.

#[global] Instance Rid_eq_dec k : EqDecision (Rid k).
Proof. solve_decision. Defined.
#[global] Program Instance Rid_countable k : Countable (Rid k) := inj_countable' as_uuid MkRid _.
Next Obligation. by intros k [u]. Qed.

Definition CommandId := Rid KCommand.
Definition ExecutionEventId := Rid KExecutionEvent.
Definition ExecutionId := Rid KExecution.
Definition PrincipalId := Rid KPrincipal.
Definition NodeId := Rid KNode.
Definition DeviceId := Rid KDevice.
Definition TaskEventId := Rid KTaskEvent.
Definition TaskId := Rid KTask.

(** [Display] of an identity: the hyphenated text of its [Uuid]. *)
Fixpoint hex_digits (n : nat) (u : N) : string :=
  match n with
  | O => ""
  | S n' => hex_digit (N.land (N.shiftr u (4 * N.of_nat n')) 15) +:+ hex_digits n' u
  end.
Definition uuid_text (u : N) : string :=
  hex_digits 8 (N.shiftr u 96) +:+ "-" +:+ hex_digits 4 (N.shiftr u 80) +:+ "-" +:+
  hex_digits 4 (N.shiftr u 64) +:+ "-" +:+ hex_digits 4 (N.shiftr u 48) +:+ "-" +:+
  hex_digits 12 u.
Definition show_id {k} (r : Rid k) : string := uuid_text (as_uuid r).

(** ** Strings at byte offsets *)

(** [str::is_char_boundary]. *)
Definition is_char_boundary (s : string) (i : nat) : bool :=
  match i with
  | O => true
  | S _ =>
      match String.get i s with
      | Some a => negb (is_continuation a)
      | None => Nat.eqb i (String.length s)
      end
  end.

(** [while !s.is_char_boundary(end) { end -= 1; }]. *)
Fixpoint floor_boundary (s : string) (i : nat) : nat :=
  if is_char_boundary s i then i else match i with O => O | S i' => floor_boundary s i' end.

(** [String::truncate]. *)
Definition truncate (s : string) (i : nat) : string := String.substring 0 i s.

(** [str::split_once] of one ASCII character. *)
Fixpoint split_once (a : Ascii.ascii) (s : string) : option (string * string) :=
  match s with
  | EmptyString => None
  | String b s' =>
      if Ascii.eqb a b then Some ("", s')
      else match split_once a s' with
           | Some (l, r) => Some (String b l, r)
           | None => None
           end
  end.
Definition contains_char (a : Ascii.ascii) (s : string) : bool :=
  existsb (Ascii.eqb a) (String.list_ascii_of_string s).

Definition is_ascii_graphic (a : Ascii.ascii) : bool :=
  let n := Ascii.N_of_ascii a in ((33 <=? n) && (n <=? 126))%N.
Definition slash : Ascii.ascii := Ascii.ascii_of_N 47.

(** ** Attachments ([attachment.rs]) *)
Record Attachment := MkAttachment { upload_id : N; att_name : string; mime_type : string }.
#[global] Instance Attachment_eq_dec : EqDecision Attachment.
Proof. solve_decision. Defined.

Definition MAX_PER_COMMAND : Z := 10.
Definition MAX_NAME_BYTES : Z := 255.
Definition MAX_MIME_TYPE_BYTES : Z := 255.

Definition valid_name (name : string) : bool :=
  negb (is_empty name || (MAX_NAME_BYTES <? len name) || existsb is_control (chars name)).
Definition valid_mime (mime : string) : bool :=
  (len mime <=? MAX_MIME_TYPE_BYTES) &&
  forallb is_ascii_graphic (String.list_ascii_of_string mime) &&
  match split_once slash mime with
  | Some (kind, subtype) =>
      negb (is_empty kind) && negb (is_empty subtype) && negb (contains_char slash subtype)
  | None => false
  end.

Definition attachment_new (upload : N) (name mime : string) : Result string Attachment :=
  if negb (valid_name name)
  then Err ("an attachment name must be 1 to " +:+ show MAX_NAME_BYTES +:+
            " bytes with no control character")
  else if negb (valid_mime mime)
  then Err ("an attachment media type must be type/subtype in printable ASCII, at most " +:+
            show MAX_MIME_TYPE_BYTES +:+ " bytes")
  else Ok (MkAttachment upload name mime).

(** [attachment::bounded], after the attachments themselves were read. *)
Definition bounded (attachments : list Attachment) : Result string (list Attachment) :=
  if MAX_PER_COMMAND <? Z.of_nat (length attachments)
  then Err ("a command carries at most " +:+ show MAX_PER_COMMAND +:+ " attachments")
  else Ok attachments.

(** ** Commands ([command.rs]) *)
Definition SurfaceRef := string.
Definition TargetRef := string.

Record TargetCard := MkTargetCard { card_target : TargetRef; card_name : string }.

Definition MAX_LABEL_BYTES : Z := 256.

Definition label_is_valid (label : string) : bool :=
  negb (is_empty label) && (len label <=? MAX_LABEL_BYTES) && negb (existsb is_control (chars label)).

Definition without_controls (name : string) : string :=
  concat_chars ((λ c, if is_control c then " " else c) <$> chars name).

Definition target_card_new (target : TargetRef) (name : string) : TargetCard :=
  let name := without_controls name in
  let end_ := floor_boundary name (Z.to_nat (Z.min (len name) MAX_LABEL_BYTES)) in
  let name := truncate name end_ in
  let name := trim name in
  MkTargetCard target (if is_empty name then target else name).

Inductive Author := Principal | Guest.
#[global] Instance Author_eq_dec : EqDecision Author.
Proof. solve_decision. Defined.
Definition is_principal (a : Author) : bool := match a with Principal => true | Guest => false end.

Inductive CommandInput :=
| InputText (text : string) (context : option string) (author : Author) (quiet : bool)
    (attachments : list Attachment).
#[global] Instance CommandInput_eq_dec : EqDecision CommandInput.
Proof. solve_decision. Defined.

Definition from_text (text : string) : CommandInput := InputText text None Principal false [].
Definition input_attachments (i : CommandInput) : list Attachment :=
  match i with InputText _ _ _ _ attachments => attachments end.
Definition input_text (i : CommandInput) : string :=
  match i with InputText text _ _ _ _ => text end.
Definition input_context (i : CommandInput) : option string :=
  match i with InputText _ context _ _ _ => context end.
Definition input_author (i : CommandInput) : Author :=
  match i with InputText _ _ author _ _ => author end.
Definition input_quiet (i : CommandInput) : bool :=
  match i with InputText _ _ _ quiet _ => quiet end.
Definition quiet_if (i : CommandInput) (quiet : bool) : CommandInput :=
  match i with InputText text context author _ attachments =>
    InputText text context author quiet attachments end.

Inductive AgentMessageKind := Request | Reply | Failure.
#[global] Instance AgentMessageKind_eq_dec : EqDecision AgentMessageKind.
Proof. solve_decision. Defined.
Definition expects_reply (k : AgentMessageKind) : bool :=
  match k with Request => true | Reply | Failure => false end.

Record AgentOrigin := MkAgentOrigin {
  from_command : CommandId;
  origin_from : TargetRef;
  origin_name : string;
  depth : Z;
  origin_kind : AgentMessageKind;
}.
#[global] Instance AgentOrigin_eq_dec : EqDecision AgentOrigin.
Proof. solve_decision. Defined.

Record CommandEnvelope := MkCommandEnvelope {
  command_id : CommandId;
  principal_id : PrincipalId;
  surface : SurfaceRef;
  target : TargetRef;
  input : CommandInput;
  origin : option AgentOrigin;
}.
#[global] Instance CommandEnvelope_eq_dec : EqDecision CommandEnvelope.
Proof. solve_decision. Defined.

(** The commands a deserializer produces: [Attachment]'s fields are private, so
    every one passed [Attachment::new], and [bounded] limits their number. *)
Definition attachment_ok (a : Attachment) : bool :=
  is_ok (attachment_new (upload_id a) (att_name a) (mime_type a)).
Definition input_ok (i : CommandInput) : bool :=
  forallb attachment_ok (input_attachments i) && is_ok (bounded (input_attachments i)).

(** ** Executions ([execution.rs], [live.rs]) *)
Inductive ExecutionTerminal :=
| ExecutionCompleted
| ExecutionFailed (error : string)
| ExecutionCancelled (reason : string).
#[global] Instance ExecutionTerminal_eq_dec : EqDecision ExecutionTerminal.
Proof. solve_decision. Defined.

Section execution.
Context `{JL : JsonLib}.

Inductive ExecutionEventKind :=
| ExecutionStarted
| TurnStarted
| AssistantMessage (text : string)
| ToolStarted (call_id name : string) (arguments : Value)
| ToolFinished (call_id output : string) (is_error : bool)
| ExecutionTerminated (terminal : ExecutionTerminal).

Record ExecutionEvent := MkExecutionEvent {
  x_event_id : ExecutionEventId;
  x_execution_id : ExecutionId;
  x_sequence : Z;
  x_recorded_at_ms : Z;
  x_kind : ExecutionEventKind;
}.
End execution.

Inductive LiveActivity := TextDelta (sequence : Z) (text : string) | TextReset.

(** ** Codecs

    Concrete serializers for identities, commands and executions, from which
    the scenarios of the run engine, the coordinator and the node are made. *)
Module RcpJson.
Export Codec.

Lemma nat_law (n : N) : Some (Z.to_N (Z.of_N n)) = Some n.
Proof. by rewrite N2Z.id. Qed.
Definition c_nat : codec N := c_iso c_num Z.of_N (λ z, Some (Z.to_N z)) nat_law.
Definition c_rid (k : RcpKind) : codec (Rid k) :=
  c_iso c_nat as_uuid (λ n, Some (MkRid n)) ltac:(by_cases).
Definition c_attachment : codec Attachment :=
  c_iso (c_prod c_nat (c_prod c_str c_str)) (λ a, (upload_id a, (att_name a, mime_type a)))
    (λ '(u, (n, m)), Some (MkAttachment u n m)) ltac:(by_cases).
Definition c_author : codec Author :=
  c_iso c_bool is_principal (λ b : bool, Some (if b then Principal else Guest)) ltac:(by_cases).
Definition c_input : codec CommandInput :=
  c_iso (c_prod (c_prod c_str (c_opt c_str)) (c_prod c_author (c_prod c_bool (c_list c_attachment))))
    (λ i, ((input_text i, input_context i), (input_author i, (input_quiet i, input_attachments i))))
    (λ '((t, c), (a, (q, l))), Some (InputText t c a q l)) ltac:(by_cases).
Definition c_kind : codec AgentMessageKind :=
  c_iso c_num (λ k, match k with Request => 0 | Reply => 1 | Failure => 2 end)
    (λ z, Some (if z =? 0 then Request else if z =? 1 then Reply else Failure)) ltac:(by_cases).
Definition c_origin : codec AgentOrigin :=
  c_iso (c_prod (c_prod (c_rid KCommand) c_str) (c_prod c_str (c_prod c_num c_kind)))
    (λ o, ((from_command o, origin_from o), (origin_name o, (depth o, origin_kind o))))
    (λ '((f, t), (n, (d, k))), Some (MkAgentOrigin f t n d k)) ltac:(by_cases).
Definition c_command : codec CommandEnvelope :=
  c_iso (c_prod (c_prod (c_rid KCommand) (c_rid KPrincipal))
           (c_prod (c_prod c_str c_str) (c_prod c_input (c_opt c_origin))))
    (λ c, ((command_id c, principal_id c), ((surface c, target c), (input c, origin c))))
    (λ '((i, p), ((s, t), (x, o))), Some (MkCommandEnvelope i p s t x o)) ltac:(by_cases).
Definition c_execution_terminal : codec ExecutionTerminal :=
  c_iso (c_sum c_unit (c_sum c_str c_str))
    (λ t, match t with ExecutionCompleted => inl tt | ExecutionFailed s => inr (inl s)
                     | ExecutionCancelled s => inr (inr s) end)
    (λ s, Some (match s with inl _ => ExecutionCompleted | inr (inl s) => ExecutionFailed s
                           | inr (inr s) => ExecutionCancelled s end)) ltac:(by_cases).
Definition c_execution_kind : codec ExecutionEventKind :=
  c_iso (c_sum (c_sum c_unit c_unit) (c_sum (c_sum c_str (c_prod c_str (c_prod c_str c_value)))
           (c_sum (c_prod c_str (c_prod c_str c_bool)) c_execution_terminal)))
    (λ k, match k with
          | ExecutionStarted => inl (inl tt)
          | TurnStarted => inl (inr tt)
          | AssistantMessage text => inr (inl (inl text))
          | ToolStarted i n a => inr (inl (inr (i, (n, a))))
          | ToolFinished i o b => inr (inr (inl (i, (o, b))))
          | ExecutionTerminated t => inr (inr (inr t))
          end)
    (λ s, Some (match s with
          | inl (inl _) => ExecutionStarted
          | inl (inr _) => TurnStarted
          | inr (inl (inl text)) => AssistantMessage text
          | inr (inl (inr (i, (n, a)))) => ToolStarted i n a
          | inr (inr (inl (i, (o, b)))) => ToolFinished i o b
          | inr (inr (inr t)) => ExecutionTerminated t
          end)) ltac:(by_cases).
Definition c_execution : codec ExecutionEvent :=
  c_iso (c_prod (c_prod (c_rid KExecutionEvent) (c_rid KExecution)) (c_prod (c_prod c_num c_num) c_execution_kind))
    (λ e, ((x_event_id e, x_execution_id e), ((x_sequence e, x_recorded_at_ms e), x_kind e)))
    (λ '((i, x), ((s, r), k)), Some (MkExecutionEvent i x s r k)) ltac:(by_cases).
End RcpJson.
