(* ===== verification/ProtocolTheorems.v ===== *)
(** * Labels: theorems

    A byte string is split into characters by [chars]; [wf_chars] says which
    lists of byte strings are such a splitting, so that mapping, cutting and
    trimming a label can be followed character by character. *)
From S2P Require Import Prelude Json Text Protocol.
#[local] Arguments String.append !_ _ : simpl nomatch.

(** ** Characters of concatenations *)
Fixpoint all_continuations (s : string) : bool :=
  match s with EmptyString => true | String a s' => is_continuation a && all_continuations s' end.

(** One character: a byte and the continuation bytes after it. *)
Definition is_char (c : string) : bool :=
  match c with EmptyString => false | String _ t => all_continuations t end.

Record wf_chars (cs : list string) : Prop := {
  wc_chars : Forall (λ c, is_char c = true) cs;
  wc_starts : Forall (λ c, continues c = false) (tail cs);
}.

Lemma continues_chars s c cs : chars s = c :: cs → continues c = continues s.
Proof.
  destruct s as [|a s]; cbn; [done|]. destruct (chars s) as [|c' cs']; [by intros [= <- _]|].
  destruct (continues c'); by intros [= <- _].
Qed.

Lemma chars_char a t s : all_continuations t = true → continues s = false →
  chars (String a t +:+ s) = String a t :: chars s.
Proof.
  revert a. induction t as [|b t IH]; intros a Ht Hs.
  - change (String a "" +:+ s) with (String a s). cbn [chars]. destruct (chars s) as [|c cs] eqn:E; [done|]. by rewrite (continues_chars _ _ _ E), Hs.
  - cbn in Ht. split_bools. specialize (IH b ltac:(done) Hs).
    change (String a (String b t) +:+ s) with (String a (String b t +:+ s)). cbn [chars].
    rewrite IH. cbn [continues]. by destruct (is_continuation b).
Qed.

Lemma continues_concat cs : wf_chars cs → continues (concat_chars cs) = match cs with c :: _ => continues c | [] => false end.
Proof. intros [HC _]. destruct cs as [|c cs]; [done|]. apply Forall_cons in HC as [HC _]. by destruct c. Qed.

Lemma wf_chars_tail c cs : wf_chars (c :: cs) → wf_chars cs ∧ continues (concat_chars cs) = false.
Proof.
  intros [HC HS]. apply Forall_cons in HC as [_ HC]. cbn in HS.
  assert (wf_chars cs) as HW by (split; [done|]; destruct cs; cbn; [done|]; by apply Forall_cons in HS as [_ ?]).
  split; [done|]. rewrite (continues_concat _ HW). destruct cs; [done|]. by apply Forall_cons in HS as [? _].
Qed.

Lemma chars_concat cs : wf_chars cs → chars (concat_chars cs) = cs.
Proof.
  induction cs as [|c cs IH]; intros HW; [done|]. destruct (wf_chars_tail _ _ HW) as [HW' Hs].
  destruct HW as [HC _]. apply Forall_cons in HC as [HC _]. destruct c as [|a t]; [done|].
  cbn [concat_chars]. rewrite chars_char by done. by rewrite IH.
Qed.

Lemma wf_chars_chars s : wf_chars (chars s).
Proof.
  induction s as [|a s [HC HS]]; cbn; [done|]. destruct (chars s) as [|c cs] eqn:E; [by repeat constructor|].
  cbn in HS. apply Forall_cons in HC as [Hc HC]. destruct (continues c) eqn:Ec.
  - split; [|done]. constructor; [|done]. destruct c; [done|]. cbn in *. by rewrite Ec.
  - split; cbn; [by repeat constructor|]. by constructor.
Qed.

Lemma wf_chars_sublist l1 l2 l3 : wf_chars (l1 ++ l2 ++ l3) → wf_chars l2.
Proof.
  intros [HC HS]. rewrite !Forall_app in HC. split; [apply HC|].
  destruct l1 as [|c1 l1]; cbn in HS.
  - destruct l2; cbn in *; [done|]. by apply Forall_app in HS as [? _].
  - rewrite !Forall_app in HS. destruct l2; cbn; [done|]. destruct HS as (_ & HS & _). by apply Forall_cons in HS as [_ ?].
Qed.

(** ** Cutting at a boundary *)
Lemma get_continuation t i a : all_continuations t = true → String.get i t = Some a → is_continuation a = true.
Proof.
  revert i. induction t as [|b t IH]; intros i Ht Hg; [by destruct i|]. cbn in Ht. split_bools.
  destruct i; cbn in Hg; [congruence|eauto].
Qed.

Lemma substring_app c j s : String.substring 0 (String.length c + j) (c +:+ s) = c +:+ String.substring 0 j s.
Proof. induction c as [|a c IH]; cbn; [by destruct s|]. by rewrite <- IH. Qed.

Lemma substring_0 s : String.substring 0 0 s = "".
Proof. by destruct s. Qed.

Lemma string_length_app (s t : string) : String.length (s +:+ t) = (String.length s + String.length t)%nat.
Proof. induction s; cbn; auto. Qed.

Lemma truncate_boundary cs : ∀ i,
  wf_chars cs → (i ≤ String.length (concat_chars cs))%nat → is_char_boundary (concat_chars cs) i = true →
  ∃ l1 l2, cs = l1 ++ l2 ∧ truncate (concat_chars cs) i = concat_chars l1.
Proof.
  induction cs as [|c cs IH]; intros i HW Hi Hb.
  { cbn in Hi. assert (i = 0%nat) as -> by lia. by exists [], []. }
  destruct (decide (i = 0%nat)) as [->|Hne]; [exists [], (c :: cs); split; [done|apply substring_0]|].
  destruct (wf_chars_tail _ _ HW) as [HW' _]. destruct HW as [HC _]. apply Forall_cons in HC as [HC _].
  cbn [concat_chars] in *. destruct (decide (i < String.length c)%nat) as [Hlt|Hge].
  - exfalso. destruct c as [|a t]; [done|]. destruct i as [|i]; [done|]. cbn in HC, Hlt.
    destruct (String.get i t) as [b|] eqn:Eg.
    + unfold is_char_boundary in Hb. rewrite <- String.append_correct1 in Hb by (cbn; lia). cbn in Hb.
      rewrite Eg, (get_continuation _ _ _ HC Eg) in Hb. done.
    + clear -Eg Hlt. revert i Eg Hlt. induction t as [|b t IH]; intros i Eg Hlt; cbn in *; [lia|].
      destruct i; cbn in Eg; [done|]. eapply IH; [done|lia].
  - rewrite string_length_app in Hi.
    destruct (IH (i - String.length c)%nat) as (l1 & l2 & -> & Hl); [done|lia| |].
    + destruct (decide (i = String.length c)) as [->|Hn]; [by rewrite Nat.sub_diag|].
      unfold is_char_boundary in *. destruct i as [|i]; [done|].
      destruct (S i - String.length c)%nat as [|j] eqn:Ej; [done|].
      rewrite (String.append_correct2 c), <- Ej. replace (S i - String.length c + String.length c)%nat with (S i) by lia.
      destruct (String.get (S i) (c +:+ concat_chars cs)); [done|].
      rewrite string_length_app in Hb. apply Nat.eqb_eq in Hb. apply Nat.eqb_eq. lia.
    + exists (c :: l1), l2. split; [done|]. unfold truncate in *. cbn [concat_chars].
      rewrite <- Hl, <- substring_app. f_equal. lia.
Qed.

Lemma floor_boundary_spec s i : is_char_boundary s (floor_boundary s i) = true ∧ (floor_boundary s i ≤ i)%nat.
Proof.
  induction i as [|i IH]; [done|]. cbn [floor_boundary].
  destruct (is_char_boundary s (S i)) eqn:E; [done|]. destruct IH. split; [done|lia].
Qed.

(** ** Labels *)
Definition no_control (c : string) : Prop := is_control c = false.

Lemma existsb_controls cs : existsb is_control cs = false ↔ Forall no_control cs.
Proof.
  induction cs as [|c cs IH]; cbn; [done|]. rewrite orb_false_iff, IH, Forall_cons. done.
Qed.

(** [trim] keeps a run of characters in the middle. *)
Lemma trim_middle s : ∃ l1 l2 l3, chars s = l1 ++ l2 ++ l3 ∧ trim s = concat_chars l2.
Proof.
  unfold trim. destruct (skip_while_suffix is_whitespace (chars s)) as (l1 & E1 & _).
  set (t := skip_while is_whitespace (chars s)) in *.
  destruct (skip_while_suffix is_whitespace (rev t)) as (l3 & E3 & _).
  set (u := skip_while is_whitespace (rev t)) in *. exists l1, (rev u), (rev l3). split; [|done].
  rewrite <- rev_app_distr, <- E3, rev_involutive. done.
Qed.

Lemma chars_without_controls name :
  chars (without_controls name) = (λ c, if is_control c then " " else c) <$> chars name ∧
  Forall no_control (chars (without_controls name)).
Proof.
  unfold without_controls. rewrite chars_concat.
  - split; [done|]. apply Forall_fmap, Forall_forall. intros c _. cbn. unfold no_control.
    by destruct (is_control c) eqn:E.
  - destruct (wf_chars_chars name) as [HC HS]. split.
    + apply Forall_fmap. eapply Forall_impl; [exact HC|]. intros c Hc. cbn. by destruct (is_control c).
    + destruct (chars name) as [|c cs]; [done|]. cbn in *. apply Forall_fmap. eapply Forall_impl; [exact HS|].
      intros c' Hc. cbn. by destruct (is_control c').
Qed.

Lemma concat_length_app l1 l2 : String.length (concat_chars (l1 ++ l2)) =
  (String.length (concat_chars l1) + String.length (concat_chars l2))%nat.
Proof. by rewrite concat_chars_app, string_length_app. Qed.

Lemma truncate_length s i : (i ≤ String.length s)%nat → String.length (truncate s i) = i.
Proof.
  unfold truncate. revert i. induction s as [|a s IH]; intros i Hi; cbn in *; [destruct i; (done || lia)|].
  destruct i; cbn; [done|]. rewrite IH; [done|lia].
Qed.

(** The characters of a name cut at a boundary are the first of the name. *)
Lemma cut_chars n i : (i ≤ String.length n)%nat →
  ∃ l1 l2, chars n = l1 ++ l2 ∧ chars (truncate n (floor_boundary n i)) = l1 ∧
    (String.length (concat_chars l1) ≤ i)%nat.
Proof.
  intros Hi. destruct (floor_boundary_spec n i) as [Hb He]. pose proof (wf_chars_chars n) as HW.
  destruct (truncate_boundary (chars n) (floor_boundary n i) HW) as (l1 & l2 & Hl & Ht);
    rewrite ?concat_chars_chars; [lia|done|]. rewrite concat_chars_chars in Ht.
  exists l1, l2. split; [done|]. rewrite Ht, chars_concat.
  - split; [done|]. rewrite <- Ht, truncate_length; lia.
  - rewrite Hl in HW. by apply (wf_chars_sublist [] l1 l2).
Qed.

Lemma trim_blank s : Forall (λ c, is_whitespace c = true) (chars s) → trim s = "".
Proof.
  intros HF. unfold trim. assert (skip_while is_whitespace (chars s) = []) as ->; [|done].
  induction HF as [|c cs Hc HF IH]; cbn; [done|]. by rewrite Hc.
Qed.

Lemma label_is_valid_spec s : label_is_valid s = true ↔
  s ≠ "" ∧ len s ≤ MAX_LABEL_BYTES ∧ Forall no_control (chars s).
Proof.
  unfold label_is_valid, is_empty. rewrite !andb_true_iff, !negb_true_iff, Z.leb_le, existsb_controls, String.eqb_neq.
  naive_solver.
Qed.

Lemma cut_whole s : truncate s (floor_boundary s (String.length s)) = s.
Proof.
  assert (floor_boundary s (String.length s) = String.length s) as ->.
  { destruct (String.length s) as [|n] eqn:E; [done|]. cbn [floor_boundary].
    assert (is_char_boundary s (S n) = true) as ->; [|done]. unfold is_char_boundary. rewrite <- E.
    assert (String.get (String.length s) s = None) as ->; [|apply Nat.eqb_refl]. clear. by induction s. }
  unfold truncate. clear. induction s as [|a s IH]; cbn; [done|]. by rewrite IH.
Qed.

Lemma kept_name name : label_is_valid name = true →
  without_controls name = name ∧
  truncate name (floor_boundary name (Z.to_nat (Z.min (len name) MAX_LABEL_BYTES))) = name.
Proof.
  intros (_ & Hl & HN)%label_is_valid_spec. split.
  - rewrite <- (concat_chars_chars name) at 2. unfold without_controls. f_equal.
    rewrite <- (list_fmap_id (chars name)) at 2. apply list_fmap_ext. intros i c Hc. cbn.
    apply Forall_lookup_1 with (i := i) (x := c) in HN; [|done]. by rewrite HN.
  - rewrite Z.min_l by done. unfold len. rewrite Nat2Z.id.
    apply cut_whole.
Qed.

(** [TargetCard::new] makes every name acceptable on the wire: for a valid
    target the card's name is a valid label, whatever was passed; a valid name
    without surrounding whitespace is kept unchanged, and a name with nothing
    but whitespace and control characters becomes the target itself. *)
Theorem target_card_valid target name :
  label_is_valid target = true →
  label_is_valid (card_name (target_card_new target name)) = true ∧
  (label_is_valid name = true → trim name = name → card_name (target_card_new target name) = name) ∧
  (Forall (λ c, is_control c = true ∨ is_whitespace c = true) (chars name) →
     card_name (target_card_new target name) = target).
Proof.
  intros Ht. unfold target_card_new. cbn [card_name].
  destruct (chars_without_controls name) as [HM HN].
  destruct (cut_chars (without_controls name) (Z.to_nat (Z.min (len (without_controls name)) MAX_LABEL_BYTES)))
    as (l1 & l2 & Hl & Hc & Hlen); [unfold len; lia|].
  set (cut := truncate _ _) in *. rewrite Hl in HN. apply Forall_app in HN as [HN _]. split_and!.
  - destruct (trim_middle cut) as (k1 & k2 & k3 & Hk & Et). rewrite Hc in Hk. rewrite Hk in Hc, HN, Hlen.
    pose proof (wf_chars_chars cut) as HW. rewrite Hc in HW. apply wf_chars_sublist in HW.
    rewrite Et. destruct (is_empty (concat_chars k2)) eqn:Ee; [done|]. apply String.eqb_neq in Ee.
    apply label_is_valid_spec. rewrite chars_concat by done. split_and!; [done| |].
    + rewrite !concat_length_app in Hlen. unfold len, MAX_LABEL_BYTES in *. lia.
    + by rewrite !Forall_app in HN; apply HN.
  - intros Hv Htr. destruct (kept_name name Hv) as [E1 E2]. subst cut. rewrite E1, E2, Htr.
    apply label_is_valid_spec in Hv as (Hne & _). unfold is_empty. by rewrite (proj2 (String.eqb_neq _ _) Hne).
  - intros HF. rewrite trim_blank; [done|]. rewrite Hc.
    assert (Forall (λ c, is_whitespace c = true) (chars (without_controls name))) as HB.
    { rewrite HM. apply Forall_fmap. eapply Forall_impl; [exact HF|]. intros c Hd. cbn.
      destruct (is_control c) eqn:E; [done|]. destruct Hd; congruence. }
    rewrite Hl in HB. by apply Forall_app in HB as [? _].
Qed.

Lemma target_card_valid_witness :
  label_is_valid (card_name (target_card_new "main" ("  a" +:+ nl +:+ "b "))) = true ∧
  card_name (target_card_new "main" ("  a" +:+ nl +:+ "b ")) = "a b".
Proof. split; [by apply (target_card_valid "main")|]. vm_compute. reflexivity. Defined.
