(* ===== verification/Transaction.v ===== *)
(** * Transactions of the SQLite stores

    [Tx S E A] is the body of one transaction over the stored state [S]: it
    reads, writes and may fail with an [E]. [commit] runs it: a body that
    fails, or that returns early with an error, leaves the state as it was. *)
From S2P Require Import Prelude.
(** The texts of errors of rusqlite and serde_json. *)
Class LibraryTexts := {
  constraint_failed : string → string;   (* a UNIQUE, PRIMARY KEY or FOREIGN KEY of a table *)
  no_rows : string;                      (* a [query_row] that found none *)
  json_failed : string;
}.

Definition Tx (S E A : Type) : Type := S → Result E (A * S).

#[global] Instance Tx_ret S E : MRet (Tx S E) := λ A a s, Ok (a, s).
#[global] Instance Tx_bind S E : MBind (Tx S E) := λ A B f m s,
  match m s with Ok (a, s') => f a s' | Err e => Err e end.

Section transactions.
Context {S E : Type}.
Implicit Types (s : S) (e : E).

Definition throw {A} (e : E) : Tx S E A := λ _, Err e.
Definition lift {A} (r : Result E A) : Tx S E A := λ s,
  match r with Ok a => Ok (a, s) | Err e => Err e end.
Definition read {A} (q : S → Result E A) : Tx S E A := λ s, lift (q s) s.
Definition query {A} (q : S → A) : Tx S E A := λ s, Ok (q s, s).
Definition get : Tx S E S := λ s, Ok (s, s).
Definition write (f : S → S) : Tx S E unit := λ s, Ok (tt, f s).
Definition guard (b : bool) (e : E) : Tx S E unit := if b then mret tt else throw e.

Fixpoint for_each {A} (f : A → Tx S E unit) (l : list A) : Tx S E unit :=
  match l with
  | [] => mret tt
  | a :: l' => _ ← f a; for_each f l'
  end.

Definition commit {A} (m : Tx S E A) (s : S) : Result E A * S :=
  match m s with Ok (a, s') => (Ok a, s') | Err e => (Err e, s) end.

(** ** Inversion *)
Lemma txn_bind_ok {A B} (m : Tx S E A) (f : A → Tx S E B) b s s' :
  (m ≫= f) s = Ok (b, s') ↔ ∃ a s1, m s = Ok (a, s1) ∧ f a s1 = Ok (b, s').
Proof. unfold mbind, Tx_bind. destruct (m s) as [[a s1]|e]; naive_solver. Qed.

Lemma txn_ret_ok {A} (a b : A) s s' : (mret a : Tx S E A) s = Ok (b, s') ↔ b = a ∧ s' = s.
Proof. unfold mret, Tx_ret. naive_solver. Qed.

Lemma txn_throw_ok {A} e (a : A) s s' : throw e s = Ok (a, s') ↔ False.
Proof. done. Qed.

Lemma txn_lift_ok {A} (r : Result E A) a s s' : lift r s = Ok (a, s') ↔ r = Ok a ∧ s' = s.
Proof. unfold lift. destruct r; naive_solver. Qed.

Lemma txn_read_ok {A} (q : S → Result E A) a s s' : read q s = Ok (a, s') ↔ q s = Ok a ∧ s' = s.
Proof. apply txn_lift_ok. Qed.

Lemma txn_query_ok {A} (q : S → A) a s s' : query q s = Ok (a, s') ↔ a = q s ∧ s' = s.
Proof. unfold query. naive_solver. Qed.

Lemma get_ok a s s' : (get : Tx S E S) s = Ok (a, s') ↔ a = s ∧ s' = s.
Proof. unfold get. naive_solver. Qed.

Lemma write_ok (f : S → S) u s s' : write f s = Ok (u, s') ↔ s' = f s.
Proof. unfold write. destruct u. naive_solver. Qed.

Lemma txn_guard_ok b e u s s' : guard b e s = Ok (u, s') ↔ b = true ∧ s' = s.
Proof. unfold guard. destruct b, u; [rewrite txn_ret_ok|]; cbn; naive_solver. Qed.

Lemma commit_ok {A} (m : Tx S E A) s a s' : commit m s = (Ok a, s') ↔ m s = Ok (a, s').
Proof. unfold commit. destruct (m s) as [[? ?]|]; naive_solver. Qed.

Lemma commit_err {A} (m : Tx S E A) s e s' : commit m s = (Err e, s') ↔ m s = Err e ∧ s' = s.
Proof. unfold commit. destruct (m s) as [[? ?]|]; naive_solver. Qed.

Lemma commit_err_same {A} (m : Tx S E A) s e s' : commit m s = (Err e, s') → s' = s.
Proof. intros [_ ->]%commit_err. done. Qed.

(** ** Running forwards *)
Lemma txn_run {A B} (m : Tx S E A) (f : A → Tx S E B) s a s1 :
  m s = Ok (a, s1) → (m ≫= f) s = f a s1.
Proof. unfold mbind, Tx_bind. by intros ->. Qed.

Lemma txn_run_err {A B} (m : Tx S E A) (f : A → Tx S E B) s e : m s = Err e → (m ≫= f) s = Err e.
Proof. unfold mbind, Tx_bind. by intros ->. Qed.

Lemma txn_lift_run {A} (r : Result E A) a s : r = Ok a → lift r s = Ok (a, s).
Proof. by intros ->. Qed.

Lemma txn_read_run {A} (q : S → Result E A) a s : q s = Ok a → read q s = Ok (a, s).
Proof. apply txn_lift_run. Qed.

Lemma txn_guard_run (b : bool) e s : b = true → guard b e s = Ok (tt, s).
Proof. by intros ->. Qed.

(** ** Invariants *)
Lemma for_each_inv {A} (P : S → Prop) (f : A → Tx S E unit) l s s' u :
  (∀ a s s' u, a ∈ l → P s → f a s = Ok (u, s') → P s') →
  P s → for_each f l s = Ok (u, s') → P s'.
Proof.
  revert s. induction l as [|a l IH]; intros s Hf HP; cbn.
  - by intros [_ ->]%txn_ret_ok.
  - intros (? & s1 & Ha & Hl)%txn_bind_ok. eapply IH; [|eapply (Hf a); [left|..]; done|done].
    intros b ? ? ? Hb. apply Hf. by right.
Qed.
End transactions.

(** Invert a successful transaction into its steps. *)
Ltac tx_inv :=
  repeat match goal with
  | H : commit _ _ = (Ok _, _) |- _ => apply commit_ok in H
  | H : commit _ _ = (Err _, _) |- _ => apply commit_err in H as [? ?]
  | H : (_ ≫= _) _ = Ok (_, _) |- _ =>
      let a := fresh "a" in let s1 := fresh "s1" in let H1 := fresh "Hm" in let H2 := fresh "Ht" in
      apply txn_bind_ok in H as (a & s1 & H1 & H2); cbn beta in H2
  | H : (mret _) _ = Ok (_, _) |- _ => apply txn_ret_ok in H as [? ?]
  | H : throw _ _ = Ok (_, _) |- _ => apply txn_throw_ok in H; destruct H
  | H : lift _ _ = Ok (_, _) |- _ => let E := fresh "E" in apply txn_lift_ok in H as [E ?]
  | H : read _ _ = Ok (_, _) |- _ => let E := fresh "E" in apply txn_read_ok in H as [E ?]
  | H : query _ _ = Ok (_, _) |- _ => apply txn_query_ok in H as [? ?]
  | H : get _ = Ok (_, _) |- _ => apply get_ok in H as [? ?]
  | H : write _ _ = Ok (_, _) |- _ => apply write_ok in H
  | H : guard _ _ _ = Ok (_, _) |- _ => let G := fresh "G" in apply txn_guard_ok in H as [G ?]
  | H : Ok _ = Ok _ |- _ => injection H as H
  | H : Err _ = Ok _ |- _ => discriminate H
  | H : ok_or _ _ = Ok _ |- _ => apply ok_or_ok in H
  end; subst.
