(* ===== verification/Runs.v ===== *)
(** * Runs: data, ledger and the store's contract ([renoa-core])

    The data of [agent.rs], [capability.rs], [model.rs], [ports.rs] and
    [run.rs]. The trait [RunStore] is the class of the same name; what its
    documentation promises is stated against an abstract ledger, a map from
    run to its command, agent, terminal state and events, in
    [RunStoreLaws]: every operation is simulated by one of the ledger. *)
From S2P Require Import Prelude Json Text Protocol.
Definition RunId := ExecutionId.
Definition EventId := ExecutionEventId.

(** ** Data *)
Record ResolvedAgent := MkResolvedAgent { instructions : string; capability_grants : list string }.
#[global] Instance ResolvedAgent_eq_dec : EqDecision ResolvedAgent.
Proof. solve_decision. Defined.

Inductive RunStatus := Open | Completed | Failed | Cancelled.
#[global] Instance RunStatus_eq_dec : EqDecision RunStatus.
Proof. solve_decision. Defined.

Inductive TerminalState :=
| TCompleted (output : string)
| TFailed (error : string)
| TCancelled (reason : string).
#[global] Instance TerminalState_eq_dec : EqDecision TerminalState.
Proof. solve_decision. Defined.

Definition terminal_status (t : TerminalState) : RunStatus :=
  match t with TCompleted _ => Completed | TFailed _ => Failed | TCancelled _ => Cancelled end.

(** [port_error!]: an error is its message. *)
Record ModelError := MkModelError { model_message : string }.
Record StoreError := MkStoreError { store_message : string }.

Inductive RunAdmission := RunAdmitted (run_id : RunId) | Existing (run_id : RunId) | Conflict (run_id : RunId).

Section data.
Context `{JV : JsonValue}.

Record CapabilitySpec := MkCapabilitySpec {
  cap_name : string; cap_description : string; cap_input_schema : Value }.
Record CapabilityCall := MkCapabilityCall {
  call_id : string; call_name : string; call_arguments : Value }.
#[global] Instance CapabilityCall_eq_dec : EqDecision CapabilityCall.
Proof. solve_decision. Defined.
Record CapabilityRequest := MkCapabilityRequest {
  req_run_id : RunId; req_target : TargetRef; req_ordinal : Z; req_call : CapabilityCall }.
Record CapabilityOutcome := MkCapabilityOutcome { model_view : Value; is_error : bool }.

(** [CapabilityOutcome::error]. *)
Definition outcome_error (message : string) : CapabilityOutcome :=
  MkCapabilityOutcome (JObject [("error", JString message)]) true.

Inductive Message :=
| MSystem (text : string)
| MUser (text : string)
| MAssistant (text : string) (capability_calls : list CapabilityCall)
| MCapability (call_id name : string) (outcome : CapabilityOutcome).

Record ModelResponse := MkModelResponse {
  resp_text : string; resp_calls : list CapabilityCall; truncated : bool }.
Record ModelRequest := MkModelRequest {
  mreq_run_id : RunId; mreq_round : Z; mreq_messages : list Message;
  mreq_capabilities : list CapabilitySpec }.
Inductive ModelEvent := MTextDelta (text : string) | MCompleted (response : ModelResponse).

Inductive RunEventKind :=
| RunStarted (command : CommandEnvelope) (agent : ResolvedAgent)
| ModelRequested (round : Z)
| ModelResponded (round : Z) (response : ModelResponse)
| CapabilityRequested (ordinal : Z) (call : CapabilityCall)
| CapabilityCompleted (ordinal : Z) (call_id : string) (outcome : CapabilityOutcome)
| RunTerminated (terminal : TerminalState).

Record RunEvent := MkRunEvent {
  event_id : EventId; event_run_id : RunId; sequence : Z; recorded_at_ms : Z; kind : RunEventKind }.
Record RunRecord := MkRunRecord {
  rec_run_id : RunId; rec_command : CommandEnvelope; rec_agent : ResolvedAgent;
  rec_status : RunStatus; rec_terminal : option TerminalState;
  created_at_ms : Z; finished_at_ms : option Z }.
Record RunTranscript := MkRunTranscript { transcript_run : RunRecord; events : list RunEvent }.

(** Event kinds whose text is read back: a command's input is one a
    deserializer accepts. *)
Definition kind_ok (k : RunEventKind) : bool :=
  match k with RunStarted c _ => input_ok (input c) | _ => true end.

(** ** The abstract ledger *)
Record LedgerRun := MkLedgerRun {
  l_command : CommandEnvelope;
  l_agent : ResolvedAgent;
  l_terminal : option TerminalState;
  l_events : list RunEventKind;
}.
End data.

Abbreviation Ledger := (gmap RunId LedgerRun).

Section ledger.
Context `{JV : JsonValue}.

Definition new_run (c : CommandEnvelope) (a : ResolvedAgent) : LedgerRun :=
  MkLedgerRun c a None [RunStarted c a].
Definition run_append (es : list RunEventKind) (r : LedgerRun) : LedgerRun :=
  MkLedgerRun (l_command r) (l_agent r) (l_terminal r) (l_events r ++ es).
Definition run_finish (t : TerminalState) (r : LedgerRun) : LedgerRun :=
  MkLedgerRun (l_command r) (l_agent r) (Some t) (l_events r ++ [RunTerminated t]).

(** One operation of the ledger with its result: admission is by command
    identity, appending and finishing need an open run, and an error changes
    nothing. *)
Inductive admits (c : CommandEnvelope) (a : ResolvedAgent)
    : Ledger → Result StoreError RunAdmission → Ledger → Prop :=
| admits_new L r :
    L !! r = None →
    (∀ r' run', L !! r' = Some run' → command_id (l_command run') ≠ command_id c) →
    admits c a L (Ok (RunAdmitted r)) (<[r := new_run c a]> L)
| admits_existing L r run :
    L !! r = Some run → l_command run = c → l_agent run = a →
    admits c a L (Ok (Existing r)) L
| admits_conflict L r run :
    L !! r = Some run → command_id (l_command run) = command_id c →
    (l_command run, l_agent run) ≠ (c, a) →
    admits c a L (Ok (Conflict r)) L
| admits_error L e : admits c a L (Err e) L.

Inductive appends (r : RunId) (es : list RunEventKind)
    : Ledger → Result StoreError unit → Ledger → Prop :=
| appends_nothing L : es = [] → appends r es L (Ok tt) L
| appends_open L run :
    L !! r = Some run → l_terminal run = None →
    appends r es L (Ok tt) (<[r := run_append es run]> L)
| appends_error L e : appends r es L (Err e) L.

Inductive finishes (r : RunId) (t : TerminalState)
    : Ledger → Result StoreError unit → Ledger → Prop :=
| finishes_open L run :
    L !! r = Some run → l_terminal run = None →
    finishes r t L (Ok tt) (<[r := run_finish t run]> L)
| finishes_error L e : finishes r t L (Err e) L.

(** A transcript is read in two steps: the run first, from the ledger [L], and
    then its events, from the ledger [L'] that others may have moved on to. *)
Inductive transcribes (r : RunId) (L L' : Ledger) : Result StoreError RunTranscript → Prop :=
| transcribes_run run later tr :
    L !! r = Some run → L' !! r = Some later →
    rec_run_id (transcript_run tr) = r →
    rec_command (transcript_run tr) = l_command run →
    rec_agent (transcript_run tr) = l_agent run →
    rec_terminal (transcript_run tr) = l_terminal run →
    rec_status (transcript_run tr) = default Open (terminal_status <$> l_terminal run) →
    kind <$> events tr = l_events later →
    sequence <$> events tr = seqZ 0 (Z.of_nat (length (l_events later))) →
    Forall (λ e, event_run_id e = r) (events tr) →
    transcribes r L L' (Ok tr)
| transcribes_error e : transcribes r L L' (Err e).

(** ** The trait

    A store operation takes the choices of its environment: the identities it
    draws, the clock, and a failure of the database or its worker. *)
Record StoreChoice := MkStoreChoice {
  failure : option StoreError;
  clock : Result StoreError Z;         (* [now_ms] *)
  fresh_run : RunId;                   (* [RunId::new] *)
  fresh_event : nat → EventId;         (* [EventId::new], one per inserted event *)
}.

Class RunStore (S : Type) := {
  admit_run : StoreChoice → CommandEnvelope → ResolvedAgent → S → Result StoreError RunAdmission * S;
  append_events : StoreChoice → RunId → list RunEventKind → S → Result StoreError unit * S;
  finish_run : StoreChoice → RunId → TerminalState → S → Result StoreError unit * S;
  (* the store when the run is read, and when its events are *)
  load_transcript : StoreChoice → RunId → S → S → Result StoreError RunTranscript;
}.

(** What the trait's documentation promises: the stored state stands for a
    ledger, and every operation is an operation of the ledger. A reading of a
    healthy store succeeds, and a repeated admission is recognised. *)
Class RunStoreLaws (S : Type) `{RunStore S} := {
  stands_for : S → Ledger → Prop;
  admit_simulates ch c a s s' res L :
    stands_for s L → input_ok (input c) = true → admit_run ch c a s = (res, s') →
    ∃ L', admits c a L res L' ∧ stands_for s' L';
  append_simulates ch r es s s' res L :
    stands_for s L → forallb kind_ok es = true → append_events ch r es s = (res, s') →
    ∃ L', appends r es L res L' ∧ stands_for s' L';
  finish_simulates ch r t s s' res L :
    stands_for s L → finish_run ch r t s = (res, s') →
    ∃ L', finishes r t L res L' ∧ stands_for s' L';
  load_simulates ch r s s' res L L' :
    stands_for s L → stands_for s' L' → (is_Some (L !! r) → is_Some (L' !! r)) →
    load_transcript ch r s s' = res → transcribes r L L' res;
  admit_recognises ch s L r run :
    stands_for s L → failure ch = None → L !! r = Some run →
    admit_run ch (l_command run) (l_agent run) s = (Ok (Existing r), s);
  admit_fresh ch c a s s' r :
    admit_run ch c a s = (Ok (RunAdmitted r), s') → r = fresh_run ch;
  load_succeeds ch s s' L L' r :
    stands_for s L → stands_for s' L' → failure ch = None → is_Some (L !! r) → is_Some (L' !! r) →
    ∃ tr, load_transcript ch r s s' = Ok tr;
}.
End ledger.
