(* ===== verification/RunSqlite.v ===== *)
(** * The SQLite run ledger ([renoa-store-sqlite])

    The tables of [schema.rs] and the operations of [lib.rs]. A table is a
    finite map from primary key to row; the [TEXT] column of an identity is
    the identity. The texts of library errors ([LibraryTexts]) and the
    serializers ([RunSerde]) are parameters. *)
From S2P Require Import Prelude Json Text Protocol Transaction Runs.
Class RunSerde `{JV : JsonValue} := {
  command_serde :: Serde CommandEnvelope;
  agent_serde :: Serde ResolvedAgent;
  terminal_serde :: Serde TerminalState;
  event_kind_serde :: Serde RunEventKind;
}.

(** What is written is read back, when a deserializer would accept it. *)
Class RunSerdeLaws `{RS : RunSerde} : Prop := {
  command_read_back (c : CommandEnvelope) t :
    to_string c = Some t → input_ok (input c) = true → from_str t = Some c;
  agent_laws :: SerdeLaws ResolvedAgent;
  terminal_laws :: SerdeLaws TerminalState;
  event_kind_read_back (k : RunEventKind) t :
    to_string k = Some t → kind_ok k = true → from_str t = Some k;
}.

Section sqlite.
Context `{RS : RunSerde} `{LT : LibraryTexts}.

Definition sqlite_error (error : string) : StoreError := MkStoreError ("SQLite error: " +:+ error).
Definition json_error : StoreError := MkStoreError ("run serialization error: " +:+ json_failed).

(** ** Tables *)
Record RunRow := MkRunRow {
  r_command_id : option CommandId;     (* absent in rows of a legacy database *)
  r_command_json : Text;
  r_agent_json : Text;
  r_status : string;
  r_terminal_json : option Text;
  r_next_sequence : Z;
  r_created_at_ms : Z;
  r_finished_at_ms : option Z;
}.

Record EventRow := MkEventRow {
  re_run_id : RunId;
  re_sequence : Z;
  re_recorded_at_ms : Z;
  re_kind_json : Text;
}.

Record RunDb := MkRunDb {
  runs_created : bool;
  events_created : bool;
  has_command_id : bool;               (* the column of [runs] *)
  command_id_unique : bool;            (* the index [runs_command_id_unique] *)
  runs : gmap RunId RunRow;
  run_events : gmap EventId EventRow;
}.

(** A new database file. *)
Definition empty_file : RunDb := MkRunDb false false false false ∅ ∅.

Definition with_runs (m : gmap RunId RunRow) (db : RunDb) : RunDb :=
  MkRunDb (runs_created db) (events_created db) (has_command_id db) (command_id_unique db)
    m (run_events db).
Definition with_run_events (m : gmap EventId EventRow) (db : RunDb) : RunDb :=
  MkRunDb (runs_created db) (events_created db) (has_command_id db) (command_id_unique db)
    (runs db) m.

Abbreviation RTx := (Tx RunDb StoreError).

(** ** Schema ([schema.rs]) *)

(** The [CREATE .. IF NOT EXISTS] batch: existing tables keep their columns. *)
Definition create_tables (db : RunDb) : RunDb :=
  MkRunDb true true (if runs_created db then has_command_id db else true)
    (command_id_unique db) (runs db) (run_events db).

Definition set_command_id (c : CommandId) (row : RunRow) : RunRow :=
  MkRunRow (Some c) (r_command_json row) (r_agent_json row) (r_status row) (r_terminal_json row)
    (r_next_sequence row) (r_created_at_ms row) (r_finished_at_ms row).

Definition add_command_id_column (db : RunDb) : RunDb :=
  MkRunDb (runs_created db) (events_created db) true (command_id_unique db) (runs db) (run_events db).

(** [UPDATE runs SET command_id = ?2 WHERE run_id = ?1] for one legacy row. *)
Definition migrate_row (kv : RunId * RunRow) : RTx unit :=
  command ← lift (ok_or (from_str (A := CommandEnvelope) (r_command_json kv.2)) json_error);
  write (λ db, with_runs (alter (set_command_id (command_id command)) kv.1 (runs db)) db).

(** No two rows share a command identity (SQL's NULLs differ). *)
Definition command_ids_distinct (db : RunDb) : bool :=
  tbl_forall (λ r1 row1, tbl_forall (λ r2 row2,
    match r_command_id row1, r_command_id row2 with
    | Some c1, Some c2 => bool_decide (c1 = c2 → r1 = r2)
    | _, _ => true
    end) (runs db)) (runs db).

(** [CREATE UNIQUE INDEX IF NOT EXISTS runs_command_id_unique]. *)
Definition create_command_id_index : RTx unit :=
  db ← get;
  if command_id_unique db then mret tt
  else
    _ ← guard (command_ids_distinct db) (sqlite_error (constraint_failed "runs.command_id"));
    write (λ db, MkRunDb (runs_created db) (events_created db) (has_command_id db) true
                   (runs db) (run_events db)).

Definition migrate_command_identity : RTx unit :=
  db ← get;
  _ ← (if has_command_id db then mret tt
       else
         _ ← write add_command_id_column;
         for_each migrate_row (map_to_list (runs db)));
  create_command_id_index.

(** [schema::initialize], run by [SqliteRunStore::open]: the tables are created
    by statements of their own, the migration is one transaction. *)
Definition initialize (fail : option StoreError) (db : RunDb) : Result StoreError unit * RunDb :=
  match fail with
  | Some e => (Err e, db)
  | None => commit migrate_command_identity (create_tables db)
  end.

(** ** Columns *)
Definition status_name (s : RunStatus) : string :=
  match s with
  | Open => "open" | Completed => "completed" | Failed => "failed" | Cancelled => "cancelled"
  end.

Definition parse_status (value : string) : Result StoreError RunStatus :=
  if decide (value = "open") then Ok Open
  else if decide (value = "completed") then Ok Completed
  else if decide (value = "failed") then Ok Failed
  else if decide (value = "cancelled") then Ok Cancelled
  else Err (MkStoreError ("unknown run status: " +:+ value)).

Definition to_sql_integer (value : Z) : Result StoreError Z :=
  ok_or (i64_try_from value) (MkStoreError "integer exceeds SQLite i64 range").

Definition encode `{Serde A} (a : A) : Result StoreError Text := ok_or (to_string a) json_error.
Definition decode `{Serde A} (t : Text) : Result StoreError A := ok_or (from_str t) json_error.

Definition run_not_found (run_id : RunId) : StoreError :=
  MkStoreError ("run " +:+ show_id run_id +:+ " was not found").

(** ** Statements *)
Definition insert_run (run_id : RunId) (row : RunRow) : RTx unit :=
  db ← get;
  _ ← guard (bool_decide (runs db !! run_id = None)) (sqlite_error (constraint_failed "runs.run_id"));
  _ ← guard (negb (command_id_unique db &&
               tbl_exists (λ _ r, bool_decide (r_command_id r = r_command_id row)) (runs db)))
        (sqlite_error (constraint_failed "runs.command_id"));
  write (with_runs (<[run_id := row]> (runs db))).

(** [UPDATE runs SET .. WHERE run_id = ?1 AND ..], with the number of rows changed. *)
Definition update_run (run_id : RunId) (w : RunRow → bool) (f : RunRow → RunRow) : RTx Z :=
  db ← get;
  match runs db !! run_id with
  | Some row => if w row then _ ← write (with_runs (<[run_id := f row]> (runs db))); mret 1 else mret 0
  | None => mret 0
  end.

Definition insert_event (event_id : EventId) (run_id : RunId) (sequence recorded_at_ms : Z)
    (kind : RunEventKind) : RTx unit :=
  kind_json ← lift (encode kind);
  sequence ← lift (to_sql_integer sequence);
  db ← get;
  _ ← guard (bool_decide (run_events db !! event_id = None))
        (sqlite_error (constraint_failed "run_events.event_id"));
  _ ← guard (negb (tbl_exists (λ _ e, bool_decide (re_run_id e = run_id) && (re_sequence e =? sequence))
                     (run_events db)))
        (sqlite_error (constraint_failed "run_events.run_id, run_events.sequence"));
  _ ← guard (bool_decide (is_Some (runs db !! run_id))) (sqlite_error (constraint_failed "run_events.run_id"));
  write (with_run_events (<[event_id := MkEventRow run_id sequence recorded_at_ms kind_json]> (run_events db))).

Definition load_open_cursor (run_id : RunId) : RTx (RunStatus * Z) :=
  row ← read (λ db, ok_or (runs db !! run_id) (run_not_found run_id));
  sequence ← lift (if 0 <=? r_next_sequence row then Ok (r_next_sequence row)
                   else Err (MkStoreError "negative event cursor"));
  status ← lift (parse_status (r_status row));
  mret (status, sequence).

(** ** [RunStore for SqliteRunStore] *)
Definition existing_run (c : CommandId) (db : RunDb) : option (RunId * RunRow) :=
  head (select (λ _ row, bool_decide (r_command_id row = Some c)) (runs db)).

Definition new_run_row (c : CommandId) (command_json agent_json : Text) (created_at_ms : Z) : RunRow :=
  MkRunRow (Some c) command_json agent_json "open" None 1 created_at_ms None.

Definition admit_body (ch : StoreChoice) (command : CommandEnvelope) (agent : ResolvedAgent)
    : RTx RunAdmission :=
  command_json ← lift (encode command);
  agent_json ← lift (encode agent);
  existing ← query (existing_run (command_id command));
  match existing with
  | Some (run_id, row) =>
      mret (if bool_decide (r_command_json row = command_json) && bool_decide (r_agent_json row = agent_json)
            then Existing run_id else Conflict run_id)
  | None =>
      let run_id := fresh_run ch in
      created_at_ms ← lift (clock ch);
      _ ← insert_run run_id (new_run_row (command_id command) command_json agent_json created_at_ms);
      _ ← insert_event (fresh_event ch 0) run_id 0 created_at_ms (RunStarted command agent);
      mret (RunAdmitted run_id)
  end.

(** The loop of [append_events]; [offset] is the index of the head. *)
Fixpoint insert_events (ch : StoreChoice) (run_id : RunId) (next_sequence recorded_at_ms : Z)
    (offset : nat) (kinds : list RunEventKind) : RTx unit :=
  match kinds with
  | [] => mret tt
  | kind :: rest =>
      _ ← insert_event (fresh_event ch offset) run_id (next_sequence + Z.of_nat offset) recorded_at_ms kind;
      insert_events ch run_id next_sequence recorded_at_ms (S offset) rest
  end.

Definition set_next_sequence (n : Z) (row : RunRow) : RunRow :=
  MkRunRow (r_command_id row) (r_command_json row) (r_agent_json row) (r_status row)
    (r_terminal_json row) n (r_created_at_ms row) (r_finished_at_ms row).

Definition append_body (ch : StoreChoice) (run_id : RunId) (kinds : list RunEventKind) : RTx unit :=
  '(status, next_sequence) ← load_open_cursor run_id;
  _ ← guard (bool_decide (status = Open))
        (MkStoreError ("cannot append events to terminal run " +:+ show_id run_id));
  recorded_at_ms ← lift (clock ch);
  _ ← insert_events ch run_id next_sequence recorded_at_ms 0 kinds;
  next_sequence ← lift (to_sql_integer (next_sequence + Z.of_nat (length kinds)));
  _ ← update_run run_id (λ _, true) (set_next_sequence next_sequence);
  mret tt.

Definition finished_row (t : TerminalState) (terminal_json : Text) (next_sequence finished_at_ms : Z)
    (row : RunRow) : RunRow :=
  MkRunRow (r_command_id row) (r_command_json row) (r_agent_json row)
    (status_name (terminal_status t)) (Some terminal_json) next_sequence (r_created_at_ms row)
    (Some finished_at_ms).

Definition finish_body (ch : StoreChoice) (run_id : RunId) (terminal : TerminalState) : RTx unit :=
  '(status, next_sequence) ← load_open_cursor run_id;
  _ ← guard (bool_decide (status = Open))
        (MkStoreError ("run " +:+ show_id run_id +:+ " already reached terminal state"));
  finished_at_ms ← lift (clock ch);
  terminal_json ← lift (encode terminal);
  next ← lift (to_sql_integer (next_sequence + 1));
  changed ← update_run run_id (λ row, String.eqb (r_status row) "open")
              (finished_row terminal terminal_json next finished_at_ms);
  _ ← guard (changed =? 1) (MkStoreError ("terminal compare-and-set lost for run " +:+ show_id run_id));
  insert_event (fresh_event ch 0) run_id next_sequence finished_at_ms (RunTerminated terminal).

(** A row of [run_events] as a [RunEvent]. *)
Definition decode_event (run_id : RunId) (kv : EventId * EventRow) : Result StoreError RunEvent :=
  sequence ← (if 0 <=? re_sequence kv.2 then Ok (re_sequence kv.2)
              else Err (MkStoreError "negative event sequence"));
  kind ← decode (re_kind_json kv.2);
  Ok (MkRunEvent kv.1 run_id sequence (re_recorded_at_ms kv.2) kind).

Definition event_rows (run_id : RunId) (after : option Z) (db : RunDb) : list (EventId * EventRow) :=
  order_by (λ kv, re_sequence kv.2)
    (select (λ _ e, bool_decide (re_run_id e = run_id) &&
                    match after with None => true | Some n => n <? re_sequence e end) (run_events db)).

(** Two statements, each its own transaction: the row of the run is read from
    [db], its events from [later], which others may have written since. *)
Definition load_body (run_id : RunId) (db later : RunDb) : Result StoreError RunTranscript :=
  row ← ok_or (runs db !! run_id) (run_not_found run_id);
  command ← decode (r_command_json row);
  agent ← decode (r_agent_json row);
  status ← parse_status (r_status row);
  terminal ← transpose decode (r_terminal_json row);
  events ← collect (decode_event run_id) (event_rows run_id None later);
  Ok (MkRunTranscript
        (MkRunRecord run_id command agent status terminal (r_created_at_ms row) (r_finished_at_ms row))
        events).

(** [SqliteRunStore::load_events_after]. *)
Definition load_events_after (ch : StoreChoice) (run_id : RunId) (after_sequence : option Z) (db : RunDb)
    : Result StoreError (list RunEvent) :=
  match failure ch with
  | Some e => Err e
  | None =>
      _ ← ok_or (runs db !! run_id) (run_not_found run_id);
      after ← transpose to_sql_integer after_sequence;
      collect (decode_event run_id) (event_rows run_id after db)
  end.

(** An operation whose connection, transaction, commit or worker may fail. *)
Definition attempt {A} (ch : StoreChoice) (m : RTx A) (db : RunDb) : Result StoreError A * RunDb :=
  match failure ch with Some e => (Err e, db) | None => commit m db end.

#[global] Instance sqlite_run_store : RunStore RunDb := {
  admit_run ch command agent := attempt ch (admit_body ch command agent);
  append_events ch run_id kinds db :=
    match kinds with [] => (Ok tt, db) | _ => attempt ch (append_body ch run_id kinds) db end;
  finish_run ch run_id terminal := attempt ch (finish_body ch run_id terminal);
  load_transcript ch run_id db later :=
    match failure ch with Some e => Err e | None => load_body run_id db later end;
}.
End sqlite.
