(* ===== verification/RunSqliteSound.v ===== *)
(** * The SQLite run ledger implements the store's contract

    [represents db L]: the rows of an initialized database stand for the
    ledger [L]. Every operation of [RunSqlite] simulates one of the ledger, so
    that [sqlite_store_laws] is an instance of [RunStoreLaws]; opening a
    database, a legacy one included, keeps the ledger. *)
From S2P Require Import Prelude Json Text Protocol Transaction Runs RunSqlite.
Section sound.
Context `{RS : RunSerde} `{LT : LibraryTexts} `{!RunSerdeLaws}.
Implicit Types (db : RunDb) (L : Ledger) (row : RunRow) (run : LedgerRun).

(** ** Representation *)
Record events_for db (r : RunId) (kinds : list RunEventKind) : Prop := {
  ef_gapless : gapless (run_events db) (λ e, re_run_id e = r) re_sequence (Z.of_nat (length kinds));
  ef_kinds : ∀ id e, run_events db !! id = Some e → re_run_id e = r →
    ∃ k, kinds !! Z.to_nat (re_sequence e) = Some k ∧ to_string k = Some (re_kind_json e);
  ef_ok : forallb kind_ok kinds = true;
}.

(** The columns of a row without its command identity. *)
Record columns_for row run : Prop := {
  cf_command : to_string (l_command run) = Some (r_command_json row);
  cf_input : input_ok (input (l_command run)) = true;
  cf_agent : to_string (l_agent run) = Some (r_agent_json row);
  cf_status : r_status row = status_name (default Open (terminal_status <$> l_terminal run));
  cf_terminal : option_Forall2 (λ t j, to_string t = Some j) (l_terminal run) (r_terminal_json row);
  cf_next : r_next_sequence row = Z.of_nat (length (l_events run));
}.

Record row_for db (r : RunId) row run : Prop := {
  rf_columns : columns_for row run;
  rf_command_id : r_command_id row = Some (command_id (l_command run));
  rf_events : events_for db r (l_events run);
}.

(** The tables, the column and the index that [initialize] creates. *)
Definition schema_of db : bool * bool * bool * bool :=
  (runs_created db, events_created db, has_command_id db, command_id_unique db).

Record represents db L : Prop := {
  rep_schema : schema_of db = (true, true, true, true);
  rep_rows : ∀ r, option_Forall2 (row_for db r) (runs db !! r) (L !! r);
  rep_ids : ∀ r1 row1 r2 row2, runs db !! r1 = Some row1 → runs db !! r2 = Some row2 →
    r_command_id row1 = r_command_id row2 → r1 = r2;
  rep_events : ∀ id e, run_events db !! id = Some e → is_Some (runs db !! re_run_id e);
}.

(** ** Columns *)
Lemma run_status_name_inj s1 s2 : status_name s1 = status_name s2 → s1 = s2.
Proof. by destruct s1, s2. Qed.

Lemma parse_run_status s : parse_status (status_name s) = Ok s.
Proof. by destruct s. Qed.

Lemma run_sql_integer_ok v z : to_sql_integer v = Ok z ↔ z = v ∧ v ≤ i64_max.
Proof. unfold to_sql_integer. rewrite ok_or_ok. apply i64_try_from_Some. Qed.

Lemma run_encode_ok `{Serde A} (a : A) t : encode a = Ok t ↔ to_string a = Some t.
Proof. apply ok_or_ok. Qed.

Lemma run_decode_ok `{Serde A} (a : A) t : decode t = Ok a ↔ from_str t = Some a.
Proof. apply ok_or_ok. Qed.

Lemma row_lookup db L r row : represents db L → runs db !! r = Some row →
  ∃ run, L !! r = Some run ∧ row_for db r row run.
Proof. intros HR Hr. pose proof (rep_rows db L HR r) as Hf. rewrite Hr in Hf. inversion Hf; eauto. Qed.

Lemma run_lookup db L r run : represents db L → L !! r = Some run →
  ∃ row, runs db !! r = Some row ∧ row_for db r row run.
Proof. intros HR Hr. pose proof (rep_rows db L HR r) as Hf. rewrite Hr in Hf. inversion Hf; eauto. Qed.

Lemma run_absent db L r : represents db L → runs db !! r = None ↔ L !! r = None.
Proof.
  intros HR. pose proof (rep_rows db L HR r) as Hf.
  destruct (runs db !! r), (L !! r); inversion Hf; naive_solver.
Qed.

(** ** Statements *)
Lemma run_insert_event_ok id r n at_ k db u db' :
  insert_event id r n at_ k db = Ok (u, db') ↔
  ∃ j, to_string k = Some j ∧ n ≤ i64_max ∧ run_events db !! id = None ∧
    (∀ id' e, run_events db !! id' = Some e → re_run_id e = r → re_sequence e ≠ n) ∧
    is_Some (runs db !! r) ∧
    db' = with_run_events (<[id := MkEventRow r n at_ j]> (run_events db)) db.
Proof.
  unfold insert_event. destruct u. split.
  - intros HT. tx_inv. unfold encode in *. tx_inv. apply run_sql_integer_ok in E as [-> ?]. split_bools.
    eexists. split_and!; try done. intros id' e He Hr Hn.
    rewrite tbl_exists_false in G0. specialize (G0 id' e He). cbn in G0.
    rewrite bool_decide_true, Hn, Z.eqb_refl in G0; done.
  - intros (j & Hk & Hn & Hid & Hseq & Hr & ->).
    erewrite txn_run; [|by apply txn_lift_run, run_encode_ok].
    erewrite txn_run; [|by apply txn_lift_run, run_sql_integer_ok].
    erewrite txn_run; [|done].
    erewrite txn_run; [|by apply txn_guard_run, bool_decide_true].
    erewrite txn_run; [|apply txn_guard_run, negb_true_iff, tbl_exists_false].
    2: { intros id' e He. apply not_true_iff_false. intros Hb. split_bools. by eapply Hseq. }
    by erewrite txn_run; [|by apply txn_guard_run, bool_decide_true].
Qed.

Lemma update_run_ok r w f n db db' :
  update_run r w f db = Ok (n, db') ↔
  match runs db !! r with
  | Some row => if w row then n = 1 ∧ db' = with_runs (<[r := f row]> (runs db)) db
                else n = 0 ∧ db' = db
  | None => n = 0 ∧ db' = db
  end.
Proof.
  unfold update_run. erewrite txn_run; [|done].
  destruct (runs db !! r) as [row|]; [destruct (w row)|]; rewrite ?txn_ret_ok; [|done..].
  split.
  - intros HT. tx_inv. done.
  - by intros [-> ->].
Qed.

Lemma load_open_cursor_ok r db c db' :
  load_open_cursor r db = Ok (c, db') ↔
  ∃ row, runs db !! r = Some row ∧ db' = db ∧ 0 ≤ r_next_sequence row ∧
    parse_status (r_status row) = Ok c.1 ∧ c.2 = r_next_sequence row.
Proof.
  unfold load_open_cursor. split.
  - intros HT. tx_inv. destruct (Z.leb_spec 0 (r_next_sequence a)); [|done]. tx_inv. eauto 8.
  - destruct c as [st n]. cbn. intros (row & Hr & -> & Hn & Hs & ->).
    erewrite txn_run; [|by apply txn_read_run, ok_or_ok].
    erewrite txn_run; [|by apply txn_lift_run; rewrite (proj2 (Z.leb_le _ _) Hn)].
    by erewrite txn_run; [|by apply txn_lift_run].
Qed.
(** ** Events of a run *)

(** What an insertion into another run, or a rewritten row, leaves alone. *)
Lemma events_for_ext db db' r kinds :
  run_events db' = run_events db → events_for db r kinds → events_for db' r kinds.
Proof. intros E [Hg Hk Ho]. split; rewrite ?E; done. Qed.

Lemma events_for_other db r r' kinds id e :
  run_events db !! id = None → re_run_id e = r' → r' ≠ r →
  events_for db r kinds → events_for (with_run_events (<[id := e]> (run_events db)) db) r kinds.
Proof.
  intros Hid He Hne [Hg Hk Ho]. split; cbn; [|intros id' e' [[-> ->]|[? ?]]%lookup_insert_Some; [congruence|eauto]|done].
  apply gapless_insert_other; [done|congruence|done].
Qed.

Lemma events_for_snoc db r kinds id at_ k j :
  run_events db !! id = None → to_string k = Some j → kind_ok k = true →
  events_for db r kinds →
  events_for (with_run_events
    (<[id := MkEventRow r (Z.of_nat (length kinds)) at_ j]> (run_events db)) db) r (kinds ++ [k]).
Proof.
  intros Hid Hj Hok [Hg Hk Ho]. split; cbn.
  - rewrite length_app, Nat2Z.inj_add. apply gapless_insert_next; cbn; [done..|lia|done].
  - intros id' e' [[-> <-]|[? He]]%lookup_insert_Some; cbn.
    + intros _. exists k. rewrite Nat2Z.id, lookup_app_r, Nat.sub_diag by done. done.
    + intros Hr. destruct (Hk id' e' He Hr) as (k' & Hk' & ?). exists k'. split; [|done].
      by apply lookup_app_l_Some.
  - rewrite forallb_app, Ho. cbn. by rewrite Hok.
Qed.

(** Rows numbered from [pre] on decode to the events from [pre] on. *)
Lemma numbered_rows_decode r kinds rows : ∀ pre : Z,
  (∀ kv, kv ∈ rows → ∃ k, kinds !! Z.to_nat (re_sequence kv.2) = Some k ∧
     from_str (re_kind_json kv.2) = Some k) →
  0 ≤ pre → (λ kv, re_sequence kv.2) <$> rows = seqZ pre (Z.of_nat (length kinds) - pre) →
  pre ≤ Z.of_nat (length kinds) →
  ∃ evs, collect (decode_event r) rows = Ok evs ∧ kind <$> evs = drop (Z.to_nat pre) kinds ∧
    sequence <$> evs = (λ kv, re_sequence kv.2) <$> rows ∧ Forall (λ e, event_run_id e = r) evs.
Proof.
  induction rows as [|kv rows IH]; intros pre Hrow Hpre Hs Hle.
  - exists []. split_and!; [done| |done|constructor]. symmetry. apply drop_ge.
    apply (f_equal length) in Hs. rewrite length_seqZ in Hs. cbn in Hs. lia.
  - destruct (decide (pre = Z.of_nat (length kinds))) as [->|Hne].
    { by rewrite Z.sub_diag in Hs. }
    rewrite seqZ_cons in Hs by lia. cbn in Hs. injection Hs as Hn Hs.
    destruct (Hrow kv) as (k & Hk1 & Hk2); [by left|].
    destruct (IH (pre + 1)) as (evs & Hc & Hkinds & Hsq & HF); [|lia| |lia|].
    { intros kv' Hin. apply Hrow. by right. }
    { rewrite Hs. f_equal; lia. }
    exists (MkRunEvent kv.1 r pre (re_recorded_at_ms kv.2) k :: evs). split_and!.
    + cbn [collect].
      assert (decode_event r kv = Ok (MkRunEvent kv.1 r pre (re_recorded_at_ms kv.2) k)) as ->; [|by cbn; rewrite Hc].
      unfold decode_event. rewrite Hn, (proj2 (Z.leb_le 0 pre)) by done. cbn.
      by rewrite (proj2 (run_decode_ok _ _) Hk2).
    + cbn. rewrite Hkinds. symmetry. rewrite Hn in Hk1.
      replace (Z.to_nat (pre + 1)) with (S (Z.to_nat pre)) by lia. by apply drop_S.
    + cbn. by rewrite Hsq, Hn.
    + by constructor.
Qed.

(** How many events a cursor has acknowledged. *)
Definition acknowledged (after : option Z) (n : nat) : Z :=
  match after with None => 0 | Some a => Z.min (a + 1) (Z.of_nat n) end.

Lemma event_rows_numbers db r kinds after : events_for db r kinds → (∀ a, after = Some a → 0 ≤ a) →
  (λ kv, re_sequence kv.2) <$> event_rows r after db =
    seqZ (acknowledged after (length kinds)) (Z.of_nat (length kinds) - acknowledged after (length kinds)).
Proof.
  intros [Hg _ _] Ha. apply order_by_range.
  - apply NoDup_fmap_2_strong; [|eapply NoDup_fmap_1, NoDup_select].
    intros [k1 v1] [k2 v2] [? ?]%elem_of_select [? ?]%elem_of_select E. cbn in *. split_bools.
    assert (k1 = k2) as -> by (by eapply (gapless_inj _ _ _ _ _ _ _ _ Hg)). by simplify_eq.
  - intros p. rewrite list_elem_of_fmap. split.
    + intros ([k v] & -> & [Hk Hb]%elem_of_select). split_bools.
      pose proof (gapless_bounds _ _ _ _ _ _ Hg Hk ltac:(done)) as Hbd. cbn. unfold acknowledged.
      destruct after; split_bools; lia.
    + intros Hp. assert (0 ≤ p < Z.of_nat (length kinds)) as (k & v & Hk & Hr & Hs)%(proj2 Hg).
      { unfold acknowledged in Hp. destruct after as [a|]; [specialize (Ha a eq_refl)|]; lia. }
      exists (k, v). split; [done|]. apply elem_of_select. split; [done|]. rewrite bool_decide_true by done. cbn.
      unfold acknowledged in Hp. destruct after; [apply Z.ltb_lt; lia|done].
Qed.

(** The rows of a run after a cursor, in order, are its events from there on. *)
Lemma event_rows_decode db r kinds after : events_for db r kinds → (∀ a, after = Some a → 0 ≤ a) →
  let c := acknowledged after (length kinds) in
  ∃ evs, collect (decode_event r) (event_rows r after db) = Ok evs ∧
    kind <$> evs = drop (Z.to_nat c) kinds ∧ sequence <$> evs = seqZ c (Z.of_nat (length kinds) - c) ∧
    Forall (λ e, event_run_id e = r) evs.
Proof.
  intros Hev Ha. cbn. rewrite <- (event_rows_numbers db r kinds after Hev Ha).
  apply numbered_rows_decode; [| |by apply event_rows_numbers|];
    [|unfold acknowledged; destruct after as [a|]; [specialize (Ha a eq_refl)|]; lia..].
  destruct Hev as [_ Hk Ho]. intros [id e] Hin. unfold event_rows in Hin. rewrite elem_of_order_by, elem_of_select in Hin.
  destruct Hin as [He Hb]. split_bools. destruct (Hk id e He) as (k & Hk1 & Hk2); [done|].
  exists k. split; [done|]. apply event_kind_read_back; [done|].
  rewrite forallb_forall in Ho. apply Ho, list_elem_of_In. by eapply list_elem_of_lookup_2.
Qed.

(** ** Writing one run *)

(** The events of [db'] are those of [db] and new ones of [r]. *)
Record only_events_of (r : RunId) db db' : Prop := {
  oe_schema : schema_of db' = schema_of db;
  oe_others : ∀ r' kinds, r' ≠ r → events_for db r' kinds → events_for db' r' kinds;
  oe_new : ∀ id e, run_events db' !! id = Some e → run_events db !! id = Some e ∨ re_run_id e = r;
}.

Lemma only_events_same r db m : only_events_of r db (with_runs m db).
Proof. split; [done| |by left]. intros r' kinds _. by apply events_for_ext. Qed.

Lemma only_events_trans r db1 db2 db3 :
  only_events_of r db1 db2 → only_events_of r db2 db3 → only_events_of r db1 db3.
Proof.
  intros [U1 O1 N1] [U2 O2 N2]. split; [congruence|eauto|].
  intros id e [He|He]%N2; [eauto|by right].
Qed.

Lemma insert_event_extends id r at_ k kinds db u db' :
  kind_ok k = true → events_for db r kinds →
  insert_event id r (Z.of_nat (length kinds)) at_ k db = Ok (u, db') →
  runs db' = runs db ∧ only_events_of r db db' ∧ events_for db' r (kinds ++ [k]).
Proof.
  intros Hok Hev (j & Hj & Hn & Hid & Hseq & Hr & ->)%run_insert_event_ok.
  split_and!; [done| |by apply events_for_snoc]. split; cbn; [done| |].
  - intros r' kinds' Hne. by eapply events_for_other.
  - intros id' e [[-> <-]|[? He]]%lookup_insert_Some; [by right|by left].
Qed.

Lemma insert_events_extends ch r at_ ks : ∀ offset kinds next db u db',
  forallb kind_ok ks = true → events_for db r kinds →
  next + Z.of_nat offset = Z.of_nat (length kinds) →
  insert_events ch r next at_ offset ks db = Ok (u, db') →
  runs db' = runs db ∧ only_events_of r db db' ∧ events_for db' r (kinds ++ ks).
Proof.
  induction ks as [|k ks IH]; intros offset kinds next db u db' Hok Hev Hn HT; cbn in HT, Hok.
  { tx_inv. rewrite app_nil_r. split_and!; [done|by split; eauto|done]. }
  split_bools. tx_inv. rewrite Hn in Hm.
  apply insert_event_extends with (kinds := kinds) in Hm as (E1 & HO1 & Hev1); [|done..].
  apply IH with (kinds := kinds ++ [k]) in Ht as (E2 & HO2 & Hev2); [|done|done|rewrite length_app; cbn; lia].
  rewrite <- app_assoc in Hev2. split_and!; [congruence|by eapply only_events_trans|done].
Qed.

(** Writing the row of one run and adding events of it. *)
Lemma represents_update db L db' r row run :
  represents db L → only_events_of r db db' → runs db' = <[r := row]> (runs db) → row_for db' r row run →
  (∀ r' row', r' ≠ r → runs db !! r' = Some row' → r_command_id row' ≠ r_command_id row) →
  represents db' (<[r := run]> L).
Proof.
  intros HR [U O N] E Hrow Hid. split.
  - rewrite U. apply HR.
  - intros r'. rewrite E. destruct (decide (r = r')) as [<-|Hne].
    + rewrite !lookup_insert_eq. by constructor.
    + rewrite !lookup_insert_ne by done. pose proof (rep_rows db L HR r') as Hf.
      inversion Hf as [row' run' [? ? ?]|]; constructor. split; [done..|]. by apply O.
  - intros r1 row1 r2 row2. rewrite E.
    intros [[-> <-]|[? H1]]%lookup_insert_Some [[-> <-]|[? H2]]%lookup_insert_Some Heq; [done|..].
    + by edestruct Hid.
    + by edestruct Hid.
    + by eapply (rep_ids db L HR).
  - intros id e [He|He]%N; rewrite E; [|by rewrite He, lookup_insert_eq].
    destruct (decide (r = re_run_id e)) as [<-|]; [by rewrite lookup_insert_eq|].
    rewrite lookup_insert_ne by done. by eapply (rep_events db L HR).
Qed.

(** ** Operations *)
Lemma existing_run_Some c db r row :
  existing_run c db = Some (r, row) → runs db !! r = Some row ∧ r_command_id row = Some c.
Proof.
  unfold existing_run. destruct (select _ _) as [|kv l] eqn:Es; [done|]. intros [= ->].
  assert ((r, row) ∈ (r, row) :: l) as Hin by left. rewrite <- Es in Hin.
  apply elem_of_select in Hin as [? ?]. by split_bools.
Qed.

Lemma existing_run_None c db r row :
  existing_run c db = None → runs db !! r = Some row → r_command_id row ≠ Some c.
Proof.
  unfold existing_run. destruct (select _ _) as [|kv l] eqn:Es; [|done]. intros _ Hr Hc.
  assert ((r, row) ∈ []) as Hin; [|by apply elem_of_nil in Hin].
  rewrite <- Es. apply elem_of_select. by rewrite bool_decide_true.
Qed.

Lemma insert_run_ok r row db u db' :
  insert_run r row db = Ok (u, db') → runs db !! r = None ∧ db' = with_runs (<[r := row]> (runs db)) db.
Proof. unfold insert_run. intros HT. tx_inv. by split_bools. Qed.

(** Serialized texts identify what they were written from. *)
Lemma command_text_inj (c c' : CommandEnvelope) t :
  input_ok (input c) = true → input_ok (input c') = true →
  to_string c = Some t → to_string c' = Some t → c = c'.
Proof.
  intros H1 H2 E1 E2. pose proof (command_read_back c t E1 H1). pose proof (command_read_back c' t E2 H2). congruence.
Qed.

Lemma agent_text_inj (a a' : ResolvedAgent) t : to_string a = Some t → to_string a' = Some t → a = a'.
Proof. intros E1%from_to_string E2%from_to_string. congruence. Qed.

Lemma no_run_events db L r : represents db L → runs db !! r = None → events_for db r [].
Proof.
  intros HR Hr.
  assert (∀ id e, run_events db !! id = Some e → re_run_id e ≠ r) as Hn.
  { intros id e He <-. destruct (rep_events db L HR id e He). congruence. }
  split; [|intros ? ? He Hid; by destruct (Hn _ _ He)|done]. split.
  - intros k1 v1 k2 v2 H1 _ Hr1. by destruct (Hn _ _ H1).
  - intros p. split; [cbn; lia|]. intros (k & v & Hk & Hid & _). by destruct (Hn _ _ Hk).
Qed.

Lemma admit_body_simulates ch c a db db' adm L :
  represents db L → input_ok (input c) = true → admit_body ch c a db = Ok (adm, db') →
  ∃ L', admits c a L (Ok adm) L' ∧ represents db' L'.
Proof.
  intros HR Hok HT. unfold admit_body, encode in HT. tx_inv.
  destruct (existing_run (command_id c) db) as [[r row]|] eqn:Ex; tx_inv.
  - apply existing_run_Some in Ex as [Hr Hc]. destruct (row_lookup _ _ _ _ HR Hr) as (run & HL & Hrow).
    exists L. split; [|done]. rewrite (rf_command_id _ _ _ _ Hrow) in Hc. injection Hc as Hc.
    destruct (rf_columns _ _ _ _ Hrow) as [Hcmd Hin Hag _ _ _].
    destruct (bool_decide_reflect (r_command_json row = a0)) as [E1|Hne];
      [destruct (bool_decide_reflect (r_agent_json row = a1)) as [E2|Hne]|]; cbn.
    + apply admits_existing with run; [done|apply (command_text_inj _ _ a0)|apply (agent_text_inj _ _ a1)]; congruence.
    + apply admits_conflict with run; [done..|]. intros [= <- <-]. congruence.
    + apply admits_conflict with run; [done..|]. intros [= <- <-]. congruence.
  - rename Hm0 into Hir, Hm1 into Hie. apply insert_run_ok in Hir as [Hr ->].
    pose proof (no_run_events _ _ _ HR Hr) as Hev.
    apply (insert_event_extends _ _ _ _ []) in Hie as (Er & HO & Hev'); [|done|by eapply events_for_ext; [|exact Hev]].
    exists (<[fresh_run ch := new_run c a]> L). split.
    { apply admits_new; [by apply (run_absent _ _ _ HR)|]. intros r' run' Hr'.
      destruct (run_lookup _ _ _ _ HR Hr') as (row' & Hrow & Hf). apply (existing_run_None _ _ _ _ Ex) in Hrow.
      rewrite (rf_command_id _ _ _ _ Hf) in Hrow. congruence. }
    eapply (represents_update db); [done| |by rewrite Er|..].
    + eapply only_events_trans; [apply only_events_same|done].
    + split; [split|done|done]; try done. constructor.
    + intros r' row' _ Hr'. by apply (existing_run_None _ _ r' row' Ex).
Qed.

Lemma status_open run row : columns_for row run →
  parse_status (r_status row) = Ok Open ↔ l_terminal run = None.
Proof.
  intros HC. rewrite (cf_status _ _ HC), parse_run_status. split; [|by intros ->].
  destruct (l_terminal run) as [[]|]; done.
Qed.

(** A transaction that passed the cursor read works on an open run. *)
Lemma open_cursor db L r c db' :
  represents db L → load_open_cursor r db = Ok (c, db') → c.1 = Open →
  ∃ row run, runs db !! r = Some row ∧ L !! r = Some run ∧ row_for db r row run ∧
    l_terminal run = None ∧ db' = db ∧ c.2 = Z.of_nat (length (l_events run)).
Proof.
  intros HR (row & Hr & -> & _ & Hs & ->)%load_open_cursor_ok Ho. rewrite Ho in Hs.
  destruct (row_lookup _ _ _ _ HR Hr) as (run & HL & Hrow). pose proof (rf_columns _ _ _ _ Hrow) as HC.
  exists row, run. split_and!; [done..| |done|apply HC]. by apply (status_open _ _ HC).
Qed.

Lemma other_command_ids db L r row row' :
  represents db L → runs db !! r = Some row → r_command_id row' = r_command_id row →
  ∀ r2 row2, r2 ≠ r → runs db !! r2 = Some row2 → r_command_id row2 ≠ r_command_id row'.
Proof. intros HR Hr Hid r2 row2 Hne H2 Heq. apply Hne. eapply (rep_ids db L HR); [done..|congruence]. Qed.

Lemma append_body_simulates ch r ks db db' u L :
  represents db L → forallb kind_ok ks = true → append_body ch r ks db = Ok (u, db') →
  ∃ L', appends r ks L (Ok tt) L' ∧ represents db' L'.
Proof.
  intros HR Hok HT. unfold append_body in HT. tx_inv. destruct a as [st next]. tx_inv. split_bools.
  rename select (load_open_cursor _ _ = _) into Hcur. rename select (insert_events _ _ _ _ _ _ _ = _) into Hins. rename select (update_run _ _ _ _ = _) into Hup. rename select (to_sql_integer _ = _) into Hsql.
  destruct (open_cursor _ _ _ _ _ HR Hcur) as (row & run & Hr & HL & Hrow & Hopen & -> & Hn); [done|]. cbn in Hn.
  apply insert_events_extends with (kinds := l_events run) in Hins as (Er & HO & Hev); [|done|apply Hrow|lia].
  apply run_sql_integer_ok in Hsql as [-> Hle]. rewrite update_run_ok in Hup. rewrite Er, Hr in Hup. destruct Hup as [_ ->].
  exists (<[r := run_append ks run]> L). split; [by apply appends_open|].
  eapply (represents_update db); [done| |done| |].
  - eapply only_events_trans; [done|apply only_events_same].
  - destruct Hrow as [[] Hid _]. split; [split|done|by eapply events_for_ext; [|exact Hev]]; try done.
    cbn. rewrite length_app. lia.
  - by eapply other_command_ids.
Qed.

Lemma finish_body_simulates ch r t db db' u L :
  represents db L → finish_body ch r t db = Ok (u, db') →
  ∃ L', finishes r t L (Ok tt) L' ∧ represents db' L'.
Proof.
  intros HR HT. unfold finish_body, encode in HT. tx_inv. destruct a as [st next]. tx_inv. split_bools.
  rename select (load_open_cursor _ _ = _) into Hcur. rename select (insert_event _ _ _ _ _ _ = _) into Hins. rename select (update_run _ _ _ _ = _) into Hup. rename select (to_sql_integer _ = _) into Hsql.
  destruct (open_cursor _ _ _ _ _ HR Hcur) as (row & run & Hr & HL & Hrow & Hopen & -> & Hn); [done|]. cbn in Hn.
  apply run_sql_integer_ok in Hsql as [-> Hle]. rewrite update_run_ok, Hr in Hup.
  destruct (String.eqb (r_status row) "open"); destruct Hup as [? ->]; [|lia]. rewrite Hn in Hins.
  apply insert_event_extends in Hins as (Er & HO & Hev); [|done|by eapply events_for_ext; [|apply Hrow]].
  exists (<[r := run_finish t run]> L). split; [by apply finishes_open|].
  eapply (represents_update db); [done| |by rewrite Er| |].
  - eapply only_events_trans; [apply only_events_same|done].
  - destruct Hrow as [[] Hid _]. split; [split|done|done]; try done; [by constructor|].
    cbn. rewrite length_app. cbn. lia.
  - by eapply other_command_ids.
Qed.

Lemma load_body_transcribes r db db' L L' run later :
  represents db L → represents db' L' → L !! r = Some run → L' !! r = Some later →
  ∃ tr, load_body r db db' = Ok tr ∧ transcribes r L L' (Ok tr).
Proof.
  intros HR HR' HL HL'. destruct (run_lookup _ _ _ _ HR HL) as (row & Hr & [[Hcmd Hin Hag Hst Hte Hn] _ _]).
  destruct (run_lookup _ _ _ _ HR' HL') as (row' & _ & [_ _ Hev]).
  destruct (event_rows_decode _ _ _ None Hev) as (evs & Hc & Hk & Hs & HF); [done|].
  rewrite Z.sub_0_r in Hs. rewrite drop_0 in Hk.
  assert (transpose decode (r_terminal_json row) = Ok (l_terminal run)) as Ht.
  { destruct Hte as [t j Hj|]; [|done]. cbn. by rewrite (proj2 (run_decode_ok _ _) (from_to_string t j Hj)). }
  exists (MkRunTranscript (MkRunRecord r (l_command run) (l_agent run)
    (default Open (terminal_status <$> l_terminal run)) (l_terminal run) (r_created_at_ms row)
    (r_finished_at_ms row)) evs). split; [|by apply transcribes_run with run later].
  unfold load_body. rewrite Hr. cbn [ok_or]. rewrite result_bind_ok. eexists. split; [done|].
  rewrite (proj2 (run_decode_ok _ _) (command_read_back _ _ Hcmd Hin)). cbn.
  rewrite (proj2 (run_decode_ok _ _) (from_to_string _ _ Hag)), Hst, parse_run_status. cbn.
  rewrite Ht. cbn. by rewrite Hc.
Qed.

(** A body that simulates keeps the representation whether it commits or not. *)
Lemma attempt_simulates {A} (spec : Ledger → Result StoreError A → Ledger → Prop) ch (m : Tx RunDb StoreError A)
    db db' res L :
  (∀ a db', m db = Ok (a, db') → ∃ L', spec L (Ok a) L' ∧ represents db' L') →
  (∀ e, spec L (Err e) L) → represents db L → attempt ch m db = (res, db') →
  ∃ L', spec L res L' ∧ represents db' L'.
Proof.
  intros Hm He HR. unfold attempt. destruct (failure ch) as [e|]; [intros [= <- <-]; eauto|].
  destruct res as [a|e]; intros HT.
  - apply commit_ok in HT. eauto.
  - apply commit_err_same in HT as ->. eauto.
Qed.

Lemma sqlite_admit ch c a db db' res L :
  represents db L → input_ok (input c) = true → admit_run ch c a db = (res, db') →
  ∃ L', admits c a L res L' ∧ represents db' L'.
Proof.
  intros HR Hok. apply attempt_simulates; [|apply admits_error|done].
  intros adm db1. by apply admit_body_simulates.
Qed.

Lemma sqlite_append ch r es db db' res L :
  represents db L → forallb kind_ok es = true → append_events ch r es db = (res, db') →
  ∃ L', appends r es L res L' ∧ represents db' L'.
Proof.
  intros HR Hok. cbn. destruct es as [|k es].
  { intros [= <- <-]. exists L. split; [by apply appends_nothing|done]. }
  apply attempt_simulates; [|apply appends_error|done].
  intros [] db1. by apply append_body_simulates.
Qed.

Lemma sqlite_finish ch r t db db' res L :
  represents db L → finish_run ch r t db = (res, db') →
  ∃ L', finishes r t L res L' ∧ represents db' L'.
Proof.
  intros HR. apply attempt_simulates; [|apply finishes_error|done].
  intros [] db1. by apply finish_body_simulates.
Qed.

Lemma sqlite_load ch r db db' res L L' :
  represents db L → represents db' L' → (is_Some (L !! r) → is_Some (L' !! r)) →
  load_transcript ch r db db' = res → transcribes r L L' res.
Proof.
  intros HR HR' Hk <-. cbn. destruct (failure ch); [apply transcribes_error|].
  destruct (L !! r) as [run|] eqn:HL.
  - destruct Hk as [later HL']; [done|].
    by destruct (load_body_transcribes _ _ _ _ _ _ _ HR HR' HL HL') as (tr & -> & ?).
  - unfold load_body. rewrite (proj2 (run_absent _ _ r HR)) by done. apply transcribes_error.
Qed.

Lemma sqlite_recognises ch db L r run :
  represents db L → failure ch = None → L !! r = Some run →
  admit_run ch (l_command run) (l_agent run) db = (Ok (Existing r), db).
Proof.
  intros HR Hf HL. cbn. unfold attempt. rewrite Hf. apply commit_ok.
  destruct (run_lookup _ _ _ _ HR HL) as (row & Hr & Hrow). destruct (rf_columns _ _ _ _ Hrow) as [Hcmd Hin Hag _ _ _].
  unfold admit_body. erewrite txn_run; [|by apply txn_lift_run, run_encode_ok].
  erewrite txn_run; [|by apply txn_lift_run, run_encode_ok]. erewrite txn_run; [|done].
  destruct (existing_run _ db) as [[r' row']|] eqn:Ex.
  - apply existing_run_Some in Ex as [Hr' Hid].
    assert (r' = r) as -> by (eapply (rep_ids _ _ HR); [done..|]; by rewrite Hid, (rf_command_id _ _ _ _ Hrow)).
    simplify_eq. by rewrite !bool_decide_true.
  - by destruct (existing_run_None _ _ r row Ex Hr (rf_command_id _ _ _ _ Hrow)).
Qed.

Lemma sqlite_fresh ch c a db db' r :
  admit_run ch c a db = (Ok (RunAdmitted r), db') → r = fresh_run ch.
Proof.
  cbn. unfold attempt. destruct (failure ch); [done|]. intros HT. unfold admit_body in HT. tx_inv.
  destruct (existing_run _ _) as [[r' row]|]; tx_inv; [|congruence].
  by destruct (bool_decide _ && bool_decide _).
Qed.

Lemma sqlite_load_succeeds ch db db' L L' r :
  represents db L → represents db' L' → failure ch = None → is_Some (L !! r) → is_Some (L' !! r) →
  ∃ tr, load_transcript ch r db db' = Ok tr.
Proof.
  intros HR HR' Hf [run HL] [later HL']. cbn. rewrite Hf.
  destruct (load_body_transcribes _ _ _ _ _ _ _ HR HR' HL HL') as (tr & -> & _). eauto.
Qed.

(** [load_events_after] of a healthy store: what follows the acknowledged cursor. *)
Lemma sqlite_events_after ch db L r run after :
  represents db L → failure ch = None → L !! r = Some run → (∀ a, after = Some a → 0 ≤ a ≤ i64_max) →
  let c := acknowledged after (length (l_events run)) in
  ∃ evs, load_events_after ch r after db = Ok evs ∧
    kind <$> evs = drop (Z.to_nat c) (l_events run) ∧
    sequence <$> evs = seqZ c (Z.of_nat (length (l_events run)) - c).
Proof.
  intros HR Hf HL Ha. destruct (run_lookup _ _ _ _ HR HL) as (row & Hr & [_ _ Hev]).
  destruct (event_rows_decode _ _ _ after Hev) as (evs & Hc & Hk & Hs & _); [intros a E; by apply Ha|].
  exists evs. split; [|done]. unfold load_events_after. rewrite Hf, Hr. cbn.
  assert (transpose to_sql_integer after = Ok after) as ->; [|done].
  destruct after as [a|]; [|done]. cbn. by rewrite (proj2 (run_sql_integer_ok a a)) by (split; [done|by apply Ha]).
Qed.

#[global] Instance sqlite_store_laws : RunStoreLaws RunDb := {|
  stands_for := represents;
  admit_simulates := sqlite_admit;
  append_simulates := sqlite_append;
  finish_simulates := sqlite_finish;
  load_simulates := sqlite_load;
  admit_recognises := sqlite_recognises;
  admit_fresh := sqlite_fresh;
  load_succeeds := sqlite_load_succeeds;
|}.

(** ** Opening a database *)
Lemma empty_represents : ∃ db, initialize None empty_file = (Ok tt, db) ∧ represents db ∅.
Proof.
  eexists. split; [vm_compute; reflexivity|]. split; cbn; try done. intros r. rewrite !lookup_empty. constructor.
Qed.

Lemma reopen_represents db L : represents db L → initialize None db = (Ok tt, db).
Proof.
  intros [HS _ _ _]. destruct db as [a b c d ? ?]. unfold schema_of in HS. cbn in HS. by simplify_eq.
Qed.

(** A database written before commands had a column of their own. *)
Record legacy db L : Prop := {
  leg_schema : schema_of db = (true, true, false, false);
  leg_rows : ∀ r, option_Forall2 (λ row run, columns_for row run ∧ events_for db r (l_events run))
    (runs db !! r) (L !! r);
  leg_events : ∀ id e, run_events db !! id = Some e → is_Some (runs db !! re_run_id e);
}.

(** The migration of the rows [l], each given the identity [cid] reads from its command. *)
Lemma migrate_rows (cid : RunId → CommandId) l : ∀ db,
  (∀ kv, kv ∈ l → ∃ c : CommandEnvelope, from_str (r_command_json kv.2) = Some c ∧ command_id c = cid kv.1) →
  NoDup l.*1 →
  ∃ m, for_each migrate_row l db = Ok (tt, with_runs m db) ∧
    ∀ r, m !! r = (if decide (r ∈ l.*1) then set_command_id (cid r) else λ row, row) <$> runs db !! r.
Proof.
  induction l as [|[r0 row0] l IH]; intros db Hl HN.
  - exists (runs db). split; [by destruct db|]. intros r. case_decide as Hin; [by apply elem_of_nil in Hin|].
    by destruct (runs db !! r).
  - cbn in HN. apply NoDup_cons in HN as [Hni HN].
    destruct (Hl (r0, row0)) as (c & Hc & Hid); [by left|]. cbn in Hc, Hid.
    destruct (IH (with_runs (alter (set_command_id (cid r0)) r0 (runs db)) db)) as (m & Hm & HL); [|done|].
    { intros kv Hin. apply Hl. by right. }
    exists m. split.
    + assert (migrate_row (r0, row0) db = Ok (tt, with_runs (alter (set_command_id (cid r0)) r0 (runs db)) db)) as Hrow.
      { unfold migrate_row. cbn. rewrite Hc. unfold mbind, Tx_bind. cbn. by rewrite Hid. }
      cbn. rewrite (txn_run _ _ _ _ _ Hrow). exact Hm.
    + intros r. rewrite HL. cbn. destruct (decide (r = r0)) as [->|Hne].
      * rewrite lookup_alter_eq, decide_False, decide_True by (done || left). by destruct (runs db !! r0).
      * rewrite lookup_alter_ne by done. f_equal.
        destruct (decide (r ∈ l.*1)); [rewrite decide_True by (by right); done|].
        rewrite decide_False; [done|]. by intros [?|?]%elem_of_cons.
Qed.

Lemma migrate_legacy_rows db L : legacy db L →
  ∃ m, for_each migrate_row (map_to_list (runs db)) (add_command_id_column db) =
         Ok (tt, with_runs m (add_command_id_column db)) ∧
    ∀ r, option_Forall2 (λ row run, columns_for row run ∧ events_for db r (l_events run) ∧
      r_command_id row = Some (command_id (l_command run))) (m !! r) (L !! r).
Proof.
  intros [_ HR _]. set (cid r := default (MkRid 0) ((λ run, command_id (l_command run)) <$> L !! r)).
  destruct (migrate_rows cid (map_to_list (runs db)) (add_command_id_column db)) as (m & Hm & HL).
  { intros [r row] Hr%elem_of_map_to_list. pose proof (HR r) as Hf. rewrite Hr in Hf.
    inversion Hf as [? run [[Hcmd Hin _ _ _ _] _] E1 E2|]. exists (l_command run). split; [by apply command_read_back|].
    cbn. unfold cid. by rewrite <- E2. }
  { apply NoDup_fst_map_to_list. }
  exists m. split; [done|]. intros r. rewrite HL. pose proof (HR r) as Hf. cbn. unfold cid.
  destruct (runs db !! r) as [row|] eqn:Er, (L !! r) as [run|]; inversion Hf as [? ? [[] Hev]|]; subst; constructor.
  rewrite decide_True; [|by apply list_elem_of_fmap; exists (r, row); split; [|apply elem_of_map_to_list]].
  split_and!; [by split|done|done].
Qed.

Lemma command_ids_distinct_true db :
  (∀ r1 row1 r2 row2, runs db !! r1 = Some row1 → runs db !! r2 = Some row2 →
     r_command_id row1 = r_command_id row2 → r1 = r2) → command_ids_distinct db = true.
Proof.
  intros Hids. apply tbl_forall_spec. intros r1 row1 H1. apply tbl_forall_spec. intros r2 row2 H2.
  destruct (r_command_id row1) eqn:E1, (r_command_id row2) eqn:E2; try done.
  apply bool_decide_true. intros ->. eapply Hids; [done..|congruence].
Qed.

(** Opening a legacy database whose commands are distinct keeps its ledger. *)
Lemma legacy_represents db L :
  legacy db L →
  (∀ r1 run1 r2 run2, L !! r1 = Some run1 → L !! r2 = Some run2 →
     command_id (l_command run1) = command_id (l_command run2) → r1 = r2) →
  ∃ db', initialize None db = (Ok tt, db') ∧ represents db' L.
Proof.
  intros HG Hd. destruct (migrate_legacy_rows db L HG) as (m & Hm & Hrows). destruct HG as [HS HR HE].
  assert (∀ r row, m !! r = Some row → ∃ run, L !! r = Some run ∧ columns_for row run ∧
    events_for db r (l_events run) ∧ r_command_id row = Some (command_id (l_command run))) as Hrow.
  { intros r row Hr. pose proof (Hrows r) as Hf. rewrite Hr in Hf. inversion Hf; eauto. }
  assert (∀ r1 row1 r2 row2, m !! r1 = Some row1 → m !! r2 = Some row2 →
    r_command_id row1 = r_command_id row2 → r1 = r2) as Hids.
  { intros r1 row1 r2 row2 (run1 & ? & _ & _ & ->)%Hrow (run2 & ? & _ & _ & ->)%Hrow [=]. by eapply Hd. }
  exists (MkRunDb true true true true m (run_events db)). split; [|split; cbn; [done| |done|]].
  - destruct db as [? ? ? ? rs evs]. unfold schema_of in HS. cbn in HS. simplify_eq.
    cbn [initialize]. apply commit_ok. unfold migrate_command_identity.
    rewrite (txn_run _ _ _ _ _ eq_refl). erewrite txn_run; [|cbn; rewrite (txn_run _ _ _ _ _ eq_refl); exact Hm].
    unfold create_command_id_index. rewrite (txn_run _ _ _ _ _ eq_refl). cbn [command_id_unique with_runs add_command_id_column].
    unfold guard. by rewrite command_ids_distinct_true.
  - intros r. pose proof (Hrows r) as Hf. inversion Hf as [row run (Hc & Hev & Hid)|]; constructor.
    split; [done..|]. by eapply events_for_ext; [|done].
  - intros id e He. destruct (HE id e He) as [row Hr]. pose proof (HR (re_run_id e)) as Hf. rewrite Hr in Hf.
    pose proof (Hrows (re_run_id e)) as Hg.
    destruct (L !! re_run_id e); [|by inversion Hf]. inversion Hg; eauto.
Qed.

(** Two runs of one command make the migration fail, which then changes nothing. *)
Lemma legacy_duplicate db L r1 run1 r2 run2 :
  legacy db L → L !! r1 = Some run1 → L !! r2 = Some run2 → r1 ≠ r2 →
  command_id (l_command run1) = command_id (l_command run2) →
  ∃ e, initialize None db = (Err e, db).
Proof.
  intros HG H1 H2 Hne Hid. destruct (migrate_legacy_rows db L HG) as (m & Hm & Hrows).
  assert (command_ids_distinct (with_runs m (add_command_id_column db)) = false) as Hf.
  { apply not_true_iff_false. intros HD. pose proof (Hrows r1) as F1. pose proof (Hrows r2) as F2.
    rewrite H1 in F1. rewrite H2 in F2. inversion F1 as [row1 ? (_ & _ & I1) E1 E1'|].
    inversion F2 as [row2 ? (_ & _ & I2) E2 E2'|]. symmetry in E1, E2.
    unfold command_ids_distinct in HD. rewrite tbl_forall_spec in HD. specialize (HD r1 row1 E1). cbn beta in HD.
    rewrite tbl_forall_spec in HD. specialize (HD r2 row2 E2). cbn beta in HD. rewrite I1, I2 in HD. split_bools. auto. }
  eexists (sqlite_error (constraint_failed "runs.command_id")). destruct HG as [HS _ _].
  destruct db as [? ? ? ? rs evs]. unfold schema_of in HS. cbn in HS. simplify_eq.
  apply commit_err. split; [|done]. unfold migrate_command_identity.
  rewrite (txn_run _ _ _ _ _ eq_refl). cbn [has_command_id create_tables runs_created].
  erewrite txn_run; [|rewrite (txn_run _ _ _ _ _ eq_refl); exact Hm].
  unfold create_command_id_index. rewrite (txn_run _ _ _ _ _ eq_refl). cbn [command_id_unique with_runs add_command_id_column].
  unfold guard. by rewrite Hf.
Qed.

(** ** Running forwards *)

(** Identities no row has, and a working clock. *)
Record fresh_choice (ch : StoreChoice) db : Prop := {
  fc_failure : failure ch = None;
  fc_clock : ∃ t, clock ch = Ok t;
  fc_run : runs db !! fresh_run ch = None;
  fc_events : ∀ i, run_events db !! fresh_event ch i = None;
  fc_distinct : ∀ i j, fresh_event ch i = fresh_event ch j → i = j;
}.

Definition writable (k : RunEventKind) : Prop := is_Some (to_string k).

Lemma run_insert_event_run id r kinds at_ k db :
  events_for db r kinds → is_Some (runs db !! r) → run_events db !! id = None → writable k →
  Z.of_nat (length kinds) ≤ i64_max →
  ∃ e, insert_event id r (Z.of_nat (length kinds)) at_ k db =
         Ok (tt, with_run_events (<[id := e]> (run_events db)) db).
Proof.
  intros Hev Hr Hid [j Hj] Hle. exists (MkEventRow r (Z.of_nat (length kinds)) at_ j). apply run_insert_event_ok.
  exists j. split_and!; try done. intros id' e He Hre Hse.
  pose proof (gapless_bounds _ _ _ _ _ _ (ef_gapless _ _ _ Hev) He Hre). lia.
Qed.

Lemma run_insert_events_run ch r at_ ks : ∀ offset kinds next db,
  forallb kind_ok ks = true → Forall writable ks → events_for db r kinds → is_Some (runs db !! r) →
  (∀ i, (offset ≤ i)%nat → run_events db !! fresh_event ch i = None) →
  (∀ i j, fresh_event ch i = fresh_event ch j → i = j) →
  next + Z.of_nat offset = Z.of_nat (length kinds) → Z.of_nat (length kinds + length ks) ≤ i64_max →
  ∃ db', insert_events ch r next at_ offset ks db = Ok (tt, db').
Proof.
  induction ks as [|k ks IH]; intros offset kinds next db Hok Hw Hev Hr Hf Hd Hn Hle; [by eexists|].
  cbn in Hok. split_bools. apply Forall_cons in Hw as [Hwk Hw]. cbn [insert_events length] in *.
  destruct (run_insert_event_run (fresh_event ch offset) r kinds at_ k db) as (e & He); try done; [by apply Hf|lia|].
  rewrite Hn, (txn_run _ _ _ _ _ He).
  apply insert_event_extends in He as (Er & HO & Hev'); [|done..].
  apply (IH _ (kinds ++ [k])); try done.
  - intros i Hi. cbn. rewrite lookup_insert_ne; [apply Hf; lia|]. intros Ei%Hd. lia.
  - rewrite length_app. cbn. lia.
  - rewrite length_app. cbn. lia.
Qed.

Lemma open_cursor_run db L r run :
  represents db L → L !! r = Some run → l_terminal run = None →
  load_open_cursor r db = Ok ((Open, Z.of_nat (length (l_events run))), db).
Proof.
  intros HR HL Ht. destruct (run_lookup _ _ _ _ HR HL) as (row & Hr & [HC _ _]). apply load_open_cursor_ok.
  exists row. rewrite (cf_next _ _ HC). split_and!; [done..|lia| |done]. cbn. by apply (status_open _ _ HC).
Qed.

Lemma append_run ch r ks db L run :
  represents db L → fresh_choice ch db → L !! r = Some run → l_terminal run = None →
  forallb kind_ok ks = true → Forall writable ks →
  Z.of_nat (length (l_events run) + length ks) ≤ i64_max →
  ∃ db', append_events ch r ks db = (Ok tt, db').
Proof.
  intros HR [Hfa [t Ht] _ Hid Hd] HL Hte Hok Hw Hle. cbn. destruct ks as [|k ks]; [by eexists|].
  unfold attempt. rewrite Hfa. destruct (run_lookup _ _ _ _ HR HL) as (row & Hr & [HC _ Hev]).
  destruct (run_insert_events_run ch r t (k :: ks) 0 (l_events run) (Z.of_nat (length (l_events run))) db)
    as (db1 & Hins); try done; try lia; eauto.
  assert (runs db1 = runs db) as Er.
  { apply insert_events_extends with (kinds := l_events run) in Hins as (? & _ & _); [done..|lia]. }
  eexists. apply commit_ok. unfold append_body.
  rewrite (txn_run _ _ _ _ _ (open_cursor_run _ _ _ _ HR HL Hte)).
  erewrite txn_run; [|by apply txn_guard_run, bool_decide_true]. erewrite txn_run; [|by apply txn_lift_run].
  rewrite (txn_run _ _ _ _ _ Hins). erewrite txn_run; [|by apply txn_lift_run, run_sql_integer_ok; split; [|lia]].
  erewrite txn_run; [done|]. apply update_run_ok. by rewrite Er, Hr.
Qed.

Lemma finish_run_runs ch r t db L run :
  represents db L → fresh_choice ch db → L !! r = Some run → l_terminal run = None →
  is_Some (to_string t) → writable (RunTerminated t) →
  Z.of_nat (length (l_events run)) + 1 ≤ i64_max →
  ∃ db', finish_run ch r t db = (Ok tt, db').
Proof.
  intros HR [Hfa [at_ Hat] _ Hid Hd] HL Hte [j Hj] Hw Hle. cbn. unfold attempt. rewrite Hfa.
  destruct (run_lookup _ _ _ _ HR HL) as (row & Hr & [HC _ Hev]).
  set (n := Z.of_nat (length (l_events run))) in *. set (row' := finished_row t j (n + 1) at_ row).
  destruct (run_insert_event_run (fresh_event ch 0) r (l_events run) at_ (RunTerminated t)
    (with_runs (<[r := row']> (runs db)) db)) as (e & Hins); try done.
  { by eapply events_for_ext; [|exact Hev]. }
  { cbn. by rewrite lookup_insert_eq. }
  { lia. }
  eexists. apply commit_ok. unfold finish_body.
  rewrite (txn_run _ _ _ _ _ (open_cursor_run _ _ _ _ HR HL Hte)).
  erewrite txn_run; [|by apply txn_guard_run, bool_decide_true]. erewrite txn_run; [|by apply txn_lift_run].
  erewrite txn_run; [|by apply txn_lift_run, run_encode_ok].
  erewrite txn_run; [|by apply txn_lift_run, run_sql_integer_ok].
  erewrite txn_run; [|apply update_run_ok; rewrite Hr, (cf_status _ _ HC), Hte; done].
  rewrite (txn_run _ _ _ tt _ (txn_guard_run _ _ _ eq_refl)). exact Hins.
Qed.

Lemma admit_runs ch c a db L :
  represents db L → fresh_choice ch db → input_ok (input c) = true →
  is_Some (to_string c) → is_Some (to_string a) → writable (RunStarted c a) →
  (∀ r run, L !! r = Some run → command_id (l_command run) ≠ command_id c) →
  ∃ db', admit_run ch c a db = (Ok (RunAdmitted (fresh_run ch)), db').
Proof.
  intros HR [Hfa [at_ Hat] Hrun Hid _] Hi [jc Hjc] [ja Hja] Hw Hnew. cbn. unfold attempt. rewrite Hfa.
  set (row := new_run_row (command_id c) jc ja at_).
  assert (∀ r row', runs db !! r = Some row' → r_command_id row' ≠ Some (command_id c)) as Hno.
  { intros r row' Hr Hc. destruct (row_lookup _ _ _ _ HR Hr) as (run & HL & Hf).
    apply (Hnew r run HL). rewrite (rf_command_id _ _ _ _ Hf) in Hc. congruence. }
  assert (insert_run (fresh_run ch) row db = Ok (tt, with_runs (<[fresh_run ch := row]> (runs db)) db)) as Hins.
  { unfold insert_run. rewrite (txn_run _ _ _ _ _ eq_refl).
    erewrite txn_run; [|by apply txn_guard_run, bool_decide_true].
    erewrite txn_run; [done|]. apply txn_guard_run, negb_true_iff, andb_false_intro2, tbl_exists_false.
    intros r row' Hr. apply bool_decide_false, (Hno _ _ Hr). }
  destruct (run_insert_event_run (fresh_event ch 0) (fresh_run ch) [] at_ (RunStarted c a)
    (with_runs (<[fresh_run ch := row]> (runs db)) db)) as (e & He); try done.
  { eapply events_for_ext; [|by eapply no_run_events]. done. }
  { cbn. by rewrite lookup_insert_eq. }
  eexists. apply commit_ok. unfold admit_body.
  erewrite txn_run; [|by apply txn_lift_run, run_encode_ok]. erewrite txn_run; [|by apply txn_lift_run, run_encode_ok].
  rewrite (txn_run _ _ _ _ _ eq_refl). destruct (existing_run _ db) as [[r' row']|] eqn:Ex.
  { apply existing_run_Some in Ex as [Hr Hc]. by destruct (Hno _ _ Hr). }
  erewrite txn_run; [|by apply txn_lift_run]. rewrite (txn_run _ _ _ _ _ Hins).
  by rewrite (txn_run _ _ _ _ _ He).
Qed.
End sound.
