(* ===== verification/RunEngine.v ===== *)
(** * The run engine ([renoa-runtime])

    [engine.rs], [engine/model.rs] and [engine/capabilities.rs] over any run
    store. A computation of the engine runs in a world: the store, a moment
    that counts its steps, and the requests it sent to the model and to the
    capability host. The environment decides what other callers did to the
    store before each moment, how the model streams, what capabilities return,
    when the cancellation token fires, and whether the caller drops the future
    at a store call, in which case the worker may still finish that call. *)
From S2P Require Import Prelude Json Text Protocol Runs.
Record EngineConfig := MkEngineConfig {
  max_model_rounds : Z;
  max_capability_calls_per_response : Z;
}.
Definition default_config : EngineConfig := MkEngineConfig 32 64.

Record AgentRunResult := MkAgentRunResult { run_id : RunId; output : string; model_rounds : Z }.

Inductive EngineError :=
| ECancelled
| CommandAlreadyAdmitted (r : RunId)
| CommandConflict (r : RunId)
| CapabilityBatchTooLarge (actual limit : Z)
| CapabilityTask (error : string)
| EModel (error : ModelError)
| RoundLimit (limit : Z)
| EStore (error : StoreError).

(** [Display] of [EngineError]. *)
Definition error_text (e : EngineError) : string :=
  match e with
  | ECancelled => "run was cancelled"
  | CommandAlreadyAdmitted r => "command was already admitted as run " +:+ show_id r
  | CommandConflict r => "command id conflicts with existing run " +:+ show_id r
  | CapabilityBatchTooLarge actual limit =>
      "model returned " +:+ show actual +:+ " capability calls; the per-response limit is " +:+ show limit
  | CapabilityTask e => "capability task failed: " +:+ e
  | EModel e => "model invocation failed: " +:+ model_message e
  | RoundLimit n => "the model exceeded the configured round limit of " +:+ show n
  | EStore e => "run storage failed: " +:+ store_message e
  end.

Section engine.
Context `{JV : JsonValue} {S : Type} `{!RunStore S}.

(** How the task of one capability ended: its outcome, or the [JoinError] of a
    task that panicked. *)
Inductive TaskEnd := TaskOutcome (o : CapabilityOutcome) | TaskPanicked (error : string).

Record Environment := MkEnvironment {
  others : nat → S → S;
  choices : nat → StoreChoice;
  cancelled_from : option nat;
  streams : nat → ModelRequest → list (Result ModelError ModelEvent);
  executes : nat → CapabilityRequest → TaskEnd;
  notices : nat → bool;              (* the cancelled branch of a capability's select wins *)
  dropped : nat → option bool;       (* the future is dropped; whether the store call takes effect *)
}.

Record World := MkWorld {
  store : S;
  moment : nat;
  asked : list ModelRequest;         (* requests passed to [ModelDriver::stream] *)
  executed : list CapabilityRequest; (* requests passed to [CapabilityHost::execute] *)
}.

(** [None]: the future was dropped. *)
Definition Eng (A : Type) : Type := World → option (Result EngineError A) * World.

#[global] Instance Eng_ret : MRet Eng := λ A a w, (Some (Ok a), w).
#[global] Instance Eng_bind : MBind Eng := λ A B f m w,
  match m w with
  | (Some (Ok a), w') => f a w'
  | (Some (Err e), w') => (Some (Err e), w')
  | (None, w') => (None, w')
  end.

Definition fail {A} (e : EngineError) : Eng A := λ w, (Some (Err e), w).
(** The result of a call as a value, for [match self.f().await { .. }]. *)
Definition attempted {A} (m : Eng A) : Eng (Result EngineError A) := λ w,
  match m w with (Some r, w') => (Some (Ok r), w') | (None, w') => (None, w') end.

Definition tick (w : World) : World := MkWorld (store w) (1 + moment w) (asked w) (executed w).
Definition with_store (s : S) (w : World) : World := MkWorld s (moment w) (asked w) (executed w).

Section calls.
Context (env : Environment).

(** One awaited store operation, its [StoreError] converted by [?]. *)
Definition call {A} (op : StoreChoice → S → Result StoreError A * S) : Eng A := λ w,
  let s := others env (moment w) (store w) in
  let '(res, s') := op (choices env (moment w)) s in
  match dropped env (moment w) with
  | Some takes_effect => (None, tick (with_store (if takes_effect then s' else s) w))
  | None =>
      (Some (match res with Ok a => Ok a | Err e => Err (EStore e) end), tick (with_store s' w))
  end.

(** [cancellation.is_cancelled()]. *)
Definition is_cancelled : Eng bool := λ w,
  (Some (Ok (match cancelled_from env with Some n => (n <=? moment w)%nat | None => false end)), tick w).

Definition ask (request : ModelRequest) : Eng (list (Result ModelError ModelEvent)) := λ w,
  (Some (Ok (streams env (moment w) request)),
   tick (MkWorld (store w) (moment w) (asked w ++ [request]) (executed w))).

Definition execute (request : CapabilityRequest) : Eng TaskEnd := λ w,
  (Some (Ok (executes env (moment w) request)),
   tick (MkWorld (store w) (moment w) (asked w) (executed w ++ [request]))).

Definition noticed : Eng bool := λ w, (Some (Ok (notices env (moment w))), w).
End calls.

(** ** The engine *)
Record Engine := MkEngine { specs : list CapabilitySpec; config : EngineConfig }.

Section methods.
Context (env : Environment) (self : Engine).

Definition store_append (r : RunId) (kinds : list RunEventKind) : Eng unit :=
  call env (λ ch, append_events ch r kinds).
Definition store_finish (r : RunId) (t : TerminalState) : Eng unit :=
  call env (λ ch, finish_run ch r t).

Definition cancel_run (r : RunId) : Eng unit :=
  store_finish r (TCancelled "caller cancelled the run").
Definition fail_run (r : RunId) (error : string) : Eng unit := store_finish r (TFailed error).

Definition complete_run (r : RunId) (output : string) (model_rounds : Z) : Eng AgentRunResult :=
  _ ← store_finish r (TCompleted output);
  mret (MkAgentRunResult r output model_rounds).

Definition is_model_requested (k : RunEventKind) : bool :=
  match k with ModelRequested _ => true | _ => false end.

(** The run is read and then its events; others may write in between. *)
Definition store_load (r : RunId) : Eng RunTranscript :=
  first ← call env (λ _ s, (Ok s, s));
  call env (λ ch s, (load_transcript ch r first s, s)).

Definition replay_completed (r : RunId) : Eng AgentRunResult :=
  transcript ← store_load r;
  match rec_terminal (transcript_run transcript) with
  | Some (TCompleted output) =>
      let model_rounds :=
        Z.of_nat (length (List.filter (λ e, is_model_requested (kind e)) (events transcript))) in
      if model_rounds <=? u32_max then mret (MkAgentRunResult r output model_rounds)
      else fail (EStore (MkStoreError "stored model round count exceeds u32"))
  | _ => fail (CommandAlreadyAdmitted r)
  end.

Definition terminal_error (r : RunId) (error : EngineError) : Eng AgentRunResult :=
  _ ← match error with
      | CommandAlreadyAdmitted _ | CommandConflict _ | EStore _ => mret tt
      | ECancelled => cancel_run r
      | CapabilityBatchTooLarge _ _ | CapabilityTask _ | EModel _ | RoundLimit _ =>
          fail_run r (error_text error)
      end;
  fail error.

(** *** [engine/model.rs] *)
Definition build_request (r : RunId) (round : Z) (instructions : string) (messages : list Message)
    (capabilities : list CapabilitySpec) : ModelRequest :=
  MkModelRequest r round (MSystem instructions :: messages) capabilities.

(** The event loop; the biased select looks at the token before each event and
    before the end of the stream. *)
Fixpoint stream_loop (r : RunId) (round : Z) (stream : list (Result ModelError ModelEvent))
    : Eng ModelResponse :=
  cancelled ← is_cancelled env;
  if (cancelled : bool) then fail ECancelled
  else match stream with
       | Ok (MTextDelta _) :: rest => stream_loop r round rest
       | Ok (MCompleted response) :: _ =>
           _ ← store_append r [ModelResponded round response];
           mret response
       | Err error :: _ => fail (EModel error)
       | [] => fail (EModel (MkModelError "model stream ended without a completed response"))
       end.

Definition model_step (request : ModelRequest) : Eng ModelResponse :=
  let r := mreq_run_id request in
  let round := mreq_round request in
  _ ← store_append r [ModelRequested round];
  stream ← ask env request;
  stream_loop r round stream.

(** *** [engine/capabilities.rs] *)
Definition record_capability_completion (r : RunId) (request : CapabilityRequest)
    (outcome : CapabilityOutcome) : Eng unit :=
  store_append r [CapabilityCompleted (req_ordinal request) (call_id (req_call request)) outcome].

(** The task of one granted request: the select of cancellation and the host. *)
Definition run_task (request : CapabilityRequest) : Eng TaskEnd :=
  ended ← execute env request;
  cancelled ← is_cancelled env;
  first ← noticed env;
  mret (if (cancelled : bool) && (first : bool)
        then TaskOutcome (outcome_error "capability execution was cancelled") else ended).

(** The loop of [execute_capabilities]; the join set holds the spawned task only. *)
Fixpoint execute_capabilities (r : RunId) (requests : list CapabilityRequest)
    (capabilities : list CapabilitySpec) : Eng (list (CapabilityRequest * CapabilityOutcome)) :=
  match requests with
  | [] => mret []
  | request :: rest =>
      outcome ←
        (if negb (existsb (λ c, String.eqb (cap_name c) (call_name (req_call request))) capabilities)
         then mret (outcome_error ("capability `" +:+ call_name (req_call request) +:+ "` is not granted"))
         else
           ended ← run_task request;
           match ended with
           | TaskOutcome outcome => mret outcome
           | TaskPanicked error => fail (CapabilityTask error)
           end);
      _ ← record_capability_completion r request outcome;
      outcomes ← execute_capabilities r rest capabilities;
      mret ((request, outcome) :: outcomes)
  end.

(** The loop over the calls of a truncated response. *)
Fixpoint refuse_truncated (r : RunId) (requests : list CapabilityRequest)
    : Eng (list (CapabilityRequest * CapabilityOutcome)) :=
  match requests with
  | [] => mret []
  | request :: rest =>
      let outcome := outcome_error
        "capability call was not executed because the model response was truncated" in
      _ ← record_capability_completion r request outcome;
      outcomes ← refuse_truncated r rest;
      mret ((request, outcome) :: outcomes)
  end.

(** [capability_calls.iter().enumerate().map(..).collect::<Result<_, _>>()]. *)
Definition number_requests (r : RunId) (target : TargetRef) (calls : list CapabilityCall)
    : Result EngineError (list CapabilityRequest) :=
  collect_enum (λ ordinal call,
    if ordinal <=? u32_max then Ok (MkCapabilityRequest r target ordinal call)
    else Err (CapabilityBatchTooLarge (Z.of_nat (length calls))
                (max_capability_calls_per_response (config self)))) 0 calls.

Definition lift_result {A} (res : Result EngineError A) : Eng A :=
  match res with Ok a => mret a | Err e => fail e end.

Definition capability_batch (r : RunId) (command : CommandEnvelope) (response : ModelResponse)
    (capabilities : list CapabilitySpec) : Eng (list (CapabilityRequest * CapabilityOutcome)) :=
  let limit := max_capability_calls_per_response (config self) in
  if limit <? Z.of_nat (length (resp_calls response))
  then fail (CapabilityBatchTooLarge (Z.of_nat (length (resp_calls response))) limit)
  else
    requests ← lift_result (number_requests r (target command) (resp_calls response));
    _ ← store_append r ((λ q, CapabilityRequested (req_ordinal q) (req_call q)) <$> requests);
    if truncated response then refuse_truncated r requests
    else execute_capabilities r requests capabilities.

(** *** [Engine::run] *)
Definition capability_message (qo : CapabilityRequest * CapabilityOutcome) : Message :=
  MCapability (call_id (req_call qo.1)) (call_name (req_call qo.1)) qo.2.

(** [for round in 0..max_model_rounds]: [fuel] rounds are left, the next is [round]. *)
Fixpoint rounds_loop (r : RunId) (command : CommandEnvelope) (agent : ResolvedAgent)
    (capabilities : list CapabilitySpec) (fuel : nat) (round : Z) (messages : list Message)
    : Eng AgentRunResult :=
  match fuel with
  | O => terminal_error r (RoundLimit (max_model_rounds (config self)))
  | Datatypes.S fuel' =>
      cancelled ← is_cancelled env;
      if (cancelled : bool) then terminal_error r ECancelled
      else
        step ← attempted (model_step (build_request r round (instructions agent) messages capabilities));
        match step with
        | Err error => terminal_error r error
        | Ok response =>
            let messages := messages ++ [MAssistant (resp_text response) (resp_calls response)] in
            if decide (resp_calls response = []) then complete_run r (resp_text response) (round + 1)
            else
              batch ← attempted (capability_batch r command response capabilities);
              match batch with
              | Err error => terminal_error r error
              | Ok outcomes =>
                  let messages := messages ++ (capability_message <$> outcomes) in
                  cancelled ← is_cancelled env;
                  if (cancelled : bool) then terminal_error r ECancelled
                  else rounds_loop r command agent capabilities fuel' (round + 1) messages
              end
        end
  end.

Definition granted (agent : ResolvedAgent) : list CapabilitySpec :=
  List.filter (λ c, bool_decide (cap_name c ∈ capability_grants agent)) (specs self).

Definition engine_run (command : CommandEnvelope) (agent : ResolvedAgent) : Eng AgentRunResult :=
  admission ← call env (λ ch, admit_run ch command agent);
  match admission with
  | RunAdmitted r =>
      rounds_loop r command agent (granted agent) (Z.to_nat (max_model_rounds (config self))) 0
        [MUser (input_text (input command))]
  | Existing r => replay_completed r
  | Conflict r => fail (CommandConflict r)
  end.
End methods.
End engine.
