(* ===== verification/RunSound.v ===== *)
(** * The grammar of a run, and ledgers shared by engines

    [follow] reads the events of a run as a conversation: rounds numbered from
    zero, each a request, a response, the requests of all its calls and then
    their completions in order, and one terminal event that agrees with what
    happened. [engine_step r] is what an engine may do to the ledger for the
    run it owns; [ledger_steps] interleaves any number of engines. *)
From S2P Require Import Prelude Json Text Protocol Runs RunEngine.
Section trace.
Context `{JV : JsonValue}.

(** [Working n resp a d]: the response of round [n] was recorded, [a] of its
    calls were requested and [d] completed. *)
Inductive Stage :=
| Fresh
| Idle (round : Z)
| Asked (round : Z)
| Working (round : Z) (response : ModelResponse) (requested completed : nat)
| Ended.

Definition calls_count (resp : ModelResponse) : nat := length (resp_calls resp).

(** After [d] completions of a response the next round is due, or not yet. *)
Definition after_completion (n : Z) (resp : ModelResponse) (a d : nat) : Stage :=
  if (d =? calls_count resp)%nat then Idle (n + 1) else Working n resp a d.

Definition follow_event (st : Stage) (k : RunEventKind) : option Stage :=
  match st, k with
  | Fresh, RunStarted _ _ => Some (Idle 0)
  | Idle n, ModelRequested m => if m =? n then Some (Asked n) else None
  | Asked n, ModelResponded m resp => if m =? n then Some (Working n resp 0 0) else None
  | Working n resp a 0, CapabilityRequested o c =>
      if (o =? Z.of_nat a) && bool_decide (resp_calls resp !! a = Some c)
      then Some (Working n resp (S a) 0) else None
  | Working n resp a d, CapabilityCompleted o id _ =>
      if (a =? calls_count resp)%nat && (o =? Z.of_nat d) &&
         bool_decide (call_id <$> resp_calls resp !! d = Some id)
      then Some (after_completion n resp a (S d)) else None
  | Working n resp 0 0, RunTerminated (TCompleted output) =>
      if bool_decide (resp_calls resp = []) && String.eqb output (resp_text resp) then Some Ended else None
  | (Idle _ | Asked _ | Working _ _ _ _), RunTerminated (TFailed _ | TCancelled _) => Some Ended
  | _, _ => None
  end.

Fixpoint follow_from (st : Stage) (ks : list RunEventKind) : option Stage :=
  match ks with
  | [] => Some st
  | k :: ks' => st' ← follow_event st k; follow_from st' ks'
  end.
Definition follow (ks : list RunEventKind) : option Stage := follow_from Fresh ks.

Lemma follow_from_app st ks ks' : follow_from st (ks ++ ks') = st' ← follow_from st ks; follow_from st' ks'.
Proof.
  revert st. induction ks as [|k ks IH]; intros st; cbn; [done|]. by destruct (follow_event st k); cbn.
Qed.

Lemma follow_app ks ks' st : follow ks = Some st → follow (ks ++ ks') = follow_from st ks'.
Proof. intros E. unfold follow in *. by rewrite follow_from_app, E. Qed.

(** ** Rounds are counted by their requests *)
Definition rounds_of (ks : list RunEventKind) : Z := Z.of_nat (length (List.filter is_model_requested ks)).

Definition stage_rounds (st : Stage) : option Z :=
  match st with
  | Fresh => Some 0
  | Idle n => Some n
  | Asked n | Working n _ _ _ => Some (n + 1)
  | Ended => None
  end.

Lemma follow_event_rounds st k st' n :
  follow_event st k = Some st' → stage_rounds st = Some n → st' ≠ Ended →
  stage_rounds st' = Some (n + rounds_of [k]).
Proof.
  unfold rounds_of, follow_event, after_completion. intros E Hn He.
  repeat case_match; cbn in *; simplify_eq; split_bools; cbn; try (f_equal; lia).
Qed.

Lemma follow_event_ended k : follow_event Ended k = None.
Proof. by destruct k as [| | | | |[]]. Qed.

Lemma rounds_of_app ks ks' : rounds_of (ks ++ ks') = rounds_of ks + rounds_of ks'.
Proof. unfold rounds_of. rewrite List.filter_app, length_app. lia. Qed.

Lemma follow_from_rounds ks : ∀ st st' n,
  follow_from st ks = Some st' → stage_rounds st = Some n → st' ≠ Ended →
  stage_rounds st' = Some (n + rounds_of ks).
Proof.
  induction ks as [|k ks IH]; intros st st' n E Hn He; cbn in E.
  { simplify_eq. rewrite Hn. f_equal. unfold rounds_of. cbn. lia. }
  destruct (follow_event st k) as [st1|] eqn:Ek; cbn in E; [|done].
  assert (st1 ≠ Ended) as He1.
  { intros ->. destruct ks as [|k' ks']; cbn [follow_from] in E; [congruence|]. by rewrite follow_event_ended in E. }
  pose proof (follow_event_rounds _ _ _ _ Ek Hn He1) as H1.
  pose proof (rounds_of_app [k] ks) as Hr. cbn [app] in Hr. rewrite (IH _ _ _ E H1 He), Hr. f_equal. lia.
Qed.

Lemma follow_rounds ks st : follow ks = Some st → st ≠ Ended → stage_rounds st = Some (rounds_of ks).
Proof. intros E He. by apply (follow_from_rounds ks Fresh st 0). Qed.

Lemma follow_requested n resp a c :
  resp_calls resp !! a = Some c →
  follow_event (Working n resp a 0) (CapabilityRequested (Z.of_nat a) c) = Some (Working n resp (S a) 0).
Proof. intros Hc. destruct a; cbn; by rewrite ?Z.eqb_refl, bool_decide_true. Qed.

Lemma follow_completed n resp d c o :
  resp_calls resp !! d = Some c →
  follow_event (Working n resp (calls_count resp) d) (CapabilityCompleted (Z.of_nat d) (call_id c) o) =
    Some (after_completion n resp (calls_count resp) (S d)).
Proof.
  intros Hc. assert (∃ m, calls_count resp = S m) as [m Hm].
  { apply lookup_lt_Some in Hc. unfold calls_count. exists (pred (length (resp_calls resp))). lia. }
  rewrite Hm. destruct d; cbn [follow_event]; rewrite Hm, Nat.eqb_refl, Z.eqb_refl, Hc, bool_decide_true; done.
Qed.

(** Recording all calls of a response, in order. *)
Lemma follow_requests n resp (qs : list CapabilityRequest) : ∀ a,
  req_call <$> qs = drop a (resp_calls resp) →
  req_ordinal <$> qs = seqZ (Z.of_nat a) (Z.of_nat (length qs)) →
  follow_from (Working n resp a 0) ((λ q, CapabilityRequested (req_ordinal q) (req_call q)) <$> qs) =
    Some (Working n resp (a + length qs) 0).
Proof.
  induction qs as [|q qs IH]; intros a Hc Ho.
  { cbn. by rewrite Nat.add_0_r. }
  assert (resp_calls resp !! a = Some (req_call q)) as Hq.
  { apply (f_equal (.!! 0%nat)) in Hc. by rewrite lookup_drop, Nat.add_0_r in Hc. }
  cbn [length] in Ho. rewrite seqZ_cons in Ho by lia. cbn in Ho. injection Ho as Hn Ho.
  rewrite fmap_cons. cbn [follow_from]. rewrite Hn, (follow_requested _ _ _ _ Hq).
  cbn [mbind option_bind]. rewrite IH.
  - cbn [length]. by rewrite Nat.add_succ_r.
  - rewrite (drop_S _ _ _ Hq) in Hc. by injection Hc.
  - rewrite Ho. f_equal; lia.
Qed.

(** ** Shared ledgers *)
Definition live (st : Stage) : Prop := st ≠ Fresh ∧ st ≠ Ended.

Inductive engine_step (r : RunId) : Ledger → Ledger → Prop :=
| step_admit L c a :
    L !! r = None →
    (∀ r' run', L !! r' = Some run' → command_id (l_command run') ≠ command_id c) →
    engine_step r L (<[r := new_run c a]> L)
| step_append L run es st :
    L !! r = Some run → l_terminal run = None →
    follow (l_events run ++ es) = Some st → st ≠ Ended →
    engine_step r L (<[r := run_append es run]> L)
| step_finish L run t :
    L !! r = Some run → l_terminal run = None →
    follow (l_events run ++ [RunTerminated t]) = Some Ended →
    engine_step r L (<[r := run_finish t run]> L).

Definition any_step (L L' : Ledger) : Prop := ∃ r, engine_step r L L'.
Definition other_step (r : RunId) (L L' : Ledger) : Prop := ∃ r', r' ≠ r ∧ engine_step r' L L'.

Lemma engine_step_other r r' L L' : engine_step r' L L' → r ≠ r' → L' !! r = L !! r.
Proof. intros HS Hne. destruct HS; by rewrite lookup_insert_ne. Qed.

Lemma other_steps_keep r L L' : rtc (other_step r) L L' → L' !! r = L !! r.
Proof.
  induction 1 as [|L1 L2 L3 (r' & Hne & HS) _ IH]; [done|]. rewrite IH. by eapply engine_step_other.
Qed.

Lemma other_steps_any r L L' : rtc (other_step r) L L' → rtc any_step L L'.
Proof. apply rtc_subrel. intros L1 L2 (r' & _ & HS). by exists r'. Qed.

(** ** The invariant of a ledger *)
Record run_wf (run : LedgerRun) : Prop := {
  rw_started : ∃ ks, l_events run = RunStarted (l_command run) (l_agent run) :: ks;
  rw_stage :
    match l_terminal run with
    | None => ∃ st, follow (l_events run) = Some st ∧ st ≠ Ended
    | Some t => follow (l_events run) = Some Ended ∧ ∃ ks, l_events run = ks ++ [RunTerminated t]
    end;
}.

Record ledger_wf (L : Ledger) : Prop := {
  lw_runs : ∀ r run, L !! r = Some run → run_wf run;
  lw_commands : ∀ r1 run1 r2 run2, L !! r1 = Some run1 → L !! r2 = Some run2 →
    command_id (l_command run1) = command_id (l_command run2) → r1 = r2;
}.

Lemma ledger_wf_empty : ledger_wf ∅.
Proof. split; intros *; by rewrite lookup_empty. Qed.

Lemma ledger_wf_update L r run run' :
  ledger_wf L → L !! r = Some run → l_command run' = l_command run → run_wf run' →
  ledger_wf (<[r := run']> L).
Proof.
  intros [HW HC] Hr Hc Hw. split.
  - intros r1 run1 [[-> <-]|[_ H1]]%lookup_insert_Some; eauto.
  - intros r1 run1 r2 run2 [[-> <-]|[? H1]]%lookup_insert_Some [[-> <-]|[? H2]]%lookup_insert_Some E;
      [done|..]; rewrite ?Hc in E; eauto.
Qed.

Lemma engine_step_wf r L L' : engine_step r L L' → ledger_wf L → ledger_wf L'.
Proof.
  intros HS HW. destruct HS as [L c a Hr Hc|L run es st Hr Ht Hf He|L run t Hr Ht Hf].
  - destruct HW as [HW HC]. split.
    + intros r1 run1 [[-> <-]|[_ H1]]%lookup_insert_Some; [|eauto]. split; cbn; [by exists []|by exists (Idle 0)].
    + intros r1 run1 r2 run2 [[-> <-]|[? H1]]%lookup_insert_Some [[-> <-]|[? H2]]%lookup_insert_Some E;
        [done| | |eauto]; cbn in E; exfalso; eapply Hc; eauto.
  - destruct (lw_runs L HW r run Hr) as [[ks Hks] _]. eapply ledger_wf_update; [done..|]. split; cbn.
    + exists (ks ++ es). by rewrite Hks.
    + rewrite Ht. eauto.
  - destruct (lw_runs L HW r run Hr) as [[ks Hks] _]. eapply ledger_wf_update; [done..|]. split; cbn.
    + exists (ks ++ [RunTerminated t]). by rewrite Hks.
    + eauto.
Qed.

Lemma steps_wf L L' : rtc any_step L L' → ledger_wf L → ledger_wf L'.
Proof. induction 1 as [|L1 L2 L3 [r HS] _ IH]; [done|]. intros HW. by eapply IH, engine_step_wf. Qed.

(** A run keeps its command and its events; a finished one never changes. *)
Definition run_le (run run' : LedgerRun) : Prop :=
  l_command run' = l_command run ∧ l_agent run' = l_agent run ∧ l_events run `prefix_of` l_events run' ∧
  (is_Some (l_terminal run) → run' = run).

#[global] Instance run_le_refl : Reflexive run_le.
Proof. intros run. done. Qed.
#[global] Instance run_le_trans : Transitive run_le.
Proof.
  intros r1 r2 r3 (C1 & A1 & E1 & T1) (C2 & A2 & E2 & T2). split_and!; [congruence..|by etrans|].
  intros HT. specialize (T1 HT). subst. auto.
Qed.

Lemma steps_run_le L L' r run : rtc any_step L L' → L !! r = Some run →
  ∃ run', L' !! r = Some run' ∧ run_le run run'.
Proof.
  intros HS. revert run. induction HS as [|L1 L2 L3 [r' HS] _ IH]; intros run Hr; [by exists run|].
  assert (∃ run', L2 !! r = Some run' ∧ run_le run run') as (run1 & Hr1 & Hle).
  { destruct (decide (r = r')) as [<-|Hne]; [|rewrite (engine_step_other _ _ _ _ HS Hne); by exists run].
    destruct HS as [L c a Hn _|L run1 es st Hr1 Ht _ _|L run1 t Hr1 Ht _]; simplify_eq;
      (eexists; split; [apply lookup_insert_eq|]; split_and!; [done..|by eexists|]; rewrite Ht; by intros []). }
  destruct (IH run1 Hr1) as (run2 & ? & ?). exists run2. split; [done|]. by etrans.
Qed.
End trace.

(** * A program logic for the engine

    [held st t k w]: the ledger behind the world [w] has the owned run at
    stage [st] with terminal state [t], [k] model requests were sent for it in
    order, and every executed capability was granted, came from a response
    that was not truncated and had its request recorded before. [triple] is
    partial only in the sense of the future being dropped; every other end of
    a computation is covered. *)
(** ** What a stage says about the events before it *)
Section history.
Context `{JV : JsonValue}.

Definition stage_facts (ks : list RunEventKind) (st : Stage) : Prop :=
  match st with
  | Working n resp a d =>
      ModelResponded n resp ∈ ks ∧
      ∀ i c, (i < a)%nat → resp_calls resp !! i = Some c → CapabilityRequested (Z.of_nat i) c ∈ ks
  | _ => True
  end.

Lemma stage_facts_step ks st k st' :
  stage_facts ks st → follow_event st k = Some st' → stage_facts (ks ++ [k]) st'.
Proof.
  intros HF E. unfold follow_event, after_completion in E.
  repeat case_match; simplify_eq; cbn in *; try done; split_bools; simplify_eq.
  all: split; [set_solver|]; intros i c Hi Hc.
  all: first [ lia | apply elem_of_app; left; apply HF; [lia|done] | idtac ].
  all: match goal with
       | HA : resp_calls _ !! ?a = Some ?b, HB : resp_calls _ !! _ = Some ?b2 |- CapabilityRequested _ ?b2 ∈ _ =>
           destruct (decide (i = a)) as [->|];
             [simplify_eq; set_solver|apply elem_of_app; left; apply HF; [lia|done]]
       end.
Qed.

Lemma follow_facts ks st : follow ks = Some st → stage_facts ks st.
Proof.
  revert st. induction ks as [|k ks IH] using rev_ind; intros st E; [by injection E as <-|].
  unfold follow in *. rewrite follow_from_app in E. destruct (follow_from Fresh ks) as [st1|]; [|done].
  cbn in E. destruct (follow_event st1 k) as [st2|] eqn:Ek; [|done]. injection E as <-.
  eapply stage_facts_step; [by apply IH|done].
Qed.
End history.

(** ** Triples *)
Section logic.
Context `{JV : JsonValue} {S : Type} {RSt : RunStore S} {RLaws : RunStoreLaws S}.
Implicit Types (w : World (S := S)) (env : Environment (S := S)).

Definition triple {A} (P : World → Prop) (m : Eng (S := S) A) (Q : A → World → Prop)
    (X : EngineError → World → Prop) (D : World → Prop) : Prop :=
  ∀ w, P w → match m w with
             | (Some (Ok a), w') => Q a w'
             | (Some (Err e), w') => X e w'
             | (None, w') => D w'
             end.

Lemma triple_ret {A} (P : World → Prop) (a : A) (Q : A → World → Prop) X D :
  (∀ w, P w → Q a w) → triple P (mret a) Q X D.
Proof. intros HQ w HP. by apply HQ. Qed.

Lemma triple_fail {A} (P : World → Prop) e (Q : A → World → Prop) (X : EngineError → World → Prop) D :
  (∀ w, P w → X e w) → triple P (fail e) Q X D.
Proof. intros HX w HP. by apply HX. Qed.

Lemma triple_bind {A B} P (m : Eng A) (f : A → Eng B) R Q X D :
  triple P m R X D → (∀ a, triple (R a) (f a) Q X D) → triple P (m ≫= f) Q X D.
Proof.
  intros Hm Hf w HP. specialize (Hm w HP). unfold mbind, Eng_bind.
  destruct (m w) as [[[a|e]|] w']; [by apply Hf|done..].
Qed.

Lemma triple_attempted {A} P (m : Eng A) (Q : A → World → Prop) (X : EngineError → World → Prop) X' D :
  triple P m Q X D →
  triple P (attempted m) (λ res w, match res with Ok a => Q a w | Err e => X e w end) X' D.
Proof.
  intros Hm w HP. specialize (Hm w HP). unfold attempted. by destruct (m w) as [[[a|e]|] w'].
Qed.

Lemma triple_conseq {A} (P P' : World → Prop) (m : Eng A) (Q Q' : A → World → Prop)
    (X X' : EngineError → World → Prop) D :
  (∀ w, P' w → P w) → (∀ a w, Q a w → Q' a w) → (∀ e w, X e w → X' e w) →
  triple P m Q X D → triple P' m Q' X' D.
Proof.
  intros HP HQ HX Hm w HP'. specialize (Hm w (HP w HP')). destruct (m w) as [[[a|e]|] w']; eauto.
Qed.

(** ** The owned run *)
Section owned.
Context (env : Environment (S := S)) (self : Engine) (r : RunId) (L0 : Ledger) (w0 : World (S := S)).
Context (command : CommandEnvelope) (agent : ResolvedAgent).

(** What other callers do to the store: steps for runs of their own. *)
Definition shares (env : Environment (S := S)) (r : RunId) : Prop :=
  ∀ n s L, stands_for s L → ∃ L', stands_for (others env n s) L' ∧ rtc (other_step r) L L'.

Context (Hshare : shares env r).

Record recorded (run : LedgerRun) (q : CapabilityRequest) : Prop := {
  rc_run : req_run_id q = r;
  rc_granted : call_name (req_call q) ∈ cap_name <$> granted self agent;
  rc_requested : CapabilityRequested (req_ordinal q) (req_call q) ∈ l_events run;
  rc_responded : ∃ n resp, ModelResponded n resp ∈ l_events run ∧ truncated resp = false ∧
    req_call q ∈ resp_calls resp;
}.

Record logged (run : LedgerRun) (k : Z) w : Prop := {
  lg_asked : ∃ qs, asked w = asked w0 ++ qs ∧ mreq_round <$> qs = seqZ 0 k ∧
    Forall (λ q, mreq_run_id q = r) qs;
  lg_bound : 0 ≤ k ≤ rounds_of (l_events run);
  lg_executed : ∃ xs, executed w = executed w0 ++ xs ∧ Forall (recorded run) xs;
}.

Record held_at (L : Ledger) (run : LedgerRun) (st : Stage) (t : option TerminalState) (k : Z) w : Prop := {
  ha_store : stands_for (store w) L;
  ha_steps : rtc any_step L0 L;
  ha_run : L !! r = Some run;
  ha_command : l_command run = command;
  ha_agent : l_agent run = agent;
  ha_terminal : l_terminal run = t;
  ha_stage : follow (l_events run) = Some st;
  ha_logged : logged run k w;
}.
Definition held st t k w : Prop := ∃ L run, held_at L run st t k w.

Definition abandoned w : Prop := ∃ st t k, held st t k w.

Lemma recorded_mono run run' q : l_events run `prefix_of` l_events run' → recorded run q → recorded run' q.
Proof.
  intros [ks Hks] [? ? ? (n & resp & ? & ? & ?)]. split; [done..| |exists n, resp; split_and!; [|done..]];
    rewrite Hks; set_solver.
Qed.

Lemma logged_mono run run' k w w' :
  l_events run `prefix_of` l_events run' → asked w' = asked w → executed w' = executed w →
  logged run k w → logged run' k w'.
Proof.
  intros Hp Ea Ee [HA HB (xs & HX & HF)]. split; [by rewrite Ea| |].
  - destruct Hp as [ks ->]. rewrite rounds_of_app. unfold rounds_of at 2. lia.
  - rewrite Ee. exists xs. split; [done|]. eapply Forall_impl; [done|]. intros q. by apply recorded_mono.
Qed.

(** Steps that do not touch the store. *)
Lemma held_same st t k w w' :
  store w' = store w → asked w' = asked w → executed w' = executed w → held st t k w → held st t k w'.
Proof.
  intros Es Ea Ee (L & run & [? ? ? ? ? ? ? HL]). exists L, run. split; [by rewrite Es|done..|].
  by apply (logged_mono run run k w).
Qed.

Lemma triple_is_cancelled (P : World → Prop) st t k X D :
  (∀ w, P w → held st t k w) → triple P (is_cancelled env) (λ _, held st t k) X D.
Proof. intros HP w Hw. cbn. apply (held_same _ _ _ w); auto. Qed.

(** A store call of the owner, against the contract. *)
Lemma triple_call {A} (op : StoreChoice → S → Result StoreError A * S) st t k
    (Q : A → World → Prop) (X : EngineError → World → Prop) :
  (∀ ch s s' res L run w, held_at L run st t k (with_store s w) → op ch s = (res, s') →
     match res with Ok a => Q a (tick (with_store s' w)) | Err e => X (EStore e) (tick (with_store s' w)) end ∧
     abandoned (tick (with_store s' w))) →
  triple (held st t k) (call env op) Q X abandoned.
Proof.
  intros Hop w (L & run & [Hst HS Hr Hc Ha Ht Hf HL]). unfold call.
  destruct (Hshare (moment w) (store w) L Hst) as (L' & Hst' & Hsteps).
  assert (held_at L' run st t k (with_store (others env (moment w) (store w)) w)) as HH.
  { split; [done| |by rewrite (other_steps_keep _ _ _ Hsteps)|done..|].
    - etrans; [done|]. by eapply other_steps_any.
    - by apply (logged_mono run run k w). }
  destruct (op _ _) as [res s'] eqn:Eop. destruct (Hop _ _ _ _ _ _ _ HH Eop) as [HQ HD].
  destruct (dropped env (moment w)) as [[]|]; [done| |by destruct res].
  exists st, t, k. eapply (held_same _ _ _ (with_store (others env (moment w) (store w)) w)); [done..|]. by exists L', run.
Qed.

(** An error of a method that leaves the run open, to be turned into its end. *)
Definition reportable (e : EngineError) : Prop :=
  match e with CommandAlreadyAdmitted _ | CommandConflict _ => False | _ => True end.
Definition broken (e : EngineError) w : Prop := ∃ st k, held st None k w ∧ live st ∧ reportable e.

Lemma follow_from_live es : ∀ st st', follow_from st es = Some st' → live st → st' ≠ Ended → live st'.
Proof.
  induction es as [|k es IH]; intros st st' E Hl He; cbn in E; [congruence|].
  destruct (follow_event st k) as [st1|] eqn:Ek; cbn in E; [|done]. apply (IH st1 st' E); [|done].
  split; [by destruct st, k as [| | | | |[]]; cbn in Ek; repeat case_match; unfold after_completion in *; repeat case_match; simplify_eq|].
  intros ->. destruct es; cbn [follow_from] in E; [congruence|]. by rewrite follow_event_ended in E.
Qed.

Lemma broken_intro e st k w : held st None k w → live st → reportable e → broken e w.
Proof. intros. by exists st, k. Qed.

Lemma held_at_store L run st t k s s' w :
  held_at L run st t k (with_store s w) → stands_for s' L → held st t k (tick (with_store s' w)).
Proof.
  intros [? ? ? ? ? ? ? HL] Hs. exists L, run. split; try done. by apply (logged_mono run run k (with_store s w)).
Qed.

(** The owner's step, after which the run is [run']. *)
Lemma held_at_step L run run' st st' t t' k s s' w :
  held_at L run st t k (with_store s w) → stands_for s' (<[r := run']> L) →
  engine_step r L (<[r := run']> L) →
  l_command run' = l_command run → l_agent run' = l_agent run → l_events run `prefix_of` l_events run' →
  l_terminal run' = t' → follow (l_events run') = Some st' →
  held_at (<[r := run']> L) run' st' t' k (tick (with_store s' w)).
Proof.
  intros [? HS ? ? ? ? ? HL] Hs Hstep Hc Ha Hp Ht Hf. split; try done; try congruence.
  - eapply rtc_r; [done|]. by exists r.
  - apply lookup_insert_eq.
  - by apply (logged_mono run run' k (with_store s w)).
Qed.

Lemma triple_append es st st' k :
  forallb kind_ok es = true → follow_from st es = Some st' → live st → st' ≠ Ended →
  triple (held st None k) (store_append env r es) (λ _, held st' None k) broken abandoned.
Proof.
  intros Hok Hf Hlive He. apply triple_call. intros ch s s' res L run w HH Hop.
  destruct (append_simulates ch r es s s' res L (ha_store _ _ _ _ _ _ HH) Hok Hop) as (L' & Hspec & Hst).
  assert (held st' None k (tick (with_store s' w)) ∨
          (∃ e, res = Err e) ∧ held st None k (tick (with_store s' w))) as HR.
  { pose proof HH as [_ _ Hr _ _ Ht Hfo _]. destruct Hspec as [L Hes|L run1 Hr1 Ht1|L e].
    - left. subst es. cbn in Hf. injection Hf as <-. by eapply held_at_store.
    - left. simplify_eq. eexists _, _. eapply held_at_step; [done|done| |done|done|by eexists|done|].
      + eapply step_append; [done..| |done]. by rewrite (follow_app _ _ _ Hfo).
      + cbn [run_append l_events]. by rewrite (follow_app _ _ _ Hfo).
    - right. split; [eauto|]. by eapply held_at_store. }
  destruct HR as [HR|[[e ->] HR]].
  - split; [destruct res as [[]|e]; [done|]|by exists st', None, k].
    eapply broken_intro; [done| |done]. by eapply follow_from_live.
  - split; [|by exists st, None, k]. by eapply broken_intro.
Qed.

(** The run ended from stage [st] with [t]. *)
Definition finished st t k w : Prop :=
  ∃ L run, held_at L run Ended (Some t) k w ∧ stage_rounds st = Some (rounds_of (l_events run)).

Lemma finished_held st t k w : finished st t k w → held Ended (Some t) k w.
Proof. intros (L & run & HH & _). by exists L, run. Qed.

Lemma triple_finish t st k :
  follow_event st (RunTerminated t) = Some Ended → live st →
  triple (held st None k) (store_finish env r t) (λ _, finished st t k)
    (λ e w, (∃ se, e = EStore se) ∧ held st None k w) abandoned.
Proof.
  intros Hf Hlive. apply triple_call. intros ch s s' res L run w HH Hop.
  destruct (finish_simulates ch r t s s' res L (ha_store _ _ _ _ _ _ HH) Hop) as (L' & Hspec & Hst).
  pose proof HH as [_ _ Hr _ _ Ht Hfo _]. destruct Hspec as [L run1 Hr1 Ht1|L e].
  - simplify_eq. assert (follow (l_events run1 ++ [RunTerminated t]) = Some Ended) as He.
    { rewrite (follow_app _ _ _ Hfo). cbn [follow_from]. by rewrite Hf. }
    assert (finished st t k (tick (with_store s' w))) as HE.
    { eexists _, (run_finish t run1). split.
      - eapply held_at_step; [done|done| |done|done|by eexists|done|done]. by eapply step_finish.
      - cbn [run_finish l_events]. rewrite rounds_of_app, Z.add_0_r. apply follow_rounds; [done|apply Hlive]. }
    split; [done|]. exists Ended, (Some t), k. by eapply finished_held.
  - assert (held st None k (tick (with_store s' w))) as HE by (by eapply held_at_store).
    split; [by split; [eexists|]|by exists st, None, k].
Qed.

(** ** Methods *)
Lemma live_asked n : live (Asked n). Proof. done. Qed.
Lemma live_working n resp a d : live (Working n resp a d). Proof. done. Qed.
Lemma live_after n resp a d : live (after_completion n resp a d).
Proof. unfold after_completion. by case_match. Qed.
#[local] Hint Resolve live_asked live_working live_after : core.

Lemma triple_ask q n :
  mreq_run_id q = r → mreq_round q = n →
  triple (held (Asked n) None n) (ask env q) (λ _, held (Asked n) None (n + 1)) broken abandoned.
Proof.
  intros Hq Hn w (L & run & [? ? ? ? ? ? Hf [(qs & HA & HR & HF) HB (xs & HX & HFX)]]). cbn.
  exists L, run. split; try done. split; cbn.
  - exists (qs ++ [q]). rewrite HA, app_assoc, fmap_app, HR. split_and!; [done| |].
    + rewrite Z.add_1_r, <- Z.add_1_r, seqZ_app by lia. cbn. rewrite Hn. done.
    + apply Forall_app. by repeat constructor.
  - pose proof (follow_rounds _ _ Hf) as Hro. cbn in Hro. assert (Some (n + 1) = Some (rounds_of (l_events run))) as [= <-]; [by apply Hro|].
    lia.
  - by exists xs.
Qed.

Lemma triple_stream n k stream :
  triple (held (Asked n) None k) (stream_loop env r n stream)
    (λ resp, held (Working n resp 0 0) None k) broken abandoned.
Proof.
  induction stream as [|[[text|resp]|e] stream IH]; cbn [stream_loop];
    (eapply triple_bind; [by apply triple_is_cancelled|]; intros []; [apply triple_fail; intros w Hw; by eapply broken_intro|]).
  - apply triple_fail. intros w Hw. by eapply broken_intro.
  - exact IH.
  - eapply triple_bind; [apply (triple_append _ _ (Working n resp 0 0)); [done|cbn; by rewrite Z.eqb_refl|done..]|].
    intros []. by apply triple_ret.
  - apply triple_fail. intros w Hw. by eapply broken_intro.
Qed.

Lemma triple_model_step n ins ms cs :
  triple (held (Idle n) None n) (model_step env (build_request r n ins ms cs))
    (λ resp, held (Working n resp 0 0) None (n + 1)) broken abandoned.
Proof.
  unfold model_step. eapply triple_bind.
  { apply (triple_append _ _ (Asked n)); [done|cbn; by rewrite Z.eqb_refl|done..]. }
  intros []. eapply triple_bind; [by apply triple_ask|]. intros stream. apply triple_stream.
Qed.

(** Requests that are the calls of [resp] from the [d]th on. *)
Record requests_from (resp : ModelResponse) (d : nat) (qs : list CapabilityRequest) : Prop := {
  rq_calls : req_call <$> qs = drop d (resp_calls resp);
  rq_ordinals : req_ordinal <$> qs = seqZ (Z.of_nat d) (Z.of_nat (length qs));
  rq_runs : Forall (λ q, req_run_id q = r) qs;
}.

Lemma requests_from_nil resp d : requests_from resp d [] → (d ≤ calls_count resp)%nat → d = calls_count resp.
Proof.
  intros [Hc _ _] Hd. apply (f_equal length) in Hc. rewrite length_drop in Hc. cbn in Hc.
  unfold calls_count in *. lia.
Qed.

Lemma requests_from_cons resp d q qs : requests_from resp d (q :: qs) →
  resp_calls resp !! d = Some (req_call q) ∧ req_ordinal q = Z.of_nat d ∧ req_run_id q = r ∧
  requests_from resp (Datatypes.S d) qs ∧ (d < calls_count resp)%nat.
Proof.
  intros [Hc Ho HF]. apply Forall_cons in HF as [Hr HF]. cbn [length fmap list_fmap] in *.
  assert (resp_calls resp !! d = Some (req_call q)) as Hq.
  { apply (f_equal (.!! 0%nat)) in Hc. by rewrite lookup_drop, Nat.add_0_r in Hc. }
  rewrite seqZ_cons in Ho by lia. injection Ho as Hn Ho. split_and!; try done.
  - rewrite (drop_S _ _ _ Hq) in Hc. injection Hc as Hc. split; [done| |done].
    transitivity (seqZ (Z.succ (Z.of_nat d)) (Z.pred (Z.of_nat (Datatypes.S (length qs))))); [done|f_equal; lia].
  - by eapply lookup_lt_Some.
Qed.

Lemma triple_execute n resp d q k X D :
  truncated resp = false → resp_calls resp !! d = Some (req_call q) → req_ordinal q = Z.of_nat d →
  req_run_id q = r → call_name (req_call q) ∈ cap_name <$> granted self agent →
  let st := Working n resp (calls_count resp) d in
  triple (held st None k) (execute env q) (λ _, held st None k) X D.
Proof.
  intros Ht Hc Ho Hr Hg st w (L & run & [? ? ? ? ? ? Hf [HA HB (xs & HX & HFX)]]). cbn.
  exists L, run. split; try done. split; [done..|]. exists (xs ++ [q]). cbn. rewrite HX, app_assoc.
  split; [done|]. apply Forall_app. split; [done|]. constructor; [|done].
  destruct (follow_facts _ _ Hf) as [HR HQ]. split; [done..| |].
  - rewrite Ho. apply HQ; [|done]. by eapply lookup_lt_Some.
  - exists n, resp. split_and!; [done..|]. by eapply list_elem_of_lookup_2.
Qed.

Lemma triple_record n resp d q o k :
  resp_calls resp !! d = Some (req_call q) → req_ordinal q = Z.of_nat d →
  triple (held (Working n resp (calls_count resp) d) None k) (record_capability_completion env r q o)
    (λ _, held (after_completion n resp (calls_count resp) (Datatypes.S d)) None k) broken abandoned.
Proof.
  intros Hc Ho. apply triple_append; [done| |done|by apply live_after].
  cbn [follow_from]. by rewrite Ho, (follow_completed _ _ _ _ _ Hc).
Qed.

Lemma after_working n resp a d : (d < calls_count resp)%nat → after_completion n resp a d = Working n resp a d.
Proof. intros Hd. unfold after_completion. by rewrite (proj2 (Nat.eqb_neq _ _)) by lia. Qed.

Lemma after_idle n resp a : after_completion n resp a (calls_count resp) = Idle (n + 1).
Proof. unfold after_completion. by rewrite Nat.eqb_refl. Qed.

Lemma triple_refuse n resp k qs : ∀ d,
  requests_from resp d qs → (d ≤ calls_count resp)%nat →
  triple (held (after_completion n resp (calls_count resp) d) None k) (refuse_truncated env r qs)
    (λ _, held (Idle (n + 1)) None k) broken abandoned.
Proof.
  induction qs as [|q qs IH]; intros d Hq Hd; cbn [refuse_truncated].
  - apply triple_ret. rewrite (requests_from_nil _ _ Hq Hd), after_idle. done.
  - apply requests_from_cons in Hq as (Hc & Ho & Hr & Hq & Hlt). rewrite after_working by done.
    eapply triple_bind; [by apply triple_record|]. intros [].
    eapply triple_bind; [by apply IH; [|lia]|]. intros outs. by apply triple_ret.
Qed.

Lemma triple_run_task n resp d q k :
  truncated resp = false → resp_calls resp !! d = Some (req_call q) → req_ordinal q = Z.of_nat d →
  req_run_id q = r → call_name (req_call q) ∈ cap_name <$> granted self agent →
  let st := Working n resp (calls_count resp) d in
  triple (held st None k) (run_task env q) (λ _, held st None k) broken abandoned.
Proof.
  intros. unfold run_task. eapply triple_bind; [by apply triple_execute|]. intros ended.
  eapply triple_bind; [by apply triple_is_cancelled|]. intros b.
  eapply (triple_bind _ _ _ (λ _, held _ None k)); [|intros b'; by apply triple_ret]. intros w Hw. exact Hw.
Qed.

Lemma triple_capabilities n resp k qs : ∀ d,
  truncated resp = false → requests_from resp d qs → (d ≤ calls_count resp)%nat →
  triple (held (after_completion n resp (calls_count resp) d) None k)
    (execute_capabilities env r qs (granted self agent))
    (λ _, held (Idle (n + 1)) None k) broken abandoned.
Proof.
  induction qs as [|q qs IH]; intros d Ht Hq Hd; cbn [execute_capabilities].
  - apply triple_ret. rewrite (requests_from_nil _ _ Hq Hd), after_idle. done.
  - apply requests_from_cons in Hq as (Hc & Ho & Hr & Hq & Hlt). rewrite after_working by done.
    eapply (triple_bind _ _ _ (λ _, held (Working n resp (calls_count resp) d) None k)).
    + destruct (existsb _ _) eqn:Eg; cbn [negb]; [|by apply triple_ret].
      eapply triple_bind; [apply triple_run_task; try done|].
      * apply existsb_exists in Eg as (c & Hin & Hn%String.eqb_eq). rewrite <- Hn.
        by apply list_elem_of_fmap_2, list_elem_of_In.
      * intros [o|e]; [by apply triple_ret|]. apply triple_fail. intros w Hw. by eapply broken_intro.
    + intros o. eapply triple_bind; [by apply triple_record|]. intros [].
      eapply triple_bind; [apply IH; [done..|lia]|]. intros outs. by apply triple_ret.
Qed.

Lemma number_requests_spec target calls qs :
  number_requests self r target calls = Ok qs →
  req_call <$> qs = calls ∧ req_ordinal <$> qs = seqZ 0 (Z.of_nat (length qs)) ∧ Forall (λ q, req_run_id q = r) qs.
Proof.
  unfold number_requests. generalize (Z.of_nat (length calls)) at 1 as total. intros total.
  generalize 0 as i. revert qs. induction calls as [|c calls IH]; intros qs i; cbn [collect_enum].
  { intros [= <-]. done. }
  destruct (i <=? u32_max); [|done]. cbn. destruct (collect_enum _ _ _) as [qs'|] eqn:E; [|done].
  intros [= <-]. destruct (IH _ _ E) as (Hc & Ho & HF). split_and!; [cbn; by rewrite Hc| |by constructor].
  rewrite fmap_cons, Ho. cbn [length req_ordinal]. rewrite (seqZ_cons i) by lia. f_equal. f_equal; lia.
Qed.

Lemma number_requests_err target calls e :
  number_requests self r target calls = Err e → reportable e.
Proof.
  unfold number_requests. generalize (Z.of_nat (length calls)) at 1 as total. intros total.
  generalize 0 as i. induction calls as [|c calls IH]; intros i; cbn [collect_enum]; [done|].
  destruct (i <=? u32_max); cbn; [|by intros [= <-]]. destruct (collect_enum _ _ _) eqn:E; [done|].
  intros [= <-]. by eapply IH.
Qed.

Lemma triple_batch n resp k :
  resp_calls resp ≠ [] →
  triple (held (Working n resp 0 0) None k) (capability_batch env self r command resp (granted self agent))
    (λ _, held (Idle (n + 1)) None k) broken abandoned.
Proof.
  intros Hne. unfold capability_batch.
  destruct (_ <? _); [apply triple_fail; intros w Hw; by eapply broken_intro|].
  eapply (triple_bind _ _ _ (λ qs w, requests_from resp 0 qs ∧ held (Working n resp 0 0) None k w)).
  { destruct (number_requests _ _ _ _) as [qs|e] eqn:E; cbn.
    - apply triple_ret. intros w Hw. split; [|done]. apply number_requests_spec in E as (? & ? & ?). by split.
    - apply triple_fail. intros w Hw. eapply broken_intro; [done..|]. by eapply number_requests_err. }
  intros qs. intros w [Hq Hw]. revert w Hw.
  assert (length qs = calls_count resp) as Hlen.
  { destruct Hq as [Hc _ _]. apply (f_equal length) in Hc. by rewrite length_fmap in Hc. }
  assert (0 < calls_count resp)%nat as Hpos by (unfold calls_count; destruct (resp_calls resp); [done|cbn; lia]).
  eapply triple_bind.
  { eapply (triple_append _ _ (Working n resp (calls_count resp) 0)); [| |done|done].
    - clear. induction qs; cbn; done.
    - destruct Hq. by rewrite follow_requests, Hlen. }
  intros []. rewrite <- (after_working n resp (calls_count resp) 0) by done.
  destruct (truncated resp) eqn:Et; [apply triple_refuse|apply triple_capabilities]; (done || lia).
Qed.

(** How the ledger shows an error of [Engine::run]: a failed store call leaves
    the run open, any other error ends it accordingly. *)
Definition ended_as (e : EngineError) w : Prop :=
  match e with
  | ECancelled => ∃ k, held Ended (Some (TCancelled "caller cancelled the run")) k w
  | CapabilityBatchTooLarge _ _ | CapabilityTask _ | EModel _ | RoundLimit _ =>
      ∃ k, held Ended (Some (TFailed (error_text e))) k w
  | EStore _ => ∃ st k, held st None k w ∧ live st
  | CommandAlreadyAdmitted _ | CommandConflict _ => False
  end.

Lemma live_ends st t : live st → (match t with TCompleted _ => False | _ => True end) →
  follow_event st (RunTerminated t) = Some Ended.
Proof. intros [H1 H2] Ht. destruct st as [| | |n resp [|a] [|d]|], t; first [done|by destruct H1|by destruct H2]. Qed.

Lemma triple_end t e :
  (match t with TCompleted _ => False | _ => True end) →
  (∀ w k, held Ended (Some t) k w → ended_as e w) →
  triple (broken e) (_ ← store_finish env r t; fail e) (λ (_ : AgentRunResult) _, False) ended_as abandoned.
Proof.
  intros Ht He w (st & k & Hw & Hl & _). revert w Hw.
  eapply (triple_bind _ _ _ (λ _, finished st t k)).
  - eapply triple_conseq; [| | |apply triple_finish; [by apply live_ends|done]]; [done|done|].
    intros e' w [[se ->] Hw]. by exists st, k.
  - intros []. apply triple_fail. intros w Hw. eapply He. by eapply finished_held.
Qed.

Lemma triple_terminal e :
  triple (broken e) (terminal_error env r e) (λ _ _, False) ended_as abandoned.
Proof.
  destruct e; unfold terminal_error;
    try (apply triple_end; [done|]; intros w k Hw; by exists k);
    intros w (st & k & Hw & Hl & Hre); try done.
  cbn. by exists st, k.
Qed.

Definition completed (res : AgentRunResult) w : Prop :=
  run_id res = r ∧ 1 ≤ model_rounds res ≤ max_model_rounds (config self) ∧
  ∃ L run, held_at L run Ended (Some (TCompleted (output res))) (model_rounds res) w ∧
    rounds_of (l_events run) = model_rounds res.

Lemma triple_complete n resp :
  resp_calls resp = [] → 0 ≤ n < max_model_rounds (config self) →
  triple (held (Working n resp 0 0) None (n + 1)) (complete_run env r (resp_text resp) (n + 1))
    completed ended_as abandoned.
Proof.
  intros Hc Hn. eapply (triple_bind _ _ _ (λ _, finished (Working n resp 0 0) (TCompleted (resp_text resp)) (n + 1))).
  - eapply triple_conseq; [| | |apply (triple_finish _ (Working n resp 0 0)); [|done]]; [done|done| |].
    + intros e' w [[se ->] Hw]. by exists (Working n resp 0 0), (n + 1).
    + cbn. by rewrite Hc, String.eqb_refl.
  - intros []. apply triple_ret. intros w (L & run & HH & [= Hr]). split_and!; [done|cbn; lia..|]. by exists L, run.
Qed.

Lemma triple_rounds fuel : ∀ n messages,
  0 ≤ n → n + Z.of_nat fuel = max_model_rounds (config self) →
  triple (held (Idle n) None n) (rounds_loop env self r command agent (granted self agent) fuel n messages)
    completed ended_as abandoned.
Proof.
  assert (∀ e P, (∀ w, P w → broken e w) → triple P (terminal_error env r e) completed ended_as abandoned) as Hterm.
  { intros e P HP. eapply triple_conseq; [exact HP| | |apply triple_terminal]; [|done]. by intros ? ? []. }
  induction fuel as [|fuel IH]; intros n messages Hn Hf; cbn [rounds_loop].
  { apply Hterm. intros w Hw. by eapply broken_intro. }
  eapply triple_bind; [by apply triple_is_cancelled|].
  intros []; [apply Hterm; intros w Hw; by eapply broken_intro|].
  eapply triple_bind; [apply triple_attempted, triple_model_step|].
  intros [resp|e]; [|by apply Hterm]. case_decide as Hc; [apply triple_complete; [done|lia]|].
  eapply triple_bind; [by apply triple_attempted, triple_batch|].
  intros [outcomes|e]; [|by apply Hterm].
  eapply triple_bind; [by apply triple_is_cancelled|].
  intros []; [apply Hterm; intros w Hw; by eapply broken_intro|]. apply IH; lia.
Qed.
End owned.
End logic.
