(* ===== verification/RunTheorems.v ===== *)
(** * The run engine: theorems

    What [Engine::run] promises, over any store that keeps the contract of
    [RunStoreLaws] and is shared with other engines; the SQLite ledger is such
    a store. *)
From S2P Require Import Prelude Json Text Protocol Transaction Runs RunSqlite RunSqliteSound RunEngine.
From S2P Require Import RunSound.
(** ** A concrete run

    Serializers for the run ledger made of codecs, and one run of the engine
    over the SQLite ledger: the model calls a granted and an ungranted
    capability, then answers. *)
Module RunJson.
Export RcpJson.

(** ** Codecs *)
Definition c_agent : codec ResolvedAgent :=
  c_iso (c_prod c_str (c_list c_str)) (λ a, (instructions a, capability_grants a))
    (λ '(i, g), Some (MkResolvedAgent i g)) ltac:(by_cases).
Definition c_terminal : codec TerminalState :=
  c_iso (c_sum c_str (c_sum c_str c_str))
    (λ t, match t with TCompleted s => inl s | TFailed s => inr (inl s) | TCancelled s => inr (inr s) end)
    (λ s, Some (match s with inl s => TCompleted s | inr (inl s) => TFailed s | inr (inr s) => TCancelled s end))
    ltac:(by_cases).
Definition c_call : codec CapabilityCall :=
  c_iso (c_prod c_str (c_prod c_str c_value)) (λ c, (call_id c, (call_name c, call_arguments c)))
    (λ '(i, (n, a)), Some (MkCapabilityCall i n a)) ltac:(by_cases).
Definition c_outcome : codec CapabilityOutcome :=
  c_iso (c_prod c_value c_bool) (λ o, (model_view o, is_error o))
    (λ '(v, e), Some (MkCapabilityOutcome v e)) ltac:(by_cases).
Definition c_response : codec ModelResponse :=
  c_iso (c_prod c_str (c_prod (c_list c_call) c_bool)) (λ r, (resp_text r, (resp_calls r, truncated r)))
    (λ '(t, (c, b)), Some (MkModelResponse t c b)) ltac:(by_cases).
Definition c_event : codec RunEventKind :=
  c_iso (c_sum (c_sum (c_prod c_command c_agent) c_num)
           (c_sum (c_sum (c_prod c_num c_response) (c_prod c_num c_call))
              (c_sum (c_prod c_num (c_prod c_str c_outcome)) c_terminal)))
    (λ k, match k with
          | RunStarted c a => inl (inl (c, a))
          | ModelRequested n => inl (inr n)
          | ModelResponded n r => inr (inl (inl (n, r)))
          | CapabilityRequested o c => inr (inl (inr (o, c)))
          | CapabilityCompleted o i x => inr (inr (inl (o, (i, x))))
          | RunTerminated t => inr (inr (inr t))
          end)
    (λ s, Some (match s with
          | inl (inl (c, a)) => RunStarted c a
          | inl (inr n) => ModelRequested n
          | inr (inl (inl (n, r))) => ModelResponded n r
          | inr (inl (inr (o, c))) => CapabilityRequested o c
          | inr (inr (inl (o, (i, x)))) => CapabilityCompleted o i x
          | inr (inr (inr t)) => RunTerminated t
          end)) ltac:(by_cases).

#[export] Instance run_serde : RunSerde := {
  command_serde := {| to_string c := Some (enc c_command c); from_str := dec c_command |};
  agent_serde := {| to_string a := Some (enc c_agent a); from_str := dec c_agent |};
  terminal_serde := {| to_string t := Some (enc c_terminal t); from_str := dec c_terminal |};
  event_kind_serde := {| to_string k := Some (enc c_event k); from_str := dec c_event |};
}.

#[export] Instance run_serde_laws : RunSerdeLaws.
Proof.
  split.
  - intros c t [= <-] _. apply (dec_enc c_command).
  - intros a t [= <-]. apply (dec_enc c_agent).
  - intros x t [= <-]. apply (dec_enc c_terminal).
  - intros k t [= <-] _. apply (dec_enc c_event).
Qed.

#[export] Instance texts : LibraryTexts := {|
  constraint_failed c := "UNIQUE constraint failed: " +:+ c;
  no_rows := "Query returned no rows";
  json_failed := "expected value" |}.

(** ** A run *)
Definition command1 : CommandEnvelope :=
  MkCommandEnvelope (MkRid 5) (MkRid 1) "cli" "main" (from_text "look") None.
Definition agent1 : ResolvedAgent := MkResolvedAgent "be brief" ["read"].
Definition call1 : CapabilityCall := MkCapabilityCall "c1" "read" JNull.
Definition call2 : CapabilityCall := MkCapabilityCall "c2" "ghost" JNull.
Definition response0 : ModelResponse := MkModelResponse "" [call1; call2] false.
Definition response1 : ModelResponse := MkModelResponse "done" [] false.

Definition engine1 : Engine :=
  MkEngine [MkCapabilitySpec "read" "reads" JNull; MkCapabilitySpec "write" "writes" JNull] default_config.

Definition env1 (cancel : option nat) : Environment (S := RunDb) := {|
  others _ s := s;
  choices n := MkStoreChoice None (Ok (1000 + Z.of_nat n)) (MkRid 7) (λ i, MkRid (N.of_nat (10 * n + i)));
  cancelled_from := cancel;
  streams _ q := if mreq_round q =? 0 then [Ok (MTextDelta "..."); Ok (MCompleted response0)]
                 else [Ok (MCompleted response1)];
  executes _ q := TaskOutcome (MkCapabilityOutcome (JString "text") false);
  notices _ := true;
  dropped _ := None;
|}.

Definition opened : RunDb := (initialize None empty_file).2.
Definition world0 : World := MkWorld opened 0 [] [].

Lemma opened_represents : represents opened ∅.
Proof. unfold opened. destruct empty_represents as (db & -> & ?). done. Qed.

Lemma env1_shares cancel r : shares (env1 cancel) r.
Proof. intros n s L Hs. by exists L. Qed.

Definition run1 := engine_run (env1 None) engine1 command1 agent1 world0.
Definition world1 : World := run1.2.

Lemma run1_result : run1.1 = Some (Ok (MkAgentRunResult (MkRid 7) "done" 2)).
Proof. vm_compute. reflexivity. Qed.

Lemma run1_executed : (call_name ∘ req_call) <$> executed world1 = ["read"].
Proof. vm_compute. reflexivity. Qed.
End RunJson.

Section run.
Context `{JV : JsonValue} {S : Type} {RSt : RunStore S} {RLaws : RunStoreLaws S}.
Implicit Types (w : World (S := S)) (env : Environment (S := S)).

(** The call wrote nothing: others took steps, no model or capability was used. *)
Record untouched (r : RunId) (L : Ledger) w (L' : Ledger) w' : Prop := {
  un_store : stands_for (store w') L';
  un_steps : rtc (other_step r) L L';
  un_asked : asked w' = asked w;
  un_executed : executed w' = executed w;
}.

(** A result that was read from the ledger. *)
Definition replayed (c : CommandEnvelope) (a : ResolvedAgent) (L' : Ledger)
    (res : option (Result EngineError AgentRunResult)) : Prop :=
  match res with
  | Some (Ok result) =>
      ∃ run, L' !! run_id result = Some run ∧ l_command run = c ∧ l_agent run = a ∧
        l_terminal run = Some (TCompleted (output result)) ∧ model_rounds result = rounds_of (l_events run) ∧
        model_rounds result ≤ u32_max
  | Some (Err (CommandConflict r')) =>
      ∃ run, L' !! r' = Some run ∧ command_id (l_command run) = command_id c ∧
        (l_command run, l_agent run) ≠ (c, a)
  | Some (Err (CommandAlreadyAdmitted r')) =>
      ∃ run, L' !! r' = Some run ∧ l_command run = c ∧ l_agent run = a
  | Some (Err (EStore _)) | None => True
  | Some (Err _) => False
  end.

(** The two ways a call ends: it owned the run it admitted, or it only looked. *)
Inductive run_ends (self : Engine) (c : CommandEnvelope) (a : ResolvedAgent) (r : RunId) (L : Ledger) w w'
    : option (Result EngineError AgentRunResult) → Prop :=
| ends_completed result :
    completed self r L w c a result w' → run_ends self c a r L w w' (Some (Ok result))
| ends_failed e :
    ended_as self r L w c a e w' → run_ends self c a r L w w' (Some (Err e))
| ends_dropped :
    abandoned self r L w c a w' → run_ends self c a r L w w' None
| ends_untouched res L' :
    untouched r L w L' w' → replayed c a L' res → run_ends self c a r L w w' res.

(** The rounds counted in a transcript are those of its events. *)
Lemma count_requested (evs : list RunEvent) :
  Z.of_nat (length (List.filter (λ e, is_model_requested (kind e)) evs)) = rounds_of (kind <$> evs).
Proof.
  unfold rounds_of. f_equal. induction evs as [|e evs IH]; cbn; [done|].
  destruct (is_model_requested (kind e)); cbn; by rewrite IH.
Qed.

(** ** One call *)
Section call.
Context (env : Environment (S := S)) (self : Engine) (c : CommandEnvelope) (a : ResolvedAgent).
Context (r : RunId) (L : Ledger) (w : World (S := S)).
Context (Hst : stands_for (store w) L) (Hr : fresh_run (choices env (moment w)) = r).
Context (Hshare : shares env r) (Hinput : input_ok (input c) = true).

Lemma untouched_by_others L1 s w1 :
  rtc (other_step r) L L1 → stands_for s L1 → store w1 = s → asked w1 = asked w → executed w1 = executed w →
  untouched r L w L1 w1.
Proof. intros. subst s. by split. Qed.

(** Admission: a new run is owned, anything else changed nothing. *)
Lemma admission_cases L1 s s' res w1 :
  rtc (other_step r) L L1 → stands_for s L1 → admit_run (choices env (moment w)) c a s = (res, s') →
  store w1 = s' → asked w1 = asked w → executed w1 = executed w →
  (res = Ok (RunAdmitted r) ∧ held self r L w c a (Idle 0) None 0 w1) ∨
  (untouched r L w L1 w1 ∧
   match res with
   | Ok (RunAdmitted _) => False
   | Ok (Existing r') => ∃ run, L1 !! r' = Some run ∧ l_command run = c ∧ l_agent run = a
   | Ok (Conflict r') => replayed c a L1 (Some (Err (CommandConflict r')))
   | Err _ => True
   end).
Proof.
  intros HS Hs Hop E1 E2 E3.
  destruct (admit_simulates _ _ _ _ _ _ _ Hs Hinput Hop) as (L2 & Hspec & Hs').
  destruct Hspec as [L1 r1 Hn Hc|L1 r1 run Hr1 Hc Ha|L1 r1 run Hr1 Hc Hne|L1 e].
  - left. assert (r1 = r) as -> by (rewrite (admit_fresh _ _ _ _ _ _ Hop); done). split; [done|].
    exists (<[r := new_run c a]> L1), (new_run c a). split; try done; [by rewrite E1| |by rewrite lookup_insert_eq|].
    + eapply rtc_r; [by eapply other_steps_any|]. exists r. by apply step_admit.
    + split; cbn; [exists []; by rewrite app_nil_r| |exists []; by rewrite app_nil_r].
      unfold rounds_of. cbn. lia.
  - right. split; [by eapply untouched_by_others|]. eauto.
  - right. split; [by eapply untouched_by_others|]. cbn. eauto.
  - right. split; [by eapply untouched_by_others|]. done.
Qed.

Lemma replay_cases r' L1 w1 res w' :
  untouched r L w L1 w1 → (∃ run, L1 !! r' = Some run ∧ l_command run = c ∧ l_agent run = a) →
  replay_completed env r' w1 = (res, w') →
  ∃ L2, untouched r L w L2 w' ∧ replayed c a L2 res.
Proof.
  intros [Hs HS Ha He] (run & Hr' & Hc & Hag) HE.
  unfold replay_completed, store_load, mbind, Eng_bind, call in HE.
  destruct (Hshare (moment w1) (store w1) L1 Hs) as (L2 & Hs2 & HS2).
  destruct (steps_run_le L1 L2 r' run) as (run2 & Hr2 & (Hc2 & Ha2 & _)); [by eapply other_steps_any|done|].
  set (s2 := others env (moment w1) (store w1)) in *.
  assert (∀ w2, store w2 = s2 → asked w2 = asked w1 → executed w2 = executed w1 → untouched r L w L2 w2) as Hun.
  { intros w2 E1 E2 E3. split; [by rewrite E1|by etrans|congruence..]. }
  destruct (dropped env (moment w1)) as [b|].
  { injection HE as <- <-. exists L2. split; [|done]. apply Hun; [by destruct b|done..]. }
  cbn [store moment tick with_store asked executed] in HE.
  destruct (Hshare (1 + moment w1)%nat s2 L2 Hs2) as (L3 & Hs3 & HS3).
  destruct (steps_run_le L2 L3 r' run2) as (run3 & Hr3 & (Hc3 & Ha3 & _ & Hfin)); [by eapply other_steps_any|done|].
  set (s3 := others env (1 + moment w1)%nat s2) in *.
  assert (∀ w3, store w3 = s3 → asked w3 = asked w1 → executed w3 = executed w1 → untouched r L w L3 w3) as Hun3.
  { intros w3 E1 E2 E3. split; [by rewrite E1|by etrans; [exact HS|]; etrans; [exact HS2|]|congruence..]. }
  exists L3. destruct (dropped env (1 + moment w1)%nat) as [b|].
  { injection HE as <- <-. split; [|done]. apply Hun3; [by destruct b|done..]. }
  destruct (load_transcript _ r' s2 s3) as [tr|e] eqn:El.
  2: { injection HE as <- <-. split; [by apply Hun3|done]. }
  apply (load_simulates _ _ _ _ _ L2 L3 Hs2 Hs3) in El; [|by eexists].
  inversion El as [run4 later tr' Hr4 Hr5 _ _ _ Ht _ Hk _ _|]; simplify_eq.
  destruct (rec_terminal (transcript_run tr)) as [[out|err|why]|] eqn:Et;
    [destruct (Z.leb_spec (Z.of_nat (length (List.filter (λ e, is_model_requested (kind e)) (events tr)))) u32_max)| | |];
    injection HE as <- <-; (split; [by apply Hun3|]); try done; cbn.
  - rewrite Hfin in Hk, Hr3 by (rewrite <- Ht; by eexists).
    exists run2. split_and!; [done|congruence..| | |done].
    + by rewrite <- Ht.
    + by rewrite count_requested, Hk.
  - exists run3. split_and!; congruence.
  - exists run3. split_and!; congruence.
  - exists run3. split_and!; congruence.
Qed.

Lemma engine_run_ends res w' :
  0 ≤ max_model_rounds (config self) → engine_run env self c a w = (res, w') → run_ends self c a r L w w' res.
Proof.
  intros Hmax. unfold engine_run, mbind, Eng_bind, call.
  destruct (Hshare (moment w) (store w) L Hst) as (L1 & Hs1 & HS1).
  set (s1 := others env (moment w) (store w)) in *.
  destruct (admit_run _ c a s1) as [adm s2] eqn:Ea.
  pose proof (admission_cases L1 s1 s2 adm (tick (with_store s2 w)) HS1 Hs1 Ea eq_refl eq_refl eq_refl) as Hadm.
  destruct (dropped env (moment w)) as [[]|].
  - intros [= <- <-]. destruct Hadm as [[_ HH]|[Hun _]]; [|by eapply ends_untouched].
    apply ends_dropped. by exists (Idle 0), None, 0.
  - intros [= <- <-]. apply (ends_untouched _ _ _ _ _ _ _ _ L1); [|done]. by eapply untouched_by_others.
  - destruct Hadm as [[-> HH]|[Hun Hre]].
    + intros E. pose proof (triple_rounds env self r L w c a Hshare (Z.to_nat (max_model_rounds (config self))) 0
        [MUser (input_text (input c))] ltac:(done) ltac:(lia) _ HH) as HT. rewrite E in HT.
      destruct res as [[result|e]|]; [by apply ends_completed|by apply ends_failed|by apply ends_dropped].
    + destruct adm as [[r1|r1|r1]|e]; [done| | |].
      * intros E. destruct (replay_cases _ _ _ _ _ Hun Hre E) as (L2 & ? & ?). by eapply ends_untouched.
      * intros [= <- <-]. by eapply ends_untouched.
      * intros [= <- <-]. by eapply ends_untouched.
Qed.
End call.

(** ** The ledger after a call *)

(** The ledger after a call, and the owned run in it when there is one. *)
Lemma run_ends_ledger self c a r L w w' res :
  run_ends self c a r L w w' res →
  ∃ L', stands_for (store w') L' ∧ rtc any_step L L' ∧
    ∃ qs xs, asked w' = asked w ++ qs ∧ executed w' = executed w ++ xs ∧
      (qs = [] ∧ xs = [] ∨
       ∃ run, L' !! r = Some run ∧ l_command run = c ∧ l_agent run = a ∧
         mreq_round <$> qs = seqZ 0 (Z.of_nat (length qs)) ∧ Forall (λ q, mreq_run_id q = r) qs ∧
         Z.of_nat (length qs) ≤ rounds_of (l_events run) ∧ Forall (recorded self r a run) xs).
Proof.
  assert (∀ st t k, held self r L w c a st t k w' →
    ∃ L', stands_for (store w') L' ∧ rtc any_step L L' ∧
    ∃ qs xs, asked w' = asked w ++ qs ∧ executed w' = executed w ++ xs ∧
      (qs = [] ∧ xs = [] ∨
       ∃ run, L' !! r = Some run ∧ l_command run = c ∧ l_agent run = a ∧
         mreq_round <$> qs = seqZ 0 (Z.of_nat (length qs)) ∧ Forall (λ q, mreq_run_id q = r) qs ∧
         Z.of_nat (length qs) ≤ rounds_of (l_events run) ∧ Forall (recorded self r a run) xs)) as Hheld.
  { intros st t k (L' & run & [Hs HS Hr Hc Ha _ _ [(qs & HA & HR & HF) HB (xs & HX & HFX)]]).
    assert (k = Z.of_nat (length qs)) as Hk.
    { apply (f_equal length) in HR. rewrite length_fmap, length_seqZ in HR. lia. }
    exists L'. split_and!; [done..|]. exists qs, xs. split_and!; [done..|]. right. exists run. rewrite <- Hk.
    split_and!; (done || lia). }
  intros [result (_ & _ & L' & run & HH & _)|e He|(st & t & k & HH)|res' L' [Hs HS Ha He] _].
  - eapply Hheld. by exists L', run.
  - destruct e; cbn in He; try done; try (destruct He as [k HH]; by eapply Hheld).
    destruct He as (st & k & HH & _). by eapply Hheld.
  - by eapply Hheld.
  - exists L'. split_and!; [done|by eapply other_steps_any|]. exists [], []. rewrite !app_nil_r. by split_and!; [..|left].
Qed.

(** How a result shows in the ledger [L'] that followed [L]. *)
Definition outcome_recorded (r : RunId) (c : CommandEnvelope) (a : ResolvedAgent) (L L' : Ledger)
    (res : option (Result EngineError AgentRunResult)) : Prop :=
  match res with
  | Some (Ok result) =>
      ∃ run, L' !! run_id result = Some run ∧ l_command run = c ∧ l_agent run = a ∧
        l_terminal run = Some (TCompleted (output result)) ∧ model_rounds result = rounds_of (l_events run)
  | Some (Err e) =>
      match e with
      | ECancelled =>
          ∃ run, L' !! r = Some run ∧ l_command run = c ∧
            l_terminal run = Some (TCancelled "caller cancelled the run")
      | CapabilityBatchTooLarge _ _ | CapabilityTask _ | EModel _ | RoundLimit _ =>
          ∃ run, L' !! r = Some run ∧ l_command run = c ∧ l_terminal run = Some (TFailed (error_text e))
      | CommandConflict r' =>
          ∃ run, L' !! r' = Some run ∧ command_id (l_command run) = command_id c ∧
            (l_command run, l_agent run) ≠ (c, a)
      | CommandAlreadyAdmitted r' =>
          ∃ run, L' !! r' = Some run ∧ l_command run = c ∧ l_agent run = a
      | EStore _ =>
          L' !! r = L !! r ∨ ∃ run, L' !! r = Some run ∧ l_command run = c ∧ l_terminal run = None
      end
  | None => L' !! r = L !! r ∨ ∃ run, L' !! r = Some run ∧ l_command run = c
  end.

Lemma run_ends_recorded self c a r L w w' res :
  run_ends self c a r L w w' res →
  ∃ L', stands_for (store w') L' ∧ rtc any_step L L' ∧ outcome_recorded r c a L L' res.
Proof.
  intros [result (<- & _ & L' & run & [] & Hro)|e He|(st & t & k & L' & run & [])|res' L' [Hs HS _ _] Hre].
  - exists L'. split_and!; [done..|]. cbn. eauto 10.
  - destruct e; cbn in He; try done; [destruct He as (k & L' & run & [])..|destruct He as (st & k & (L' & run & []) & _)];
      exists L'; (split_and!; [done..|]); cbn; eauto 10.
  - exists L'. split_and!; [done..|]. cbn. eauto.
  - exists L'. split_and!; [done|by eapply other_steps_any|]. pose proof (other_steps_keep _ _ _ HS) as Hk.
    destruct res' as [[result|[]]|]; cbn in *; naive_solver.
Qed.

(** ** Submitting a command again *)

(** A store that works, shared with other engines. *)
Record healthy env : Prop := {
  he_choices : ∀ n, failure (choices env n) = None;
  he_dropped : ∀ n, dropped env n = None;
  he_others : ∀ n s L, stands_for s L → ∃ L', stands_for (others env n s) L' ∧ rtc any_step L L';
}.

Lemma rerun_replays env self L w r run out :
  healthy env → stands_for (store w) L → L !! r = Some run →
  l_terminal run = Some (TCompleted out) → rounds_of (l_events run) ≤ u32_max →
  ∃ w', engine_run env self (l_command run) (l_agent run) w =
          (Some (Ok (MkAgentRunResult r out (rounds_of (l_events run)))), w') ∧
    asked w' = asked w ∧ executed w' = executed w.
Proof.
  intros [Hch Hdr Hot] Hs Hr Ht Hle. unfold engine_run, replay_completed, store_load, mbind, Eng_bind, call. rewrite Hdr.
  assert (∀ n s L, stands_for s L → L !! r = Some run →
    ∃ L', stands_for (others env n s) L' ∧ L' !! r = Some run) as Hkeep.
  { intros n s L1 Hs1 Hr1. destruct (Hot n s L1 Hs1) as (L' & Hs' & HS).
    destruct (steps_run_le _ _ _ _ HS Hr1) as (run' & Hr' & _ & _ & _ & Hfin). exists L'. split; [done|].
    rewrite Hr', Hfin; [done|by eexists]. }
  destruct (Hkeep (moment w) _ _ Hs Hr) as (L1 & Hs1 & Hr1).
  rewrite (admit_recognises _ _ _ _ _ Hs1 (Hch _) Hr1), Hdr. cbn [store moment tick with_store].
  destruct (Hkeep (1 + moment w)%nat _ _ Hs1 Hr1) as (L2 & Hs2 & Hr2). rewrite Hdr.
  destruct (Hkeep (1 + (1 + moment w))%nat _ _ Hs2 Hr2) as (L3 & Hs3 & Hr3).
  destruct (load_succeeds (choices env (1 + (1 + moment w))%nat) _ _ L2 L3 r Hs2 Hs3 (Hch _)) as (tr & Htr); [by eexists..|].
  rewrite Htr. apply (load_simulates _ _ _ _ _ L2 L3 Hs2 Hs3) in Htr; [|by eexists].
  inversion Htr as [run3 later tr' Hr4 Hr5 _ _ _ Ht3 _ Hk _ _|]; simplify_eq.
  rewrite Ht3, Ht.
  rewrite count_requested, Hk, (proj2 (Z.leb_le _ _) Hle). by eexists.
Qed.

(** ** Theorems *)

(** C11. Every way [Engine::run] returns, or is dropped, shows in the run ledger it
    shares with other engines. A result is the output and the number of model
    rounds of a completed run of exactly this command and agent; cancellation,
    a model error, a failed capability task, too many calls and too many rounds
    end the run it admitted with the reason it returns; a conflict and a
    command in progress name a run of that command; a storage error leaves the
    admitted run open. *)
Theorem run_outcome_recorded env self c a L w res w' :
  stands_for (store w) L → shares env (fresh_run (choices env (moment w))) →
  input_ok (input c) = true → 0 ≤ max_model_rounds (config self) →
  engine_run env self c a w = (res, w') →
  ∃ L', stands_for (store w') L' ∧ rtc any_step L L' ∧
    outcome_recorded (fresh_run (choices env (moment w))) c a L L' res.
Proof. intros Hs Hsh Hi Hm HE. eapply run_ends_recorded, engine_run_ends; done. Qed.

(** C12. A call of [Engine::run] keeps the ledger well formed, even when its future
    is dropped at any store call: the events of every run are a conversation
    (numbered rounds, each response followed by the requests of all its calls
    and their completions in order, one terminal event that agrees with the
    terminal state), no two runs have the same command, no event is ever
    removed, and a finished run never changes again. *)
Theorem run_keeps_ledger env self c a L w res w' :
  ledger_wf L → stands_for (store w) L → shares env (fresh_run (choices env (moment w))) →
  input_ok (input c) = true → 0 ≤ max_model_rounds (config self) →
  engine_run env self c a w = (res, w') →
  ∃ L', stands_for (store w') L' ∧ ledger_wf L' ∧
    ∀ r run, L !! r = Some run → ∃ run', L' !! r = Some run' ∧ run_le run run'.
Proof.
  intros HW Hs Hsh Hi Hm HE.
  destruct (run_ends_recorded self c a (fresh_run (choices env (moment w))) L w w' res) as (L' & Hs' & HS & _).
  { by eapply engine_run_ends. }
  exists L'. split_and!; [done|by eapply steps_wf|]. intros r run. by apply steps_run_le.
Qed.

(** C10. Whatever way a call ends, the model was asked for the rounds 0, 1, 2, .. of
    the run it admitted, each after its request was recorded, and every
    capability it executed was granted to the agent, was called by a recorded
    response that was not truncated, and had its own request recorded before;
    a call that admitted no run asked for nothing and executed nothing. *)
Theorem effects_recorded_first env self c a L w res w' :
  stands_for (store w) L → shares env (fresh_run (choices env (moment w))) →
  input_ok (input c) = true → 0 ≤ max_model_rounds (config self) →
  engine_run env self c a w = (res, w') →
  let r := fresh_run (choices env (moment w)) in
  ∃ L', stands_for (store w') L' ∧ rtc any_step L L' ∧
    ∃ qs xs, asked w' = asked w ++ qs ∧ executed w' = executed w ++ xs ∧
      (qs = [] ∧ xs = [] ∨
       ∃ run, L' !! r = Some run ∧ l_command run = c ∧ l_agent run = a ∧
         mreq_round <$> qs = seqZ 0 (Z.of_nat (length qs)) ∧ Forall (λ q, mreq_run_id q = r) qs ∧
         Z.of_nat (length qs) ≤ rounds_of (l_events run) ∧ Forall (recorded self r a run) xs).
Proof. intros Hs Hsh Hi Hm HE r. eapply run_ends_ledger, engine_run_ends; done. Qed.

(** C13. Submitting a command again is safe: once a call returned a result, any
    later call with the same command and agent, on any engine over a ledger
    that other engines moved on, returns the same result and neither asks the
    model nor executes a capability. *)
Theorem rerun_returns_same_result env self c a L w result w' :
  stands_for (store w) L → shares env (fresh_run (choices env (moment w))) →
  input_ok (input c) = true → 0 ≤ max_model_rounds (config self) ≤ u32_max →
  engine_run env self c a w = (Some (Ok result), w') →
  ∃ L', stands_for (store w') L' ∧
    ∀ env2 self2 L2 w2, rtc any_step L' L2 → stands_for (store w2) L2 → healthy env2 →
      ∃ w2', engine_run env2 self2 c a w2 = (Some (Ok result), w2') ∧
        asked w2' = asked w2 ∧ executed w2' = executed w2.
Proof.
  intros Hs Hsh Hi Hm HE.
  assert (∃ L' run, stands_for (store w') L' ∧ L' !! run_id result = Some run ∧ l_command run = c ∧ l_agent run = a ∧
    l_terminal run = Some (TCompleted (output result)) ∧ model_rounds result = rounds_of (l_events run) ∧
    model_rounds result ≤ u32_max) as (L' & run & Hs' & Hr & <- & <- & Ht & Hro & Hle).
  { apply (engine_run_ends env self c a _ L w Hs eq_refl Hsh Hi) in HE; [|lia].
    inversion HE as [? (<- & Hb & L' & run & [] & Hro)| | |? L' [] Hre]; simplify_eq.
    - exists L', run. split_and!; (done || lia).
    - destruct Hre as (run & ?). exists L', run. naive_solver. }
  exists L'. split; [done|]. intros env2 self2 L2 w2 HS Hs2 Hhe.
  destruct (steps_run_le _ _ _ _ HS Hr) as (run2 & Hr2 & _ & _ & _ & Hfin).
  rewrite (Hfin ltac:(by eexists)) in Hr2.
  destruct (rerun_replays env2 self2 L2 w2 _ _ _ Hhe Hs2 Hr2 Ht) as (w2' & HE2 & ? & ?); [lia|].
  exists w2'. split_and!; [|done..]. rewrite HE2. destruct result as [r out n]. cbn in *. by rewrite Hro.
Qed.
End run.

(** ** Instances *)
Section instances.
Import RunJson.

Lemma run1_ends :
  engine_run (env1 None) engine1 command1 agent1 world0 =
    (Some (Ok (MkAgentRunResult (MkRid 7) "done" 2)), world1).
Proof. unfold world1. rewrite <- run1_result. apply surjective_pairing. Qed.

Lemma run_outcome_recorded_witness :
  ∃ L', represents (store world1) L' ∧
    outcome_recorded (MkRid 7) command1 agent1 ∅ L' (Some (Ok (MkAgentRunResult (MkRid 7) "done" 2))).
Proof.
  destruct (run_outcome_recorded (RLaws := sqlite_store_laws) (env1 None) engine1 command1 agent1 ∅ world0 _ _
    opened_represents (env1_shares _ _) eq_refl ltac:(done) run1_ends) as (L' & ? & _ & ?). eauto.
Defined.

Lemma run_keeps_ledger_witness : ∃ L', represents (store world1) L' ∧ ledger_wf L'.
Proof.
  destruct (run_keeps_ledger (RLaws := sqlite_store_laws) (env1 None) engine1 command1 agent1 ∅ world0 _ _ ledger_wf_empty
    opened_represents (env1_shares _ _) eq_refl ltac:(done) run1_ends) as (L' & ? & ? & _). eauto.
Defined.

Lemma effects_recorded_first_witness :
  ∃ L' run, represents (store world1) L' ∧ L' !! MkRid 7 = Some run ∧
    Forall (recorded engine1 (MkRid 7) agent1 run) (executed world1) ∧ length (executed world1) = 1%nat.
Proof.
  destruct (effects_recorded_first (RLaws := sqlite_store_laws) (env1 None) engine1 command1 agent1 ∅ world0 _ _
    opened_represents (env1_shares _ _) eq_refl ltac:(done) run1_ends)
    as (L' & Hs & _ & qs & xs & _ & Hx & Hc). exists L'.
  assert (xs = executed world1) as -> by (rewrite Hx; reflexivity).
  destruct Hc as [[_ HE]|(run & ? & _ & _ & _ & _ & _ & ?)].
  - exfalso. revert HE. vm_compute. discriminate.
  - exists run. split_and!; [done..|]. vm_compute. reflexivity.
Defined.

Lemma env1_healthy : healthy (env1 None).
Proof. split; [done..|]. intros n s L Hs. by exists L. Qed.

Lemma rerun_returns_same_result_witness :
  ∃ L', represents (store world1) L' ∧
    ∀ env2 self2 L2 w2, rtc any_step L' L2 → represents (store w2) L2 → healthy env2 →
      ∃ w2', engine_run env2 self2 command1 agent1 w2 =
               (Some (Ok (MkAgentRunResult (MkRid 7) "done" 2)), w2') ∧
        asked w2' = asked w2 ∧ executed w2' = executed w2.
Proof.
  exact (rerun_returns_same_result (RLaws := sqlite_store_laws) (env1 None) engine1 command1 agent1 ∅ world0 _ _
    opened_represents (env1_shares _ _) eq_refl ltac:(done) run1_ends).
Defined.
End instances.

(** * The SQLite run ledger: theorems *)
Section store.
Context `{RS : RunSerde} `{LT : LibraryTexts} `{!RunSerdeLaws}.

(** A finished or unmoved run is read whole. *)
Lemma read_whole r L L' run res : rtc any_step L L' → L !! r = Some run → is_Some (l_terminal run) ∨ L' !! r = Some run →
  transcribes r L L' res → transcribes r L L res.
Proof.
  intros HS Hr Hsame HT. destruct HT as [run' later tr Hr' Hl|e]; [|apply transcribes_error].
  destruct (steps_run_le _ _ _ _ HS Hr) as (run2 & Hr2 & _ & _ & _ & Hfin).
  assert (later = run) as -> by (destruct Hsame as [?|?]; [rewrite (Hfin ltac:(done)) in Hr2|]; congruence).
  assert (run' = run) as -> by congruence. by apply transcribes_run with run run.
Qed.

(** C14. The SQLite run store implements the abstract ledger: every operation on a
    database that stands for a ledger is the operation of the ledger with the
    same result. Admission is by command identity and happens once, appending
    and finishing need an open run, and an operation that returns an error
    changes nothing. A transcript is read by two statements between which
    other engines may write: it is the run as it was at the first, with the
    events it had at the second, numbered from zero. Those begin with the
    events it had at the first, and it is exactly the run with its events when
    the run had already ended, or was the same at both; a run that was being
    finished meanwhile can read as open with a terminal event. *)
Theorem sqlite_refines_ledger ch db L :
  represents db L →
  (∀ c a, input_ok (input c) = true →
     ∃ L', admits c a L (admit_run ch c a db).1 L' ∧ represents (admit_run ch c a db).2 L') ∧
  (∀ r es, forallb kind_ok es = true →
     ∃ L', appends r es L (append_events ch r es db).1 L' ∧ represents (append_events ch r es db).2 L') ∧
  (∀ r t, ∃ L', finishes r t L (finish_run ch r t db).1 L' ∧ represents (finish_run ch r t db).2 L') ∧
  (∀ r db' L', represents db' L' → rtc any_step L L' →
     transcribes r L L' (load_transcript ch r db db') ∧
     (∀ run, L !! r = Some run →
        (∃ later, L' !! r = Some later ∧ l_events run `prefix_of` l_events later) ∧
        (is_Some (l_terminal run) ∨ L' !! r = Some run → transcribes r L L (load_transcript ch r db db')))).
Proof.
  intros HR. split_and!.
  - intros c a Hi. eapply sqlite_admit; [done..|]. apply surjective_pairing.
  - intros r es Hok. eapply sqlite_append; [done..|]. apply surjective_pairing.
  - intros r t. eapply sqlite_finish; [done|]. apply surjective_pairing.
  - intros r db' L' HR' HS.
    assert (transcribes r L L' (load_transcript ch r db db')) as HT.
    { eapply sqlite_load; [done..| |done]. intros [run Hr].
      destruct (steps_run_le _ _ _ _ HS Hr) as (run2 & -> & _). done. }
    split; [done|]. intros run Hr. split; [|by intros; eapply read_whole].
    destruct (steps_run_le _ _ _ _ HS Hr) as (run2 & Hr2 & _ & _ & Hpre & _). eauto.
Qed.

(** C15. A store that works does what it is asked: with a clock, unused identities
    and values that can be written, a new command is admitted, an open run
    takes further events and its terminal state, a known command is recognised
    and every run is read back, until the sequence would leave 63 bits. *)
Theorem sqlite_progress ch db L :
  represents db L → fresh_choice ch db →
  (∀ c a, input_ok (input c) = true → is_Some (to_string c) → is_Some (to_string a) →
     is_Some (to_string (RunStarted c a)) →
     (∀ r run, L !! r = Some run → command_id (l_command run) ≠ command_id c) →
     (admit_run ch c a db).1 = Ok (RunAdmitted (fresh_run ch))) ∧
  (∀ r run, L !! r = Some run →
     admit_run ch (l_command run) (l_agent run) db = (Ok (Existing r), db) ∧
     (∀ db' L', represents db' L' → is_Some (L' !! r) → ∃ tr, load_transcript ch r db db' = Ok tr) ∧
     (l_terminal run = None →
      (∀ es, forallb kind_ok es = true → Forall (λ k, is_Some (to_string k)) es →
         Z.of_nat (length (l_events run) + length es) ≤ i64_max → (append_events ch r es db).1 = Ok tt) ∧
      (∀ t, is_Some (to_string t) → is_Some (to_string (RunTerminated t)) →
         Z.of_nat (length (l_events run)) + 1 ≤ i64_max → (finish_run ch r t db).1 = Ok tt))).
Proof.
  intros HR HF. split.
  - intros c a Hi H1 H2 H3 Hn. by destruct (admit_runs ch c a db L) as (db' & ->).
  - intros r run HL. destruct HF as [Hfa Hcl Hru Hev Hdi] eqn:EF. split_and!.
    + by apply (sqlite_recognises ch db L).
    + intros db' L' HR' HL'. by eapply sqlite_load_succeeds.
    + intros Hte. split.
      * intros es Hok Hw Hle. by destruct (append_run ch r es db L run) as (db' & ->).
      * intros t H1 H2 Hle. by destruct (finish_run_runs ch r t db L run) as (db' & ->).
Qed.

(** Opening a ledger: a new file stands for the empty ledger, a current one is
    left as it is, and a database from before commands had a column of their
    own keeps its ledger, every run now found by its command; when two of its
    runs have the same command, opening fails and changes nothing. *)
Theorem opening_keeps_ledger :
  (∃ db, initialize None empty_file = (Ok tt, db) ∧ represents db ∅) ∧
  (∀ db L, represents db L → initialize None db = (Ok tt, db)) ∧
  (∀ db L, legacy db L →
     (∀ r1 run1 r2 run2, L !! r1 = Some run1 → L !! r2 = Some run2 →
        command_id (l_command run1) = command_id (l_command run2) → r1 = r2) →
     ∃ db', initialize None db = (Ok tt, db') ∧ represents db' L) ∧
  (∀ db L r1 run1 r2 run2, legacy db L → L !! r1 = Some run1 → L !! r2 = Some run2 → r1 ≠ r2 →
     command_id (l_command run1) = command_id (l_command run2) →
     ∃ e, initialize None db = (Err e, db)).
Proof.
  split_and!; [apply empty_represents|apply reopen_represents|apply legacy_represents|apply legacy_duplicate].
Qed.

(** Reading after a cursor returns exactly the events that follow it: those
    already acknowledged are skipped, none is missing, and their sequence
    numbers continue where the cursor stopped. *)
Theorem events_after_exact ch db L r run after :
  represents db L → failure ch = None → L !! r = Some run → (∀ a, after = Some a → 0 ≤ a ≤ i64_max) →
  let c := acknowledged after (length (l_events run)) in
  ∃ evs, load_events_after ch r after db = Ok evs ∧
    kind <$> evs = drop (Z.to_nat c) (l_events run) ∧
    sequence <$> evs = seqZ c (Z.of_nat (length (l_events run)) - c).
Proof. apply sqlite_events_after. Qed.
End store.

(** ** Instances *)
Section instances.
Import RunJson.

Definition choice1 : StoreChoice := MkStoreChoice None (Ok 1) (MkRid 7) (λ i, MkRid (N.of_nat i)).

Lemma opened_choice : fresh_choice choice1 opened.
Proof.
  split; [done|by exists 1|done|done|]. cbn. intros i j [= E]. lia.
Qed.

Lemma sqlite_refines_ledger_witness :
  (admit_run choice1 command1 agent1 opened).1 = Ok (RunAdmitted (MkRid 7)) ∧
  ∃ L', admits command1 agent1 ∅ (admit_run choice1 command1 agent1 opened).1 L' ∧
    represents (admit_run choice1 command1 agent1 opened).2 L'.
Proof.
  split; [vm_compute; reflexivity|].
  by apply (sqlite_refines_ledger choice1 opened ∅ opened_represents).
Defined.

Lemma sqlite_progress_witness :
  (admit_run choice1 command1 agent1 opened).1 = Ok (RunAdmitted (MkRid 7)).
Proof.
  apply (sqlite_progress choice1 opened ∅ opened_represents opened_choice); try done.
Defined.

Lemma opened_run1 : represents (admit_run choice1 command1 agent1 opened).2 {[ MkRid 7 := new_run command1 agent1 ]}.
Proof.
  destruct (sqlite_admit choice1 command1 agent1 opened _ _ ∅ opened_represents eq_refl (surjective_pairing _))
    as (L' & HA & HR).
  assert ((admit_run choice1 command1 agent1 opened).1 = Ok (RunAdmitted (MkRid 7))) as E by (vm_compute; reflexivity).
  rewrite E in HA. inversion HA; simplify_eq. done.
Qed.

(** A run that is finished between the two statements of a reading. *)
Definition admitted1 : RunDb := (admit_run choice1 command1 agent1 opened).2.
Definition choice2 : StoreChoice := MkStoreChoice None (Ok 2) (MkRid 8) (λ i, MkRid (100 + N.of_nat i)).
Lemma transcript_torn :
  match load_transcript choice1 (MkRid 7) admitted1 (finish_run choice2 (MkRid 7) (TFailed "no") admitted1).2 with
  | Ok tr => rec_status (transcript_run tr) = Open ∧ rec_terminal (transcript_run tr) = None ∧
             kind <$> events tr = [RunStarted command1 agent1; RunTerminated (TFailed "no")]
  | Err _ => False
  end.
Proof. by vm_compute. Qed.

Lemma events_after_exact_witness :
  ∃ evs, load_events_after choice1 (MkRid 7) None (admit_run choice1 command1 agent1 opened).2 = Ok evs ∧
    kind <$> evs = [RunStarted command1 agent1] ∧ sequence <$> evs = [0].
Proof.
  apply (events_after_exact choice1 _ _ (MkRid 7) (new_run command1 agent1) None opened_run1); [done| |done].
  apply lookup_singleton_eq.
Defined.
End instances.
