(* ===== verification/Control.v ===== *)
(** * The coordinator's data ([renoa-control])

    The errors and task specifications of [coordinator.rs], the records and
    outcomes of [operations.rs], and the decisions that look only at them: the
    class of a terminal ([task_status.rs]), whether a record wakes the owner
    ([push_wake.rs]), which advertised targets are valid ([task_opening.rs])
    and the identities derived for threads and replies ([agent_messages.rs]). *)
From S2P Require Import Prelude Json Text Protocol.
(** ** Errors ([coordinator.rs]) *)
Inductive ControlErrorKind :=
| KindAuthentication | KindCapacity | KindConflict | KindInvalid | KindNodeOffline | KindNotFound
| KindRole | KindStore.
#[global] Instance ControlErrorKind_eq_dec : EqDecision ControlErrorKind.
Proof. solve_decision. Defined.

Record ControlError := MkControlError { error_kind : ControlErrorKind; error_message : string }.

Definition authentication_failed : ControlError := MkControlError KindAuthentication "authentication failed".
Definition capacity : string → ControlError := MkControlError KindCapacity.
Definition conflict : string → ControlError := MkControlError KindConflict.
Definition invalid : string → ControlError := MkControlError KindInvalid.
Definition node_offline_with : string → ControlError := MkControlError KindNodeOffline.
Definition node_offline : ControlError := node_offline_with "the task's execution node is offline".
Definition not_found : string → ControlError := MkControlError KindNotFound.
Definition role_error : string → ControlError := MkControlError KindRole.
Definition store_error : string → ControlError := MkControlError KindStore.

Inductive ErrorCode :=
| AuthenticationFailed | InvalidMessage | InvalidRole | CodeNodeOffline | CodeNotFound | CodeConflict
| Internal | ReplayRequired | VersionMismatch.
#[global] Instance ErrorCode_eq_dec : EqDecision ErrorCode.
Proof. solve_decision. Defined.

Definition protocol_code (e : ControlError) : ErrorCode :=
  match error_kind e with
  | KindAuthentication => AuthenticationFailed
  | KindCapacity | KindStore => Internal
  | KindConflict => CodeConflict
  | KindInvalid => InvalidMessage
  | KindNodeOffline => CodeNodeOffline
  | KindNotFound => CodeNotFound
  | KindRole => InvalidRole
  end.

(** The code and text a peer is sent ([wire.rs]): internal errors are hidden. *)
Definition sent_error (e : ControlError) : ErrorCode * string :=
  let code := protocol_code e in
  (code, if decide (code = Internal) then "internal coordinator error" else error_message e).

(** ** Records ([operations.rs], [store.rs]) *)
Record TaskSpec := MkTaskSpec {
  task_id : TaskId;
  task_principal : PrincipalId;
  task_node : NodeId;
  task_target : TargetRef;
}.
Record StoredTask := MkStoredTask {
  stored_principal : PrincipalId; stored_node : NodeId; stored_target : TargetRef }.

Inductive TaskStatus := Working | Idle | StatusFailed.
#[global] Instance TaskStatus_eq_dec : EqDecision TaskStatus.
Proof. solve_decision. Defined.

(** [TaskStatus::after]. *)
Definition after (t : ExecutionTerminal) : TaskStatus :=
  match t with ExecutionCompleted | ExecutionCancelled _ => Idle | ExecutionFailed _ => StatusFailed end.

Record TaskSummary := MkTaskSummary {
  summary_task : TaskId; summary_target : TargetRef; summary_status : TaskStatus;
  summary_through : option Z }.

Inductive StopOutcome := StopRequested | StopAlreadyEnded.
Inductive StopAdmission := AlreadyEnded | Recorded (delivered : bool).
Record PendingStop := MkPendingStop { ps_task : TaskId; ps_command : CommandId }.
Record PendingExecution := MkPendingExecution { pe_task : TaskId; pe_command : CommandEnvelope }.

Inductive WakeUrgency := Soon | Now.
#[global] Instance WakeUrgency_eq_dec : EqDecision WakeUrgency.
Proof. solve_decision. Defined.
Record OwedWake := MkOwedWake { owed_principal : PrincipalId; owed_generation : Z; owed_ring : option Z }.

Inductive Availability := Advertised | NodeOffline | NotAdvertised.
Inductive Opening := Opened | OpeningExisting.

Section records.
Context `{JV : JsonValue}.

#[global] Instance ExecutionEventKind_eq_dec : EqDecision ExecutionEventKind.
Proof. solve_decision. Defined.
#[global] Instance ExecutionEvent_eq_dec : EqDecision ExecutionEvent.
Proof. solve_decision. Defined.

Inductive TaskEventKind :=
| CommandSubmitted (command : CommandEnvelope)
| ExecutionRecord (command_id : CommandId) (event : ExecutionEvent).   (* [ExecutionEvent] *)
#[global] Instance TaskEventKind_eq_dec : EqDecision TaskEventKind.
Proof. solve_decision. Defined.

Record TaskEvent := MkTaskEvent {
  te_event_id : TaskEventId; te_task_id : TaskId; te_sequence : Z; te_kind : TaskEventKind }.
Record TaskSuffix := MkTaskSuffix { through : option Z; suffix_events : list TaskEvent }.

Inductive CommandAdmission :=
| NotAdmitted
| CommandAdmitted (command : CommandEnvelope) (event : TaskEvent)
| CommandExisting (command : CommandEnvelope) (pending : bool).

(** A reply admitted in the asker's task ([agent_replies.rs]). *)
Record AgentReply := MkAgentReply {
  reply_task : TaskId; reply_from_task : TaskId; reply_node : NodeId;
  reply_command : CommandEnvelope; reply_event : TaskEvent }.

Record ExecutionEventAdmission := MkExecutionEventAdmission {
  through_execution_sequence : Z; admitted_events : list TaskEvent; reply : option AgentReply }.

(** ** Which records wake ([push_wake.rs]) *)
Definition wake_reason (k : TaskEventKind) : option string :=
  match k with
  | CommandSubmitted _ => None
  | ExecutionRecord _ event =>
      match x_kind event with
      | AssistantMessage text => if negb (is_empty (trim text)) then Some "assistant_message" else None
      | ExecutionTerminated (ExecutionFailed _) => Some "execution_failed"
      | ExecutionStarted | TurnStarted | ToolStarted _ _ _ | ToolFinished _ _ _
      | ExecutionTerminated (ExecutionCompleted | ExecutionCancelled _) => None
      end
  end.

Definition is_terminated (k : ExecutionEventKind) : bool :=
  match k with ExecutionTerminated _ => true | _ => false end.
Definition is_started (k : ExecutionEventKind) : bool :=
  match k with ExecutionStarted => true | _ => false end.

(** ** Peers ([operations.rs]) *)
Inductive PeerIdentity := PeerSurface (principal : PrincipalId) (surface : SurfaceRef) | PeerNode (node : NodeId).
#[global] Instance PeerIdentity_eq_dec : EqDecision PeerIdentity.
Proof. solve_decision. Defined.

(** ** Agent messages ([agent_messages.rs]) *)
Record OutgoingMessage := MkOutgoingMessage {
  msg_from_command : CommandId; message_id : CommandId; to_node : NodeId; to_target : TargetRef;
  msg_text : string }.

Inductive MessageAdmission :=
| MessageAdmitted (task : TaskId) (from_task : TaskId) (command : CommandEnvelope) (event : TaskEvent)
| MessageExisting (task : TaskId) (from_task : TaskId) (command : CommandEnvelope) (pending : bool).
End records.

Definition MAX_CHAIN_DEPTH : Z := 100.
Definition MAX_MESSAGE_BYTES : Z := 64 * 1024.
Definition AGENT_SURFACE : SurfaceRef := "agent".

(** SHA-256 of the sha2 crate: the 32 bytes of a digest. *)
Class Digest := sha256_bytes : string → string.

(** Bytes as a big-endian number. *)
Definition be_number (bytes : string) : N :=
  foldl (λ n a, (n * 256 + Ascii.N_of_ascii a)%N) 0%N (String.list_ascii_of_string bytes).

Section derived.
Context `{DG : Digest}.

(** The UUID of the digest's first 16 bytes. *)
Definition derived_id (value : string) : N := be_number (String.substring 0 16 (sha256_bytes value)).

Definition thread_task_id (principal : PrincipalId) (from to : NodeId * TargetRef) : TaskId :=
  MkRid (derived_id ("renoa.agent.thread.v1:" +:+ show_id principal +:+ ":" +:+ show_id from.1 +:+ ":" +:+
    from.2 +:+ ":" +:+ show_id to.1 +:+ ":" +:+ to.2)).

(** The identity [admit_reply] gives the answer to a request. *)
Definition reply_id (request : CommandId) : CommandId :=
  MkRid (derived_id ("renoa.agent.reply.v1:" +:+ show_id request)).
End derived.

(** The text limits and the depth of a message in its chain. *)
Definition message_depth (source : CommandEnvelope) (m : OutgoingMessage) : Result ControlError Z :=
  if is_empty (trim (msg_text m))
  then Err (invalid "The message text is empty. Write what you want the other agent to know or do.")
  else if MAX_MESSAGE_BYTES <? len (msg_text m)
  then Err (invalid ("The message text is " +:+ show (len (msg_text m)) +:+ " bytes and the limit is " +:+
              show MAX_MESSAGE_BYTES +:+ ". Shorten it and send it again."))
  else
    let depth := Z.min (default 0 (depth <$> origin source) + 1) u32_max in
    if MAX_CHAIN_DEPTH <? depth
    then Err (invalid ("This exchange between agents has gone on too long and was stopped. Do not message another " +:+
                "agent about it; tell your owner what you were trying to do."))
    else Ok depth.

(** A reply's text, cut to the largest character boundary within the limit. *)
Definition bounded_text (text : string) : string :=
  truncate text (floor_boundary text (Z.to_nat (Z.min (len text) MAX_MESSAGE_BYTES))).

(** ** Advertised targets ([task_opening.rs]) *)
Definition MAX_ADVERTISED_TARGETS : Z := 256.

(** The loop over the cards; [seen] holds the targets before them. *)
Fixpoint check_targets (seen : gset string) (cards : list TargetCard) : Result ControlError unit :=
  match cards with
  | [] => Ok tt
  | card :: rest =>
      let target := card_target card in
      if negb (label_is_valid target)
      then Err (invalid ("an advertised target must be 1 to " +:+ show MAX_LABEL_BYTES +:+
                  " bytes without control characters"))
      else if negb (label_is_valid (card_name card))
      then Err (invalid ("the name of target `" +:+ target +:+ "` must be 1 to " +:+ show MAX_LABEL_BYTES +:+
                  " bytes without control characters"))
      else if decide (target ∈ seen)
      then Err (invalid ("target `" +:+ target +:+ "` was advertised more than once"))
      else check_targets ({[target]} ∪ seen) rest
  end.

(** [str::cmp] is the lexicographic order of bytes, as is [String.leb]. *)
Definition target_le (x y : TargetCard) : Prop := String.leb (card_target x) (card_target y) = true.
#[global] Instance target_le_dec x y : Decision (target_le x y).
Proof. unfold target_le. apply _. Defined.

Definition validate_targets (cards : list TargetCard) : Result ControlError (list TargetCard) :=
  if MAX_ADVERTISED_TARGETS <? Z.of_nat (length cards)
  then Err (invalid ("a node may advertise at most " +:+ show MAX_ADVERTISED_TARGETS +:+ " targets"))
  else _ ← check_targets ∅ cards; Ok (merge_sort target_le cards).

(** [nodes.get(..)] and the search for a card, as [open_task] does them. *)
Definition availability (cards : option (list TargetCard)) (target : TargetRef) : Availability :=
  match cards with
  | None => NodeOffline
  | Some cards => if existsb (λ card, String.eqb (card_target card) target) cards
                  then Advertised else NotAdvertised
  end.

(** [name_of]: the name a node advertises for a target, or the target. *)
Definition name_of (cards : option (list TargetCard)) (target : TargetRef) : string :=
  match cards ≫= List.find (λ card, String.eqb (card_target card) target) with
  | Some card => card_name card
  | None => target
  end.

(** * The coordinator's tables ([control_schema.rs])

    The tables of tasks, commands, the journal, deliveries, execution cursors,
    stops, node owners and wakes, and those of devices and browsers
    ([IdentityDb]), as finite maps from primary key to row, with
    the statements that write them. The [TEXT] column of an identity is the
    identity; a journal source, the text ["command:<id>"] or
    ["execution:<id>"], is the tagged identity. Implicit rowids are one more
    than the largest in the table. *)
From S2P Require Import Transaction.
Class ControlSerde `{JV : JsonValue} := {
  envelope_serde :: Serde CommandEnvelope;
  target_serde :: Serde TargetRef;
  kind_serde :: Serde TaskEventKind;
  peer_serde :: Serde PeerIdentity;
}.

(** Records whose text is read back: a submitted command's input is one a
    deserializer accepts. *)
Definition record_ok `{JsonLib} (k : TaskEventKind) : bool :=
  match k with CommandSubmitted c => input_ok (input c) | ExecutionRecord _ _ => true end.

Class ControlSerdeLaws `{CS : ControlSerde} : Prop := {
  envelope_read_back (c : CommandEnvelope) t :
    to_string c = Some t → input_ok (input c) = true → from_str t = Some c;
  target_laws :: SerdeLaws TargetRef;
  kind_read_back (k : TaskEventKind) t :
    to_string k = Some t → record_ok k = true → from_str t = Some k;
  peer_laws :: SerdeLaws PeerIdentity;
}.

(** ** Sources of journal records *)
Inductive Source := SourceCommand (c : CommandId) | SourceExecution (e : ExecutionEventId).
#[global] Instance Source_eq_dec : EqDecision Source.
Proof. solve_decision. Defined.

Definition source_text (s : Source) : string :=
  match s with
  | SourceCommand c => "command:" +:+ show_id c
  | SourceExecution e => "execution:" +:+ show_id e
  end.

(** ** Rows *)
Section tables.
Context `{JL : JsonLib}.

Record TaskRow := MkTaskRow {
  t_principal : PrincipalId; t_node : NodeId; t_target_json : Text; t_next_sequence : Z }.
Record CommandRow := MkCommandRow { k_rowid : Z; k_task : TaskId; k_json : Text }.
Record TaskEventRow := MkTaskEventRow {
  v_task : TaskId; v_sequence : Z; v_source : Source; v_kind_json : Text }.
Record StreamRow := MkStreamRow { s_execution : ExecutionId; s_next : Z; s_terminal : bool }.
Record StopRow := MkStopRow { stop_rowid : Z; stop_delivered : bool }.
Record WakeRow := MkWakeRow { generation : Z; settled_at : Z; ring_generation : Z }.
Record EnrollmentRow := MkEnrollmentRow { en_peer_json : Text; en_expires_at_ms : Z }.

Record DeviceRow := MkDeviceRow { d_credential_hash : string; d_peer_json : Text; d_revoked : bool }.
Record DeviceKeyRow := MkDeviceKeyRow {
  dk_principal : PrincipalId; dk_public_key : string; dk_label : string; dk_created_at_ms : Z }.
Record SignInRow := MkSignInRow { si_public_key : string; si_label : string; si_expires_at_ms : Z }.
Record PushTokenRow := MkPushTokenRow { pt_principal : PrincipalId; pt_provider : string; pt_token : string }.
Record NoticeKeyRow := MkNoticeKeyRow { nk_principal : PrincipalId; nk_public_key : string }.
Record NoticeRow := MkNoticeRow {
  no_device : DeviceId; no_principal : PrincipalId; no_node : NodeId; no_sealed : string; no_expires_at_ms : Z }.
Record BootstrapRow := MkBootstrapRow { bs_principal : PrincipalId; bs_expires_at_ms : Z }.
Record CeremonyRow := MkCeremonyRow {
  cy_principal : PrincipalId; cy_surface : SurfaceRef; cy_state_json : Text; cy_expires_at_ms : Z }.
Record PasskeyRow := MkPasskeyRow {
  pk_principal : PrincipalId; pk_json : Text; pk_counter : Z; pk_created_at_ms : Z }.
Record TicketRow := MkTicketRow { tk_principal : PrincipalId; tk_surface : SurfaceRef; tk_expires_at_ms : Z }.
Record SessionRow := MkSessionRow { se_principal : PrincipalId; se_credential : option string; se_expires_at_ms : Z }.
Record PairingRow := MkPairingRow { pa_principal : PrincipalId; pa_expires_at_ms : Z; pa_claimed : option string }.
Record ShareRow := MkShareRow { sh_principal : PrincipalId; sh_share : N; sh_expires_at_ms : Z }.

(** The tables of devices, browsers and the tokens that admit them. *)
Record IdentityDb := MkIdentityDb {
  enrollments : gmap string EnrollmentRow;
  devices : gmap DeviceId DeviceRow;
  device_keys : gmap DeviceId DeviceKeyRow;
  device_sign_ins : gmap N SignInRow;
  push_tokens : gmap DeviceId PushTokenRow;
  notice_keys : gmap DeviceId NoticeKeyRow;
  setup_notices : gmap N NoticeRow;
  passkey_bootstraps : gmap string BootstrapRow;
  registration_ceremonies : gmap N CeremonyRow;
  authentication_ceremonies : gmap N CeremonyRow;
  passkeys : gmap string PasskeyRow;
  connection_tickets : gmap string TicketRow;
  browser_sessions : gmap string SessionRow;
  browser_pairings : gmap string PairingRow;
  share_tickets : gmap string ShareRow;
}.
Definition empty_identity : IdentityDb := MkIdentityDb ∅ ∅ ∅ ∅ ∅ ∅ ∅ ∅ ∅ ∅ ∅ ∅ ∅ ∅ ∅.

Definition with_enrollments m (d : IdentityDb) : IdentityDb :=
  MkIdentityDb m (devices d) (device_keys d) (device_sign_ins d) (push_tokens d) (notice_keys d)
    (setup_notices d) (passkey_bootstraps d) (registration_ceremonies d) (authentication_ceremonies d)
    (passkeys d) (connection_tickets d) (browser_sessions d) (browser_pairings d) (share_tickets d).
Definition with_devices m (d : IdentityDb) : IdentityDb :=
  MkIdentityDb (enrollments d) m (device_keys d) (device_sign_ins d) (push_tokens d) (notice_keys d)
    (setup_notices d) (passkey_bootstraps d) (registration_ceremonies d) (authentication_ceremonies d)
    (passkeys d) (connection_tickets d) (browser_sessions d) (browser_pairings d) (share_tickets d).
Definition with_device_keys m (d : IdentityDb) : IdentityDb :=
  MkIdentityDb (enrollments d) (devices d) m (device_sign_ins d) (push_tokens d) (notice_keys d)
    (setup_notices d) (passkey_bootstraps d) (registration_ceremonies d) (authentication_ceremonies d)
    (passkeys d) (connection_tickets d) (browser_sessions d) (browser_pairings d) (share_tickets d).
Definition with_sign_ins m (d : IdentityDb) : IdentityDb :=
  MkIdentityDb (enrollments d) (devices d) (device_keys d) m (push_tokens d) (notice_keys d)
    (setup_notices d) (passkey_bootstraps d) (registration_ceremonies d) (authentication_ceremonies d)
    (passkeys d) (connection_tickets d) (browser_sessions d) (browser_pairings d) (share_tickets d).
Definition with_push_tokens m (d : IdentityDb) : IdentityDb :=
  MkIdentityDb (enrollments d) (devices d) (device_keys d) (device_sign_ins d) m (notice_keys d)
    (setup_notices d) (passkey_bootstraps d) (registration_ceremonies d) (authentication_ceremonies d)
    (passkeys d) (connection_tickets d) (browser_sessions d) (browser_pairings d) (share_tickets d).
Definition with_notice_keys m (d : IdentityDb) : IdentityDb :=
  MkIdentityDb (enrollments d) (devices d) (device_keys d) (device_sign_ins d) (push_tokens d) m
    (setup_notices d) (passkey_bootstraps d) (registration_ceremonies d) (authentication_ceremonies d)
    (passkeys d) (connection_tickets d) (browser_sessions d) (browser_pairings d) (share_tickets d).
Definition with_notices m (d : IdentityDb) : IdentityDb :=
  MkIdentityDb (enrollments d) (devices d) (device_keys d) (device_sign_ins d) (push_tokens d) (notice_keys d)
    m (passkey_bootstraps d) (registration_ceremonies d) (authentication_ceremonies d)
    (passkeys d) (connection_tickets d) (browser_sessions d) (browser_pairings d) (share_tickets d).
Definition with_bootstraps m (d : IdentityDb) : IdentityDb :=
  MkIdentityDb (enrollments d) (devices d) (device_keys d) (device_sign_ins d) (push_tokens d) (notice_keys d)
    (setup_notices d) m (registration_ceremonies d) (authentication_ceremonies d)
    (passkeys d) (connection_tickets d) (browser_sessions d) (browser_pairings d) (share_tickets d).
Definition with_registrations m (d : IdentityDb) : IdentityDb :=
  MkIdentityDb (enrollments d) (devices d) (device_keys d) (device_sign_ins d) (push_tokens d) (notice_keys d)
    (setup_notices d) (passkey_bootstraps d) m (authentication_ceremonies d)
    (passkeys d) (connection_tickets d) (browser_sessions d) (browser_pairings d) (share_tickets d).
Definition with_authentications m (d : IdentityDb) : IdentityDb :=
  MkIdentityDb (enrollments d) (devices d) (device_keys d) (device_sign_ins d) (push_tokens d) (notice_keys d)
    (setup_notices d) (passkey_bootstraps d) (registration_ceremonies d) m
    (passkeys d) (connection_tickets d) (browser_sessions d) (browser_pairings d) (share_tickets d).
Definition with_passkeys m (d : IdentityDb) : IdentityDb :=
  MkIdentityDb (enrollments d) (devices d) (device_keys d) (device_sign_ins d) (push_tokens d) (notice_keys d)
    (setup_notices d) (passkey_bootstraps d) (registration_ceremonies d) (authentication_ceremonies d)
    m (connection_tickets d) (browser_sessions d) (browser_pairings d) (share_tickets d).
Definition with_tickets m (d : IdentityDb) : IdentityDb :=
  MkIdentityDb (enrollments d) (devices d) (device_keys d) (device_sign_ins d) (push_tokens d) (notice_keys d)
    (setup_notices d) (passkey_bootstraps d) (registration_ceremonies d) (authentication_ceremonies d)
    (passkeys d) m (browser_sessions d) (browser_pairings d) (share_tickets d).
Definition with_sessions m (d : IdentityDb) : IdentityDb :=
  MkIdentityDb (enrollments d) (devices d) (device_keys d) (device_sign_ins d) (push_tokens d) (notice_keys d)
    (setup_notices d) (passkey_bootstraps d) (registration_ceremonies d) (authentication_ceremonies d)
    (passkeys d) (connection_tickets d) m (browser_pairings d) (share_tickets d).
Definition with_pairings m (d : IdentityDb) : IdentityDb :=
  MkIdentityDb (enrollments d) (devices d) (device_keys d) (device_sign_ins d) (push_tokens d) (notice_keys d)
    (setup_notices d) (passkey_bootstraps d) (registration_ceremonies d) (authentication_ceremonies d)
    (passkeys d) (connection_tickets d) (browser_sessions d) m (share_tickets d).
Definition with_share_tickets m (d : IdentityDb) : IdentityDb :=
  MkIdentityDb (enrollments d) (devices d) (device_keys d) (device_sign_ins d) (push_tokens d) (notice_keys d)
    (setup_notices d) (passkey_bootstraps d) (registration_ceremonies d) (authentication_ceremonies d)
    (passkeys d) (connection_tickets d) (browser_sessions d) (browser_pairings d) m.

Record ControlDb := MkControlDb {
  tasks : gmap TaskId TaskRow;
  commands : gmap CommandId CommandRow;
  task_events : gmap TaskEventId TaskEventRow;
  pending_executions : gmap CommandId Z;
  streams : gmap CommandId StreamRow;
  stop_requests : gmap CommandId StopRow;
  node_owners : gmap NodeId PrincipalId;
  identity : IdentityDb;
  push_wakes : gmap PrincipalId WakeRow;
  push_wake_requests : gmap (PrincipalId * N) Z;
}.

(** A new database file after [create_continuity_schema], [create_push_schema]
    and [node_ownership::create_schema]. *)
Definition empty_control : ControlDb := MkControlDb ∅ ∅ ∅ ∅ ∅ ∅ ∅ empty_identity ∅ ∅.

Definition with_tasks m (d : ControlDb) : ControlDb :=
  MkControlDb m (commands d) (task_events d) (pending_executions d) (streams d) (stop_requests d)
    (node_owners d) (identity d) (push_wakes d) (push_wake_requests d).
Definition with_commands m (d : ControlDb) : ControlDb :=
  MkControlDb (tasks d) m (task_events d) (pending_executions d) (streams d) (stop_requests d)
    (node_owners d) (identity d) (push_wakes d) (push_wake_requests d).
Definition with_task_events m (d : ControlDb) : ControlDb :=
  MkControlDb (tasks d) (commands d) m (pending_executions d) (streams d) (stop_requests d)
    (node_owners d) (identity d) (push_wakes d) (push_wake_requests d).
Definition with_pending m (d : ControlDb) : ControlDb :=
  MkControlDb (tasks d) (commands d) (task_events d) m (streams d) (stop_requests d)
    (node_owners d) (identity d) (push_wakes d) (push_wake_requests d).
Definition with_streams m (d : ControlDb) : ControlDb :=
  MkControlDb (tasks d) (commands d) (task_events d) (pending_executions d) m (stop_requests d)
    (node_owners d) (identity d) (push_wakes d) (push_wake_requests d).
Definition with_stops m (d : ControlDb) : ControlDb :=
  MkControlDb (tasks d) (commands d) (task_events d) (pending_executions d) (streams d) m
    (node_owners d) (identity d) (push_wakes d) (push_wake_requests d).
Definition with_owners m (d : ControlDb) : ControlDb :=
  MkControlDb (tasks d) (commands d) (task_events d) (pending_executions d) (streams d) (stop_requests d)
    m (identity d) (push_wakes d) (push_wake_requests d).
Definition with_identity m (d : ControlDb) : ControlDb :=
  MkControlDb (tasks d) (commands d) (task_events d) (pending_executions d) (streams d) (stop_requests d)
    (node_owners d) m (push_wakes d) (push_wake_requests d).
Definition with_wakes m (d : ControlDb) : ControlDb :=
  MkControlDb (tasks d) (commands d) (task_events d) (pending_executions d) (streams d) (stop_requests d)
    (node_owners d) (identity d) m (push_wake_requests d).
Definition with_wake_requests m (d : ControlDb) : ControlDb :=
  MkControlDb (tasks d) (commands d) (task_events d) (pending_executions d) (streams d) (stop_requests d)
    (node_owners d) (identity d) (push_wakes d) m.

Definition next_rowid {V} (rowid : V → Z) {K} `{Countable K} (m : gmap K V) : Z :=
  map_fold (λ _ v n, Z.max (rowid v) n) 0 m + 1.

(** The view [command_states]: a command has settled when its execution stream
    reached a terminal record. *)
Definition settled (d : ControlDb) (c : CommandId) : bool :=
  match streams d !! c with Some s => s_terminal s | None => false end.
End tables.

Abbreviation CTx := (Tx ControlDb ControlError).
Abbreviation ITx := (Tx IdentityDb ControlError).

(** A transaction on the identity tables alone. *)
Definition identity_tx `{JsonLib} {A} (m : ITx A) : CTx A := λ db,
  match m (identity db) with Ok (a, i) => Ok (a, with_identity i db) | Err e => Err e end.

Lemma identity_tx_ok `{JsonLib} {A} (m : ITx A) a db db' :
  identity_tx m db = Ok (a, db') ↔ ∃ i, m (identity db) = Ok (a, i) ∧ db' = with_identity i db.
Proof. unfold identity_tx. destruct (m (identity db)) as [[? ?]|]; naive_solver. Qed.

(** What a transaction takes from its surroundings: a failure of the
    connection, the commit or the worker, and the identities it draws, each
    in the state the transaction has reached. *)
Record ControlChoice `{JsonLib} := MkControlChoice {
  control_failure : option ControlError;
  new_event_id : ControlDb → TaskEventId;
}.
Arguments MkControlChoice {_} _ _.

Section statements.
Context `{CS : ControlSerde} `{LT : LibraryTexts}.

(** ** Errors and columns ([store.rs]) *)
Definition sqlite_error (error : string) : ControlError := store_error ("SQLite error: " +:+ error).
Definition json_error : ControlError := store_error ("control serialization error: " +:+ json_failed).
Definition task_not_found (t : TaskId) : ControlError :=
  not_found ("task " +:+ show_id t +:+ " was not found").

Definition to_sql_integer (value : Z) : Result ControlError Z :=
  ok_or (i64_try_from value) (store_error "integer exceeds SQLite i64 range").
(** [u64::try_from] of a column. *)
Definition from_sql_integer (value : Z) (what : string) : Result ControlError Z :=
  if 0 <=? value then Ok value else Err (store_error ("negative " +:+ what)).

Definition encode `{Serde A} (a : A) : Result ControlError Text := ok_or (to_string a) json_error.
Definition decode `{Serde A} (t : Text) : Result ControlError A := ok_or (from_str t) json_error.

(** ** Insertions, with the constraints of the schema *)
Definition constraint {S} (ok : bool) (what : string) : Tx S ControlError unit :=
  guard ok (sqlite_error (constraint_failed what)).

Definition insert_task_row (t : TaskId) (row : TaskRow) : CTx unit :=
  db ← get;
  _ ← constraint (bool_decide (tasks db !! t = None)) "tasks.task_id";
  write (with_tasks (<[t := row]> (tasks db))).

Definition insert_command_row (c : CommandId) (t : TaskId) (json : Text) : CTx unit :=
  db ← get;
  _ ← constraint (bool_decide (commands db !! c = None)) "commands.command_id";
  _ ← constraint (bool_decide (is_Some (tasks db !! t))) "commands.task_id";
  write (with_commands (<[c := MkCommandRow (next_rowid k_rowid (commands db)) t json]> (commands db))).

Definition insert_task_event (id : TaskEventId) (row : TaskEventRow) : CTx unit :=
  db ← get;
  _ ← constraint (bool_decide (task_events db !! id = None)) "task_events.event_id";
  _ ← constraint (bool_decide (is_Some (tasks db !! v_task row))) "task_events.task_id";
  _ ← constraint (negb (tbl_exists (λ _ r, bool_decide (v_source r = v_source row)) (task_events db)))
        "task_events.source_id";
  _ ← constraint (negb (tbl_exists (λ _ r, bool_decide (v_task r = v_task row) && (v_sequence r =? v_sequence row))
                          (task_events db)))
        "task_events.task_id, task_events.sequence";
  write (with_task_events (<[id := row]> (task_events db))).

Definition insert_pending (c : CommandId) (task_sequence : Z) : CTx unit :=
  db ← get;
  _ ← constraint (bool_decide (pending_executions db !! c = None)) "pending_executions.command_id";
  _ ← constraint (bool_decide (is_Some (commands db !! c))) "pending_executions.command_id";
  write (with_pending (<[c := task_sequence]> (pending_executions db))).

Definition insert_stream (c : CommandId) (row : StreamRow) : CTx unit :=
  db ← get;
  _ ← constraint (bool_decide (streams db !! c = None)) "execution_event_streams.command_id";
  _ ← constraint (bool_decide (is_Some (commands db !! c))) "execution_event_streams.command_id";
  _ ← constraint (negb (tbl_exists (λ _ s, bool_decide (s_execution s = s_execution row)) (streams db)))
        "execution_event_streams.execution_id";
  write (with_streams (<[c := row]> (streams db))).

Definition insert_stop (c : CommandId) : CTx unit :=
  db ← get;
  _ ← constraint (bool_decide (stop_requests db !! c = None)) "stop_requests.command_id";
  _ ← constraint (bool_decide (is_Some (commands db !! c))) "stop_requests.command_id";
  write (with_stops (<[c := MkStopRow (next_rowid stop_rowid (stop_requests db)) false]> (stop_requests db))).

(** A transaction of the store, and a read of it. *)
Definition attempt {A} (ch : ControlChoice) (m : CTx A) (db : ControlDb) : Result ControlError A * ControlDb :=
  match control_failure ch with Some e => (Err e, db) | None => commit m db end.
Definition observe {A} (ch : ControlChoice) (q : ControlDb → Result ControlError A) (db : ControlDb)
    : Result ControlError A :=
  match control_failure ch with Some e => Err e | None => q db end.
End statements.
