(* ===== verification/Identity.v ===== *)
(** * Devices of a coordinator

    The secrets of [identity.rs], the keys of [device_key.rs], and the
    transactions of [identity_store.rs], [device_store.rs], [push_tokens.rs]
    and the device's half of [setup_notices/store.rs]. A random source, the
    clock, fresh identities and failures of the database are arguments; a
    random secret is the bytes it is made of, or the error of the source. *)
From S2P Require Import Prelude Json Text Protocol Transaction Control.

(** The primitives of the ring and base64 crates. *)
Class DeviceCrypto := {
  ecdsa_verify : string → string → string → bool;   (* key, message, signature *)
  base64_decode : string → option string;           (* URL-safe, without padding *)
  hmac_sha256 : string → string → string;           (* key, message: 32 bytes *)
}.

(** ** Operations: computations that keep what they committed *)
Definition Op (S E A : Type) : Type := S → Result E A * S.
#[global] Instance Op_ret S E : MRet (Op S E) := λ A a s, (Ok a, s).
#[global] Instance Op_bind S E : MBind (Op S E) := λ A B f m s,
  match m s with (Ok a, s') => f a s' | (Err e, s') => (Err e, s') end.

Abbreviation IOp := (Op IdentityDb ControlError).

Definition pure_op {S E A} (r : Result E A) : Op S E A := λ s, (r, s).
Definition inspect {S E A} (q : S → A) : Op S E A := λ s, (Ok (q s), s).
(** One transaction, or the failure of its connection. *)
Definition atomic {S E A} (fail : option E) (m : Tx S E A) : Op S E A := λ s,
  match fail with Some e => (Err e, s) | None => commit m s end.

(** ** Secrets ([identity.rs]) *)
Definition SECRET_BYTES : Z := 32.
Definition SECRET_HEX_LENGTH : Z := SECRET_BYTES * 2.

Definition is_ascii_hexdigit (a : Ascii.ascii) : bool :=
  let n := Ascii.N_of_ascii a in
  ((48 <=? n) && (n <=? 57) || (65 <=? n) && (n <=? 70) || (97 <=? n) && (n <=? 102))%N.

Definition Entropy : Type := Result string string.

Definition random_secret (entropy : Entropy) : Result ControlError string :=
  match entropy with
  | Ok bytes => Ok (hex_digest bytes)
  | Err error => Err (store_error ("secure random generation failed: " +:+ error))
  end.

Definition NUL : string := String Ascii.zero "".
Definition ENROLLMENT : string := "renoa enrollment v1" +:+ NUL.
Definition DEVICE_CREDENTIAL : string := "renoa device credential v1" +:+ NUL.
Definition PASSKEY_BOOTSTRAP : string := "renoa passkey bootstrap v1" +:+ NUL.
Definition CONNECTION_TICKET : string := "renoa browser connection ticket v1" +:+ NUL.
Definition BROWSER_SESSION : string := "renoa browser session v1" +:+ NUL.
Definition BROWSER_PAIRING : string := "renoa browser pairing v1" +:+ NUL.
Definition SHARE_TICKET : string := "renoa share ticket v1" +:+ NUL.

Section secrets.
Context `{DG : Digest}.

Definition secret_digest (domain secret : string) : option string :=
  if negb (len secret =? SECRET_HEX_LENGTH) || negb (forallb is_ascii_hexdigit (String.list_ascii_of_string secret))
  then None else Some (sha256_bytes (domain +:+ secret)).

(** [BrowserPairingToken::session_for]. *)
Definition session_for `{DC : DeviceCrypto} (token nonce : string) : option string :=
  _ ← secret_digest BROWSER_PAIRING token;
  _ ← secret_digest ("renoa browser pairing nonce v1" +:+ NUL) nonce;
  Some (hex_digest (hmac_sha256 token ("renoa paired browser session v1" +:+ NUL +:+ nonce))).

(** [from_encoded] of a session, a share ticket or a device credential. *)
Definition from_encoded (domain value : string) : option string :=
  _ ← secret_digest domain value; Some value.
End secrets.

Record DeviceCredentials := MkDeviceCredentials { cred_device : DeviceId; credential : string }.

(** ** Time ([identity_store.rs]): nanoseconds since the Unix epoch *)
Definition SystemTime : Type := Z.
Definition MILLI : Z := 1000000.
Definition SECOND : Z := 1000 * MILLI.

Definition timestamp_millis (time : SystemTime) : Result ControlError Z :=
  if time <? 0 then Err (invalid "time is before the Unix epoch")
  else ok_or (i64_try_from (time / MILLI)) (invalid "time exceeds SQLite i64 range").

(** [SystemTime::checked_add]: the seconds are an [i64]. *)
Definition time_checked_add (time duration : Z) : option SystemTime :=
  if in_i64 ((time + duration) / SECOND) then Some (time + duration) else None.

(** ** Device keys ([device_key.rs]) *)
Definition POINT_BYTES : Z := 65.
Definition UNCOMPRESSED_POINT_TAG : Ascii.ascii := Ascii.ascii_of_N 4.
Definition MAX_SIGNATURE_CHARS : Z := 96.
Definition MAX_LABEL_CHARS : nat := 64.

(** [DevicePublicKey::from_bytes]. *)
Definition key_from_bytes (bytes : string) : option string :=
  if (len bytes =? POINT_BYTES) && bool_decide (String.get 0 bytes = Some UNCOMPRESSED_POINT_TAG)
  then Some bytes else None.

Record DeviceRegistration := MkDeviceRegistration { reg_key : string; reg_label : string }.

Definition proof_message (d : DeviceId) (nonce : string) : string :=
  "renoa device proof v1" +:+ nl +:+ show_id d +:+ nl +:+ nonce.
Definition registration_message (ceremony : N) : string :=
  "renoa device registration v1" +:+ nl +:+ uuid_text ceremony.
Definition quote_char : string := String (Ascii.ascii_of_N 34) "".

Section keys.
Context `{DC : DeviceCrypto}.

(** [DevicePublicKey::parse]. *)
Definition key_parse (encoded : string) : Result ControlError string :=
  ok_or (base64_decode encoded ≫= key_from_bytes)
    (invalid ("device publicKey must be a 65-byte uncompressed P-256 point " +:+
       "(starting 0x04), base64url without padding")).

(** [DeviceSignature::parse]. *)
Definition signature_parse (encoded : string) : option string :=
  if MAX_SIGNATURE_CHARS <? len encoded then None else base64_decode encoded.

(** [DeviceRegistration::parse]. *)
Definition registration_parse (public_key label : string) : Result ControlError DeviceRegistration :=
  let label := trim label in
  if is_empty label || (MAX_LABEL_CHARS <? length (chars label))%nat || existsb is_control (chars label)
  then Err (invalid "device label must be 1-64 printable characters")
  else key ← key_parse public_key; Ok (MkDeviceRegistration key label).

(** [DeviceSignature::parse(..).is_some_and(|signature| key.verify(..))]. *)
Definition proves (key message encoded : string) : bool :=
  match signature_parse encoded with Some signature => ecdsa_verify key message signature | None => false end.

Definition check_registration_proof (ceremony : N) (registration : option DeviceRegistration)
    (proof : option string) : Result ControlError unit :=
  match registration, proof with
  | None, None => Ok tt
  | Some registration, Some proof =>
      if proves (reg_key registration) (registration_message ceremony) proof then Ok tt
      else Err (invalid ("deviceProof is not the registered key's signature over " +:+
                  quote_char +:+ "renoa device registration v1\n<ceremonyId>" +:+ quote_char))
  | Some _, None => Err (invalid "deviceProof is required: this ceremony signs in a device")
  | None, Some _ => Err (invalid "deviceProof was sent but this ceremony registers no device")
  end.
End keys.

Section devices.
Context `{CS : ControlSerde} `{LT : LibraryTexts} `{DG : Digest}.
Implicit Types (i : IdentityDb) (d : DeviceId) (p : PrincipalId) (fail : option ControlError).

(** ** Enrollment and authentication ([identity_store.rs]) *)
Record AuthenticatedDevice := MkAuthenticatedDevice {
  auth_device : DeviceId; auth_peer : PeerIdentity; auth_key : option string; auth_credential_hash : string }.

Record PendingEnrollment := MkPendingEnrollment { token_hash : string; pending_row : EnrollmentRow }.

(** [PendingEnrollment::new]. *)
Definition pending_enrollment (entropy : Entropy) (peer : PeerIdentity) (expires_at : SystemTime)
    : Result ControlError (string * PendingEnrollment) :=
  token ← random_secret entropy;
  hash ← ok_or (secret_digest ENROLLMENT token) (store_error "generated an invalid enrollment token");
  peer_json ← encode peer;
  expires_at_ms ← timestamp_millis expires_at;
  Ok (token, MkPendingEnrollment hash (MkEnrollmentRow peer_json expires_at_ms)).

(** [PendingEnrollment::insert]. *)
Definition insert_enrollment (token_hash : string) (row : EnrollmentRow) : ITx unit :=
  i ← get;
  _ ← constraint (bool_decide (enrollments i !! token_hash = None)) "enrollments.token_hash";
  write (with_enrollments (<[token_hash := row]> (enrollments i))).

Definition create_enrollment fail (entropy : Entropy) (peer : PeerIdentity) (expires_at : SystemTime) : IOp string :=
  te ← pure_op (pending_enrollment entropy peer expires_at);
  _ ← atomic fail (insert_enrollment (token_hash te.2) (pending_row te.2));
  mret te.1.

Definition insert_device d (row : DeviceRow) : ITx unit :=
  i ← get;
  _ ← constraint (bool_decide (devices i !! d = None)) "devices.device_id";
  _ ← constraint (negb (tbl_exists (λ _ r, String.eqb (d_credential_hash r) (d_credential_hash row)) (devices i)))
        "devices.credential_hash";
  write (with_devices (<[d := row]> (devices i))).

(** The transaction of [claim_enrollment]. *)
Definition claim_body (token_hash : string) d (credential_hash : string) (now_ms : Z) : ITx unit :=
  row ← read (λ i, ok_or (enrollments i !! token_hash ≫= λ row : EnrollmentRow,
          if now_ms <? en_expires_at_ms row then Some row else None) authentication_failed);
  _ ← write (λ i, with_enrollments (delete token_hash (enrollments i)) i);
  insert_device d (MkDeviceRow credential_hash (en_peer_json row) false).

Definition generated_credential (entropy : Entropy) : Result ControlError (string * string) :=
  credential ← random_secret entropy;
  hash ← ok_or (secret_digest DEVICE_CREDENTIAL credential) (store_error "generated an invalid device credential");
  Ok (credential, hash).

Definition claim_enrollment fail (entropy : Entropy) d (now : SystemTime) (token : string) : IOp DeviceCredentials :=
  token_hash ← pure_op (ok_or (secret_digest ENROLLMENT token) authentication_failed);
  ch ← pure_op (generated_credential entropy);
  now_ms ← pure_op (timestamp_millis now);
  _ ← atomic fail (claim_body token_hash d ch.2 now_ms);
  mret (MkDeviceCredentials d ch.1).

Definition authenticate_device (credentials : DeviceCredentials) i : Result ControlError AuthenticatedDevice :=
  hash ← ok_or (secret_digest DEVICE_CREDENTIAL (credential credentials)) authentication_failed;
  let d := cred_device credentials in
  row ← ok_or (devices i !! d ≫= λ row : DeviceRow,
          if String.eqb (d_credential_hash row) hash && negb (d_revoked row) then Some row else None)
          authentication_failed;
  key ← transpose (λ k, ok_or (key_from_bytes (dk_public_key k)) (store_error "a stored device key is invalid"))
          (device_keys i !! d);
  peer ← decode (d_peer_json row);
  Ok (MkAuthenticatedDevice d peer key hash).

Definition revoked_row (row : DeviceRow) : DeviceRow := MkDeviceRow (d_credential_hash row) (d_peer_json row) true.

(** [forget_device_token] and [setup_notices::forget_device]. *)
Definition forget_device_token d i : IdentityDb := with_push_tokens (delete d (push_tokens i)) i.
Definition forget_device d i : IdentityDb :=
  with_notices (filter (λ kv : N * NoticeRow, no_device kv.2 ≠ d) (setup_notices i)) (with_notice_keys (delete d (notice_keys i)) i).

Definition mark_revoked d : ITx bool :=
  changed ← query (λ i, bool_decide (is_Some (devices i !! d)));
  _ ← write (λ i, with_devices (alter revoked_row d (devices i)) i);
  _ ← write (forget_device_token d);
  _ ← write (forget_device d);
  mret changed.

Definition device_not_found d : ControlError := not_found ("device " +:+ show_id d +:+ " was not found").

Definition revoke_device fail d : IOp unit :=
  atomic fail (changed ← mark_revoked d; guard changed (device_not_found d)).

Definition device_accepts d (credential_hash : string) i : bool :=
  match devices i !! d with
  | Some row => String.eqb (d_credential_hash row) credential_hash && negb (d_revoked row)
  | None => false
  end.

(** ** Signed-in devices ([device_store.rs]) *)
Definition MAX_DEVICES_PER_PRINCIPAL : Z := 32.

Inductive Registration := Adopt (d : DeviceId) | NewDevice.

Definition is_active i d : bool := match devices i !! d with Some row => negb (d_revoked row) | None => false end.

(** Keys of a principal whose device is not revoked. *)
Definition active_keys p i : list (DeviceId * DeviceKeyRow) :=
  select (λ d k, bool_decide (dk_principal k = p) && is_active i d) (device_keys i).

(** [device_keys k JOIN devices d WHERE k.public_key = ..]. *)
Definition device_of_key (key : string) i : option (DeviceId * DeviceRow) :=
  match select (λ d k, String.eqb (dk_public_key k) key && bool_decide (is_Some (devices i !! d))) (device_keys i) with
  | (d, _) :: _ => row ← devices i !! d; Some (d, row)
  | [] => None
  end.

Definition classify p (surface : SurfaceRef) (registration : DeviceRegistration) i : Result ControlError Registration :=
  match device_of_key (reg_key registration) i with
  | Some (d, row) =>
      peer ← decode (A := PeerIdentity) (d_peer_json row);
      if negb (bool_decide (peer = PeerSurface p surface))
      then Err (conflict "this device key is registered to another sign-in")
      else if d_revoked row
      then Err (conflict "this device key was signed out; create a new key to sign in again")
      else Ok (Adopt d)
  | None =>
      if MAX_DEVICES_PER_PRINCIPAL <=? Z.of_nat (length (active_keys p i))
      then Err (conflict ("this account already has " +:+ show MAX_DEVICES_PER_PRINCIPAL +:+
                  " signed-in devices; sign one out first"))
      else Ok NewDevice
  end.

Definition insert_device_key d (row : DeviceKeyRow) : ITx unit :=
  i ← get;
  _ ← constraint (bool_decide (device_keys i !! d = None)) "device_keys.device_id";
  _ ← constraint (negb (tbl_exists (λ _ k, String.eqb (dk_public_key k) (dk_public_key row)) (device_keys i)))
        "device_keys.public_key";
  _ ← constraint (bool_decide (is_Some (devices i !! d))) "device_keys.device_id -> devices.device_id";
  write (with_device_keys (<[d := row]> (device_keys i))).

Definition rekeyed (hash : string) (row : DeviceRow) : DeviceRow := MkDeviceRow hash (d_peer_json row) (d_revoked row).
Definition relabelled (label : string) (k : DeviceKeyRow) : DeviceKeyRow :=
  MkDeviceKeyRow (dk_principal k) (dk_public_key k) label (dk_created_at_ms k).

(** [UPDATE devices SET credential_hash = ..]: the column is unique. *)
Definition update_credential_hash d (hash : string) : ITx unit :=
  i ← get;
  _ ← constraint (negb (tbl_exists (λ d' r, negb (bool_decide (d' = d)) && String.eqb (d_credential_hash r) hash)
                          (devices i))) "devices.credential_hash";
  write (with_devices (alter (rekeyed hash) d (devices i))).

Record SignedInDevice := MkSignedInDevice { signed_credentials : DeviceCredentials; adopted : bool }.

Definition sign_in_device p (surface : SurfaceRef) (registration : DeviceRegistration) (entropy : Entropy)
    (new_device : DeviceId) (now_ms : Z) : ITx SignedInDevice :=
  ch ← lift (generated_credential entropy);
  decision ← read (classify p surface registration);
  match decision with
  | Adopt d =>
      _ ← update_credential_hash d ch.2;
      _ ← write (λ i, with_device_keys (alter (relabelled (reg_label registration)) d (device_keys i)) i);
      mret (MkSignedInDevice (MkDeviceCredentials d ch.1) true)
  | NewDevice =>
      peer_json ← lift (encode (PeerSurface p surface));
      _ ← insert_device new_device (MkDeviceRow ch.2 peer_json false);
      _ ← insert_device_key new_device (MkDeviceKeyRow p (reg_key registration) (reg_label registration) now_ms);
      mret (MkSignedInDevice (MkDeviceCredentials new_device ch.1) false)
  end.

Definition save_sign_in (ceremony : N) (registration : DeviceRegistration) (expires_at_ms : Z) : ITx unit :=
  i ← get;
  _ ← constraint (bool_decide (device_sign_ins i !! ceremony = None)) "device_sign_ins.ceremony_id";
  write (with_sign_ins (<[ceremony := MkSignInRow (reg_key registration) (reg_label registration) expires_at_ms]>
           (device_sign_ins i))).

Definition take_sign_in (ceremony : N) : ITx (option DeviceRegistration) :=
  stored ← query (λ i, device_sign_ins i !! ceremony);
  _ ← write (λ i, with_sign_ins (delete ceremony (device_sign_ins i)) i);
  lift (transpose (λ row : SignInRow,
    key ← ok_or (key_from_bytes (si_public_key row)) (store_error "stored sign-in key is invalid");
    Ok (MkDeviceRegistration key (si_label row))) stored).

Definition check_device_registration p (surface : SurfaceRef) (registration : DeviceRegistration) i
    : Result ControlError unit :=
  _ ← classify p surface registration i; Ok tt.

Record DeviceSummary := MkDeviceSummary {
  ds_device : DeviceId; ds_surface : SurfaceRef; ds_label : string; ds_created_at_ms : Z; ds_current : bool }.

Definition summarize_device i (current : option DeviceId) (kv : DeviceId * DeviceKeyRow)
    : Result ControlError DeviceSummary :=
  row ← ok_or (devices i !! kv.1) (device_not_found kv.1);
  peer ← decode (A := PeerIdentity) (d_peer_json row);
  match peer with
  | PeerSurface _ surface =>
      created ← from_sql_integer (dk_created_at_ms kv.2) "device creation time";
      Ok (MkDeviceSummary kv.1 surface (dk_label kv.2) created (bool_decide (current = Some kv.1)))
  | PeerNode _ => Err (store_error "a key-bound device has no surface")
  end.

(** [ORDER BY k.created_at_ms, d.device_id]. *)
Definition older (x y : DeviceId * DeviceKeyRow) : Prop :=
  dk_created_at_ms x.2 < dk_created_at_ms y.2 ∨
  dk_created_at_ms x.2 = dk_created_at_ms y.2 ∧ (as_uuid x.1 ≤ as_uuid y.1)%N.
#[global] Instance older_dec x y : Decision (older x y).
Proof. unfold older. apply _. Defined.

Definition list_devices p (current : option DeviceId) i : Result ControlError (list DeviceSummary) :=
  collect (summarize_device i current) (merge_sort older (active_keys p i)).

(** The transaction of [revoke_owned_device]. *)
Definition revoke_owned_device fail p d : IOp bool :=
  atomic fail (
    revoked ← read (λ i, ok_or (k ← device_keys i !! d; row ← devices i !! d;
                if bool_decide (dk_principal k = p) then Some (d_revoked row) else None) (device_not_found d));
    _ ← mark_revoked d;
    mret (negb revoked)).

(** ** Push tokens ([push_tokens.rs]) *)
Definition MAX_TOKEN_BYTES : Z := 4096.
Definition FCM : string := "fcm".

(** The [Debug] text of a string of ASCII graphic characters. *)
Fixpoint debug_escaped (s : string) : string :=
  match s with
  | EmptyString => ""
  | String a rest =>
      (if decide (a = Ascii.ascii_of_N 34 ∨ a = Ascii.ascii_of_N 92)
       then String (Ascii.ascii_of_N 92) (String a "") else String a "") +:+ debug_escaped rest
  end.

Definition validate_push_token (provider token : string) : Result ControlError string :=
  if negb (String.eqb provider FCM)
  then
    let named := if (len provider <=? 32) && forallb is_ascii_graphic (String.list_ascii_of_string provider)
                 then "provider " +:+ quote_char +:+ debug_escaped provider +:+ quote_char else "this provider" in
    Err (invalid (named +:+ " is not supported; expected " +:+ quote_char +:+ "fcm" +:+ quote_char))
  else if (len token =? 0) || (MAX_TOKEN_BYTES <? len token) ||
          negb (forallb is_ascii_graphic (String.list_ascii_of_string token))
  then Err (invalid ("token must be 1 to " +:+ show MAX_TOKEN_BYTES +:+
              " bytes of printable ASCII without spaces; received " +:+ show (len token) +:+ " bytes"))
  else Ok FCM.

Inductive TokenRegistration := TokenStored | TokenUnchanged | TokenMoved (from : DeviceId).

Definition active_device_principal d i : Result ControlError PrincipalId :=
  row ← ok_or (devices i !! d ≫= λ row : DeviceRow, if d_revoked row then None else Some row) authentication_failed;
  peer ← decode (d_peer_json row);
  match peer with
  | PeerSurface p _ => Ok p
  | PeerNode _ => Err (role_error "a node holds no push token")
  end.

Definition holder_of (token : string) i : option (DeviceId * PushTokenRow) :=
  head (select (λ _ r, String.eqb (pt_token r) token) (push_tokens i)).

(** [INSERT .. ON CONFLICT (device_id) DO UPDATE SET provider, token]. *)
Definition upsert_token d p (provider token : string) : ITx unit :=
  i ← get;
  _ ← constraint (negb (tbl_exists (λ d' r, negb (bool_decide (d' = d)) && String.eqb (pt_token r) token)
                          (push_tokens i))) "push_tokens.token";
  _ ← constraint (bool_decide (is_Some (devices i !! d))) "push_tokens.device_id -> devices.device_id";
  write (with_push_tokens (<[d := match push_tokens i !! d with
                                  | Some r => MkPushTokenRow (pt_principal r) provider token
                                  | None => MkPushTokenRow p provider token
                                  end]> (push_tokens i))).

Definition set_push_token fail d (provider token : string) : IOp (PrincipalId * TokenRegistration) :=
  atomic fail (
    p ← read (active_device_principal d);
    holder ← query (holder_of token);
    registration ←
      match holder with
      | Some (d', r) =>
          if decide (pt_principal r = p) then
            if decide (d' = d) then mret TokenUnchanged
            else _ ← write (forget_device_token d'); mret (TokenMoved d')
          else throw (conflict "token is registered to another principal; sign that device out first")
      | None => mret TokenStored
      end;
    _ ← upsert_token d p provider token;
    mret (p, registration)).

Definition clear_push_token fail d : IOp bool :=
  atomic fail (held ← query (λ i, bool_decide (is_Some (push_tokens i !! d)));
               _ ← write (forget_device_token d); mret held).

Record PushTarget := MkPushTarget { target_device : DeviceId; target_token : string }.

Definition push_targets p i : list PushTarget :=
  (λ kv : DeviceId * PushTokenRow, MkPushTarget kv.1 (pt_token kv.2))
  <$> order_by (λ kv, Z.of_N (as_uuid kv.1)) (select (λ d r, bool_decide (pt_principal r = p) && is_active i d) (push_tokens i)).

Definition drop_push_token fail (target : PushTarget) : IOp bool :=
  atomic fail (
    held ← query (A := bool) (λ i, match push_tokens i !! target_device target with
                       | Some r => String.eqb (pt_token r) (target_token target)
                       | None => false end);
    _ ← write (λ i, if (held : bool) then forget_device_token (target_device target) i else i);
    mret held).

(** ** A device's setup notices ([setup_notices.rs], [setup_notices/store.rs]) *)
Definition MAX_SEALED_NOTICE_BYTES : Z := 44250.
Definition MAX_APPLICATION_MESSAGE_BYTES : Z := 1024 * 1024.
Definition MAX_LISTED_NOTICES : Z := (MAX_APPLICATION_MESSAGE_BYTES - 65) / (MAX_SEALED_NOTICE_BYTES + 98).

(** [NoticeKey::point]. *)
Definition point `{DC : DeviceCrypto} (key : string) : option string := base64_decode key ≫= key_from_bytes.

Record HeldNotice := MkHeldNotice { held_notice : N; held_sealed : string; held_expires_at_ms : Z }.

Definition surface_principal d i : Result ControlError (option PrincipalId) :=
  match devices i !! d ≫= λ row : DeviceRow, if d_revoked row then None else Some row with
  | None => Ok None
  | Some row =>
      peer ← decode (d_peer_json row);
      Ok (match peer with PeerSurface p _ => Some p | PeerNode _ => None end)
  end.

Definition set_notice_key fail d (key : string) : IOp unit :=
  atomic fail (
    principal ← read (surface_principal d);
    p ← lift (ok_or principal authentication_failed);
    i ← get;
    _ ← constraint (len key =? 87) "length(public_key) = 87";
    write (with_notice_keys (<[d := MkNoticeKeyRow (default p (nk_principal <$> notice_keys i !! d)) key]> (notice_keys i)))).

(** [ORDER BY expires_at_ms, notice_id]. *)
Definition expires_first (x y : N * NoticeRow) : Prop :=
  no_expires_at_ms x.2 < no_expires_at_ms y.2 ∨ no_expires_at_ms x.2 = no_expires_at_ms y.2 ∧ (x.1 ≤ y.1)%N.
#[global] Instance expires_first_dec x y : Decision (expires_first x y).
Proof. unfold expires_first. apply _. Defined.

Definition device_notices fail d (now : SystemTime) : IOp (list HeldNotice) :=
  now_ms ← pure_op (timestamp_millis now);
  _ ← atomic fail (write (λ i, with_notices (filter (λ kv, now_ms < no_expires_at_ms kv.2) (setup_notices i)) i));
  inspect (λ i : IdentityDb,
    (λ kv : N * NoticeRow, MkHeldNotice kv.1 (no_sealed kv.2) (no_expires_at_ms kv.2))
    <$> take (Z.to_nat MAX_LISTED_NOTICES)
          (merge_sort expires_first (select (λ _ r, bool_decide (no_device r = d)) (setup_notices i)))).

Definition acknowledge_notice fail d (notice : N) : IOp unit :=
  atomic fail (write (λ i, with_notices (filter (λ kv : N * NoticeRow, ¬ (kv.1 = notice ∧ no_device kv.2 = d)) (setup_notices i)) i)).

(** ** A node's setup notices: the part of its operations on these tables *)
Record SealedNotice := MkSealedNotice {
  notice_id : N; notice_device : DeviceId; sealed : string; notice_expires_at_ms : Z }.
Record DeviceNoticeKey := MkDeviceNoticeKey { key_device : DeviceId; key_public : string }.

(** [validate] of [setup_notices/store.rs]. *)
Definition validate_notice `{DC : DeviceCrypto} (notice : SealedNotice) (now_ms : Z) : Result ControlError unit :=
  if (len (sealed notice) =? 0) || (MAX_SEALED_NOTICE_BYTES <? len (sealed notice)) ||
     negb (bool_decide (is_Some (base64_decode (sealed notice))))
  then Err (invalid ("sealed must be 1 to " +:+ show MAX_SEALED_NOTICE_BYTES +:+
              " bytes of base64url without padding; received " +:+ show (len (sealed notice)) +:+ " bytes"))
  else if notice_expires_at_ms notice <=? now_ms
  then Err (invalid "the notice has expired; seal the link again only while it works")
  else Ok tt.

Definition principal_notice_keys p i : list DeviceNoticeKey :=
  (λ kv : DeviceId * NoticeKeyRow, MkDeviceNoticeKey kv.1 (nk_public_key kv.2))
  <$> order_by (λ kv, Z.of_N (as_uuid kv.1)) (select (λ d r, bool_decide (nk_principal r = p) && is_active i d) (notice_keys i)).

(** [put_notice] for the owner [p] of [node]; whether the notice is new. *)
Definition put_notice_row p (node : NodeId) (notice : SealedNotice) : ITx bool :=
  stored ← query (λ i, setup_notices i !! notice_id notice);
  match stored with
  | Some row =>
      if decide (no_device row = notice_device notice ∧ no_node row = node) then mret false
      else throw (conflict "this notice id names another recipient; derive a new id")
  | None =>
      keyed ← query (λ i, r ← notice_keys i !! notice_device notice;
                if is_active i (notice_device notice) then Some (nk_principal r) else None);
      _ ← guard (bool_decide (keyed = Some p))
            (role_error ("the device is not an active device of this node's owner with a notice key; " +:+
               "list the notice keys again"));
      _ ← write (λ i, with_notices (<[notice_id notice := MkNoticeRow (notice_device notice) p node (sealed notice)
                         (notice_expires_at_ms notice)]> (setup_notices i)) i);
      mret true
  end.

(** The statements of [withdraw_notices], one after the other. *)
Fixpoint withdraw_rows (node : NodeId) (notices : list N) : ITx unit :=
  match notices with
  | [] => mret tt
  | notice :: rest =>
      _ ← write (λ i, with_notices (filter (λ kv : N * NoticeRow, ¬ (kv.1 = notice ∧ no_node kv.2 = node)) (setup_notices i)) i);
      withdraw_rows node rest
  end.
End devices.
