(* ===== verification/Browser.v ===== *)
(** * Browsers, passkeys and one-time tickets of a coordinator

    [browser_identity.rs], [browser_identity_store.rs],
    [browser_ticket_store.rs], [browser_sessions.rs],
    [browser_pairing_store.rs] and the tickets of [share_links.rs]. The
    ceremonies of the webauthn-rs crate are parameters. *)
From S2P Require Import Prelude Json Text Protocol Transaction Control Identity.

(** The types and functions of webauthn-rs that the coordinator uses. A
    ceremony is started with randomness; [update_credential] gives the passkey
    after an authentication with it. *)
Class WebAuthn `{JL : JsonLib} := {
  Passkey : Type;
  PasskeyRegistration : Type;
  PasskeyAuthentication : Type;
  AuthenticationResult : Type;
  RegisterPublicKeyCredential : Type;
  PublicKeyCredential : Type;
  CreationChallengeResponse : Type;
  RequestChallengeResponse : Type;
  cred_id : Passkey → string;
  result_cred_id : AuthenticationResult → string;
  counter : AuthenticationResult → Z;
  update_credential : Passkey → AuthenticationResult → option Passkey;
  start_passkey_registration : N → N → string → string → option (list string) →
    Result string (CreationChallengeResponse * PasskeyRegistration);
  finish_passkey_registration : RegisterPublicKeyCredential → PasskeyRegistration → option Passkey;
  start_passkey_authentication : N → list Passkey → Result string (RequestChallengeResponse * PasskeyAuthentication);
  finish_passkey_authentication : PublicKeyCredential → PasskeyAuthentication → option AuthenticationResult;
  passkey_serde :: Serde Passkey;
  registration_serde :: Serde PasskeyRegistration;
  authentication_serde :: Serde PasskeyAuthentication;
}.

(** What one operation draws from its surroundings: the clock, secrets, an
    identity for a ceremony and one for a device, randomness for webauthn, and
    failures of its transactions. *)
Record Draw := MkDraw {
  draw_now : SystemTime;
  draw_later : SystemTime;   (* a second reading of the clock *)
  draw_secret : nat → Entropy;
  draw_ceremony : N;
  draw_device : DeviceId;
  draw_random : N;
  draw_failure : nat → option ControlError;
}.

Definition SESSION_LIFETIME : Z := 180 * 24 * 3600 * SECOND.
Definition CEREMONY_LIFETIME : Z := 300 * SECOND.
Definition TICKET_LIFETIME : Z := 60 * SECOND.
Definition SHARE_TICKET_LIFETIME : Z := 120 * SECOND.
Definition MAX_SURFACE_BYTES : Z := 64.
Definition MAX_ACTIVE_CEREMONIES : Z := 64.

Definition is_ascii_alphanumeric (a : Ascii.ascii) : bool :=
  let n := Ascii.N_of_ascii a in
  ((48 <=? n) && (n <=? 57) || (65 <=? n) && (n <=? 90) || (97 <=? n) && (n <=? 122))%N.
Definition is_surface_byte (a : Ascii.ascii) : bool :=
  is_ascii_alphanumeric a || bool_decide (a = Ascii.ascii_of_N 45) || bool_decide (a = Ascii.ascii_of_N 95) ||
  bool_decide (a = Ascii.ascii_of_N 46).

Definition parse_surface (value : string) : Result ControlError SurfaceRef :=
  if is_empty value || (MAX_SURFACE_BYTES <? len value) ||
     negb (forallb is_surface_byte (String.list_ascii_of_string value))
  then Err (invalid "surface must be 1-64 ASCII letters, digits, dots, dashes, or underscores")
  else Ok value.

Definition expiry (now lifetime : Z) : Result ControlError SystemTime :=
  ok_or (time_checked_add now lifetime) (store_error "identity expiry exceeds system time range").

Record TicketGrant := MkTicketGrant {
  ticket : string; ticket_expires_at : SystemTime; session : string; session_expires_at : SystemTime }.

Definition new_ticket (d : Draw) : Result ControlError TicketGrant :=
  ticket ← random_secret (draw_secret d 0);
  expires_at ← expiry (draw_now d) TICKET_LIFETIME;
  session ← random_secret (draw_secret d 1);
  session_expires_at ← expiry (draw_now d) SESSION_LIFETIME;
  Ok (MkTicketGrant ticket expires_at session session_expires_at).

(** ** Cookies ([browser_sessions.rs]) *)
Definition COOKIE_NAME : string := "__Host-renoa_session".
Definition equals_sign : Ascii.ascii := Ascii.ascii_of_N 61.
Definition semicolon : Ascii.ascii := Ascii.ascii_of_N 59.

(** [str::split(';')] and [str::split_once('=')]. *)
Fixpoint split_at (a : Ascii.ascii) (s : string) : list string :=
  match s with
  | EmptyString => [""]
  | String b rest =>
      if decide (a = b) then "" :: split_at a rest
      else match split_at a rest with
           | first :: others => String b first :: others
           | [] => [String b ""]
           end
  end.
Fixpoint split_once (a : Ascii.ascii) (s : string) : option (string * string) :=
  match s with
  | EmptyString => None
  | String b rest =>
      if decide (a = b) then Some ("", rest)
      else '(x, y) ← split_once a rest; Some (String b x, y)
  end.

Section browser.
Context `{CS : ControlSerde} `{LT : LibraryTexts} `{DG : Digest} `{DC : DeviceCrypto} `{WA : !WebAuthn}.
Implicit Types (i : IdentityDb) (p : PrincipalId) (fail : option ControlError).

(** The items of one header, after [found]. *)
Fixpoint cookie_items (found : option string) (items : list string) : option (option string) :=
  match items with
  | [] => Some found
  | item :: rest =>
      match split_once equals_sign (trim item) with
      | Some (name, value) =>
          if String.eqb name COOKIE_NAME then
            match found with
            | Some _ => None
            | None => value ← from_encoded BROWSER_SESSION value; cookie_items (Some value) rest
            end
          else cookie_items found rest
      | None => cookie_items found rest
      end
  end.

(** [cookie_token]: [None] for a header that is not visible ASCII. *)
Fixpoint cookie_headers (found : option string) (headers : list (option string)) : option string :=
  match headers with
  | [] => found
  | header :: rest =>
      text ← header;
      found ← cookie_items found (split_at semicolon text);
      cookie_headers found rest
  end.
Definition cookie_token (headers : list (option string)) : option string := cookie_headers None headers.

(** The header value of [session_cookie]. *)
Definition session_cookie (token : string) (expiry_ms : Z) (now : SystemTime) : Result ControlError string :=
  now_ms ← timestamp_millis now;
  Ok (COOKIE_NAME +:+ "=" +:+ token +:+ "; Path=/; Secure; HttpOnly; SameSite=Strict; Max-Age=" +:+
      show (Z.max (expiry_ms - now_ms) 0 / 1000)).

(** ** Statements *)
Definition insert_row {V} (table : IdentityDb → gmap string V) (set : gmap string V → IdentityDb → IdentityDb)
    (what key : string) (row : V) : ITx unit :=
  i ← get;
  _ ← constraint (bool_decide (table i !! key = None)) what;
  write (set (<[key := row]> (table i))).

Definition insert_ticket (hash : string) p (surface : SurfaceRef) (expires_at_ms : Z) : ITx unit :=
  insert_row connection_tickets with_tickets "browser_connection_tickets.ticket_hash" hash
    (MkTicketRow p surface expires_at_ms).

Definition remove_expired_tickets (now_ms : Z) : ITx unit :=
  write (λ i, with_tickets (filter (λ kv : string * TicketRow, now_ms < tk_expires_at_ms kv.2) (connection_tickets i)) i).

(** [insert_session], with the clock it reads. *)
Definition insert_session p (credential : string) (grant : TicketGrant) (clock : SystemTime) : ITx unit :=
  hash ← lift (ok_or (secret_digest BROWSER_SESSION (session grant)) authentication_failed);
  expiry ← lift (timestamp_millis (session_expires_at grant));
  now_ms ← lift (timestamp_millis clock);
  _ ← write (λ i, with_sessions (filter (λ kv : string * SessionRow, now_ms < se_expires_at_ms kv.2) (browser_sessions i)) i);
  known ← query (λ i, bool_decide (is_Some (passkeys i !! credential)));
  _ ← constraint known "browser_sessions.credential_id -> passkeys.credential_id";
  insert_row browser_sessions with_sessions "browser_sessions.token_hash" hash (MkSessionRow p (Some credential) expiry).

(** [insert_passkey]: a violated constraint is an authentication failure. *)
Definition insert_passkey p (passkey : Passkey) (created_at_ms : Z) : ITx unit :=
  json ← lift (encode passkey);
  i ← get;
  _ ← guard (bool_decide (passkeys i !! cred_id passkey = None)) authentication_failed;
  write (with_passkeys (<[cred_id passkey := MkPasskeyRow p json 0 created_at_ms]> (passkeys i))).

Definition advance_passkey p (authentication : AuthenticationResult) : ITx unit :=
  let id := result_cred_id authentication in
  let observed := counter authentication in
  row ← read (λ i, ok_or (passkeys i !! id ≫= λ row : PasskeyRow,
          if bool_decide (pk_principal row = p) then Some row else None) authentication_failed);
  _ ← guard (negb ((0 <? pk_counter row) && (observed <=? pk_counter row))) authentication_failed;
  passkey ← lift (decode (pk_json row));
  passkey ← lift (ok_or (update_credential passkey authentication) authentication_failed);
  json ← lift (encode passkey);
  write (λ i, with_passkeys (<[id := MkPasskeyRow p json (Z.max observed (pk_counter row)) (pk_created_at_ms row)]>
                 (passkeys i)) i).

(** ** Tickets ([browser_ticket_store.rs]) *)
Definition generated_ticket (grant : TicketGrant) : Result ControlError string :=
  ok_or (secret_digest CONNECTION_TICKET (ticket grant)) (store_error "generated an invalid connection ticket").

Definition store_registration_and_ticket fail p (surface : SurfaceRef) (passkey : Passkey) (grant : TicketGrant)
    (now clock : SystemTime) : IOp unit :=
  hash ← pure_op (generated_ticket grant);
  expires_at_ms ← pure_op (timestamp_millis (ticket_expires_at grant));
  created_at_ms ← pure_op (timestamp_millis now);
  atomic fail (
    _ ← insert_passkey p passkey created_at_ms;
    _ ← insert_ticket hash p surface expires_at_ms;
    insert_session p (cred_id passkey) grant clock).

Definition update_passkey_and_store_ticket fail p (surface : SurfaceRef) (authentication : AuthenticationResult)
    (grant : TicketGrant) (now clock : SystemTime) : IOp unit :=
  hash ← pure_op (generated_ticket grant);
  expires_at_ms ← pure_op (timestamp_millis (ticket_expires_at grant));
  now_ms ← pure_op (timestamp_millis now);
  atomic fail (
    _ ← remove_expired_tickets now_ms;
    _ ← advance_passkey p authentication;
    _ ← insert_ticket hash p surface expires_at_ms;
    insert_session p (result_cred_id authentication) grant clock).

Definition claim_connection_ticket fail (ticket : string) (now : SystemTime) : IOp PeerIdentity :=
  hash ← pure_op (ok_or (secret_digest CONNECTION_TICKET ticket) authentication_failed);
  now_ms ← pure_op (timestamp_millis now);
  atomic fail (
    _ ← remove_expired_tickets now_ms;
    row ← read (λ i, ok_or (connection_tickets i !! hash ≫= λ row : TicketRow,
            if now_ms <? tk_expires_at_ms row then Some row else None) authentication_failed);
    _ ← write (λ i, with_tickets (delete hash (connection_tickets i)) i);
    mret (PeerSurface (tk_principal row) (tk_surface row))).

(** The device half of a finished ceremony ([device_store.rs]). *)
Definition store_registration_and_device fail p (surface : SurfaceRef) (passkey : Passkey)
    (registration : DeviceRegistration) (entropy : Entropy) (new_device : DeviceId) (now : SystemTime)
    : IOp SignedInDevice :=
  now_ms ← pure_op (timestamp_millis now);
  atomic fail (
    _ ← insert_passkey p passkey now_ms;
    sign_in_device p surface registration entropy new_device now_ms).

Definition update_passkey_and_store_device fail p (surface : SurfaceRef) (authentication : AuthenticationResult)
    (registration : DeviceRegistration) (entropy : Entropy) (new_device : DeviceId) (now : SystemTime)
    : IOp SignedInDevice :=
  now_ms ← pure_op (timestamp_millis now);
  atomic fail (
    _ ← advance_passkey p authentication;
    sign_in_device p surface registration entropy new_device now_ms).

(** ** Ceremonies ([browser_identity_store.rs]) *)
Record RegistrationBootstrap := MkRegistrationBootstrap { rb_principal : PrincipalId; rb_passkeys : list Passkey }.
Record Ceremony (State : Type) := MkCeremony {
  ceremony_principal : PrincipalId; ceremony_surface : SurfaceRef; ceremony_state : State;
  ceremony_device : option DeviceRegistration }.
#[global] Arguments MkCeremony {State} _ _ _ _.
#[global] Arguments ceremony_principal {State} _.
#[global] Arguments ceremony_surface {State} _.
#[global] Arguments ceremony_state {State} _.
#[global] Arguments ceremony_device {State} _.

Definition create_passkey_bootstrap fail (entropy : Entropy) p (expires_at : SystemTime) : IOp string :=
  token ← pure_op (random_secret entropy);
  hash ← pure_op (ok_or (secret_digest PASSKEY_BOOTSTRAP token)
           (store_error "generated an invalid passkey bootstrap token"));
  expires_at_ms ← pure_op (timestamp_millis expires_at);
  _ ← atomic fail (insert_row passkey_bootstraps with_bootstraps "passkey_bootstraps.token_hash" hash
        (MkBootstrapRow p expires_at_ms));
  mret token.

(** [SELECT .. FROM passkey_bootstraps WHERE token_hash = .. AND expires_at_ms > ..]. *)
Definition live_bootstrap (hash : string) (now_ms : Z) i : option PrincipalId :=
  row ← passkey_bootstraps i !! hash;
  if now_ms <? bs_expires_at_ms row then Some (bs_principal row) else None.

Definition load_passkeys p i : Result ControlError (list Passkey) :=
  collect (λ kv : string * PasskeyRow, decode (pk_json kv.2))
    (order_by (λ kv, pk_created_at_ms kv.2) (select (λ _ row, bool_decide (pk_principal row = p)) (passkeys i))).

Definition load_registration_bootstrap (token : string) (now : SystemTime) i : Result ControlError RegistrationBootstrap :=
  hash ← ok_or (secret_digest PASSKEY_BOOTSTRAP token) authentication_failed;
  now_ms ← timestamp_millis now;
  p ← ok_or (live_bootstrap hash now_ms i) authentication_failed;
  passkeys ← load_passkeys p i;
  Ok (MkRegistrationBootstrap p passkeys).

Definition remove_expired_identity_records (now_ms : Z) : ITx unit :=
  write (λ i,
    with_bootstraps (filter (λ kv : string * BootstrapRow, now_ms < bs_expires_at_ms kv.2) (passkey_bootstraps i))
    (with_registrations (filter (λ kv : N * CeremonyRow, now_ms < cy_expires_at_ms kv.2) (registration_ceremonies i))
    (with_authentications (filter (λ kv : N * CeremonyRow, now_ms < cy_expires_at_ms kv.2) (authentication_ceremonies i))
    (with_tickets (filter (λ kv : string * TicketRow, now_ms < tk_expires_at_ms kv.2) (connection_tickets i))
    (with_sign_ins (filter (λ kv : N * SignInRow, now_ms < si_expires_at_ms kv.2) (device_sign_ins i)) i))))).

Definition active_ceremonies i : Z :=
  Z.of_nat (size (registration_ceremonies i)) + Z.of_nat (size (authentication_ceremonies i)).

Definition ensure_ceremony_capacity : ITx unit :=
  active ← query active_ceremonies;
  guard (active <? MAX_ACTIVE_CEREMONIES) (capacity "too many passkey ceremonies are active").

(** The two ceremony tables. *)
Record CeremonyTable := MkCeremonyTable {
  table_name : string;
  ceremonies : IdentityDb → gmap N CeremonyRow;
  set_ceremonies : gmap N CeremonyRow → IdentityDb → IdentityDb }.
Definition registration_table : CeremonyTable :=
  MkCeremonyTable "passkey_registration_ceremonies" registration_ceremonies with_registrations.
Definition authentication_table : CeremonyTable :=
  MkCeremonyTable "passkey_authentication_ceremonies" authentication_ceremonies with_authentications.

Definition insert_ceremony (table : CeremonyTable) (ceremony : N) (row : CeremonyRow)
    (device : option DeviceRegistration) : ITx unit :=
  i ← get;
  _ ← constraint (bool_decide (ceremonies table i !! ceremony = None)) (table_name table +:+ ".ceremony_id");
  _ ← write (set_ceremonies table (<[ceremony := row]> (ceremonies table i)));
  match device with
  | Some device => save_sign_in ceremony device (cy_expires_at_ms row)
  | None => mret tt
  end.

Definition save_registration_ceremony fail (token : string) p (surface : SurfaceRef) (ceremony : N)
    (state : PasskeyRegistration) (device : option DeviceRegistration) (expires_at now : SystemTime) : IOp unit :=
  hash ← pure_op (ok_or (secret_digest PASSKEY_BOOTSTRAP token) authentication_failed);
  state_json ← pure_op (encode state);
  expires_at_ms ← pure_op (timestamp_millis expires_at);
  now_ms ← pure_op (timestamp_millis now);
  atomic fail (
    _ ← remove_expired_identity_records now_ms;
    _ ← ensure_ceremony_capacity;
    stored ← read (λ i, ok_or (live_bootstrap hash now_ms i) authentication_failed);
    _ ← guard (bool_decide (stored = p)) authentication_failed;
    _ ← write (λ i, with_bootstraps (delete hash (passkey_bootstraps i)) i);
    insert_ceremony registration_table ceremony (MkCeremonyRow p surface state_json expires_at_ms) device).

Definition save_authentication_ceremony fail p (surface : SurfaceRef) (ceremony : N)
    (state : PasskeyAuthentication) (device : option DeviceRegistration) (expires_at now : SystemTime) : IOp unit :=
  state_json ← pure_op (encode state);
  expires_at_ms ← pure_op (timestamp_millis expires_at);
  now_ms ← pure_op (timestamp_millis now);
  atomic fail (
    _ ← remove_expired_identity_records now_ms;
    _ ← ensure_ceremony_capacity;
    insert_ceremony authentication_table ceremony (MkCeremonyRow p surface state_json expires_at_ms) device).

(** The claim of either table; the stored state is read after the commit. *)
Definition claim_ceremony {State} `{!Serde State} fail (table : CeremonyTable) (ceremony : N) (now : SystemTime)
    : IOp (Ceremony State) :=
  now_ms ← pure_op (timestamp_millis now);
  rd ← atomic fail (
    _ ← remove_expired_identity_records now_ms;
    row ← read (λ i, ok_or (ceremonies table i !! ceremony ≫= λ row : CeremonyRow,
            if now_ms <? cy_expires_at_ms row then Some row else None) authentication_failed);
    _ ← write (λ i, set_ceremonies table (delete ceremony (ceremonies table i)) i);
    device ← take_sign_in ceremony;
    mret (row, device));
  state ← pure_op (decode (cy_state_json rd.1));
  mret (MkCeremony (cy_principal rd.1) (cy_surface rd.1) state rd.2).

Definition claim_registration_ceremony fail (ceremony : N) (now : SystemTime) : IOp (Ceremony PasskeyRegistration) :=
  claim_ceremony fail registration_table ceremony now.
Definition claim_authentication_ceremony fail (ceremony : N) (now : SystemTime) : IOp (Ceremony PasskeyAuthentication) :=
  claim_ceremony fail authentication_table ceremony now.

Definition load_passkeys_for_authentication p i : Result ControlError (list Passkey) :=
  passkeys ← load_passkeys p i;
  match passkeys with [] => Err authentication_failed | _ => Ok passkeys end.

(** ** Sign-in ([browser_identity.rs]) *)
Inductive SignIn := SignInBrowser (grant : TicketGrant) | SignInDevice (device : SignedInDevice).

(** A read of the database, or the failure of its connection. *)
Definition reading {A} fail (q : IdentityDb → Result ControlError A) : IOp A := atomic fail (read q).

Definition start_registration (d : Draw) (token : string) (surface : SurfaceRef)
    (device : option DeviceRegistration) : IOp (N * CreationChallengeResponse) :=
  bootstrap ← reading (draw_failure d 0) (load_registration_bootstrap token (draw_now d));
  let p := rb_principal bootstrap in
  _ ← match device with
      | Some device => reading (draw_failure d 1) (check_device_registration p surface device)
      | None => mret tt
      end;
  let excluded := cred_id <$> rb_passkeys bootstrap in
  os ← pure_op (map_err (λ error, store_error ("passkey registration could not start: " +:+ error))
         (start_passkey_registration (draw_random d) (as_uuid p) (show_id p) "Renoa"
            (match excluded with [] => None | _ => Some excluded end)));
  expires_at ← pure_op (expiry (draw_now d) CEREMONY_LIFETIME);
  _ ← save_registration_ceremony (draw_failure d 2) token p surface (draw_ceremony d) os.2 device expires_at (draw_now d);
  mret (draw_ceremony d, os.1).

(** [finish_registration] after the claim of its ceremony. *)
Definition complete_registration (d : Draw) (ceremony : N) (credential : RegisterPublicKeyCredential)
    (device_proof : option string) (c : Ceremony PasskeyRegistration) : IOp SignIn :=
  _ ← pure_op (check_registration_proof ceremony (ceremony_device c) device_proof);
  passkey ← pure_op (ok_or (finish_passkey_registration credential (ceremony_state c)) authentication_failed);
  match ceremony_device c with
  | Some registration =>
      s ← store_registration_and_device (draw_failure d 1) (ceremony_principal c) (ceremony_surface c) passkey
            registration (draw_secret d 0) (draw_device d) (draw_now d);
      mret (SignInDevice s)
  | None =>
      grant ← pure_op (new_ticket d);
      _ ← store_registration_and_ticket (draw_failure d 1) (ceremony_principal c) (ceremony_surface c) passkey
            grant (draw_now d) (draw_later d);
      mret (SignInBrowser grant)
  end.

Definition finish_registration (d : Draw) (ceremony : N) (credential : RegisterPublicKeyCredential)
    (device_proof : option string) : IOp SignIn :=
  c ← claim_registration_ceremony (draw_failure d 0) ceremony (draw_now d);
  complete_registration d ceremony credential device_proof c.

Definition start_authentication (d : Draw) p (surface : SurfaceRef) (device : option DeviceRegistration)
    : IOp (N * RequestChallengeResponse) :=
  passkeys ← reading (draw_failure d 0) (load_passkeys_for_authentication p);
  os ← pure_op (map_err (λ error, store_error ("passkey authentication could not start: " +:+ error))
         (start_passkey_authentication (draw_random d) passkeys));
  expires_at ← pure_op (expiry (draw_now d) CEREMONY_LIFETIME);
  _ ← save_authentication_ceremony (draw_failure d 1) p surface (draw_ceremony d) os.2 device expires_at (draw_now d);
  mret (draw_ceremony d, os.1).

(** [finish_authentication] after the claim of its ceremony. *)
Definition complete_authentication (d : Draw) (ceremony : N) (credential : PublicKeyCredential)
    (device_proof : option string) (c : Ceremony PasskeyAuthentication) : IOp SignIn :=
  _ ← pure_op (check_registration_proof ceremony (ceremony_device c) device_proof);
  authentication ← pure_op (ok_or (finish_passkey_authentication credential (ceremony_state c)) authentication_failed);
  match ceremony_device c with
  | Some registration =>
      s ← update_passkey_and_store_device (draw_failure d 1) (ceremony_principal c) (ceremony_surface c) authentication
            registration (draw_secret d 0) (draw_device d) (draw_now d);
      mret (SignInDevice s)
  | None =>
      grant ← pure_op (new_ticket d);
      _ ← update_passkey_and_store_ticket (draw_failure d 1) (ceremony_principal c) (ceremony_surface c) authentication
            grant (draw_now d) (draw_later d);
      mret (SignInBrowser grant)
  end.

Definition finish_authentication (d : Draw) (ceremony : N) (credential : PublicKeyCredential)
    (device_proof : option string) : IOp SignIn :=
  c ← claim_authentication_ceremony (draw_failure d 0) ceremony (draw_now d);
  complete_authentication d ceremony credential device_proof c.

(** ** Remembered browsers ([browser_sessions.rs]) *)
Record BrowserSession := MkBrowserSession {
  session_principal : PrincipalId; session_token : string; session_expires_at_ms : Z }.

(** [browser_sessions s LEFT JOIN passkeys p ..]: an unexpired session whose
    passkey, when it has one, still belongs to its principal. *)
Definition live_session (hash : string) (now_ms : Z) i : option SessionRow :=
  row ← browser_sessions i !! hash;
  if (now_ms <? se_expires_at_ms row) &&
     match se_credential row with
     | None => true
     | Some credential =>
         match passkeys i !! credential with
         | Some key => bool_decide (pk_principal key = se_principal row)
         | None => false
         end
     end
  then Some row else None.

Definition session_expiry (now : SystemTime) : Result ControlError Z :=
  later ← ok_or (time_checked_add now SESSION_LIFETIME) (store_error "session expiry overflow");
  timestamp_millis later.

Definition renewed (expiry : Z) (row : SessionRow) : SessionRow := MkSessionRow (se_principal row) (se_credential row) expiry.

Definition authenticate fail (headers : list (option string)) (now : SystemTime) : IOp (option BrowserSession) :=
  match cookie_token headers with
  | None => mret None
  | Some token =>
      match secret_digest BROWSER_SESSION token with
      | None => mret None
      | Some hash =>
          now_ms ← pure_op (timestamp_millis now);
          expiry ← pure_op (session_expiry now);
          atomic fail (
            found ← query (live_session hash now_ms);
            match found with
            | None => mret None
            | Some row =>
                if se_expires_at_ms row - now_ms <? Z.quot (expiry - now_ms) 2 then
                  _ ← write (λ i, with_sessions (alter (renewed expiry) hash (browser_sessions i)) i);
                  mret (Some (MkBrowserSession (se_principal row) token expiry))
                else mret (Some (MkBrowserSession (se_principal row) token (se_expires_at_ms row)))
            end)
      end
  end.

Definition logout fail (headers : list (option string)) : IOp unit :=
  match cookie_token headers ≫= secret_digest BROWSER_SESSION with
  | None => mret tt
  | Some hash => atomic fail (write (λ i, with_sessions (delete hash (browser_sessions i)) i))
  end.

(** [BrowserSessions::revoke]. *)
Definition revoke_browsers fail p : IOp unit :=
  atomic fail (
    _ ← write (λ i, with_sessions (filter (λ kv : string * SessionRow, se_principal kv.2 ≠ p) (browser_sessions i)) i);
    write (λ i, with_pairings (filter (λ kv : string * PairingRow, pa_principal kv.2 ≠ p) (browser_pairings i)) i)).

Definition connection_ticket fail (entropy : Entropy) (browser : BrowserSession) (surface : SurfaceRef) (now : SystemTime)
    : IOp (option string) :=
  hash ← pure_op (ok_or (secret_digest BROWSER_SESSION (session_token browser)) authentication_failed);
  ticket ← pure_op (random_secret entropy);
  ticket_hash ← pure_op (ok_or (secret_digest CONNECTION_TICKET ticket) authentication_failed);
  now_ms ← pure_op (timestamp_millis now);
  expires ← pure_op (ok_or (checked_add_i64 now_ms 60000) (store_error "ticket expiry overflow"));
  atomic fail (
    found ← query (live_session hash now_ms);
    match found with
    | None => mret None
    | Some row =>
        _ ← remove_expired_tickets now_ms;
        _ ← insert_ticket ticket_hash (se_principal row) surface expires;
        mret (Some ticket)
    end).

(** ** Pairings ([browser_pairing_store.rs]) *)
Definition create_pairing fail (entropy : Entropy) p (expires_at clock : SystemTime) : IOp string :=
  now ← pure_op (timestamp_millis clock);
  expiry ← pure_op (timestamp_millis expires_at);
  _ ← pure_op (if expiry <=? now then Err (invalid "browser pairing expiry must be in the future") else Ok tt);
  token ← pure_op (random_secret entropy);
  hash ← pure_op (ok_or (secret_digest BROWSER_PAIRING token) authentication_failed);
  _ ← atomic fail (
        _ ← write (λ i, with_pairings (filter (λ kv : string * PairingRow, now < pa_expires_at_ms kv.2) (browser_pairings i)) i);
        insert_row browser_pairings with_pairings "browser_pairings.token_hash" hash (MkPairingRow p expiry None));
  mret token.

Definition claimed_by (session_hash : string) (row : PairingRow) : PairingRow :=
  MkPairingRow (pa_principal row) (pa_expires_at_ms row) (Some session_hash).

(** The transaction of [redeem]. *)
Definition redeem_body (hash session_hash : string) (now_ms expiry : Z) : ITx (PrincipalId * Z) :=
  row ← read (λ i, ok_or (browser_pairings i !! hash ≫= λ row : PairingRow,
          if now_ms <? pa_expires_at_ms row then Some row else None) authentication_failed);
  expires_at_ms ←
    match pa_claimed row with
    | Some claimed =>
        _ ← guard (String.eqb claimed session_hash) authentication_failed;
        read (λ i, ok_or (browser_sessions i !! session_hash ≫= λ s : SessionRow,
          if bool_decide (se_principal s = pa_principal row) && (now_ms <? se_expires_at_ms s)
          then Some (se_expires_at_ms s) else None) authentication_failed)
    | None =>
        _ ← write (λ i, with_sessions (filter (λ kv : string * SessionRow, now_ms < se_expires_at_ms kv.2)
                          (browser_sessions i)) i);
        _ ← insert_row browser_sessions with_sessions "browser_sessions.token_hash" session_hash
              (MkSessionRow (pa_principal row) None expiry);
        _ ← write (λ i, with_pairings (alter (claimed_by session_hash) hash (browser_pairings i)) i);
        mret expiry
    end;
  mret (pa_principal row, expires_at_ms).

Definition redeem fail (token session : string) (now : SystemTime) : IOp (PrincipalId * Z) :=
  hash ← pure_op (ok_or (secret_digest BROWSER_PAIRING token) authentication_failed);
  session_hash ← pure_op (ok_or (secret_digest BROWSER_SESSION session) authentication_failed);
  now_ms ← pure_op (timestamp_millis now);
  later ← pure_op (ok_or (time_checked_add now SESSION_LIFETIME) (store_error "browser session expiry overflow"));
  expiry ← pure_op (timestamp_millis later);
  atomic fail (redeem_body hash session_hash now_ms expiry).

(** [BrowserSessions::pair]. *)
Definition pair_browser fail (token nonce : string) (now : SystemTime) : IOp BrowserSession :=
  session ← pure_op (ok_or (session_for token nonce) authentication_failed);
  pe ← redeem fail token session now;
  mret (MkBrowserSession pe.1 session pe.2).

(** ** Share tickets ([share_links.rs]) *)
(** [now + SHARE_TICKET_LIFETIME] cannot overflow: [timestamp_millis] accepted
    [now]. The two statements are two transactions. *)
Definition issue_share_ticket fail1 fail2 (entropy : Entropy) p (share : N) (now : SystemTime) : IOp string :=
  ticket ← pure_op (random_secret entropy);
  digest ← pure_op (ok_or (secret_digest SHARE_TICKET ticket) (store_error "generated an invalid share ticket"));
  now_ms ← pure_op (timestamp_millis now);
  expires_at_ms ← pure_op (timestamp_millis (now + SHARE_TICKET_LIFETIME));
  _ ← atomic fail1 (write (λ i, with_share_tickets
        (filter (λ kv : string * ShareRow, now_ms < sh_expires_at_ms kv.2) (share_tickets i)) i));
  _ ← atomic fail2 (insert_row share_tickets with_share_tickets "share_tickets.ticket_digest" digest
        (MkShareRow p share expires_at_ms));
  mret ticket.

(** The row both statements of [ticket_statement] name. *)
Definition live_share (digest : string) (share : N) (now_ms : Z) i : option PrincipalId :=
  row ← share_tickets i !! digest;
  if bool_decide (sh_share row = share) && (now_ms <? sh_expires_at_ms row) then Some (sh_principal row) else None.

Definition share_ticket_reader (share : N) (ticket : string) (now : SystemTime) i : Result ControlError (option PrincipalId) :=
  match secret_digest SHARE_TICKET ticket with
  | None => Ok None
  | Some digest => now_ms ← timestamp_millis now; Ok (live_share digest share now_ms i)
  end.

Definition redeem_share_ticket fail (share : N) (ticket : string) (now : SystemTime) : IOp (option PrincipalId) :=
  match secret_digest SHARE_TICKET ticket with
  | None => mret None
  | Some digest =>
      now_ms ← pure_op (timestamp_millis now);
      atomic fail (
        reader ← query (live_share digest share now_ms);
        _ ← write (λ i, if bool_decide (is_Some reader) then with_share_tickets (delete digest (share_tickets i)) i else i);
        mret reader)
  end.
End browser.
