(* ===== verification/IdentitySound.v ===== *)
(** * Devices and browsers over the life of a coordinator

    [identity_wf] is what the identity tables always satisfy; [identity_le] is
    how they evolve; [held] are the one-time tokens they hold. A statement
    [follows] each of these relations, so that transactions, operations and
    whole lifetimes do. *)
From S2P Require Import Prelude Json Text Protocol Transaction Control Identity Browser.

(** ** Relations that transactions follow *)
Section follows.
Context {S E : Type} (R : S → S → Prop) `{!PreOrder R}.

Definition follows {A} (m : Tx S E A) : Prop := ∀ s a s', m s = Ok (a, s') → R s s'.
Definition op_follows {A} (o : Op S E A) : Prop := ∀ s, R s (o s).2.

Lemma follows_bind {A B} (m : Tx S E A) (f : A → Tx S E B) :
  follows m → (∀ a, follows (f a)) → follows (m ≫= f).
Proof. intros Hm Hf s b s' (a & s1 & H1 & H2)%txn_bind_ok. trans s1; [by eapply Hm|by eapply Hf]. Qed.
Lemma follows_ret {A} (a : A) : follows (mret a).
Proof. intros s b s' [_ ->]%txn_ret_ok. done. Qed.
Lemma follows_throw {A} (e : E) : follows (throw e : Tx S E A).
Proof. by intros s b s' ?. Qed.
Lemma follows_lift {A} (r : Result E A) : follows (lift r).
Proof. intros s b s' [_ ->]%txn_lift_ok. done. Qed.
Lemma follows_read {A} (q : S → Result E A) : follows (read q).
Proof. intros s b s' [_ ->]%txn_read_ok. done. Qed.
Lemma follows_query {A} (q : S → A) : follows (query q).
Proof. intros s b s' [_ ->]%txn_query_ok. done. Qed.
Lemma follows_guard b (e : E) : follows (guard b e).
Proof. intros s u s' [_ ->]%txn_guard_ok. done. Qed.
Lemma follows_write (f : S → S) : (∀ s, R s (f s)) → follows (write f).
Proof. intros Hf s u s' ->%write_ok. done. Qed.

Lemma op_follows_bind {A B} (o : Op S E A) (f : A → Op S E B) :
  op_follows o → (∀ a, op_follows (f a)) → op_follows (o ≫= f).
Proof.
  intros Ho Hf s. unfold mbind, Op_bind. specialize (Ho s). destruct (o s) as [[a|e] s1]; [|done].
  cbn in Ho. trans s1; [done|apply Hf].
Qed.
Lemma op_follows_then {A B} (o : Op S E A) (f : A → Op S E B) :
  op_follows o → (∀ s a s', o s = (Ok a, s') → op_follows (f a)) → op_follows (o ≫= f).
Proof.
  intros Ho Hf s. unfold mbind, Op_bind. specialize (Ho s). destruct (o s) as [[a|e] s1] eqn:Es; [|done].
  cbn in Ho. trans s1; [done|by eapply Hf].
Qed.
Lemma op_follows_pure_then {A B} (r : Result E A) (f : A → Op S E B) :
  (∀ a, r = Ok a → op_follows (f a)) → op_follows (pure_op r ≫= f).
Proof. intros Hf s. unfold mbind, Op_bind, pure_op. destruct r as [a|e]; [by apply Hf|cbn; reflexivity]. Qed.
Lemma op_follows_ret {A} (a : A) : op_follows (mret a).
Proof. intros s. reflexivity. Qed.
Lemma op_follows_pure {A} (r : Result E A) : op_follows (pure_op r).
Proof. intros s. reflexivity. Qed.
Lemma op_follows_inspect {A} (q : S → A) : op_follows (inspect q).
Proof. intros s. reflexivity. Qed.
Lemma op_follows_atomic {A} fail (m : Tx S E A) : follows m → op_follows (atomic fail m).
Proof.
  intros Hm s. unfold atomic, commit. destruct fail; [done|]. destruct (m s) as [[a s']|] eqn:Es; [by eapply Hm|done].
Qed.
End follows.

(** ** Inversion of operations *)
Section operations.
Context {S E : Type}.

Lemma op_bind_ok {A B} (o : Op S E A) (f : A → Op S E B) b s s' :
  (o ≫= f) s = (Ok b, s') ↔ ∃ a s1, o s = (Ok a, s1) ∧ f a s1 = (Ok b, s').
Proof. unfold mbind, Op_bind. destruct (o s) as [[a|e] s1]; naive_solver. Qed.
Lemma op_ret_ok {A} (a b : A) (s s' : S) : (mret a : Op S E A) s = (Ok b, s') ↔ b = a ∧ s' = s.
Proof. unfold mret, Op_ret. naive_solver. Qed.
Lemma pure_op_ok {A} (r : Result E A) a (s s' : S) : pure_op r s = (Ok a, s') ↔ r = Ok a ∧ s' = s.
Proof. unfold pure_op. naive_solver. Qed.
Lemma inspect_ok {A} (q : S → A) a s s' : (inspect q : Op S E A) s = (Ok a, s') ↔ a = q s ∧ s' = s.
Proof. unfold inspect. naive_solver. Qed.
Lemma atomic_ok {A} fail (m : Tx S E A) a s s' : atomic fail m s = (Ok a, s') ↔ fail = None ∧ m s = Ok (a, s').
Proof. unfold atomic. destruct fail; [naive_solver|]. rewrite commit_ok. naive_solver. Qed.
End operations.

(** Invert a successful operation into its steps. *)
Ltac op_inv :=
  repeat match goal with
  | H : (_ ≫= _) _ = (Ok _, _) |- _ =>
      let a := fresh "a" in let s1 := fresh "s1" in let H1 := fresh "Ho" in let H2 := fresh "Ht" in
      apply op_bind_ok in H as (a & s1 & H1 & H2); cbn beta in H2
  | H : (mret _) _ = (Ok _, _) |- _ => apply op_ret_ok in H as [? ?]
  | H : pure_op _ _ = (Ok _, _) |- _ => let E := fresh "E" in apply pure_op_ok in H as [E ?]
  | H : inspect _ _ = (Ok _, _) |- _ => apply inspect_ok in H as [? ?]
  | H : atomic _ _ _ = (Ok _, _) |- _ => apply atomic_ok in H as [? ?]
  | H : ok_or _ _ = Ok _ |- _ => apply ok_or_ok in H
  end; subst.

Create HintDb follow.
#[export] Hint Resolve follows_ret follows_throw follows_lift follows_read follows_query follows_guard
  op_follows_ret op_follows_pure op_follows_inspect : follow.

(** Follow a computation statement by statement. *)
Ltac follow :=
  repeat match goal with
  | |- ∀ _, _ => intros ?
  | |- _ => solve [eauto with follow typeclass_instances]
  | |- follows _ (_ ≫= _) => apply follows_bind; [typeclasses eauto|..]
  | |- op_follows _ (_ ≫= _) => apply op_follows_bind; [typeclasses eauto|..]
  | |- op_follows _ (atomic _ _) => apply op_follows_atomic; [typeclasses eauto|]
  | |- follows _ (match ?x with _ => _ end) => destruct x
  | |- op_follows _ (match ?x with _ => _ end) => destruct x
  end.

(** ** Inversion of constrained statements *)
Lemma constraint_run `{CS : ControlSerde} `{LT : LibraryTexts} {T} b what (u : unit) (s s' : T) :
  constraint b what s = Ok (u, s') ↔ b = true ∧ s' = s.
Proof. apply txn_guard_ok. Qed.

Ltac itx_inv :=
  tx_inv; repeat match goal with H : constraint _ _ _ = Ok (_, _) |- _ => apply constraint_run in H as [? ->] end; tx_inv.

Ltac ok_ors := repeat match goal with H : ok_or _ _ = Ok _ |- _ => apply ok_or_ok in H end.

Section sound.
Context `{CS : ControlSerde} `{LT : LibraryTexts} `{DG : Digest} `{DC : DeviceCrypto} `{WA : !WebAuthn}.
Context `{!ControlSerdeLaws}.
Implicit Types (i : IdentityDb) (d : DeviceId) (p : PrincipalId) (fail : option ControlError).

(** ** The invariant *)

(** [d] is an active device of [p]. *)
Definition device_of i d p : Prop :=
  ∃ row surface, devices i !! d = Some row ∧ d_revoked row = false ∧
    from_str (d_peer_json row) = Some (PeerSurface p surface).

Record identity_wf i : Prop := {
  iw_peers : ∀ d row, devices i !! d = Some row → is_Some (from_str (A := PeerIdentity) (d_peer_json row));
  iw_enrollments : ∀ h row, enrollments i !! h = Some row → is_Some (from_str (A := PeerIdentity) (en_peer_json row));
  iw_hashes : ∀ d1 d2 r1 r2, devices i !! d1 = Some r1 → devices i !! d2 = Some r2 →
    d_credential_hash r1 = d_credential_hash r2 → d1 = d2;
  iw_keys : ∀ d k, device_keys i !! d = Some k → is_Some (key_from_bytes (dk_public_key k)) ∧
    ∃ row surface, devices i !! d = Some row ∧ from_str (d_peer_json row) = Some (PeerSurface (dk_principal k) surface);
  iw_distinct : ∀ d1 d2 k1 k2, device_keys i !! d1 = Some k1 → device_keys i !! d2 = Some k2 →
    dk_public_key k1 = dk_public_key k2 → d1 = d2;
  iw_bounded : ∀ p, Z.of_nat (length (active_keys p i)) ≤ MAX_DEVICES_PER_PRINCIPAL;
  iw_tokens : ∀ d r, push_tokens i !! d = Some r → device_of i d (pt_principal r);
  iw_token_once : ∀ d1 d2 r1 r2, push_tokens i !! d1 = Some r1 → push_tokens i !! d2 = Some r2 →
    pt_token r1 = pt_token r2 → d1 = d2;
  iw_notice_keys : ∀ d r, notice_keys i !! d = Some r → device_of i d (nk_principal r);
  iw_notices : ∀ n r, setup_notices i !! n = Some r → device_of i (no_device r) (no_principal r);
  iw_sessions : ∀ h r c, browser_sessions i !! h = Some r → se_credential r = Some c →
    ∃ key, passkeys i !! c = Some key ∧ pk_principal key = se_principal r;
  iw_ceremonies : active_ceremonies i ≤ MAX_ACTIVE_CEREMONIES;
  iw_sign_ins : ∀ n r, device_sign_ins i !! n = Some r → is_Some (key_from_bytes (si_public_key r));
  iw_counters : ∀ c row, passkeys i !! c = Some row → 0 ≤ pk_counter row;
}.

Definition keeps_wf i i' : Prop := identity_wf i → identity_wf i'.
#[export] Instance keeps_wf_preorder : PreOrder keeps_wf.
Proof. split; unfold keeps_wf; red; auto. Qed.

(** A step that changes only some tables: the rest of the invariant stays. *)
Ltac wf_same := intros [? ? ? ? ? ? ? ? ? ? ? ? ? ?]; split; try assumption.

Lemma filter_subset `{Countable K} {V} (P : K * V → Prop) `{!∀ kv, Decision (P kv)} (m : gmap K V) k v :
  filter P m !! k = Some v → m !! k = Some v.
Proof. intros [? _]%map_lookup_filter_Some. done. Qed.

(** ** Statements keep the invariant *)
Lemma insert_enrollment_wf h row : is_Some (from_str (A := PeerIdentity) (en_peer_json row)) →
  follows keeps_wf (insert_enrollment h row).
Proof.
  unfold insert_enrollment. intros Hp i u i' HT. itx_inv. wf_same. cbn.
  intros h' row' [[<- <-]|[_ ?]]%lookup_insert_Some; eauto.
Qed.

Lemma active_keys_same p i i' : device_keys i' = device_keys i →
  (∀ d k, device_keys i !! d = Some k → is_active i' d = is_active i d) → active_keys p i' = active_keys p i.
Proof.
  intros E Ha. unfold active_keys, select. rewrite E. apply List.filter_ext_in. intros [d k] Hin. cbn.
  rewrite (Ha d k); [done|]. apply elem_of_map_to_list, list_elem_of_In, Hin.
Qed.

Lemma device_of_insert i d row d' p : devices i !! d = None → device_of i d' p →
  device_of (with_devices (<[d := row]> (devices i)) i) d' p.
Proof.
  intros Hn (r & s & Hr & ? & ?). exists r, s. split_and!; [|done..]. cbn. rewrite lookup_insert_ne; [done|congruence].
Qed.

Lemma insert_device_wf d row : is_Some (from_str (A := PeerIdentity) (d_peer_json row)) →
  follows keeps_wf (insert_device d row).
Proof.
  unfold insert_device. intros Hp i u i' HT. itx_inv. split_bools.
  rename select (tbl_exists _ _ = false) into Hh. rewrite tbl_exists_false in Hh.
  wf_same; cbn.
  - intros d' r [[<- <-]|[_ ?]]%lookup_insert_Some; eauto.
  - intros d1 d2 r1 r2 [[<- <-]|[? HA]]%lookup_insert_Some [[<- <-]|[? HB]]%lookup_insert_Some Heq; [done|..|by eauto].
    + specialize (Hh _ _ HB). cbn in Hh. apply String.eqb_neq in Hh. congruence.
    + specialize (Hh _ _ HA). cbn in Hh. apply String.eqb_neq in Hh. congruence.
  - intros d' k Hk. destruct (iw_keys0 d' k Hk) as (? & r & s & Hr & ?). split; [done|].
    exists r, s. split; [|done]. rewrite lookup_insert_ne; [done|congruence].
  - intros p. erewrite active_keys_same; [apply iw_bounded0|done|]. intros d' k Hk.
    destruct (iw_keys0 d' k Hk) as (_ & r & s & Hr & _). unfold is_active. cbn. rewrite lookup_insert_ne; [done|congruence].
  - intros d' r Hr. by apply device_of_insert, iw_tokens0.
  - intros d' r Hr. by apply device_of_insert, iw_notice_keys0.
  - intros n r Hr. eapply device_of_insert, iw_notices0, Hr. done.
Qed.

Lemma filter_length_le {A} (f g : A → bool) l : (∀ x, x ∈ l → g x = true → f x = true) →
  (length (List.filter g l) ≤ length (List.filter f l))%nat.
Proof.
  induction l as [|x l IH]; intros Hfg; cbn; [done|]. assert (length (List.filter g l) ≤ length (List.filter f l))%nat as Hl.
  { apply IH. intros y Hy. apply Hfg. by right. }
  specialize (Hfg x ltac:(left)). destruct (g x); [rewrite Hfg by done; cbn; lia|destruct (f x); cbn; lia].
Qed.

Lemma active_keys_fewer p i i' : device_keys i' = device_keys i → (∀ d, is_active i' d = true → is_active i d = true) →
  (length (active_keys p i') ≤ length (active_keys p i))%nat.
Proof.
  intros E Ha. unfold active_keys, select. rewrite E. apply filter_length_le. intros [d k] _. cbn.
  rewrite !andb_true_iff. naive_solver.
Qed.

(** What [mark_revoked] leaves of the tables. *)
Definition without_device d i : IdentityDb :=
  forget_device d (forget_device_token d (with_devices (alter revoked_row d (devices i)) i)).

Lemma mark_revoked_run d i : mark_revoked d i = Ok (bool_decide (is_Some (devices i !! d)), without_device d i).
Proof. done. Qed.

Lemma device_of_without d i d' p : d' ≠ d → device_of i d' p → device_of (without_device d i) d' p.
Proof. intros Hne (r & s & Hr & ? & ?). exists r, s. cbn. by rewrite lookup_alter_ne. Qed.

Lemma without_device_wf d : ∀ i, keeps_wf i (without_device d i).
Proof.
  intros i. wf_same; cbn.
  - intros d' row [(<- & r & Hr & ->)|[_ Hr]]%lookup_alter_Some; cbn; eauto.
  - intros d1 d2 r1 r2 HA HB Heq.
    assert (∀ d' r', alter revoked_row d (devices i) !! d' = Some r' →
      ∃ r, devices i !! d' = Some r ∧ d_credential_hash r = d_credential_hash r') as Hold.
    { intros d' r' [(<- & r & Hr & ->)|[_ Hr]]%lookup_alter_Some; eauto. }
    destruct (Hold _ _ HA) as (? & ? & ?), (Hold _ _ HB) as (? & ? & ?). eapply iw_hashes0; [done..|congruence].
  - intros d' k Hk. destruct (iw_keys0 d' k Hk) as (? & r & s & Hr & ?). split; [done|].
    destruct (decide (d' = d)) as [->|Hne].
    + exists (revoked_row r), s. by rewrite lookup_alter_eq, Hr.
    + exists r, s. by rewrite lookup_alter_ne.
  - intros p. etrans; [|apply (iw_bounded0 p)]. apply inj_le, active_keys_fewer; [done|]. intros d'. unfold is_active. cbn.
    destruct (decide (d' = d)) as [->|Hne]; [rewrite lookup_alter_eq|by rewrite lookup_alter_ne]. by destruct (devices i !! d).
  - intros d' r [? Hr]%lookup_delete_Some. apply device_of_without; [done|]. by apply iw_tokens0.
  - intros d1 d2 r1 r2 [_ HA]%lookup_delete_Some [_ HB]%lookup_delete_Some. by apply iw_token_once0.
  - intros d' r [? Hr]%lookup_delete_Some. apply device_of_without; [done|]. by apply iw_notice_keys0.
  - intros n r [Hr Hd]%map_lookup_filter_Some. apply device_of_without; [done|]. by eapply iw_notices0.
Qed.

Lemma mark_revoked_wf d : follows keeps_wf (mark_revoked d).
Proof. intros i b i' [= <- <-]. apply without_device_wf. Qed.

(** ** Sign-in keeps the invariant *)
Lemma device_of_rekeyed d hash i d' p : device_of i d' p →
  device_of (with_devices (alter (rekeyed hash) d (devices i)) i) d' p.
Proof.
  intros (r & s & Hr & ? & ?). destruct (decide (d' = d)) as [->|Hne].
  - exists (rekeyed hash r), s. cbn. by rewrite lookup_alter_eq, Hr.
  - exists r, s. cbn. by rewrite lookup_alter_ne.
Qed.

Lemma update_credential_hash_wf d hash : follows keeps_wf (update_credential_hash d hash).
Proof.
  unfold update_credential_hash. intros i u i' HT. itx_inv. split_bools.
  rename select (tbl_exists _ _ = false) into Hh. rewrite tbl_exists_false in Hh. wf_same; cbn.
  - intros d' row [(<- & r & Hr & ->)|[_ Hr]]%lookup_alter_Some; cbn; eauto.
  - assert (∀ d' r', d' ≠ d → devices i !! d' = Some r' → d_credential_hash r' ≠ hash) as Hother.
    { intros d' r' Hne Hr. specialize (Hh _ _ Hr). cbn in Hh. rewrite bool_decide_false in Hh by done.
      cbn in Hh. by apply String.eqb_neq in Hh. }
    intros d1 d2 r1 r2 [(<- & ? & HA & ->)|[Hn1 HA]]%lookup_alter_Some [(<- & ? & HB & ->)|[Hn2 HB]]%lookup_alter_Some Heq;
      cbn in *; [done|..].
    + exfalso. by eapply Hother.
    + exfalso. by eapply Hother.
    + by eapply iw_hashes0.
  - intros d' k Hk. destruct (iw_keys0 d' k Hk) as (? & r & s & Hr & ?). split; [done|].
    destruct (decide (d' = d)) as [->|Hne].
    + exists (rekeyed hash r), s. by rewrite lookup_alter_eq, Hr.
    + exists r, s. by rewrite lookup_alter_ne.
  - intros p. erewrite active_keys_same; [apply iw_bounded0|done|]. intros d' k Hk. unfold is_active. cbn.
    destruct (decide (d' = d)) as [->|Hne]; [rewrite lookup_alter_eq|by rewrite lookup_alter_ne]. by destruct (devices i !! d).
  - intros d' r Hr. by apply device_of_rekeyed, iw_tokens0.
  - intros d' r Hr. by apply device_of_rekeyed, iw_notice_keys0.
  - intros n r Hr. eapply device_of_rekeyed, iw_notices0, Hr.
Qed.

Lemma filter_length_perm {A} (f : A → bool) l l' : l ≡ₚ l' → length (List.filter f l) = length (List.filter f l').
Proof. induction 1 as [|x l l' _ IH|x y l|]; cbn; [done|destruct (f x); cbn; lia|by destruct (f x), (f y)|lia]. Qed.

Lemma select_insert_length {K V} `{Countable K} (P : K → V → bool) k v (m : gmap K V) : m !! k = None →
  length (select P (<[k := v]> m)) = ((if P k v then 1 else 0) + length (select P m))%nat.
Proof.
  intros Hk. unfold select. rewrite (filter_length_perm _ _ _ (map_to_list_insert _ _ _ Hk)). cbn. by destruct (P k v).
Qed.

Lemma select_alter_length {K V} `{Countable K} (P : K → V → bool) (f : V → V) k (m : gmap K V) :
  (∀ v, P k (f v) = P k v) → length (select P (alter f k m)) = length (select P m).
Proof.
  intros HP. destruct (m !! k) as [v|] eqn:Hk; [|by rewrite alter_id'].
  rewrite (alter_alt_Some f m k v Hk), <- insert_delete_eq.
  rewrite <- (insert_delete_id m k v Hk) at 2. by rewrite !select_insert_length, HP by apply lookup_delete_eq.
Qed.

Lemma relabel_wf d label : ∀ i, keeps_wf i (with_device_keys (alter (relabelled label) d (device_keys i)) i).
Proof.
  intros i.
  assert (∀ d' k', alter (relabelled label) d (device_keys i) !! d' = Some k' → ∃ k, device_keys i !! d' = Some k ∧
    dk_public_key k = dk_public_key k' ∧ dk_principal k = dk_principal k') as Hold.
  { intros d' k' [(<- & k & Hk & ->)|[_ Hk]]%lookup_alter_Some; eauto. }
  wf_same; cbn.
  - intros d' k' (k & Hk & <- & <-)%Hold. by apply iw_keys0.
  - intros d1 d2 k1 k2 (? & ? & E1 & _)%Hold (? & ? & E2 & _)%Hold Heq. eapply iw_distinct0; [done..|congruence].
  - intros p. etrans; [|apply (iw_bounded0 p)]. apply inj_le, Nat.eq_le_incl. unfold active_keys. cbn.
    apply (select_alter_length (λ d k, bool_decide (dk_principal k = p) && is_active i d)). done.
Qed.

Lemma insert_device_key_wf d row i u i' : insert_device_key d row i = Ok (u, i') → identity_wf i →
  is_Some (key_from_bytes (dk_public_key row)) →
  (∃ r surface, devices i !! d = Some r ∧ from_str (d_peer_json r) = Some (PeerSurface (dk_principal row) surface)) →
  Z.of_nat (length (active_keys (dk_principal row) i)) < MAX_DEVICES_PER_PRINCIPAL → identity_wf i'.
Proof.
  unfold insert_device_key. intros HT Hwf Hkey Hdev Hlt. itx_inv. split_bools.
  rename select (tbl_exists _ _ = false) into Hh. rewrite tbl_exists_false in Hh. revert Hwf. wf_same; cbn.
  - intros d' k [[<- <-]|[_ ?]]%lookup_insert_Some; [done|by apply iw_keys0].
  - intros d1 d2 k1 k2 [[<- <-]|[? HA]]%lookup_insert_Some [[<- <-]|[? HB]]%lookup_insert_Some Heq; [done|..|by eauto].
    + specialize (Hh _ _ HB). cbn in Hh. apply String.eqb_neq in Hh. congruence.
    + specialize (Hh _ _ HA). cbn in Hh. apply String.eqb_neq in Hh. congruence.
  - intros p. specialize (iw_bounded0 p). unfold active_keys in *. cbn.
    rewrite (select_insert_length (λ d k, bool_decide (dk_principal k = p) && is_active i d)) by done. cbn.
    destruct (decide (dk_principal row = p)) as [<-|Hne]; [destruct (_ && _); lia|].
    rewrite bool_decide_false by done. cbn. lia.
Qed.

Lemma encode_peer (peer : PeerIdentity) t : encode peer = Ok t → from_str t = Some peer.
Proof. unfold encode. intros Ht%ok_or_ok. by eapply from_to_string. Qed.

Lemma insert_device_run d row i u i' : insert_device d row i = Ok (u, i') →
  i' = with_devices (<[d := row]> (devices i)) i ∧ devices i !! d = None.
Proof. unfold insert_device. intros HT. itx_inv. by split_bools. Qed.

Lemma classify_new p surface reg i : classify p surface reg i = Ok NewDevice →
  Z.of_nat (length (active_keys p i)) < MAX_DEVICES_PER_PRINCIPAL.
Proof.
  unfold classify. destruct (device_of_key _ _) as [[d row]|].
  - intros (peer & _ & H')%result_bind_ok. by repeat case_match.
  - case_match; [done|]. intros _. by apply Z.leb_gt.
Qed.

(** A registration holds a key its parser accepted. *)
Definition typed_registration (r : DeviceRegistration) : Prop := is_Some (key_from_bytes (reg_key r)).

Lemma sign_in_device_wf p surface reg entropy nd now : typed_registration reg →
  follows keeps_wf (sign_in_device p surface reg entropy nd now).
Proof.
  intros Hreg i s i' HT Hwf. unfold sign_in_device in HT. tx_inv.
  match goal with H : classify _ _ _ _ = Ok ?r |- _ => rename H into Hc; destruct r as [d|] end.
  - tx_inv. rename select (update_credential_hash _ _ _ = _) into Hu.
    apply relabel_wf. by eapply (update_credential_hash_wf _ _ _ _ _ Hu).
  - tx_inv. rename select (insert_device _ _ _ = _) into Hd. rename select (encode _ = _) into He.
    rename select (insert_device_key _ _ _ = _) into Hk. apply encode_peer in He.
    match type of Hd with _ = Ok (_, ?j) => assert (identity_wf j) as Hwf1 by
      (eapply insert_device_wf; [|exact Hd|done]; cbn; by rewrite He) end.
    apply insert_device_run in Hd as [-> Hnone].
    eapply insert_device_key_wf; [exact Hk|done|done| |].
    + cbn. rewrite lookup_insert_eq. do 2 eexists. split; [done|exact He].
    + erewrite active_keys_same; [by eapply classify_new|done|]. intros d' k Hk'. unfold is_active. cbn.
      destruct (iw_keys _ Hwf d' k Hk') as (_ & r & ? & Hr & _). rewrite lookup_insert_ne; [done|congruence].
Qed.

(** ** Push tokens and notices *)
Lemma forget_device_token_wf d : ∀ i, keeps_wf i (forget_device_token d i).
Proof.
  intros i. wf_same; cbn.
  - intros d' r [_ ?]%lookup_delete_Some. by apply iw_tokens0.
  - intros d1 d2 r1 r2 [_ ?]%lookup_delete_Some [_ ?]%lookup_delete_Some. by apply iw_token_once0.
Qed.

Lemma active_principal d p i : active_device_principal d i = Ok p → device_of i d p.
Proof.
  unfold active_device_principal. intros (row & (r & Hr & Hrev)%ok_or_ok%bind_Some & (peer & Hp & Hpeer)%result_bind_ok)%result_bind_ok.
  destruct (d_revoked r) eqn:Er; [done|]. injection Hrev as <-. unfold decode in Hp. apply ok_or_ok in Hp.
  destruct peer; [|done]. injection Hpeer as <-. by exists r, surface.
Qed.

Lemma device_of_fun i d p q : device_of i d p → device_of i d q → p = q.
Proof. intros (r & s & ? & _ & ?) (r' & s' & ? & _ & ?). by simplify_eq. Qed.

Lemma upsert_token_wf d p provider token i u i' : upsert_token d p provider token i = Ok (u, i') → device_of i d p →
  identity_wf i → identity_wf i'.
Proof.
  unfold upsert_token. intros HT Hd. itx_inv. split_bools.
  rename select (tbl_exists _ _ = false) into Hh. rewrite tbl_exists_false in Hh. wf_same; cbn.
  - intros d' r [[<- <-]|[_ ?]]%lookup_insert_Some; [|by apply iw_tokens0].
    destruct (push_tokens i !! d) as [r|] eqn:Er; cbn; [by apply iw_tokens0|done].
  - assert (∀ d' r, d ≠ d' → push_tokens i !! d' = Some r → pt_token r ≠ token) as Hother.
    { intros d' r Hne Hr. specialize (Hh _ _ Hr). cbn in Hh. rewrite bool_decide_false in Hh by done.
      cbn in Hh. by apply String.eqb_neq in Hh. }
    intros d1 d2 r1 r2 [[<- <-]|[? HA]]%lookup_insert_Some [[<- <-]|[? HB]]%lookup_insert_Some Heq; [done|..|by eauto].
    + exfalso. eapply (Hother _ _ _ HB). rewrite <- Heq. by destruct (push_tokens i !! d).
    + exfalso. eapply (Hother _ _ _ HA). rewrite Heq. by destruct (push_tokens i !! d).
  Unshelve. all: done.
Qed.

Lemma set_push_token_wf fail d provider token : op_follows keeps_wf (set_push_token fail d provider token).
Proof.
  apply op_follows_atomic; [apply _|]. intros i r i' HT Hwf. tx_inv.
  rename select (active_device_principal _ _ = _) into Hp. apply active_principal in Hp.
  rename select (upsert_token _ _ _ _ _ = _) into Hu.
  match goal with H : match holder_of token ?i with _ => _ end ?i = Ok _ |- _ => rename H into Hm end.
  eapply upsert_token_wf; [exact Hu|..].
  - destruct (holder_of token i) as [[d' r']|]; [|by tx_inv].
    destruct (decide _); [|by tx_inv]. destruct (decide (d' = d)); by tx_inv.
  - destruct (holder_of token i) as [[d' r']|]; [|by tx_inv].
    destruct (decide _); [|by tx_inv]. destruct (decide (d' = d)); tx_inv; [done|by apply forget_device_token_wf].
Qed.

Lemma surface_principal_ok d p i : surface_principal d i = Ok (Some p) → device_of i d p.
Proof.
  unfold surface_principal. destruct (devices i !! d) as [r|] eqn:Hr; cbn; [|done]. destruct (d_revoked r) eqn:Er; [done|].
  intros (peer & Hp & Hpeer)%result_bind_ok. unfold decode in Hp. apply ok_or_ok in Hp. destruct peer; [|done].
  injection Hpeer as ->. by exists r, surface.
Qed.

Lemma set_notice_key_wf fail d key : op_follows keeps_wf (set_notice_key fail d key).
Proof.
  apply op_follows_atomic; [apply _|]. intros i r i' HT. itx_inv.
  rename select (surface_principal _ _ = _) into Hp. apply surface_principal_ok in Hp. wf_same; cbn.
  intros d' r' [[<- <-]|[_ ?]]%lookup_insert_Some; [|by apply iw_notice_keys0].
  destruct (notice_keys i !! d) as [k|] eqn:Ek; cbn; [by apply iw_notice_keys0|done].
Qed.

Lemma fewer_notices_wf (m : gmap N NoticeRow) i : (∀ n r, m !! n = Some r → setup_notices i !! n = Some r) →
  keeps_wf i (with_notices m i).
Proof. intros Hm. wf_same; cbn. intros n r Hr%Hm. by eapply iw_notices0. Qed.

(** ** How the tables evolve *)
Record identity_le i i' : Prop := {
  il_devices : ∀ d row, devices i !! d = Some row → ∃ row', devices i' !! d = Some row' ∧
    d_peer_json row' = d_peer_json row ∧ (d_revoked row = true → d_revoked row' = true);
  il_keys : ∀ d k, device_keys i !! d = Some k → ∃ k', device_keys i' !! d = Some k' ∧
    dk_principal k' = dk_principal k ∧ dk_public_key k' = dk_public_key k ∧ dk_created_at_ms k' = dk_created_at_ms k;
  il_passkeys : ∀ c row, passkeys i !! c = Some row → ∃ row', passkeys i' !! c = Some row' ∧
    pk_principal row' = pk_principal row ∧ pk_counter row ≤ pk_counter row';
}.

#[export] Instance identity_le_preorder : PreOrder identity_le.
Proof.
  split.
  - intros i. split; eauto. intros c row ?. exists row. split_and!; [done..|lia].
  - intros i j k [D1 K1 P1] [D2 K2 P2]. split.
    + intros d row (r1 & ? & ? & ?)%D1. destruct (D2 d r1) as (r2 & ? & ? & ?); [done|]. exists r2. split_and!; [done|congruence|auto].
    + intros d row (r1 & ? & ? & ? & ?)%K1. destruct (K2 d r1) as (r2 & ? & ? & ? & ?); [done|]. exists r2. split_and!; congruence.
    + intros c row (r1 & ? & ? & ?)%P1. destruct (P2 c r1) as (r2 & ? & ? & ?); [done|]. exists r2. split_and!; [done|congruence|lia].
Qed.

Lemma identity_le_same i i' : devices i' = devices i → device_keys i' = device_keys i → passkeys i' = passkeys i → identity_le i i'.
Proof. intros E1 E2 E3. split; rewrite ?E1, ?E2, ?E3; eauto. intros c row ?. exists row. split_and!; [done..|lia]. Qed.

(** One-time tokens, and remembered browsers. *)
Inductive Token :=
| TEnrollment (hash : string) | TBootstrap (hash : string) | TRegistration (ceremony : N) | TAuthentication (ceremony : N)
| TTicket (hash : string) | TShare (digest : string) | TSession (hash : string) | TPairing (hash : string).

Definition held i (t : Token) : Prop :=
  match t with
  | TEnrollment h => is_Some (enrollments i !! h)
  | TBootstrap h => is_Some (passkey_bootstraps i !! h)
  | TRegistration n => is_Some (registration_ceremonies i !! n)
  | TAuthentication n => is_Some (authentication_ceremonies i !! n)
  | TTicket h => is_Some (connection_tickets i !! h)
  | TShare h => is_Some (share_tickets i !! h)
  | TSession h => is_Some (browser_sessions i !! h)
  | TPairing h => is_Some (browser_pairings i !! h)
  end.

(** What an operation that makes only the tokens [new] does to the tables. *)
Record moved_by (new : Token → Prop) i i' : Prop := {
  mb_wf : identity_wf i';
  mb_le : identity_le i i';
  mb_held : ∀ t, held i' t → held i t ∨ new t;
  mb_claimed : ∀ h row', browser_pairings i' !! h = Some row' → new (TPairing h) ∨
    ∃ row, browser_pairings i !! h = Some row ∧ pa_principal row' = pa_principal row ∧
      (∀ s, pa_claimed row = Some s → pa_claimed row' = Some s);
}.
Definition evolves_by (new : Token → Prop) i i' : Prop := identity_wf i → moved_by new i i'.

Lemma moved_trans new i j k : moved_by new i j → moved_by new j k → moved_by new i k.
Proof.
  intros [W1 L1 H1' C1] [W2 L2 H2' C2]. split; [done|by trans j|..].
  - intros t [Hj|?]%H2'; [by apply H1'|by right].
  - intros h row2 [?|(row1 & [?|(row & ? & ? & Hs)]%C1 & ? & Hs2)]%C2; [by left..|].
    right. exists row. split_and!; [done|congruence|auto].
Qed.

#[export] Instance evolves_by_preorder new : PreOrder (evolves_by new).
Proof.
  split.
  - intros i Hwf. split; [done|done|by left|eauto].
  - intros i j k Hij Hjk Hwf. eapply moved_trans; [by apply Hij|]. apply Hjk. by eapply mb_wf, Hij.
Qed.

Lemma evolves_by_mono (new new' : Token → Prop) i i' : (∀ t, new t → new' t) → evolves_by new i i' → evolves_by new' i i'.
Proof.
  intros Hn Hev Hwf. destruct (Hev Hwf) as [W L Hh C]. split; [done|done|..]; [intros t Ht%Hh; naive_solver|intros h row Hr%C; naive_solver].
Qed.

(** A step that makes no new token. *)
Lemma tokens_same new i i' : identity_wf i' → identity_le i i' → (∀ t, held i' t → held i t) →
  (∀ h row, browser_pairings i' !! h = Some row → browser_pairings i !! h = Some row) → moved_by new i i'.
Proof. intros Hwf Hle Hh Hp. split; [done|done|by left; auto|]. intros h row Hr%Hp. right. eauto. Qed.

Lemma evolves_enrollments new h row : is_Some (from_str (A := PeerIdentity) (en_peer_json row)) → new (TEnrollment h) →
  follows (evolves_by new) (insert_enrollment h row).
Proof.
  intros Hp Hn i u i' HT Hwf. pose proof (insert_enrollment_wf _ _ Hp _ _ _ HT Hwf) as Hwf'.
  unfold insert_enrollment in HT. itx_inv. split; [done|by apply identity_le_same| |eauto].
  intros []; cbn; eauto. intros [r [[<- _]|[_ ?]]%lookup_insert_Some]; eauto.
Qed.

Lemma evolves_insert_device new d row : is_Some (from_str (A := PeerIdentity) (d_peer_json row)) →
  follows (evolves_by new) (insert_device d row).
Proof.
  intros Hp i u i' HT Hwf. pose proof (insert_device_wf _ _ Hp _ _ _ HT Hwf) as Hwf'. apply insert_device_run in HT as [-> Hd].
  apply tokens_same; [done| |by intros []|done]. split; cbn; [|eauto|].
  - intros d' r Hr. exists r. rewrite lookup_insert_ne by congruence. eauto.
  - intros c r Hr. exists r. split_and!; [done..|lia].
Qed.

Lemma evolves_claim new h d hash now : follows (evolves_by new) (claim_body h d hash now).
Proof.
  intros i u i' HT Hwf. unfold claim_body in HT. tx_inv.
  rename select (_ ≫= _ = Some _) into He. apply bind_Some in He as (row & Hrow & He). case_match; [|done]. injection He as <-.
  set (i1 := with_enrollments (delete h (enrollments i)) i) in *.
  assert (identity_wf i1) as Hwf1.
  { revert Hwf. wf_same; cbn. intros h' r [_ ?]%lookup_delete_Some. eauto. }
  apply (moved_trans _ _ i1).
  - apply tokens_same; [done|by apply identity_le_same| |done].
    intros []; cbn; eauto. intros [r [_ ?]%lookup_delete_Some]. eauto.
  - eapply evolves_insert_device; [|done..]. by eapply (iw_enrollments i).
Qed.

Lemma evolves_revoked new d : ∀ i, evolves_by new i (without_device d i).
Proof.
  intros i Hwf. apply tokens_same; [by apply without_device_wf| |by intros []|done]. split; cbn; [|eauto|].
  - intros d' r Hr. destruct (decide (d' = d)) as [->|Hne].
    + exists (revoked_row r). by rewrite lookup_alter_eq, Hr.
    + exists r. by rewrite lookup_alter_ne.
  - intros c r Hr. exists r. split_and!; [done..|lia].
Qed.

Lemma evolves_mark_revoked new d : follows (evolves_by new) (mark_revoked d).
Proof. intros i b i' [= <- <-]. apply evolves_revoked. Qed.

Lemma evolves_sign_in new p surface reg entropy nd now : typed_registration reg →
  follows (evolves_by new) (sign_in_device p surface reg entropy nd now).
Proof.
  intros Hreg i s i' HT Hwf. pose proof (sign_in_device_wf _ _ _ _ _ _ Hreg _ _ _ HT Hwf) as Hwf'.
  unfold sign_in_device in HT. tx_inv.
  match goal with H : classify _ _ _ _ = Ok ?r |- _ => destruct r as [d|] end; tx_inv.
  - rename select (update_credential_hash _ _ _ = _) into Hu. unfold update_credential_hash in Hu. itx_inv.
    apply tokens_same; [done| |by intros []|done]. split; cbn.
    + intros d' r Hr. destruct (decide (d' = d)) as [->|Hne].
      * exists (rekeyed a.2 r). by rewrite lookup_alter_eq, Hr.
      * exists r. by rewrite lookup_alter_ne.
    + intros d' k Hk. destruct (decide (d' = d)) as [->|Hne].
      * exists (relabelled (reg_label reg) k). by rewrite lookup_alter_eq, Hk.
      * exists k. by rewrite lookup_alter_ne.
    + intros c r Hr. exists r. split_and!; [done..|lia].
  - rename select (insert_device _ _ _ = _) into Hd. apply insert_device_run in Hd as [-> Hd].
    rename select (insert_device_key _ _ _ = _) into Hk. unfold insert_device_key in Hk. itx_inv. split_bools.
    apply tokens_same; [done| |by intros []|done]. split; cbn in *.
    + intros d' r Hr. exists r. rewrite lookup_insert_ne by congruence. eauto.
    + intros d' k Hk. exists k. rewrite lookup_insert_ne by congruence. eauto.
    + intros c r Hr. exists r. split_and!; [done..|lia].
Qed.

(** ** Token tables *)
Lemma follows_insert_row {V} R (table : IdentityDb → gmap string V) set what key row :
  (∀ i, table i !! key = None → R i (set (<[key := row]> (table i)) i)) → follows R (insert_row table set what key row).
Proof. intros HR i u i' HT. unfold insert_row in HT. itx_inv. split_bools. by apply HR. Qed.

Lemma evolves_tickets new m i : (∀ h r, m !! h = Some r → connection_tickets i !! h = Some r ∨ new (TTicket h)) →
  evolves_by new i (with_tickets m i).
Proof.
  intros Hm Hwf. split; [by revert Hwf; wf_same|by apply identity_le_same| |eauto].
  intros []; cbn; eauto. intros [r [?|?]%Hm]; eauto.
Qed.

Lemma evolves_bootstraps new m i : (∀ h r, m !! h = Some r → passkey_bootstraps i !! h = Some r ∨ new (TBootstrap h)) →
  evolves_by new i (with_bootstraps m i).
Proof.
  intros Hm Hwf. split; [by revert Hwf; wf_same|by apply identity_le_same| |eauto].
  intros []; cbn; eauto. intros [r [?|?]%Hm]; eauto.
Qed.

Lemma evolves_shares new m i : (∀ h r, m !! h = Some r → share_tickets i !! h = Some r ∨ new (TShare h)) →
  evolves_by new i (with_share_tickets m i).
Proof.
  intros Hm Hwf. split; [by revert Hwf; wf_same|by apply identity_le_same| |eauto].
  intros []; cbn; eauto. intros [r [?|?]%Hm]; eauto.
Qed.

(** A session row that stays, but for its expiry. *)
Definition same_session (r r' : SessionRow) : Prop := se_principal r' = se_principal r ∧ se_credential r' = se_credential r.

Lemma evolves_sessions new m i :
  (∀ h r', m !! h = Some r' → (∃ r, browser_sessions i !! h = Some r ∧ same_session r r') ∨
    new (TSession h) ∧ ∀ c, se_credential r' = Some c → ∃ key, passkeys i !! c = Some key ∧ pk_principal key = se_principal r') →
  evolves_by new i (with_sessions m i).
Proof.
  intros Hm Hwf. split; [|by apply identity_le_same| |eauto].
  - revert Hwf. wf_same; cbn. intros h r' c [(r & Hr & -> & ->)|[_ Hc]]%Hm; eauto.
  - intros []; cbn; eauto. intros [r' [(r & ? & _)|[? _]]%Hm]; eauto.
Qed.

Lemma evolves_pairings new m i :
  (∀ h r', m !! h = Some r' → new (TPairing h) ∨ ∃ r, browser_pairings i !! h = Some r ∧
     pa_principal r' = pa_principal r ∧ (∀ s, pa_claimed r = Some s → pa_claimed r' = Some s)) →
  evolves_by new i (with_pairings m i).
Proof.
  intros Hm Hwf. split; [by revert Hwf; wf_same|by apply identity_le_same| |done].
  intros []; cbn; eauto. intros [r' [?|(r & ? & _)]%Hm]; eauto.
Qed.

Lemma evolves_sign_ins new m i :
  (∀ n r, m !! n = Some r → device_sign_ins i !! n = Some r ∨ is_Some (key_from_bytes (si_public_key r))) →
  evolves_by new i (with_sign_ins m i).
Proof.
  intros Hm Hwf. apply tokens_same; [|by apply identity_le_same|by intros []|done].
  revert Hwf. wf_same; cbn. intros n r [?|?]%Hm; eauto.
Qed.

Lemma evolves_tokens_pushed new d i : evolves_by new i (forget_device_token d i).
Proof.
  intros Hwf. apply tokens_same; [by apply forget_device_token_wf|by apply identity_le_same|by intros []|done].
Qed.

Lemma evolves_notices new m i : (∀ n r, m !! n = Some r → setup_notices i !! n = Some r) →
  evolves_by new i (with_notices m i).
Proof.
  intros Hm Hwf. apply tokens_same; [by apply fewer_notices_wf|by apply identity_le_same|by intros []|done].
Qed.

(** ** Passkeys *)
Lemma evolves_insert_passkey new p passkey created : follows (evolves_by new) (insert_passkey p passkey created).
Proof.
  intros i u i' HT Hwf. unfold insert_passkey in HT. tx_inv. split_bools.
  apply tokens_same; [| |by intros []|done].
  - revert Hwf. wf_same; cbn.
    + intros h r c Hr Hc. destruct (iw_sessions0 h r c Hr Hc) as (key & Hk & ?). exists key.
      rewrite lookup_insert_ne by congruence. done.
    + intros c row [[<- <-]|[_ ?]]%lookup_insert_Some; [done|by eapply iw_counters0].
  - split; cbn; [eauto..|]. intros c row Hc. exists row. rewrite lookup_insert_ne by congruence. split_and!; [done..|lia].
Qed.

Lemma evolves_advance_passkey new p authentication : follows (evolves_by new) (advance_passkey p authentication).
Proof.
  intros i u i' HT Hwf. unfold advance_passkey in HT. tx_inv.
  rename select (_ ≫= _ = Some _) into Hrow. apply bind_Some in Hrow as (row & Hrow & He). case_match; [|done].
  injection He as ->. split_bools. subst p. set (id := result_cred_id authentication) in *.
  match goal with H : passkeys i !! id = Some ?r |- _ => rename r into row0 end.
  pose proof (iw_counters _ Hwf _ _ Hrow) as Hc0.
  apply tokens_same; [| |by intros []|done].
  - revert Hwf. wf_same; cbn.
    + intros h r c Hr Hc. destruct (iw_sessions0 h r c Hr Hc) as (key & Hk & Hp).
      destruct (decide (id = c)) as [<-|Hne]; [|exists key; by rewrite lookup_insert_ne].
      simplify_eq. eexists. rewrite lookup_insert_eq. split; [done|]. cbn. congruence.
    + intros c row [[<- <-]|[_ ?]]%lookup_insert_Some; [cbn; lia|by eapply iw_counters0].
  - split; cbn; [eauto..|]. intros c row Hc. destruct (decide (id = c)) as [<-|Hne].
    + simplify_eq. eexists. rewrite lookup_insert_eq. split_and!; [done|cbn; congruence|cbn; lia].
    + exists row. rewrite lookup_insert_ne by done. split_and!; [done..|lia].
Qed.

(** ** Ceremonies *)
Definition ceremony_token (table : CeremonyTable) (n : N) (t : Token) : Prop :=
  (table = registration_table ∧ t = TRegistration n) ∨ (table = authentication_table ∧ t = TAuthentication n).
Definition known_table (table : CeremonyTable) : Prop := table = registration_table ∨ table = authentication_table.

Lemma size_filter_le {K V} `{Countable K} (P : K * V → Prop) `{!∀ kv, Decision (P kv)} (m : gmap K V) :
  (size (filter P m) ≤ size m)%nat.
Proof. apply map_subseteq_size, map_filter_subseteq. Qed.

Lemma size_delete_le {K V} `{Countable K} k (m : gmap K V) : (size (delete k m) ≤ size m)%nat.
Proof. apply map_subseteq_size, delete_subseteq. Qed.

Lemma evolves_expire new now : follows (evolves_by new) (remove_expired_identity_records now).
Proof.
  apply follows_write. intros i Hwf. apply tokens_same; [|by apply identity_le_same| |done].
  - revert Hwf. wf_same; cbn.
    + unfold active_ceremonies in *. cbn.
      pose proof (size_filter_le (λ kv : N * CeremonyRow, now < cy_expires_at_ms kv.2) (registration_ceremonies i)).
      pose proof (size_filter_le (λ kv : N * CeremonyRow, now < cy_expires_at_ms kv.2) (authentication_ceremonies i)). lia.
    + intros n r [? _]%map_lookup_filter_Some. eauto.
  - intros []; cbn; eauto; intros [r [? _]%map_lookup_filter_Some]; eauto.
Qed.

Lemma evolves_save_sign_in new n reg e : typed_registration reg → follows (evolves_by new) (save_sign_in n reg e).
Proof.
  intros Hreg i u i' HT. unfold save_sign_in in HT. itx_inv. apply evolves_sign_ins.
  intros n' r [[<- <-]|[_ ?]]%lookup_insert_Some; [by right|by left].
Qed.

Definition typed_device (device : option DeviceRegistration) : Prop :=
  match device with Some r => typed_registration r | None => True end.

Lemma evolves_insert_ceremony new table n row device i u i' : known_table table → typed_device device →
  (∀ t, ceremony_token table n t → new t) → active_ceremonies i < MAX_ACTIVE_CEREMONIES →
  insert_ceremony table n row device i = Ok (u, i') → evolves_by new i i'.
Proof.
  intros Htable Hdev Hnew Hlt HT. unfold insert_ceremony in HT. itx_inv. split_bools.
  match goal with H : match device with _ => _ end ?j = Ok _ |- _ => rename H into Hs; trans j end.
  - intros Hwf. split; [| |intros t|].
    + revert Hwf. destruct Htable as [->| ->]; wf_same; cbn in *; unfold active_ceremonies in *; cbn;
        rewrite map_size_insert_None by done; lia.
    + destruct Htable as [->| ->]; by apply identity_le_same.
    + destruct Htable as [->| ->], t; cbn in *; eauto; (intros [r [[<- _]|[_ ?]]%lookup_insert_Some]; [right|eauto]);
        apply Hnew; [left|right]; done.
    + destruct Htable as [->| ->]; eauto.
  - destruct device as [reg|]; [|tx_inv; reflexivity]. by eapply evolves_save_sign_in.
Qed.

Lemma capacity_left i u i' : ensure_ceremony_capacity i = Ok (u, i') → i' = i ∧ active_ceremonies i < MAX_ACTIVE_CEREMONIES.
Proof. unfold ensure_ceremony_capacity. intros HT. tx_inv. by split_bools. Qed.

Lemma evolves_save_registration new fail token p surface n state device e now : typed_device device →
  new (TRegistration n) →
  op_follows (evolves_by new) (save_registration_ceremony fail token p surface n state device e now).
Proof.
  intros Hdev Hnew. unfold save_registration_ceremony.
  do 4 (apply op_follows_bind; [apply _|apply op_follows_pure; apply _|intros ?]).
  apply op_follows_atomic; [apply _|]. intros i u i' HT. tx_inv.
  rename select (remove_expired_identity_records _ _ = _) into Hx. apply (evolves_expire new) in Hx.
  rename select (ensure_ceremony_capacity _ = _) into Hc. apply capacity_left in Hc as [-> Hlt]. etrans; [exact Hx|].
  rename select (insert_ceremony _ _ _ _ _ = _) into Hi.
  match type of Hi with insert_ceremony _ _ _ _ ?j = _ => trans j end.
  - apply evolves_bootstraps. intros h r [_ ?]%lookup_delete_Some. by left.
  - eapply evolves_insert_ceremony; [by left|exact Hdev| |exact Hlt|exact Hi].
    intros t [[_ ->]|[? _]]; done.
Qed.

Lemma evolves_save_authentication new fail p surface n state device e now : typed_device device →
  new (TAuthentication n) →
  op_follows (evolves_by new) (save_authentication_ceremony fail p surface n state device e now).
Proof.
  intros Hdev Hnew. unfold save_authentication_ceremony.
  do 3 (apply op_follows_bind; [apply _|apply op_follows_pure; apply _|intros ?]).
  apply op_follows_atomic; [apply _|]. intros i u i' HT. tx_inv.
  rename select (remove_expired_identity_records _ _ = _) into Hx. apply (evolves_expire new) in Hx.
  rename select (ensure_ceremony_capacity _ = _) into Hc. apply capacity_left in Hc as [-> Hlt]. etrans; [exact Hx|].
  rename select (insert_ceremony _ _ _ _ _ = _) into Hi.
  eapply evolves_insert_ceremony; [by right|exact Hdev| |exact Hlt|exact Hi].
  intros t [[? _]|[_ ->]]; done.
Qed.

Lemma evolves_claim_ceremony {State} `{!Serde State} new fail table n now : known_table table →
  op_follows (evolves_by new) (claim_ceremony (State := State) fail table n now).
Proof.
  intros Htable. unfold claim_ceremony. apply op_follows_bind; [apply _|apply op_follows_pure; apply _|intros now_ms].
  apply op_follows_bind; [apply _| |intros rd; follow]. apply op_follows_atomic; [apply _|].
  apply follows_bind; [apply _|apply evolves_expire|intros _].
  apply follows_bind; [apply _|apply follows_read; apply _|intros row].
  apply follows_bind; [apply _| |intros _; apply follows_bind; [apply _| |intros device; apply follows_ret; apply _]].
  - apply follows_write. intros i Hwf. apply tokens_same.
    + revert Hwf. destruct Htable as [->| ->]; wf_same; cbn; unfold active_ceremonies in *; cbn;
        [pose proof (size_delete_le n (registration_ceremonies i))|pose proof (size_delete_le n (authentication_ceremonies i))]; lia.
    + destruct Htable as [->| ->]; by apply identity_le_same.
    + destruct Htable as [->| ->]; intros []; cbn; eauto; intros [r [_ ?]%lookup_delete_Some]; eauto.
    + by destruct Htable as [->| ->].
  - unfold take_sign_in. apply follows_bind; [apply _|apply follows_query; apply _|intros stored].
    apply follows_bind; [apply _| |intros _; apply follows_lift; apply _].
    apply follows_write. intros i. apply evolves_sign_ins. intros n' r [_ ?]%lookup_delete_Some. by left.
Qed.

(** ** Calls *)
Inductive IdentityCall :=
| ICreateEnrollment (fail : option ControlError) (entropy : Entropy) (peer : PeerIdentity) (expires_at : SystemTime)
| IClaimEnrollment (fail : option ControlError) (entropy : Entropy) (d : DeviceId) (now : SystemTime) (token : string)
| IRevoke (fail : option ControlError) (d : DeviceId)
| IRevokeOwned (fail : option ControlError) (p : PrincipalId) (d : DeviceId)
| ISetToken (fail : option ControlError) (d : DeviceId) (provider token : string)
| IClearToken (fail : option ControlError) (d : DeviceId)
| IDropToken (fail : option ControlError) (target : PushTarget)
| INoticeKey (fail : option ControlError) (d : DeviceId) (key : string)
| INotices (fail : option ControlError) (d : DeviceId) (now : SystemTime)
| IAcknowledgeNotice (fail : option ControlError) (d : DeviceId) (notice : N)
| IBootstrap (fail : option ControlError) (entropy : Entropy) (p : PrincipalId) (expires_at : SystemTime)
| IStartRegistration (draw : Draw) (token : string) (surface : SurfaceRef) (device : option DeviceRegistration)
| IFinishRegistration (draw : Draw) (ceremony : N) (credential : RegisterPublicKeyCredential) (proof : option string)
| IStartAuthentication (draw : Draw) (p : PrincipalId) (surface : SurfaceRef) (device : option DeviceRegistration)
| IFinishAuthentication (draw : Draw) (ceremony : N) (credential : PublicKeyCredential) (proof : option string)
| IClaimTicket (fail : option ControlError) (ticket : string) (now : SystemTime)
| IAuthenticate (fail : option ControlError) (headers : list (option string)) (now : SystemTime)
| ILogout (fail : option ControlError) (headers : list (option string))
| IRevokeBrowsers (fail : option ControlError) (p : PrincipalId)
| ITicket (fail : option ControlError) (entropy : Entropy) (browser : BrowserSession) (surface : SurfaceRef) (now : SystemTime)
| ICreatePairing (fail : option ControlError) (entropy : Entropy) (p : PrincipalId) (expires_at clock : SystemTime)
| IPair (fail : option ControlError) (token nonce : string) (now : SystemTime)
| IShare (fail1 fail2 : option ControlError) (entropy : Entropy) (p : PrincipalId) (share : N) (now : SystemTime)
| IRedeemShare (fail : option ControlError) (share : N) (ticket : string) (now : SystemTime)
| IPutNotice (fail : option ControlError) (p : PrincipalId) (n : NodeId) (notice : SealedNotice)
| IWithdraw (fail : option ControlError) (n : NodeId) (notices : list N).

Definition run_identity (call : IdentityCall) i : IdentityDb :=
  match call with
  | ICreateEnrollment fail entropy peer expires_at => (create_enrollment fail entropy peer expires_at i).2
  | IClaimEnrollment fail entropy d now token => (claim_enrollment fail entropy d now token i).2
  | IRevoke fail d => (revoke_device fail d i).2
  | IRevokeOwned fail p d => (revoke_owned_device fail p d i).2
  | ISetToken fail d provider token => (set_push_token fail d provider token i).2
  | IClearToken fail d => (clear_push_token fail d i).2
  | IDropToken fail target => (drop_push_token fail target i).2
  | INoticeKey fail d key => (set_notice_key fail d key i).2
  | INotices fail d now => (device_notices fail d now i).2
  | IAcknowledgeNotice fail d notice => (acknowledge_notice fail d notice i).2
  | IBootstrap fail entropy p expires_at => (create_passkey_bootstrap fail entropy p expires_at i).2
  | IStartRegistration draw token surface device => (start_registration draw token surface device i).2
  | IFinishRegistration draw ceremony credential proof => (finish_registration draw ceremony credential proof i).2
  | IStartAuthentication draw p surface device => (start_authentication draw p surface device i).2
  | IFinishAuthentication draw ceremony credential proof => (finish_authentication draw ceremony credential proof i).2
  | IClaimTicket fail ticket now => (claim_connection_ticket fail ticket now i).2
  | IAuthenticate fail headers now => (authenticate fail headers now i).2
  | ILogout fail headers => (logout fail headers i).2
  | IRevokeBrowsers fail p => (revoke_browsers fail p i).2
  | ITicket fail entropy browser surface now => (connection_ticket fail entropy browser surface now i).2
  | ICreatePairing fail entropy p expires_at clock => (create_pairing fail entropy p expires_at clock i).2
  | IPair fail token nonce now => (pair_browser fail token nonce now i).2
  | IShare fail1 fail2 entropy p share now => (issue_share_ticket fail1 fail2 entropy p share now i).2
  | IRedeemShare fail share ticket now => (redeem_share_ticket fail share ticket now i).2
  | IPutNotice fail p n notice => (atomic fail (put_notice_row p n notice) i).2
  | IWithdraw fail n notices => (atomic fail (withdraw_rows n notices) i).2
  end.

(** The devices of a call were parsed. *)
Definition typed_identity (call : IdentityCall) : Prop :=
  match call with
  | IStartRegistration _ _ _ device | IStartAuthentication _ _ _ device => typed_device device
  | _ => True
  end.

(** [h] is the digest of a secret made from [entropy]. *)
Definition minted (domain : string) (entropy : Entropy) (h : string) : Prop :=
  ∃ secret, random_secret entropy = Ok secret ∧ secret_digest domain secret = Some h.

Definition creates (call : IdentityCall) (t : Token) : Prop :=
  match call with
  | ICreateEnrollment _ entropy _ _ => ∃ h, minted ENROLLMENT entropy h ∧ t = TEnrollment h
  | IBootstrap _ entropy _ _ => ∃ h, minted PASSKEY_BOOTSTRAP entropy h ∧ t = TBootstrap h
  | IStartRegistration draw _ _ _ => t = TRegistration (draw_ceremony draw)
  | IStartAuthentication draw _ _ _ => t = TAuthentication (draw_ceremony draw)
  | IFinishRegistration draw _ _ _ | IFinishAuthentication draw _ _ _ =>
      (∃ h, minted CONNECTION_TICKET (draw_secret draw 0) h ∧ t = TTicket h) ∨
      (∃ h, minted BROWSER_SESSION (draw_secret draw 1) h ∧ t = TSession h)
  | ITicket _ entropy _ _ _ => ∃ h, minted CONNECTION_TICKET entropy h ∧ t = TTicket h
  | ICreatePairing _ entropy _ _ _ => ∃ h, minted BROWSER_PAIRING entropy h ∧ t = TPairing h
  | IPair _ token nonce _ => ∃ s h, session_for token nonce = Some s ∧ secret_digest BROWSER_SESSION s = Some h ∧ t = TSession h
  | IShare _ _ entropy _ _ _ => ∃ h, minted SHARE_TICKET entropy h ∧ t = TShare h
  | _ => False
  end.

(** ** Operations evolve the tables *)
Ltac pures := repeat (apply op_follows_pure_then; [apply _|intros ? ?]).

Lemma evolves_create_enrollment new fail entropy peer t : (∀ h, minted ENROLLMENT entropy h → new (TEnrollment h)) →
  op_follows (evolves_by new) (create_enrollment fail entropy peer t).
Proof.
  intros Hnew. unfold create_enrollment. pures. apply op_follows_bind; [apply _| |intros _; apply op_follows_ret; apply _].
  apply op_follows_atomic; [apply _|]. rename select (pending_enrollment _ _ _ = _) into He.
  unfold pending_enrollment in He. apply result_bind_ok in He as (token & Ht & He). apply result_bind_ok in He as (h & Hh & He).
  apply result_bind_ok in He as (json & Hj & He). apply result_bind_ok in He as (ms & _ & [= <-]). cbn. ok_ors.
  apply evolves_enrollments; [|by apply Hnew; eexists]. cbn. apply encode_peer in Hj. eauto.
Qed.

Lemma evolves_set_token new fail d provider token : op_follows (evolves_by new) (set_push_token fail d provider token).
Proof.
  intros i Hwf. apply tokens_same; [by apply set_push_token_wf|..]; unfold set_push_token, atomic, commit;
    (destruct fail; [try done; by intros []|]);
    match goal with |- context [match ?m i with _ => _ end] => destruct (m i) as [[r i']|] eqn:HT; cbn; [|done] end; tx_inv;
    rename select (upsert_token _ _ _ _ _ = _) into Hu; unfold upsert_token in Hu; itx_inv;
    (destruct (holder_of token i) as [[d' r']|]; [destruct (decide _); [destruct (decide (d' = d))|]|]); tx_inv;
    try (by apply identity_le_same); try done; by intros [].
Qed.

Lemma evolves_notice_key new fail d key : op_follows (evolves_by new) (set_notice_key fail d key).
Proof.
  intros i Hwf. apply tokens_same; [by apply set_notice_key_wf|..]; unfold set_notice_key, atomic, commit;
    (destruct fail; [try done; by intros []|]);
    match goal with |- context [match ?m i with _ => _ end] => destruct (m i) as [[r i']|] eqn:HT; cbn; [|done] end; itx_inv;
    try (by apply identity_le_same); try done; by intros [].
Qed.

Lemma evolves_insert_ticket new h p surface e : new (TTicket h) → follows (evolves_by new) (insert_ticket h p surface e).
Proof.
  intros Hnew. apply follows_insert_row. intros i Hn. apply evolves_tickets.
  intros h' r [[<- _]|[_ ?]]%lookup_insert_Some; [by right|by left].
Qed.

Lemma evolves_remove_tickets new now : follows (evolves_by new) (remove_expired_tickets now).
Proof. apply follows_write. intros i. apply evolves_tickets. intros h r [? _]%map_lookup_filter_Some. by left. Qed.

Lemma evolves_fewer_sessions new P `{!∀ kv : string * SessionRow, Decision (P kv)} i :
  evolves_by new i (with_sessions (filter P (browser_sessions i)) i).
Proof. apply evolves_sessions. intros h r [? _]%map_lookup_filter_Some. left. by exists r. Qed.

(** A session of a passkey that belongs to its principal. *)
Lemma evolves_insert_session new p c grant clock : 
  (∀ h, secret_digest BROWSER_SESSION (session grant) = Some h → new (TSession h)) →
  ∀ i u i', (∃ key, passkeys i !! c = Some key ∧ pk_principal key = p) →
  insert_session p c grant clock i = Ok (u, i') → evolves_by new i i'.
Proof.
  intros Hnew i u i' Hkey HT. unfold insert_session, insert_row in HT. itx_inv. ok_ors.
  match goal with |- evolves_by _ _ (with_sessions _ ?j) => trans j end; [apply evolves_fewer_sessions|].
  apply evolves_sessions. cbn.
  intros h r' [[<- <-]|[_ ?]]%lookup_insert_Some; [right|left; by exists r'].
  split; [by apply Hnew|]. by intros c' [= <-].
Qed.

Lemma insert_passkey_key p passkey created i u i' : insert_passkey p passkey created i = Ok (u, i') →
  ∃ key, passkeys i' !! cred_id passkey = Some key ∧ pk_principal key = p.
Proof. unfold insert_passkey. intros HT. tx_inv. cbn. rewrite lookup_insert_eq. eauto. Qed.

Lemma advance_passkey_key p a i u i' : advance_passkey p a i = Ok (u, i') →
  ∃ key, passkeys i' !! result_cred_id a = Some key ∧ pk_principal key = p.
Proof. unfold advance_passkey. intros HT. tx_inv. cbn. rewrite lookup_insert_eq. eauto. Qed.

Lemma insert_ticket_keys h p surface e i u i' : insert_ticket h p surface e i = Ok (u, i') → passkeys i' = passkeys i.
Proof. unfold insert_ticket, insert_row. intros HT. by itx_inv. Qed.

(** What [new_ticket] draws. *)
Lemma new_ticket_draws draw grant : new_ticket draw = Ok grant →
  random_secret (draw_secret draw 0) = Ok (ticket grant) ∧ random_secret (draw_secret draw 1) = Ok (session grant).
Proof.
  unfold new_ticket. intros (? & ? & He)%result_bind_ok. apply result_bind_ok in He as (? & _ & He).
  apply result_bind_ok in He as (? & ? & He). by apply result_bind_ok in He as (? & _ & [= <-]).
Qed.

Definition grants (new : Token → Prop) (grant : TicketGrant) : Prop :=
  (∀ h, secret_digest CONNECTION_TICKET (ticket grant) = Some h → new (TTicket h)) ∧
  (∀ h, secret_digest BROWSER_SESSION (session grant) = Some h → new (TSession h)).

Lemma evolves_registration_ticket new fail p surface passkey grant now clock : grants new grant →
  op_follows (evolves_by new) (store_registration_and_ticket fail p surface passkey grant now clock).
Proof.
  intros [Ht Hs]. unfold store_registration_and_ticket, generated_ticket. pures. apply op_follows_atomic; [apply _|].
  intros i u i' HT. tx_inv. rename select (insert_passkey _ _ _ _ = _) into Hp.
  rename select (insert_ticket _ _ _ _ _ = _) into Hi. rename select (insert_session _ _ _ _ _ = _) into He.
  etrans; [by eapply evolves_insert_passkey|]. etrans; [eapply evolves_insert_ticket, Hi; by apply Ht|].
  eapply evolves_insert_session; [exact Hs| |exact He]. rewrite (insert_ticket_keys _ _ _ _ _ _ _ Hi).
  by eapply insert_passkey_key.
Qed.

Lemma evolves_authentication_ticket new fail p surface a grant now clock : grants new grant →
  op_follows (evolves_by new) (update_passkey_and_store_ticket fail p surface a grant now clock).
Proof.
  intros [Ht Hs]. unfold update_passkey_and_store_ticket, generated_ticket. pures. apply op_follows_atomic; [apply _|].
  intros i u i' HT. tx_inv. rename select (advance_passkey _ _ _ = _) into Hp.
  rename select (insert_ticket _ _ _ _ _ = _) into Hi. rename select (insert_session _ _ _ _ _ = _) into He.
  rename select (remove_expired_tickets _ _ = _) into Hr.
  etrans; [by eapply evolves_remove_tickets|].
  etrans; [by eapply evolves_advance_passkey|]. etrans; [eapply evolves_insert_ticket, Hi; by apply Ht|].
  eapply evolves_insert_session; [exact Hs| |exact He]. rewrite (insert_ticket_keys _ _ _ _ _ _ _ Hi).
  by eapply advance_passkey_key.
Qed.

Lemma take_sign_in_typed n i device i' : take_sign_in n i = Ok (device, i') → typed_device device.
Proof.
  unfold take_sign_in. intros HT. tx_inv. rename select (transpose _ _ = Ok _) into Ht.
  destruct (device_sign_ins i !! n) as [row|]; cbn in Ht; [|by injection Ht as <-].
  apply result_bind_ok in Ht as (reg & Hr & [= <-]). apply result_bind_ok in Hr as (key & Hk & [= <-]). ok_ors.
  cbn. unfold typed_registration. cbn. unfold key_from_bytes in *. case_match; simplify_eq. rewrite H0. eauto.
Qed.

Lemma claim_ceremony_typed {State} `{!Serde State} fail table n now i c i' :
  claim_ceremony (State := State) fail table n now i = (Ok c, i') → typed_device (ceremony_device c).
Proof.
  unfold claim_ceremony. intros Hc. op_inv. tx_inv. by eapply take_sign_in_typed.
Qed.

Lemma evolves_start_registration draw token surface device : typed_device device →
  op_follows (evolves_by (creates (IStartRegistration draw token surface device)))
    (start_registration draw token surface device).
Proof.
  intros Hdev. unfold start_registration, reading.
  apply op_follows_bind; [apply _|follow|intros bootstrap].
  apply op_follows_bind; [apply _|follow|intros _]. pures.
  apply op_follows_bind; [apply _|by apply evolves_save_registration|intros _; follow].
Qed.

Lemma evolves_start_authentication draw p surface device : typed_device device →
  op_follows (evolves_by (creates (IStartAuthentication draw p surface device)))
    (start_authentication draw p surface device).
Proof.
  intros Hdev. unfold start_authentication, reading.
  apply op_follows_bind; [apply _|follow|intros passkeys]. pures.
  apply op_follows_bind; [apply _|by apply evolves_save_authentication|intros _; follow].
Qed.

Lemma draws_grant (new : Token → Prop) draw grant :
  (∀ t, (∃ h, minted CONNECTION_TICKET (draw_secret draw 0) h ∧ t = TTicket h) ∨
        (∃ h, minted BROWSER_SESSION (draw_secret draw 1) h ∧ t = TSession h) → new t) →
  new_ticket draw = Ok grant → grants new grant.
Proof.
  intros Hnew [HA HB]%new_ticket_draws. split; intros h Hh; apply Hnew; [left|right]; exists h; (split; [|done]); eexists; eauto.
Qed.

Lemma evolves_complete_registration new draw n credential proof c : typed_device (ceremony_device c) →
  (∀ t, creates (IFinishRegistration draw n credential proof) t → new t) →
  op_follows (evolves_by new) (complete_registration draw n credential proof c).
Proof.
  intros Hc Hnew. unfold complete_registration. pures. destruct (ceremony_device c) as [reg|].
  - apply op_follows_bind; [apply _| |intros s; follow]. unfold store_registration_and_device. pures.
    apply op_follows_atomic; [apply _|]. apply follows_bind; [apply _|apply evolves_insert_passkey|intros _].
    by apply evolves_sign_in.
  - pures. apply op_follows_bind; [apply _| |intros _; follow]. apply evolves_registration_ticket. by eapply draws_grant.
Qed.

Lemma evolves_finish_registration draw n credential proof :
  op_follows (evolves_by (creates (IFinishRegistration draw n credential proof)))
    (finish_registration draw n credential proof).
Proof.
  unfold finish_registration, claim_registration_ceremony. apply op_follows_then; [apply _|apply evolves_claim_ceremony; by left|].
  intros i c i' Hc%claim_ceremony_typed. by apply evolves_complete_registration.
Qed.

Lemma evolves_complete_authentication new draw n credential proof c : typed_device (ceremony_device c) →
  (∀ t, creates (IFinishAuthentication draw n credential proof) t → new t) →
  op_follows (evolves_by new) (complete_authentication draw n credential proof c).
Proof.
  intros Hc Hnew. unfold complete_authentication. pures. destruct (ceremony_device c) as [reg|].
  - apply op_follows_bind; [apply _| |intros s; follow]. unfold update_passkey_and_store_device. pures.
    apply op_follows_atomic; [apply _|]. apply follows_bind; [apply _|apply evolves_advance_passkey|intros _].
    by apply evolves_sign_in.
  - pures. apply op_follows_bind; [apply _| |intros _; follow]. apply evolves_authentication_ticket. by eapply draws_grant.
Qed.

Lemma evolves_finish_authentication draw n credential proof :
  op_follows (evolves_by (creates (IFinishAuthentication draw n credential proof)))
    (finish_authentication draw n credential proof).
Proof.
  unfold finish_authentication, claim_authentication_ceremony. apply op_follows_then; [apply _|apply evolves_claim_ceremony; by right|].
  intros i c i' Hc%claim_ceremony_typed. by apply evolves_complete_authentication.
Qed.

Lemma evolves_redeem new hash session_hash now e : new (TSession session_hash) →
  follows (evolves_by new) (redeem_body hash session_hash now e).
Proof.
  intros Hnew i r i' HT. unfold redeem_body in HT. tx_inv.
  rename select (_ ≫= _ = Some _) into Hrow. apply bind_Some in Hrow as (row & Hrow & He). destruct (now <? _); [|done]. injection He as ->.
  match goal with H : match pa_claimed ?r with _ => _ end _ = _ |- _ => rename r into row; destruct (pa_claimed row) as [s|] eqn:Hs end;
    [tx_inv; reflexivity|]. tx_inv. rename select (insert_row _ _ _ _ _ _ = _) into Hi. unfold insert_row in Hi. itx_inv.
  match goal with |- evolves_by _ _ (with_pairings _ ?j) => trans j end.
  - match goal with |- evolves_by _ _ (with_sessions _ ?j) => trans j end; [apply evolves_fewer_sessions|].
    apply evolves_sessions. intros h r' [[<- <-]|[_ ?]]%lookup_insert_Some; [right; by split|left; by exists r'].
  - apply evolves_pairings. cbn. intros h r' [(<- & r & Hr & ->)|[_ Hr]]%lookup_alter_Some; right; [|eauto].
    exists r. cbn. split_and!; [done..|]. intros s. congruence.
Qed.

Lemma evolves_put_notice new p n notice : follows (evolves_by new) (put_notice_row p n notice).
Proof.
  intros i b i' HT. unfold put_notice_row in HT. tx_inv. destruct (setup_notices i !! _) as [row|].
  - destruct (decide _); tx_inv; reflexivity.
  - tx_inv. split_bools. rename select (_ ≫= _ = Some p) into Hk. apply bind_Some in Hk as (k & Hk & Ha). case_match; [|done].
    injection Ha as <-. intros Hwf. apply tokens_same; [|by apply identity_le_same|by intros []|done].
    revert Hwf. wf_same; cbn. intros n' r [[<- <-]|[_ ?]]%lookup_insert_Some; cbn; [by apply iw_notice_keys0|by eapply iw_notices0].
Qed.

Lemma evolves_withdraw new n notices : follows (evolves_by new) (withdraw_rows n notices).
Proof.
  induction notices as [|notice rest IH]; cbn; [follow|]. apply follows_bind; [apply _| |intros _; exact IH].
  apply follows_write. intros i. apply evolves_notices. intros n' r [? _]%map_lookup_filter_Some. done.
Qed.

Lemma op_follows_single new {A} fail (f : IdentityDb → IdentityDb) (g : unit → ITx A) :
  (∀ i, evolves_by new i (f i)) → (∀ u, follows (evolves_by new) (g u)) →
  op_follows (evolves_by new) (atomic fail (write f ≫= g)).
Proof. intros Hf Hg. apply op_follows_atomic; [apply _|]. apply follows_bind; [apply _|by apply follows_write|done]. Qed.

#[local] Hint Resolve evolves_claim evolves_mark_revoked evolves_remove_tickets evolves_tokens_pushed : follow.

Lemma run_identity_evolves call i : typed_identity call → evolves_by (creates call) i (run_identity call i).
Proof.
  intros Hty. destruct call; cbn [run_identity typed_identity] in *;
    match goal with |- evolves_by ?new i (?o i).2 => revert i; change (op_follows (evolves_by new) o) end.
  - apply evolves_create_enrollment. intros h Hh. by exists h.
  - unfold claim_enrollment. pures. follow.
  - unfold revoke_device. follow.
  - unfold revoke_owned_device. follow.
  - apply evolves_set_token.
  - unfold clear_push_token. follow. apply follows_write. follow.
  - unfold drop_push_token. follow. apply follows_write. intros i. destruct a; [apply evolves_tokens_pushed|reflexivity].
  - apply evolves_notice_key.
  - unfold device_notices. follow. apply follows_write. intros i. apply evolves_notices.
    intros n r [? _]%map_lookup_filter_Some. done.
  - unfold acknowledge_notice. follow. apply follows_write. intros i. apply evolves_notices.
    intros n r [? _]%map_lookup_filter_Some. done.
  - unfold create_passkey_bootstrap. pures. follow. ok_ors. apply follows_insert_row. intros i Hn. apply evolves_bootstraps.
    intros h r [[<- _]|[_ ?]]%lookup_insert_Some; [right|by left]. eexists. split; [|done]. by eexists.
  - by apply evolves_start_registration.
  - apply evolves_finish_registration.
  - by apply evolves_start_authentication.
  - apply evolves_finish_authentication.
  - unfold claim_connection_ticket. pures. follow. apply follows_write. intros i. apply evolves_tickets.
    intros h r [_ ?]%lookup_delete_Some. by left.
  - unfold authenticate. follow. apply follows_write. intros i. apply evolves_sessions.
    intros h r' [(<- & r & Hr & ->)|[_ Hr]]%lookup_alter_Some; left; [by exists r|by exists r'].
  - unfold logout. follow. apply follows_write. intros i. apply evolves_sessions.
    intros h r [_ ?]%lookup_delete_Some. left. by exists r.
  - unfold revoke_browsers. apply op_follows_single; [intros i; apply evolves_fewer_sessions|]. intros _. apply follows_write.
    intros i. apply evolves_pairings. intros h r [? _]%map_lookup_filter_Some. right. eauto.
  - unfold connection_ticket. pures. follow. ok_ors. apply evolves_insert_ticket. eexists. split; [|done]. by eexists.
  - unfold create_pairing. pures. apply op_follows_bind; [apply _| |intros _; follow].
    apply op_follows_single; [intros i; apply evolves_pairings; intros h r [? _]%map_lookup_filter_Some; right; eauto|].
    intros _. ok_ors. apply follows_insert_row. intros i Hn. apply evolves_pairings.
    intros h r [[<- <-]|[_ ?]]%lookup_insert_Some; [left|right; eauto]. eexists. split; [|done]. by eexists.
  - unfold pair_browser. pures. apply op_follows_bind; [apply _| |intros ?; follow]. unfold redeem. pures. ok_ors.
    apply op_follows_atomic; [apply _|]. apply evolves_redeem. by do 2 eexists.
  - unfold issue_share_ticket. pures. ok_ors. apply op_follows_bind; [apply _| |intros _].
    + follow. apply follows_write. intros i. apply evolves_shares. intros h r [? _]%map_lookup_filter_Some. by left.
    + follow. apply follows_insert_row. intros i Hn. apply evolves_shares.
      intros h r [[<- _]|[_ ?]]%lookup_insert_Some; [right|by left]. eexists. split; [|done]. by eexists.
  - unfold redeem_share_ticket. follow. apply follows_write. intros i. case_bool_decide; [|reflexivity]. apply evolves_shares.
    intros h r [_ ?]%lookup_delete_Some. by left.
  - follow. apply evolves_put_notice.
  - follow. apply evolves_withdraw.
Qed.

(** ** Lifetimes *)
Definition identity_lifetime (calls : list IdentityCall) i : IdentityDb := foldl (λ i call, run_identity call i) i calls.

Lemma identity_wf_empty : identity_wf empty_identity.
Proof. split; try done. Qed.

Lemma lifetime_evolves calls : ∀ i, Forall typed_identity calls →
  evolves_by (λ t, ∃ call, call ∈ calls ∧ creates call t) i (identity_lifetime calls i).
Proof.
  induction calls as [|call calls IH]; intros i Hty; cbn; [reflexivity|]. apply Forall_cons in Hty as [Hc Hty].
  trans (run_identity call i).
  - eapply evolves_by_mono; [|by apply run_identity_evolves]. intros t Ht. exists call. by split; [left|].
  - eapply evolves_by_mono; [|by apply IH]. intros t (c & ? & ?). exists c. by split; [right|].
Qed.
End sound.

(** ** Which calls end a login *)
Section logins.
Context `{CS : ControlSerde} `{LT : LibraryTexts} `{DG : Digest} `{DC : DeviceCrypto} `{WA : !WebAuthn}.
Implicit Types (i : IdentityDb) (d : DeviceId) (p : PrincipalId) (fail : option ControlError).

(** The rows of devices other than [but] are kept. *)
Definition rows_kept (but : option DeviceId) i i' : Prop :=
  ∀ d row, Some d ≠ but → devices i !! d = Some row → devices i' !! d = Some row.
#[global] Instance rows_kept_preorder but : PreOrder (rows_kept but).
Proof. split; [by intros i d row|]. intros i j k H1 H2 d row Hne Hd. by apply H2, H1. Qed.

Lemma rows_kept_weaken but i i' : rows_kept None i i' → rows_kept but i i'.
Proof. intros Hk d row _. by apply Hk. Qed.

Lemma accepts_kept but i i' d hash : rows_kept but i i' → Some d ≠ but → device_accepts d hash i = true →
  device_accepts d hash i' = true.
Proof.
  unfold device_accepts. intros Hk Hne. destruct (devices i !! d) as [row|] eqn:E; [|done]. by rewrite (Hk d row Hne E).
Qed.

Lemma kept_insert_device but d row : follows (rows_kept but) (insert_device d row).
Proof.
  intros i u i' HT. apply insert_device_run in HT as [-> Hd]. intros d' row' _ Hr. cbn.
  rewrite lookup_insert_ne; [done|]. congruence.
Qed.

Lemma kept_mark_revoked d : follows (rows_kept (Some d)) (mark_revoked d).
Proof.
  intros i b i'. rewrite mark_revoked_run. intros [= _ <-] d' row' Hne Hr. cbn. rewrite lookup_alter_ne; [done|]. congruence.
Qed.

Lemma kept_constraint {R : IdentityDb → IdentityDb → Prop} `{!PreOrder R} b what : follows R (constraint b what).
Proof. apply follows_guard, _. Qed.
Lemma kept_get {R : IdentityDb → IdentityDb → Prop} `{!PreOrder R} : follows (E := ControlError) R get.
Proof. by intros i a i' [= -> ->]. Qed.
Hint Resolve kept_constraint kept_get kept_insert_device : follow.

(** Read the goal as a statement of the operation. *)
Ltac as_op i := match goal with |- ?R i (?o i).2 => revert i; change (op_follows R o) end.

Ltac kept := follow; repeat first
  [ apply op_follows_atomic; [typeclasses eauto|]; follow
  | apply follows_write; unfold rows_kept; intros ?; repeat (case_bool_decide || case_match); done ].

Lemma kept_withdraw but n notices : follows (rows_kept but) (withdraw_rows n notices).
Proof. induction notices as [|notice rest IH]; cbn; kept. Qed.
Lemma kept_insert_passkey but p passkey now : follows (rows_kept but) (insert_passkey p passkey now).
Proof. unfold insert_passkey. kept. Qed.
Lemma kept_advance_passkey but p a : follows (rows_kept but) (advance_passkey p a).
Proof. unfold advance_passkey. kept. Qed.
Lemma kept_insert_enrollment but h row : follows (rows_kept but) (insert_enrollment h row).
Proof. unfold insert_enrollment. kept. Qed.
Lemma kept_put_notice_row but p n notice : follows (rows_kept but) (put_notice_row p n notice).
Proof. unfold put_notice_row. kept. Qed.
Hint Resolve kept_mark_revoked kept_insert_passkey kept_advance_passkey : follow.

(** The calls that may replace or revoke a credential. *)
Definition ends_login (call : IdentityCall) : bool :=
  match call with
  | IRevoke _ _ | IRevokeOwned _ _ _ | IFinishRegistration _ _ _ _ | IFinishAuthentication _ _ _ _ => true
  | _ => false
  end.

Lemma call_keeps_rows call i : ends_login call = false → rows_kept None i (run_identity call i).
Proof.
  destruct call; intros Hc; try done; cbn [run_identity];
    as_op i; clear Hc.
  - unfold create_enrollment. pose proof (kept_insert_enrollment None). kept.
  - unfold claim_enrollment, claim_body. kept.
  - unfold set_push_token, upsert_token. kept.
  - unfold clear_push_token. kept.
  - unfold drop_push_token. kept.
  - unfold set_notice_key. kept.
  - unfold device_notices. kept.
  - unfold acknowledge_notice. kept.
  - unfold create_passkey_bootstrap, insert_row. kept.
  - unfold start_registration, reading, save_registration_ceremony, remove_expired_identity_records, ensure_ceremony_capacity,
      insert_ceremony, save_sign_in. kept.
  - unfold start_authentication, reading, save_authentication_ceremony, remove_expired_identity_records, ensure_ceremony_capacity,
      insert_ceremony, save_sign_in. kept.
  - unfold claim_connection_ticket, remove_expired_tickets. kept.
  - unfold authenticate. kept.
  - unfold logout. kept.
  - unfold revoke_browsers. kept.
  - unfold connection_ticket, remove_expired_tickets, insert_ticket, insert_row. kept.
  - unfold create_pairing, insert_row. kept.
  - unfold pair_browser, redeem, redeem_body, insert_row. kept.
  - unfold issue_share_ticket, insert_row. kept.
  - unfold redeem_share_ticket. kept.
  - apply op_follows_atomic; [apply _|]. apply kept_put_notice_row.
  - apply op_follows_atomic; [apply _|]. apply kept_withdraw.
Qed.

Lemma revoke_keeps_rows fail d i : rows_kept (Some d) i (revoke_device fail d i).2.
Proof. as_op i. unfold revoke_device. follow. Qed.
Lemma revoke_owned_keeps_rows fail p d i : rows_kept (Some d) i (revoke_owned_device fail p d i).2.
Proof. as_op i. unfold revoke_owned_device. follow. Qed.

(** The device whose credential a sign-in replaced. *)
Definition adopted_device (s : SignIn) : option DeviceId :=
  match s with
  | SignInDevice s => if adopted s then Some (cred_device (signed_credentials s)) else None
  | SignInBrowser _ => None
  end.

Lemma sign_in_rows p surface reg entropy nd now i s i' : sign_in_device p surface reg entropy nd now i = Ok (s, i') →
  rows_kept (adopted_device (SignInDevice s)) i i'.
Proof.
  unfold sign_in_device. intros HT. tx_inv. match goal with a : Registration |- _ => destruct a end; tx_inv; cbn.
  - rename select (update_credential_hash _ _ _ = _) into Hu. unfold update_credential_hash in Hu. itx_inv.
    intros d' row' Hne Hr. cbn. rewrite lookup_alter_ne; [done|]. congruence.
  - rename select (insert_device _ _ _ = _) into Hi. apply (kept_insert_device None) in Hi.
    rename select (insert_device_key _ _ _ = _) into Hk. unfold insert_device_key in Hk. itx_inv. exact Hi.
Qed.

(** A transaction that keeps the rows before it signs a device in. *)
Lemma sign_in_after {A} fail (m : ITx A) p surface reg entropy nd now i r i' : follows (rows_kept None) m →
  atomic fail (_ ← m; sign_in_device p surface reg entropy nd now) i = (r, i') →
  match r with Ok s => rows_kept (adopted_device (SignInDevice s)) i i' | Err _ => i' = i end.
Proof.
  intros Hm HT. destruct r as [s|e].
  - apply atomic_ok in HT as [_ HT]. tx_inv. rename select (m _ = _) into Hx. apply Hm in Hx.
    rename select (sign_in_device _ _ _ _ _ _ _ = _) into Hs. apply sign_in_rows in Hs.
    etrans; [by apply rows_kept_weaken|done].
  - unfold atomic in HT. destruct fail; [by injection HT as _ <-|by apply commit_err_same in HT].
Qed.
Lemma claim_registration_rows fail n now i : rows_kept None i (claim_registration_ceremony fail n now i).2.
Proof. as_op i. unfold claim_registration_ceremony, claim_ceremony, remove_expired_identity_records, take_sign_in. kept. Qed.
Lemma claim_authentication_rows fail n now i : rows_kept None i (claim_authentication_ceremony fail n now i).2.
Proof. as_op i. unfold claim_authentication_ceremony, claim_ceremony, remove_expired_identity_records, take_sign_in. kept. Qed.

Definition signs_in (o : IOp SignIn) i : Prop :=
  match o i with
  | (Ok s, i') => rows_kept (adopted_device s) i i'
  | (Err _, i') => rows_kept None i i'
  end.

Lemma signs_in_pure {A} (r : Result ControlError A) (f : A → IOp SignIn) i :
  (∀ a, signs_in (f a) i) → signs_in (pure_op r ≫= f) i.
Proof. intros Hf. unfold signs_in, mbind, Op_bind, pure_op. destruct r; [apply Hf|reflexivity]. Qed.

Lemma signs_in_device (o : IOp SignedInDevice) i :
  (∀ r i', o i = (r, i') → match r with Ok s => rows_kept (adopted_device (SignInDevice s)) i i' | Err _ => i' = i end) →
  signs_in (s ← o; mret (SignInDevice s)) i.
Proof.
  intros Ho. unfold signs_in, mbind, Op_bind. destruct (o i) as [[s|e] i'] eqn:E; specialize (Ho _ _ eq_refl); cbn in *; [done|by subst].
Qed.

Lemma signs_in_browser {A} (o : IOp A) grant i : op_follows (rows_kept None) o → signs_in (_ ← o; mret (SignInBrowser grant)) i.
Proof. intros Ho. unfold signs_in, mbind, Op_bind. specialize (Ho i). by destruct (o i) as [[s|e] i']. Qed.

Lemma pure_then {A B} (o : IOp B) (r : Result ControlError A) (f : A → IOp B) i b i' : o = pure_op r ≫= f →
  o i = (b, i') → (∃ a, r = Ok a ∧ f a i = (b, i')) ∨ (∃ e, b = Err e ∧ i' = i).
Proof. intros ->. unfold mbind, Op_bind, pure_op. destruct r as [a|e]; [by eauto|]. intros [= <- <-]. eauto. Qed.

Lemma complete_registration_rows draw n credential proof c i : signs_in (complete_registration draw n credential proof c) i.
Proof.
  unfold complete_registration. do 2 (apply signs_in_pure; intros ?). destruct (ceremony_device c).
  - apply signs_in_device. intros r i' HT. eapply pure_then in HT as [(now & _ & HT)|(e & -> & ->)]; [| |unfold store_registration_and_device; reflexivity]; [|done].
    eapply sign_in_after; [|exact HT]. follow.
  - apply signs_in_pure. intros grant. apply signs_in_browser.
    unfold store_registration_and_ticket, insert_session, insert_ticket, remove_expired_tickets, insert_row. kept.
Qed.

Lemma complete_authentication_rows draw n credential proof c i : signs_in (complete_authentication draw n credential proof c) i.
Proof.
  unfold complete_authentication. do 2 (apply signs_in_pure; intros ?). destruct (ceremony_device c).
  - apply signs_in_device. intros r i' HT. eapply pure_then in HT as [(now & _ & HT)|(e & -> & ->)]; [| |unfold update_passkey_and_store_device; reflexivity]; [|done].
    eapply sign_in_after; [|exact HT]. follow.
  - apply signs_in_pure. intros grant. apply signs_in_browser.
    unfold update_passkey_and_store_ticket, insert_session, insert_ticket, remove_expired_tickets, insert_row. kept.
Qed.
End logins.
