(* ===== verification/ControlStore.v ===== *)
(** * The coordinator's store

    The operations of [store.rs], [event_store.rs], [dispatch_store.rs],
    [task_opening.rs], [task_status.rs], [task_deletion.rs],
    [command_stop.rs], [push_wake.rs] and [node_ownership.rs]: one definition
    per function, its guards in the order of the code. *)
From S2P Require Import Prelude Json Text Protocol Transaction Control Identity.
Section store.
Context `{CS : ControlSerde} `{LT : LibraryTexts}.
Implicit Types (db : ControlDb) (ch : ControlChoice).

(** ** Tasks ([store.rs], [node_ownership.rs], [task_opening.rs]) *)
Definition insert_task (task : TaskSpec) : CTx unit :=
  target_json ← lift (encode (task_target task));
  insert_task_row (task_id task) (MkTaskRow (task_principal task) (task_node task) target_json 0).

Definition create_task ch (task : TaskSpec) : ControlDb → Result ControlError unit * ControlDb :=
  attempt ch (insert_task task).

Definition load_task (t : TaskId) db : Result ControlError StoredTask :=
  row ← ok_or (tasks db !! t) (task_not_found t);
  target ← decode (t_target_json row);
  Ok (MkStoredTask (t_principal row) (t_node row) target).

Definition load_task_for_principal (t : TaskId) (p : PrincipalId) db : Result ControlError StoredTask :=
  task ← load_task t db;
  if decide (stored_principal task = p) then Ok task else Err (task_not_found t).

Definition node_owner (n : NodeId) db : option PrincipalId := node_owners db !! n.

Definition owned_nodes (p : PrincipalId) db : list NodeId :=
  (select (λ _ owner, bool_decide (owner = p)) (node_owners db)).*1.

(** The transaction of [create_node_enrollment]: owner and enrollment together. *)
Definition enroll_node_body (n : NodeId) (owner : PrincipalId) (token_hash : string) (row : EnrollmentRow)
    : CTx unit :=
  existing ← query (node_owner n);
  _ ← match existing with
      | Some p => guard (bool_decide (p = owner))
                    (conflict ("node " +:+ show_id n +:+ " already belongs to another principal"))
      | None => write (λ db, with_owners (<[n := owner]> (node_owners db)) db)
      end;
  identity_tx (insert_enrollment token_hash row).

(** The principals of nodes with a device that is not revoked; a device's peer
    is read by decoding its JSON column. *)
Definition enrolled_owners db : list PrincipalId :=
  remove_dups ((select (λ n _, tbl_exists (λ _ row, negb (d_revoked row) &&
      bool_decide (from_str (d_peer_json row) = Some (PeerNode n))) (devices (identity db))) (node_owners db)).*2).

Definition sole_node_owner db : option PrincipalId :=
  match enrolled_owners db with [owner] => Some owner | _ => None end.

Definition task_in_use (t : TaskId) : ControlError :=
  conflict ("task id " +:+ show_id t +:+ " is already used by a different task").

(** The binding columns of a task equal those of a specification. *)
Definition same_binding (row : TaskRow) (task : TaskSpec) (target_json : Text) : bool :=
  bool_decide (t_principal row = task_principal task) && bool_decide (t_node row = task_node task) &&
  bool_decide (t_target_json row = target_json).

Definition open_body (task : TaskSpec) (available : Availability) : CTx Opening :=
  target_json ← lift (encode (task_target task));
  existing ← query (λ db, tasks db !! task_id task);
  match existing with
  | Some row => if same_binding row task target_json then mret OpeningExisting else throw (task_in_use (task_id task))
  | None =>
      owner ← query (node_owner (task_node task));
      _ ← guard (bool_decide (owner = Some (task_principal task)))
            (not_found ("node " +:+ show_id (task_node task) +:+ " was not found"));
      _ ← match available with
          | Advertised => mret tt
          | NodeOffline => throw node_offline
          | NotAdvertised =>
              throw (not_found ("node " +:+ show_id (task_node task) +:+ " does not advertise target `" +:+
                       task_target task +:+ "`"))
          end;
      _ ← insert_task task;
      mret Opened
  end.

(** ** Wakes ([push_wake.rs]) *)
Definition recorded_wake (rings : bool) (row : option WakeRow) : WakeRow :=
  match row with
  | None => MkWakeRow 1 0 (if rings then 1 else 0)
  | Some w => MkWakeRow (generation w + 1) (settled_at w)
                (if rings then generation w + 1 else ring_generation w)
  end.

(** [push_wake::record]. *)
Definition record (p : PrincipalId) (rings : bool) : CTx unit :=
  write (λ db, with_wakes (<[p := recorded_wake rings (push_wakes db !! p)]> (push_wakes db)) db).

Definition of_quiet_command (k : TaskEventKind) : CTx bool :=
  match k with
  | CommandSubmitted _ => mret false
  | ExecutionRecord c _ =>
      stored ← query (λ db, commands db !! c);
      match stored with
      | None => mret false
      | Some row => command ← lift (decode (A := CommandEnvelope) (k_json row)); mret (input_quiet (input command))
      end
  end.

Definition owed (w : WakeRow) : bool := settled_at w <? generation w.
Definition rings (w : WakeRow) : bool := settled_at w <? ring_generation w.

Definition owed_wakes db : list OwedWake :=
  (λ kv, MkOwedWake kv.1 (generation kv.2) (if rings kv.2 then Some (ring_generation kv.2) else None))
  <$> order_by (λ kv, Z.of_N (as_uuid kv.1)) (select (λ _ w, owed w) (push_wakes db)).

Definition settle_body (p : PrincipalId) (g : Z) : CTx bool :=
  row ← query (λ db, push_wakes db !! p);
  match row with
  | Some w =>
      if (generation w =? g) && owed w
      then _ ← write (λ db, with_wakes (<[p := MkWakeRow (generation w) (generation w) (ring_generation w)]>
                                          (push_wakes db)) db);
           mret true
      else mret false
  | None => mret false
  end.

Definition REQUEST_MEMORY_MS : Z := 24 * 3600000.
Definition saturating_sub_i64 (x y : Z) : Z := Z.max i64_min (Z.min i64_max (x - y)).

Definition request_wake_body (n : NodeId) (wake_id : N) (urgency : WakeUrgency) (now_ms : Z)
    : CTx (option PrincipalId) :=
  owner ← query (node_owner n);
  p ← lift (ok_or owner (role_error ("node " +:+ show_id n +:+ " has no owner, so it has no one to wake")));
  _ ← write (λ db, with_wake_requests
        (filter (λ kv, saturating_sub_i64 now_ms REQUEST_MEMORY_MS ≤ kv.2) (push_wake_requests db)) db);
  known ← query (λ db, push_wake_requests db !! (p, wake_id));
  match known with
  | Some _ => mret None
  | None =>
      _ ← write (λ db, with_wake_requests (<[(p, wake_id) := now_ms]> (push_wake_requests db)) db);
      _ ← record p (bool_decide (urgency = Now));
      mret (Some p)
  end.

(** ** Setup notices of a node ([setup_notices/store.rs]) *)
Definition notice_owner (n : NodeId) db : Result ControlError PrincipalId :=
  ok_or (node_owner n db) (role_error ("node " +:+ show_id n +:+ " has no owner, so it has no devices")).

Definition owner_notice_keys (n : NodeId) db : Result ControlError (list DeviceNoticeKey) :=
  p ← notice_owner n db; Ok (principal_notice_keys p (identity db)).

(** The transaction of [put_notice]. *)
Definition put_notice_body (n : NodeId) (notice : SealedNotice) : CTx (option PrincipalId) :=
  p ← read (notice_owner n);
  fresh ← identity_tx (put_notice_row p n notice);
  if (fresh : bool) then _ ← record p false; mret (Some p) else mret None.

Definition withdraw_notices_body (n : NodeId) (notices : list N) : CTx unit :=
  identity_tx (withdraw_rows n notices).

(** ** The journal ([event_store.rs]) *)
Definition set_task_sequence (n : Z) (row : TaskRow) : TaskRow :=
  MkTaskRow (t_principal row) (t_node row) (t_target_json row) n.

(** A record that wakes marks the wake, unless its command is quiet. *)
Definition mark_wake (p : PrincipalId) (kind : TaskEventKind) : CTx unit :=
  match wake_reason kind with
  | Some _ =>
      quiet ← of_quiet_command kind;
      if (quiet : bool) then mret tt else record p false
  | None => mret tt
  end.

Definition append_event ch (t : TaskId) (source : Source) (kind : TaskEventKind) : CTx TaskEvent :=
  row ← read (λ db, ok_or (tasks db !! t) (sqlite_error no_rows));
  sequence ← lift (from_sql_integer (t_next_sequence row) "task sequence");
  _ ← mark_wake (t_principal row) kind;
  event_id ← query (new_event_id ch);
  column ← lift (to_sql_integer sequence);
  kind_json ← lift (encode kind);
  _ ← insert_task_event event_id (MkTaskEventRow t column source kind_json);
  next ← lift (to_sql_integer (sequence + 1));
  _ ← write (λ db, with_tasks (alter (set_task_sequence next) t (tasks db)) db);
  mret (MkTaskEvent event_id t sequence kind).

(** Rows of a task's journal from a sequence on, in order. *)
Definition journal_rows (t : TaskId) (minimum : Z) db : list (TaskEventId * TaskEventRow) :=
  order_by (λ kv, v_sequence kv.2)
    (select (λ _ r, bool_decide (v_task r = t) && (minimum <=? v_sequence r)) (task_events db)).

Definition decode_row (t : TaskId) (kv : TaskEventId * TaskEventRow) : Result ControlError TaskEvent :=
  sequence ← from_sql_integer (v_sequence kv.2) "task event sequence";
  kind ← decode (v_kind_json kv.2);
  Ok (MkTaskEvent kv.1 t sequence kind).

Definition through_sequence (next_sequence : Z) : Result ControlError (option Z) :=
  n ← from_sql_integer next_sequence "task sequence";
  Ok (if 1 <=? n then Some (n - 1) else None).

Definition load_suffix (t : TaskId) (p : PrincipalId) (after_sequence : option Z) db
    : Result ControlError TaskSuffix :=
  row ← ok_or (tasks db !! t ≫= λ row : TaskRow, if decide (t_principal row = p) then Some row else None)
          (task_not_found t);
  through ← through_sequence (t_next_sequence row);
  _ ← match after_sequence with
      | Some cursor =>
          if match through with None => true | Some through => through <? cursor end
          then Err (invalid ("task cursor " +:+ show cursor +:+ " is ahead of durable task history"))
          else Ok tt
      | None => Ok tt
      end;
  minimum ← to_sql_integer (match after_sequence with None => 0 | Some n => Z.min u64_max (n + 1) end);
  events ← collect (decode_row t) (journal_rows t minimum db);
  Ok (MkTaskSuffix through events).

(** ** Admission of commands ([store.rs]) *)
Definition insert_command ch (t : TaskId) (command : CommandEnvelope) (command_json : Text) : CTx TaskEvent :=
  let c := command_id command in
  _ ← insert_command_row c t command_json;
  event ← append_event ch t (SourceCommand c) (CommandSubmitted command);
  sequence ← lift (to_sql_integer (te_sequence event));
  _ ← insert_pending c sequence;
  mret event.

Definition is_pending db (c : CommandId) : bool := bool_decide (is_Some (pending_executions db !! c)).

Definition admit_command_body ch (t : TaskId) (p : PrincipalId) (surface : SurfaceRef) (c : CommandId)
    (input : CommandInput) (allow_new : bool) : CTx CommandAdmission :=
  task ← read (load_task t);
  _ ← guard (bool_decide (stored_principal task = p)) (task_not_found t);
  let command := MkCommandEnvelope c p surface (stored_target task) input None in
  command_json ← lift (encode command);
  existing ← query (λ db, (λ row, (k_json row, is_pending db c)) <$> commands db !! c);
  match existing with
  | Some (stored_command, pending) =>
      _ ← guard (bool_decide (stored_command = command_json))
            (conflict ("command id " +:+ show_id c +:+ " was already used with different content"));
      mret (CommandExisting command pending)
  | None =>
      if allow_new
      then event ← insert_command ch t command command_json; mret (CommandAdmitted command event)
      else mret NotAdmitted
  end.

(** ** Admission of execution events ([event_store.rs]) *)
Definition ensure_admitted_command (t : TaskId) (c : CommandId) : CTx unit :=
  db ← get;
  guard (bool_decide (k_task <$> commands db !! c = Some t))
    (not_found ("command " +:+ show_id c +:+ " was not admitted for task " +:+ show_id t)).

Definition load_execution_event_stream (c : CommandId) : CTx (option StreamRow) :=
  read (λ db, transpose (λ s, n ← from_sql_integer (s_next s) "execution event sequence";
                              Ok (MkStreamRow (s_execution s) n (s_terminal s))) (streams db !! c)).

Definition initial_execution_event_cursor (stream : option StreamRow) (first : ExecutionEvent) (c : CommandId)
    : Result ControlError Z :=
  match stream with
  | Some s =>
      if decide (s_execution s = x_execution_id first) then Ok (s_next s)
      else Err (conflict ("command " +:+ show_id c +:+ " is already bound to execution " +:+
                  show_id (s_execution s)))
  | None =>
      if x_sequence first =? 0 then Ok 0
      else Err (invalid "execution event stream must start at sequence zero")
  end.

(** Where a kind may stand: [rest] are the events after it. *)
Definition check_kind (sequence : Z) (kind : ExecutionEventKind) (rest : list ExecutionEvent)
    : Result ControlError unit :=
  match kind, rest with
  | ExecutionStarted, _ =>
      if sequence =? 0 then Ok tt else Err (invalid "execution_started must be sequence zero")
  | ExecutionTerminated _, _ :: _ => Err (invalid "execution_terminated must be the final event")
  | _, _ =>
      if sequence =? 0 then Err (invalid "execution event stream must start with execution_started") else Ok tt
  end.

(** The loop of [validate_execution_event_batch]; [offset] is the head's index. *)
Fixpoint validate_events (execution : ExecutionId) (first offset : Z) (events : list ExecutionEvent)
    : Result ControlError unit :=
  match events with
  | [] => Ok tt
  | event :: rest =>
      sequence ← ok_or (checked_add_u64 first offset) (invalid "execution sequence overflow");
      if negb (bool_decide (x_execution_id event = execution) && (x_sequence event =? sequence))
      then Err (invalid "execution event batch must continue one contiguous execution")
      else
        _ ← check_kind sequence (x_kind event) rest;
        validate_events execution first (offset + 1) rest
  end.

Definition validate_execution_event_batch (first : ExecutionEvent) (events : list ExecutionEvent)
    : Result ControlError unit :=
  validate_events (x_execution_id first) (x_sequence first) 0 events.

Definition load_source_event (s : Source) : CTx (option TaskEvent) :=
  read (λ db, transpose (λ kv, decode_row (v_task kv.2) kv)
                (head (select (λ _ r, bool_decide (v_source r = s)) (task_events db)))).

Definition validate_existing_source (existing : option TaskEvent) (t : TaskId) (kind : TaskEventKind)
    (s : Source) : CTx unit :=
  match existing with
  | Some e => guard (bool_decide (te_task_id e = t) && bool_decide (te_kind e = kind))
                (conflict ("event source " +:+ source_text s +:+ " was already used with different content"))
  | None => mret tt
  end.

(** The loop of [append_contiguous_execution_events], with its two cursors. *)
Fixpoint append_contiguous_execution_events ch (t : TaskId) (c : CommandId) (events : list ExecutionEvent)
    (next_sequence : Z) (terminal : bool) : CTx (list TaskEvent * Z * bool) :=
  match events with
  | [] => mret ([], next_sequence, terminal)
  | event :: rest =>
      let source := SourceExecution (x_event_id event) in
      let kind := ExecutionRecord c event in
      existing ← load_source_event source;
      _ ← validate_existing_source existing t kind source;
      if x_sequence event <? next_sequence
      then
        _ ← guard (bool_decide (is_Some existing))
              (conflict ("execution sequence " +:+ show (x_sequence event) +:+
                 " was already accepted with another event identity"));
        append_contiguous_execution_events ch t c rest next_sequence terminal
      else
        _ ← guard (negb (next_sequence <? x_sequence event))
              (invalid ("execution event sequence " +:+ show (x_sequence event) +:+ " leaves a gap after " +:+
                 show next_sequence));
        _ ← guard (negb terminal)
              (invalid ("execution " +:+ show_id (x_execution_id event) +:+ " is already terminal"));
        new ← match existing with
              | None => e ← append_event ch t source kind; mret [e]
              | Some _ => mret []
              end;
        next ← lift (ok_or (checked_add_u64 next_sequence 1) (invalid "execution sequence overflow"));
        '(appended, next, terminal) ←
          append_contiguous_execution_events ch t c rest next (is_terminated (x_kind event));
        mret (new ++ appended, next, terminal)
  end.

Definition store_execution_event_cursor (c : CommandId) (execution : ExecutionId) (exists_ : bool)
    (next_sequence : Z) (terminal : bool) : CTx unit :=
  next ← lift (to_sql_integer next_sequence);
  if exists_
  then write (λ db, with_streams
         (alter (λ s, MkStreamRow (s_execution s) next terminal) c (streams db)) db)
  else insert_stream c (MkStreamRow execution next terminal).

Definition admit_execution_event_batch ch (t : TaskId) (c : CommandId) (events : list ExecutionEvent)
    : CTx ExecutionEventAdmission :=
  _ ← ensure_admitted_command t c;
  match events with
  | [] => throw (invalid "execution event batch is empty")
  | first :: _ =>
      stream ← load_execution_event_stream c;
      next_sequence ← lift (initial_execution_event_cursor stream first c);
      _ ← lift (validate_execution_event_batch first events);
      _ ← guard (negb (next_sequence <? x_sequence first))
            (invalid ("execution event batch starts at sequence " +:+ show (x_sequence first) +:+
               "; expected at most " +:+ show next_sequence));
      '(appended, next_sequence, terminal) ←
        append_contiguous_execution_events ch t c events next_sequence
          (match stream with Some s => s_terminal s | None => false end);
      _ ← store_execution_event_cursor c (x_execution_id first) (bool_decide (is_Some stream))
            next_sequence terminal;
      through ← lift (if 1 <=? next_sequence then Ok (next_sequence - 1)
                      else Err (store_error "execution event cursor did not advance"));
      mret (MkExecutionEventAdmission through appended None)
  end.

(** ** Status of a task ([task_status.rs]) *)
Definition latest_command (t : TaskId) db : option CommandId :=
  fst <$> head (order_by (λ kv, - k_rowid kv.2) (select (λ _ r, bool_decide (k_task r = t)) (commands db))).

(** The loop of [terminal_of] over the rows from the journal's end. *)
Fixpoint find_terminal (c : CommandId) (rows : list (TaskEventId * TaskEventRow))
    : Result ControlError ExecutionTerminal :=
  match rows with
  | [] => Err (store_error ("settled command " +:+ show_id c +:+ " has no terminal record"))
  | kv :: rest =>
      kind ← decode (v_kind_json kv.2);
      match kind with
      | ExecutionRecord cause event =>
          match x_kind event with
          | ExecutionTerminated terminal => if decide (cause = c) then Ok terminal else find_terminal c rest
          | _ => find_terminal c rest
          end
      | CommandSubmitted _ => find_terminal c rest
      end
  end.

Definition rows_from_end (t : TaskId) db : list (TaskEventId * TaskEventRow) :=
  order_by (λ kv, - v_sequence kv.2) (select (λ _ r, bool_decide (v_task r = t)) (task_events db)).

Definition terminal_of (t : TaskId) (c : CommandId) db : Result ControlError ExecutionTerminal :=
  find_terminal c (rows_from_end t db).

Definition derive (t : TaskId) db : Result ControlError TaskStatus :=
  match latest_command t db with
  | None => Ok Idle
  | Some c => if settled db c then terminal ← terminal_of t c db; Ok (after terminal) else Ok Working
  end.

Definition summarize db (kv : TaskId * TaskRow) : Result ControlError TaskSummary :=
  target ← decode (t_target_json kv.2);
  status ← derive kv.1 db;
  through ← through_sequence (t_next_sequence kv.2);
  Ok (MkTaskSummary kv.1 target status through).

Definition list_tasks (p : PrincipalId) db : Result ControlError (list TaskSummary) :=
  collect (summarize db)
    (order_by (λ kv, Z.of_N (as_uuid kv.1)) (select (λ _ r, bool_decide (t_principal r = p)) (tasks db))).

(** ** Deliveries ([dispatch_store.rs]) *)
Definition node_of_task (t : TaskId) db : option NodeId := t_node <$> tasks db !! t.

(** [ORDER BY commands.task_id, n]. *)
Definition le_by_task {A} (key : A → TaskId * Z) (x y : A) : Prop :=
  (as_uuid (key x).1 < as_uuid (key y).1)%N ∨
  as_uuid (key x).1 = as_uuid (key y).1 ∧ (key x).2 ≤ (key y).2.
#[global] Instance le_by_task_dec {A} (key : A → TaskId * Z) x y : Decision (le_by_task key x y).
Proof. unfold le_by_task. apply _. Defined.

(** A delivery joined with its command, for the commands of a node's tasks. *)
Definition join_commands {V} (n : NodeId) (m : gmap CommandId V) db : list (CommandId * CommandRow * V) :=
  omap (λ kv, row ← commands db !! kv.1;
              if decide (node_of_task (k_task row) db = Some n) then Some (kv.1, row, kv.2) else None)
    (map_to_list m).

Definition load_pending_executions (n : NodeId) db : Result ControlError (list PendingExecution) :=
  collect (λ r, command ← decode (k_json r.1.2); Ok (MkPendingExecution (k_task r.1.2) command))
    (merge_sort (le_by_task (λ r, (k_task r.1.2, r.2))) (join_commands n (pending_executions db) db)).

Definition does_not_own (n : NodeId) (t : TaskId) : ControlError :=
  invalid ("node " +:+ show_id n +:+ " does not own task " +:+ show_id t).

Definition acknowledge_execution_body (n : NodeId) (t : TaskId) (c : CommandId) : CTx unit :=
  owner ← read (λ db, ok_or (row ← commands db !! c;
                             if decide (k_task row = t) then node_of_task t db else None)
                        (not_found ("command " +:+ show_id c +:+ " was not admitted for task " +:+ show_id t)));
  _ ← guard (bool_decide (owner = n)) (does_not_own n t);
  write (λ db, with_pending (delete c (pending_executions db)) db).

(** ** Stops ([command_stop.rs]) *)
Definition admit_stop_body (t : TaskId) (c : CommandId) : CTx StopAdmission :=
  ended ← read (λ db, ok_or (row ← commands db !! c;
                             if decide (k_task row = t) then Some (settled db c) else None)
                        (not_found ("command " +:+ show_id c +:+ " was not admitted for task " +:+ show_id t)));
  recorded ← query (λ db, stop_requests db !! c);
  match recorded with
  | Some row => mret (Recorded (stop_delivered row))
  | None =>
      if (ended : bool) then mret AlreadyEnded
      else _ ← insert_stop c; mret (Recorded false)
  end.

Definition load_pending_stops (n : NodeId) db : list PendingStop :=
  (λ r, MkPendingStop (k_task r.1.2) r.1.1) <$>
  merge_sort (le_by_task (λ r, (k_task r.1.2, stop_rowid r.2)))
    (List.filter (λ r, negb (stop_delivered r.2)) (join_commands n (stop_requests db) db)).

Definition acknowledge_stop_body (n : NodeId) (t : TaskId) (c : CommandId) : CTx unit :=
  owner ← query (node_of_task t);
  match owner with
  | None => mret tt
  | Some owner =>
      _ ← guard (bool_decide (owner = n)) (does_not_own n t);
      write (λ db,
        if decide (k_task <$> commands db !! c = Some t)
        then with_stops (alter (λ s, MkStopRow (stop_rowid s) true) c (stop_requests db)) db
        else db)
  end.

(** ** Deletion ([task_deletion.rs]) *)
Definition of_task db (t : TaskId) (c : CommandId) : bool := bool_decide (k_task <$> commands db !! c = Some t).

(** [DELETE FROM commands], with the rows that cascade. *)
Definition delete_commands (t : TaskId) db : ControlDb :=
  let keep {V} (m : gmap CommandId V) := filter (λ kv, negb (of_task db t kv.1)) m in
  with_commands (filter (λ kv, k_task kv.2 ≠ t) (commands db))
    (with_pending (keep (pending_executions db))
      (with_streams (keep (streams db))
        (with_stops (keep (stop_requests db)) db))).

(** [DELETE FROM tasks], which rows that still reference it refuse. *)
Definition delete_task_row (t : TaskId) : CTx unit :=
  db ← get;
  _ ← constraint (negb (tbl_exists (λ _ r, bool_decide (k_task r = t)) (commands db) ||
                        tbl_exists (λ _ r, bool_decide (v_task r = t)) (task_events db))) "tasks.task_id";
  write (with_tasks (delete t (tasks db))).

Definition remove (t : TaskId) : CTx (Z * Z) :=
  _ ← write (λ db, with_streams (filter (λ kv, negb (of_task db t kv.1)) (streams db)) db);
  events ← query (λ db, length (select (λ _ r, bool_decide (v_task r = t)) (task_events db)));
  _ ← write (λ db, with_task_events (filter (λ kv, v_task kv.2 ≠ t) (task_events db)) db);
  removed ← query (λ db, length (select (λ _ r, bool_decide (k_task r = t)) (commands db)));
  _ ← write (delete_commands t);
  _ ← delete_task_row t;
  mret (Z.of_nat events, Z.of_nat removed).

Definition delete_body (p : PrincipalId) (t : TaskId) : CTx (option (Z * Z)) :=
  owner ← query (λ db, t_principal <$> tasks db !! t);
  match owner with
  | None => mret None
  | Some owner =>
      _ ← guard (bool_decide (owner = p)) (task_not_found t);
      in_flight ← query (λ db, tbl_exists (λ c r, bool_decide (k_task r = t) && negb (settled db c)) (commands db));
      _ ← guard (negb in_flight)
            (conflict ("task " +:+ show_id t +:+ " has an execution in flight; delete it once that finishes"));
      counts ← remove t;
      mret (Some counts)
  end.
End store.

(** * Messages between agents ([agent_replies.rs], [agent_messages.rs])

    The answer a terminal record admits in the asker's task, in the transaction
    that appends it, and the admission of an agent's message to another agent
    of the same owner. *)
Section agents.
Context `{CS : ControlSerde} `{LT : LibraryTexts} `{DG : Digest}.
Implicit Types (db : ControlDb) (ch : ControlChoice).

(** ** Replies *)

(** The first terminal among appended records. *)
Definition terminal_record (e : TaskEvent) : option ExecutionTerminal :=
  match te_kind e with
  | ExecutionRecord _ event =>
      match x_kind event with ExecutionTerminated terminal => Some terminal | _ => None end
  | CommandSubmitted _ => None
  end.
Definition appended_terminal (appended : list TaskEvent) : option ExecutionTerminal :=
  head (omap terminal_record appended).

(** The text of a row that records an assistant message of [c]: the paths of
    the query are those of the serialized record. *)
Definition assistant_text (c : CommandId) (kv : TaskEventId * TaskEventRow) : option string :=
  match from_str (A := TaskEventKind) (v_kind_json kv.2) with
  | Some (ExecutionRecord cause event) =>
      match x_kind event with
      | AssistantMessage text => if decide (cause = c) then Some text else None
      | _ => None
      end
  | _ => None
  end.

Definition last_assistant_text (t : TaskId) (c : CommandId) db : option string :=
  head (omap (assistant_text c) (rows_from_end t db)).

Definition reply_content (terminal : ExecutionTerminal) (last_text : option string) : AgentMessageKind * string :=
  match terminal with
  | ExecutionCompleted => (Reply, default "" last_text)
  | ExecutionFailed error => (Failure, error)
  | ExecutionCancelled reason => (Failure, reason)
  end.

(** The reply to the request [c] of [origin], in a task bound as [asker]. *)
Definition reply_envelope (c : CommandId) (terminal : ExecutionTerminal) (last_text : option string)
    (asker : StoredTask) (replier_target : TargetRef) (replier : string) (quiet : bool) (depth : Z)
    : CommandEnvelope :=
  let '(kind, text) := reply_content terminal last_text in
  MkCommandEnvelope (reply_id c) (stored_principal asker) AGENT_SURFACE (stored_target asker)
    (quiet_if (from_text (bounded_text text)) quiet)
    (Some (MkAgentOrigin c replier_target replier (Z.min (depth + 1) u32_max) kind)).

Definition admit_reply ch (t : TaskId) (c : CommandId) (appended : list TaskEvent) (replier : string)
    : CTx (option AgentReply) :=
  match appended_terminal appended with
  | None => mret None
  | Some terminal =>
      row ← read (λ db, ok_or (commands db !! c) (sqlite_error no_rows));
      command ← lift (decode (A := CommandEnvelope) (k_json row));
      match origin command with
      | None => mret None
      | Some origin =>
          if negb (expects_reply (origin_kind origin)) then mret None
          else
            asker_row ← query (λ db, commands db !! from_command origin);
            match asker_row with
            | None => mret None
            | Some asker_row =>
                let asker_task := k_task asker_row in
                asking ← lift (decode (A := CommandEnvelope) (k_json asker_row));
                last_text ← query (last_assistant_text t c);
                asker ← read (load_task asker_task);
                replying ← read (load_task t);
                let answer := reply_envelope c terminal last_text asker (stored_target replying) replier
                               (input_quiet (input asking)) (depth origin) in
                reply_json ← lift (encode answer);
                event ← insert_command ch asker_task answer reply_json;
                mret (Some (MkAgentReply asker_task t (stored_node asker) answer event))
            end
      end
  end.

(** The transaction of [append_execution_events]. *)
Definition append_execution_events_body ch (t : TaskId) (c : CommandId) (events : list ExecutionEvent)
    (replier : string) : CTx ExecutionEventAdmission :=
  admission ← admit_execution_event_batch ch t c events;
  answer ← admit_reply ch t c (admitted_events admission) replier;
  mret (MkExecutionEventAdmission (through_execution_sequence admission) (admitted_events admission) answer).

(** ** Messages *)
Definition unknown_conversation : ControlError :=
  not_found ("Renoa cannot tell which conversation this message is sent from. " +:+
             "If it keeps failing, tell your owner.").

Definition load_source (n : NodeId) (p : PrincipalId) (m : OutgoingMessage) db
    : Result ControlError (TaskId * StoredTask * CommandEnvelope) :=
  row ← ok_or (commands db !! msg_from_command m) unknown_conversation;
  task ← load_task (k_task row) db;
  if negb (bool_decide (stored_node task = n) && bool_decide (stored_principal task = p))
  then Err unknown_conversation
  else command ← decode (k_json row); Ok (k_task row, task, command).

Definition stored_message (c : CommandId) db : Result ControlError (option (CommandEnvelope * TaskId * bool)) :=
  transpose (λ row, command ← decode (k_json row); Ok (command, k_task row, is_pending db c)) (commands db !! c).

Definition open_thread (task : TaskSpec) : CTx unit :=
  existing ← query (λ db, tasks db !! task_id task);
  match existing with
  | None => insert_task task
  | Some row =>
      target_json ← lift (encode (task_target task));
      guard (same_binding row task target_json)
        (conflict ("The conversation with that agent could not be opened, because its identity is already in use. " +:+
           "Tell your owner."))
  end.

(** The command a message becomes, given the sender's name. *)
Definition message_command (p : PrincipalId) (m : OutgoingMessage) (source_target : TargetRef)
    (quiet : bool) (depth : Z) (name : string) : CommandEnvelope :=
  MkCommandEnvelope (message_id m) p AGENT_SURFACE (to_target m)
    (quiet_if (from_text (msg_text m)) quiet)
    (Some (MkAgentOrigin (msg_from_command m) source_target name depth Request)).

Definition card_for (target : TargetRef) (cards : list TargetCard) : option TargetCard :=
  List.find (λ card, String.eqb (card_target card) target) cards.

Definition admit_in ch (n : NodeId) (sender_cards : list TargetCard)
    (destination : option (list TargetCard)) (m : OutgoingMessage) : CTx MessageAdmission :=
  p ← read (λ db, ok_or (node_owner n db)
        (role_error ("This machine has no owner, so its agents cannot message other agents. " +:+
           "Tell the person you are working with.")));
  '(from_task, source, source_command) ← read (load_source n p m);
  depth ← lift (message_depth source_command m);
  to_owner ← query (node_owner (to_node m));
  _ ← guard (bool_decide (to_owner = Some p))
        (not_found ("That agent is not one of your owner's agents. " +:+
           "Look up the agents again and choose a name from the list."));
  _ ← guard (negb (bool_decide (n = to_node m) && bool_decide (stored_target source = to_target m)))
        (invalid "An agent cannot message itself. Choose a different agent.");
  let t := thread_task_id p (n, stored_target source) (to_node m, to_target m) in
  let command_with := message_command p m (stored_target source) (input_quiet (input source_command)) depth in
  stored ← read (stored_message (message_id m));
  match stored with
  | Some (stored, stored_task, pending) =>
      let stored_name := default "" (origin_name <$> origin stored) in
      _ ← guard (bool_decide (stored = command_with stored_name) && bool_decide (stored_task = t))
            (conflict ("That message was already sent with different content. " +:+
               "Send the new content as a new message."));
      mret (MessageExisting t from_task stored pending)
  | None =>
      card ← lift (ok_or (card_for (stored_target source) sender_cards)
               (invalid ("Renoa does not yet know this agent's name, so the message cannot say who it is from. " +:+
                  "Wait a moment and try again.")));
      let command := command_with (card_name card) in
      command_json ← lift (encode command);
      _ ← match destination with
          | None => throw (node_offline_with "That agent's machine is not connected right now.")
          | Some cards =>
              guard (bool_decide (is_Some (card_for (to_target m) cards)))
                (not_found ("That agent is no longer available on its machine. " +:+
                   "Look up the agents again and choose a name from the list."))
          end;
      _ ← open_thread (MkTaskSpec t p (to_node m) (to_target m));
      event ← insert_command ch t command command_json;
      mret (MessageAdmitted t from_task command event)
  end.
End agents.

(** ** Enrollment of a node ([node_ownership.rs]) *)
Section enrollment.
Context `{CS : ControlSerde} `{LT : LibraryTexts} `{DG : Digest}.

Definition create_node_enrollment (ch : ControlChoice) (entropy : Entropy) (n : NodeId) (owner : PrincipalId)
    (expires_at : SystemTime) (db : ControlDb) : Result ControlError string * ControlDb :=
  match pending_enrollment entropy (PeerNode n) expires_at with
  | Err e => (Err e, db)
  | Ok (token, pending) =>
      match attempt ch (enroll_node_body n owner (token_hash pending) (pending_row pending)) db with
      | (Ok _, db') => (Ok token, db')
      | (Err e, db') => (Err e, db')
      end
  end.
End enrollment.
