(* ===== verification/Journals.v ===== *)
(** * Journals: what the coordinator's store promises

    The abstract state of the coordinator: every task with its binding and its
    journal, a list of records. [journals_wf] is what a journal means: a record
    has one source, an execution record follows the submission of its command,
    and the records of one command are one execution, numbered from zero, begun
    by its start and ended at most once. [journal_step] is how journals move. *)
From S2P Require Import Prelude Json Text Protocol Transaction Control.
Section journals.
Context `{JV : JsonValue}.

Record Journal := MkJournal {
  j_principal : PrincipalId; j_node : NodeId; j_target : TargetRef; j_log : list TaskEventKind }.

Definition source_of (k : TaskEventKind) : Source :=
  match k with
  | CommandSubmitted c => SourceCommand (command_id c)
  | ExecutionRecord _ e => SourceExecution (x_event_id e)
  end.

Definition execution_of (c : CommandId) (k : TaskEventKind) : option ExecutionEvent :=
  match k with ExecutionRecord c' e => if decide (c' = c) then Some e else None | _ => None end.

(** The accepted events of a command, in order. *)
Definition stream_of (c : CommandId) (log : list TaskEventKind) : list ExecutionEvent :=
  omap (execution_of c) log.

Definition submitted (log : list TaskEventKind) (c : CommandId) : Prop :=
  ∃ env, CommandSubmitted env ∈ log ∧ command_id env = c.

Definition ends (xs : list ExecutionEvent) : bool :=
  match last xs with Some e => is_terminated (x_kind e) | None => false end.

Record stream_wf (xs : list ExecutionEvent) : Prop := {
  sw_sequence : ∀ i e, xs !! i = Some e → x_sequence e = Z.of_nat i;
  sw_execution : ∀ e1 e2, e1 ∈ xs → e2 ∈ xs → x_execution_id e1 = x_execution_id e2;
  sw_started : ∀ i e, xs !! i = Some e → is_started (x_kind e) = true ↔ i = 0%nat;
  sw_terminated : ∀ i e, xs !! i = Some e → is_terminated (x_kind e) = true → S i = length xs;
}.

Definition log_append (ks : list TaskEventKind) (T : Journal) : Journal :=
  MkJournal (j_principal T) (j_node T) (j_target T) (j_log T ++ ks).
End journals.

Abbreviation Journals := (gmap TaskId Journal).

Section system.
Context `{JV : JsonValue}.
Implicit Types (J : Journals) (T : Journal) (t : TaskId) (c : CommandId).

Record journals_wf J : Prop := {
  jw_submitted : ∀ t T env, J !! t = Some T → CommandSubmitted env ∈ j_log T →
    principal_id env = j_principal T ∧ target env = j_target T ∧ input_ok (input env) = true;
  jw_caused : ∀ t T i c e, J !! t = Some T → j_log T !! i = Some (ExecutionRecord c e) →
    submitted (take i (j_log T)) c;
  jw_sources : ∀ t1 T1 i1 k1 t2 T2 i2 k2, J !! t1 = Some T1 → J !! t2 = Some T2 →
    j_log T1 !! i1 = Some k1 → j_log T2 !! i2 = Some k2 → source_of k1 = source_of k2 → t1 = t2 ∧ i1 = i2;
  jw_streams : ∀ t T c, J !! t = Some T → stream_wf (stream_of c (j_log T));
  jw_executions : ∀ t1 T1 c1 e1 t2 T2 c2 e2, J !! t1 = Some T1 → J !! t2 = Some T2 →
    e1 ∈ stream_of c1 (j_log T1) → e2 ∈ stream_of c2 (j_log T2) →
    x_execution_id e1 = x_execution_id e2 → c1 = c2;
}.

(** No journal has a record of this source. *)
Definition fresh_source J (s : Source) : Prop :=
  ∀ t T k, J !! t = Some T → k ∈ j_log T → source_of k ≠ s.

(** No journal has a record of this execution, but for the command [c]. *)
Definition free_execution J c (x : ExecutionId) : Prop :=
  ∀ t T c' e, J !! t = Some T → e ∈ stream_of c' (j_log T) → x_execution_id e = x → c' = c.

(** A command's execution ended: every command of the journal has. *)
Definition quiescent (log : list TaskEventKind) : Prop :=
  ∀ env, CommandSubmitted env ∈ log → ends (stream_of (command_id env) log) = true.

(** One move of the journals; [D] are the tasks that may be deleted. *)
Inductive journal_step (D : TaskId → Prop) : Journals → Journals → Prop :=
| step_open J t p n tg :
    J !! t = None → journal_step D J (<[t := MkJournal p n tg []]> J)
| step_submit J t T env :
    J !! t = Some T → fresh_source J (SourceCommand (command_id env)) →
    principal_id env = j_principal T → target env = j_target T → input_ok (input env) = true →
    journal_step D J (<[t := log_append [CommandSubmitted env] T]> J)
| step_execute J t T c new :
    J !! t = Some T → submitted (j_log T) c → stream_wf (stream_of c (j_log T) ++ new) →
    (∀ e, e ∈ new → fresh_source J (SourceExecution (x_event_id e))) → NoDup (x_event_id <$> new) →
    (∀ e, e ∈ new → free_execution J c (x_execution_id e)) →
    journal_step D J (<[t := log_append (ExecutionRecord c <$> new) T]> J)
| step_delete J t T :
    D t → J !! t = Some T → quiescent (j_log T) → journal_step D J (delete t J).

(** ** Streams *)
Lemma stream_of_app c l1 l2 : stream_of c (l1 ++ l2) = stream_of c l1 ++ stream_of c l2.
Proof. apply omap_app. Qed.

Lemma stream_of_records c new : stream_of c (ExecutionRecord c <$> new) = new.
Proof. induction new as [|e new IH]; [done|]. cbn. rewrite decide_True by done. cbn. by f_equal. Qed.

Lemma stream_of_other c c' new : c ≠ c' → stream_of c (ExecutionRecord c' <$> new) = [].
Proof. intros Hne. induction new as [|e new IH]; [done|]. cbn. by rewrite decide_False by done. Qed.

Lemma elem_of_stream c e log : e ∈ stream_of c log ↔ ExecutionRecord c e ∈ log.
Proof.
  unfold stream_of. rewrite list_elem_of_omap. split.
  - intros (k & Hin & Hk). destruct k as [|c' e']; cbn in Hk; [done|]. case_decide; naive_solver.
  - intros Hin. exists (ExecutionRecord c e). split; [done|]. cbn. by rewrite decide_True.
Qed.

Lemma elem_of_records c c' e (new : list ExecutionEvent) : ExecutionRecord c e ∈ (ExecutionRecord c' <$> new) ↔ c = c' ∧ e ∈ new.
Proof. rewrite list_elem_of_fmap. naive_solver. Qed.

Lemma stream_wf_nil : stream_wf [].
Proof. split; intros *; rewrite ?lookup_nil, ?elem_of_nil; done. Qed.

Lemma stream_wf_app_l xs ys : stream_wf (xs ++ ys) → ends xs = false ∨ ys = [] → stream_wf xs.
Proof.
  intros [Hs Hx Hst Ht] Hend. split.
  - intros i e He. by apply Hs, lookup_app_l_Some.
  - intros e1 e2 H1 H2. apply Hx; apply elem_of_app; by left.
  - intros i e He. by apply Hst, lookup_app_l_Some.
  - intros i e He Hk. assert (S i = length (xs ++ ys)) as Hl by (by eapply Ht; [apply lookup_app_l_Some|]).
    pose proof (lookup_lt_Some _ _ _ He). rewrite length_app in Hl. lia.
Qed.

Lemma submitted_app_l l1 l2 c : submitted l1 c → submitted (l1 ++ l2) c.
Proof. intros (env & Hin & <-). exists env. split; [|done]. apply elem_of_app. by left. Qed.

(** ** Journals stay well formed *)
Lemma wf_open J t p n tg : J !! t = None → journals_wf J → journals_wf (<[t := MkJournal p n tg []]> J).
Proof.
  intros Ht [H1 H2 H3 H4 H5]. split.
  - intros t' T' env [[<- <-]|[? ?]]%lookup_insert_Some; [by intros ?%elem_of_nil|eauto].
  - intros t' T' i c e [[<- <-]|[? ?]]%lookup_insert_Some; [done|eauto].
  - intros t1 T1 i1 k1 t2 T2 i2 k2 [[<- <-]|[? ?]]%lookup_insert_Some [[<- <-]|[? ?]]%lookup_insert_Some; [done..|eauto].
  - intros t' T' c [[<- <-]|[? ?]]%lookup_insert_Some; [apply stream_wf_nil|eauto].
  - intros t1 T1 c1 e1 t2 T2 c2 e2 [[<- <-]|[? ?]]%lookup_insert_Some [[<- <-]|[? ?]]%lookup_insert_Some;
      [by intros ?%elem_of_nil..|by intros ? ?%elem_of_nil|eauto].
Qed.

Lemma wf_delete J t : journals_wf J → journals_wf (delete t J).
Proof.
  intros [H1 H2 H3 H4 H5]. split; intros *; rewrite !lookup_delete_Some; naive_solver.
Qed.

(** What appended records must satisfy. *)
Record appendable J T (ks : list TaskEventKind) : Prop := {
  ap_submitted : ∀ env, CommandSubmitted env ∈ ks →
    principal_id env = j_principal T ∧ target env = j_target T ∧ input_ok (input env) = true;
  ap_caused : ∀ c e, ExecutionRecord c e ∈ ks → submitted (j_log T) c;
  ap_fresh : ∀ k, k ∈ ks → fresh_source J (source_of k);
  ap_distinct : NoDup (source_of <$> ks);
  ap_streams : ∀ c, stream_wf (stream_of c (j_log T ++ ks));
  ap_execution : ∀ c e, ExecutionRecord c e ∈ ks → free_execution J c (x_execution_id e);
  ap_one : ∀ c1 e1 c2 e2, ExecutionRecord c1 e1 ∈ ks → ExecutionRecord c2 e2 ∈ ks → c1 = c2;
}.

(** A record of the extended journals is an old one or an appended one. *)
Lemma lookup_appended J t T ks t' T' i k :
  <[t := log_append ks T]> J !! t' = Some T' → j_log T' !! i = Some k → J !! t = Some T →
  (∃ T0, J !! t' = Some T0 ∧ j_log T0 !! i = Some k) ∨
  t' = t ∧ (length (j_log T) ≤ i)%nat ∧ ks !! (i - length (j_log T))%nat = Some k.
Proof.
  intros [[<- <-]|[? ?]]%lookup_insert_Some Hk Ht; [|eauto]. cbn in Hk.
  apply lookup_app_Some in Hk as [?|[? ?]]; eauto.
Qed.

Lemma wf_sources_append J t T ks : J !! t = Some T → journals_wf J → appendable J T ks →
  ∀ t1 T1 i1 k1 t2 T2 i2 k2,
    <[t := log_append ks T]> J !! t1 = Some T1 → <[t := log_append ks T]> J !! t2 = Some T2 →
    j_log T1 !! i1 = Some k1 → j_log T2 !! i2 = Some k2 → source_of k1 = source_of k2 → t1 = t2 ∧ i1 = i2.
Proof.
  intros Ht HW HA t1 T1 i1 k1 t2 T2 i2 k2 HT1 HT2 Hk1 Hk2 Hs.
  destruct (lookup_appended _ _ _ _ _ _ _ _ HT1 Hk1 Ht) as [(T1' & H1 & H1')|(-> & Hl1 & H1)],
    (lookup_appended _ _ _ _ _ _ _ _ HT2 Hk2 Ht) as [(T2' & H2 & H2')|(-> & Hl2 & H2)].
  - by eapply (jw_sources _ HW).
  - destruct (ap_fresh _ _ _ HA k2 (list_elem_of_lookup_2 _ _ _ H2) t1 T1' k1); eauto using list_elem_of_lookup_2.
  - destruct (ap_fresh _ _ _ HA k1 (list_elem_of_lookup_2 _ _ _ H1) t2 T2' k2); eauto using list_elem_of_lookup_2.
  - split; [done|].
    assert ((i1 - length (j_log T)) = (i2 - length (j_log T)))%nat; [|lia].
    eapply NoDup_lookup; [apply (ap_distinct _ _ _ HA)|..]; rewrite list_lookup_fmap;
      [by rewrite H1|rewrite H2; cbn; by rewrite Hs].
Qed.

Lemma wf_executions_append J t T ks : J !! t = Some T → journals_wf J → appendable J T ks →
  ∀ t1 T1 c1 e1 t2 T2 c2 e2,
    <[t := log_append ks T]> J !! t1 = Some T1 → <[t := log_append ks T]> J !! t2 = Some T2 →
    e1 ∈ stream_of c1 (j_log T1) → e2 ∈ stream_of c2 (j_log T2) →
    x_execution_id e1 = x_execution_id e2 → c1 = c2.
Proof.
  intros Ht HW HA t1 T1 c1 e1 t2 T2 c2 e2 HT1 HT2.
  rewrite !elem_of_stream. intros [i1 Hk1]%list_elem_of_lookup [i2 Hk2]%list_elem_of_lookup Hx.
  destruct (lookup_appended _ _ _ _ _ _ _ _ HT1 Hk1 Ht) as [(T1' & H1 & H1')|(-> & Hl1 & H1)],
    (lookup_appended _ _ _ _ _ _ _ _ HT2 Hk2 Ht) as [(T2' & H2 & H2')|(-> & Hl2 & H2)];
    repeat match goal with H : _ !! _ = Some (ExecutionRecord _ _) |- _ => apply list_elem_of_lookup_2 in H end.
  - eapply (jw_executions _ HW); [exact H1|exact H2|..|done]; by apply elem_of_stream.
  - eapply (ap_execution _ _ _ HA); [done|exact H1|by apply elem_of_stream|done].
  - symmetry. eapply (ap_execution _ _ _ HA); [done|exact H2|by apply elem_of_stream|done].
  - by eapply (ap_one _ _ _ HA).
Qed.

Lemma wf_append J t T ks : J !! t = Some T → journals_wf J → appendable J T ks →
  journals_wf (<[t := log_append ks T]> J).
Proof.
  intros Ht HW HA. split.
  - intros t' T' env [[<- <-]|[? ?]]%lookup_insert_Some; [|by apply (jw_submitted _ HW t')].
    intros [?|?]%elem_of_app; [by apply (jw_submitted _ HW t T)|by apply (ap_submitted _ _ _ HA)].
  - intros t' T' i c e [[<- <-]|[? ?]]%lookup_insert_Some Hk; [|by eapply (jw_caused _ HW)]. cbn in *.
    apply lookup_app_Some in Hk as [Hk|[Hl Hk]].
    + rewrite take_app_le; [by eapply (jw_caused _ HW)|]. apply lookup_lt_Some in Hk. lia.
    + rewrite take_app_ge by done. apply submitted_app_l. eapply (ap_caused _ _ _ HA). by eapply list_elem_of_lookup_2.
  - by apply wf_sources_append.
  - intros t' T' c [[<- <-]|[? ?]]%lookup_insert_Some; [apply (ap_streams _ _ _ HA)|by eapply (jw_streams _ HW)].
  - by apply wf_executions_append.
Qed.

Lemma submit_appendable J t T env :
  J !! t = Some T → journals_wf J → fresh_source J (SourceCommand (command_id env)) →
  principal_id env = j_principal T → target env = j_target T → input_ok (input env) = true →
  appendable J T [CommandSubmitted env].
Proof.
  intros Ht HW Hf Hp Htg Hi. split.
  - by intros env' [= ->]%list_elem_of_singleton.
  - by intros c e ?%list_elem_of_singleton.
  - by intros k ->%list_elem_of_singleton.
  - apply NoDup_singleton.
  - intros c. rewrite stream_of_app. cbn. rewrite app_nil_r. by eapply (jw_streams _ HW).
  - by intros c e ?%list_elem_of_singleton.
  - by intros c1 e1 c2 e2 ?%list_elem_of_singleton.
Qed.

Lemma execute_appendable J t T c new :
  J !! t = Some T → journals_wf J → submitted (j_log T) c → stream_wf (stream_of c (j_log T) ++ new) →
  (∀ e, e ∈ new → fresh_source J (SourceExecution (x_event_id e))) → NoDup (x_event_id <$> new) →
  (∀ e, e ∈ new → free_execution J c (x_execution_id e)) →
  appendable J T (ExecutionRecord c <$> new).
Proof.
  intros Ht HW Hc Hwf Hf Hd Hx. split.
  - by intros env (? & ? & ?)%list_elem_of_fmap.
  - by intros c' e [-> ?]%elem_of_records.
  - intros k (e & -> & ?)%list_elem_of_fmap. by apply Hf.
  - rewrite <- list_fmap_compose. change (NoDup ((SourceExecution ∘ x_event_id) <$> new)).
    rewrite list_fmap_compose. apply NoDup_fmap_2; [|done]. by intros ? ? [= ->].
  - intros c'. rewrite stream_of_app. destruct (decide (c' = c)) as [->|Hne].
    + by rewrite stream_of_records.
    + rewrite stream_of_other, app_nil_r by done. by eapply (jw_streams _ HW).
  - intros c' e [-> ?]%elem_of_records. by apply Hx.
  - by intros c1 e1 c2 e2 [-> _]%elem_of_records [-> _]%elem_of_records.
Qed.

Lemma journal_step_wf D J J' : journal_step D J J' → journals_wf J → journals_wf J'.
Proof.
  intros HS HW. destruct HS.
  - by apply wf_open.
  - apply wf_append; [done..|]. by eapply submit_appendable.
  - apply wf_append; [done..|]. by eapply execute_appendable.
  - by apply wf_delete.
Qed.

(** A journal whose task is not deleted keeps its binding and grows. *)
Definition grows T T' : Prop :=
  (j_principal T', j_node T', j_target T') = (j_principal T, j_node T, j_target T) ∧
  j_log T `prefix_of` j_log T'.

#[global] Instance grows_preorder : PreOrder grows.
Proof.
  split; [by intros T; split|]. intros T1 T2 T3 [E1 P1] [E2 P2]. split; [congruence|by etrans].
Qed.

Lemma journal_step_grows D J J' t T : journal_step D J J' → ¬ D t → J !! t = Some T →
  ∃ T', J' !! t = Some T' ∧ grows T T'.
Proof.
  intros HS HD HT. destruct HS as [J t' p n tg Hn|J t' T0 env HT0|J t' T0 c new HT0|J t' T0 Hd HT0].
  - exists T. split; [|done]. rewrite lookup_insert_ne; congruence.
  - destruct (decide (t' = t)) as [->|Hne]; [|exists T; by rewrite lookup_insert_ne].
    simplify_eq. eexists. rewrite lookup_insert_eq. split; [done|]. split; [done|]. by eexists.
  - destruct (decide (t' = t)) as [->|Hne]; [|exists T; by rewrite lookup_insert_ne].
    simplify_eq. eexists. rewrite lookup_insert_eq. split; [done|]. split; [done|]. by eexists.
  - exists T. split; [|done]. rewrite lookup_delete_ne; [done|]. by intros ->.
Qed.

Lemma journal_steps_grow D J J' t T : rtc (journal_step D) J J' → ¬ D t → J !! t = Some T →
  ∃ T', J' !! t = Some T' ∧ grows T T'.
Proof.
  intros HS HD. revert T. induction HS as [|J1 J2 J3 HS _ IH]; intros T HT; [by exists T|].
  destruct (journal_step_grows _ _ _ _ _ HS HD HT) as (T2 & HT2 & HG2).
  destruct (IH T2 HT2) as (T3 & HT3 & HG3). exists T3. split; [done|]. by etrans.
Qed.

Lemma journal_step_mono (D D' : TaskId → Prop) J J' : (∀ t, D t → D' t) → journal_step D J J' → journal_step D' J J'.
Proof. intros HD [ | | | ]; [by constructor..|]. eapply step_delete; eauto. Qed.

Lemma journals_wf_empty : journals_wf ∅.
Proof. split; intros *; by rewrite lookup_empty. Qed.

End system.
