(* ===== verification/ControlRep.v ===== *)
(** * The coordinator's tables stand for journals

    [represents db J]: the rows of a coordinator's database stand for the
    journals [J], and the deliveries, cursors, stops and wakes beside them
    agree. The journal's append is shown to extend one journal by one record. *)
From S2P Require Import Prelude Json Text Protocol Transaction Control ControlStore Journals.
Lemma alter_insert_row {K V} `{Countable K} (f : V → V) (m : gmap K V) k v :
  m !! k = Some v → alter f k m = <[k := f v]> m.
Proof.
  intros Hk. apply map_eq. intros k'. destruct (decide (k = k')) as [<-|Hne].
  - by rewrite lookup_alter_eq, Hk, lookup_insert_eq.
  - by rewrite lookup_alter_ne, lookup_insert_ne.
Qed.

Section rep.
Context `{CS : ControlSerde} `{LT : LibraryTexts} `{!ControlSerdeLaws}.
Implicit Types (db : ControlDb) (ch : ControlChoice) (J : Journals) (T : Journal) (t : TaskId) (c : CommandId).

(** ** Representation *)
Record task_for (evs : gmap TaskEventId TaskEventRow) t (row : TaskRow) T : Prop := {
  tf_principal : t_principal row = j_principal T;
  tf_node : t_node row = j_node T;
  tf_target : to_string (j_target T) = Some (t_target_json row);
  tf_next : t_next_sequence row = Z.of_nat (length (j_log T));
  tf_gapless : gapless evs (λ r, v_task r = t) v_sequence (Z.of_nat (length (j_log T)));
  tf_rows : ∀ id r, evs !! id = Some r → v_task r = t →
    ∃ k, j_log T !! Z.to_nat (v_sequence r) = Some k ∧ to_string k = Some (v_kind_json r) ∧
      v_source r = source_of k;
  tf_ok : ∀ k, k ∈ j_log T → record_ok k = true;
  tf_bound : Z.of_nat (length (j_log T)) ≤ i64_max;
}.

Record journal_rep db J : Prop := {
  jr_tasks : ∀ t, option_Forall2 (task_for (task_events db) t) (tasks db !! t) (J !! t);
  jr_events : ∀ id r, task_events db !! id = Some r → is_Some (J !! v_task r);
}.

Record commands_rep (cmds : gmap CommandId CommandRow) J : Prop := {
  cr_row : ∀ c row, cmds !! c = Some row → ∃ T i env, J !! k_task row = Some T ∧
    j_log T !! i = Some (CommandSubmitted env) ∧ command_id env = c ∧ to_string env = Some (k_json row);
  cr_submitted : ∀ t T i env, J !! t = Some T → j_log T !! i = Some (CommandSubmitted env) →
    ∃ row, cmds !! command_id env = Some row ∧ k_task row = t ∧ to_string env = Some (k_json row);
  cr_order : ∀ t T i1 env1 i2 env2 row1 row2, J !! t = Some T →
    j_log T !! i1 = Some (CommandSubmitted env1) → j_log T !! i2 = Some (CommandSubmitted env2) →
    cmds !! command_id env1 = Some row1 → cmds !! command_id env2 = Some row2 →
    (i1 < i2)%nat → k_rowid row1 < k_rowid row2;
}.

(** The cursor of the accepted events [xs]. *)
Definition stream_for (s : option StreamRow) (xs : list ExecutionEvent) : Prop :=
  s = (λ e, MkStreamRow (x_execution_id e) (Z.of_nat (length xs)) (ends xs)) <$> head xs.

Record streams_rep (strs : gmap CommandId StreamRow) (cmds : gmap CommandId CommandRow) J : Prop := {
  sr_command : ∀ c s, strs !! c = Some s → is_Some (cmds !! c);
  sr_bound : ∀ c s, strs !! c = Some s → s_next s ≤ i64_max;
  sr_for : ∀ t T c, J !! t = Some T → submitted (j_log T) c → stream_for (strs !! c) (stream_of c (j_log T));
}.

Definition pending_rep (pending : gmap CommandId Z) J : Prop :=
  ∀ c n, pending !! c = Some n → ∃ t T env, J !! t = Some T ∧ 0 ≤ n ∧
    j_log T !! Z.to_nat n = Some (CommandSubmitted env) ∧ command_id env = c.

Definition wake_ok (w : WakeRow) : Prop :=
  1 ≤ generation w ∧ 0 ≤ settled_at w ≤ generation w ∧ 0 ≤ ring_generation w ≤ generation w.

Record represents db J : Prop := {
  rp_journal : journal_rep db J;
  rp_commands : commands_rep (commands db) J;
  rp_streams : streams_rep (streams db) (commands db) J;
  rp_pending : pending_rep (pending_executions db) J;
  rp_stops : ∀ c s, stop_requests db !! c = Some s → is_Some (commands db !! c);
  rp_wakes : ∀ p w, push_wakes db !! p = Some w → wake_ok w;
  rp_wf : journals_wf J;
}.

(** ** Columns *)
Lemma column_write_ok v z : to_sql_integer v = Ok z ↔ z = v ∧ v ≤ i64_max.
Proof. unfold to_sql_integer. rewrite ok_or_ok. apply i64_try_from_Some. Qed.

Lemma column_read_ok v s z : from_sql_integer v s = Ok z ↔ z = v ∧ 0 ≤ v.
Proof. unfold from_sql_integer. destruct (Z.leb_spec 0 v); naive_solver lia. Qed.

Lemma control_encode_ok `{Serde A} (a : A) j : encode a = Ok j ↔ to_string a = Some j.
Proof. apply ok_or_ok. Qed.

Lemma control_decode_ok `{Serde A} (a : A) j : decode j = Ok a ↔ from_str j = Some a.
Proof. apply ok_or_ok. Qed.

Lemma constraint_ok b s u db db' : constraint b s db = Ok (u, db') ↔ b = true ∧ db' = db.
Proof. apply txn_guard_ok. Qed.

(** ** Lookups *)
Lemma task_row_lookup db J t row : journal_rep db J → tasks db !! t = Some row →
  ∃ T, J !! t = Some T ∧ task_for (task_events db) t row T.
Proof. intros HR Hr. pose proof (jr_tasks _ _ HR t) as Hf. rewrite Hr in Hf. inversion Hf; eauto. Qed.

Lemma journal_lookup db J t T : journal_rep db J → J !! t = Some T →
  ∃ row, tasks db !! t = Some row ∧ task_for (task_events db) t row T.
Proof. intros HR Hr. pose proof (jr_tasks _ _ HR t) as Hf. rewrite Hr in Hf. inversion Hf; eauto. Qed.

Lemma journal_absent db J t : journal_rep db J → tasks db !! t = None ↔ J !! t = None.
Proof.
  intros HR. pose proof (jr_tasks _ _ HR t) as Hf.
  destruct (tasks db !! t), (J !! t); inversion Hf; naive_solver.
Qed.

(** Every record of a journal has its row, and every row its record. *)
Lemma record_row db J t T i k : journal_rep db J → J !! t = Some T → j_log T !! i = Some k →
  ∃ id r, task_events db !! id = Some r ∧ v_task r = t ∧ v_sequence r = Z.of_nat i ∧
    v_source r = source_of k ∧ to_string k = Some (v_kind_json r).
Proof.
  intros HR Ht Hk. destruct (journal_lookup _ _ _ _ HR Ht) as (row & _ & HT).
  assert (0 ≤ Z.of_nat i < Z.of_nat (length (j_log T))) as (id & r & Hr & Hvt & Hs)%(proj2 (tf_gapless _ _ _ _ HT)).
  { apply lookup_lt_Some in Hk. lia. }
  destruct (tf_rows _ _ _ _ HT id r Hr Hvt) as (k' & Hk' & Hj & Hsrc).
  rewrite Hs, Nat2Z.id in Hk'. simplify_eq. eauto 10.
Qed.

Lemma row_record db J id r : journal_rep db J → task_events db !! id = Some r →
  ∃ T k, J !! v_task r = Some T ∧ j_log T !! Z.to_nat (v_sequence r) = Some k ∧ 0 ≤ v_sequence r ∧
    v_source r = source_of k ∧ from_str (v_kind_json r) = Some k.
Proof.
  intros HR Hr. destruct (jr_events _ _ HR id r Hr) as [T HT].
  destruct (journal_lookup _ _ _ _ HR HT) as (row & _ & Hf).
  destruct (tf_rows _ _ _ _ Hf id r Hr eq_refl) as (k & Hk & Hj & Hs).
  exists T, k. split_and!; [done..| |done|].
  - by eapply gapless_bounds; [apply Hf|done|].
  - eapply kind_read_back; [done|]. eapply (tf_ok _ _ _ _ Hf). by eapply list_elem_of_lookup_2.
Qed.

(** ** Appending one record *)

(** Whether a record wakes, given the commands it is recorded with. *)
Definition quiet_command db c : bool :=
  match commands db !! c with
  | Some row => match from_str (A := CommandEnvelope) (k_json row) with
                | Some env => input_quiet (input env) | None => false end
  | None => false
  end.
Definition waking db (k : TaskEventKind) : bool :=
  match wake_reason k, k with
  | Some _, ExecutionRecord c _ => negb (quiet_command db c)
  | _, _ => false
  end.
Definition wake_once db (p : PrincipalId) (m : gmap PrincipalId WakeRow) (k : TaskEventKind)
    : gmap PrincipalId WakeRow :=
  if waking db k then <[p := recorded_wake false (m !! p)]> m else m.

Lemma of_quiet_command_ok k q db db' : of_quiet_command k db = Ok (q, db') →
  db' = db ∧ q = match k with ExecutionRecord c _ => quiet_command db c | _ => false end.
Proof.
  unfold of_quiet_command, quiet_command. destruct k as [|c e]; intros HT; [by tx_inv|].
  tx_inv. destruct (commands db !! c) as [row|]; tx_inv; [|done].
  apply control_decode_ok in E. by rewrite E.
Qed.

Lemma mark_wake_ok p k u db db' : mark_wake p k db = Ok (u, db') →
  db' = with_wakes (wake_once db p (push_wakes db) k) db.
Proof.
  unfold mark_wake, wake_once, waking. destruct (wake_reason k) eqn:Hw; intros HT; tx_inv; [|by destruct db].
  match goal with H : of_quiet_command _ _ = _ |- _ => apply of_quiet_command_ok in H as [-> ->] end.
  destruct k as [|c e]; [done|destruct (quiet_command db c)]; unfold record in *; tx_inv; by destruct db.
Qed.

(** The tables an append leaves alone. *)
Definition other_tables db :=
  (commands db, pending_executions db, streams db, stop_requests db, node_owners db, identity db,
   push_wake_requests db).

Lemma append_event_ok ch t s k db ev db' : append_event ch t s k db = Ok (ev, db') →
  ∃ row id j, tasks db !! t = Some row ∧ task_events db !! id = None ∧ to_string k = Some j ∧
    0 ≤ t_next_sequence row < i64_max ∧
    (∀ id' r, task_events db !! id' = Some r → v_source r ≠ s) ∧
    ev = MkTaskEvent id t (t_next_sequence row) k ∧
    tasks db' = <[t := set_task_sequence (t_next_sequence row + 1) row]> (tasks db) ∧
    task_events db' = <[id := MkTaskEventRow t (t_next_sequence row) s j]> (task_events db) ∧
    push_wakes db' = wake_once db (t_principal row) (push_wakes db) k ∧
    other_tables db' = other_tables db.
Proof.
  unfold append_event. intros HT. tx_inv.
  rename select (tasks db !! t = Some _) into Hrow. rename select (from_sql_integer _ _ = _) into Hseq.
  apply column_read_ok in Hseq as [-> Hpos].
  rename select (mark_wake _ _ _ = _) into Hwake. apply mark_wake_ok in Hwake as ->.
  rename select (insert_task_event _ _ _ = _) into Hins. unfold insert_task_event in Hins. tx_inv.
  repeat match goal with H : constraint _ _ _ = _ |- _ => apply constraint_ok in H as [? ->] end.
  repeat match goal with H : to_sql_integer _ = _ |- _ => apply column_write_ok in H as [-> ?] end.
  split_bools. cbn in *.
  match goal with H : encode _ = _ |- _ => apply control_encode_ok in H; rename H into Hj end.
  eexists a, _, _. split_and!; try done; [lia| |].
  - intros id' r Hr. rename select (tbl_exists (λ _ r, bool_decide (v_source r = _)) _ = false) into Hs.
    rewrite tbl_exists_false in Hs. specialize (Hs id' r Hr). by split_bools.
  - by apply alter_insert_row.
Qed.

Lemma task_for_other evs t row T id r :
  evs !! id = None → v_task r ≠ t → task_for evs t row T → task_for (<[id := r]> evs) t row T.
Proof.
  intros Hid Hne [H1 H2 H3 H4 H5 H6 H7 H8]. split; try done.
  - by apply gapless_insert_other.
  - intros id' r' [[<- <-]|[? ?]]%lookup_insert_Some; [done|eauto].
Qed.

Lemma task_for_snoc evs t row T id k j :
  evs !! id = None → to_string k = Some j → record_ok k = true → t_next_sequence row < i64_max →
  task_for evs t row T →
  task_for (<[id := MkTaskEventRow t (t_next_sequence row) (source_of k) j]> evs) t
    (set_task_sequence (t_next_sequence row + 1) row) (log_append [k] T).
Proof.
  intros Hid Hj Hok Hbd [H1 H2 H3 H4 H5 H6 H7 H8]. rewrite H4. split; cbn; try done.
  - rewrite length_app. cbn. lia.
  - rewrite length_app, Nat2Z.inj_add. apply gapless_insert_next; cbn; [done..|lia|done].
  - intros id' r' [[<- <-]|[? Hr]]%lookup_insert_Some; cbn.
    + intros _. exists k. rewrite Nat2Z.id, lookup_app_r, Nat.sub_diag by done. done.
    + intros Ht. destruct (H6 id' r' Hr Ht) as (k' & ? & ? & ?). exists k'. split; [by apply lookup_app_l_Some|done].
  - intros k' [?| ->%list_elem_of_singleton]%elem_of_app; eauto.
  - rewrite length_app. cbn. lia.
Qed.

(** A table of tasks in which one journal got one record more. *)
Lemma journal_rep_append db J t T k row id j db' :
  journal_rep db J → J !! t = Some T → tasks db !! t = Some row → record_ok k = true →
  task_events db !! id = None → to_string k = Some j → t_next_sequence row < i64_max →
  tasks db' = <[t := set_task_sequence (t_next_sequence row + 1) row]> (tasks db) →
  task_events db' = <[id := MkTaskEventRow t (t_next_sequence row) (source_of k) j]> (task_events db) →
  journal_rep db' (<[t := log_append [k] T]> J).
Proof.
  intros HR Ht Hrow Hok Hid Hj Hbd Et Ee. split.
  - intros t'. rewrite Et, Ee. pose proof (jr_tasks _ _ HR t') as Hf. destruct (decide (t = t')) as [<-|Hne].
    + rewrite !lookup_insert_eq. rewrite Hrow, Ht in Hf. inversion Hf. constructor. by apply task_for_snoc.
    + rewrite !lookup_insert_ne by done. inversion Hf; constructor. by apply task_for_other.
  - intros id' r. rewrite Ee. intros [[<- <-]|[? Hr]]%lookup_insert_Some; cbn.
    + by rewrite lookup_insert_eq.
    + rewrite lookup_insert_is_Some'. right. by eapply jr_events.
Qed.

(** [db'] is [db] with the records [ks] appended to the journal of [t]. *)
Record appended t ks db J T db' : Prop := {
  ad_rep : journal_rep db' (<[t := log_append ks T]> J);
  ad_wakes : push_wakes db' = foldl (wake_once db (j_principal T)) (push_wakes db) ks;
  ad_other : other_tables db' = other_tables db;
}.

Lemma append_event_appends ch t k db ev db' J T :
  journal_rep db J → J !! t = Some T → record_ok k = true →
  append_event ch t (source_of k) k db = Ok (ev, db') →
  appended t [k] db J T db' ∧ fresh_source J (source_of k) ∧
  te_task_id ev = t ∧ te_sequence ev = Z.of_nat (length (j_log T)) ∧ te_kind ev = k ∧
  task_events db !! te_event_id ev = None.
Proof.
  intros HR Ht Hok (row & id & j & Hrow & Hid & Hj & Hn & Hsrc & -> & Et & Ee & Ew & Eo)%append_event_ok.
  destruct (journal_lookup _ _ _ _ HR Ht) as (row' & Hrow' & Hf).
  assert (row' = row) as -> by congruence. split_and!; cbn; try done.
  - split; [by eapply journal_rep_append; try done; lia| |done]. cbn. by rewrite Ew, (tf_principal _ _ _ _ Hf).
  - intros t' T' k' Ht' (i & Hi)%list_elem_of_lookup Hs.
    destruct (record_row _ _ _ _ _ _ HR Ht' Hi) as (id' & r & Hr & _ & _ & Hs' & _).
    by eapply Hsrc; [exact Hr|congruence].
  - apply Hf.
Qed.

(** Appending goes on in the same journal. *)
Lemma wake_once_other db db' p m k : other_tables db' = other_tables db →
  wake_once db' p m k = wake_once db p m k.
Proof. unfold other_tables, wake_once, waking, quiet_command. intros [= -> _ _ _ _ _ _]. done. Qed.

Lemma wakes_other db db' p ks : other_tables db' = other_tables db → ∀ m,
  foldl (wake_once db' p) m ks = foldl (wake_once db p) m ks.
Proof.
  intros HO. induction ks as [|k ks IH]; intros m; [done|]. cbn. by rewrite (wake_once_other db db'), IH.
Qed.

Lemma appended_app t ks1 ks2 db J T db1 db2 :
  appended t ks1 db J T db1 → appended t ks2 db1 (<[t := log_append ks1 T]> J) (log_append ks1 T) db2 →
  appended t (ks1 ++ ks2) db J T db2.
Proof.
  intros [R1 W1 O1] [R2 W2 O2]. split.
  - rewrite insert_insert_eq in R2. unfold log_append in *. cbn in R2. by rewrite <- app_assoc in R2.
  - rewrite W2, W1, foldl_app. cbn. by apply wakes_other.
  - congruence.
Qed.

Lemma journal_appended_nil t db J T : journal_rep db J → J !! t = Some T → appended t [] db J T db.
Proof.
  intros HR Ht. split; [|done..]. unfold log_append. rewrite app_nil_r, insert_id; [done|]. by destruct T.
Qed.
End rep.

(** * The coordinator's operations move journals

    Every transaction of the store that changes tasks, commands or the journal
    takes a [journal_step], and keeps [represents]. *)
Lemma next_rowid_above {K V} `{Countable K} (rowid : V → Z) (m : gmap K V) k v :
  m !! k = Some v → rowid v < next_rowid rowid m.
Proof.
  unfold next_rowid. intros Hk.
  enough (rowid v ≤ map_fold (λ _ v n, Z.max (rowid v) n) 0 m) by lia.
  revert k v Hk. apply (map_fold_weak_ind (λ n m, ∀ k v, m !! k = Some v → rowid v ≤ n)).
  - intros k v. by rewrite lookup_empty.
  - intros k v m' n Hk IH k' v' [[<- <-]|[? Hv]]%lookup_insert_Some; [lia|]. apply IH in Hv. lia.
Qed.

Section sound.
Context `{CS : ControlSerde} `{LT : LibraryTexts} `{!ControlSerdeLaws}.
Implicit Types (db : ControlDb) (ch : ControlChoice) (J : Journals) (T : Journal) (t : TaskId) (c : CommandId).

Lemma journal_rep_ext db db' J :
  tasks db' = tasks db → task_events db' = task_events db → journal_rep db J → journal_rep db' J.
Proof. intros E1 E2 [H1 H2]. split; rewrite ?E1, ?E2; done. Qed.

(** ** Commands and their submissions *)
Lemma submitted_lookup log c : submitted log c ↔ ∃ i env, log !! i = Some (CommandSubmitted env) ∧ command_id env = c.
Proof.
  split.
  - intros (env & (i & Hi)%list_elem_of_lookup & <-). eauto.
  - intros (i & env & Hi & <-). exists env. split; [by eapply list_elem_of_lookup_2|done].
Qed.

Lemma submitted_row cmds J t T c : commands_rep cmds J → J !! t = Some T → submitted (j_log T) c →
  ∃ row, cmds !! c = Some row ∧ k_task row = t.
Proof.
  intros HC Ht (i & env & Hi & <-)%submitted_lookup.
  destruct (cr_submitted _ _ HC t T i env Ht Hi) as (row & ? & ? & ?). eauto.
Qed.

Lemma row_submitted cmds J c row : commands_rep cmds J → cmds !! c = Some row →
  ∃ T, J !! k_task row = Some T ∧ submitted (j_log T) c.
Proof.
  intros HC Hr. destruct (cr_row _ _ HC c row Hr) as (T & i & env & HT & Hi & <- & _).
  exists T. split; [done|]. apply submitted_lookup. eauto.
Qed.

(** The envelope stored for a command is the one its journal has. *)
Lemma stored_envelope db J c row : represents db J → commands db !! c = Some row →
  ∃ T env, J !! k_task row = Some T ∧ CommandSubmitted env ∈ j_log T ∧ command_id env = c ∧
    to_string env = Some (k_json row) ∧ from_str (k_json row) = Some env ∧
    principal_id env = j_principal T ∧ target env = j_target T ∧ input_ok (input env) = true.
Proof.
  intros HR Hr. destruct (cr_row _ _ (rp_commands _ _ HR) c row Hr) as (T & i & env & HT & Hi & Hc & Hj).
  apply list_elem_of_lookup_2 in Hi. destruct (jw_submitted _ (rp_wf _ _ HR) _ _ _ HT Hi) as (? & ? & ?).
  exists T, env. split_and!; try done. by apply envelope_read_back.
Qed.

Lemma stream_submitted J t T c e : journals_wf J → J !! t = Some T → e ∈ stream_of c (j_log T) →
  submitted (j_log T) c.
Proof.
  rewrite elem_of_stream. intros HW Ht (i & Hi)%list_elem_of_lookup.
  destruct (jw_caused _ HW t T i c e Ht Hi) as (env & Hin & Hc). exists env. split; [|done].
  apply elem_of_take in Hin as (j & Hj & _). by eapply list_elem_of_lookup_2.
Qed.

Lemma stream_nil J t T c : journals_wf J → J !! t = Some T → ¬ submitted (j_log T) c → stream_of c (j_log T) = [].
Proof.
  intros HW Ht Hn. destruct (stream_of c (j_log T)) as [|e xs] eqn:E; [done|].
  destruct Hn. eapply (stream_submitted J t T c e); [done..|]. rewrite E. left.
Qed.

(** ** Submission *)
Lemma insert_command_row_ok c t j db u db' : insert_command_row c t j db = Ok (u, db') →
  commands db !! c = None ∧
  db' = with_commands (<[c := MkCommandRow (next_rowid k_rowid (commands db)) t j]> (commands db)) db.
Proof.
  unfold insert_command_row. intros HT. tx_inv.
  repeat match goal with H : constraint _ _ _ = _ |- _ => apply constraint_ok in H as [? ->] end. by split_bools.
Qed.

Lemma insert_pending_ok c n db u db' : insert_pending c n db = Ok (u, db') →
  db' = with_pending (<[c := n]> (pending_executions db)) db.
Proof.
  unfold insert_pending. intros HT. tx_inv.
  by repeat match goal with H : constraint _ _ _ = _ |- _ => apply constraint_ok in H as [? ->] end.
Qed.

Lemma commands_rep_submit cmds J t T env j :
  commands_rep cmds J → J !! t = Some T → cmds !! command_id env = None → to_string env = Some j →
  commands_rep (<[command_id env := MkCommandRow (next_rowid k_rowid cmds) t j]> cmds)
    (<[t := log_append [CommandSubmitted env] T]> J).
Proof.
  intros HC Ht Hc Hj.
  assert (∀ t0 T0 i env0, J !! t0 = Some T0 → j_log T0 !! i = Some (CommandSubmitted env0) →
            ∃ row, cmds !! command_id env0 = Some row ∧ k_task row = t0 ∧ to_string env0 = Some (k_json row) ∧
              command_id env0 ≠ command_id env) as Hold.
  { intros t0 T0 i env0 Ht0 Hi. destruct (cr_submitted _ _ HC _ _ _ _ Ht0 Hi) as (row & Hr & Hk & Hj0).
    exists row. split_and!; try done. intros E. congruence. }
  split.
  - intros c' row [[<- <-]|[Hne Hr]]%lookup_insert_Some; cbn.
    + eexists _, (length (j_log T)), env. rewrite lookup_insert_eq. split_and!; [done| |done..].
      cbn. by rewrite lookup_app_r, Nat.sub_diag.
    + destruct (cr_row _ _ HC c' row Hr) as (T0 & i & env0 & HT0 & Hi & Hc0 & Hj0).
      destruct (decide (t = k_task row)) as [->|Hnt].
      * simplify_eq. eexists _, i, env0. rewrite lookup_insert_eq. split_and!; [done| |done..].
        by apply lookup_app_l_Some.
      * exists T0, i, env0. by rewrite lookup_insert_ne.
  - intros t0 T0 i env0 HT0 Hi.
    destruct (lookup_appended _ _ _ _ _ _ _ _ HT0 Hi Ht) as [(T1 & H1 & H1')|(-> & Hl & Hk)].
    + destruct (Hold _ _ _ _ H1 H1') as (row & Hr & Hk & Hj0 & Hne). exists row. by rewrite lookup_insert_ne.
    + destruct (i - length (j_log T))%nat; cbn in Hk; [|done]. injection Hk as <-.
      rewrite lookup_insert_eq. eexists. split_and!; done.
  - intros t0 T0 i1 env1 i2 env2 row1 row2 HT0 Hi1 Hi2 Hr1 Hr2 Hlt.
    destruct (lookup_appended _ _ _ _ _ _ _ _ HT0 Hi1 Ht) as [(T1 & H1 & H1')|(E1 & Hl & Hk)],
      (lookup_appended _ _ _ _ _ _ _ _ HT0 Hi2 Ht) as [(T2 & H2 & H2')|(E2 & Hl' & Hk')].
    + destruct (Hold _ _ _ _ H1 H1') as (? & ? & _ & _ & ?), (Hold _ _ _ _ H2 H2') as (? & ? & _ & _ & ?).
      rewrite lookup_insert_ne in Hr1, Hr2 by done. simplify_eq. by eapply (cr_order _ _ HC t0 T1 i1 env1 i2 env2).
    + destruct (Hold _ _ _ _ H1 H1') as (? & ? & _ & _ & ?). rewrite lookup_insert_ne in Hr1 by done.
      destruct (i2 - length (j_log T))%nat; cbn in Hk'; [|done]. injection Hk' as <-.
      rewrite lookup_insert_eq in Hr2. injection Hr2 as <-. cbn. by eapply next_rowid_above.
    + rewrite E1 in H2. simplify_eq. apply lookup_lt_Some in H2'. lia.
    + apply lookup_lt_Some in Hk, Hk'. cbn in Hk, Hk'. lia.
Qed.

Lemma streams_rep_submit strs cmds J t T env row :
  streams_rep strs cmds J → commands_rep cmds J → journals_wf J → J !! t = Some T →
  cmds !! command_id env = None →
  streams_rep strs (<[command_id env := row]> cmds) (<[t := log_append [CommandSubmitted env] T]> J).
Proof.
  intros HS HC HW Ht Hc. split.
  - intros c s Hs. rewrite lookup_insert_is_Some'. right. by eapply sr_command.
  - apply HS.
  - intros t0 T0 c [[<- <-]|[Hne HT0]]%lookup_insert_Some Hsub; [|by eapply sr_for].
    cbn [log_append j_log]. rewrite stream_of_app. cbn. rewrite app_nil_r.
    destruct (decide (c = command_id env)) as [->|Hne].
    + assert (¬ submitted (j_log T) (command_id env)) as Hn.
      { intros Hs. destruct (submitted_row _ _ _ _ _ HC Ht Hs) as (? & ? & _). congruence. }
      rewrite (stream_nil J t T) by done. unfold stream_for. cbn.
      destruct (strs !! command_id env) as [s|] eqn:E; [|done].
      destruct (sr_command _ _ _ HS _ _ E). congruence.
    + eapply (sr_for _ _ _ HS t); [done|]. destruct Hsub as (env' & [Hin|Hin]%elem_of_app & <-); [by exists env'|].
      apply list_elem_of_singleton in Hin. by simplify_eq.
Qed.

Lemma pending_rep_append pending J t T ks : J !! t = Some T → pending_rep pending J →
  pending_rep pending (<[t := log_append ks T]> J).
Proof.
  intros Ht HP c n Hn. destruct (HP c n Hn) as (t0 & T0 & env & HT0 & Hpos & Hi & Hc).
  destruct (decide (t = t0)) as [<-|Hne].
  - simplify_eq. eexists t, _, env. rewrite lookup_insert_eq. split_and!; [done|done| |done].
    by apply lookup_app_l_Some.
  - exists t0, T0, env. by rewrite lookup_insert_ne.
Qed.

Lemma wake_ok_recorded r (m : gmap PrincipalId WakeRow) p : (∀ p w, m !! p = Some w → wake_ok w) →
  ∀ p' w, <[p := recorded_wake r (m !! p)]> m !! p' = Some w → wake_ok w.
Proof.
  intros Hm p' w [[<- <-]|[? ?]]%lookup_insert_Some; [|eauto]. unfold recorded_wake.
  destruct (m !! p) as [w|] eqn:E; [|unfold wake_ok; destruct r; cbn; lia].
  apply Hm in E. unfold wake_ok in *. destruct r; cbn; lia.
Qed.

Lemma wakes_ok_fold db p ks : ∀ m, (∀ p w, m !! p = Some w → wake_ok w) →
  ∀ p' w, foldl (wake_once db p) m ks !! p' = Some w → wake_ok w.
Proof.
  induction ks as [|k ks IH]; intros m Hm; [done|]. cbn. apply IH. unfold wake_once.
  destruct (waking db k); [by apply wake_ok_recorded|done].
Qed.

(** What admitting a command writes. *)
Record submits t env db J T (ev : TaskEvent) db' : Prop := {
  su_rep : represents db' (<[t := log_append [CommandSubmitted env] T]> J);
  su_step : ∀ D, journal_step D J (<[t := log_append [CommandSubmitted env] T]> J);
  su_new : commands db !! command_id env = None;
  su_event : te_task_id ev = t ∧ te_sequence ev = Z.of_nat (length (j_log T)) ∧ te_kind ev = CommandSubmitted env;
  su_pending : pending_executions db' = <[command_id env := Z.of_nat (length (j_log T))]> (pending_executions db);
  su_other : (streams db', stop_requests db', node_owners db', push_wakes db', push_wake_requests db') =
             (streams db, stop_requests db, node_owners db, push_wakes db, push_wake_requests db);
}.

Lemma insert_command_sound ch t env j db ev db' J T :
  represents db J → J !! t = Some T → principal_id env = j_principal T → target env = j_target T →
  input_ok (input env) = true → to_string env = Some j →
  insert_command ch t env j db = Ok (ev, db') → submits t env db J T ev db'.
Proof.
  intros HR Ht Hp Htg Hok Hj. unfold insert_command. intros HT. tx_inv.
  rename select (insert_command_row _ _ _ _ = _) into Hrow. apply insert_command_row_ok in Hrow as [Hnew ->].
  rename select (append_event _ _ _ _ _ = _) into Happ.
  apply append_event_appends with (J := J) (T := T) in Happ as ([Rj W O] & Hf & Ht' & Hs & Hk & _);
    [|by apply (journal_rep_ext db); [..|apply HR]|done|done].
  rename select (to_sql_integer _ = _) into Hsql. apply column_write_ok in Hsql as [-> _].
  rename select (insert_pending _ _ _ = _) into Hpend. apply insert_pending_ok in Hpend as ->.
  unfold other_tables in O. cbn in O, W. injection O as O1 O2 O3 O4 O5 O6 O7.
  assert (∀ D, journal_step D J (<[t := log_append [CommandSubmitted env] T]> J)) as Hstep by by constructor.
  unfold wake_once, waking in W. cbn in W.
  split; cbn; try done; [|by rewrite Hs, O2|by rewrite O3, O4, O5, O7, W].
  split; cbn.
  - by eapply journal_rep_ext; [..|exact Rj].
  - rewrite O1. apply commands_rep_submit; [apply HR|done..].
  - rewrite O1, O3. eapply streams_rep_submit; [apply HR..|done|done].
  - rewrite O2, Hs. intros c n [[<- <-]|[? Hn]]%lookup_insert_Some.
    + eexists t, _, env. rewrite lookup_insert_eq. split_and!; [done|lia| |done].
      rewrite Nat2Z.id. cbn. by rewrite lookup_app_r, Nat.sub_diag.
    + by eapply pending_rep_append; [done|apply HR|].
  - rewrite O1, O4. intros c s Hc. rewrite lookup_insert_is_Some'. right. by eapply (rp_stops _ _ HR).
  - rewrite W. apply HR.
  - eapply journal_step_wf; [by apply (Hstep (λ _, False))|apply HR].
Qed.
End sound.
