(* ===== verification/ControlPublish.v ===== *)
(** * Admission of execution events

    A node publishes the events of an execution in batches, and again after a
    lost answer. A batch that is accepted extends the stream of its command by
    the events the coordinator did not have, in order; what it had must be the
    same events. *)
From S2P Require Import Prelude Json Text Protocol Transaction Control ControlStore Journals ControlRep.
Section publish.
Context `{CS : ControlSerde} `{LT : LibraryTexts} `{!ControlSerdeLaws}.
Implicit Types (db : ControlDb) (ch : ControlChoice) (J : Journals) (T : Journal) (t : TaskId) (c : CommandId).
Implicit Types (x : ExecutionId) (e : ExecutionEvent) (es xs new : list ExecutionEvent).

(** ** Batches *)

(** Consecutive events of one execution, the head numbered [s]. *)
Definition batch_from x (s : Z) es : Prop :=
  ∀ i e, es !! i = Some e → x_execution_id e = x ∧ x_sequence e = s + Z.of_nat i ∧
    (is_started (x_kind e) = true ↔ s + Z.of_nat i = 0) ∧ (is_terminated (x_kind e) = true → S i = length es).

Lemma batch_from_cons x s e es : batch_from x s (e :: es) ↔
  x_execution_id e = x ∧ x_sequence e = s ∧ (is_started (x_kind e) = true ↔ s = 0) ∧
  (is_terminated (x_kind e) = true → es = []) ∧ batch_from x (s + 1) es.
Proof.
  split.
  - intros HB. destruct (HB 0%nat e eq_refl) as (? & ? & Hst & Ht). rewrite Z.add_0_r in *.
    split_and!; try done.
    + intros Hk. specialize (Ht Hk). cbn in Ht. destruct es; [done|cbn in Ht; lia].
    + intros i e' Hi. destruct (HB (S i) e' Hi) as (? & ? & Hst' & Ht').
      replace (s + 1 + Z.of_nat i) with (s + Z.of_nat (S i)) by lia. split_and!; try done.
      intros Hk. specialize (Ht' Hk). cbn in Ht'. lia.
  - intros (H1 & H2 & H3 & H4 & HB) [|i] e' Hi; cbn in Hi.
    + injection Hi as <-. rewrite Z.add_0_r. split_and!; try done. intros ->%H4. done.
    + destruct (HB i e' Hi) as (? & ? & Hst' & Ht').
      replace (s + Z.of_nat (S i)) with (s + 1 + Z.of_nat i) by lia. split_and!; try done.
      intros Hk. cbn. by rewrite <- (Ht' Hk).
Qed.

Lemma check_kind_ok n k es u : check_kind n k es = Ok u ↔
  (is_started k = true ↔ n = 0) ∧ (is_terminated k = true → es = []).
Proof.
  unfold check_kind. destruct u, (Z.eqb_spec n 0) as [Hn|Hn], k, es; cbn;
    (split; [intros Hk; first [discriminate Hk|split; [split|]; done]|intros [[A B] C]]);
    first [done|by specialize (A eq_refl)|by specialize (B Hn)|by specialize (C eq_refl)].
Qed.

Lemma validate_events_ok x s es : ∀ offset u,
  validate_events x s offset es = Ok u ↔
  batch_from x (s + offset) es ∧ (es ≠ [] → s + offset + Z.of_nat (length es) - 1 ≤ u64_max).
Proof.
  induction es as [|e es IH]; intros offset []; cbn.
  { split; [|done]. intros _. split; [|done]. by intros i e. }
  rewrite batch_from_cons, result_bind_ok. setoid_rewrite ok_or_ok. setoid_rewrite checked_add_u64_Some.
  rewrite <- Z.add_assoc. split.
  - intros (n & [-> Hle] & HV). destruct (negb _) eqn:Hb; [done|]. split_bools.
    apply result_bind_ok in HV as ([] & Hk & HV). apply IH in HV as [HB Hlen].
    assert (Z.of_nat (S (length es)) = Z.of_nat (length es) + 1) as Hl by lia.
    apply check_kind_ok in Hk as [Hst Hte].
    split_and!; try done. intros _. destruct es; [cbn; lia|]. cbn in *. specialize (Hlen ltac:(done)). lia.
  - intros [(Hx & Hs & Hst & Ht & HB) Hlen]. specialize (Hlen ltac:(done)).
    exists (s + offset). split; [split; [done|lia]|].
    rewrite bool_decide_true, Hs, Z.eqb_refl by done. cbn.
    apply result_bind_ok. exists tt. split.
    + by apply check_kind_ok.
    + apply IH. split; [done|]. intros _. lia.
Qed.

Lemma batch_last x s es e : batch_from x s es → last es = Some e → x_sequence e = s + Z.of_nat (length es) - 1.
Proof.
  intros HB. rewrite last_lookup. intros Hl. destruct (HB _ _ Hl) as (_ & -> & _).
  apply lookup_lt_Some in Hl. lia.
Qed.

(** ** Records of a source *)
Lemma load_source_event_run s db J : journal_rep db J →
  ∃ o, load_source_event s db = Ok (o, db) ∧
    match o with
    | Some e => ∃ T i, J !! te_task_id e = Some T ∧ j_log T !! i = Some (te_kind e) ∧ source_of (te_kind e) = s
    | None => fresh_source J s
    end.
Proof.
  intros HR. unfold load_source_event.
  destruct (select (λ _ r, bool_decide (v_source r = s)) (task_events db)) as [|[id r] rest] eqn:Es; cbn.
  - exists None. split; [apply txn_read_run; by rewrite Es|]. intros t T k Ht (i & Hi)%list_elem_of_lookup Hs.
    destruct (record_row _ _ _ _ _ _ HR Ht Hi) as (id & r & Hr & _ & _ & Hsrc & _).
    assert ((id, r) ∈ []) as Hin; [|by apply elem_of_nil in Hin].
    rewrite <- Es. apply elem_of_select. split; [done|]. apply bool_decide_true. congruence.
  - assert ((id, r) ∈ (id, r) :: rest) as Hin by left. rewrite <- Es in Hin.
    apply elem_of_select in Hin as [Hr Hb]. split_bools.
    destruct (row_record _ _ _ _ HR Hr) as (T & k & HT & Hk & Hpos & Hs & Hd).
    exists (Some (MkTaskEvent id (v_task r) (v_sequence r) k)). split.
    + apply txn_read_run. rewrite Es. cbn. unfold decode_row. cbn.
      rewrite (proj2 (column_read_ok _ _ _) (conj eq_refl Hpos)). cbn.
      by rewrite (proj2 (control_decode_ok _ _) Hd).
    + cbn. exists T, (Z.to_nat (v_sequence r)). split_and!; [done..|congruence].
Qed.

Lemma load_source_event_ok s db o db' J : journal_rep db J → load_source_event s db = Ok (o, db') →
  db' = db ∧
    match o with
    | Some e => ∃ T i, J !! te_task_id e = Some T ∧ j_log T !! i = Some (te_kind e) ∧ source_of (te_kind e) = s
    | None => fresh_source J s
    end.
Proof. intros HR HT. destruct (load_source_event_run s db J HR) as (o' & E & HP).
  rewrite E in HT. by injection HT as <- <-. Qed.

(** An event the coordinator has under the same content is an accepted one. *)
Lemma known_event ch db J t T c e existing u db' :
  journal_rep db J → J !! t = Some T → stream_wf (stream_of c (j_log T)) →
  load_source_event (SourceExecution (x_event_id e)) db = Ok (existing, db) →
  validate_existing_source existing t (ExecutionRecord c e) (SourceExecution (x_event_id e)) db = Ok (u, db') →
  db' = db ∧
  match existing with
  | Some _ => stream_of c (j_log T) !! Z.to_nat (x_sequence e) = Some e ∧
              0 ≤ x_sequence e < Z.of_nat (length (stream_of c (j_log T)))
  | None => fresh_source J (SourceExecution (x_event_id e))
  end.
Proof.
  intros HR Ht Hwf HL HV. apply (load_source_event_ok _ _ _ _ _ HR) in HL as [_ HL].
  unfold validate_existing_source in HV. destruct existing as [ev|]; tx_inv; [|done]. split_bools. split; [done|].
  destruct HL as (T' & i & HT' & Hi & _).
  rename select (te_task_id ev = t) into E1. rename select (te_kind ev = _) into E2.
  rewrite E1 in HT'. rewrite E2 in Hi. simplify_eq.
  assert (e ∈ stream_of c (j_log T)) as (n & Hn)%list_elem_of_lookup.
  { apply elem_of_stream. by eapply list_elem_of_lookup_2. }
  rewrite (sw_sequence _ Hwf n e Hn), Nat2Z.id. split; [done|]. apply lookup_lt_Some in Hn. lia.
Qed.

(** ** Extending a stream *)
Lemma stream_wf_snoc xs e x :
  stream_wf xs → ends xs = false → x_sequence e = Z.of_nat (length xs) → (∀ e', e' ∈ xs → x_execution_id e' = x) →
  x_execution_id e = x → (is_started (x_kind e) = true ↔ Z.of_nat (length xs) = 0) → stream_wf (xs ++ [e]).
Proof.
  intros [H1 H2 H3 H4] He Hs Hx Hex Hst. split.
  - intros i e' [?|[? [? ->]%list_lookup_singleton_Some]]%lookup_app_Some; [by apply H1|].
    assert (i = length xs) as -> by lia. done.
  - intros e1 e2 [?| ->%list_elem_of_singleton]%elem_of_app [?| ->%list_elem_of_singleton]%elem_of_app;
      try done; [by apply H2|rewrite Hex; by apply Hx|rewrite Hex; symmetry; by apply Hx].
  - intros i e' [?|[? [? ->]%list_lookup_singleton_Some]]%lookup_app_Some; [by apply H3|]. rewrite Hst. lia.
  - intros i e' [Hi|[? [? ->]%list_lookup_singleton_Some]]%lookup_app_Some Hk; rewrite length_app; cbn; [|lia].
    exfalso. assert (S i = length xs) as Hl by by eapply H4.
    unfold ends in He. rewrite last_lookup, <- Hl in He. cbn in He. rewrite Hi in He. congruence.
Qed.

Lemma ends_snoc xs e : ends (xs ++ [e]) = is_terminated (x_kind e).
Proof. unfold ends. by rewrite last_snoc. Qed.

(** What an accepted batch adds to a stream. *)
Record accepted x (s : Z) xs new es : Prop := {
  ac_wf : stream_wf (xs ++ new);
  ac_execution : ∀ e, e ∈ xs ++ new → x_execution_id e = x;
  ac_batch : ∀ e, e ∈ es → (xs ++ new) !! Z.to_nat (x_sequence e) = Some e;
  ac_new : new = drop (Z.to_nat (Z.of_nat (length xs) - s)) es;
}.

Record published ch t c x (s : Z) es db J T (out : list TaskEvent * Z * bool) db' new : Prop := {
  pb_appended : appended t (ExecutionRecord c <$> new) db J T db';
  pb_accepted : accepted x s (stream_of c (j_log T)) new es;
  pb_fresh : ∀ e, e ∈ new → fresh_source J (SourceExecution (x_event_id e));
  pb_distinct : NoDup (x_event_id <$> new);
  pb_events : te_kind <$> out.1.1 = (ExecutionRecord c <$> new) ∧ Forall (λ ev, te_task_id ev = t) out.1.1 ∧
    te_sequence <$> out.1.1 = seqZ (Z.of_nat (length (j_log T))) (Z.of_nat (length new));
  pb_next : out.1.2 = Z.of_nat (length (stream_of c (j_log T) ++ new));
  pb_terminal : out.2 = ends (stream_of c (j_log T) ++ new);
}.

Lemma fresh_after J t T k s : J !! t = Some T → fresh_source (<[t := log_append [k] T]> J) s →
  fresh_source J s ∧ s ≠ source_of k.
Proof.
  intros Ht Hf. split.
  - intros t' T' k' Ht' Hk'. destruct (decide (t = t')) as [<-|Hne].
    + simplify_eq. eapply (Hf t); [apply lookup_insert_eq|]. apply elem_of_app. by left.
    + eapply (Hf t'); [|done]. by rewrite lookup_insert_ne.
  - intros ->. eapply (Hf t _ k); [apply lookup_insert_eq| |done]. apply elem_of_app. right. by left.
Qed.

(** An event the coordinator has, before a published rest. *)
Lemma published_known ch t c x e es db J T out db' new :
  stream_of c (j_log T) !! Z.to_nat (x_sequence e) = Some e →
  x_sequence e < Z.of_nat (length (stream_of c (j_log T))) →
  published ch t c x (x_sequence e + 1) es db J T out db' new →
  published ch t c x (x_sequence e) (e :: es) db J T out db' new.
Proof.
  intros Hk Hlt [H1 [Hw He Hb Hnew] H3 H4 H5 H6 H7]. split; try done. split; try done.
  - intros e' [->|Hin]%elem_of_cons; [|by apply Hb]. by apply lookup_app_l_Some.
  - rewrite Hnew. replace (Z.to_nat (Z.of_nat (length (stream_of c (j_log T))) - x_sequence e))
      with (S (Z.to_nat (Z.of_nat (length (stream_of c (j_log T))) - (x_sequence e + 1)))) by lia. done.
Qed.

Lemma stream_of_snoc c e T :
  stream_of c (j_log (log_append [ExecutionRecord c e] T)) = stream_of c (j_log T) ++ [e].
Proof. cbn [log_append j_log]. rewrite stream_of_app. f_equal. apply (stream_of_records c [e]). Qed.

(** The next event, before a published rest. *)
Lemma published_next ch t c x e es db J T ev evs next terminal db1 db' new :
  J !! t = Some T → appended t [ExecutionRecord c e] db J T db1 →
  fresh_source J (SourceExecution (x_event_id e)) → te_task_id ev = t →
  te_sequence ev = Z.of_nat (length (j_log T)) → te_kind ev = ExecutionRecord c e →
  x_sequence e = Z.of_nat (length (stream_of c (j_log T))) →
  published ch t c x (x_sequence e + 1) es db1 (<[t := log_append [ExecutionRecord c e] T]> J)
    (log_append [ExecutionRecord c e] T) (evs, next, terminal) db' new →
  published ch t c x (x_sequence e) (e :: es) db J T (ev :: evs, next, terminal) db' (e :: new).
Proof.
  intros Ht HA Hf Ht' Hs' Hk Hlen [H1 [Hw He Hb Hnew] H3 H4 (H5 & H5' & H5'') H6 H7].
  rewrite stream_of_snoc, <- app_assoc in *. cbn [app] in *. cbn in H5, H5', H5''. split; cbn; try done.
  - by eapply (appended_app t [ExecutionRecord c e]).
  - split; try done.
    + intros e' [->|Hin]%elem_of_cons; [|by apply Hb]. by rewrite Hlen, Nat2Z.id, lookup_app_r, Nat.sub_diag by lia.
    + rewrite Hnew, length_app. cbn. replace (Z.to_nat _) with 0%nat by lia. by replace (Z.to_nat _) with 0%nat by lia.
  - intros e' [->|Hin]%elem_of_cons; [done|]. by destruct (fresh_after _ _ _ _ _ Ht (H3 e' Hin)).
  - apply NoDup_cons. split; [|done]. intros (e' & Hid & Hin)%list_elem_of_fmap.
    destruct (fresh_after _ _ _ _ _ Ht (H3 e' Hin)) as [_ Hne]. cbn in Hne. congruence.
  - split_and!; [by rewrite Hk, H5|by constructor|]. rewrite Hs', H5'', length_app. cbn.
    rewrite (seqZ_cons (Z.of_nat (length (j_log T)))) by lia. f_equal. f_equal; lia.
Qed.

Lemma published_nil ch t c x s db J T :
  journal_rep db J → J !! t = Some T → stream_wf (stream_of c (j_log T)) →
  (∀ e, e ∈ stream_of c (j_log T) → x_execution_id e = x) →
  published ch t c x s [] db J T
    ([], Z.of_nat (length (stream_of c (j_log T))), ends (stream_of c (j_log T))) db [].
Proof.
  intros HR Ht Hwf Hx. split; cbn; rewrite ?app_nil_r; try done; [by apply journal_appended_nil| | |].
  - split; rewrite ?app_nil_r; try done; [by intros e ?%elem_of_nil|by rewrite drop_nil].
  - by intros e ?%elem_of_nil.
  - constructor.
Qed.

Lemma append_contiguous_sound ch t c x es : ∀ s next terminal db J T out db',
  journal_rep db J → J !! t = Some T → stream_wf (stream_of c (j_log T)) →
  next = Z.of_nat (length (stream_of c (j_log T))) → terminal = ends (stream_of c (j_log T)) →
  (∀ e, e ∈ stream_of c (j_log T) → x_execution_id e = x) → batch_from x s es → s ≤ next →
  append_contiguous_execution_events ch t c es next terminal db = Ok (out, db') →
  ∃ new, published ch t c x s es db J T out db' new.
Proof.
  induction es as [|e es IH]; intros s next terminal db J T out db' HR Ht Hwf Hn Hte Hx HB Hs HT; cbn in HT.
  { tx_inv. exists []. by apply published_nil. }
  apply batch_from_cons in HB as (Hex & Hseq & Hst & Hterm & HB). tx_inv.
  rename select (load_source_event _ _ = _) into HL. pose proof HL as HL'.
  apply (load_source_event_ok _ _ _ _ _ HR) in HL' as [-> _].
  rename select (validate_existing_source _ _ _ _ _ = _) into HV.
  destruct (known_event ch _ _ _ _ _ _ _ _ _ HR Ht Hwf HL HV) as [-> Hknown]. clear HL HV.
  destruct (Z.ltb_spec (x_sequence e) (Z.of_nat (length (stream_of c (j_log T))))) as [Hlt|Hge]; tx_inv; split_bools.
  - destruct a as [ev|]; [|by destruct G]. destruct Hknown as [Hk _].
    eapply (IH (x_sequence e + 1)) in Ht0 as (new & HP); [|done..|lia]. exists new. by apply published_known.
  - assert (x_sequence e = Z.of_nat (length (stream_of c (j_log T)))) as Hlen by lia.
    destruct a as [ev|]; [destruct Hknown; lia|]. tx_inv.
    match goal with p : list TaskEvent * Z * bool |- _ => destruct p as [[evs next'] term'] end. tx_inv.
    rename select (append_event _ _ _ _ _ = _) into Happ.
    apply (append_event_appends _ _ (ExecutionRecord c e) _ _ _ J T) in Happ as (HA & Hf & ? & ? & ? & _); [|done..].
    rename select (checked_add_u64 _ _ = _) into Hnext. apply checked_add_u64_Some in Hnext as [-> _].
    rename select (append_contiguous_execution_events _ _ _ _ _ _ _ = _) into Hrest.
    eapply (IH (x_sequence e + 1)) with (J := <[t := log_append [ExecutionRecord c e] T]> J)
      (T := log_append [ExecutionRecord c e] T) in Hrest as (new & HP); rewrite ?stream_of_snoc; try done.
    + exists (e :: new). by eapply published_next.
    + apply HA.
    + apply lookup_insert_eq.
    + eapply stream_wf_snoc with (x := x_execution_id e); try done. rewrite Hst. lia.
    + rewrite length_app. cbn. lia.
    + by rewrite ends_snoc.
    + intros e' [?| ->%list_elem_of_singleton]%elem_of_app; [by apply Hx|done].
    + lia.
Qed.

(** ** The transaction *)
Lemma commands_rep_execute cmds J t T c new : commands_rep cmds J → J !! t = Some T →
  commands_rep cmds (<[t := log_append (ExecutionRecord c <$> new) T]> J).
Proof.
  intros HC Ht.
  assert (∀ t' T' i env, <[t := log_append (ExecutionRecord c <$> new) T]> J !! t' = Some T' →
    j_log T' !! i = Some (CommandSubmitted env) → ∃ T0, J !! t' = Some T0 ∧ j_log T0 !! i = Some (CommandSubmitted env))
    as Hold.
  { intros t' T' i env HT' Hi. destruct (lookup_appended _ _ _ _ _ _ _ _ HT' Hi Ht) as [?|(_ & _ & Hk)]; [done|].
    apply list_elem_of_lookup_2, list_elem_of_fmap in Hk as (? & ? & ?). done. }
  split.
  - intros c' row Hr. destruct (cr_row _ _ HC c' row Hr) as (T0 & i & env & HT0 & Hi & ? & ?).
    destruct (decide (t = k_task row)) as [->|Hne].
    + simplify_eq. eexists _, i, env. rewrite lookup_insert_eq. split_and!; [done| |done..]. by apply lookup_app_l_Some.
    + exists T0, i, env. by rewrite lookup_insert_ne.
  - intros t' T' i env HT' Hi. destruct (Hold _ _ _ _ HT' Hi) as (T0 & H1 & H2). by eapply (cr_submitted _ _ HC).
  - intros t' T' i1 env1 i2 env2 row1 row2 HT' H1 H2.
    destruct (Hold _ _ _ _ HT' H1) as (T1 & HT1 & H1'), (Hold _ _ _ _ HT' H2) as (T2 & HT2 & H2').
    simplify_eq. by eapply (cr_order _ _ HC).
Qed.

Lemma submitted_execute log c c' new : submitted (log ++ (ExecutionRecord c <$> new)) c' ↔ submitted log c'.
Proof.
  split; [|apply submitted_app_l]. intros (env & [Hin|Hin]%elem_of_app & <-); [by exists env|].
  by apply list_elem_of_fmap in Hin as (? & ? & ?).
Qed.

Lemma streams_rep_execute strs cmds J t T c new row :
  streams_rep strs cmds J → commands_rep cmds J → J !! t = Some T → submitted (j_log T) c →
  stream_for (Some row) (stream_of c (j_log T) ++ new) → s_next row ≤ i64_max →
  streams_rep (<[c := row]> strs) cmds (<[t := log_append (ExecutionRecord c <$> new) T]> J).
Proof.
  intros HS HC Ht Hc Hf Hbd. destruct (submitted_row _ _ _ _ _ HC Ht Hc) as (krow & Hkrow & Hkt). split.
  - intros c' s [[<- <-]|[? ?]]%lookup_insert_Some; [done|by eapply sr_command].
  - intros c' s [[<- <-]|[? ?]]%lookup_insert_Some; [done|by eapply sr_bound].
  - intros t' T' c' [[<- <-]|[Hne HT']]%lookup_insert_Some Hsub.
    + cbn [log_append j_log] in *. rewrite submitted_execute in Hsub. rewrite stream_of_app.
      destruct (decide (c' = c)) as [->|Hnc].
      * by rewrite stream_of_records, lookup_insert_eq.
      * rewrite stream_of_other, app_nil_r, lookup_insert_ne by done. by eapply sr_for.
    + rewrite lookup_insert_ne; [by eapply sr_for|]. intros <-.
      destruct (submitted_row _ _ _ _ _ HC HT' Hsub) as (? & ? & ?). simplify_eq.
Qed.

(** What admitting a batch writes. *)
Record executes t c es db J T new (adm : ExecutionEventAdmission) db' : Prop := {
  ex_rep : represents db' (<[t := log_append (ExecutionRecord c <$> new) T]> J);
  ex_step : ∀ D, journal_step D J (<[t := log_append (ExecutionRecord c <$> new) T]> J);
  ex_submitted : submitted (j_log T) c;
  ex_accepted : ∃ x s, batch_from x s es ∧ es ≠ [] ∧ accepted x s (stream_of c (j_log T)) new es;
  ex_through : through_execution_sequence adm = Z.of_nat (length (stream_of c (j_log T) ++ new)) - 1;
  ex_events : te_kind <$> admitted_events adm = (ExecutionRecord c <$> new) ∧
    Forall (λ ev, te_task_id ev = t) (admitted_events adm) ∧
    te_sequence <$> admitted_events adm = seqZ (Z.of_nat (length (j_log T))) (Z.of_nat (length new));
  ex_wakes : push_wakes db' = foldl (wake_once db (j_principal T)) (push_wakes db) (ExecutionRecord c <$> new);
  ex_other : (commands db', pending_executions db', stop_requests db', node_owners db', push_wake_requests db') =
             (commands db, pending_executions db, stop_requests db, node_owners db, push_wake_requests db);
}.

Lemma insert_stream_ok c row db u db' : insert_stream c row db = Ok (u, db') →
  (∀ c' s, streams db !! c' = Some s → s_execution s ≠ s_execution row) ∧
  db' = with_streams (<[c := row]> (streams db)) db.
Proof.
  unfold insert_stream. intros HT. tx_inv.
  repeat match goal with H : constraint _ _ _ = _ |- _ => apply constraint_ok in H as [? ->] end. split_bools.
  split; [|done]. intros c' s Hs. rename select (tbl_exists _ _ = false) into Hu.
  rewrite tbl_exists_false in Hu. specialize (Hu c' s Hs). by split_bools.
Qed.

Lemma cursor_stored c x b n terminal db u db' : store_execution_event_cursor c x b n terminal db = Ok (u, db') →
  b = bool_decide (is_Some (streams db !! c)) → (∀ s, streams db !! c = Some s → s_execution s = x) →
  n ≤ i64_max ∧ (b = false → ∀ c' s, streams db !! c' = Some s → s_execution s ≠ x) ∧
  db' = with_streams (<[c := MkStreamRow x n terminal]> (streams db)) db.
Proof.
  unfold store_execution_event_cursor. intros HT -> Hx. tx_inv.
  rename select (to_sql_integer _ = _) into Hsql. apply column_write_ok in Hsql as [-> ?]. split; [done|].
  destruct (streams db !! c) as [s|] eqn:Es; cbn in *.
  - tx_inv. split; [done|]. f_equal. rewrite (alter_insert_row _ _ _ s) by done. by rewrite (Hx s).
  - by apply insert_stream_ok in Ht as [? ->].
Qed.

Lemma stream_for_inv s xs : stream_for s xs →
  match s with
  | Some row => ∃ e xs', xs = e :: xs' ∧ s_execution row = x_execution_id e ∧
                  s_next row = Z.of_nat (length xs) ∧ s_terminal row = ends xs
  | None => xs = []
  end.
Proof. unfold stream_for. intros ->. destruct xs; cbn; eauto 10. Qed.

(** The execution a stream is bound to belongs to no other command. *)
Lemma stream_free db J t T c e : represents db J → J !! t = Some T → e ∈ stream_of c (j_log T) →
  free_execution J c (x_execution_id e).
Proof. intros HR Ht He t' T' c' e' Ht' He' Hx. by eapply (jw_executions _ (rp_wf _ _ HR) t' T' c' e' t T c e). Qed.

Lemma new_free db J c x : represents db J → (∀ c' s, streams db !! c' = Some s → s_execution s ≠ x) →
  free_execution J c x.
Proof.
  intros HR Hn t T c' e Ht He Hx. exfalso.
  pose proof (stream_submitted _ _ _ _ _ (rp_wf _ _ HR) Ht He) as Hsub.
  pose proof (sr_for _ _ _ (rp_streams _ _ HR) t T c' Ht Hsub) as Hf.
  destruct (streams db !! c') as [s|] eqn:Es; apply stream_for_inv in Hf; [|rewrite Hf in He; by apply elem_of_nil in He].
  destruct Hf as (e0 & xs' & E & Hs & _). apply (Hn c' s Es). rewrite Hs, <- Hx.
  apply (sw_execution _ (jw_streams _ (rp_wf _ _ HR) t T c' Ht)); [|done]. rewrite E. left.
Qed.

Lemma ensure_admitted_ok t c db u db' J : represents db J → ensure_admitted_command t c db = Ok (u, db') →
  db' = db ∧ ∃ T, J !! t = Some T ∧ submitted (j_log T) c.
Proof.
  unfold ensure_admitted_command. intros HR HT. tx_inv. split_bools. split; [done|].
  apply fmap_Some in G as (row & Hr & ->). by eapply row_submitted; [apply HR|].
Qed.

Lemma initial_cursor db J t T c first stream n db1 :
  represents db J → J !! t = Some T → submitted (j_log T) c →
  load_execution_event_stream c db = Ok (stream, db1) →
  initial_execution_event_cursor stream first c = Ok n →
  db1 = db ∧ stream = streams db !! c ∧ n = Z.of_nat (length (stream_of c (j_log T))) ∧
  (∀ e, e ∈ stream_of c (j_log T) → x_execution_id e = x_execution_id first) ∧
  match stream with Some s => s_terminal s | None => false end = ends (stream_of c (j_log T)).
Proof.
  intros HR Ht Hc HL HI. unfold load_execution_event_stream in HL. tx_inv.
  pose proof (sr_for _ _ _ (rp_streams _ _ HR) t T c Ht Hc) as Hf. apply stream_for_inv in Hf.
  pose proof (jw_streams _ (rp_wf _ _ HR) t T c Ht) as Hwf.
  destruct (streams db !! c) as [s|] eqn:Es; cbn in E.
  - destruct Hf as (e0 & xs' & Ex & Hx & Hn & Hte). rewrite Hn in E.
    rewrite (proj2 (column_read_ok _ _ _) (conj eq_refl (Nat2Z.is_nonneg _))) in E. cbn in E. injection E as <-.
    cbn in HI. destruct (decide _) as [Hd|]; [|done]. injection HI as <-. split_and!; try done.
    + destruct s; cbn in *. congruence.
    + intros e He. rewrite <- Hd, Hx. apply (sw_execution _ Hwf); [done|]. rewrite Ex. left.
  - injection E as <-. cbn in HI. destruct (_ =? 0); [|done]. injection HI as <-. rewrite Hf. split_and!; try done.
    by intros e ?%elem_of_nil.
Qed.

(** The journal after a published batch and its new cursor. *)
Lemma represents_execute db J t T c x s es new db1 :
  represents db J → J !! t = Some T → submitted (j_log T) c →
  appended t (ExecutionRecord c <$> new) db J T db1 → accepted x s (stream_of c (j_log T)) new es → es ≠ [] →
  (∀ e, e ∈ new → fresh_source J (SourceExecution (x_event_id e))) → NoDup (x_event_id <$> new) →
  free_execution J c x → Z.of_nat (length (stream_of c (j_log T) ++ new)) ≤ i64_max →
  let xs := stream_of c (j_log T) ++ new in
  let J' := <[t := log_append (ExecutionRecord c <$> new) T]> J in
  (∀ D, journal_step D J J') ∧
  represents (with_streams (<[c := MkStreamRow x (Z.of_nat (length xs)) (ends xs)]> (streams db1)) db1) J'.
Proof.
  intros HR HJ Hc [Rj W O] [Hwf Hx Hb _] Hne Hfr Hd Hfree Hbd xs J'.
  assert (∀ D, journal_step D J J') as Hstep.
  { intros D. apply step_execute; try done. intros e He. rewrite (Hx e); [done|]. apply elem_of_app. by right. }
  split; [done|]. unfold other_tables in O. injection O as O1 O2 O3 O4 O5 O6 O7.
  split; cbn; rewrite ?O1, ?O2, ?O3, ?O4, ?W.
  - by eapply journal_rep_ext; [..|exact Rj].
  - apply commands_rep_execute; [apply HR|done].
  - apply streams_rep_execute; [apply HR|apply HR|done|done| |done]. unfold stream_for. fold xs.
    destruct es as [|e es]; [done|]. pose proof (Hb e ltac:(left)) as He. fold xs in He, Hx.
    destruct xs as [|e0 xs0]; [done|]. cbn. by rewrite (Hx e0 ltac:(left)).
  - by apply pending_rep_append; [|apply HR].
  - apply HR.
  - apply wakes_ok_fold, HR.
  - eapply journal_step_wf; [by apply (Hstep (λ _, False))|apply HR].
Qed.

Lemma admit_batch_sound ch t c es db adm db' J :
  represents db J → admit_execution_event_batch ch t c es db = Ok (adm, db') →
  ∃ T new, J !! t = Some T ∧ executes t c es db J T new adm db' ∧ reply adm = None.
Proof.
  intros HR. unfold admit_execution_event_batch. intros HT. tx_inv.
  rename select (ensure_admitted_command _ _ _ = _) into He.
  apply (ensure_admitted_ok _ _ _ _ _ J HR) in He as [-> (T & HJ & Hc)].
  destruct es as [|first es]; tx_inv.
  rename select (load_execution_event_stream _ _ = _) into HL.
  rename select (initial_execution_event_cursor _ _ _ = _) into HI.
  destruct (initial_cursor _ _ _ _ _ _ _ _ _ HR HJ Hc HL HI) as (-> & Es & -> & Hx & Hte). clear HL HI.
  rename select (validate_execution_event_batch _ _ = _) into HV. apply validate_events_ok in HV as [HB _].
  rewrite Z.add_0_r in HB. split_bools.
  match goal with p : list TaskEvent * Z * bool |- _ => destruct p as [[evs next] terminal] end. tx_inv.
  rename select (append_contiguous_execution_events _ _ _ _ _ _ _ = _) into Hloop.
  rewrite Hte in Hloop.
  eapply append_contiguous_sound in Hloop as (new & [[Rj W O] Hacc Hfr Hd Hev Hn Hter]);
    [|apply HR|done|by eapply (jw_streams _ (rp_wf _ _ HR))|done|done|done|exact HB|lia].
  cbn in Hn, Hter, Hev.
  rename select (store_execution_event_cursor _ _ _ _ _ _ = _) into Hst.
  pose proof O as O'. unfold other_tables in O'. injection O' as O1 O2 O3 O4 O5 O6 O7. rewrite <- O3 in Hst.
  pose proof (sr_for _ _ _ (rp_streams _ _ HR) t T c HJ Hc) as Hfor. apply stream_for_inv in Hfor.
  apply cursor_stored in Hst as (Hbd & Hnew & ->); [|done|].
  2: { rewrite O3. intros s Hs. rewrite Hs in Hfor. destruct Hfor as (e0 & xs' & E0 & -> & _). apply Hx. rewrite E0. left. }
  assert (free_execution J c (x_execution_id first)) as Hfree.
  { rewrite O3 in Hnew. destruct (streams db !! c) as [s|]; [|by apply (new_free db); [|apply Hnew]].
    destruct Hfor as (e0 & xs' & E0 & _). assert (e0 ∈ stream_of c (j_log T)) as H0 by (rewrite E0; left).
    rewrite <- (Hx e0 H0). by eapply stream_free. }
  rewrite Hn in Hbd |- *. rewrite Hter. rewrite Hn in E.
  edestruct represents_execute as [Hstep Hrep]; [exact HR|exact HJ|exact Hc|by split|exact Hacc|done|done|done|done|done|].
  exists T, new. split_and!; [done| |done]. split; cbn; try done.
  - eexists _, _. split_and!; done.
  - destruct (Z.leb_spec 1 (Z.of_nat (length (stream_of c (j_log T) ++ new)))); [|done]. by injection E as <-.
  - congruence.
Qed.
End publish.
