(* ===== verification/ControlRuns.v ===== *)
(** * Tasks, replies, messages and the other transactions keep [represents] *)
From S2P Require Import Prelude Json Text Protocol Transaction Control Identity ControlStore Journals ControlRep.
From S2P Require Import ControlPublish.
Section moves.
Context `{CS : ControlSerde} `{LT : LibraryTexts} `{DG : Digest} `{!ControlSerdeLaws}.
Implicit Types (db : ControlDb) (ch : ControlChoice) (J : Journals) (T : Journal) (t : TaskId) (c : CommandId).

(** ** Reading tasks *)
Definition binding T : StoredTask := MkStoredTask (j_principal T) (j_node T) (j_target T).

Lemma load_task_run db J t T : journal_rep db J → J !! t = Some T → load_task t db = Ok (binding T).
Proof.
  intros HR HJ. destruct (journal_lookup _ _ _ _ HR HJ) as (row & Hr & [H1 H2 H3 _ _ _ _ _]).
  unfold load_task. rewrite Hr. cbn. rewrite (proj2 (control_decode_ok _ _) (from_to_string _ _ H3)). cbn.
  by rewrite H1, H2.
Qed.

Lemma load_task_ok db J t task : journal_rep db J → load_task t db = Ok task →
  ∃ T, J !! t = Some T ∧ task = binding T.
Proof.
  intros HR HL. destruct (J !! t) as [T|] eqn:HJ.
  - rewrite (load_task_run _ _ _ _ HR HJ) in HL. injection HL as <-. eauto.
  - unfold load_task in HL. by rewrite (proj2 (journal_absent _ _ _ HR) HJ) in HL.
Qed.

(** ** Opening *)
Lemma journal_rep_open db J task j db' :
  journal_rep db J → J !! task_id task = None → to_string (task_target task) = Some j →
  tasks db' = <[task_id task := MkTaskRow (task_principal task) (task_node task) j 0]> (tasks db) →
  task_events db' = task_events db →
  journal_rep db' (<[task_id task := MkJournal (task_principal task) (task_node task) (task_target task) []]> J).
Proof.
  intros HR HJ Hj Et Ee.
  assert (∀ id r, task_events db !! id = Some r → v_task r ≠ task_id task) as Hno.
  { intros id r Hr E. destruct (jr_events _ _ HR id r Hr). congruence. }
  split.
  - intros t. rewrite Et, Ee. destruct (decide (task_id task = t)) as [<-|Hne].
    + rewrite !lookup_insert_eq. constructor. split; cbn; try done.
      * split; [intros k1 v1 k2 v2 H1 _ E; by destruct (Hno _ _ H1)|].
        intros p. split; [lia|]. intros (k & v & Hk & Hv & _). by destruct (Hno _ _ Hk).
      * intros id r Hr E. by destruct (Hno _ _ Hr).
      * by intros k ?%elem_of_nil.
    + rewrite !lookup_insert_ne by done. apply HR.
  - intros id r. rewrite Ee, lookup_insert_is_Some'. right. by eapply jr_events.
Qed.

Lemma represents_open db J task j : represents db J → J !! task_id task = None →
  to_string (task_target task) = Some j →
  represents (with_tasks (<[task_id task := MkTaskRow (task_principal task) (task_node task) j 0]> (tasks db)) db)
    (<[task_id task := MkJournal (task_principal task) (task_node task) (task_target task) []]> J).
Proof.
  intros HR HJ Hj. pose proof (rp_commands _ _ HR) as HC. pose proof (rp_streams _ _ HR) as HS.
  set (J' := <[task_id task := _]> J).
  assert (∀ t T k, J' !! t = Some T → k ∈ j_log T → J !! t = Some T) as Hold.
  { intros t T k [[<- <-]|[? ?]]%lookup_insert_Some; [by intros ?%elem_of_nil|done]. }
  assert (∀ t T, J !! t = Some T → J' !! t = Some T) as Hkeep.
  { intros t T HT. unfold J'. rewrite lookup_insert_ne; congruence. }
  split; cbn; try apply HR.
  - by eapply journal_rep_open; [apply HR|..].
  - split.
    + intros c row Hr. destruct (cr_row _ _ HC c row Hr) as (T & i & env & HT & Hi). eauto 10.
    + intros t T i env HT Hi. eapply (cr_submitted _ _ HC); [|done]. eapply Hold; [done|by eapply list_elem_of_lookup_2].
    + intros t T i1 env1 i2 env2 row1 row2 HT H1. apply (cr_order _ _ HC t T); [|done].
      eapply Hold; [done|by eapply list_elem_of_lookup_2].
  - split; [apply HS..|]. intros t T c HT Hsub. destruct Hsub as (env & Hin & <-).
    eapply (sr_for _ _ _ HS t); [by eapply Hold|by exists env].
  - intros c n Hn. destruct (rp_pending _ _ HR c n Hn) as (t & T & env & HT & Hi). eauto 10.
  - eapply (journal_step_wf (λ _, False)); [by apply step_open|apply HR].
Qed.

Lemma insert_task_ok task db u db' J : represents db J → insert_task task db = Ok (u, db') →
  J !! task_id task = None ∧
  represents db' (<[task_id task := MkJournal (task_principal task) (task_node task) (task_target task) []]> J) ∧
  other_tables db' = other_tables db ∧ push_wakes db' = push_wakes db.
Proof.
  unfold insert_task, insert_task_row. intros HR HT. tx_inv.
  repeat match goal with H : constraint _ _ _ = _ |- _ => apply constraint_ok in H as [? ->] end. split_bools.
  apply control_encode_ok in E. rename select (tasks db !! _ = None) into Hn.
  apply (journal_absent _ _ _ (rp_journal _ _ HR)) in Hn. split_and!; [done|by apply represents_open|done..].
Qed.

(** ** Admission *)
Lemma commands_none db J c : represents db J → commands db !! c = None → fresh_source J (SourceCommand c).
Proof.
  intros HR Hn t T k HT (i & Hi)%list_elem_of_lookup. destruct k as [env|]; [|done]. intros [= <-].
  destruct (cr_submitted _ _ (rp_commands _ _ HR) _ _ _ _ HT Hi) as (? & ? & _). congruence.
Qed.

Lemma admit_command_sound ch t p surface c i allow db adm db' J :
  represents db J → input_ok i = true → admit_command_body ch t p surface c i allow db = Ok (adm, db') →
  ∃ T, J !! t = Some T ∧ j_principal T = p ∧
  let env := MkCommandEnvelope c p surface (j_target T) i None in
  match adm with
  | NotAdmitted => allow = false ∧ db' = db ∧ commands db !! c = None
  | CommandExisting command pending => command = env ∧ db' = db ∧ pending = is_pending db c ∧
      ∃ t' T', J !! t' = Some T' ∧ CommandSubmitted env ∈ j_log T'
  | CommandAdmitted command ev => command = env ∧ allow = true ∧ submits t env db J T ev db'
  end.
Proof.
  intros HR Hi. unfold admit_command_body. intros HT. tx_inv. split_bools.
  rename select (load_task _ _ = _) into HL.
  apply (load_task_ok _ _ _ _ (rp_journal _ _ HR)) in HL as (T & HJ & ->). cbn in *.
  exists T. split_and!; [done..|]. rename select (encode _ = _) into Hj. apply control_encode_ok in Hj.
  destruct (commands db !! c) as [row|] eqn:Hc; cbn in *; tx_inv.
  - split_bools. split_and!; [done..|].
    destruct (stored_envelope _ _ _ _ HR Hc) as (T' & env & HT' & Hin & _ & _ & Hd & _).
    exists (k_task row), T'. split; [done|]. replace (MkCommandEnvelope _ _ _ _ _ _) with env; [done|].
    apply envelope_read_back in Hj; [|done]. rename select (k_json row = _) into Ej. rewrite <- Ej in Hj. congruence.
  - destruct allow; tx_inv; [|done]. split_and!; [done..|]. by eapply insert_command_sound.
Qed.

(** ** Replies *)
Lemma admit_reply_sound ch t c evs replier db o db' J :
  represents db J → admit_reply ch t c evs replier db = Ok (o, db') →
  match o with
  | None => db' = db
  | Some r => ∃ T, J !! reply_task r = Some T ∧ reply_node r = j_node T ∧ reply_from_task r = t ∧
      command_id (reply_command r) = reply_id c ∧
      submits (reply_task r) (reply_command r) db J T (reply_event r) db'
  end.
Proof.
  intros HR. unfold admit_reply. destruct (appended_terminal evs) as [terminal|]; intros HT; [|by tx_inv].
  tx_inv. destruct (origin _) as [org|]; [|by tx_inv]. destruct (negb _); tx_inv; [done|].
  destruct (commands db !! from_command org) as [asker_row|] eqn:Hask; tx_inv; [|done]. cbn.
  repeat match goal with H : load_task _ _ = _ |- _ =>
    apply (load_task_ok _ _ _ _ (rp_journal _ _ HR)) in H as (? & ? & ->) end.
  rename select (J !! k_task asker_row = Some _) into HJ. rename select (encode _ = _) into Hj. apply control_encode_ok in Hj.
  rename select (insert_command _ _ _ _ _ = _) into Hins. eexists. split_and!; [exact HJ|done|done| |].
  - unfold reply_envelope. by destruct (reply_content _ _).
  - eapply insert_command_sound; [..|exact Hins]; try done; unfold reply_envelope; by destruct (reply_content _ _).
Qed.

(** ** Messages *)
Record sender db J (n : NodeId) (m : OutgoingMessage) (p : PrincipalId) (from_task : TaskId) T0 env0 d : Prop := {
  sn_owner : node_owners db !! n = Some p;
  sn_task : J !! from_task = Some T0;
  sn_binding : j_node T0 = n ∧ j_principal T0 = p;
  sn_command : CommandSubmitted env0 ∈ j_log T0 ∧ command_id env0 = msg_from_command m;
  sn_depth : message_depth env0 m = Ok d;
  sn_receiver : node_owners db !! to_node m = Some p;
  sn_other : (n, j_target T0) ≠ (to_node m, to_target m);
}.

(** The thread of a message: found with its binding, or opened. *)
Definition thread_ready db J (task : TaskSpec) db1 J1 T : Prop :=
  represents db1 J1 ∧ J1 !! task_id task = Some T ∧
  binding T = MkStoredTask (task_principal task) (task_node task) (task_target task) ∧
  other_tables db1 = other_tables db ∧ push_wakes db1 = push_wakes db ∧
  (db1 = db ∧ J1 = J ∨ J !! task_id task = None ∧ J1 = <[task_id task := T]> J ∧ j_log T = []).

Lemma same_binding_ok db J t T task row j : journal_rep db J → J !! t = Some T → tasks db !! t = Some row →
  to_string (task_target task) = Some j → same_binding row task j = true →
  binding T = MkStoredTask (task_principal task) (task_node task) (task_target task).
Proof.
  intros HR HJ Hr Hj Hb. destruct (journal_lookup _ _ _ _ HR HJ) as (row' & Hr' & [H1 H2 H3 _ _ _ _ _]).
  simplify_eq. unfold same_binding in Hb. split_bools. unfold binding. f_equal; [congruence..|].
  rename select (t_target_json row = j) into E. rewrite <- E in Hj.
  apply from_to_string in H3, Hj. congruence.
Qed.

Lemma open_thread_sound task db u db' J : represents db J → open_thread task db = Ok (u, db') →
  ∃ J' T, thread_ready db J task db' J' T.
Proof.
  intros HR. unfold open_thread. intros HT. tx_inv. destruct (tasks db !! task_id task) as [row|] eqn:Hrow; tx_inv.
  - destruct (task_row_lookup _ _ _ _ (rp_journal _ _ HR) Hrow) as (T & HJ & _). apply control_encode_ok in E.
    exists J, T. split_and!; try done; [by eapply same_binding_ok; [apply HR|..]|by left].
  - rename select (insert_task _ _ = _) into Hins. apply (insert_task_ok _ _ _ _ J HR) in Hins as (HJ & HR' & O & W).
    eexists _, _. split_and!; [exact HR'|apply lookup_insert_eq|done|done|done|by right].
Qed.

Lemma load_source_ok n p m db r J : represents db J → load_source n p m db = Ok r →
  ∃ T0, J !! r.1.1 = Some T0 ∧ r.1.2 = binding T0 ∧ j_node T0 = n ∧ j_principal T0 = p ∧
    CommandSubmitted r.2 ∈ j_log T0 ∧ command_id r.2 = msg_from_command m.
Proof.
  intros HR. unfold load_source. intros (row & Hrow%ok_or_ok & HL)%result_bind_ok.
  apply result_bind_ok in HL as (task & Htask & HL).
  apply (load_task_ok _ _ _ _ (rp_journal _ _ HR)) in Htask as (T0 & HJ & ->).
  destruct (negb _) eqn:Hb; [done|]. split_bools. apply result_bind_ok in HL as (env & Hd & [= <-]).
  destruct (stored_envelope _ _ _ _ HR Hrow) as (T' & env' & HT' & Hin & Hc & _ & Hd' & _).
  apply control_decode_ok in Hd. simplify_eq. exists T0. split_and!; done.
Qed.

Definition thread_of (p : PrincipalId) (n : NodeId) T0 (m : OutgoingMessage) : TaskSpec :=
  MkTaskSpec (thread_task_id p (n, j_target T0) (to_node m, to_target m)) p (to_node m) (to_target m).

Definition message_outcome db J p n T0 env0 d m (from_task : TaskId) (adm : MessageAdmission) db' : Prop :=
  let task := thread_of p n T0 m in
  let command := message_command p m (j_target T0) (input_quiet (input env0)) d in
  match adm with
  | MessageExisting t ft cmd pending => t = task_id task ∧ ft = from_task ∧ db' = db ∧
      pending = is_pending db (message_id m) ∧
      ∃ T name, J !! t = Some T ∧ cmd = command name ∧ CommandSubmitted cmd ∈ j_log T
  | MessageAdmitted t ft cmd ev => t = task_id task ∧ ft = from_task ∧ (∃ name, cmd = command name) ∧
      ∃ db1 J1 T, thread_ready db J task db1 J1 T ∧ submits t cmd db1 J1 T ev db'
  end.

Lemma stored_message_ok db J c o : represents db J → stored_message c db = Ok o →
  match o with
  | Some (cmd, t, pending) => pending = is_pending db c ∧
      ∃ T, J !! t = Some T ∧ CommandSubmitted cmd ∈ j_log T ∧ command_id cmd = c
  | None => commands db !! c = None
  end.
Proof.
  intros HR. unfold stored_message. destruct (commands db !! c) as [row|] eqn:Hrow; [|by intros [= <-]].
  cbn. intros (r & (env & Hd%control_decode_ok & [= <-])%result_bind_ok & [= <-])%result_bind_ok.
  destruct (stored_envelope _ _ _ _ HR Hrow) as (T' & env' & HT' & Hin & Hc & _ & Hd' & _). simplify_eq. eauto.
Qed.

Lemma admit_in_sound ch n cards dest m db adm db' J :
  represents db J → admit_in ch n cards dest m db = Ok (adm, db') →
  ∃ p from_task T0 env0 d, sender db J n m p from_task T0 env0 d ∧
    message_outcome db J p n T0 env0 d m from_task adm db'.
Proof.
  intros HR. unfold admit_in. intros HT. tx_inv.
  match goal with r : TaskId * StoredTask * CommandEnvelope |- _ => destruct r as [[from_task src] env0] end. tx_inv.
  rename select (load_source _ _ _ _ = _) into HL. apply (load_source_ok _ _ _ _ _ _ HR) in HL as (T0 & HL). cbn in HL.
  destruct HL as (HT0 & -> & Hn & Hp & Hin & Hc). cbn in *.
  eexists _, from_task, T0, env0, _. split.
  { split; [done|done|done|done|done|by split_bools|]. intros [= Hd1 Hd2]. by rewrite Hd1, Hd2, !bool_decide_true in G. }
  rename select (stored_message _ _ = _) into HS. apply (stored_message_ok _ _ _ _ HR) in HS.
  match goal with o : option (CommandEnvelope * TaskId * bool) |- _ => destruct o as [[[stored st] pending]|] end; tx_inv.
  - split_bools. destruct HS as (-> & T & HT & Hsub & _). subst. split_and!; [done..|]. exists T. eexists. split_and!; done.
  - match goal with H : match dest with _ => _ end _ = _ |- _ => destruct dest; tx_inv end.
    rename select (open_thread _ _ = _) into Ho. apply (open_thread_sound _ _ _ _ J HR) in Ho as (J1 & T & Hready).
    rename select (insert_command _ _ _ _ _ = _) into Hins. rename select (encode _ = _) into Hj. apply control_encode_ok in Hj.
    split_and!; [done|done|by eexists|]. eexists _, J1, T. split; [exact Hready|].
    destruct Hready as (HR1 & HJ1 & Hb & _). injection Hb as Hb1 Hb2 Hb3.
    eapply insert_command_sound; [exact HR1|exact HJ1|done|done|done|exact Hj|exact Hins].
Qed.

(** ** Deletion *)
Lemma settled_ends db J t T c : represents db J → J !! t = Some T → submitted (j_log T) c →
  settled db c = ends (stream_of c (j_log T)).
Proof.
  intros HR HJ Hc. pose proof (sr_for _ _ _ (rp_streams _ _ HR) t T c HJ Hc) as Hf. apply stream_for_inv in Hf.
  unfold settled. destruct (streams db !! c) as [s|]; [by destruct Hf as (? & ? & _ & _ & _ & ?)|by rewrite Hf].
Qed.

Definition in_flight db t : bool :=
  tbl_exists (λ c r, bool_decide (k_task r = t) && negb (settled db c)) (commands db).

Lemma in_flight_quiescent db J t T : represents db J → J !! t = Some T →
  in_flight db t = false ↔ quiescent (j_log T).
Proof.
  intros HR HJ. unfold in_flight. rewrite tbl_exists_false. split.
  - intros Hf env Hin. assert (submitted (j_log T) (command_id env)) as Hs by by exists env.
    destruct (submitted_row _ _ _ _ _ (rp_commands _ _ HR) HJ Hs) as (row & Hr & Hk).
    specialize (Hf _ _ Hr). rewrite bool_decide_true in Hf by done. split_bools.
    rewrite <- (settled_ends db J t T) by done. by apply negb_false_iff.
  - intros Hq c row Hr. apply not_true_iff_false. intros Hb. split_bools. subst.
    destruct (row_submitted _ _ _ _ (rp_commands _ _ HR) Hr) as (T' & HT' & Hs). simplify_eq.
    rewrite (settled_ends db J (k_task row) T) in * by done. destruct Hs as (env & Hin & <-).
    by rewrite (Hq env Hin) in *.
Qed.

(** A database without the rows of a task. *)
Definition without_task t db : ControlDb :=
  let keep {V} (m : gmap CommandId V) := filter (λ kv, negb (of_task db t kv.1)) m in
  MkControlDb (delete t (tasks db)) (filter (λ kv, k_task kv.2 ≠ t) (commands db))
    (filter (λ kv, v_task kv.2 ≠ t) (task_events db)) (keep (pending_executions db)) (keep (streams db))
    (keep (stop_requests db)) (node_owners db) (identity db) (push_wakes db) (push_wake_requests db).

Lemma filter_twice {K V} `{Countable K} (P : K * V → Prop) `{!∀ kv, Decision (P kv)} (m : gmap K V) :
  filter P (filter P m) = filter P m.
Proof. rewrite map_filter_filter. apply map_filter_ext. naive_solver. Qed.

Lemma remove_run t db : ∃ n, remove t db = Ok (n, without_task t db).
Proof.
  eexists. unfold remove. do 5 (erewrite txn_run; [|done]).
  erewrite txn_run; [done|]. unfold delete_task_row. erewrite txn_run; [|done].
  assert (∀ db' s u, constraint u s db' = (if u then Ok (tt, db') else Err (sqlite_error (constraint_failed s)))) as HC.
  { intros db' s []; done. }
  erewrite txn_run; [|apply txn_guard_run].
  - unfold write, without_task, delete_commands. cbn. by rewrite filter_twice.
  - apply negb_true_iff, orb_false_iff. split; apply tbl_exists_false; intros k r Hr; cbn in Hr;
      apply map_lookup_filter_Some in Hr as [_ Hr]; by apply bool_decide_false.
Qed.

Lemma lookup_keep {V} db t (m : gmap CommandId V) c v :
  filter (λ kv, negb (of_task db t kv.1)) m !! c = Some v ↔ m !! c = Some v ∧ k_task <$> commands db !! c ≠ Some t.
Proof.
  rewrite map_lookup_filter_Some. cbn. unfold of_task. rewrite negb_True. by rewrite bool_decide_spec.
Qed.

Lemma journal_rep_delete db J t : journal_rep db J → journal_rep (without_task t db) (delete t J).
Proof.
  intros HR. split.
  - intros t'. cbn. destruct (decide (t = t')) as [<-|Hne].
    { rewrite !lookup_delete_eq. constructor. }
    rewrite !lookup_delete_ne by done. pose proof (jr_tasks _ _ HR t') as Hf. destruct Hf as [row T HT|]; constructor.
    destruct HT as [H1 H2 H3 H4 [G1 G2] H6 H7 H8]. split; try done.
    + split.
      * intros k1 v1 k2 v2 [? _]%map_lookup_filter_Some [? _]%map_lookup_filter_Some. by apply G1.
      * intros p. rewrite G2. setoid_rewrite map_lookup_filter_Some. split.
        { intros (k & v & Hk & Hv & Hp). exists k, v. split_and!; try done. cbn. congruence. }
        { intros (k & v & [Hk _] & Hv & Hp). eauto. }
    + intros id r [Hr _]%map_lookup_filter_Some. by eapply H6.
  - intros id r [Hr Hne]%map_lookup_filter_Some. cbn in Hne. rewrite lookup_delete_ne by done. by eapply jr_events.
Qed.

Lemma represents_delete db J t : represents db J → represents (without_task t db) (delete t J).
Proof.
  intros HR. pose proof (rp_commands _ _ HR) as HC.
  assert (∀ c row, commands db !! c = Some row → k_task <$> commands db !! c ≠ Some t →
    filter (λ kv, k_task kv.2 ≠ t) (commands db) !! c = Some row) as Hkeep.
  { intros c row Hr Hn. apply map_lookup_filter_Some. split; [done|]. rewrite Hr in Hn. cbn in *. congruence. }
  split; cbn.
  - apply journal_rep_delete, HR.
  - split.
    + intros c row [Hr Hne]%map_lookup_filter_Some. cbn in Hne.
      destruct (cr_row _ _ HC c row Hr) as (T & i & env & HT & ?). exists T, i, env. by rewrite lookup_delete_ne.
    + intros t' T i env [Hne HT]%lookup_delete_Some Hi.
      destruct (cr_submitted _ _ HC _ _ _ _ HT Hi) as (row & Hr & Hk & Hj). exists row. split_and!; try done.
      apply map_lookup_filter_Some. split; [done|]. cbn. congruence.
    + intros t' T i1 env1 i2 env2 row1 row2 [Hne HT]%lookup_delete_Some H1 H2 [? _]%map_lookup_filter_Some
        [? _]%map_lookup_filter_Some. by apply (cr_order _ _ HC t' T i1 env1 i2 env2).
  - split.
    + intros c s [Hs Hn]%lookup_keep. destruct (sr_command _ _ _ (rp_streams _ _ HR) c s Hs) as [row Hr]. eauto.
    + intros c s [Hs _]%lookup_keep. by eapply (sr_bound _ _ _ (rp_streams _ _ HR)).
    + intros t' T c [Hne HT]%lookup_delete_Some Hsub.
      destruct (submitted_row _ _ _ _ _ HC HT Hsub) as (row & Hr & Hk).
      replace (filter _ (streams db) !! c) with (streams db !! c); [by eapply (sr_for _ _ _ (rp_streams _ _ HR))|].
      apply option_eq. intros s. rewrite lookup_keep, Hr. cbn. naive_solver.
  - intros c n [Hn Hk]%lookup_keep. destruct (rp_pending _ _ HR c n Hn) as (t' & T & env & HT & Hpos & Hi & <-).
    destruct (cr_submitted _ _ HC _ _ _ _ HT Hi) as (row & Hr & Hkt & _). rewrite Hr in Hk. cbn in Hk.
    exists t', T, env. rewrite lookup_delete_ne by congruence. done.
  - intros c s [Hs Hn]%lookup_keep. destruct (rp_stops _ _ HR c s Hs) as [row Hr]. eauto.
  - apply HR.
  - apply wf_delete, HR.
Qed.
End moves.

(** * Lifetimes of the coordinator's store

    [Call] lists the transactions of the store with their arguments, [run_call]
    runs one in its surroundings, and [lifetime] runs a sequence of them, each
    of which may fail at its connection, its commit or its worker. Whatever the
    sequence, the database stands for well-formed journals that moved by
    [journal_step]s. *)
Section runs.
Context `{CS : ControlSerde} `{LT : LibraryTexts} `{DG : Digest}.
Implicit Types (db : ControlDb) (ch : ControlChoice).

Inductive Call :=
| CallCreate (task : TaskSpec)
| CallOpen (task : TaskSpec) (available : Availability)
| CallSubmit (t : TaskId) (p : PrincipalId) (surface : SurfaceRef) (c : CommandId) (i : CommandInput) (allow_new : bool)
| CallPublish (t : TaskId) (c : CommandId) (events : list ExecutionEvent) (replier : string)
| CallStop (t : TaskId) (c : CommandId)
| CallAcknowledge (n : NodeId) (t : TaskId) (c : CommandId)
| CallAcknowledgeStop (n : NodeId) (t : TaskId) (c : CommandId)
| CallDelete (p : PrincipalId) (t : TaskId)
| CallMessage (n : NodeId) (sender_cards : list TargetCard) (destination : option (list TargetCard)) (m : OutgoingMessage)
| CallWake (n : NodeId) (wake_id : N) (urgency : WakeUrgency) (now_ms : Z)
| CallSettle (p : PrincipalId) (g : Z)
| CallEnroll (n : NodeId) (owner : PrincipalId) (token_hash : string) (row : EnrollmentRow)
| CallPutNotice (n : NodeId) (notice : SealedNotice)
| CallWithdraw (n : NodeId) (notices : list N)
| CallIdentity (f : IdentityDb → IdentityDb).   (* an operation on the tables of devices and browsers *)

Definition run_call ch (call : Call) db : ControlDb :=
  match call with
  | CallCreate task => (attempt ch (insert_task task) db).2
  | CallOpen task available => (attempt ch (open_body task available) db).2
  | CallSubmit t p surface c i allow => (attempt ch (admit_command_body ch t p surface c i allow) db).2
  | CallPublish t c events replier => (attempt ch (append_execution_events_body ch t c events replier) db).2
  | CallStop t c => (attempt ch (admit_stop_body t c) db).2
  | CallAcknowledge n t c => (attempt ch (acknowledge_execution_body n t c) db).2
  | CallAcknowledgeStop n t c => (attempt ch (acknowledge_stop_body n t c) db).2
  | CallDelete p t => (attempt ch (delete_body p t) db).2
  | CallMessage n cards dest m => (attempt ch (admit_in ch n cards dest m) db).2
  | CallWake n wake_id urgency now_ms => (attempt ch (request_wake_body n wake_id urgency now_ms) db).2
  | CallSettle p g => (attempt ch (settle_body p g) db).2
  | CallEnroll n owner hash row => (attempt ch (enroll_node_body n owner hash row) db).2
  | CallPutNotice n notice => (attempt ch (put_notice_body n notice) db).2
  | CallWithdraw n notices => (attempt ch (withdraw_notices_body n notices) db).2
  | CallIdentity f => with_identity (f (identity db)) db
  end.

(** A submitted input was read by its deserializer. *)
Definition typed_call (call : Call) : bool :=
  match call with CallSubmit _ _ _ _ i _ => input_ok i | _ => true end.

Definition lifetime (calls : list (ControlChoice * Call)) db : ControlDb :=
  foldl (λ db cc, run_call cc.1 cc.2 db) db calls.

Context `{!ControlSerdeLaws}.
Implicit Types (J : Journals) (T : Journal) (t : TaskId) (c : CommandId).

(** Tasks a call may delete. *)
Definition deletes (call : Call) t : Prop := match call with CallDelete _ t' => t = t' | _ => False end.

Definition moves (D : TaskId → Prop) J db' : Prop := ∃ J', rtc (journal_step D) J J' ∧ represents db' J'.

Lemma moves_refl D J db : represents db J → moves D J db.
Proof. by exists J. Qed.

Lemma attempt_moves {A} ch (m : CTx A) db D J : represents db J →
  (∀ a db', m db = Ok (a, db') → moves D J db') → moves D J (attempt ch m db).2.
Proof.
  intros HR Hm. unfold attempt. destruct (control_failure ch); [by apply moves_refl|].
  unfold commit. destruct (m db) as [[a db']|] eqn:E; [by eapply Hm|by apply moves_refl].
Qed.

(** ** Tables beside the journal *)
Lemma represents_pending db J m : represents db J → (∀ c n, m !! c = Some n → pending_executions db !! c = Some n) →
  represents (with_pending m db) J.
Proof. intros [H1 H2 H3 H4 H5 H6 H7] Hm. split; cbn; try done; [by destruct H1|]. intros c n Hn. by apply H4, Hm. Qed.

Lemma represents_stops db J m : represents db J → (∀ c s, m !! c = Some s → is_Some (commands db !! c)) →
  represents (with_stops m db) J.
Proof. intros [H1 H2 H3 H4 H5 H6 H7] Hm. split; cbn; try done. by destruct H1. Qed.

Lemma represents_wakes db J m : represents db J → (∀ p w, m !! p = Some w → wake_ok w) →
  represents (with_wakes m db) J.
Proof. intros [H1 H2 H3 H4 H5 H6 H7] Hm. split; cbn; try done. by destruct H1. Qed.

Lemma represents_same db db' J : represents db J →
  (tasks db', commands db', task_events db', pending_executions db', streams db', stop_requests db', push_wakes db') =
  (tasks db, commands db, task_events db, pending_executions db, streams db, stop_requests db, push_wakes db) →
  represents db' J.
Proof.
  intros [H1 H2 H3 H4 H5 H6 H7] [= E1 E2 E3 E4 E5 E6 E7]. split; rewrite ?E2, ?E4, ?E5, ?E6, ?E7; try done.
  by eapply journal_rep_ext.
Qed.

Lemma record_keeps p r u db db' J : represents db J → record p r db = Ok (u, db') → represents db' J.
Proof. unfold record. intros HR HT. tx_inv. apply represents_wakes; [done|]. apply wake_ok_recorded, HR. Qed.

Lemma settle_keeps p g b db db' J : represents db J → settle_body p g db = Ok (b, db') → represents db' J.
Proof.
  unfold settle_body. intros HR HT. tx_inv. destruct (push_wakes db !! p) as [w|] eqn:Ew; [|by tx_inv].
  destruct (_ && _); tx_inv; [|done]. apply represents_wakes; [done|].
  intros p' w' [[<- <-]|[? ?]]%lookup_insert_Some; [|by eapply (rp_wakes _ _ HR)].
  apply (rp_wakes _ _ HR) in Ew. unfold wake_ok in *. cbn. lia.
Qed.

Lemma request_wake_keeps n wid u now o db db' J : represents db J →
  request_wake_body n wid u now db = Ok (o, db') → represents db' J.
Proof.
  unfold request_wake_body. intros HR HT. tx_inv.
  match goal with H : context [push_wake_requests ?d !! _] |- _ =>
    assert (represents d J) as HR' by (by eapply represents_same); clear HR end.
  destruct (push_wake_requests _ !! _); tx_inv; [done|].
  match goal with H : record _ _ ?d = _ |- _ => eapply (record_keeps _ _ _ d); [|exact H] end.
  by eapply represents_same.
Qed.

Lemma enroll_keeps n owner h row u db db' J : represents db J →
  enroll_node_body n owner h row db = Ok (u, db') → represents db' J.
Proof.
  unfold enroll_node_body. intros HR HT. tx_inv.
  match goal with H : identity_tx _ _ = _ |- _ => apply identity_tx_ok in H as (i & _ & ->) end.
  match goal with H : match node_owner n db with _ => _ end _ = _ |- _ => destruct (node_owner n db); tx_inv end;
    by eapply represents_same.
Qed.

Lemma put_notice_keeps n notice o db db' J : represents db J →
  put_notice_body n notice db = Ok (o, db') → represents db' J.
Proof.
  unfold put_notice_body. intros HR HT. tx_inv.
  match goal with H : identity_tx _ _ = Ok (?b, _) |- _ => apply identity_tx_ok in H as (i & _ & ->); destruct b end; tx_inv;
    [|by eapply represents_same].
  match goal with H : record _ _ _ = _ |- _ => eapply record_keeps; [|exact H] end. by eapply represents_same.
Qed.

Lemma stop_keeps t c a db db' J : represents db J → admit_stop_body t c db = Ok (a, db') → represents db' J.
Proof.
  unfold admit_stop_body. intros HR HT. tx_inv. destruct (stop_requests db !! c) as [s|]; [by tx_inv|].
  match goal with b : bool |- _ => destruct b end; [by tx_inv|]. tx_inv.
  rename select (insert_stop _ _ = _) into Hi. unfold insert_stop in Hi. tx_inv.
  repeat match goal with H : constraint _ _ _ = _ |- _ => apply constraint_ok in H as [? ->] end. split_bools.
  apply represents_stops; [done|]. intros c' s [[<- <-]|[? ?]]%lookup_insert_Some; [done|by eapply (rp_stops _ _ HR)].
Qed.

Lemma acknowledge_keeps n t c u db db' J : represents db J →
  acknowledge_execution_body n t c db = Ok (u, db') → represents db' J.
Proof.
  unfold acknowledge_execution_body. intros HR HT. tx_inv. apply represents_pending; [done|].
  by intros c' n' [_ ?]%lookup_delete_Some.
Qed.

Lemma acknowledge_stop_keeps n t c u db db' J : represents db J →
  acknowledge_stop_body n t c db = Ok (u, db') → represents db' J.
Proof.
  unfold acknowledge_stop_body. intros HR HT. tx_inv. destruct (node_of_task t db); tx_inv; [|done].
  destruct (decide (k_task <$> commands db !! c = Some t)); [|done]. apply represents_stops; [done|]. intros c' s Hs.
  apply lookup_alter_Some in Hs as [(-> & s' & Hs & _)|[_ Hs]]; by eapply (rp_stops _ _ HR).
Qed.

(** ** One call *)
Lemma open_moves task a o db db' D J : represents db J → open_body task a db = Ok (o, db') → moves D J db'.
Proof.
  unfold open_body. intros HR HT. tx_inv. destruct (tasks db !! task_id task).
  - destruct (same_binding _ _ _); tx_inv. by apply moves_refl.
  - tx_inv. match goal with H : match a with _ => _ end _ = _ |- _ => destruct a; tx_inv end.
    rename select (insert_task _ _ = _) into Hi. apply (insert_task_ok _ _ _ _ J HR) in Hi as (HJ & HR' & _).
    eexists. split; [by apply rtc_once, step_open|done].
Qed.

Lemma submits_moves t env db D J T ev db' : submits t env db J T ev db' → moves D J db'.
Proof. intros HS. eexists. split; [by apply rtc_once, HS|apply HS]. Qed.

Lemma delete_moves p t o db db' J : represents db J → delete_body p t db = Ok (o, db') → moves (eq t) J db'.
Proof.
  unfold delete_body. intros HR HT. tx_inv. destruct (tasks db !! t) as [row|] eqn:Hrow; cbn in *; tx_inv;
    [|by apply moves_refl]. split_bools.
  destruct (task_row_lookup _ _ _ _ (rp_journal _ _ HR) Hrow) as (T & HJ & _).
  rename select (remove t _ = _) into Hrm. destruct (remove_run t db) as (n & E). rewrite E in Hrm. injection Hrm as <- <-.
  eexists. split; [|by apply represents_delete]. apply rtc_once, (step_delete _ _ _ T); [done..|].
  by apply (proj1 (in_flight_quiescent db J t T HR HJ)).
Qed.

Lemma publish_moves ch t c es replier a db db' D J : represents db J →
  append_execution_events_body ch t c es replier db = Ok (a, db') → moves D J db'.
Proof.
  unfold append_execution_events_body. intros HR HT. tx_inv.
  rename select (admit_execution_event_batch _ _ _ _ _ = _) into Hb.
  apply (admit_batch_sound _ _ _ _ _ _ _ J HR) in Hb as (T & new & HJ & HE & _).
  rename select (admit_reply _ _ _ _ _ _ = _) into Hr.
  eapply admit_reply_sound in Hr; [|apply HE].
  match goal with H : match ?o with _ => _ end |- _ => destruct o as [r|] end.
  - destruct Hr as (T' & HJ' & _ & _ & _ & HS). eexists. split; [|apply HS].
    eapply rtc_l; [apply HE|]. apply rtc_once, HS.
  - subst. eexists. split; [by apply rtc_once, HE|apply HE].
Qed.

Lemma message_moves ch n cards dest m a db db' D J : represents db J → admit_in ch n cards dest m db = Ok (a, db') →
  moves D J db'.
Proof.
  intros HR HT. apply (admit_in_sound _ _ _ _ _ _ _ _ _ HR) in HT as (p & ft & T0 & env0 & d & _ & HO).
  destruct a; cbn in HO.
  - destruct HO as (-> & -> & _ & db1 & J1 & T & (HR1 & HJ1 & _ & _ & _ & Ht) & HS).
    destruct Ht as [[-> ->]|(HJ & -> & Hl)]; [by eapply submits_moves|].
    eexists. split; [|apply HS]. eapply rtc_l; [|apply rtc_once, HS].
    replace T with (MkJournal (j_principal T) (j_node T) (j_target T) []); [by apply step_open|].
    destruct T; cbn in *. congruence.
  - destruct HO as (_ & _ & -> & _). by apply moves_refl.
Qed.

Lemma run_call_moves ch call db J : represents db J → typed_call call = true →
  moves (deletes call) J (run_call ch call db).
Proof.
  intros HR Hty. destruct call; cbn [run_call]; [..|by apply moves_refl; eapply represents_same];
    apply attempt_moves; try done; intros x db' HT.
  - apply (insert_task_ok _ _ _ _ J HR) in HT as (HJ & HR' & _). eexists. split; [by apply rtc_once, step_open|done].
  - by eapply open_moves.
  - apply (admit_command_sound _ _ _ _ _ _ _ _ _ _ J HR Hty) in HT as (T & HJ & Hp & HA).
    destruct x; [|by destruct HA as (_ & _ & HS); eapply submits_moves|]; destruct HA as (_ & -> & _); by apply moves_refl.
  - by eapply publish_moves.
  - by eapply moves_refl, stop_keeps.
  - by eapply moves_refl, acknowledge_keeps.
  - by eapply moves_refl, acknowledge_stop_keeps.
  - destruct (delete_moves _ _ _ _ _ _ HR HT) as (J' & HS & HR'). exists J'. split; [|done].
    eapply rtc_subrel; [|exact HS]. intros J1 J2. by apply journal_step_mono.
  - by eapply message_moves.
  - by eapply moves_refl, request_wake_keeps.
  - by eapply moves_refl, settle_keeps.
  - by eapply moves_refl, enroll_keeps.
  - by eapply moves_refl, put_notice_keeps.
  - unfold withdraw_notices_body in HT. apply identity_tx_ok in HT as (i & _ & ->). by apply moves_refl; eapply represents_same.
Qed.

Lemma represents_empty : represents empty_control ∅.
Proof.
  split; try done. split; [|done]. intros t. cbn. rewrite !lookup_empty. constructor.
Qed.

Lemma lifetime_moves calls : ∀ db J, represents db J → forallb (λ cc, typed_call cc.2) calls = true →
  moves (λ t, ∃ cc, cc ∈ calls ∧ deletes cc.2 t) J (lifetime calls db).
Proof.
  induction calls as [|[ch call] calls IH]; intros db J HR Hty; cbn in *; [by apply moves_refl|]. split_bools.
  destruct (run_call_moves ch call db J) as (J1 & HS1 & HR1); [done..|].
  destruct (IH _ J1 HR1) as (J2 & HS2 & HR2); [done|]. exists J2. split; [|done]. trans J1.
  - eapply rtc_subrel; [|exact HS1]. intros ? ?. apply journal_step_mono. intros t Hd. exists (ch, call). by split; [left|].
  - eapply rtc_subrel; [|exact HS2]. intros ? ?. apply journal_step_mono. intros t (cc & ? & ?). exists cc. by split; [right|].
Qed.
End runs.
