(* ===== verification/ControlReads.v ===== *)
(** * Reads of the coordinator's store

    What a task's status, a journal suffix and the pending deliveries are, in
    terms of journals. *)
From S2P Require Import Prelude Json Text Protocol Transaction Control ControlStore Journals ControlRep.
From S2P Require Import ControlRuns.
Section reads.
Context `{CS : ControlSerde} `{LT : LibraryTexts} `{!ControlSerdeLaws}.
Implicit Types (db : ControlDb) (J : Journals) (T : Journal) (t : TaskId) (c : CommandId).

(** ** Rows in order *)
Definition reads_as (kv : TaskEventId * TaskEventRow) (k : TaskEventKind) : Prop :=
  from_str (v_kind_json kv.2) = Some k ∧ 0 ≤ v_sequence kv.2.

Lemma rows_read db J t T rows ns :
  journal_rep db J → J !! t = Some T →
  (∀ kv, kv ∈ rows → task_events db !! kv.1 = Some kv.2 ∧ v_task kv.2 = t) →
  (λ kv, v_sequence kv.2) <$> rows = ns → ∀ ks,
  (∀ i n, ns !! i = Some n → ks !! i = j_log T !! Z.to_nat n) → length ks = length ns → Forall2 reads_as rows ks.
Proof.
  intros HR HJ Hrows <-. induction rows as [|kv rows IH]; intros [|k ks] Hks Hl; cbn in Hl; [constructor|done|done|].
  destruct (Hrows kv) as [Hr Hv]; [left|]. constructor.
  - destruct (row_record _ _ _ _ HR Hr) as (T' & k' & HT' & Hk' & Hpos & _ & Hd). rewrite Hv in HT'. simplify_eq.
    specialize (Hks 0%nat _ eq_refl). cbn in Hks. split; congruence.
  - apply IH; [intros kv' ?; apply Hrows; by right| |by injection Hl as ->].
    intros i n Hn. by apply (Hks (S i)).
Qed.

(** Rows of a task that carry the numbers [m .. n-1]. *)
Lemma task_rows db J t T (P : Z → bool) (f : Z → Z) m n :
  journal_rep db J → J !! t = Some T → (∀ x y, f x = f y → x = y) →
  (∀ p, (∃ q, p = f q ∧ 0 ≤ q < Z.of_nat (length (j_log T)) ∧ P q = true) ↔ m ≤ p < n) →
  let rows := order_by (λ kv, f (v_sequence kv.2))
    (select (λ _ r, bool_decide (v_task r = t) && P (v_sequence r)) (task_events db)) in
  (λ kv, f (v_sequence kv.2)) <$> rows = seqZ m (n - m) ∧
  ∀ kv, kv ∈ rows → task_events db !! kv.1 = Some kv.2 ∧ v_task kv.2 = t.
Proof.
  intros HR HJ Hinj Hnums rows. destruct (journal_lookup _ _ _ _ HR HJ) as (row & _ & Hf).
  pose proof (tf_gapless _ _ _ _ Hf) as Hg. split.
  - apply (order_by_range (λ kv, f (v_sequence kv.2))).
    + apply NoDup_fmap_2_strong; [|eapply NoDup_fmap_1, NoDup_select].
      intros [k1 v1] [k2 v2] [? ?]%elem_of_select [? ?]%elem_of_select E. cbn in *. split_bools. apply Hinj in E.
      assert (k1 = k2) as -> by (by eapply (gapless_inj _ _ _ _ _ _ _ _ Hg)). by simplify_eq.
    + intros p. rewrite <- Hnums, list_elem_of_fmap. split.
      * intros ([k v] & -> & [Hk Hb]%elem_of_select). split_bools. exists (v_sequence v). split_and!; try done;
          by eapply gapless_bounds.
      * intros (q & -> & Hq & HP). apply (proj2 Hg) in Hq as (k & v & Hk & Hv & <-).
        exists (k, v). split; [done|]. apply elem_of_select. by rewrite bool_decide_true.
  - intros [k v] Hin. unfold rows in Hin. rewrite elem_of_order_by, elem_of_select in Hin. destruct Hin. by split_bools.
Qed.

Lemma rows_from_end_read db J t T : journal_rep db J → J !! t = Some T →
  Forall2 reads_as (rows_from_end t db) (reverse (j_log T)).
Proof.
  intros HR HJ. set (n := Z.of_nat (length (j_log T))).
  destruct (task_rows db J t T (λ _, true) Z.opp (1 - n) 1) as [Hs Hrows]; [done|done|lia| |].
  { intros p. split; [intros (q & -> & ? & _); lia|]. intros Hp. exists (- p). split_and!; [lia..|done]. }
  cbv beta zeta in Hs, Hrows.
  assert (rows_from_end t db = order_by (λ kv, - v_sequence kv.2)
    (select (λ _ r, bool_decide (v_task r = t) && true) (task_events db))) as E.
  { unfold rows_from_end. f_equal. unfold select. apply List.filter_ext. intros kv. by rewrite andb_true_r. }
  rewrite E. replace (1 - (1 - n)) with n in Hs by lia. eapply rows_read; [done|exact HJ|done|reflexivity|..].
  - intros i q Hq. rewrite list_lookup_fmap_Some in Hq. destruct Hq as (kv & -> & Hkv).
    assert (seqZ (1 - n) n !! i = Some (- v_sequence kv.2)) as [Hv Hi]%lookup_seqZ.
    { rewrite <- Hs, list_lookup_fmap, Hkv. done. }
    rewrite reverse_lookup by lia. f_equal. lia.
  - rewrite length_fmap, length_reverse. apply (f_equal length) in Hs. rewrite length_fmap, length_seqZ in Hs. lia.
Qed.

Lemma journal_rows_read db J t T minimum : journal_rep db J → J !! t = Some T → 0 ≤ minimum →
  Forall2 reads_as (journal_rows t minimum db) (drop (Z.to_nat minimum) (j_log T)) ∧
  (λ kv, v_sequence kv.2) <$> journal_rows t minimum db =
    seqZ minimum (Z.of_nat (length (j_log T)) - minimum).
Proof.
  intros HR HJ Hmin. set (n := Z.of_nat (length (j_log T))).
  destruct (task_rows db J t T (λ q, minimum <=? q) id minimum n) as [Hs Hrows]; [done|done|done| |].
  { intros p. split; [intros (q & -> & ? & ?); split_bools; unfold id; lia|].
    intros Hp. exists p. split_and!; [done|lia..|apply Z.leb_le; lia]. }
  split; [|done]. eapply rows_read; [done|exact HJ|done|exact Hs|..].
  - intros i q Hq. apply lookup_seqZ in Hq as [-> Hi]. rewrite lookup_drop. f_equal. lia.
  - rewrite length_drop, length_seqZ. lia.
Qed.

(** ** Status *)
Definition submission (k : TaskEventKind) : option CommandEnvelope :=
  match k with CommandSubmitted env => Some env | _ => None end.
Definition terminal_kind (e : ExecutionEvent) : option ExecutionTerminal :=
  match x_kind e with ExecutionTerminated terminal => Some terminal | _ => None end.

(** What a journal says of its task: the outcome of its last command. *)
Definition status_of (log : list TaskEventKind) : TaskStatus :=
  match last (omap submission log) with
  | None => Idle
  | Some env =>
      match last (stream_of (command_id env) log) ≫= terminal_kind with
      | Some terminal => after terminal
      | None => Working
      end
  end.

Lemma last_lookup_submission log env : last (omap submission log) = Some env →
  ∃ i, log !! i = Some (CommandSubmitted env) ∧ ∀ j env', log !! j = Some (CommandSubmitted env') → (j ≤ i)%nat.
Proof.
  induction log as [|k log IH] using rev_ind; [done|]. rewrite omap_app. destruct k as [env0|]; cbn.
  - rewrite last_snoc. intros [= ->]. exists (length log). split; [by rewrite lookup_app_r, Nat.sub_diag|].
    intros j env' Hj. apply lookup_lt_Some in Hj. rewrite length_app in Hj. cbn in Hj. lia.
  - rewrite app_nil_r. intros (i & Hi & Hmax)%IH. exists i. split; [by apply lookup_app_l_Some|].
    intros j env' [Hj|[? Hj]]%lookup_app_Some; [by eapply Hmax|]. by apply list_lookup_singleton_Some in Hj as [_ ?].
Qed.

Lemma latest_command_log db J t T : represents db J → J !! t = Some T →
  latest_command t db = command_id <$> last (omap submission (j_log T)).
Proof.
  intros HR HJ. pose proof (rp_commands _ _ HR) as HC. unfold latest_command.
  destruct (order_by _ _) as [|[c row] rest] eqn:Eo; cbn.
  - apply order_by_nil in Eo. destruct (last _) as [env|] eqn:El; [exfalso|done].
    apply last_lookup_submission in El as (i & Hi & _).
    destruct (cr_submitted _ _ HC _ _ _ _ HJ Hi) as (row & Hr & Hk & _).
    assert ((command_id env, row) ∈ []) as Hin; [|by apply elem_of_nil in Hin].
    rewrite <- Eo. apply elem_of_select. by rewrite bool_decide_true.
  - pose proof (order_by_head _ _ _ _ Eo) as Hmax. cbn in Hmax.
    assert ((c, row) ∈ (c, row) :: rest) as Hin by left. rewrite <- Eo, elem_of_order_by, elem_of_select in Hin.
    destruct Hin as [Hr Hb]. split_bools. subst.
    destruct (cr_row _ _ HC c row Hr) as (T' & j & env & HT' & Hj & <- & _). simplify_eq.
    destruct (last (omap submission (j_log T))) as [env'|] eqn:El.
    + apply last_lookup_submission in El as (i & Hi & Hle). cbn. f_equal. specialize (Hle j env Hj).
      destruct (cr_submitted _ _ HC _ _ _ _ HJ Hi) as (row' & Hr' & Hk' & _).
      destruct (decide (j = i)) as [->|Hne]; [congruence|].
      pose proof (cr_order _ _ HC _ _ _ _ _ _ _ _ HJ Hj Hi Hr Hr' ltac:(lia)).
      specialize (Hmax (command_id env', row')). rewrite elem_of_select, bool_decide_true in Hmax by done.
      cbn in Hmax. specialize (Hmax (conj Hr' eq_refl)). lia.
    + apply last_None in El. assert (env ∈ omap submission (j_log T)) as Hin; [|rewrite El in Hin; by apply elem_of_nil in Hin].
      apply list_elem_of_omap. exists (CommandSubmitted env). split; [by eapply list_elem_of_lookup_2|done].
Qed.

(** The terminal records of a command, in order. *)
Definition terminal_of_record c (k : TaskEventKind) : option ExecutionTerminal :=
  execution_of c k ≫= terminal_kind.

Lemma find_terminal_read c rows ks terminal : Forall2 reads_as rows ks →
  head (omap (terminal_of_record c) ks) = Some terminal → find_terminal c rows = Ok terminal.
Proof.
  induction 1 as [|kv k rows ks [Hd _] _ IH]; [done|]. cbn [find_terminal omap list_omap].
  rewrite (proj2 (control_decode_ok _ _) Hd). cbn. destruct k as [|c' e]; cbn; [done|].
  unfold terminal_of_record at 1, terminal_kind. cbn.
  destruct (x_kind e) eqn:Ek, (decide (c' = c)) as [->|]; cbn; rewrite ?Ek; try done. by intros [= ->].
Qed.

Lemma head_omap_reverse {A B} (f : A → option B) (l : list A) : head (omap f (reverse l)) = last (omap f l).
Proof.
  induction l as [|a l IH] using rev_ind; [done|]. rewrite reverse_snoc, omap_app. cbn.
  destruct (f a) as [b|]; cbn; [by rewrite last_snoc|by rewrite app_nil_r].
Qed.

Lemma terminal_records c log : omap (terminal_of_record c) log = omap terminal_kind (stream_of c log).
Proof.
  induction log as [|k log IH]; [done|]. cbn. unfold terminal_of_record at 1. destruct (execution_of c k) as [e|] eqn:E; cbn.
  - destruct (terminal_kind e); by rewrite IH.
  - done.
Qed.

Lemma last_terminal xs terminal : last xs ≫= terminal_kind = Some terminal →
  last (omap terminal_kind xs) = Some terminal ∧ ends xs = true.
Proof.
  destruct xs as [|e xs _] using rev_ind; [done|]. rewrite last_snoc, omap_app. cbn. intros Hk.
  rewrite Hk. cbn. rewrite last_snoc. split; [done|]. unfold ends. rewrite last_snoc.
  unfold terminal_kind in Hk. by destruct (x_kind e).
Qed.

Lemma no_terminal xs : last xs ≫= terminal_kind = None → ends xs = false.
Proof.
  unfold ends, terminal_kind. destruct (last xs) as [e|]; cbn; [|done]. by destruct (x_kind e).
Qed.

Lemma derive_log db J t T : represents db J → J !! t = Some T → derive t db = Ok (status_of (j_log T)).
Proof.
  intros HR HJ. unfold derive, status_of. rewrite (latest_command_log _ _ _ _ HR HJ).
  destruct (last (omap submission (j_log T))) as [env|] eqn:El; cbn; [|done].
  assert (submitted (j_log T) (command_id env)) as Hsub.
  { apply last_lookup_submission in El as (i & Hi & _). apply submitted_lookup. eauto. }
  rewrite (settled_ends _ _ _ _ _ HR HJ Hsub).
  destruct (last (stream_of _ _) ≫= terminal_kind) as [terminal|] eqn:Et.
  - apply last_terminal in Et as [Et ->]. unfold terminal_of. erewrite find_terminal_read; [done| |].
    + apply (rows_from_end_read db J); [apply HR|done].
    + by rewrite head_omap_reverse, terminal_records.
  - by rewrite (no_terminal _ Et).
Qed.
End reads.

(** * Retries find what was stored

    The transactions run forwards where the store already has what they ask
    for: a command that was admitted, and events that were accepted. *)
From S2P Require Import ControlPublish.
Section retry.
Context `{CS : ControlSerde} `{LT : LibraryTexts} `{DG : Digest} `{!ControlSerdeLaws}.
Implicit Types (db : ControlDb) (ch : ControlChoice) (J : Journals) (T : Journal) (t : TaskId) (c : CommandId).

(** ** Commands *)
Lemma submitted_stored db J t T env : represents db J → J !! t = Some T → CommandSubmitted env ∈ j_log T →
  ∃ row, commands db !! command_id env = Some row ∧ k_task row = t ∧ to_string env = Some (k_json row) ∧
    from_str (k_json row) = Some env.
Proof.
  intros HR HJ Hin. destruct (proj1 (list_elem_of_lookup _ _) Hin) as (i & Hi).
  destruct (cr_submitted _ _ (rp_commands _ _ HR) _ _ _ _ HJ Hi) as (row & Hr & Hk & Hj).
  exists row. split_and!; try done. apply envelope_read_back; [done|]. by eapply (jw_submitted _ (rp_wf _ _ HR)).
Qed.

Lemma admit_existing_run ch t surface c i allow db J T :
  represents db J → J !! t = Some T →
  CommandSubmitted (MkCommandEnvelope c (j_principal T) surface (j_target T) i None) ∈ j_log T →
  admit_command_body ch t (j_principal T) surface c i allow db =
    Ok (CommandExisting (MkCommandEnvelope c (j_principal T) surface (j_target T) i None) (is_pending db c), db).
Proof.
  intros HR HJ Hin. destruct (submitted_stored _ _ _ _ _ HR HJ Hin) as (row & Hr & _ & Hj & _).
  unfold admit_command_body. erewrite txn_run; [|by apply txn_read_run, (load_task_run _ J); [apply HR|]].
  erewrite txn_run; [|by apply txn_guard_run, bool_decide_true]. cbn.
  erewrite txn_run; [|by apply txn_lift_run, control_encode_ok]. erewrite txn_run; [|done].
  cbn in Hr. rewrite Hr. cbn. by erewrite txn_run; [|by apply txn_guard_run, bool_decide_true].
Qed.

(** ** Events *)
Lemma accepted_source db J t T c e : represents db J → J !! t = Some T → e ∈ stream_of c (j_log T) →
  ∃ ev, load_source_event (SourceExecution (x_event_id e)) db = Ok (Some ev, db) ∧
    te_task_id ev = t ∧ te_kind ev = ExecutionRecord c e.
Proof.
  intros HR HJ He. destruct (load_source_event_run (SourceExecution (x_event_id e)) db J) as (o & Hl & Ho); [apply HR|].
  apply elem_of_stream in He. destruct o as [ev|].
  - exists ev. split; [done|]. apply list_elem_of_lookup in He as (i & Hi). destruct Ho as (T' & i' & HT' & Hi' & Hs).
    destruct (jw_sources _ (rp_wf _ _ HR) _ _ _ _ _ _ _ _ HT' HJ Hi' Hi) as [E1 E2]; [done|]. subst. by simplify_eq.
  - by destruct (Ho _ _ _ HJ He).
Qed.

Lemma append_known_run ch t c db J T es next terminal : represents db J → J !! t = Some T →
  next = Z.of_nat (length (stream_of c (j_log T))) →
  (∀ e, e ∈ es → stream_of c (j_log T) !! Z.to_nat (x_sequence e) = Some e ∧ x_sequence e < next) →
  append_contiguous_execution_events ch t c es next terminal db = Ok ([], next, terminal, db).
Proof.
  intros HR HJ Hn. induction es as [|e es IH]; intros Hes; [done|]. cbn [append_contiguous_execution_events].
  destruct (Hes e) as [Hk Hlt]; [left|].
  destruct (accepted_source db J t T c e) as (ev & Hl & Ht & Hkind); [done|done|by eapply list_elem_of_lookup_2|].
  erewrite txn_run; [|done]. erewrite txn_run.
  2: { unfold validate_existing_source. apply txn_guard_run. rewrite Ht, Hkind, !bool_decide_true by done. done. }
  rewrite (proj2 (Z.ltb_lt _ _) Hlt). erewrite txn_run; [|by apply txn_guard_run, bool_decide_true].
  apply IH. intros e' He'. apply Hes. by right.
Qed.

Lemma cursor_again_run c x db s : streams db !! c = Some s → s_execution s = x → s_next s ≤ i64_max →
  store_execution_event_cursor c x true (s_next s) (s_terminal s) db = Ok (tt, db).
Proof.
  intros Hs Hx Hb. unfold store_execution_event_cursor.
  erewrite txn_run; [|apply txn_lift_run, column_write_ok; split; done].
  unfold write. rewrite (alter_insert_row _ _ _ s) by done. cbn.
  rewrite insert_id; [by destruct db|]. rewrite Hs. by destruct s.
Qed.

(** A batch the coordinator has, admitted again. *)
Lemma admit_known_run ch t c db J T es x s : represents db J → J !! t = Some T → submitted (j_log T) c →
  es ≠ [] → batch_from x s es →
  (∀ e, e ∈ es → stream_of c (j_log T) !! Z.to_nat (x_sequence e) = Some e) →
  admit_execution_event_batch ch t c es db =
    Ok (MkExecutionEventAdmission (Z.of_nat (length (stream_of c (j_log T))) - 1) [] None, db).
Proof.
  intros HR HJ Hc Hne HB Hes. set (xs := stream_of c (j_log T)) in *.
  pose proof (jw_streams _ (rp_wf _ _ HR) t T c HJ) as Hwf. fold xs in Hwf.
  assert (∀ e, e ∈ es → xs !! Z.to_nat (x_sequence e) = Some e ∧ 0 ≤ x_sequence e < Z.of_nat (length xs)) as Hk.
  { intros e He. split; [by apply Hes|]. pose proof (Hes e He) as Hl. pose proof (sw_sequence _ Hwf _ _ Hl).
    apply lookup_lt_Some in Hl. lia. }
  destruct es as [|first es]; [done|]. destruct (Hk first ltac:(left)) as [Hfirst Hfb].
  pose proof (sr_for _ _ _ (rp_streams _ _ HR) t T c HJ Hc) as Hf. fold xs in Hf. apply stream_for_inv in Hf.
  destruct (streams db !! c) as [st|] eqn:Est; [|by rewrite Hf in Hfirst].
  destruct Hf as (e0 & xs' & Exs & Hx & Hn & Ht).
  pose proof (sr_bound _ _ _ (rp_streams _ _ HR) c st Est) as Hbd.
  destruct (submitted_row _ _ _ _ _ (rp_commands _ _ HR) HJ Hc) as (krow & Hkrow & Hkt).
  assert (s_execution st = x_execution_id first) as Hxf.
  { rewrite Hx. apply (sw_execution _ Hwf); [rewrite Exs; left|by eapply list_elem_of_lookup_2]. }
  assert (x_sequence first = s) as Hseq by (apply batch_from_cons in HB; naive_solver).
  assert (x_execution_id first = x) as Hfx by (apply batch_from_cons in HB; naive_solver).
  assert (0 ≤ s_next st) as Hpos by (rewrite Hn; lia).
  unfold admit_execution_event_batch. erewrite txn_run.
  2: { unfold ensure_admitted_command. erewrite txn_run; [|done]. apply txn_guard_run, bool_decide_true. rewrite Hkrow. cbn. by rewrite Hkt. }
  erewrite txn_run.
  2: { apply txn_read_run. rewrite Est. cbn.
       rewrite (proj2 (column_read_ok (s_next st) _ _) (conj eq_refl Hpos)). done. }
  erewrite txn_run.
  2: { apply txn_lift_run. cbn. by rewrite decide_True. }
  erewrite txn_run.
  2: { apply txn_lift_run, (proj2 (validate_events_ok _ _ _ _ tt)). rewrite Hseq, Hfx, Z.add_0_r. split; [done|]. intros _.
       destruct (last (first :: es)) as [el|] eqn:El; [|by apply last_None in El].
       rewrite <- (batch_last _ _ _ _ HB El). destruct (Hk el) as [_ Hb]; [|unfold i64_max, u64_max in *; lia].
       rewrite last_lookup in El. by eapply list_elem_of_lookup_2. }
  erewrite txn_run; [|apply txn_guard_run; rewrite (proj2 (Z.ltb_ge _ _)); [done|lia]].
  erewrite txn_run; [|eapply append_known_run; [exact HR|exact HJ|done|]].
  2: { intros e He. rewrite Hn. destruct (Hk e He). naive_solver lia. }
  rewrite bool_decide_true by done. cbn. erewrite txn_run; [|apply cursor_again_run; [|congruence|done]; rewrite Est; by destruct st].
  erewrite txn_run; [|apply txn_lift_run; rewrite (proj2 (Z.leb_le _ _)); [done|lia]]. by rewrite Hn.
Qed.

Lemma publish_known_run ch t c db J T es x s replier : represents db J → J !! t = Some T → submitted (j_log T) c →
  es ≠ [] → batch_from x s es →
  (∀ e, e ∈ es → stream_of c (j_log T) !! Z.to_nat (x_sequence e) = Some e) →
  append_execution_events_body ch t c es replier db =
    Ok (MkExecutionEventAdmission (Z.of_nat (length (stream_of c (j_log T))) - 1) [] None, db).
Proof.
  intros HR HJ Hc Hne HB Hes. unfold append_execution_events_body. by erewrite txn_run; [|by eapply admit_known_run].
Qed.
End retry.
