(* ===== verification/ControlDelivery.v ===== *)
(** * Deliveries, stops and wakes over the life of the store

    A pending delivery stays until it is acknowledged, a recorded stop stays,
    and a wake stays owed until it is settled at its generation; what a node is
    sent when it connects is exactly what is still owed to it. *)
From S2P Require Import Prelude Json Text Protocol Transaction Control Identity ControlStore Journals ControlRep.
From S2P Require Import ControlPublish ControlRuns ControlReads Browser IdentitySound.
Section delivery.
Context `{CS : ControlSerde} `{LT : LibraryTexts} `{DG : Digest} `{!ControlSerdeLaws}.
Implicit Types (db : ControlDb) (ch : ControlChoice) (J : Journals) (T : Journal) (t : TaskId) (c : CommandId).

(** ** How the tables beside the journal evolve *)
Definition spared_command (call : Call) db c : Prop :=
  match call with CallDelete _ t => k_task <$> commands db !! c ≠ Some t | _ => True end.

Definition wake_le (call : Call) (p : PrincipalId) (w w' : WakeRow) : Prop :=
  generation w ≤ generation w' ∧
  (settled_at w' = settled_at w ∨ ∃ g, call = CallSettle p g ∧ generation w = g ∧ settled_at w' = g).

Record evolves (call : Call) db db' : Prop := {
  ev_pending : ∀ c s, pending_executions db !! c = Some s → (∀ n t, call ≠ CallAcknowledge n t c) →
    spared_command call db c → pending_executions db' !! c = Some s;
  ev_stops : ∀ c row, stop_requests db !! c = Some row → spared_command call db c →
    ∃ row', stop_requests db' !! c = Some row' ∧ (stop_delivered row = true → stop_delivered row' = true) ∧
      (stop_delivered row' = true → stop_delivered row = true ∨ ∃ n t, call = CallAcknowledgeStop n t c);
  ev_wakes : ∀ p w, push_wakes db !! p = Some w → ∃ w', push_wakes db' !! p = Some w' ∧ wake_le call p w w';
  ev_owners : ∀ n p, node_owners db !! n = Some p → node_owners db' !! n = Some p;
  ev_absent : ∀ c, is_Some (commands db !! c) → pending_executions db !! c = None → pending_executions db' !! c = None;
}.

Lemma wake_le_refl call p w : wake_le call p w w.
Proof. split; [lia|by left]. Qed.

Lemma evolves_same call db db' : pending_executions db' = pending_executions db → stop_requests db' = stop_requests db →
  push_wakes db' = push_wakes db → node_owners db' = node_owners db → evolves call db db'.
Proof.
  intros E1 E2 E3 E4. split; rewrite ?E1, ?E2, ?E3, ?E4; [done|eauto 10| |done|done]. intros p w Hw. exists w. split; [done|apply wake_le_refl].
Qed.

Lemma recorded_later call p (m : gmap PrincipalId WakeRow) r p' w : m !! p' = Some w →
  ∃ w', <[p := recorded_wake r (m !! p)]> m !! p' = Some w' ∧ wake_le call p' w w'.
Proof.
  intros Hw. destruct (decide (p = p')) as [<-|Hne].
  - rewrite lookup_insert_eq, Hw. eexists. split; [done|]. split; [cbn; lia|by left].
  - rewrite lookup_insert_ne by done. exists w. split; [done|apply wake_le_refl].
Qed.

Lemma folded_later call db p ks : ∀ (m : gmap PrincipalId WakeRow) p' w, m !! p' = Some w →
  ∃ w', foldl (wake_once db p) m ks !! p' = Some w' ∧ wake_le call p' w w' ∧ settled_at w' = settled_at w.
Proof.
  induction ks as [|k ks IH]; intros m p' w Hw; cbn; [exists w; split_and!; [done|apply wake_le_refl|done]|].
  assert (∃ w1, wake_once db p m k !! p' = Some w1 ∧ generation w ≤ generation w1 ∧ settled_at w1 = settled_at w)
    as (w1 & Hw1 & Hg & Hs).
  { unfold wake_once. destruct (waking db k); [|by exists w]. destruct (decide (p = p')) as [<-|Hne].
    - rewrite lookup_insert_eq, Hw. eexists. split_and!; [done|cbn; lia|done].
    - rewrite lookup_insert_ne by done. by exists w. }
  destruct (IH _ _ _ Hw1) as (w2 & Hw2 & [Hg2 _] & Hs2). exists w2. split_and!; [done| |congruence].
  split; [lia|left; congruence].
Qed.

Lemma pending_command db J c s : represents db J → pending_executions db !! c = Some s →
  ∃ row, commands db !! c = Some row.
Proof.
  intros HR Hc. destruct (rp_pending _ _ HR c s Hc) as (t & T & env & HT & _ & Hi & <-).
  destruct (cr_submitted _ _ (rp_commands _ _ HR) _ _ _ _ HT Hi) as (row & Hr & _). eauto.
Qed.

Lemma submits_evolves call t env db J T ev db' : represents db J → submits t env db J T ev db' → evolves call db db'.
Proof.
  intros HR [_ _ Hnew _ Hp Ho]. injection Ho as O1 O2 O3 O4 O5. split.
  - intros c s Hc _ _. rewrite Hp, lookup_insert_ne; [done|]. intros <-.
    destruct (pending_command _ _ _ _ HR Hc). congruence.
  - rewrite O2. eauto 10.
  - rewrite O4. intros p w Hw. exists w. split; [done|apply wake_le_refl].
  - by rewrite O3.
  - intros c [row Hr] Hc. rewrite Hp, lookup_insert_ne; [done|]. intros <-. congruence.
Qed.

Lemma evolves_trans call db1 db2 db3 :
  evolves call db1 db2 → evolves call db2 db3 → commands db2 = commands db1 ∨ (∀ p t, call ≠ CallDelete p t) →
  (∀ p g, call ≠ CallSettle p g) → (∀ c, is_Some (commands db1 !! c) → is_Some (commands db2 !! c)) →
  evolves call db1 db3.
Proof.
  intros [P1 S1 W1 N1 A1] [P2 S2 W2 N2 A2] Hd Hs Hcmd.
  assert (∀ c, spared_command call db1 c → spared_command call db2 c) as Hsp.
  { intros c. unfold spared_command. destruct call; try done. destruct Hd as [->|Hd]; [done|]. by edestruct Hd. }
  split.
  - intros c s Hc Hn Hk. eauto.
  - intros c row Hc Hk. destruct (S1 c row Hc Hk) as (r2 & H2 & D2 & B2), (S2 c r2 H2 (Hsp c Hk)) as (r3 & H3 & D3 & B3).
    exists r3. split_and!; [done|auto|]. intros [?|?]%B3; auto.
  - intros p w Hw. destruct (W1 p w Hw) as (w2 & H2 & G2 & E2), (W2 p w2 H2) as (w3 & H3 & G3 & E3).
    exists w3. split; [done|]. split; [lia|]. left.
    destruct E2 as [E2|(g & E2 & _)]; [|by destruct (Hs _ _ E2)].
    destruct E3 as [E3|(g & E3 & _)]; [|by destruct (Hs _ _ E3)]. congruence.
  - eauto.
  - eauto.
Qed.

Lemma executes_evolves call t c es db J T new adm db' : executes t c es db J T new adm db' → evolves call db db'.
Proof.
  intros HE. pose proof (ex_other _ _ _ _ _ _ _ _ _ HE) as Ho. injection Ho as O1 O2 O3 O4 O5. split.
  - by rewrite O2.
  - rewrite O3. eauto 10.
  - rewrite (ex_wakes _ _ _ _ _ _ _ _ _ HE). intros p w Hw.
    destruct (folded_later call db (j_principal T) (ExecutionRecord c <$> new) _ p w Hw) as (w' & ? & ? & _). eauto.
  - by rewrite O4.
  - by rewrite O2.
Qed.

Lemma tables_evolve call db db' : other_tables db' = other_tables db → push_wakes db' = push_wakes db →
  evolves call db db'.
Proof. unfold other_tables. intros [= _ E2 _ E4 E5 _ _] E. by apply evolves_same. Qed.

Lemma publish_evolves ch t c es replier adm db db' J : represents db J →
  append_execution_events_body ch t c es replier db = Ok (adm, db') → evolves (CallPublish t c es replier) db db'.
Proof.
  intros HR HT. unfold append_execution_events_body in HT. tx_inv.
  rename select (admit_execution_event_batch _ _ _ _ _ = _) into Hb.
  apply (admit_batch_sound _ _ _ _ _ _ _ J HR) in Hb as (T & new & HJ & HE & _).
  rename select (admit_reply _ _ _ _ _ _ = _) into Hr.
  pose proof (ex_other _ _ _ _ _ _ _ _ _ HE) as Hx. injection Hx as Hcm _ _ _ _.
  eapply evolves_trans; [by eapply executes_evolves| |by right|done|by rewrite Hcm].
  eapply admit_reply_sound in Hr; [|apply HE].
  match goal with H : match ?o with _ => _ end |- _ => destruct o as [r|] end.
  - destruct Hr as (T' & HJ' & _ & _ & _ & HS). eapply submits_evolves; [|exact HS]. apply HE.
  - subst. by apply evolves_same.
Qed.

Lemma message_evolves ch n cards dest m a db db' J : represents db J → admit_in ch n cards dest m db = Ok (a, db') →
  evolves (CallMessage n cards dest m) db db'.
Proof.
  intros HR HT. apply (admit_in_sound _ _ _ _ _ _ _ _ _ HR) in HT as (p & ft & T0 & env0 & d & _ & HO).
  destruct a; cbn in HO.
  - destruct HO as (_ & _ & _ & db1 & J1 & T & (HR1 & _ & _ & O1 & W1 & _) & HS).
    pose proof O1 as Hcm. unfold other_tables in Hcm. injection Hcm as Hcm _ _ _ _ _ _.
    eapply evolves_trans; [by apply tables_evolve|by eapply submits_evolves|by right|done|by rewrite Hcm].
  - destruct HO as (_ & _ & -> & _). by apply evolves_same.
Qed.

Lemma delete_evolves p t o db db' J : represents db J → delete_body p t db = Ok (o, db') →
  evolves (CallDelete p t) db db'.
Proof.
  intros HR HT. unfold delete_body in HT. tx_inv. destruct (tasks db !! t) as [row|]; cbn in *; tx_inv;
    [|by apply evolves_same].
  rename select (remove t _ = _) into Hrm. destruct (remove_run t db) as (n & E). rewrite E in Hrm. injection Hrm as <- <-.
  split; cbn.
  - intros c s Hc _ Hk. by apply lookup_keep.
  - intros c r Hc Hk. exists r. split; [by apply lookup_keep|auto].
  - intros q w Hw. exists w. split; [done|apply wake_le_refl].
  - done.
  - intros c _ Hc. apply map_lookup_filter_None. by left.
Qed.

Lemma settle_evolves p g b db db' : settle_body p g db = Ok (b, db') → evolves (CallSettle p g) db db'.
Proof.
  unfold settle_body. intros HT. tx_inv. destruct (push_wakes db !! p) as [w|] eqn:Ew; [|tx_inv; by apply evolves_same].
  destruct (_ && _) eqn:Hb; tx_inv; [|by apply evolves_same]. split_bools. subst. split; cbn; [done|eauto 10| |done|done].
  intros p' w' Hw'. destruct (decide (p = p')) as [<-|Hne].
  - simplify_eq. rewrite lookup_insert_eq. eexists. split; [done|]. split; [cbn; lia|]. right. by eexists.
  - rewrite lookup_insert_ne by done. exists w'. split; [done|apply wake_le_refl].
Qed.

Lemma wake_evolves n wid u now o db db' : request_wake_body n wid u now db = Ok (o, db') →
  evolves (CallWake n wid u now) db db'.
Proof.
  unfold request_wake_body, record. intros HT. tx_inv. destruct (push_wake_requests _ !! _); tx_inv; [by apply evolves_same|].
  split; cbn; [done|eauto 10| |done|done]. intros p w Hw. by apply recorded_later.
Qed.

Lemma stop_evolves t c a db db' : admit_stop_body t c db = Ok (a, db') → evolves (CallStop t c) db db'.
Proof.
  unfold admit_stop_body. intros HT. tx_inv. destruct (stop_requests db !! c) as [s|] eqn:Hs; [tx_inv; by apply evolves_same|].
  match goal with b : bool |- _ => destruct b end; tx_inv; [by apply evolves_same|].
  rename select (insert_stop _ _ = _) into Hi. unfold insert_stop in Hi. tx_inv.
  repeat match goal with H : constraint _ _ _ = _ |- _ => apply constraint_ok in H as [? ->] end.
  split; cbn; [done| | |done|done].
  - intros c' row Hr _. exists row. split; [|auto]. rewrite lookup_insert_ne; [done|]. congruence.
  - intros p w Hw. exists w. split; [done|apply wake_le_refl].
Qed.

Lemma acknowledge_stop_evolves n t c u db db' : acknowledge_stop_body n t c db = Ok (u, db') →
  evolves (CallAcknowledgeStop n t c) db db'.
Proof.
  unfold acknowledge_stop_body. intros HT. tx_inv. destruct (node_of_task t db); tx_inv; [|by apply evolves_same].
  destruct (decide (k_task <$> commands db !! c = Some t)); [|by apply evolves_same]. split; cbn; [done| | |done|done].
  - intros c' row Hr _. destruct (decide (c = c')) as [<-|Hne].
    + rewrite lookup_alter_eq, Hr. eexists. split_and!; [done..|]. right. by eexists n, t.
    + rewrite lookup_alter_ne by done. eauto 10.
  - intros p w Hw. exists w. split; [done|apply wake_le_refl].
Qed.

Lemma attempt_evolves {A} call ch (m : CTx A) db :
  (∀ a db', m db = Ok (a, db') → evolves call db db') → evolves call db (attempt ch m db).2.
Proof.
  intros Hm. unfold attempt. destruct (control_failure ch); [by apply evolves_same|].
  unfold commit. destruct (m db) as [[a db']|] eqn:E; [by eapply Hm|by apply evolves_same].
Qed.

Lemma run_call_evolves ch call db J : represents db J → typed_call call = true → evolves call db (run_call ch call db).
Proof.
  intros HR Hty. destruct call; cbn [run_call]; [..|by apply evolves_same]; apply attempt_evolves; intros x db' HT.
  - apply (insert_task_ok _ _ _ _ J HR) in HT as (_ & _ & HO & HW). by apply tables_evolve.
  - unfold open_body in HT. tx_inv. destruct (tasks db !! task_id task).
    + destruct (same_binding _ _ _); tx_inv. by apply evolves_same.
    + tx_inv. match goal with H : match available with _ => _ end _ = _ |- _ => destruct available; tx_inv end.
      rename select (insert_task _ _ = _) into Hi. apply (insert_task_ok _ _ _ _ J HR) in Hi as (_ & _ & HO & HW).
      by apply tables_evolve.
  - apply (admit_command_sound _ _ _ _ _ _ _ _ _ _ J HR Hty) in HT as (T & HJ & Hp & HA).
    destruct x; [|by destruct HA as (_ & _ & HS); eapply submits_evolves|]; destruct HA as (_ & -> & _); by apply evolves_same.
  - by eapply publish_evolves.
  - by eapply stop_evolves.
  - unfold acknowledge_execution_body in HT. tx_inv. split; cbn; [|eauto 10| |done|].
    + intros c' s Hc Hn _. rewrite lookup_delete_ne; [done|]. intros <-. by apply (Hn n t).
    + intros p w Hw. exists w. split; [done|apply wake_le_refl].
    + intros c' _ Hc. apply lookup_delete_None. by right.
  - by eapply acknowledge_stop_evolves.
  - by eapply delete_evolves.
  - by eapply message_evolves.
  - by eapply wake_evolves.
  - by eapply settle_evolves.
  - unfold enroll_node_body in HT. tx_inv.
    match goal with H : identity_tx _ _ = _ |- _ => apply identity_tx_ok in H as (i & _ & ->) end.
    match goal with H : match node_owner n db with _ => _ end _ = _ |- _ =>
      destruct (node_owner n db) eqn:Hn; tx_inv; [by apply evolves_same|] end.
    unfold node_owner in Hn. split; cbn; [done|eauto 10| | |done].
    + intros p w Hw. exists w. split; [done|apply wake_le_refl].
    + intros n' p Hp. rewrite lookup_insert_ne; [done|congruence].
  - unfold put_notice_body in HT. tx_inv.
    match goal with H : identity_tx _ _ = Ok (?b, _) |- _ => apply identity_tx_ok in H as (i & _ & ->); destruct b end; tx_inv;
      [|by apply evolves_same].
    match goal with H : record _ _ _ = _ |- _ => unfold record in H end. tx_inv. split; cbn; [done|eauto 10| |done|done].
    intros p' w Hw. by apply recorded_later.
  - unfold withdraw_notices_body in HT. apply identity_tx_ok in HT as (i & _ & ->). by apply evolves_same.
Qed.

(** ** Over lifetimes *)
(** A call that acknowledges the delivery, or the stop, of a command for a
    node, and does not fail on the way to the store. *)
Definition acknowledges (calls : list (ControlChoice * Call)) (n : NodeId) t c : Prop :=
  ∃ ch, (ch, CallAcknowledge n t c) ∈ calls ∧ control_failure ch = None.
Definition acknowledges_stop (calls : list (ControlChoice * Call)) (n : NodeId) t c : Prop :=
  ∃ ch, (ch, CallAcknowledgeStop n t c) ∈ calls ∧ control_failure ch = None.
Definition settles (calls : list (ControlChoice * Call)) (p : PrincipalId) (g : Z) : Prop :=
  ∃ ch g', (ch, CallSettle p g') ∈ calls ∧ g ≤ g'.

Lemma spared_in cc (calls : list (ControlChoice * Call)) db J t T c : represents db J → J !! t = Some T → submitted (j_log T) c →
  cc ∈ calls → (¬ ∃ cc, cc ∈ calls ∧ deletes cc.2 t) → spared_command cc.2 db c.
Proof.
  intros HR HJ Hc Hin Hsp. destruct (submitted_row _ _ _ _ _ (rp_commands _ _ HR) HJ Hc) as (row & Hr & Hk).
  destruct cc as [ch call]. cbn. destruct call; try done. cbn. rewrite Hr. cbn. rewrite Hk. intros [= ->].
  apply Hsp. eexists. by split.
Qed.

(** Only the node of its task acknowledges a command. *)
Lemma acknowledge_run n t' c db J t T : represents db J → J !! t = Some T → submitted (j_log T) c →
  (n = j_node T ∧ t' = t ∧
   acknowledge_execution_body n t' c db = Ok (tt, with_pending (delete c (pending_executions db)) db)) ∨
  ((n ≠ j_node T ∨ t' ≠ t) ∧ ∃ e, acknowledge_execution_body n t' c db = Err e).
Proof.
  intros HR HJ Hc. destruct (submitted_row _ _ _ _ _ (rp_commands _ _ HR) HJ Hc) as (row & Hr & Hk).
  destruct (journal_lookup _ _ _ _ (rp_journal _ _ HR) HJ) as (trow & Ht & Hf).
  assert (node_of_task t db = Some (j_node T)) as Hn.
  { unfold node_of_task. rewrite Ht. cbn. by rewrite (tf_node _ _ _ _ Hf). }
  unfold acknowledge_execution_body. destruct (decide (t' = t)) as [->|Hne].
  - erewrite txn_run.
    2: { apply txn_read_run. rewrite Hr. cbn. by rewrite decide_True, Hn. }
    destruct (decide (n = j_node T)) as [->|Hnn].
    + left. split_and!; [done..|]. by erewrite txn_run; [|apply txn_guard_run, bool_decide_true].
    + right. split; [by left|]. eexists. unfold mbind, Tx_bind, guard. rewrite bool_decide_false by congruence. done.
  - right. split; [by right|]. eexists. apply txn_run_err. unfold read, lift. rewrite Hr. cbn.
    rewrite decide_False by congruence. done.
Qed.

Lemma acknowledge_stop_run n t' c db J t T : represents db J → J !! t = Some T → submitted (j_log T) c →
  (n = j_node T ∧ t' = t ∧ acknowledge_stop_body n t' c db =
     Ok (tt, with_stops (alter (λ s, MkStopRow (stop_rowid s) true) c (stop_requests db)) db)) ∨
  ((n ≠ j_node T ∨ t' ≠ t) ∧
   (acknowledge_stop_body n t' c db = Ok (tt, db) ∨ ∃ e, acknowledge_stop_body n t' c db = Err e)).
Proof.
  intros HR HJ Hc. destruct (submitted_row _ _ _ _ _ (rp_commands _ _ HR) HJ Hc) as (row & Hr & Hk).
  destruct (journal_lookup _ _ _ _ (rp_journal _ _ HR) HJ) as (trow & Ht & Hf).
  assert (node_of_task t db = Some (j_node T)) as Hn.
  { unfold node_of_task. rewrite Ht. cbn. by rewrite (tf_node _ _ _ _ Hf). }
  unfold acknowledge_stop_body. erewrite txn_run; [|done].
  destruct (decide (t' = t)) as [->|Hne].
  - rewrite Hn. destruct (decide (n = j_node T)) as [->|Hnn].
    + left. split_and!; [done..|]. erewrite txn_run; [|by apply txn_guard_run, bool_decide_true].
      unfold write. rewrite decide_True; [done|]. rewrite Hr. cbn. by rewrite Hk.
    + right. split; [by left|]. right. eexists. unfold mbind, Tx_bind, guard. rewrite bool_decide_false by congruence. done.
  - right. split; [by right|]. destruct (node_of_task t' db) as [owner|]; [|by left].
    destruct (decide (owner = n)) as [->|Hno].
    + left. erewrite txn_run; [|by apply txn_guard_run, bool_decide_true].
      unfold write. rewrite decide_False; [done|]. rewrite Hr. cbn. congruence.
    + right. eexists. unfold mbind, Tx_bind, guard. rewrite bool_decide_false by congruence. done.
Qed.

(** One call, seen from a command of a task it does not delete: the delivery
    and the stop go away with their acknowledgement and with nothing else, and
    do not come back. *)
Lemma run_call_rows ch call db J t T c : represents db J → typed_call call = true → J !! t = Some T →
  submitted (j_log T) c → spared_command call db c →
  (is_Some (pending_executions (run_call ch call db) !! c) ↔
     is_Some (pending_executions db !! c) ∧ ¬ (call = CallAcknowledge (j_node T) t c ∧ control_failure ch = None)) ∧
  (∀ row, stop_requests db !! c = Some row → ∃ row', stop_requests (run_call ch call db) !! c = Some row' ∧
     (stop_delivered row' = true ↔
        stop_delivered row = true ∨ call = CallAcknowledgeStop (j_node T) t c ∧ control_failure ch = None)).
Proof.
  intros HR Hty HJ Hc Hsp. pose proof (run_call_evolves ch call db J HR Hty) as HV.
  destruct (submitted_row _ _ _ _ _ (rp_commands _ _ HR) HJ Hc) as (krow & Hk & _). split.
  - assert ((∀ n t', call ≠ CallAcknowledge n t' c) ∨ ∃ n t', call = CallAcknowledge n t' c) as [Hn|(n & t' & ->)].
    { destruct call; try (left; done). destruct (decide (c0 = c)) as [->|]; [by right; eexists _, _|left; congruence]. }
    + split.
      * intros Hs. split; [|by intros [-> _]; by eapply Hn]. destruct (pending_executions db !! c) eqn:E; [done|].
        rewrite (ev_absent _ _ _ HV c) in Hs by (by rewrite ?Hk). by destruct Hs.
      * intros [[s Hs] _]. exists s. by apply (ev_pending _ _ _ HV).
    + cbn [run_call] in *. unfold attempt. destruct (control_failure ch) as [e|]; [naive_solver|]. unfold commit.
      destruct (acknowledge_run n t' c db J t T HR HJ Hc) as [(-> & -> & ->)|[Hne [e ->]]]; cbn.
      * rewrite lookup_delete_eq. split; [by intros []|]. intros [_ []]. done.
      * split; [|by intros []]. intros Hs. split; [done|]. intros [[= -> ->] _]. naive_solver.
  - intros row Hr. assert ((∀ n t', call ≠ CallAcknowledgeStop n t' c) ∨ ∃ n t', call = CallAcknowledgeStop n t' c)
      as [Hn|(n & t' & ->)].
    { destruct call; try (left; done). destruct (decide (c0 = c)) as [->|]; [by right; eexists _, _|left; congruence]. }
    + destruct (ev_stops _ _ _ HV c row Hr Hsp) as (row' & Hr' & D1 & D2). exists row'. split; [done|]. split.
      * intros [?|(n & t' & ->)]%D2; [by left|]. by edestruct Hn.
      * intros [?|[-> _]]; [auto|]. by edestruct Hn.
    + cbn [run_call] in *. unfold attempt. destruct (control_failure ch) as [e|]; [naive_solver|]. unfold commit.
      destruct (acknowledge_stop_run n t' c db J t T HR HJ Hc) as [(-> & -> & ->)|[Hne [->|[e ->]]]]; cbn.
      * rewrite lookup_alter_eq, Hr. eexists. split; [done|]. cbn. naive_solver.
      * exists row. split; [done|]. naive_solver.
      * exists row. split; [done|]. naive_solver.
Qed.

Lemma lifetime_rows calls : ∀ db J t T c, represents db J → J !! t = Some T → submitted (j_log T) c →
  forallb (λ cc, typed_call cc.2) calls = true → (¬ ∃ cc, cc ∈ calls ∧ deletes cc.2 t) →
  (is_Some (pending_executions (lifetime calls db) !! c) ↔
     is_Some (pending_executions db !! c) ∧ ¬ acknowledges calls (j_node T) t c) ∧
  (∀ row, stop_requests db !! c = Some row → ∃ row', stop_requests (lifetime calls db) !! c = Some row' ∧
     (stop_delivered row' = true ↔ stop_delivered row = true ∨ acknowledges_stop calls (j_node T) t c)).
Proof.
  unfold acknowledges, acknowledges_stop.
  induction calls as [|[ch call] calls IH]; intros db J t T c HR HJ Hc Hty Hsp.
  { cbn. split.
    - split; [intros ?; split; [done|]; by intros (? & ?%elem_of_nil & _)|by intros [? _]].
    - intros row Hr. exists row. split; [done|]. split; [by left|]. by intros [?|(? & ?%elem_of_nil & _)]. }
  cbn in Hty. split_bools. cbn [lifetime foldl fst snd]. fold (lifetime calls).
  pose proof (spared_in (ch, call) _ db J t T c HR HJ Hc ltac:(left) Hsp) as Hd. cbn in Hd.
  destruct (run_call_rows ch call db J t T c) as [HP HS]; [done..|].
  destruct (run_call_moves ch call db J HR) as (J1 & HS1 & HR1); [done|].
  destruct (journal_steps_grow _ _ _ t T HS1) as (T1 & HJ1 & [Hb [ks Hk]]); [|done|].
  { intros Hdel. apply Hsp. exists (ch, call). split; [left|done]. }
  assert (j_node T1 = j_node T) as Hnode by (by injection Hb).
  destruct (IH _ J1 t T1 c HR1 HJ1) as [IH1 IH2]; [rewrite Hk; by apply submitted_app_l|done| |].
  { intros (cc & Hin & ?). apply Hsp. exists cc. split; [by right|done]. }
  rewrite Hnode in IH1, IH2. setoid_rewrite elem_of_cons. split.
  - rewrite IH1, HP. clear. naive_solver.
  - intros row Hr. destruct (HS row Hr) as (r1 & Hr1 & D1), (IH2 r1 Hr1) as (r2 & Hr2 & D2).
    exists r2. split; [done|]. rewrite D2, D1. clear. naive_solver.
Qed.

Lemma lifetime_wakes calls : ∀ db J p w g, represents db J → forallb (λ cc, typed_call cc.2) calls = true →
  ¬ settles calls p g → push_wakes db !! p = Some w → settled_at w < g ≤ generation w →
  ∃ w', push_wakes (lifetime calls db) !! p = Some w' ∧ settled_at w' < g ≤ generation w'.
Proof.
  induction calls as [|[ch call] calls IH]; intros db J p w g HR Hty Hns Hw Hg; [by exists w|].
  cbn in Hty. split_bools. cbn [lifetime foldl fst snd]. fold (lifetime calls).
  destruct (run_call_evolves ch call db J HR) as [_ _ HW _ _]; [done|].
  destruct (run_call_moves ch call db J HR) as (J1 & _ & HR1); [done|].
  destruct (HW p w Hw) as (w1 & Hw1 & Hgen & Hset).
  eapply (IH _ J1 p w1 g HR1); [done| |done|].
  - intros (ch' & g' & Hin & Hle). apply Hns. exists ch', g'. split; [by right|done].
  - destruct Hset as [->|(g' & -> & Hg' & ->)]; [lia|]. exfalso. apply Hns. exists ch, g'. split; [left|lia].
Qed.

Lemma lifetime_owners calls : ∀ db J n p, represents db J → forallb (λ cc, typed_call cc.2) calls = true →
  node_owners db !! n = Some p → node_owners (lifetime calls db) !! n = Some p.
Proof.
  induction calls as [|[ch call] calls IH]; intros db J n p HR Hty Hn; [done|].
  cbn in Hty. split_bools. cbn [lifetime foldl fst snd]. fold (lifetime calls).
  destruct (run_call_moves ch call db J HR) as (J1 & _ & HR1); [done|].
  eapply (IH _ J1); [done..|]. by apply (run_call_evolves ch call db J HR).
Qed.

(** ** What a connecting node is sent *)
Lemma elem_of_join {V} n (m : gmap CommandId V) db c row v :
  (c, row, v) ∈ join_commands n m db ↔
  m !! c = Some v ∧ commands db !! c = Some row ∧ node_of_task (k_task row) db = Some n.
Proof.
  unfold join_commands. rewrite list_elem_of_omap. split.
  - intros ([c' v'] & Hin & Hk). apply elem_of_map_to_list in Hin. cbn in Hk.
    destruct (commands db !! c') as [row'|] eqn:Hr; cbn in Hk; [|done]. case_decide; [|done]. by simplify_eq.
  - intros (Hm & Hr & Hn). exists (c, v). split; [by apply elem_of_map_to_list|]. cbn. rewrite Hr. cbn.
    by rewrite decide_True.
Qed.

Lemma node_of_task_log db J t : journal_rep db J → node_of_task t db = j_node <$> J !! t.
Proof.
  intros HR. unfold node_of_task. pose proof (jr_tasks _ _ HR t) as Hf.
  destruct Hf as [row T HT|]; cbn; [|done]. by rewrite (tf_node _ _ _ _ HT).
Qed.

Lemma collect_elems {E A B} (f : A → Result E B) l : (∀ a, a ∈ l → ∃ b, f a = Ok b) →
  ∃ bs, collect f l = Ok bs ∧ ∀ b, b ∈ bs ↔ ∃ a, a ∈ l ∧ f a = Ok b.
Proof.
  induction l as [|a l IH]; intros Hf.
  { exists []. split; [done|]. intros b. rewrite elem_of_nil. split; [done|]. by intros (? & ?%elem_of_nil & _). }
  destruct (Hf a ltac:(left)) as [b Hb]. destruct IH as (bs & Hbs & HE); [intros a' ?; apply Hf; by right|].
  exists (b :: bs). cbn. rewrite Hb. cbn. rewrite Hbs. split; [done|]. intros b'. rewrite elem_of_cons, HE. split.
  - intros [->|(a' & Hin & Hb')]; [exists a; by split; [left|]|exists a'; by split; [right|]].
  - intros (a' & [->|Hin]%elem_of_cons & Hb'); [left; congruence|right; eauto].
Qed.

Lemma pending_executions_log n db J : represents db J →
  ∃ l, load_pending_executions n db = Ok l ∧
    ∀ pe, pe ∈ l ↔ ∃ T, J !! pe_task pe = Some T ∧ j_node T = n ∧ CommandSubmitted (pe_command pe) ∈ j_log T ∧
      is_pending db (command_id (pe_command pe)) = true.
Proof.
  intros HR. unfold load_pending_executions.
  destruct (collect_elems
    (λ r : CommandId * CommandRow * Z, command ← decode (A := CommandEnvelope) (k_json r.1.2);
       Ok (MkPendingExecution (k_task r.1.2) command))
    (merge_sort (le_by_task (λ r, (k_task r.1.2, r.2))) (join_commands n (pending_executions db) db))) as (l & Hl & HE).
  { intros [[c row] s] Hin. rewrite merge_sort_Permutation, elem_of_join in Hin. destruct Hin as (_ & Hr & _).
    destruct (stored_envelope _ _ _ _ HR Hr) as (T & env & _ & _ & _ & _ & Hd & _).
    exists (MkPendingExecution (k_task row) env). cbn. by rewrite (proj2 (control_decode_ok _ _) Hd). }
  exists l. split; [done|]. intros pe. rewrite HE. split.
  - intros ([[c row] s] & Hin & Hp). rewrite merge_sort_Permutation, elem_of_join in Hin. destruct Hin as (Hs & Hr & Hn).
    destruct (stored_envelope _ _ _ _ HR Hr) as (T & env & HT & Hin & Hc & _ & Hd & _).
    cbn in Hp. rewrite (proj2 (control_decode_ok _ _) Hd) in Hp. injection Hp as <-. cbn.
    rewrite (node_of_task_log _ _ _ (rp_journal _ _ HR)), HT in Hn. injection Hn as Hn.
    exists T. split_and!; [done..|]. rewrite Hc. unfold is_pending. rewrite Hs. done.
  - intros (T & HT & Hn & Hin & Hp). destruct pe as [t env]. cbn in *.
    destruct (submitted_stored _ _ _ _ _ HR HT Hin) as (row & Hr & Hk & _ & Hd).
    unfold is_pending in Hp. split_bools. destruct Hp as [s Hs]. exists (command_id env, row, s). split.
    + rewrite merge_sort_Permutation. apply elem_of_join. split_and!; [done..|].
      rewrite (node_of_task_log _ _ _ (rp_journal _ _ HR)), Hk, HT. cbn. congruence.
    + cbn. rewrite (proj2 (control_decode_ok _ _) Hd). cbn. by rewrite Hk.
Qed.

Lemma pending_stops_log n db J ps : represents db J →
  ps ∈ load_pending_stops n db ↔
  ∃ T row, J !! ps_task ps = Some T ∧ j_node T = n ∧ submitted (j_log T) (ps_command ps) ∧
    stop_requests db !! ps_command ps = Some row ∧ stop_delivered row = false.
Proof.
  intros HR. unfold load_pending_stops. rewrite list_elem_of_fmap. split.
  - intros ([[c row] s] & -> & Hin). rewrite merge_sort_Permutation in Hin.
    apply list_elem_of_In, filter_In in Hin as [Hin%list_elem_of_In Hb]. apply elem_of_join in Hin as (Hs & Hr & Hn).
    destruct (row_submitted _ _ _ _ (rp_commands _ _ HR) Hr) as (T & HT & Hc). cbn in *. split_bools.
    rewrite (node_of_task_log _ _ _ (rp_journal _ _ HR)), HT in Hn. injection Hn as Hn. eauto 10.
  - intros (T & s & HT & Hn & Hc & Hs & Hd). destruct ps as [t c]. cbn in *.
    destruct (submitted_row _ _ _ _ _ (rp_commands _ _ HR) HT Hc) as (row & Hr & Hk).
    exists (c, row, s). split; [cbn; by rewrite Hk|]. rewrite merge_sort_Permutation.
    apply list_elem_of_In, filter_In. rewrite <- list_elem_of_In, elem_of_join. cbn. rewrite Hd. split_and!; try done.
    rewrite (node_of_task_log _ _ _ (rp_journal _ _ HR)), Hk, HT. cbn. congruence.
Qed.
End delivery.

(** ** What a call adds to what nodes are owed *)
Section due.
Context `{CS : ControlSerde} `{LT : LibraryTexts} `{DG : Digest} `{!ControlSerdeLaws}.
Implicit Types (db : ControlDb) (ch : ControlChoice) (J : Journals) (T : Journal) (t : TaskId) (c : CommandId) (n : NodeId).

Definition due db n (pe : PendingExecution) : Prop := ∃ l, load_pending_executions n db = Ok l ∧ pe ∈ l.

Lemma due_log n db J pe : represents db J →
  due db n pe ↔ ∃ T, J !! pe_task pe = Some T ∧ j_node T = n ∧ CommandSubmitted (pe_command pe) ∈ j_log T ∧
    is_pending db (command_id (pe_command pe)) = true.
Proof.
  intros HR. destruct (pending_executions_log n db J HR) as (l & Hl & HE). rewrite <- HE. unfold due. split; [|by eauto].
  intros (l' & Hl' & Hin). rewrite Hl in Hl'. by injection Hl' as <-.
Qed.

(** A record of a task's journal. *)
Definition recorded db t (s : Z) (k : TaskEventKind) : Prop :=
  ∃ id r, task_events db !! id = Some r ∧ v_task r = t ∧ v_sequence r = s ∧ decode (v_kind_json r) = Ok k.

Lemma recorded_log db J t s k : represents db J →
  recorded db t s k ↔ ∃ T, J !! t = Some T ∧ 0 ≤ s ∧ j_log T !! Z.to_nat s = Some k.
Proof.
  intros HR. assert (∀ T id r, J !! v_task r = Some T → task_events db !! id = Some r →
    ∃ k, j_log T !! Z.to_nat (v_sequence r) = Some k ∧ decode (v_kind_json r) = Ok k) as Hrow.
  { intros T id r HJ Hr. destruct (journal_lookup _ _ _ _ (rp_journal _ _ HR) HJ) as (row & _ & Hf).
    destruct (tf_rows _ _ _ _ Hf _ _ Hr eq_refl) as (k' & Hk & Hj & _). exists k'. split; [done|].
    apply control_decode_ok, kind_read_back; [done|]. apply (tf_ok _ _ _ _ Hf). by eapply list_elem_of_lookup_2. }
  split.
  - intros (id & r & Hr & <- & <- & Hd). destruct (jr_events _ _ (rp_journal _ _ HR) _ _ Hr) as [T HJ]. exists T.
    destruct (Hrow _ _ _ HJ Hr) as (k' & Hk & Hd'). rewrite Hd' in Hd. injection Hd as ->. split_and!; [done| |done].
    destruct (journal_lookup _ _ _ _ (rp_journal _ _ HR) HJ) as (row & _ & Hf).
    destruct (gapless_bounds _ _ _ _ _ _ (tf_gapless _ _ _ _ Hf) Hr eq_refl). lia.
  - intros (T & HJ & Hs & Hk). destruct (journal_lookup _ _ _ _ (rp_journal _ _ HR) HJ) as (row & _ & Hf).
    destruct (proj1 (proj2 (tf_gapless _ _ _ _ Hf) s)) as (id & r & Hr & Ht & <-); [apply lookup_lt_Some in Hk; lia|]. subst t.
    destruct (Hrow _ _ _ HJ Hr) as (k' & Hk' & Hd). exists id, r. split_and!; try done. congruence.
Qed.

(** The records of published events. *)
Definition records_of (evs : list TaskEvent) t (s : Z) (k : TaskEventKind) : Prop :=
  ∃ e, e ∈ evs ∧ te_task_id e = t ∧ te_sequence e = s ∧ te_kind e = k.

Definition nothing {A} (n : NodeId) (a : A) : Prop := False.
Definition only {A} n (a : A) (n' : NodeId) (a' : A) : Prop := n' = n ∧ a' = a.

(** What a transaction adds: deliveries [E], stops [S] and the records of [evs]. *)
Record owes (E : NodeId → PendingExecution → Prop) (S : NodeId → PendingStop → Prop) (evs : list TaskEvent) db db' : Prop := {
  ow_due : ∀ n pe, due db' n pe → due db n pe ∨ E n pe;
  ow_stops : ∀ n ps, ps ∈ load_pending_stops n db' → ps ∈ load_pending_stops n db ∨ S n ps;
  ow_records : ∀ t s k, recorded db' t s k → recorded db t s k ∨ records_of evs t s k;
}.

Lemma owes_by E S evs db db' J J' : represents db J → represents db' J' →
  (∀ t T' env, J' !! t = Some T' → CommandSubmitted env ∈ j_log T' → is_pending db' (command_id env) = true →
     (∃ T, J !! t = Some T ∧ j_node T = j_node T' ∧ CommandSubmitted env ∈ j_log T ∧ is_pending db (command_id env) = true) ∨
     E (j_node T') (MkPendingExecution t env)) →
  (∀ t T' c row', J' !! t = Some T' → submitted (j_log T') c → stop_requests db' !! c = Some row' → stop_delivered row' = false →
     (∃ T row, J !! t = Some T ∧ j_node T = j_node T' ∧ submitted (j_log T) c ∧ stop_requests db !! c = Some row ∧
        stop_delivered row = false) ∨ S (j_node T') (MkPendingStop t c)) →
  (∀ t T' i k, J' !! t = Some T' → j_log T' !! i = Some k →
     (∃ T, J !! t = Some T ∧ j_log T !! i = Some k) ∨ records_of evs t (Z.of_nat i) k) →
  owes E S evs db db'.
Proof.
  intros HR HR' HE HS HV. split.
  - intros n [t env]. rewrite !(due_log n _ _ _ HR), (due_log n _ _ _ HR'). cbn. intros (T' & HT' & <- & Hin & Hp).
    destruct (HE _ _ _ HT' Hin Hp) as [(T & ? & ? & ? & ?)|?]; eauto 10.
  - intros n [t c]. rewrite !(pending_stops_log n _ _ _ HR), (pending_stops_log n _ _ _ HR'). cbn.
    intros (T' & row & HT' & <- & Hc & Hr & Hd). destruct (HS _ _ _ _ HT' Hc Hr Hd) as [(T & row0 & ? & ? & ? & ? & ?)|?]; eauto 10.
  - intros t s k. rewrite !(recorded_log _ _ _ _ _ HR), (recorded_log _ _ _ _ _ HR'). intros (T' & HT' & Hs & Hk).
    destruct (HV _ _ _ _ HT' Hk) as [(T & ? & ?)|?]; [eauto 10|]. right. by rewrite Z2Nat.id in *.
Qed.

Lemma owes_refl db : owes nothing nothing [] db db.
Proof. split; auto. Qed.

Lemma records_of_app evs1 evs2 t s k : records_of (evs1 ++ evs2) t s k ↔ records_of evs1 t s k ∨ records_of evs2 t s k.
Proof. unfold records_of. setoid_rewrite elem_of_app. naive_solver. Qed.

Lemma owes_trans E S evs1 evs2 db1 db2 db3 : owes nothing nothing evs1 db1 db2 → owes E S evs2 db2 db3 →
  owes E S (evs1 ++ evs2) db1 db3.
Proof.
  intros [H1 H2 H3] [H4 H5 H6]. split.
  - intros n pe [Hd|?]%H4; [|auto]. destruct (H1 _ _ Hd) as [|[]]; auto.
  - intros n ps [Hd|?]%H5; [|auto]. destruct (H2 _ _ Hd) as [|[]]; auto.
  - intros t s k. rewrite records_of_app. intros [Hd|?]%H6; [|auto]. destruct (H3 _ _ _ Hd); auto.
Qed.

(** Nothing new in the journals, and fewer rows beside them. *)
Lemma owes_fewer db db' J : represents db J → represents db' J →
  (∀ c s, pending_executions db' !! c = Some s → is_Some (pending_executions db !! c)) →
  (∀ c row', stop_requests db' !! c = Some row' → stop_delivered row' = false →
     ∃ row, stop_requests db !! c = Some row ∧ stop_delivered row = false) →
  owes nothing nothing [] db db'.
Proof.
  intros HR HR' Hp Hs. eapply owes_by; [exact HR|exact HR'|..].
  - intros t T env HT Hin Hpe. left. exists T. unfold is_pending in *. split_bools. split_and!; [done..|].
    apply bool_decide_true. destruct Hpe as [? ?]. eauto.
  - intros t T c row' HT Hc Hr Hd. left. destruct (Hs _ _ Hr Hd) as (row & ? & ?). eauto 10.
  - eauto.
Qed.

Lemma submits_owes t env db J T ev db' : represents db J → J !! t = Some T → submits t env db J T ev db' →
  owes (only (j_node T) (MkPendingExecution t env)) nothing [ev] db db'.
Proof.
  intros HR HT [HR' _ Hnew He Hp Ho]. injection Ho as _ O2 _ _ _.
  assert (∀ t' T', J !! t' = Some T' → ¬ submitted (j_log T') (command_id env)) as Hns.
  { intros t' T' HT' Hs. destruct (submitted_row _ _ _ _ _ (rp_commands _ _ HR) HT' Hs) as (? & ? & _). congruence. }
  assert (∀ t' T' env', J !! t' = Some T' → CommandSubmitted env' ∈ j_log T' → is_pending db' (command_id env') = true →
    is_pending db (command_id env') = true) as Hold.
  { intros t' T' env' HT' Hin. unfold is_pending. rewrite Hp, lookup_insert_ne; [done|].
    intros E. apply (Hns _ _ HT'). rewrite E. by exists env'. }
  eapply owes_by; [exact HR|exact HR'|..].
  - intros t' T' env' HT' Hin Hpe. destruct (decide (t = t')) as [<-|Hne].
    + rewrite lookup_insert_eq in HT'. injection HT' as <-. cbn in Hin. apply elem_of_app in Hin as [Hin|Hin].
      * left. exists T. eauto 10.
      * apply list_elem_of_singleton in Hin. injection Hin as ->. by right.
    + rewrite lookup_insert_ne in HT' by done. left. exists T'. eauto 10.
  - intros t' T' c row HT' Hc Hr Hd. rewrite O2 in Hr. destruct (decide (t = t')) as [<-|Hne].
    + rewrite lookup_insert_eq in HT'. injection HT' as <-. left. exists T, row. split_and!; try done.
      destruct Hc as (env' & [Hin|Hin]%elem_of_app & <-); [by exists env'|].
      apply list_elem_of_singleton in Hin. injection Hin as ->. destruct (rp_stops _ _ HR _ _ Hr). congruence.
    + rewrite lookup_insert_ne in HT' by done. left. eauto 10.
  - intros t' T' i k [[<- <-]|[_ HT']]%lookup_insert_Some Hk; [|eauto]. cbn in Hk.
    apply lookup_app_Some in Hk as [Hk|[Hge Hk]]; [eauto|right]. destruct He as (<- & Hs & Hkind).
    apply list_lookup_singleton_Some in Hk as [Hi <-]. exists ev. split_and!; [by left|done|lia|done].
Qed.

Lemma executes_owes t c es db J T new adm db' : represents db J → J !! t = Some T → executes t c es db J T new adm db' →
  owes nothing nothing (admitted_events adm) db db'.
Proof.
  intros HR HT HE. pose proof (ex_other _ _ _ _ _ _ _ _ _ HE) as Ho. injection Ho as _ O2 O3 _ _.
  assert (∀ env, CommandSubmitted env ∈ j_log T ++ (ExecutionRecord c <$> new) → CommandSubmitted env ∈ j_log T) as Hin'.
  { intros env [?|(? & ? & _)%list_elem_of_fmap]%elem_of_app; [done|congruence]. }
  eapply owes_by; [exact HR|apply HE|..].
  - intros t' T' env' HT' Hin Hpe. unfold is_pending in *. rewrite O2 in Hpe. left. destruct (decide (t = t')) as [<-|Hne].
    + rewrite lookup_insert_eq in HT'. injection HT' as <-. exists T. split_and!; auto.
    + rewrite lookup_insert_ne in HT' by done. eauto 10.
  - intros t' T' c' row HT' Hc Hr Hd. rewrite O3 in Hr. left. destruct (decide (t = t')) as [<-|Hne].
    + rewrite lookup_insert_eq in HT'. injection HT' as <-. exists T, row. split_and!; try done.
      destruct Hc as (env' & Hin & <-). exists env'. auto.
    + rewrite lookup_insert_ne in HT' by done. eauto 10.
  - intros t' T' i k [[<- <-]|[_ HT']]%lookup_insert_Some Hk; [|eauto]. cbn in Hk.
    apply lookup_app_Some in Hk as [Hk|[Hge Hk]]; [eauto|right].
    destruct (ex_events _ _ _ _ _ _ _ _ _ HE) as (Hks & Hts & Hseq). rewrite <- Hks in Hk.
    apply list_lookup_fmap_Some in Hk as (e & -> & He). exists e. split_and!; [by eapply list_elem_of_lookup_2| | |done].
    + by eapply Forall_lookup_1 in Hts.
    + assert ((te_sequence <$> admitted_events adm) !! (i - length (j_log T))%nat = Some (te_sequence e)) as Hq
        by (by rewrite list_lookup_fmap, He).
      rewrite Hseq in Hq. apply lookup_seqZ in Hq as [-> _]. lia.
Qed.

(** A task that is opened has no commands. *)
Lemma opened_owes db db' J t T : represents db J → represents db' (<[t := T]> J) → j_log T = [] →
  other_tables db' = other_tables db → owes nothing nothing [] db db'.
Proof.
  intros HR HR' Hl Ho. unfold other_tables in Ho. simplify_eq. rename select (pending_executions db' = _) into Hp.
  rename select (stop_requests db' = _) into Hs. eapply owes_by; [exact HR|exact HR'|..].
  - intros t' T' env [[<- <-]|[_ HT']]%lookup_insert_Some Hin Hpe; [rewrite Hl in Hin; by apply elem_of_nil in Hin|].
    left. unfold is_pending in *. rewrite Hp in Hpe. eauto 10.
  - intros t' T' c row [[<- <-]|[_ HT']]%lookup_insert_Some Hc Hr Hd;
      [destruct Hc as (? & Hin & _); rewrite Hl in Hin; by apply elem_of_nil in Hin|]. left. rewrite Hs in Hr. eauto 10.
  - intros t' T' i k [[<- <-]|[_ HT']]%lookup_insert_Some Hk; [by rewrite Hl in Hk|eauto].
Qed.

Lemma insert_task_owes task db u db' J : represents db J → insert_task task db = Ok (u, db') → owes nothing nothing [] db db'.
Proof. intros HR HT. apply (insert_task_ok _ _ _ _ J HR) in HT as (HJ & HR' & O & _). by eapply opened_owes. Qed.

Lemma open_owes task a o db db' J : represents db J → open_body task a db = Ok (o, db') → owes nothing nothing [] db db'.
Proof.
  unfold open_body. intros HR HT. tx_inv. destruct (tasks db !! task_id task).
  - destruct (same_binding _ _ _); tx_inv. apply owes_refl.
  - tx_inv. match goal with H : match a with _ => _ end _ = _ |- _ => destruct a; tx_inv end. by eapply insert_task_owes.
Qed.

Lemma delete_owes p t o db db' J : represents db J → delete_body p t db = Ok (o, db') → owes nothing nothing [] db db'.
Proof.
  intros HR HT. unfold delete_body in HT. tx_inv. destruct (tasks db !! t) as [row|]; cbn in *; tx_inv; [|apply owes_refl].
  rename select (remove t _ = _) into Hrm. destruct (remove_run t db) as (n & E). rewrite E in Hrm. injection Hrm as <- <-.
  assert (∀ {V} (m : gmap CommandId V) c v, filter (λ kv, negb (of_task db t kv.1)) m !! c = Some v → m !! c = Some v) as Hk.
  { intros V m c v [? _]%map_lookup_filter_Some. done. }
  eapply owes_by; [exact HR|by apply represents_delete|..].
  - intros t' T' env [_ HT']%lookup_delete_Some Hin Hpe. left. exists T'. split_and!; try done.
    unfold is_pending in *. split_bools. destruct Hpe as [s Hs]. apply Hk in Hs. apply bool_decide_true. eauto.
  - intros t' T' c r [_ HT']%lookup_delete_Some Hc Hr Hd. left. apply Hk in Hr. eauto 10.
  - intros t' T' i k [_ HT']%lookup_delete_Some. eauto.
Qed.

Lemma same_tables_owes db db' J : represents db J → represents db' J →
  pending_executions db' = pending_executions db → stop_requests db' = stop_requests db → owes nothing nothing [] db db'.
Proof. intros HR HR' E1 E2. eapply owes_fewer; [done..| |]; rewrite ?E1, ?E2; eauto. Qed.

Lemma acknowledge_owes n t c u db db' J : represents db J → acknowledge_execution_body n t c db = Ok (u, db') →
  owes nothing nothing [] db db'.
Proof.
  intros HR HT. pose proof (acknowledge_keeps _ _ _ _ _ _ _ HR HT) as HR'.
  unfold acknowledge_execution_body in HT. tx_inv. eapply owes_fewer; [exact HR|exact HR'|..]; cbn; [|eauto].
  intros c' s [_ ?]%lookup_delete_Some. eauto.
Qed.

Lemma acknowledge_stop_owes n t c u db db' J : represents db J → acknowledge_stop_body n t c db = Ok (u, db') →
  owes nothing nothing [] db db'.
Proof.
  intros HR HT. pose proof (acknowledge_stop_keeps _ _ _ _ _ _ _ HR HT) as HR'.
  unfold acknowledge_stop_body in HT. tx_inv. destruct (node_of_task t db); tx_inv; [|apply owes_refl].
  destruct (decide (k_task <$> commands db !! c = Some t)); [|apply owes_refl].
  eapply owes_fewer; [exact HR|exact HR'|..]; cbn; [eauto|].
  intros c' r [(-> & s & _ & ->)|[_ ?]]%lookup_alter_Some Hd; [done|eauto].
Qed.

(** A recorded stop that is not delivered is owed; nothing else is new. *)
Lemma stop_owes t c a db db' J : represents db J → admit_stop_body t c db = Ok (a, db') →
  ∃ T, J !! t = Some T ∧ represents db' J ∧
  match a with
  | Recorded false => owes nothing (only (j_node T) (MkPendingStop t c)) [] db db'
  | _ => owes nothing nothing [] db db'
  end.
Proof.
  intros HR HT. pose proof (stop_keeps _ _ _ _ _ _ HR HT) as HR'. unfold admit_stop_body in HT. tx_inv.
  apply bind_Some in E as (row & Hrow & Ht). case_decide; [|done]. subst t.
  destruct (row_submitted _ _ _ _ (rp_commands _ _ HR) Hrow) as (T & HJ & Hc). exists T. split_and!; [done..|].
  destruct (stop_requests db !! c) as [s|] eqn:Es; tx_inv.
  { destruct (stop_delivered s) eqn:Ed; [apply owes_refl|]. split; auto. }
  match goal with b : bool |- _ => destruct b end; tx_inv; [apply owes_refl|].
  rename select (insert_stop _ _ = _) into Hi. unfold insert_stop in Hi. tx_inv.
  repeat match goal with H : constraint _ _ _ = _ |- _ => apply constraint_ok in H as [? ->] end.
  eapply owes_by; [exact HR|exact HR'|..].
  - intros t T' env HT Hin Hp. left. eauto 10.
  - intros t T' c' r HT Hc' Hr Hd. cbn in Hr. apply lookup_insert_Some in Hr as [[<- _]|[_ Hr]]; [|left; eauto 10].
    right. destruct (submitted_row _ _ _ _ _ (rp_commands _ _ HR) HT Hc') as (row' & Hrow' & <-). simplify_eq. done.
  - eauto.
Qed.

Lemma submit_owes ch t p surface c i allow db adm db' J :
  represents db J → input_ok i = true → admit_command_body ch t p surface c i allow db = Ok (adm, db') →
  match adm with
  | CommandAdmitted command ev => ∃ T, J !! t = Some T ∧ owes (only (j_node T) (MkPendingExecution t command)) nothing [ev] db db'
  | _ => db' = db
  end.
Proof.
  intros HR Hi HT. destruct (admit_command_sound _ _ _ _ _ _ _ _ _ _ _ HR Hi HT) as (T & HJ & _ & HA).
  destruct adm as [|command ev|command pending]; [by destruct HA as (_ & -> & _)| |by destruct HA as (_ & -> & _)].
  destruct HA as (-> & _ & HS). exists T. split; [done|by eapply submits_owes].
Qed.

(** A record that ends an execution is the last of its batch. *)
Lemma appended_terminal_last t c es db J T new adm db' terminal : executes t c es db J T new adm db' →
  appended_terminal (admitted_events adm) = Some terminal → ∃ e, last es = Some e ∧ is_terminated (x_kind e) = true.
Proof.
  intros HE Ht. destruct (ex_accepted _ _ _ _ _ _ _ _ _ HE) as (x & s & HB & _ & HA).
  destruct (ex_events _ _ _ _ _ _ _ _ _ HE) as (Hk & _). unfold appended_terminal in Ht.
  apply head_Some_elem_of, list_elem_of_omap in Ht as (ev & Hin & Hev).
  assert (te_kind ev ∈ te_kind <$> admitted_events adm) as Hin' by (by apply list_elem_of_fmap_2).
  rewrite Hk in Hin'. apply list_elem_of_fmap in Hin' as (e & He & Hnew). unfold terminal_record in Hev. rewrite He in Hev.
  rewrite (ac_new _ _ _ _ _ HA) in Hnew. apply list_elem_of_lookup in Hnew as [i Hi]. rewrite lookup_drop in Hi.
  destruct (HB _ _ Hi) as (_ & _ & _ & Hlast). exists e.
  assert (is_terminated (x_kind e) = true) as Hterm by (by destruct (x_kind e)). split; [|done].
  rewrite last_lookup. specialize (Hlast Hterm). by rewrite <- Hlast.
Qed.

(** Only a batch whose last record ends its execution adds a delivery: the reply. *)
Lemma publish_owes ch t c es replier db adm db' J :
  represents db J → append_execution_events_body ch t c es replier db = Ok (adm, db') →
  match reply adm with
  | Some r => (∃ e, last es = Some e ∧ is_terminated (x_kind e) = true) ∧
      owes (only (reply_node r) (MkPendingExecution (reply_task r) (reply_command r))) nothing
        (admitted_events adm ++ [reply_event r]) db db'
  | None => owes nothing nothing (admitted_events adm) db db'
  end.
Proof.
  unfold append_execution_events_body. intros HR HT. tx_inv.
  rename select (admit_execution_event_batch _ _ _ _ _ = _) into Hb.
  apply (admit_batch_sound _ _ _ _ _ _ _ J HR) in Hb as (T & new & HJ & HE & _).
  rename select (admit_reply _ _ _ _ _ _ = _) into Hr. cbn.
  pose proof (executes_owes _ _ _ _ _ _ _ _ _ HR HJ HE) as Ho.
  pose proof Hr as Hr'. eapply admit_reply_sound in Hr'; [|apply HE].
  match goal with H : match ?o with _ => _ end |- _ => destruct o as [r|] end; [|by subst].
  destruct Hr' as (T' & HJ' & Hn & _ & _ & HS). split.
  - unfold admit_reply in Hr. destruct (appended_terminal _) as [terminal|] eqn:Ht; [by eapply appended_terminal_last|by tx_inv].
  - rewrite Hn. eapply owes_trans; [exact Ho|]. eapply submits_owes; [apply HE|exact HJ'|exact HS].
Qed.

Lemma message_owes ch n cards dest m db a db' J : represents db J → admit_in ch n cards dest m db = Ok (a, db') →
  match a with
  | MessageAdmitted t _ command ev => owes (only (to_node m) (MkPendingExecution t command)) nothing [ev] db db'
  | MessageExisting _ _ _ _ => db' = db
  end.
Proof.
  intros HR HT. apply (admit_in_sound _ _ _ _ _ _ _ _ _ HR) in HT as (p & ft & T0 & env0 & d & _ & HO).
  destruct a; cbn in HO; [|by destruct HO as (_ & _ & -> & _)].
  destruct HO as (-> & _ & _ & db1 & J1 & T & (HR1 & HJ1 & Hb & O1 & _ & Hc) & HS). injection Hb as _ Hn _.
  assert (owes nothing nothing [] db db1) as Ho.
  { destruct Hc as [[-> _]|(HJ & -> & Hl)]; [apply owes_refl|by eapply opened_owes]. }
  eapply (owes_trans _ _ []); [exact Ho|]. pose proof (submits_owes _ _ _ _ _ _ _ HR1 HJ1 HS) as Hs. by rewrite Hn in Hs.
Qed.

Lemma wake_rows_owe n wid u now o db db' J : represents db J → request_wake_body n wid u now db = Ok (o, db') →
  owes nothing nothing [] db db'.
Proof.
  intros HR HT. eapply same_tables_owes; [exact HR|by eapply request_wake_keeps|..];
    unfold request_wake_body, record in HT; tx_inv; destruct (push_wake_requests _ !! _); tx_inv; done.
Qed.
End due.

(** ** The devices, through the calls on tasks *)
Section same_identity.
Context `{CS : ControlSerde} `{LT : LibraryTexts} `{DG : Digest}.
Implicit Types (db : ControlDb) (ch : ControlChoice).

Definition devices_kept db db' : Prop := rows_kept None (identity db) (identity db').
#[global] Instance devices_kept_preorder : PreOrder devices_kept.
Proof. split; [by intros db d row|]. intros i j k H1 H2. unfold devices_kept. by etrans. Qed.

Lemma kept_tx_constraint b what : follows devices_kept (constraint b what).
Proof. apply follows_guard, _. Qed.
Lemma kept_tx_get : follows (E := ControlError) devices_kept get.
Proof. by intros i a i' [= -> ->]. Qed.
Hint Resolve kept_tx_constraint kept_tx_get : follow.

Ltac kept_tx := follow; repeat first
  [ apply follows_write; unfold devices_kept, rows_kept; intros ?; repeat (case_bool_decide || case_match); done
  | case_match; follow ].

Lemma kept_insert_task task : follows devices_kept (insert_task task).
Proof. unfold insert_task, insert_task_row. kept_tx. Qed.
Lemma kept_open_body task a : follows devices_kept (open_body task a).
Proof. pose proof kept_insert_task. unfold open_body. kept_tx. Qed.
Lemma kept_record p r : follows devices_kept (record p r).
Proof. unfold record. kept_tx. Qed.
Lemma kept_append_event ch t s k : follows devices_kept (append_event ch t s k).
Proof. pose proof kept_record. unfold append_event, mark_wake, of_quiet_command, insert_task_event. kept_tx. Qed.
Lemma kept_insert_command ch t command json : follows devices_kept (insert_command ch t command json).
Proof. pose proof kept_append_event. unfold insert_command, insert_command_row, insert_pending. kept_tx. Qed.
Hint Resolve kept_insert_task kept_record kept_append_event kept_insert_command : follow.

Lemma kept_admit_command ch t p surface c i allow : follows devices_kept (admit_command_body ch t p surface c i allow).
Proof. unfold admit_command_body. kept_tx. Qed.
Lemma kept_append_contiguous ch t c es : ∀ next terminal, follows devices_kept (append_contiguous_execution_events ch t c es next terminal).
Proof. induction es as [|e es IH]; intros next terminal; cbn; unfold load_source_event, validate_existing_source; kept_tx. Qed.
Hint Resolve kept_append_contiguous : follow.
Lemma kept_admit_batch ch t c es : follows devices_kept (admit_execution_event_batch ch t c es).
Proof.
  unfold admit_execution_event_batch, ensure_admitted_command, load_execution_event_stream, initial_execution_event_cursor,
    store_execution_event_cursor, insert_stream. kept_tx.
Qed.
Lemma kept_admit_reply ch t c evs replier : follows devices_kept (admit_reply ch t c evs replier).
Proof. unfold admit_reply. kept_tx. Qed.
Hint Resolve kept_admit_batch kept_admit_reply : follow.
Lemma kept_publish ch t c es replier : follows devices_kept (append_execution_events_body ch t c es replier).
Proof. unfold append_execution_events_body. kept_tx. Qed.
Lemma kept_admit_in ch n cards dest m : follows devices_kept (admit_in ch n cards dest m).
Proof. unfold admit_in, open_thread. kept_tx. Qed.
Lemma kept_admit_stop t c : follows devices_kept (admit_stop_body t c).
Proof. unfold admit_stop_body, insert_stop. kept_tx. Qed.
Lemma kept_acknowledge n t c : follows devices_kept (acknowledge_execution_body n t c).
Proof. unfold acknowledge_execution_body. kept_tx. Qed.
Lemma kept_acknowledge_stop n t c : follows devices_kept (acknowledge_stop_body n t c).
Proof. unfold acknowledge_stop_body. kept_tx. Qed.
Lemma kept_delete p t : follows devices_kept (delete_body p t).
Proof. unfold delete_body, remove, delete_task_row. kept_tx. Qed.
Lemma kept_request_wake n wake u now : follows devices_kept (request_wake_body n wake u now).
Proof. unfold request_wake_body. kept_tx. Qed.
Lemma kept_settle p g : follows devices_kept (settle_body p g).
Proof. unfold settle_body. kept_tx. Qed.

Lemma kept_identity_tx {A} (m : ITx A) : follows (rows_kept None) m → follows devices_kept (identity_tx m).
Proof. intros Hm db a db' (i & HT & ->)%identity_tx_ok. unfold devices_kept. cbn. by eapply Hm. Qed.
Lemma kept_enroll n owner h row : follows devices_kept (enroll_node_body n owner h row).
Proof. unfold enroll_node_body. kept_tx; apply kept_identity_tx, kept_insert_enrollment. Qed.
Lemma kept_put_notice n notice : follows devices_kept (put_notice_body n notice).
Proof. unfold put_notice_body. follow. apply kept_identity_tx, kept_put_notice_row. Qed.
Lemma kept_withdraw_notices n notices : follows devices_kept (withdraw_notices_body n notices).
Proof. apply kept_identity_tx, kept_withdraw. Qed.
End same_identity.
