(* ===== verification/ControlTheorems.v ===== *)
(** * Journals and exactly-once admission: theorems

    Serializers made of codecs and one lifetime of the store on which the
    theorems are instantiated: the main agent of a node gets a command of its
    owner, runs it, asks another agent and is answered. *)
From S2P Require Import Prelude Json Text Protocol Transaction Control ControlStore Journals.
From S2P Require Import ControlRep ControlRuns.
Section stored.
Context `{CS : ControlSerde} `{LT : LibraryTexts} `{DG : Digest} `{!ControlSerdeLaws}.

Definition stored_as (db : ControlDb) (c : CommandId) : option (TaskId * StoredTask * CommandEnvelope) :=
  row ← commands db !! c; env ← from_str (A := CommandEnvelope) (k_json row);
  match load_task (k_task row) db with Ok task => Some (k_task row, task, env) | Err _ => None end.

(** A stored command is in the journal of its task. *)
Lemma stored_journal db J c t task env : represents db J → stored_as db c = Some (t, task, env) →
  ∃ T, J !! t = Some T ∧ binding T = task ∧ CommandSubmitted env ∈ j_log T.
Proof.
  intros HR. unfold stored_as. destruct (commands db !! c) as [row|] eqn:Hr; [|done]. cbn.
  destruct (stored_envelope _ _ _ _ HR Hr) as (T & env' & HT & Hin & _ & _ & Hd & _). rewrite Hd. cbn.
  destruct (load_task _ _) as [task'|] eqn:HL; [|done]. intros [= <- <- <-].
  apply (load_task_ok _ _ _ _ (rp_journal _ _ HR)) in HL as (T' & HT' & ->). exists T. split_and!; [done|congruence|done].
Qed.

(** The result of a transaction, computed. *)
Lemma computed {A} (r : Result ControlError A * ControlDb) (f : A → bool) :
  (match r.1 with Ok a => f a | Err _ => false end) = true → ∃ a db', r = (Ok a, db') ∧ f a = true.
Proof. destruct r as [[a|] db']; [eauto|done]. Qed.
End stored.

Module ControlJson.
Export RcpJson.

Definition c_record : codec TaskEventKind :=
  c_iso (c_sum c_command (c_prod (c_rid KCommand) c_execution))
    (λ k, match k with CommandSubmitted c => inl c | ExecutionRecord c e => inr (c, e) end)
    (λ s, Some (match s with inl c => CommandSubmitted c | inr (c, e) => ExecutionRecord c e end)) ltac:(by_cases).

Definition c_peer : codec PeerIdentity :=
  c_iso (c_sum (c_prod (c_rid KPrincipal) c_str) (c_rid KNode))
    (λ p, match p with PeerSurface p s => inl (p, s) | PeerNode n => inr n end)
    (λ s, Some (match s with inl (p, s) => PeerSurface p s | inr n => PeerNode n end)) ltac:(by_cases).

#[export] Instance control_serde : ControlSerde := {
  envelope_serde := {| to_string c := Some (enc c_command c); from_str := dec c_command |};
  target_serde := {| to_string t := Some (enc c_str t); from_str := dec c_str |};
  kind_serde := {| to_string k := Some (enc c_record k); from_str := dec c_record |};
  peer_serde := {| to_string p := Some (enc c_peer p); from_str := dec c_peer |};
}.

#[export] Instance control_serde_laws : ControlSerdeLaws.
Proof.
  split.
  - intros c t [= <-] _. apply (dec_enc c_command).
  - intros a t [= <-]. apply (dec_enc c_str).
  - intros k t [= <-] _. apply (dec_enc c_record).
  - intros p t [= <-]. apply (dec_enc c_peer).
Qed.

#[export] Instance control_texts : LibraryTexts := {|
  constraint_failed c := "UNIQUE constraint failed: " +:+ c;
  no_rows := "Query returned no rows";
  json_failed := "expected value" |}.

(** A digest for the examples: its input, reversed. *)
#[export] Instance control_digest : Digest := λ s,
  String.string_of_list_ascii (reverse (String.list_ascii_of_string s)).

(** ** A lifetime *)
Definition choice : ControlChoice :=
  MkControlChoice None (λ db, MkRid (N.of_nat (size (task_events db)))).

Definition owner : PrincipalId := MkRid 1.
Definition node : NodeId := MkRid 2.
Definition chat : TaskId := MkRid 3.
Definition ask : CommandId := MkRid 10.
Definition message : CommandId := MkRid 11.
Definition surface1 : SurfaceRef := "phone".
Definition chat_spec : TaskSpec := MkTaskSpec chat owner node "main".

Definition ev (id : N) (x : N) (n : Z) (k : ExecutionEventKind) : ExecutionEvent :=
  MkExecutionEvent (MkRid id) (MkRid x) n 0 k.
Definition started : ExecutionEvent := ev 20 30 0 ExecutionStarted.
Definition said : ExecutionEvent := ev 21 30 1 (AssistantMessage "hello").
Definition done_ : ExecutionEvent := ev 22 30 2 (ExecutionTerminated ExecutionCompleted).

Definition cards : list TargetCard := [MkTargetCard "helper" "Helper"; MkTargetCard "main" "Main"].
Definition outgoing : OutgoingMessage := MkOutgoingMessage ask message node "helper" "What time is it?".
Definition thread : TaskId := thread_task_id owner (node, "main") (node, "helper").

Definition opening : list (ControlChoice * Call) :=
  [(choice, CallEnroll node owner "7" (MkEnrollmentRow (enc c_str "") 0));
   (choice, CallOpen chat_spec Advertised);
   (choice, CallSubmit chat owner surface1 ask (from_text "hi") true)].
Definition asking : list (ControlChoice * Call) :=
  opening ++ [(choice, CallPublish chat ask [started; said] "Main");
              (choice, CallMessage node cards (Some cards) outgoing)].

(** The helper answers. *)
Definition answer : list ExecutionEvent :=
  [ev 40 50 0 ExecutionStarted; ev 41 50 1 (AssistantMessage "Noon."); ev 42 50 2 (ExecutionTerminated ExecutionCompleted)].

Definition bound : ControlDb := lifetime (take 2 opening) empty_control.
Definition spoken : ControlDb := lifetime (take 4 asking) empty_control.
Definition opened : ControlDb := lifetime opening empty_control.
Definition asked : ControlDb := lifetime asking empty_control.

(** ** Journals of these databases *)
Lemma journals_of calls : forallb (λ cc, typed_call cc.2) calls = true → ∃ J, represents (lifetime calls empty_control) J.
Proof. intros Hty. destruct (lifetime_moves calls empty_control ∅ represents_empty Hty) as (J & _ & HR). eauto. Qed.

(** The command of the owner, and the message it makes its agent send. *)
Definition owners_command : CommandEnvelope := MkCommandEnvelope ask owner surface1 "main" (from_text "hi") None.
Definition agents_message : CommandEnvelope := message_command owner outgoing "main" false 1 "Main".

Lemma opened_chat : ∃ J T, represents opened J ∧ J !! chat = Some T ∧ binding T = MkStoredTask owner node "main" ∧
  CommandSubmitted owners_command ∈ j_log T.
Proof.
  destruct (journals_of opening eq_refl) as [J HR]. exists J.
  destruct (stored_journal opened J ask chat (MkStoredTask owner node "main") owners_command HR) as (T & H); [by vm_compute|eauto].
Qed.

Lemma asked_thread : ∃ J T, represents asked J ∧ J !! thread = Some T ∧ binding T = MkStoredTask owner node "helper" ∧
  CommandSubmitted agents_message ∈ j_log T.
Proof.
  destruct (journals_of asking eq_refl) as [J HR]. exists J.
  destruct (stored_journal asked J message thread (MkStoredTask owner node "helper") agents_message HR) as (T & H);
    [by vm_compute|eauto].
Qed.
End ControlJson.

(** * Theorems about the coordinator's store

    Journals over whole lifetimes, exactly-once acceptance of what is sent at
    least once, and the exact outcome of deletion, stops and reads. *)
From S2P Require Import ControlPublish ControlReads.
Section theorems.
Context `{CS : ControlSerde} `{LT : LibraryTexts} `{DG : Digest} `{!ControlSerdeLaws}.
Implicit Types (db : ControlDb) (ch : ControlChoice) (J : Journals) (T : Journal) (t : TaskId) (c : CommandId).

Definition healthy ch : Prop := control_failure ch = None.

Definition typed_calls (calls : list (ControlChoice * Call)) : bool := forallb (λ cc, typed_call cc.2) calls.

(** No call of the sequence deletes the task. *)
Definition spares (calls : list (ControlChoice * Call)) t : Prop := ¬ ∃ cc, cc ∈ calls ∧ deletes cc.2 t.

Lemma lifetime_grows calls db J t T : represents db J → typed_calls calls = true → spares calls t → J !! t = Some T →
  ∃ J' T', represents (lifetime calls db) J' ∧ J' !! t = Some T' ∧ grows T T'.
Proof.
  intros HR Hty Hsp HJ. destruct (lifetime_moves calls db J HR Hty) as (J' & HS & HR').
  destruct (journal_steps_grow _ _ _ _ _ HS Hsp HJ) as (T' & HJ' & HG). eauto.
Qed.

Lemma attempt_healthy {A} ch (m : CTx A) db : healthy ch → attempt ch m db = commit m db.
Proof. unfold attempt. by intros ->. Qed.

Lemma attempt_ok {A} ch (m : CTx A) db a db' : attempt ch m db = (Ok a, db') → m db = Ok (a, db').
Proof. unfold attempt. destruct (control_failure ch); [done|]. apply commit_ok. Qed.

(** ** Publishing *)
Lemma publish_sound ch t c es replier db adm db' J :
  represents db J → append_execution_events_body ch t c es replier db = Ok (adm, db') →
  ∃ T new adm1 db1, J !! t = Some T ∧ executes t c es db J T new adm1 db1 ∧
    through_execution_sequence adm = through_execution_sequence adm1 ∧
    admitted_events adm = admitted_events adm1 ∧
    admit_reply ch t c (admitted_events adm1) replier db1 = Ok (reply adm, db').
Proof.
  intros HR HT. unfold append_execution_events_body in HT. tx_inv.
  rename select (admit_execution_event_batch _ _ _ _ _ = _) into Hb.
  apply (admit_batch_sound _ _ _ _ _ _ _ J HR) in Hb as (T & new & HJ & HE & _).
  exists T, new. eexists _, _. split_and!; [done|exact HE|done..].
Qed.

Lemma stream_of_submission c env log : stream_of c (log ++ [CommandSubmitted env]) = stream_of c log.
Proof. rewrite stream_of_app. cbn. by rewrite app_nil_r. Qed.

(** After an accepted batch: the stream of its command, and its commands. *)
Lemma publish_stream ch t c es replier db adm db' J :
  represents db J → append_execution_events_body ch t c es replier db = Ok (adm, db') →
  ∃ T new J' T', J !! t = Some T ∧ submitted (j_log T) c ∧ represents db' J' ∧ J' !! t = Some T' ∧ grows T T' ∧
    stream_of c (j_log T') = stream_of c (j_log T) ++ new ∧
    (∃ x s, batch_from x s es ∧ es ≠ [] ∧ accepted x s (stream_of c (j_log T)) new es) ∧
    through_execution_sequence adm = Z.of_nat (length (stream_of c (j_log T) ++ new)) - 1 ∧
    te_kind <$> admitted_events adm = (ExecutionRecord c <$> new).
Proof.
  intros HR HT. destruct (publish_sound _ _ _ _ _ _ _ _ _ HR HT) as (T & new & adm1 & db1 & HJ & HE & E1 & E2 & Hr).
  set (T1 := log_append (ExecutionRecord c <$> new) T).
  assert (grows T T1) as HG by (split; [done|by eexists]).
  assert (stream_of c (j_log T1) = stream_of c (j_log T) ++ new) as Hst.
  { unfold T1. cbn [log_append j_log]. by rewrite stream_of_app, stream_of_records. }
  apply admit_reply_sound with (J := <[t := T1]> J) in Hr; [|apply HE].
  assert (∃ J' T', represents db' J' ∧ J' !! t = Some T' ∧ grows T T' ∧
    stream_of c (j_log T') = stream_of c (j_log T) ++ new) as (J' & T' & HR' & HJ' & HG' & Hst').
  { destruct (reply adm) as [r|]; [|subst; exists (<[t := T1]> J), T1; rewrite lookup_insert_eq; split_and!; try done; apply HE].
    destruct Hr as (Ta & HTa & _ & _ & _ & HS). destruct (decide (reply_task r = t)) as [E|Hne].
    - rewrite E, lookup_insert_eq in HTa. injection HTa as <-. eexists _, _. split_and!; [apply HS|by rewrite E, lookup_insert_eq| |].
      + etrans; [exact HG|]. split; [done|by eexists].
      + rewrite <- Hst. apply stream_of_submission.
    - eexists _, T1. split_and!; [apply HS| |done..]. by rewrite lookup_insert_ne, lookup_insert_eq. }
  exists T, new, J', T'. rewrite E1, E2. split_and!; try done; by apply HE.
Qed.

(** ** Theorems *)

(** C16. Whatever transactions the store runs, each of which may fail at its
    connection, its commit or its worker, its database stands for well-formed
    journals: every record has one source, an execution record follows the
    submission of its command, and the records of one command are one
    execution numbered from zero, begun by its start and ended at most once;
    the command table, cursors, pending deliveries, stops and wakes agree with
    them, and a journal only grows while its task is not deleted. *)
Theorem coordinator_keeps_journals calls1 calls2 :
  typed_calls (calls1 ++ calls2) = true →
  ∃ J1 J2, represents (lifetime calls1 empty_control) J1 ∧ journals_wf J1 ∧
    represents (lifetime (calls1 ++ calls2) empty_control) J2 ∧ journals_wf J2 ∧
    ∀ t T1, spares calls2 t → J1 !! t = Some T1 → ∃ T2, J2 !! t = Some T2 ∧ grows T1 T2.
Proof.
  unfold typed_calls. rewrite forallb_app. intros [H1 H2]%andb_prop.
  destruct (lifetime_moves calls1 empty_control ∅ represents_empty H1) as (J1 & _ & HR1).
  destruct (lifetime_moves calls2 _ J1 HR1 H2) as (J2 & HS & HR2).
  exists J1, J2. unfold lifetime at 2. rewrite foldl_app. split_and!; [done|apply HR1|done|apply HR2|].
  intros t T1 Hsp HJ. by eapply journal_steps_grow.
Qed.

(** C17. A node may publish a batch of execution events any number of times. When a
    batch is accepted, the stream of its command grew by exactly the events
    the coordinator did not have, in order, every event of the batch is in the
    stream under its own number, the acknowledged number is the last of the
    stream, and only the new events were journalled. Publishing the same batch
    again, after anything but the deletion of the task, is accepted too and
    changes nothing. *)
Theorem publish_exactly_once ch t c es replier db adm db' J :
  represents db J → attempt ch (append_execution_events_body ch t c es replier) db = (Ok adm, db') →
  (∃ T J' T' new, J !! t = Some T ∧ represents db' J' ∧ J' !! t = Some T' ∧
     stream_of c (j_log T') = stream_of c (j_log T) ++ new ∧ (∀ e, e ∈ new → e ∈ es) ∧
     (∀ e, e ∈ es → stream_of c (j_log T') !! Z.to_nat (x_sequence e) = Some e) ∧
     through_execution_sequence adm = Z.of_nat (length (stream_of c (j_log T'))) - 1 ∧
     te_kind <$> admitted_events adm = (ExecutionRecord c <$> new)) ∧
  ∀ calls ch2 replier2, typed_calls calls = true → spares calls t → healthy ch2 →
    ∃ n, through_execution_sequence adm ≤ n ∧
      attempt ch2 (append_execution_events_body ch2 t c es replier2) (lifetime calls db') =
        (Ok (MkExecutionEventAdmission n [] None), lifetime calls db').
Proof.
  intros HR HT%attempt_ok.
  destruct (publish_stream _ _ _ _ _ _ _ _ _ HR HT) as (T & new & J' & T' & HJ & Hc & HR' & HJ' & HG & Hst & Hacc & Hth & Hev).
  destruct Hacc as (x & s & HB & Hne & HA). split.
  - exists T, J', T', new. rewrite Hst. split_and!; try done; [|apply HA]. intros e He. rewrite (ac_new _ _ _ _ _ HA) in He.
    apply list_elem_of_lookup in He as (n & Hn). rewrite lookup_drop in Hn. by eapply list_elem_of_lookup_2.
  - intros calls ch2 replier2 Hty Hsp Hh.
    destruct (lifetime_grows calls db' J' t T' HR' Hty Hsp HJ') as (J2 & T2 & HR2 & HJ2 & [_ [ks Hk]]).
    assert (stream_of c (j_log T2) = (stream_of c (j_log T) ++ new) ++ stream_of c ks) as Hst2.
    { by rewrite Hk, stream_of_app, Hst. }
    exists (Z.of_nat (length (stream_of c (j_log T2))) - 1). split.
    { rewrite Hth, Hst2, (length_app (_ ++ _)). lia. }
    rewrite attempt_healthy by done. apply commit_ok. eapply publish_known_run; [exact HR2|exact HJ2| |done|exact HB|].
    + rewrite Hk. apply submitted_app_l. destruct HG as [_ [ks' ->]]. by apply submitted_app_l.
    + intros e He. rewrite Hst2. apply lookup_app_l_Some. by apply HA.
Qed.

(** C18. A command a surface submits is admitted once. Submitting it again, after
    anything but the deletion of its task and whether or not its node is
    online, returns the admitted command, says whether its delivery is still
    pending, and changes nothing; its identity is in the journals exactly
    once, in the place it was admitted at. *)
Theorem submit_exactly_once ch t p surface c i allow db env ev db1 J :
  represents db J → input_ok i = true →
  attempt ch (admit_command_body ch t p surface c i allow) db = (Ok (CommandAdmitted env ev), db1) →
  env = MkCommandEnvelope c p surface (target env) i None ∧ is_pending db1 c = true ∧
  ∀ calls ch2 allow2, typed_calls calls = true → spares calls t → healthy ch2 →
    let db2 := lifetime calls db1 in
    attempt ch2 (admit_command_body ch2 t p surface c i allow2) db2 =
      (Ok (CommandExisting env (is_pending db2 c)), db2) ∧
    ∃ J2, represents db2 J2 ∧
      ∀ t' T' n env', J2 !! t' = Some T' → j_log T' !! n = Some (CommandSubmitted env') → command_id env' = c →
        t' = t ∧ Z.of_nat n = te_sequence ev ∧ env' = env.
Proof.
  intros HR Hi HT%attempt_ok. apply (admit_command_sound _ _ _ _ _ _ _ _ _ _ J HR Hi) in HT as (T & HJ & Hp & -> & _ & HS).
  split; [done|]. split; [unfold is_pending; rewrite (su_pending _ _ _ _ _ _ _ HS); cbn; by rewrite lookup_insert_eq|].
  intros calls ch2 allow2 Hty Hsp Hh db2.
  destruct (lifetime_grows calls db1 _ t _ (su_rep _ _ _ _ _ _ _ HS) Hty Hsp (lookup_insert_eq _ _ _))
    as (J2 & T2 & HR2 & HJ2 & [Hb [ks Hk]]). fold db2 in HR2. cbn in Hb, Hk. injection Hb as Hb1 Hb2 Hb3.
  set (env := MkCommandEnvelope c p surface (j_target T) i None) in *.
  assert (j_log T2 !! length (j_log T) = Some (CommandSubmitted env)) as Hat.
  { rewrite Hk, <- app_assoc, lookup_app_r, Nat.sub_diag by done. done. }
  split.
  - rewrite attempt_healthy by done. apply commit_ok. unfold env in *. rewrite <- Hp, <- Hb1, <- Hb3 in *.
    apply (admit_existing_run _ _ _ _ _ _ _ J2); [done..|]. by eapply list_elem_of_lookup_2.
  - exists J2. split; [done|]. intros t' T' n env' HT' Hn Hc.
    destruct (jw_sources _ (rp_wf _ _ HR2) _ _ _ _ _ _ _ _ HT' HJ2 Hn Hat) as [-> ->]; [cbn; by rewrite Hc|].
    rewrite HJ2 in HT'. injection HT' as <-. destruct (su_event _ _ _ _ _ _ _ HS) as (_ & -> & _).
    split_and!; [done|done|congruence].
Qed.
End theorems.

(** ** Instances *)
Section examples.
Import ControlJson.

Lemma coordinator_keeps_journals_witness : typed_calls (asking ++ [(choice, CallPublish thread message answer "Helper")]) = true ∧
  ∃ J1 J2, represents asked J1 ∧ journals_wf J1 ∧
    represents (lifetime (asking ++ [(choice, CallPublish thread message answer "Helper")]) empty_control) J2 ∧ journals_wf J2.
Proof.
  assert (typed_calls (asking ++ [(choice, CallPublish thread message answer "Helper")]) = true) as Hty by reflexivity.
  split; [exact Hty|]. destruct (coordinator_keeps_journals asking _ Hty) as (J1 & J2 & H1 & H2 & H3 & H4 & _). eauto 10.
Defined.

Lemma publish_exactly_once_witness : ∃ adm db', attempt choice (append_execution_events_body choice chat ask [started; said] "Main") opened = (Ok adm, db') ∧
  ∃ n, through_execution_sequence adm ≤ n ∧
    attempt choice (append_execution_events_body choice chat ask [started; said] "Main") db' =
      (Ok (MkExecutionEventAdmission n [] None), db').
Proof.
  destruct opened_chat as (J & T & HR & _).
  destruct (computed (attempt choice (append_execution_events_body choice chat ask [started; said] "Main") opened) (λ _, true))
    as (adm & db' & E & _); [by vm_compute|].
  exists adm, db'. split; [exact E|].
  destruct (publish_exactly_once choice chat ask [started; said] "Main" opened adm db' J HR E) as [_ H].
  apply (H [] choice "Main"); [reflexivity|by intros (? & ?%elem_of_nil & _)|reflexivity].
Defined.

Lemma submit_exactly_once_witness :
  ∃ env ev db1, attempt choice (admit_command_body choice chat owner surface1 ask (from_text "hi") true) bound =
    (Ok (CommandAdmitted env ev), db1) ∧ env = owners_command ∧ is_pending db1 ask = true ∧
    attempt choice (admit_command_body choice chat owner surface1 ask (from_text "hi") false) db1 =
      (Ok (CommandExisting env (is_pending db1 ask)), db1).
Proof.
  destruct (journals_of (take 2 opening) eq_refl) as [J HR].
  destruct (computed (attempt choice (admit_command_body choice chat owner surface1 ask (from_text "hi") true) bound)
    (λ a, match a with CommandAdmitted env _ => String.eqb (target env) "main" | _ => false end)) as (a & db1 & E & Ha); [by vm_compute|].
  destruct a as [|env ev|]; [done| |done]. exists env, ev, db1. split; [exact E|].
  destruct (submit_exactly_once choice chat owner surface1 ask (from_text "hi") true bound env ev db1 J HR eq_refl E) as (H1 & H2 & H3).
  apply String.eqb_eq in Ha. rewrite Ha in H1. split; [exact H1|]. split; [exact H2|].
  apply (H3 [] choice false); [reflexivity|by intros (? & ?%elem_of_nil & _)|reflexivity].
Defined.

(** A command is found again by its identity and its content, which do not name
    the task: a second task of the same principal and target is answered with
    the command of the first, pending, though its own journal does not have it. *)
Definition second : TaskId := MkRid 4.
Definition two_tasks : ControlDb :=
  lifetime (opening ++ [(choice, CallOpen (MkTaskSpec second owner node "main") Advertised)]) empty_control.

Example command_of_another_task :
  attempt choice (admit_command_body choice second owner surface1 ask (from_text "hi") true) two_tasks =
    (Ok (CommandExisting owners_command true), two_tasks) ∧
  load_suffix second owner None two_tasks = Ok (MkTaskSuffix None []).
Proof. split; vm_compute; reflexivity. Qed.
End examples.
