(* ===== verification/ControlTaskTheorems.v ===== *)
(** * Theorems about tasks: deletion, listing, journals, stops and deliveries *)
From S2P Require Import Prelude Json Text Protocol Transaction Control ControlStore Journals.
From S2P Require Import ControlRep ControlPublish ControlRuns ControlReads ControlDelivery ControlTheorems.
Section tasks.
Context `{CS : ControlSerde} `{LT : LibraryTexts} `{DG : Digest} `{!ControlSerdeLaws}.
Implicit Types (db : ControlDb) (ch : ControlChoice) (J : Journals) (T : Journal) (t : TaskId) (c : CommandId).

(** ** Deletion *)
Lemma delete_run p t db J T : represents db J → J !! t = Some T →
  delete_body p t db =
    if decide (j_principal T = p) then
      if in_flight db t then
        Err (conflict ("task " +:+ show_id t +:+ " has an execution in flight; delete it once that finishes"))
      else match remove t db with Ok (n, db') => Ok (Some n, db') | Err e => Err e end
    else Err (task_not_found t).
Proof.
  intros HR HJ. destruct (journal_lookup _ _ _ _ (rp_journal _ _ HR) HJ) as (row & Hrow & Hf).
  unfold delete_body. erewrite txn_run; [|done]. rewrite Hrow. cbn. rewrite (tf_principal _ _ _ _ Hf).
  destruct (decide (j_principal T = p)) as [->|Hne].
  - rewrite bool_decide_true by done. erewrite txn_run; [|done]. erewrite txn_run; [|done]. fold (in_flight db t).
    destruct (in_flight db t); [done|]. erewrite txn_run; [|done]. unfold mbind, Tx_bind.
    by destruct (remove t db) as [[? ?]|].
  - by rewrite bool_decide_false.
Qed.

Lemma removed_counts t db n : remove t db = Ok (n, without_task t db) →
  n.1 = Z.of_nat (length (select (λ _ r, bool_decide (v_task r = t)) (task_events db))).
Proof.
  unfold remove. intros HT. do 5 (erewrite txn_run in HT; [|done]).
  apply txn_bind_ok in HT as (? & ? & _ & [-> _]%txn_ret_ok). done.
Qed.

(** Nothing of a task is left. *)
Definition erased t db : Prop :=
  tasks db !! t = None ∧ (∀ c row, commands db !! c = Some row → k_task row ≠ t) ∧
  (∀ id r, task_events db !! id = Some r → v_task r ≠ t).

Lemma without_task_erased t db : erased t (without_task t db).
Proof.
  split_and!; cbn; [apply lookup_delete_eq|..].
  - by intros c row [_ ?]%map_lookup_filter_Some.
  - by intros id r [_ ?]%map_lookup_filter_Some.
Qed.

(** C30. Deleting a task: one that does not exist is already deleted; another
    principal's reads as not found; one with a command that has not reached its
    terminal record is refused and left as it is; otherwise every row of it is
    gone, its journal is dropped from the store's and every other task keeps
    its binding and its journal. *)
Theorem delete_exact ch p t db J : represents db J → healthy ch →
  match J !! t with
  | None => attempt ch (delete_body p t) db = (Ok None, db)
  | Some T =>
      if decide (j_principal T ≠ p) then attempt ch (delete_body p t) db = (Err (task_not_found t), db)
      else quiescent (j_log T) ∧
             (∃ n db', attempt ch (delete_body p t) db = (Ok (Some n), db') ∧ erased t db' ∧ represents db' (delete t J)) ∨
           ¬ quiescent (j_log T) ∧
             attempt ch (delete_body p t) db =
               (Err (conflict ("task " +:+ show_id t +:+ " has an execution in flight; delete it once that finishes")), db)
  end.
Proof.
  intros HR Hh. rewrite attempt_healthy by done. unfold commit. destruct (J !! t) as [T|] eqn:HJ.
  - rewrite (delete_run p t db J T) by done. destruct (decide (j_principal T ≠ p)) as [Hne|He].
    { by rewrite decide_False. }
    apply dec_stable in He. rewrite decide_True by done.
    pose proof (in_flight_quiescent db J t T HR HJ) as HQ. destruct (in_flight db t).
    + right. split; [|done]. intros Hq. by apply HQ in Hq.
    + left. split; [by apply HQ|]. destruct (remove_run t db) as (n & ->). eexists n, _. split; [done|].
      split; [apply without_task_erased|by apply represents_delete].
  - unfold delete_body. erewrite txn_run; [|done].
    by rewrite (proj2 (journal_absent _ _ _ (rp_journal _ _ HR)) HJ).
Qed.

(** ** Listing *)
Definition last_sequence (log : list TaskEventKind) : option Z :=
  match log with [] => None | _ => Some (Z.of_nat (length log) - 1) end.

Definition summary_of t T : TaskSummary :=
  MkTaskSummary t (j_target T) (status_of (j_log T)) (last_sequence (j_log T)).

Lemma through_sequence_log T : through_sequence (Z.of_nat (length (j_log T))) = Ok (last_sequence (j_log T)).
Proof.
  unfold through_sequence. rewrite (proj2 (column_read_ok _ _ _) (conj eq_refl (Nat2Z.is_nonneg _))).
  unfold last_sequence. destruct (j_log T) as [|k log]; [done|].
  change (match k :: log with [] => None | _ => ?x end) with x. cbn [mbind Result_bind].
  by destruct (Z.leb_spec 1 (Z.of_nat (length (k :: log)))); [|cbn [length] in *; lia].
Qed.

Lemma summarize_run db J t row T : represents db J → J !! t = Some T → tasks db !! t = Some row →
  summarize db (t, row) = Ok (summary_of t T).
Proof.
  intros HR HJ Hrow. destruct (journal_lookup _ _ _ _ (rp_journal _ _ HR) HJ) as (row' & Hrow' & Hf).
  assert (row' = row) as -> by congruence. unfold summarize. cbn [fst snd].
  rewrite (proj2 (control_decode_ok _ _) (from_to_string _ _ (tf_target _ _ _ _ Hf))). cbn [mbind Result_bind].
  rewrite (derive_log db J t T) by done. cbn [mbind Result_bind].
  by rewrite (tf_next _ _ _ _ Hf), through_sequence_log.
Qed.

Lemma collect_run {E A B} (f : A → Result E B) (g : A → B) l : (∀ a, a ∈ l → f a = Ok (g a)) →
  collect f l = Ok (g <$> l).
Proof.
  induction l as [|a l IH]; intros Hf; [done|]. cbn. rewrite (Hf a) by left. cbn.
  rewrite IH; [done|]. intros a' ?. apply Hf. by right.
Qed.

(** A principal's task list has its tasks and no other's, each once, with the
    target it was opened for, the last number of its journal, and the status
    its latest command has: working until the terminal record of that command,
    then failed or idle by it, whatever earlier commands did. *)
Theorem list_tasks_exact p db J : represents db J →
  ∃ sums, list_tasks p db = Ok sums ∧ NoDup (summary_task <$> sums) ∧
    ∀ s, s ∈ sums ↔ ∃ t T, J !! t = Some T ∧ j_principal T = p ∧ s = summary_of t T.
Proof.
  intros HR. unfold list_tasks.
  set (rows := order_by _ _).
  assert (∀ kv, kv ∈ rows ↔ tasks db !! kv.1 = Some kv.2 ∧ t_principal kv.2 = p) as Hrows.
  { intros [t row]. unfold rows. rewrite elem_of_order_by, elem_of_select, bool_decide_eq_true. done. }
  set (g := λ kv : TaskId * TaskRow, summary_of kv.1 (default (MkJournal p (MkRid 0) "" []) (J !! kv.1))).
  assert (∀ t row, tasks db !! t = Some row → ∃ T, J !! t = Some T ∧ j_principal T = t_principal row ∧
    summarize db (t, row) = Ok (summary_of t T)) as Hsum.
  { intros t row Hrow. destruct (task_row_lookup _ _ _ _ (rp_journal _ _ HR) Hrow) as (T & HJ & Hf).
    exists T. split_and!; [done|symmetry; apply Hf|by eapply summarize_run]. }
  exists (g <$> rows). split_and!.
  - apply collect_run. intros [t row] [Hrow _]%Hrows. destruct (Hsum t row Hrow) as (T & HJ & _ & ->).
    unfold g. cbn in *. by rewrite HJ.
  - rewrite <- list_fmap_compose. change (NoDup (fst <$> rows)). unfold rows.
    rewrite (order_by_Permutation (λ kv : TaskId * TaskRow, Z.of_N (as_uuid kv.1))). apply NoDup_select.
  - intros s. rewrite list_elem_of_fmap. split.
    + intros ([t row] & -> & [Hrow Hp]%Hrows). destruct (Hsum t row Hrow) as (T & HJ & HT & _). cbn in *.
      exists t, T. unfold g. cbn. rewrite HJ. split_and!; [done|congruence|done].
    + intros (t & T & HJ & Hp & ->). destruct (journal_lookup _ _ _ _ (rp_journal _ _ HR) HJ) as (row & Hrow & Hf).
      exists (t, row). unfold g. cbn. rewrite HJ. split; [done|]. apply Hrows. cbn. split; [done|].
      rewrite (tf_principal _ _ _ _ Hf). done.
Qed.

(** ** Journal suffixes *)
Lemma decode_rows t rows ks : Forall2 reads_as rows ks →
  collect (decode_row t) rows =
    Ok (zip_with (λ kv k, MkTaskEvent kv.1 t (v_sequence kv.2) k) rows ks).
Proof.
  induction 1 as [|kv k rows ks [Hd Hp] _ IH]; [done|]. cbn [collect zip_with].
  assert (decode_row t kv = Ok (MkTaskEvent kv.1 t (v_sequence kv.2) k)) as ->; [|cbn; by rewrite IH].
  unfold decode_row. rewrite (proj2 (column_read_ok _ _ _) (conj eq_refl Hp)). cbn.
  by rewrite (proj2 (control_decode_ok _ _) Hd).
Qed.

Lemma zip_kinds t rows ks : Forall2 reads_as rows ks →
  te_kind <$> zip_with (λ kv k, MkTaskEvent kv.1 t (v_sequence kv.2) k) rows ks = ks ∧
  te_sequence <$> zip_with (λ kv k, MkTaskEvent kv.1 t (v_sequence kv.2) k) rows ks =
    (λ kv, v_sequence kv.2) <$> rows ∧
  Forall (λ e, te_task_id e = t) (zip_with (λ kv k, MkTaskEvent kv.1 t (v_sequence kv.2) k) rows ks).
Proof.
  induction 1 as [|kv k rows ks _ _ (IH1 & IH2 & IH3)]; [done|]. cbn. rewrite IH1, IH2. split_and!; [done..|by constructor].
Qed.

(** Reading a journal from a cursor: a task of another principal, or none, is
    not found; a cursor ahead of the journal is refused; otherwise exactly the
    records after the cursor are returned, in order and with their numbers,
    together with the journal's last number. *)
Theorem suffix_exact p t after db J : represents db J → (∀ n, after = Some n → 0 ≤ n) →
  match J !! t with
  | Some T =>
      if decide (j_principal T ≠ p) then load_suffix t p after db = Err (task_not_found t)
      else
        let seen := default 0 ((λ n, n + 1) <$> after) in
        if decide (Z.of_nat (length (j_log T)) < seen) then
          ∃ n, after = Some n ∧
            load_suffix t p after db = Err (invalid ("task cursor " +:+ show n +:+ " is ahead of durable task history"))
        else
          ∃ events, load_suffix t p after db = Ok (MkTaskSuffix (last_sequence (j_log T)) events) ∧
            te_kind <$> events = drop (Z.to_nat seen) (j_log T) ∧ Forall (λ e, te_task_id e = t) events ∧
            te_sequence <$> events = seqZ seen (Z.of_nat (length (j_log T)) - seen)
  | None => load_suffix t p after db = Err (task_not_found t)
  end.
Proof.
  intros HR Hpos. unfold load_suffix. destruct (J !! t) as [T|] eqn:HJ.
  2: { by rewrite (proj2 (journal_absent _ _ _ (rp_journal _ _ HR)) HJ). }
  destruct (journal_lookup _ _ _ _ (rp_journal _ _ HR) HJ) as (row & Hrow & Hf). rewrite Hrow. cbn [mbind option_bind].
  rewrite (tf_principal _ _ _ _ Hf).
  destruct (decide (j_principal T ≠ p)) as [Hne|He]; [by rewrite decide_False|].
  apply dec_stable in He. destruct (decide (j_principal T = p)); [|done]. cbn [ok_or mbind Result_bind].
  rewrite (tf_next _ _ _ _ Hf), through_sequence_log.
  cbn [mbind Result_bind]. pose proof (tf_bound _ _ _ _ Hf) as Hbd.
  set (seen := default 0 _). cbv zeta.
  assert (match after with None => false | Some cursor =>
      match last_sequence (j_log T) with None => true | Some through => through <? cursor end end =
    bool_decide (Z.of_nat (length (j_log T)) < seen)) as Hb.
  { unfold seen, last_sequence. destruct after as [n|]; cbn; [|symmetry; apply bool_decide_false; lia].
    pose proof (Hpos n eq_refl). destruct (j_log T) as [|k log].
    - symmetry. apply bool_decide_true. cbn. lia.
    - destruct (Z.ltb_spec (Z.of_nat (length (k :: log)) - 1) n); symmetry; [apply bool_decide_true|apply bool_decide_false]; lia. }
  destruct (decide (Z.of_nat (length (j_log T)) < seen)) as [Hlt|Hge].
  - rewrite bool_decide_true in Hb by done. destruct after as [n|]; [|done]. exists n. split; [done|]. by rewrite Hb.
  - rewrite bool_decide_false in Hb by done. apply Z.nlt_ge in Hge.
    assert (match after with None => 0 | Some n => Z.min u64_max (n + 1) end = seen ∧ 0 ≤ seen) as [Hmin Hsp].
    { unfold seen in *. destruct after as [n|]; cbn in *; [|done]. pose proof (Hpos n eq_refl).
      unfold u64_max, i64_max in *. lia. }
    destruct (journal_rows_read db J t T seen) as [Hr Hs]; [apply HR|done|done|].
    destruct (zip_kinds t _ _ Hr) as (Hk & Hq & HF).
    eexists. split; [|split_and!; [exact Hk|exact HF|by rewrite Hq]].
    assert (seen ≤ i64_max) as Hle by lia. rewrite Hmin, (proj2 (column_write_ok seen seen) (conj eq_refl Hle)).
    destruct after as [n|]; [rewrite Hb|]; cbn [mbind Result_bind]; by rewrite (decode_rows _ _ _ Hr).
Qed.

(** ** Deliveries *)

(** A command of a task that is not deleted is owed to a node after some calls
    exactly when it was before and the node of the task did not acknowledge it. *)
Lemma owed_later calls n db J t T env : represents db J → J !! t = Some T → CommandSubmitted env ∈ j_log T →
  typed_calls calls = true → spares calls t →
  due (lifetime calls db) n (MkPendingExecution t env) ↔
    due db n (MkPendingExecution t env) ∧ ¬ acknowledges calls n t (command_id env).
Proof.
  intros HR HJ Hin Hty Hsp. destruct (lifetime_grows calls db J t T HR Hty Hsp HJ) as (J2 & T2 & HR2 & HJ2 & Hb & [ks Hk]).
  destruct (lifetime_rows calls db J t T (command_id env) HR HJ) as [HP _]; [by exists env|done|done|].
  rewrite (due_log n _ J2 _ HR2), (due_log n _ J _ HR). cbn. unfold is_pending.
  setoid_rewrite bool_decide_eq_true. setoid_rewrite HP. assert (j_node T2 = j_node T) as Hn by (by injection Hb). split.
  - intros (T3 & HT3 & <- & _ & ? & Hna). simplify_eq. rewrite Hn. split; [|done]. exists T. done.
  - intros [(T3 & HT3 & <- & _ & ?) Hna]. simplify_eq. exists T2. split_and!; try done.
    rewrite Hk. apply elem_of_app. by left.
Qed.

(** C26. An admitted command is delivered at least once: whatever calls follow its
    admission, as long as its task is not deleted, it is among the executions
    its node is sent when it connects until the node has acknowledged it, is
    never among them again afterwards, and is never among another node's. The
    acknowledgement of a command concerns that command alone: every
    command admitted before is owed to a node after these calls exactly when it
    was owed before them and the node did not acknowledge it. And what a
    node is sent consists of commands in the journals of its own tasks. *)
Theorem delivered_until_acknowledged ch t p surface c i allow db env ev db1 J T :
  represents db J → input_ok i = true → J !! t = Some T →
  attempt ch (admit_command_body ch t p surface c i allow) db = (Ok (CommandAdmitted env ev), db1) →
  ∀ calls n, typed_calls calls = true →
  ∃ l J2, load_pending_executions n (lifetime calls db1) = Ok l ∧ represents (lifetime calls db1) J2 ∧
    (∀ pe, pe ∈ l → ∃ T2, J2 !! pe_task pe = Some T2 ∧ j_node T2 = n ∧ CommandSubmitted (pe_command pe) ∈ j_log T2) ∧
    (spares calls t → MkPendingExecution t env ∈ l ↔ n = j_node T ∧ ¬ acknowledges calls n t c) ∧
    (∀ t' T' env', J !! t' = Some T' → CommandSubmitted env' ∈ j_log T' → spares calls t' →
       MkPendingExecution t' env' ∈ l ↔
         (∃ l0, load_pending_executions n db = Ok l0 ∧ MkPendingExecution t' env' ∈ l0) ∧
         ¬ acknowledges calls n t' (command_id env')).
Proof.
  intros HR Hi HJ HT%attempt_ok calls n Hty.
  apply (admit_command_sound _ _ _ _ _ _ _ _ _ _ J HR Hi) in HT as (T' & HJ' & Hp & -> & _ & HS). simplify_eq.
  set (env := MkCommandEnvelope c (j_principal T) surface (j_target T) i None) in *.
  set (T1 := log_append [CommandSubmitted env] T) in *. pose proof (su_rep _ _ _ _ _ _ _ HS) as HR1.
  assert (<[t := T1]> J !! t = Some T1) as HJ1 by apply lookup_insert_eq.
  destruct (lifetime_moves calls db1 _ HR1 Hty) as (J2 & _ & HR2).
  destruct (pending_executions_log n _ J2 HR2) as (l & Hl & HE). exists l, J2.
  assert (∀ pe, pe ∈ l ↔ due (lifetime calls db1) n pe) as HD by (intros pe; by rewrite (due_log n _ J2 pe HR2), HE).
  split_and!; [done..| | |].
  - intros pe (T2 & ? & ? & ? & _)%HE. eauto.
  - intros Hsp. assert (CommandSubmitted env ∈ j_log T1) as Hin by (apply elem_of_app; right; by left).
    rewrite HD, (owed_later calls n db1 _ t T1 env HR1 HJ1 Hin Hty Hsp), (due_log n _ _ _ HR1). cbn [pe_task pe_command].
    unfold is_pending. rewrite (su_pending _ _ _ _ _ _ _ HS), lookup_insert_eq. split.
    + intros [(T2 & HT2 & <- & _) Hna]. by injection HT2 as <-.
    + intros [-> Hna]. split; [|done]. exists T1. split_and!; [done|done|exact Hin|by apply bool_decide_true; rewrite lookup_insert_eq].
  - intros t' T' env' HT' Hin' Hsp. rewrite HD. change (∃ l0, _) with (due db n (MkPendingExecution t' env')).
    assert (∃ T1', <[t := T1]> J !! t' = Some T1' ∧ CommandSubmitted env' ∈ j_log T1') as (T1' & HT1' & Hin1).
    { destruct (decide (t = t')) as [<-|Hne].
      - exists T1. split; [done|]. simplify_eq. apply elem_of_app. by left.
      - exists T'. by rewrite lookup_insert_ne. }
    rewrite (owed_later calls n db1 _ t' T1' env' HR1 HT1' Hin1 Hty Hsp).
    enough (due db1 n (MkPendingExecution t' env') ↔ due db n (MkPendingExecution t' env')) as -> by done. split.
    + destruct (submits_owes _ _ _ _ _ _ _ HR HJ HS) as [Hdue _ _]. intros [?|[-> [= -> ->]]]%Hdue; [done|].
      destruct (submitted_row _ _ _ _ _ (rp_commands _ _ HR) HT' (ex_intro _ _ (conj Hin' eq_refl))) as (? & Hrow & _).
      pose proof (su_new _ _ _ _ _ _ _ HS). congruence.
    + rewrite (due_log n _ _ _ HR), (due_log n _ _ _ HR1). cbn. intros (T0 & HT0 & <- & _ & Hpe). simplify_eq.
      exists T1'. split_and!; try done.
      * destruct (decide (t = t')) as [<-|Hne]; [by simplify_eq|by rewrite lookup_insert_ne in HT1'; simplify_eq].
      * unfold is_pending in *. split_bools. apply bool_decide_true. rewrite (su_pending _ _ _ _ _ _ _ HS).
        destruct Hpe as [s Hs]. apply lookup_insert_is_Some. destruct (decide (command_id env = command_id env')); eauto.
Qed.

(** ** Stops *)
Lemma stop_run t c db J T : represents db J → J !! t = Some T → submitted (j_log T) c →
  admit_stop_body t c db =
    match stop_requests db !! c with
    | Some row => Ok (Recorded (stop_delivered row), db)
    | None =>
        if ends (stream_of c (j_log T)) then Ok (AlreadyEnded, db)
        else Ok (Recorded false, with_stops
                   (<[c := MkStopRow (next_rowid stop_rowid (stop_requests db)) false]> (stop_requests db)) db)
    end.
Proof.
  intros HR HJ Hc. destruct (submitted_row _ _ _ _ _ (rp_commands _ _ HR) HJ Hc) as (row & Hr & Hk).
  unfold admit_stop_body. erewrite txn_run.
  2: { apply txn_read_run. rewrite Hr. cbn. by rewrite decide_True. }
  erewrite txn_run; [|done]. destruct (stop_requests db !! c) as [s|] eqn:Hs; [done|].
  rewrite (settled_ends db J t T) by done. destruct (ends _); [done|].
  erewrite txn_run; [done|]. unfold insert_stop. erewrite txn_run; [|done].
  erewrite txn_run; [|by apply txn_guard_run, bool_decide_true].
  by erewrite txn_run; [|apply txn_guard_run, bool_decide_true; rewrite Hr].
Qed.

(** C31. A stop names one command. It is recorded for a command that has not ended,
    and then the command's own node, and it alone, is sent it when it connects;
    the stops of other commands, later ones of the task included, stay as they
    were. Whatever calls follow, as long as the task is not deleted, the
    stop is among those the node is sent until the node acknowledged this very
    stop, and never again afterwards; a repeated stop finds the recorded one,
    delivered exactly if it was acknowledged, also once the command has ended.
    A command that ended before any stop was recorded gets none. *)
Theorem stop_exact ch t c db J T : represents db J → healthy ch → J !! t = Some T → submitted (j_log T) c →
  match stop_requests db !! c with
  | Some row => attempt ch (admit_stop_body t c) db = (Ok (Recorded (stop_delivered row)), db)
  | None =>
      if ends (stream_of c (j_log T)) then attempt ch (admit_stop_body t c) db = (Ok AlreadyEnded, db)
      else
        ∃ db', attempt ch (admit_stop_body t c) db = (Ok (Recorded false), db') ∧ represents db' J ∧
          (∀ n ps, ps ∈ load_pending_stops n db' ↔
             ps ∈ load_pending_stops n db ∨ ps = MkPendingStop t c ∧ n = j_node T) ∧
          ∀ calls ch2, typed_calls calls = true → spares calls t → healthy ch2 →
            (∀ n, MkPendingStop t c ∈ load_pending_stops n (lifetime calls db') ↔
               n = j_node T ∧ ¬ acknowledges_stop calls n t c) ∧
            ∃ delivered, attempt ch2 (admit_stop_body t c) (lifetime calls db') =
                (Ok (Recorded delivered), lifetime calls db') ∧
              (delivered = true ↔ acknowledges_stop calls (j_node T) t c)
  end.
Proof.
  intros HR Hh HJ Hc. rewrite attempt_healthy by done. unfold commit. rewrite (stop_run t c db J T) by done.
  destruct (stop_requests db !! c) as [row|] eqn:Hs; [done|]. destruct (ends _); [done|].
  eexists. split; [done|].
  assert (represents (with_stops (<[c := MkStopRow (next_rowid stop_rowid (stop_requests db)) false]> (stop_requests db)) db) J)
    as HR'.
  { apply represents_stops; [done|]. intros c' s [[<- _]|[_ Hc']]%lookup_insert_Some; [|by eapply (rp_stops _ _ HR)].
    destruct (submitted_row _ _ _ _ _ (rp_commands _ _ HR) HJ Hc) as (krow & -> & _). done. }
  split_and!; [done| |].
  - intros n ps. rewrite (pending_stops_log _ _ J), (pending_stops_log _ _ J) by done. cbn. split.
    + intros (T' & row & HT' & Hn & Hsub & [[Ec <-]|[Hne Hr]]%lookup_insert_Some & Hd); [right|left; eauto 10].
      destruct ps as [t' c']. cbn in *. subst c'.
      destruct (submitted_row _ _ _ _ _ (rp_commands _ _ HR) HT' Hsub) as (k1 & Hk1 & E1),
        (submitted_row _ _ _ _ _ (rp_commands _ _ HR) HJ Hc) as (k2 & Hk2 & E2). split; congruence.
    + intros [(T' & row & HT' & Hn & Hsub & Hr & Hd)|[-> ->]].
      * exists T', row. rewrite lookup_insert_ne by congruence. done.
      * cbn. eexists T, _. rewrite lookup_insert_eq. done.
  - intros calls ch2 Hty Hsp Hh2.
    destruct (lifetime_rows calls _ J t T c HR' HJ Hc Hty Hsp) as [_ HS].
    destruct (HS _ (lookup_insert_eq _ _ _)) as (row' & Hrow' & HD).
    destruct (lifetime_grows calls _ J t T HR' Hty Hsp HJ) as (J2 & T2 & HR2 & HJ2 & [Hb [ks Hk]]).
    assert (submitted (j_log T2) c) as Hc2 by (rewrite Hk; by apply submitted_app_l).
    assert (j_node T2 = j_node T) as Hn2 by (by injection Hb). split.
    + intros n. rewrite (pending_stops_log _ _ J2) by done. cbn [ps_task ps_command]. rewrite HJ2, Hrow'. split.
      * intros (? & ? & [= <-] & <- & _ & [= <-] & Hd). rewrite Hn2. split; [done|].
        intros Ha. rewrite (proj2 HD) in Hd by (by right). done.
      * intros [-> Hna]. exists T2, row'. split_and!; try done. apply not_true_is_false. intros [?|?]%HD; done.
    + exists (stop_delivered row'). rewrite attempt_healthy by done. unfold commit.
      rewrite (stop_run t c _ J2 T2), Hrow' by done. split; [done|]. rewrite HD. cbn. naive_solver.
Qed.
End tasks.

(** ** Instances *)
Section examples.
Import ControlJson.

(** The chat has a command in flight. *)
Lemma delete_exact_witness : ∃ J T, represents opened J ∧ J !! chat = Some T ∧ ¬ quiescent (j_log T) ∧
  attempt choice (delete_body owner chat) opened =
    (Err (conflict ("task " +:+ show_id chat +:+ " has an execution in flight; delete it once that finishes")), opened).
Proof.
  destruct opened_chat as (J & T & HR & HJ & Hb & _). exists J, T. split_and!; [exact HR|exact HJ|..];
    pose proof (delete_exact choice owner chat opened J HR eq_refl) as HD; rewrite HJ in HD; injection Hb as Hp _ _;
    rewrite decide_False in HD by (intros Hn; by apply Hn); destruct HD as [(_ & n & db' & E & _)|[Hq E]];
    try done; exfalso; revert E;
    assert (match (attempt choice (delete_body owner chat) opened).1 with Ok _ => false | Err _ => true end = true)
      as Hc by (by vm_compute); intros E; by rewrite E in Hc.
Defined.

Lemma list_tasks_exact_witness : ∃ J sums, represents opened J ∧ list_tasks owner opened = Ok sums ∧
  NoDup (summary_task <$> sums).
Proof.
  destruct opened_chat as (J & T & HR & _). destruct (list_tasks_exact owner opened J HR) as (sums & H1 & H2 & _).
  exists J, sums. auto.
Defined.

Lemma suffix_exact_witness : ∃ J T events, represents opened J ∧ J !! chat = Some T ∧
  load_suffix chat owner None opened = Ok (MkTaskSuffix (last_sequence (j_log T)) events) ∧ te_kind <$> events = j_log T.
Proof.
  destruct opened_chat as (J & T & HR & HJ & Hb & _). injection Hb as Hp _ _.
  pose proof (suffix_exact owner chat None opened J HR ltac:(done)) as HS. rewrite HJ, decide_False in HS by (by intros Hn).
  cbn in HS. rewrite decide_False in HS by lia. destruct HS as (events & H1 & H2 & _). exists J, T, events. auto.
Defined.

(** The node acknowledges in between, and is sent nothing afterwards. *)
Lemma delivered_until_acknowledged_witness : ∃ env ev db1,
  attempt choice (admit_command_body choice chat owner surface1 ask (from_text "hi") true) bound =
    (Ok (CommandAdmitted env ev), db1) ∧
  (∃ l, load_pending_executions node db1 = Ok l ∧ MkPendingExecution chat env ∈ l) ∧
  ∃ l, load_pending_executions node (lifetime [(choice, CallAcknowledge node chat ask)] db1) = Ok l ∧
    MkPendingExecution chat env ∉ l.
Proof.
  destruct (journals_of (take 2 opening) eq_refl) as [J HR].
  destruct (load_task_ok bound J chat (MkStoredTask owner node "main") (rp_journal _ _ HR)) as (T & HJ & Hb); [by vm_compute|].
  destruct (computed (attempt choice (admit_command_body choice chat owner surface1 ask (from_text "hi") true) bound)
    (λ a, match a with CommandAdmitted _ _ => true | _ => false end)) as (a & db1 & E & Ha); [by vm_compute|].
  destruct a as [|env ev|]; [done| |done]. exists env, ev, db1. split; [exact E|]. injection Hb as _ Hn _.
  pose proof (delivered_until_acknowledged choice chat owner surface1 ask (from_text "hi") true bound env ev db1 J T
    HR eq_refl HJ E) as HD. split.
  - destruct (HD [] node eq_refl) as (l & J2 & H1 & _ & _ & H2 & _). exists l. split; [exact H1|].
    apply H2; [by intros (? & ?%elem_of_nil & _)|]. split; [exact Hn|]. by intros (? & ?%elem_of_nil & _).
  - destruct (HD [(choice, CallAcknowledge node chat ask)] node eq_refl) as (l & J2 & H1 & _ & _ & H2 & _).
    exists l. split; [exact H1|]. intros Hin. apply H2 in Hin as [_ Hna].
    + apply Hna. exists choice. split; [by left|reflexivity].
    + by intros (cc & [->|[]%elem_of_nil]%elem_of_cons & []).
Defined.

Lemma stop_exact_witness : ∃ db', attempt choice (admit_stop_body chat ask) opened = (Ok (Recorded false), db') ∧
  MkPendingStop chat ask ∈ load_pending_stops node db' ∧
  MkPendingStop chat ask ∉ load_pending_stops node (lifetime [(choice, CallAcknowledgeStop node chat ask)] db').
Proof.
  destruct opened_chat as (J & T & HR & HJ & Hb & Hin). injection Hb as _ Hn _.
  assert (submitted (j_log T) ask) as Hc by (by exists owners_command).
  pose proof (stop_exact choice chat ask opened J T HR eq_refl HJ Hc) as HS.
  assert (stop_requests opened !! ask = None) as Hs by (by vm_compute). rewrite Hs in HS.
  assert (match (attempt choice (admit_stop_body chat ask) opened).1 with Ok (Recorded _) => true | _ => false end = true)
    as Hr by (by vm_compute).
  destruct (ends _); [by rewrite HS in Hr|]. destruct HS as (db' & E & _ & HP & HL). exists db'. split; [exact E|].
  split; [apply HP; right; by split|].
  destruct (HL [(choice, CallAcknowledgeStop node chat ask)] choice eq_refl) as [H1 _]; [|reflexivity|].
  - by intros (cc & [->|[]%elem_of_nil]%elem_of_cons & []).
  - rewrite H1. intros [_ Hna]. apply Hna. exists choice. split; [by left|reflexivity].
Defined.
End examples.
