(* ===== verification/ControlAgentTheorems.v ===== *)
(** * Theorems about agents' messages, replies and wakes *)
From S2P Require Import Prelude Json Text Protocol ProtocolTheorems Transaction Control.
From S2P Require Import ControlStore Journals ControlRep ControlPublish ControlRuns ControlReads.
From S2P Require Import ControlDelivery ControlTheorems.
Section agents.
Context `{CS : ControlSerde} `{LT : LibraryTexts} `{DG : Digest} `{!ControlSerdeLaws}.
Implicit Types (db : ControlDb) (ch : ControlChoice) (J : Journals) (T : Journal) (t : TaskId) (c : CommandId).

















(** ** Wakes *)
Definition gen_of (m : gmap PrincipalId WakeRow) p : Z := default 0 (generation <$> m !! p).
Definition settled_of (m : gmap PrincipalId WakeRow) p : Z := default 0 (settled_at <$> m !! p).

Lemma wakes_counted db p ks : ∀ m,
  let m' := foldl (wake_once db p) m ks in
  gen_of m' p = gen_of m p + Z.of_nat (length (List.filter (waking db) ks)) ∧ settled_of m' p = settled_of m p ∧
  ∀ p', p' ≠ p → m' !! p' = m !! p'.
Proof.
  induction ks as [|k ks IH]; intros m; cbn [foldl List.filter]; [split_and!; [cbn; lia|done..]|].
  destruct (IH (wake_once db p m k)) as (-> & -> & IH3). unfold wake_once in *. destruct (waking db k); [|done].
  cbn [length]. unfold gen_of, settled_of. rewrite !lookup_insert_eq. split_and!.
  - destruct (m !! p); cbn; lia.
  - by destruct (m !! p).
  - intros p' Hne. rewrite IH3 by done. by rewrite lookup_insert_ne.
Qed.

Lemma elem_of_owed db o : o ∈ owed_wakes db ↔ ∃ w, push_wakes db !! owed_principal o = Some w ∧ owed w = true ∧
  owed_generation o = generation w ∧ owed_ring o = (if rings w then Some (ring_generation w) else None).
Proof.
  unfold owed_wakes. rewrite list_elem_of_fmap. split.
  - intros ([p w] & -> & Hin). rewrite elem_of_order_by, elem_of_select in Hin. naive_solver.
  - intros (w & Hw & Ho & E1 & E2). exists (owed_principal o, w). destruct o. cbn in *. split; [congruence|].
    rewrite elem_of_order_by, elem_of_select. done.
Qed.

Definition wakes_kind (k : TaskEventKind) : bool := bool_decide (is_Some (wake_reason k)).

Lemma waking_records db J t T env new : represents db J → J !! t = Some T → CommandSubmitted env ∈ j_log T →
  List.filter (waking db) (ExecutionRecord (command_id env) <$> new) =
    if input_quiet (input env) then [] else List.filter wakes_kind (ExecutionRecord (command_id env) <$> new).
Proof.
  intros HR HJ Hin. destruct (submitted_stored _ _ _ _ _ HR HJ Hin) as (row & Hr & _ & _ & Hd).
  assert (quiet_command db (command_id env) = input_quiet (input env)) as Hq.
  { unfold quiet_command. rewrite Hr. cbn. by rewrite Hd. }
  induction new as [|e new IH]; cbn [fmap list_fmap List.filter]; [by destruct (input_quiet _)|]. rewrite IH.
  assert (waking db (ExecutionRecord (command_id env) e) =
    negb (input_quiet (input env)) && wakes_kind (ExecutionRecord (command_id env) e)) as ->.
  { unfold waking, wakes_kind. rewrite Hq. destruct (wake_reason _); by destruct (input_quiet _). }
  by destruct (input_quiet _), (wakes_kind _).
Qed.

(** C29. Accepting an event that wakes (a text of the assistant that is not blank,
    or a failure) of a command that is not quiet raises the generation of the
    principal's wake by one, and nobody else's; a quiet command wakes nobody.
    From then on the wake is owed, at that generation or a later one, until it
    is settled at that generation or a later one. *)
Theorem wake_owed_until_settled ch t env es replier db adm db' J T :
  represents db J → J !! t = Some T → CommandSubmitted env ∈ j_log T →
  attempt ch (append_execution_events_body ch t (command_id env) es replier) db = (Ok adm, db') →
  let p := j_principal T in
  let n := if input_quiet (input env) then 0
           else Z.of_nat (length (List.filter wakes_kind (te_kind <$> admitted_events adm))) in
  gen_of (push_wakes db') p = gen_of (push_wakes db) p + n ∧
  settled_of (push_wakes db') p = settled_of (push_wakes db) p ∧
  (∀ p', p' ≠ p → push_wakes db' !! p' = push_wakes db !! p') ∧
  (1 ≤ n → ∀ calls, typed_calls calls = true → ¬ settles calls p (gen_of (push_wakes db') p) →
     ∃ o, o ∈ owed_wakes (lifetime calls db') ∧ owed_principal o = p ∧ gen_of (push_wakes db') p ≤ owed_generation o).
Proof.
  intros HR HJ Hin HT%attempt_ok p n.
  destruct (publish_sound _ _ _ _ _ _ _ _ _ HR HT) as (T' & new & adm1 & db1 & HJ' & HE & _ & E2 & Hr).
  assert (T' = T) as -> by congruence. clear HJ'.
  assert (push_wakes db' = push_wakes db1) as Hw.
  { eapply admit_reply_sound in Hr; [|apply HE]. destruct (reply adm) as [r|]; [|by subst].
    destruct Hr as (? & _ & _ & _ & _ & HS). pose proof (su_other _ _ _ _ _ _ _ HS) as Ho. by injection Ho. }
  destruct (publish_stream _ _ _ _ _ _ _ _ _ HR HT) as (_ & _ & J' & _ & _ & _ & HR' & _).
  rewrite Hw in *. rewrite (ex_wakes _ _ _ _ _ _ _ _ _ HE). fold p.
  destruct (wakes_counted db p (ExecutionRecord (command_id env) <$> new) (push_wakes db)) as (Hg & Hs & Hp).
  rewrite (waking_records db J t T) in Hg by done.
  assert (n = Z.of_nat (length (if input_quiet (input env) then []
    else List.filter wakes_kind (ExecutionRecord (command_id env) <$> new)))) as Hn.
  { unfold n. rewrite E2, (proj1 (ex_events _ _ _ _ _ _ _ _ _ HE)). by destruct (input_quiet _). }
  rewrite <- Hn in Hg. split_and!; [done..|]. intros H1 calls Hty Hns.
  set (g := gen_of _ p) in *. set (m' := foldl _ _ _) in *.
  assert (settled_of (push_wakes db) p ≤ gen_of (push_wakes db) p ∧ 0 ≤ gen_of (push_wakes db) p) as [Hle H0].
  { unfold settled_of, gen_of. destruct (push_wakes db !! p) as [w|] eqn:Ew; cbn; [|lia].
    destruct (rp_wakes _ _ HR p w Ew) as (? & ? & _). lia. }
  unfold settled_of, gen_of in Hs, Hle. unfold gen_of in g. destruct (m' !! p) as [w|] eqn:Ew; cbn in g, Hs; [|lia].
  assert (push_wakes db' !! p = Some w) as Hw' by by rewrite Hw, (ex_wakes _ _ _ _ _ _ _ _ _ HE).
  destruct (lifetime_wakes calls db' J' p w g HR' Hty Hns Hw') as (w' & Hl & Ho); [unfold gen_of in *; lia|].
  exists (MkOwedWake p (generation w') (if rings w' then Some (ring_generation w') else None)). cbn.
  split_and!; [|done|lia]. apply elem_of_owed. cbn. exists w'. split_and!; [done| |done..]. unfold owed. lia.
Qed.
End agents.

(** ** Instances *)
Section examples.
Import ControlJson.



Lemma wake_owed_until_settled_witness : ∃ adm db', attempt choice (append_execution_events_body choice chat ask [started; said] "Main") opened = (Ok adm, db') ∧
  gen_of (push_wakes db') owner = gen_of (push_wakes opened) owner + 1 ∧
  ∃ o, o ∈ owed_wakes db' ∧ owed_principal o = owner.
Proof.
  destruct opened_chat as (J & T & HR & HJ & Hb & Hin). injection Hb as Hp _ _.
  destruct (computed (attempt choice (append_execution_events_body choice chat ask [started; said] "Main") opened)
    (λ a, Nat.eqb (length (List.filter wakes_kind (te_kind <$> admitted_events a))) 1)) as (adm & db' & E & Ha); [by vm_compute|].
  apply Nat.eqb_eq in Ha. exists adm, db'. split; [exact E|].
  destruct (wake_owed_until_settled choice chat owners_command [started; said] "Main" opened adm db' J T HR HJ Hin E)
    as (H1 & _ & _ & H4). rewrite Hp in H1, H4. cbn in H1, H4. rewrite Ha in H1, H4. split; [exact H1|].
  destruct (H4 ltac:(lia) [] eq_refl) as (o & Ho & Hop & _); [by intros (? & ? & ?%elem_of_nil & _)|]. exists o. auto.
Defined.
End examples.
