(* ===== verification/IdentityTheorems.v ===== *)
(** * Theorems about devices and browsers

    Invariants over whole lifetimes, permanence of revocation, exact sign-in,
    one-time tokens, replayed passkey assertions, pairings and logouts. *)
From S2P Require Import Prelude Json Text Protocol Transaction Control Identity Browser IdentitySound.
From S2P Require Import ProtocolTheorems ControlStore Journals ControlRep ControlTheorems.
Section theorems.
Context `{CS : ControlSerde} `{LT : LibraryTexts} `{DG : Digest} `{DC : DeviceCrypto} `{WA : !WebAuthn}.
Context `{!ControlSerdeLaws}.
Implicit Types (i : IdentityDb) (d : DeviceId) (p : PrincipalId) (fail : option ControlError).

(** C35. whatever is called, in any order and with any failures, the tables of
    devices and browsers stay well formed: a registered key is valid, belongs
    to one device and that device to the key's principal; no two devices share
    a credential; a principal has at most 32 active keyed devices; push tokens
    and notices belong to devices that are not revoked; a remembered login
    names a passkey of its principal; at most 64 ceremonies are open. *)
Theorem identity_kept calls : Forall typed_identity calls → identity_wf (identity_lifetime calls empty_identity).
Proof. intros Hty. apply (lifetime_evolves calls empty_identity Hty identity_wf_empty). Qed.

Lemma lifetime_moved calls i : Forall typed_identity calls → identity_wf i →
  moved_by (λ t, ∃ call, call ∈ calls ∧ creates call t) i (identity_lifetime calls i).
Proof. intros Hty Hwf. by apply lifetime_evolves. Qed.

(** ** Revocation *)
Definition is_revoked i d : Prop := ∃ row, devices i !! d = Some row ∧ d_revoked row = true.

Lemma revoked_stays i i' d : identity_le i i' → is_revoked i d → is_revoked i' d.
Proof. intros HL (row & Hr & Hv). destruct (il_devices _ _ HL d row Hr) as (row' & ? & _ & ?). exists row'. auto. Qed.

Lemma revoked_not_device i d p : is_revoked i d → ¬ device_of i d p.
Proof. intros (row & Hr & Hv) (row' & s & Hr' & Hv' & _). congruence. Qed.

Lemma revoked_inactive i d : is_revoked i d → is_active i d = false.
Proof. intros (row & Hr & Hv). unfold is_active. by rewrite Hr, Hv. Qed.

Lemma device_of_key_spec key i d k : identity_wf i → device_keys i !! d = Some k → dk_public_key k = key →
  ∃ row, devices i !! d = Some row ∧ device_of_key key i = Some (d, row).
Proof.
  intros Hwf Hk <-. destruct (iw_keys _ Hwf d k Hk) as (_ & row & surface & Hr & _). exists row. split; [done|].
  unfold device_of_key. destruct (select _ _) as [|[d' k'] rest] eqn:Es.
  - exfalso. assert ((d, k) ∈ ([] : list (DeviceId * DeviceKeyRow))) as Hin.
    { rewrite <- Es. apply elem_of_select. split; [done|]. rewrite String.eqb_refl, Hr. by rewrite bool_decide_true. }
    by apply not_elem_of_nil in Hin.
  - assert ((d', k') ∈ (d', k') :: rest) as Hin by left. rewrite <- Es in Hin.
    apply elem_of_select in Hin as [Hk' Hb]. split_bools.
    assert (d' = d) as -> by (by eapply iw_distinct). cbn. by rewrite Hr.
Qed.

Lemma device_of_key_none key i : (∀ d k, device_keys i !! d = Some k → dk_public_key k ≠ key) → device_of_key key i = None.
Proof.
  intros Hn. unfold device_of_key. destruct (select _ _) as [|[d k] rest] eqn:Es; [done|].
  assert ((d, k) ∈ (d, k) :: rest) as Hin by left. rewrite <- Es in Hin. apply elem_of_select in Hin as [Hk Hb]. split_bools.
  by destruct (Hn d k Hk).
Qed.

(** C32. a device that was revoked, by its owner or locally, never comes back:
    whatever happens afterwards, no credential of it authenticates, no
    connection of it is accepted, it is not listed, it is sent no push and
    holds no notice, and its key signs nobody in again. *)
Theorem revocation_permanent fail d i i1 i2 calls p :
  identity_wf i → Forall typed_identity calls →
  revoke_device fail d i = (Ok tt, i1) ∨ (∃ b, revoke_owned_device fail p d i = (Ok b, i1)) →
  i2 = identity_lifetime calls i1 →
  (∀ credentials, cred_device credentials = d → authenticate_device credentials i2 = Err authentication_failed) ∧
  (∀ hash, device_accepts d hash i2 = false) ∧
  (∀ q current summaries, list_devices q current i2 = Ok summaries → d ∉ ds_device <$> summaries) ∧
  (∀ q, d ∉ target_device <$> push_targets q i2) ∧
  (∀ n row, setup_notices i2 !! n = Some row → no_device row ≠ d) ∧
  (∀ k q surface reg, device_keys i2 !! d = Some k → reg_key reg = dk_public_key k →
     ∃ why, classify q surface reg i2 = Err (conflict why)).
Proof.
  intros Hwf Hty Hrev Hi2.
  assert (i1 = without_device d i ∧ is_Some (devices i !! d)) as [-> [row Hrow]].
  { destruct Hrev as [Hr|[b Hr]]; unfold revoke_device, revoke_owned_device in Hr; op_inv; tx_inv;
      match goal with H : mark_revoked _ _ = _ |- _ => rewrite mark_revoked_run in H; injection H as Hb <- end.
    - split; [done|]. by split_bools.
    - split; [done|]. rename select (_ ≫= _ = Some _) into Hk. apply bind_Some in Hk as (k & _ & Hk).
      apply bind_Some in Hk as (row & -> & _). eauto. }
  assert (is_revoked (without_device d i) d) as Hr1.
  { exists (revoked_row row). split; [|done]. cbn. by rewrite lookup_alter_eq, Hrow. }
  pose proof (without_device_wf d i Hwf) as Hwf1. destruct (lifetime_moved calls _ Hty Hwf1) as [Hwf2 Hle _ _].
  pose proof (revoked_stays _ _ d Hle Hr1) as Hr2. rewrite <- Hi2 in Hwf2, Hr2.
  destruct Hr2 as (r & Hr & Hv) eqn:HE; clear HE. assert (is_revoked i2 d) as Hr2' by (by exists r).
  split_and!.
  - intros credentials <-. unfold authenticate_device. destruct (secret_digest _ _); [|done]. cbn.
    rewrite Hr. cbn. by rewrite Hv, andb_false_r.
  - intros hash. unfold device_accepts. by rewrite Hr, Hv, andb_false_r.
  - intros q current summaries Hl Hin. unfold list_devices in Hl. apply list_elem_of_fmap in Hin as (s & -> & Hin).
    destruct (collect_elem _ _ _ _ Hl Hin) as ([d' k] & Hin' & Hs). rewrite merge_sort_Permutation in Hin'.
    apply elem_of_select in Hin' as [_ Hb]. split_bools. unfold summarize_device in Hs. cbn in Hs.
    apply result_bind_ok in Hs as (? & _ & Hs). apply result_bind_ok in Hs as ([] & _ & Hs); [|done].
    apply result_bind_ok in Hs as (? & _ & [= <-]). cbn in *. by rewrite (revoked_inactive _ _ Hr2') in *.
  - intros q Hin. unfold push_targets in Hin. rewrite <- list_fmap_compose in Hin.
    apply list_elem_of_fmap in Hin as ([d' r'] & -> & Hin). rewrite elem_of_order_by in Hin. apply elem_of_select in Hin as [_ Hb].
    split_bools. cbn in *. by rewrite (revoked_inactive _ _ Hr2') in *.
  - intros n row' Hn <-. by eapply revoked_not_device, (iw_notices _ Hwf2 _ _ Hn).
  - intros k q surface reg Hk Hreg. destruct (device_of_key_spec _ _ _ _ Hwf2 Hk (eq_sym Hreg)) as (row' & Hrow' & Hd).
    unfold classify. rewrite Hd. simplify_eq. destruct (iw_peers _ Hwf2 _ _ Hr) as [peer Hp]. unfold decode. rewrite Hp. cbn.
    case_bool_decide; cbn; [rewrite Hv|]; eauto.
Qed.

(** ** Sign-in *)
Lemma generated_credential_ok entropy c h : generated_credential entropy = Ok (c, h) → secret_digest DEVICE_CREDENTIAL c = Some h.
Proof. unfold generated_credential. intros (c' & _ & (h' & Hh%ok_or_ok & [= <- <-])%result_bind_ok)%result_bind_ok. done. Qed.

Lemma key_from_bytes_same key key' : key_from_bytes key = Some key' → key' = key.
Proof. unfold key_from_bytes. case_match; congruence. Qed.

(** What signing in with this key must do. *)
Definition sign_in_outcome p (surface : SurfaceRef) (reg : DeviceRegistration) (new_device : DeviceId) i
    (r : Result ControlError (DeviceId * bool)) : Prop :=
  match r with
  | Ok (d, true) => ∃ k row, device_keys i !! d = Some k ∧ dk_public_key k = reg_key reg ∧ devices i !! d = Some row ∧
      d_revoked row = false ∧ from_str (d_peer_json row) = Some (PeerSurface p surface)
  | Ok (d, false) => d = new_device ∧ (∀ d' k, device_keys i !! d' = Some k → dk_public_key k ≠ reg_key reg) ∧
      Z.of_nat (length (active_keys p i)) < MAX_DEVICES_PER_PRINCIPAL
  | Err e => (∃ why, e = conflict why) ∧
      ((∃ d k row, device_keys i !! d = Some k ∧ dk_public_key k = reg_key reg ∧ devices i !! d = Some row ∧
          (d_revoked row = true ∨ from_str (d_peer_json row) ≠ Some (PeerSurface p surface))) ∨
       (∀ d k, device_keys i !! d = Some k → dk_public_key k ≠ reg_key reg) ∧
       Z.of_nat (length (active_keys p i)) = MAX_DEVICES_PER_PRINCIPAL)
  end.

Lemma key_registered i key : (∃ d k, device_keys i !! d = Some k ∧ dk_public_key k = key) ∨
  (∀ d k, device_keys i !! d = Some k → dk_public_key k ≠ key).
Proof.
  destruct (tbl_exists (λ _ k, String.eqb (dk_public_key k) key) (device_keys i)) eqn:E.
  - apply tbl_exists_spec in E as (d & k & Hk & He). apply String.eqb_eq in He. eauto.
  - rewrite tbl_exists_false in E. right. intros d k Hk. specialize (E d k Hk). by apply String.eqb_neq in E.
Qed.

Lemma classify_outcome p surface reg nd i : identity_wf i →
  sign_in_outcome p surface reg nd i (match classify p surface reg i with
    Ok (Adopt d) => Ok (d, true) | Ok NewDevice => Ok (nd, false) | Err e => Err e end).
Proof.
  intros Hwf. unfold classify. destruct (key_registered i (reg_key reg)) as [(d & k & Hk & He)|Hn].
  - destruct (device_of_key_spec _ _ _ _ Hwf Hk He) as (row & Hr & ->).
    destruct (iw_peers _ Hwf _ _ Hr) as [peer Hp]. unfold decode. rewrite Hp. cbn.
    case_bool_decide as Hpeer; cbn; [destruct (d_revoked row) eqn:Hv; cbn|].
    + split; [eauto|]. left. exists d, k, row. eauto.
    + subst peer. exists k, row. done.
    + split; [eauto|]. left. exists d, k, row. split_and!; [done..|]. right. congruence.
  - rewrite (device_of_key_none _ _ Hn). pose proof (iw_bounded _ Hwf p) as Hb. destruct (Z.leb_spec MAX_DEVICES_PER_PRINCIPAL (Z.of_nat (length (active_keys p i)))); cbn.
    + split; [eauto|]. right. split; [done|]. lia.
    + split_and!; [done|done|lia].
Qed.

(** The device [d] authenticates with exactly this credential. *)
Definition only_credential i d (c : string) (peer : PeerIdentity) (key : string) : Prop :=
  ∃ h, secret_digest DEVICE_CREDENTIAL c = Some h ∧
    authenticate_device (MkDeviceCredentials d c) i = Ok (MkAuthenticatedDevice d peer (Some key) h) ∧
    ∀ c', secret_digest DEVICE_CREDENTIAL c' ≠ Some h →
      authenticate_device (MkDeviceCredentials d c') i = Err authentication_failed.

Lemma authenticates i d c h row k p surface key : secret_digest DEVICE_CREDENTIAL c = Some h →
  devices i !! d = Some row → d_credential_hash row = h → d_revoked row = false →
  from_str (d_peer_json row) = Some (PeerSurface p surface) → device_keys i !! d = Some k →
  key_from_bytes (dk_public_key k) = Some key → only_credential i d c (PeerSurface p surface) key.
Proof.
  intros Hh Hr He Hv Hp Hk Hkey. exists h. split; [done|]. unfold authenticate_device. cbn. split.
  - rewrite Hh. cbn. rewrite Hr. cbn. rewrite He, String.eqb_refl, Hv. cbn. rewrite Hk. cbn. rewrite Hkey. cbn.
    unfold decode. by rewrite Hp.
  - intros c' Hc'. destruct (secret_digest DEVICE_CREDENTIAL c') as [h'|]; [|done]. cbn. rewrite Hr. cbn.
    destruct (String.eqb_spec (d_credential_hash row) h'); [congruence|done].
Qed.

Lemma other_devices i i' d : (∀ d', d' ≠ d → devices i' !! d' = devices i !! d' ∧ device_keys i' !! d' = device_keys i !! d') →
  ∀ credentials, cred_device credentials ≠ d → authenticate_device credentials i' = authenticate_device credentials i.
Proof. intros Hs credentials Hne. unfold authenticate_device. by destruct (Hs _ Hne) as [-> ->]. Qed.

Lemma adopts i d k row p surface reg : identity_wf i → device_keys i !! d = Some k → dk_public_key k = reg_key reg →
  devices i !! d = Some row → d_revoked row = false → from_str (d_peer_json row) = Some (PeerSurface p surface) →
  classify p surface reg i = Ok (Adopt d).
Proof.
  intros Hwf Hk He Hr Hv Hp. destruct (device_of_key_spec _ _ _ _ Hwf Hk He) as (row' & Hr' & Hd).
  unfold classify. rewrite Hd. simplify_eq. unfold decode. rewrite Hp. cbn. by rewrite bool_decide_true, Hv.
Qed.

(** The tables after an adopted and after a new device. *)
Lemma adopt_run d h i : (∀ d' row, devices i !! d' = Some row → d_credential_hash row ≠ h) →
  update_credential_hash d h i = Ok (tt, with_devices (alter (rekeyed h) d (devices i)) i).
Proof.
  intros Hf. unfold update_credential_hash, mbind, Tx_bind, get, constraint. rewrite txn_guard_run; [done|].
  apply negb_true_iff, tbl_exists_false. intros d' row Hr. apply andb_false_iff. right. by apply String.eqb_neq, (Hf d').
Qed.

Lemma new_device_run nd h json reg p now i : identity_wf i → devices i !! nd = None →
  (∀ d' row, devices i !! d' = Some row → d_credential_hash row ≠ h) →
  (∀ d' k, device_keys i !! d' = Some k → dk_public_key k ≠ reg_key reg) →
  let i1 := with_devices (<[nd := MkDeviceRow h json false]> (devices i)) i in
  insert_device nd (MkDeviceRow h json false) i = Ok (tt, i1) ∧
  insert_device_key nd (MkDeviceKeyRow p (reg_key reg) (reg_label reg) now) i1 =
    Ok (tt, with_device_keys (<[nd := MkDeviceKeyRow p (reg_key reg) (reg_label reg) now]> (device_keys i)) i1).
Proof.
  intros Hwf Hn Hf Hk i1. split.
  - unfold insert_device, mbind, Tx_bind, get, constraint. rewrite txn_guard_run by (by apply bool_decide_true).
    rewrite txn_guard_run; [done|]. apply negb_true_iff, tbl_exists_false. intros d' row Hr. by apply String.eqb_neq, (Hf d').
  - unfold insert_device_key, mbind, Tx_bind, get, constraint. cbn [device_keys i1 with_devices devices].
    rewrite txn_guard_run.
    + rewrite txn_guard_run; [rewrite txn_guard_run; [done|]|].
      * apply bool_decide_true. rewrite lookup_insert_eq. eauto.
      * apply negb_true_iff, tbl_exists_false. intros d' k Hr. by apply String.eqb_neq, (Hk d').
    + apply bool_decide_true. destruct (device_keys i !! nd) as [k|] eqn:Ek; [|done].
      destruct (iw_keys _ Hwf _ _ Ek) as (_ & row & s & ? & _). congruence.
Qed.

(** The store after signing in: the row of the device and the row of its key,
    and nothing else, in any table, is other than before. *)
Definition rows_signed_in p (surface : SurfaceRef) (reg : DeviceRegistration) (h : string) (now : Z) i d i' : Prop :=
  ∃ json, from_str json = Some (PeerSurface p surface) ∧
    i' = with_device_keys
           (<[d := MkDeviceKeyRow p (reg_key reg) (reg_label reg)
                (match device_keys i !! d with Some k => dk_created_at_ms k | None => now end)]> (device_keys i))
           (with_devices (<[d := MkDeviceRow h json false]> (devices i)) i).

Lemma alter_insert_found {V} (f : V → V) d (x : V) (m : gmap DeviceId V) :
  m !! d = Some x → alter f d m = <[d := f x]> m.
Proof.
  intros Hx. apply map_eq. intros d'. destruct (decide (d' = d)) as [->|Hne].
  - by rewrite lookup_alter_eq, lookup_insert_eq, Hx.
  - by rewrite lookup_alter_ne, lookup_insert_ne.
Qed.

Lemma adopted_rows p surface reg h now i d k row : identity_wf i →
  device_keys i !! d = Some k → dk_public_key k = reg_key reg → devices i !! d = Some row →
  d_revoked row = false → from_str (d_peer_json row) = Some (PeerSurface p surface) →
  rows_signed_in p surface reg h now i d
    (with_device_keys (alter (relabelled (reg_label reg)) d (device_keys i))
      (with_devices (alter (rekeyed h) d (devices i)) i)).
Proof.
  intros Hwf Hk Hke Hr Hv Hp. exists (d_peer_json row). split; [done|].
  rewrite (alter_insert_found _ _ _ _ Hk), (alter_insert_found _ _ _ _ Hr), Hk.
  destruct (iw_keys _ Hwf _ _ Hk) as (_ & row' & s & Hr' & Hp'). unfold relabelled, rekeyed.
  assert (dk_principal k = p) as -> by congruence. by rewrite Hke, Hv.
Qed.

Lemma new_rows p surface reg h now i nd json : identity_wf i → devices i !! nd = None →
  from_str json = Some (PeerSurface p surface) →
  rows_signed_in p surface reg h now i nd
    (with_device_keys (<[nd := MkDeviceKeyRow p (reg_key reg) (reg_label reg) now]> (device_keys i))
      (with_devices (<[nd := MkDeviceRow h json false]> (devices i)) i)).
Proof.
  intros Hwf Hnd Hp. exists json. split; [done|]. destruct (device_keys i !! nd) as [k|] eqn:Ek; [|done].
  destruct (iw_keys _ Hwf _ _ Ek) as (_ & row & s & ? & _). congruence.
Qed.

(** C33. signing in with a key and a fresh credential does what it must: a
    known active key of the same principal and surface adopts its device, an
    unknown key makes a new device unless the principal has 32, anything else
    is refused and changes nothing. Afterwards the device authenticates with
    the new credential and no other, under the principal and surface signed in,
    its key row carries the label given (and, for an adopted device, the time
    it was first registered), every other row of the devices, of the
    keys and of all other tables is as before, so all other devices
    authenticate as before, and signing in again with the same key adopts the
    same device. *)
Theorem sign_in_exact p surface reg entropy c h nd now i :
  identity_wf i → typed_registration reg → generated_credential entropy = Ok (c, h) →
  (∀ d row, devices i !! d = Some row → d_credential_hash row ≠ h) → devices i !! nd = None →
  is_Some (to_string (PeerSurface p surface)) →
  ∃ r, sign_in_outcome p surface reg nd i r ∧
    match r with
    | Ok (d, again) => ∃ i',
        sign_in_device p surface reg entropy nd now i = Ok (MkSignedInDevice (MkDeviceCredentials d c) again, i') ∧
        rows_signed_in p surface reg h now i d i' ∧
        only_credential i' d c (PeerSurface p surface) (reg_key reg) ∧
        (∀ credentials, cred_device credentials ≠ d → authenticate_device credentials i' = authenticate_device credentials i) ∧
        classify p surface reg i' = Ok (Adopt d)
    | Err e => sign_in_device p surface reg entropy nd now i = Err e
    end.
Proof.
  intros Hwf Hreg Hgen Hfresh Hnd [json Hjson]. pose proof (generated_credential_ok _ _ _ Hgen) as Hh.
  destruct Hreg as [key Hkey]. pose proof (key_from_bytes_same _ _ Hkey) as ->.
  eexists. split; [by apply (classify_outcome p surface reg nd i Hwf)|].
  pose proof (classify_outcome p surface reg nd i Hwf) as Ho.
  assert (∀ i' s, sign_in_device p surface reg entropy nd now i = Ok (s, i') → identity_wf i') as Hkeep.
  { intros i' s HT. by eapply (sign_in_device_wf _ _ _ _ _ _ ltac:(by eexists) _ _ _ HT). }
  assert (∀ r, classify p surface reg i = r → sign_in_device p surface reg entropy nd now i =
    match r with Ok a => (match a with
      | Adopt d => _ ← update_credential_hash d h;
          _ ← write (λ i, with_device_keys (alter (relabelled (reg_label reg)) d (device_keys i)) i);
          mret (MkSignedInDevice (MkDeviceCredentials d c) true)
      | NewDevice => peer_json ← lift (encode (PeerSurface p surface));
          _ ← insert_device nd (MkDeviceRow h peer_json false);
          _ ← insert_device_key nd (MkDeviceKeyRow p (reg_key reg) (reg_label reg) now);
          mret (MkSignedInDevice (MkDeviceCredentials nd c) false)
      end) i | Err e => Err e end) as Hrun.
  { intros r <-. unfold sign_in_device. rewrite (txn_run _ _ _ _ _ (txn_lift_run _ _ i Hgen)). cbn [fst snd].
    destruct (classify p surface reg i) as [a|e] eqn:Ec; [by rewrite (txn_run _ _ _ _ _ (txn_read_run _ _ _ Ec))|].
    apply txn_run_err. unfold read, lift. by rewrite Ec. }
  destruct (classify p surface reg i) as [[d|]|e]; specialize (Hrun _ eq_refl); cbn beta iota in Hrun; cbn in Ho |- *.
  - destruct Ho as (k & row & Hk & Hke & Hr & Hv & Hp).
    rewrite (txn_run _ _ _ _ _ (adopt_run d h i Hfresh)) in Hrun. eexists. split; [exact Hrun|].
    split_and!.
    + exact (adopted_rows p surface reg h now i d k row Hwf Hk Hke Hr Hv Hp).
    + eapply (authenticates _ _ _ h (rekeyed h row) (relabelled (reg_label reg) k)); [done|..]; cbn;
        rewrite ?lookup_alter_eq, ?Hr, ?Hk; try done. congruence.
    + apply other_devices. intros d' Hne. cbn. by rewrite !lookup_alter_ne by done.
    + eapply (adopts _ _ (relabelled (reg_label reg) k) (rekeyed h row)); [by eapply Hkeep, Hrun|..]; cbn;
        rewrite ?lookup_alter_eq, ?Hr, ?Hk; done.
  - destruct Ho as (_ & Hnk & _).
    assert (encode (PeerSurface p surface) = Ok json) as He by (unfold encode; by rewrite Hjson).
    rewrite (txn_run _ _ _ _ _ (txn_lift_run _ json i He)) in Hrun.
    destruct (new_device_run nd h json reg p now i Hwf Hnd Hfresh Hnk) as [HA HB].
    rewrite (txn_run _ _ _ _ _ HA), (txn_run _ _ _ _ _ HB) in Hrun. eexists. split; [exact Hrun|].
    pose proof (encode_peer _ _ He) as Hpeer.
    split_and!.
    + exact (new_rows p surface reg h now i nd json Hwf Hnd Hpeer).
    + eapply (authenticates _ _ _ h); [done|cbn; by rewrite lookup_insert_eq|done..|cbn; by rewrite lookup_insert_eq|done].
    + apply other_devices. intros d' Hne. cbn. by rewrite !lookup_insert_ne by done.
    + eapply adopts; [by eapply Hkeep, Hrun|cbn; by rewrite lookup_insert_eq|done|cbn; by rewrite lookup_insert_eq|done..].
  - exact Hrun.
Qed.
(** ** One-time tokens *)

(** The token a call spends, and whether the call is granted. *)
Definition spends (call : IdentityCall) (t : Token) : Prop :=
  match call with
  | IClaimEnrollment _ _ _ _ token => ∃ h, secret_digest ENROLLMENT token = Some h ∧ t = TEnrollment h
  | IStartRegistration _ token _ _ => ∃ h, secret_digest PASSKEY_BOOTSTRAP token = Some h ∧ t = TBootstrap h
  | IFinishRegistration _ ceremony _ _ => t = TRegistration ceremony
  | IFinishAuthentication _ ceremony _ _ => t = TAuthentication ceremony
  | IClaimTicket _ ticket _ => ∃ h, secret_digest CONNECTION_TICKET ticket = Some h ∧ t = TTicket h
  | IRedeemShare _ _ ticket _ => ∃ h, secret_digest SHARE_TICKET ticket = Some h ∧ t = TShare h
  | _ => False
  end.
Definition granted (call : IdentityCall) i : Prop :=
  match call with
  | IClaimEnrollment fail entropy d now token => ∃ c i', claim_enrollment fail entropy d now token i = (Ok c, i')
  | IStartRegistration draw token surface device => ∃ c i', start_registration draw token surface device i = (Ok c, i')
  | IFinishRegistration draw n credential proof => ∃ s i', finish_registration draw n credential proof i = (Ok s, i')
  | IFinishAuthentication draw n credential proof => ∃ s i', finish_authentication draw n credential proof i = (Ok s, i')
  | IClaimTicket fail ticket now => ∃ peer i', claim_connection_ticket fail ticket now i = (Ok peer, i')
  | IRedeemShare fail share ticket now => ∃ p i', redeem_share_ticket fail share ticket now i = (Ok (Some p), i')
  | _ => False
  end.

Lemma not_some {A} (o : option A) : o = None → ¬ is_Some o.
Proof. intros ->. by intros [? ?]. Qed.
#[local] Hint Resolve not_some : core.

Lemma claim_ceremony_spends {State} `{!Serde State} fail table n now i c i1 t : known_table table → ceremony_token table n t →
  identity_wf i → claim_ceremony (State := State) fail table n now i = (Ok c, i1) →
  held i t ∧ ¬ held i1 t ∧ identity_wf i1 ∧ typed_device (ceremony_device c).
Proof.
  intros Htable Ht Hwf Hc. rewrite (assoc (∧)). split; [|split; [|by eapply claim_ceremony_typed]].
  - unfold claim_ceremony, take_sign_in in Hc. op_inv. tx_inv.
    rename select (_ ≫= _ = Some _) into Hrow. apply bind_Some in Hrow as (row & Hrow & _).
    rename select (remove_expired_identity_records _ _ = _) into Hx. apply write_ok in Hx. subst.
    destruct Ht as [[-> ->]|[-> ->]]; cbn in *; apply map_lookup_filter_Some in Hrow as [? _];
      (split; [by eexists|apply not_some, lookup_delete_eq]).
  - pose proof (evolves_claim_ceremony (State := State) (λ _, True) fail table n now Htable i Hwf) as Hev.
    rewrite Hc in Hev. apply Hev.
Qed.

Lemma insert_ceremony_bootstraps table n row device i u i' : known_table table →
  insert_ceremony table n row device i = Ok (u, i') → passkey_bootstraps i' = passkey_bootstraps i.
Proof.
  intros Htable HT. unfold insert_ceremony, save_sign_in in HT. itx_inv.
  destruct Htable as [->| ->], device; cbn in *; by itx_inv.
Qed.

(** What is claimed is gone, whatever the rest of the call does. *)
Lemma stays_spent {A} (o : IOp A) i r i' t : identity_wf i → op_follows (evolves_by (.≠ t)) o → o i = (r, i') →
  ¬ held i t → ¬ held i' t.
Proof. intros Hwf Ho Hr Hn Hh. specialize (Ho i Hwf). rewrite Hr in Ho. destruct (mb_held _ _ _ Ho t Hh); done. Qed.

Lemma granted_spends call i t : identity_wf i → spends call t → granted call i → held i t ∧ ¬ held (run_identity call i) t.
Proof.
  intros Hwf Hsp Hgr. destruct call; cbn in Hsp, Hgr; try done;
    match goal with H : ∃ _ _, _ |- _ => destruct H as (? & ? & Hgr) end; cbn [run_identity]; rewrite Hgr; cbn [snd].
  - destruct Hsp as (h & Hh & ->). unfold claim_enrollment, claim_body in Hgr. op_inv. tx_inv. simplify_eq.
    rename select (insert_device _ _ _ = _) into Hd. apply insert_device_run in Hd as [-> _]. cbn.
    rename select (_ ≫= _ = Some _) into Hrow. apply bind_Some in Hrow as (row & Hrow & _).
    split; [by eexists|apply not_some, lookup_delete_eq].
  - destruct Hsp as (h & Hh & ->). unfold start_registration, save_registration_ceremony, reading in Hgr. op_inv.
    tx_inv. simplify_eq. rename select (insert_ceremony _ _ _ _ _ = _) into Hi.
    apply insert_ceremony_bootstraps in Hi; [|by left]. cbn in *.
    rename select (load_registration_bootstrap _ _ _ = _) into Hb. apply result_bind_ok in Hb as (h' & Hh' & Hb).
    apply result_bind_ok in Hb as (now & _ & Hb). apply result_bind_ok in Hb as (p & Hp & _). ok_ors. simplify_eq.
    apply bind_Some in Hp as (row & Hrow & _). split; [by eexists|]. rewrite Hi. apply not_some, lookup_delete_eq.
  - subst t. unfold finish_registration, claim_registration_ceremony in Hgr. op_inv.
    rename select (claim_ceremony _ _ _ _ _ = _) into Hc. rename select (complete_registration _ _ _ _ _ _ = _) into Hr.
    destruct (claim_ceremony_spends (State := PasskeyRegistration) _ _ _ _ _ _ _ (TRegistration ceremony) ltac:(by left) ltac:(by left) Hwf Hc)
      as (Hh & Hn & Hwf1 & Hty).
    split; [done|]. eapply stays_spent; [exact Hwf1| |exact Hr|exact Hn].
    apply evolves_complete_registration; [done|]. by intros t [(h & _ & ->)|(h & _ & ->)].
  - subst t. unfold finish_authentication, claim_authentication_ceremony in Hgr. op_inv.
    rename select (claim_ceremony _ _ _ _ _ = _) into Hc. rename select (complete_authentication _ _ _ _ _ _ = _) into Hr.
    destruct (claim_ceremony_spends (State := PasskeyAuthentication) _ _ _ _ _ _ _ (TAuthentication ceremony) ltac:(by right) ltac:(by right) Hwf Hc)
      as (Hh & Hn & Hwf1 & Hty).
    split; [done|]. eapply stays_spent; [exact Hwf1| |exact Hr|exact Hn].
    apply evolves_complete_authentication; [done|]. by intros t [(h & _ & ->)|(h & _ & ->)].
  - destruct Hsp as (h & Hh & ->). unfold claim_connection_ticket in Hgr. op_inv. tx_inv. simplify_eq.
    rename select (_ ≫= _ = Some _) into Hrow. apply bind_Some in Hrow as (row & Hrow & _).
    rename select (remove_expired_tickets _ _ = _) into Hx. apply write_ok in Hx. subst. cbn in *.
    apply map_lookup_filter_Some in Hrow as [? _]. split; [by eexists|apply not_some, lookup_delete_eq].
  - destruct Hsp as (h & Hh & ->). unfold redeem_share_ticket in Hgr. rewrite Hh in Hgr. op_inv. tx_inv.
    rename select (Some _ = live_share _ _ _ _) into Hl. rewrite <- Hl. cbn. symmetry in Hl.
    apply bind_Some in Hl as (row & Hrow & _). split; [by eexists|apply not_some, lookup_delete_eq].
Qed.

(** C34. a one-time token is spent once. A call that claims an enrollment,
    starts a registration with a bootstrap token, finishes a ceremony, or
    redeems a connection or share ticket is granted only while the token is
    held, and no call for the same token is granted again, whatever happens in
    between, unless the very same token is issued once more. *)
Theorem one_time call again calls i t :
  identity_wf i → typed_identity call → Forall typed_identity calls → spends call t → spends again t →
  granted call i → (∀ c, c ∈ calls → ¬ creates c t) →
  held i t ∧ ¬ granted again (identity_lifetime calls (run_identity call i)).
Proof.
  intros Hwf Hty Htys Hsp Hag Hgr Hnew. destruct (granted_spends _ _ _ Hwf Hsp Hgr) as [Hh Hn]. split; [done|].
  pose proof (mb_wf _ _ _ (run_identity_evolves call i Hty Hwf)) as Hwf1.
  pose proof (lifetime_moved calls _ Htys Hwf1) as Hm. intros Hgr2.
  destruct (granted_spends _ _ _ (mb_wf _ _ _ Hm) Hag Hgr2) as [Hh2 _].
  destruct (mb_held _ _ _ Hm t Hh2) as [?|(c & Hc & Hcr)]; [done|]. by eapply Hnew.
Qed.

(** ** Replayed assertions *)
Lemma advance_passkey_counter p a i u i' : advance_passkey p a i = Ok (u, i') →
  ∃ row, passkeys i' !! result_cred_id a = Some row ∧ counter a ≤ pk_counter row.
Proof. unfold advance_passkey. intros HT. tx_inv. cbn. rewrite lookup_insert_eq. eexists. split; [done|]. cbn. lia. Qed.

Lemma advance_passkey_refused p a i row : passkeys i !! result_cred_id a = Some row → 0 < pk_counter row →
  counter a ≤ pk_counter row → advance_passkey p a i = Err authentication_failed.
Proof.
  intros Hrow Hpos Hle. unfold advance_passkey, mbind, Tx_bind, read, lift. rewrite Hrow. cbn.
  case_bool_decide; cbn; [|done]. unfold guard. destruct (Z.ltb_spec 0 (pk_counter row)); [|lia].
  destruct (Z.leb_spec (counter a) (pk_counter row)); [done|lia].
Qed.

Lemma insert_session_keys p c grant clock i u i' : insert_session p c grant clock i = Ok (u, i') → passkeys i' = passkeys i.
Proof. unfold insert_session, insert_row. intros HT. by itx_inv. Qed.

Lemma complete_authentication_counter draw n credential proof c a i s i' :
  finish_passkey_authentication credential (ceremony_state c) = Some a → identity_wf i → typed_device (ceremony_device c) →
  complete_authentication draw n credential proof c i = (Ok s, i') →
  ∃ row, passkeys i' !! result_cred_id a = Some row ∧ counter a ≤ pk_counter row.
Proof.
  intros Ha Hwf Hty Hc. unfold complete_authentication in Hc. op_inv. simplify_eq.
  rename select (match ceremony_device c with _ => _ end _ = _) into Hm. destruct (ceremony_device c) as [reg|].
  - unfold update_passkey_and_store_device in Hm. op_inv. tx_inv.
    rename select (advance_passkey _ _ _ = _) into Hp. rename select (sign_in_device _ _ _ _ _ _ _ = _) into Hs.
    destruct (advance_passkey_counter _ _ _ _ _ Hp) as (row & Hrow & Hle).
    pose proof (evolves_advance_passkey (λ _, True) _ _ _ _ _ Hp Hwf) as [Hwf1 _ _ _].
    pose proof (evolves_sign_in (λ _, True) _ _ _ _ _ _ Hty _ _ _ Hs Hwf1) as [_ HL _ _].
    destruct (il_passkeys _ _ HL _ _ Hrow) as (row' & Hrow' & _ & ?). exists row'. split; [done|lia].
  - unfold update_passkey_and_store_ticket in Hm. op_inv. tx_inv.
    rename select (advance_passkey _ _ _ = _) into Hp. rename select (insert_ticket _ _ _ _ _ = _) into Hi.
    rename select (insert_session _ _ _ _ _ = _) into He.
    rewrite (insert_session_keys _ _ _ _ _ _ _ He), (insert_ticket_keys _ _ _ _ _ _ _ Hi). by eapply advance_passkey_counter.
Qed.

Lemma complete_authentication_refused draw n credential proof c a i row :
  finish_passkey_authentication credential (ceremony_state c) = Some a → passkeys i !! result_cred_id a = Some row →
  0 < pk_counter row → counter a ≤ pk_counter row →
  ∃ e, complete_authentication draw n credential proof c i = (Err e, i).
Proof.
  intros Ha Hrow Hpos Hle. unfold complete_authentication, mbind, Op_bind, pure_op.
  destruct (check_registration_proof _ _ _); [|by eexists]. rewrite Ha. cbn [ok_or].
  assert (∀ q j, passkeys j = passkeys i → advance_passkey q a j = Err authentication_failed) as Hno.
  { intros q j Hj. eapply advance_passkey_refused; [by rewrite Hj|done..]. }
  destruct (ceremony_device c) as [reg|].
  - unfold update_passkey_and_store_device, mbind, Op_bind, pure_op.
    destruct (timestamp_millis _); [|by eexists]. unfold atomic, commit, mbind, Tx_bind.
    destruct (draw_failure draw 1); [by eexists|]. rewrite Hno by done. by eexists.
  - destruct (new_ticket draw) as [grant|]; [|by eexists].
    unfold update_passkey_and_store_ticket, mbind, Op_bind, pure_op.
    destruct (generated_ticket _); [|by eexists]. do 2 (destruct (timestamp_millis _); [|by eexists]).
    unfold atomic, commit, mbind, Tx_bind. destruct (draw_failure draw 1); [by eexists|].
    unfold remove_expired_tickets, write. rewrite Hno by done. by eexists.
Qed.

(** C36. a passkey assertion cannot be replayed: once an authentication with
    a positive signature counter was completed, every later one of the same
    credential whose counter is not higher is refused, in any ceremony and
    whatever happened in between, and stores nothing. *)
Theorem passkey_replay_refused draw n credential proof c a i s i1 calls draw' n' credential' proof' c' a' :
  identity_wf i → typed_device (ceremony_device c) → Forall typed_identity calls →
  finish_passkey_authentication credential (ceremony_state c) = Some a → 0 < counter a →
  complete_authentication draw n credential proof c i = (Ok s, i1) →
  finish_passkey_authentication credential' (ceremony_state c') = Some a' →
  result_cred_id a' = result_cred_id a → counter a' ≤ counter a →
  ∃ e, complete_authentication draw' n' credential' proof' c' (identity_lifetime calls i1) =
    (Err e, identity_lifetime calls i1).
Proof.
  intros Hwf Hty Htys Ha Hpos Hc Ha' Hid Hle.
  destruct (complete_authentication_counter _ _ _ _ _ _ _ _ _ Ha Hwf Hty Hc) as (row & Hrow & Hrc).
  assert (identity_wf i1) as Hwf1.
  { pose proof (evolves_complete_authentication (λ _, True) draw n credential proof c Hty ltac:(done) i Hwf) as Hev.
    rewrite Hc in Hev. apply Hev. }
  destruct (lifetime_moved calls i1 Htys Hwf1) as [_ HL _ _]. destruct (il_passkeys _ _ HL _ _ Hrow) as (row' & Hrow' & _ & Hrc').
  eapply complete_authentication_refused; [exact Ha'|by rewrite Hid|lia..].
Qed.

(** ** Pairings *)
Lemma redeem_claims hash sh now e i r i' : redeem_body hash sh now e i = Ok (r, i') →
  (∃ row, browser_pairings i' !! hash = Some row ∧ pa_claimed row = Some sh ∧ pa_principal row = r.1) ∧
  ∃ row, browser_pairings i !! hash = Some row ∧ pa_principal row = r.1 ∧
    (∀ s, pa_claimed row = Some s → s = sh ∧ i' = i).
Proof.
  intros HT. unfold redeem_body in HT. tx_inv.
  rename select (_ ≫= _ = Some _) into Hrow. apply bind_Some in Hrow as (row & Hrow & He). destruct (now <? _); [|done]. injection He as ->.
  match goal with H : match pa_claimed ?r with _ => _ end _ = _ |- _ => rename r into row; destruct (pa_claimed row) as [s|] eqn:Hs end; tx_inv.
  - split_bools. subst. split; exists row; naive_solver.
  - rename select (insert_row _ _ _ _ _ _ = _) into Hi. unfold insert_row in Hi. itx_inv. cbn. split; [|exists row; naive_solver].
    rewrite lookup_alter_eq, Hrow. by eexists.
Qed.

Lemma redeem_again hash sh now e i r i' : redeem_body hash sh now e i = Ok (r, i') → now < e →
  redeem_body hash sh now e i' = Ok (r, i').
Proof.
  intros HT Hlt. destruct (redeem_claims _ _ _ _ _ _ _ HT) as [_ (row & Hrow & _ & Hold)].
  destruct (pa_claimed row) as [s|] eqn:Hs; [by destruct (Hold s eq_refl) as [_ ->]|clear Hold].
  unfold redeem_body in HT. tx_inv. rewrite Hrow in *. rename select (_ ≫= _ = Some _) into Hn. cbn in Hn.
  destruct (now <? pa_expires_at_ms row) eqn:Hexp; [|done]. injection Hn as <-. rewrite Hs in *. tx_inv.
  rename select (insert_row _ _ _ _ _ _ = _) into Hi. unfold insert_row in Hi. itx_inv.
  unfold redeem_body, mbind, Tx_bind, read, lift. cbn. rewrite lookup_alter_eq, Hrow. cbn. rewrite Hexp. cbn.
  rewrite String.eqb_refl. cbn. rewrite lookup_insert_eq. cbn. rewrite bool_decide_true by done.
  by rewrite (proj2 (Z.ltb_lt now e) Hlt).
Qed.

Lemma later_millis now later now_ms e : timestamp_millis now = Ok now_ms → time_checked_add now SESSION_LIFETIME = Some later →
  timestamp_millis later = Ok e → now_ms < e.
Proof.
  intros H1 H2 H3. unfold time_checked_add in H2. destruct (in_i64 _); [|done]. injection H2 as <-.
  unfold timestamp_millis in H1, H3. destruct (now <? 0); [done|]. destruct (now + _ <? 0); [done|].
  ok_ors. apply i64_try_from_Some in H1 as [-> _], H3 as [-> _].
  change SESSION_LIFETIME with (15552000000 * MILLI). rewrite Z.div_add by done. lia.
Qed.

(** a pairing link opens one browser. A retry of the redemption returns
    the same session and changes nothing; later, whatever happened in between,
    the link is redeemed only for that very session, of the same principal, and
    redeeming it changes nothing, unless the link is issued once more. *)
Theorem pairing_once fail token nonce now i b i1 h :
  identity_wf i → secret_digest BROWSER_PAIRING token = Some h → pair_browser fail token nonce now i = (Ok b, i1) →
  pair_browser None token nonce now i1 = (Ok b, i1) ∧
  ∀ calls fail' nonce' now' b' i2, Forall typed_identity calls → (∀ c, c ∈ calls → ¬ creates c (TPairing h)) →
    pair_browser fail' token nonce' now' (identity_lifetime calls i1) = (Ok b', i2) →
    i2 = identity_lifetime calls i1 ∧ session_principal b' = session_principal b ∧
    secret_digest BROWSER_SESSION (session_token b') = secret_digest BROWSER_SESSION (session_token b).
Proof.
  intros Hwf Hh Hp.
  assert (moved_by (creates (IPair fail token nonce now)) i i1) as Hm.
  { pose proof (run_identity_evolves (IPair fail token nonce now) i I Hwf) as Hev. cbn [run_identity] in Hev. by rewrite Hp in Hev. }
  unfold pair_browser, redeem in Hp. op_inv. simplify_eq.
  rename select (redeem_body _ _ _ _ _ = _) into Hb. rename select (secret_digest BROWSER_SESSION _ = Some _) into Hsh.
  rename select (session_for _ _ = _) into Hses. rename select (time_checked_add _ _ = _) into Hadd.
  rename select (timestamp_millis now = _) into Hnow. rename select (timestamp_millis _ = Ok _) into Hlater.
  split.
  - unfold pair_browser, redeem, mbind, Op_bind, pure_op. rewrite Hses, Hh. cbn [ok_or]. rewrite Hsh. cbn [ok_or].
    rewrite Hnow, Hadd. cbn [ok_or]. rewrite Hlater.
    unfold atomic, commit. rewrite (redeem_again _ _ _ _ _ _ _ Hb); [done|]. by eapply later_millis.
  - intros calls fail' nonce' now' b' i2 Htys Hnew Hp'. destruct (redeem_claims _ _ _ _ _ _ _ Hb) as [(row & Hrow & Hcl & Hpr) _].
    pose proof (lifetime_moved calls _ Htys (mb_wf _ _ _ Hm)) as Hl. unfold pair_browser, redeem in Hp'. op_inv. simplify_eq.
    rename select (redeem_body _ _ _ _ (identity_lifetime _ _) = _) into Hb'.
    destruct (redeem_claims _ _ _ _ _ _ _ Hb') as [_ (row' & Hrow' & Hpr' & Hcl')].
    destruct (mb_claimed _ _ _ Hl _ _ Hrow') as [(c & Hc & Hcr)|(row0 & Hrow0 & Hp0 & Hc0)]; [by destruct (Hnew c Hc)|].
    simplify_eq. destruct (Hcl' _ (Hc0 _ Hcl)) as [-> ->]. cbn. split_and!; congruence.
Qed.





(** What signing out ends. *)
Definition ends fail (headers : list (option string)) p i i1 (t : Token) : Prop :=
  (∃ token h, cookie_token headers = Some token ∧ secret_digest BROWSER_SESSION token = Some h ∧ t = TSession h ∧
     logout fail headers i = (Ok tt, i1)) ∨
  (revoke_browsers fail p i = (Ok tt, i1) ∧
     ((∃ h row, browser_sessions i !! h = Some row ∧ se_principal row = p ∧ t = TSession h) ∨
      (∃ h row, browser_pairings i !! h = Some row ∧ pa_principal row = p ∧ t = TPairing h))).

Lemma ends_held fail headers p i i1 t : identity_wf i → ends fail headers p i i1 t → identity_wf i1 ∧ ¬ held i1 t.
Proof.
  intros Hwf [(token & h & Hc & Hh & -> & Hl)|[Hr Ht]].
  - pose proof (run_identity_evolves (ILogout fail headers) i I Hwf) as [Hw _ _ _]. cbn in Hw. rewrite Hl in Hw. split; [done|].
    unfold logout in Hl. rewrite Hc in Hl. cbn in Hl. rewrite Hh in Hl. op_inv. rename select (write _ _ = _) into HT.
    apply write_ok in HT as ->. apply not_some, lookup_delete_eq.
  - pose proof (run_identity_evolves (IRevokeBrowsers fail p) i I Hwf) as [Hw _ _ _]. cbn in Hw. rewrite Hr in Hw. split; [done|].
    unfold revoke_browsers in Hr. op_inv. tx_inv.
    destruct Ht as [(h & row & Hrow & <- & ->)|(h & row & Hrow & <- & ->)]; cbn;
      intros [row' [Hrow' Hne]%map_lookup_filter_Some]; cbn in *; by simplify_eq.
Qed.


(** ** A paired browser that signed out *)

(** The link [h], if it is still stored, was claimed by the session [s]. *)
Definition claimed_for (h s : string) i : Prop := ∀ row, browser_pairings i !! h = Some row → pa_claimed row = Some s.

Lemma claimed_stays new h s i i' : ¬ new (TPairing h) → claimed_for h s i → moved_by new i i' → claimed_for h s i'.
Proof.
  intros Hn Hc Hm row Hrow. destruct (mb_claimed _ _ _ Hm _ _ Hrow) as [?|(row0 & Hrow0 & _ & Hs)]; [done|]. by apply Hs, Hc.
Qed.

(** A link whose session is gone opens nothing and changes nothing. *)
Lemma claimed_pair_fails fail token nonce now i h s : secret_digest BROWSER_PAIRING token = Some h → claimed_for h s i →
  ¬ held i (TSession s) → ∃ e, pair_browser fail token nonce now i = (Err e, i).
Proof.
  intros Hh Hc Hn. unfold pair_browser, redeem, mbind, Op_bind, pure_op. destruct (session_for token nonce) as [ses|]; [|by eexists].
  rewrite Hh. cbn [ok_or]. destruct (secret_digest BROWSER_SESSION ses) as [hs|]; [cbn [ok_or]|by eexists].
  destruct (timestamp_millis now) as [ms|]; [|by eexists]. destruct (time_checked_add _ _); [cbn [ok_or]|by eexists].
  destruct (timestamp_millis _); [|by eexists]. unfold atomic, commit. destruct fail; [by eexists|].
  destruct (redeem_body _ _ _ _ i) as [[r i']|e] eqn:E; [exfalso|by eexists].
  destruct (redeem_claims _ _ _ _ _ _ _ E) as [_ (row & Hrow & Hp & Hcl)].
  destruct (Hcl s (Hc row Hrow)) as [<- ->]. unfold redeem_body in E. tx_inv. rename select (_ ≫= _ = Some _) into Hb.
  rewrite Hrow in Hb. cbn in Hb. destruct (ms <? _); [|done]. injection Hb as <-. rewrite (Hc row Hrow) in *. tx_inv.
  rename select (_ ≫= _ = Some _) into Hs. apply bind_Some in Hs as (r0 & Hr0 & _). apply Hn. by exists r0.
Qed.

Lemma lifetime_unpaired token h s calls : secret_digest BROWSER_PAIRING token = Some h → Forall typed_identity calls →
  (∀ c, c ∈ calls → ¬ creates c (TPairing h)) →
  (∀ c, c ∈ calls → creates c (TSession s) → ∃ fail nonce now, c = IPair fail token nonce now) →
  ∀ i, identity_wf i → claimed_for h s i → ¬ held i (TSession s) →
  claimed_for h s (identity_lifetime calls i) ∧ ¬ held (identity_lifetime calls i) (TSession s).
Proof.
  intros Hh Hty Hp Hs. induction Hty as [|call calls Hc Hty IH]; intros i Hwf Hcl Hn; cbn; [done|].
  pose proof (run_identity_evolves call i Hc Hwf) as Hm. apply IH.
  - intros c ?. apply Hp. by right.
  - intros c ?. apply Hs. by right.
  - by eapply mb_wf.
  - eapply claimed_stays; [|exact Hcl|exact Hm]. apply Hp. by left.
  - intros Hh'. destruct (mb_held _ _ _ Hm _ Hh') as [?|Hcr]; [done|].
    destruct (Hs call ltac:(left) Hcr) as (fail & nonce & now & ->). cbn [run_identity] in Hh'.
    destruct (claimed_pair_fails fail token nonce now i h s Hh Hcl Hn) as [e E]. by rewrite E in Hh'.
Qed.

(** a browser that was paired and then signed out is not brought back by
    its link: redeeming the link again, however often, fails, and the session
    is never stored again, unless the link is issued once more or the same
    session is made in another way. *)
Theorem logout_not_undone fail token nonce now i b i1 between fail' headers i2 calls h s :
  identity_wf i → secret_digest BROWSER_PAIRING token = Some h → pair_browser fail token nonce now i = (Ok b, i1) →
  secret_digest BROWSER_SESSION (session_token b) = Some s → cookie_token headers = Some (session_token b) →
  Forall typed_identity (between ++ calls) → logout fail' headers (identity_lifetime between i1) = (Ok tt, i2) →
  (∀ c, c ∈ between ++ calls → ¬ creates c (TPairing h)) →
  (∀ c, c ∈ calls → creates c (TSession s) → ∃ fail nonce now, c = IPair fail token nonce now) →
  ¬ held (identity_lifetime calls i2) (TSession s) ∧
  ∀ fail' nonce' now', ∃ e, pair_browser fail' token nonce' now' (identity_lifetime calls i2) = (Err e, identity_lifetime calls i2).
Proof.
  intros Hwf Hh Hp Hs Hck [Hty1 Hty2]%Forall_app Hlo Hnew Hses.
  pose proof (run_identity_evolves (IPair fail token nonce now) i I Hwf) as Hm. cbn [run_identity] in Hm. rewrite Hp in Hm. cbn in Hm.
  assert (claimed_for h s i1) as Hc1.
  { unfold pair_browser, redeem in Hp. op_inv. simplify_eq. rename select (redeem_body _ _ _ _ _ = _) into Hb. cbn in Hs.
    destruct (redeem_claims _ _ _ _ _ _ _ Hb) as [(row & Hrow & Hcl & _) _]. intros row' ?. by simplify_eq. }
  pose proof (lifetime_moved between i1 Hty1 (mb_wf _ _ _ Hm)) as Hm2. set (j := identity_lifetime between i1) in *.
  destruct (ends_held fail' headers (session_principal b) j i2 (TSession s) (mb_wf _ _ _ Hm2)) as [Hwf2 Hn2].
  { left. exists (session_token b), s. done. }
  assert (claimed_for h s j) as Hcj.
  { eapply claimed_stays; [|exact Hc1|exact Hm2]. intros (c & Hc & Hcr). eapply Hnew; [|exact Hcr]. apply elem_of_app. by left. }
  assert (claimed_for h s i2) as Hc2.
  { pose proof (run_identity_evolves (ILogout fail' headers) j I (mb_wf _ _ _ Hm2)) as Hm3. cbn [run_identity] in Hm3. rewrite Hlo in Hm3.
    eapply claimed_stays; [|exact Hcj|exact Hm3]. by intros []. }
  destruct (lifetime_unpaired token h s calls Hh Hty2) with (i := i2) as [Hc3 Hn3]; [|exact Hses|done..|].
  { intros c Hc. apply Hnew, elem_of_app. by right. }
  split; [done|]. intros fail3 nonce3 now3. by eapply claimed_pair_fails.
Qed.
End theorems.

(** ** Instances *)
Module IdentityJson.
Export ControlJson.

(** Signatures are the signed messages and base64 is the identity. *)
#[export] Instance plain_crypto : DeviceCrypto := {|
  ecdsa_verify key message signature := String.eqb message signature;
  base64_decode s := Some s;
  hmac_sha256 key message := String.substring 0 32 (sha256_bytes message) |}.

(** A passkey is its credential's identity, an assertion names one and a counter. *)
#[export] Instance plain_webauthn : WebAuthn := {
  Passkey := string;
  PasskeyRegistration := string;
  PasskeyAuthentication := string;
  AuthenticationResult := string * Z;
  RegisterPublicKeyCredential := string;
  PublicKeyCredential := string * Z;
  CreationChallengeResponse := N;
  RequestChallengeResponse := N;
  cred_id k := k;
  result_cred_id a := a.1;
  counter a := a.2;
  update_credential k a := Some k;
  start_passkey_registration random user name display excluded := Ok (random, name);
  finish_passkey_registration credential state := Some credential;
  start_passkey_authentication random keys := match keys with [] => Err "no keys" | k :: _ => Ok (random, k) end;
  finish_passkey_authentication credential state := if decide (credential.1 = state) then Some credential else None;
  passkey_serde := {| to_string k := Some (enc c_str k); from_str := dec c_str |};
  registration_serde := {| to_string k := Some (enc c_str k); from_str := dec c_str |};
  authentication_serde := {| to_string k := Some (enc c_str k); from_str := dec c_str |};
}.

Fixpoint repeated (n : nat) (a : Ascii.ascii) : string :=
  match n with O => "" | S n => String a (repeated n a) end.
Definition bytes (n : N) : Entropy := Ok (repeated 32 (Ascii.ascii_of_N n)).
Definition secret_of (n : N) : string := match random_secret (bytes n) with Ok s => s | Err _ => "" end.
Definition draw (n : N) : Draw :=
  MkDraw (1000 * SECOND) (1000 * SECOND) (λ k, bytes (n + N.of_nat k)) n (MkRid (100 + n)) n (λ _, None).
Definition hour : SystemTime := 3600 * SECOND.
Definition phone_key : string := String UNCOMPRESSED_POINT_TAG (repeated 64 Ascii.zero).
Definition phone : DeviceRegistration := MkDeviceRegistration phone_key "Phone".

Definition phone_credential : RegisterPublicKeyCredential := "key".
Definition assertion : PublicKeyCredential := ("key", 7).
Definition assertion_result : AuthenticationResult := ("key", 7).
Definition browser_ceremony : Ceremony PasskeyAuthentication := MkCeremony owner "web" "key" None.

(** A principal registers a phone with its first passkey, then a browser signs
    in with the passkey, and another browser is paired. *)
Definition registering : list IdentityCall :=
  [IBootstrap None (bytes 1) owner hour;
   IStartRegistration (draw 10) (secret_of 1) surface1 (Some phone)].
Definition finish_phone : IdentityCall := IFinishRegistration (draw 12) 10 phone_credential (Some (registration_message 10)).
Definition browsing : list IdentityCall :=
  registering ++ [finish_phone; IStartAuthentication (draw 14) owner "web" None].
Definition pairing : list IdentityCall :=
  browsing ++ [IFinishAuthentication (draw 16) 14 assertion None; ICreatePairing None (bytes 20) owner hour (1000 * SECOND)].

Definition after (calls : list IdentityCall) : IdentityDb := identity_lifetime calls empty_identity.
Definition the_phone : DeviceId := MkRid 112.

Lemma typed_story : Forall typed_identity pairing.
Proof. repeat constructor. eexists. reflexivity. Qed.

Lemma after_wf calls : Forall typed_identity calls → identity_wf (after calls).
Proof. intros Hty. apply (lifetime_evolves calls empty_identity Hty identity_wf_empty). Qed.

Lemma typed_part n : Forall typed_identity (take n pairing).
Proof. apply Forall_take, typed_story. Qed.

Lemma computed_identity {A} (r : Result ControlError A * IdentityDb) :
  (match r.1 with Ok _ => true | Err _ => false end) = true → ∃ a i', r = (Ok a, i').
Proof. destruct r as [[a|] i']; [eauto|done]. Qed.
End IdentityJson.

Section examples.
Import IdentityJson.

Lemma identity_kept_witness : size (devices (after pairing)) = 1%nat ∧ size (browser_sessions (after pairing)) = 1%nat ∧
  identity_wf (identity_lifetime pairing empty_identity).
Proof. split; [by vm_compute|]. split; [by vm_compute|]. apply (identity_kept pairing), typed_story. Defined.

Lemma revocation_permanent_witness : ∃ i1, revoke_device None the_phone (after browsing) = (Ok tt, i1) ∧
  device_keys i1 !! the_phone ≠ None ∧
  ∀ hash, device_accepts the_phone hash (identity_lifetime registering i1) = false.
Proof.
  exists (revoke_device None the_phone (after browsing)).2.
  assert (revoke_device None the_phone (after browsing) = (Ok tt, (revoke_device None the_phone (after browsing)).2)) as E by by vm_compute.
  split; [exact E|]. split; [by vm_compute|].
  destruct (revocation_permanent None the_phone (after browsing) _ _ registering owner (after_wf browsing (typed_part 4)) (typed_part 2)
    (or_introl E) eq_refl) as (_ & H & _). exact H.
Defined.

Lemma sign_in_exact_witness : ∃ d again i', sign_in_device owner surface1 phone (bytes 50) (MkRid 200) 5 (after browsing) =
    Ok (MkSignedInDevice (MkDeviceCredentials d (secret_of 50)) again, i') ∧ d = the_phone ∧ again = true ∧
  rows_signed_in owner surface1 phone (default "" (secret_digest DEVICE_CREDENTIAL (secret_of 50))) 5 (after browsing) d i' ∧
  only_credential i' d (secret_of 50) (PeerSurface owner surface1) phone_key.
Proof.
  destruct (sign_in_exact owner surface1 phone (bytes 50) (secret_of 50)
    (default "" (secret_digest DEVICE_CREDENTIAL (secret_of 50))) (MkRid 200) 5 (after browsing)) as (r & Ho & Hr).
  - apply (after_wf browsing (typed_part 4)).
  - by eexists.
  - by vm_compute.
  - apply map_Forall_lookup. apply (bool_decide_unpack _). by vm_compute.
  - by vm_compute.
  - by eexists.
  - destruct r as [[d again]|e].
    + destruct Hr as (i' & E & Hrows & H & _). exists d, again, i'. split; [exact E|].
      assert (match sign_in_device owner surface1 phone (bytes 50) (MkRid 200) 5 (after browsing) with
        Ok (s, _) => (cred_device (signed_credentials s), adopted s) = (the_phone, true) | Err _ => False end) as C by by vm_compute.
      rewrite E in C. injection C as -> ->. split; [done|]. split; [done|]. split; [exact Hrows|exact H].
    + exfalso. assert (match sign_in_device owner surface1 phone (bytes 50) (MkRid 200) 5 (after browsing) with
        Ok _ => true | Err _ => false end = true) as C by by vm_compute. by rewrite Hr in C.
Defined.

Lemma one_time_witness : granted finish_phone (after registering) ∧
  ¬ granted finish_phone (identity_lifetime [IStartAuthentication (draw 14) owner "web" None] (run_identity finish_phone (after registering))).
Proof.
  assert (granted finish_phone (after registering)) as Hg.
  { destruct (computed_identity (finish_registration (draw 12) 10 phone_credential (Some (registration_message 10)) (after registering)))
      as (s & i' & E); [by vm_compute|]. exists s, i'. exact E. }
  split; [exact Hg|].
  apply (one_time finish_phone finish_phone [IStartAuthentication (draw 14) owner "web" None] (after registering) (TRegistration 10)
    (after_wf registering (typed_part 2))); [done|by repeat constructor|reflexivity|reflexivity|exact Hg|].
  intros c [->|[]%elem_of_nil]%elem_of_cons. discriminate.
Defined.

Lemma passkey_replay_refused_witness : ∃ s i1,
  complete_authentication (draw 16) 14 assertion None browser_ceremony (after browsing) = (Ok s, i1) ∧
  ∃ e, complete_authentication (draw 30) 31 assertion None browser_ceremony i1 = (Err e, i1).
Proof.
  destruct (computed_identity (complete_authentication (draw 16) 14 assertion None browser_ceremony (after browsing)))
    as (s & i1 & E); [by vm_compute|]. exists s, i1. split; [exact E|].
  apply (passkey_replay_refused (draw 16) 14 assertion None browser_ceremony assertion_result (after browsing) s i1 []
    (draw 30) 31 assertion None browser_ceremony assertion_result (after_wf browsing (typed_part 4)) I); [constructor|done|done|exact E|done..].
Defined.

Lemma pairing_once_witness : ∃ b i1, pair_browser None (secret_of 20) (secret_of 60) (1000 * SECOND) (after pairing) = (Ok b, i1) ∧
  pair_browser None (secret_of 20) (secret_of 60) (1000 * SECOND) i1 = (Ok b, i1).
Proof.
  destruct (computed_identity (pair_browser None (secret_of 20) (secret_of 60) (1000 * SECOND) (after pairing)))
    as (b & i1 & E); [by vm_compute|]. exists b, i1. split; [exact E|].
  apply (pairing_once None (secret_of 20) (secret_of 60) (1000 * SECOND) (after pairing) b i1
    (default "" (secret_digest BROWSER_PAIRING (secret_of 20))) (after_wf pairing typed_story)); [by vm_compute|exact E].
Defined.


(** The browser's cookie. *)
Definition cookie (token : string) : list (option string) := [Some (COOKIE_NAME +:+ "=" +:+ token)].

Lemma logout_not_undone_witness : ∃ b i1 i2, pair_browser None (secret_of 20) (secret_of 60) (1000 * SECOND) (after pairing) = (Ok b, i1) ∧
  logout None (cookie (session_token b)) i1 = (Ok tt, i2) ∧
  ∃ e, pair_browser None (secret_of 20) (secret_of 60) (1000 * SECOND)
         (identity_lifetime [IPair None (secret_of 20) (secret_of 60) (1000 * SECOND)] i2) =
       (Err e, identity_lifetime [IPair None (secret_of 20) (secret_of 60) (1000 * SECOND)] i2).
Proof.
  destruct (computed_identity (pair_browser None (secret_of 20) (secret_of 60) (1000 * SECOND) (after pairing)))
    as (b & i1 & E); [by vm_compute|].
  assert (match (pair_browser None (secret_of 20) (secret_of 60) (1000 * SECOND) (after pairing)).1 with
    | Ok b => bool_decide (cookie_token (cookie (session_token b)) = Some (session_token b) ∧
        secret_digest BROWSER_SESSION (session_token b) = Some (default "" (secret_digest BROWSER_SESSION (session_token b))))
    | Err _ => false end = true) as Hc by by vm_compute.
  rewrite E in Hc. apply bool_decide_eq_true in Hc as [Hck Hd].
  exists b, i1, (logout None (cookie (session_token b)) i1).2. split; [exact E|].
  assert (logout None (cookie (session_token b)) i1 = (Ok tt, (logout None (cookie (session_token b)) i1).2)) as El.
  { unfold logout. rewrite Hck. cbn. by rewrite Hd. }
  split; [exact El|].
  apply (logout_not_undone None (secret_of 20) (secret_of 60) (1000 * SECOND) (after pairing) b i1 [] None (cookie (session_token b)) _
    [IPair None (secret_of 20) (secret_of 60) (1000 * SECOND)] (default "" (secret_digest BROWSER_PAIRING (secret_of 20)))
    (default "" (secret_digest BROWSER_SESSION (session_token b))) (after_wf pairing typed_story)).
  - by vm_compute.
  - exact E.
  - exact Hd.
  - exact Hck.
  - by repeat constructor.
  - exact El.
  - intros c [->|[]%elem_of_nil]%elem_of_cons. by intros (? & ? & _ & _ & ?).
  - intros c [->|[]%elem_of_nil]%elem_of_cons _. by do 3 eexists.
Defined.
End examples.
