(* ===== verification/Async.v ===== *)
(** * Handlers as interleaved programs

    An asynchronous handler is a tree of atomic actions on a shared world, with
    the acquisition and release of one lock, actions that wait for room in a
    queue, and waits for a peer. Handlers run interleaved in any order, beside
    an environment. [wp] is the proof rule: an action stays within what others
    may see at any time ([always]) and, without the lock, within what they may
    see while they hold it ([quiet]); a program relies on the same of the
    others; and whoever makes an obligation outstanding owes it until it is
    not, which must be before the program waits for its peer or ends. Every
    program ends or waits, and where none can go on, all are at rest or one
    waits for room. *)
From S2P Require Import Prelude.

(** What waits for room: the numbered gates of a world, and whether one has room. *)
Class Rooms (World : Type) := room : World → N → bool.

Section programs.
Context {World Choice : Type}.

Inductive Prog (A : Type) : Type :=
| Done (a : A)
| Act {X : Type} (gate : option N) (f : Choice → World → X * World) (k : X → Prog A)   (* when its gate has room *)
| Acquire (k : Prog A)
| Release (k : Prog A)
| Wait (k : Prog A)   (* until the peer sends, or the connection ends *)
| Spawn (p : Prog unit) (k : Prog A).
Arguments Done {A} a.
Arguments Act {A X} gate f k.
Arguments Acquire {A} k.
Arguments Release {A} k.
Arguments Wait {A} k.
Arguments Spawn {A} p k.

#[global] Instance Prog_ret : MRet Prog := λ A a, Done a.
#[global] Instance Prog_bind : MBind Prog :=
  fix bind {A B} (g : A → Prog B) (p : Prog A) {struct p} : Prog B :=
    match p with
    | Done a => g a
    | Act gate f k => Act gate f (λ x, bind g (k x))
    | Acquire k => Acquire (bind g k)
    | Release k => Release (bind g k)
    | Wait k => Wait (bind g k)
    | Spawn q k => Spawn q (bind g k)
    end.

Definition act {X} (f : Choice → World → X * World) : Prog X := Act None f Done.
Definition act_in {X} (gate : N) (f : Choice → World → X * World) : Prog X := Act (Some gate) f Done.
Definition look {X} (f : World → X) : Prog X := act (λ _ w, (f w, w)).
Definition modify (f : World → World) : Prog unit := act (λ _ w, (tt, f w)).
Definition acquire : Prog unit := Acquire (Done tt).
Definition release : Prog unit := Release (Done tt).
Definition wait : Prog unit := Wait (Done tt).
Definition spawn (p : Prog unit) : Prog unit := Spawn p (Done tt).

(** A future that may be dropped at any of its awaits, which frees its lock. A
    future that is dropped while it waits was dropped when it began to wait. *)
Definition dropping (drops : Choice → bool) (on_drop : World → World) : Prog bool :=
  act (λ ch w, if drops ch then (true, on_drop w) else (false, w)).
Fixpoint droppable {A : Type} (drops : Choice → bool) (on_drop : World → World) (held : bool) (p : Prog A) : Prog (option A) :=
  match p with
  | Done a => Done (Some a)
  | Act gate f k =>
      dropped ← dropping drops on_drop;
      if (dropped : bool) then if held then Release (Done None) else Done None
      else Act gate f (λ x, droppable drops on_drop held (k x))
  | Acquire k => dropped ← dropping drops on_drop;
      if (dropped : bool) then Done None else Acquire (droppable drops on_drop true k)
  | Release k => Release (droppable drops on_drop false k)
  | Wait k => Wait (dropped ← dropping drops on_drop;
      if (dropped : bool) then if held then Release (Done None) else Done None
      else droppable drops on_drop held k)
  | Spawn q k => Spawn q (droppable drops on_drop held k)
  end.

(** ** Interleaving *)
Record Config := MkConfig { world : World; lock : option nat; threads : list (Prog unit) }.

(** The gates of a world that let an action through. *)
Context `{!Rooms World}.
Definition passes (w : World) (gate : option N) : bool := default true (room w <$> gate).

(** One step of one thread that does not wait for its peer. *)
Inductive thread_step : Config → Config → Prop :=
| step_act w l ts i X gate (f : Choice → World → X * World) k ch :
    ts !! i = Some (Act gate f k) → passes w gate = true →
    thread_step (MkConfig w l ts) (MkConfig (f ch w).2 l (<[i := k (f ch w).1]> ts))
| step_acquire w ts i k :
    ts !! i = Some (Acquire k) → thread_step (MkConfig w None ts) (MkConfig w (Some i) (<[i := k]> ts))
| step_release w ts i k :
    ts !! i = Some (Release k) → thread_step (MkConfig w (Some i) ts) (MkConfig w None (<[i := k]> ts))
| step_spawn w l ts i p k :
    ts !! i = Some (Spawn p k) → thread_step (MkConfig w l ts) (MkConfig w l (<[i := k]> ts ++ [p])).

Context (arrives : Prog unit → Prop) (environment : World → World → Prop).

Inductive step : Config → Config → Prop :=
| step_thread c c' : thread_step c c' → step c c'
| step_wake w l ts i k : ts !! i = Some (Wait k) → step (MkConfig w l ts) (MkConfig w l (<[i := k]> ts))
| step_arrive w l ts p : arrives p → step (MkConfig w l ts) (MkConfig w l (ts ++ [p]))
| step_environment w l ts w' : environment w w' → step (MkConfig w l ts) (MkConfig w' l ts).

(** One step of the thread [i], run. *)
Definition advance (i : nat) (ch : Choice) (c : Config) : option Config :=
  let '(MkConfig w l ts) := c in
  match ts !! i with
  | Some (Act gate f k) => if passes w gate then Some (MkConfig (f ch w).2 l (<[i := k (f ch w).1]> ts)) else None
  | Some (Acquire k) => if decide (l = None) then Some (MkConfig w (Some i) (<[i := k]> ts)) else None
  | Some (Release k) => if decide (l = Some i) then Some (MkConfig w None (<[i := k]> ts)) else None
  | Some (Wait k) => Some (MkConfig w l (<[i := k]> ts))
  | Some (Spawn q k) => Some (MkConfig w l (<[i := k]> ts ++ [q]))
  | Some (Done _) | None => None
  end.
Definition advances (schedule : list (nat * Choice)) (c : Config) : option Config :=
  foldl (λ c s, c ≫= advance s.1 s.2) (Some c) schedule.

Lemma advance_step i ch c c' : advance i ch c = Some c' → step c c'.
Proof.
  destruct c as [w l ts]. cbn. destruct (ts !! i) as [[a|X gate f k|k|k|k|q k]|] eqn:Hi; try done.
  - destruct (passes w gate) eqn:Hg; [|done]. intros [= <-]. apply step_thread. by eapply step_act.
  - case_decide; [|done]. intros [= <-]. subst. by constructor; constructor.
  - case_decide; [|done]. intros [= <-]. subst. by constructor; constructor.
  - intros [= <-]. by constructor.
  - intros [= <-]. by constructor; constructor.
Qed.

Lemma advances_steps schedule c c' : advances schedule c = Some c' → rtc step c c'.
Proof.
  unfold advances. revert c. induction schedule as [|[i ch] schedule IH]; cbn; intros c H; [by injection H as ->|].
  destruct (advance i ch c) as [c1|] eqn:E; [eapply rtc_l; [by eapply advance_step|auto]|].
  exfalso. clear IH E. induction schedule as [|s schedule IH]; [done|]. by apply IH.
Qed.

(** ** The proof rule *)
Context (wf : World → Prop) {Ob : Type} (outstanding : World → Ob → Prop).
Context (quiet always : World → World → Prop).

(** What a program may rely on while others run. *)
Definition keeps (held : bool) (K : World → Prop) : Prop :=
  ∀ w w', wf w → wf w' → always w w' → (held = true → quiet w w') → K w → K w'.

Definition ended (_ : unit) (held : bool) (_ : World → Prop) (D : Ob → Prop) : Prop := held = false ∧ ∀ o, ¬ D o.

(** [K] is what the program knows, [D] what it owes. *)
Fixpoint wp {A : Type} (held : bool) (K : World → Prop) (D : Ob → Prop) (p : Prog A)
    (Φ : A → bool → (World → Prop) → (Ob → Prop) → Prop) : Prop :=
  match p with
  | Done a => Φ a held K D
  | Act gate f k => ∀ ch w, wf w → K w →
      wf (f ch w).2 ∧ always w (f ch w).2 ∧ (held = false → quiet w (f ch w).2) ∧
      ∃ K' D', keeps held K' ∧ K' (f ch w).2 ∧
        (∀ o, outstanding (f ch w).2 o → D' o ∨ outstanding w o ∧ (D o → D' o)) ∧
        wp held K' D' (k (f ch w).1) Φ
  | Acquire k => held = false ∧ ∀ w, wf w → K w → ∃ K', keeps true K' ∧ K' w ∧ wp true K' D k Φ
  | Release k => held = true ∧ ∀ w, wf w → K w → ∃ K', keeps false K' ∧ K' w ∧ wp false K' D k Φ
  | Wait k => held = false ∧ (∀ o, ¬ D o) ∧ wp false K D k Φ
  | Spawn q k => wp false (λ _, True) (λ _, False) q ended ∧ wp held K D k Φ
  end.

Definition verified (p : Prog unit) : Prop := wp false (λ _, True) (λ _, False) p ended.

Lemma wp_bind {A B} (p : Prog A) (g : A → Prog B) Φ : ∀ held K D,
  wp held K D p (λ a h K' D', wp h K' D' (g a) Φ) → wp held K D (p ≫= g) Φ.
Proof.
  induction p as [A a|A X gate f k IH|A k IH|A k IH|A k IH|A q _ k IH]; intros held K D H; cbn in *; [done| | | | |].
  - intros ch w Hwf HK. destruct (H ch w Hwf HK) as (? & ? & ? & K' & D' & ? & ? & ? & Hw).
    split_and!; [done..|]. exists K', D'. split_and!; try done. by apply IH.
  - destruct H as [? H]. split; [done|]. intros w Hwf HK. destruct (H w Hwf HK) as (K' & ? & ? & ?). exists K'. auto.
  - destruct H as [? H]. split; [done|]. intros w Hwf HK. destruct (H w Hwf HK) as (K' & ? & ? & ?). exists K'. auto.
  - destruct H as (? & ? & H). auto.
  - destruct H. auto.
Qed.

Lemma keeps_true held : keeps held (λ _, True).
Proof. by intros w w'. Qed.

(** ** Mild actions: anyone may take them at any time *)
Record mild_step (w w' : World) : Prop := {
  ms_wf : wf w';
  ms_always : always w w';
  ms_quiet : quiet w w';
  ms_owes : ∀ o, outstanding w' o → outstanding w o;
}.
Definition mild {X} (f : Choice → World → X * World) : Prop := ∀ ch w, wf w → mild_step w (f ch w).2.

(** A program of mild actions without the lock: it owes nothing new and knows
    no more than before. Whether it may wait for its peer is a parameter. *)
Fixpoint gentle {A : Type} (waits : bool) (p : Prog A) : Prop :=
  match p with
  | Done _ => True
  | Act gate f k => mild f ∧ ∀ x, gentle waits (k x)
  | Wait k => waits = true ∧ gentle waits k
  | Spawn q k => verified q ∧ gentle waits k
  | Acquire _ | Release _ => False
  end.

Lemma gentle_bind {A B} b (p : Prog A) (g : A → Prog B) : gentle b p → (∀ a, gentle b (g a)) → gentle b (p ≫= g).
Proof. clear arrives environment. intros Hp Hg. induction p; cbn in *; naive_solver. Qed.

Lemma gentle_act {X} b (f : Choice → World → X * World) : mild f → gentle b (act f).
Proof. done. Qed.

Lemma gentle_spawn b p : verified p → gentle b (spawn p).
Proof. done. Qed.

(** It may be dropped, when dropping it is mild. *)
Lemma gentle_droppable {A} b drops on_drop (p : Prog A) : (∀ w, wf w → mild_step w w) → (∀ w, wf w → mild_step w (on_drop w)) →
  gentle b p → gentle b (droppable drops on_drop false p).
Proof.
  intros Hid Hd. assert (∀ B (g : bool → Prog B), (∀ x, gentle b (g x)) → gentle b (dropping drops on_drop ≫= g)) as Hdrop.
  { intros B g Hg. split; [|done]. intros ch w Hwf. destruct (drops ch); cbn; auto. }
  induction p as [A a|A X gate f k IH|A k IH|A k IH|A k IH|A q _ k IH]; cbn [gentle droppable]; try done.
  - intros [Hm Hk]. apply Hdrop. intros []; cbn; auto.
  - intros [-> Hk]. split; [done|]. apply Hdrop. intros []; cbn; auto.
  - intros [Hq Hk]. auto.
Qed.

(** Without waiting, it may run while the lock is held and debts are open. *)
Lemma gentle_wp {A} (p : Prog A) held K D Φ : gentle false p → keeps held K → (∀ a, Φ a held K D) → wp held K D p Φ.
Proof.
  clear arrives environment. induction p as [A a|A X gate f k IH|A k IH|A k IH|A k IH|A q _ k IH]; cbn; [by auto| |done|done|naive_solver|naive_solver].
  intros [Hm Hk] HK HΦ ch w Hwf HKw. destruct (Hm ch w Hwf) as [H1 H2 H3 H4].
  split_and!; [done..|]. exists K, D. split_and!; try done; [by apply (HK w)| |by apply IH]. intros o Ho. right. auto.
Qed.

(** Without the lock, and owing nothing, a program that ends so. *)
Definition tame {A} (p : Prog A) : Prop :=
  ∀ K D Φ, keeps false K → (∀ o, ¬ D o) → (∀ a K' D', keeps false K' → (∀ o, ¬ D' o) → Φ a false K' D') →
    wp false K D p Φ.

Lemma gentle_tame {A} b (p : Prog A) : gentle b p → tame p.
Proof.
  induction p as [A a|A X gate f k IH|A k IH|A k IH|A k IH|A q _ k IH]; cbn; try done.
  - intros _ K D Φ HK HD HΦ. by apply HΦ.
  - intros [Hm Hk] K D Φ HK HD HΦ ch w Hwf HKw. destruct (Hm ch w Hwf) as [H1 H2 H3 H4].
    split_and!; [done..|]. exists K, D. split_and!; try done; [by apply (HK w)| |by apply IH]. intros o Ho. right. auto.
  - intros [_ Hk] K D Φ HK HD HΦ. split_and!; [done..|]. by apply IH.
  - intros [Hq Hk] K D Φ HK HD HΦ. split; [done|]. by apply IH.
Qed.

Lemma tame_ret {A} (a : A) : tame (mret a).
Proof. intros K D Φ HK HD HΦ. by apply HΦ. Qed.

Lemma tame_bind {A B} (p : Prog A) (g : A → Prog B) : tame p → (∀ a, tame (g a)) → tame (p ≫= g).
Proof. intros Hp Hg K D Φ HK HD HΦ. apply wp_bind, Hp; [done..|]. intros a K' D' HK' HD'. by apply Hg. Qed.

(** What a program can return. *)
Fixpoint gives {A : Type} (Q : A → Prop) (p : Prog A) : Prop :=
  match p with
  | Done a => Q a
  | Act _ _ k => ∀ x, gives Q (k x)
  | Acquire k | Release k | Wait k | Spawn _ k => gives Q k
  end.

Lemma gives_true {A} (p : Prog A) : gives (λ _, True) p.
Proof. induction p; cbn; auto. Qed.
Lemma gives_bind {A B} (Q' : A → Prop) (Q : B → Prop) (p : Prog A) g :
  gives Q' p → (∀ a, Q' a → gives Q (g a)) → gives Q (p ≫= g).
Proof. clear arrives environment. intros Hp Hg. induction p; cbn in *; naive_solver. Qed.
Lemma gives_droppable {A} (Q : A → Prop) drops on_drop (p : Prog A) : ∀ held, gives Q p →
  gives (λ o, ∀ a, o = Some a → Q a) (droppable drops on_drop held p).
Proof.
  assert (∀ B (Q' : B → Prop) g, (∀ x, gives Q' (g x)) → gives Q' (dropping drops on_drop ≫= g)) as Hdrop by (intros B Q' g Hg; eapply gives_bind; [apply gives_true|auto]).
  induction p as [A a|A X gate f k IH|A k IH|A k IH|A k IH|A q _ k IH]; intros held Hp; cbn [droppable gives] in *; auto.
  - by intros b [= <-].
  - apply Hdrop. intros []; [by destruct held|]. cbn. auto.
  - apply Hdrop. intros []; [done|]. cbn. auto.
  - apply Hdrop. intros []; [by destruct held|]. auto.
Qed.

Lemma gentle_tame_bind {A B} b (Q : A → Prop) (p : Prog A) (g : A → Prog B) : gentle b p → gives Q p →
  (∀ a, Q a → tame (g a)) → tame (p ≫= g).
Proof.
  intros Hp HQ Hg K D Φ HK HD HΦ. revert Hp HQ. revert K HK.
  induction p as [A a|A X gate f k IH|A k IH|A k IH|A k IH|A q _ k IH]; intros K HK Hp HQ; try done.
  - by apply Hg.
  - destruct Hp as [Hm Hp]. intros ch w Hwf HKw. destruct (Hm ch w Hwf) as [H1 H2 H3 H4].
    split_and!; [done..|]. exists K, D. split_and!; try done; [by apply (HK w)|intros o Ho; right; auto|].
    eapply IH; [exact Hg|done|apply Hp|apply HQ].
  - destruct Hp as [_ Hp]. split_and!; [done..|]. eapply IH; [exact Hg|done..].
  - destruct Hp as [Hq Hp]. split; [done|]. eapply IH; [exact Hg|done..].
Qed.

Lemma tame_verified (p : Prog unit) : tame p → verified p.
Proof. intros Hp. apply Hp; [apply keeps_true|by intros o []|]. intros [] K1 D1 _ HD. by split. Qed.

(** ** Soundness *)
Context `{!Reflexive always, !Reflexive quiet}.

Record sound (c : Config) : Prop := {
  so_wf : wf (world c);
  so_threads : ∃ (K : nat → World → Prop) (D : nat → Ob → Prop),
    (∀ i p, threads c !! i = Some p →
       keeps (bool_decide (lock c = Some i)) (K i) ∧ K i (world c) ∧
       wp (bool_decide (lock c = Some i)) (K i) (D i) p ended) ∧
    (∀ o, outstanding (world c) o → ∃ i, is_Some (threads c !! i) ∧ D i o);
  so_holder : ∀ i, lock c = Some i → is_Some (threads c !! i);
}.

Context (Harrives : ∀ p, arrives p → verified p)
  (Henvironment : ∀ w w', wf w → environment w w' → mild_step w w').

Definition update {B} (i : nat) (b : B) (f : nat → B) : nat → B := λ j, if decide (i = j) then b else f j.
Lemma update_eq {B} i (b : B) f : update i b f i = b.
Proof. unfold update. by rewrite decide_True. Qed.
Lemma update_ne {B} i j (b : B) f : i ≠ j → update i b f j = f j.
Proof. intros. unfold update. by rewrite decide_False. Qed.

(** A thread at [i] moves to [p'] with the lock [l'], knowing [K'] and owing [D']. *)
Lemma sound_move w w' l l' ts i p p' (K : nat → World → Prop) (D : nat → Ob → Prop) K' (D' : Ob → Prop) :
  wf w → wf w' → always w w' → (bool_decide (l = Some i) = false → quiet w w') →
  (∀ j q, ts !! j = Some q → keeps (bool_decide (l = Some j)) (K j) ∧ K j w ∧ wp (bool_decide (l = Some j)) (K j) (D j) q ended) →
  (∀ o, outstanding w o → ∃ j, is_Some (ts !! j) ∧ D j o) →
  (∀ j, l = Some j → is_Some (ts !! j)) → ts !! i = Some p →
  (∀ o, outstanding w' o → D' o ∨ outstanding w o ∧ (D i o → D' o)) →
  l' = l ∨ l = None ∧ l' = Some i ∨ l = Some i ∧ l' = None →
  keeps (bool_decide (l' = Some i)) K' → K' w' → wp (bool_decide (l' = Some i)) K' D' p' ended →
  sound (MkConfig w' l' (<[i := p']> ts)).
Proof.
  intros Hwf Hwf' Hal Hq Hth Hob Hho Hi Ho Hl HK' HKw' Hwp.
  assert ((i < length ts)%nat) as Hlt by by eapply lookup_lt_Some.
  assert (∀ j, i ≠ j → bool_decide (l' = Some j) = bool_decide (l = Some j)) as Hsame.
  { intros j Hne. apply bool_decide_ext. destruct Hl as [->|[[-> ->]|[-> ->]]]; split; congruence. }
  split; cbn; [done| |].
  - exists (update i K' K), (update i D' D). split.
    + intros j q Hj. destruct (decide (i = j)) as [<-|Hne].
      * rewrite list_lookup_insert_eq in Hj by done. injection Hj as <-. by rewrite !update_eq.
      * rewrite list_lookup_insert_ne in Hj by done. rewrite !update_ne, Hsame by done.
        destruct (Hth j q Hj) as (HKj & HKjw & Hwj). split_and!; [done| |done]. apply (HKj w); [done..| |done].
        intros Hlj. apply Hq. apply bool_decide_eq_true in Hlj. apply bool_decide_false. congruence.
    + intros o Hout. destruct (Ho o Hout) as [HD|[Hw HD]].
      { exists i. rewrite list_lookup_insert_eq, update_eq by done. eauto. }
      destruct (Hob o Hw) as (j & Hj & HDj). exists j. destruct (decide (i = j)) as [<-|Hne].
      * rewrite list_lookup_insert_eq, update_eq by done. eauto.
      * by rewrite list_lookup_insert_ne, update_ne.
  - intros j Hj. destruct (decide (i = j)) as [<-|Hne]; [by rewrite list_lookup_insert_eq|].
    rewrite list_lookup_insert_ne by done. apply Hho. destruct Hl as [->|[[-> ->]|[-> ->]]]; [done|congruence|done].
Qed.

(** A new thread. *)
Lemma sound_add w l ts p : sound (MkConfig w l ts) → verified p → sound (MkConfig w l (ts ++ [p])).
Proof.
  intros [Hwf (K & D & Hth & Hob) Hho] Hp. cbn in *.
  assert (l ≠ Some (length ts)) as Hl by (intros ->; destruct (Hho _ eq_refl) as [q Hq]; apply lookup_lt_Some in Hq; lia).
  split; cbn; [done| |].
  - exists (update (length ts) (λ _, True) K), (update (length ts) (λ _, False) D). split.
    + intros i q [Hi|[Hge Hi]]%lookup_app_Some.
      { rewrite !update_ne by (apply lookup_lt_Some in Hi; lia). by apply Hth. }
      destruct (i - length ts)%nat as [|n] eqn:En; [|by destruct n]. injection Hi as <-.
      assert (i = length ts) as -> by lia. rewrite !update_eq, bool_decide_false by done.
      split_and!; [apply keeps_true|done|done].
    + intros o Hout. destruct (Hob o Hout) as (i & [q Hq] & HD). exists i. split; [exists q; by apply lookup_app_l_Some|].
      rewrite update_ne; [done|]. apply lookup_lt_Some in Hq. lia.
  - intros i Hi. destruct (Hho i Hi) as [q Hq]. exists q. by apply lookup_app_l_Some.
Qed.

Lemma thread_step_sound c c' : thread_step c c' → sound c → sound c'.
Proof.
  intros [w l ts i X gate f k ch Hi Hg|w ts i k Hi|w ts i k Hi|w l ts i p k Hi] [Hwf (K & D & Hth & Hob) Hho]; cbn in *;
    destruct (Hth i _ Hi) as (HK & HKw & Hv); cbn in Hv.
  - destruct (Hv ch w Hwf HKw) as (? & ? & Hq & K' & D' & ? & ? & ? & ?).
    eapply sound_move with (w := w) (K := K) (D := D) (D' := D'); try done. by left.
  - destruct Hv as [_ Hv]. destruct (Hv w Hwf HKw) as (K' & ? & ? & ?).
    eapply sound_move with (w := w) (K := K) (D := D) (D' := D i); try done; [eauto|by right; left|by rewrite bool_decide_true..].
  - destruct Hv as [_ Hv]. destruct (Hv w Hwf HKw) as (K' & ? & ? & ?).
    eapply sound_move with (w := w) (K := K) (D := D) (D' := D i); try done; [eauto|by right; right].
  - destruct Hv as [Hp Hv]. apply sound_add; [|done].
    eapply sound_move with (w := w) (K := K) (D := D) (D' := D i) (K' := K i); try done; [eauto|by left].
Qed.

Lemma mild_step_sound w w' l ts : mild_step w w' → sound (MkConfig w l ts) → sound (MkConfig w' l ts).
Proof.
  intros [Hwf' Hal Hq Ho] [Hwf (K & D & Hth & Hob) Hho]. split; cbn in *; [done| |done]. exists K, D. split.
  - intros i p Hi. destruct (Hth i p Hi) as (HK & HKw & Hv). split_and!; [done| |done]. by apply (HK w).
  - intros o Hout. auto.
Qed.

Lemma step_sound c c' : step c c' → sound c → sound c'.
Proof.
  intros [c1 c2 Ht|w l ts i k Hi|w l ts p Ha|w l ts w' He] HS.
  - by eapply thread_step_sound.
  - destruct HS as [Hwf (K & D & Hth & Hob) Hho]. cbn in *. destruct (Hth i _ Hi) as (HK & HKw & Hh & HD & Hv).
    eapply sound_move with (w := w) (K := K) (D := D) (D' := D i); try done; [eauto|by left|by rewrite Hh].
  - apply sound_add; [done|]. by apply Harrives.
  - eapply mild_step_sound; [|exact HS]. apply Henvironment; [apply HS|done].
Qed.

Lemma steps_sound c c' : rtc step c c' → sound c → sound c'.
Proof. induction 1; eauto using step_sound. Qed.

Lemma threads_sound c c' : rtc thread_step c c' → sound c → sound c'.
Proof. induction 1; eauto using thread_step_sound. Qed.

Lemma sound_start w : wf w → (∀ o, ¬ outstanding w o) → sound (MkConfig w None []).
Proof.
  intros Hwf Ho. split; cbn; [done| |done]. exists (λ _ _, True), (λ _ _, False). split; [done|].
  intros o Hout. by destruct (Ho o).
Qed.

(** ** No handler is running *)
Definition rests (p : Prog unit) : bool := match p with Done _ | Wait _ => true | _ => false end.
Definition resting (p : Prog unit) : Prop := rests p = true.
Definition idle (c : Config) : Prop := lock c = None ∧ ∀ i p, threads c !! i = Some p → resting p.

Lemma idle_settled c : sound c → idle c → ∀ o, ¬ outstanding (world c) o.
Proof.
  intros [_ (K & D & Hth & Hob) _] [_ Hr] o Ho. destruct (Hob o Ho) as (i & [p Hi] & HD).
  destruct (Hth i p Hi) as (_ & _ & Hv). specialize (Hr i p Hi).
  destruct p as [a|X gate f k|k|k|k|q k]; cbn in *; try done; [by destruct Hv as [_ Hv]; eapply Hv|by destruct Hv as (_ & Hv & _); eapply Hv].
Qed.

(** ** The running handlers come to rest *)

(** A program leaves smaller ones behind when it goes on, and so do many. *)
Definition unfolds_to (p : Prog unit) (new : list (Prog unit)) : Prop :=
  match p with
  | Act _ _ k => ∃ x, new = [k x]
  | Acquire k | Release k => new = [k]
  | Spawn q k => new = [k; q]
  | Done _ | Wait _ => False
  end.
Definition unfold_one (ts ts' : list (Prog unit)) : Prop :=
  ∃ p new rest, ts ≡ₚ p :: rest ∧ unfolds_to p new ∧ ts' ≡ₚ new ++ rest.

Lemma unfold_perm ts ts' : ts ≡ₚ ts' → Acc (flip unfold_one) ts → Acc (flip unfold_one) ts'.
Proof. intros Hp [H]. constructor. intros ts2 (p & new & rest & H1 & H2 & H3). apply H. exists p, new, rest. by rewrite Hp. Qed.

Lemma unfold_app new ts : Forall (λ p, ∀ ts, Acc (flip unfold_one) ts → Acc (flip unfold_one) (p :: ts)) new →
  Acc (flip unfold_one) ts → Acc (flip unfold_one) (new ++ ts).
Proof. intros Hn Ht. induction Hn; cbn; auto. Qed.

Lemma unfold_cons p ts : Acc (flip unfold_one) ts → Acc (flip unfold_one) (p :: ts).
Proof.
  revert p ts. fix IH 1. intros p.
  assert (∀ new, unfolds_to p new → Forall (λ p, ∀ ts, Acc (flip unfold_one) ts → Acc (flip unfold_one) (p :: ts)) new) as Hnew.
  { destruct p as [a|X gate f k|k|k|k|q k]; intros new Hu; cbn in Hu; try done; [destruct Hu as [x ->]|subst new..];
      repeat (apply Forall_cons_2; [apply IH|]); apply Forall_nil_2. }
  clear IH. induction 1 as [ts Hts IH]. pose proof (Acc_intro ts Hts) as Hacc. constructor.
  intros ts' (q & new & rest & H1 & H2 & H3). apply (unfold_perm (new ++ rest)); [done|].
  apply Permutation_cons_inv_r in H1 as ([|p' k1] & k2 & Hk & Hr); cbn in *; simplify_eq.
  - apply unfold_app; [auto|]. by eapply unfold_perm; [symmetry|].
  - apply (unfold_perm (p' :: new ++ k1 ++ k2)); [by rewrite Hr, Permutation_middle|]. apply IH.
    exists q, new, (k1 ++ k2). by rewrite <- Permutation_middle.
Qed.

Lemma unfold_ends ts : Acc (flip unfold_one) ts.
Proof.
  induction ts as [|p ts IH]; [|by apply unfold_cons]. constructor. intros ts' (p & new & rest & H & _).
  by apply Permutation_nil_cons in H.
Qed.

Lemma insert_perm (ts : list (Prog unit)) i p : is_Some (ts !! i) → <[i := p]> ts ≡ₚ p :: delete i ts.
Proof.
  revert i. induction ts as [|q ts IH]; intros [|i] Hi; cbn in *; [by destruct Hi..|done|].
  by rewrite (IH i Hi), Permutation_swap.
Qed.

Lemma thread_step_unfolds c c' : thread_step c c' → unfold_one (threads c) (threads c').
Proof.
  intros [w l ts i X gate f k ch Hi Hg|w ts i k Hi|w ts i k Hi|w l ts i q k Hi]; cbn;
    eexists _, _, (delete i ts); (split; [by apply delete_Permutation|]); (split; [cbn; eauto|]);
    rewrite insert_perm by eauto; cbn; rewrite <- ?Permutation_cons_append; done || by rewrite Permutation_swap.
Qed.

(** Handlers, with what makes room for them. *)
Context (drains : World → World → Prop).
Inductive working : Config → Config → Prop :=
| work_thread c c' : thread_step c c' → working c c'
| work_drain w w' l ts : drains w w' → working (MkConfig w l ts) (MkConfig w' l ts).

Lemma working_ends c : (∀ w, Acc (flip drains) w) → Acc (flip working) c.
Proof.
  intros Hd. destruct c as [w l ts]. revert w l. induction (unfold_ends ts) as [ts _ IH]. intros w l.
  induction (Hd w) as [w _ IHw]. constructor. intros c' Hw. inversion Hw as [c1 c2 Ht|]; subst; [|by apply IHw].
  destruct c' as [w' l' ts']. by apply IH, (thread_step_unfolds (MkConfig w l ts) (MkConfig w' l' ts')).
Qed.

(** Where no handler can go on, all rest, or one waits for room: the one that
    holds the lock, if any does. *)
Definition gate_of (p : Prog unit) : option N := match p with Act gate _ _ => gate | _ => None end.
Definition waits_in (c : Config) (gate : N) : Prop :=
  ∃ i p, threads c !! i = Some p ∧ gate_of p = Some gate ∧ (lock c = None ∨ lock c = Some i).

Lemma sound_stuck (choice : Choice) c : sound c → (∀ c', ¬ thread_step c c') → idle c ∨ ∃ gate, waits_in c gate ∧ room (world c) gate = false.
Proof.
  intros HS Hs. destruct c as [w l ts]. destruct (so_threads _ HS) as (K & D & Hth & _). cbn in *.
  assert (∀ i p, ts !! i = Some p → l = None ∨ l = Some i → l = None ∧ resting p ∨
    ∃ gate, gate_of p = Some gate ∧ room w gate = false) as Hone.
  { intros i p Hi Hl. destruct (Hth i p Hi) as (_ & _ & Hv). destruct p as [a|X gate f k|k|k|k|q k]; cbn in Hv.
    - destruct Hv as [Hv%bool_decide_eq_false _]. left. by destruct Hl as [->|].
    - right. destruct (passes w gate) eqn:Hg; [by destruct (Hs _ (step_act w l ts i X gate f k choice Hi Hg))|].
      destruct gate as [g|]; [|done]. by exists g.
    - destruct Hv as [Hv%bool_decide_eq_false _]. destruct Hl as [->|]; [|done]. by destruct (Hs _ (step_acquire w ts i k Hi)).
    - destruct Hv as [->%bool_decide_eq_true _]. by destruct (Hs _ (step_release w ts i k Hi)).
    - destruct Hv as [Hv%bool_decide_eq_false _]. left. by destruct Hl as [->|].
    - by destruct (Hs _ (step_spawn w l ts i q k Hi)). }
  destruct l as [i|].
  - destruct (so_holder _ HS i eq_refl) as [p Hp]. destruct (Hone i p Hp) as [[? _]|(g & Hg & Hr)]; [by right|done|].
    right. exists g. split; [exists i, p; auto|done].
  - destruct (decide (Forall (λ p, rests p = true) ts)) as [Hall|Hn]; [left; split; [done|]; intros i p Hi; by eapply Forall_lookup_1 in Hall|].
    apply not_Forall_Exists, Exists_exists in Hn as (p & Hin & Hp); [|apply _]. apply list_elem_of_lookup in Hin as [i Hi].
    destruct (Hone i p Hi) as [[_ ?]|(g & Hg & Hr)]; [by left|done|]. right. exists g. split; [exists i, p; auto|done].
Qed.
End programs.

Arguments Prog : clear implicits.
Arguments Config : clear implicits.
Arguments Done {World Choice A} a.
Arguments Act {World Choice A X} gate f k.
Arguments Acquire {World Choice A} k.
Arguments Release {World Choice A} k.
Arguments Wait {World Choice A} k.
Arguments Spawn {World Choice A} p k.
Arguments MkConfig {World Choice} _ _ _.
