(* ===== verification/Coordinator.v ===== *)
(** * The running coordinator

    The state that connections share ([coordinator.rs]) and the handlers of
    [connection.rs], [session_registry.rs], [surface_operations.rs],
    [node_messages.rs], [device_admin.rs], [host_calls.rs],
    [live_activity.rs] and the handlers beside the stores, as programs of
    [Async]: every access to the database, to a table behind a mutex or to a
    queue is one action, and the lock is [connection_lifecycle]. A send waits
    until its queue has room or is closed. Logging is left out. *)
From S2P Require Import Prelude Json Text Protocol Transaction Control Identity Browser ControlStore Async.

Definition ConnectionId : Type := N.

(** ** Messages ([operations.rs], [json_ws.rs]) *)
Inductive HostMethod := Get | Post | Put.
Record TargetSummary := MkTargetSummary { ts_node : NodeId; ts_target : TargetRef; ts_name : string }.
Inductive NoticeOperation := NoticeSetKey (key : string) | NoticeList | NoticeAcknowledge (notice : N).
Inductive NodeNoticeOperation := NoticeListKeys | NoticePut (notice : SealedNotice) | NoticeWithdraw (notices : list N).
Inductive PushOperation := PushSet (provider token : string) | PushClear.
Record HostRequest := MkHostRequest { request_method : HostMethod; request_path : string; request_body : option string }.
Record HostReply := MkHostReply { reply_status : Z; reply_body : string }.
Record LiveFrame := MkLiveFrame { frame_command : CommandId; frame_activity : LiveActivity }.

Section messages.
Context `{JV : JsonValue}.

Inductive SurfaceOperation :=
| OpListTasks
| OpOpenTask (t : TaskId) (n : NodeId) (target : TargetRef)
| OpAttach (t : TaskId) (after_sequence : option Z) (live : bool)
| OpSubmit (t : TaskId) (c : CommandId) (input : CommandInput)
| OpStopCommand (t : TaskId) (c : CommandId)
| OpDeleteTask (t : TaskId)
| OpListDevices
| OpRevokeDevice (d : DeviceId)
| OpCallHost (request : HostRequest)
| OpShareLink (share : N)
| OpPush (operation : PushOperation)
| OpNotice (operation : NoticeOperation).

Inductive NodeOperation :=
| OpServeHostControl
| OpCompleteHostCall (call : N) (reply : HostReply)
| OpAdvertiseTargets (targets : list TargetCard)
| OpAcknowledgeExecution (t : TaskId) (c : CommandId)
| OpPublishExecutionEvents (t : TaskId) (c : CommandId) (events : list ExecutionEvent)
| OpAcknowledgeStop (t : TaskId) (c : CommandId)
| OpPublishLiveActivity (t : TaskId) (c : CommandId) (activity : LiveActivity)
| OpSendAgentMessage (request : Z) (message : OutgoingMessage)
| OpRequestWake (request : Z) (wake : N) (urgency : WakeUrgency)
| OpNodeNotice (request : Z) (operation : NodeNoticeOperation).

Inductive ClientMessage :=
| MEnroll (version : Z) (token : string)
| MAuthenticate (version : Z) (credentials : DeviceCredentials)
| MAuthenticateTicket (version : Z) (ticket : string)
| MDeviceProof (signature : string)
| MListTasks (request : Z)
| MListTargets (request : Z)
| MListDevices (request : Z)
| MRevokeDevice (request : Z) (d : DeviceId)
| MOpenTask (request : Z) (t : TaskId) (n : NodeId) (target : TargetRef)
| MAttach (request : Z) (t : TaskId) (after_sequence : option Z) (live : bool)
| MSubmit (request : Z) (t : TaskId) (c : CommandId) (input : CommandInput)
| MStopCommand (request : Z) (t : TaskId) (c : CommandId)
| MDeleteTask (request : Z) (t : TaskId)
| MCallHost (request : Z) (method : HostMethod) (path : string) (body : option string)
| MShareLink (request : Z) (share : N)
| MSetPushToken (request : Z) (provider token : string)
| MClearPushToken (request : Z)
| MSetNoticeKey (request : Z) (public_key : string)
| MListNotices (request : Z)
| MAcknowledgeNotice (request : Z) (notice : N)
| MAdvertiseTargets (targets : list TargetCard)
| MPublishExecutionEvents (t : TaskId) (c : CommandId) (events : list ExecutionEvent)
| MAcknowledgeExecution (t : TaskId) (c : CommandId)
| MAcknowledgeStop (t : TaskId) (c : CommandId)
| MPublishLiveActivity (t : TaskId) (c : CommandId) (activity : LiveActivity)
| MServeHostControl
| MCompleteHostCall (call : N) (status : Z) (body : string)
| MSendAgentMessage (request : Z) (from_command message : CommandId) (n : NodeId) (target : TargetRef) (text : string)
| MRequestWake (request : Z) (wake : N) (urgency : WakeUrgency)
| MListNoticeKeys (request : Z)
| MPutNotice (request : Z) (notice : SealedNotice)
| MWithdrawNotices (request : Z) (notices : list N).

Inductive JsonOperation :=
| JsonListTargets (request : Z)
| JsonSurface (request : Z) (operation : SurfaceOperation)
| JsonNode (operation : NodeOperation).

Definition into_surface_operation (m : ClientMessage) : option JsonOperation :=
  '(request, operation) ← match m with
    | MListTasks r => Some (r, OpListTasks)
    | MOpenTask r t n target => Some (r, OpOpenTask t n target)
    | MAttach r t after_sequence live => Some (r, OpAttach t after_sequence live)
    | MSubmit r t c input => Some (r, OpSubmit t c input)
    | MStopCommand r t c => Some (r, OpStopCommand t c)
    | MDeleteTask r t => Some (r, OpDeleteTask t)
    | MListDevices r => Some (r, OpListDevices)
    | MRevokeDevice r d => Some (r, OpRevokeDevice d)
    | MCallHost r method path body => Some (r, OpCallHost (MkHostRequest method path body))
    | MShareLink r share => Some (r, OpShareLink share)
    | MSetPushToken r provider token => Some (r, OpPush (PushSet provider token))
    | MClearPushToken r => Some (r, OpPush PushClear)
    | MSetNoticeKey r key => Some (r, OpNotice (NoticeSetKey key))
    | MListNotices r => Some (r, OpNotice NoticeList)
    | MAcknowledgeNotice r notice => Some (r, OpNotice (NoticeAcknowledge notice))
    | _ => None
    end;
  Some (JsonSurface request operation).

Definition into_operation (m : ClientMessage) : option JsonOperation :=
  match m with
  | MAdvertiseTargets targets => Some (JsonNode (OpAdvertiseTargets targets))
  | MAcknowledgeExecution t c => Some (JsonNode (OpAcknowledgeExecution t c))
  | MPublishExecutionEvents t c events => Some (JsonNode (OpPublishExecutionEvents t c events))
  | MAcknowledgeStop t c => Some (JsonNode (OpAcknowledgeStop t c))
  | MPublishLiveActivity t c activity => Some (JsonNode (OpPublishLiveActivity t c activity))
  | MSendAgentMessage r from_command message n target text =>
      Some (JsonNode (OpSendAgentMessage r (MkOutgoingMessage from_command message n target text)))
  | MRequestWake r wake urgency => Some (JsonNode (OpRequestWake r wake urgency))
  | MListNoticeKeys r => Some (JsonNode (OpNodeNotice r NoticeListKeys))
  | MPutNotice r notice => Some (JsonNode (OpNodeNotice r (NoticePut notice)))
  | MWithdrawNotices r notices => Some (JsonNode (OpNodeNotice r (NoticeWithdraw notices)))
  | MServeHostControl => Some (JsonNode OpServeHostControl)
  | MCompleteHostCall call status body => Some (JsonNode (OpCompleteHostCall call (MkHostReply status body)))
  | MEnroll _ _ | MAuthenticate _ _ | MAuthenticateTicket _ _ | MDeviceProof _ => None
  | MListTargets r => Some (JsonListTargets r)
  | _ => into_surface_operation m
  end.

(** A frame of the socket, as [classify_message] reads it. *)
Inductive InboundMessage := Application (m : ClientMessage) | ControlFrame | Closed | Invalid (request : option Z).

Inductive ServerMessage :=
| SEnrolled (version : Z) (credentials : DeviceCredentials)
| SAuthenticated (version : Z)
| SDeviceChallenge (nonce : string)
| STaskList (request : Z) (tasks : list TaskSummary)
| STargetList (request : Z) (targets : list TargetSummary)
| SDeviceList (request : Z) (devices : list DeviceSummary)
| SDeviceRevoked (request : Z) (d : DeviceId)
| STaskOpened (request : Z) (t : TaskId)
| SAttached (request : Z) (t : TaskId) (through_sequence : option Z)
| SCommandAccepted (request : Z) (c : CommandId)
| SStopAccepted (request : Z) (c : CommandId) (outcome : StopOutcome)
| STaskDeleted (request : Z) (t : TaskId)
| SHostAnswer (request : Z) (reply : HostReply)
| SShareLinkIssued (request : Z) (path : string)
| SPushTokenSet (request : Z)
| SPushTokenCleared (request : Z)
| SWakeRequested (request : Z)
| SNoticeKeySet (request : Z)
| SNoticeList (request : Z) (notices : list HeldNotice)
| SNoticeAcknowledged (request : Z)
| SNoticeKeys (request : Z) (keys : list DeviceNoticeKey)
| SNoticePut (request : Z)
| SNoticesWithdrawn (request : Z)
| SExecutionEventsAccepted (c : CommandId) (through_execution_sequence : Z)
| SExecutionAcknowledged (c : CommandId)
| SExecute (t : TaskId) (command : CommandEnvelope)
| SStop (t : TaskId) (c : CommandId)
| SHostCall (call : N) (p : PrincipalId) (request : HostRequest)
| STaskEvent (event : TaskEvent)
| SLiveActivity (t : TaskId) (frame : LiveFrame)
| SError (request : option Z) (code : ErrorCode) (message : string).

(** ** The shared state ([coordinator.rs]) *)
Record NodeConnection := MkNodeConnection {
  nc_connection : ConnectionId; nc_device : DeviceId; nc_targets : list TargetCard; nc_host_control : bool }.

(** A broadcast channel is the list of what was ever sent on it; its number
    stands for the channel's identity. *)
Record LiveChannel := MkLiveChannel { lc_node : NodeId; lc_channel : N }.

(** The broadcast channels, and the calls to Hosts. *)
Record Channels := MkChannels {
  task_senders : gmap TaskId N;
  sent_events : gmap N (list TaskEvent);
  live_channels : gmap TaskId LiveChannel;
  sent_frames : gmap N (list LiveFrame);
  host_calls : gmap N ConnectionId;       (* calls waiting for an answer *)
  host_replies : gmap N HostReply;        (* answers handed to their callers *)
  call_slots : gmap ConnectionId nat;     (* calls a connection has waiting *)
  notified : bool;                        (* [push_wakes] *)
}.

(** A receiver of a broadcast channel, and what it receives next. *)
Record Receiver := MkReceiver { rx_channel : N; rx_position : nat }.

(** A surface that subscribed to a task's events and then read its journal through a sequence. *)
Record TaskAttachment := MkTaskAttachment {
  at_connection : ConnectionId; at_task : TaskId; at_receiver : Receiver; at_through : option Z }.

(** What happened before, for the statements of theorems. *)
Record History := MkHistory {
  bound : gset (TaskId * NodeId);                    (* tasks and the nodes they were bound to *)
  logins : gset (ConnectionId * DeviceId * string);  (* connections registered for a device's credential *)
  finished : gset ConnectionId;                      (* connections that were cleaned up *)
  ending : gset DeviceId;       (* devices that lost a credential and whose sessions were not ended since *)
  abandoned : gset DeviceId;    (* devices whose sign-in was dropped before their sessions were ended *)
  deleted : gset TaskId;        (* tasks that were deleted *)
  attachments : list TaskAttachment;
}.

Definition set_logins x (h : History) : History :=
  MkHistory (bound h) x (finished h) (ending h) (abandoned h) (deleted h) (attachments h).
Definition set_finished x (h : History) : History :=
  MkHistory (bound h) (logins h) x (ending h) (abandoned h) (deleted h) (attachments h).
Definition set_ending x (h : History) : History :=
  MkHistory (bound h) (logins h) (finished h) x (abandoned h) (deleted h) (attachments h).
Definition set_abandoned x (h : History) : History :=
  MkHistory (bound h) (logins h) (finished h) (ending h) x (deleted h) (attachments h).
Definition set_attachments x (h : History) : History :=
  MkHistory (bound h) (logins h) (finished h) (ending h) (abandoned h) (deleted h) x.

Record World := MkWorld {
  w_db : ControlDb;
  w_nodes : gmap NodeId NodeConnection;
  w_sessions : gmap DeviceId (gset ConnectionId);
  w_queues : gmap ConnectionId (list ServerMessage);   (* everything queued for a connection, oldest first *)
  w_taken : gmap ConnectionId nat;                     (* how many of them its writer took *)
  w_closed : gset ConnectionId;                        (* its queue takes no more *)
  w_cancelled : gset ConnectionId;
  w_channels : Channels;
  w_history : History;
}.

Definition set_nodes m (w : World) : World :=
  MkWorld (w_db w) m (w_sessions w) (w_queues w) (w_taken w) (w_closed w) (w_cancelled w) (w_channels w) (w_history w).
Definition set_sessions m (w : World) : World :=
  MkWorld (w_db w) (w_nodes w) m (w_queues w) (w_taken w) (w_closed w) (w_cancelled w) (w_channels w) (w_history w).
Definition set_queues m (w : World) : World :=
  MkWorld (w_db w) (w_nodes w) (w_sessions w) m (w_taken w) (w_closed w) (w_cancelled w) (w_channels w) (w_history w).
Definition set_closed m (w : World) : World :=
  MkWorld (w_db w) (w_nodes w) (w_sessions w) (w_queues w) (w_taken w) m (w_cancelled w) (w_channels w) (w_history w).
Definition set_taken m (w : World) : World :=
  MkWorld (w_db w) (w_nodes w) (w_sessions w) (w_queues w) m (w_closed w) (w_cancelled w) (w_channels w) (w_history w).
Definition set_cancelled m (w : World) : World :=
  MkWorld (w_db w) (w_nodes w) (w_sessions w) (w_queues w) (w_taken w) (w_closed w) m (w_channels w) (w_history w).
Definition set_channels c (w : World) : World :=
  MkWorld (w_db w) (w_nodes w) (w_sessions w) (w_queues w) (w_taken w) (w_closed w) (w_cancelled w) c (w_history w).
Definition set_history h (w : World) : World :=
  MkWorld (w_db w) (w_nodes w) (w_sessions w) (w_queues w) (w_taken w) (w_closed w) (w_cancelled w) (w_channels w) h.

Definition set_task_senders m (c : Channels) : Channels :=
  MkChannels m (sent_events c) (live_channels c) (sent_frames c) (host_calls c) (host_replies c) (call_slots c) (notified c).
Definition set_sent_events m (c : Channels) : Channels :=
  MkChannels (task_senders c) m (live_channels c) (sent_frames c) (host_calls c) (host_replies c) (call_slots c) (notified c).
Definition set_live_channels m (c : Channels) : Channels :=
  MkChannels (task_senders c) (sent_events c) m (sent_frames c) (host_calls c) (host_replies c) (call_slots c) (notified c).
Definition set_sent_frames m (c : Channels) : Channels :=
  MkChannels (task_senders c) (sent_events c) (live_channels c) m (host_calls c) (host_replies c) (call_slots c) (notified c).
Definition set_host_calls m (c : Channels) : Channels :=
  MkChannels (task_senders c) (sent_events c) (live_channels c) (sent_frames c) m (host_replies c) (call_slots c) (notified c).
Definition set_host_replies m (c : Channels) : Channels :=
  MkChannels (task_senders c) (sent_events c) (live_channels c) (sent_frames c) (host_calls c) m (call_slots c) (notified c).
Definition set_call_slots m (c : Channels) : Channels :=
  MkChannels (task_senders c) (sent_events c) (live_channels c) (sent_frames c) (host_calls c) (host_replies c) m (notified c).
Definition set_notified (c : Channels) : Channels :=
  MkChannels (task_senders c) (sent_events c) (live_channels c) (sent_frames c) (host_calls c) (host_replies c) (call_slots c) true.
End messages.

(** ** Actions on the shared state *)
Section state.
Context `{CS : ControlSerde} `{LT : LibraryTexts}.
Implicit Types (k : ConnectionId) (w : World).

Definition bindings (db : ControlDb) : gset (TaskId * NodeId) :=
  list_to_set ((λ kv : TaskId * TaskRow, (kv.1, t_node kv.2)) <$> map_to_list (tasks db)).

(** The devices whose credential is accepted before and not after. *)
Definition lost (i i' : IdentityDb) : gset DeviceId :=
  dom (filter (λ kv : DeviceId * DeviceRow,
         device_accepts kv.1 (d_credential_hash kv.2) i = true ∧
         device_accepts kv.1 (d_credential_hash kv.2) i' = false) (devices i)).

(** A committed database. *)
Definition set_db (db : ControlDb) w : World :=
  let h := w_history w in
  MkWorld db (w_nodes w) (w_sessions w) (w_queues w) (w_taken w) (w_closed w) (w_cancelled w) (w_channels w)
    (MkHistory (bound h ∪ bindings db) (logins h) (finished h) (ending h ∪ lost (identity (w_db w)) (identity db))
       (abandoned h) (deleted h ∪ (dom (tasks (w_db w)) ∖ dom (tasks db))) (attachments h)).

(** What an action takes from its surroundings. *)
Record Chance := MkChance {
  ch_store : ControlChoice;
  ch_draw : Draw;
  ch_flag : bool;     (* a drop, a deadline, or which of two branches is ready *)
  ch_number : N;      (* a fresh identity *)
  ch_rounds : nat;    (* how many rounds of a loop are run *)
}.

Abbreviation P := (Prog World Chance).

Definition store_read {A} (q : ControlDb → Result ControlError A) : P (Result ControlError A) :=
  act (λ ch w, (observe (ch_store ch) q (w_db w), w)).
Definition store_write {A} (m : ControlChoice → CTx A) : P (Result ControlError A) :=
  act (λ ch w, let r := attempt (ch_store ch) (m (ch_store ch)) (w_db w) in (r.1, set_db r.2 w)).
Definition identity_op {A} (o : Draw → IOp A) : P (Result ControlError A) :=
  act (λ ch w, let r := o (ch_draw ch) (identity (w_db w)) in (r.1, set_db (with_identity r.2 (w_db w)) w)).
Definition draw {A} (f : Chance → A) : P A := act (λ ch w, (f ch, w)).
Definition change_channels (f : Channels → Channels) : P unit := modify (λ w, set_channels (f (w_channels w)) w).

Definition OUTBOUND_CAPACITY : nat := 128.

(** What the writer of a connection has not taken from its queue. *)
Definition queued w k : nat := (length (default [] (w_queues w !! k)) - default 0%nat (w_taken w !! k))%nat.
#[global] Instance has_room : Rooms World := λ w k,
  bool_decide (k ∈ w_closed w) || bool_decide (queued w k < OUTBOUND_CAPACITY)%nat.

Definition push k (m : ServerMessage) w : World :=
  set_queues (<[k := default [] (w_queues w !! k) ++ [m]]> (w_queues w)) w.
Definition send k (m : ServerMessage) : P bool :=
  act_in k (λ _ w, if decide (k ∈ w_closed w) then (false, w) else (true, push k m w)).
(** The writer of a connection takes the oldest message it has not taken. *)
Definition take_message k w : World := set_taken (<[k := S (default 0%nat (w_taken w !! k))]> (w_taken w)) w.
(** [try_send]: a queue that is full, or closed, drops the message. *)
Definition try_send k (m : ServerMessage) : P unit :=
  modify (λ w, if decide (k ∈ w_closed w) then w else if room w k then push k m w else w).

Definition cancel k : P unit := modify (λ w, set_cancelled ({[k]} ∪ w_cancelled w) w).
Definition is_cancelled k : P bool := look (λ w, bool_decide (k ∈ w_cancelled w)).

(** [for x in l]. *)
Fixpoint each {A} (f : A → P unit) (l : list A) : P unit :=
  match l with [] => mret tt | a :: rest => _ ← f a; each f rest end.

(** [p.await?]. *)
Definition and_then {E A B} (p : P (Result E A)) (f : A → P (Result E B)) : P (Result E B) :=
  r ← p; match r with Ok a => f a | Err e => mret (Err e) end.
Definition map_ok {E A B} (f : A → B) (p : P (Result E A)) : P (Result E B) :=
  and_then p (λ a, mret (Ok (f a))).

(** [tokio::try_join!]: both run, in either order. *)
Definition try_join {E A B} (p : P (Result E A)) (q : P (Result E B)) : P (Result E (A * B)) :=
  first ← draw ch_flag;
  if (first : bool) then and_then p (λ a, map_ok (λ b, (a, b)) q)
  else and_then q (λ b, map_ok (λ a, (a, b)) p).
End state.
Abbreviation P := (Prog World Chance).

(** ** Helpers of the wire ([wire.rs]) *)
Section wire.
Context `{CS : ControlSerde} `{LT : LibraryTexts}.
Implicit Types (k : ConnectionId) (w : World).

Definition JSON_WS_VERSION : Z := 18.

Definition send_error k (request : option Z) (code : ErrorCode) (message : string) : P unit :=
  _ ← send k (SError request code message); mret tt.
Definition send_control_error k (request : option Z) (e : ControlError) : P unit :=
  send_error k request (sent_error e).1 (sent_error e).2.
Definition send_reply k (request : Z) (r : Result ControlError ServerMessage) : P unit :=
  match r with
  | Ok m => _ ← send k m; mret tt
  | Err e => send_control_error k (Some request) e
  end.

Definition next_channel {V} (m : gmap N V) : N := fresh (dom m).

Definition task_sender (t : TaskId) : P N :=
  act (λ _ w,
    let c := w_channels w in
    match task_senders c !! t with
    | Some n => (n, w)
    | None => let n := next_channel (sent_events c) in
              (n, set_channels (set_task_senders (<[t := n]> (task_senders c))
                                  (set_sent_events (<[n := []]> (sent_events c)) c)) w)
    end).

Definition publish_task_event (e : TaskEvent) : P unit :=
  n ← task_sender (te_task_id e);
  change_channels (λ c, set_sent_events (<[n := default [] (sent_events c !! n) ++ [e]]> (sent_events c)) c).

(** Whether [k] is the connection of the node. *)
Definition is_current (n : NodeId) k w : bool :=
  match w_nodes w !! n with Some node => bool_decide (nc_connection node = k) | None => false end.

Definition end_calls k (c : Channels) : Channels :=
  set_host_calls (filter (λ kv : N * ConnectionId, kv.2 ≠ k) (host_calls c)) c.

Definition cleanup_connection (peer : PeerIdentity) k : P unit :=
  match peer with
  | PeerSurface _ _ => mret tt
  | PeerNode n =>
      modify (λ w, set_channels (end_calls k (w_channels w))
        (if is_current n k w then set_nodes (delete n (w_nodes w)) w else w))
  end.
End wire.

(** ** Live connections ([session_registry.rs]) *)
Section registry.
Context `{CS : ControlSerde} `{LT : LibraryTexts}.
Implicit Types (k : ConnectionId) (w : World) (d : DeviceId).

Definition activate_ticket_peer (peer : PeerIdentity) k : P bool :=
  match peer with
  | PeerSurface _ _ => send k (SAuthenticated JSON_WS_VERSION)
  | PeerNode _ => mret false
  end.

Record DeviceLogin := MkDeviceLogin { login_device : DeviceId; login_credential_hash : string }.

Definition sessions_of w d : gset ConnectionId := default ∅ (w_sessions w !! d).

Definition register_session (login : DeviceLogin) k : P unit :=
  modify (λ w,
    let h := w_history w in let d := login_device login in
    set_history (set_logins ({[(k, d, login_credential_hash login)]} ∪ logins h) h)
      (set_sessions (<[d := {[k]} ∪ sessions_of w d]> (w_sessions w)) w)).

Definition cleanup_session d k : P unit :=
  modify (λ w,
    let h := w_history w in
    let rest := sessions_of w d ∖ {[k]} in
    set_history (set_finished ({[k]} ∪ finished h) h)
      (set_sessions (if decide (rest = ∅) then delete d (w_sessions w) else <[d := rest]> (w_sessions w)) w)).

(** Sends in order until the queue is closed; whether all were sent. *)
Fixpoint send_all k (ms : list ServerMessage) : P bool :=
  match ms with
  | [] => mret true
  | m :: rest => sent ← send k m; if (sent : bool) then send_all k rest else mret false
  end.

Definition pending_snapshot (n : NodeId) : P (Result ControlError (list PendingExecution * list PendingStop)) :=
  try_join (store_read (load_pending_executions n)) (store_read (λ db, Ok (load_pending_stops n db))).

Definition execute_message (e : PendingExecution) : ServerMessage := SExecute (pe_task e) (pe_command e).
Definition stop_message (s : PendingStop) : ServerMessage := SStop (ps_task s) (ps_command s).

(** The part of [activate_device] that sends what is pending and, for a node,
    makes the connection its current one. *)
Definition announce (login : DeviceLogin) (peer : PeerIdentity) k (pending : list PendingExecution)
    (stops : list PendingStop) : P bool :=
  let d := login_device login in
  _ ← register_session login k;
  authenticated ← send k (SAuthenticated JSON_WS_VERSION);
  if negb authenticated then _ ← cleanup_connection peer k; _ ← cleanup_session d k; mret false
  else
    executed ← send_all k (execute_message <$> pending);
    if negb executed then _ ← cleanup_session d k; mret false
    else
      stopped ← send_all k (stop_message <$> stops);
      if negb stopped then _ ← cleanup_session d k; mret false
      else
        _ ← match peer with
            | PeerNode n => modify (λ w, set_nodes (<[n := MkNodeConnection k d [] false]> (w_nodes w)) w)
            | PeerSurface _ _ => mret tt
            end;
        mret true.

Definition activate_locked (login : DeviceLogin) (peer : PeerIdentity) k : P bool :=
  accepted ← store_read (λ db, Ok (device_accepts (login_device login) (login_credential_hash login) (identity db)));
  match accepted with
  | Err e => _ ← send_control_error k None e; mret false
  | Ok false => _ ← send_error k None AuthenticationFailed "authentication failed"; mret false
  | Ok true =>
      snapshot ← match peer with
        | PeerNode n => _ ← modify (λ w, set_nodes (delete n (w_nodes w)) w); pending_snapshot n
        | PeerSurface _ _ => mret (Ok ([], []))
        end;
      match snapshot with
      | Err e => _ ← send_control_error k None e; mret false
      | Ok (pending, stops) => announce login peer k pending stops
      end
  end.

Definition activate_device (login : DeviceLogin) (peer : PeerIdentity) k : P bool :=
  _ ← acquire; activated ← activate_locked login peer k; _ ← release; mret activated.

(** ** Devices ([device_admin.rs]) *)
Inductive Authority := Ticket | KeyedDevice (d : DeviceId) | BearerDevice (d : DeviceId).

Definition authority_device (a : Authority) : option DeviceId :=
  match a with Ticket => None | KeyedDevice d | BearerDevice d => Some d end.
Definition is_person_bound (a : Authority) : bool :=
  match a with Ticket | KeyedDevice _ => true | BearerDevice _ => false end.
Definition may_call_host (a : Authority) : bool :=
  match a with KeyedDevice _ => true | Ticket | BearerDevice _ => false end.

Record SurfaceSession := MkSurfaceSession {
  session_owner : PrincipalId; session_surface : SurfaceRef; authority : Authority }.

Definition allowed k (request : Z) (a : Authority) : P bool :=
  if is_person_bound a then mret true
  else _ ← send_error k (Some request) InvalidRole
             "devices are managed from a signed-in app or a browser; this connection is neither";
       mret false.

Definition list_devices_for k (request : Z) (session : SurfaceSession) : P unit :=
  ok ← allowed k request (authority session);
  if negb ok then mret tt
  else
    r ← store_read (λ db, list_devices (session_owner session) (authority_device (authority session)) (identity db));
    send_reply k request (match r with Ok devices => Ok (SDeviceList request devices) | Err e => Err e end).

(** The sessions of the device are removed and then cancelled, with no await in
    between. This is one action: a session is only registered under the lock,
    and a cleanup that comes between finds nothing. *)
Definition end_sessions d w : World :=
  let h := w_history w in
  set_history (set_ending (ending h ∖ {[d]}) h)
    (set_cancelled (sessions_of w d ∪ w_cancelled w) (set_sessions (delete d (w_sessions w)) w)).

Definition end_device_sessions d : P unit :=
  _ ← acquire;
  _ ← modify (end_sessions d);
  _ ← modify (λ w, set_nodes (filter (λ kv : NodeId * NodeConnection, nc_device kv.2 ≠ d) (w_nodes w)) w);
  release.

Definition revoke_device_for k (request : Z) (session : SurfaceSession) d : P unit :=
  ok ← allowed k request (authority session);
  if negb ok then mret tt
  else
    r ← identity_op (λ draw, revoke_owned_device (draw_failure draw 0) (session_owner session) d);
    match r with
    | Ok _ => _ ← send k (SDeviceRevoked request d); end_device_sessions d
    | Err e => send_control_error k (Some request) e
    end.

(** [Coordinator::revoke_device]. *)
Definition coordinator_revoke_device d : P (Result ControlError unit) :=
  and_then (identity_op (λ draw, revoke_device (draw_failure draw 0) d)) (λ _,
    _ ← end_device_sessions d; mret (Ok tt)).
End registry.

(** ** Tasks ([surface_operations.rs], [task_opening.rs], [task_deletion.rs], [command_stop.rs]) *)
Section tasks.
Context `{CS : ControlSerde} `{LT : LibraryTexts}.
Implicit Types (k : ConnectionId) (w : World) (t : TaskId) (c : CommandId) (n : NodeId) (p : PrincipalId).

Definition target_order (x y : TargetSummary) : Prop :=
  (as_uuid (ts_node x) < as_uuid (ts_node y))%N ∨
  as_uuid (ts_node x) = as_uuid (ts_node y) ∧ String.leb (ts_target x) (ts_target y) = true.
#[global] Instance target_order_dec x y : Decision (target_order x y).
Proof. unfold target_order. apply _. Defined.

Definition advertised (nodes : gmap NodeId NodeConnection) n : list TargetSummary :=
  match nodes !! n with
  | Some node => (λ card, MkTargetSummary n (card_target card) (card_name card)) <$> nc_targets node
  | None => []
  end.

Definition list_targets p : P (Result ControlError (list TargetSummary)) :=
  and_then (store_read (λ db, Ok (owned_nodes p db))) (λ owned,
    targets ← look (λ w, flat_map (advertised (w_nodes w)) owned);
    mret (Ok (merge_sort target_order targets))).

Definition open_task_on (task : TaskSpec) : P (Result ControlError unit) :=
  available ← look (λ w, availability (nc_targets <$> w_nodes w !! task_node task) (task_target task));
  map_ok (λ _, tt) (store_write (λ _, open_body task available)).

Definition advertise_targets n k (targets : list TargetCard) : P (Result ControlError unit) :=
  match validate_targets targets with
  | Err e => mret (Err e)
  | Ok targets =>
      act (λ _ w,
        match w_nodes w !! n with
        | Some node =>
            if decide (nc_connection node = k)
            then (Ok tt, set_nodes (<[n := MkNodeConnection k (nc_device node) targets (nc_host_control node)]> (w_nodes w)) w)
            else (Err (invalid "node connection has been replaced"), w)
        | None => (Err (invalid "node connection has been replaced"), w)
        end)
  end.

Definition delete_task p t : P (Result ControlError unit) :=
  and_then (store_write (λ _, delete_body p t)) (λ deleted,
    match deleted with
    | None => mret (Ok tt)
    | Some _ =>
        _ ← change_channels (λ cs, set_task_senders (delete t (task_senders cs)) cs);
        _ ← change_channels (λ cs, set_live_channels (delete t (live_channels cs)) cs);
        mret (Ok tt)
    end).

(** The connection of a node, as [nodes.get(..).cloned()] finds it. *)
Definition node_connection n : P (option NodeConnection) := look (λ w, w_nodes w !! n).

Definition deliver (node : option NodeConnection) (m : ServerMessage) : P unit :=
  match node with Some node => _ ← send (nc_connection node) m; mret tt | None => mret tt end.

Definition stop_command p t c : P (Result ControlError StopOutcome) :=
  and_then (store_read (load_task_for_principal t p)) (λ task,
    _ ← acquire;
    node ← node_connection (stored_node task);
    admission ← store_write (λ _, admit_stop_body t c);
    _ ← release;
    match admission with
    | Err e => mret (Err e)
    | Ok AlreadyEnded => mret (Ok StopAlreadyEnded)
    | Ok (Recorded delivered) =>
        _ ← if delivered then mret tt else deliver node (SStop t c);
        mret (Ok StopRequested)
    end).

Definition submit_command k (request : Z) t c (input : CommandInput) p (surface : SurfaceRef)
    : P (Result ControlError unit) :=
  and_then (store_read (load_task_for_principal t p)) (λ task,
    _ ← acquire;
    node ← node_connection (stored_node task);
    admission ← store_write (λ ch, admit_command_body ch t p surface c input (bool_decide (is_Some node)));
    _ ← release;
    match admission with
    | Err e => mret (Err e)
    | Ok NotAdmitted => mret (Err node_offline)
    | Ok (CommandAdmitted command event) =>
        _ ← send k (SCommandAccepted request (command_id command));
        _ ← publish_task_event event;
        _ ← deliver node (SExecute t command);
        mret (Ok tt)
    | Ok (CommandExisting command pending) =>
        _ ← send k (SCommandAccepted request (command_id command));
        _ ← if (pending : bool) then deliver node (SExecute t command) else mret tt;
        mret (Ok tt)
    end).
End tasks.

(** ** Attachments and live activity ([surface_operations.rs], [live_activity.rs]) *)
Section attachments.
Context `{CS : ControlSerde} `{LT : LibraryTexts}.
Implicit Types (k : ConnectionId) (w : World) (t : TaskId) (n : NodeId) (p : PrincipalId).

Definition TASK_BROADCAST_CAPACITY : nat := 256.
Definition LIVE_BROADCAST_CAPACITY : nat := 256.

(** What a receiver gets. *)
Inductive Received (A : Type) := Item (a : A) (rx : Receiver) | Lagged (rx : Receiver) | Empty | Gone.
Arguments Item {A} a rx.
Arguments Lagged {A} rx.
Arguments Empty {A}.
Arguments Gone {A}.

Definition receive {A} (capacity : nat) (sent : gmap N (list A)) (open : bool) (rx : Receiver) : Received A :=
  let log := default [] (sent !! rx_channel rx) in
  let oldest := (length log - capacity)%nat in
  if decide (rx_position rx < oldest)%nat then Lagged (MkReceiver (rx_channel rx) oldest)
  else match log !! rx_position rx with
       | Some a => Item a (MkReceiver (rx_channel rx) (S (rx_position rx)))
       | None => if open then Empty else Gone
       end.

(** A channel is open while a table holds its sender. *)
Definition sender_open (n : N) (c : Channels) : bool := tbl_exists (λ _ m, bool_decide (m = n)) (task_senders c).
Definition live_open (n : N) (c : Channels) : bool :=
  tbl_exists (λ _ m, bool_decide (lc_channel m = n)) (live_channels c).

Definition receive_event (rx : Receiver) w : Received TaskEvent :=
  receive TASK_BROADCAST_CAPACITY (sent_events (w_channels w)) (sender_open (rx_channel rx) (w_channels w)) rx.
Definition receive_frame (rx : Receiver) w : Received LiveFrame :=
  receive LIVE_BROADCAST_CAPACITY (sent_frames (w_channels w)) (live_open (rx_channel rx) (w_channels w)) rx.

Definition live_subscribe t n : P Receiver :=
  act (λ _ w,
    let c := w_channels w in
    match live_channels c !! t with
    | Some live => (MkReceiver (lc_channel live) (length (default [] (sent_frames c !! lc_channel live))), w)
    | None =>
        let m := next_channel (sent_frames c) in
        (MkReceiver m 0, set_channels (set_live_channels (<[t := MkLiveChannel n m]> (live_channels c))
                                         (set_sent_frames (<[m := []]> (sent_frames c)) c)) w)
    end).

Definition relay n t (c : CommandId) (activity : LiveActivity) : P unit :=
  change_channels (λ cs,
    match live_channels cs !! t with
    | Some live =>
        if decide (lc_node live = n)
        then set_sent_frames (<[lc_channel live := default [] (sent_frames cs !! lc_channel live) ++ [MkLiveFrame c activity]]>
                                (sent_frames cs)) cs
        else cs
    | None => cs
    end).

(** [forward_waiting]. *)
Fixpoint forward_frames (fuel : nat) k t (frames : option Receiver) : P (option Receiver) :=
  match fuel, frames with
  | O, _ | _, None => mret frames
  | S fuel, Some rx =>
      next ← look (receive_frame rx);
      match next with
      | Item frame rx => _ ← try_send k (SLiveActivity t frame); forward_frames fuel k t (Some rx)
      | Lagged rx => forward_frames fuel k t (Some rx)
      | Empty => mret (Some rx)
      | Gone => mret None
      end
  end.
Definition forward_waiting k t (frames : option Receiver) : P (option Receiver) :=
  forward_frames (S LIVE_BROADCAST_CAPACITY) k t frames.

(** The task spawned for an attachment, for a number of rounds of its loop. *)
Fixpoint forward_task (rounds : nat) k t (through_sequence : option Z) (live : Receiver) (frames : option Receiver)
    : P unit :=
  match rounds with
  | O => mret tt
  | S rounds =>
      _ ← wait;
      leaves ← draw ch_flag;   (* the branch of the cancellation, when it is ready *)
      stop ← is_cancelled k;
      if (leaves && stop : bool) then mret tt
      else
        live_first ← draw ch_flag;
        match (if live_first : bool then frames else None) with
        | Some rx =>
            frame ← look (receive_frame rx);
            match frame with
            | Item frame rx => _ ← try_send k (SLiveActivity t frame);
                forward_task rounds k t through_sequence live (Some rx)
            | Lagged rx => forward_task rounds k t through_sequence live (Some rx)
            | Empty => forward_task rounds k t through_sequence live frames
            | Gone => forward_task rounds k t through_sequence live None
            end
        | None =>
            event ← look (receive_event live);
            match event with
            | Item event live =>
                if match through_sequence with None => true | Some sequence => sequence <? te_sequence event end
                then
                  frames ← forward_waiting k t frames;
                  sent ← send k (STaskEvent event);
                  if (sent : bool) then forward_task rounds k t through_sequence live frames else mret tt
                else forward_task rounds k t through_sequence live frames
            | Lagged _ => send_error k None ReplayRequired "surface fell behind; reconnect with its last task sequence"
            | Empty => forward_task rounds k t through_sequence live frames
            | Gone => mret tt
            end
        end
  end.

(** A receiver of a channel gets what is sent from now on. *)
Definition subscribe (n : N) : P Receiver :=
  look (λ w, MkReceiver n (length (default [] (sent_events (w_channels w) !! n)))).

(** The suffix of the journal, read after the subscription. *)
Definition read_suffix k t p (after_sequence : option Z) (live : Receiver) : P (Result ControlError TaskSuffix) :=
  act (λ ch w,
    let r := observe (ch_store ch) (load_suffix t p after_sequence) (w_db w) in
    (r, match r with
        | Ok suffix => let h := w_history w in
            set_history (set_attachments (MkTaskAttachment k t live (through suffix) :: attachments h) h) w
        | Err _ => w
        end)).

Definition attach_surface k (request : Z) t (after_sequence : option Z) p (wants_live_activity : bool)
    : P (Result ControlError unit) :=
  and_then (store_read (load_task_for_principal t p)) (λ task,
    channel ← task_sender t;
    live ← subscribe channel;
    and_then (read_suffix k t p after_sequence live) (λ suffix,
      frames ← if wants_live_activity then rx ← live_subscribe t (stored_node task); mret (Some rx) else mret None;
      attached ← send k (SAttached request t (through suffix));
      if negb attached then mret (Err (invalid "surface disconnected during attachment"))
      else
        replayed ← send_all k (STaskEvent <$> suffix_events suffix);
        if negb replayed then mret (Err (invalid "surface disconnected during replay"))
        else
          rounds ← draw ch_rounds;
          _ ← spawn (forward_task rounds k t (through suffix) live frames);
          mret (Ok tt))).
End attachments.

(** ** Calls to a Host ([host_calls.rs], [host_control_rcp.rs]) *)
(** The length of a message as JSON, when serde_json can write it. *)
Class FrameLength `{JV : JsonValue} := frame_length : ServerMessage → option Z.

Section hosts.
Context `{CS : ControlSerde} `{LT : LibraryTexts} `{FL : !FrameLength}.
Implicit Types (k : ConnectionId) (w : World) (n : NodeId) (p : PrincipalId).

Definition INVALID_REPLY : string := "Your Host sent an answer that could not be passed on. Retry in a moment.".
Definition HOST_UNREACHABLE : string := "Your Host could not be reached. Retry in a moment.".
Definition MAX_CALLS_PER_CONNECTION : nat := 8.
Definition MAX_PATH_BYTES : Z := 1024.

Definition relayable (status : Z) : bool := (200 <=? status) && (status <=? 299) || (400 <=? status) && (status <=? 599).

Inductive HostCallError := NotAnOwner | Offline | Ambiguous | TooLarge | Disconnected | TimedOut | StoreFailed (e : ControlError).

Definition host_call_message (e : HostCallError) : string :=
  match e with
  | NotAnOwner => "This login does not own a Host."
  | Offline => "Your Host is not connected. Retry when it returns."
  | Ambiguous => "More than one Host of yours is connected. Disconnect all but one."
  | TooLarge => "The call is larger than one message to your Host can carry; send a smaller body."
  | Disconnected => "Your Host disconnected before it answered. If this was a change, retry the same request to recover its outcome."
  | TimedOut => "Your Host did not answer in time. If this was a change, retry the same request to recover its outcome."
  | StoreFailed _ => HOST_UNREACHABLE
  end.

(** [HostCalls::complete]: whether a caller was waiting for the answer on this
    connection. *)
Definition complete_host_call k (call : N) (reply : HostReply) : P unit :=
  change_channels (λ c,
    if decide (host_calls c !! call = Some k)
    then set_host_replies (<[call := reply]> (host_replies c)) (set_host_calls (delete call (host_calls c)) c)
    else c).

(** The drop of a [Registration]. *)
Definition unregister (call : N) (c : Channels) : Channels := set_host_calls (delete call (host_calls c)) c.

Definition fits (m : ServerMessage) : bool :=
  match frame_length m with Some length => length <=? MAX_APPLICATION_MESSAGE_BYTES | None => false end.

Definition serving (owned : list NodeId) w : list NodeConnection :=
  omap (λ n, node ← w_nodes w !! n; if nc_host_control node then Some node else None) owned.

(** [dispatch], after its identity [call] is drawn. The wait ends with the
    answer, with the end of the node's connection, or at the deadline. *)
Definition dispatch_call (owned : list NodeId) p (request : HostRequest) (call : N) : P (Result HostCallError HostReply) :=
  let message := SHostCall call p request in
  if negb (fits message) then mret (Err TooLarge)
  else
    registered ← act (λ _ w,
      match serving owned w with
      | [] => (Err Offline, w)
      | [node] => (Ok (nc_connection node),
          set_channels (set_host_calls (<[call := nc_connection node]> (host_calls (w_channels w))) (w_channels w)) w)
      | _ => (Err Ambiguous, w)
      end);
    match registered with
    | Err e => mret (Err e)
    | Ok k =>
        sent ← send k message;
        outcome ←
          (if (sent : bool) then
             _ ← wait;
             look (λ w, match host_replies (w_channels w) !! call with
                        | Some reply => Ok reply
                        | None => if decide (is_Some (host_calls (w_channels w) !! call)) then Err TimedOut else Err Disconnected
                        end)
           else mret (Err Disconnected));
        _ ← change_channels (unregister call);
        mret outcome
    end.

Definition call p (request : HostRequest) (id : N) : P (Result HostCallError HostReply) :=
  owned ← store_read (λ db, Ok (owned_nodes p db));
  match owned with
  | Err e => mret (Err (StoreFailed e))
  | Ok [] => mret (Err NotAnOwner)
  | Ok owned => dispatch_call owned p request id
  end.

Definition answer k (request : Z) (outcome : Result HostCallError HostReply) : P unit :=
  match outcome with
  | Ok reply =>
      if relayable (reply_status reply) then _ ← send k (SHostAnswer request reply); mret tt
      else send_error k (Some request) Internal INVALID_REPLY
  | Err (StoreFailed _) => send_error k (Some request) Internal HOST_UNREACHABLE
  | Err (NotAnOwner as e) => send_error k (Some request) InvalidRole (host_call_message e)
  | Err (TooLarge as e) => send_error k (Some request) InvalidMessage (host_call_message e)
  | Err e => send_error k (Some request) CodeNodeOffline (host_call_message e)
  end.

Definition slash : Ascii.ascii := Ascii.ascii_of_N 47.
Definition is_path_byte (a : Ascii.ascii) : bool :=
  is_ascii_graphic a && negb (bool_decide (a = Ascii.ascii_of_N 63)) && negb (bool_decide (a = Ascii.ascii_of_N 35)).

Definition check_request (request : HostRequest) : Result string unit :=
  let path := request_path request in
  let segments_fit :=
    match strip_prefix path "/v1/host" with
    | Some rest => is_empty rest || starts_with rest "/"
    | None => false
    end
    && forallb (λ s, negb (String.eqb s "" || String.eqb s "." || String.eqb s "..")) (tail (split_at slash path)) in
  let characters_fit := forallb is_path_byte (String.list_ascii_of_string path) in
  if negb segments_fit || negb characters_fit || (MAX_PATH_BYTES <? len path)
  then Err "A Host path is /v1/host or a path under it, such as /v1/host/agents, in visible ASCII with no query."
  else match request_body request, request_method request with
       | Some _, Get => Err "A GET call has no body; send body null."
       | _, _ => Ok tt
       end.

Definition calls_waiting k (c : Channels) : nat := default 0%nat (call_slots c !! k).

(** [admit]: takes a slot of the connection. *)
Definition admit_call k (session : SurfaceSession) (request : HostRequest) : P (Result (ErrorCode * string) unit) :=
  if negb (may_call_host (authority session))
  then mret (Err (InvalidRole, "The Host is controlled from a signed-in app here, or from a browser at its Host address."))
  else match check_request request with
       | Err message => mret (Err (InvalidMessage, message))
       | Ok _ => act (λ _ w,
           let c := w_channels w in
           if decide (calls_waiting k c < MAX_CALLS_PER_CONNECTION)%nat
           then (Ok tt, set_channels (set_call_slots (<[k := S (calls_waiting k c)]> (call_slots c)) c) w)
           else (Err (CodeConflict, "Too many Host calls from this connection are waiting. Wait for one to answer."), w))
       end.

Definition free_slot k (c : Channels) : Channels :=
  set_call_slots (<[k := pred (calls_waiting k c)]> (call_slots c)) c.

(** The task spawned for an admitted call. Cancellation drops the call. *)
Definition waiting_call k p (request : Z) (r : HostRequest) : P unit :=
  id ← draw ch_number;
  outcome ← droppable ch_flag (λ w, set_channels (unregister id (w_channels w)) w) false (call p r id);
  _ ← match outcome with
      | None => mret tt
      | Some outcome =>
          stop ← is_cancelled k;
          if (stop : bool) then mret tt else answer k request outcome
      end;
  change_channels (free_slot k).

Definition call_host k (session : SurfaceSession) (request : Z) (r : HostRequest) : P unit :=
  admitted ← admit_call k session r;
  match admitted with
  | Err (code, message) => send_error k (Some request) code message
  | Ok _ => spawn (waiting_call k (session_owner session) request r)
  end.
End hosts.

(** ** Other operations of surfaces ([share_links.rs], [push_tokens.rs], [setup_notices.rs]) *)
Section surfaces.
Context `{CS : ControlSerde} `{LT : LibraryTexts} `{DG : Digest} `{DC : DeviceCrypto} `{FL : !FrameLength}.
Implicit Types (k : ConnectionId) (w : World) (n : NodeId) (p : PrincipalId).

Definition issue_share k (request : Z) (session : SurfaceSession) (share : N) : P unit :=
  if negb (may_call_host (authority session))
  then send_error k (Some request) InvalidRole
         "Shared files open from a signed-in app here, or from a browser at its Host address."
  else
    issued ← identity_op (λ d, issue_share_ticket (draw_failure d 0) (draw_failure d 1) (draw_secret d 0)
                                 (session_owner session) share (draw_now d));
    match issued with
    | Ok ticket => _ ← send k (SShareLinkIssued request ("/s/" +:+ uuid_text share +:+ "?ticket=" +:+ ticket)); mret tt
    | Err e => send_control_error k (Some request) e
    end.

Definition connection_device k (request : Z) (session : SurfaceSession) : P (option DeviceId) :=
  match authority_device (authority session) with
  | Some d => mret (Some d)
  | None => _ ← send_error k (Some request) InvalidRole
                  "push tokens belong to an enrolled device; this connection was opened with a browser ticket";
            mret None
  end.

Definition handle_push k (request : Z) (session : SurfaceSession) (operation : PushOperation) : P unit :=
  device ← connection_device k request session;
  match device with
  | None => mret tt
  | Some d =>
      match operation with
      | PushSet provider token =>
          match validate_push_token provider token with
          | Err e => send_control_error k (Some request) e
          | Ok provider =>
              r ← identity_op (λ draw, set_push_token (draw_failure draw 0) d provider token);
              match r with
              | Ok _ => _ ← send k (SPushTokenSet request); mret tt
              | Err e => send_control_error k (Some request) e
              end
          end
      | PushClear =>
          r ← identity_op (λ draw, clear_push_token (draw_failure draw 0) d);
          match r with
          | Ok _ => _ ← send k (SPushTokenCleared request); mret tt
          | Err e => send_control_error k (Some request) e
          end
      end
  end.

Definition handle_notice k (request : Z) (session : SurfaceSession) (operation : NoticeOperation) : P unit :=
  match authority session with
  | KeyedDevice d =>
      reply ← match operation with
        | NoticeSetKey key =>
            match point key with
            | None => mret (Err (invalid
                "public_key must be an uncompressed P-256 point (65 bytes starting 0x04), base64url without padding"))
            | Some _ => map_ok (λ _, SNoticeKeySet request) (identity_op (λ draw, set_notice_key (draw_failure draw 0) d key))
            end
        | NoticeList => map_ok (SNoticeList request)
            (identity_op (λ draw, device_notices (draw_failure draw 0) d (draw_now draw)))
        | NoticeAcknowledge notice => map_ok (λ _, SNoticeAcknowledged request)
            (identity_op (λ draw, acknowledge_notice (draw_failure draw 0) d notice))
        end;
      send_reply k request reply
  | _ => send_error k (Some request) InvalidRole
           "setup notices belong to an app that proved its device key; this connection did not"
  end.

(** [handle_surface_operation]. *)
Definition handle_surface_operation k (session : SurfaceSession) (request : Z) (operation : SurfaceOperation) : P unit :=
  let p := session_owner session in
  match operation with
  | OpListDevices => list_devices_for k request session
  | OpRevokeDevice d => revoke_device_for k request session d
  | OpCallHost r => call_host k session request r
  | OpShareLink share => issue_share k request session share
  | OpPush operation => handle_push k request session operation
  | OpNotice operation => handle_notice k request session operation
  | OpListTasks =>
      r ← map_ok (STaskList request) (store_read (list_tasks p));
      send_reply k request r
  | OpOpenTask t n target =>
      r ← map_ok (λ _, STaskOpened request t) (open_task_on (MkTaskSpec t p n target));
      send_reply k request r
  | OpAttach t after_sequence live =>
      r ← attach_surface k request t after_sequence p live;
      match r with Ok _ => mret tt | Err e => send_control_error k (Some request) e end
  | OpSubmit t c input =>
      r ← submit_command k request t c input p (session_surface session);
      match r with Ok _ => mret tt | Err e => send_control_error k (Some request) e end
  | OpStopCommand t c =>
      r ← map_ok (SStopAccepted request c) (stop_command p t c);
      send_reply k request r
  | OpDeleteTask t =>
      r ← map_ok (λ _, STaskDeleted request t) (delete_task p t);
      send_reply k request r
  end.
End surfaces.

(** ** Nodes ([node_messages.rs], [agent_messages.rs], [agent_replies.rs], [push_wake.rs]) *)
Section nodes.
Context `{CS : ControlSerde} `{LT : LibraryTexts} `{DG : Digest} `{DC : DeviceCrypto}.
Implicit Types (k : ConnectionId) (w : World) (n : NodeId) (t : TaskId) (c : CommandId).

Definition REPLACED : string := "node connection has been replaced".

Definition node_connection_is_current n k : P bool := look (is_current n k).

Definition serve_host_control n k : P bool :=
  act (λ _ w,
    match w_nodes w !! n with
    | Some node =>
        if decide (nc_connection node = k)
        then (true, set_nodes (<[n := MkNodeConnection k (nc_device node) (nc_targets node) true]> (w_nodes w)) w)
        else (false, w)
    | None => (false, w)
    end).

Definition handle_acknowledge_execution k n t c : P unit :=
  r ← store_write (λ _, acknowledge_execution_body n t c);
  match r with
  | Ok _ => _ ← send k (SExecutionAcknowledged c); mret tt
  | Err e => send_control_error k None e
  end.

(** [agent_replies::dispatch]. *)
Definition dispatch_reply (r : AgentReply) (node : option NodeConnection) : P unit :=
  _ ← publish_task_event (reply_event r);
  deliver node (SExecute (reply_task r) (reply_command r)).

Definition batch_ends (events : list ExecutionEvent) : bool :=
  match last events with Some event => is_terminated (x_kind event) | None => false end.

(** After the batch is admitted and the lock, if it was taken, is free. *)
Definition announce_events (admission : ExecutionEventAdmission) (node : option NodeConnection) : P unit :=
  _ ← if existsb (λ event, bool_decide (is_Some (wake_reason (te_kind event)))) (admitted_events admission)
      then change_channels set_notified else mret tt;
  _ ← each publish_task_event (admitted_events admission);
  match reply admission with Some r => dispatch_reply r node | None => mret tt end.

Definition publish_execution_events n t c (events : list ExecutionEvent) : P (Result ControlError Z) :=
  and_then (store_read (load_task t)) (λ task,
    if negb (bool_decide (stored_node task = n)) then mret (Err (does_not_own n t))
    else
      let ends := batch_ends events in
      _ ← if ends then acquire else mret tt;
      replier ← if ends then look (λ w, name_of (nc_targets <$> w_nodes w !! n) (stored_target task)) else mret "";
      admission ← store_write (λ ch, append_execution_events_body ch t c events replier);
      match admission with
      | Err e => _ ← if ends then release else mret tt; mret (Err e)
      | Ok admission =>
          node ← match reply admission with Some r => node_connection (reply_node r) | None => mret None end;
          _ ← if ends then release else mret tt;
          _ ← announce_events admission node;
          mret (Ok (through_execution_sequence admission))
      end).

Definition send_agent_message k n (request : Z) (message : OutgoingMessage) : P unit :=
  _ ← acquire;
  found ← look (λ w, (default [] (nc_targets <$> w_nodes w !! n), w_nodes w !! to_node message));
  let '(sender_cards, destination) := found in
  admission ← store_write (λ ch, admit_in ch n sender_cards (nc_targets <$> destination) message);
  _ ← release;
  match admission with
  | Err e => send_control_error k (Some request) e
  | Ok (MessageAdmitted t _ command event) =>
      _ ← send k (SCommandAccepted request (message_id message));
      _ ← publish_task_event event;
      deliver destination (SExecute t command)
  | Ok (MessageExisting t _ command pending) =>
      _ ← send k (SCommandAccepted request (message_id message));
      if (pending : bool) then deliver destination (SExecute t command) else mret tt
  end.

Definition handle_request_wake k n (request : Z) (wake : N) (urgency : WakeUrgency) : P unit :=
  now ← draw (λ ch, timestamp_millis (draw_now (ch_draw ch)));
  recorded ← match now with
    | Ok now_ms => store_write (λ _, request_wake_body n wake urgency now_ms)
    | Err e => mret (Err e)
    end;
  match recorded with
  | Ok owner =>
      _ ← match owner with Some _ => change_channels set_notified | None => mret tt end;
      _ ← send k (SWakeRequested request); mret tt
  | Err e => send_control_error k (Some request) e
  end.

Definition put_notice n (notice : SealedNotice) : P (Result ControlError unit) :=
  checked ← draw (λ ch, match timestamp_millis (draw_now (ch_draw ch)) with
                         | Ok now_ms => validate_notice notice now_ms
                         | Err e => Err e
                         end);
  match checked with
  | Err e => mret (Err e)
  | Ok _ => and_then (store_write (λ _, put_notice_body n notice)) (λ owner,
      _ ← match owner with Some _ => change_channels set_notified | None => mret tt end;
      mret (Ok tt))
  end.

Definition handle_node_notice k n (request : Z) (operation : NodeNoticeOperation) : P unit :=
  reply ← match operation with
    | NoticeListKeys => map_ok (SNoticeKeys request) (store_read (owner_notice_keys n))
    | NoticePut notice => map_ok (λ _, SNoticePut request) (put_notice n notice)
    | NoticeWithdraw notices => map_ok (λ _, SNoticesWithdrawn request) (store_write (λ _, withdraw_notices_body n notices))
    end;
  send_reply k request reply.

Definition operation_request (operation : NodeOperation) : option Z :=
  match operation with
  | OpSendAgentMessage request _ | OpRequestWake request _ _ | OpNodeNotice request _ => Some request
  | _ => None
  end.

Definition handle_node_operation k n (operation : NodeOperation) : P unit :=
  current ← node_connection_is_current n k;
  if negb current then send_error k (operation_request operation) InvalidRole REPLACED
  else
    match operation with
    | OpServeHostControl =>
        ok ← serve_host_control n k;
        if (ok : bool) then mret tt else send_error k None InvalidRole REPLACED
    | OpCompleteHostCall call reply => complete_host_call k call reply
    | OpAdvertiseTargets targets =>
        r ← advertise_targets n k targets;
        match r with Ok _ => mret tt | Err e => send_control_error k None e end
    | OpAcknowledgeExecution t c => handle_acknowledge_execution k n t c
    | OpAcknowledgeStop t c =>
        r ← store_write (λ _, acknowledge_stop_body n t c);
        match r with Ok _ => mret tt | Err e => send_control_error k None e end
    | OpPublishLiveActivity t c activity => relay n t c activity
    | OpPublishExecutionEvents t c events =>
        r ← publish_execution_events n t c events;
        match r with
        | Ok sequence => _ ← send k (SExecutionEventsAccepted c sequence); mret tt
        | Err e => send_control_error k None e
        end
    | OpSendAgentMessage request message => send_agent_message k n request message
    | OpRequestWake request wake urgency => handle_request_wake k n request wake urgency
    | OpNodeNotice request operation => handle_node_notice k n request operation
    end.

(** [handle_list_targets]. *)
Definition handle_list_targets k (peer : PeerIdentity) (request : Z) : P unit :=
  owner ← match peer with
    | PeerSurface p _ => mret (Some p)
    | PeerNode n =>
        current ← node_connection_is_current n k;
        if negb current then _ ← send_error k (Some request) InvalidRole REPLACED; mret None
        else
          owner ← store_read (λ db, Ok (node_owner n db));
          match owner with
          | Ok (Some owner) => mret (Some owner)
          | Ok None =>
              _ ← send_control_error k (Some request) (role_error
                "This machine has no owner, so there are no other agents to list. Tell the person you are working with.");
              mret None
          | Err e => _ ← send_control_error k (Some request) e; mret None
          end
    end;
  match owner with
  | None => mret tt
  | Some p =>
      r ← list_targets p;
      match r with
      | Ok targets => _ ← send k (STargetList request targets); mret tt
      | Err e => send_control_error k (Some request) e
      end
  end.
End nodes.

(** ** Connections ([connection.rs], [device_handshake.rs]) *)
Section connections.
Context `{CS : ControlSerde} `{LT : LibraryTexts} `{DG : Digest} `{DC : DeviceCrypto} `{WA : !WebAuthn} `{FL : !FrameLength}.
Implicit Types (k : ConnectionId) (w : World).

(** [next_application_message]; the list is what the peer sends before its
    connection ends. *)
Fixpoint next_application_message k (inbox : list InboundMessage) : P (option (ClientMessage * list InboundMessage)) :=
  _ ← wait;
  match inbox with
  | Application m :: rest => mret (Some (m, rest))
  | ControlFrame :: rest => next_application_message k rest
  | Invalid _ :: _ => _ ← send_error k None AuthenticationFailed "authentication failed"; mret None
  | Closed :: _ | [] => mret None
  end.

Definition prove_possession k (inbox : list InboundMessage) (d : DeviceId) (key : string)
    : P (option (list InboundMessage)) :=
  nonce ← draw (λ ch, random_secret (draw_secret (ch_draw ch) 0));
  match nonce with
  | Err e => _ ← send_control_error k None e; mret None
  | Ok nonce =>
      sent ← send k (SDeviceChallenge nonce);
      if negb sent then mret None
      else
        next ← next_application_message k inbox;
        match next with
        | None => mret None
        | Some (m, rest) =>
            let verified := match m with MDeviceProof signature => proves key (proof_message d nonce) signature | _ => false end in
            if verified then mret (Some rest)
            else _ ← send_error k None AuthenticationFailed "authentication failed"; mret None
        end
  end.

Definition check_version k (version : Z) : P bool :=
  if negb (version =? JSON_WS_VERSION)
  then _ ← send_error k None VersionMismatch ("unsupported protocol version " +:+ show version); mret false
  else mret true.

Definition enroll k (version : Z) (token : string) : P unit :=
  ok ← check_version k version;
  if negb ok then mret tt
  else
    r ← identity_op (λ d, claim_enrollment (draw_failure d 0) (draw_secret d 0) (draw_device d) (draw_now d) token);
    match r with
    | Ok credentials => _ ← send k (SEnrolled JSON_WS_VERSION credentials); mret tt
    | Err e => send_control_error k None e
    end.

Record AuthenticatedPeer := MkAuthenticatedPeer {
  peer_authority : Authority; peer_identity : PeerIdentity; peer_device : option DeviceLogin }.

Definition read_peer k (inbox : list InboundMessage) : P (option (AuthenticatedPeer * list InboundMessage)) :=
  next ← next_application_message k inbox;
  match next with
  | None => mret None
  | Some (MEnroll version token, _) => _ ← enroll k version token; mret None
  | Some (MAuthenticate version credentials, rest) =>
      ok ← check_version k version;
      if negb ok then mret None
      else
        r ← store_read (λ db, authenticate_device credentials (identity db));
        match r with
        | Err e => _ ← send_control_error k None e; mret None
        | Ok device =>
            let d := auth_device device in
            let login := Some (MkDeviceLogin d (auth_credential_hash device)) in
            match auth_key device with
            | Some key =>
                proved ← prove_possession k rest d key;
                mret (match proved with
                      | Some rest => Some (MkAuthenticatedPeer (KeyedDevice d) (auth_peer device) login, rest)
                      | None => None
                      end)
            | None => mret (Some (MkAuthenticatedPeer (BearerDevice d) (auth_peer device) login, rest))
            end
        end
  | Some (MAuthenticateTicket version ticket, rest) =>
      ok ← check_version k version;
      if negb ok then mret None
      else
        r ← identity_op (λ d, claim_connection_ticket (draw_failure d 0) ticket (draw_now d));
        match r with
        | Ok peer => mret (Some (MkAuthenticatedPeer Ticket peer None, rest))
        | Err e => _ ← send_control_error k None e; mret None
        end
  | Some (_, _) => _ ← send_error k None InvalidMessage "the first message must establish identity"; mret None
  end.

Definition handle_operation k (peer : PeerIdentity) (a : Authority) (operation : JsonOperation) : P unit :=
  match peer, operation with
  | _, JsonListTargets request => handle_list_targets k peer request
  | PeerSurface p surface, JsonSurface request operation =>
      handle_surface_operation k (MkSurfaceSession p surface a) request operation
  | PeerNode n, JsonNode operation => handle_node_operation k n operation
  | PeerSurface _ _, JsonNode _ => send_error k None InvalidRole "surface cannot issue node operations"
  | PeerNode _, JsonSurface request _ => send_error k (Some request) InvalidRole "node cannot issue surface operations"
  end.

Fixpoint serve_messages k (peer : PeerIdentity) (a : Authority) (inbox : list InboundMessage) : P unit :=
  _ ← wait;
  stop ← is_cancelled k;
  if (stop : bool) then mret tt
  else
    match inbox with
    | [] | Closed :: _ => mret tt
    | ControlFrame :: rest => serve_messages k peer a rest
    | Invalid request :: rest =>
        _ ← send_error k request InvalidMessage "message is not valid Renoa JSON";
        serve_messages k peer a rest
    | Application m :: rest =>
        _ ← match into_operation m with
            | None => send_error k None InvalidMessage "identity may only be established once"
            | Some operation => handle_operation k peer a operation
            end;
        serve_messages k peer a rest
    end.

(** [serve_connection]. The deadline of the authentication drops [read_peer]. *)
Definition serve_connection k (inbox : list InboundMessage) : P unit :=
  authenticated ← droppable ch_flag (λ w, w) false (read_peer k inbox);
  match authenticated with
  | Some (Some (MkAuthenticatedPeer a peer device, rest)) =>
      activated ← match device with
        | Some login => activate_device login peer k
        | None => activate_ticket_peer peer k
        end;
      if negb activated then cancel k
      else
        _ ← serve_messages k peer a rest;
        _ ← cleanup_connection peer k;
        _ ← match device with Some login => cleanup_session (login_device login) k | None => mret tt end;
        cancel k
  | _ => cancel k
  end.

(** ** Signing in over HTTP ([browser_identity_http.rs]) *)
(** A request's future may be dropped by its client at any of its awaits. *)
Definition abandon (d : DeviceId) w : World :=
  let h := w_history w in
  set_history (set_abandoned ({[d]} ∪ abandoned h) h) w.

Definition sign_in_response (s : SignIn) : P unit :=
  match s with
  | SignInBrowser _ => mret tt
  | SignInDevice signed_in =>
      if adopted signed_in
      then let d := cred_device (signed_credentials signed_in) in
           _ ← droppable ch_flag (abandon d) false (end_device_sessions d); mret tt
      else mret tt
  end.

Definition registration_verify (ceremony : N) (credential : RegisterPublicKeyCredential) (proof : option string) : P unit :=
  claimed ← identity_op (λ d, claim_registration_ceremony (draw_failure d 0) ceremony (draw_now d));
  match claimed with
  | Err _ => mret tt
  | Ok c =>
      gone ← draw ch_flag;
      if (gone : bool) then mret tt
      else
        r ← identity_op (λ d, complete_registration d ceremony credential proof c);
        match r with Ok s => sign_in_response s | Err _ => mret tt end
  end.

Definition authentication_verify (ceremony : N) (credential : PublicKeyCredential) (proof : option string) : P unit :=
  claimed ← identity_op (λ d, claim_authentication_ceremony (draw_failure d 0) ceremony (draw_now d));
  match claimed with
  | Err _ => mret tt
  | Ok c =>
      gone ← draw ch_flag;
      if (gone : bool) then mret tt
      else
        r ← identity_op (λ d, complete_authentication d ceremony credential proof c);
        match r with Ok s => sign_in_response s | Err _ => mret tt end
  end.
End connections.
