(* ===== verification/CoordinatorTheorems.v ===== *)
(** * The coordinator under any interleaving

    Every handler of [Coordinator] is verified against [Async]'s rule: what
    the lock [connection_lifecycle] protects holds, and whoever admits a
    delivery, a stop or the end of a device's sessions goes on to carry it out.
    The theorems then hold in every state the coordinator can reach. *)
From S2P Require Import Prelude Json Text Protocol Transaction Control Identity Browser IdentitySound ControlStore.
From S2P Require Import Journals ControlRep ControlRuns ControlDelivery ControlTheorems ControlTaskTheorems IdentityTheorems Async Coordinator.
Section sound.
Context `{CS : ControlSerde} `{LT : LibraryTexts} `{DG : Digest} `{DC : DeviceCrypto} `{WA : !WebAuthn} `{FL : !FrameLength}.
Context `{!ControlSerdeLaws}.
Implicit Types (w : World) (k : ConnectionId) (n : NodeId) (t : TaskId) (c : CommandId) (d : DeviceId) (db : ControlDb).

(** ** What is owed *)
Definition current w n k : Prop := is_current n k w = true.
Definition sent w k : list ServerMessage := default [] (w_queues w !! k).

(** The task was never bound to another node. *)
Definition single w t n : Prop := ∀ n', (t, n') ∈ bound (w_history w) → n' = n.

Inductive Ob :=
| OExecute (k : ConnectionId) (n : NodeId) (pe : PendingExecution)
| OStop (k : ConnectionId) (n : NodeId) (ps : PendingStop)
| OEnd (d : DeviceId)
| OPublish (a : TaskAttachment) (s : Z) (kind : TaskEventKind).

(** The events broadcast on a channel. *)
Definition log w (x : N) : list TaskEvent := default [] (sent_events (w_channels w) !! x).

(** What an attachment has received or will receive, of what was broadcast. *)
Definition received w (a : TaskAttachment) : list TaskEvent :=
  drop (rx_position (at_receiver a)) (log w (rx_channel (at_receiver a))).
Definition is_record (s : Z) (kind : TaskEventKind) (e : TaskEvent) : Prop := te_sequence e = s ∧ te_kind e = kind.
Definition beyond (through : option Z) (s : Z) : Prop := match through with Some n => n < s | None => True end.

Definition outstanding w (o : Ob) : Prop :=
  match o with
  | OExecute k n pe => current w n k ∧ (k ∉ w_closed w) ∧ due (w_db w) n pe ∧ single w (pe_task pe) n ∧
      execute_message pe ∉ sent w k
  | OStop k n ps => current w n k ∧ (k ∉ w_closed w) ∧ ps ∈ load_pending_stops n (w_db w) ∧ single w (ps_task ps) n ∧
      stop_message ps ∉ sent w k
  | OEnd d => d ∈ ending (w_history w) ∧ d ∉ abandoned (w_history w)
  | OPublish a s kind => a ∈ attachments (w_history w) ∧ (at_task a ∉ deleted (w_history w)) ∧ beyond (at_through a) s ∧
      recorded (w_db w) (at_task a) s kind ∧ ∀ e, e ∈ received w a → ¬ is_record s kind e
  end.

Definition sender_is w t (x : N) : Prop := task_senders (w_channels w) !! t = Some x.

(** The credential is accepted, or the device's sessions are about to end. *)
Definition acceptable w d (hash : string) : Prop :=
  device_accepts d hash (identity (w_db w)) = true ∨ d ∈ ending (w_history w).

Record wf w : Prop := {
  wf_rep : ∃ J, represents (w_db w) J;
  wf_bound : bindings (w_db w) ⊆ bound (w_history w);
  wf_logins : ∀ k d hash, (k, d, hash) ∈ logins (w_history w) →
    k ∈ sessions_of w d ∧ acceptable w d hash ∨ k ∈ w_cancelled w ∨ k ∈ finished (w_history w);
  wf_attached : ∀ a, a ∈ attachments (w_history w) → at_task a ∉ deleted (w_history w) →
    sender_is w (at_task a) (rx_channel (at_receiver a)) ∧
    (rx_position (at_receiver a) ≤ length (log w (rx_channel (at_receiver a))))%nat;
}.

(** What every action keeps. *)
Record always w w' : Prop := {
  al_sent : ∀ k m, m ∈ sent w k → m ∈ sent w' k;
  al_closed : w_closed w ⊆ w_closed w';
  al_bound : bound (w_history w) ⊆ bound (w_history w');
  al_abandoned : abandoned (w_history w) ⊆ abandoned (w_history w');
  al_deleted : deleted (w_history w) ⊆ deleted (w_history w');
  al_log : ∀ x : N, log w x `prefix_of` log w' x;
  al_senders : ∀ t (x : N), t ∉ deleted (w_history w') → sender_is w t x → sender_is w' t x;
}.

(** What every action without the lock keeps, besides. *)
Record quiet w w' : Prop := {
  qu_due : ∀ n pe, due (w_db w') n pe → due (w_db w) n pe;
  qu_stops : ∀ n ps, ps ∈ load_pending_stops n (w_db w') → ps ∈ load_pending_stops n (w_db w);
  qu_current : ∀ n k, current w' n k → current w n k;
  qu_accepts : ∀ d hash, acceptable w d hash → acceptable w' d hash;
}.

#[local] Instance always_refl : Reflexive always.
Proof. done. Qed.
#[local] Instance quiet_refl : Reflexive quiet.
Proof. done. Qed.

Abbreviation keeps := (keeps wf quiet always).
Abbreviation mild_step := (mild_step wf outstanding quiet always).
Abbreviation gentle := (gentle wf outstanding quiet always).
Abbreviation verified := (verified wf outstanding quiet always).
Abbreviation tame := (tame wf outstanding quiet always).
Abbreviation wp := (wp wf outstanding quiet always).

(** ** Mild steps *)

(** The events and their channels are those of before. *)
Definition same_events w w' : Prop :=
  task_senders (w_channels w') = task_senders (w_channels w) ∧ sent_events (w_channels w') = sent_events (w_channels w).

Lemma same_log w w' x : same_events w w' → log w' x = log w x.
Proof. intros [_ E]. unfold log. by rewrite E. Qed.
Lemma same_sender w w' t x : same_events w w' → sender_is w' t x ↔ sender_is w t x.
Proof. intros [E _]. unfold sender_is. by rewrite E. Qed.

Lemma same_attached w w' : wf w → same_events w w' → attachments (w_history w') = attachments (w_history w) →
  deleted (w_history w) ⊆ deleted (w_history w') → ∀ a, a ∈ attachments (w_history w') → at_task a ∉ deleted (w_history w') →
  sender_is w' (at_task a) (rx_channel (at_receiver a)) ∧
  (rx_position (at_receiver a) ≤ length (log w' (rx_channel (at_receiver a))))%nat.
Proof.
  intros Hwf Hev Ea Hd a Ha Hn. rewrite (same_sender w w'), (same_log w w') by done. apply (wf_attached _ Hwf); [by rewrite <- Ea|set_solver].
Qed.

Lemma same_received w w' a : same_events w w' → received w' a = received w a.
Proof. intros Hev. unfold received. by rewrite (same_log w w'). Qed.

(** Nothing but queues, closings, cancellations and other channels change. *)
Lemma mild_same w w' : wf w → w_db w' = w_db w → w_nodes w' = w_nodes w → w_sessions w' = w_sessions w →
  w_history w' = w_history w → same_events w w' → (∀ k m, m ∈ sent w k → m ∈ sent w' k) → w_closed w ⊆ w_closed w' →
  w_cancelled w ⊆ w_cancelled w' → mild_step w w'.
Proof.
  intros Hwf Ed En Es Eh Hev Hs Hc Hx.
  assert (∀ d hash, acceptable w' d hash ↔ acceptable w d hash) as Ha by (intros; unfold acceptable; by rewrite Ed, Eh).
  assert (∀ n k, current w' n k ↔ current w n k) as Hcur by (intros; unfold current, is_current; by rewrite En).
  split.
  - pose proof Hwf as [HJ Hb Hl _]. split; [by rewrite Ed|by rewrite Ed, Eh| |apply (same_attached w); [done|done|by rewrite Eh..]].
    rewrite Eh. intros k d hash Hin. rewrite Ha. unfold sessions_of. rewrite Es. destruct (Hl k d hash Hin) as [?|[?|?]]; auto.
  - split; [done|done|by rewrite Eh..|by intros n; rewrite (same_log w w')|by intros t n _; rewrite (same_sender w w')].
  - split; rewrite ?Ed; [done|done|intros; by apply Hcur|intros; by apply Ha].
  - intros [k n pe|k n ps|d|a q kind]; cbn; unfold single; rewrite ?Ed, ?Eh, ?Hcur, ?(same_received w w') by done; set_solver.
Qed.

(** Connections of nodes go, or change their cards. *)
Lemma mild_nodes w w' : wf w → w_db w' = w_db w → w_sessions w' = w_sessions w → w_queues w' = w_queues w →
  w_closed w' = w_closed w → w_cancelled w' = w_cancelled w → w_history w' = w_history w → same_events w w' →
  (∀ n k, current w' n k → current w n k) → mild_step w w'.
Proof.
  intros Hwf Ed Es Eq Ec Ex Eh Hev Hc.
  assert (∀ k, sent w' k = sent w k) as Hs by (intros; unfold sent; by rewrite Eq).
  split; [|split|split|].
  - pose proof Hwf as [HJ Hb Hl _]. split; [by rewrite Ed|by rewrite Ed, Eh| |apply (same_attached w); [done|done|by rewrite Eh..]].
    rewrite Eh, Ex. unfold acceptable, sessions_of. rewrite Es, Ed, Eh. exact Hl.
  - intros k m. by rewrite Hs.
  - by rewrite Ec.
  - by rewrite Eh.
  - by rewrite Eh.
  - by rewrite Eh.
  - intros n. by rewrite (same_log w w').
  - intros t n _. by rewrite (same_sender w w').
  - by rewrite Ed.
  - by rewrite Ed.
  - done.
  - unfold acceptable. by rewrite Ed, Eh.
  - intros [k n pe|k n ps|d|a q kind]; cbn; unfold single; rewrite ?Ed, ?Ec, ?Eh, ?Hs, ?(same_received w w') by done; naive_solver.
Qed.

(** Events are broadcast, and only the channels of deleted tasks go. *)
Lemma mild_events cs w : wf w → (∀ x, log w x `prefix_of` log (set_channels cs w) x) →
  (∀ t x, t ∉ deleted (w_history w) → sender_is w t x → task_senders cs !! t = Some x) → mild_step w (set_channels cs w).
Proof.
  intros Hwf Hlog Hsend. pose proof Hwf as [HJ Hb Hl Hat]. split; [split; [done..|]|by split|done|].
  - intros a Ha Hd. destruct (Hat a Ha Hd) as [Hs Hp]. split; [by apply Hsend|].
    pose proof (prefix_length _ _ (Hlog (rx_channel (at_receiver a)))). lia.
  - intros [k n pe|k n ps|d|a q kind]; [done..|]. cbn. intros (? & ? & ? & ? & Hn). split_and!; try done. intros e He. apply Hn.
    unfold received in *. destruct (Hlog (rx_channel (at_receiver a))) as [l ->]. rewrite drop_app. apply elem_of_app. by left.
Qed.

Lemma lost_none but i i' : rows_kept but i i' → lost i i' ⊆ match but with Some d => {[d]} | None => ∅ end.
Proof.
  intros Hk d. unfold lost. rewrite elem_of_dom. intros [row [Hr [Ha Hn]]%map_lookup_filter_Some]. cbn in *.
  destruct (decide (Some d = but)) as [<-|Hne]; [set_solver|]. by rewrite (accepts_kept but i i' d _ Hk Hne Ha) in Hn.
Qed.

(** What committing a database does to the promises of [quiet] and [wf]. *)
Lemma set_db_accepts db w d hash : acceptable w d hash → acceptable (set_db db w) d hash.
Proof.
  unfold acceptable. cbn. intros [Ha|?]; [|set_solver]. destruct (device_accepts d hash (identity db)) eqn:En; [by left|right].
  apply elem_of_union_r. unfold lost. apply elem_of_dom. unfold device_accepts in Ha.
  destruct (devices (identity (w_db w)) !! d) as [row|] eqn:Hr; [|done].
  apply andb_true_iff in Ha as [Hh%String.eqb_eq Hv]. subst hash. exists row. apply map_lookup_filter_Some. split; [done|]. cbn.
  split; [|done]. unfold device_accepts. rewrite Hr, Hv. by rewrite String.eqb_refl.
Qed.

Lemma set_db_wf db w : wf w → (∃ J, represents db J) → wf (set_db db w).
Proof.
  intros Hwf HJ. pose proof Hwf as [_ Hb Hl _]. split; [done|set_solver| |].
  - intros k d hash Hin. destruct (Hl k d hash Hin) as [[? ?]|?]; [left; split; [done|by apply set_db_accepts]|by right].
  - apply (same_attached w); try done. set_solver.
Qed.

Lemma set_db_always db w : always w (set_db db w).
Proof. split; set_solver. Qed.

(** A committed database owes only what the call added. *)
Lemma set_db_outstanding E S evs but db w o : owes E S evs (w_db w) db → rows_kept but (identity (w_db w)) (identity db) →
  outstanding (set_db db w) o →
  outstanding w o ∨
  match o with
  | OExecute k n pe => E n pe ∧ current w n k ∧ single (set_db db w) (pe_task pe) n
  | OStop k n ps => S n ps ∧ current w n k ∧ single (set_db db w) (ps_task ps) n
  | OEnd d => Some d = but
  | OPublish a s kind => records_of evs (at_task a) s kind
  end.
Proof.
  intros [H1 H2 H3] Hk. assert (∀ t n, single (set_db db w) t n → single w t n) as Hs by (intros t n Hs n' ?; apply Hs; set_solver).
  destruct o as [k n pe|k n ps|d|a s kind]; cbn.
  - intros (? & ? & [?|?]%H1 & ? & ?); auto 10.
  - intros (? & ? & [?|?]%H2 & ? & ?); auto 10.
  - intros [[He|He]%elem_of_union Ha]; [auto|right]. apply (lost_none but) in He; [|done]. destruct but; set_solver.
  - intros (? & Hd & ? & [?|?]%H3 & ?); [left; split_and!; try done; set_solver|by right].
Qed.

Lemma set_db_quiet evs db w : owes nothing nothing evs (w_db w) db → quiet w (set_db db w).
Proof.
  intros [H1 H2 _]. split; cbn; [| |done|intros; by apply set_db_accepts].
  - intros n pe [?|[]]%H1. done.
  - intros n ps [?|[]]%H2. done.
Qed.

Lemma mild_db db w : wf w → (∃ J, represents db J) → owes nothing nothing [] (w_db w) db →
  rows_kept None (identity (w_db w)) (identity db) → mild_step w (set_db db w).
Proof.
  intros Hwf HJ Ho Hk. split; [by apply set_db_wf|apply set_db_always| |].
  - by eapply set_db_quiet.
  - intros o Hout. destruct (set_db_outstanding nothing nothing [] None db w o Ho Hk Hout) as [?|Hn]; [done|].
    destruct o; [by destruct Hn as [[] _]..|done|by destruct Hn as (? & ?%elem_of_nil & _)].
Qed.

(** ** Gentle programs *)
Lemma gentle_look b {X} (f : World → X) : gentle b (look f : P X).
Proof. apply gentle_act. intros ch w Hwf. by apply mild_same. Qed.
Lemma gentle_draw b {X} (f : Chance → X) : gentle b (draw f).
Proof. apply gentle_act. intros ch w Hwf. by apply mild_same. Qed.
Lemma gentle_store_read b {A} (q : ControlDb → Result ControlError A) : gentle b (store_read q).
Proof. apply gentle_act. intros ch w Hwf. by apply mild_same. Qed.

Lemma sent_send w k m k' : m ∈ sent (set_queues (<[k' := sent w k' ++ [m]]> (w_queues w)) w) k' .
Proof. unfold sent. cbn. rewrite lookup_insert_eq. cbn. apply elem_of_app. right. by left. Qed.

Lemma mild_push k m w : wf w → mild_step w (push k m w).
Proof.
  intros Hwf. apply mild_same; try done. intros k' m' Hm. unfold sent in *. cbn. destruct (decide (k = k')) as [<-|Hne];
    [rewrite lookup_insert_eq; cbn; apply elem_of_app; by left|by rewrite lookup_insert_ne].
Qed.
Lemma gentle_send b k m : gentle b (send k m).
Proof. split; [|done]. intros ch w Hwf. case_decide; [by apply mild_same|by apply mild_push]. Qed.
Lemma gentle_change_channels b f :
  (∀ cs, task_senders (f cs) = task_senders cs ∧ sent_events (f cs) = sent_events cs) → gentle b (change_channels f).
Proof. intros Hf. apply gentle_act. intros ch w Hwf. apply mild_same; try done. apply Hf. Qed.
Lemma gentle_cancel b k : gentle b (cancel k).
Proof. apply gentle_act. intros ch w Hwf. apply mild_same; cbn; try done. set_solver. Qed.
Lemma gentle_each b {A} (f : A → P unit) l : (∀ a, gentle b (f a)) → gentle b (each f l).
Proof. intros Hf. induction l as [|a l IH]; cbn [each]; [done|]. apply gentle_bind; [apply Hf|intros _; exact IH]. Qed.
Lemma gentle_and_then b {E A B} (p : P (Result E A)) (f : A → P (Result E B)) : gentle b p → (∀ a, gentle b (f a)) → gentle b (and_then p f).
Proof. intros Hp Hf. apply gentle_bind; [done|]. intros [a|e]; [apply Hf|done]. Qed.

Lemma gentle_store_write b {A} (m : ControlChoice → CTx A) :
  (∀ ch db J a db', represents db J → m ch db = Ok (a, db') → (∃ J', represents db' J') ∧ owes nothing nothing [] db db') →
  (∀ ch, follows devices_kept (m ch)) → gentle b (store_write m).
Proof.
  intros Hm Hk. apply gentle_act. intros ch w Hwf. cbn. destruct (wf_rep _ Hwf) as [J HJ].
  unfold attempt, commit. destruct (control_failure (ch_store ch)); cbn.
  { apply mild_db; [done|eauto|apply owes_refl|reflexivity]. }
  destruct (m (ch_store ch) (w_db w)) as [[a db']|e] eqn:E; cbn; [|apply mild_db; [done|eauto|apply owes_refl|reflexivity]].
  destruct (Hm _ _ _ _ _ HJ E) as [HJ' Ho]. apply mild_db; [done..|]. by apply (Hk _ _ _ _ E).
Qed.

Lemma gentle_identity_op b {A} (o : Draw → IOp A) : (∀ draw i, rows_kept None i (o draw i).2) → gentle b (identity_op o).
Proof.
  intros Hk. apply gentle_act. intros ch w Hwf. cbn. destruct (wf_rep _ Hwf) as [J HJ].
  apply mild_db; [done|exists J; by eapply represents_same| |apply Hk]. eapply same_tables_owes; [exact HJ|by eapply represents_same|done..].
Qed.
Create HintDb gentle.
Hint Resolve gentle_look gentle_draw gentle_store_read gentle_send gentle_cancel gentle_each : gentle.

Ltac gentle_tac := repeat match goal with
  | |- ∀ _, _ => intros ?
  | |- gentle _ (mret _) => exact I
  | |- gentle true wait => done
  | |- gentle _ (change_channels _) => solve [apply gentle_change_channels; intros ?; cbn; repeat case_match; done]
  | |- gentle _ _ => solve [eauto 3 with gentle nocore]
  | |- gentle _ (_ ≫= _) => apply gentle_bind
  | |- gentle _ (and_then _ _) => apply gentle_and_then
  | |- gentle _ (match ?x with _ => _ end) => destruct x
  end.

Lemma gentle_map_ok b {E A B} (f : A → B) (p : P (Result E A)) : gentle b p → gentle b (map_ok f p).
Proof. intros Hp. unfold map_ok. gentle_tac. Qed.
Lemma gentle_try_join b {E A B} (p : P (Result E A)) (q : P (Result E B)) : gentle b p → gentle b q → gentle b (try_join p q).
Proof. intros Hp Hq. unfold try_join, map_ok. gentle_tac. Qed.
Hint Resolve gentle_map_ok gentle_try_join : gentle.
Lemma gentle_try_send b k m : gentle b (try_send k m).
Proof.
  apply gentle_act. intros ch w Hwf. cbn. case_decide; [by apply mild_same|].
  destruct (room w k); [by apply mild_push|by apply mild_same].
Qed.
Lemma gentle_is_cancelled b k : gentle b (is_cancelled k).
Proof. unfold is_cancelled. gentle_tac. Qed.
Lemma gentle_send_error b k r code m : gentle b (send_error k r code m).
Proof. unfold send_error. gentle_tac. Qed.
Hint Resolve gentle_try_send gentle_is_cancelled gentle_send_error : gentle.
Lemma gentle_send_control_error b k r e : gentle b (send_control_error k r e).
Proof. unfold send_control_error. gentle_tac. Qed.
Hint Resolve gentle_send_control_error : gentle.
Lemma gentle_send_reply b k r x : gentle b (send_reply k r x).
Proof. unfold send_reply. gentle_tac. Qed.
Lemma gentle_send_all b k ms : gentle b (send_all k ms).
Proof. induction ms; cbn [send_all]; gentle_tac. Qed.
Lemma gentle_task_sender b t : gentle b (task_sender t).
Proof.
  apply gentle_act. intros ch w Hwf. cbn. destruct (task_senders _ !! t) as [x|] eqn:E; [by apply mild_same|].
  apply mild_events; [done| |].
  - intros x. unfold log. cbn. destruct (decide (next_channel (sent_events (w_channels w)) = x)) as [<-|Hne];
      [|by rewrite lookup_insert_ne].
    rewrite lookup_insert_eq. unfold next_channel. by rewrite (not_elem_of_dom_1 _ _ (is_fresh (dom (sent_events (w_channels w))))).
  - intros t' x _ Hs. cbn. unfold sender_is in Hs. rewrite lookup_insert_ne; [done|]. congruence.
Qed.
Hint Resolve gentle_send_reply gentle_send_all gentle_task_sender : gentle.
Lemma gentle_deliver b node m : gentle b (deliver node m).
Proof. unfold deliver. gentle_tac. Qed.
Lemma gentle_node_connection b n : gentle b (node_connection n).
Proof. unfold node_connection. gentle_tac. Qed.
Hint Resolve gentle_deliver gentle_node_connection : gentle.

Lemma current_delete w n w' : w_nodes w' = delete n (w_nodes w) → ∀ n' k, current w' n' k → current w n' k.
Proof.
  intros E n' k. unfold current, is_current. rewrite E. destruct (decide (n = n')) as [<-|Hne];
    [by rewrite lookup_delete_eq|by rewrite lookup_delete_ne].
Qed.

Lemma gentle_cleanup_connection b peer k : gentle b (cleanup_connection peer k).
Proof.
  destruct peer as [p s|n]; cbn [cleanup_connection]; [done|]. apply gentle_act. intros ch w Hwf. cbn.
  destruct (is_current n k w); [|by apply mild_nodes]. apply mild_nodes; try done. by apply (current_delete w n).
Qed.

Lemma gentle_cleanup_session b d k : gentle b (cleanup_session d k).
Proof.
  apply gentle_act. intros ch w Hwf. cbn. destruct Hwf as [HJ Hb Hl Hat].
  split; [split; [done|done| |done]|done|done|intros [| | |]; cbn; naive_solver]. cbn.
  intros k' d' hash Hin. destruct (decide (k' = k)) as [->|Hne]; [right; right; set_solver|].
  destruct (Hl k' d' hash Hin) as [[Hs Ha]|[?|?]]; [left|by right; left|right; right; set_solver]. split; [|exact Ha].
  unfold sessions_of in *. cbn. destruct (decide (d' = d)) as [->|Hnd].
  - case_decide as He; [exfalso; set_solver|]. rewrite lookup_insert_eq. cbn. set_solver.
  - case_decide; [by rewrite lookup_delete_ne|by rewrite lookup_insert_ne].
Qed.
Hint Resolve gentle_cleanup_connection gentle_cleanup_session : gentle.

(** ** Handlers without the lock *)
Lemma gentle_identity_call b {A} (o : Draw → IOp A) (call : Draw → IdentityCall) :
  (∀ draw, ends_login (call draw) = false) → (∀ draw i, (o draw i).2 = run_identity (call draw) i) → gentle b (identity_op o).
Proof. intros He Ho. apply gentle_identity_op. intros draw i. rewrite Ho. by apply call_keeps_rows. Qed.

Lemma gentle_allowed b k r a : gentle b (allowed k r a).
Proof. unfold allowed. gentle_tac. Qed.
Hint Resolve gentle_allowed : gentle.
Lemma gentle_list_devices b k r s : gentle b (list_devices_for k r s).
Proof. unfold list_devices_for. gentle_tac. Qed.
Lemma gentle_list_targets b p : gentle b (list_targets p).
Proof. unfold list_targets. gentle_tac. Qed.
Hint Resolve gentle_list_devices gentle_list_targets : gentle.

Lemma gentle_open_task b task : gentle b (open_task_on task).
Proof.
  unfold open_task_on. apply gentle_bind; [gentle_tac|]. intros a. apply gentle_map_ok, gentle_store_write.
  - intros ch db J o db' HR HT. destruct (open_moves _ _ _ _ _ (λ _, False) _ HR HT) as (J' & _ & HR').
    split; [by eauto|by eapply open_owes].
  - intros ch. apply kept_open_body.
Qed.

Lemma current_same w w' n node node' : w_nodes w !! n = Some node → nc_connection node' = nc_connection node →
  w_nodes w' = <[n := node']> (w_nodes w) → ∀ n' k, current w' n' k → current w n' k.
Proof.
  intros Hn Hc E n' k. unfold current, is_current. rewrite E. destruct (decide (n = n')) as [<-|Hne];
    [by rewrite lookup_insert_eq, Hn, Hc|by rewrite lookup_insert_ne].
Qed.

Lemma gentle_advertise b n k targets : gentle b (advertise_targets n k targets).
Proof.
  unfold advertise_targets. destruct (validate_targets targets) as [l|e]; [|done]. apply gentle_act. intros ch w Hwf.
  destruct (w_nodes w !! n) as [node|] eqn:En; [|by apply mild_same]. case_decide as Hk; [|by apply mild_same].
  apply mild_nodes; try done. eapply (current_same w); [exact En| |reflexivity]. by subst k.
Qed.
Lemma gentle_serve_host_control b n k : gentle b (serve_host_control n k).
Proof.
  apply gentle_act. intros ch w Hwf.
  destruct (w_nodes w !! n) as [node|] eqn:En; [|by apply mild_same]. case_decide as Hk; [|by apply mild_same].
  apply mild_nodes; try done. eapply (current_same w); [exact En| |reflexivity]. by subst k.
Qed.

Hint Resolve gentle_open_task gentle_advertise gentle_serve_host_control : gentle.

Lemma gentle_live_subscribe b t n : gentle b (live_subscribe t n).
Proof. apply gentle_act. intros ch w Hwf. cbn. destruct (live_channels _ !! t); by apply mild_same. Qed.
Lemma gentle_relay b n t c activity : gentle b (relay n t c activity).
Proof. unfold relay. gentle_tac. Qed.
Lemma gentle_forward_frames b fuel k t : ∀ frames, gentle b (forward_frames fuel k t frames).
Proof. induction fuel as [|fuel IH]; intros [rx|]; cbn [forward_frames]; gentle_tac; apply IH. Qed.
Hint Resolve gentle_live_subscribe gentle_relay gentle_forward_frames : gentle.
Lemma gentle_forward_task rounds k t through : ∀ live frames, gentle true (forward_task rounds k t through live frames).
Proof.
  induction rounds as [|rounds IH]; intros live frames; cbn [forward_task]; [done|]. unfold forward_waiting.
  gentle_tac; apply IH.
Qed.
Lemma mild_refl w : wf w → mild_step w w.
Proof. intros Hwf. by apply mild_same. Qed.

Lemma gentle_dispatch_call owned p r id : gentle true (dispatch_call owned p r id).
Proof.
  unfold dispatch_call. gentle_tac. apply gentle_act. intros ch w Hwf. by destruct (serving owned w) as [|? [|? ?]]; apply mild_same.
Qed.
Lemma gentle_answer b k r outcome : gentle b (answer k r outcome).
Proof. unfold answer. gentle_tac. Qed.
Hint Resolve gentle_dispatch_call gentle_answer : gentle.
Lemma gentle_waiting_call k p r hr : gentle true (waiting_call k p r hr).
Proof.
  unfold waiting_call, call. gentle_tac. apply gentle_droppable; [apply mild_refl|intros w Hwf; by apply mild_same|]. gentle_tac.
Qed.
Lemma gentle_call_host b k s r hr : gentle b (call_host k s r hr).
Proof.
  unfold call_host, admit_call. gentle_tac.
  - apply gentle_act. intros ch w Hwf. case_decide; by apply mild_same.
  - apply gentle_spawn, tame_verified, (gentle_tame _ _ _ _ true), gentle_waiting_call.
Qed.
Lemma gentle_issue_share b k r s share : gentle b (issue_share k r s share).
Proof.
  unfold issue_share. gentle_tac.
  by eapply (gentle_identity_call _ _ (λ x, IShare (draw_failure x 0) (draw_failure x 1) (draw_secret x 0) (session_owner s) share (draw_now x))).
Qed.
Lemma gentle_push b k r s o : gentle b (handle_push k r s o).
Proof.
  unfold handle_push, connection_device. gentle_tac.
  - by eapply (gentle_identity_call _ _ (λ x, ISetToken (draw_failure x 0) _ _ _)).
  - by eapply (gentle_identity_call _ _ (λ x, IClearToken (draw_failure x 0) _)).
Qed.
Lemma gentle_notice b k r s o : gentle b (handle_notice k r s o).
Proof.
  unfold handle_notice. gentle_tac; apply gentle_map_ok.
  - by eapply (gentle_identity_call _ _ (λ x, INoticeKey (draw_failure x 0) _ _)).
  - by eapply (gentle_identity_call _ _ (λ x, INotices (draw_failure x 0) _ (draw_now x))).
  - by eapply (gentle_identity_call _ _ (λ x, IAcknowledgeNotice (draw_failure x 0) _ _)).
Qed.
Hint Resolve gentle_call_host gentle_issue_share gentle_push gentle_notice : gentle.

Lemma gentle_acknowledge b k n t c : gentle b (handle_acknowledge_execution k n t c).
Proof.
  unfold handle_acknowledge_execution. gentle_tac. apply gentle_store_write; [|intros ch; apply kept_acknowledge].
  intros ch db J o db' HR HT. split; [exists J; by eapply acknowledge_keeps|by eapply acknowledge_owes].
Qed.
Lemma gentle_acknowledge_stop b n t c : gentle b (store_write (λ _, acknowledge_stop_body n t c)).
Proof.
  apply gentle_store_write; [|intros ch; apply kept_acknowledge_stop].
  intros ch db J o db' HR HT. split; [exists J; by eapply acknowledge_stop_keeps|by eapply acknowledge_stop_owes].
Qed.
Lemma gentle_request_wake b k n r wake u : gentle b (handle_request_wake k n r wake u).
Proof.
  unfold handle_request_wake. gentle_tac. apply gentle_store_write; [|intros ch; apply kept_request_wake].
  intros ch db J o db' HR HT. split; [exists J; by eapply request_wake_keeps|by eapply wake_rows_owe].
Qed.
Lemma gentle_node_notice b k n r o : gentle b (handle_node_notice k n r o).
Proof.
  unfold handle_node_notice, put_notice. gentle_tac; apply gentle_map_ok; gentle_tac; apply gentle_store_write.
  - intros ch db J o db' HR HT. pose proof (put_notice_keeps _ _ _ _ _ _ HR HT) as HR'. split; [by eauto|].
    unfold put_notice_body, record in HT. tx_inv.
    rename select (identity_tx _ _ = _) into Hi. apply identity_tx_ok in Hi as (i & _ & ->).
    match goal with fresh : bool |- _ => destruct fresh; tx_inv end; by eapply same_tables_owes.
  - intros ch. apply kept_put_notice.
  - intros ch db J o db' HR (i & _ & ->)%identity_tx_ok.
    assert (represents (with_identity i db) J) as HR' by by eapply represents_same. split; [by eauto|by eapply same_tables_owes].
  - intros ch. apply kept_withdraw_notices.
Qed.
Hint Resolve gentle_acknowledge gentle_acknowledge_stop gentle_request_wake gentle_node_notice : gentle.

Lemma gentle_handle_list_targets b k peer r : gentle b (handle_list_targets k peer r).
Proof. unfold handle_list_targets, node_connection_is_current. gentle_tac. Qed.
Hint Resolve gentle_handle_list_targets : gentle.

Lemma gentle_next_message k inbox : gentle true (next_application_message k inbox).
Proof. induction inbox as [|[m| | |r] inbox IH]; cbn [next_application_message]; gentle_tac. Qed.
Hint Resolve gentle_next_message : gentle.
Lemma gentle_prove_possession k inbox d key : gentle true (prove_possession k inbox d key).
Proof. unfold prove_possession. gentle_tac. Qed.
Lemma gentle_check_version b k v : gentle b (check_version k v).
Proof. unfold check_version. gentle_tac. Qed.
Hint Resolve gentle_prove_possession gentle_check_version : gentle.
Lemma gentle_enroll b k v token : gentle b (enroll k v token).
Proof.
  unfold enroll. gentle_tac.
  by eapply (gentle_identity_call _ _ (λ x, IClaimEnrollment (draw_failure x 0) (draw_secret x 0) (draw_device x) (draw_now x) token)).
Qed.
Hint Resolve gentle_enroll : gentle.
Lemma gentle_read_peer k inbox : gentle true (read_peer k inbox).
Proof.
  unfold read_peer. gentle_tac.
  by eapply (gentle_identity_call _ _ (λ x, IClaimTicket (draw_failure x 0) _ (draw_now x))).
Qed.

(** ** Handlers that take the lock *)
Lemma keeps_held K : keeps false K → keeps true K.
Proof. intros HK w w' ? ? ? _. by apply (HK w). Qed.

Lemma wp_then {A B} (p : P A) (g : A → P B) held K D Φ : gentle false p → keeps held K → (∀ a, wp held K D (g a) Φ) →
  wp held K D (p ≫= g) Φ.
Proof. intros Hp HK Hg. apply wp_bind, gentle_wp; auto. Qed.

Lemma wp_read {X B} (f : Chance → World → X) (g : X → P B) held K D Φ :
  (∀ ch w, wf w → K w → ∃ K' D', keeps held K' ∧ K' w ∧ (∀ o, outstanding w o → D o → D' o) ∧ wp held K' D' (g (f ch w)) Φ) →
  wp held K D (act (λ ch w, (f ch w, w)) ≫= g) Φ.
Proof.
  intros Hf ch w Hwf HK. cbn. destruct (Hf ch w Hwf HK) as (K' & D' & ? & ? & Ho & ?). split_and!; [done..|].
  exists K', D'. split_and!; try done. intros o Hout. right. auto.
Qed.

(** An action that is mild where the program knows [K]. *)
Lemma wp_mild {X B} (f : Chance → World → X * World) (g : X → P B) held K D Φ : keeps held K →
  (∀ ch w, wf w → K w → mild_step w (f ch w).2) → (∀ x, wp held K D (g x) Φ) → wp held K D (act f ≫= g) Φ.
Proof.
  intros HK Hf Hg ch w Hwf HKw. destruct (Hf ch w Hwf HKw) as [H1 H2 H3 H4]. split_and!; [done..|].
  exists K, D. split_and!; [done|by apply (HK w)|intros o Ho; right; auto|apply Hg].
Qed.

Lemma wp_acquire {B} (g : unit → P B) K D Φ : keeps false K → wp true K D (g tt) Φ → wp false K D (acquire ≫= g) Φ.
Proof. intros HK Hg. split; [done|]. intros w Hwf HKw. exists K. split_and!; [by apply keeps_held|done..]. Qed.

Lemma wp_release {B} (g : unit → P B) K D Φ : wp false (λ _, True) D (g tt) Φ → wp true K D (release ≫= g) Φ.
Proof. intros Hg. split; [done|]. intros w Hwf HKw. exists (λ _, True). split_and!; [apply keeps_true|done..]. Qed.

(** Queueing the message for the connection, or finding its queue closed, meets the obligation. *)
Definition pays k (m : ServerMessage) (o : Ob) : Prop :=
  match o with
  | OExecute k' _ pe => k' = k ∧ execute_message pe = m
  | OStop k' _ ps => k' = k ∧ stop_message ps = m
  | OEnd _ | OPublish _ _ _ => False
  end.

Lemma send_pays k m w o : pays k m o → ¬ outstanding (if decide (k ∈ w_closed w) then w
    else push k m w) o.
Proof.
  intros Hp. case_decide as Hc; destruct o as [k' n pe|k' n ps|d|a q kind]; cbn in Hp; try done; destruct Hp as [-> <-]; cbn; try naive_solver.
  - intros (_ & _ & _ & _ & Hn). apply Hn, (sent_send w k).
  - intros (_ & _ & _ & _ & Hn). apply Hn, (sent_send w k).
Qed.

Lemma wp_deliver (node : option NodeConnection) m K D Φ : keeps false K →
  (∀ o, D o → ∃ x, node = Some x ∧ pays (nc_connection x) m o) → (∀ D', (∀ o, ¬ D' o) → Φ tt false K D') →
  wp false K D (deliver node m) Φ.
Proof.
  intros HK HD HΦ. unfold deliver. destruct node as [x|]; [|apply HΦ; intros o (? & ? & _)%HD; done].
  intros ch w Hwf HKw. pose proof (gentle_send false (nc_connection x) m) as [Hm _]. destruct (Hm ch w Hwf) as [H1 H2 H3 H4].
  split_and!; [done..|]. exists K, (λ _, False). split_and!; [done|by apply (HK w)| |by apply HΦ; intros o []].
  intros o Ho. right. split; [by apply H4|]. intros (x' & [= <-] & Hp)%HD. apply (send_pays _ m w o Hp). cbn in Ho. by case_decide.
Qed.

Lemma keeps_and held (K1 K2 : World → Prop) : keeps held K1 → keeps held K2 → keeps held (λ w, K1 w ∧ K2 w).
Proof. intros H1 H2 w w' ? ? ? ? []. split; [by apply (H1 w)|by apply (H2 w)]. Qed.

(** Broadcasting an event meets the obligation to every attachment of its task. *)
Definition publishes (e : TaskEvent) (o : Ob) : Prop :=
  match o with OPublish a s kind => te_task_id e = at_task a ∧ is_record s kind e | _ => False end.

Definition sends_to t (x : N) w : Prop := t ∉ deleted (w_history w) → sender_is w t x.
Lemma keeps_sender held t x : keeps held (sends_to t x).
Proof. intros w w' _ _ Hal _ Hs Hd. apply (al_senders _ _ Hal); [done|]. apply Hs. intros ?. apply Hd. by apply (al_deleted _ _ Hal). Qed.

Lemma wp_task_sender {B} t (g : N → P B) K D Φ : keeps false K →
  (∀ x, wp false (λ w, K w ∧ sends_to t x w) D (g x) Φ) → wp false K D (task_sender t ≫= g) Φ.
Proof.
  intros HK Hg ch w Hwf HKw. pose proof (gentle_task_sender false t) as [Hm _]. destruct (Hm ch w Hwf) as [H1 H2 H3 H4].
  pose proof (HK _ _ Hwf H1 H2 ltac:(done) HKw) as HK1. split_and!; [done..|].
  assert (∀ x, keeps false (λ w', K w' ∧ sends_to t x w')) as Hk by (intros x; apply keeps_and; [done|apply keeps_sender]).
  assert (∀ v o, (∀ o, outstanding v o → outstanding w o) → outstanding v o → D o ∨ outstanding w o ∧ (D o → D o)) as Hout by auto.
  cbn in *. destruct (task_senders (w_channels w) !! t) as [x|] eqn:E; cbn in *.
  - exists (λ w', K w' ∧ sends_to t x w'), D. split_and!; [apply Hk|done|by intros _|intros o; by apply Hout|apply Hg].
  - set (x := next_channel _). exists (λ w', K w' ∧ sends_to t x w'), D.
    split_and!; [apply Hk|done| |intros o; by apply Hout|apply Hg]. intros _. unfold sender_is. cbn. by rewrite lookup_insert_eq.
Qed.

Lemma wp_publish {B} e (g : unit → P B) K D D' Φ : keeps false K → (∀ o, D o → D' o ∨ publishes e o) →
  wp false K D' (g tt) Φ → wp false K D (publish_task_event e ≫= g) Φ.
Proof.
  intros HK HD Hg. apply wp_bind, wp_task_sender; [done|]. intros x ch w Hwf [HKw Hx]. cbn.
  match goal with |- wf ?v ∧ _ => set (w' := v) end.
  assert (∀ y, log w' y = log w y ++ if decide (x = y) then [e] else []) as Hlog.
  { intros y. unfold log. cbn. case_decide as Hy; [subst y; by rewrite lookup_insert_eq|]. by rewrite lookup_insert_ne, app_nil_r. }
  assert (mild_step w w') as [H1 H2 H3 H4].
  { apply mild_events; [done|intros y; rewrite Hlog; by eexists|done]. }
  split_and!; [done..|]. exists K, D'. split_and!; [done|by apply (HK w)| |done].
  intros o Ho. destruct o as [k n pe|k n ps|d|a q kind];
    [right; split; [by apply H4|]; intros Hd; by destruct (HD _ Hd)..|].
  right. split; [by apply H4|]. intros Hd. destruct (HD _ Hd) as [?|[Ht Hr]]; [done|]. exfalso.
  destruct Ho as (Ha & Hdel & _ & _ & Hn). destruct (wf_attached _ Hwf a Ha Hdel) as [Hs Hp].
  assert (x = rx_channel (at_receiver a)) as Ex by (specialize (Hx ltac:(by rewrite Ht)); rewrite Ht in Hx; unfold sender_is in *; congruence).
  apply (Hn e); [|done]. unfold received. rewrite Hlog, decide_True, drop_app_le by done. apply elem_of_app. right. by left.
Qed.

(** The events of a batch, one after the other; less may be owed than was. *)
Definition publishes_any (evs : list TaskEvent) (o : Ob) : Prop := ∃ e, e ∈ evs ∧ publishes e o.

Lemma wp_publish_all evs K D0 Φ : keeps false K → (∀ D', (∀ o, D' o → D0 o) → Φ tt false K D') →
  ∀ D, (∀ o, D o → D0 o ∨ publishes_any evs o) → wp false K D (each publish_task_event evs) Φ.
Proof.
  intros HK HΦ. induction evs as [|e evs IH]; intros D HD; cbn [each].
  - apply HΦ. intros o Ho. destruct (HD o Ho) as [?|(e & ?%elem_of_nil & _)]; done.
  - apply (wp_publish _ _ _ _ (λ o, D0 o ∨ publishes_any evs o)); [done| |by apply IH].
    intros o Ho. destruct (HD o Ho) as [?|(e' & [->|?]%elem_of_cons & ?)]; [auto|auto|left; right; by exists e'].
Qed.

(** What a commit may add to what is owed. *)
Definition adds (E : NodeId → PendingExecution → Prop) (S : NodeId → PendingStop → Prop) (evs : list TaskEvent) db w (o : Ob) : Prop :=
  match o with
  | OExecute k n pe => E n pe ∧ current w n k ∧ single (set_db db w) (pe_task pe) n
  | OStop k n ps => S n ps ∧ current w n k ∧ single (set_db db w) (ps_task ps) n
  | OEnd _ => False
  | OPublish _ _ _ => publishes_any evs o
  end.

Lemma wp_commit {A B} (m : ControlChoice → CTx A) (g : Result ControlError A → P B) held K D Φ :
  (∀ ch, follows devices_kept (m ch)) → (∀ o, ¬ D o) →
  (∀ ch w J a db', wf w → K w → represents (w_db w) J → m ch (w_db w) = Ok (a, db') →
     (∃ J', represents db' J') ∧ ∃ E S evs K' D', owes E S evs (w_db w) db' ∧
       (held = false → owes nothing nothing evs (w_db w) db') ∧ keeps held K' ∧ K' (set_db db' w) ∧
       (∀ o, adds E S evs db' w o → D' o) ∧ wp held K' D' (g (Ok a)) Φ) →
  (∀ e, wp held (λ _, True) (λ _, False) (g (Err e)) Φ) →
  wp held K D (store_write m ≫= g) Φ.
Proof.
  intros Hk HD Hok Herr ch w Hwf HK. cbn. destruct (wf_rep _ Hwf) as [J HJ].
  assert (∀ e, let w' := set_db (w_db w) w in wf w' ∧ always w w' ∧ (held = false → quiet w w') ∧
    ∃ K' D', keeps held K' ∧ K' w' ∧ (∀ o, outstanding w' o → D' o ∨ outstanding w o ∧ (D o → D' o)) ∧ wp held K' D' (g (Err e)) Φ) as Hsame.
  { intros e. assert (mild_step w (set_db (w_db w) w)) as [H1 H2 H3 H4] by (apply mild_db; [done|by eauto|apply owes_refl|reflexivity]).
    split_and!; [done..|]. exists (λ _, True), (λ _, False). split_and!; [apply keeps_true|done| |done]. intros o Ho. right. split; [auto|apply HD]. }
  unfold attempt, commit. destruct (control_failure (ch_store ch)); cbn; [apply Hsame|].
  destruct (m (ch_store ch) (w_db w)) as [[a db']|e] eqn:E; cbn; [|apply Hsame].
  destruct (Hok _ _ _ _ _ Hwf HK HJ E) as (HJ' & E1 & S1 & evs & K' & D' & Ho & Hq & HK' & HKw' & Ha & Hg).
  split_and!; [by apply set_db_wf|apply set_db_always|by intros Hh; eapply set_db_quiet, Hq|].
  exists K', D'. split_and!; [done..| |done].
  intros o Hout. destruct (set_db_outstanding E1 S1 evs None db' w o Ho (Hk _ _ _ _ E) Hout) as [?|Hn];
    [right; split; [done|intros []%HD]|left; apply Ha]. destruct o as [k n pe|k n ps|d|at' q kind]; [done..|].
  destruct Hn as (e & ? & ? & ? & ?). by exists e.
Qed.

(** Under the lock. *)
Lemma wp_store_write {A B} (m : ControlChoice → CTx A) (g : Result ControlError A → P B) K D Φ :
  (∀ ch, follows devices_kept (m ch)) → (∀ o, ¬ D o) →
  (∀ ch w J a db', wf w → K w → represents (w_db w) J → m ch (w_db w) = Ok (a, db') →
     (∃ J', represents db' J') ∧ ∃ E S evs D', owes E S evs (w_db w) db' ∧ (∀ o, adds E S evs db' w o → D' o) ∧
       wp true (λ _, True) D' (g (Ok a)) Φ) →
  (∀ e, wp true (λ _, True) (λ _, False) (g (Err e)) Φ) →
  wp true K D (store_write m ≫= g) Φ.
Proof.
  intros Hk HD Hok Herr. apply wp_commit; [done..| |done]. intros ch w J a db' Hwf HK HR HT.
  destruct (Hok _ _ _ _ _ Hwf HK HR HT) as (? & E & S & evs & D' & ? & ? & ?). split; [done|].
  by exists E, S, evs, (λ _, True), D'.
Qed.

(** *** Commands *)
(** The task was bound to the node, whose connection is the one found. *)
Definition bound_to t n w : Prop := (t, n) ∈ bound (w_history w).
Definition found n (node : option NodeConnection) w : Prop := ∀ k, current w n k → nc_connection <$> node = Some k.

Lemma keeps_bound held t n : keeps held (bound_to t n).
Proof. intros w w' _ _ [_ _ Hb _ _ _ _] _. by apply Hb. Qed.
Lemma keeps_found n node : keeps true (found n node).
Proof. intros w w' _ _ _ Hq Hf k Hk. by apply Hf, Hq. Qed.

Lemma found_lookup n w : found n (w_nodes w !! n) w.
Proof. intros k. unfold current, is_current. destruct (w_nodes w !! n); [|done]. cbn. intros ->%bool_decide_eq_true. done. Qed.

Lemma task_bound t p w task : wf w → load_task_for_principal t p (w_db w) = Ok task → bound_to t (stored_node task) w.
Proof.
  intros Hwf. unfold load_task_for_principal, load_task. destruct (tasks (w_db w) !! t) as [row|] eqn:Hr; [|done]. cbn.
  destruct (decode _) as [target|e]; [|done]. cbn. case_decide; [|done]. intros [= <-]. cbn.
  apply (wf_bound _ Hwf). unfold bindings. apply elem_of_list_to_set, list_elem_of_fmap.
  exists (t, row). split; [done|by apply elem_of_map_to_list].
Qed.

Lemma wp_load_task {B} t p (g : StoredTask → P (Result ControlError B)) K D Φ : keeps false K → (∀ o, ¬ D o) →
  (∀ task, wp false (bound_to t (stored_node task)) D (g task) Φ) →
  (∀ e K', keeps false K' → Φ (Err e) false K' D) →
  wp false K D (and_then (store_read (load_task_for_principal t p)) g) Φ.
Proof.
  intros HK HD Hg He. apply wp_read. intros ch w Hwf HKw. unfold observe. destruct (control_failure (ch_store ch)).
  { exists K, D. split_and!; try done. cbn. auto. }
  destruct (load_task_for_principal t p (w_db w)) as [task|e] eqn:E.
  - exists (bound_to t (stored_node task)), D. split_and!; [apply keeps_bound|by eapply task_bound|done|apply Hg].
  - exists K, D. split_and!; try done. cbn. auto.
Qed.

(** The node's connection, looked up under the lock. *)
Lemma wp_node_found {B} t n (g : option NodeConnection → P B) D Φ :
  (∀ node, wp true (λ w, bound_to t n w ∧ found n node w) D (g node) Φ) →
  wp false (bound_to t n) D (acquire ≫= λ _, node_connection n ≫= g) Φ.
Proof.
  intros Hg. apply wp_acquire; [apply keeps_bound|]. apply wp_read. intros _ w _ Hb.
  exists (λ w', bound_to t n w' ∧ found n (w_nodes w !! n) w'), D.
  split_and!; [apply keeps_and; [apply keeps_bound|apply keeps_found]|done|apply found_lookup|done|apply Hg].
Qed.

(** The message is sent on the connection found. *)
Definition paid_on (node : option NodeConnection) (m : ServerMessage) (o : Ob) : Prop :=
  ∃ x, node = Some x ∧ pays (nc_connection x) m o.

Lemma found_one t n n' node db' w k : found n node w → n' = n ∨ bound_to t n w → current w n' k → single (set_db db' w) t n' →
  ∃ x, node = Some x ∧ k = nc_connection x.
Proof.
  intros Hf Hn Hc Hs. assert (n' = n) as -> by (destruct Hn; [done|symmetry; apply Hs; set_solver]).
  apply Hf, fmap_Some in Hc as (x & -> & ->). eauto.
Qed.

Lemma execution_paid t n n' node command evs db' w o : found n node w → n' = n ∨ bound_to t n w →
  adds (only n' (MkPendingExecution t command)) nothing evs db' w o → paid_on node (SExecute t command) o ∨ publishes_any evs o.
Proof.
  intros Hf Hn Ha. destruct o as [k n1 pe|k n1 ps|d|a q kind]; cbn in Ha; [|by destruct Ha as [[] _]|done|by right]. left.
  destruct Ha as ([-> ->] & Hc & Hs). destruct (found_one _ _ _ _ _ _ _ Hf Hn Hc Hs) as (x & -> & ->). by exists x.
Qed.

Lemma stop_paid t n n' c node db' w o : found n node w → n' = n ∨ bound_to t n w →
  adds nothing (only n' (MkPendingStop t c)) [] db' w o → paid_on node (SStop t c) o.
Proof.
  intros Hf Hn Ha. destruct o as [k n1 pe|k n1 ps|d|a q kind]; cbn in Ha; [by destruct Ha as [[] _]| |done|by destruct Ha as (? & ?%elem_of_nil & _)].
  destruct Ha as ([-> ->] & Hc & Hs). destruct (found_one _ _ _ _ _ _ _ Hf Hn Hc Hs) as (x & -> & ->). by exists x.
Qed.

Lemma adds_events evs db w o : adds nothing nothing evs db w o → publishes_any evs o.
Proof. by destruct o as [k n pe|k n ps|d|a q kind]; intros Ha; [destruct Ha as [[] _]..| |]. Qed.
Lemma adds_nothing db w o : ¬ adds nothing nothing [] db w o.
Proof. by intros (? & ?%elem_of_nil & _)%adds_events. Qed.

(** A commit that adds no delivery. *)
Ltac adds_none Ho := exists nothing, nothing, [], (λ _, False); split_and!; [exact Ho|intros ? []%adds_nothing|].

(** What follows the lock adds nothing. *)
Lemma wp_leave {A} (g : unit → P A) K D Φ : gentle false (g tt) → (∀ o, ¬ D o) →
  (∀ a K' D', keeps false K' → (∀ o, ¬ D' o) → Φ a false K' D') → wp true K D (release ≫= g) Φ.
Proof. intros Hg HD HΦ. apply wp_release. by apply (gentle_tame _ _ _ _ false _ Hg); [apply keeps_true|..]. Qed.

Lemma pays_one (D : Ob → Prop) e o : D o ∨ publishes_any [e] o → D o ∨ publishes e o.
Proof. intros [?|(e' & ->%list_elem_of_singleton & ?)]; auto. Qed.

Lemma tame_stop p t c : tame (stop_command p t c).
Proof.
  intros K D Φ HK HD HΦ. apply wp_load_task; [done..| |auto]. intros task. apply wp_node_found. intros node.
  apply wp_store_write; [intros ch; apply kept_admit_stop|done| |].
  - intros ch w J a db' Hwf [Hb Hf] HR HT. destruct (stop_owes _ _ _ _ _ _ HR HT) as (T & HJ & HR' & Ho). split; [by eauto|].
    destruct a as [|[|]]; [adds_none Ho..|]; [by apply wp_leave; [gentle_tac|intros o []|]..|].
    eexists nothing, _, [], (paid_on node (SStop t c)). split_and!; [exact Ho|intros o; eapply stop_paid; eauto|].
    apply wp_release, wp_bind, wp_deliver; [apply keeps_true|done|]. intros D' HD'. by apply HΦ; [apply keeps_true|].
  - intros e. by apply wp_leave; [gentle_tac|intros o []|].
Qed.

Lemma tame_submit k r t c input p surface : input_ok input = true → tame (submit_command k r t c input p surface).
Proof.
  intros Hi K D Φ HK HD HΦ. apply wp_load_task; [done..| |auto]. intros task. apply wp_node_found. intros node.
  apply wp_store_write; [intros ch; apply kept_admit_command|done| |].
  - intros ch w J a db' Hwf [Hb Hf] HR HT.
    pose proof (admit_command_sound _ _ _ _ _ _ _ _ _ _ _ HR Hi HT) as (T & HJ & _ & HA).
    pose proof (submit_owes _ _ _ _ _ _ _ _ _ _ _ HR Hi HT) as Ho.
    destruct a as [|command ev|command pending].
    + subst db'. split; [by eauto|]. adds_none (owes_refl (w_db w)). by apply wp_leave; [gentle_tac|intros o []|].
    + destruct Ho as (T' & HJ' & Ho). destruct HA as (_ & _ & [HR' _ _ _ _ _]). split; [by eauto|].
      eexists _, nothing, [ev], (λ o, paid_on node (SExecute t command) o ∨ publishes_any [ev] o).
      split_and!; [exact Ho|intros o; eapply execution_paid; eauto|].
      apply wp_release. apply wp_then; [gentle_tac|apply keeps_true|intros _].
      apply (wp_publish _ _ _ _ (paid_on node (SExecute t command))); [apply keeps_true|apply pays_one|].
      apply wp_bind, wp_deliver; [apply keeps_true|done|]. intros D' HD'. by apply HΦ; [apply keeps_true|].
    + subst db'. split; [by eauto|]. adds_none (owes_refl (w_db w)). by apply wp_leave; [gentle_tac|intros o []|].
  - intros e. by apply wp_leave; [gentle_tac|intros o []|].
Qed.

Lemma tame_send_message k n r m : tame (send_agent_message k n r m).
Proof.
  intros K D Φ HK HD HΦ. apply wp_acquire; [done|]. apply wp_read. intros _ w0 _ _.
  exists (found (to_node m) (w_nodes w0 !! to_node m)), D. split_and!; [apply keeps_found|apply found_lookup|done|].
  apply wp_store_write; [intros ch; apply kept_admit_in|done| |].
  - intros ch w J a db' Hwf Hf HR HT. split; [destruct (message_moves _ _ _ _ _ _ _ _ (λ _, False) _ HR HT) as (J' & _ & ?); by eauto|].
    pose proof (message_owes _ _ _ _ _ _ _ _ _ HR HT) as Ho. destruct a as [t ? command ev|t ? command pending].
    + eexists _, nothing, [ev], (λ o, paid_on _ (SExecute t command) o ∨ publishes_any [ev] o).
      split_and!; [exact Ho|intros o; eapply execution_paid; eauto|].
      apply wp_release. apply wp_then; [gentle_tac|apply keeps_true|intros _].
      apply (wp_publish _ _ _ _ (paid_on (w_nodes w0 !! to_node m) (SExecute t command))); [apply keeps_true|apply pays_one|].
      apply wp_deliver; [apply keeps_true|done|]. intros D' HD'. by apply HΦ; [apply keeps_true|].
    + subst db'. adds_none (owes_refl (w_db w)). by apply wp_leave; [gentle_tac|intros o []|].
  - intros e. by apply wp_leave; [gentle_tac|intros o []|].
Qed.

(** What is left to do after a batch is admitted. *)
Definition announces (adm : ExecutionEventAdmission) (node : option NodeConnection) (o : Ob) : Prop :=
  publishes_any (admitted_events adm) o ∨
  match reply adm with
  | Some r => publishes (reply_event r) o ∨ paid_on node (SExecute (reply_task r) (reply_command r)) o
  | None => False
  end.

Lemma wp_announce_events adm node K D Φ : keeps false K → (∀ o, D o → announces adm node o) →
  (∀ D', (∀ o, ¬ D' o) → Φ tt false K D') → wp false K D (announce_events adm node) Φ.
Proof.
  intros HK HD HΦ. unfold announce_events, announces in *. apply wp_then; [gentle_tac|done|intros _]. apply wp_bind.
  set (D0 := λ o, match reply adm with
    | Some r => publishes (reply_event r) o ∨ paid_on node (SExecute (reply_task r) (reply_command r)) o
    | None => False
    end).
  apply (wp_publish_all _ _ D0); [done| |intros o Ho; destruct (HD o Ho); [by right|by left]]. unfold D0. clear HD D0.
  destruct (reply adm) as [r|]; intros D' HD'; [|by apply HΦ]. unfold dispatch_reply.
  apply (wp_publish _ _ _ _ (paid_on node (SExecute (reply_task r) (reply_command r)))); [done| |by apply wp_deliver].
  intros o Ho. destruct (HD' o Ho); [by right|by left].
Qed.

(** A batch that does not end its execution admits no reply. *)
Lemma batch_goes_on ch t c events replier db adm db' J : represents db J → batch_ends events = false →
  append_execution_events_body ch t c events replier db = Ok (adm, db') →
  reply adm = None ∧ owes nothing nothing (admitted_events adm) db db'.
Proof.
  intros HR He HT. pose proof (publish_owes _ _ _ _ _ _ _ _ _ HR HT) as Ho. destruct (reply adm) as [r|]; [|done].
  destruct Ho as ((e & Hl & Ht) & _). unfold batch_ends in He. rewrite Hl in He. congruence.
Qed.

Lemma wp_batch_goes_on n t c events K D Φ : batch_ends events = false → keeps false K → (∀ o, ¬ D o) →
  (∀ a K' D', keeps false K' → (∀ o, ¬ D' o) → Φ a false K' D') → wp false K D (publish_execution_events n t c events) Φ.
Proof.
  intros He HK HD HΦ. unfold publish_execution_events. rewrite He. cbn zeta. apply wp_then; [gentle_tac|done|].
  intros [task|e]; [|by apply HΦ]. destruct (negb _); [by apply HΦ|]. apply wp_then; [gentle_tac|done|intros _].
  apply wp_then; [gentle_tac|done|intros replier]. apply wp_commit; [intros ch; apply kept_publish|done| |].
  - intros ch w J adm db' Hwf _ HR HT. destruct (batch_goes_on _ _ _ _ _ _ _ _ _ HR He HT) as [Hr Ho].
    split; [destruct (publish_moves _ _ _ _ _ _ _ _ (λ _, False) _ HR HT) as (J' & _ & ?); by eauto|].
    exists nothing, nothing, (admitted_events adm), (λ _, True), (publishes_any (admitted_events adm)).
    split_and!; [done|done|apply keeps_true|done|apply adds_events|].
    apply wp_then; [gentle_tac|apply keeps_true|intros node]. apply wp_then; [gentle_tac|apply keeps_true|intros _].
    apply wp_bind, wp_announce_events; [apply keeps_true|by left|]. intros D' HD'. by apply HΦ; [apply keeps_true|].
  - intros e. apply wp_then; [gentle_tac|apply keeps_true|intros _]. by apply HΦ; [apply keeps_true|intros o []].
Qed.

Lemma wp_batch_ends n t c events K D Φ : batch_ends events = true → keeps false K → (∀ o, ¬ D o) →
  (∀ a K' D', keeps false K' → (∀ o, ¬ D' o) → Φ a false K' D') → wp false K D (publish_execution_events n t c events) Φ.
Proof.
  intros He HK HD HΦ. unfold publish_execution_events. rewrite He. cbn zeta. apply wp_then; [gentle_tac|done|].
  intros [task|e]; [|by apply HΦ]. destruct (negb _); [by apply HΦ|]. apply wp_acquire; [done|].
  apply wp_then; [gentle_tac|by apply keeps_held|]. intros replier. apply wp_store_write; [intros ch; apply kept_publish|done| |].
  - intros ch w J adm db' Hwf _ HR HT.
    split; [destruct (publish_moves _ _ _ _ _ _ _ _ (λ _, False) _ HR HT) as (J' & _ & ?); by eauto|].
    pose proof (publish_owes _ _ _ _ _ _ _ _ _ HR HT) as Ho. destruct (reply adm) as [r|] eqn:Hr.
    + destruct Ho as [_ Ho]. set (pe := MkPendingExecution (reply_task r) (reply_command r)) in *.
      set (evs := admitted_events adm ++ [reply_event r]) in *.
      eexists _, nothing, evs, (λ o, (∃ k, o = OExecute k (reply_node r) pe) ∨ publishes_any evs o). split_and!; [exact Ho| |].
      { intros [k n' pe'|k n' ps|d|a q kind]; cbn; [|by intros [[] _]|done|by right]. intros ([-> ->] & _). left. by exists k. }
      apply wp_read. intros _ w1 _ _.
      exists (λ _, True), (λ o, paid_on (w_nodes w1 !! reply_node r) (execute_message pe) o ∨ publishes_any evs o).
      split_and!; [apply keeps_true|done| |].
      { intros o Hout [(k & ->)|?]; [left|by right]. destruct Hout as (Hc & _). apply found_lookup, fmap_Some in Hc as (x & -> & ->). by exists x. }
      apply wp_release, wp_bind, wp_announce_events; [apply keeps_true| |intros D' HD'; by apply HΦ; [apply keeps_true|]].
      unfold announces. rewrite Hr. intros o [?|(e & [?|Ee%list_elem_of_singleton]%elem_of_app & ?)]; [auto|left; by exists e|subst e; auto].
    + exists nothing, nothing, (admitted_events adm), (publishes_any (admitted_events adm)). split_and!; [exact Ho|apply adds_events|].
      apply wp_then; [gentle_tac|apply keeps_true|intros node]. apply wp_release, wp_bind, wp_announce_events; [apply keeps_true|by left|].
      intros D' HD'. by apply HΦ; [apply keeps_true|].
  - intros e. by apply wp_leave; [gentle_tac|intros o []|].
Qed.

Lemma tame_publish_events n t c events : tame (publish_execution_events n t c events).
Proof.
  intros K D Φ HK HD HΦ. destruct (batch_ends events) eqn:He; [by apply wp_batch_ends|by apply wp_batch_goes_on].
Qed.

(** *** Tasks and their channels *)
Lemma delete_gone p t x db db' : delete_body p t db = Ok (Some x, db') → is_Some (tasks db !! t) ∧ tasks db' !! t = None.
Proof.
  intros HT. unfold delete_body in HT. tx_inv. destruct (tasks db !! t) as [row|]; cbn in *; tx_inv; [|done]. split; [done|].
  rename select (remove t _ = _) into Hrm. destruct (remove_run t db) as (n & E). rewrite E in Hrm. injection Hrm as <- <-.
  cbn. by rewrite lookup_delete_eq.
Qed.

Lemma tame_delete p t : tame (delete_task p t).
Proof.
  intros K D Φ HK HD HΦ. apply wp_commit; [intros ch; apply kept_delete|done| |by intros e; apply HΦ; [apply keeps_true|intros o []]].
  intros ch w J a db' Hwf _ HR HT. split; [destruct (delete_moves _ _ _ _ _ _ HR HT) as (J' & _ & ?); by eauto|].
  pose proof (delete_owes _ _ _ _ _ _ HR HT) as Ho. destruct a as [x|].
  2: { exists nothing, nothing, [], (λ _, True), (λ _, False).
       split_and!; [done|done|apply keeps_true|done|intros o []%adds_nothing|by apply HΦ; [apply keeps_true|intros o []]]. }
  set (gone := λ w', t ∈ deleted (w_history w')). assert (keeps false gone) as Hgone by (intros w1 w2 _ _ Hal _; apply (al_deleted _ _ Hal)).
  exists nothing, nothing, [], gone, (λ _, False). split_and!; [done|done|done| |intros o []%adds_nothing|].
  - destruct (delete_gone _ _ _ _ _ HT) as [[row Hrow] Hnone]. unfold gone. cbn. apply elem_of_union_r, elem_of_difference.
    split; [by eapply elem_of_dom_2|by apply not_elem_of_dom].
  - apply wp_mild; [done| |intros _; apply wp_then; [gentle_tac|done|intros _]; by apply HΦ; [|intros o []]].
    intros ch' w1 Hwf1 Hg. apply mild_events; [done|done|]. intros t' y Hn Hs. cbn. rewrite lookup_delete_ne; [done|]. intros <-. by apply Hn.
Qed.

(** The journal that an attachment reads has every record there is. *)
Lemma suffix_covers t p after db J suffix s kind : represents db J → load_suffix t p after db = Ok suffix →
  recorded db t s kind → ¬ beyond (through suffix) s.
Proof.
  intros HR HL (T & HJ & Hs & Hk)%(recorded_log _ _ _ _ _ HR).
  destruct (journal_lookup _ _ _ _ (rp_journal _ _ HR) HJ) as (row & Hrow & Hf). unfold load_suffix in HL. rewrite Hrow in HL. cbn in HL.
  case_decide; [|done]. cbn in HL. rewrite (tf_next _ _ _ _ Hf), through_sequence_log in HL. cbn in HL.
  assert (through suffix = last_sequence (j_log T)) as ->.
  { do 3 match type of HL with (?m ≫= _) = _ => destruct m; [cbn in HL|done] end. by injection HL as <-. }
  unfold last_sequence, beyond. apply lookup_lt_Some in Hk. destruct (j_log T); cbn [length] in *; lia.
Qed.

Lemma suffix_recorded t p after db suffix e : load_suffix t p after db = Ok suffix → e ∈ suffix_events suffix →
  recorded db t (te_sequence e) (te_kind e).
Proof.
  unfold load_suffix. intros HL He. do 4 match type of HL with (?m ≫= _) = _ => destruct m; [cbn in HL|done] end.
  match type of HL with (?m ≫= _) = _ => destruct m as [events|] eqn:Ec; [cbn in HL|done] end. injection HL as <-. cbn in He.
  destruct (collect_elem _ _ _ _ Ec He) as ([id r] & Hin & Hd). unfold journal_rows in Hin.
  apply elem_of_order_by, elem_of_select in Hin as [Hr [Ht%bool_decide_eq_true _]%andb_true_iff]. unfold decode_row in Hd. cbn in *.
  unfold from_sql_integer in Hd. destruct (0 <=? v_sequence r); [cbn in Hd|done].
  destruct (decode (v_kind_json r)) as [kind|] eqn:Ek; [|done]. cbn in Hd. injection Hd as <-. by exists id, r.
Qed.

(** The receiver is on the task's channel. *)
Definition listens t (rx : Receiver) w : Prop :=
  sends_to t (rx_channel rx) w ∧ (rx_position rx ≤ length (log w (rx_channel rx)))%nat.
Lemma keeps_listens held t rx : keeps held (listens t rx).
Proof.
  apply keeps_and; [apply keeps_sender|]. intros w w' _ _ Hal _ Hp. pose proof (prefix_length _ _ (al_log _ _ Hal (rx_channel rx))). lia.
Qed.

Lemma mild_attach t rx a w : wf w → listens t rx w → at_task a = t → at_receiver a = rx →
  (∀ s kind, recorded (w_db w) t s kind → ¬ beyond (at_through a) s) →
  mild_step w (set_history (set_attachments (a :: attachments (w_history w)) (w_history w)) w).
Proof.
  intros Hwf [Hs Hp] <- <- Hall. pose proof Hwf as [HJ Hb Hl Hat]. split; [split; [done|done|done|]|done|done|].
  - cbn. intros a' [->|Ha']%elem_of_cons Hd; [by split; [apply Hs|]|by apply Hat].
  - intros [k n pe|k n ps|d|a' q kind]; [done..|]. cbn. intros ([->|Ha']%elem_of_cons & Hd & Hb' & Hr & Hn); [|done].
    by destruct (Hall q kind).
Qed.

Lemma wp_read_suffix {B} k t p after rx (g : Result ControlError TaskSuffix → P B) D Φ :
  (∀ r, wp false (listens t rx) D (g r) Φ) → wp false (listens t rx) D (read_suffix k t p after rx ≫= g) Φ.
Proof.
  intros Hg. apply wp_mild; [apply keeps_listens| |done]. intros ch w Hwf Hl. cbn. unfold observe.
  destruct (control_failure (ch_store ch)); [by apply mild_refl|]. destruct (load_suffix t p after (w_db w)) as [suffix|e] eqn:E; [|by apply mild_refl].
  destruct (wf_rep _ Hwf) as [J HR]. eapply mild_attach; [done|exact Hl|done|done|]. intros s kind. by eapply suffix_covers.
Qed.

Lemma tame_attach k r t after p live : tame (attach_surface k r t after p live).
Proof.
  intros K D Φ HK HD HΦ. unfold attach_surface. apply wp_then; [gentle_tac|done|]. intros [task|e]; [|by apply HΦ].
  apply wp_task_sender; [done|]. intros x. unfold subscribe. apply wp_read. intros _ w _ [_ Hx].
  set (rx := MkReceiver x _). exists (listens t rx), D. split_and!; [apply keeps_listens|by split|done|].
  apply wp_read_suffix. intros [suffix|e]; [|by apply HΦ; [apply keeps_listens|]].
  apply (gentle_tame _ _ _ _ false); [|apply keeps_listens|done..]. gentle_tac.
  apply gentle_spawn, tame_verified, (gentle_tame _ _ _ _ true), gentle_forward_task.
Qed.

(** *** Connecting *)
Lemma wp_send_all {B} k ms (g : bool → P B) D Φ : ∀ K, keeps true K →
  (∀ K', keeps true K' → (∀ w, K' w → K w ∧ ∀ m, m ∈ ms → m ∈ sent w k) → wp true K' D (g true) Φ) →
  (∀ K', keeps true K' → wp true K' D (g false) Φ) →
  wp true K D (send_all k ms ≫= g) Φ.
Proof.
  induction ms as [|m ms IH]; intros K HK Ht Hf.
  { apply Ht; [done|]. intros w Hw. split; [done|]. by intros m ?%elem_of_nil. }
  intros ch w Hwf HKw. pose proof (gentle_send false k m) as [Hm _]. destruct (Hm ch w Hwf) as [H1 H2 H3 H4].
  pose proof (HK _ _ Hwf H1 H2 (λ _, H3) HKw) as HK1. split_and!; [done..|]. cbn in *. case_decide as Hc; cbn in *.
  { exists K, D. split_and!; try done; [|by apply Hf]. intros o Ho. right. auto. }
  exists (λ w', K w' ∧ m ∈ sent w' k), D. split_and!; [|done|apply (sent_send w k)|intros o Ho; right; auto|].
  - apply keeps_and; [done|]. intros w1 w2 _ _ [Hs _ _ _ _ _ _] _. apply Hs.
  - apply IH; [apply keeps_and; [done|]; intros w1 w2 _ _ [Hs _ _ _ _ _ _] _; apply Hs| |done].
    intros K' HK' HKs. apply Ht; [done|]. intros w' [[? ?] Hall]%HKs. split; [done|]. intros m' [->|?]%elem_of_cons; auto.
Qed.

(** What is pending for the node was read. *)
Definition read_executions n (pending : list PendingExecution) w : Prop := ∀ pe, due (w_db w) n pe → pe ∈ pending.
Definition read_stops n (stops : list PendingStop) w : Prop := ∀ ps, ps ∈ load_pending_stops n (w_db w) → ps ∈ stops.
Lemma keeps_executions n pending : keeps true (read_executions n pending).
Proof. intros w w' _ _ _ Hq Hr pe Hd. by apply Hr, (qu_due _ _ (Hq eq_refl)). Qed.
Lemma keeps_stops n stops : keeps true (read_stops n stops).
Proof. intros w w' _ _ _ Hq Hr ps Hd. by apply Hr, (qu_stops _ _ (Hq eq_refl)). Qed.
Lemma keeps_acceptable d hash : keeps true (λ w, acceptable w d hash).
Proof. intros w w' _ _ _ Hq. by apply (qu_accepts _ _ (Hq eq_refl)). Qed.

Lemma wp_register {B} login k (g : unit → P B) K D Φ : keeps true K →
  (∀ w, K w → acceptable w (login_device login) (login_credential_hash login)) →
  wp true K D (g tt) Φ → wp true K D (register_session login k ≫= g) Φ.
Proof.
  intros HK Ha Hg ch w Hwf HKw. cbn. match goal with |- wf ?x ∧ _ => set (w' := x) end.
  assert (wf w') as Hwf'.
  { destruct Hwf as [HJ Hb Hl Hat]. split; [done|done| |done]. cbn. unfold sessions_of. cbn.
    intros k' d hash [[= -> -> ->]%elem_of_singleton|Hin]%elem_of_union.
    - left. rewrite lookup_insert_eq. split; [set_solver|exact (Ha w HKw)].
    - destruct (Hl k' d hash Hin) as [[Hs Hac]|?]; [left|by right]. split; [|exact Hac]. unfold sessions_of in Hs.
      destruct (decide (login_device login = d)) as [<-|Hne]; [rewrite lookup_insert_eq; set_solver|by rewrite lookup_insert_ne]. }
  assert (always w w') as Hal by done. assert (quiet w w') as Hq by done. split_and!; [done..|].
  exists K, D. split_and!; [done|by apply (HK w)|intros o Ho; right; by destruct o|done].
Qed.

Lemma wp_announce login peer k pending stops K D Φ : keeps true K →
  (∀ w, K w → acceptable w (login_device login) (login_credential_hash login)) →
  (∀ n w, peer = PeerNode n → K w → read_executions n pending w ∧ read_stops n stops w) →
  (∀ a K', keeps true K' → Φ a true K' D) → wp true K D (announce login peer k pending stops) Φ.
Proof.
  intros HK Ha Hr HΦ. apply wp_register; [done..|]. apply wp_then; [gentle_tac|done|]. intros [|]; cbn [negb].
  2: { do 2 (apply wp_then; [gentle_tac|done|intros _]). by apply HΦ. }
  assert (∀ K', keeps true K' → wp true K' D (cleanup_session (login_device login) k ≫= λ _, mret false) Φ) as Hfail.
  { intros K' HK'. apply wp_then; [gentle_tac|done|]. intros _. by apply HΦ. }
  apply wp_send_all; [done| |done]. intros K1 HK1 Hs1. apply wp_send_all; [done| |done]. intros K2 HK2 Hs2. cbn [negb].
  destruct peer as [p s|n]; [by apply HΦ|]. intros ch w Hwf HKw. cbn. match goal with |- wf ?x ∧ _ => set (w' := x) end.
  apply Hs2 in HKw as [[HKw He]%Hs1 Hst]. destruct (Hr n w eq_refl HKw) as [Hre Hrs].
  assert (wf w') as Hwf' by (destruct Hwf; by split). split_and!; [done|done|done|].
  exists (λ _, True), D. split_and!; [apply keeps_true|done| |by apply HΦ, keeps_true].
  assert (∀ n' k', current w' n' k' → n' = n ∧ k' = k ∨ current w n' k') as Hcur.
  { intros n' k'. unfold current, is_current. cbn. destruct (decide (n = n')) as [<-|Hne].
    - rewrite lookup_insert_eq. cbn. intros <-%bool_decide_eq_true. by left.
    - rewrite lookup_insert_ne by done. by right. }
  intros o Ho. right. split; [|done]. destruct o as [k' n' pe|k' n' ps|d|a q kind]; [| |done|done]; destruct Ho as (Hc & ? & Hd & ? & Hns); cbn in *;
    (destruct (Hcur _ _ Hc) as [[-> ->]|?]; [destruct Hns|done]).
  - apply He, list_elem_of_fmap. eauto.
  - apply Hst, list_elem_of_fmap. eauto.
Qed.

Lemma wp_read_executions {B} n (g : Result ControlError (list PendingExecution) → P B) K D Φ : keeps true K →
  (∀ pending, wp true (λ w, K w ∧ read_executions n pending w) D (g (Ok pending)) Φ) →
  (∀ e, wp true K D (g (Err e)) Φ) → wp true K D (store_read (load_pending_executions n) ≫= g) Φ.
Proof.
  intros HK Hok Herr. apply wp_read. intros ch w Hwf HKw. unfold observe.
  destruct (control_failure (ch_store ch)); [by exists K, D; split_and!; auto|].
  destruct (load_pending_executions n (w_db w)) as [l|e] eqn:E; [|by exists K, D; split_and!; auto].
  exists (λ w', K w' ∧ read_executions n l w'), D. split_and!; [apply keeps_and; [done|apply keeps_executions]|done| |done|apply Hok].
  intros pe (l' & Hl' & Hin). rewrite E in Hl'. by injection Hl' as ->.
Qed.

Lemma wp_read_stops {B} n (g : Result ControlError (list PendingStop) → P B) K D Φ : keeps true K →
  (∀ stops, wp true (λ w, K w ∧ read_stops n stops w) D (g (Ok stops)) Φ) →
  (∀ e, wp true K D (g (Err e)) Φ) → wp true K D (store_read (λ db, Ok (load_pending_stops n db)) ≫= g) Φ.
Proof.
  intros HK Hok Herr. apply wp_read. intros ch w Hwf HKw. unfold observe.
  destruct (control_failure (ch_store ch)); [by exists K, D; split_and!; auto|].
  exists (λ w', K w' ∧ read_stops n (load_pending_stops n (w_db w)) w'), D.
  split_and!; [apply keeps_and; [done|apply keeps_stops]|done|by intros ps|done|apply Hok].
Qed.

Lemma wp_snapshot n K D Φ : keeps true K →
  (∀ K' pending stops, keeps true K' → (∀ w, K' w → K w ∧ read_executions n pending w ∧ read_stops n stops w) →
     Φ (Ok (pending, stops)) true K' D) →
  (∀ e K', keeps true K' → Φ (Err e) true K' D) → wp true K D (pending_snapshot n) Φ.
Proof.
  intros HK Hok Herr.
  assert (∀ K1 pending, keeps true K1 → keeps true (λ w, K1 w ∧ read_executions n pending w)) as H1
    by (intros; apply keeps_and; [done|apply keeps_executions]).
  assert (∀ K1 stops, keeps true K1 → keeps true (λ w, K1 w ∧ read_stops n stops w)) as H2
    by (intros; apply keeps_and; [done|apply keeps_stops]).
  unfold pending_snapshot, try_join. apply wp_then; [gentle_tac|done|]. intros [|].
  - apply wp_read_executions; [done| |by intros e; apply Herr]. intros pending.
    apply wp_read_stops; [auto| |by intros e; apply Herr; auto]. intros stops. apply Hok; [auto|naive_solver].
  - apply wp_read_stops; [done| |by intros e; apply Herr]. intros stops.
    apply wp_read_executions; [auto| |by intros e; apply Herr; auto]. intros pending. apply Hok; [auto|naive_solver].
Qed.

Lemma wp_activate login peer k K D Φ : keeps true K → (∀ a K', keeps true K' → Φ a true K' D) →
  wp true K D (activate_locked login peer k) Φ.
Proof.
  intros HK HΦ. set (accepted := λ w, acceptable w (login_device login) (login_credential_hash login)).
  assert (keeps true accepted) as Hacc by apply keeps_acceptable.
  assert (∀ m : P unit, gentle false m → ∀ K', keeps true K' → wp true K' D (m ≫= λ _, mret false) Φ) as Hfail.
  { intros m Hm K' HK'. apply wp_then; [done..|]. intros _. by apply HΦ. }
  apply wp_read. intros ch w Hwf HKw. unfold observe.
  destruct (control_failure (ch_store ch)); [exists K, D; split_and!; [done..|by apply Hfail; [gentle_tac|]]|].
  destruct (device_accepts _ _ _) eqn:E; [|exists K, D; split_and!; [done..|by apply Hfail; [gentle_tac|]]].
  exists accepted, D. split_and!; [done|by left|done|]. destruct peer as [p s|n].
  - by apply wp_announce.
  - apply wp_bind, wp_then; [|done|intros _].
    { apply gentle_act. intros ch' w' Hwf'. apply mild_nodes; try done. by apply (current_delete w' n). }
    apply wp_snapshot; [done| |by intros e K' HK'; apply Hfail; [gentle_tac|]]. intros K' pending stops HK' Hr.
    apply wp_announce; [done|naive_solver| |done]. intros n' w' [= <-] Hw'. naive_solver.
Qed.

Lemma tame_activate login peer k : tame (activate_device login peer k).
Proof.
  intros K D Φ HK HD HΦ. apply wp_acquire; [done|]. apply wp_bind, wp_activate; [by apply keeps_held|].
  intros a K' HK'. by apply wp_leave.
Qed.

(** *** Ending a device's sessions *)
Lemma wp_end_sessions_step {B} d (g : unit → P B) K D Φ : (∀ o, D o → o = OEnd d) →
  wp true (λ _, True) (λ _, False) (g tt) Φ → wp true K D (modify (end_sessions d) ≫= g) Φ.
Proof.
  intros HD Hg ch w Hwf _. cbn. split_and!; [|done|done|].
  - destruct Hwf as [HJ Hb Hl Hat]. split; [done|done| |done]. cbn. intros k d' hash Hin. unfold sessions_of, acceptable. cbn.
    destruct (Hl k d' hash Hin) as [[Hs Ha]|[?|?]]; [|right; left; set_solver|by right; right].
    destruct (decide (d' = d)) as [->|Hne]; [right; left; set_solver|left].
    rewrite lookup_delete_ne by done. split; [exact Hs|]. destruct Ha as [?|?]; [by left|right; set_solver].
  - exists (λ _, True), (λ _, False). split_and!; [apply keeps_true|done| |done]. intros o Ho. right.
    destruct o as [k n pe|k n ps|d'|a q kind]; cbn in Ho; [split; [exact Ho|by intros ?%HD]..| |split; [exact Ho|by intros ?%HD]].
    split; [split; [set_solver|apply Ho]|]. intros [= ->]%HD. set_solver.
Qed.

Lemma gentle_filter_nodes b d : gentle b
  (modify (λ w, set_nodes (filter (λ kv : NodeId * NodeConnection, nc_device kv.2 ≠ d) (w_nodes w)) w) : P unit).
Proof.
  apply gentle_act. intros ch w Hwf. apply mild_nodes; try done. intros n k. unfold current, is_current. cbn.
  destruct (filter _ _ !! n) as [node|] eqn:E; [|done]. apply map_lookup_filter_Some in E as [-> _]. done.
Qed.
Hint Resolve gentle_filter_nodes : gentle.

Lemma wp_end_sessions d K D Φ : keeps false K → (∀ o, D o → o = OEnd d) →
  (∀ K' D', keeps false K' → (∀ o, ¬ D' o) → Φ tt false K' D') → wp false K D (end_device_sessions d) Φ.
Proof.
  intros HK HD HΦ. apply wp_acquire; [done|]. apply wp_end_sessions_step; [done|].
  apply wp_then; [gentle_tac|apply keeps_true|intros _].
  split; [done|]. intros w _ _. exists (λ _, True). split_and!; [apply keeps_true|done|]. by apply HΦ; [apply keeps_true|intros o []].
Qed.

(** A dropped sign-in is recorded as abandoned. *)
Lemma mild_abandon d w : wf w → mild_step w (abandon d w).
Proof.
  intros [HJ Hb Hl Hat]. split; [by split|split; try done; set_solver|done|]. intros [k n pe|k n ps|d'|a q kind]; cbn; [done..|set_solver|done].
Qed.

Lemma wp_dropping {B} drops d (g : bool → P B) held K D Φ : keeps held K → (∀ o, D o → o = OEnd d) →
  wp held K (λ _, False) (g true) Φ → wp held K D (g false) Φ → wp held K D (dropping drops (abandon d) ≫= g) Φ.
Proof.
  intros HK HD Ht Hf ch w Hwf HKw. cbn. destruct (drops ch); cbn.
  - destruct (mild_abandon d w Hwf) as [H1 H2 H3 H4]. split_and!; [done..|]. exists K, (λ _, False).
    split_and!; [done|by apply (HK w)| |done]. intros o Ho. right. split; [auto|]. intros ->%HD. cbn in Ho. set_solver.
  - split_and!; [done..|]. exists K, D. split_and!; auto.
Qed.

Lemma wp_drop_end d drops K D Φ : keeps false K → (∀ o, D o → o = OEnd d) →
  (∀ a K' D', keeps false K' → (∀ o, ¬ D' o) → Φ a false K' D') →
  wp false K D (droppable drops (abandon d) false (end_device_sessions d)) Φ.
Proof.
  intros HK HD HΦ. set (drop := dropping drops (abandon d)). set (leave := release ≫= λ _, mret None : P (option unit)).
  assert (droppable drops (abandon d) false (end_device_sessions d) =
    (drop ≫= λ x, if x : bool then mret None else
       acquire ≫= λ _, drop ≫= λ x, if x : bool then leave else
         modify (end_sessions d) ≫= λ _, drop ≫= λ x, if x : bool then leave else
           modify (λ w, set_nodes (filter (λ kv : NodeId * NodeConnection, nc_device kv.2 ≠ d) (w_nodes w)) w) ≫= λ _,
           release ≫= λ _, mret (Some tt))) as -> by reflexivity.
  assert (∀ K', wp true K' (λ _, False) leave Φ) as Hrel by (intros K'; by apply wp_leave; [|intros o []|]).
  apply wp_dropping; [done..|by apply HΦ; [done|intros o []]|]. apply wp_acquire; [done|].
  apply wp_dropping; [by apply keeps_held|done|apply Hrel|]. apply wp_end_sessions_step; [done|].
  apply wp_dropping; [apply keeps_true|by intros o []|apply Hrel|]. apply wp_then; [gentle_tac|apply keeps_true|intros _].
  by apply wp_leave; [|intros o []|].
Qed.

(** An operation on devices owes the end of the sessions of the device whose credential it may end. *)
Definition ends (but : option DeviceId) (o : Ob) : Prop := match o with OEnd d => Some d = but | _ => False end.

Lemma wp_identity_op {A B} (o : Draw → IOp A) (but : Result ControlError A → option DeviceId)
    (g : Result ControlError A → P B) K D Φ : keeps false K → (∀ o, ¬ D o) →
  (∀ draw i, rows_kept (but (o draw i).1) i (o draw i).2) → (∀ r, wp false K (ends (but r)) (g r) Φ) →
  wp false K D (identity_op o ≫= g) Φ.
Proof.
  intros HK HD Hk Hg ch w Hwf HKw. cbn. destruct (wf_rep _ Hwf) as [J HJ]. set (r := o (ch_draw ch) (identity (w_db w))).
  set (db' := with_identity r.2 (w_db w)). assert (represents db' J) as HJ' by by eapply represents_same.
  assert (owes nothing nothing [] (w_db w) db') as Ho by by eapply same_tables_owes.
  assert (wf (set_db db' w)) as Hwf' by (apply set_db_wf; [done|by eauto]). pose proof (set_db_always db' w) as Hal.
  split_and!; [done..| |].
  - intros _. by eapply set_db_quiet.
  - exists K, (ends (but r.1)). split_and!; [done|by apply (HK w)| |apply Hg]. intros ob Hout.
    destruct (set_db_outstanding nothing nothing [] (but r.1) db' w ob Ho (Hk _ _) Hout) as [?|Hn];
      [right; split; [done|intros []%HD]|]. destruct ob; [by destruct Hn as [[] _]..|by left|by destruct Hn as (? & ?%elem_of_nil & _)].
Qed.

Lemma ends_none o : ¬ ends None o.
Proof. intros Ho. by destruct o. Qed.
Lemma ends_some d o : ends (Some d) o → o = OEnd d.
Proof. destruct o; cbn; naive_solver. Qed.

Lemma atomic_kept {A} but fail (m : ITx A) i : (rows_kept (Some but)) i (atomic fail m i).2 →
  rows_kept (match (atomic fail m i).1 with Ok _ => Some but | Err _ => None end) i (atomic fail m i).2.
Proof.
  intros Hk. destruct (atomic fail m i) as [[a|e] i'] eqn:E; [done|]. cbn in *. unfold atomic in E.
  destruct fail; [by injection E as _ <-|by apply commit_err_same in E as ->].
Qed.

Lemma tame_revoke_owned k r s d : tame (revoke_device_for k r s d).
Proof.
  intros K D Φ HK HD HΦ. apply wp_then; [gentle_tac|done|]. intros [|]; [|by apply HΦ].
  eapply (wp_identity_op _ (λ x, match x with Ok _ => Some d | Err _ => None end)); [done..| |].
  - intros draw i. apply atomic_kept, revoke_owned_keeps_rows.
  - intros [b|e].
    + apply wp_then; [gentle_tac|done|]. intros _. apply wp_end_sessions; [done|apply ends_some|auto].
    + by apply (gentle_tame _ _ _ _ false); [gentle_tac|..|apply ends_none|].
Qed.

Lemma tame_revoke d : tame (coordinator_revoke_device d).
Proof.
  intros K D Φ HK HD HΦ. eapply (wp_identity_op _ (λ x, match x with Ok _ => Some d | Err _ => None end)); [done..| |].
  - intros draw i. apply atomic_kept, revoke_keeps_rows.
  - intros [b|e]; [|by apply HΦ; [|apply ends_none]].
    apply wp_bind, wp_end_sessions; [done|apply ends_some|]. intros K' D' HK' HD'. by apply HΦ.
Qed.

(** *** Signing in *)
Lemma wp_sign_in s K Φ : keeps false K → (∀ a K' D', keeps false K' → (∀ o, ¬ D' o) → Φ a false K' D') →
  wp false K (ends (adopted_device s)) (sign_in_response s) Φ.
Proof.
  intros HK HΦ. destruct s as [s|s]; cbn [sign_in_response adopted_device]; [by apply HΦ; [|apply ends_none]|].
  destruct (adopted s); [|by apply HΦ; [|apply ends_none]].
  apply wp_bind, wp_drop_end; [done|apply ends_some|]. intros a K' D' HK' HD'. by apply HΦ.
Qed.

Definition sign_in_device_of (r : Result ControlError SignIn) : option DeviceId :=
  match r with Ok s => adopted_device s | Err _ => None end.

Lemma signs_in_keeps (o : IOp SignIn) i : signs_in o i → rows_kept (sign_in_device_of (o i).1) i (o i).2.
Proof. unfold signs_in. by destruct (o i) as [[s|e] i']. Qed.

(** The second half of a ceremony. *)
Lemma tame_complete (o : Draw → IOp SignIn) : (∀ draw i, signs_in (o draw) i) →
  tame (r ← identity_op o; match r with Ok s => sign_in_response s | Err _ => mret tt end).
Proof.
  intros Ho K D Φ HK HD HΦ. eapply (wp_identity_op _ sign_in_device_of); [done..| |].
  - intros draw i. by apply signs_in_keeps.
  - intros [s|e]; [by apply wp_sign_in|by apply HΦ; [|apply ends_none]].
Qed.

Lemma tame_registration ceremony credential proof : tame (registration_verify ceremony credential proof).
Proof.
  apply tame_bind; [apply (gentle_tame _ _ _ _ false), gentle_identity_op; intros; apply claim_registration_rows|].
  intros [c|e]; [|apply tame_ret]. apply tame_bind; [apply (gentle_tame _ _ _ _ false); gentle_tac|].
  intros [|]; [apply tame_ret|]. apply tame_complete. intros. apply complete_registration_rows.
Qed.
Lemma tame_authentication ceremony credential proof : tame (authentication_verify ceremony credential proof).
Proof.
  apply tame_bind; [apply (gentle_tame _ _ _ _ false), gentle_identity_op; intros; apply claim_authentication_rows|].
  intros [c|e]; [|apply tame_ret]. apply tame_bind; [apply (gentle_tame _ _ _ _ false); gentle_tac|].
  intros [|]; [apply tame_ret|]. apply tame_complete. intros. apply complete_authentication_rows.
Qed.

(** ** Connections *)
(** What the deserializer of messages admits. *)
Definition typed_message (m : InboundMessage) : bool :=
  match m with Application (MSubmit _ _ _ input) => input_ok input | _ => true end.
Definition typed_operation (o : JsonOperation) : bool :=
  match o with JsonSurface _ (OpSubmit _ _ input) => input_ok input | _ => true end.

Lemma into_operation_typed m o : typed_message (Application m) = true → into_operation m = Some o → typed_operation o = true.
Proof. destruct m; cbn; intros Ht [= <-]; done. Qed.

Lemma tame_gentle {A} (p : P A) : gentle false p → tame p.
Proof. apply gentle_tame. Qed.

Ltac tame_tac := repeat match goal with
  | |- ∀ _, _ => intros ?
  | |- tame _ => solve [eauto 2 with tame nocore]
  | |- tame _ => solve [apply tame_gentle; gentle_tac]
  | |- tame (_ ≫= _) => apply tame_bind
  | |- tame (map_ok _ _) => unfold map_ok
  | |- tame (and_then _ _) => unfold and_then
  | |- tame (match ?x with _ => _ end) => destruct x
  end.
Create HintDb tame.
Hint Resolve tame_stop tame_submit tame_send_message tame_publish_events tame_activate tame_revoke_owned tame_delete tame_attach : tame.

Lemma tame_surface_operation k s r o : typed_operation (JsonSurface r o) = true → tame (handle_surface_operation k s r o).
Proof. intros Ht. unfold handle_surface_operation. destruct o; cbn zeta; tame_tac. Qed.
Lemma tame_node_operation k n o : tame (handle_node_operation k n o).
Proof. unfold handle_node_operation, node_connection_is_current, complete_host_call. tame_tac. Qed.
Hint Resolve tame_surface_operation tame_node_operation : tame.

Lemma tame_operation k peer a o : typed_operation o = true → tame (handle_operation k peer a o).
Proof. intros Ht. unfold handle_operation. destruct peer, o; tame_tac. Qed.

Lemma tame_serve k peer a inbox : forallb typed_message inbox = true → tame (serve_messages k peer a inbox).
Proof.
  induction inbox as [|m inbox IH]; intros Hty; cbn [serve_messages].
  - apply (gentle_tame _ _ _ _ true). gentle_tac.
  - apply andb_true_iff in Hty as [Hm Hty]. apply tame_bind; [by apply (gentle_tame _ _ _ _ true)|]. intros _.
    apply tame_bind; [tame_tac|]. intros [|]; [tame_tac|]. destruct m as [m| | |q]; [|by apply IH|tame_tac|].
    + apply tame_bind; [|auto]. destruct (into_operation m) as [o|] eqn:E; [|tame_tac].
      by eapply tame_operation, into_operation_typed.
    + apply tame_bind; [tame_tac|auto].
Qed.

(** What is left of the inbox was read by the deserializer too. *)
Definition typed_rest {A} (r : option (A * list InboundMessage)) : Prop :=
  ∀ a rest, r = Some (a, rest) → forallb typed_message rest = true.

Ltac gives_tac := repeat match goal with
  | |- ∀ _, _ => intros ?
  | |- gives _ (mret _) => cbn; by intros
  | |- gives _ (_ ≫= _) => eapply gives_bind; [apply gives_true|]
  | |- gives _ (match ?x with _ => _ end) => destruct x
  end.

Lemma gives_next k inbox : forallb typed_message inbox = true → gives typed_rest (next_application_message k inbox).
Proof.
  induction inbox as [|m inbox IH]; intros Hty; cbn [next_application_message]; [gives_tac|].
  apply andb_true_iff in Hty as [_ Hty]. eapply gives_bind; [apply gives_true|]. intros _ _.
  destruct m; [|auto|gives_tac..]. by intros ? ? [= _ <-].
Qed.

Lemma gives_possession k inbox d key : forallb typed_message inbox = true →
  gives (λ r, ∀ rest, r = Some rest → forallb typed_message rest = true) (prove_possession k inbox d key).
Proof.
  intros Hty. unfold prove_possession. eapply gives_bind; [apply gives_true|]. intros [nonce|e] _; [|gives_tac].
  eapply gives_bind; [apply gives_true|]. intros [|] _; cbn [negb]; [|gives_tac]. eapply gives_bind; [by apply gives_next|].
  intros [[m rest]|] Hr; [|gives_tac]. specialize (Hr _ _ eq_refl). cbn zeta.
  match goal with |- gives _ (if ?b then _ else _) => destruct b end; [by intros ? [= <-]|gives_tac].
Qed.

Lemma gives_peer k inbox : forallb typed_message inbox = true → gives typed_rest (read_peer k inbox).
Proof.
  intros Hty. unfold read_peer. eapply gives_bind; [by apply gives_next|]. intros [[m rest]|] Hr; [|gives_tac].
  specialize (Hr _ _ eq_refl). assert (∀ A (a : A), typed_rest (Some (a, rest))) as Hrest by (by intros A a ? ? [= _ <-]).
  assert (∀ A (q : P (Result ControlError A)) v f, (∀ x, gives typed_rest (f x)) → gives typed_rest
    (ok ← check_version k v; if negb ok then mret None else
     r ← q; match r with Ok x => f x | Err e => (_ ← send_control_error k None e; mret (None : option (AuthenticatedPeer * _))) end)) as Hcheck.
  { intros A q v f Hf. eapply gives_bind; [apply gives_true|]. intros [|] _; cbn [negb]; [|gives_tac].
    eapply gives_bind; [apply gives_true|]. intros [x|e] _; [done|gives_tac]. }
  destruct m; try solve [gives_tac]; apply Hcheck; intros x.
  destruct (auth_key x) as [key|]; [|apply Hrest]. eapply gives_bind; [by apply gives_possession|].
  intros [rest'|] Hr'; [|gives_tac]. intros a ? [= _ <-]. by apply Hr'.
Qed.

Lemma tame_connection k inbox : forallb typed_message inbox = true → tame (serve_connection k inbox).
Proof.
  intros Hty. unfold serve_connection. eapply (gentle_tame_bind _ _ _ _ true).
  - apply gentle_droppable; [apply mild_refl..|apply gentle_read_peer].
  - by apply gives_droppable, gives_peer.
  - intros [[[[a peer device] rest]|]|] HQ; [|tame_tac..]. specialize (HQ _ eq_refl _ _ eq_refl).
    apply tame_bind; [unfold activate_ticket_peer; tame_tac|]. intros [|]; cbn [negb]; [|tame_tac].
    apply tame_bind; [by apply tame_serve|]. tame_tac.
Qed.

(** ** The coordinator *)
(** Requests and connections arrive at any time. *)
Inductive arrives : P unit → Prop :=
| arrives_connection k inbox : forallb typed_message inbox = true → arrives (serve_connection k inbox)
| arrives_revocation d : arrives (_ ← coordinator_revoke_device d; mret tt)
| arrives_registration ceremony credential proof : arrives (registration_verify ceremony credential proof)
| arrives_authentication ceremony credential proof : arrives (authentication_verify ceremony credential proof)
| arrives_host_call p request id :   (* from a browser; its client may go away *)
    arrives (_ ← droppable ch_flag (λ w, set_channels (unregister id (w_channels w)) w) false (call p request id); mret tt).

(** The calls of the store from elsewhere: creating a task, enrolling a node, and settling a wake. *)
Definition elsewhere (call : Call) : bool :=
  match call with CallCreate _ | CallSettle _ _ | CallEnroll _ _ _ _ => true | _ => false end.

(** The writer of a connection takes a message. *)
Inductive writer w : World → Prop :=
| writer_takes k : (0 < queued w k)%nat → writer w (take_message k w).

(** What else happens: such calls, the operations on identities that end no
    login, and the writer of a connection going on, or ending, which then
    closes its queue. *)
Inductive environment w : World → Prop :=
| env_store (ch : Chance) call : elsewhere call = true → environment w (set_db (run_call (ch_store ch) call (w_db w)) w)
| env_identity call : ends_login call = false →
    environment w (set_db (with_identity (run_identity call (identity (w_db w))) (w_db w)) w)
| env_writer w' : writer w w' → environment w w'
| env_cancel k : environment w (set_cancelled ({[k]} ∪ w_cancelled w) w)
| env_close k : k ∈ w_cancelled w → environment w (set_closed ({[k]} ∪ w_closed w) w).

(** A coordinator that has just started on a database. *)
Definition start db : World :=
  MkWorld db ∅ ∅ ∅ ∅ ∅ ∅ (MkChannels ∅ ∅ ∅ ∅ ∅ ∅ ∅ false) (MkHistory (bindings db) ∅ ∅ ∅ ∅ ∅ []).

Definition reachable db : Config World Chance → Prop := rtc (step arrives environment) (MkConfig (start db) None []).

Lemma arrives_verified p : arrives p → verified p.
Proof.
  intros [k inbox Hty|d|c cr pr|c cr pr|p' r id]; apply tame_verified.
  - by apply tame_connection.
  - apply tame_bind; [apply tame_revoke|intros; apply tame_ret].
  - apply tame_registration.
  - apply tame_authentication.
  - apply tame_bind; [|intros; apply tame_ret]. apply (gentle_tame _ _ _ _ true), gentle_droppable; [apply mild_refl| |].
    + intros w Hwf. by apply mild_same.
    + unfold call. gentle_tac.
Qed.

Lemma environment_mild w w' : wf w → environment w w' → mild_step w w'.
Proof.
  intros Hwf [ch call Hc|call Hc|w2 [k Hk]|k|k Hk].
  - assert (∀ A (m : CTx A), gentle false (store_write (λ _, m)) → mild_step w (set_db (attempt (ch_store ch) m (w_db w)).2 w)) as Hm
      by (intros A m [Hm _]; apply (Hm ch w Hwf)).
    destruct call; try done; apply Hm, gentle_store_write; intros ?.
    + intros db J a db' HR HT. split; [|by eapply insert_task_owes].
      apply (insert_task_ok _ _ _ _ J HR) in HT as (HJ & HR' & _). eauto.
    + apply kept_insert_task.
    + intros db J a db' HR HT. pose proof (settle_keeps _ _ _ _ _ _ HR HT) as HR'. split; [by eauto|].
      eapply same_tables_owes; [exact HR|exact HR'|..]; unfold settle_body in HT; tx_inv; repeat (case_match; tx_inv); done.
    + apply kept_settle.
    + intros db J a db' HR HT. pose proof (enroll_keeps _ _ _ _ _ _ _ _ HR HT) as HR'. split; [by eauto|].
      eapply same_tables_owes; [exact HR|exact HR'|..]; unfold enroll_node_body in HT; tx_inv.
      all: rename select (identity_tx _ _ = _) into Hi; apply identity_tx_ok in Hi as (i & _ & ->); repeat (case_match; tx_inv); done.
    + apply kept_enroll.
  - destruct (wf_rep _ Hwf) as [J HJ]. assert (represents (with_identity (run_identity call (identity (w_db w))) (w_db w)) J) as HJ'
      by by eapply represents_same. apply mild_db; [done|by eauto|by eapply same_tables_owes|by apply call_keeps_rows].
  - by apply mild_same.
  - apply mild_same; cbn; try done. set_solver.
  - apply mild_same; cbn; try done. set_solver.
Qed.

Lemma start_sound db J : represents db J → sound wf outstanding quiet always (MkConfig (start db) None [] : Config World Chance).
Proof.
  intros HR. apply sound_start.
  - split; [by eauto|done|set_solver|]. by intros a ?%elem_of_nil.
  - intros [k n pe|k n ps|d|a q kind]; cbn; unfold current, is_current; cbn; rewrite ?lookup_empty;
      [naive_solver|naive_solver|set_solver|by intros [?%elem_of_nil _]].
Qed.

Lemma reachable_sound db J s : represents db J → reachable db s → sound wf outstanding quiet always s.
Proof.
  intros HR Hc. eapply steps_sound; [apply _|apply _|exact arrives_verified|exact environment_mild|exact Hc|by eapply start_sound].
Qed.

(** Writers stop once they took everything. *)
Lemma sum_le {A} (f g : A → nat) l : (∀ y, f y ≤ g y)%nat → (sum_list_with f l ≤ sum_list_with g l)%nat.
Proof. intros Hle. induction l as [|y l IH]; cbn; [done|]. specialize (Hle y). lia. Qed.
Lemma sum_lt {A} (f g : A → nat) l x : (∀ y, f y ≤ g y)%nat → x ∈ l → (f x < g x)%nat → (sum_list_with f l < sum_list_with g l)%nat.
Proof.
  intros Hle Hin Hlt. induction l as [|y l IH]; [by apply elem_of_nil in Hin|]. cbn.
  pose proof (sum_le f g l Hle). specialize (Hle y) as Hy. apply elem_of_cons in Hin as [<-|Hin]; [lia|]. specialize (IH Hin). lia.
Qed.

Definition untaken w : nat := sum_list_with (queued w ∘ fst) (map_to_list (w_queues w)).
Lemma writer_untaken w w' : writer w w' → (untaken w' < untaken w)%nat.
Proof.
  intros [k Hk]. unfold untaken. cbn. destruct (w_queues w !! k) as [q|] eqn:Eq; [|unfold queued in Hk; rewrite Eq in Hk; cbn in Hk; lia].
  eapply (sum_lt _ _ _ (k, q)); [|by apply elem_of_map_to_list|]; unfold queued in *; cbn.
  - intros [k' q']. cbn. destruct (decide (k = k')) as [<-|Hne]; [rewrite lookup_insert_eq; cbn; lia|by rewrite lookup_insert_ne].
  - rewrite lookup_insert_eq. cbn. lia.
Qed.
Lemma writer_ends w : Acc (flip writer) w.
Proof. induction (Wf_nat.well_founded_ltof _ untaken w) as [w _ IH]. constructor. intros w' Hw. by apply IH, writer_untaken. Qed.

Lemma working_steps (s s' : Config World Chance) : working writer s s' → step arrives environment s s'.
Proof. intros [c c' Ht|w w' l ts Hw]; [by apply step_thread|by apply step_environment, env_writer]. Qed.

Lemma room_false w k : room w k = false → (k ∉ w_closed w) ∧ (OUTBOUND_CAPACITY ≤ queued w k)%nat.
Proof. intros [H1%bool_decide_eq_false H2%bool_decide_eq_false]%orb_false_iff. split; [done|lia]. Qed.

#[local] Instance sent_execute_dec pe (l : list ServerMessage) : Decision (execute_message pe ∈ l).
Proof.
  refine (match decide (Exists (λ m, match m with SExecute t env => bool_decide (t = pe_task pe ∧ env = pe_command pe) | _ => false end = true) l) with left e => left _ | right e => right _ end).
  - apply Exists_exists in e as (m & Hm & He). destruct m; try done. by apply bool_decide_eq_true in He as [-> ->].
  - intros Hin. apply e, Exists_exists. eexists. split; [exact Hin|]. by apply bool_decide_true.
Defined.
#[local] Instance sent_stop_dec ps (l : list ServerMessage) : Decision (stop_message ps ∈ l).
Proof.
  refine (match decide (Exists (λ m, match m with SStop t c => bool_decide (t = ps_task ps ∧ c = ps_command ps) | _ => false end = true) l) with left e => left _ | right e => right _ end).
  - apply Exists_exists in e as (m & Hm & He). destruct m; try done. by apply bool_decide_eq_true in He as [-> ->].
  - intros Hin. apply e, Exists_exists. eexists. split; [exact Hin|]. by apply bool_decide_true.
Defined.

(** ** The theorems *)

(** C22. A node that is connected was sent everything that is pending for it: once
    no handler is running, every execution and every stop that the database
    holds for the node, of a task that was never bound to another node, is in
    the queue of the node's current connection, unless that queue is closed. *)
Theorem pending_sent db J s n k : represents db J → reachable db s → idle s →
  is_current n k (world s) = true → k ∉ w_closed (world s) →
  (∀ l pe, load_pending_executions n (w_db (world s)) = Ok l → pe ∈ l → single (world s) (pe_task pe) n →
     execute_message pe ∈ sent (world s) k) ∧
  (∀ ps, ps ∈ load_pending_stops n (w_db (world s)) → single (world s) (ps_task ps) n → stop_message ps ∈ sent (world s) k).
Proof.
  intros HR Hc Hidle Hk Hopen. pose proof (idle_settled _ _ _ _ _ (reachable_sound _ _ _ HR Hc) Hidle) as Hs. split.
  - intros l pe Hl Hin Hone. destruct (decide (execute_message pe ∈ sent (world s) k)) as [?|Hns]; [done|].
    destruct (Hs (OExecute k n pe)). split_and!; [done|done|by exists l|done..].
  - intros ps Hin Hone. destruct (decide (stop_message ps ∈ sent (world s) k)) as [?|Hns]; [done|].
    by destruct (Hs (OStop k n ps)).
Qed.

(** C24. No connection outlives its credential: once no handler is running, a
    connection that was registered for a device is cancelled or has ended when
    the coordinator no longer accepts the credential it presented, except when
    a sign-in of that device was dropped before it ended the old sessions. *)
Theorem no_session_outlives_its_credential db J s k d hash : represents db J → reachable db s → idle s →
  (k, d, hash) ∈ logins (w_history (world s)) → device_accepts d hash (identity (w_db (world s))) = false →
  d ∉ abandoned (w_history (world s)) → k ∈ w_cancelled (world s) ∨ k ∈ finished (w_history (world s)).
Proof.
  intros HR Hc Hidle Hin Hd Ha. pose proof (reachable_sound _ _ _ HR Hc) as HS.
  destruct (wf_logins _ (so_wf _ _ _ _ _ HS) _ _ _ Hin) as [[_ [Hacc|He]]|?]; [congruence| |done].
  by destruct (idle_settled _ _ _ _ _ HS Hidle (OEnd d)).
Qed.

(** C23. A surface misses nothing: it subscribes to a task's records before it reads
    the journal, so once no handler is running, every record of the journal
    that the read did not cover is among those broadcast to it since it
    subscribed, with its sequence, unless the task was deleted meanwhile. *)
Theorem attached_misses_nothing db J s a p after suffix e : represents db J → reachable db s → idle s →
  a ∈ attachments (w_history (world s)) → at_task a ∉ deleted (w_history (world s)) →
  load_suffix (at_task a) p after (w_db (world s)) = Ok suffix → e ∈ suffix_events suffix → beyond (at_through a) (te_sequence e) →
  ∃ e', e' ∈ received (world s) a ∧ te_sequence e' = te_sequence e ∧ te_kind e' = te_kind e.
Proof.
  intros HR Hc Hidle Ha Hd HL He Hb. pose proof (reachable_sound _ _ _ HR Hc) as HS.
  destruct (decide (Exists (λ e', te_sequence e' = te_sequence e ∧ te_kind e' = te_kind e) (received (world s) a))) as [Hx|Hn];
    [apply Exists_exists in Hx as (e' & ? & ?); eauto|].
  destruct (idle_settled _ _ _ _ _ HS Hidle (OPublish a (te_sequence e) (te_kind e))). split_and!; [done..|by eapply suffix_recorded|].
  intros e' He' Hr. apply Hn, Exists_exists. eauto.
Qed.

(** C25. The handlers come to rest. From any state, the running handlers and the
    writers of the connections have no endless run, whatever their order, and
    where neither can go on, no handler is running and the lifecycle lock is
    free. Without the writers, the handlers stop as well: where none can go on,
    all are at rest or a handler waits for room in an open queue with
    [OUTBOUND_CAPACITY] messages that its writer did not take, and it is the
    holder of the lock when the lock is held. *)
Theorem handlers_rest db J s (ch : Chance) : represents db J → reachable db s →
  Acc (flip (working writer)) s ∧
  (∀ s', rtc (working writer) s s' → reachable db s' ∧ ((∀ s'', ¬ working writer s' s'') → idle s')) ∧
  ∀ s', rtc thread_step s s' → (∀ s'', ¬ thread_step s' s'') →
    idle s' ∨ ∃ k, waits_in s' k ∧ (k ∉ w_closed (world s')) ∧ (OUTBOUND_CAPACITY ≤ queued (world s') k)%nat.
Proof.
  intros HR Hc. split; [apply working_ends, writer_ends|].
  assert (∀ s', rtc (working writer) s s' → reachable db s') as Hreach.
  { intros s' Hs. unfold reachable. etrans; [exact Hc|]. eapply rtc_subrel; [|exact Hs]. apply working_steps. }
  split.
  - intros s' Hs. split; [by apply Hreach|]. intros Hstuck. pose proof (reachable_sound _ _ _ HR (Hreach _ Hs)) as HS.
    destruct (sound_stuck _ _ _ _ ch s' HS) as [?|(k & _ & Hk)]; [intros s2 Hx; by eapply Hstuck, work_thread|done|].
    apply room_false in Hk as [_ Hk]. destruct s' as [w l ts]. destruct (Hstuck (MkConfig (take_message k w) l ts)).
    apply work_drain, writer_takes. cbn in Hk. unfold OUTBOUND_CAPACITY in Hk. lia.
  - intros s' Hs Hstuck. assert (rtc (working writer) s s') as Hs' by (eapply rtc_subrel; [|exact Hs]; intros; by apply work_thread).
    destruct (sound_stuck _ _ _ _ ch s' (reachable_sound _ _ _ HR (Hreach _ Hs')) Hstuck) as [?|(k & Hk & Hr)]; [by left|].
    right. exists k. split; [done|]. by apply room_false.
Qed.
End sound.

(** ** Instances *)
Section examples.
Import IdentityJson.

#[local] Instance plain_frames : FrameLength := λ _, Some 0.

(** A database with a task, and with the devices of its node and of its owner. *)
Definition node_device : DeviceId := MkRid 300.
Definition surface_device : DeviceId := MkRid 301.
Definition enrolled : list IdentityCall :=
  [ICreateEnrollment None (bytes 70) (PeerNode node) hour;
   IClaimEnrollment None (bytes 71) node_device (1000 * SECOND) (secret_of 70);
   ICreateEnrollment None (bytes 72) (PeerSurface owner surface1) hour;
   IClaimEnrollment None (bytes 73) surface_device (1000 * SECOND) (secret_of 72)].
Definition founding : list (ControlChoice * Call) :=
  take 2 opening ++ [(choice, CallIdentity (identity_lifetime enrolled))].
Definition founded : ControlDb := lifetime founding empty_control.
Definition chance : Chance := MkChance choice (draw 80) false 0 4.

(** The node connects, the owner connects and submits a command, and an
    operator revokes the node's device. *)
Definition node_inbox : list InboundMessage :=
  [Application (MAuthenticate JSON_WS_VERSION (MkDeviceCredentials node_device (secret_of 71)))].
Definition surface_inbox : list InboundMessage :=
  [Application (MAuthenticate JSON_WS_VERSION (MkDeviceCredentials surface_device (secret_of 73)));
   Application (MSubmit 7 chat ask (from_text "hi"))].
Definition revocation : P unit := _ ← coordinator_revoke_device node_device; mret tt.

Definition arrived db (ps : list (P unit)) : Config World Chance := MkConfig (start db) None ps.
Definition turn (n : nat) (i : nat) : list (nat * Chance) := replicate n (i, chance).

Lemma founded_journals : ∃ J, represents founded J.
Proof. by apply journals_of. Qed.

Lemma arrived_reachable db ps s schedule : Forall arrives ps → advances schedule (arrived db ps) = Some s → reachable db s.
Proof.
  intros Hps Hs. unfold reachable. etrans; [|by eapply advances_steps]. unfold arrived. clear Hs.
  induction ps as [|p ps IH] using rev_ind; [done|]. apply Forall_app in Hps as [Hps Hp]. eapply rtc_r; [by apply IH|].
  apply step_arrive. by inversion_clear Hp.
Qed.

(** What holds of a state the schedule reaches, computed. *)
Definition at_end db (schedule : list (nat * Chance)) (ps : list (P unit)) (b : Config World Chance → bool) : bool :=
  match advances schedule (arrived db ps) with Some s => b s | None => false end.
Definition is_idle (s : Config World Chance) : bool := bool_decide (lock s = None) && forallb rests (threads s).

Lemma is_idle_spec s : is_idle s = true → idle s.
Proof.
  intros [Hl%bool_decide_eq_true Ht]%andb_true_iff. split; [done|]. intros i p Hp.
  rewrite forallb_forall in Ht. apply Ht, list_elem_of_In. by eapply list_elem_of_lookup_2.
Qed.

Lemma at_end_ok db schedule ps b : at_end db schedule ps b = true → Forall arrives ps → ∃ s, reachable db s ∧ b s = true.
Proof.
  unfold at_end. destruct (advances schedule (arrived db ps)) as [s|] eqn:E; [|done]. intros Hb Hps.
  exists s. split; [by eapply arrived_reachable|done].
Qed.

Definition the_peers : list (P unit) := [serve_connection 1%N node_inbox; serve_connection 2%N surface_inbox; revocation].
Lemma the_peers_arrive : Forall arrives the_peers.
Proof. repeat constructor. Qed.

(** The command was submitted, and the node has not acknowledged it. *)
Definition submitting : list (nat * Chance) := turn 14 0 ++ turn 20 1.
Definition one_pending (s : Config World Chance) : bool :=
  match load_pending_executions node (w_db (world s)) with Ok [pe] => bool_decide (pe_task pe = chat) | _ => false end.
Definition bound_once (s : Config World Chance) : bool :=
  bool_decide (set_Forall (λ b : TaskId * NodeId, b.2 = node) (Coordinator.bound (w_history (world s)))).

Lemma pending_sent_witness : ∃ s pe, reachable founded s ∧ idle s ∧ load_pending_executions node (w_db (world s)) = Ok [pe] ∧
  execute_message pe ∈ sent (world s) 1%N.
Proof.
  destruct founded_journals as [J HR].
  destruct (at_end_ok founded submitting (take 2 the_peers)
    (λ s, is_idle s && is_current node 1%N (world s) && bool_decide (1%N ∉ w_closed (world s)) && one_pending s && bound_once s))
    as (s & Hs & Hb); [by vm_compute|apply Forall_take, the_peers_arrive|].
  apply andb_true_iff in Hb as [[[[Hi%is_idle_spec Hc]%andb_true_iff Ho%bool_decide_eq_true]%andb_true_iff Hp]%andb_true_iff
    Hone%bool_decide_eq_true].
  unfold one_pending in Hp. destruct (load_pending_executions node (w_db (world s))) as [[|pe [|]]|] eqn:El; try done.
  exists s, pe. split_and!; [done..|]. destruct (pending_sent founded J s node 1%N HR Hs Hi Hc Ho) as [H _].
  apply (H [pe] pe El); [by left|]. intros n' Hn'. exact (Hone _ Hn').
Defined.

(** The node's device was revoked. *)
Definition revoking : list (nat * Chance) := submitting ++ turn 5 2.
Definition node_hash : string := default "" (secret_digest DEVICE_CREDENTIAL (secret_of 71)).

Lemma no_session_outlives_its_credential_witness : ∃ s, reachable founded s ∧ idle s ∧
  (1%N, node_device, node_hash) ∈ logins (w_history (world s)) ∧
  (1%N ∈ w_cancelled (world s) ∨ 1%N ∈ finished (w_history (world s))).
Proof.
  destruct founded_journals as [J HR].
  destruct (at_end_ok founded revoking the_peers
    (λ s, is_idle s && bool_decide ((1%N, node_device, node_hash) ∈ logins (w_history (world s))) &&
          negb (device_accepts node_device node_hash (identity (w_db (world s)))) &&
          bool_decide (node_device ∉ abandoned (w_history (world s)))))
    as (s & Hs & Hb); [by vm_compute|apply the_peers_arrive|].
  apply andb_true_iff in Hb as [[[Hi%is_idle_spec Hl%bool_decide_eq_true]%andb_true_iff Hd%negb_true_iff]%andb_true_iff Ha%bool_decide_eq_true].
  exists s. split_and!; [done..|]. exact (no_session_outlives_its_credential founded J s 1%N node_device node_hash HR Hs Hi Hl Hd Ha).
Defined.

(** The owner attaches before submitting. *)
Definition attaching_inbox : list InboundMessage :=
  [Application (MAuthenticate JSON_WS_VERSION (MkDeviceCredentials surface_device (secret_of 73)));
   Application (MAttach 6 chat None false); Application (MSubmit 7 chat ask (from_text "hi"))].
Definition attaching_peers : list (P unit) := [serve_connection 1%N node_inbox; serve_connection 2%N attaching_inbox].

Lemma attached_misses_nothing_witness : ∃ s a suffix e, reachable founded s ∧ idle s ∧ at_task a = chat ∧ at_through a = None ∧
  load_suffix chat owner None (w_db (world s)) = Ok suffix ∧ suffix_events suffix = [e] ∧
  ∃ e', e' ∈ received (world s) a ∧ te_sequence e' = te_sequence e ∧ te_kind e' = te_kind e.
Proof.
  destruct founded_journals as [J HR].
  destruct (at_end_ok founded (turn 14 0 ++ turn 29 1) attaching_peers (λ s, is_idle s &&
    match attachments (w_history (world s)), load_suffix chat owner None (w_db (world s)) with
    | [a], Ok suffix => bool_decide (at_task a = chat) && bool_decide (at_through a = None) &&
        bool_decide (chat ∉ deleted (w_history (world s))) && bool_decide (length (suffix_events suffix) = 1%nat)
    | _, _ => false
    end)) as (s & Hs & Hb); [by vm_compute|repeat constructor|].
  apply andb_true_iff in Hb as [Hi%is_idle_spec Hb].
  destruct (attachments (w_history (world s))) as [|a [|]] eqn:Ea; try done. destruct (load_suffix _ _ _ _) as [suffix|] eqn:El; [|done].
  apply andb_true_iff in Hb as [[[Ht%bool_decide_eq_true Hth%bool_decide_eq_true]%andb_true_iff Hd%bool_decide_eq_true]%andb_true_iff Hl%bool_decide_eq_true].
  destruct (suffix_events suffix) as [|e [|]] eqn:Ee; try done. exists s, a, suffix, e. split_and!; [done..|].
  apply (attached_misses_nothing founded J s a owner None suffix e HR Hs Hi); [rewrite Ea; by left|by rewrite Ht|by rewrite Ht|rewrite Ee; by left|by rewrite Hth].
Defined.

(** The owner's connection holds the lock. *)
Lemma handlers_rest_witness : ∃ s, reachable founded s ∧ lock s = Some 1%nat ∧ Acc (flip (working writer)) s ∧
  ∀ s', rtc (working writer) s s' → (∀ s'', ¬ working writer s' s'') → idle s'.
Proof.
  destruct founded_journals as [J HR].
  destruct (at_end_ok founded (turn 14 0 ++ turn 14 1) the_peers (λ s, bool_decide (lock s = Some 1%nat))) as (s & Hs & Hb);
    [by vm_compute|apply the_peers_arrive|].
  apply bool_decide_eq_true in Hb. exists s. destruct (handlers_rest founded J s chance HR Hs) as (Hacc & Hrest & _).
  split_and!; [done..|]. intros s' Hs' Hstuck. by apply (Hrest s').
Defined.

(** A node with as many pending commands as its queue has room for connects and
    does not read: its handler waits for room and holds the lock, the
    owner's connection waits for the lock, and no handler can go on. *)
Definition command_call (n : nat) : ControlChoice * Call :=
  (choice, CallSubmit chat owner surface1 (MkRid (1000 + N.of_nat n)) (from_text "hi") true).
Definition backlog : ControlDb := lifetime (founding ++ (command_call <$> seq 0 OUTBOUND_CAPACITY)) empty_control.

Definition halts (c : Config World Chance) (i : nat) (p : P unit) : bool :=
  match p with
  | Done _ | Wait _ => true
  | Act gate _ _ => negb (passes (world c) gate)
  | Acquire _ => bool_decide (is_Some (lock c))
  | Release _ => bool_decide (lock c ≠ Some i)
  | Spawn _ _ => false
  end.
Definition halted (c : Config World Chance) : bool := forallb (λ ip, halts c ip.1 ip.2) (zip (seq 0 (length (threads c))) (threads c)).
Lemma halted_spec c c' : halted c = true → ¬ thread_step c c'.
Proof.
  unfold halted. rewrite forallb_forall. intros Hh Ht.
  assert (∀ i p, threads c !! i = Some p → halts c i p = true) as Hi.
  { intros i p Hp. apply (Hh (i, p)), list_elem_of_In, list_elem_of_lookup. exists i. apply lookup_zip_Some.
    split; [|done]. apply lookup_seq. split; [done|by eapply lookup_lt_Some]. }
  destruct Ht as [w l ts i X gate f k ch H1 Hg|w ts i k H1|w ts i k H1|w l ts i q k H1]; apply Hi in H1; cbn in H1.
  - by rewrite Hg in H1.
  - done.
  - by apply bool_decide_eq_true in H1.
  - done.
Qed.

Definition is_waiting_for_lock (p : P unit) : bool := match p with Acquire _ => true | _ => false end.
Definition stalled (s : Config World Chance) : bool :=
  halted s && bool_decide (lock s = Some 0%nat) && bool_decide (gate_of <$> threads s !! 0%nat = Some (Some 1%N)) &&
  bool_decide (queued (world s) 1%N = OUTBOUND_CAPACITY) && bool_decide (is_waiting_for_lock <$> threads s !! 1%nat = Some true).
Lemma slow_node_stalls : ∃ s, reachable backlog s ∧ (∀ s', ¬ thread_step s s') ∧ waits_in s 1%N ∧ lock s = Some 0%nat ∧
  queued (world s) 1%N = OUTBOUND_CAPACITY ∧ ∃ p, threads s !! 1%nat = Some (Acquire p).
Proof.
  destruct (at_end_ok backlog (turn 139 0 ++ turn 4 1) (take 2 the_peers) stalled) as (s & Hs & Hb);
    [by vm_compute|apply Forall_take, the_peers_arrive|].
  apply andb_true_iff in Hb as [[[[Hh Hl%bool_decide_eq_true]%andb_true_iff Hg%bool_decide_eq_true]%andb_true_iff
    Hq%bool_decide_eq_true]%andb_true_iff Hw%bool_decide_eq_true].
  destruct (threads s !! 0%nat) as [p|] eqn:E0; [|done]. destruct (threads s !! 1%nat) as [q|] eqn:E1; [|done].
  injection Hg as Hg. injection Hw as Hw. exists s. split_and!; [done|intros s'; by apply halted_spec|exists 0%nat, p; auto|done..|].
  destruct q; try done. eauto.
Qed.

(** A task's node is read before the lock is taken. When the task is deleted
    and opened on another node in between, the command is admitted for the new
    node and sent on the connection of the old one: no handler is running, the
    new node is connected, and it was not sent the execution. *)
Definition node2 : NodeId := MkRid 5.
Definition node2_device : DeviceId := MkRid 302.
Definition enrolled2 : list IdentityCall :=
  [ICreateEnrollment None (bytes 74) (PeerNode node2) hour;
   IClaimEnrollment None (bytes 75) node2_device (1000 * SECOND) (secret_of 74)].
Definition founding2 : list (ControlChoice * Call) :=
  founding ++ [(choice, CallEnroll node2 owner "8" (MkEnrollmentRow (enc c_str "") 0));
               (choice, CallIdentity (identity_lifetime enrolled2))].
Definition node2_inbox : list InboundMessage :=
  [Application (MAuthenticate JSON_WS_VERSION (MkDeviceCredentials node2_device (secret_of 75)));
   Application (MAdvertiseTargets [MkTargetCard "main" "Main"])].
Definition moving_inbox : list InboundMessage :=
  [Application (MAuthenticate JSON_WS_VERSION (MkDeviceCredentials surface_device (secret_of 73)));
   Application (MDeleteTask 8 chat); Application (MOpenTask 9 chat node2 "main")].
Definition moving_peers : list (P unit) :=
  [serve_connection 1%N node_inbox; serve_connection 3%N node2_inbox; serve_connection 2%N surface_inbox;
   serve_connection 4%N moving_inbox].
Definition moving : list (nat * Chance) := turn 14 0 ++ turn 18 1 ++ turn 12 2 ++ turn 20 3 ++ turn 8 2.
Definition moved (s : Config World Chance) : bool :=
  match load_pending_executions node2 (w_db (world s)), sent (world s) 1%N, sent (world s) 3%N with
  | Ok [pe], [_; SExecute t command], [SAuthenticated _] => bool_decide (t = pe_task pe ∧ command = pe_command pe)
  | _, _, _ => false
  end.

Example task_moved_while_submitting :
  match advances moving (MkConfig (start (lifetime founding2 empty_control)) None moving_peers) with
  | Some s => is_idle s && is_current node2 3%N (world s) && moved s
  | None => false
  end = true.
Proof. by vm_compute. Qed.
End examples.
