(* ===== verification/NodeLedger.v ===== *)
(** * The node's ledger

    What an execution node keeps of the commands it took ([node_store.rs] and
    [node_store/]): the task each belongs to, how far its admission and its
    events were published, the events themselves and the stops asked for. The
    tables are finite maps from primary key to row, and one definition is one
    transaction or query. *)
From S2P Require Import Prelude Json Text Protocol Transaction Control Journals.
(** ** Paths

    A [PathBuf] is a string of bytes. Paths are equal when their components
    are; [to_str] is defined on UTF-8. *)
Definition PathBuf : Type := string.

Fixpoint split_path (piece s : string) : list string :=
  match s with
  | EmptyString => [piece]
  | String a s' =>
      if Ascii.eqb a slash then piece :: split_path "" s' else split_path (piece +:+ String a "") s'
  end.
Definition has_root (p : PathBuf) : bool :=
  match p with String a _ => Ascii.eqb a slash | EmptyString => false end.
(** Empty pieces and dots are skipped, but for the dot a relative path begins with. *)
Definition path_components (p : PathBuf) : bool * list string :=
  let kept := List.filter (λ s, negb (is_empty s || String.eqb s ".")) in
  (has_root p,
   match split_path "" p with
   | first :: rest => if negb (has_root p) && String.eqb first "." then "." :: kept rest else kept (first :: rest)
   | [] => []
   end).
Definition path_eqb (p q : PathBuf) : bool := bool_decide (path_components p = path_components q).

Definition byte_in (lo hi : N) (a : Ascii.ascii) : bool :=
  let n := Ascii.N_of_ascii a in ((lo <=? n) && (n <=? hi))%N.
(** How many continuation bytes follow a first byte, and the range of the next one. *)
Definition utf8_lead (a : Ascii.ascii) : option (nat * (N * N)) :=
  if byte_in 0 127 a then Some (0%nat, (128, 191)%N)
  else if byte_in 194 223 a then Some (1%nat, (128, 191)%N)
  else if byte_in 224 224 a then Some (2%nat, (160, 191)%N)
  else if byte_in 237 237 a then Some (2%nat, (128, 159)%N)
  else if byte_in 225 239 a then Some (2%nat, (128, 191)%N)
  else if byte_in 240 240 a then Some (3%nat, (144, 191)%N)
  else if byte_in 241 243 a then Some (3%nat, (128, 191)%N)
  else if byte_in 244 244 a then Some (3%nat, (128, 143)%N)
  else None.
(** [owed] continuation bytes are due, the next of them within [lo] and [hi]. *)
Fixpoint utf8_from (owed : nat) (lo hi : N) (s : string) : bool :=
  match s, owed with
  | EmptyString, O => true
  | EmptyString, S _ => false
  | String a s', O =>
      match utf8_lead a with Some (n, (lo, hi)) => utf8_from n lo hi s' | None => false end
  | String a s', S n => byte_in lo hi a && utf8_from n 128 191 s'
  end.
Definition to_str (p : PathBuf) : option string := if utf8_from 0 128 191 p then Some p else None.

(** ** Errors and rows *)
Inductive NodeStoreError :=
| NodeSqlite (text : string)
| NodeJson (text : string)
| NodeInvalid (text : string)
| NodeWorker (text : string)
| NodeClock
| NodePermissions (text : string).

Definition node_store_error_text (e : NodeStoreError) : string :=
  match e with
  | NodeSqlite text => "node SQLite failed: " +:+ text
  | NodeJson text => "node ledger JSON is invalid: " +:+ text
  | NodeInvalid text => "node ledger is invalid: " +:+ text
  | NodeWorker text => "node SQLite worker failed: " +:+ text
  | NodeClock => "node clock is before the Unix epoch"
  | NodePermissions text => "node ledger permissions could not be restricted: " +:+ text
  end.

(** The texts of the errors of an integer column that overflows, and of a table
    without a free rowid. *)
Class NodeTexts := { integer_overflow : string; table_full : string }.

Record TargetBinding := MkTargetBinding {
  bound_target : string; bound_agent : N; bound_session : N; bound_workspace : PathBuf }.
Definition binding_eqb (b1 b2 : TargetBinding) : bool :=
  String.eqb (bound_target b1) (bound_target b2) && (bound_agent b1 =? bound_agent b2)%N &&
  (bound_session b1 =? bound_session b2)%N && path_eqb (bound_workspace b1) (bound_workspace b2).

(** [ExecutionRecord]. *)
Record NodeRecord := MkNodeRecord {
  admission_sequence : Z;
  nr_task : TaskId;
  nr_command : CommandEnvelope;
  nr_execution : ExecutionId;
  nr_binding : TargetBinding;
  admission_acked : bool;
  nr_terminal : bool;
  published_through : option Z;
}.

Inductive StopRecord := StopRecorded | StopTooLate.   (* [Recorded], [AlreadyEnded] *)
#[global] Instance StopRecord_eq_dec : EqDecision StopRecord.
Proof. solve_decision. Defined.

Record CommandOutcome := MkCommandOutcome {
  co_terminal : ExecutionTerminal; co_answer : option string; failed_tool_calls : Z }.

Section ledger.
Context `{JL : JsonLib}.

(** A row of [host_node_executions], by command. *)
Record NodeExecutionRow := MkNodeExecutionRow {
  ne_admission : Z; ne_task : TaskId; ne_command_json : Text; ne_execution : ExecutionId;
  ne_acked : bool; ne_terminal : bool; ne_published : option Z }.

Record NodeDb := MkNodeDb {
  ledger_version : option Z;
  host_tasks : gmap TaskId TargetBinding;
  host_executions : gmap CommandId NodeExecutionRow;
  last_admission : Z;                     (* [sqlite_sequence] of the executions *)
  host_events : gmap (CommandId * Z) Text;
  host_stops : gmap CommandId TaskId;
}.
Definition empty_ledger : NodeDb := MkNodeDb None ∅ ∅ 0 ∅ ∅.

Definition with_version v (d : NodeDb) : NodeDb :=
  MkNodeDb v (host_tasks d) (host_executions d) (last_admission d) (host_events d) (host_stops d).
Definition with_host_tasks m (d : NodeDb) : NodeDb :=
  MkNodeDb (ledger_version d) m (host_executions d) (last_admission d) (host_events d) (host_stops d).
Definition with_host_executions m (d : NodeDb) : NodeDb :=
  MkNodeDb (ledger_version d) (host_tasks d) m (last_admission d) (host_events d) (host_stops d).
Definition with_last_admission n (d : NodeDb) : NodeDb :=
  MkNodeDb (ledger_version d) (host_tasks d) (host_executions d) n (host_events d) (host_stops d).
Definition with_host_events m (d : NodeDb) : NodeDb :=
  MkNodeDb (ledger_version d) (host_tasks d) (host_executions d) (last_admission d) m (host_stops d).
Definition with_host_stops m (d : NodeDb) : NodeDb :=
  MkNodeDb (ledger_version d) (host_tasks d) (host_executions d) (last_admission d) (host_events d) m.

(** What a transaction takes from its surroundings: a failure of the
    connection, the commit or the worker, the event identities it draws and the
    milliseconds since the epoch, each in the state it has reached. *)
Record NodeChoice := MkNodeChoice {
  node_failure : option NodeStoreError;
  new_execution_event : NodeDb → ExecutionEventId;
  node_clock : NodeDb → option Z;
}.
End ledger.
Arguments MkNodeChoice {_} _ _ _.

Abbreviation NTx := (Tx NodeDb NodeStoreError).

Class NodeSerde `{CS : ControlSerde} := {
  execution_event_serde :: Serde ExecutionEvent;
  execution_kind_serde :: Serde ExecutionEventKind;
}.
Class NodeSerdeLaws `{NS : NodeSerde} : Prop := {
  execution_event_laws :: SerdeLaws ExecutionEvent;
  execution_kind_laws :: SerdeLaws ExecutionEventKind;
}.

Section operations.
Context `{NS : NodeSerde} `{LT : LibraryTexts} `{NT : NodeTexts}.
Implicit Types (db : NodeDb) (ch : NodeChoice).

(** ** Columns and rows ([node_store.rs], [records.rs]) *)
Definition node_json_error : NodeStoreError := NodeJson json_failed.
Definition node_encode `{Serde A} (a : A) : Result NodeStoreError Text := ok_or (to_string a) node_json_error.
Definition node_decode `{Serde A} (t : Text) : Result NodeStoreError A := ok_or (from_str t) node_json_error.
Definition to_i64 (value : Z) (name : string) : Result NodeStoreError Z :=
  ok_or (i64_try_from value) (NodeInvalid (name +:+ " exceeds SQLite i64 range")).
(** [u64::try_from] of a column. *)
Definition to_u64 (value : Z) (what : string) : Result NodeStoreError Z :=
  if 0 <=? value then Ok value else Err (NodeInvalid ("negative " +:+ what)).
Definition node_constraint (ok : bool) (what : string) : NTx unit :=
  guard ok (NodeSqlite (constraint_failed what)).

Definition not_found_execution (c : CommandId) : NodeStoreError :=
  NodeInvalid ("execution for command " +:+ show_id c +:+ " was not found").
Definition require_one (changed : nat) (c : CommandId) : Result NodeStoreError unit :=
  if Nat.eqb changed 1 then Ok tt else Err (not_found_execution c).

(** [decode_record], of an execution joined with its task. *)
Definition decode_record (row : NodeExecutionRow) (binding : TargetBinding) : Result NodeStoreError NodeRecord :=
  admission ← to_u64 (ne_admission row) "admission sequence";
  command ← node_decode (ne_command_json row);
  published ← transpose (λ n, to_u64 n "publication cursor") (ne_published row);
  Ok (MkNodeRecord admission (ne_task row) command (ne_execution row) binding (ne_acked row) (ne_terminal row) published).

Definition joined db (row : NodeExecutionRow) : option (NodeExecutionRow * TargetBinding) :=
  binding ← host_tasks db !! ne_task row; Some (row, binding).

Definition load_record (c : CommandId) db : Result NodeStoreError (option NodeRecord) :=
  transpose (λ '(row, binding), decode_record row binding) (host_executions db !! c ≫= joined db).

(** The executions with a property, joined, in the order of their admission. *)
Definition load_records (P : CommandId → NodeExecutionRow → bool) db : Result NodeStoreError (list NodeRecord) :=
  collect (λ '(row, binding), decode_record row binding)
    (order_by (λ r, ne_admission r.1) (omap (λ kv, joined db kv.2) (select P (host_executions db)))).

(** [MAX(sequence)] of a command's events. *)
Definition max_sequence (c : CommandId) db : option Z :=
  map_fold (λ k _ m, if decide (k.1 = c) then Some (match m with Some n => Z.max n k.2 | None => k.2 end) else m)
    None (host_events db).

Definition load_unfinished : NodeDb → Result NodeStoreError (list NodeRecord) :=
  load_records (λ _ row, negb (ne_terminal row)).

(** The [WHERE] of [load_pending_publications]. *)
Definition publication_pending db (c : CommandId) (row : NodeExecutionRow) : bool :=
  negb (ne_terminal row) || negb (ne_acked row) ||
  match ne_published row with
  | None => true
  | Some n => match max_sequence c db with Some m => n <? m | None => false end
  end.
Definition load_pending_publications db : Result NodeStoreError (list NodeRecord) :=
  load_records (publication_pending db) db.

(** The events of a command from a sequence on, in order. *)
Definition event_rows (c : CommandId) (minimum : Z) db : list ((CommandId * Z) * Text) :=
  order_by (λ kv, kv.1.2) (select (λ k _, bool_decide (k.1 = c) && (minimum <=? k.2)) (host_events db)).
Definition load_events_after (c : CommandId) (after : option Z) db : Result NodeStoreError (list ExecutionEvent) :=
  minimum ← to_i64 (match after with None => 0 | Some n => Z.min u64_max (n + 1) end) "execution event cursor";
  collect (λ kv, node_decode kv.2) (event_rows c minimum db).

Definition now_ms ch db : Result NodeStoreError Z :=
  ms ← ok_or (node_clock ch db) NodeClock;
  ok_or (i64_try_from ms) (NodeInvalid "node timestamp exceeds i64 range").

Definition insert_event ch (c : CommandId) (x : ExecutionId) (sequence : Z) (kind : ExecutionEventKind) : NTx unit :=
  event_id ← query (new_execution_event ch);
  recorded_at ← read (now_ms ch);
  column ← lift (to_i64 sequence "execution sequence");
  json ← lift (node_encode (MkExecutionEvent event_id x sequence recorded_at kind));
  db ← get;
  _ ← node_constraint (0 <=? column) "host_node_events.sequence";
  _ ← node_constraint (bool_decide (host_events db !! (c, column) = None)) "host_node_events.command_id, host_node_events.sequence";
  _ ← node_constraint (bool_decide (is_Some (host_executions db !! c))) "host_node_events.command_id";
  write (with_host_events (<[(c, column) := json]> (host_events db))).

Definition load_event (c : CommandId) (sequence : Z) : NTx (option ExecutionEvent) :=
  column ← lift (to_i64 sequence "execution sequence");
  read (λ db, transpose node_decode (host_events db !! (c, column))).

(** [MAX(sequence) + 1] that leaves the integers is not one. *)
Definition next_event_sequence (c : CommandId) db : Result NodeStoreError Z :=
  match max_sequence c db with
  | None => Ok 0
  | Some n => next ← ok_or (checked_add_i64 n 1) (NodeSqlite integer_overflow); to_u64 next "execution sequence"
  end.

(** ** Admission *)
Definition session_owner (session : N) db : option TaskId :=
  fst <$> head (select (λ _ b, (bound_session b =? session)%N) (host_tasks db)).

Definition ensure_task_binding (t : TaskId) (binding : TargetBinding) : NTx TargetBinding :=
  db ← get;
  match host_tasks db !! t with
  | Some existing =>
      if negb (String.eqb (bound_target existing) (bound_target binding)) ||
         negb (bound_agent existing =? bound_agent binding)%N ||
         negb (path_eqb (bound_workspace existing) (bound_workspace binding))
      then throw (NodeInvalid ("task " +:+ show_id t +:+ " conflicts with its durable Host binding"))
      else mret existing
  | None =>
      match session_owner (bound_session binding) db with
      | Some owner => throw (NodeInvalid ("Host session " +:+ uuid_text (bound_session binding) +:+
          " is already bound to task " +:+ show_id owner))
      | None =>
          workspace ← lift (ok_or (to_str (bound_workspace binding))
            (NodeInvalid "Host target workspace is not valid UTF-8"));
          _ ← write (with_host_tasks (<[t := MkTargetBinding (bound_target binding) (bound_agent binding)
                                               (bound_session binding) workspace]> (host_tasks db)));
          mret binding
      end
  end.

(** The insertion, and its rowid. *)
Definition insert_execution (c : CommandId) (row : Z → NodeExecutionRow) : NTx Z :=
  db ← get;
  _ ← guard (last_admission db <? i64_max) (NodeSqlite table_full);
  let rowid := last_admission db + 1 in
  _ ← node_constraint (bool_decide (host_executions db !! c = None)) "host_node_executions.command_id";
  _ ← node_constraint (negb (tbl_exists (λ _ r, bool_decide (ne_execution r = ne_execution (row rowid))) (host_executions db)))
        "host_node_executions.execution_id";
  _ ← node_constraint (bool_decide (is_Some (host_tasks db !! ne_task (row rowid)))) "host_node_executions.task_id";
  _ ← write (λ db, with_last_admission rowid (with_host_executions (<[c := row rowid]> (host_executions db)) db));
  mret rowid.

Definition execution_of_command (c : CommandId) : ExecutionId := MkRid (as_uuid c).

Definition admit_execution ch (t : TaskId) (command : CommandEnvelope) (binding : TargetBinding) : NTx NodeRecord :=
  let c := command_id command in
  _ ← guard (String.eqb (target command) (bound_target binding))
        (NodeInvalid ("command target `" +:+ target command +:+ "` does not match configured target `" +:+
           bound_target binding +:+ "`"));
  binding ← ensure_task_binding t binding;
  existing ← read (load_record c);
  match existing with
  | Some existing =>
      if negb (bool_decide (nr_task existing = t)) || negb (bool_decide (nr_command existing = command)) ||
         negb (binding_eqb (nr_binding existing) binding)
      then throw (NodeInvalid ("command " +:+ show_id c +:+ " conflicts with its durable node admission"))
      else mret existing
  | None =>
      command_json ← lift (node_encode command);
      let x := execution_of_command c in
      rowid ← insert_execution c (λ n, MkNodeExecutionRow n t command_json x false false None);
      admission ← lift (to_u64 rowid "execution admission sequence");
      _ ← insert_event ch c x 0 ExecutionStarted;
      mret (MkNodeRecord admission t command x binding false false None)
  end.

(** ** A turn's events *)
Definition load_execution (c : CommandId) : NTx NodeRecord :=
  record ← read (load_record c);
  lift (ok_or record (not_found_execution c)).

Definition is_turn_started (k : ExecutionEventKind) : bool := match k with TurnStarted => true | _ => false end.

Definition append_turn_started_body ch (c : CommandId) : NTx unit :=
  record ← load_execution c;
  _ ← guard (negb (nr_terminal record))
        (NodeInvalid ("execution for command " +:+ show_id c +:+ " is already terminal"));
  existing ← load_event c 1;
  match existing with
  | Some event =>
      guard (is_turn_started (x_kind event))
        (NodeInvalid ("execution for command " +:+ show_id c +:+ " has invalid sequence one"))
  | None => insert_event ch c (nr_execution record) 1 TurnStarted
  end.

(** *** Occurrences ([progress.rs]) *)
Inductive EventKey :=
| KeyToolStarted (call : string)
| KeyToolFinished (call : string)
| KeyMessage (text : string)
| KeyOther (json : Text).
#[global] Instance EventKey_eq_dec : EqDecision EventKey.
Proof. solve_decision. Defined.

Definition key_of (kind : ExecutionEventKind) : Result NodeStoreError EventKey :=
  match kind with
  | ToolStarted call_id _ _ => Ok (KeyToolStarted call_id)
  | ToolFinished call_id _ _ => Ok (KeyToolFinished call_id)
  | AssistantMessage text => Ok (KeyMessage text)
  | other => json ← node_encode other; Ok (KeyOther json)
  end.

(** A [HashMap] from keys to counts; an absent key counts zero. *)
Definition Counts : Type := EventKey → nat.
Definition set_count (k : EventKey) (n : nat) (m : Counts) : Counts := λ k', if decide (k = k') then n else m k'.

Fixpoint count_events (events : list ExecutionEvent) (counts : Counts) : Result NodeStoreError Counts :=
  match events with
  | [] => Ok counts
  | e :: rest => k ← key_of (x_kind e); count_events rest (set_count k (S (counts k)) counts)
  end.
(** [Recorded::load]. *)
Definition load_recorded (c : CommandId) db : Result NodeStoreError Counts :=
  events ← collect (λ kv : (CommandId * Z) * Text, node_decode (A := ExecutionEvent) kv.2)
             (select (λ k _, bool_decide (k.1 = c)) (host_events db));
  count_events events (λ _, 0%nat).

Fixpoint unrecorded (counts : Counts) (kinds : list ExecutionEventKind)
    : Result NodeStoreError (list ExecutionEventKind) :=
  match kinds with
  | [] => Ok []
  | kind :: rest =>
      k ← key_of kind;
      match counts k with
      | S n => unrecorded (set_count k n counts) rest
      | O => remaining ← unrecorded counts rest; Ok (kind :: remaining)
      end
  end.

Record LiveLedger := MkLiveLedger { ll_recorded : Counts; ll_reported : Counts }.
Definition live_ledger (c : CommandId) db : Result NodeStoreError LiveLedger :=
  recorded ← load_recorded c db; Ok (MkLiveLedger recorded (λ _, 0%nat)).

(** [LiveLedger::admit]. *)
Definition ledger_admit (kind : ExecutionEventKind) (l : LiveLedger) : Result NodeStoreError (bool * LiveLedger) :=
  k ← key_of kind;
  let reported := S (ll_reported l k) in
  let l := MkLiveLedger (ll_recorded l) (set_count k reported (ll_reported l)) in
  if (reported <=? ll_recorded l k)%nat then Ok (false, l)
  else Ok (true, MkLiveLedger (set_count k reported (ll_recorded l)) (ll_reported l)).

Definition is_live (kind : ExecutionEventKind) : bool :=
  match kind with ExecutionStarted | TurnStarted | ExecutionTerminated _ => false | _ => true end.

Definition append_progress_body ch (c : CommandId) (kind : ExecutionEventKind) : NTx bool :=
  record ← load_execution c;
  if nr_terminal record then mret false
  else
    sequence ← read (next_event_sequence c);
    _ ← insert_event ch c (nr_execution record) sequence kind;
    mret true.

(** *** The end of a turn *)
Definition ends_once (kinds : list ExecutionEventKind) : bool :=
  Nat.eqb (length (List.filter is_terminated kinds)) 1 &&
  match last kinds with Some k => is_terminated k | None => false end.

(** The loop of [finish]; [offset] is the head's index. *)
Fixpoint insert_events ch (c : CommandId) (x : ExecutionId) (next offset : Z) (kinds : list ExecutionEventKind) : NTx unit :=
  match kinds with
  | [] => mret tt
  | kind :: rest =>
      sequence ← lift (ok_or (checked_add_u64 next offset) (NodeInvalid "execution sequence overflow"));
      _ ← insert_event ch c x sequence kind;
      insert_events ch c x next (offset + 1) rest
  end.

Definition set_terminal (row : NodeExecutionRow) : NodeExecutionRow :=
  MkNodeExecutionRow (ne_admission row) (ne_task row) (ne_command_json row) (ne_execution row)
    (ne_acked row) true (ne_published row).

Definition finish_body ch (c : CommandId) (kinds : list ExecutionEventKind) : NTx unit :=
  record ← load_execution c;
  if nr_terminal record then mret tt
  else
    recorded ← read (load_recorded c);
    kinds ← lift (unrecorded recorded kinds);
    next ← read (next_event_sequence c);
    _ ← guard (ends_once kinds) (NodeInvalid "completed execution projection must end with one terminal event");
    _ ← insert_events ch c (nr_execution record) next 0 kinds;
    write (λ db, with_host_executions (alter set_terminal c (host_executions db)) db).

(** ** Publication *)
Definition set_published (through : Z) (row : NodeExecutionRow) : NodeExecutionRow :=
  MkNodeExecutionRow (ne_admission row) (ne_task row) (ne_command_json row) (ne_execution row)
    (ne_acked row) (ne_terminal row)
    (Some match ne_published row with Some n => if n <? through then through else n | None => through end).
Definition set_acked (acknowledged : bool) (row : NodeExecutionRow) : NodeExecutionRow :=
  MkNodeExecutionRow (ne_admission row) (ne_task row) (ne_command_json row) (ne_execution row)
    acknowledged (ne_terminal row) (ne_published row).

(** An [UPDATE] of one execution; it must have changed a row. *)
Definition update_execution (f : NodeExecutionRow → NodeExecutionRow) (c : CommandId) : NTx unit :=
  db ← get;
  _ ← write (with_host_executions (alter f c (host_executions db)));
  lift (require_one (match host_executions db !! c with Some _ => 1 | None => 0 end) c).

Definition advance_publication_body (c : CommandId) (through : Z) : NTx unit :=
  column ← lift (to_i64 through "publication cursor");
  update_execution (set_published column) c.
Definition set_admission_ack (c : CommandId) (acknowledged : bool) : NTx unit :=
  update_execution (set_acked acknowledged) c.

(** ** Stops ([stops.rs]) *)
Definition record_stop_body (t : TaskId) (c : CommandId) : NTx StopRecord :=
  record ← read (load_record c);
  _ ← match record with
      | Some record => guard (bool_decide (nr_task record = t))
            (NodeInvalid ("command " +:+ show_id c +:+ " does not belong to task " +:+ show_id t))
      | None => mret tt
      end;
  if match record with Some record => nr_terminal record | None => false end then mret StopTooLate
  else
    _ ← write (λ db, match host_stops db !! c with
                     | Some _ => db
                     | None => with_host_stops (<[c := t]> (host_stops db)) db
                     end);
    mret StopRecorded.
Definition stop_requested (c : CommandId) db : bool := bool_decide (is_Some (host_stops db !! c)).

(** ** Reads of the automations ([delivery.rs]) and forgetting ([forgetting.rs]) *)
Definition task_for_session (session : N) db : option TaskId := session_owner session db.
Definition task_of_command (c : CommandId) db : option TaskId := ne_task <$> host_executions db !! c.

(** The loop of [outcome]. *)
Fixpoint summarize_events (events : list ExecutionEvent) (answer : option string) (ended : option ExecutionTerminal)
    (failed : Z) : option string * option ExecutionTerminal * Z :=
  match events with
  | [] => (answer, ended, failed)
  | e :: rest =>
      match x_kind e with
      | AssistantMessage text => summarize_events rest (Some text) ended failed
      | ExecutionTerminated terminal => summarize_events rest answer (Some terminal) failed
      | ToolFinished _ _ true => summarize_events rest answer ended (Z.min u32_max (failed + 1))
      | _ => summarize_events rest answer ended failed
      end
  end.
Definition outcome (c : CommandId) db : Result NodeStoreError (option CommandOutcome) :=
  if decide (ne_terminal <$> host_executions db !! c = Some true)
  then
    events ← collect (λ kv : (CommandId * Z) * Text, node_decode (A := ExecutionEvent) kv.2)
               (order_by (λ kv, kv.1.2) (select (λ k _, bool_decide (k.1 = c)) (host_events db)));
    let '(answer, ended, failed) := summarize_events events None None 0 in
    terminal ← ok_or ended
      (NodeInvalid ("terminal execution for command " +:+ show_id c +:+ " has no terminal event"));
    Ok (Some (MkCommandOutcome terminal answer failed))
  else Ok None.

Definition task_session (t : TaskId) db : Result NodeStoreError (option (N * N)) :=
  if tbl_exists (λ _ row, bool_decide (ne_task row = t) && negb (ne_terminal row)) (host_executions db)
  then Err (NodeInvalid ("task " +:+ show_id t +:+ " has an execution that has not terminated"))
  else Ok ((λ b, (bound_agent b, bound_session b)) <$> host_tasks db !! t).

Definition forget_task_body (t : TaskId) : NTx unit :=
  _ ← write (λ db, with_host_events
        (filter (λ kv : (CommandId * Z) * Text, ne_task <$> host_executions db !! kv.1.1 ≠ Some t) (host_events db)) db);
  _ ← write (λ db, with_host_executions
        (filter (λ kv : CommandId * NodeExecutionRow, ne_task kv.2 ≠ t) (host_executions db)) db);
  _ ← write (λ db, with_host_stops (filter (λ kv : CommandId * TaskId, kv.2 ≠ t) (host_stops db)) db);
  write (λ db, with_host_tasks (delete t (host_tasks db)) db).

(** ** Opening ([schema.rs], [node_store.rs]) *)
Definition SCHEMA_VERSION : Z := 2.
Definition initialize_version : NTx unit :=
  stored ← query ledger_version;
  match stored with
  | Some version =>
      guard (version =? SCHEMA_VERSION)
        (NodeInvalid ("unsupported node ledger schema " +:+ show version +:+ "; expected " +:+ show SCHEMA_VERSION))
  | None => write (with_version (Some SCHEMA_VERSION))
  end.

Definition validate_configured_targets (serves : TargetBinding → bool) db : Result NodeStoreError unit :=
  match List.find (λ kv, negb (serves kv.2)) (order_by (λ kv, Z.of_N (as_uuid kv.1)) (select (λ _ _, true) (host_tasks db))) with
  | Some (_, stored) =>
      Err (NodeInvalid ("durable task target `" +:+ bound_target stored +:+ "` does not match current node configuration"))
  | None => Ok tt
  end.

(** ** Calls *)
Definition node_attempt {A} ch (m : NTx A) db : Result NodeStoreError A * NodeDb :=
  match node_failure ch with Some e => (Err e, db) | None => commit m db end.
Definition node_observe {A} ch (q : NodeDb → Result NodeStoreError A) db : Result NodeStoreError A :=
  match node_failure ch with Some e => Err e | None => q db end.

(** [append_progress]: only reports of a running turn. *)
Definition append_progress ch (c : CommandId) (kind : ExecutionEventKind) db : Result NodeStoreError bool * NodeDb :=
  if is_live kind then node_attempt ch (append_progress_body ch c kind) db
  else (Err (NodeInvalid "live progress carries only assistant messages and tool events"), db).
End operations.

(** * What a ledger stands for

    [NodeLog]: every execution with its command and its events. [ledger_rep]
    relates a ledger to it, and [ledger_step] is how it moves: executions are
    admitted with their start, extended until they end, marked as published,
    and forgotten with their task. *)
Section node_log.
Context `{JV : JsonValue}.

Record Execution := MkExecution {
  lx_admission : Z; lx_task : TaskId; lx_command : CommandEnvelope; lx_log : list ExecutionEvent;
  lx_acked : bool; lx_published : option Z }.
Definition extend (new : list ExecutionEvent) (X : Execution) : Execution :=
  MkExecution (lx_admission X) (lx_task X) (lx_command X) (lx_log X ++ new) (lx_acked X) (lx_published X).
Definition mark (acked : bool) (published : option Z) (X : Execution) : Execution :=
  MkExecution (lx_admission X) (lx_task X) (lx_command X) (lx_log X) acked published.

(** The events that continue an execution. *)
Record continues (c : CommandId) (n : nat) (new : list ExecutionEvent) : Prop := {
  cn_sequence : ∀ i e, new !! i = Some e → x_sequence e = Z.of_nat (n + i);
  cn_execution : ∀ e, e ∈ new → x_execution_id e = execution_of_command c;
}.
Record execution_wf (c : CommandId) (X : Execution) : Prop := {
  xw_stream : stream_wf (lx_log X);
  xw_begun : lx_log X ≠ [];
  xw_execution : ∀ e, e ∈ lx_log X → x_execution_id e = execution_of_command c;
}.
End node_log.
Abbreviation NodeLog := (gmap CommandId Execution).

Section theory.
Context `{NS : NodeSerde} `{LT : LibraryTexts} `{NT : NodeTexts} `{!ControlSerdeLaws} `{!NodeSerdeLaws}.
Implicit Types (db : NodeDb) (ch : NodeChoice) (L : NodeLog) (X : Execution) (c : CommandId) (t : TaskId).

Inductive ledger_step : NodeLog → NodeLog → Prop :=
| ledger_admits L c X :
    L !! c = None → execution_wf c X → length (lx_log X) = 1%nat → command_id (lx_command X) = c →
    lx_published X = None → ledger_step L (<[c := X]> L)
| ledger_extends L c X new :
    L !! c = Some X → ends (lx_log X) = false → execution_wf c (extend new X) → ledger_step L (<[c := extend new X]> L)
| ledger_marks L c X acked published :
    L !! c = Some X → ledger_step L (<[c := mark acked published X]> L)
| ledger_forgets L t : ledger_step L (filter (λ kv : CommandId * Execution, lx_task kv.2 ≠ t) L).

Record row_rep c (row : NodeExecutionRow) X : Prop := {
  rr_admission : ne_admission row = lx_admission X;
  rr_task : ne_task row = lx_task X;
  rr_json : to_string (lx_command X) = Some (ne_command_json row);
  rr_input : input_ok (input (lx_command X)) = true;
  rr_command : command_id (lx_command X) = c;
  rr_execution : ne_execution row = execution_of_command c;
  rr_acked : ne_acked row = lx_acked X;
  rr_published : ne_published row = lx_published X;
  rr_positive : 0 ≤ lx_admission X;
  rr_cursor : ∀ n, lx_published X = Some n → 0 ≤ n;
}.
Record events_rep db L : Prop := {
  er_rows : ∀ c, option_Forall2 (row_rep c) (host_executions db !! c) (L !! c);
  er_bound : ∀ c X, L !! c = Some X → is_Some (host_tasks db !! lx_task X);
  er_events : ∀ c i json, host_events db !! (c, i) = Some json ↔
    ∃ X n e, L !! c = Some X ∧ lx_log X !! n = Some e ∧ i = Z.of_nat n ∧ to_string e = Some json;
  er_stored : ∀ c X n e, L !! c = Some X → lx_log X !! n = Some e → is_Some (to_string e) ∧ Z.of_nat n ≤ i64_max;
  er_last : 0 ≤ last_admission db;
}.
Record ledger_rep db L : Prop := {
  lr_events : events_rep db L;
  lr_terminal : ∀ c row X, host_executions db !! c = Some row → L !! c = Some X → ne_terminal row = ends (lx_log X);
  lr_wf : ∀ c X, L !! c = Some X → execution_wf c X;
}.

Lemma rep_row db L c X : events_rep db L → L !! c = Some X → ∃ row, host_executions db !! c = Some row ∧ row_rep c row X.
Proof. intros HR HX. pose proof (er_rows _ _ HR c) as Hf. rewrite HX in Hf. inversion Hf; subst; eauto. Qed.
Lemma rep_execution db L c row : events_rep db L → host_executions db !! c = Some row → ∃ X, L !! c = Some X ∧ row_rep c row X.
Proof. intros HR Hr. pose proof (er_rows _ _ HR c) as Hf. rewrite Hr in Hf. inversion Hf; subst; eauto. Qed.
Lemma rep_absent db L c : events_rep db L → host_executions db !! c = None ↔ L !! c = None.
Proof. intros HR. pose proof (er_rows _ _ HR c) as Hf. destruct Hf; split; congruence. Qed.

Lemma empty_ledger_rep v : ledger_rep (with_version v empty_ledger) ∅.
Proof.
  split; [split|..]; cbn; try done.
  - intros c. rewrite !lookup_empty. constructor.
  - intros c i json. rewrite lookup_empty. split; [done|]. intros (X & n & e & HX & _). done.
Qed.

(** ** Reading *)
Definition record_of X (binding : TargetBinding) (terminal : bool) : NodeRecord :=
  MkNodeRecord (lx_admission X) (lx_task X) (lx_command X) (execution_of_command (command_id (lx_command X))) binding
    (lx_acked X) terminal (lx_published X).

Lemma decode_row_rep c row X b : row_rep c row X → decode_record row b = Ok (record_of X b (ne_terminal row)).
Proof.
  intros [H1 H2 H3 H4 H5 H6 H7 H8 H9 H10]. unfold decode_record, to_u64, node_decode. rewrite H1.
  rewrite (proj2 (Z.leb_le _ _)) by done. cbn. rewrite (envelope_read_back _ _ H3 H4). cbn.
  rewrite H8. unfold record_of. rewrite H5, <- H2, <- H6, <- H7. destruct (lx_published X) as [n|] eqn:Hp; cbn; [|done].
  rewrite (proj2 (Z.leb_le _ _)) by (by apply H10). done.
Qed.

Lemma load_record_log db L c X : ledger_rep db L → L !! c = Some X →
  ∃ b, host_tasks db !! lx_task X = Some b ∧ load_record c db = Ok (Some (record_of X b (ends (lx_log X)))).
Proof.
  intros [HR HT _] HX. destruct (rep_row _ _ _ _ HR HX) as (row & Hr & Hrow).
  destruct (er_bound _ _ HR _ _ HX) as [b Hb]. exists b. split; [done|].
  unfold load_record. rewrite Hr. cbn [mbind option_bind]. unfold joined. rewrite (rr_task _ _ _ Hrow), Hb. cbn.
  by rewrite (decode_row_rep _ _ _ b Hrow), (HT _ _ _ Hr HX).
Qed.
Lemma load_record_none db L c : ledger_rep db L → L !! c = None → load_record c db = Ok None.
Proof. intros [HR _ _] HX. unfold load_record. by rewrite (proj2 (rep_absent _ _ _ HR) HX). Qed.

Lemma rep_command db L c X : ledger_rep db L → L !! c = Some X → command_id (lx_command X) = c.
Proof. intros HR HX. destruct (rep_row _ _ _ _ (lr_events _ _ HR) HX) as (row & _ & Hr). apply Hr. Qed.

Lemma load_execution_ok db L c record db' : ledger_rep db L → load_execution c db = Ok (record, db') →
  db' = db ∧ ∃ X, L !! c = Some X ∧ nr_terminal record = ends (lx_log X) ∧ nr_execution record = execution_of_command c.
Proof.
  intros HR HT. unfold load_execution in HT. tx_inv. split; [done|].
  rename select (load_record _ _ = _) into E. destruct (L !! c) as [X|] eqn:HX.
  - destruct (load_record_log _ _ _ _ HR HX) as (b & _ & Hl). exists X. split; [done|]. rewrite Hl in E. injection E as <-.
    cbn. by rewrite (rep_command _ _ _ _ HR HX).
  - by rewrite (load_record_none _ _ _ HR HX) in E.
Qed.

Lemma max_sequence_spec c db :
  match max_sequence c db with
  | Some m => (∃ json, host_events db !! (c, m) = Some json) ∧ ∀ i json, host_events db !! (c, i) = Some json → i ≤ m
  | None => ∀ i, host_events db !! (c, i) = None
  end.
Proof.
  unfold max_sequence. apply (map_fold_weak_ind (λ r (m : gmap (CommandId * Z) Text),
    match r with
    | Some n => (∃ json, m !! (c, n) = Some json) ∧ ∀ i json, m !! (c, i) = Some json → i ≤ n
    | None => ∀ i, m !! (c, i) = None
    end)); [by intros i; rewrite lookup_empty|].
  intros [c' n] json m r Hn Hr. cbn. destruct (decide (c' = c)) as [->|Hne].
  - destruct r as [q|].
    + destruct Hr as [[j Hj] Hq]. split.
      * destruct (Z.max_spec q n) as [[_ ->]|[Hle ->]]; [exists json; by rewrite lookup_insert_eq|].
        exists j. rewrite lookup_insert_ne; [done|]. intros [= ->]. by rewrite Hn in Hj.
      * intros i json' [[[= ->] _]|[_ Hi]]%lookup_insert_Some; [lia|]. specialize (Hq _ _ Hi). lia.
    + split; [exists json; by rewrite lookup_insert_eq|].
      intros i json' [[[= ->] _]|[_ Hi]]%lookup_insert_Some; [lia|]. by rewrite Hr in Hi.
  - assert (∀ i, <[(c', n) := json]> m !! (c, i) = m !! (c, i)) as E
      by (intros i; rewrite lookup_insert_ne; congruence).
    destruct r as [q|]; [|intros i; by rewrite E]. rewrite E. split; [apply Hr|]. intros i j. rewrite E. apply Hr.
Qed.

Lemma max_sequence_log db L c X : events_rep db L → L !! c = Some X → lx_log X ≠ [] →
  max_sequence c db = Some (Z.of_nat (length (lx_log X)) - 1).
Proof.
  intros HR HX Hne. assert (∃ e, lx_log X !! (length (lx_log X) - 1)%nat = Some e) as [e He].
  { apply lookup_lt_is_Some_2. destruct (lx_log X); [done|cbn; lia]. }
  pose proof (lookup_lt_Some _ _ _ He).
  destruct (er_stored _ _ HR _ _ _ _ HX He) as [[json Hj] _].
  assert (host_events db !! (c, Z.of_nat (length (lx_log X)) - 1) = Some json) as Hlast.
  { apply (er_events _ _ HR). exists X, (length (lx_log X) - 1)%nat, e. split_and!; [done..|lia|done]. }
  pose proof (max_sequence_spec c db) as Hs. destruct (max_sequence c db) as [m|]; [|by rewrite Hs in Hlast].
  destruct Hs as [[j Hm] Hle]. apply (er_events _ _ HR) in Hm as (X' & n & e' & HX' & Hn & -> & _).
  simplify_eq. apply lookup_lt_Some in Hn. specialize (Hle _ _ Hlast). f_equal. lia.
Qed.

(** The events from a number on are read in order. *)
Lemma event_rows_log db L c X minimum : events_rep db L → L !! c = Some X → 0 ≤ minimum →
  collect (λ kv, node_decode kv.2) (event_rows c minimum db) = Ok (drop (Z.to_nat minimum) (lx_log X)).
Proof.
  intros HR HX Hm. set (rows := event_rows c minimum db). set (len := Z.of_nat (length (lx_log X))).
  assert (∀ kv, kv ∈ rows ↔ ∃ n e json, lx_log X !! n = Some e ∧ minimum ≤ Z.of_nat n ∧ to_string e = Some json ∧
            kv = ((c, Z.of_nat n), json)) as Hrows.
  { intros [[c' i] json]. unfold rows, event_rows. rewrite elem_of_order_by, elem_of_select. split.
    - intros [Hi Hb]. split_bools. subst. cbn in *. apply (er_events _ _ HR) in Hi as (X' & n & e & HX' & Hn & -> & Hj).
      simplify_eq. eauto 10.
    - intros (n & e & json' & Hn & Hle & Hj & [= -> -> ->]). split; [apply (er_events _ _ HR); eauto 10|].
      cbn. rewrite bool_decide_true by done. by apply Z.leb_le. }
  assert ((λ kv, kv.1.2) <$> rows = seqZ minimum (len - minimum)) as Hseq.
  { unfold rows, event_rows. apply order_by_range.
    - apply NoDup_fmap_2_strong; [|eapply NoDup_fmap_1, NoDup_select].
      intros [[c1 i1] j1] [[c2 i2] j2] H1 H2 E. apply elem_of_select in H1 as [H1 B1], H2 as [H2 B2].
      cbn in *. split_bools. subst. congruence.
    - intros p. rewrite list_elem_of_fmap. split.
      + intros (kv & -> & Hin). rewrite <- (elem_of_order_by (λ kv, kv.1.2)) in Hin.
        apply Hrows in Hin as (n & e & json & Hn & Hle & _ & ->). apply lookup_lt_Some in Hn. cbn. unfold len. lia.
      + intros Hp. assert (∃ e, lx_log X !! Z.to_nat p = Some e) as [e He] by (apply lookup_lt_is_Some_2; unfold len in *; lia).
        destruct (er_stored _ _ HR _ _ _ _ HX He) as [[json Hj] _].
        exists ((c, p), json). split; [done|]. rewrite <- (elem_of_order_by (λ kv, kv.1.2)). apply Hrows.
        exists (Z.to_nat p), e, json. rewrite Z2Nat.id by lia. split_and!; [done|lia|done..]. }
  assert (length rows = Z.to_nat (len - minimum)) as Hlen.
  { by rewrite <- (length_fmap (λ kv, kv.1.2)), Hseq, length_seqZ. }
  assert (∀ j kv, rows !! j = Some kv → ∃ e, lx_log X !! (Z.to_nat minimum + j)%nat = Some e ∧ node_decode kv.2 = Ok e) as Hdec.
  { intros j kv Hj. pose proof (list_elem_of_lookup_2 _ _ _ Hj) as Hin. apply Hrows in Hin as (n & e & json & Hn & Hle & Hs & ->).
    apply (f_equal (λ l, l !! j)) in Hseq. rewrite list_lookup_fmap, Hj in Hseq. cbn in Hseq. symmetry in Hseq.
    apply lookup_seqZ in Hseq as [Hseq _]. exists e. assert (Z.to_nat minimum + j = n)%nat as -> by lia. split; [done|].
    cbn. unfold node_decode. by rewrite (from_to_string _ _ Hs). }
  destruct (collect_total (λ kv, node_decode (A := ExecutionEvent) kv.2) rows) as [r Hr].
  { intros kv [j Hj]%list_elem_of_lookup. destruct (Hdec _ _ Hj) as (e & _ & ?). eauto. }
  rewrite Hr. f_equal. destruct (collect_lookup _ _ _ Hr) as [Hl HL]. apply list_eq. intros j. rewrite lookup_drop.
  destruct (rows !! j) as [kv|] eqn:Hj.
  - destruct (HL _ _ Hj) as (b & Hb & Hd), (Hdec _ _ Hj) as (e & He & Hd'). congruence.
  - apply lookup_ge_None in Hj. rewrite (proj2 (lookup_ge_None r j)) by lia. symmetry. apply lookup_ge_None. unfold len in *. lia.
Qed.

(** ** Writing events *)
Lemma node_constraint_ok b what u db db' : node_constraint b what db = Ok (u, db') ↔ b = true ∧ db' = db.
Proof. apply txn_guard_ok. Qed.

Lemma node_event_ok ch c x n kind u db db' : insert_event ch c x n kind db = Ok (u, db') →
  ∃ e json, x_kind e = kind ∧ x_sequence e = n ∧ x_execution_id e = x ∧ to_string e = Some json ∧ 0 ≤ n ≤ i64_max ∧
    host_events db !! (c, n) = None ∧ db' = with_host_events (<[(c, n) := json]> (host_events db)) db.
Proof.
  unfold insert_event, to_i64, node_encode. intros HT. tx_inv.
  repeat match goal with H : node_constraint _ _ _ = _ |- _ => apply node_constraint_ok in H as [? ->] end. split_bools.
  repeat match goal with H : i64_try_from _ = Some _ |- _ => apply i64_try_from_Some in H as [-> ?] end.
  eexists _, _. split_and!; [| | |eassumption|..]; try done.
Qed.

(** Events are added past the end of an execution, whose row may then be marked as ended. *)
Lemma rep_extend db L c X e json : events_rep db L → L !! c = Some X → to_string e = Some json →
  Z.of_nat (length (lx_log X)) ≤ i64_max →
  events_rep (with_host_events (<[(c, Z.of_nat (length (lx_log X))) := json]> (host_events db)) db) (<[c := extend [e] X]> L).
Proof.
  intros HR HX Hj Hmax. destruct (rep_row _ _ _ _ HR HX) as (row & Hr & [R1 R2 R3 R4 R5 R6 R7 R8 R9 R10]).
  assert (∀ n e', (lx_log X ++ [e]) !! n = Some e' →
    lx_log X !! n = Some e' ∨ n = length (lx_log X) ∧ e' = e) as Hsplit.
  { intros n e' [?|[Hge He]]%lookup_app_Some; [by left|right].
    destruct (n - length (lx_log X))%nat as [|m] eqn:Em; [|by destruct m]. injection He as <-. split; [lia|done]. }
  split; cbn; [..|apply HR].
  - intros c'. destruct (decide (c = c')) as [<-|Hne]; [|rewrite lookup_insert_ne by done; apply HR].
    rewrite lookup_insert_eq, Hr. constructor. by split.
  - intros c' X' [[<- <-]|[_ HX']]%lookup_insert_Some; [cbn; by eapply er_bound|by eapply er_bound].
  - intros c' i json'. rewrite lookup_insert_Some. split.
    + intros [[[= <- <-] <-]|[Hne Hi]].
      * exists (extend [e] X), (length (lx_log X)), e. rewrite lookup_insert_eq. cbn. by rewrite list_lookup_middle.
      * apply (er_events _ _ HR) in Hi as (X' & n & e' & HX' & Hn & -> & Hs). destruct (decide (c = c')) as [<-|Hc].
        -- simplify_eq. exists (extend [e] X), n, e'. rewrite lookup_insert_eq. split_and!; try done. by apply lookup_app_l_Some.
        -- exists X', n, e'. by rewrite lookup_insert_ne.
    + intros (X' & n & e' & HX' & Hn & -> & Hs). apply lookup_insert_Some in HX' as [[<- <-]|[Hc HX']].
      * cbn in Hn. destruct (Hsplit _ _ Hn) as [Hn'|[-> ->]]; [right|left; split; [done|congruence]].
        split; [|apply (er_events _ _ HR); eauto 10]. intros [= E]. apply lookup_lt_Some in Hn'. lia.
      * right. split; [congruence|]. apply (er_events _ _ HR). eauto 10.
  - intros c' X' n e' [[<- <-]|[_ HX']]%lookup_insert_Some Hn; [|by eapply er_stored].
    destruct (Hsplit _ _ Hn) as [Hn'|[-> ->]]; [by eapply er_stored|]. split; [by eexists|done].
Qed.

Lemma insert_event_sound ch c x n kind u db db' L X : events_rep db L → L !! c = Some X →
  n = Z.of_nat (length (lx_log X)) → insert_event ch c x n kind db = Ok (u, db') →
  ∃ e, x_kind e = kind ∧ x_sequence e = n ∧ x_execution_id e = x ∧ events_rep db' (<[c := extend [e] X]> L) ∧
    host_executions db' = host_executions db.
Proof.
  intros HR HX -> HT. destruct (node_event_ok _ _ _ _ _ _ _ _ HT) as (e & json & Hk & Hn & Hx & Hj & Hle & _ & ->).
  exists e. split_and!; [done..|apply rep_extend; try done; lia|done].
Qed.

Lemma extend_extend new1 new2 X : extend new2 (extend new1 X) = extend (new1 ++ new2) X.
Proof. unfold extend. cbn. by rewrite <- app_assoc. Qed.
Lemma extend_nil X : extend [] X = X.
Proof. unfold extend. rewrite app_nil_r. by destruct X. Qed.

Lemma insert_events_sound ch c kinds : ∀ next offset u db db' L X, events_rep db L → L !! c = Some X →
  next + offset = Z.of_nat (length (lx_log X)) → insert_events ch c (execution_of_command c) next offset kinds db = Ok (u, db') →
  ∃ new, x_kind <$> new = kinds ∧ continues c (length (lx_log X)) new ∧ events_rep db' (<[c := extend new X]> L) ∧
    host_executions db' = host_executions db.
Proof.
  induction kinds as [|kind kinds IH]; intros next offset u db db' L X HR HX Hn HT; cbn in HT; tx_inv.
  { exists []. rewrite extend_nil, insert_id by done. split_and!; try done. split; [done|by intros e ?%elem_of_nil]. }
  match goal with H : checked_add_u64 _ _ = Some _ |- _ => apply checked_add_u64_Some in H as [-> _] end.
  rename select (insert_event _ _ _ _ _ _ = _) into Hi. rename select (insert_events _ _ _ _ _ _ _ = _) into Hrest.
  destruct (insert_event_sound _ _ _ _ _ _ _ _ _ _ HR HX Hn Hi) as (e & Hk & Hs & Hx & HR1 & E1).
  destruct (IH next (offset + 1) u _ db' _ (extend [e] X) HR1) as (new & Hks & [C1 C2] & HR2 & E2);
    [by rewrite lookup_insert_eq|cbn; rewrite length_app; cbn; lia|done|].
  exists (e :: new). rewrite insert_insert_eq, extend_extend in HR2. split_and!; [cbn; congruence| |done|congruence].
  split.
  - intros [|i] e' He'; cbn in He'; [injection He' as <-; rewrite Hs, Hn; f_equal; lia|].
    rewrite (C1 _ _ He'). cbn. rewrite length_app. cbn. f_equal. lia.
  - intros e' [->|He']%elem_of_cons; [done|by apply C2].
Qed.

(** ** Streams that go on *)
Lemma stream_extends c X new : execution_wf c X → ends (lx_log X) = false → continues c (length (lx_log X)) new →
  (∀ e, e ∈ new → is_started (x_kind e) = false) →
  (∀ i e, new !! i = Some e → is_terminated (x_kind e) = true → S i = length new) → execution_wf c (extend new X).
Proof.
  intros [HS Hne Hx] Hend [C1 C2] Hst Hte. destruct (lx_log X) as [|e0 l0] eqn:El; [done|]. rewrite <- El in *.
  assert (0 < length (lx_log X))%nat as Hlen by (rewrite El; cbn; lia).
  assert (∀ i e, lx_log X !! i = Some e → is_terminated (x_kind e) = false) as Hrun.
  { intros i e He. destruct (is_terminated (x_kind e)) eqn:Ht; [|done].
    pose proof (sw_terminated _ HS _ _ He Ht) as Hi. unfold ends in Hend. rewrite last_lookup in Hend.
    rewrite <- Hi in Hend. cbn in Hend. rewrite He in Hend. congruence. }
  split; cbn; [|by rewrite El|].
  - split.
    + intros i e [He|[Hge He]]%lookup_app_Some; [by apply HS|]. rewrite (C1 _ _ He). f_equal. lia.
    + assert (∀ e, e ∈ lx_log X ++ new → x_execution_id e = execution_of_command c) as Hall.
      { intros e [?|?]%elem_of_app; auto. }
      intros e1 e2 H1 H2. by rewrite !Hall.
    + intros i e [He|[Hge He]]%lookup_app_Some; [by apply HS|].
      rewrite (Hst e) by by eapply list_elem_of_lookup_2. split; [done|lia].
    + intros i e [He|[Hge He]]%lookup_app_Some Ht; [by rewrite (Hrun _ _ He) in Ht|].
      rewrite length_app, <- (Hte _ _ He Ht). lia.
  - intros e [?|?]%elem_of_app; auto.
Qed.

Lemma ends_app xs ys : ys ≠ [] → ends (xs ++ ys) = ends ys.
Proof. intros Hne. unfold ends. rewrite last_app. destruct (last ys) eqn:E; [done|]. by apply last_None in E. Qed.
Lemma ends_one (e : ExecutionEvent) : ends [e] = is_terminated (x_kind e).
Proof. done. Qed.
(** ** Every transaction is a step *)
(** What a committed event or row leaves to check. *)
Lemma rep_same_tables db L db' : ledger_rep db L →
  host_executions db' = host_executions db → host_events db' = host_events db → last_admission db' = last_admission db →
  (∀ t b, host_tasks db !! t = Some b → is_Some (host_tasks db' !! t)) → ledger_rep db' L.
Proof.
  intros [[H1 H2 H3 H4 H5] HT HW] E1 E2 E3 Ht. split; [split|..]; rewrite ?E1, ?E2, ?E3; try done.
  intros c X HX. destruct (H2 _ _ HX) as [b Hb]. eauto.
Qed.

Lemma rep_extended db db' L c X new : ledger_rep db L → L !! c = Some X → events_rep db' (<[c := extend new X]> L) →
  host_executions db' = host_executions db → ends (lx_log X ++ new) = ends (lx_log X) → execution_wf c (extend new X) →
  ledger_rep db' (<[c := extend new X]> L).
Proof.
  intros [_ HT HW] HX HE E He Hwf. split; [done|..].
  - intros c' row X' Hr [[<- <-]|[_ HX']]%lookup_insert_Some; [|rewrite E in Hr; by eapply HT].
    cbn. rewrite He. rewrite E in Hr. by eapply HT.
  - intros c' X' [[<- <-]|[_ HX']]%lookup_insert_Some; [done|by apply HW].
Qed.

(** One event that does not end its execution. *)
Lemma one_event_moves ch c n kind u db db' L X : ledger_rep db L → L !! c = Some X → ends (lx_log X) = false →
  is_started kind = false → is_terminated kind = false → n = Z.of_nat (length (lx_log X)) →
  insert_event ch c (execution_of_command c) n kind db = Ok (u, db') →
  ∃ e, x_kind e = kind ∧ ledger_step L (<[c := extend [e] X]> L) ∧ ledger_rep db' (<[c := extend [e] X]> L).
Proof.
  intros HR HX Hend Hst Hte Hn HT.
  destruct (insert_event_sound _ _ _ _ _ _ _ _ _ _ (lr_events _ _ HR) HX Hn HT) as (e & Hk & Hs & Hx & HR' & E).
  assert (execution_wf c (extend [e] X)) as Hwf.
  { apply stream_extends; [by apply (lr_wf _ _ HR)|done|split|..].
    - intros [|i] e' He'; [injection He' as <-; rewrite Hs, Hn; f_equal; lia|by destruct i].
    - by intros e' ->%list_elem_of_singleton.
    - intros e' ->%list_elem_of_singleton. by rewrite Hk.
    - intros [|i] e' He' _; [done|by destruct i]. }
  exists e. split_and!; [done|by apply ledger_extends|].
  apply (rep_extended db); [done..| |done]. rewrite ends_app, ends_one, Hk, Hend by done. done.
Qed.


Lemma turn_started_ok ch c u db db' L : ledger_rep db L → append_turn_started_body ch c db = Ok (u, db') →
  ledger_rep db' L ∨ ∃ X e, L !! c = Some X ∧ x_kind e = TurnStarted ∧ ledger_step L (<[c := extend [e] X]> L) ∧ ledger_rep db' (<[c := extend [e] X]> L).
Proof.
  intros HR HT. unfold append_turn_started_body in HT. tx_inv.
  rename select (load_execution _ _ = _) into Hl. destruct (load_execution_ok _ _ _ _ _ HR Hl) as (-> & X & HX & Hd & Hx).
  rewrite Hd in *. rename select (load_event _ _ _ = _) into He. unfold load_event, to_i64 in He. tx_inv. split_bools.
  match goal with H : i64_try_from _ = Some _ |- _ => apply i64_try_from_Some in H as [-> _] end.
  match goal with H : transpose _ ?o = Ok _ |- _ => destruct o as [json|] eqn:Ej end; cbn in *.
  { match goal with H : (_ ≫= _) = Ok _ |- _ => apply result_bind_ok in H as (e & _ & [= <-]) end. tx_inv. by left. }
  simplify_eq. rewrite Hx in *.
  assert (length (lx_log X) = 1%nat) as Hlen.
  { pose proof (xw_begun _ _ (lr_wf _ _ HR _ _ HX)) as Hne. destruct (lx_log X) as [|e0 [|e1 l]] eqn:El; [done..|].
    destruct (er_stored _ _ (lr_events _ _ HR) c X 1%nat e1 HX) as [[json Hj] _]; [by rewrite El|].
    assert (host_events db !! (c, 1) = Some json) as Hs; [|congruence].
    apply (er_events _ _ (lr_events _ _ HR)). exists X, 1%nat, e1. rewrite El. done. }
  rename select (insert_event _ _ _ _ _ _ = _) into Hi.
  edestruct one_event_moves as (e & Hk & HS & HR'); [exact HR|exact HX|..|exact Hi|]; try done; [by rewrite Hlen|].
  right. by exists X, e.
Qed.

Lemma next_sequence_ok db L c X n : ledger_rep db L → L !! c = Some X → next_event_sequence c db = Ok n →
  n = Z.of_nat (length (lx_log X)).
Proof.
  intros HR HX. unfold next_event_sequence.
  rewrite (max_sequence_log _ _ _ _ (lr_events _ _ HR) HX (xw_begun _ _ (lr_wf _ _ HR _ _ HX))).
  intros (m & Hm & Hn)%result_bind_ok. apply ok_or_ok, checked_add_i64_Some in Hm as [-> _].
  unfold to_u64 in Hn. destruct (0 <=? _); simplify_eq. lia.
Qed.

Lemma live_kind kind : is_live kind = true → is_started kind = false ∧ is_terminated kind = false.
Proof. by destruct kind. Qed.

(** A report is recorded at the end of the execution, unless that ended. *)
Lemma progress_ok ch c kind b db db' L : ledger_rep db L → is_live kind = true →
  append_progress_body ch c kind db = Ok (b, db') →
  if b then ∃ X e, L !! c = Some X ∧ x_kind e = kind ∧ ledger_step L (<[c := extend [e] X]> L) ∧ ledger_rep db' (<[c := extend [e] X]> L)
  else db' = db.
Proof.
  intros HR [Hst Hte]%live_kind HT. unfold append_progress_body in HT. tx_inv.
  rename select (load_execution _ _ = _) into Hl. destruct (load_execution_ok _ _ _ _ _ HR Hl) as (-> & X & HX & Hd & Hx).
  rewrite Hd, Hx in *. destruct (ends (lx_log X)) eqn:Hend; tx_inv; [done|].
  rename select (insert_event _ _ _ _ _ _ = _) into Hi.
  match goal with H : next_event_sequence _ _ = Ok _ |- _ => apply (next_sequence_ok _ _ _ _ _ HR HX) in H as -> end.
  edestruct one_event_moves as (e & Hk & HS & HR'); [exact HR|exact HX|..|exact Hi|]; try done. exists X, e. done.
Qed.

Lemma ends_once_spec kinds : ends_once kinds = true →
  kinds ≠ [] ∧ (∀ i k, kinds !! i = Some k → is_terminated k = true → S i = length kinds) ∧
  ∃ k, last kinds = Some k ∧ is_terminated k = true.
Proof.
  unfold ends_once. intros [Hn Hl]%andb_prop. destruct (last kinds) as [k|] eqn:El; [|done].
  apply last_Some in El as [l ->]. rewrite List.filter_app, length_app in Hn. cbn in Hn. rewrite Hl in Hn. cbn in Hn.
  apply Nat.eqb_eq in Hn. split_and!; [by destruct l|..].
  - intros i k' [Hk|[Hge Hk]]%lookup_app_Some Ht.
    + exfalso. apply list_elem_of_lookup_2, list_elem_of_In in Hk. assert (In k' (List.filter is_terminated l)) as Hin by by apply filter_In.
      destruct (List.filter is_terminated l); [done|cbn in Hn; lia].
    + rewrite length_app. cbn. destruct (i - length l)%nat as [|m] eqn:Em; [lia|by destruct m].
  - by exists k.
Qed.

(** ** Occurrences *)
Definition key_is (k : EventKey) (kind : ExecutionEventKind) : bool :=
  match key_of kind with Ok k' => bool_decide (k' = k) | Err _ => false end.
Definition occurs (k : EventKey) (kinds : list ExecutionEventKind) : nat := length (List.filter (key_is k) kinds).

Lemma occurs_app k l1 l2 : occurs k (l1 ++ l2) = (occurs k l1 + occurs k l2)%nat.
Proof. unfold occurs. by rewrite List.filter_app, length_app. Qed.
Lemma occurs_cons k kind l : occurs k (kind :: l) = ((if key_is k kind then 1 else 0) + occurs k l)%nat.
Proof. unfold occurs. cbn. by destruct (key_is k kind). Qed.
#[local] Instance occurs_proper k : Proper ((≡ₚ) ==> (=)) (occurs k).
Proof.
  intros l1 l2 HP. induction HP as [|x l1 l2 _ IH|x y l|l1 l2 l3 _ IH1 _ IH2]; [done|..|congruence]; rewrite ?occurs_cons; lia.
Qed.

Lemma set_count_eq k n m : set_count k n m k = n.
Proof. unfold set_count. by rewrite decide_True. Qed.
Lemma set_count_ne k n m k' : k ≠ k' → set_count k n m k' = m k'.
Proof. intros. unfold set_count. by rewrite decide_False. Qed.
Lemma key_is_eq k kind : key_of kind = Ok k → key_is k kind = true.
Proof. unfold key_is. intros ->. by apply bool_decide_true. Qed.
Lemma key_is_ne k k' kind : key_of kind = Ok k → k ≠ k' → key_is k' kind = false.
Proof. unfold key_is. intros -> ?. by apply bool_decide_false. Qed.

Lemma count_events_spec events : ∀ m m' k, count_events events m = Ok m' → m' k = (m k + occurs k (x_kind <$> events))%nat.
Proof.
  induction events as [|e events IH]; intros m m' k HE; cbn in HE; [injection HE as <-; cbn; lia|].
  apply result_bind_ok in HE as (k0 & Hk & HE). rewrite (IH _ _ k HE). cbn [fmap list_fmap]. rewrite occurs_cons.
  destruct (decide (k0 = k)) as [->|Hne].
  - rewrite set_count_eq, (key_is_eq _ _ Hk). lia.
  - by rewrite set_count_ne, (key_is_ne _ _ _ Hk Hne) by done.
Qed.

Lemma unrecorded_spec kinds : ∀ m rest, unrecorded m kinds = Ok rest →
  rest `sublist_of` kinds ∧ ∀ k, occurs k rest = (occurs k kinds - m k)%nat.
Proof.
  induction kinds as [|kind kinds IH]; intros m rest HE; cbn in HE; [injection HE as <-; split; [constructor|done]|].
  apply result_bind_ok in HE as (k0 & Hk & HE). destruct (m k0) as [|n] eqn:Hm.
  - apply result_bind_ok in HE as (rest' & HE & [= <-]). destruct (IH _ _ HE) as [HS HO]. split; [by constructor|].
    intros k. rewrite !occurs_cons, HO. destruct (decide (k0 = k)) as [->|Hne].
    + rewrite Hm. lia.
    + rewrite (key_is_ne _ _ _ Hk Hne). lia.
  - destruct (IH _ _ HE) as [HS HO]. split; [by constructor|]. intros k. rewrite occurs_cons, HO.
    destruct (decide (k0 = k)) as [->|Hne].
    + rewrite set_count_eq, (key_is_eq _ _ Hk), Hm. lia.
    + rewrite set_count_ne, (key_is_ne _ _ _ Hk Hne) by done. lia.
Qed.

Lemma collect_omap {E A B} (f : A → Result E B) l r : collect f l = Ok r →
  r = omap (λ a, match f a with Ok b => Some b | Err _ => None end) l.
Proof.
  revert r. induction l as [|a l IH]; intros r HE; cbn in HE; [by injection HE as <-|].
  apply result_bind_ok in HE as (b & Hb & (bs & Hbs & [= <-])%result_bind_ok). cbn. rewrite Hb. cbn. f_equal. auto.
Qed.

(** The counts that are loaded are those of the execution's events. *)
Lemma load_recorded_log db L c X m : ledger_rep db L → L !! c = Some X → load_recorded c db = Ok m →
  ∀ k, m k = occurs k (x_kind <$> lx_log X).
Proof.
  intros HR HX HE k. apply result_bind_ok in HE as (events & Hev & HE). rewrite (count_events_spec _ _ _ _ HE). cbn.
  pose proof (event_rows_log _ _ _ _ 0 (lr_events _ _ HR) HX ltac:(done)) as Hlog. cbn in Hlog. rewrite drop_0 in Hlog.
  apply collect_omap in Hev as ->. apply collect_omap in Hlog as ->. apply occurs_proper, fmap_Permutation, omap_Permutation.
  unfold event_rows. rewrite (order_by_Permutation (λ kv : (CommandId * Z) * Text, kv.1.2)).
  apply NoDup_Permutation; [eapply NoDup_fmap_1, NoDup_select..|]. intros [[c' i] json]. rewrite !elem_of_select. cbn.
  rewrite andb_true_iff, Z.leb_le. split; [|naive_solver]. intros [Hi Hb]. split_and!; [done..|].
  apply (er_events _ _ (lr_events _ _ HR)) in Hi as (? & n & ? & _ & _ & -> & _). lia.
Qed.

(** ** The end of a turn *)
Lemma rows_altered db L c (f : NodeExecutionRow → NodeExecutionRow) X X' : events_rep db L → L !! c = Some X →
  (∀ row, host_executions db !! c = Some row → row_rep c row X → row_rep c (f row) X') → lx_task X' = lx_task X → lx_log X' = lx_log X →
  events_rep (with_host_executions (alter f c (host_executions db)) db) (<[c := X']> L).
Proof.
  intros HR HX Hf Et El. split; cbn; [..|apply HR].
  - intros c'. destruct (decide (c = c')) as [<-|Hne].
    + rewrite lookup_alter_eq, lookup_insert_eq. destruct (rep_row _ _ _ _ HR HX) as (row & Hr & Hrow). rewrite Hr. constructor. auto.
    + rewrite lookup_alter_ne, lookup_insert_ne by done. apply HR.
  - intros c' X1 [[<- <-]|[_ ?]]%lookup_insert_Some; [rewrite Et|]; by eapply er_bound.
  - intros c' i json. rewrite (er_events _ _ HR). split; intros (X1 & n & e & HX1 & Hn & ?).
    + destruct (decide (c = c')) as [<-|Hne]; [|exists X1, n, e; by rewrite lookup_insert_ne].
      simplify_eq. exists X', n, e. by rewrite lookup_insert_eq, El.
    + apply lookup_insert_Some in HX1 as [[<- <-]|[_ ?]]; [rewrite El in Hn|]; eauto 10.
  - intros c' X1 n e [[<- <-]|[_ ?]]%lookup_insert_Some Hn; [rewrite El in Hn|]; by eapply er_stored.
Qed.

(** A finished turn: its projected events that were not yet recorded follow, the last of them ends the execution. *)
Lemma finish_ok ch c kinds u db db' L : ledger_rep db L → forallb (λ k, negb (is_started k)) kinds = true →
  finish_body ch c kinds db = Ok (u, db') →
  ∃ X, L !! c = Some X ∧ (ends (lx_log X) = true ∧ db' = db ∨
    ∃ new, ends (lx_log X) = false ∧ ends (lx_log X ++ new) = true ∧
      (∀ k, occurs k (x_kind <$> lx_log X ++ new) = Nat.max (occurs k (x_kind <$> lx_log X)) (occurs k kinds)) ∧
      (x_kind <$> new) `sublist_of` kinds ∧
      ledger_step L (<[c := extend new X]> L) ∧ ledger_rep db' (<[c := extend new X]> L)).
Proof.
  intros HR Hks HT. unfold finish_body in HT. tx_inv.
  rename select (load_execution _ _ = _) into Hl. destruct (load_execution_ok _ _ _ _ _ HR Hl) as (-> & X & HX & Hd & Hx).
  exists X. split; [done|]. rewrite Hd, Hx in *. destruct (ends (lx_log X)) eqn:Hend; tx_inv; [by left|right].
  rename select (unrecorded _ _ = _) into Hu. rename select (load_recorded _ _ = _) into Hm.
  destruct (unrecorded_spec _ _ _ Hu) as [Hsub Hocc]. pose proof (load_recorded_log _ _ _ _ _ HR HX Hm) as Hcount.
  rename select (insert_events _ _ _ _ _ _ _ = _) into Hi. rename select (ends_once _ = true) into Ho.
  match goal with H : next_event_sequence _ _ = Ok _ |- _ => apply (next_sequence_ok _ _ _ _ _ HR HX) in H as -> end.
  destruct (insert_events_sound _ _ _ _ _ _ _ _ _ _ (lr_events _ _ HR) HX (Z.add_0_r _) Hi) as (new & Hk & HC & HR' & E).
  destruct (ends_once_spec _ Ho) as (Hne & Hlast & k0 & Hk0 & Ht0). rewrite <- Hk in *.
  assert (ends new = true) as Hends.
  { unfold ends. rewrite fmap_last in Hk0. destruct (last new) as [e|]; [|done]. injection Hk0 as <-. done. }
  assert (new ≠ []) as Hnew by (by intros ->).
  assert (execution_wf c (extend new X)) as Hwf.
  { apply stream_extends; [by apply (lr_wf _ _ HR)|done..| |].
    - intros e He. apply (list_elem_of_fmap_2 x_kind) in He. pose proof (elem_of_sublist _ _ _ He Hsub) as Hin.
      rewrite forallb_forall in Hks. apply list_elem_of_In, Hks in Hin. by apply negb_true_iff in Hin.
    - intros i e He Ht. rewrite <- (length_fmap x_kind). eapply Hlast; [|exact Ht]. by rewrite list_lookup_fmap, He. }
  exists new. split_and!; [done|by rewrite ends_app| |done|by apply ledger_extends|].
  { intros k. rewrite fmap_app, occurs_app, Hocc, Hcount. lia. }
  split.
  - rewrite <- (insert_insert_eq L c (extend new X) (extend new X)). apply rows_altered with (X := extend new X); try done.
    + by rewrite lookup_insert_eq.
    + intros row _ [R1 R2 R3 R4 R5 R6 R7 R8 R9 R10]. by split.
  - cbn. rewrite E. intros c' row X' Hr [[<- <-]|[Hne' HX']]%lookup_insert_Some.
    + rewrite lookup_alter_eq in Hr. destruct (host_executions db !! c); [|done]. injection Hr as <-. cbn. by rewrite ends_app.
    + rewrite lookup_alter_ne in Hr by done. by eapply (lr_terminal _ _ HR).
  - intros c' X' [[<- <-]|[_ HX']]%lookup_insert_Some; [done|by apply (lr_wf _ _ HR)].
Qed.

(** ** Admission *)
Lemma ensure_binding_ok t b r db db' L : ledger_rep db L → ensure_task_binding t b db = Ok (r, db') →
  ledger_rep db' L ∧ is_Some (host_tasks db' !! t) ∧ host_executions db' = host_executions db ∧
  host_events db' = host_events db ∧ last_admission db' = last_admission db.
Proof.
  intros HR HT. unfold ensure_task_binding in HT. tx_inv. destruct (host_tasks db !! t) as [b0|] eqn:Hb0; cbn in *.
  { destruct (_ || _); tx_inv. by split_and!. }
  destruct (session_owner _ _); tx_inv. split_and!; cbn; try done; [|by rewrite lookup_insert_eq].
  apply (rep_same_tables db); [done..|]. intros t' b' Hb. cbn. rewrite lookup_insert_is_Some'. right. by eexists.
Qed.

Lemma insert_execution_rep db L c t command json n : events_rep db L → L !! c = None → command_id command = c →
  to_string command = Some json → input_ok (input command) = true → is_Some (host_tasks db !! t) → 0 ≤ n →
  events_rep (with_last_admission n (with_host_executions
      (<[c := MkNodeExecutionRow n t json (execution_of_command c) false false None]> (host_executions db)) db))
    (<[c := MkExecution n t command [] false None]> L).
Proof.
  intros HR Hc Hid Hj Hi Ht Hn. split; cbn; [..|done].
  - intros c'. destruct (decide (c = c')) as [<-|Hne]; [|rewrite !lookup_insert_ne by done; apply HR].
    rewrite !lookup_insert_eq. constructor. by split.
  - intros c' X [[<- <-]|[_ ?]]%lookup_insert_Some; [done|by eapply er_bound].
  - intros c' i json'. rewrite (er_events _ _ HR). split; intros (X & m & e & HX & Hm & ?).
    + exists X, m, e. rewrite lookup_insert_ne by congruence. done.
    + apply lookup_insert_Some in HX as [[<- <-]|[_ ?]]; [done|eauto 10].
  - intros c' X m e [[<- <-]|[_ ?]]%lookup_insert_Some Hm; [done|by eapply er_stored].
Qed.

Lemma first_event_wf c X e : lx_log X = [e] → x_kind e = ExecutionStarted → x_sequence e = 0 →
  x_execution_id e = execution_of_command c → execution_wf c X.
Proof.
  intros El Hk Hs Hx. split; rewrite El; [split|done|by intros e' ->%list_elem_of_singleton].
  - intros [|i] e' He'; [injection He' as <-; done|by destruct i].
  - by intros e1 e2 ->%list_elem_of_singleton ->%list_elem_of_singleton.
  - intros [|i] e' He'; [injection He' as <-; by rewrite Hk|by destruct i].
  - intros [|i] e' He'; [done|by destruct i].
Qed.

(** A command is admitted once, with its start; admitted again as it was, it changes nothing. *)
Lemma admit_ok ch t command b record db db' L : ledger_rep db L → input_ok (input command) = true →
  admit_execution ch t command b db = Ok (record, db') →
  let c := command_id command in
  (∃ X, L !! c = Some X ∧ lx_task X = t ∧ lx_command X = command ∧ ledger_rep db' L) ∨
  ∃ X, L !! c = None ∧ lx_task X = t ∧ lx_command X = command ∧ lx_acked X = false ∧ lx_published X = None ∧
    ledger_step L (<[c := X]> L) ∧ ledger_rep db' (<[c := X]> L).
Proof.
  intros HR Hok HT c. unfold admit_execution in HT. fold c in HT. tx_inv.
  rename select (ensure_task_binding _ _ _ = _) into Hb. destruct (ensure_binding_ok _ _ _ _ _ _ HR Hb) as (HR1 & Hbound & E1 & E2 & E3).
  rename select (load_record _ _ = _) into Hl. destruct (L !! c) as [X|] eqn:HX.
  { left. exists X. split; [done|]. destruct (load_record_log _ _ _ _ HR1 HX) as (b' & _ & Hr). rewrite Hr in Hl. injection Hl as <-.
    cbn in *. match goal with H : (if ?b then _ else _) _ = _ |- _ => destruct b eqn:Hbad end; tx_inv.
    apply orb_false_iff in Hbad as [[Hb1 Hb2]%orb_false_iff _]. apply negb_false_iff, bool_decide_eq_true in Hb1, Hb2. done. }
  right. rewrite (load_record_none _ _ _ HR1 HX) in Hl. injection Hl as <-. tx_inv.
  rename select (insert_execution _ _ _ = _) into Hi. unfold insert_execution in Hi. tx_inv.
  repeat match goal with H : node_constraint _ _ _ = _ |- _ => apply node_constraint_ok in H as [? ->] end. split_bools.
  match goal with H : node_encode _ = Ok _ |- _ => apply ok_or_ok in H; rename H into Hj end.
  rename select (insert_event _ _ _ _ _ _ = _) into He. cbn in He.
  pose proof (er_last _ _ (lr_events _ _ HR1)) as Hpos.
  match type of Hpos with 0 ≤ last_admission ?d => set (n := last_admission d + 1) in * end.
  set (X0 := MkExecution n t command [] false None).
  assert (0 ≤ n) as Hn0 by (unfold n; lia).
  pose proof (insert_execution_rep _ _ c t command _ n (lr_events _ _ HR1) HX eq_refl Hj Hok Hbound Hn0) as HE.
  edestruct insert_event_sound as (e & Hk & Hs & Hx & HR2 & E4);
    [exact HE|apply lookup_insert_eq|reflexivity|exact He|]. fold X0 in HR2.
  rewrite insert_insert_eq in HR2. exists (extend [e] X0).
  assert (execution_wf c (extend [e] X0)) as Hwf by by eapply first_event_wf.
  split_and!; [done..|by apply ledger_admits|]. split; [done|..].
  - rewrite E4. cbn. intros c' row X' Hr [[<- <-]|[Hne HX']]%lookup_insert_Some.
    + rewrite lookup_insert_eq in Hr. injection Hr as <-. cbn. unfold ends. cbn. by rewrite Hk.
    + rewrite lookup_insert_ne in Hr by done. by eapply (lr_terminal _ _ HR1).
  - intros c' X' [[<- <-]|[_ HX']]%lookup_insert_Some; [done|by apply (lr_wf _ _ HR1)].
Qed.

(** ** Marks, stops and forgetting *)
Lemma mark_ok f c u db db' L : ledger_rep db L → update_execution f c db = Ok (u, db') →
  (∀ row, ne_terminal (f row) = ne_terminal row) →
  (∀ row X, row_rep c row X → ∃ acked published, row_rep c (f row) (mark acked published X)) →
  ∃ X acked published, L !! c = Some X ∧ ledger_rep db' (<[c := mark acked published X]> L) ∧
    ∃ row, host_executions db !! c = Some row ∧ row_rep c row X ∧ row_rep c (f row) (mark acked published X).
Proof.
  intros HR HT Hter Hf. unfold update_execution, require_one in HT. tx_inv.
  match goal with H : (if Nat.eqb match ?o with _ => _ end 1 then _ else _) = _ |- _ => destruct o as [row|] eqn:Hr; [|done] end.
  destruct (rep_execution _ _ _ _ (lr_events _ _ HR) Hr) as (X & HX & Hrow). destruct (Hf _ _ Hrow) as (acked & published & Hrow').
  exists X, acked, published. split_and!; [done| |by exists row]. split.
  - apply rows_altered with (X := X); try done; [apply HR|]. intros row' Hr' _. by simplify_eq.
  - cbn. intros c' row' X' Hr' [[<- <-]|[Hne HX']]%lookup_insert_Some.
    + rewrite lookup_alter_eq, Hr in Hr'. injection Hr' as <-. rewrite Hter. cbn. by eapply (lr_terminal _ _ HR).
    + rewrite lookup_alter_ne in Hr' by done. by eapply (lr_terminal _ _ HR).
  - intros c' X' [[<- <-]|[_ HX']]%lookup_insert_Some; [|by apply (lr_wf _ _ HR)].
    destruct (lr_wf _ _ HR _ _ HX) as [W1 W2 W3]. by split.
Qed.

(** The cursor only advances. *)
Definition later (old : option Z) (through : Z) : Z :=
  match old with Some n => if n <? through then through else n | None => through end.

Lemma advance_ok c through u db db' L : ledger_rep db L → 0 ≤ through → advance_publication_body c through db = Ok (u, db') →
  ∃ X, L !! c = Some X ∧ ledger_rep db' (<[c := mark (lx_acked X) (Some (later (lx_published X) through)) X]> L).
Proof.
  intros HR Hpos HT. unfold advance_publication_body, to_i64 in HT. tx_inv.
  match goal with H : i64_try_from _ = Some _ |- _ => apply i64_try_from_Some in H as [-> _] end.
  rename select (update_execution _ _ _ = _) into Hu.
  destruct (mark_ok _ _ _ _ _ _ HR Hu) as (X & a & p & HX & HR' & row & Hr & Hrow & Hrow'); [done| |].
  - intros row X [R1 R2 R3 R4 R5 R6 R7 R8 R9 R10]. exists (lx_acked X), (Some (later (lx_published X) through)).
    split; cbn; try done; [by rewrite R8|]. intros n [= <-]. unfold later. destruct (lx_published X) as [m|]; [|done].
    specialize (R10 m eq_refl). destruct (m <? through); lia.
  - exists X. split; [done|]. destruct Hrow as [R1 R2 R3 R4 R5 R6 R7 R8 R9 R10], Hrow' as [P1 P2 P3 P4 P5 P6 P7 P8 P9 P10].
    cbn in *. assert (a = lx_acked X) as <- by congruence.
    assert (p = Some (later (lx_published X) through)) as <-; [|done]. rewrite <- P8, <- R8. done.
Qed.

Lemma ack_ok c b u db db' L : ledger_rep db L → set_admission_ack c b db = Ok (u, db') →
  ∃ X, L !! c = Some X ∧ ledger_rep db' (<[c := mark b (lx_published X) X]> L).
Proof.
  intros HR Hu. destruct (mark_ok _ _ _ _ _ _ HR Hu) as (X & a & p & HX & HR' & row & Hr & Hrow & Hrow'); [done| |].
  - intros row X [R1 R2 R3 R4 R5 R6 R7 R8 R9 R10]. exists b, (lx_published X). by split.
  - exists X. split; [done|]. destruct Hrow as [R1 R2 R3 R4 R5 R6 R7 R8 R9 R10], Hrow' as [P1 P2 P3 P4 P5 P6 P7 P8 P9 P10].
    cbn in *. assert (a = b) as -> by congruence. by assert (p = lx_published X) as -> by congruence.
Qed.

Lemma stop_ok t c r db db' L : ledger_rep db L → record_stop_body t c db = Ok (r, db') →
  ledger_rep db' L ∧ (r = StopRecorded → is_Some (host_stops db' !! c)) ∧
  (r = StopTooLate → ∃ X, L !! c = Some X ∧ lx_task X = t ∧ ends (lx_log X) = true).
Proof.
  intros HR HT. unfold record_stop_body in HT. tx_inv.
  rename select (load_record _ _ = _) into Hl.
  assert (∀ db2, host_executions db2 = host_executions db → host_events db2 = host_events db →
    last_admission db2 = last_admission db → host_tasks db2 = host_tasks db → ledger_rep db2 L) as Hsame.
  { intros db2 E1 E2 E3 E4. apply (rep_same_tables db); try done. intros t' b Hb. rewrite E4. by eexists. }
  destruct (L !! c) as [X|] eqn:HX.
  - destruct (load_record_log _ _ _ _ HR HX) as (b & _ & E). rewrite E in Hl. injection Hl as <-. tx_inv. split_bools. cbn in *.
    destruct (ends (lx_log X)) eqn:Hend; tx_inv; (split; [|split]); try done; [by exists X| |].
    + destruct (host_stops db !! c) eqn:Hs; [done|by apply Hsame].
    + intros _. destruct (host_stops db !! c) eqn:Hs; [by rewrite Hs|cbn; by rewrite lookup_insert_eq].
  - rewrite (load_record_none _ _ _ HR HX) in Hl. injection Hl as <-. tx_inv. (split; [|split]); try done.
    + destruct (host_stops db !! c) eqn:Hs; [done|by apply Hsame].
    + intros _. destruct (host_stops db !! c) eqn:Hs; [by rewrite Hs|cbn; by rewrite lookup_insert_eq].
Qed.

Lemma forget_ok t u db db' L : ledger_rep db L → forget_task_body t db = Ok (u, db') →
  ledger_rep db' (filter (λ kv : CommandId * Execution, lx_task kv.2 ≠ t) L).
Proof.
  intros [HR HT HW] Hu. unfold forget_task_body in Hu. tx_inv. cbn.
  assert (∀ c X, filter (λ kv : CommandId * Execution, lx_task kv.2 ≠ t) L !! c = Some X ↔ L !! c = Some X ∧ lx_task X ≠ t) as HL.
  { intros c X. apply (map_lookup_filter_Some (λ kv : CommandId * Execution, lx_task kv.2 ≠ t)). }
  split; [split|..]; cbn.
  - intros c. destruct (host_executions db !! c) as [row|] eqn:Hr.
    + destruct (rep_execution _ _ _ _ HR Hr) as (X & HX & Hrow). destruct (decide (lx_task X = t)) as [E|Hne].
      * rewrite (proj2 (map_lookup_filter_None _ _ _)), (proj2 (map_lookup_filter_None _ _ _)); [constructor|..]; right;
          intros y Hy Hn; simplify_eq; apply Hn; cbn; rewrite ?(rr_task _ _ _ Hrow); done.
      * rewrite (proj2 (HL c X)) by done. erewrite (proj2 (map_lookup_filter_Some _ _ _ _)); [by constructor|].
        split; [done|]. cbn. by rewrite (rr_task _ _ _ Hrow).
    + rewrite (proj2 (map_lookup_filter_None _ _ _)), (proj2 (map_lookup_filter_None _ _ _)); [constructor|left..]; [|done].
      by apply (rep_absent _ _ _ HR).
  - intros c X [HX Hne]%HL. rewrite lookup_delete_ne by done. by eapply er_bound.
  - intros c i json. rewrite (map_lookup_filter_Some (λ kv : (CommandId * Z) * Text, ne_task <$> host_executions db !! kv.1.1 ≠ Some t)).
    cbn. rewrite (er_events _ _ HR). split.
    + intros [(X & n & e & HX & ?) Hne]. exists X, n, e. split; [|done]. apply HL. split; [done|].
      destruct (rep_row _ _ _ _ HR HX) as (row & Hr & Hrow). rewrite Hr in Hne. cbn in Hne. rewrite (rr_task _ _ _ Hrow) in Hne. congruence.
    + intros (X & n & e & [HX Hne]%HL & ?). split; [eauto 10|].
      destruct (rep_row _ _ _ _ HR HX) as (row & Hr & Hrow). rewrite Hr. cbn. rewrite (rr_task _ _ _ Hrow). congruence.
  - intros c X n e [HX _]%HL. by eapply er_stored.
  - apply HR.
  - intros c row X Hr [HX _]%HL. apply map_lookup_filter_Some in Hr as [Hr _]. by eapply HT.
  - intros c X [HX _]%HL. by apply HW.
Qed.

(** ** Calls in any order *)
Inductive NodeCall :=
| NodeAdmit (t : TaskId) (command : CommandEnvelope) (binding : TargetBinding)
| NodeTurnStarted (c : CommandId)
| NodeProgress (c : CommandId) (kind : ExecutionEventKind)
| NodeFinish (c : CommandId) (kinds : list ExecutionEventKind)
| NodeAdvance (c : CommandId) (through : Z)
| NodeAcknowledge (c : CommandId) (acknowledged : bool)
| NodeStop (t : TaskId) (c : CommandId)
| NodeForget (t : TaskId).

(** A received command was read by its deserializer, a cursor is a [u64], and
    no turn's events hold a second start of the execution. *)
Definition typed_node_call (call : NodeCall) : bool :=
  match call with
  | NodeAdmit _ command _ => input_ok (input command)
  | NodeFinish _ kinds => forallb (λ k, negb (is_started k)) kinds
  | NodeAdvance _ through => 0 <=? through
  | _ => true
  end.

Definition run_node_call ch (call : NodeCall) db : NodeDb :=
  match call with
  | NodeAdmit t command binding => (node_attempt ch (admit_execution ch t command binding) db).2
  | NodeTurnStarted c => (node_attempt ch (append_turn_started_body ch c) db).2
  | NodeProgress c kind => (append_progress ch c kind db).2
  | NodeFinish c kinds => (node_attempt ch (finish_body ch c kinds) db).2
  | NodeAdvance c through => (node_attempt ch (advance_publication_body c through) db).2
  | NodeAcknowledge c b => (node_attempt ch (set_admission_ack c b) db).2
  | NodeStop t c => (node_attempt ch (record_stop_body t c) db).2
  | NodeForget t => (node_attempt ch (forget_task_body t) db).2
  end.
Definition node_lifetime (calls : list (NodeChoice * NodeCall)) db : NodeDb :=
  foldl (λ db call, run_node_call call.1 call.2 db) db calls.

(** A call moves the log by at most one step. *)
Definition ledger_moves_by (call : NodeCall) L db' : Prop :=
  ledger_rep db' L ∨ ∃ L', ledger_step L L' ∧ ledger_rep db' L' ∧
    ∀ c X, L !! c = Some X → L' !! c = None → ∃ t, call = NodeForget t ∧ lx_task X = t.

Lemma node_attempt_ok {A} ch (m : NTx A) db :
  (node_attempt ch m db).2 = db ∧ (∀ a, (node_attempt ch m db).1 ≠ Ok a) ∨
  ∃ a db', m db = Ok (a, db') ∧ node_attempt ch m db = (Ok a, db').
Proof.
  unfold node_attempt, commit. destruct (node_failure ch); [by left|]. destruct (m db) as [[a db']|]; [right; eauto|by left].
Qed.

Lemma insert_keeps L c X X' (call : NodeCall) : ∀ c' X1, L !! c' = Some X1 → <[c := X']> L !! c' = None →
  ∃ t, call = NodeForget t ∧ lx_task X1 = t.
Proof. intros c' X1 H1 [H2 _]%lookup_insert_None. congruence. Qed.

Lemma run_node_call_moves ch call db L : ledger_rep db L → typed_node_call call = true →
  ledger_moves_by call L (run_node_call ch call db).
Proof.
  intros HR Hty. destruct call as [t command b|c|c kind|c kinds|c through|c b|t c|t]; cbn [run_node_call].
  - destruct (node_attempt_ok ch (admit_execution ch t command b) db) as [[-> _]|(r & db' & HT & ->)]; [by left|]. cbn.
    destruct (admit_ok _ _ _ _ _ _ _ _ HR Hty HT) as [(X & _ & _ & _ & HR')|(X & HX & _ & _ & _ & _ & HS & HR')]; [by left|].
    right. eexists. split_and!; [done..|]. by eapply insert_keeps.
  - destruct (node_attempt_ok ch (append_turn_started_body ch c) db) as [[-> _]|(r & db' & HT & ->)]; [by left|]. cbn.
    destruct (turn_started_ok _ _ _ _ _ _ HR HT) as [?|(X & e & HX & _ & HS & HR')]; [by left|].
    right. eexists. split_and!; [done..|]. by eapply insert_keeps.
  - unfold append_progress. destruct (is_live kind) eqn:Hl; [|by left].
    destruct (node_attempt_ok ch (append_progress_body ch c kind) db) as [[-> _]|(r & db' & HT & ->)]; [by left|]. cbn.
    pose proof (progress_ok _ _ _ _ _ _ _ HR Hl HT) as Hp. destruct r; [|by left; rewrite Hp].
    destruct Hp as (X & e & HX & _ & HS & HR'). right. eexists. split_and!; [done..|]. by eapply insert_keeps.
  - destruct (node_attempt_ok ch (finish_body ch c kinds) db) as [[-> _]|(r & db' & HT & ->)]; [by left|]. cbn.
    destruct (finish_ok _ _ _ _ _ _ _ HR Hty HT) as (X & HX & [[_ ->]|(new & _ & _ & _ & _ & HS & HR')]); [by left|].
    right. eexists. split_and!; [done..|]. by eapply insert_keeps.
  - destruct (node_attempt_ok ch (advance_publication_body c through) db) as [[-> _]|(r & db' & HT & ->)]; [by left|]. cbn.
    apply Z.leb_le in Hty. destruct (advance_ok _ _ _ _ _ _ HR Hty HT) as (X & HX & HR').
    right. eexists. split_and!; [by apply ledger_marks|done|]. by eapply insert_keeps.
  - destruct (node_attempt_ok ch (set_admission_ack c b) db) as [[-> _]|(r & db' & HT & ->)]; [by left|]. cbn.
    destruct (ack_ok _ _ _ _ _ _ HR HT) as (X & HX & HR').
    right. eexists. split_and!; [by apply ledger_marks|done|]. by eapply insert_keeps.
  - destruct (node_attempt_ok ch (record_stop_body t c) db) as [[-> _]|(r & db' & HT & ->)]; [by left|]. cbn.
    left. by eapply stop_ok.
  - destruct (node_attempt_ok ch (forget_task_body t) db) as [[-> _]|(r & db' & HT & ->)]; [by left|]. cbn.
    right. eexists. split_and!; [by apply (ledger_forgets _ t)|by eapply forget_ok|]. intros c X HX Hn. exists t. split; [done|].
    apply map_lookup_filter_None in Hn as [?|Hn]; [congruence|]. apply dec_stable. exact (Hn X HX).
Qed.

(** An execution that is not forgotten keeps its command, and its events until it ended. *)
Definition execution_grows X X' : Prop :=
  lx_task X' = lx_task X ∧ lx_command X' = lx_command X ∧ lx_log X `prefix_of` lx_log X' ∧
  (ends (lx_log X) = true → lx_log X' = lx_log X).
#[global] Instance execution_grows_preorder : PreOrder execution_grows.
Proof.
  split; [by intros X; split_and!|]. intros X1 X2 X3 (A1 & B1 & C1 & D1) (A2 & B2 & C2 & D2).
  split_and!; [congruence..|by etrans|]. intros He. rewrite D2; [by apply D1|]. by rewrite D1.
Qed.

Lemma ledger_step_grows L L' c X X' : ledger_step L L' → L !! c = Some X → L' !! c = Some X' → execution_grows X X'.
Proof.
  intros HS HX HX'. destruct HS as [L c0 X0 Hn|L c0 X0 new Hc0 He|L c0 X0 a p Hc0|L t].
  - rewrite lookup_insert_ne in HX' by congruence. by simplify_eq.
  - apply lookup_insert_Some in HX' as [[<- <-]|[_ ?]]; simplify_eq; [|done]. split_and!; cbn; [done..|by eexists|congruence].
  - apply lookup_insert_Some in HX' as [[<- <-]|[_ ?]]; simplify_eq; done.
  - apply map_lookup_filter_Some in HX' as [HX' _]. by simplify_eq.
Qed.

Definition forgets (calls : list (NodeChoice * NodeCall)) (t : TaskId) : Prop := ∃ ch, (ch, NodeForget t) ∈ calls.
Definition typed_node_calls (calls : list (NodeChoice * NodeCall)) : bool := forallb (λ cc, typed_node_call cc.2) calls.

Lemma lifetime_ledger calls : ∀ db L, ledger_rep db L → typed_node_calls calls = true →
  ∃ L', rtc ledger_step L L' ∧ ledger_rep (node_lifetime calls db) L' ∧
    ∀ c X, L !! c = Some X → ¬ forgets calls (lx_task X) → ∃ X', L' !! c = Some X' ∧ execution_grows X X'.
Proof.
  induction calls as [|[ch call] calls IH]; intros db L HR Hty; [exists L; split_and!; [done..|]; intros c X HX _; by exists X|].
  cbn in Hty. split_bools. cbn [node_lifetime foldl fst snd]. fold (node_lifetime calls).
  assert (∃ L1, rtc ledger_step L L1 ∧ ledger_rep (run_node_call ch call db) L1 ∧
    ∀ c X, L !! c = Some X → call ≠ NodeForget (lx_task X) → ∃ X', L1 !! c = Some X' ∧ execution_grows X X') as (L1 & HS1 & HR1 & HG1).
  { destruct (run_node_call_moves ch call db L HR) as [HR1|(L1 & HS & HR1 & Hf)]; [done|exists L; split_and!; [done..|]; intros c X HX _; by exists X|].
    exists L1. split_and!; [by apply rtc_once|done|]. intros c X HX Hne. destruct (L1 !! c) as [X'|] eqn:HX'.
    - exists X'. split; [done|]. by eapply ledger_step_grows.
    - destruct (Hf _ _ HX HX') as (t & -> & <-). done. }
  destruct (IH _ L1 HR1) as (L2 & HS2 & HR2 & HG2); [done|]. exists L2. split_and!; [by etrans|done|].
  intros c X HX Hn. destruct (HG1 c X HX) as (X1 & HX1 & G1); [intros ->; apply Hn; exists ch; left|].
  destruct (HG2 c X1 HX1) as (X2 & HX2 & G2).
  { intros [ch' Hin]. apply Hn. exists ch'. right. destruct G1 as (E & _). by rewrite <- E. }
  exists X2. split; [done|]. by etrans.
Qed.
End theory.
