(* ===== verification/NodeSession.v ===== *)
(** * The running node

    What a node does with a command: it admits it to its ledger, runs it on a
    session of its Host and publishes its events to the coordinator
    ([session.rs], [session/], [execution.rs], [stop.rs], [live.rs],
    [projection.rs], [control.rs], [origin.rs], [agent_targets.rs],
    [agent_link.rs], [bridge.rs], [backoff.rs]), as programs of [Async]: every
    transaction of the ledger, every use of a table behind a mutex, of a
    channel or of the socket is one action. The Host is left to the
    surroundings: how it prepares and ends a turn, what it reports meanwhile
    and the history it keeps. How long a send waits for room in a queue of the
    node and logging are left out. *)
From S2P Require Import Prelude Json Text State Messages Sampling Protocol Transaction Control Identity Browser ControlStore.
From S2P Require Import Async Coordinator NodeLedger.
Declare Scope node_scope.
Open Scope node_scope.

(** ** What a command asks for ([origin.rs], [control.rs], [compact_invocation.rs]) *)
Inductive Speaker := SpeakerPrincipal (principal : N) | SpeakerGuest | SpeakerUnidentified.
Definition speaker (command : CommandEnvelope) : Speaker :=
  match origin command, input_author (input command) with
  | Some _, _ => SpeakerUnidentified
  | None, Principal => SpeakerPrincipal (as_uuid (principal_id command))
  | None, Guest => SpeakerGuest
  end.

Definition MAX_SHOWN_BYTES : Z := 100.   (* [origin::MAX_NAME_BYTES] *)
Definition shown (name : string) : string :=
  truncate name (floor_boundary name (Z.to_nat (Z.min (len name) MAX_SHOWN_BYTES))).
Definition surface_context (o : AgentOrigin) : string :=
  let name := shown (origin_name o) in
  match origin_kind o with
  | Request => "Message from the agent " +:+ name +:+ ". Your answer is sent back to them automatically."
  | Reply => "Reply from the agent " +:+ name +:+ " to a message you sent."
  | Failure => "The agent " +:+ name +:+ " could not answer a message you sent."
  end.
Definition prompt_text (command : CommandEnvelope) : string :=
  let text := input_text (input command) in
  if negb (is_empty (trim text)) then text
  else match origin command with
       | Some o =>
           match origin_kind o with
           | Failure => shown (origin_name o) +:+ " gave no reason."
           | _ => shown (origin_name o) +:+ " finished without a written answer."
           end
       | None => text
       end.

Inductive CompactInvocation := Absent | Bare | WithArguments.
Definition compact_invocation (text : string) : CompactInvocation :=
  match strip_prefix (trim text) "/compact" with
  | Some EmptyString => Bare
  | Some tail => match chars tail with c :: _ => if is_whitespace c then WithArguments else Absent | [] => Absent end
  | None => Absent
  end.

Inductive NodeRequest := RequestTurn | RequestCompact.
(** A refusal is its reason. *)
Definition command_request (command : CommandEnvelope) : Result string NodeRequest :=
  match speaker command with
  | SpeakerPrincipal _ =>
      match compact_invocation (input_text (input command)) with
      | Absent => Ok RequestTurn
      | Bare => Ok RequestCompact
      | WithArguments => Err "/compact takes no extra words. Send /compact on its own to summarize this conversation."
      end
  | _ => Ok RequestTurn
  end.

(** ** Reconnecting ([backoff.rs]), in milliseconds *)
Definition INITIAL_DELAY : Z := 250.
Definition MAX_DELAY : Z := 30000.
Definition next_delay (failures : Z) (stable_connection : bool) : Z * Z :=
  let failures := if stable_connection then 0 else failures in
  let exponent := Z.min failures 7 in
  (Z.min (INITIAL_DELAY * Z.shiftl 1 exponent) MAX_DELAY, Z.min u32_max (failures + 1)).

(** ** Errors ([bridge.rs]) *)
Inductive NodeError :=
| NodeConfiguration (text : string)
| NodeEndpoint (text : string)
| NodeStoreFailed (text : string)
| NodeSerialization
| NodeRejected (code : ErrorCode) (message : string)
| NodeProtocol (text : string)
| NodeTransport (text : string)
| NodeTaskFailed (text : string).
Definition store_failed (e : NodeStoreError) : NodeError := NodeStoreFailed (node_store_error_text e).

(** ** Targets ([agent_targets.rs]) *)
(** [Uuid::parse_str], and the workspace a Host keeps for an agent. *)
Class HostHome := { parse_str : string → option N; agent_workspace : string → Result string PathBuf }.

Section targets.
Context `{HH : HostHome}.
Definition AGENT_PREFIX : string := "agent:".
Definition agent_target (agent : N) : TargetRef := AGENT_PREFIX +:+ uuid_text agent.
Definition target_agent (target : string) : option N :=
  text ← strip_prefix target AGENT_PREFIX;
  id ← parse_str text;
  if String.eqb target (AGENT_PREFIX +:+ uuid_text id) then Some id else None.
Definition workspace_of (agent : N) : Result NodeError PathBuf :=
  match agent_workspace (uuid_text agent) with Ok path => Ok path | Err text => Err (NodeConfiguration text) end.
(** [session] is a fresh identity. *)
Definition proposed_binding (target : TargetRef) (session : N) : Result NodeError TargetBinding :=
  agent ← ok_or (target_agent target)
    (NodeProtocol ("coordinator requested `" +:+ target +:+ "`, which is not a Host agent target"));
  workspace ← workspace_of agent;
  Ok (MkTargetBinding target agent session workspace).
Definition serves (binding : TargetBinding) : bool :=
  bool_decide (target_agent (bound_target binding) = Some (bound_agent binding)) &&
  match workspace_of (bound_agent binding) with Ok path => path_eqb path (bound_workspace binding) | Err _ => false end.
End targets.

(** ** Events of a turn ([projection.rs], [live.rs]) *)
Inductive LocalTurnOutcome :=
| TurnCompleted (output : string) (stop_reason : StopReason)
| TurnCompacted (estimated_input_tokens : Z) (summarized : bool)
| TurnCancelled
| TurnFailed (reason : string)
| TurnWaitingForInput (output : string).

Definition COMPACTED_NOTICE : string :=
  "Earlier messages are summarized now. This conversation continues from that summary.".
Definition UP_TO_DATE_NOTICE : string := "There was nothing new to summarize.".

Section projection.
Context `{JV : JsonValue} {BS : TextSerde (list ContentBlock)}.

Definition project_tool_result (result : ToolResult) : Result NodeError ExecutionEventKind :=
  output ← match result_content result with
           | [BlockText text] => Ok text
           | content => match to_text content with Ok text => Ok text | Err _ => Err NodeSerialization end
           end;
  Ok (ToolFinished (result_call_id result) output (result_is_error result)).

Definition project_block (block : AssistantContent) : option ExecutionEventKind :=
  match block with
  | AssistantText text _ => Some (AssistantMessage text)
  | Reasoning _ _ _ => None
  | AssistantToolCall call => Some (ToolStarted (call_id call) (call_name call) (call_arguments call))
  end.
Fixpoint project_history (messages : list Message) : Result NodeError (list ExecutionEventKind) :=
  match messages with
  | [] => Ok []
  | User _ :: rest => project_history rest
  | Assistant content _ _ _ :: rest => events ← project_history rest; Ok (omap project_block content ++ events)
  | Tool result :: rest =>
      event ← project_tool_result result; events ← project_history rest; Ok (event :: events)
  end.

Definition terminal_event (outcome : LocalTurnOutcome) : ExecutionEventKind :=
  ExecutionTerminated match outcome with
    | TurnCompleted _ _ | TurnCompacted _ _ | TurnWaitingForInput _ => ExecutionCompleted
    | TurnCancelled => ExecutionCancelled "agent turn was cancelled"
    | TurnFailed reason => ExecutionFailed reason
    end.
Definition closing_events (outcome : LocalTurnOutcome) : list ExecutionEventKind :=
  match outcome with
  | TurnCompacted _ summarized => [AssistantMessage (if summarized then COMPACTED_NOTICE else UP_TO_DATE_NOTICE)]
  | _ => []
  end ++ [terminal_event outcome].

Definition is_tool_call (block : AssistantContent) : bool := match block with AssistantToolCall _ => true | _ => false end.
Definition visible_text (block : AssistantContent) : option ExecutionEventKind :=
  match block with AssistantText text _ => Some (AssistantMessage text) | _ => None end.
(** [LiveEvents::complete]. *)
Definition completed_events (event : AgentEvent) : list ExecutionEventKind :=
  match event with
  | ModelRequestEnd response =>
      if existsb is_tool_call (resp_content response) then omap visible_text (resp_content response) else []
  | ToolExecutionStart call => [ToolStarted (call_id call) (call_name call) (call_arguments call)]
  | ToolExecutionEnd _ result => match project_tool_result result with Ok finished => [finished] | Err _ => [] end
  | _ => []
  end.
End projection.

(** ** The state of a node *)
Record NodeFrame := MkNodeFrame { nf_task : TaskId; nf_command : CommandId; nf_activity : LiveActivity }.

Section node.
Context `{NS : NodeSerde}.

Record NodeWorld := MkNodeWorld {
  nw_ledger : NodeDb;
  nw_tokens : gmap CommandId N;     (* [RunningTurns]: the token of each running turn *)
  nw_next_token : N;
  nw_cancelled : gset N;            (* the tokens that were cancelled *)
  nw_commits : Z;
  nw_frames : list NodeFrame;       (* live frames that wait for the session *)
  nw_lagged : bool;                 (* frames were dropped before them *)
  nw_running : gset TaskId;
  nw_up : list ClientMessage;       (* sent on the connection and not yet received *)
  nw_down : list ServerMessage;     (* sent by the coordinator and not yet received *)
}.
Implicit Types (w : NodeWorld).

Definition set_ledger x w : NodeWorld :=
  MkNodeWorld x (nw_tokens w) (nw_next_token w) (nw_cancelled w) (nw_commits w) (nw_frames w) (nw_lagged w)
    (nw_running w) (nw_up w) (nw_down w).
Definition set_tokens x w : NodeWorld :=
  MkNodeWorld (nw_ledger w) x (nw_next_token w) (nw_cancelled w) (nw_commits w) (nw_frames w) (nw_lagged w)
    (nw_running w) (nw_up w) (nw_down w).
Definition set_next_token x w : NodeWorld :=
  MkNodeWorld (nw_ledger w) (nw_tokens w) x (nw_cancelled w) (nw_commits w) (nw_frames w) (nw_lagged w)
    (nw_running w) (nw_up w) (nw_down w).
Definition set_stopped x w : NodeWorld :=
  MkNodeWorld (nw_ledger w) (nw_tokens w) (nw_next_token w) x (nw_commits w) (nw_frames w) (nw_lagged w)
    (nw_running w) (nw_up w) (nw_down w).
Definition set_commits x w : NodeWorld :=
  MkNodeWorld (nw_ledger w) (nw_tokens w) (nw_next_token w) (nw_cancelled w) x (nw_frames w) (nw_lagged w)
    (nw_running w) (nw_up w) (nw_down w).
Definition set_frames x lagged w : NodeWorld :=
  MkNodeWorld (nw_ledger w) (nw_tokens w) (nw_next_token w) (nw_cancelled w) (nw_commits w) x lagged
    (nw_running w) (nw_up w) (nw_down w).
Definition set_running x w : NodeWorld :=
  MkNodeWorld (nw_ledger w) (nw_tokens w) (nw_next_token w) (nw_cancelled w) (nw_commits w) (nw_frames w) (nw_lagged w)
    x (nw_up w) (nw_down w).
Definition set_up x w : NodeWorld :=
  MkNodeWorld (nw_ledger w) (nw_tokens w) (nw_next_token w) (nw_cancelled w) (nw_commits w) (nw_frames w) (nw_lagged w)
    (nw_running w) x (nw_down w).
Definition set_down x w : NodeWorld :=
  MkNodeWorld (nw_ledger w) (nw_tokens w) (nw_next_token w) (nw_cancelled w) (nw_commits w) (nw_frames w) (nw_lagged w)
    (nw_running w) (nw_up w) x.

(** What is ready, of what [serve_session_inner] selects from. *)
Inductive Branch :=
| ReadyShutdown | ReadyRequest | ReadyFrame | ReadyCommit | ReadyCompleted | ReadyRefresh | ReadyAnswer
| ReadyMessage | ReadyDrained.

(** A request of the node's agents or its Host ([agent_link.rs]). *)
Inductive LinkCall :=
| LinkListTargets
| LinkSend (from_command message : CommandId) (n : NodeId) (target : TargetRef) (text : string)
| LinkWake (wake : N) (urgency : WakeUrgency)
| LinkNoticeKeys
| LinkPutNotice (notice : SealedNotice)
| LinkWithdrawNotices (notices : list N).

(** What an action takes from its surroundings. *)
Record NodeChance := MkNodeChance {
  nd_store : NodeChoice;
  nd_branch : Branch;
  nd_draining : bool;                               (* the node was told to drain *)
  nd_send : option string;                          (* a failure of the socket, sending *)
  nd_receive : option NodeError;                    (* a failure of the socket or of a message, receiving *)
  nd_session : N;                                   (* a fresh identity *)
  nd_targets : Result NodeError (list TargetCard);  (* the Host's agents *)
  nd_call : option LinkCall;                        (* a request whose caller still waits *)
  nd_reply : N * HostReply;                         (* an answered Host call *)
  nd_completed : TaskId * Result NodeError unit;    (* a turn that was joined *)
  nd_prepared : option string;                      (* why the Host refused a turn *)
  nd_observed : option string;                      (* why the time was not read *)
  nd_rounds : nat;                                  (* how often a turn reports *)
  nd_event : AgentEvent;                            (* what it reports *)
  nd_activity : option LiveActivity;                (* the live text a report completes *)
  nd_outcome : Result string LocalTurnOutcome;      (* how the Host ended it *)
  nd_history : Result string (list Message);        (* its messages *)
  nd_setup : option string;                         (* a setup link that was not delivered *)
}.
End node.

Abbreviation NP := (Prog NodeWorld NodeChance).

Section actions.
Context `{NS : NodeSerde}.

#[global] Instance node_rooms : Rooms NodeWorld := λ _ _, true.

Definition node_draw {A} (f : NodeChance → A) : NP A := act (λ ch w, (f ch, w)).
(** A transaction of the ledger, and a query. *)
Definition ledger_write {A} (m : NodeChoice → NTx A) : NP (Result NodeError A) :=
  act (λ ch w, let r := node_attempt (nd_store ch) (m (nd_store ch)) (nw_ledger w) in
               (match r.1 with Ok a => Ok a | Err e => Err (store_failed e) end, set_ledger r.2 w)).
Definition ledger_read {A} (q : NodeDb → Result NodeStoreError A) : NP (Result NodeError A) :=
  act (λ ch w, (match node_observe (nd_store ch) q (nw_ledger w) with
                | Ok a => Ok a
                | Err e => Err (store_failed e)
                end, w)).

(** [p.await?]. *)
Definition and_try {E A B} (p : NP (Result E A)) (f : A → NP (Result E B)) : NP (Result E B) :=
  r ← p; match r with Ok a => f a | Err e => mret (Err e) end.
End actions.
Notation "x ←? p ; q" := (and_try p (λ x, q)) (at level 20, p at level 100, q at level 200, only parsing) : node_scope.
Notation "'ok' x" := (mret (Ok x)) (at level 10, only parsing) : node_scope.

(** The length of a message as JSON; [None]: it is not serialized. *)
Class ClientLength `{JV : JsonValue} := client_length : ClientMessage → option Z.

(** * Publishing ([session/publication.rs]) *)
Record Publication := MkPublication {
  pub_record : NodeRecord; admission_in_flight : bool; event_in_flight : option Z }.
Abbreviation Publications := (gmap CommandId Publication).

Definition MAX_APPLICATION_MESSAGE_BYTES : Z := 1024 * 1024.
Definition LIVE_FRAME_CAPACITY : nat := 1024.

Section session.
Context `{NS : NodeSerde} `{LT : LibraryTexts} `{NT : NodeTexts} `{HH : HostHome} `{CL : !ClientLength}.
Context {BS : TextSerde (list ContentBlock)}.
Implicit Types (w : NodeWorld) (pubs : Publications) (t : TaskId) (c : CommandId).

(** [send_client]. *)
Definition send_client (m : ClientMessage) : NP (Result NodeError unit) :=
  act (λ ch w,
    match client_length m, nd_send ch with
    | None, _ => (Err NodeSerialization, w)
    | Some _, Some text => (Err (NodeTransport text), w)
    | Some _, None => (Ok tt, set_up (nw_up w ++ [m]) w)
    end).

(** [receive_server]; [None]: nothing has arrived. *)
Definition receive_server : NP (Result NodeError (option ServerMessage)) :=
  act (λ ch w,
    match nd_receive ch, nw_down w with
    | Some e, _ => (Err e, w)
    | None, m :: rest => (Ok (Some m), set_down rest w)
    | None, [] => (Ok None, w)
    end).

(** The body of the loop of [refresh_publications]. *)
Definition refresh_entry pubs (record : NodeRecord) : Publications :=
  let c := command_id (nr_command record) in
  <[c := match pubs !! c with
         | Some pub => MkPublication record (admission_in_flight pub) (event_in_flight pub)
         | None => MkPublication record false None
         end]> pubs.
Definition refreshed pubs (records : list NodeRecord) : Publications :=
  let pending := (λ record, command_id (nr_command record)) <$> records in
  foldl refresh_entry (filter (λ kv : CommandId * Publication, kv.1 ∈ pending) pubs) records.
Definition refresh_publications pubs : NP (Result NodeError Publications) :=
  records ←? ledger_read load_pending_publications;
  ok (refreshed pubs records).

Definition send_live (frame : NodeFrame) : NP (Result NodeError unit) :=
  send_client (MPublishLiveActivity (nf_task frame) (nf_command frame) (nf_activity frame)).

(** [try_recv] of the live channel; [Some None] is a report of dropped frames. *)
Definition try_frame : NP (option (option NodeFrame)) :=
  act (λ _ w,
    if nw_lagged w then (Some None, set_frames (nw_frames w) false w)
    else match nw_frames w with
         | frame :: rest => (Some (Some frame), set_frames rest false w)
         | [] => (None, w)
         end).

(** The loop of [send_waiting_live]. *)
Fixpoint send_frames (n : nat) : NP (Result NodeError unit) :=
  match n with
  | O => ok tt
  | S n =>
      received ← try_frame;
      match received with
      | Some (Some frame) => _ ←? send_live frame; send_frames n
      | Some None => send_frames n
      | None => ok tt
      end
  end.
Definition send_waiting_live : NP (Result NodeError unit) := send_frames (S LIVE_FRAME_CAPACITY).

(** The loop of [publication_batch]. *)
Fixpoint batch_from_events t c (batch events : list ExecutionEvent) : Result NodeError (list ExecutionEvent) :=
  match events with
  | [] => Ok batch
  | event :: rest =>
      length ← ok_or (client_length (MPublishExecutionEvents t c (batch ++ [event]))) NodeSerialization;
      if MAX_APPLICATION_MESSAGE_BYTES <? length
      then match batch with
           | [] => Err (NodeProtocol ("execution event " +:+ show_id (x_event_id event) +:+
                     " exceeds the RCP WebSocket message limit"))
           | _ => Ok batch
           end
      else batch_from_events t c (batch ++ [event]) rest
  end.
Definition publication_batch t c (events : list ExecutionEvent) : Result NodeError (list ExecutionEvent) :=
  batch_from_events t c [] events.

Definition set_admission_flight (b : bool) (pub : Publication) : Publication :=
  MkPublication (pub_record pub) b (event_in_flight pub).
Definition set_event_flight (o : option Z) (pub : Publication) : Publication :=
  MkPublication (pub_record pub) (admission_in_flight pub) o.

(** The loop of [send_pending] over the publications in their order. *)
Fixpoint send_each (ordered : list CommandId) (blocked : gset TaskId) pubs : NP (Result NodeError Publications) :=
  match ordered with
  | [] => ok pubs
  | c :: rest =>
      match pubs !! c with
      | None => mret (Err (NodeProtocol ("pending publication " +:+ show_id c +:+ " disappeared during scheduling")))
      | Some pub =>
          let record := pub_record pub in
          let t := nr_task record in
          pubs ←? (if negb (admission_acked record) && negb (admission_in_flight pub)
                   then _ ←? send_client (MAcknowledgeExecution t c); ok (alter (set_admission_flight true) c pubs)
                   else ok pubs);
          if decide (t ∈ blocked) then send_each rest blocked pubs
          else match event_in_flight pub with
          | Some _ => send_each rest ({[t]} ∪ blocked) pubs
          | None =>
              events ←? ledger_read (load_events_after c (published_through record));
              batch ←? mret (publication_batch t c events);
              match last batch with
              | None => send_each rest (if nr_terminal record then blocked else {[t]} ∪ blocked) pubs
              | Some event =>
                  _ ←? send_waiting_live;
                  _ ←? send_client (MPublishExecutionEvents t c batch);
                  send_each rest ({[t]} ∪ blocked) (alter (set_event_flight (Some (x_sequence event))) c pubs)
              end
          end
      end
  end.
(** By task and admission. *)
Definition publication_order pubs : list CommandId :=
  fst <$> merge_sort (le_by_task (λ kv : CommandId * Publication,
            (nr_task (pub_record kv.2), admission_sequence (pub_record kv.2)))) (map_to_list pubs).
Definition send_pending pubs : NP (Result NodeError Publications) := send_each (publication_order pubs) ∅ pubs.

(** * Turns ([execution.rs], [live.rs], [stop.rs]) *)
Definition signal_commit : NP unit := modify (λ w, set_commits ((nw_commits w + 1) `mod` (u64_max + 1)) w).

(** ** Tokens *)
Definition register_turn c : NP N :=
  act (λ _ w, let token := nw_next_token w in
              (token, set_tokens (<[c := token]> (nw_tokens w)) (set_next_token (token + 1)%N w))).
(** [Registration]'s [Drop]. *)
Definition unregister_turn c : NP unit := modify (λ w, set_tokens (delete c (nw_tokens w)) w).
Definition cancel_token (token : N) : NP unit := modify (λ w, set_stopped ({[token]} ∪ nw_cancelled w) w).
Definition token_cancelled (token : N) : NP bool := look (λ w, bool_decide (token ∈ nw_cancelled w)).
(** [RunningTurns::cancel]. *)
Definition cancel_turn c : NP unit :=
  modify (λ w, match nw_tokens w !! c with
               | Some token => set_stopped ({[token]} ∪ nw_cancelled w) w
               | None => w
               end).

(** [NodeRuntime::stop]. *)
Definition runtime_stop t c : NP (Result NodeError StopRecord) :=
  record ←? ledger_write (λ _, record_stop_body t c);
  _ ← if decide (record = StopRecorded) then cancel_turn c else mret tt;
  ok record.

(** ** Reports *)
Definition progress_write c (kind : ExecutionEventKind) : NP (Result NodeStoreError bool) :=
  act (λ ch w, let r := append_progress (nd_store ch) c kind (nw_ledger w) in (r.1, set_ledger r.2 w)).

(** [LiveEvents::record], with the turn's ledger. *)
Definition record_live c (kind : ExecutionEventKind) (l : LiveLedger) : NP LiveLedger :=
  match ledger_admit kind l with
  | Ok (true, l) =>
      r ← progress_write c kind;
      _ ← match r with Ok true => signal_commit | _ => mret tt end;
      mret l
  | Ok (false, l) => mret l
  | Err _ => mret l
  end.
Fixpoint record_all c (kinds : list ExecutionEventKind) (l : LiveLedger) : NP LiveLedger :=
  match kinds with
  | [] => mret l
  | kind :: rest => l ← record_live c kind l; record_all c rest l
  end.
(** [send_live] of [LiveEvents], into the live channel: beyond its capacity the oldest frame is dropped. *)
Definition queue_frame (frame : NodeFrame) : NP unit :=
  modify (λ w, let frames := nw_frames w ++ [frame] in
    if (LIVE_FRAME_CAPACITY <? length frames)%nat then set_frames (tail frames) true w
    else set_frames frames (nw_lagged w) w).
(** [emit]. *)
Definition emit_live t c (event : AgentEvent) (activity : option LiveActivity) (l : LiveLedger) : NP LiveLedger :=
  _ ← match activity with Some a => queue_frame (MkNodeFrame t c a) | None => mret tt end;
  record_all c (completed_events event) l.
(** The turn runs: it reports, round by round. *)
Fixpoint turn_reports (n : nat) t c (l : LiveLedger) : NP unit :=
  match n with
  | O => mret tt
  | S n =>
      _ ← wait;
      report ← node_draw (λ ch, (nd_event ch, nd_activity ch));
      l ← emit_live t c report.1 report.2 l;
      turn_reports n t c l
  end.

(** ** One command *)
Definition finish_unstarted c (events : list ExecutionEventKind) : NP (Result NodeError unit) :=
  _ ←? ledger_write (λ ch, finish_body ch c events);
  _ ← signal_commit;
  ok tt.
Definition finish_failed c (error : string) : NP (Result NodeError unit) :=
  finish_unstarted c [ExecutionTerminated (ExecutionFailed error)].

Definition session_events : NP (Result NodeError (list ExecutionEventKind)) :=
  history ← node_draw nd_history;
  match history with
  | Err error => mret (Err (NodeTaskFailed ("Host history projection failed: " +:+ error)))
  | Ok messages => mret (project_history messages)
  end.

(** The turn's outcome, after its reports; the outer error is the node's. *)
Definition run_request (request : NodeRequest) t c (l : LiveLedger)
    : NP (Result NodeError (Result string LocalTurnOutcome)) :=
  observed ← match request with RequestTurn => node_draw nd_observed | RequestCompact => mret None end;
  match observed with
  | Some error => mret (Err (NodeTaskFailed error))
  | None =>
      rounds ← node_draw nd_rounds;
      _ ← turn_reports rounds t c l;
      _ ← wait;
      result ← node_draw nd_outcome;
      ok result
  end.

Definition execute_registered (record : NodeRecord) (token : N) : NP (Result NodeError unit) :=
  let c := command_id (nr_command record) in
  stopped ←? ledger_read (λ db, Ok (stop_requested c db));
  _ ← if (stopped : bool) then cancel_token token else mret tt;
  match command_request (nr_command record) with
  | Err reason =>
      cancelled ← token_cancelled token;
      if (cancelled : bool) then finish_unstarted c (closing_events TurnCancelled) else finish_failed c reason
  | Ok request =>
      prepared ← node_draw nd_prepared;
      match prepared with
      | Some error => finish_failed c error
      | None =>
          _ ←? ledger_write (λ ch, append_turn_started_body ch c);
          _ ← signal_commit;
          l ←? ledger_read (live_ledger c);
          result ←? run_request request (nr_task record) c l;
          setup_failure ← node_draw nd_setup;
          events ←? session_events;
          let closing := match result, setup_failure with
            | Err error, _ => [ExecutionTerminated (ExecutionFailed error)]
            | Ok _, Some error => [ExecutionTerminated (ExecutionFailed error)]
            | Ok outcome, None => closing_events outcome
            end in
          _ ←? ledger_write (λ ch, finish_body ch c (events ++ closing));
          _ ← signal_commit;
          ok tt
      end
  end.
Definition execute (record : NodeRecord) : NP (Result NodeError unit) :=
  let c := command_id (nr_command record) in
  token ← register_turn c;
  result ← execute_registered record token;
  _ ← unregister_turn c;
  mret result.

(** The loop of [schedule_pending]. *)
Fixpoint schedule_each (records : list NodeRecord) : NP unit :=
  match records with
  | [] => mret tt
  | record :: rest =>
      fresh ← act (λ _ w, if decide (nr_task record ∈ nw_running w) then (false, w)
                          else (true, set_running ({[nr_task record]} ∪ nw_running w) w));
      _ ← if (fresh : bool) then spawn (_ ← execute record; mret tt) else mret tt;
      schedule_each rest
  end.
Definition schedule_pending : NP (Result NodeError unit) :=
  records ←? ledger_read load_unfinished;
  _ ← schedule_each records;
  ok tt.
(** A joined turn frees its task. *)
Definition finish_execution (t : TaskId) (result : Result NodeError unit) : NP (Result NodeError unit) :=
  _ ← modify (λ w, set_running (nw_running w ∖ {[t]}) w);
  mret result.

#[global] Instance TargetCard_eq_dec : EqDecision TargetCard.
Proof. solve_decision. Defined.

(** * The session ([session.rs], [session/host_calls.rs], [agent_link.rs]) *)
Record SessionState := MkSessionState {
  ss_publications : Publications;
  ss_waiting : gset Z;                      (* [LinkSession]: requests that wait for an answer *)
  ss_next : Z;
  ss_calls : list N;                        (* [HostCalls]: calls that are running *)
  ss_advertised : option (list TargetCard);
}.
Definition with_publications pubs (st : SessionState) : SessionState :=
  MkSessionState pubs (ss_waiting st) (ss_next st) (ss_calls st) (ss_advertised st).

(** [LinkSession::next_message]. *)
Definition link_message (request : Z) (call : LinkCall) : ClientMessage :=
  match call with
  | LinkListTargets => MListTargets request
  | LinkSend from_command message n target text => MSendAgentMessage request from_command message n target text
  | LinkWake wake urgency => MRequestWake request wake urgency
  | LinkNoticeKeys => MListNoticeKeys request
  | LinkPutNotice notice => MPutNotice request notice
  | LinkWithdrawNotices notices => MWithdrawNotices request notices
  end.
Definition link_next (call : LinkCall) (st : SessionState) : ClientMessage * SessionState :=
  let request := ss_next st in
  (link_message request call,
   MkSessionState (ss_publications st) ({[request]} ∪ ss_waiting st) (request + 1) (ss_calls st) (ss_advertised st)).
(** [LinkSession::answer]. *)
Definition link_answer (request : Z) (st : SessionState) : Result NodeError SessionState :=
  if decide (request ∈ ss_waiting st)
  then Ok (MkSessionState (ss_publications st) (ss_waiting st ∖ {[request]}) (ss_next st) (ss_calls st) (ss_advertised st))
  else Err (NodeProtocol ("coordinator answered request " +:+ show request +:+ ", which this node did not make")).

(** [Reply::failure] and [Reply::too_large] ([host_control/reply.rs]). *)
Definition host_failure (status : Z) (code message : string) : HostReply :=
  MkHostReply status
    match render (JObject [("code", JString code); ("message", JString message)]) with Ok body => body | Err _ => "" end.
Definition too_large : HostReply :=
  host_failure 502 "host_reply_too_large" "Your Host's answer is too large to relay.".
(** [answer]: an answer that is too large is replaced by a fixed one. *)
Definition host_answer (call : N) (reply : HostReply) : ClientMessage :=
  let message := MCompleteHostCall call (reply_status reply) (reply_body reply) in
  let replaced := MCompleteHostCall call (reply_status too_large) (reply_body too_large) in
  match client_length message with
  | Some n => if n <=? MAX_APPLICATION_MESSAGE_BYTES then message else replaced
  | None => replaced
  end.

Definition advertise (st : SessionState) : NP (Result NodeError SessionState) :=
  targets ← node_draw nd_targets;
  match targets with
  | Err _ => ok st
  | Ok targets =>
      if decide (ss_advertised st = Some targets) then ok st
      else
        _ ←? send_client (MAdvertiseTargets targets);
        ok (MkSessionState (ss_publications st) (ss_waiting st) (ss_next st) (ss_calls st) (Some targets))
  end.

Definition stop_handler t c : NP (Result NodeError unit) :=
  _ ←? runtime_stop t c;
  send_client (MAcknowledgeStop t c).

Definition events_accepted c (through : Z) pubs : NP (Result NodeError Publications) :=
  pub ←? mret (ok_or (pubs !! c)
    (NodeProtocol ("received event acknowledgement for unknown command " +:+ show_id c)));
  expected ←? mret (ok_or (event_in_flight pub)
    (NodeProtocol ("received unsolicited event acknowledgement for command " +:+ show_id c)));
  if negb (through =? expected)
  then mret (Err (NodeProtocol ("event acknowledgement for command " +:+ show_id c +:+ " ended at sequence " +:+
         show through +:+ ", expected " +:+ show expected)))
  else
    _ ←? ledger_write (λ _, advance_publication_body c through);
    let record := pub_record pub in
    let record := MkNodeRecord (admission_sequence record) (nr_task record) (nr_command record) (nr_execution record)
      (nr_binding record) (admission_acked record) (nr_terminal record) (Some through) in
    refresh_publications (<[c := MkPublication record (admission_in_flight pub) None]> pubs).

Definition acknowledge_admission c pubs : NP (Result NodeError Publications) :=
  pub ←? mret (ok_or (pubs !! c)
    (NodeProtocol ("received admission acknowledgement for unknown command " +:+ show_id c)));
  if negb (admission_in_flight pub)
  then mret (Err (NodeProtocol ("received unsolicited admission acknowledgement for command " +:+ show_id c)))
  else
    _ ←? ledger_write (λ _, set_admission_ack c true);
    let record := pub_record pub in
    let record := MkNodeRecord (admission_sequence record) (nr_task record) (nr_command record) (nr_execution record)
      (nr_binding record) true (nr_terminal record) (published_through record) in
    refresh_publications (<[c := MkPublication record false (event_in_flight pub)]> pubs).

Definition handle_execute t (command : CommandEnvelope) : NP (Result NodeError unit) :=
  draining ← node_draw nd_draining;
  if (draining : bool) then ok tt
  else
    session ← node_draw nd_session;
    binding ←? mret (proposed_binding (target command) session);
    _ ←? ledger_write (λ ch, admit_execution ch t command binding);
    _ ←? ledger_write (λ _, set_admission_ack (command_id command) false);
    _ ← signal_commit;
    schedule_pending.

Definition surface_only : NodeError := NodeProtocol "coordinator sent a surface-only message to a node".

Definition handle_server_message (m : ServerMessage) (st : SessionState) : NP (Result NodeError SessionState) :=
  let pubs := ss_publications st in
  match m with
  | SExecute t command =>
      _ ←? handle_execute t command;
      pubs ←? refresh_publications pubs;
      pubs ←? send_pending pubs;
      ok (with_publications pubs st)
  | SExecutionAcknowledged c => pubs ←? acknowledge_admission c pubs; ok (with_publications pubs st)
  | SExecutionEventsAccepted c through =>
      pubs ←? events_accepted c through pubs;
      pubs ←? send_pending pubs;
      ok (with_publications pubs st)
  | SStop t c => _ ←? stop_handler t c; ok st
  | SHostCall call _ _ =>
      ok (MkSessionState pubs (ss_waiting st) (ss_next st) (call :: ss_calls st) (ss_advertised st))
  | STargetList request _ | SNoticeKeys request _ => mret (link_answer request st)
  | SCommandAccepted request _ | SWakeRequested request | SNoticePut request | SNoticesWithdrawn request =>
      mret (link_answer request st)
  | SError (Some request) _ _ => mret (link_answer request st)
  | SError None code message => mret (Err (NodeRejected code message))
  | SAuthenticated _ | SDeviceChallenge _ | SDeviceList _ _ | SDeviceRevoked _ _ | SEnrolled _ _ | STaskList _ _
  | STaskOpened _ _ | STaskDeleted _ _ | SAttached _ _ _ | SStopAccepted _ _ _ | SHostAnswer _ _
  | SShareLinkIssued _ _ | SPushTokenSet _ | SPushTokenCleared _ | SNoticeKeySet _ | SNoticeList _ _
  | SNoticeAcknowledged _ | SLiveActivity _ _ | STaskEvent _ => mret (Err surface_only)
  end.

(** One turn of the loop of [serve_session_inner]; [None]: the session ends. *)
Definition serve_branch (b : Branch) (st : SessionState) : NP (Result NodeError (option SessionState)) :=
  match b with
  | ReadyShutdown => ok None
  | ReadyRequest =>
      call ← node_draw nd_call;
      match call with
      | Some call => let '(m, st) := link_next call st in _ ←? send_client m; ok (Some st)
      | None => ok (Some st)
      end
  | ReadyFrame =>
      received ← try_frame;
      match received with
      | Some (Some frame) => _ ←? send_live frame; ok (Some st)
      | _ => ok (Some st)
      end
  | ReadyCommit =>
      pubs ←? refresh_publications (ss_publications st);
      pubs ←? send_pending pubs;
      ok (Some (with_publications pubs st))
  | ReadyCompleted =>
      completed ← node_draw nd_completed;
      _ ←? finish_execution completed.1 completed.2;
      _ ←? schedule_pending;
      ok (Some st)
  | ReadyRefresh => st ←? advertise st; ok (Some st)
  | ReadyAnswer =>
      reply ← node_draw nd_reply;
      if decide (reply.1 ∈ ss_calls st)
      then
        _ ←? send_client (host_answer reply.1 reply.2);
        ok (Some (MkSessionState (ss_publications st) (ss_waiting st) (ss_next st)
                    (List.filter (λ call, negb (call =? reply.1)%N) (ss_calls st)) (ss_advertised st)))
      else ok (Some st)
  | ReadyMessage =>
      message ←? receive_server;
      match message with
      | Some m => st ←? handle_server_message m st; ok (Some st)
      | None => ok (Some st)
      end
  | ReadyDrained => ok None
  end.

(** The loop, for [n] turns of it. *)
Fixpoint serve_loop (n : nat) (st : SessionState) : NP (Result NodeError unit) :=
  match n with
  | O => ok tt
  | S n =>
      _ ← wait;
      branch ← node_draw nd_branch;
      next ←? serve_branch branch st;
      match next with Some st => serve_loop n st | None => ok tt end
  end.

(** Before the loop. *)
Definition authenticate (credentials : DeviceCredentials) : NP (Result NodeError unit) :=
  _ ←? send_client (MAuthenticate JSON_WS_VERSION credentials);
  _ ← wait;
  message ←? receive_server;
  match message with
  | Some (SAuthenticated version) =>
      if version =? JSON_WS_VERSION then ok tt
      else mret (Err (NodeProtocol "coordinator did not authenticate the node"))
  | Some (SError _ code text) => mret (Err (NodeRejected code text))
  | _ => mret (Err (NodeProtocol "coordinator did not authenticate the node"))
  end.
Definition begin_session : NP (Result NodeError SessionState) :=
  st ←? advertise (MkSessionState ∅ ∅ 1 [] None);
  _ ←? send_client MServeHostControl;
  pubs ←? refresh_publications ∅;
  pubs ←? send_pending pubs;
  ok (with_publications pubs st).
Definition serve_session (credentials : DeviceCredentials) (n : nat) : NP (Result NodeError unit) :=
  _ ←? authenticate credentials;
  st ←? begin_session;
  serve_loop n st.
End session.
