(* ===== verification/NodeTheorems.v ===== *)
(** * The node: theorems

    What a ledger keeps over any sequence of calls; that a turn that is driven
    again records each of its events once; and the node and the coordinator
    together: whatever their programs, the connection and restarts do, the
    journal of a command follows the node's ledger. *)
From S2P Require Import Prelude Json Text State Messages Sampling Protocol Transaction Control Identity Browser ControlStore.
From S2P Require Import IdentitySound Journals ControlRep ControlPublish ControlRuns ControlReads ControlDelivery ControlTheorems.
From S2P Require Import Async Coordinator NodeLedger NodeSession.
Section ledger_theorems.
Context `{NS : NodeSerde} `{LT : LibraryTexts} `{NT : NodeTexts} `{!ControlSerdeLaws} `{!NodeSerdeLaws}.
Implicit Types (db : NodeDb) (ch : NodeChoice) (L : NodeLog) (X : Execution) (c : CommandId) (t : TaskId).

(** A new ledger file. *)
Definition new_ledger : NodeDb := (commit initialize_version empty_ledger).2.

Lemma new_ledger_rep : ledger_rep new_ledger ∅.
Proof. apply empty_ledger_rep. Qed.

(** C21. Whatever a node's tasks call, in any order and with any of the
    transactions failing, its ledger stands for executions: the events of each
    are one stream, numbered from zero without a gap, begun by its start and
    ended by at most one terminal event, which is its last and which the
    terminal flag agrees with. An execution keeps its task and its command, its
    events only grow, and not after it ended, until its task is forgotten. *)
Theorem node_ledger_grows calls1 calls2 : typed_node_calls (calls1 ++ calls2) = true →
  ∃ L1 L2, ledger_rep (node_lifetime calls1 new_ledger) L1 ∧ ledger_rep (node_lifetime (calls1 ++ calls2) new_ledger) L2 ∧
    (∀ c X, L2 !! c = Some X → execution_wf c X) ∧
    ∀ c X1, L1 !! c = Some X1 → ¬ forgets calls2 (lx_task X1) → ∃ X2, L2 !! c = Some X2 ∧ execution_grows X1 X2.
Proof.
  unfold typed_node_calls. rewrite forallb_app. intros [H1 H2]%andb_prop.
  destruct (lifetime_ledger calls1 new_ledger ∅ new_ledger_rep H1) as (L1 & _ & HR1 & _).
  destruct (lifetime_ledger calls2 _ L1 HR1 H2) as (L2 & _ & HR2 & HG).
  exists L1, L2. unfold node_lifetime at 2. rewrite foldl_app. split_and!; [done..|apply (lr_wf _ _ HR2)|exact HG].
Qed.
End ledger_theorems.

(** ** Reports of a turn *)
Section reports.
Context `{NS : NodeSerde} `{LT : LibraryTexts} `{NT : NodeTexts} `{!ControlSerdeLaws} `{!NodeSerdeLaws}.
Implicit Types (db : NodeDb) (L : NodeLog) (X : Execution) (c : CommandId) (t : TaskId) (w : NodeWorld) (l : LiveLedger).

(** A program run alone, with one choice of its surroundings. *)
Fixpoint run_with {A} (ch : NodeChance) (p : NP A) w : A * NodeWorld :=
  match p with
  | Done a => (a, w)
  | Act _ f k => run_with ch (k (f ch w).1) (f ch w).2
  | Acquire k | Release k | Wait k => run_with ch k w
  | Spawn _ k => run_with ch k w
  end.

(** What happens while a turn of [c], of task [t], runs: it reports an event, or something else uses the ledger. *)
Inductive TurnItem := Report (ch : NodeChance) (kind : ExecutionEventKind) | Beside (ch : NodeChoice) (call : NodeCall).
Definition turn_item c (s : LiveLedger * NodeWorld) (item : TurnItem) : LiveLedger * NodeWorld :=
  match item with
  | Report ch kind => run_with ch (record_live c kind s.1) s.2
  | Beside ch call => (s.1, set_ledger (run_node_call ch call (nw_ledger s.2)) s.2)
  end.
Definition reports (items : list TurnItem) : list ExecutionEventKind :=
  omap (λ item, match item with Report _ kind => Some kind | Beside _ _ => None end) items.
Definition item_ok c t (item : TurnItem) : bool :=
  match item with
  | Report _ kind => is_live kind
  | Beside _ call =>
      typed_node_call call &&
      match call with
      | NodeProgress c' _ | NodeFinish c' _ => negb (bool_decide (c' = c))
      | NodeForget t' => negb (bool_decide (t' = t))
      | _ => true
      end
  end.

(** A turn that is driven again and again, each time from what the ledger
    holds; [drives] are the reports of each drive. A drive may be cut off
    anywhere and a later one may report other events: a model that is asked
    again may answer otherwise. *)
Inductive attempts c t : list (list ExecutionEventKind) → NodeWorld → NodeWorld → Prop :=
| attempts_end w : attempts c t [] w w
| attempts_again w l items drives w' :
    live_ledger c (nw_ledger w) = Ok l → forallb (item_ok c t) items = true →
    attempts c t drives (foldl (turn_item c) (l, w) items).2 w' → attempts c t (reports items :: drives) w w'.

(** How often the drive that reported an event most did so. *)
Definition most_reported (k : EventKey) (drives : list (list ExecutionEventKind)) : nat := max_list_with (occurs k) drives.

Definition live_key (k : EventKey) : bool := match k with KeyOther _ => false | _ => true end.

(** Occurrences of a live key that a call beside the turn cannot add. *)
Lemma other_kind_occurs k kind : live_key k = true → is_live kind = false → key_is k kind = false.
Proof.
  intros Hk Hl. unfold key_is. destruct (key_of kind) as [k'|] eqn:E; [|done]. apply bool_decide_false. intros ->.
  destruct kind; cbn in *; try done; destruct (node_encode _); cbn in E; by simplify_eq.
Qed.
Lemma live_key_of kind k : is_live kind = true → key_of kind = Ok k → live_key k = true.
Proof. destruct kind; cbn; try done; by intros _ [= <-]. Qed.

(** The events of [c] after a call: those before, and some that are not live. *)
Lemma beside_occurs ch call db L c X : ledger_rep db L → L !! c = Some X → item_ok c (lx_task X) (Beside ch call) = true →
  ∃ L' X', ledger_rep (run_node_call ch call db) L' ∧ L' !! c = Some X' ∧ lx_task X' = lx_task X ∧
    (ends (lx_log X) = false → ends (lx_log X') = false) ∧
    ∀ k, live_key k = true → occurs k (x_kind <$> lx_log X') = occurs k (x_kind <$> lx_log X).
Proof.
  intros HR HX Hok. cbn in Hok. apply andb_prop in Hok as [Hty Hok].
  assert (∀ c' X1 X2, c' ≠ c ∨ lx_log X2 = lx_log X1 ∧ lx_task X2 = lx_task X1 → L !! c' = Some X1 →
    ∃ X', <[c' := X2]> L !! c = Some X' ∧ lx_task X' = lx_task X ∧ (ends (lx_log X) = false → ends (lx_log X') = false) ∧
      ∀ k, live_key k = true → occurs k (x_kind <$> lx_log X') = occurs k (x_kind <$> lx_log X)) as Hother.
  { intros c' X1 X2 Hc H1. destruct (decide (c' = c)) as [->|Hne]; [|exists X; by rewrite lookup_insert_ne].
    destruct Hc as [?|[E1 E2]]; [done|]. simplify_eq. exists X2. rewrite lookup_insert_eq, E1, E2. done. }
  destruct call as [t command b|c'|c' kind|c' kinds|c' through|c' b|t c'|t]; cbn [run_node_call].
  - destruct (node_attempt_ok ch (admit_execution ch t command b) db) as [[-> _]|(r & db' & HT & ->)]; [by exists L, X|]. cbn.
    destruct (admit_ok _ _ _ _ _ _ _ _ HR Hty HT) as [(X0 & _ & _ & _ & HR')|(X0 & Hn & _ & _ & _ & _ & _ & HR')]; [by exists L, X|].
    eexists _, X. split; [exact HR'|]. rewrite lookup_insert_ne by congruence. done.
  - destruct (node_attempt_ok ch (append_turn_started_body ch c') db) as [[-> _]|(r & db' & HT & ->)]; [by exists L, X|]. cbn.
    destruct (turn_started_ok _ _ _ _ _ _ HR HT) as [?|(X0 & e & H1 & Hk & _ & HR')]; [by exists L, X|].
    destruct (decide (c' = c)) as [->|Hne]; [|destruct (Hother c' X0 (extend [e] X0)) as (X' & ?); [by left|done|]; by eexists _, X'].
    simplify_eq. eexists _, _. split; [exact HR'|]. rewrite lookup_insert_eq. split_and!; [done..| |].
    { intros _. cbn [extend lx_log]. by rewrite ends_app, ends_one, Hk. }
    intros k Hlk. cbn [extend lx_log].
    rewrite fmap_app, occurs_app. cbn [fmap list_fmap]. rewrite occurs_cons, Hk, other_kind_occurs by done. unfold occurs. cbn. lia.
  - unfold append_progress. destruct (is_live kind) eqn:Hl; [|by exists L, X]. split_bools.
    destruct (node_attempt_ok ch (append_progress_body ch c' kind) db) as [[-> _]|(r & db' & HT & ->)]; [by exists L, X|]. cbn.
    pose proof (progress_ok _ _ _ _ _ _ _ HR Hl HT) as Hp. destruct r; [|subst; by exists L, X].
    destruct Hp as (X0 & e & H1 & _ & _ & HR'). destruct (Hother c' X0 (extend [e] X0)) as (X' & ?); [by left|done|]. by eexists _, X'.
  - split_bools. destruct (node_attempt_ok ch (finish_body ch c' kinds) db) as [[-> _]|(r & db' & HT & ->)]; [by exists L, X|]. cbn.
    destruct (finish_ok _ _ _ _ _ _ _ HR Hty HT) as (X0 & H1 & [[_ ->]|(new & _ & _ & _ & _ & _ & HR')]); [by exists L, X|].
    destruct (Hother c' X0 (extend new X0)) as (X' & ?); [by left|done|]. by eexists _, X'.
  - destruct (node_attempt_ok ch (advance_publication_body c' through) db) as [[-> _]|(r & db' & HT & ->)]; [by exists L, X|]. cbn.
    apply Z.leb_le in Hty. destruct (advance_ok _ _ _ _ _ _ HR Hty HT) as (X0 & H1 & HR').
    edestruct Hother as (X' & ?); [|exact H1|by eexists _, X']. by right.
  - destruct (node_attempt_ok ch (set_admission_ack c' b) db) as [[-> _]|(r & db' & HT & ->)]; [by exists L, X|]. cbn.
    destruct (ack_ok _ _ _ _ _ _ HR HT) as (X0 & H1 & HR'). edestruct Hother as (X' & ?); [|exact H1|by eexists _, X']. by right.
  - destruct (node_attempt_ok ch (record_stop_body t c') db) as [[-> _]|(r & db' & HT & ->)]; [by exists L, X|]. cbn.
    destruct (stop_ok _ _ _ _ _ _ HR HT) as (HR' & _). by exists L, X.
  - destruct (node_attempt_ok ch (forget_task_body t) db) as [[-> _]|(r & db' & HT & ->)]; [by exists L, X|]. cbn. split_bools.
    eexists _, X. split; [by eapply forget_ok|]. split; [|done]. apply map_lookup_filter_Some. split; [done|]. cbn. congruence.
Qed.

(** One report: it is counted, and recorded at most as often as it was counted. *)
Lemma report_occurs ch c kind l w L X l' w' : ledger_rep (nw_ledger w) L → L !! c = Some X → is_live kind = true →
  run_with ch (record_live c kind l) w = (l', w') →
  (∀ k, live_key k = true → occurs k (x_kind <$> lx_log X) ≤ ll_recorded l k)%nat →
  ∃ L' X', ledger_rep (nw_ledger w') L' ∧ L' !! c = Some X' ∧ lx_task X' = lx_task X ∧
    (ends (lx_log X) = false → ends (lx_log X') = false) ∧
    (∀ k, ll_reported l' k = ll_reported l k + occurs k [kind])%nat ∧
    ∀ k, live_key k = true →
      (occurs k (x_kind <$> lx_log X') ≤ ll_recorded l' k ≤ Nat.max (ll_recorded l k) (ll_reported l' k))%nat.
Proof.
  intros HR HX Hl HT Hb. unfold record_live in HT. destruct (key_of kind) as [k0|] eqn:Hk; [|by destruct kind].
  assert (∀ k, occurs k [kind] = if decide (k0 = k) then 1%nat else 0%nat) as Hone.
  { intros k. unfold occurs, key_is. cbn. rewrite Hk. case_bool_decide; case_decide; done. }
  unfold ledger_admit in HT. rewrite Hk in HT. cbn [mbind Result_bind] in HT.
  destruct (S (ll_reported l k0) <=? ll_recorded _ k0)%nat eqn:Hle; cbn [ll_recorded] in Hle; cbn in HT.
  { injection HT as <- <-. exists L, X. split_and!; try done; cbn [ll_reported ll_recorded].
    - intros k. rewrite Hone. unfold set_count. case_decide; subst; lia.
    - intros k Hlk. specialize (Hb k Hlk). lia. }
  apply Nat.leb_gt in Hle. unfold progress_write, append_progress in HT. rewrite Hl in HT. cbn in HT.
  assert (∃ L' X' new, ledger_rep (nw_ledger w') L' ∧ L' !! c = Some X' ∧ lx_task X' = lx_task X ∧
    lx_log X' = lx_log X ++ new ∧ (new = [] ∨ ∃ e, new = [e] ∧ x_kind e = kind) ∧
    l' = MkLiveLedger (set_count k0 (S (ll_reported l k0)) (ll_recorded l)) (set_count k0 (S (ll_reported l k0)) (ll_reported l)))
    as (L' & X' & new & HR' & HX' & Ht & Hlog & Hnew & ->).
  { destruct (node_attempt_ok (nd_store ch) (append_progress_body (nd_store ch) c kind) (nw_ledger w)) as [[E1 E2]|(r & db' & HP & E)].
    - exists L, X, []. rewrite app_nil_r. destruct (node_attempt _ _ _) as [[b|] db'] eqn:E; [by destruct (E2 b)|].
      cbn in E1, HT. subst db'. injection HT as <- <-. split_and!; try done. by left.
    - rewrite E in HT. cbn in HT. pose proof (progress_ok _ _ _ _ _ _ _ HR Hl HP) as Hp. destruct r; cbn in HT.
      + destruct Hp as (X1 & e & HX1 & Hke & _ & HR1). simplify_eq. eexists _, (extend [e] X), [e]. cbn.
        rewrite lookup_insert_eq. split_and!; [exact HR1|done..|right; by exists e|done].
      + subst db'. injection HT as <- <-. exists L, X, []. rewrite app_nil_r. split_and!; try done. by left. }
  exists L', X'. split_and!; [done..| | |]; cbn [ll_reported ll_recorded].
  - intros He. rewrite Hlog. destruct Hnew as [->|(e & -> & Hke)]; [by rewrite app_nil_r|].
    rewrite ends_app, ends_one, Hke by done. by apply live_kind in Hl as [_ ?].
  - intros k. rewrite Hone. unfold set_count. case_decide; subst; lia.
  - intros k Hlk. specialize (Hb k Hlk). rewrite Hlog, fmap_app, occurs_app.
    assert (occurs k (x_kind <$> new) ≤ occurs k [kind])%nat as Hadd.
    { destruct Hnew as [->|(e & -> & <-)]; [cbn; unfold occurs; cbn; lia|done]. }
    rewrite Hone in Hadd. unfold set_count. case_decide; subst; lia.
Qed.

Lemma turn_occurs c t items : ∀ l w L X before start,
  ledger_rep (nw_ledger w) L → L !! c = Some X → lx_task X = t → forallb (item_ok c t) items = true →
  (∀ k, ll_reported l k = occurs k before) →
  (∀ k, live_key k = true → occurs k (x_kind <$> lx_log X) ≤ ll_recorded l k ≤ Nat.max (start k) (occurs k before))%nat →
  ∃ L' X', ledger_rep (nw_ledger (foldl (turn_item c) (l, w) items).2) L' ∧ L' !! c = Some X' ∧ lx_task X' = t ∧
    (ends (lx_log X) = false → ends (lx_log X') = false) ∧
    ∀ k, live_key k = true → (occurs k (x_kind <$> lx_log X') ≤ Nat.max (start k) (occurs k (before ++ reports items)))%nat.
Proof.
  induction items as [|item items IH]; intros l w L X before start HR HX Ht Hok Hrep Hrec.
  { exists L, X. split_and!; try done. intros k Hk. specialize (Hrec k Hk). cbn. rewrite app_nil_r. lia. }
  cbn in Hok. apply andb_prop in Hok as [Hi Hok]. destruct item as [ch kind|ch call]; cbn [foldl turn_item fst snd].
  - destruct (run_with ch (record_live c kind l) w) as [l' w'] eqn:HT.
    destruct (report_occurs _ _ _ _ _ _ _ _ _ HR HX Hi HT) as (L' & X' & HR' & HX' & Ht' & He' & Hrep' & Hrec').
    { intros k Hk. by apply Hrec. }
    cbn. destruct (IH l' w' L' X' (before ++ [kind]) start) as (L2 & X2 & ? & ? & ? & ? & Ho2); try done; [congruence|..].
    + intros k. by rewrite Hrep', Hrep, occurs_app.
    + intros k Hk. specialize (Hrec' k Hk). specialize (Hrec k Hk).
      rewrite Hrep', Hrep in Hrec'. rewrite occurs_app. lia.
    + exists L2, X2. split_and!; auto. intros k Hk. specialize (Ho2 k Hk). by rewrite <- app_assoc in Ho2.
  - destruct (beside_occurs ch call _ _ _ _ HR HX) as (L' & X' & HR' & HX' & Ht' & He' & Ho); [by rewrite Ht|].
    cbn. destruct (IH l (set_ledger (run_node_call ch call (nw_ledger w)) w) L' X' before start) as (L2 & X2 & ? & ? & ? & ? & ?);
      cbn; try done; [congruence| |exists L2, X2; split_and!; auto].
    intros k Hk. rewrite Ho by done. by apply Hrec.
Qed.

Lemma attempts_occurs c t drives w w' : attempts c t drives w w' → ∀ L X, ledger_rep (nw_ledger w) L → L !! c = Some X → lx_task X = t →
  ∃ L' X', ledger_rep (nw_ledger w') L' ∧ L' !! c = Some X' ∧ lx_task X' = t ∧
    (ends (lx_log X) = false → ends (lx_log X') = false) ∧
    ∀ k, live_key k = true →
      (occurs k (x_kind <$> lx_log X') ≤ Nat.max (occurs k (x_kind <$> lx_log X)) (most_reported k drives))%nat.
Proof.
  unfold most_reported. induction 1 as [w|w l items drives w' Hl Hok _ IH]; intros L X HR HX Ht.
  { exists L, X. split_and!; try done. intros k Hk. lia. }
  apply result_bind_ok in Hl as (m & Hm & [= <-]). pose proof (load_recorded_log _ _ _ _ _ HR HX Hm) as Hc.
  destruct (turn_occurs c t items (MkLiveLedger m (λ _, 0%nat)) w L X [] (λ k, occurs k (x_kind <$> lx_log X)))
    as (L1 & X1 & HR1 & HX1 & Ht1 & He1 & Ho1); try done.
  { intros k Hk. cbn. rewrite Hc. lia. }
  destruct (IH L1 X1 HR1 HX1 Ht1) as (L2 & X2 & ? & ? & ? & ? & Ho2). exists L2, X2. split_and!; auto.
  intros k Hk. specialize (Ho1 k Hk). specialize (Ho2 k Hk). cbn [app max_list_with] in *. lia.
Qed.

Lemma none_occur k kinds : (∀ kind, kind ∈ kinds → key_is k kind = false) → occurs k kinds = 0%nat.
Proof.
  induction kinds as [|kind kinds IH]; intros Hn; [done|]. rewrite occurs_cons, Hn, IH; [done| |left]. intros kind' Hin. apply Hn. by right.
Qed.

(** C20. A turn's events are recorded once. However often the turn of an admitted
    command is driven again, with its reports cut off anywhere, lost or
    repeated by a later drive, and whatever else uses the ledger meanwhile:
    once the turn is finished with the events of its history, one terminal
    event ends it, and the ledger holds every message, tool start and tool end
    at least as often as the history does, and no more often than the history
    or the drive that reported it most. So what every drive reports within the
    history is recorded exactly as often as the history has it, also when it
    was reported by several drives; only an event that some drive reported and the
    history does not have (a model's answer that was lost before it settled and
    came out otherwise when it was asked again) can be there besides, as often
    as that drive reported it. *)
Theorem each_event_recorded_once c drives kinds w w' ch db' L X : ledger_rep (nw_ledger w) L → L !! c = Some X →
  (∀ e, e ∈ lx_log X → is_live (x_kind e) = false) → ends (lx_log X) = false →
  attempts c (lx_task X) drives w w' → forallb (λ k, negb (is_started k)) kinds = true →
  finish_body ch c kinds (nw_ledger w') = Ok (tt, db') →
  ∃ L' X', ledger_rep db' L' ∧ L' !! c = Some X' ∧ ends (lx_log X') = true ∧
    ∀ k, live_key k = true →
      (occurs k kinds ≤ occurs k (x_kind <$> lx_log X') ≤ Nat.max (occurs k kinds) (most_reported k drives))%nat ∧
      ((∀ drive, drive ∈ drives → (occurs k drive ≤ occurs k kinds)%nat) → occurs k (x_kind <$> lx_log X') = occurs k kinds).
Proof.
  intros HR HX Hnone Hend Ha Hks HF.
  destruct (attempts_occurs _ _ _ _ _ Ha L X HR HX eq_refl) as (L1 & X1 & HR1 & HX1 & Ht1 & He1 & Ho1).
  assert (∀ k, live_key k = true → occurs k (x_kind <$> lx_log X) = 0%nat) as Hz.
  { intros k Hk. apply none_occur. intros kind (e & -> & He)%list_elem_of_fmap. apply other_kind_occurs; [done|by apply Hnone]. }
  destruct (finish_ok _ _ _ _ _ _ _ HR1 Hks HF) as (X2 & HX2 & [[He _]|(new & He & He' & Hocc & _ & _ & HR2)]); simplify_eq.
  { by rewrite He1 in He. }
  eexists _, (extend new X1). rewrite lookup_insert_eq. split_and!; [exact HR2|done..|]. intros k Hk. cbn [extend lx_log]. rewrite Hocc.
  specialize (Ho1 k Hk). rewrite Hz in Ho1 by done. split; [lia|]. intros Hd.
  assert (most_reported k drives ≤ occurs k kinds)%nat; [|lia]. unfold most_reported.
  clear -Hd. induction drives as [|drive drives IH]; cbn; [lia|]. apply Nat.max_lub; [apply Hd; left|].
  apply IH. intros drive' ?. apply Hd. by right.
Qed.
End reports.

(** ** Programs without a lock

    [guards K p Q]: from a state where the stable fact [K] holds, whatever
    others do, every action of [p] keeps [wf] and stays within [rely], and when
    [p] returns [a] then [Q a] holds. *)
Section guardss.
Context {World Choice : Type} (wf : World → Prop) (rely : World → World → Prop).
Implicit Types (K : World → Prop).

Definition unowed (_ : World) (o : Empty_set) : Prop := False.
Definition free (_ _ : World) : Prop := True.
#[export] Instance free_refl : Reflexive free.
Proof. done. Qed.
Definition stable K : Prop := ∀ w w', wf w → wf w' → rely w w' → K w → K w'.
Abbreviation wpn := (@wp World Choice wf Empty_set unowed free rely).

Definition returning {A} (Q : A → World → Prop) (a : A) (held : bool) K (_ : Empty_set → Prop) : Prop :=
  held = false ∧ stable K ∧ ∀ w, wf w → K w → Q a w.
Definition guards {A} K (p : Prog World Choice A) (Q : A → World → Prop) : Prop :=
  stable K → ∀ D, wpn false K D p (returning Q).

Lemma stable_keeps K : stable K → keeps wf free rely false K.
Proof. intros HK w w' H1 H2 H3 _. by apply HK. Qed.
Lemma keeps_stable held K : keeps wf free rely held K → stable K.
Proof. intros HK w w' H1 H2 H3. by apply HK. Qed.

Lemma guards_ret {A} (a : A) Q : guards (Q a) (mret a) Q.
Proof. intros HK D. by split_and!. Qed.

Lemma guards_act {A} (f : Choice → World → A * World) K Q : (∀ a, stable (Q a)) →
  (∀ ch w, wf w → K w → wf (f ch w).2 ∧ rely w (f ch w).2 ∧ Q (f ch w).1 (f ch w).2) → guards K (act f) Q.
Proof.
  intros HQ Hf HK D ch w Hw HKw. destruct (Hf ch w Hw HKw) as (H1 & H2 & H3). split_and!; [done..|].
  exists (Q (f ch w).1), (λ _, False). split_and!; [by apply stable_keeps|done|by intros []|]. by split_and!.
Qed.

Lemma guards_then {A B} gate (f : Choice → World → B * World) (k : B → Prog World Choice A) K Q :
  (∀ ch w, wf w → K w → wf (f ch w).2 ∧ rely w (f ch w).2 ∧
     ∃ K', stable K' ∧ K' (f ch w).2 ∧ guards K' (k (f ch w).1) Q) → guards K (Act gate f k) Q.
Proof.
  intros Hf HK D ch w Hw HKw. destruct (Hf ch w Hw HKw) as (H1 & H2 & K' & H3 & H4 & H5). split_and!; [done..|].
  exists K', (λ _, False). split_and!; [by apply stable_keeps|done|by intros []|]. by apply H5.
Qed.

(** A program may know more than it needs. *)
Lemma wpn_stronger {A} (p : Prog World Choice A) Q : ∀ held K K' D D', (∀ w, wf w → K' w → K w) → stable K' →
  wpn held K D p (returning Q) → wpn held K' D' p (returning Q).
Proof.
  induction p as [A a|A X gate f k IH|A k IH|A k IH|A k IH|A q _ k IH]; intros held K K' D D' HK HK' Hp; cbn in *.
  - destruct Hp as (? & _ & Hp). split_and!; [done..|]. intros w Hw HKw. by apply Hp, HK.
  - intros ch w Hw HKw. destruct (Hp ch w Hw (HK w Hw HKw)) as (? & ? & ? & K1 & D1 & ? & ? & _ & Hk).
    split_and!; [done..|]. exists K1, D1. split_and!; [done..|by intros []|done].
  - destruct Hp as [? Hp]. split; [done|]. intros w Hw HKw. destruct (Hp w Hw (HK w Hw HKw)) as (K1 & HK1 & ? & Hk).
    exists K1. split_and!; try done. eapply IH; [| |exact Hk]; [done|by eapply keeps_stable].
  - destruct Hp as [? Hp]. split; [done|]. intros w Hw HKw. destruct (Hp w Hw (HK w Hw HKw)) as (K1 & HK1 & ? & Hk).
    exists K1. split_and!; try done. eapply IH; [| |exact Hk]; [done|by eapply keeps_stable].
  - destruct Hp as (? & _ & Hp). split_and!; [done|by intros []|]. by eapply IH.
  - destruct Hp as [Hq Hp]. split; [done|]. by eapply IH.
Qed.
Lemma wpn_post {A} (p : Prog World Choice A) (Φ Ψ : A → bool → (World → Prop) → (Empty_set → Prop) → Prop) :
  (∀ a h K D, Φ a h K D → Ψ a h K D) → ∀ held K D, wpn held K D p Φ → wpn held K D p Ψ.
Proof.
  intros HΦ. induction p as [A a|A X gate f k IH|A k IH|A k IH|A k IH|A q _ k IH]; intros held K D Hp; cbn in *; [by apply (HΦ a)|..].
  - intros ch w Hw HKw. destruct (Hp ch w Hw HKw) as (? & ? & ? & K1 & D1 & ? & ? & ? & Hk). split_and!; [done..|]. exists K1, D1.
    split_and!; try done. by eapply IH.
  - destruct Hp as [? Hp]. split; [done|]. intros w Hw HKw. destruct (Hp w Hw HKw) as (K1 & ? & ? & ?). exists K1. split_and!; [done..|by eapply IH].
  - destruct Hp as [? Hp]. split; [done|]. intros w Hw HKw. destruct (Hp w Hw HKw) as (K1 & ? & ? & ?). exists K1. split_and!; [done..|by eapply IH].
  - destruct Hp as (? & ? & ?). split_and!; [done..|by eapply IH].
  - destruct Hp as [? ?]. split; [done|by eapply IH].
Qed.

Lemma guards_bind {A B} K (p : Prog World Choice A) (g : A → Prog World Choice B) Q Q' :
  guards K p Q' → (∀ a, guards (Q' a) (g a) Q) → (∀ a, stable (Q' a)) → guards K (p ≫= g) Q.
Proof.
  intros Hp Hg HQ HK D. apply wp_bind. eapply wpn_post; [|by apply Hp]. intros a h K1 D1 (-> & HK1 & HK2). cbn.
  eapply wpn_stronger; [exact HK2|done|]. apply (Hg a (HQ a) D1).
Qed.
Lemma guards_conseq {A} K K' (p : Prog World Choice A) (Q Q' : A → World → Prop) : guards K p Q → stable K →
  (∀ w, wf w → K' w → K w) → (∀ a w, wf w → Q a w → Q' a w) → guards K' p Q'.
Proof.
  intros Hp HK HK' HQ HK2 D. eapply wpn_post; [|eapply wpn_stronger; [exact HK'|done|by apply (Hp HK D)]].
  intros a h K1 D1 (-> & H1 & H2). split_and!; try done. intros w Hw HKw. by apply HQ, H2.
Qed.
Lemma guards_wait K : guards K wait (λ _, K).
Proof. intros HK D. cbn. split_and!; [done|by intros []|]. by split_and!. Qed.
Lemma guards_spawn K (q : Prog World Choice unit) Q : guards (λ _, True) q Q → guards K (spawn q) (λ _, K).
Proof.
  intros Hq HK D. cbn. split; [|by split_and!]. eapply wpn_post; [|by apply Hq]. intros a h K1 D1 (-> & _). split; [done|by intros []].
Qed.
Lemma sound_rely `{!Rooms World} arrives c c' : Reflexive rely → sound wf unowed free rely c → step arrives (λ _ _, False) c c' →
  rely (world c) (world (Choice := Choice) c').
Proof.
  intros Hr HS Hst. destruct Hst as [c1 c2 Ht|w l ts i k Hi|w l ts q Ha|w l ts w' []]; [|done..].
  destruct Ht as [w l ts i X gate f k ch Hi Hg|w ts i k Hi|w ts i k Hi|w l ts i q k Hi]; [|done..].
  destruct HS as [Hw (K & D & Hth & _) _]. destruct (Hth i _ Hi) as (_ & HKw & Hv). by destruct (Hv ch w Hw HKw) as (_ & ? & _).
Qed.
Lemma guards_verified (q : Prog World Choice unit) Q : guards (λ _, True) q Q → verified wf unowed free rely q.
Proof. intros Hq. eapply wpn_post; [|by apply Hq]. intros a h K1 D1 (-> & _). split; [done|by intros []]. Qed.
End guardss.

(** ** What a node keeps while its tasks run *)
Section uniqueness.
Context `{NS : NodeSerde} `{LT : LibraryTexts} `{NT : NodeTexts} `{!ControlSerdeLaws} `{!NodeSerdeLaws}.
Implicit Types (db : NodeDb) (L : NodeLog) (X : Execution).

Lemma row_rep_unique c row X1 X2 : row_rep c row X1 → row_rep c row X2 → lx_log X1 = lx_log X2 → X1 = X2.
Proof.
  intros [A1 A2 A3 A4 _ _ A7 A8 _ _] [B1 B2 B3 B4 _ _ B7 B8 _ _] E.
  pose proof (envelope_read_back _ _ A3 A4) as R1. rewrite (envelope_read_back _ _ B3 B4) in R1. injection R1 as R1.
  destruct X1, X2; cbn in *. congruence.
Qed.
Lemma ledger_unique db L1 L2 : ledger_rep db L1 → ledger_rep db L2 → L1 = L2.
Proof.
  intros [R1 _ _] [R2 _ _]. apply map_eq. intros c. destruct (L1 !! c) as [X1|] eqn:H1.
  - destruct (rep_row _ _ _ _ R1 H1) as (row & Hr & Hrow1). destruct (rep_execution _ _ _ _ R2 Hr) as (X2 & H2 & Hrow2).
    rewrite H2. f_equal. apply (row_rep_unique c row); [done..|].
    pose proof (event_rows_log _ _ _ _ 0 R1 H1 ltac:(done)) as E. rewrite (event_rows_log _ _ _ _ 0 R2 H2 ltac:(done)) in E.
    by injection E.
  - by rewrite (proj1 (rep_absent _ _ _ R2) (proj2 (rep_absent _ _ _ R1) H1)).
Qed.
End uniqueness.

(** What the node knows of its ledger only grows. *)
Section node_triples.
Context `{NS : NodeSerde} `{LT : LibraryTexts} `{NT : NodeTexts} `{!ControlSerdeLaws} `{!NodeSerdeLaws}.
(** Accepted events: the coordinator acknowledged those of the command up to the sequence. *)
Context (accepts : CommandId → Z → Prop).
Implicit Types (w : NodeWorld) (L : NodeLog) (X : Execution) (F : NodeLog → Prop).

Definition log_le L L' : Prop := ∀ c X, L !! c = Some X → ∃ X', L' !! c = Some X' ∧ execution_grows X X'.
#[export] Instance log_le_preorder : PreOrder log_le.
Proof.
  split; [by intros L c X HX; exists X|]. intros L1 L2 L3 H12 H23 c X HX. destruct (H12 c X HX) as (X2 & HX2 & G2).
  destruct (H23 c X2 HX2) as (X3 & HX3 & G3). exists X3. split; [done|by etrans].
Qed.

(** The events are consecutive ones of the command's. *)
Definition segment L (t : TaskId) (c : CommandId) (es : list ExecutionEvent) : Prop :=
  ∃ X n, L !! c = Some X ∧ lx_task X = t ∧ es `prefix_of` drop n (lx_log X).
Definition up_ok L (m : ClientMessage) : Prop :=
  match m with MPublishExecutionEvents t c es => segment L t c es | _ => True end.
Definition down_ok (m : ServerMessage) : Prop :=
  match m with
  | SExecute _ command => input_ok (input command) = true
  | SExecutionEventsAccepted c n => 0 ≤ n ∧ accepts c n
  | _ => True
  end.
Record node_ok w L : Prop := {
  no_ledger : ledger_rep (nw_ledger w) L;
  no_up : ∀ m, m ∈ nw_up w → up_ok L m;
  no_down : ∀ m, m ∈ nw_down w → down_ok m;
  no_published : ∀ c X n, L !! c = Some X → lx_published X = Some n → accepts c n;
}.
Definition node_wf w : Prop := ∃ L, node_ok w L.
Definition node_rely w w' : Prop :=
  ∀ L, ledger_rep (nw_ledger w) L → ∃ L', ledger_rep (nw_ledger w') L' ∧ log_le L L'.
#[export] Instance node_rely_refl : Reflexive node_rely.
Proof. intros w L HL. by exists L. Qed.

Definition knows F w : Prop := ∃ L, ledger_rep (nw_ledger w) L ∧ F L.
Definition lasting F : Prop := ∀ L L', log_le L L' → F L → F L'.
Definition does {A} F (p : NP A) (G : A → NodeLog → Prop) : Prop :=
  guards node_wf node_rely (knows F) p (λ a, knows (G a)).
(** It learns nothing and breaks nothing. *)
Definition calm {A} (p : NP A) : Prop := ∀ F, lasting F → does F p (λ _, F).

Lemma knows_stable F : lasting F → stable node_wf node_rely (knows F).
Proof. intros HF w w' _ _ Hr (L & HL & HFL). destruct (Hr L HL) as (L' & HL' & Hle). exists L'. split; [done|]. by eapply HF. Qed.

Lemma segment_lasting t c es : lasting (λ L, segment L t c es).
Proof.
  intros L L' Hle (X & n & HX & Ht & Hp). destruct (Hle c X HX) as (X' & HX' & (Et & _ & [new E] & _)).
  exists X', n. split_and!; [done|congruence|]. rewrite E, drop_app. etrans; [exact Hp|by eexists].
Qed.
Lemma up_ok_lasting m : lasting (λ L, up_ok L m).
Proof. destruct m; try by intros ???. cbn. apply segment_lasting. Qed.

Lemma does_ret {A} (a : A) G : does (G a) (mret a) G.
Proof. exact (guards_ret (Choice := NodeChance) node_wf node_rely a (λ a, knows (G a))). Qed.
Lemma does_value {A} (a : A) F G : (∀ L, F L → G a L) → does F (mret a) G.
Proof. intros HG HK D. split_and!; try done. intros w _ (L & HL & HFL). exists L. auto. Qed.
Lemma does_bind {A B} F (p : NP A) (g : A → NP B) G G' : does F p G' → (∀ a, lasting (G' a)) → (∀ a, does (G' a) (g a) G) →
  does F (p ≫= g) G.
Proof. intros Hp HG Hg. eapply guards_bind; [exact Hp|exact Hg|]. intros a. apply knows_stable, HG. Qed.
Lemma does_conseq {A} F F' (p : NP A) (G G' : A → NodeLog → Prop) : does F p G → lasting F →
  (∀ L, F' L → F L) → (∀ a L, G a L → G' a L) → does F' p G'.
Proof.
  intros Hp HF HF' HG. eapply guards_conseq; [exact Hp|by apply knows_stable|..].
  - intros w _ (L & HL & HFL). exists L. auto.
  - intros a w _ (L & HL & HFL). exists L. auto.
Qed.
Lemma does_act {A} (f : NodeChance → NodeWorld → A * NodeWorld) F G : (∀ a, lasting (G a)) →
  (∀ ch w L, node_ok w L → F L → ∃ L', node_ok (f ch w).2 L' ∧ log_le L L' ∧ G (f ch w).1 L') → does F (act f) G.
Proof.
  intros HG Hf. apply guards_act; [intros a; apply knows_stable, HG|]. intros ch w [L HO] (L0 & HL0 & HF).
  rewrite (ledger_unique _ _ _ HL0 (no_ledger _ _ HO)) in HF. destruct (Hf ch w L HO HF) as (L' & HO' & Hle & HGL).
  split_and!; [by exists L'| |exists L'; split; [apply HO'|done]].
  intros L1 HL1. rewrite (ledger_unique _ _ _ HL1 (no_ledger _ _ HO)). exists L'. split; [apply HO'|done].
Qed.
(** An action, and what follows on what it returned. *)
Lemma does_then {A B} gate (f : NodeChance → NodeWorld → B * NodeWorld) (k : B → NP A) F G :
  (∀ ch w L, node_ok w L → F L → ∃ L' F', node_ok (f ch w).2 L' ∧ log_le L L' ∧ lasting F' ∧ F' L' ∧ does F' (k (f ch w).1) G) →
  does F (Act gate f k) G.
Proof.
  intros Hf. apply guards_then. intros ch w [L HO] (L0 & HL0 & HF).
  rewrite (ledger_unique _ _ _ HL0 (no_ledger _ _ HO)) in HF. destruct (Hf ch w L HO HF) as (L' & F' & HO' & Hle & HF' & HFL & Hk).
  split_and!; [by exists L'| |exists (knows F'); split_and!; [by apply knows_stable|exists L'; split; [apply HO'|done]|done]].
  intros L1 HL1. rewrite (ledger_unique _ _ _ HL1 (no_ledger _ _ HO)). exists L'. split; [apply HO'|done].
Qed.

Lemma calm_ret {A} (a : A) : calm (mret a).
Proof. intros F _. apply (does_ret a (λ _, F)). Qed.
Lemma calm_bind {A B} (p : NP A) (g : A → NP B) : calm p → (∀ a, calm (g a)) → calm (p ≫= g).
Proof. intros Hp Hg F HF. eapply does_bind; [by apply Hp|done|]. intros a. by apply Hg. Qed.
Lemma calm_act {A} (f : NodeChance → NodeWorld → A * NodeWorld) :
  (∀ ch w L, node_ok w L → ∃ L', node_ok (f ch w).2 L' ∧ log_le L L') → calm (act f).
Proof.
  intros Hf F HF. apply does_act; [done|]. intros ch w L HO HFL. destruct (Hf ch w L HO) as (L' & HO' & Hle).
  exists L'. split_and!; [done..|]. by eapply HF.
Qed.
Lemma calm_wait : calm wait.
Proof. intros F HF. apply guards_wait. Qed.
Lemma calm_spawn q : calm q → calm (spawn q).
Proof.
  intros Hq F HF. apply (guards_spawn _ _ _ _ (λ _, knows (λ _, True))). eapply guards_conseq; [by apply (Hq (λ _, True))|by apply knows_stable|..]; [|done].
  intros w [L HO] _. exists L. split; [apply HO|done].
Qed.
End node_triples.

(** ** The programs of a node *)
Section node_programs.
Context `{NS : NodeSerde} `{LT : LibraryTexts} `{NT : NodeTexts} `{HH : HostHome} `{CL : !ClientLength}.
Context {BS : TextSerde (list ContentBlock)} `{!ControlSerdeLaws} `{!NodeSerdeLaws}.
Context (accepts : CommandId → Z → Prop).
Implicit Types (w : NodeWorld) (L : NodeLog) (X : Execution) (F : NodeLog → Prop) (c : CommandId) (t : TaskId) (pubs : Publications).
#[local] Abbreviation does := (does accepts).
#[local] Abbreviation calm := (calm accepts).
#[local] Abbreviation node_ok := (node_ok accepts).

Lemma ok_same w w' L : nw_ledger w' = nw_ledger w → nw_up w' = nw_up w → nw_down w' = nw_down w → node_ok w L → node_ok w' L.
Proof. intros E1 E2 E3 [H1 H2 H3 H4]. split; by rewrite ?E1, ?E2, ?E3. Qed.

(** *** The ledger *)
Lemma ok_insert w L db' c X' : node_ok w L → ledger_rep db' (<[c := X']> L) → (∀ X, L !! c = Some X → execution_grows X X') →
  (∀ n, lx_published X' = Some n → accepts c n) → ∃ L', node_ok (set_ledger db' w) L' ∧ log_le L L'.
Proof.
  intros [H1 H2 H3 H4] HR HG HP. assert (log_le L (<[c := X']> L)) as Hle.
  { intros c1 X1 HX1. destruct (decide (c = c1)) as [<-|Hne]; [exists X'; rewrite lookup_insert_eq; eauto|].
    exists X1. by rewrite lookup_insert_ne. }
  exists (<[c := X']> L). split; [|done]. split; cbn; [done| |done|].
  - intros m Hm. by eapply up_ok_lasting, H2.
  - intros c1 X1 n [[<- <-]|[_ HX1]]%lookup_insert_Some; [by apply HP|by eapply H4].
Qed.
Lemma ok_extend w L db' c X new : node_ok w L → L !! c = Some X → ledger_step L (<[c := extend new X]> L) →
  ledger_rep db' (<[c := extend new X]> L) → ∃ L', node_ok (set_ledger db' w) L' ∧ log_le L L'.
Proof.
  intros HO HX HS HR. eapply ok_insert; [done..| |].
  - intros X0 HX0. eapply ledger_step_grows; [exact HS|done|apply lookup_insert_eq].
  - intros n Hn. by eapply (no_published _ _ _ HO).
Qed.
Lemma ok_rep w L db' : node_ok w L → ledger_rep db' L → ∃ L', node_ok (set_ledger db' w) L' ∧ log_le L L'.
Proof. intros [H1 H2 H3 H4] HR. by exists L. Qed.

Definition session_call (call : NodeCall) : Prop :=
  typed_node_call call = true ∧
  match call with NodeForget _ => False | NodeAdvance c n => accepts c n | _ => True end.

Lemma ok_call ch call w L : node_ok w L → session_call call →
  ∃ L', node_ok (set_ledger (run_node_call ch call (nw_ledger w)) w) L' ∧ log_le L L'.
Proof.
  intros HO [Hty Hc]. pose proof (no_ledger _ _ _ HO) as HR.
  assert (∀ {A} (m : NTx A), (∀ a db', m (nw_ledger w) = Ok (a, db') → ∃ L', node_ok (set_ledger db' w) L' ∧ log_le L L') →
    ∃ L', node_ok (set_ledger (node_attempt ch m (nw_ledger w)).2 w) L' ∧ log_le L L') as Hattempt.
  { intros A m Hm. destruct (node_attempt_ok ch m (nw_ledger w)) as [[-> _]|(a & db' & HT & ->)]; [by apply ok_rep|by eapply Hm]. }
  destruct call as [t command b|c|c kind|c kinds|c through|c b|t c|t]; cbn [run_node_call]; [..|done].
  - apply Hattempt. intros a db' HT.
    destruct (admit_ok _ _ _ _ _ _ _ _ HR Hty HT) as [(X & _ & _ & _ & HR')|(X & HX & _ & _ & _ & Hp & HS & HR')]; [by eapply ok_rep|].
    eapply ok_insert; [done..| |]; congruence.
  - apply Hattempt. intros a db' HT. destruct (turn_started_ok _ _ _ _ _ _ HR HT) as [?|(X & e & HX & _ & HS & HR')]; [by eapply ok_rep|].
    by eapply ok_extend.
  - unfold append_progress. destruct (is_live kind) eqn:Hl; [|by apply ok_rep]. apply Hattempt. intros b db' HT.
    pose proof (progress_ok _ _ _ _ _ _ _ HR Hl HT) as Hp. destruct b; [|subst; by apply ok_rep].
    destruct Hp as (X & e & HX & _ & HS & HR'). by eapply ok_extend.
  - apply Hattempt. intros a db' HT. destruct (finish_ok _ _ _ _ _ _ _ HR Hty HT) as (X & HX & [[_ ->]|(new & _ & _ & _ & _ & HS & HR')]); [by apply ok_rep|].
    by eapply ok_extend.
  - apply Hattempt. intros a db' HT. apply Z.leb_le in Hty. destruct (advance_ok _ _ _ _ _ _ HR Hty HT) as (X & HX & HR').
    eapply ok_insert; [done..| |]; [intros X0 HX0; by simplify_eq|]. cbn. intros n [= <-]. unfold later.
    destruct (lx_published X) as [m|] eqn:Hm; [|done]. destruct (m <? through); [done|]. by eapply (no_published _ _ _ HO).
  - apply Hattempt. intros a db' HT. destruct (ack_ok _ _ _ _ _ _ HR HT) as (X & HX & HR').
    eapply ok_insert; [done..| |]; [intros X0 HX0; by simplify_eq|]. cbn. intros n Hn. by eapply (no_published _ _ _ HO).
  - apply Hattempt. intros a db' HT. by eapply ok_rep, stop_ok.
Qed.
Lemma calm_write {A} (m : NodeChoice → NTx A) call : session_call call →
  (∀ ch db, (node_attempt ch (m ch) db).2 = run_node_call ch call db) → calm (ledger_write m).
Proof.
  intros Hc E. apply calm_act. intros ch w L HO. cbn. rewrite E. by apply ok_call.
Qed.
Lemma calm_progress c kind : calm (progress_write c kind).
Proof. apply calm_act. intros ch w L HO. by apply (ok_call _ (NodeProgress c kind)). Qed.
Lemma calm_look {A} (f : NodeChance → NodeWorld → A) : calm (act (λ ch w, (f ch w, w))).
Proof. apply calm_act. intros ch w L HO. by exists L. Qed.
Lemma calm_read {A} (q : NodeDb → Result NodeStoreError A) : calm (ledger_read q).
Proof. apply calm_look. Qed.
Lemma calm_draw {A} (f : NodeChance → A) : calm (node_draw f).
Proof. apply calm_look. Qed.
Lemma calm_modify f : (∀ w, nw_ledger (f w) = nw_ledger w ∧ nw_up (f w) = nw_up w ∧ nw_down (f w) = nw_down w) → calm (modify f).
Proof.
  intros Hf. apply calm_act. intros ch w L HO. exists L. split; [|done]. destruct (Hf w) as (E1 & E2 & E3). by eapply ok_same.
Qed.
Lemma calm_try {E A B} (p : NP (Result E A)) (f : A → NP (Result E B)) : calm p → (∀ a, calm (f a)) → calm (and_try p f).
Proof. intros Hp Hf. apply calm_bind; [done|]. intros [a|e]; [done|apply calm_ret]. Qed.

(** *** The connection *)
Lemma ok_send w L m : node_ok w L → up_ok L m → node_ok (set_up (nw_up w ++ [m]) w) L.
Proof.
  intros [H1 H2 H3 H4] Hm. split; cbn; try done. intros m' [Hin| ->%list_elem_of_singleton]%elem_of_app; [by apply H2|done].
Qed.
Lemma does_send m F : lasting F → (∀ L, F L → up_ok L m) → does F (send_client m) (λ _, F).
Proof.
  intros HF Hm. apply does_act; [done|]. intros ch w L HO HFL. exists L.
  destruct (client_length m), (nd_send ch); split_and!; try done. by apply ok_send; [|apply Hm].
Qed.
Definition publishes (m : ClientMessage) : bool := match m with MPublishExecutionEvents _ _ _ => true | _ => false end.
Lemma calm_send m : publishes m = false → calm (send_client m).
Proof. intros Hm F HF. apply does_send; [done|]. intros L _. by destruct m. Qed.

Lemma does_receive {A} (f : option ServerMessage → NP (Result NodeError A)) F G : lasting F →
  (∀ e L, F L → G (Err e) L) → does F (f None) G → (∀ m, down_ok accepts m → does F (f (Some m)) G) → does F (and_try receive_server f) G.
Proof.
  intros HF HE HN HM. apply does_then. intros ch w L HO HFL. exists L, F.
  assert (∀ e, does F (mret (Err e)) G) as HErr by (intros e; apply does_value, HE).
  destruct (nd_receive ch); [split_and!; try done; apply HErr|]. destruct (nw_down w) as [|m rest] eqn:Ed; [by split_and!|].
  assert (down_ok accepts m) as Hm by (apply (no_down _ _ _ HO); rewrite Ed; left). split_and!; try done; [|by apply HM].
  destruct HO as [H1 H2 H3 H4]. split; try done. cbn. intros m' Hm'. apply H3. rewrite Ed. by right.
Qed.

(** *** Turns *)
Ltac calm_step :=
  match goal with
  | |- NodeTheorems.calm _ (mret _) => apply calm_ret
  | |- context [match ?x with _ => _ end] => destruct x
  | |- NodeTheorems.calm _ (and_try _ _) => apply calm_try; [|intros ?]
  | |- NodeTheorems.calm _ (_ ≫= _) => apply calm_bind; [|intros ?]
  | |- NodeTheorems.calm _ (ledger_read _) => apply calm_read
  | |- NodeTheorems.calm _ (node_draw _) => apply calm_draw
  | |- NodeTheorems.calm _ (look _) => apply calm_look
  | |- NodeTheorems.calm _ wait => apply calm_wait
  | |- NodeTheorems.calm _ (modify _) => apply calm_modify; intros ?; cbn; try done
  | |- NodeTheorems.calm _ (send_client _) => apply calm_send; done
  | |- NodeTheorems.calm _ (progress_write _ _) => apply calm_progress
  end.
Ltac calmly := repeat calm_step.

Lemma calm_signal : calm signal_commit.
Proof. unfold signal_commit. calmly. Qed.
Lemma calm_register c : calm (register_turn c).
Proof. apply calm_act. intros ch w L HO. exists L. split; [|done]. by apply (ok_same w). Qed.
Lemma calm_cancel c : calm (cancel_turn c).
Proof. unfold cancel_turn. apply calm_modify. intros w. by destruct (nw_tokens w !! c). Qed.
Lemma calm_stop t c : calm (runtime_stop t c).
Proof.
  unfold runtime_stop. apply calm_try; [by apply (calm_write _ (NodeStop t c))|]. intros r. apply calm_bind; [|intros ?; apply calm_ret].
  case_decide; [apply calm_cancel|apply calm_ret].
Qed.
Lemma calm_record c kind l : calm (record_live c kind l).
Proof. unfold record_live. destruct (ledger_admit kind l) as [[[] l']|]; [|apply calm_ret..]. calmly; apply calm_signal. Qed.
Lemma calm_record_all c kinds : ∀ l, calm (record_all c kinds l).
Proof. induction kinds as [|kind kinds IH]; intros l; cbn [record_all]; [apply calm_ret|]. apply calm_bind; [apply calm_record|done]. Qed.
Lemma calm_queue frame : calm (queue_frame frame).
Proof. unfold queue_frame. apply calm_modify. intros w. by destruct (_ <? _)%nat. Qed.
Lemma calm_reports n t c : ∀ l, calm (turn_reports n t c l).
Proof.
  induction n as [|n IH]; intros l; cbn [turn_reports]; [apply calm_ret|].
  apply calm_bind; [apply calm_wait|intros _]. apply calm_bind; [apply calm_draw|intros report]. apply calm_bind; [|done].
  unfold emit_live. apply calm_bind; [destruct (report.2); [apply calm_queue|apply calm_ret]|intros _; apply calm_record_all].
Qed.
Lemma calm_finish c kinds : forallb (λ k, negb (is_started k)) kinds = true → calm (finish_unstarted c kinds).
Proof.
  intros Hk. unfold finish_unstarted. apply calm_try; [|intros _; calmly; apply calm_signal].
  apply (calm_write _ (NodeFinish c kinds)); [by split|done].
Qed.

Lemma projected_unstarted messages : ∀ kinds, project_history messages = Ok kinds → forallb (λ k, negb (is_started k)) kinds = true.
Proof.
  induction messages as [|m messages IH]; intros kinds; cbn [project_history]; [by intros [= <-]|].
  destruct m as [content|content ? ? ?|result]; [apply IH|..].
  - intros (events & He & [= <-])%result_bind_ok. rewrite forallb_app, (IH _ He), andb_true_r. clear.
    induction content as [|[] content IH]; cbn; try done.
  - intros (e & He & Hk)%result_bind_ok. apply result_bind_ok in Hk as (events & Hes & [= <-]). cbn. rewrite (IH _ Hes).
    unfold project_tool_result in He. apply result_bind_ok in He as (output & _ & [= <-]). done.
Qed.
Lemma closing_unstarted outcome : forallb (λ k, negb (is_started k)) (closing_events outcome) = true.
Proof. by destruct outcome as [| ? [] | | |]. Qed.

Lemma calm_history {A} (f : list ExecutionEventKind → NP (Result NodeError A)) :
  (∀ kinds, forallb (λ k, negb (is_started k)) kinds = true → calm (f kinds)) → calm (and_try session_events f).
Proof.
  intros Hf F HF. apply does_then. intros ch w L HO HFL. exists L, F. split_and!; try done. cbn.
  destruct (nd_history ch) as [messages|e]; [|by apply does_value]. cbn.
  destruct (project_history messages) as [kinds|e] eqn:Hp; cbn; [|by apply does_value]. by eapply Hf; [eapply projected_unstarted|].
Qed.
Lemma calm_request request t c l : calm (run_request request t c l).
Proof. unfold run_request. calmly; try apply calm_reports. Qed.
Lemma calm_execute record : calm (execute record).
Proof.
  unfold execute. apply calm_bind; [apply calm_register|intros token]. apply calm_bind; [|intros ?; unfold unregister_turn; calmly].
  unfold execute_registered. apply calm_try; [apply calm_read|intros stopped].
  apply calm_bind; [unfold cancel_token; destruct stopped; calmly|intros _].
  destruct (command_request (nr_command record)) as [request|reason].
  2: { unfold token_cancelled, finish_failed. calmly; by apply calm_finish. }
  apply calm_bind; [apply calm_draw|]. intros [error|]; [by apply calm_finish|].
  apply calm_try; [by apply (calm_write _ (NodeTurnStarted (command_id (nr_command record))))|intros _].
  apply calm_bind; [apply calm_signal|intros _]. apply calm_try; [apply calm_read|intros l].
  apply calm_try; [apply calm_request|intros result]. apply calm_bind; [apply calm_draw|intros setup].
  apply calm_history. intros kinds Hk. apply (calm_finish _ (kinds ++ _)). rewrite forallb_app, Hk.
  destruct result as [outcome|]; [|done]. destruct setup; [done|apply closing_unstarted].
Qed.
Lemma calm_schedule : calm schedule_pending.
Proof.
  unfold schedule_pending. apply calm_try; [apply calm_read|intros records]. apply calm_bind; [|intros _; apply calm_ret].
  induction records as [|record records IH]; cbn [schedule_each]; [apply calm_ret|]. apply calm_bind.
  - apply calm_act. intros ch w L HO. exists L. split; [|done]. case_decide; [done|]. by apply (ok_same w).
  - intros fresh. apply calm_bind; [|done]. destruct fresh; [|apply calm_ret]. apply calm_spawn, calm_bind; [apply calm_execute|].
    intros ?. apply calm_ret.
Qed.

(** *** Publishing *)
Definition record_ok_in L c (record : NodeRecord) : Prop :=
  (∃ X, L !! c = Some X ∧ lx_task X = nr_task record) ∧ ∀ n, published_through record = Some n → 0 ≤ n.
Definition pubs_ok pubs L : Prop := ∀ c pub, pubs !! c = Some pub → record_ok_in L c (pub_record pub).
Definition pubs_kept (r : Result NodeError Publications) L : Prop := ∀ pubs, r = Ok pubs → pubs_ok pubs L.
Lemma pubs_lasting pubs : lasting (pubs_ok pubs).
Proof.
  intros L L' Hle HP c pub Hc. destruct (HP c pub Hc) as [(X & HX & Ht) Hn]. destruct (Hle c X HX) as (X' & HX' & (E & _)).
  split; [|done]. exists X'. split; [done|congruence].
Qed.
Lemma kept_lasting r : lasting (pubs_kept r).
Proof. intros L L' Hle HP pubs ->. eapply pubs_lasting; [done|]. by apply HP. Qed.
Lemma kept_ok pubs : does (pubs_ok pubs) (mret (Ok pubs)) pubs_kept.
Proof. apply does_value. by intros L HP pubs' [= <-]. Qed.
Lemma kept_err F e : does F (mret (Err e)) pubs_kept.
Proof. apply does_value. by intros L _ pubs'. Qed.

(** After a step that returns publications or fails. *)
Lemma kept_try {A} F (p : NP (Result NodeError Publications)) (f : Publications → NP (Result NodeError A)) G :
  does F p pubs_kept → (∀ e L, G (Err e) L) → (∀ pubs, does (pubs_ok pubs) (f pubs) G) → does F (and_try p f) G.
Proof.
  intros Hp HE Hf. eapply does_bind; [exact Hp|apply kept_lasting|]. intros [pubs|e]; [|by apply does_value].
  eapply does_conseq; [apply Hf|apply pubs_lasting| |done]. intros L HP. by apply HP.
Qed.
(** After a step that only fails or goes on. *)
Lemma calm_then {A B} F (p : NP (Result NodeError B)) (f : B → NP (Result NodeError A)) G :
  calm p → lasting F → (∀ e L, F L → G (Err e) L) → (∀ b, does F (f b) G) → does F (and_try p f) G.
Proof. intros Hp HF HE Hf. eapply does_bind; [by apply Hp|done|]. intros [b|e]; [done|]. apply does_value, HE. Qed.

(** A step that does nothing. *)
Lemma does_pure {A B} (r : Result NodeError B) (f : B → NP (Result NodeError A)) F G : (∀ e L, F L → G (Err e) L) →
  (∀ b, r = Ok b → does F (f b) G) → does F (and_try (mret r) f) G.
Proof. intros HE Hf. destruct r as [b|e]; [by apply Hf|apply (does_value accepts (Err e)), HE]. Qed.

Lemma record_known db L P records record : ledger_rep db L → load_records P db = Ok records → record ∈ records →
  record_ok_in L (command_id (nr_command record)) record.
Proof.
  intros HR Hl Hin. unfold load_records in Hl. apply collect_omap in Hl as ->.
  apply list_elem_of_omap in Hin as ([row b] & Hrow & Hd). rewrite elem_of_order_by in Hrow.
  apply list_elem_of_omap in Hrow as ([c row'] & Hs%elem_of_select & Hj). cbn in Hj. unfold joined in Hj.
  destruct (host_tasks db !! ne_task row') as [b'|] eqn:Hb; cbn in Hj; [|done]. injection Hj as -> ->.
  destruct (rep_execution _ _ _ _ (lr_events _ _ HR) (proj1 Hs)) as (X & HX & Hrow).
  rewrite (decode_row_rep _ _ _ b Hrow) in Hd. injection Hd as <-. cbn. rewrite (rr_command _ _ _ Hrow). split; [by exists X|]. apply Hrow.
Qed.
Lemma refreshed_ok records L : (∀ record, record ∈ records → record_ok_in L (command_id (nr_command record)) record) →
  ∀ pubs, pubs_ok pubs L → pubs_ok (foldl refresh_entry pubs records) L.
Proof.
  induction records as [|record records IH]; intros Hk pubs HP; [done|]. cbn. apply IH; [intros r Hr; apply Hk; by right|].
  unfold refresh_entry. intros c pub [[<- <-]|[_ Hc]]%lookup_insert_Some; [|by apply HP].
  specialize (Hk record ltac:(left)). by destruct (pubs !! _).
Qed.
Lemma refresh_kept pubs : does (pubs_ok pubs) (refresh_publications pubs) pubs_kept.
Proof.
  apply does_then. intros ch w L HO HP. cbn. unfold node_observe.
  destruct (node_failure (nd_store ch)); [exists L, (λ _, True); split_and!; try done; apply kept_err|].
  destruct (load_pending_publications (nw_ledger w)) as [records|] eqn:Hl;
    [|exists L, (λ _, True); split_and!; try done; apply kept_err].
  exists L, (pubs_ok (refreshed pubs records)). split_and!; try done; [apply pubs_lasting| |apply kept_ok].
  apply refreshed_ok; [intros r Hr; eapply record_known; [apply HO|exact Hl|done]|].
  intros c pub [Hc _]%map_lookup_filter_Some. by apply HP.
Qed.

Lemma batch_prefix t c events : ∀ batch r, batch_from_events t c batch events = Ok r → r `prefix_of` batch ++ events.
Proof.
  induction events as [|event events IH]; intros batch r; cbn; [intros [= ->]; by rewrite app_nil_r|].
  intros (n & _ & HE)%result_bind_ok. destruct (_ <? n); [destruct batch; [done|injection HE as <-; by eexists]|].
  replace (batch ++ event :: events) with ((batch ++ [event]) ++ events) by by rewrite <- app_assoc. by apply IH.
Qed.
Lemma alter_ok f c pubs L : (∀ pub, pub_record (f pub) = pub_record pub) → pubs_ok pubs L → pubs_ok (alter f c pubs) L.
Proof.
  intros Hf HP c' pub [(-> & pub' & Hc & ->)|[_ Hc]]%lookup_alter_Some; [|by apply HP].
  rewrite Hf. by apply HP.
Qed.
Lemma calm_frames n : calm (send_frames n).
Proof.
  induction n as [|n IH]; cbn [send_frames]; [apply calm_ret|]. apply calm_bind.
  - apply calm_act. intros ch w L HO. exists L. split; [|done]. destruct (nw_lagged w); [by apply (ok_same w)|].
    destruct (nw_frames w); [done|by apply (ok_same w)].
  - intros [[frame|]|]; [|done|apply calm_ret]. apply calm_try; [by apply calm_send|done].
Qed.

(** The events of a command after a cursor. *)
Lemma read_events {A} c record (f : list ExecutionEvent → NP (Result NodeError A)) F G : lasting F →
  (∀ L, F L → record_ok_in L c record) → (∀ e L, F L → G (Err e) L) →
  (∀ events, does (λ L, F L ∧ segment L (nr_task record) c events) (f events) G) →
  does F (and_try (ledger_read (load_events_after c (published_through record))) f) G.
Proof.
  intros HF Hc HE Hf. apply does_then. intros ch w L HO HFL. cbn. unfold node_observe.
  assert (∀ e, does F (mret (Err e)) G) as HErr by (intros e; apply does_value, HE).
  destruct (node_failure (nd_store ch)); [exists L, F; split_and!; try done; apply HErr|].
  destruct (load_events_after c (published_through record) (nw_ledger w)) as [events|] eqn:Hl;
    [|exists L, F; split_and!; try done; apply HErr].
  eexists L, _. split_and!; [done..| | |apply Hf].
  - intros L1 L2 Hle [H1 H2]. split; [by eapply HF|by eapply segment_lasting].
  - split; [done|]. destruct (Hc L HFL) as [(X & HX & Ht) Hn]. unfold load_events_after in Hl.
    apply result_bind_ok in Hl as (minimum & Hm & Hev). unfold to_i64 in Hm. apply ok_or_ok, i64_try_from_Some in Hm as [-> _].
    rewrite (event_rows_log _ _ _ _ _ (lr_events _ _ (no_ledger _ _ _ HO)) HX) in Hev.
    + injection Hev as <-. by eexists X, _.
    + destruct (published_through record) as [n|]; [|done]. specialize (Hn n eq_refl). unfold u64_max. lia.
Qed.

Lemma record_lasting c record : lasting (λ L, record_ok_in L c record).
Proof.
  intros L L' Hle [(X & HX & Ht) Hn]. destruct (Hle c X HX) as (X' & HX' & (E & _)). split; [|done]. exists X'. split; [done|congruence].
Qed.
Lemma both_lasting F F' : lasting F → lasting F' → lasting (λ L, F L ∧ F' L).
Proof. intros H1 H2 L L' Hle [? ?]. split; [by eapply H1|by eapply H2]. Qed.
Lemma segment_prefix L t c es events : segment L t c events → es `prefix_of` events → segment L t c es.
Proof. intros (X & n & ? & ? & ?) ?. exists X, n. split_and!; [done..|by etrans]. Qed.

Lemma send_each_kept ordered : ∀ blocked pubs, does (pubs_ok pubs) (send_each ordered blocked pubs) pubs_kept.
Proof.
  induction ordered as [|c ordered IH]; intros blocked pubs; cbn [send_each]; [apply kept_ok|].
  destruct (pubs !! c) as [pub|] eqn:Hc; [|apply kept_err]. set (record := pub_record pub).
  assert (∀ blocked pubs (F : NodeLog → Prop), (∀ L, F L → pubs_ok pubs L) → does F (send_each ordered blocked pubs) pubs_kept) as IH'.
  { intros blocked' pubs' F HF. eapply does_conseq; [apply IH|apply pubs_lasting|done|done]. }
  eapply does_bind with (G' := λ r L, pubs_kept r L ∧ record_ok_in L c record).
  { destruct (negb _ && negb _); [|apply does_value; intros L HP; split; [by intros ? [= <-]|by apply HP]].
    apply calm_then; [by apply calm_send|apply pubs_lasting|intros e L HP; split; [by intros ?|by apply HP]|].
    intros _. apply does_value. intros L HP. split; [|by apply HP]. intros ? [= <-]. by apply alter_ok. }
  { intros r. apply both_lasting; [apply kept_lasting|apply record_lasting]. }
  intros [pubs'|e]; [|apply does_value; by intros L [_ _] ?].
  pose proof (both_lasting _ _ (pubs_lasting pubs') (record_lasting c record)) as Hlast.
  eapply (does_conseq _ (λ L, pubs_ok pubs' L ∧ record_ok_in L c record)); [|done|by intros L [HP ?]; split; [apply HP|]|done].
  case_decide; [apply IH'; naive_solver|]. destruct (event_in_flight pub); [apply IH'; naive_solver|].
  apply read_events; [done|naive_solver|by intros e L _ ?|]. intros events.
  apply does_pure; [by intros e L _ ?|]. intros batch Hb%batch_prefix. cbn in Hb.
  destruct (last batch) as [event|]; [|apply IH'; naive_solver].
  assert (lasting (λ L, (pubs_ok pubs' L ∧ record_ok_in L c record) ∧ segment L (nr_task record) c events)) as Hlast'.
  { apply both_lasting; [done|apply segment_lasting]. }
  apply calm_then; [apply calm_frames|done|by intros e L _ ?|]. intros _.
  eapply does_bind; [apply does_send; [done|]|done|].
  { intros L [_ Hs]. by eapply segment_prefix. }
  intros [[]|e]; [|by apply does_value; intros L _ ?]. apply IH'. intros L [[HP _] _]. by apply alter_ok.
Qed.

(** *** The session *)
Definition session_ok (st : SessionState) : NodeLog → Prop := pubs_ok (ss_publications st).
Definition session_kept (r : Result NodeError SessionState) L : Prop := ∀ st, r = Ok st → session_ok st L.
Definition next_kept (r : Result NodeError (option SessionState)) L : Prop := ∀ st, r = Ok (Some st) → session_ok st L.
Lemma session_lasting r : lasting (session_kept r).
Proof. intros L L' Hle HP st ->. eapply pubs_lasting; [done|]. by apply HP. Qed.
Lemma next_lasting r : lasting (next_kept r).
Proof. intros L L' Hle HP st ->. eapply pubs_lasting; [done|]. by apply HP. Qed.

Lemma send_pending_kept pubs : does (pubs_ok pubs) (send_pending pubs) pubs_kept.
Proof. apply send_each_kept. Qed.

Lemma events_accepted_kept c n pubs : 0 ≤ n → accepts c n → does (pubs_ok pubs) (events_accepted c n pubs) pubs_kept.
Proof.
  intros Hn Ha. unfold events_accepted. apply does_pure; [by intros e L _ ?|]. intros pub Hc%ok_or_ok.
  apply does_pure; [by intros e L _ ?|]. intros expected _. destruct (negb _); [apply kept_err|].
  apply calm_then; [|apply pubs_lasting|by intros e L _ ?|].
  { apply (calm_write _ (NodeAdvance c n)); [|done]. split; [by apply Z.leb_le|done]. }
  intros _. eapply does_conseq; [apply refresh_kept|apply pubs_lasting| |done].
  intros L HP c' pub' [[<- <-]|[_ Hc']]%lookup_insert_Some; [|by apply HP]. destruct (HP _ _ Hc) as [HX _].
  split; [done|]. cbn. by intros n' [= <-].
Qed.
Lemma acknowledge_kept c pubs : does (pubs_ok pubs) (acknowledge_admission c pubs) pubs_kept.
Proof.
  unfold acknowledge_admission. apply does_pure; [by intros e L _ ?|]. intros pub Hc%ok_or_ok.
  destruct (negb _); [apply kept_err|]. apply calm_then; [by apply (calm_write _ (NodeAcknowledge c true))|apply pubs_lasting|by intros e L _ ?|].
  intros _. eapply does_conseq; [apply refresh_kept|apply pubs_lasting| |done].
  intros L HP c' pub' [[<- <-]|[_ Hc']]%lookup_insert_Some; [|by apply HP]. exact (HP _ _ Hc).
Qed.
Lemma calm_handle_execute t command : input_ok (input command) = true → calm (handle_execute t command).
Proof.
  intros Hi. unfold handle_execute. apply calm_bind; [apply calm_draw|]. intros []; [apply calm_ret|].
  apply calm_bind; [apply calm_draw|intros session]. apply calm_try; [apply calm_ret|intros b].
  apply calm_try; [by apply (calm_write _ (NodeAdmit t command b))|intros _].
  apply calm_try; [by apply (calm_write _ (NodeAcknowledge (command_id command) false))|intros _].
  apply calm_bind; [apply calm_signal|intros _]. apply calm_schedule.
Qed.

Lemma link_answer_kept request st F : (∀ L, F L → session_ok st L) → does F (mret (link_answer request st)) session_kept.
Proof.
  intros HF. apply does_value. intros L HFL st'. unfold link_answer. case_decide; [|done]. intros [= <-]. by apply HF.
Qed.
Lemma session_err F e : does F (mret (Err e)) session_kept.
Proof. apply does_value. by intros L _ st. Qed.
Lemma session_same F st : (∀ L, F L → session_ok st L) → does F (mret (Ok st)) session_kept.
Proof. intros HF. apply does_value. intros L HFL st' [= <-]. by apply HF. Qed.

Lemma handle_message_kept m st : down_ok accepts m → does (session_ok st) (handle_server_message m st) session_kept.
Proof.
  intros Hm. destruct m as [| | | | | | | | |request| | | | | | |request| | | |request|request|request|c n|c|t command|t c|call p r| | |[request|] code text];
    cbn [handle_server_message]; try apply session_err; try by apply link_answer_kept.
  - destruct Hm as [Hn Ha]. apply (kept_try (session_ok st)); [by apply events_accepted_kept|by intros e L ?|]. intros pubs.
    apply kept_try; [apply send_pending_kept|by intros e L ?|]. intros pubs'. by apply session_same.
  - apply (kept_try (session_ok st)); [apply acknowledge_kept|by intros e L ?|]. intros pubs. by apply session_same.
  - apply calm_then; [by apply calm_handle_execute|apply pubs_lasting|by intros e L _ ?|]. intros _.
    apply (kept_try (session_ok st)); [apply refresh_kept|by intros e L ?|]. intros pubs.
    apply kept_try; [apply send_pending_kept|by intros e L ?|]. intros pubs'. by apply session_same.
  - apply calm_then; [|apply pubs_lasting|by intros e L _ ?|intros _; by apply session_same].
    apply calm_try; [apply calm_stop|intros r; by apply calm_send].
  - by apply session_same.
Qed.

Lemma advertise_kept st : does (session_ok st) (advertise st) session_kept.
Proof.
  unfold advertise. eapply does_bind; [apply calm_draw, pubs_lasting|intros ?; apply pubs_lasting|]. intros [targets|e]; [|by apply session_same].
  case_decide; [by apply session_same|]. apply calm_then; [by apply calm_send|apply pubs_lasting|by intros e L _ ?|].
  intros _. by apply session_same.
Qed.
Lemma next_err F e : does F (mret (Err e)) next_kept.
Proof. apply does_value. by intros L _ st. Qed.
Lemma next_same F st : (∀ L, F L → session_ok st L) → does F (mret (Ok (Some st))) next_kept.
Proof. intros HF. apply does_value. intros L HFL st' [= <-]. by apply HF. Qed.
Lemma next_none F : does F (mret (Ok None)) next_kept.
Proof. apply does_value. by intros L _ st. Qed.
Lemma next_session F (p : NP (Result NodeError SessionState)) : does F p session_kept →
  does F (st ←? p; mret (Ok (Some st))) next_kept.
Proof.
  intros Hp. eapply does_bind; [exact Hp|apply session_lasting|]. intros [st|e]; [|apply next_err]. apply next_same. intros L HL. by apply HL.
Qed.
Lemma calm_joined t r : calm (finish_execution t r).
Proof. unfold finish_execution. calmly. Qed.

Lemma branch_kept b st : does (session_ok st) (serve_branch b st) next_kept.
Proof.
  pose proof (pubs_lasting (ss_publications st)) as Hl. destruct b; cbn [serve_branch]; try apply next_none.
  - eapply does_bind; [by apply calm_draw|done|]. intros [call|]; [|by apply next_same]. cbn [link_next].
    apply calm_then; [by apply calm_send; destruct call|done|by intros e L _ ?|]. intros _. by apply next_same.
  - eapply does_bind with (G' := λ _, session_ok st); [|done|].
    { apply calm_act; [|done]. intros ch w L HO. exists L. split; [|done]. destruct (nw_lagged w); [by apply (ok_same w)|].
      destruct (nw_frames w); [done|by apply (ok_same w)]. }
    intros [[frame|]|]; [|by apply next_same..]. apply calm_then; [by apply calm_send|done|by intros e L _ ?|]. intros _. by apply next_same.
  - apply (kept_try (session_ok st)); [apply refresh_kept|by intros e L ?|]. intros pubs.
    apply kept_try; [apply send_pending_kept|by intros e L ?|]. intros pubs'. by apply next_same.
  - eapply does_bind; [by apply calm_draw|done|]. intros completed. apply calm_then; [apply calm_joined|done|by intros e L _ ?|]. intros _.
    apply calm_then; [apply calm_schedule|done|by intros e L _ ?|]. intros _. by apply next_same.
  - apply next_session, advertise_kept.
  - eapply does_bind; [by apply calm_draw|done|]. intros reply. case_decide; [|by apply next_same].
    apply calm_then; [|done|by intros e L _ ?|intros _; by apply next_same]. apply calm_send. unfold host_answer.
    destruct (client_length _); [destruct (_ <=? _)|]; done.
  - apply does_receive; [done|by intros e L _ ?|by apply next_same|]. intros m Hm. by apply next_session, handle_message_kept.
Qed.
Definition anything {A} (_ : A) (_ : NodeLog) : Prop := True.
Lemma serve_loop_kept n : ∀ st, does (session_ok st) (serve_loop n st) anything.
Proof.
  induction n as [|n IH]; intros st; cbn [serve_loop]; [by apply does_value|].
  eapply does_bind; [apply calm_wait, pubs_lasting|intros ?; apply pubs_lasting|]. intros ?.
  eapply does_bind; [apply calm_draw, pubs_lasting|intros ?; apply pubs_lasting|]. intros b.
  eapply does_bind; [apply branch_kept|apply next_lasting|]. intros [[st'|]|e]; [|by apply does_value..].
  eapply does_conseq; [apply IH|apply pubs_lasting| |done]. intros L HL. by apply HL.
Qed.
Lemma session_calm credentials n : does (λ _, True) (serve_session credentials n) anything.
Proof.
  unfold serve_session. apply calm_then; [|done|done|].
  - unfold authenticate. apply calm_try; [by apply calm_send|intros _]. apply calm_bind; [apply calm_wait|intros _].
    intros F HF. apply does_receive; [done|done|by apply does_value|]. intros m Hm.
    destruct m; try by apply does_value. destruct (version =? _); by apply does_value.
  - intros _. eapply does_bind with (G' := session_kept); [|apply session_lasting|].
    + unfold begin_session. eapply does_bind with (G' := session_kept); [|apply session_lasting|].
      { eapply does_conseq; [apply advertise_kept|apply pubs_lasting| |done]. intros L _ c pub. cbn. by rewrite lookup_empty. }
      intros [st|e]; [|apply session_err]. eapply (does_conseq _ (session_ok st)); [|apply pubs_lasting|by intros L HL; apply HL|done].
      apply calm_then; [by apply calm_send|apply pubs_lasting|by intros e L _ ?|]. intros _.
      apply kept_try; [|by intros e L ?|].
      { eapply does_conseq; [apply refresh_kept|apply pubs_lasting| |done]. intros L _ c pub. cbn. by rewrite lookup_empty. }
      intros pubs. apply kept_try; [apply send_pending_kept|by intros e L ?|]. intros pubs'. by apply session_same.
    + intros [st|e]; [|by apply does_value]. eapply does_conseq; [apply serve_loop_kept|apply pubs_lasting| |done].
      intros L HL. by apply HL.
Qed.
End node_programs.

(** ** The coordinator beside the node *)
Section beside.
Context `{CS : ControlSerde} `{LT : LibraryTexts} `{DG : Digest} `{!ControlSerdeLaws}.
Context (me : NodeId).
Implicit Types (db : ControlDb) (J : Journals) (T : Journal) (t : TaskId) (c : CommandId).

(** The journals grow, and the streams of the node's tasks stay. *)
Definition streams_stay J J' : Prop :=
  ∀ t T' c, J' !! t = Some T' → j_node T' = me → stream_of c (j_log T') = [] ∨
    ∃ T, J !! t = Some T ∧ j_node T = me ∧ stream_of c (j_log T') = stream_of c (j_log T).
Record apart J J' : Prop := {
  ap_grows : ∀ t T, J !! t = Some T → ∃ T', J' !! t = Some T' ∧ grows T T';
  ap_streams : streams_stay J J';
}.
#[export] Instance apart_preorder : PreOrder apart.
Proof.
  split.
  - intros J. split; [by intros t T HT; exists T|]. intros t T c HT Hn. right. by exists T.
  - intros J1 J2 J3 [G1 S1] [G2 S2]. split.
    + intros t T HT. destruct (G1 t T HT) as (T2 & HT2 & ?). destruct (G2 t T2 HT2) as (T3 & HT3 & ?). exists T3. split; [done|by etrans].
    + intros t T3 c HT3 Hn. destruct (S2 t T3 c HT3 Hn) as [?|(T2 & HT2 & Hn2 & ->)]; [by left|by apply S1].
Qed.

Lemma apart_open J t p n tg : J !! t = None → apart J (<[t := MkJournal p n tg []]> J).
Proof.
  intros Hn. split.
  - intros t' T HT. exists T. rewrite lookup_insert_ne by congruence. done.
  - intros t' T' c [[<- <-]|[_ HT]]%lookup_insert_Some Hm; [by left|right; by exists T'].
Qed.
Lemma apart_append J t T ks : J !! t = Some T → (j_node T = me → ∀ c, stream_of c ks = []) → apart J (<[t := log_append ks T]> J).
Proof.
  intros HT Hks. split.
  - intros t' T0 HT0. destruct (decide (t = t')) as [<-|Hne]; [|exists T0; by rewrite lookup_insert_ne].
    simplify_eq. eexists. rewrite lookup_insert_eq. split; [done|]. split; [done|by eexists].
  - intros t' T' c [[<- <-]|[_ HT']]%lookup_insert_Some Hm; right; [|by exists T']. exists T. split_and!; [done..|].
    cbn [log_append j_log]. by rewrite stream_of_app, Hks, app_nil_r.
Qed.
Lemma apart_submits t env db J T ev db' : J !! t = Some T → submits t env db J T ev db' →
  ∃ J', represents db' J' ∧ apart J J'.
Proof. intros HT HS. eexists. split; [apply HS|]. by apply apart_append. Qed.

Lemma apart_after J t T ks J' : J !! t = Some T → apart (<[t := log_append ks T]> J) J' →
  ∀ t0 T0, J !! t0 = Some T0 → ∃ T', J' !! t0 = Some T' ∧ grows T0 T'.
Proof.
  intros HT [HG _] t0 T0 HT0. destruct (decide (t = t0)) as [<-|Hne]; [|by apply HG; rewrite lookup_insert_ne]. simplify_eq.
  destruct (HG t (log_append ks T)) as (T' & HT' & HG'); [apply lookup_insert_eq|]. exists T'. split; [done|].
  etrans; [|exact HG']. split; [done|by eexists].
Qed.

(** A batch of another task, or of the node's own: what it adds, and then its reply. *)
Lemma publish_apart ch t c es replier db adm db' J : represents db J →
  append_execution_events_body ch t c es replier db = Ok (adm, db') →
  ∃ T new J', J !! t = Some T ∧ represents db' J' ∧ apart (<[t := log_append (ExecutionRecord c <$> new) T]> J) J' ∧
    (∃ x s, batch_from x s es ∧ es ≠ [] ∧ accepted x s (stream_of c (j_log T)) new es) ∧
    through_execution_sequence adm = Z.of_nat (length (stream_of c (j_log T) ++ new)) - 1.
Proof.
  intros HR HT. destruct (publish_sound _ _ _ _ _ _ _ _ _ HR HT) as (T & new & adm1 & db1 & HJ & HE & E1 & _ & Hr).
  exists T, new. apply admit_reply_sound with (J := <[t := log_append (ExecutionRecord c <$> new) T]> J) in Hr; [|apply HE].
  rewrite E1. destruct (reply adm) as [r|].
  - destruct Hr as (Ta & HTa & _ & _ & _ & HS). destruct (apart_submits _ _ _ _ _ _ _ HTa HS) as (J' & HR' & HA).
    exists J'. split_and!; [done..|apply HE|apply HE].
  - subst. eexists. split_and!; [done|apply HE|done|apply HE|apply HE].
Qed.

(** What else the coordinator does meanwhile: it deletes no task, and takes the
    node's events from the node alone. *)
Definition other_call db (call : Call) : bool :=
  match call with
  | CallDelete _ _ => false
  | CallPublish t _ _ _ => negb (bool_decide (node_of_task t db = Some me))
  | _ => typed_call call
  end.

Definition moves_apart J db' : Prop := ∃ J', represents db' J' ∧ apart J J'.
Lemma moves_same J db' : represents db' J → moves_apart J db'.
Proof. by exists J. Qed.
Lemma attempt_apart {A} ch (m : CTx A) db J : represents db J →
  (∀ a db', m db = Ok (a, db') → moves_apart J db') → moves_apart J (attempt ch m db).2.
Proof.
  intros HR Hm. unfold attempt. destruct (control_failure ch); [by apply moves_same|].
  unfold commit. destruct (m db) as [[a db']|] eqn:E; [by eapply Hm|by apply moves_same].
Qed.
Lemma insert_apart task db u db' J : represents db J → insert_task task db = Ok (u, db') → moves_apart J db'.
Proof.
  intros HR HT. apply (insert_task_ok _ _ _ _ J HR) in HT as (HJ & HR' & _). eexists. split; [done|by apply apart_open].
Qed.
Lemma message_apart ch n cards dest m a db db' J : represents db J → admit_in ch n cards dest m db = Ok (a, db') → moves_apart J db'.
Proof.
  intros HR HT. apply (admit_in_sound _ _ _ _ _ _ _ _ _ HR) in HT as (p & ft & T0 & env0 & d & _ & HO).
  destruct a; cbn in HO.
  - destruct HO as (-> & -> & _ & db1 & J1 & T & (HR1 & HJ1 & _ & _ & _ & Ht) & HS).
    destruct (apart_submits _ _ _ _ _ _ _ HJ1 HS) as (J' & HR' & HA). exists J'. split; [done|].
    destruct Ht as [[-> ->]|(HJ & -> & Hl)]; [done|]. etrans; [|exact HA].
    replace T with (MkJournal (j_principal T) (j_node T) (j_target T) []); [by apply apart_open|]. destruct T; cbn in *. congruence.
  - destruct HO as (_ & _ & -> & _). by apply moves_same.
Qed.
Lemma other_call_apart ch call db J : represents db J → other_call db call = true → moves_apart J (run_call ch call db).
Proof.
  intros HR Hty. destruct call; cbn [run_call]; [..|by apply moves_same; eapply represents_same];
    try done; apply attempt_apart; try done; intros x db' HT.
  - by eapply insert_apart.
  - unfold open_body in HT. tx_inv. destruct (tasks db !! task_id task).
    + destruct (same_binding _ _ _); tx_inv. by apply moves_same.
    + tx_inv. match goal with H : match available with _ => _ end _ = _ |- _ => destruct available; tx_inv end. by eapply insert_apart.
  - apply (admit_command_sound _ _ _ _ _ _ _ _ _ _ J HR Hty) in HT as (T & HJ & Hp & HA).
    destruct x; [|destruct HA as (_ & _ & HS); by eapply apart_submits|]; destruct HA as (_ & -> & _); by apply moves_same.
  - destruct (publish_apart _ _ _ _ _ _ _ _ _ HR HT) as (T & new & J' & HJ & HR' & HA & _). exists J'. split; [done|]. etrans; [|exact HA].
    apply apart_append; [done|]. intros Hn. cbn in Hty. rewrite bool_decide_true in Hty; [done|].
    by rewrite (node_of_task_log _ _ _ (rp_journal _ _ HR)), HJ, <- Hn.
  - by eapply moves_same, stop_keeps.
  - by eapply moves_same, acknowledge_keeps.
  - by eapply moves_same, acknowledge_stop_keeps.
  - by eapply message_apart.
  - by eapply moves_same, request_wake_keeps.
  - by eapply moves_same, settle_keeps.
  - by eapply moves_same, enroll_keeps.
  - by eapply moves_same, put_notice_keeps.
  - unfold withdraw_notices_body in HT. apply identity_tx_ok in HT as (i & _ & ->). by apply moves_same; eapply represents_same.
Qed.

(** The coordinator has the command's events up to the sequence. *)
Definition accepted_at db c (n : Z) : Prop :=
  ∃ s k, streams db !! c = Some s ∧ n < s_next s ∧ commands db !! c = Some k ∧ node_of_task (k_task k) db = Some me.

Lemma accepted_spec db J c n : represents db J → 0 ≤ n →
  accepted_at db c n ↔ ∃ t T, J !! t = Some T ∧ j_node T = me ∧ n < Z.of_nat (length (stream_of c (j_log T))).
Proof.
  intros HR Hn. split.
  - intros (s & k & Hs & Hlt & Hk & Ho). destruct (cr_row _ _ (rp_commands _ _ HR) _ _ Hk) as (T & i & env & HT & Hi & Hc & _).
    rewrite (node_of_task_log _ _ _ (rp_journal _ _ HR)), HT in Ho. injection Ho as Ho. exists (k_task k), T. split_and!; [done..|].
    assert (stream_for (streams db !! c) (stream_of c (j_log T))) as Hf.
    { eapply (sr_for _ _ _ (rp_streams _ _ HR)); [done|]. exists env. split; [by eapply list_elem_of_lookup_2|done]. }
    unfold stream_for in Hf. rewrite Hs in Hf. destruct (head _); [|done]. injection Hf as ->. done.
  - intros (t & T & HT & Ho & Hlt). destruct (stream_of c (j_log T)) as [|e xs] eqn:Es; [cbn in Hlt; lia|].
    assert (submitted (j_log T) c) as Hsub.
    { eapply stream_submitted; [apply HR|done|rewrite Es; left]. }
    destruct (submitted_row _ _ _ _ _ (rp_commands _ _ HR) HT Hsub) as (k & Hk & <-).
    pose proof (sr_for _ _ _ (rp_streams _ _ HR) _ _ _ HT Hsub) as Hf. unfold stream_for in Hf. rewrite Es in Hf. cbn [head fmap option_fmap option_map] in Hf.
    eexists _, k. split_and!; [exact Hf|done|done|]. by rewrite (node_of_task_log _ _ _ (rp_journal _ _ HR)), HT, <- Ho.
Qed.
Lemma accepted_grows db J db' J' c n : represents db J → represents db' J' → 0 ≤ n →
  (∀ t T, J !! t = Some T → ∃ T', J' !! t = Some T' ∧ grows T T') → accepted_at db c n → accepted_at db' c n.
Proof.
  intros HR HR' Hn HG (t & T & HT & Ho & Hlt)%(accepted_spec _ _ _ _ HR Hn). apply (accepted_spec _ _ _ _ HR' Hn).
  destruct (HG t T HT) as (T' & HT' & [E [ks Hk]]). injection E as _ E _. exists t, T'. split_and!; [done|congruence|].
  rewrite Hk, stream_of_app, length_app. lia.
Qed.
End beside.

(** ** The node and the coordinator *)
Section node_and_coordinator.
Context `{NS : NodeSerde} `{LT : LibraryTexts} `{NT : NodeTexts} `{HH : HostHome} `{CL : !ClientLength}.
Context {BS : TextSerde (list ContentBlock)} `{DG : Digest} `{!ControlSerdeLaws} `{!NodeSerdeLaws}.
Context (me : NodeId).
Implicit Types (db : ControlDb) (w : NodeWorld) (L : NodeLog) (X : Execution) (J : Journals) (T : Journal).

(** Batches the coordinator received from the node and has not yet stored. *)
Abbreviation Batches := (list (TaskId * CommandId * list ExecutionEvent)).
Record System := MkSystem { sy_node : Config NodeWorld NodeChance; sy_control : ControlDb; sy_received : Batches }.

(** What a node starts: the turns its ledger left open, sessions, and what it does when a turn ends between them. *)
Definition node_starts (p : NP unit) : Prop :=
  (∃ credentials n, p = (_ ← serve_session credentials n; mret tt)) ∨ p = (_ ← schedule_pending; mret tt) ∨
  ∃ t r, p = (_ ← finish_execution t r; _ ← schedule_pending; mret tt).
Definition restarted w : NodeWorld := MkNodeWorld (nw_ledger w) ∅ 0 ∅ 0 [] false ∅ [] [].
(** The check of [publish_execution_events]. *)
Definition received_batch db (m : ClientMessage) : Batches :=
  match m with
  | MPublishExecutionEvents t c es => if decide (node_of_task t db = Some me) then [(t, c, es)] else []
  | _ => []
  end.
(** What the coordinator sends besides acknowledgements of events. *)
Definition sendable (m : ServerMessage) : bool :=
  match m with SExecute _ command => input_ok (input command) | SExecutionEventsAccepted _ _ => false | _ => true end.
Definition acknowledged (answers : bool) (r : Result ControlError ExecutionEventAdmission) c w : NodeWorld :=
  match r with
  | Ok a => if answers then set_down (nw_down w ++ [SExecutionEventsAccepted c (through_execution_sequence a)]) w else w
  | Err _ => w
  end.

Inductive system_step : System → System → Prop :=
| system_node k k' db rs : step node_starts (λ _ _, False) k k' → system_step (MkSystem k db rs) (MkSystem k' db rs)
| system_restart w l ts db rs : system_step (MkSystem (MkConfig w l ts) db rs) (MkSystem (MkConfig (restarted w) None []) db rs)
| system_disconnect w l ts db rs :
    system_step (MkSystem (MkConfig w l ts) db rs) (MkSystem (MkConfig (set_up [] (set_down [] w)) l ts) db rs)
| system_receive w l ts db rs m rest : nw_up w = m :: rest →
    system_step (MkSystem (MkConfig w l ts) db rs) (MkSystem (MkConfig (set_up rest w) l ts) db (rs ++ received_batch db m))
| system_publish w l ts db rs1 rs2 t c es ch replier answers :
    let r := attempt ch (append_execution_events_body ch t c es replier) db in
    system_step (MkSystem (MkConfig w l ts) db (rs1 ++ (t, c, es) :: rs2))
      (MkSystem (MkConfig (acknowledged answers r.1 c w) l ts) r.2 (rs1 ++ rs2))
| system_call k db rs ch call : other_call me db call = true →
    system_step (MkSystem k db rs) (MkSystem k (run_call ch call db) rs)
| system_send w l ts db rs m : sendable m = true →
    system_step (MkSystem (MkConfig w l ts) db rs) (MkSystem (MkConfig (set_down (nw_down w ++ [m]) w) l ts) db rs).

Definition system_start : System :=
  MkSystem (MkConfig (MkNodeWorld new_ledger ∅ 0 ∅ 0 [] false ∅ [] []) None []) empty_control [].

(** The streams of the node's tasks are beginnings of its executions. *)
Definition streams_follow J L : Prop :=
  ∀ t T c, J !! t = Some T → j_node T = me → stream_of c (j_log T) = [] ∨
    ∃ X, L !! c = Some X ∧ lx_task X = t ∧ stream_of c (j_log T) `prefix_of` lx_log X.
Record system_ok (accepts : CommandId → Z → Prop) (s : System) J L : Prop := {
  sk_journals : represents (sy_control s) J;
  sk_ledger : ledger_rep (nw_ledger (world (sy_node s))) L;
  sk_streams : streams_follow J L;
  sk_received : ∀ t c es, (t, c, es) ∈ sy_received s → segment L t c es ∧ node_of_task t (sy_control s) = Some me;
  sk_node : sound (node_wf accepts) unowed free node_rely (sy_node s);
}.

Lemma starts_verified accepts p : node_starts p → verified (node_wf accepts) unowed free node_rely p.
Proof.
  intros Hp. apply (guards_verified _ _ _ (λ _, knows (λ _, True))).
  apply (guards_conseq _ _ (knows (λ _, True)) _ _ (λ _, knows (λ _, True))); [|by apply knows_stable| |done].
  2: { intros w [L HO] _. exists L. split; [apply HO|done]. }
  assert (calm accepts (_ ← schedule_pending; mret tt)) as Hs by (apply calm_bind; [apply calm_schedule|intros ?; apply calm_ret]).
  destruct Hp as [(credentials & n & ->)|[->|(t & r & ->)]].
  - eapply does_bind; [apply session_calm|done|]. intros ?. by apply does_value.
  - by apply Hs.
  - apply calm_bind; [apply calm_joined|intros ?|done]. exact Hs.
Qed.

Lemma prefix_pointwise {A} (l1 : list A) : ∀ l2, (∀ i a, l1 !! i = Some a → l2 !! i = Some a) → l1 `prefix_of` l2.
Proof.
  induction l1 as [|a l1 IH]; intros l2 Hl; [by eexists|]. destruct l2 as [|b l2]; [by specialize (Hl 0%nat a eq_refl)|].
  pose proof (Hl 0%nat a eq_refl) as [= ->]. apply prefix_cons, IH. intros i a' Hi. exact (Hl (S i) a' Hi).
Qed.

Lemma follow_grow J L L' : log_le L L' → streams_follow J L → streams_follow J L'.
Proof.
  intros Hle HF t T c HT Hn. destruct (HF t T c HT Hn) as [?|(X & HX & Ht & Hp)]; [by left|right].
  destruct (Hle c X HX) as (X' & HX' & (E & _ & Hp' & _)). exists X'. split_and!; [done|congruence|by etrans].
Qed.
Lemma follow_apart J J' L : apart me J J' → streams_follow J L → streams_follow J' L.
Proof.
  intros [_ HS] HF t T' c HT' Hn. destruct (HS t T' c HT' Hn) as [?|(T & HT & HnT & ->)]; [by left|by apply HF].
Qed.
Lemma follow_publish J L t c es T x s new : streams_follow J L → (∀ c X, L !! c = Some X → execution_wf c X) → J !! t = Some T →
  segment L t c es → accepted x s (stream_of c (j_log T)) new es →
  streams_follow (<[t := log_append (ExecutionRecord c <$> new) T]> J) L.
Proof.
  intros HF HW HT (X & n & HX & Ht & Hes) HA t' T' c' [[<- <-]|[_ HT']]%lookup_insert_Some Hn; [|by apply HF].
  cbn [log_append j_log j_node] in *. rewrite stream_of_app. destruct (decide (c' = c)) as [->|Hne].
  2: { rewrite stream_of_other, app_nil_r by done. by apply HF. }
  rewrite stream_of_records. right. exists X. split_and!; [done..|]. apply prefix_pointwise.
  intros i e [Hi|[Hge Hi]]%lookup_app_Some.
  - destruct (HF t T c HT Hn) as [E|(X' & HX' & _ & Hp)]; [by rewrite E in Hi|]. simplify_eq. by eapply prefix_lookup_Some.
  - assert (e ∈ lx_log X) as (j & Hj)%list_elem_of_lookup.
    { rewrite (ac_new _ _ _ _ _ HA), lookup_drop in Hi. apply list_elem_of_lookup_2 in Hi.
      eapply elem_of_prefix in Hi; [|exact Hes]. by apply (subseteq_drop n) in Hi. }
    assert (x_sequence e = Z.of_nat i) as E1.
    { apply (sw_sequence _ (ac_wf _ _ _ _ _ HA)). apply lookup_app_Some. by right. }
    rewrite (sw_sequence _ (xw_stream _ _ (HW _ _ HX)) _ _ Hj) in E1. by assert (j = i) as <- by lia.
Qed.

Lemma sound_elsewhere accepts w w' l (ts : list (NP unit)) : nw_ledger w' = nw_ledger w → (∀ L, node_ok accepts w L → node_ok accepts w' L) →
  sound (node_wf accepts) unowed free node_rely (MkConfig w l ts) → sound (node_wf accepts) unowed free node_rely (MkConfig w' l ts).
Proof.
  intros E Hok HS. eapply mild_step_sound; [|exact HS]. split; [|by intros L HL; exists L; rewrite E|done|by intros []].
  destruct (so_wf _ _ _ _ _ HS) as [L HO]. exists L. by apply Hok.
Qed.

(** Whatever happens, the journals grow. *)
Lemma step_grows s s' J : system_step s s' → represents (sy_control s) J →
  ∃ J', represents (sy_control s') J' ∧ ∀ t T, J !! t = Some T → ∃ T', J' !! t = Some T' ∧ grows T T'.
Proof.
  intros Hst HR. assert (∃ J', represents (sy_control s) J' ∧ ∀ t T, J !! t = Some T → ∃ T', J' !! t = Some T' ∧ grows T T') as Hsame.
  { exists J. split; [done|]. intros t T HT. by exists T. }
  destruct Hst as [k k' db rs| | | |w l ts db rs1 rs2 t c es ch replier answers r|k db rs ch call Hc|]; try done; cbn in *.
  - unfold r, attempt in *. destruct (control_failure ch); [done|]. unfold commit.
    destruct (append_execution_events_body ch t c es replier db) as [[adm db']|] eqn:HT; [|done].
    destruct (publish_apart me _ _ _ _ _ _ _ _ _ HR HT) as (T & new & J' & HJ & HR' & HA & _). exists J'. split; [done|].
    by apply (apart_after me J t T _ J' HJ HA).
  - destruct (other_call_apart me ch call db J HR Hc) as (J' & HR' & [HG _]). by exists J'.
Qed.
Lemma owner_grows db db' J J' t : represents db J → represents db' J' →
  (∀ t T, J !! t = Some T → ∃ T', J' !! t = Some T' ∧ grows T T') → node_of_task t db = Some me → node_of_task t db' = Some me.
Proof.
  intros HR HR' HG. rewrite (node_of_task_log _ _ _ (rp_journal _ _ HR)), (node_of_task_log _ _ _ (rp_journal _ _ HR')).
  destruct (J !! t) as [T|] eqn:HT; [|done]. destruct (HG t T HT) as (T' & -> & [E _]). injection E as _ E _. cbn. intros [= <-]. by rewrite E.
Qed.

Lemma system_stored db ch t c es replier adm db' J : represents db J →
  append_execution_events_body ch t c es replier db = Ok (adm, db') → node_of_task t db = Some me →
  ∃ J', represents db' J' ∧ (∀ t0 T0, J !! t0 = Some T0 → ∃ T', J' !! t0 = Some T' ∧ grows T0 T') ∧
    0 ≤ through_execution_sequence adm ∧ accepted_at me db' c (through_execution_sequence adm) ∧
    ∀ L, streams_follow J L → (∀ c X, L !! c = Some X → execution_wf c X) → segment L t c es → streams_follow J' L.
Proof.
  intros HR HT Hown.
  destruct (publish_apart me _ _ _ _ _ _ _ _ _ HR HT) as (T & new & J' & HJ & HR' & HA & (x & sq & _ & Hne & Hac) & Hth).
  rewrite (node_of_task_log _ _ _ (rp_journal _ _ HR)), HJ in Hown. injection Hown as Hown.
  set (T1 := log_append (ExecutionRecord c <$> new) T) in *.
  pose proof (apart_after me J t T _ J' HJ HA) as HG.
  destruct (ap_grows _ _ _ HA t T1) as (T' & HT' & [E [ks Hk]]); [apply lookup_insert_eq|]. injection E as _ E _.
  assert (stream_of c (j_log T) ++ new ≠ []) as Hne'.
  { destruct es as [|e es]; [done|]. intros E'. pose proof (ac_batch _ _ _ _ _ Hac e ltac:(left)) as Hb. by rewrite E' in Hb. }
  assert (0 < length (stream_of c (j_log T) ++ new))%nat as Hlen by (destruct (_ ++ _); [done|cbn; lia]).
  exists J'. rewrite Hth. split_and!; [done|done|lia| |].
  - apply (accepted_spec _ _ J'); [done|lia|]. exists t, T'. split_and!; [done|by rewrite E|].
    rewrite Hk. unfold T1. cbn [log_append j_log]. rewrite !stream_of_app, stream_of_records, !length_app. lia.
  - intros L HF HW Hseg. eapply follow_apart; [exact HA|]. by eapply follow_publish.
Qed.

Lemma step_ok accepts s s' J L : system_step s s' → (∀ c n, 0 ≤ n → accepted_at me (sy_control s') c n → accepts c n) →
  system_ok accepts s J L → ∃ J' L', system_ok accepts s' J' L'.
Proof.
  intros Hst Hacc [HR HL HF Hrs HS].
  assert (∀ w l ts L0, sy_node s = MkConfig w l ts → node_ok accepts w L0 → L0 = L) as Hsame.
  { intros w l ts L0 E HO. rewrite E in HL. eapply ledger_unique; [apply HO|done]. }
  destruct Hst as [k k' db rs Hk|w l ts db rs|w l ts db rs|w l ts db rs m rest Hup|w l ts db rs1 rs2 t c es ch replier answers r|
    k db rs ch call Hc|w l ts db rs m Hm]; cbn in *.
  - destruct (sound_rely _ _ _ _ _ _ HS Hk L HL) as (L' & HL' & Hle). exists J, L'. split; cbn; [done|done|by eapply follow_grow| |].
    + intros t c es Hin. destruct (Hrs t c es Hin). split; [by eapply segment_lasting|done].
    + refine (step_sound node_starts (λ _ _, False) _ _ _ _ (starts_verified accepts) _ _ _ Hk HS). done.
  - exists J, L. split; cbn; try done. apply sound_start; [|by intros []]. destruct (so_wf _ _ _ _ _ HS) as [L0 [H1 H2 H3 H4]].
    exists L0. split; cbn; try done; by intros m ?%elem_of_nil.
  - exists J, L. split; cbn; try done. eapply sound_elsewhere; [| |exact HS]; [done|]. intros L0 [H1 H2 H3 H4].
    split; cbn; try done; by intros m ?%elem_of_nil.
  - exists J, L. split; cbn; try done.
    + intros t c es [Hin|Hin]%elem_of_app; [by apply Hrs|]. destruct (so_wf _ _ _ _ _ HS) as [L0 HO].
      rewrite (Hsame w l ts L0 eq_refl HO) in HO. pose proof (no_up _ _ _ HO m) as Hm. cbn [world] in Hm. rewrite Hup in Hm. specialize (Hm ltac:(left)).
      destruct m; cbn in Hin; try by apply elem_of_nil in Hin. case_decide; [|by apply elem_of_nil in Hin].
      apply list_elem_of_singleton in Hin. injection Hin as -> -> ->. done.
    + eapply sound_elsewhere; [| |exact HS]; [done|]. intros L0 [H1 H2 H3 H4]. split; cbn; try done.
      intros m' Hm'. apply H2. rewrite Hup. by right.
  - unfold r, attempt in *. clear r. assert (∀ db', (∀ t, node_of_task t db = Some me → node_of_task t db' = Some me) →
      ∀ t0 c0 es0, (t0, c0, es0) ∈ rs1 ++ rs2 → segment L t0 c0 es0 ∧ node_of_task t0 db' = Some me) as Hrest.
    { intros db' Ho t0 c0 es0 Hin. destruct (Hrs t0 c0 es0); [|by auto]. set_solver. }
    destruct (control_failure ch); [exists J, L; split; cbn; try done; by apply Hrest|]. unfold commit in *.
    destruct (append_execution_events_body ch t c es replier db) as [[adm db']|] eqn:HT; [|exists J, L; split; cbn; try done; by apply Hrest].
    destruct (Hrs t c es) as [Hseg Hown]; [set_solver|].
    destruct (system_stored _ _ _ _ _ _ _ _ _ HR HT Hown) as (J' & HR' & HG & Hpos & Hat & HF').
    cbn [fst snd] in *. assert (nw_ledger (acknowledged answers (Ok adm) c w) = nw_ledger w) as E by by destruct answers.
    exists J', L. split; cbn [sy_control sy_node sy_received world]; [done|by rewrite E|apply HF'; [done|apply HL|done]| |].
    + apply Hrest. intros t0. by eapply owner_grows.
    + eapply sound_elsewhere; [exact E| |exact HS]. destruct answers; [|done]. intros L0 [H1 H2 H3 H4]. split; cbn; try done.
      intros m' [Hin| ->%list_elem_of_singleton]%elem_of_app; [by apply H3|]. split; [done|by apply Hacc].
  - destruct (other_call_apart me ch call db J HR Hc) as (J' & HR' & HA). exists J', L. split; cbn; [done|done| | |done].
    + by eapply follow_apart.
    + intros t c es Hin. destruct (Hrs t c es Hin). split; [done|]. eapply owner_grows; [exact HR|exact HR'|apply HA|done].
  - exists J, L. split; cbn; try done. eapply sound_elsewhere; [| |exact HS]; [done|]. intros L0 [H1 H2 H3 H4]. split; cbn; try done.
    intros m' [Hin| ->%list_elem_of_singleton]%elem_of_app; [by apply H3|]. by destruct m.
Qed.

Lemma nothing_pending (db : NodeDb) L c X : ledger_rep db L → load_pending_publications db = Ok [] → L !! c = Some X →
  ends (lx_log X) = true ∧ ∃ n, lx_published X = Some n ∧ Z.of_nat (length (lx_log X)) ≤ n + 1.
Proof.
  intros HR Hl HX. destruct (rep_row _ _ _ _ (lr_events _ _ HR) HX) as (row & Hr & Hrow).
  assert (publication_pending db c row = false) as Hp.
  { apply not_true_is_false. intros Hp. destruct (er_bound _ _ (lr_events _ _ HR) _ _ HX) as [b Hb].
    assert ((row, b) ∈ order_by (λ r, ne_admission r.1) (omap (λ kv, joined db kv.2) (select (publication_pending db) (host_executions db)))) as Hin.
    { apply elem_of_order_by, list_elem_of_omap. exists (c, row). split; [by apply elem_of_select|]. cbn. unfold joined.
      by rewrite (rr_task _ _ _ Hrow), Hb. }
    unfold load_pending_publications, load_records in Hl. destruct (order_by _ _) as [|r rows]; [by apply elem_of_nil in Hin|].
    cbn in Hl. apply result_bind_ok in Hl as (? & _ & Hl). by apply result_bind_ok in Hl as (? & _ & [=]). }
  unfold publication_pending in Hp. apply orb_false_iff in Hp as [[Ht%negb_false_iff _]%orb_false_iff Hp].
  rewrite (lr_terminal _ _ HR _ _ _ Hr HX) in Ht. split; [done|]. rewrite (rr_published _ _ _ Hrow) in Hp.
  destruct (lx_published X) as [n|]; [|done]. exists n. split; [done|].
  rewrite (max_sequence_log _ _ _ _ (lr_events _ _ HR) HX) in Hp by apply (lr_wf _ _ HR _ _ HX). apply Z.ltb_ge in Hp. lia.
Qed.

Lemma run_ok s s' : rtc system_step s s' → ∀ accepts J L, (∀ c n, 0 ≤ n → accepted_at me (sy_control s') c n → accepts c n) →
  system_ok accepts s J L → ∃ J' L', system_ok accepts s' J' L'.
Proof.
  induction 1 as [s|s s1 s2 Hst Hrun IH]; intros accepts J L Hacc HO; [by exists J, L|].
  destruct (step_ok accepts s s1 J L Hst) as (J1 & L1 & HO1); [|done|by eapply IH].
  intros c n Hn Hat. apply Hacc; [done|]. destruct (step_grows s s1 J Hst (sk_journals _ _ _ _ HO)) as (J1 & HR1 & _).
  clear Hacc HO IH Hst. revert J1 HR1 Hat. induction Hrun as [s1|s1 s2 s3 Hst _ IH]; intros J1 HR1 Hat; [done|].
  destruct (step_grows _ _ _ Hst HR1) as (J2 & HR2 & HG). apply (IH J2 HR2). eapply accepted_grows; [exact HR1|exact HR2|done..].
Qed.

Lemma start_ok accepts : system_ok accepts system_start ∅ ∅.
Proof.
  split; cbn; [apply represents_empty|apply new_ledger_rep|done|by intros t c es ?%elem_of_nil|].
  apply sound_start; [|by intros []]. exists ∅. split; cbn; [apply new_ledger_rep|by intros m ?%elem_of_nil..|done].
Qed.

(** C19. The journals of a node's tasks follow its ledger, as long as no task is
    deleted at the coordinator and the node forgets none (the clean-up of an
    automation's tasks is not part of these runs). Apart from that anything may happen: turns and sessions run interleaved, transactions
    of both sides fail, the connection is lost with what was on it, the
    coordinator stores a received batch late and its answer is lost, all its
    other calls (submissions, stops, messages, acknowledgements and the
    publications of other nodes' tasks) come between, and the node restarts. The events the
    coordinator has of a command are always a beginning of those the node
    recorded for it, in the same task and the same order. What the node counts
    as published, the coordinator has. And once the node has nothing left to
    publish, the journal holds exactly its events. *)
Theorem journals_follow_ledger s : rtc system_step system_start s →
  ∃ J L, represents (sy_control s) J ∧ ledger_rep (nw_ledger (world (sy_node s))) L ∧ streams_follow J L ∧
    (∀ c X n, L !! c = Some X → lx_published X = Some n →
       ∃ T, J !! lx_task X = Some T ∧ j_node T = me ∧ n < Z.of_nat (length (stream_of c (j_log T)))) ∧
    (load_pending_publications (nw_ledger (world (sy_node s))) = Ok [] →
       ∀ c X, L !! c = Some X → ∃ T, J !! lx_task X = Some T ∧ stream_of c (j_log T) = lx_log X).
Proof.
  intros Hrun. destruct (run_ok _ _ Hrun (λ c n, 0 ≤ n → accepted_at me (sy_control s) c n) ∅ ∅) as (J & L & [HR HL HF _ HS]);
    [done|apply start_ok|].
  assert (∀ c X n, L !! c = Some X → lx_published X = Some n →
    ∃ T, J !! lx_task X = Some T ∧ j_node T = me ∧ n < Z.of_nat (length (stream_of c (j_log T)))) as Hpub.
  { intros c X n HX Hn. destruct (so_wf _ _ _ _ _ HS) as [L0 HO]. rewrite (ledger_unique _ _ _ (no_ledger _ _ _ HO) HL) in HO.
    destruct (rep_row _ _ _ _ (lr_events _ _ HL) HX) as (row & _ & Hrow). pose proof (rr_cursor _ _ _ Hrow n Hn) as Hpos.
    pose proof (no_published _ _ _ HO c X n HX Hn Hpos) as Hat. apply (accepted_spec _ _ J) in Hat as (t & T & HT & Hm & Hlt); [|done..].
    destruct (HF t T c HT Hm) as [E|(X' & HX' & <- & _)]; [rewrite E in Hlt; cbn in Hlt; lia|]. simplify_eq. eauto. }
  exists J, L. split_and!; [done..|]. intros Hnone c X HX.
  destruct (nothing_pending _ _ _ _ HL Hnone HX) as (_ & n & Hn & Hlen). destruct (Hpub c X n HX Hn) as (T & HT & Hm & Hlt).
  exists T. split; [done|]. destruct (HF _ T c HT Hm) as [E|(X' & HX' & _ & [rest Hp])]; [rewrite E in Hlt; cbn in Hlt|].
  - destruct (rep_row _ _ _ _ (lr_events _ _ HL) HX) as (row & _ & Hrow). pose proof (rr_cursor _ _ _ Hrow n Hn). lia.
  - simplify_eq. rewrite Hp in Hlen |- *. rewrite length_app in Hlen. destruct rest; [by rewrite app_nil_r|cbn in Hlen; lia].
Qed.

(** ** Runs, computed *)
Inductive NodeStart := StartSession (credentials : DeviceCredentials) (n : nat) | StartTurns.
Definition start_program (start : NodeStart) : NP unit :=
  match start with
  | StartSession credentials n => _ ← serve_session credentials n; mret tt
  | StartTurns => _ ← schedule_pending; mret tt
  end.
Inductive Move :=
| MoveThread (i : nat) (ch : NodeChance)
| MoveStart (start : NodeStart)
| MoveRestart
| MoveDisconnect
| MoveReceive
| MoveStore (ch : ControlChoice) (replier : string) (answers : bool)   (* the first of the received batches *)
| MoveCall (ch : ControlChoice) (call : Call)
| MoveSend (m : ServerMessage).
Definition system_move (mv : Move) (s : System) : option System :=
  let '(MkSystem (MkConfig w l ts) db rs) := s in
  match mv with
  | MoveThread i ch => k ← advance i ch (MkConfig w l ts); Some (MkSystem k db rs)
  | MoveStart start => Some (MkSystem (MkConfig w l (ts ++ [start_program start])) db rs)
  | MoveRestart => Some (MkSystem (MkConfig (restarted w) None []) db rs)
  | MoveDisconnect => Some (MkSystem (MkConfig (set_up [] (set_down [] w)) l ts) db rs)
  | MoveReceive =>
      match nw_up w with m :: rest => Some (MkSystem (MkConfig (set_up rest w) l ts) db (rs ++ received_batch db m)) | [] => None end
  | MoveStore ch replier answers =>
      match rs with
      | (t, c, es) :: rs =>
          let r := attempt ch (append_execution_events_body ch t c es replier) db in
          Some (MkSystem (MkConfig (acknowledged answers r.1 c w) l ts) r.2 rs)
      | [] => None
      end
  | MoveCall ch call => if other_call me db call then Some (MkSystem (MkConfig w l ts) (run_call ch call db) rs) else None
  | MoveSend m => if sendable m then Some (MkSystem (MkConfig (set_down (nw_down w ++ [m]) w) l ts) db rs) else None
  end.
Definition system_moves (mvs : list Move) (s : System) : option System := foldl (λ s mv, s ≫= system_move mv) (Some s) mvs.

Lemma system_move_step mv s s' : system_move mv s = Some s' → system_step s s'.
Proof.
  destruct s as [[w l ts] db rs], mv as [i ch|start| | | |ch replier answers|ch call|m]; cbn [system_move].
  - destruct (advance i ch _) as [k|] eqn:E; cbn; [|done]. intros [= <-]. by eapply system_node, advance_step.
  - intros [= <-]. apply system_node, step_arrive. destruct start; [left; eauto|right; by left].
  - intros [= <-]. apply system_restart.
  - intros [= <-]. apply system_disconnect.
  - destruct (nw_up w) eqn:E; [done|]. intros [= <-]. by apply system_receive.
  - destruct rs as [|[[t c] es] rs]; [done|]. intros [= <-]. apply (system_publish w l ts db []).
  - destruct (other_call me db call) eqn:E; [|done]. intros [= <-]. by apply system_call.
  - destruct (sendable m) eqn:E; [|done]. intros [= <-]. by apply system_send.
Qed.
Lemma system_moves_steps mvs s s' : system_moves mvs s = Some s' → rtc system_step s s'.
Proof.
  unfold system_moves. revert s. induction mvs as [|mv mvs IH]; cbn; intros s Hs; [by injection Hs as ->|].
  destruct (system_move mv s) as [s1|] eqn:E; [eapply rtc_l; [by eapply system_move_step|by apply IH]|].
  exfalso. clear IH E. induction mvs; [done|auto].
Qed.
End node_and_coordinator.

(** ** Instances *)
Section examples.
Import ControlJson.

#[local] Instance ledger_serde : NodeSerde := {
  execution_event_serde := {| to_string e := Some (enc c_execution e); from_str := dec c_execution |};
  execution_kind_serde := {| to_string k := Some (enc c_execution_kind k); from_str := dec c_execution_kind |};
}.
#[local] Instance ledger_serde_laws : NodeSerdeLaws.
Proof. split; intros a t [= <-]; [apply (dec_enc c_execution)|apply (dec_enc c_execution_kind)]. Qed.
#[local] Instance ledger_texts : NodeTexts := {| integer_overflow := "integer overflow"; table_full := "database or disk is full" |}.
#[local] Instance one_agent : HostHome := {|
  parse_str s := if String.eqb s (uuid_text 5) then Some 5%N else None;
  agent_workspace s := Ok ("/host/" +:+ s) |}.
#[local] Instance short_messages : ClientLength := λ _, Some 1.
#[local] Instance block_texts : TextSerde (list ContentBlock) := {| to_text _ := Ok "" |}.

Definition the_agent : TargetRef := agent_target 5.
Definition node_task : TaskSpec := MkTaskSpec chat owner node the_agent.
Definition node_command : CommandEnvelope := MkCommandEnvelope ask owner surface1 the_agent (from_text "hi") None.
Definition node_choice : NodeChoice := MkNodeChoice None (λ db, MkRid (N.of_nat (size (host_events db)))) (λ _, Some 7).
Definition spoken_history : list Message :=
  [user_text "hi"; Assistant [AssistantText "hello" None] Stop None default_metadata].
(** What the node's programs take: a turn that says hello. *)
Definition usual (b : Branch) : NodeChance :=
  MkNodeChance node_choice b false None None 60 (Err NodeSerialization) None (0%N, MkHostReply 0 "") (chat, Ok tt) None None 0
    MessageAbort None (Ok (TurnCompleted "hello" Stop)) (Ok spoken_history) None.
Definition credentials_of_node : DeviceCredentials := MkDeviceCredentials (MkRid 300) "secret".
Definition steps_of (n i : nat) (b : Branch) : list Move := replicate n (MoveThread i (usual b)).

Definition connect : list Move :=
  [MoveStart (StartSession credentials_of_node 9)] ++ steps_of 2 0 ReadyMessage ++ [MoveSend (SAuthenticated JSON_WS_VERSION)].
Definition opening_moves : list Move :=
  [MoveCall choice (CallEnroll node owner "7" (MkEnrollmentRow (enc c_str "") 0));
   MoveCall choice (CallOpen node_task Advertised);
   MoveCall choice (CallSubmit chat owner surface1 ask (from_text "hi") true)].
(** The node takes a command, runs it and publishes its start; the answer is
    lost with the connection, the node restarts, and its next session publishes
    everything again. *)
Definition lost_answer : list Move :=
  opening_moves ++ connect ++ [MoveSend (SExecute chat node_command)] ++ steps_of 20 0 ReadyMessage ++ steps_of 8 1 ReadyMessage ++
  replicate 4 MoveReceive ++ [MoveStore choice "Main" false] ++ steps_of 7 1 ReadyMessage ++ [MoveDisconnect; MoveRestart] ++
  connect ++ steps_of 8 0 ReadyMessage ++ replicate 4 MoveReceive ++
  [MoveStore choice "Main" true; MoveSend (SExecutionAcknowledged ask)] ++ steps_of 11 0 ReadyMessage.

(** The kinds of a command's events in a ledger, computed. *)
Definition kinds_of (db : NodeDb) (c : CommandId) : option (list ExecutionEventKind) :=
  match collect (λ kv, node_decode kv.2) (event_rows c 0 db) with Ok events => Some (x_kind <$> events) | Err _ => None end.
Lemma kinds_log db L c kinds : ledger_rep db L → is_Some (host_executions db !! c) → kinds_of db c = Some kinds →
  ∃ X, L !! c = Some X ∧ x_kind <$> lx_log X = kinds ∧ Some (lx_task X) = ne_task <$> host_executions db !! c.
Proof.
  intros HR [row Hr] Hk. destruct (rep_execution _ _ _ _ (lr_events _ _ HR) Hr) as (X & HX & Hrow). exists X. split; [done|].
  unfold kinds_of in Hk. rewrite (event_rows_log _ _ _ _ 0 (lr_events _ _ HR) HX) in Hk by done. injection Hk as <-.
  split; [done|]. rewrite Hr. cbn. by rewrite (rr_task _ _ _ Hrow).
Qed.
Definition told : list ExecutionEventKind :=
  [ExecutionStarted; TurnStarted; AssistantMessage "hello"; ExecutionTerminated ExecutionCompleted].

Definition settled_at_end (s : System) : bool :=
  let ledger := nw_ledger (world (sy_node s)) in
  match load_pending_publications ledger with Ok [] => true | _ => false end &&
  bool_decide (kinds_of ledger ask = Some told) && bool_decide (ne_task <$> host_executions ledger !! ask = Some chat).
Lemma lost_answer_settles : ∃ s, rtc (system_step node) system_start s ∧ settled_at_end s = true.
Proof.
  assert (match system_moves node lost_answer system_start with Some s => settled_at_end s | None => false end = true) as Hs by by vm_compute.
  destruct (system_moves node lost_answer system_start) as [s|] eqn:E; [|done]. exists s. split; [by eapply system_moves_steps|done].
Qed.

Lemma journals_follow_ledger_witness : ∃ s J T, rtc (system_step node) system_start s ∧ represents (sy_control s) J ∧
  J !! chat = Some T ∧ x_kind <$> stream_of ask (j_log T) = told.
Proof.
  destruct lost_answer_settles as (s & Hs & Hend). unfold settled_at_end in Hend.
  apply andb_true_iff in Hend as [[Hp Hk%bool_decide_eq_true]%andb_true_iff Ht%bool_decide_eq_true].
  destruct (journals_follow_ledger node s Hs) as (J & L & HR & HL & _ & _ & Hall).
  destruct (kinds_log _ L ask told HL) as (X & HX & HkX & HtX); [by destruct (host_executions _ !! ask)|done|].
  destruct (load_pending_publications _) as [[|]|] eqn:El; try done. destruct (Hall eq_refl ask X HX) as (T & HT & Hst).
  exists s, J, T. rewrite Ht in HtX. injection HtX as HtX. rewrite HtX in HT. rewrite Hst. done.
Defined.

(** ** A ledger *)
Definition bound_agent_5 : TargetBinding := MkTargetBinding the_agent 5 60 "/host/5".
Definition admits : list (NodeChoice * NodeCall) := [(node_choice, NodeAdmit chat node_command bound_agent_5)].
Definition runs_once : list (NodeChoice * NodeCall) :=
  [(node_choice, NodeTurnStarted ask); (node_choice, NodeProgress ask (AssistantMessage "hello"));
   (node_choice, NodeFinish ask [AssistantMessage "hello"; ExecutionTerminated ExecutionCompleted])].

Lemma node_ledger_grows_witness : ∃ L1 L2 X1 X2, ledger_rep (node_lifetime admits new_ledger) L1 ∧
  ledger_rep (node_lifetime (admits ++ runs_once) new_ledger) L2 ∧ L1 !! ask = Some X1 ∧ L2 !! ask = Some X2 ∧
  execution_grows X1 X2 ∧ x_kind <$> lx_log X1 = [ExecutionStarted] ∧ x_kind <$> lx_log X2 = told.
Proof.
  destruct (node_ledger_grows admits runs_once eq_refl) as (L1 & L2 & HR1 & HR2 & _ & HG).
  destruct (kinds_log _ _ ask [ExecutionStarted] HR1) as (X1 & HX1 & Hk1 & _); [by vm_compute; eauto|by vm_compute|].
  destruct (kinds_log _ _ ask told HR2) as (X2 & HX2 & Hk2 & _); [by vm_compute; eauto|by vm_compute|].
  destruct (HG ask X1 HX1) as (X2' & HX2' & Hg); [|simplify_eq; by exists L1, L2, X1, X2].
  intros [ch Hin]. apply list_elem_of_In in Hin as [[=]|[[=]|[[=]|[]]]].
Defined.

(** ** A turn that is driven twice *)
Definition admitted_world : NodeWorld := MkNodeWorld (node_lifetime admits new_ledger) ∅ 0 ∅ 0 [] false ∅ [] [].
Definition ledger_now w : LiveLedger :=
  match live_ledger ask (nw_ledger w) with Ok l => l | Err _ => MkLiveLedger (λ _, 0%nat) (λ _, 0%nat) end.
Definition says (text : string) : list TurnItem :=
  [Report (usual ReadyMessage) (AssistantMessage text); Beside node_choice (NodeTurnStarted ask)].
Definition driven (text : string) (w : NodeWorld) : NodeWorld := (foldl (turn_item ask) (ledger_now w, w) (says text)).2.
Definition history_kinds : list ExecutionEventKind := [AssistantMessage "hello"; ExecutionTerminated ExecutionCompleted].
Definition ends_ok (r : Result NodeStoreError (unit * NodeDb)) : bool := match r with Ok _ => true | Err _ => false end.

Lemma driven_attempt text drives w w' : match live_ledger ask (nw_ledger w) with Ok _ => true | Err _ => false end = true →
  attempts ask chat drives (driven text w) w' → attempts ask chat ([AssistantMessage text] :: drives) w w'.
Proof.
  intros Hl Hw. apply (attempts_again ask chat w (ledger_now w) (says text)); [|by vm_compute|done].
  unfold ledger_now. by destruct (live_ledger _ _).
Qed.

(** The first drive's answer is lost before it settles and two later drives give
    another: the other is recorded once, the lost one stays. *)
Lemma each_event_recorded_once_witness : ∃ db' L' X', ledger_rep db' L' ∧ L' !! ask = Some X' ∧ ends (lx_log X') = true ∧
  occurs (KeyMessage "hello") (x_kind <$> lx_log X') = 1%nat ∧ (occurs (KeyMessage "hi") (x_kind <$> lx_log X') ≤ 1)%nat.
Proof.
  assert (∃ L X, ledger_rep (nw_ledger admitted_world) L ∧ L !! ask = Some X ∧ x_kind <$> lx_log X = [ExecutionStarted] ∧ lx_task X = chat)
    as (L & X & HR & HX & Hk & Ht).
  { destruct (lifetime_ledger admits new_ledger ∅ new_ledger_rep eq_refl) as (L & _ & HR & _).
    destruct (kinds_log _ _ ask [ExecutionStarted] HR) as (X & HX & Hk & Ht); [by vm_compute; eauto|by vm_compute|].
    vm_compute in Ht. injection Ht as Ht. by exists L, X. }
  assert (∀ e, e ∈ lx_log X → is_live (x_kind e) = false) as Hlive.
  { intros e He. assert (x_kind e ∈ x_kind <$> lx_log X) as Hin by by apply list_elem_of_fmap_2. rewrite Hk in Hin.
    apply list_elem_of_singleton in Hin. by rewrite Hin. }
  assert (ends (lx_log X) = false) as Hend.
  { destruct (lx_log X) as [|e [|]]; try done. injection Hk as Hk. by rewrite ends_one, Hk. }
  assert (attempts ask (lx_task X) [[AssistantMessage "hi"]; [AssistantMessage "hello"]; [AssistantMessage "hello"]] admitted_world
    (driven "hello" (driven "hello" (driven "hi" admitted_world)))) as Ha.
  { rewrite Ht. do 3 (apply driven_attempt; [by vm_compute|]). apply attempts_end. }
  assert (ends_ok (finish_body node_choice ask history_kinds
    (nw_ledger (driven "hello" (driven "hello" (driven "hi" admitted_world))))) = true) as HF by by vm_compute.
  revert HF Ha. generalize (driven "hello" (driven "hello" (driven "hi" admitted_world))). intros w' HF Ha.
  destruct (finish_body node_choice ask history_kinds (nw_ledger w')) as [[[] db']|] eqn:E; [|done].
  destruct (each_event_recorded_once ask _ history_kinds admitted_world w' node_choice db' L X HR HX Hlive Hend Ha eq_refl E)
    as (L' & X' & HR' & HX' & He & Ho).
  exists db', L', X'. split_and!; [exact HR'|exact HX'|exact He|..].
  - apply (Ho (KeyMessage "hello") eq_refl). intros drive Hd. repeat (apply elem_of_cons in Hd as [->|Hd]); [by vm_compute; lia..|].
    by apply elem_of_nil in Hd.
  - destruct (Ho (KeyMessage "hi") eq_refl) as [[_ Hle] _]. exact Hle.
Defined.

(** The lost answer is in the ledger although the history does not have it. *)
Lemma lost_answer_stays :
  match node_attempt node_choice (finish_body node_choice ask history_kinds)
          (nw_ledger (driven "hello" (driven "hi" admitted_world))) with
  | (Ok _, db) => match load_recorded ask db with Ok recorded => recorded (KeyMessage "hi") | Err _ => 0%nat end
  | (Err _, _) => 0%nat
  end = 1%nat.
Proof. by vm_compute. Qed.
End examples.
